(* ===== verification/_CoqProject ===== *)
-Q . S2P
Prelude.v
GoLib.v
Framing.v
GatewayWire.v
RateLimit.v
Quota.v
Stun.v
ClientQueue.v
Gateway.v
GatewayInv.v
PaneDelta.v
E2EE.v
E2EESafety.v
State.v
StateInv.v
StateSafety.v
SendBuffer.v
DeadlineHeap.v
Scheduler.v
SchedulerInv.v
SchedulerSteps.v
SchedulerSafety.v
SeqMatch.v
History.v
PaneSize.v
Mux.v
GoText.v
GatewaySelect.v
Hub.v
QuestionInput.v
HerdrSessions.v
Poller.v
DispatchBase.v
Handlers.v
DispatchSafety.v
DispatchAnswers.v
Workspaces.v
Portmap.v
Journal.v
Gate.v
PaneWatch.v
View.v
SessionCache.v
Push.v
Release.v
