(* ===== verification/Prelude.v ===== *)
(** * Herdr mobile relay: a verification development

    The program lets a phone watch and drive coding agents that run in the panes
    of a terminal multiplexer (herdr) on a computer.  A relay on the computer
    ([src/internal]) keeps the state of the panes and talks to phones; a gateway
    ([src/internal/gateway]) pairs phones with relays that have no public address
    and sees only ciphertext; the phone runs a web app ([src/frontend]).

    What a phone sends passes the gateway, the link of the relay to it, the
    encrypted session and the hub, and reaches the dispatcher of the coordinator.
    A handler gives an effect to the scheduler, which runs it in the queue of its
    pane; the effect types into the pane through the herdr client and reads the
    screen.  The poller reads the inventory of herdr, commits it to the pane state,
    and broadcasts what changed through the hub.

    ** Files

    Shared:
    - [Prelude]: notation, machine integers, results, slices with their panics,
      time, the tactics, big-endian integers.
    - [GoLib], [GoText]: the standard library the code calls: strings as bytes,
      UTF-8 validity, base64url, line splitting, white space, trimming, fields.

    From the phone to the relay:
    - [Framing]: chunk framing ([framing/framing.go]): [Chunk], [Count], the
      [Reassembler] with [Push], [Expired], [Reset].
    - [GatewayWire]: the wire contract of the gateway
      ([gatewaywire/gatewaywire.go]): frames, hellos, relay ids, proofs.
    - [RateLimit], [Quota], [Stun], [ClientQueue]: the parts of the gateway
      ([gateway/ratelimit.go], [quota.go], [stun.go], [client.go]).
    - [Gateway]: server, relay links and phones ([gateway/server.go], [relay.go],
      [client.go]), one function per critical section and per handler;
      [GatewayInv]: the goroutines as a step relation and its invariants.
    - [GatewaySelect]: the gateway the relay registers with and its reconnection;
      [Mux]: the registered link and the connections it hands to the hub
      ([transport/gateway.go], [conn.go]).
    - [E2EE]: the encrypted session on the relay ([transport/e2ee.go]) and on the
      phone ([frontend/src/lib/e2ee.ts]); [E2EESafety]: its guarantees.
    - [SendBuffer]: the outbound buffer of a phone ([transport/sendbuffer.go]);
      [Hub]: admission, order and broadcasts of all phones ([transport/ws.go]).
    - [Portmap]: NAT-PMP, PCP and the renewal of a port mapping ([portmap]).

    The coordinator:
    - [State]: the pane state ([coordinator/state.go], [triage.go]); [StateInv]:
      one operation at a time; [StateSafety]: runs.
    - [DeadlineHeap], [Scheduler]: the scheduler of commands
      ([coordinator/coordinator.go], [heap.go], [types.go]); [SchedulerInv]: the
      invariant; [SchedulerSteps]: the cases of its loop; [SchedulerSafety]: runs.
    - [HerdrSessions]: the herdr sessions of a host and the routing of ids
      ([herdr/sessions.go], [coordinator/sessions.go]); [Poller]: the poller and
      the event streams ([coordinator/poller.go]); [SessionCache]: the queue of
      events and the topology that they keep up to date ([herdr/events.go]).
    - [QuestionInput]: the key presses that give an answer ([question/input.go]).
    - [DispatchBase]: the monad of the dispatcher and its world; [Handlers]: the
      handlers ([coordinator/dispatch.go], [approval.go], [lifecycle.go]);
      [DispatchSafety], [DispatchAnswers]: their guarantees.
    - [Workspaces]: workspaces and worktrees ([coordinator/workspace.go]).

    What the phones are told:
    - [Gate]: the messages of the phones, read and admitted by their version
      ([protocol], the router of [app/server.go]).
    - [PaneWatch]: the panes that phones watch ([app/pane_watch.go], the pane
      responses of [app/server.go]) and the phone that follows them
      ([frontend], [applyPaneDelta] and the pane store).
    - [View]: the committed views a connecting phone gets ([broadcastCommitted] and
      [applyAgentDelta] of [app/server.go]) and the events of herdr that arrive by
      UDP ([coordinator/udp.go]).

    The text of panes:
    - [PaneDelta]: deltas of pane text ([panedelta/delta.go]).
    - [SeqMatch]: the sequence matcher ([seqmatch]); [History]: the history of a
      pane, merged from snapshots ([history/history.go]).
    - [PaneSize]: the leases on the size of a pane ([panesize/manager.go]).

    Records kept on disk:
    - [Journal]: the journal of agent activity ([activity/journal.go]).
    - [Push]: the Web Push subscriptions, their preferences and file, the key pair of
      the relay, the messages and their links ([push/manager.go]).
    - [Release]: manifests of releases, transport compatibility, and what an update
      stages ([release], [update/stage.go]).

    ** How code becomes definitions

    A Go function is a Rocq function of the same name.  A method that mutates its
    receiver returns the new receiver; an error return is a [result] or an
    [option]; a run-time panic (index, slice, nil dereference) is [None].  A
    section under a mutex, or one atomic operation, is one function, so that a
    step relation over these functions has the interleavings of the goroutines.
    The clock, random bytes, reads and whether a write succeeds are arguments;
    writes, callbacks and file writes are returned as lists of effects.  Pointers
    that are compared (connections, operations) are positions in a heap or ids in
    a map.  Integers are kept at their width where the code can overflow ([u8] …
    [u64], [i64]); counters of operations ([uint64] in the scheduler and the hub)
    are unbounded.

    The handlers of the coordinator are written in a state monad: what herdr, the
    file system and the clock answer is a function of the events so far, so that a
    theorem about every such function is one about every behaviour of the outside.
    What the scheduler does with an admitted command is such an answer too
    ([execution] of [DispatchBase]: refused, answered from an earlier attempt, run,
    or run and shut down before its answer is taken); [Scheduler] has its owner.
    The reads of the clock in one case of a loop are one instant.

    Code that is not in the repository is a parameter with named laws: cryptography
    and JSON (the classes [Crypto] and [Json] of [E2EE] with [CryptoLaws] and
    [JsonLaws] of [E2EESafety], which only speak of messages in base64; section
    variables elsewhere; [reread] of [History] is a JSON round trip), the router of
    [Portmap]; toy instances show that the laws can hold.  The parser of terminal prompts is arbitrary.

    ** What the theorems show

    - Pane state: in every reachable state the bookkeeping of each pane is
      consistent and bounded; a poll never overwrites a newer event; a replaced or
      vanished pane session never becomes current again; a completion is announced
      at most once; the callback fires exactly on the documented transitions; what
      the phone is shown is [DisplayedStatus].
    - Scheduler: every command is answered exactly once and runs at most once; a
      retry joins the command it repeats; workers are bounded, admissible and never
      idle while something could run; no event panics.
    - Dispatcher: input goes to the pane session it was meant for and to no other;
      a command that is reported as safe to retry has typed nothing, unless the
      scheduler was shut down in between; an answer is typed as planned, and the plan
      changes exactly the ticks that differ; the ordered ingress is released before
      herdr is called; a secret is not echoed; an approval is for the prompt that was
      on the screen when it was checked; agents start below the home directory.
    - Poller and sessions: broadcasts keep up with the state; ids reach the server
      of their session; the commands on workspaces are told to the phones.
    - Encrypted session: a phone and a relay with the same token always complete
      the handshake with the same keys; every conversation arrives exactly; frames
      are never replayed, nonces never reused; what the proofs authenticate is
      unambiguous.
    - Link and hub: what a phone and the hub send each other through the gateway
      link arrives exactly, whatever the other phones do; a phone gets a snapshot
      or every change since its own; the gateway that is chosen obeys the rule.
    - Framing and codecs: chunking and reassembly, the gateway frames, the binary
      frames, STUN, NAT-PMP and PCP messages and pane deltas are exact inverses, and
      bounded on hostile input.
    - Gateway: client and registration ceilings hold under every interleaving;
      connection ids are not reused; a displaced link cannot evict its successor;
      teardown is final; the rate limiter and the quota implement their
      specifications; STUN answers are bounded in rate and size; the queue of a
      phone is a bounded FIFO, as is the outbound buffer of the relay.
    - Text: matching blocks are common, ordered and maximal; a scrolled snapshot
      extends the history by its new lines; terminals get their own size back.
    - Event stream: events arrive exactly, in order; the cache refines the plain lists
      of workspaces and tabs that herdr tells, after any events that list nothing
      twice; an event that reports no change changes nothing.
    - Phones: a watched pane shows the frame that was read, whatever deltas were
      skipped, with at most one frame in flight; the committed view never goes back
      to an older revision; every message is admitted or refused by its version.
    - Journal: it stays within its limits; an operation on a journal at rest happened
      or did not, wherever the program stops.
    - Push: a muted agent stays silent whatever runs beside a notification; every
      other one reaches whom it should; the relay starts again whatever writes failed,
      with the subscriptions and the keys it had written; a tap opens the agent the message is about.
    - Releases: an archive cannot write outside of the stage, also when extraction
      fails; a release directory that verifies is exactly what its manifest lists
      (a link to one is not walked), and what is built verifies.

    ** Fuel and bounds

    Loops over lists are structural.  Where a loop takes fuel a theorem says that
    it suffices: [PaneDelta.matchLoop] and [buildLoop] advance by a line each turn;
    [SeqMatch.blocksLoop] has 2n+1 turns for n lines, since every block splits a
    range in two; a round of the scheduler's dispatch starts or drops a queued
    command, so there are as many as queued ones; eviction and expiry remove an
    entry each turn.  Where the code counts, so does the model: 27 attempts to
    recognise an agent, 140 polls for a custom agent, 14 ticks of a watch, three
    transmissions of a port-mapping request.  [GatewayInv] bounds the number of
    steps by 2^32 because connection ids are [uint32]; the sessions stop at 2^53
    frames as the code does.

    ** Not modelled

    HTTP, WebSocket, WebRTC and process I/O and the user interface have no logic
    that these definitions could state without a model of their libraries; the
    hooks that the tests install are left out, as is the mutex [topologyMu], which
    only delays.  The sockets and processes behind [SessionCache] and the herdr
    client, the delivery of push messages, self update and deployment are such I/O
    for the most part.  The parser of terminal prompts and the readers of agent
    transcripts are heuristics over other programs' text: their results are
    arbitrary here, so that what is proved does not depend on them.  The states of
    an update in progress and the profiles are left to be added. *)
From stdpp Require Export gmap strings list fin_maps.
From Stdlib Require Import ZArith Lia.

#[global] Open Scope Z_scope.

(** * Notation *)

Declare Scope herdr_scope.
Delimit Scope herdr_scope with herdr.
#[global] Open Scope herdr_scope.

(** ** Bytes, machine integers *)

(** A Go [byte] is a [Z] in [0, 256); a Go [[]byte] a list of them. *)
Abbreviation bytes := (list Z) (only parsing).

Definition is_byte (b : Z) : Prop := 0 <= b < 256.
Abbreviation bytes_ok := (Forall is_byte).

(** [len(x)] as a Go [int]. *)
Abbreviation len l := (Z.of_nat (length l)).

Definition u8 (z : Z) : Z := z mod 2 ^ 8.
Definition u16 (z : Z) : Z := z mod 2 ^ 16.
Definition u32 (z : Z) : Z := z mod 2 ^ 32.
Definition u64 (z : Z) : Z := z mod 2 ^ 64.
(** two's complement wrap-around of a Go [int64] (and of [int] on the 64-bit
    platforms the program is built for) *)
Definition i64 (z : Z) : Z := (z + 2 ^ 63) mod 2 ^ 64 - 2 ^ 63.

Definition max_int64 : Z := 2 ^ 63 - 1.
Definition min_int64 : Z := - 2 ^ 63.

(** ** Results *)

Inductive result (E A : Type) : Type :=
| Ok (a : A)
| Err (e : E).
Arguments Ok {E A} a.
Arguments Err {E A} e.

Definition rbind {E A B} (r : result E A) (k : A -> result E B) : result E B :=
  match r with Ok a => k a | Err e => Err e end.

Notation "'let!' x := r 'in' k" := (rbind r (fun x => k))
  (at level 10, x binder, r at level 100, k at level 200) : herdr_scope.
Notation "'let?' x := o 'in' k" := (mbind (fun x => k) o)
  (at level 10, x binder, o at level 100, k at level 200) : herdr_scope.

Definition is_ok {E A} (r : result E A) : bool :=
  match r with Ok _ => true | Err _ => false end.

#[export] Instance result_eq_dec {E A} `{EqDecision E, EqDecision A} : EqDecision (result E A).
Proof. solve_decision. Defined.

(** ** Slices *)

(** [l[lo:hi]]: [None] is the run-time panic of an index out of range. *)
Definition slice {A} (l : list A) (lo hi : Z) : option (list A) :=
  if (0 <=? lo) && (lo <=? hi) && (hi <=? len l)
  then Some (take (Z.to_nat (hi - lo)) (drop (Z.to_nat lo) l))
  else None.

(** [l[i]]; [None] is the run-time panic. *)
Definition index {A} (l : list A) (i : Z) : option A :=
  if 0 <=? i then l !! Z.to_nat i else None.

(** a [for … range] loop whose body can panic *)
Fixpoint foldM {A B} (f : A -> B -> option A) (a : A) (l : list B) : option A :=
  match l with
  | [] => Some a
  | b :: l => let? a := f a b in foldM f a l
  end.

(** ** Time *)

(** A [time.Time] is a number of nanoseconds since the zero [time.Time]; a
    [time.Duration] is an [int64] of nanoseconds, and [Sub] saturates. *)
Abbreviation time := Z (only parsing).
Abbreviation duration := Z (only parsing).

Definition zero_time : time := 0.
Definition time_sub (t u : time) : duration :=
  Z.max min_int64 (Z.min max_int64 (t - u)).
Definition second : duration := 1000000000.

(** ** Tactics *)

Create HintDb herdr discriminated.
Create Rewrite HintDb herdr.

(** case on every comparison of integers or booleans in sight *)
Ltac zb :=
  repeat match goal with
  | H : (_ && _)%bool = true |- _ => apply andb_true_iff in H as [? ?]
  | H : (_ || _)%bool = false |- _ => apply orb_false_iff in H as [? ?]
  | H : (_ || _)%bool = true |- _ => apply orb_true_iff in H as [?|?]
  | H : (_ && _)%bool = false |- _ => apply andb_false_iff in H as [?|?]
  | H : negb _ = true |- _ => apply negb_true_iff in H
  | H : negb _ = false |- _ => apply negb_false_iff in H
  | H : (_ <=? _) = true |- _ => apply Z.leb_le in H
  | H : (_ <=? _) = false |- _ => apply Z.leb_gt in H
  | H : (_ <? _) = true |- _ => apply Z.ltb_lt in H
  | H : (_ <? _) = false |- _ => apply Z.ltb_ge in H
  | H : (_ >? _) = _ |- _ => rewrite Z.gtb_ltb in H
  | H : (_ >=? _) = _ |- _ => rewrite Z.geb_leb in H
  | H : (_ =? _) = true |- _ => apply Z.eqb_eq in H
  | H : (_ =? _) = false |- _ => apply Z.eqb_neq in H
  | H : bool_decide _ = true |- _ => apply bool_decide_eq_true in H
  | H : bool_decide _ = false |- _ => apply bool_decide_eq_false in H
  end.

(** split a conditional of the goal, turning its test into arithmetic *)
Ltac case_if :=
  match goal with
  | |- context [if ?b then _ else _] => let E := fresh "E" in destruct b eqn:E
  end.
Ltac case_if_in H :=
  match type of H with
  | context [if ?b then _ else _] => let E := fresh "E" in destruct b eqn:E
  end.

Ltac ifs := repeat (case_if; simplify_eq/=; zb).

(** * Generic lemmas *)

Section Lists.
Context {A : Type}.
Implicit Types l : list A.

Lemma slice_in_range l lo hi :
    0 <= lo -> lo <= hi -> hi <= len l ->
    slice l lo hi = Some (take (Z.to_nat (hi - lo)) (drop (Z.to_nat lo) l)).
Proof.
    intros. unfold slice.
    rewrite (proj2 (Z.leb_le _ _) H), (proj2 (Z.leb_le _ _) H0),
      (proj2 (Z.leb_le _ _) H1). done.
Qed.

Lemma index_Some l i x : index l i = Some x <-> 0 <= i /\ l !! Z.to_nat i = Some x.
Proof.
  unfold index. destruct (Z.leb_spec 0 i); split; [done|by intros []|done|intros []; lia].
Qed.

Lemma index_in_range l i : 0 <= i < len l -> is_Some (index l i).
Proof.
  intros H. destruct (lookup_lt_is_Some_2 l (Z.to_nat i)) as [x Hx]; [lia|].
  exists x. apply index_Some. split; [lia|done].
Qed.

(** a loop whose body keeps an invariant and does not panic under it *)
Lemma foldM_inv {S} (P : S -> Prop) (Q : A -> Prop) (f : S -> A -> option S) l s :
  P s -> Forall Q l ->
  (forall s x, P s -> Q x -> exists s', f s x = Some s' /\ P s') ->
  exists s', foldM f s l = Some s' /\ P s'.
Proof.
  intros Hs HQ Hf. revert s Hs. induction HQ as [|x l Hx _ IH]; intros s Hs; [by exists s|].
  destruct (Hf s x Hs Hx) as (s1 & H1 & HP). cbn. rewrite H1. cbn. by apply IH.
Qed.

Lemma take_drop_app_eq l (a b : nat) : (a <= b)%nat -> take a l ++ take (b - a) (drop a l) = take b l.
Proof.
  intros H. rewrite <- (take_drop a l) at 3. rewrite take_app, take_take, length_take.
  destruct (decide (a <= length l)%nat).
  - do 2 f_equal; lia.
  - rewrite !drop_ge by lia. rewrite !take_nil. do 2 f_equal. lia.
Qed.

Lemma len_nonneg l : 0 <= len l.
Proof. lia. Qed.

End Lists.

#[export] Hint Resolve len_nonneg : herdr.

(** ** Big-endian integers: [encoding/binary.BigEndian] *)

Fixpoint be_encode (n : nat) (z : Z) : bytes :=
  match n with
  | O => []
  | S m => Z.land (Z.shiftr z (8 * Z.of_nat m)) 255 :: be_encode m z
  end.

Fixpoint be_decode_aux (acc : Z) (l : bytes) : Z :=
  match l with
  | [] => acc
  | b :: l => be_decode_aux (Z.lor (Z.shiftl acc 8) b) l
  end.
Definition be_decode (l : bytes) : Z := be_decode_aux 0 l.

Lemma length_be_encode n z : length (be_encode n z) = n.
Proof. induction n; simpl; congruence. Qed.

Lemma land_255 z : Z.land z 255 = z mod 256.
Proof. change 255 with (Z.ones 8). by rewrite Z.land_ones. Qed.

Lemma be_encode_bytes_ok n z : bytes_ok (be_encode n z).
Proof.
  induction n; constructor; [|done].
  rewrite land_255. apply Z.mod_pos_bound. lia.
Qed.

(** [acc << 8 | b] is [acc * 256 + b] on a byte. *)
Lemma lor_shiftl_8 acc b : is_byte b -> Z.lor (Z.shiftl acc 8) b = acc * 256 + b.
Proof.
  intros Hb. rewrite <- Z.add_nocarry_lor; [by rewrite Z.shiftl_mul_pow2 by lia|].
  apply Z.bits_inj'. intros i Hi.
  rewrite Z.land_spec, Z.bits_0, Z.shiftl_spec by lia.
  destruct (decide (i < 8)).
  - by rewrite (Z.testbit_neg_r acc (i - 8)) by lia.
  - rewrite (proj1 (Z.bounded_iff_bits_nonneg' 8 b ltac:(lia) (proj1 Hb)) Hb i) by lia.
    apply andb_false_r.
Qed.

Lemma be_decode_aux_encode n z acc :
  be_decode_aux acc (be_encode n z) =
  acc * 256 ^ Z.of_nat n + z mod 256 ^ Z.of_nat n.
Proof.
  revert acc. induction n as [|n IH]; intros acc.
  - simpl. rewrite Z.mod_1_r. lia.
  - cbn [be_encode be_decode_aux]. rewrite IH, land_255, lor_shiftl_8 by
      (apply Z.mod_pos_bound; lia).
    rewrite Z.shiftr_div_pow2, Z.pow_mul_r, Nat2Z.inj_succ, Z.pow_succ_r by lia.
    change (2 ^ 8) with 256.
    rewrite (Z.mul_comm 256 (256 ^ _)), Z.rem_mul_r by lia. lia.
Qed.

(** Reading back an [n]-byte big-endian field gives the value modulo [256^n]. *)
Lemma be_decode_encode n z : be_decode (be_encode n z) = z mod 256 ^ Z.of_nat n.
Proof. unfold be_decode. rewrite be_decode_aux_encode. lia. Qed.

Lemma be_decode_encode_small n z :
  0 <= z < 256 ^ Z.of_nat n -> be_decode (be_encode n z) = z.
Proof. intros. rewrite be_decode_encode. by apply Z.mod_small. Qed.

Lemma be_encode_inj n z1 z2 :
  0 <= z1 < 256 ^ Z.of_nat n -> 0 <= z2 < 256 ^ Z.of_nat n ->
  be_encode n z1 = be_encode n z2 -> z1 = z2.
Proof.
  intros H1 H2 H%(f_equal be_decode). by rewrite !be_decode_encode_small in H.
Qed.

Lemma be_decode_aux_bound l acc :
  bytes_ok l -> 0 <= acc ->
  0 <= be_decode_aux acc l < (acc + 1) * 256 ^ len l.
Proof.
  revert acc. induction l as [|b l IH]; intros acc Hl Hacc; [simpl; lia|].
  apply Forall_cons in Hl as [Hb Hl]. cbn [be_decode_aux length].
  rewrite lor_shiftl_8 by done. unfold is_byte in Hb.
  rewrite Nat2Z.inj_succ, Z.pow_succ_r by lia.
  specialize (IH (acc * 256 + b) Hl ltac:(lia)). nia.
Qed.

Lemma be_decode_bound l : bytes_ok l -> 0 <= be_decode l < 256 ^ len l.
Proof. intros H. pose proof (be_decode_aux_bound l 0 H). unfold be_decode. lia. Qed.

Lemma be_decode_aux_acc l acc :
  bytes_ok l -> be_decode_aux acc l = acc * 256 ^ len l + be_decode l.
Proof.
  unfold be_decode. revert acc. induction l as [|b l IH]; intros acc Hl; [simpl; lia|].
  apply Forall_cons in Hl as [Hb Hl]. cbn [be_decode_aux length].
  rewrite !lor_shiftl_8, (IH (_ * 256 + b)), (IH (0 * 256 + b)), Nat2Z.inj_succ, Z.pow_succ_r
    by (done || lia). lia.
Qed.

Lemma be_decode_inj l1 l2 :
  bytes_ok l1 -> bytes_ok l2 -> length l1 = length l2 ->
  be_decode l1 = be_decode l2 -> l1 = l2.
Proof.
  revert l2. induction l1 as [|a l1 IH]; intros [|b l2] H1 H2 Hlen Heq; try done.
  apply Forall_cons in H1 as [Ha H1], H2 as [Hb H2]. injection Hlen as Hlen.
  unfold be_decode in Heq. cbn [be_decode_aux] in Heq.
  rewrite !lor_shiftl_8, !be_decode_aux_acc, <- Hlen in Heq by done.
  pose proof (be_decode_bound l1 H1). pose proof (be_decode_bound l2 H2).
  rewrite <- Hlen in *.
  assert (a = b) as -> by nia. f_equal. apply IH; auto. lia.
Qed.

(** An [n]-byte field is the encoding of the value read from it. *)
Lemma be_encode_decode l : bytes_ok l -> be_encode (length l) (be_decode l) = l.
Proof.
  intros Hl. apply be_decode_inj; auto using be_encode_bytes_ok, length_be_encode.
  apply be_decode_encode_small. by apply be_decode_bound.
Qed.

(** exclusive or stays within a width and cancels itself *)
Lemma lxor_bound n a b : 0 <= n -> 0 <= a < 2 ^ n -> 0 <= b < 2 ^ n -> 0 <= Z.lxor a b < 2 ^ n.
Proof.
  intros Hn Ha Hb. assert (0 <= Z.lxor a b) by (apply Z.lxor_nonneg; lia).
  apply (Z.bounded_iff_bits_nonneg' n _ Hn H). intros l Hl.
  rewrite Z.lxor_spec.
  rewrite (proj1 (Z.bounded_iff_bits_nonneg' n a Hn (proj1 Ha)) Ha l Hl).
  by rewrite (proj1 (Z.bounded_iff_bits_nonneg' n b Hn (proj1 Hb)) Hb l Hl).
Qed.

Lemma lxor_cancel a b : Z.lxor (Z.lxor a b) b = a.
Proof. by rewrite Z.lxor_assoc, Z.lxor_nilpotent, Z.lxor_0_r. Qed.

#[export] Hint Resolve be_encode_bytes_ok : herdr.
#[export] Hint Rewrite length_be_encode : herdr.
