(* ===== verification/GoLib.v ===== *)
(** The parts of Go's standard library the modelled code calls:
    [encoding/base64.RawURLEncoding], strings as byte sequences, the line
    splitting of [strings.SplitAfter]. *)
From S2P Require Import Prelude.
From Stdlib Require Import Ascii String.
#[local] Open Scope Z_scope.

(** ** Strings as bytes *)

Definition b_of_ascii (a : ascii) : Z := Z.of_N (N_of_ascii a).
Definition ascii_of_b (b : Z) : ascii := ascii_of_N (Z.to_N b).

Fixpoint bytes_of_string (s : string) : bytes :=
  match s with
  | EmptyString => []
  | String a s => b_of_ascii a :: bytes_of_string s
  end.

Fixpoint string_of_bytes (l : bytes) : string :=
  match l with
  | [] => EmptyString
  | b :: l => String (ascii_of_b b) (string_of_bytes l)
  end.

Lemma b_of_ascii_ok a : is_byte (b_of_ascii a).
Proof.
  unfold is_byte, b_of_ascii. pose proof (N_ascii_bounded a). lia.
Qed.

Lemma ascii_byte_ascii a : ascii_of_b (b_of_ascii a) = a.
Proof. unfold ascii_of_b, b_of_ascii. by rewrite N2Z.id, ascii_N_embedding. Qed.

Lemma byte_ascii_byte b : is_byte b -> b_of_ascii (ascii_of_b b) = b.
Proof.
  unfold is_byte, ascii_of_b, b_of_ascii. intros.
  rewrite N_ascii_embedding by lia. lia.
Qed.

Lemma bytes_of_string_ok s : bytes_ok (bytes_of_string s).
Proof. induction s; constructor; auto using b_of_ascii_ok. Qed.

Lemma string_bytes_string s : string_of_bytes (bytes_of_string s) = s.
Proof. induction s; simpl; [done|]. by rewrite ascii_byte_ascii, IHs. Qed.

Lemma bytes_string_bytes l : bytes_ok l -> bytes_of_string (string_of_bytes l) = l.
Proof. induction 1; simpl; [done|]. by rewrite byte_ascii_byte, IHForall. Qed.

Lemma bytes_of_string_inj s1 s2 : bytes_of_string s1 = bytes_of_string s2 -> s1 = s2.
Proof. intros H%(f_equal string_of_bytes). by rewrite !string_bytes_string in H. Qed.

Lemma length_bytes_of_string s : List.length (bytes_of_string s) = String.length s.
Proof. induction s; simpl; congruence. Qed.

#[export] Hint Resolve bytes_of_string_ok b_of_ascii_ok : herdr.

(** [len(s)] of a Go string *)
Definition slen (s : string) : Z := Z.of_nat (String.length s).

(** [strings.SplitAfter] with a one-byte separator: every piece but the last ends
    with it; [strings.Join] with the empty separator is [concat] *)
Fixpoint splitAfter (sep : Z) (s : bytes) : list bytes :=
  match s with
  | [] => [[]]
  | c :: r =>
      if c =? sep then [c] :: splitAfter sep r
      else match splitAfter sep r with
           | l :: ls => (c :: l) :: ls
           | [] => [[c]]
           end
  end.

Lemma concat_splitAfter sep s : List.concat (splitAfter sep s) = s.
Proof.
  induction s as [|c r IH]; [done|]. cbn. destruct (c =? sep); cbn; [by rewrite IH|].
  destruct (splitAfter sep r); cbn in *; congruence.
Qed.

(** [utf8.Valid]: the well-formed byte sequences, without overlong forms,
    surrogates and code points above U+10FFFF *)
Definition cont_byte (b : Z) : bool := (0x80 <=? b) && (b <=? 0xBF).

Fixpoint utf8_valid (l : bytes) : bool :=
  match l with
  | [] => true
  | b0 :: l =>
      if b0 <? 0x80 then utf8_valid l
      else if (0xC2 <=? b0) && (b0 <=? 0xDF) then
        match l with
        | b1 :: l => cont_byte b1 && utf8_valid l
        | _ => false
        end
      else if (0xE0 <=? b0) && (b0 <=? 0xEF) then
        match l with
        | b1 :: b2 :: l =>
            (if b0 =? 0xE0 then (0xA0 <=? b1) && (b1 <=? 0xBF)
             else if b0 =? 0xED then (0x80 <=? b1) && (b1 <=? 0x9F)
             else cont_byte b1) && cont_byte b2 && utf8_valid l
        | _ => false
        end
      else if (0xF0 <=? b0) && (b0 <=? 0xF4) then
        match l with
        | b1 :: b2 :: b3 :: l =>
            (if b0 =? 0xF0 then (0x90 <=? b1) && (b1 <=? 0xBF)
             else if b0 =? 0xF4 then (0x80 <=? b1) && (b1 <=? 0x8F)
             else cont_byte b1) && cont_byte b2 && cont_byte b3 && utf8_valid l
        | _ => false
        end
      else false
  end.

(** ** base64url without padding *)

Definition b64_char (v : Z) : Z :=
  if v <? 26 then v + 65
  else if v <? 52 then v - 26 + 97
  else if v <? 62 then v - 52 + 48
  else if v =? 62 then 45 else 95.

Definition b64_value (c : Z) : option Z :=
  if (65 <=? c) && (c <=? 90) then Some (c - 65)
  else if (97 <=? c) && (c <=? 122) then Some (c - 97 + 26)
  else if (48 <=? c) && (c <=? 57) then Some (c - 48 + 52)
  else if c =? 45 then Some 62
  else if c =? 95 then Some 63
  else None.

Fixpoint b64_encode (l : bytes) : bytes :=
  match l with
  | a :: b :: c :: l =>
      let v := a * 65536 + b * 256 + c in
      b64_char (v / 262144) :: b64_char (v / 4096 mod 64) ::
      b64_char (v / 64 mod 64) :: b64_char (v mod 64) :: b64_encode l
  | [a; b] =>
      let v := a * 65536 + b * 256 in
      [b64_char (v / 262144); b64_char (v / 4096 mod 64); b64_char (v / 64 mod 64)]
  | [a] =>
      let v := a * 65536 in
      [b64_char (v / 262144); b64_char (v / 4096 mod 64)]
  | [] => []
  end.

(** Groups of four values; the decoder is not strict: the bits of an incomplete
    last group that do not make a byte are dropped. *)
Fixpoint b64_groups (l : list Z) : option bytes :=
  match l with
  | a :: b :: c :: d :: l =>
      let v := a * 262144 + b * 4096 + c * 64 + d in
      let? rest := b64_groups l in
      Some (v / 65536 :: v / 256 mod 256 :: v mod 256 :: rest)
  | [a; b; c] =>
      let v := a * 262144 + b * 4096 + c * 64 in Some [v / 65536; v / 256 mod 256]
  | [a; b] =>
      let v := a * 262144 + b * 4096 in Some [v / 65536]
  | [_] => None
  | [] => Some []
  end.

(** [RawURLEncoding.DecodeString]: carriage returns and line feeds are skipped,
    any other character outside the alphabet is an error. *)
Definition b64_decode (l : bytes) : option bytes :=
  let? vs := mapM b64_value (filter (fun c => c <> 10 /\ c <> 13) l) in
  b64_groups vs.

Definition b64_encode_string (l : bytes) : string := string_of_bytes (b64_encode l).
Definition b64_decode_string (s : string) : option bytes := b64_decode (bytes_of_string s).

Lemma b64_char_value v : 0 <= v < 64 -> b64_value (b64_char v) = Some v.
Proof.
  intros. unfold b64_char. ifs; unfold b64_value; ifs; try lia; f_equal; lia.
Qed.

Lemma b64_char_not_newline v : 0 <= v < 64 -> b64_char v <> 10 /\ b64_char v <> 13.
Proof. intros. unfold b64_char. ifs; lia. Qed.

Lemma b64_char_is_byte v : 0 <= v < 64 -> is_byte (b64_char v).
Proof. intros. unfold b64_char, is_byte. ifs; lia. Qed.

(** the values a base64 text stands for *)
Fixpoint b64_values (l : bytes) : list Z :=
  match l with
  | a :: b :: c :: l =>
      let v := a * 65536 + b * 256 + c in
      v / 262144 :: v / 4096 mod 64 :: v / 64 mod 64 :: v mod 64 :: b64_values l
  | [a; b] =>
      let v := a * 65536 + b * 256 in [v / 262144; v / 4096 mod 64; v / 64 mod 64]
  | [a] => let v := a * 65536 in [v / 262144; v / 4096 mod 64]
  | [] => []
  end.

(** induction three bytes at a time *)
Lemma list_ind3 {A} (P : list A -> Prop) :
  P [] -> (forall a, P [a]) -> (forall a b, P [a; b]) ->
  (forall a b c l, P l -> P (a :: b :: c :: l)) -> forall l, P l.
Proof.
  intros H0 H1 H2 H3 l.
  assert (P l /\ (forall a, P (a :: l)) /\ (forall a b, P (a :: b :: l))) as [? _]; [|done].
  induction l as [|x l (IH & IH1 & IH2)]; split_and?; eauto.
Qed.

Ltac divmod := Z.div_mod_to_equations; lia.

Lemma b64_values_range l : bytes_ok l -> Forall (fun v => 0 <= v < 64) (b64_values l).
Proof.
  induction l using list_ind3; intros Hl;
    repeat match goal with H : Forall _ (_ :: _) |- _ => apply Forall_cons in H as [? ?] end;
    unfold is_byte in *; cbn [b64_values]; repeat constructor; auto; try divmod.
Qed.

Lemma b64_encode_values l : b64_encode l = b64_char <$> b64_values l.
Proof. induction l using list_ind3; cbn [b64_encode b64_values fmap list_fmap]; congruence. Qed.

Lemma length_b64_encode l : len (b64_encode l) = (4 * len l + 2) / 3.
Proof.
  induction l as [|a|a b|a b c l IH] using list_ind3; cbn [b64_encode List.length]; [done..|].
  rewrite !Nat2Z.inj_succ, IH. divmod.
Qed.

Lemma b64_groups_values l : bytes_ok l -> b64_groups (b64_values l) = Some l.
Proof.
  induction l as [|a|a b|a b c l IH] using list_ind3; intros Hl;
    repeat match goal with H : Forall _ (_ :: _) |- _ => apply Forall_cons in H as [? ?] end;
    unfold is_byte in *; cbn [b64_values b64_groups].
  - done.
  - f_equal; f_equal; divmod.
  - repeat f_equal; divmod.
  - rewrite IH by done. cbn [mbind option_bind]. do 2 f_equal; [divmod|]. f_equal; [divmod|].
    f_equal. divmod.
Qed.

Lemma b64_values_encode l : bytes_ok l -> mapM b64_value (b64_encode l) = Some (b64_values l).
Proof.
  intros Hl. rewrite b64_encode_values. pose proof (b64_values_range l Hl) as Hr. clear Hl.
  induction Hr as [|v vs Hv Hvs IH]; [done|]. cbn [fmap list_fmap mapM].
  rewrite b64_char_value by done. cbn [mbind option_bind]. by rewrite IH.
Qed.

(** Decoding what was encoded gives the bytes back. *)
Lemma b64_decode_encode l : bytes_ok l -> b64_decode (b64_encode l) = Some l.
Proof.
  intros Hl. unfold b64_decode.
  assert (filter (fun c => c <> 10 /\ c <> 13) (b64_encode l) = b64_encode l) as ->.
  { rewrite b64_encode_values. induction (b64_values_range l Hl) as [|v vs Hv Hvs IH]; [done|].
    cbn [fmap list_fmap].
    rewrite filter_cons_True by (by apply b64_char_not_newline). f_equal. exact IH. }
  rewrite b64_values_encode by done.
  cbn [mbind option_bind]. by apply b64_groups_values.
Qed.

Lemma b64_encode_bytes_ok l : bytes_ok l -> bytes_ok (b64_encode l).
Proof.
  intros Hl. rewrite b64_encode_values. apply Forall_fmap.
  eapply Forall_impl; [by apply b64_values_range|]. intros. by apply b64_char_is_byte.
Qed.

Lemma b64_string_roundtrip l : bytes_ok l -> b64_decode_string (b64_encode_string l) = Some l.
Proof.
  intros. unfold b64_decode_string, b64_encode_string.
  rewrite bytes_string_bytes by (by apply b64_encode_bytes_ok). by apply b64_decode_encode.
Qed.

#[export] Hint Resolve b64_encode_bytes_ok : herdr.
