(* ===== verification/Framing.v ===== *)
(** Chunk framing of one logical frame ([internal/framing/framing.go]).

    [Count] and [Chunk] split a frame, [Reassembler] with [Push], [Expired] and
    [Reset] rebuilds it.  A run-time panic (a slice out of range, a division by
    zero) is [None]. *)
From S2P Require Import Prelude.
#[local] Open Scope Z_scope.

Module Framing.

Definition Version : Z := 1.
Definition HeaderSize : Z := 2.
Definition LengthPrefixSize : Z := 4.
Definition FlagStart : Z := Z.shiftl 1 0.
Definition FlagEnd : Z := Z.shiftl 1 1.
Definition flagKnown : Z := Z.lor FlagStart FlagEnd.
Definition MaxLogicalBytes : Z := 21 * 1024 * 1024.
Definition StallTimeout : duration := 30 * second.
Definition WebRTCChunkSize : Z := 16384.
Definition GatewayChunkSize : Z := 262144.

Inductive error :=
| ErrChunkMalformed
| ErrChunkSequence
| ErrFrameTooLarge
| ErrChunkSize.

#[export] Instance error_eq_dec : EqDecision error.
Proof. solve_decision. Defined.

(** ** Splitting *)

Definition Count (n maxChunk : Z) : option Z :=
  let start := maxChunk - HeaderSize - LengthPrefixSize in
  if n <=? start then Some 1
  else
    let cont := maxChunk - HeaderSize in
    if cont =? 0 then None
    else Some (1 + Z.quot (n - start + cont - 1) cont).

(** One iteration per chunk; [k] counts the iterations left of
    [for index := range count].  [bufLen] is the length of the single
    allocation the chunks are carved out of and [offset] the bytes of it
    already handed out. *)
Fixpoint chunkLoop (k : nat) (index count startBody contBody bufLen offset total : Z)
    (remaining : bytes) (dst : list bytes) : option (list bytes) :=
  match k with
  | O => Some dst
  | S k =>
      let body := if index =? 0 then startBody else contBody in
      let size := if index =? 0 then HeaderSize + LengthPrefixSize else HeaderSize in
      let body := if body >? len remaining then len remaining else body in
      let size := size + body in
      (* part := buf[offset : offset+size] *)
      if negb ((0 <=? size) && (offset + size <=? bufLen)) then None else
      let flags := if index =? 0 then Z.lor 0 FlagStart else 0 in
      let prefix := if index =? 0 then be_encode 4 (u32 total) else [] in
      let flags := if index =? count - 1 then Z.lor flags FlagEnd else flags in
      let? front := slice remaining 0 body in
      let? rest := slice remaining body (len remaining) in
      let part := [Version; flags] ++ prefix ++ front in
      chunkLoop k (index + 1) count startBody contBody bufLen (offset + size) total
        rest (dst ++ [part])
  end.

Definition Chunk (dst : list bytes) (logical : bytes) (maxChunk : Z) : option (list bytes) :=
  let startBody := maxChunk - HeaderSize - LengthPrefixSize in
  let contBody := maxChunk - HeaderSize in
  let? count := Count (len logical) maxChunk in
  let bufLen := len logical + LengthPrefixSize + count * HeaderSize in
  if bufLen <? 0 then None else
  chunkLoop (Z.to_nat count) 0 count startBody contBody bufLen 0 (len logical) logical dst.

(** ** Reassembly *)

Record Reassembler := mkReassembler {
  maxChunk : Z;
  buf : bytes;
  want : Z;
  active : bool;
  updated : time
}.

Definition NewReassembler (maxChunk : Z) : Reassembler :=
  mkReassembler maxChunk [] 0 false zero_time.

(** [Push]: the new state, and a completed frame, [Ok None] while the frame is
    incomplete, or the error.  [now] is the value of [time.Now()]. *)
Definition Push (now : time) (r : Reassembler) (part : bytes)
    : Reassembler * result error (option bytes) :=
  if maxChunk r <=? HeaderSize + LengthPrefixSize then (r, Err ErrChunkSize) else
  match part with
  | version :: flags :: payload =>
      if (len part >? maxChunk r) || negb (version =? Version)
      then (r, Err ErrChunkMalformed) else
      if negb (Z.ldiff flags flagKnown =? 0) then (r, Err ErrChunkMalformed) else
      let start := negb (Z.land flags FlagStart =? 0) in
      let end_ := negb (Z.land flags FlagEnd =? 0) in
      let finish (r : Reassembler) :=
        if negb end_ then (r, Ok None)
        else if negb (len (buf r) =? want r) then (r, Err ErrChunkMalformed)
        else (mkReassembler (maxChunk r) [] 0 false (updated r), Ok (Some (buf r))) in
      if start then
        if active r then (r, Err ErrChunkSequence) else
        if len payload <? LengthPrefixSize then (r, Err ErrChunkMalformed) else
        let declared := be_decode (take 4 payload) in
        if declared >? MaxLogicalBytes then (r, Err ErrFrameTooLarge) else
        let body := drop 4 payload in
        let r := mkReassembler (maxChunk r) (buf r) declared (active r) (updated r) in
        if len body >? want r then (r, Err ErrChunkMalformed) else
        finish (mkReassembler (maxChunk r) body (want r) true now)
      else
        if negb (active r) then (r, Err ErrChunkSequence) else
        if len (buf r) + len payload >? want r then (r, Err ErrChunkMalformed) else
        finish (mkReassembler (maxChunk r) (buf r ++ payload) (want r) (active r) now)
  | _ => (r, Err ErrChunkMalformed)
  end.

Definition Expired (now : time) (r : Reassembler) : bool :=
  active r && (time_sub now (updated r) >? StallTimeout).

Definition Reset (r : Reassembler) : Reassembler :=
  mkReassembler (maxChunk r) [] 0 false (updated r).

(** a sequence of chunks pushed in order, stopping at the first error *)
Fixpoint pushAll (now : time) (r : Reassembler) (parts : list bytes)
    : Reassembler * result error (list bytes) :=
  match parts with
  | [] => (r, Ok [])
  | p :: ps =>
      match Push now r p with
      | (r, Err e) => (r, Err e)
      | (r, Ok None) => pushAll now r ps
      | (r, Ok (Some f)) =>
          match pushAll now r ps with
          | (r, Ok fs) => (r, Ok (f :: fs))
          | (r, Err e) => (r, Err e)
          end
      end
  end.

(** ** Reassembly lemmas *)

(** the state between two frames *)
Definition idle (mc : Z) (r : Reassembler) : Prop :=
  maxChunk r = mc /\ active r = false.

(** what every reachable state satisfies: the memory a peer can pin *)
Definition wf (r : Reassembler) : Prop :=
  len (buf r) <= MaxLogicalBytes /\
  (active r = true -> len (buf r) <= want r <= MaxLogicalBytes) /\
  (active r = false -> buf r = []).

Section Pushing.
Context (now : time) (r : Reassembler).
Hypothesis Hmc : HeaderSize + LengthPrefixSize < maxChunk r.

Lemma Push_cont_more body :
    active r = true -> len body + HeaderSize <= maxChunk r ->
    len (buf r) + len body <= want r ->
    Push now r (Version :: 0 :: body) =
      (mkReassembler (maxChunk r) (buf r ++ body) (want r) true now, Ok None).
Proof using Hmc.
    unfold HeaderSize, LengthPrefixSize in *. intros Ha Hl Hw.
    unfold Push, HeaderSize, LengthPrefixSize. rewrite Ha. cbn [length].
    ifs; try done; lia.
Qed.

Lemma Push_cont_end body :
    active r = true -> len body + HeaderSize <= maxChunk r ->
    len (buf r) + len body = want r ->
    Push now r (Version :: FlagEnd :: body) =
      (mkReassembler (maxChunk r) [] 0 false now, Ok (Some (buf r ++ body))).
Proof using Hmc.
    unfold HeaderSize, LengthPrefixSize in *. intros Ha Hl Hw.
    unfold Push, HeaderSize, LengthPrefixSize. rewrite Ha. cbn [length].
    ifs; try done; try lia; exfalso; cbn in *; rewrite ?length_app in *; lia.
Qed.

  (** a START chunk as [Chunk] writes it *)
Lemma Push_start flags total body :
    active r = false -> flags = FlagStart \/ flags = Z.lor FlagStart FlagEnd ->
    0 <= total <= MaxLogicalBytes -> len body <= total ->
    len body + HeaderSize + LengthPrefixSize <= maxChunk r ->
    Push now r (Version :: flags :: be_encode 4 (u32 total) ++ body) =
      if negb (Z.land flags FlagEnd =? 0) then
        if len body =? total
        then (mkReassembler (maxChunk r) [] 0 false now, Ok (Some body))
        else (mkReassembler (maxChunk r) body total true now, Err ErrChunkMalformed)
      else (mkReassembler (maxChunk r) body total true now, Ok None).
Proof using Hmc.
    unfold HeaderSize, LengthPrefixSize, MaxLogicalBytes in *. intros Ha Hf Ht Hb Hl.
    assert (Hdec : be_decode (take 4 (be_encode 4 (u32 total) ++ body)) = total).
    { rewrite take_app_length' by (by rewrite length_be_encode).
      rewrite be_decode_encode_small; unfold u32; rewrite Z.mod_small; lia. }
    unfold Push, HeaderSize, LengthPrefixSize, MaxLogicalBytes. rewrite Ha.
    remember (be_encode 4 (u32 total) ++ body) as payload eqn:Hp.
    assert (Hlp : len payload = 4 + len body)
      by (subst; rewrite length_app, length_be_encode; lia).
    assert (Hd : drop 4 payload = body)
      by (subst; by rewrite drop_app_length' by (by rewrite length_be_encode)).
    rewrite Hdec, Hd. cbn [length maxChunk want buf active updated].
    destruct Hf as [-> | ->]; cbn; ifs; try done; lia.
Qed.
End Pushing.

(** ** Splitting lemmas *)

(** The number of chunks is the least that fits: all but the last chunk are full. *)
Lemma Count_bounds n mc :
  HeaderSize + LengthPrefixSize < mc -> 0 <= n ->
  exists c, Count n mc = Some c /\ 1 <= c /\
    n <= (mc - 6) + (c - 1) * (mc - 2) /\
    (c = 1 \/ (mc - 6) + (c - 2) * (mc - 2) < n).
Proof.
  unfold Count, HeaderSize, LengthPrefixSize. intros Hmc Hn. ifs.
  - eexists; split; [done|]. lia.
  - lia.
  - eexists; split; [done|]. rewrite Z.quot_div_nonneg by lia.
    pose proof (Z.div_mod (n - (mc - 2 - 4) + (mc - 2) - 1) (mc - 2) ltac:(lia)).
    pose proof (Z.mod_pos_bound (n - (mc - 2 - 4) + (mc - 2) - 1) (mc - 2) ltac:(lia)).
    nia.
Qed.

(** The continuation chunks of a frame, once its START chunk was emitted. *)
Lemma chunkLoop_cont k index count startBody contBody bufLen offset total rem dst :
  0 < index -> index + Z.of_nat k = count -> (0 < k)%nat -> 4 < contBody ->
  (Z.of_nat k - 1) * contBody < len rem <= Z.of_nat k * contBody ->
  bufLen = offset + len rem + HeaderSize * Z.of_nat k ->
  exists parts,
    chunkLoop k index count startBody contBody bufLen offset total rem dst
      = Some (dst ++ parts) /\
    length parts = k /\ Forall (fun p => len p <= contBody + HeaderSize) parts /\
    forall now r, active r = true -> maxChunk r = contBody + HeaderSize ->
      want r = len (buf r) + len rem ->
      pushAll now r parts =
        (mkReassembler (maxChunk r) [] 0 false now, Ok [buf r ++ rem]).
Proof.
  unfold HeaderSize.
  revert index offset rem dst. induction k as [|k IH]; [lia|].
  intros index offset rem dst Hi Hc _ Hcont Hrem Hbuf.
  cbn [chunkLoop]. unfold HeaderSize.
  replace (index =? 0) with false by (symmetry; apply Z.eqb_neq; lia).
  destruct (decide (k = O)) as [->|Hk].
  - (* the last chunk takes what is left *)
    replace (index =? count - 1) with true by (symmetry; apply Z.eqb_eq; lia).
    replace (if contBody >? len rem then len rem else contBody) with (len rem)
      by (destruct (contBody >? len rem) eqn:E; zb; lia).
    replace (negb _) with false
      by (symmetry; apply negb_false_iff, andb_true_iff; split; apply Z.leb_le; lia).
    rewrite !slice_in_range by lia. cbn [mbind option_bind chunkLoop].
    rewrite drop_0, take_ge by lia.
    eexists. split; [done|]. split; [done|]. split.
    { repeat constructor. cbn. lia. }
    intros now r Ha Hmc Hw. cbn [pushAll app].
    rewrite Push_cont_end by (unfold HeaderSize, LengthPrefixSize; lia || done).
    done.
  - replace (index =? count - 1) with false by (symmetry; apply Z.eqb_neq; lia).
    replace (if contBody >? len rem then len rem else contBody) with contBody
      by (destruct (contBody >? len rem) eqn:E; zb; nia).
    replace (negb _) with false
      by (symmetry; apply negb_false_iff, andb_true_iff; split; apply Z.leb_le; nia).
    rewrite !slice_in_range by nia. cbn [mbind option_bind].
    rewrite drop_0, Z.sub_0_r.
    rewrite (take_ge (drop _ rem)) by (rewrite length_drop; lia).
    set (front := take (Z.to_nat contBody) rem).
    set (rest := drop (Z.to_nat contBody) rem).
    assert (Hf : len front = contBody) by (unfold front; rewrite length_take; nia).
    assert (Hr : len rest = len rem - contBody) by (unfold rest; rewrite length_drop; nia).
    destruct (IH (index + 1) (offset + (2 + contBody)) rest
                (dst ++ [[Version; 0] ++ [] ++ front])) as (parts & Heq & Hlen & Hall & Hpush);
      [lia|lia|lia|lia|nia|lia|].
    exists (([Version; 0] ++ front) :: parts). rewrite Heq, <- app_assoc.
    split; [done|]. split; [cbn; lia|]. split.
    { constructor; [cbn; lia|done]. }
    intros now r Ha Hmc Hw. cbn [pushAll app].
    rewrite Push_cont_more by (unfold HeaderSize, LengthPrefixSize; nia || done).
    rewrite Hpush by (cbn; rewrite ?length_app; lia || done). cbn [buf maxChunk].
    rewrite <- app_assoc. unfold front, rest. by rewrite take_drop.
Qed.

Lemma Chunk_spec dst logical mc :
  HeaderSize + LengthPrefixSize < mc -> len logical <= MaxLogicalBytes ->
  exists parts,
    Chunk dst logical mc = Some (dst ++ parts) /\
    Count (len logical) mc = Some (len parts) /\
    Forall (fun p => len p <= mc) parts /\
    forall now r, idle mc r ->
      pushAll now r parts = (mkReassembler mc [] 0 false now, Ok [logical]).
Proof.
  intros Hmc Hmax.
  destruct (Count_bounds (len logical) mc Hmc ltac:(lia)) as (c & Hc & Hc1 & Hup & Hlow).
  unfold HeaderSize, LengthPrefixSize in *.
  unfold Chunk. rewrite Hc. cbn [mbind option_bind]. unfold HeaderSize, LengthPrefixSize.
  replace (_ <? 0) with false by (symmetry; apply Z.ltb_ge; nia).
  destruct (Z.to_nat c) as [|k] eqn:Ek; [lia|]. cbn [chunkLoop]. rewrite Z.eqb_refl.
  unfold HeaderSize, LengthPrefixSize.
  set (body := if mc - 2 - 4 >? len logical then len logical else mc - 2 - 4).
  assert (Hbody : body = Z.min (len logical) (mc - 6))
    by (unfold body; destruct (_ >? _) eqn:E; zb; lia).
  clearbody body.
  replace (negb _) with false
    by (symmetry; apply negb_false_iff, andb_true_iff; split; apply Z.leb_le; nia).
  rewrite !slice_in_range by lia. cbn [mbind option_bind].
  rewrite drop_0, Z.sub_0_r, (take_ge (drop _ _)) by (rewrite length_drop; lia).
  set (front := take (Z.to_nat body) logical). set (rest := drop (Z.to_nat body) logical).
  assert (Hf : len front = body) by (unfold front; rewrite length_take; lia).
  assert (Hr : len rest = len logical - body) by (unfold rest; rewrite length_drop; lia).
  assert (Hfr : front ++ rest = logical) by apply take_drop.
  destruct (decide (c = 1)) as [->|Hc2].
  - assert (k = O) as -> by lia. cbn [chunkLoop Z.eqb Z.sub].
    eexists; split; [done|]. split; [done|]. split.
    { repeat constructor. cbn. lia. }
    intros now r [Hm Ha]. cbn [pushAll app Z.eqb Z.sub Z.add Z.opp].
    assert (rest = []) as Hnil by (apply length_zero_iff_nil; lia).
    rewrite Hnil, app_nil_r in Hfr. rewrite Hfr in *.
    rewrite Push_start by (try done; unfold HeaderSize, LengthPrefixSize; auto; lia).
    rewrite Z.eqb_refl, Hm. done.
  - replace (0 =? c - 1) with false by (symmetry; apply Z.eqb_neq; lia).
    destruct (chunkLoop_cont k (0 + 1) c (mc - 2 - 4) (mc - 2)
                (len logical + 4 + c * 2) (0 + (2 + 4 + body)) (len logical) rest
                (dst ++ [[Version; Z.lor 0 FlagStart] ++
                          be_encode 4 (u32 (len logical)) ++ front]))
      as (parts & Heq & Hlen & Hall & Hpush); unfold HeaderSize in *; [nia..|].
    exists (([Version; FlagStart] ++ be_encode 4 (u32 (len logical)) ++ front) :: parts).
    split; [etransitivity; [exact Heq|]; by rewrite <- app_assoc|].
    split; [cbn; f_equal; lia|]. split.
    { constructor; [cbn; lia|].
      eapply Forall_impl; [done|]. cbn. lia. }
    intros now r [Hm Ha]. cbn [pushAll app].
    rewrite Push_start by (try done; unfold HeaderSize, LengthPrefixSize; auto; lia).
    change (negb (Z.land FlagStart FlagEnd =? 0)) with false. cbv iota beta.
    rewrite Hpush by (cbn; lia || done). cbn [buf maxChunk].
    by rewrite Hfr, Hm.
Qed.

(** ** Streams *)

(** the frames of a connection, chunked one after the other into one queue *)
Fixpoint chunkStream (dst : list bytes) (frames : list bytes) (mc : Z) : option (list bytes) :=
  match frames with
  | [] => Some dst
  | f :: fs => let? dst := Chunk dst f mc in chunkStream dst fs mc
  end.

Lemma pushAll_app now r ps qs :
  pushAll now r (ps ++ qs) =
  match pushAll now r ps with
  | (r, Err e) => (r, Err e)
  | (r, Ok fs) =>
      match pushAll now r qs with
      | (r, Ok gs) => (r, Ok (fs ++ gs))
      | (r, Err e) => (r, Err e)
      end
  end.
Proof.
  revert r. induction ps as [|p ps IH]; intros r; cbn [pushAll app].
  - destruct (pushAll now r qs) as [? []]; done.
  - destruct (Push now r p) as [r' [[f|]|e]]; [rewrite IH| apply IH | done].
    destruct (pushAll now r' ps) as [r'' [fs|e]]; [|done].
    destruct (pushAll now r'' qs) as [? []]; done.
Qed.

(** C38: a stream of frames survives chunking and reassembly. *)
Theorem chunk_reassemble_stream now mc dst frames r :
  HeaderSize + LengthPrefixSize < mc ->
  Forall (fun f => len f <= MaxLogicalBytes) frames ->
  idle mc r ->
  exists parts r',
    chunkStream dst frames mc = Some (dst ++ parts) /\
    Forall (fun p => len p <= mc) parts /\
    pushAll now r parts = (r', Ok frames) /\ idle mc r'.
Proof.
  intros Hmc Hfs. revert dst r. induction Hfs as [|f fs Hf Hfs IH]; intros dst r Hr.
  { exists [], r. rewrite app_nil_r. done. }
  destruct (Chunk_spec dst f mc Hmc Hf) as (ps & Hc & _ & Hsz & Hpush).
  destruct (IH (dst ++ ps) (mkReassembler mc [] 0 false now)) as (qs & r' & Hq & Hqs & Hp & Hi);
    [done|].
  exists (ps ++ qs), r'. cbn [chunkStream]. rewrite Hc. cbn [mbind option_bind].
  rewrite Hq, app_assoc, pushAll_app, Hpush, Hp by done.
  split; [done|]. split; [by apply Forall_app|]. done.
Qed.

(** ** Safety of the reassembler on arbitrary input *)

Lemma wf_new mc : wf (NewReassembler mc).
Proof. unfold wf, MaxLogicalBytes; cbn; split; [lia|done]. Qed.

Lemma wf_Reset r : wf (Reset r).
Proof. unfold wf, MaxLogicalBytes; cbn; split; [lia|done]. Qed.

(** case analysis of one [Push] on an arbitrary chunk *)
Ltac push_cases r part HP :=
  let a := fresh "a" in
  destruct r as [? ? ? a ?]; unfold Push in HP;
  destruct part as [|? [|? ?]]; destruct a; cbn in HP; repeat case_if_in HP;
  simplify_eq/=; zb; unfold MaxLogicalBytes in *; cbn in *.

Lemma Push_wf now r part r' res : wf r -> Push now r part = (r', res) -> wf r'.
Proof.
  unfold wf. intros (Hmax & Hact & Hidle) HP. push_cases r part HP.
  all: try specialize (Hact eq_refl); try specialize (Hidle eq_refl); subst.
  all: rewrite ?length_app in *; split_and?; intros; done || lia.
Qed.

(** Whatever a peer sends, the memory pinned by a partial frame is bounded
    and a delivered frame has exactly the bounded length it declared. *)
Theorem pushAll_bounded now mc parts r' res :
  pushAll now (NewReassembler mc) parts = (r', res) ->
  wf r' /\ match res with Ok fs => Forall (fun f => len f <= MaxLogicalBytes) fs | Err _ => True end.
Proof.
  generalize (wf_new mc). generalize (NewReassembler mc) as r.
  revert r' res. induction parts as [|p ps IH]; intros r' res r Hr HP; cbn in HP.
  { by simplify_eq. }
  destruct (Push now r p) as [r1 o] eqn:E. pose proof (Push_wf _ _ _ _ _ Hr E) as Hr1.
  destruct o as [[f|]|e]; [|by eapply IH|by simplify_eq].
  destruct (pushAll now r1 ps) as [r2 [fs|e]] eqn:E2; simplify_eq;
    destruct (IH _ _ _ Hr1 E2) as [? ?]; split; try done.
  constructor; [|done]. clear -Hr E. destruct Hr as (Hmax & Hact & Hidle).
  push_cases r p E; try specialize (Hact eq_refl); rewrite ?length_app in *; lia.
Qed.

(** the body bytes a chunk carries: all but the header and, in a START chunk,
    the declared length *)
Definition bodyOf (p : bytes) : bytes :=
  if Z.land (nth 1 p 0) FlagStart =? 0 then drop 2 p else drop 6 p.

Lemma Push_conserves now r part r' o :
  wf r -> Push now r part = (r', Ok o) ->
  buf r ++ bodyOf part = default [] o ++ buf r'.
Proof.
  intros (Hmax & Hact & Hidle) HP. unfold bodyOf.
  push_cases r part HP; try specialize (Hidle eq_refl); subst.
  all: repeat match goal with H : Z.land _ _ = 0 |- _ => rewrite H end.
  all: rewrite ?app_nil_r; try done.
  all: replace (_ =? 0) with false by (symmetry; apply Z.eqb_neq; done); done.
Qed.

(** The reassembler neither loses, duplicates nor reorders a byte. *)
Theorem pushAll_conserves now r parts r' fs :
  wf r -> pushAll now r parts = (r', Ok fs) ->
  buf r ++ concat (bodyOf <$> parts) = concat fs ++ buf r'.
Proof.
  revert r fs. induction parts as [|p ps IH]; intros r fs Hr HP; cbn in HP.
  { simplify_eq. by rewrite app_nil_r. }
  destruct (Push now r p) as [r1 o] eqn:E. pose proof (Push_wf _ _ _ _ _ Hr E) as Hr1.
  destruct o as [o|]; [|done]. pose proof (Push_conserves _ _ _ _ _ Hr E) as Hc.
  cbn [fmap list_fmap concat]. rewrite app_assoc, Hc.
  destruct o as [f|]; cbn [default from_option id]; [|by apply IH].
  destruct (pushAll now r1 ps) as [r2 [gs|e]] eqn:E2; simplify_eq.
  cbn [concat]. rewrite <- !app_assoc. f_equal. by apply IH.
Qed.

(** ** Witnesses *)

Lemma chunk_reassemble_stream_witness :
  exists parts r',
    chunkStream [] [[1; 2; 3; 4; 5; 6; 7; 8; 9]; []; [255]] 8 = Some parts /\
    Forall (fun p => len p <= 8) parts /\
    pushAll 5 (NewReassembler 8) parts = (r', Ok [[1; 2; 3; 4; 5; 6; 7; 8; 9]; []; [255]]) /\
    idle 8 r'.
Proof.
  apply (chunk_reassemble_stream 5 8 [] [[1; 2; 3; 4; 5; 6; 7; 8; 9]; []; [255]]
           (NewReassembler 8)).
  - reflexivity.
  - repeat constructor; vm_compute; discriminate.
  - split; reflexivity.
Defined.

Lemma pushAll_bounded_witness :
  wf (mkReassembler 16 [7] 2 true 5).
Proof.
  apply (pushAll_bounded 5 16 [[1; 3; 0; 0; 0; 1; 9]; [1; 1; 0; 0; 0; 2; 7]]
           (mkReassembler 16 [7] 2 true 5) (Ok [[9]])).
  vm_compute. reflexivity.
Defined.

Lemma pushAll_conserves_witness :
  [] ++ concat (bodyOf <$> [[1; 3; 0; 0; 0; 1; 9]; [1; 1; 0; 0; 0; 2; 7]])
  = concat [[9]] ++ [7].
Proof.
  apply (pushAll_conserves 5 (NewReassembler 16) _ (mkReassembler 16 [7] 2 true 5)).
  - vm_compute. split; [discriminate|split; [discriminate|reflexivity]].
  - vm_compute. reflexivity.
Defined.

End Framing.
