(* ===== verification/GatewayWire.v ===== *)
(** The wire contract between the blind gateway, the relay and the phone
    ([internal/gatewaywire/gatewaywire.go]): multiplexed frames, relay ids and
    the connect proof.  HMAC-SHA256 and HKDF-SHA256 are arguments. *)
From S2P Require Import Prelude GoLib.
#[local] Open Scope Z_scope.

Module GatewayWire.

Definition Proto : Z := 1.
Definition FrameVersion : Z := 1.

Definition OpData : Z := 0.
Definition OpOpen : Z := 1.
Definition OpClose : Z := 2.
Definition OpPing : Z := 3.
Definition OpPong : Z := 4.
Definition OpNotice : Z := 5.

Definition HeaderSize : Z := 1 + 1 + 4.
Definition MaxFramePayload : Z := Z.shiftl 1 20.
Definition MaxCloseReason : Z := 120.
Definition NonceBytes : Z := 32.
Definition MaxHelloBytes : Z := 4096.
Definition RelayIDBytes : Z := 16.
Definition RelayIDLength : Z := 22.

Definition hkdfSalt : string := "herdr-gateway-v1".
Definition relayIDInfo : string := "herdr-gw-id".
Definition rendezvousInfo : string := "herdr-gw-auth".
(** ["herdr-gw-connect\x00"] *)
Definition connectProofTag : bytes := bytes_of_string "herdr-gw-connect" ++ [0].
Definition rendezvousKeyLen : Z := 32.
(** [sha256.Size] *)
Definition sha256Size : Z := 32.

(** ** Messages *)

Record ServerHello := mkServerHello {
  sh_Type : string; sh_Proto : Z; sh_Nonce : string;
  sh_StunPort : Z; sh_Version : string; sh_Revision : string }.
Record RegisterHello := mkRegisterHello {
  rh_Type : string; rh_Proto : Z; rh_RelayID : string }.
Record ConnectHello := mkConnectHello {
  ch_Type : string; ch_Proto : Z; ch_RelayID : string; ch_Proof : string }.
Record ReadyMessage := mkReadyMessage { rm_Type : string; rm_Proto : Z }.
Record ErrorMessage := mkErrorMessage {
  em_Type : string; em_Code : string; em_Message : string }.
Record OpenPayload := mkOpenPayload { op_Nonce : string; op_Proof : string }.
Record NoticePayload := mkNoticePayload {
  np_Kind : string; np_Message : string; np_RelayedBytes : Z; np_QuotaBytes : Z }.

#[export] Instance NoticePayload_eq_dec : EqDecision NoticePayload.
Proof. solve_decision. Defined.

Definition TypeServerHello : string := "gateway_hello".
Definition TypeRegister : string := "register".
Definition TypeConnect : string := "connect".
Definition TypeReady : string := "ready".
Definition TypeError : string := "error".

Definition NoticeQuotaWarning : string := "quota_warning".
Definition NoticeQuotaExceeded : string := "quota_exceeded".

Definition CodeBadHello : string := "bad_hello".
Definition CodeUnknownRelay : string := "unknown_relay".
Definition CodeRateLimited : string := "rate_limited".
Definition CodeTooManyClient : string := "too_many_clients".
Definition CodeAtCapacity : string := "at_capacity".
Definition CodeQuotaExceeded : string := "quota_exceeded".
Definition CodeRelayBusy : string := "relay_busy".
Definition CodeInternal : string := "internal".

(** ** Frames *)

Inductive frameError :=
| ErrShortFrame
| ErrVersion (v : Z)
| ErrOpcode (op : Z)
| ErrPayload (n : Z).

Definition AppendFrame (dst : bytes) (op connID : Z) (payload : bytes) : bytes :=
  dst ++ [FrameVersion; op] ++ be_encode 4 connID ++ payload.

Definition EncodeFrame (op connID : Z) (payload : bytes) : bytes :=
  AppendFrame [] op connID payload.

Definition DecodeFrame (frame : bytes) : result frameError (Z * Z * bytes) :=
  if len frame <? HeaderSize then Err ErrShortFrame else
  match frame with
  | v :: op :: rest =>
      if negb (v =? FrameVersion) then Err (ErrVersion v) else
      if op >? OpNotice then Err (ErrOpcode op) else
      let connID := be_decode (take 4 rest) in
      let payload := drop 4 rest in
      if len payload >? MaxFramePayload then Err (ErrPayload (len payload)) else
      Ok (op, connID, payload)
  | _ => Err ErrShortFrame
  end.

(** ** Relay ids and proofs *)

Definition ValidRelayID (relayID : string) : bool :=
  if negb (slen relayID =? RelayIDLength) then false
  else match b64_decode_string relayID with
       | Some decoded => len decoded =? RelayIDBytes
       | None => false
       end.

Section Crypto.
(** [hmac key message] is HMAC-SHA256; [hkdf secret salt info n] is HKDF-SHA256,
    [None] its error. *)
Context (hmac : bytes -> bytes -> bytes)
        (hkdf : bytes -> bytes -> bytes -> Z -> option bytes).

Definition DeriveRelayID (relayKey : string) : option string :=
  let? id := hkdf (bytes_of_string relayKey) (bytes_of_string hkdfSalt)
               (bytes_of_string relayIDInfo) RelayIDBytes in
  Some (b64_encode_string id).

Definition DeriveRendezvousKey (relayKey : string) : option bytes :=
  hkdf (bytes_of_string relayKey) (bytes_of_string hkdfSalt)
    (bytes_of_string rendezvousInfo) rendezvousKeyLen.

(** what the three [mac.Write] calls feed to the HMAC *)
Definition connectMessage (relayID : string) (nonce : bytes) : bytes :=
  connectProofTag ++ bytes_of_string relayID ++ nonce.

Definition ConnectProof (rendezvousKey : bytes) (relayID : string) (nonce : bytes) : bytes :=
  hmac rendezvousKey (connectMessage relayID nonce).

Definition VerifyConnectProof (rendezvousKey : bytes) (relayID : string)
    (nonce proof : bytes) : bool :=
  if negb (len nonce =? NonceBytes) || negb (len proof =? sha256Size) then false
  else bool_decide (proof = ConnectProof rendezvousKey relayID nonce).

(** The proof is bound to one relay id and one challenge: two transcripts
    that authenticate the same bytes are the same transcript. *)
Theorem connectMessage_binds id1 id2 n1 n2 :
  len n1 = NonceBytes -> len n2 = NonceBytes ->
  connectMessage id1 n1 = connectMessage id2 n2 -> id1 = id2 /\ n1 = n2.
Proof.
  intros H1 H2 H. unfold connectMessage in H. apply app_inv_head in H.
  pose proof (f_equal List.length H) as Hlen. rewrite !length_app in Hlen.
  apply app_inj_1 in H as [Hid Hn]; [|lia]. split; [by apply bytes_of_string_inj|done].
Qed.

Lemma VerifyConnectProof_spec key id nonce proof :
  VerifyConnectProof key id nonce proof = true <->
  len nonce = NonceBytes /\ len proof = sha256Size /\ proof = ConnectProof key id nonce.
Proof.
  unfold VerifyConnectProof. split.
  - intros H. case_if_in H; [done|]. by zb.
  - intros (-> & Hp & Heq). rewrite Hp, !Z.eqb_refl. cbn. by apply bool_decide_eq_true.
Qed.

Hypothesis hkdf_length : forall s salt info n k,
  hkdf s salt info n = Some k -> len k = n /\ bytes_ok k.

(** every derived relay id has the shape the gateway checks. *)
Lemma DeriveRelayID_valid relayKey id :
  DeriveRelayID relayKey = Some id -> ValidRelayID id = true.
Proof.
  unfold DeriveRelayID. intros H.
  destruct (hkdf _ _ _ _) as [k|] eqn:E; [|done]. cbn in H. simplify_eq.
  apply hkdf_length in E as [Hlen Hok]. unfold RelayIDBytes in Hlen.
  unfold ValidRelayID. rewrite b64_string_roundtrip by done.
  unfold slen, b64_encode_string.
  rewrite <- length_bytes_of_string, bytes_string_bytes, length_b64_encode, Hlen
    by auto with herdr. done.
Qed.

End Crypto.

(** ** Frame codec *)

(** the frames the multiplexer may carry *)
Definition validFrame (op connID : Z) (payload : bytes) : Prop :=
  0 <= op <= OpNotice /\ 0 <= connID < 2 ^ 32 /\ len payload <= MaxFramePayload.

Lemma frame_decode_encode op connID payload :
  validFrame op connID payload ->
  DecodeFrame (EncodeFrame op connID payload) = Ok (op, connID, payload).
Proof.
  unfold validFrame, MaxFramePayload, OpNotice. intros (Hop & Hid & Hp).
  unfold DecodeFrame, EncodeFrame, AppendFrame, HeaderSize, MaxFramePayload, OpNotice.
  cbn [app List.length]. rewrite length_app, length_be_encode.
  rewrite take_app_length', drop_app_length' by (by rewrite length_be_encode).
  rewrite be_decode_encode_small by lia. ifs; try done; lia.
Qed.

Lemma frame_encode_decode frame op connID payload :
  bytes_ok frame -> DecodeFrame frame = Ok (op, connID, payload) ->
  frame = EncodeFrame op connID payload /\ validFrame op connID payload.
Proof.
  intros Hok H. unfold DecodeFrame, HeaderSize in H. case_if_in H; [done|]. zb.
  destruct frame as [|v [|o rest]]; try done. cbn [List.length] in *.
  do 2 apply Forall_cons in Hok as [? Hok].
  repeat case_if_in H; try done. simplify_eq. zb. unfold is_byte in *.
  assert (Hl4 : List.length (take 4 rest) = 4%nat) by (rewrite length_take; lia).
  assert (Htok : bytes_ok (take 4 rest)) by (by apply Forall_take).
  pose proof (be_decode_bound _ Htok) as Hb. rewrite Hl4 in Hb.
  split; [|unfold validFrame; lia].
  pose proof (be_encode_decode _ Htok) as He. rewrite Hl4 in He.
  unfold EncodeFrame, AppendFrame. rewrite He. cbn [app]. rewrite take_drop. congruence.
Qed.

(** The multiplexed frame codec is exact in both directions: a valid frame
    decodes to what was encoded, and a byte string decodes only if it is the
    encoding of a valid frame. *)
Theorem frame_codec_exact frame op connID payload :
  bytes_ok frame ->
  DecodeFrame frame = Ok (op, connID, payload) <->
  frame = EncodeFrame op connID payload /\ validFrame op connID payload.
Proof.
  intros Hok. split; [by apply frame_encode_decode|].
  intros [-> Hv]. by apply frame_decode_encode.
Qed.

(** ** Witnesses *)

Lemma connectMessage_binds_witness :
  "abc"%string = "abc"%string /\ repeat 7 32 = repeat 7 32.
Proof. apply connectMessage_binds; reflexivity. Defined.

Lemma DeriveRelayID_valid_witness :
  ValidRelayID "AAAAAAAAAAAAAAAAAAAAAA" = true.
Proof.
  apply (DeriveRelayID_valid (fun _ _ _ n => Some (repeat 0 (Z.to_nat n)) ≫= fun k =>
           if 0 <=? n then Some k else None)) with "key"%string.
  - intros s salt info n k H. cbn in H. destruct (0 <=? n) eqn:E; [|done]. simplify_eq. zb.
    rewrite repeat_length. split; [lia|]. apply Forall_forall. intros x Hx.
    apply list_elem_of_In, repeat_spec in Hx. subst. unfold is_byte. lia.
  - vm_compute. reflexivity.
Defined.

Lemma frame_codec_exact_witness :
  DecodeFrame [1; 2; 0; 0; 1; 0; 65] = Ok (2, 256, [65]) <->
  [1; 2; 0; 0; 1; 0; 65] = EncodeFrame 2 256 [65] /\ validFrame 2 256 [65].
Proof.
  apply frame_codec_exact. repeat constructor; vm_compute; congruence.
Defined.

End GatewayWire.
