(* ===== verification/RateLimit.v ===== *)
(** The gateway's fixed-window rate limiter ([internal/gateway/ratelimit.go]).

    The mutex makes [allow] atomic, so a limiter is a value and [allow] a
    function; the map of buckets is a [gmap].  The specification is the same
    limiter without the periodic pruning. *)
From S2P Require Import Prelude.
#[local] Open Scope Z_scope.

Module RateLimit.

Record rateBucket := mkBucket { start : time; count : Z }.

Record rateLimiter := mkLimiter {
  limit : Z;
  window : duration;
  buckets : gmap string rateBucket;
  lastPrune : time
}.

Definition newRateLimiter (limit : Z) (window : duration) : rateLimiter :=
  mkLimiter limit window ∅ zero_time.

(** drops windows that can no longer deny anything *)
Definition pruneLocked (l : rateLimiter) (now : time) : rateLimiter :=
  mkLimiter (limit l) (window l)
    (filter (fun kb => ~ (time_sub now (start kb.2) >= i64 (2 * window l))) (buckets l))
    (lastPrune l).

Definition allow (l : rateLimiter) (key : string) (now : time) : rateLimiter * bool :=
  if limit l <=? 0 then (l, true) else
  let l :=
    if time_sub now (lastPrune l) >=? window l
    then let l := pruneLocked l now in mkLimiter (limit l) (window l) (buckets l) now
    else l in
  let fresh :=
    mkLimiter (limit l) (window l) (<[key := mkBucket now 1]> (buckets l)) (lastPrune l) in
  match buckets l !! key with
  | None => (fresh, true)
  | Some bucket =>
      if time_sub now (start bucket) >=? window l then (fresh, true) else
      if count bucket >=? limit l then (l, false) else
      (mkLimiter (limit l) (window l)
         (<[key := mkBucket (start bucket) (count bucket + 1)]> (buckets l)) (lastPrune l), true)
  end.

(** a sequence of events, each a key and the clock it was charged at *)
Fixpoint run (l : rateLimiter) (events : list (string * time)) : list bool :=
  match events with
  | [] => []
  | (key, now) :: events =>
      let (l, ok) := allow l key now in ok :: run l events
  end.

(** ** Specification: one fixed-window counter per key *)

Section Spec.
Context (lim : Z) (win : duration).

Definition specStep (b : option rateBucket) (now : time) : rateBucket * bool :=
  match b with
  | None => (mkBucket now 1, true)
  | Some b =>
      if time_sub now (start b) >=? win then (mkBucket now 1, true)
      else if count b >=? lim then (b, false)
      else (mkBucket (start b) (count b + 1), true)
  end.

Fixpoint specRun (m : gmap string rateBucket) (events : list (string * time)) : list bool :=
  match events with
  | [] => []
  | (key, now) :: events =>
      let (b, ok) := specStep (m !! key) now in ok :: specRun (<[key := b]> m) events
  end.

(** the clock never goes backwards *)
Fixpoint monotone (t : time) (events : list (string * time)) : Prop :=
  match events with
  | [] => True
  | (_, now) :: events => t <= now /\ monotone now events
  end.

Hypothesis Hlim : 0 < lim.
Hypothesis Hwin : 0 < win < 2 ^ 62.

Lemma i64_double_window : i64 (2 * win) = 2 * win.
Proof. unfold i64. rewrite Z.mod_small; lia. Qed.

(** a bucket whose window has elapsed stays elapsed *)
Lemma elapsed_mono b t now :
  time_sub t (start b) >= 2 * win -> t <= now -> time_sub now (start b) >= win.
Proof. unfold time_sub, max_int64, min_int64 in *. lia. Qed.

(** [l] and the specification's map agree, up to buckets whose window is over *)
Definition agrees (t : time) (l : rateLimiter) (m : gmap string rateBucket) : Prop :=
  limit l = lim /\ window l = win /\
  forall key,
    buckets l !! key = m !! key \/
    (buckets l !! key = None /\ exists b, m !! key = Some b /\
       forall now, t <= now -> time_sub now (start b) >= win).

Lemma agrees_prune t now l m :
  t <= now -> agrees t l m -> agrees now (pruneLocked l now) m.
Proof.
  intros Ht (Hl & Hw & Hb). split; [done|]. split; [done|]. intros key.
  unfold pruneLocked. cbn [buckets]. rewrite Hw, i64_double_window.
  destruct (Hb key) as [Heq|(Hn & b & Hm & Hel)].
  - destruct (buckets l !! key) as [b|] eqn:E.
    + destruct (decide (time_sub now (start b) >= 2 * win)).
      * right. split; [apply map_lookup_filter_None; right; intros x ?; cbn; naive_solver|].
        exists b. split; [done|]. intros. by eapply elapsed_mono.
      * left. rewrite <- Heq. by apply map_lookup_filter_Some_2.
    + left. rewrite <- Heq. apply map_lookup_filter_None. by left.
  - right. split; [apply map_lookup_filter_None; by left|].
    exists b. split; [done|]. intros. apply Hel. lia.
Qed.

Lemma agrees_later t now l m : t <= now -> agrees t l m -> agrees now l m.
Proof.
  intros Ht (Hl & Hw & Hb). do 2 (split; [done|]). intros key.
  destruct (Hb key) as [?|(? & b & ? & Hel)]; [by left|right].
  split; [done|]. exists b. split; [done|]. intros. apply Hel. lia.
Qed.

Lemma agrees_insert t l m key b lp :
  agrees t l m -> agrees t (mkLimiter (limit l) (window l) (<[key := b]> (buckets l)) lp)
                    (<[key := b]> m).
Proof.
  intros (Hl & Hw & Hb). do 2 (split; [done|]). intros key'. cbn [buckets].
  destruct (decide (key = key')) as [->|Hne].
  - left. by rewrite !lookup_insert_eq.
  - rewrite !lookup_insert_ne by done. apply Hb.
Qed.

(** one call of [allow] answers as the specification does and keeps the relation *)
Lemma allow_refines t now l m key :
  t <= now -> agrees t l m ->
  let (l', ok) := allow l key now in
  let (b, ok') := specStep (m !! key) now in
  ok = ok' /\ agrees now l' (<[key := b]> m).
Proof.
  intros Ht Hag. unfold allow. pose proof Hag as (Hl & Hw & _).
  replace (limit l <=? 0) with false by (symmetry; apply Z.leb_gt; lia).
  set (l1 := if _ >=? _ then _ else l).
  assert (Hag1 : agrees now l1 m).
  { unfold l1. destruct (_ >=? _); [|by eapply agrees_later].
    by pose proof (agrees_prune t now l m Ht Hag). }
  clearbody l1. destruct Hag1 as (Hl1 & Hw1 & Hb1). pose proof (Hb1 key) as Hkey.
  assert (Hag1 : agrees now l1 m) by done.
  destruct Hkey as [Heq|(Hn & b & Hm & Hel)].
  - rewrite Heq. destruct (m !! key) as [b|] eqn:Em; cbn [specStep].
    + rewrite Hl1, Hw1. destruct (time_sub now (start b) >=? win) eqn:E1.
      { split; [done|]. rewrite <- Hl1, <- Hw1. by apply agrees_insert. }
      destruct (count b >=? lim) eqn:E2.
      { split; [done|]. by rewrite insert_id. }
      split; [done|]. rewrite <- Hl1, <- Hw1. by apply agrees_insert.
    + split; [done|]. by apply agrees_insert.
  - rewrite Hn, Hm. cbn [specStep].
    replace (time_sub now (start b) >=? win) with true
      by (symmetry; apply Z.geb_le; specialize (Hel now); lia).
    split; [done|]. by apply agrees_insert.
Qed.

Lemma run_refines t l m events :
  agrees t l m -> monotone t events -> run l events = specRun m events.
Proof.
  revert t l m. induction events as [|[key now] events IH]; intros t l m Hag Hmon; [done|].
  destruct Hmon as [Ht Hmon]. cbn [run specRun].
  pose proof (allow_refines t now l m key Ht Hag) as Hr.
  destruct (allow l key now) as [l' ok], (specStep (m !! key) now) as [b ok'].
  destruct Hr as [-> Hag']. f_equal. by eapply IH.
Qed.

End Spec.

(** Pruning is invisible: on any sequence of events whose clock does not go
    backwards the limiter decides exactly as independent, never pruned
    fixed-window counters, one per key. *)
Theorem allow_refines_windows lim win t events :
  0 < lim -> 0 < win < 2 ^ 62 -> monotone t events ->
  run (newRateLimiter lim win) events = specRun lim win ∅ events.
Proof.
  intros Hlim Hwin Hmon. eapply (run_refines lim win Hlim Hwin t); [|done].
  do 2 (split; [done|]). intros key. by left.
Qed.

(** ** How much one key can get through *)

(** the events of [key] allowed at a time in [[lo, hi)] *)
Fixpoint granted (key : string) (lo hi : time) (events : list (string * time))
    (oks : list bool) : Z :=
  match events, oks with
  | (k, now) :: events, ok :: oks =>
      (if bool_decide (k = key) && ok && (lo <=? now) && (now <? hi) then 1 else 0)
      + granted key lo hi events oks
  | _, _ => 0
  end.

Section Bound.
Context (lim : Z) (win : duration) (key : string) (lo : time).
Hypothesis Hlim : 0 < lim.
Hypothesis Hwin : 0 < win < 2 ^ 62.

Lemma elapsed_iff b now : (time_sub now (start b) >=? win) = (win <=? now - start b).
Proof.
  rewrite Z.geb_leb. unfold time_sub, max_int64, min_int64.
  apply eq_true_iff_eq. rewrite !Z.leb_le. lia.
Qed.

(** what [key] can still be granted in [[lo, lo + win)] after time [t] *)
Definition cap (ob : option rateBucket) (t : time) : Z :=
  if lo + win <=? t then 0 else
  match ob with
  | None => 2 * lim
  | Some b =>
      if lo <=? start b then lim - count b
      else if lo <=? t then (lim - count b) + lim else 2 * lim
  end.

Definition bucket_ok (t : time) (ob : option rateBucket) : Prop :=
  match ob with None => True | Some b => 0 <= count b <= lim /\ start b <= t end.

Lemma cap_nonneg ob t : bucket_ok t ob -> 0 <= cap ob t.
Proof. unfold cap, bucket_ok. destruct ob; ifs; lia. Qed.

Lemma cap_later ob t now : bucket_ok t ob -> t <= now -> cap ob now <= cap ob t.
Proof. unfold cap, bucket_ok. destruct ob; ifs; lia. Qed.

Lemma specStep_cap ob t now :
  bucket_ok t ob -> t <= now ->
  let (b, ok) := specStep lim win ob now in
  bucket_ok now (Some b) /\
  (if ok && (lo <=? now) && (now <? lo + win) then 1 else 0) + cap (Some b) now <= cap ob t.
Proof.
  intros Hok Ht. unfold specStep. destruct ob as [b|]; [rewrite elapsed_iff|];
    repeat case_if; unfold cap, bucket_ok in *; cbn [start count] in *; zb;
    split; try lia; ifs; lia.
Qed.

Lemma granted_cap m t events :
  bucket_ok t (m !! key) -> monotone t events ->
  granted key lo (lo + win) events (specRun lim win m events) <= cap (m !! key) t.
Proof.
  revert m t. induction events as [|[k now] events IH]; intros m t Hok Hmon; cbn [granted].
  { by apply cap_nonneg. }
  destruct Hmon as [Ht Hmon]. cbn [specRun].
  destruct (specStep lim win (m !! k) now) as [b ok] eqn:Es.
  destruct (decide (k = key)) as [->|Hne].
  - pose proof (specStep_cap _ t now Hok Ht) as Hs. rewrite Es in Hs. destruct Hs as [Hb Hc].
    rewrite bool_decide_true by done. cbn [andb].
    specialize (IH (<[key := b]> m) now). rewrite lookup_insert_eq in IH.
    specialize (IH Hb Hmon). lia.
  - rewrite bool_decide_false by done. cbn [andb].
    specialize (IH (<[k := b]> m) now). rewrite lookup_insert_ne in IH by done.
    pose proof (cap_later _ _ _ Hok Ht).
    enough (bucket_ok now (m !! key)) by (specialize (IH H0 Hmon); lia).
    unfold bucket_ok in *. destruct (m !! key); lia || done.
Qed.

End Bound.

(** However a client times its attempts, in any interval of one window's
    length a key is granted at most twice the limit. *)
Theorem granted_at_most_twice lim win t events key lo :
  0 < lim -> 0 < win < 2 ^ 62 -> monotone t events ->
  granted key lo (lo + win) events (run (newRateLimiter lim win) events) <= 2 * lim.
Proof.
  intros Hlim Hwin Hmon. erewrite (run_refines lim win Hlim Hwin t _ ∅) by
    (try done; do 2 (split; [done|]); by left).
  pose proof (granted_cap lim win key lo Hlim Hwin ∅ t events) as H.
  rewrite lookup_empty in H. specialize (H I Hmon).
  unfold cap in H. destruct (_ <=? _) in H; lia.
Qed.

(** ** Witnesses *)

Definition demoEvents : list (string * time) :=
  [("a"%string, 10); ("b"%string, 11); ("a"%string, 12); ("a"%string, 13); ("a"%string, 25)].

Lemma allow_refines_windows_witness :
  run (newRateLimiter 2 10) demoEvents = specRun 2 10 ∅ demoEvents.
Proof.
  apply (allow_refines_windows 2 10 5 demoEvents); vm_compute; intuition discriminate.
Defined.

Lemma granted_at_most_twice_witness :
  granted "a" 8 (8 + 10) demoEvents (run (newRateLimiter 2 10) demoEvents) <= 2 * 2.
Proof.
  apply (granted_at_most_twice 2 10 5 demoEvents "a" 8); vm_compute; intuition discriminate.
Defined.

End RateLimit.
