(* ===== verification/Quota.v ===== *)
(** Monthly relayed-byte quotas of the gateway ([internal/gateway/quota.go]).

    The mutex makes every method atomic, so the store is a value threaded
    through the methods.  [encoding/json] is an argument of [load] and [save];
    the file system is the result of [os.ReadFile] and the bytes written. *)
From S2P Require Import Prelude GoLib GatewayWire.
From Stdlib Require Import Ascii String.
#[local] Open Scope Z_scope.

Module Quota.
Import GatewayWire.

Definition stateVersion : Z := 1.

Record counter := mkCounter {
  Month : string;
  RelayedBytes : Z;
  WarnSent : bool;
  ExceededSent : bool
}.

#[export] Instance counter_eq_dec : EqDecision counter.
Proof. solve_decision. Defined.

(** [Relays] maps a relay id to a pointer that may be null in a parsed file *)
Record persistedState := mkPersisted {
  ps_Version : Z;
  ps_Relays : gmap string (option counter)
}.

Record quotaStore := mkStore {
  path : string;
  limit : Z;
  warnPercent : Z;
  warnBytes : Z;
  relays : gmap string counter;
  dirty : bool
}.

Definition setRelays (q : quotaStore) (m : gmap string counter) (d : bool) : quotaStore :=
  mkStore (path q) (limit q) (warnPercent q) (warnBytes q) m d.

(** ** The calendar month of a time, in UTC *)

(** civil year and month of a day number (days since 1 January of year 1),
    by the 400-year cycle of the Gregorian calendar *)
Definition civilMonth (days : Z) : Z * Z :=
  let z := days + 306 in
  let era := z / 146097 in
  let doe := z mod 146097 in
  let yoe := (doe - doe / 1460 + doe / 36524 - doe / 146096) / 365 in
  let doy := doe - (365 * yoe + yoe / 4 - yoe / 100) in
  let mp := (5 * doy + 2) / 153 in
  let m := if mp <? 10 then mp + 3 else mp - 9 in
  (yoe + era * 400 + (if m <=? 2 then 1 else 0), m).

Definition digit (d : Z) : ascii := ascii_of_b (48 + d mod 10).
Definition pad2 (n : Z) : string := String (digit (n / 10)) (String (digit n) EmptyString).
Definition pad4 (n : Z) : string :=
  String (digit (n / 1000)) (String (digit (n / 100)) (pad2 n)).

(** [now.UTC().Format("2006-01")] *)
Definition monthKey (now : time) : string :=
  let (y, m) := civilMonth (now / (86400 * second)) in
  String.append (pad4 y) (String "-"%char (pad2 m)).

(** 1 January 2024 is day 738885 *)
Example monthKey_2024_01 : monthKey (738885 * 86400 * second) = "2024-01"%string.
Proof. vm_compute. reflexivity. Qed.
Example monthKey_2024_02_29 : monthKey ((738885 + 59) * 86400 * second) = "2024-02"%string.
Proof. vm_compute. reflexivity. Qed.
Example monthKey_2024_12_31 : monthKey ((738885 + 366) * 86400 * second - 1) = "2024-12"%string.
Proof. vm_compute. reflexivity. Qed.

(** ** Operations *)

(** floor(value*percent/100), each step in [uint64] arithmetic *)
Definition scalePercent (value percent : Z) : Z :=
  u64 (u64 (value / 100 * percent) + u64 (value mod 100 * percent) / 100).

Definition newQuotaStore (path : string) (limit warnPercent : Z) : quotaStore :=
  mkStore path limit warnPercent
    (if (limit >? 0) && (warnPercent >? 0)
     then scalePercent (u64 limit) (u64 warnPercent) else 0)
    ∅ false.

Definition enabled (q : quotaStore) : bool := limit q >=? 0.

Definition noticeLocked (q : quotaStore) (entry : counter) (kind : string) : NoticePayload :=
  mkNoticePayload kind
    (if bool_decide (kind = NoticeQuotaWarning)
     then "relayed traffic reached this gateway's monthly warning threshold; a direct connection or a self-hosted gateway avoids the limit"
     else "monthly relayed-byte quota is exhausted; new gateway connections are refused until the next calendar month")
    (RelayedBytes entry) (u64 (limit q)).

(** The counter of the current month; the store is returned with the entry
    created or reset. *)
Definition counterLocked (q : quotaStore) (relayID : string) (now : time)
    : quotaStore * counter :=
  let month := monthKey now in
  match relays q !! relayID with
  | None =>
      let entry := mkCounter month 0 false false in
      (setRelays q (<[relayID := entry]> (relays q)) (dirty q), entry)
  | Some entry =>
      if bool_decide (Month entry <> month) then
        let entry := mkCounter month 0 false false in
        (setRelays q (<[relayID := entry]> (relays q)) (dirty q), entry)
      else (q, entry)
  end.

Definition add (q : quotaStore) (relayID : string) (n : Z) (now : time)
    : quotaStore * list NoticePayload :=
  if negb (enabled q) || (n =? 0) then (q, []) else
  let (q, entry) := counterLocked q relayID now in
  let entry := mkCounter (Month entry) (u64 (RelayedBytes entry + n))
                 (WarnSent entry) (ExceededSent entry) in
  let warn := negb (WarnSent entry) && (warnBytes q >? 0)
              && (RelayedBytes entry >=? warnBytes q) in
  let entry := if warn
    then mkCounter (Month entry) (RelayedBytes entry) true (ExceededSent entry) else entry in
  let notices := if warn then [noticeLocked q entry NoticeQuotaWarning] else [] in
  let over := negb (ExceededSent entry) && (RelayedBytes entry >=? u64 (limit q)) in
  let entry := if over
    then mkCounter (Month entry) (RelayedBytes entry) (WarnSent entry) true else entry in
  let notices := notices ++ if over then [noticeLocked q entry NoticeQuotaExceeded] else [] in
  (setRelays q (<[relayID := entry]> (relays q)) true, notices).

Definition exceeded (q : quotaStore) (relayID : string) (now : time)
    : quotaStore * (bool * list NoticePayload) :=
  if negb (enabled q) then (q, (false, [])) else
  let (q, entry) := counterLocked q relayID now in
  if RelayedBytes entry <? u64 (limit q) then (q, (false, [])) else
  if ExceededSent entry then (q, (true, [])) else
  let entry := mkCounter (Month entry) (RelayedBytes entry) (WarnSent entry) true in
  (setRelays q (<[relayID := entry]> (relays q)) true,
   (true, [noticeLocked q entry NoticeQuotaExceeded])).

Definition prune (q : quotaStore) (now : time) : quotaStore :=
  let month := monthKey now in
  let kept := filter (fun ke => Month ke.2 = month) (relays q) in
  setRelays q kept (dirty q || negb (size kept =? size (relays q))%nat).

Inductive readResult := NotExist | ReadError | Data (data : bytes).
Inductive loadError := ErrRead | ErrParse | ErrVersion (v : Z).

Section JSON.
Context (unmarshal : bytes -> option persistedState) (marshal : persistedState -> bytes).

(** [file] is what [os.ReadFile(q.path)] gives *)
Definition load (q : quotaStore) (file : readResult) (now : time)
    : result loadError quotaStore :=
  if String.eqb (path q) "" then Ok q else
  match file with
  | NotExist => Ok q
  | ReadError => Err ErrRead
  | Data data =>
      match unmarshal data with
      | None => Err ErrParse
      | Some state =>
          if negb (ps_Version state =? stateVersion) then Err (ErrVersion (ps_Version state)) else
          let month := monthKey now in
          let current := omap (fun entry : option counter =>
            match entry with
            | Some e => if bool_decide (Month e <> month) then None else Some e
            | None => None
            end) (ps_Relays state) in
          Ok (setRelays q (current ∪ relays q) (dirty q))
      end
  end.

(** the store and the bytes handed to [writeFileAtomic], if any *)
Definition save (q : quotaStore) (now : time) : quotaStore * option bytes :=
  if String.eqb (path q) "" then (q, None) else
  if negb (dirty q) then (q, None) else
  let month := monthKey now in
  let state := mkPersisted stateVersion
    (Some <$> filter (fun ke => Month ke.2 = month) (relays q)) in
  (setRelays q (relays q) false, Some (marshal state)).

(** What a gateway saves is what it finds again after a restart in the same
    month: every counter of the month, flags included, and no other counter. *)
Theorem load_save q q' now data lim wp :
  (forall st, unmarshal (marshal st) = Some st) ->
  path q <> ""%string -> save q now = (q', Some data) ->
  exists q'', load (newQuotaStore (path q) lim wp) (Data data) now = Ok q'' /\
    limit q'' = lim /\ dirty q' = false /\
    forall id c, relays q'' !! id = Some c <-> relays q !! id = Some c /\ Month c = monthKey now.
Proof.
  intros Hjson Hpath Hsave. unfold save in Hsave.
  destruct (String.eqb_spec (path q) "") as [|_]; [done|].
  destruct (negb (dirty q)); [done|]. simplify_eq.
  unfold load. cbn [newQuotaStore path].
  destruct (String.eqb_spec (path q) "") as [|_]; [done|].
  rewrite Hjson. cbn [ps_Version ps_Relays]. eexists. split; [done|].
  split; [done|]. split; [done|]. intros id c. cbn [setRelays relays newQuotaStore].
  rewrite (right_id_L ∅ (∪)), lookup_omap, lookup_fmap.
  destruct (filter _ (relays q) !! id) as [e|] eqn:E; cbn.
  - apply map_lookup_filter_Some in E as [Hl Hm]. cbn in Hm.
    rewrite bool_decide_false by (intros Hne; by apply Hne).
    split; [intros [= <-]; done|intros [? _]; congruence].
  - split; [done|]. intros [Hl Hm]. exfalso.
    apply map_lookup_filter_None in E as [?|E]; [congruence|]. by apply (E c).
Qed.

End JSON.

(** ** The percentage *)

(** The warning threshold is the exact floor of the percentage; no step of
    the [uint64] computation overflows. *)
Theorem scalePercent_exact value percent :
  0 <= value < 2 ^ 64 -> 0 <= percent <= 100 ->
  scalePercent value percent = value * percent / 100.
Proof.
  intros Hv Hp. unfold scalePercent, u64.
  pose proof (Z.div_mod value 100 ltac:(lia)) as Hd.
  pose proof (Z.mod_pos_bound value 100 ltac:(lia)) as Hm.
  set (a := value / 100) in *. set (b := value mod 100) in *.
  assert (0 <= a) by (apply Z.div_pos; lia).
  assert (0 <= a * percent <= a * 100) by nia. assert (0 <= b * percent <= b * 100) by nia.
  rewrite (Z.mod_small (a * percent)), (Z.mod_small (b * percent)) by lia.
  assert (0 <= b * percent / 100 <= b)
    by (split; [apply Z.div_pos; lia|apply Z.div_le_upper_bound; lia]).
  rewrite Z.mod_small by lia.
  rewrite Hd. replace ((100 * a + b) * percent) with (b * percent + a * percent * 100) by lia.
  rewrite Z.div_add by lia. lia.
Qed.

(** ** Runs *)

(** what the gateway does to the store between two months *)
Inductive op :=
| OpAdd (relayID : string) (n : Z)
| OpExceeded (relayID : string)
| OpPrune.

(** one operation at time [now]: the new store and the notices sent, with
    their relay *)
Definition step (q : quotaStore) (o : op) (now : time)
    : quotaStore * list (string * NoticePayload) :=
  match o with
  | OpAdd id n => let (q, ns) := add q id n now in (q, (fun x => (id, x)) <$> ns)
  | OpExceeded id => let '(q, (_, ns)) := exceeded q id now in (q, (fun x => (id, x)) <$> ns)
  | OpPrune => (prune q now, [])
  end.

Fixpoint runOps (q : quotaStore) (ops : list (op * time))
    : quotaStore * list (string * NoticePayload) :=
  match ops with
  | [] => (q, [])
  | (o, now) :: ops =>
      let (q, ns) := step q o now in
      let (q, ms) := runOps q ops in (q, ns ++ ms)
  end.

(** every operation happens in [month] *)
Definition within (month : string) : list (op * time) -> Prop :=
  Forall (fun ot => monthKey ot.2 = month).

(** the notices of one kind sent to one relay *)
Definition sent (id kind : string) (ns : list (string * NoticePayload)) : nat :=
  List.length (filter (fun n => n.1 = id /\ np_Kind n.2 = kind) ns).

Lemma sent_app id kind l1 l2 : sent id kind (l1 ++ l2) = (sent id kind l1 + sent id kind l2)%nat.
Proof. unfold sent. by rewrite filter_app, length_app. Qed.

(** the counter of [id] as [counterLocked] would give it in [month] *)
Definition view (month id : string) (q : quotaStore) : counter :=
  match relays q !! id with
  | Some e => if bool_decide (Month e <> month) then mkCounter month 0 false false else e
  | None => mkCounter month 0 false false
  end.

Lemma Month_view month id q : Month (view month id q) = month.
Proof.
  unfold view. destruct (relays q !! id) as [e|]; [|done].
  case_bool_decide as H; [done|]. by destruct (decide (Month e = month)).
Qed.

Lemma counterLocked_view q id now q' e :
  counterLocked q id now = (q', e) ->
  e = view (monthKey now) id q /\ relays q' = <[id := e]> (relays q) /\
  limit q' = limit q /\ warnBytes q' = warnBytes q /\ Month e = monthKey now.
Proof.
  unfold counterLocked, view. destruct (relays q !! id) as [c|] eqn:E.
  - destruct (bool_decide (Month c <> monthKey now)) eqn:Eb; intros; simplify_eq/=.
    + done.
    + zb. rewrite insert_id by done. split_and?; try done. by destruct (decide (Month e = monthKey now)).
  - intros; simplify_eq/=. done.
Qed.

Lemma view_insert month id id' e q m d :
  m = relays q -> Month e = month ->
  view month id (setRelays q (<[id' := e]> m) d) = if bool_decide (id = id') then e else view month id q.
Proof.
  intros -> He. unfold view. cbn [setRelays relays]. case_bool_decide as Hid.
  - subst. rewrite lookup_insert_eq. by rewrite bool_decide_false by (intros Hne; by apply Hne).
  - by rewrite lookup_insert_ne.
Qed.

Lemma view_relays month id q1 q2 :
  relays q1 = relays q2 -> view month id q1 = view month id q2.
Proof. unfold view. by intros ->. Qed.

Lemma view_prune id q now : view (monthKey now) id (prune q now) = view (monthKey now) id q.
Proof.
  unfold view, prune. cbn [setRelays relays].
  destruct (relays q !! id) as [e|] eqn:E.
  - case_bool_decide as Hm.
    + replace (filter _ _ !! id) with (@None counter); [done|]. symmetry.
      apply map_lookup_filter_None. right. intros x ?. cbn. naive_solver.
    + rewrite (map_lookup_filter_Some_2 _ _ _ e) by
        (done || by destruct (decide (Month e = monthKey now))).
      by rewrite bool_decide_false by (intros Hne; by apply Hne).
  - replace (filter _ _ !! id) with (@None counter); [done|]. symmetry.
    apply map_lookup_filter_None. by left.
Qed.

(** the counter of [id'] after [add] *)
Definition charge (q : quotaStore) (e : counter) (n : Z) : counter :=
  let b := u64 (RelayedBytes e + n) in
  mkCounter (Month e) b
    (WarnSent e || ((warnBytes q >? 0) && (b >=? warnBytes q)))
    (ExceededSent e || (b >=? u64 (limit q))).

Lemma add_spec q id n now :
  enabled q = true -> n <> 0 ->
  let e := view (monthKey now) id q in
  let e' := charge q e n in
  exists q1, add q id n now =
    (setRelays q1 (<[id := e']> (relays q)) true,
     (if negb (WarnSent e) && WarnSent e'
      then [noticeLocked q e' NoticeQuotaWarning] else []) ++
     (if negb (ExceededSent e) && ExceededSent e'
      then [noticeLocked q e' NoticeQuotaExceeded] else [])) /\
    limit q1 = limit q /\ warnBytes q1 = warnBytes q.
Proof.
  intros Hen Hn e e'. unfold add. rewrite Hen.
  replace (n =? 0) with false by (symmetry; by apply Z.eqb_neq). cbn [negb orb].
  destruct (counterLocked q id now) as [q1 c] eqn:Ec.
  apply counterLocked_view in Ec as (Hc & Hr & Hl & Hw & _). subst c.
  exists q1. fold e. split; [|done]. rewrite Hr, Hl, Hw, insert_insert_eq.
  unfold e', charge, noticeLocked. rewrite Hl. cbn [RelayedBytes WarnSent ExceededSent Month].
  set (b := u64 (RelayedBytes e + n)).
  destruct (WarnSent e), (warnBytes q >? 0), (b >=? warnBytes q); cbn;
    destruct (ExceededSent e), (b >=? u64 (limit q)); reflexivity.
Qed.

Lemma counter_eta e : mkCounter (Month e) (RelayedBytes e) (WarnSent e) (ExceededSent e) = e.
Proof. by destruct e. Qed.

Lemma setRelays_id q : setRelays q (relays q) (dirty q) = q.
Proof. by destruct q. Qed.

Lemma exceeded_spec q id now :
  enabled q = true ->
  let e := view (monthKey now) id q in
  let over := u64 (limit q) <=? RelayedBytes e in
  let e' := mkCounter (Month e) (RelayedBytes e) (WarnSent e) (ExceededSent e || over) in
  exists q1, exceeded q id now =
    (setRelays q1 (<[id := e']> (relays q)) (dirty q || (over && negb (ExceededSent e))),
     (over, if negb (ExceededSent e) && over
            then [noticeLocked q e' NoticeQuotaExceeded] else [])) /\
    limit q1 = limit q /\ warnBytes q1 = warnBytes q.
Proof.
  intros Hen e over e'. unfold exceeded. rewrite Hen. cbn [negb].
  destruct (counterLocked q id now) as [q1 c] eqn:Ec.
  assert (dirty q1 = dirty q) as Hd.
  { unfold counterLocked in Ec. repeat case_match; by simplify_eq. }
  apply counterLocked_view in Ec as (Hc & Hr & Hl & Hw & _). subst c. fold e.
  exists q1. split; [|done]. rewrite Hl. unfold e', over.
  destruct (Z.ltb_spec (RelayedBytes e) (u64 (limit q))) as [Hlt|Hge].
  - replace (u64 (limit q) <=? RelayedBytes e) with false by (symmetry; apply Z.leb_gt; lia).
    rewrite !andb_false_r, !orb_false_r, counter_eta. unfold e.
    by rewrite <- Hr, <- Hd, setRelays_id.
  - replace (u64 (limit q) <=? RelayedBytes e) with true by (symmetry; apply Z.leb_le; lia).
    destruct (ExceededSent e) eqn:Ex; cbn [negb andb orb].
    + rewrite orb_false_r, <- Ex, counter_eta. unfold e.
      by rewrite <- Hr, <- Hd, setRelays_id.
    + unfold noticeLocked. rewrite Hl, Hr, insert_insert_eq, orb_true_r. done.
Qed.

(** ** Notices are sent once *)

Section Once.
Context (month id kind : string).
Hypothesis Hkind : kind = NoticeQuotaWarning \/ kind = NoticeQuotaExceeded.

Definition flag (e : counter) : bool :=
  if bool_decide (kind = NoticeQuotaWarning) then WarnSent e else ExceededSent e.

Definition remaining (q : quotaStore) : nat := if flag (view month id q) then 0 else 1.

Lemma sent_if id' q e k (b : bool) :
  sent id kind ((fun x => (id', x)) <$> (if b then [noticeLocked q e k] else [])) =
  if b && bool_decide (id' = id) && bool_decide (k = kind) then 1%nat else 0%nat.
Proof.
  destruct b; [|done]. unfold sent. cbn [fmap list_fmap]. rewrite filter_cons, filter_nil. cbn.
  destruct (decide _) as [[-> ->]|Hn]; [by rewrite !bool_decide_true|].
  destruct (decide (id' = id)) as [->|?]; [rewrite (bool_decide_false (k = kind))|
    rewrite (bool_decide_false (id' = id))]; rewrite ?andb_false_r; naive_solver.
Qed.

(** A notice of a kind goes out only when the kind's flag is raised. *)
Lemma flags_only_rise e' e :
  (WarnSent e = true -> WarnSent e' = true) ->
  (ExceededSent e = true -> ExceededSent e' = true) ->
  ((if negb (WarnSent e) && WarnSent e' && true && bool_decide (NoticeQuotaWarning = kind)
    then 1 else 0) +
   (if negb (ExceededSent e) && ExceededSent e' && true && bool_decide (NoticeQuotaExceeded = kind)
    then 1 else 0) +
   (if (if bool_decide (kind = NoticeQuotaWarning) then WarnSent e' else ExceededSent e')
    then 0 else 1) <=
   (if (if bool_decide (kind = NoticeQuotaWarning) then WarnSent e else ExceededSent e)
    then 0 else 1))%nat.
Proof.
  intros HW HX. destruct Hkind as [-> | ->];
    [rewrite !bool_decide_true, (bool_decide_false (NoticeQuotaExceeded = _)) by done
    |rewrite (bool_decide_true (NoticeQuotaExceeded = NoticeQuotaExceeded)),
       !bool_decide_false by done];
    destruct (WarnSent e), (WarnSent e'), (ExceededSent e), (ExceededSent e'); cbn;
    try lia; by (specialize (HW eq_refl) || specialize (HX eq_refl)).
Qed.

(** an operation on [id']'s counter that sends a notice of a kind only when it
    raises the kind's flag *)
Lemma step_remaining q o now :
  monthKey now = month ->
  let (q', ns) := step q o now in (sent id kind ns + remaining q' <= remaining q)%nat.
Proof.
  intros Hm. destruct o as [id' n|id'|]; cbn [step].
  - destruct (negb (enabled q) || (n =? 0)) eqn:Een.
    { unfold add. rewrite Een. cbn. lia. }
    zb. destruct (add_spec q id' n now) as (q1 & Heq & _); [done|done|].
    rewrite Heq, fmap_app, sent_app, !sent_if. unfold remaining. rewrite <- Hm.
    set (e := view (monthKey now) id' q) in *.
    assert (Hmon : Month (charge q e n) = monthKey now) by apply Month_view.
    rewrite (view_relays _ _ _ (setRelays q (<[id' := charge q e n]> (relays q)) true)) by done.
    rewrite view_insert by done. unfold flag.
    destruct (decide (id' = id)) as [->|Hne]; cycle 1.
    { rewrite (bool_decide_false (id' = id)), (bool_decide_false (id = id')) by congruence.
      rewrite !andb_false_r. cbn. lia. }
    rewrite !(bool_decide_true (id = id)) by done. fold e.
    assert (HW : WarnSent e = true -> WarnSent (charge q e n) = true) by (cbn; by intros ->).
    assert (HX : ExceededSent e = true -> ExceededSent (charge q e n) = true)
      by (cbn; by intros ->).
    apply (flags_only_rise (charge q e n) e); assumption.
  - destruct (negb (enabled q)) eqn:Een.
    { unfold exceeded. rewrite Een. cbn. lia. }
    zb. destruct (exceeded_spec q id' now) as (q1 & Heq & _); [done|].
    rewrite Heq, sent_if. unfold remaining. rewrite <- Hm.
    set (e := view (monthKey now) id' q) in *. set (over := _ <=? _) in *.
    set (e' := mkCounter _ _ _ _) in *.
    assert (Hmon : Month e' = monthKey now) by apply Month_view.
    rewrite (view_relays _ _ _ (setRelays q (<[id' := e']> (relays q)) true)) by done.
    rewrite view_insert by done. unfold flag.
    destruct (decide (id' = id)) as [->|Hne]; cycle 1.
    { rewrite (bool_decide_false (id' = id)), (bool_decide_false (id = id')) by congruence.
      rewrite !andb_false_r. cbn. lia. }
    rewrite !(bool_decide_true (id = id)) by done. fold e.
    pose proof (flags_only_rise e' e) as Hr. unfold e' in *. cbn [WarnSent ExceededSent] in *.
    destruct (WarnSent e), (ExceededSent e), over, Hkind; subst; cbn in *; lia.
  - unfold remaining. rewrite <- Hm, view_prune. cbn. lia.
Qed.

Lemma runOps_remaining q ops :
  within month ops -> (sent id kind (runOps q ops).2 <= remaining q)%nat.
Proof.
  intros Hops. revert q. induction Hops as [|[o now] ops Hm Hops IH]; intros q; cbn [runOps].
  { cbn. lia. }
  pose proof (step_remaining q o now Hm) as Hs.
  destruct (step q o now) as [q1 ns]. specialize (IH q1).
  destruct (runOps q1 ops) as [q2 ms]. cbn [snd] in *. rewrite sent_app. lia.
Qed.

End Once.

(** Within a calendar month a relay receives each kind of quota notice at
    most once, whatever mix of charges, checks and prunes the gateway performs
    and whatever the counters were at the start. *)
Theorem notice_once_per_month month id kind q ops :
  kind = NoticeQuotaWarning \/ kind = NoticeQuotaExceeded ->
  within month ops -> (sent id kind (runOps q ops).2 <= 1)%nat.
Proof.
  intros Hk Hops. pose proof (runOps_remaining month id kind Hk q ops Hops).
  unfold remaining in *. destruct (flag kind (view month id q)); lia.
Qed.

(** ** What is charged *)

(** the bytes charged to [id] *)
Fixpoint charged (id : string) (ops : list (op * time)) : Z :=
  match ops with
  | [] => 0
  | (OpAdd id' n, _) :: ops => (if bool_decide (id' = id) then n else 0) + charged id ops
  | _ :: ops => charged id ops
  end.

Lemma step_bytes month id q o now :
  enabled q = true -> monthKey now = month -> 0 <= RelayedBytes (view month id q) < 2 ^ 64 ->
  let (q', _) := step q o now in
  limit q' = limit q /\
  RelayedBytes (view month id q') =
    u64 (RelayedBytes (view month id q) + charged id [(o, now)]).
Proof.
  intros Hen Hm Hb. destruct o as [id' n|id'|]; cbn [step charged].
  - destruct (decide (n = 0)) as [->|Hn].
    { unfold add. rewrite Hen. cbn. split; [done|].
      unfold u64. rewrite Z.mod_small; destruct (bool_decide _); lia. }
    destruct (add_spec q id' n now Hen Hn) as (q1 & Heq & Hl & _). rewrite Heq. cbn [limit setRelays].
    split; [done|]. rewrite <- Hm in *. set (e := view (monthKey now) id' q) in *.
    rewrite (view_relays _ _ _ (setRelays q (<[id' := charge q e n]> (relays q)) true)) by done.
    rewrite view_insert by (done || apply Month_view).
    destruct (decide (id' = id)) as [->|Hne].
    + rewrite !(bool_decide_true (id = id)), Z.add_0_r by done. reflexivity.
    + rewrite (bool_decide_false (id' = id)), (bool_decide_false (id = id')) by congruence.
      unfold u64. rewrite Z.mod_small; lia.
  - destruct (exceeded_spec q id' now Hen) as (q1 & Heq & Hl & _). rewrite Heq. cbn [limit setRelays].
    split; [done|]. rewrite <- Hm in *. set (e := view (monthKey now) id' q) in *.
    set (e' := mkCounter _ _ _ _).
    rewrite (view_relays _ _ _ (setRelays q (<[id' := e']> (relays q)) true)) by done.
    rewrite view_insert by (done || apply Month_view).
    unfold u64. rewrite Z.add_0_r, Z.mod_small by exact Hb.
    case_bool_decide as Hid; [by subst|done].
  - cbn [limit prune setRelays]. split; [done|]. rewrite <- Hm in *. rewrite view_prune.
    unfold u64. rewrite Z.add_0_r, Z.mod_small; done || lia.
Qed.

Lemma charged_cons id o ops : charged id (o :: ops) = charged id [o] + charged id ops.
Proof. destruct o as [[] ?]; cbn; lia. Qed.

Lemma runOps_bytes month id q ops :
  enabled q = true -> within month ops -> 0 <= RelayedBytes (view month id q) < 2 ^ 64 ->
  limit (runOps q ops).1 = limit q /\
  RelayedBytes (view month id (runOps q ops).1) =
    u64 (RelayedBytes (view month id q) + charged id ops).
Proof.
  intros Hen Hops Hb. revert q Hen Hb.
  induction Hops as [|[o now] ops Hm Hops IH]; intros q Hen Hb; cbn [runOps].
  { cbn. split; [done|]. unfold u64. rewrite Z.mod_small; lia. }
  pose proof (step_bytes month id q o now Hen Hm Hb) as Hs.
  destruct (step q o now) as [q1 ns]. destruct Hs as [Hl Hv].
  assert (0 <= RelayedBytes (view month id q1) < 2 ^ 64)
    by (rewrite Hv; apply Z.mod_pos_bound; lia).
  destruct (IH q1) as [Hl2 Hv2]; [unfold enabled in *; by rewrite Hl|done|].
  destruct (runOps q1 ops) as [q2 ms]. cbn [fst snd] in *. split; [congruence|].
  rewrite Hv2, Hv, (charged_cons id (o, now) ops). unfold u64. rewrite Zplus_mod_idemp_l. f_equal. lia.
Qed.

(** A relay is refused new connections exactly when the bytes charged to it
    this month have reached the quota: charging, checking and pruning in any
    order computes the sum and compares it with the limit. *)
Theorem exceeded_iff_charged month id path lim wp ops now :
  0 <= lim < 2 ^ 63 -> within month ops -> monthKey now = month ->
  0 <= charged id ops < 2 ^ 64 ->
  (exceeded (runOps (newQuotaStore path lim wp) ops).1 id now).2.1 = (lim <=? charged id ops).
Proof.
  intros Hlim Hops Hm Hc. set (q := newQuotaStore path lim wp).
  assert (Hen : enabled q = true) by (apply Z.geb_le; cbn; lia).
  assert (H0 : RelayedBytes (view month id q) = 0) by (unfold view; cbn; by rewrite lookup_empty).
  destruct (runOps_bytes month id q ops Hen Hops) as [Hl Hv]; [lia|]. rewrite H0 in Hv.
  assert (Hen' : enabled (runOps q ops).1 = true) by (unfold enabled; by rewrite Hl).
  destruct (exceeded_spec _ id now Hen') as (q1 & Heq & _). rewrite Heq, Hm, Hl, Hv. cbn.
  unfold u64. rewrite !Z.mod_small by lia. done.
Qed.

(** ** Witnesses *)

Definition demoTime : time := 738885 * 86400 * second.
Definition demoOps : list (op * time) :=
  [(OpAdd "r" 60, demoTime); (OpExceeded "r", demoTime); (OpAdd "r" 50, demoTime + 5);
   (OpPrune, demoTime + 6); (OpExceeded "r", demoTime + 7)].

Lemma demoOps_within : within "2024-01" demoOps.
Proof. repeat constructor; vm_compute; reflexivity. Defined.

Lemma notice_once_per_month_witness :
  (sent "r" NoticeQuotaWarning (runOps (newQuotaStore "" 100 50) demoOps).2 <= 1)%nat.
Proof.
  apply (notice_once_per_month "2024-01"); [left; reflexivity|exact demoOps_within].
Defined.

Lemma exceeded_iff_charged_witness :
  (exceeded (runOps (newQuotaStore "" 100 50) demoOps).1 "r" demoTime).2.1
  = (100 <=? charged "r" demoOps).
Proof.
  apply (exceeded_iff_charged "2024-01" "r" "" 100 50 demoOps demoTime).
  - vm_compute. intuition discriminate.
  - exact demoOps_within.
  - vm_compute. reflexivity.
  - vm_compute. intuition discriminate.
Defined.

Lemma scalePercent_exact_witness : scalePercent (2 ^ 64 - 1) 99 = (2 ^ 64 - 1) * 99 / 100.
Proof. apply scalePercent_exact; vm_compute; intuition discriminate. Defined.

#[export] Instance counter_countable : Countable counter.
Proof.
  refine (inj_countable' (fun c => (Month c, RelayedBytes c, WarnSent c, ExceededSent c))
            (fun t => let '(m, b, w, x) := t in mkCounter m b w x) _).
  abstract (by intros []).
Defined.

(** a serialisation with the round trip [encoding/json] has on this type *)
Definition demoMarshal (st : persistedState) : bytes :=
  [Zpos (encode (ps_Version st, ps_Relays st))].
Definition demoUnmarshal (data : bytes) : option persistedState :=
  match data with
  | [Zpos p] => let? vr := decode (A := Z * gmap string (option counter)) p in
                Some (mkPersisted vr.1 vr.2)
  | _ => None
  end.

Definition demoStore : quotaStore :=
  (add (newQuotaStore "state.json" 100 50) "r" 60 demoTime).1.

Lemma load_save_witness :
  exists q'', load demoUnmarshal (newQuotaStore "state.json" 7 8)
      (Data (demoMarshal (mkPersisted 1 (Some <$> relays demoStore)))) demoTime = Ok q'' /\
    limit q'' = 7 /\ false = false /\
    forall id c, relays q'' !! id = Some c <->
      relays demoStore !! id = Some c /\ Month c = monthKey demoTime.
Proof.
  apply (load_save demoUnmarshal demoMarshal demoStore
           (setRelays demoStore (relays demoStore) false) demoTime _ 7 8).
  - intros st. unfold demoUnmarshal, demoMarshal. rewrite decode_encode. by destruct st.
  - discriminate.
  - vm_compute. reflexivity.
Defined.

End Quota.
