(* ===== verification/Stun.v ===== *)
(** Address discovery of the gateway ([internal/gateway/stun.go]): the Binding
    Request check, the Binding Success Response and the datagram limiter.

    [handleDatagram] is one iteration of the loop of [runSTUN] after a
    successful read.  [decodeSuccess] is the reading of RFC 5389 a peer does;
    it is not part of the program. *)
From S2P Require Import Prelude GoLib RateLimit.
#[local] Open Scope Z_scope.

Module Stun.

Definition stunHeaderSize : Z := 20.
Definition stunMagicCookie : Z := 0x2112A442.
Definition stunTxIDSize : Z := 12.
Definition stunAttrHeaderSize : Z := 4.
Definition stunBindingRequest : Z := 0x0001.
Definition stunBindingSuccess : Z := 0x0101.
Definition stunAttrXORMappedAddress : Z := 0x0020.
Definition stunAttrSoftware : Z := 0x8022.
Definition stunFamilyIPv4 : Z := 0x01.
Definition stunFamilyIPv6 : Z := 0x02.
Definition stunMaxRequest : Z := 1280.
Definition stunSoftware : bytes := bytes_of_string "herdr-gateway".

Definition stunMaxResponse : Z :=
  stunHeaderSize + stunAttrHeaderSize + 4 + 16
  + stunAttrHeaderSize + (len stunSoftware + 3) / 4 * 4.
Definition stunMandatoryResponse : Z := stunHeaderSize + stunAttrHeaderSize + 4 + 16.

Definition stunRateLimit : Z := 20.
Definition stunRateWindow : duration := 5 * second.
Definition stunLimiterSlots : Z := 4096.
Definition stunGlobalRate : Z := 2000.
Definition stunGlobalWindow : duration := second.

(** ** Addresses ([net/netip.Addr] without a zone) *)

Inductive Addr := Addr4 (b : bytes) | Addr16 (b : bytes).

Definition addr_ok (a : Addr) : Prop :=
  match a with
  | Addr4 b => length b = 4%nat /\ bytes_ok b
  | Addr16 b => length b = 16%nat /\ bytes_ok b
  end.

Definition mappedPrefix : bytes := repeat 0 10 ++ [255; 255].

Definition Is4 (a : Addr) : bool := match a with Addr4 _ => true | Addr16 _ => false end.
Definition As16 (a : Addr) : bytes :=
  match a with Addr4 b => mappedPrefix ++ b | Addr16 b => b end.
(** [Unmap] turns an IPv4-mapped IPv6 address into the IPv4 address *)
Definition Unmap (a : Addr) : Addr :=
  match a with
  | Addr16 b => if bool_decide (take 12 b = mappedPrefix) then Addr4 (drop 12 b) else a
  | Addr4 _ => a
  end.

(** ** The limiter *)

Record stunWindow := mkWindow { w_start : time; w_count : Z }.
Definition zeroWindow : stunWindow := mkWindow zero_time 0.

Definition charge (w : stunWindow) (now : time) (window : duration) (limit : Z)
    : stunWindow * bool :=
  if time_sub now (w_start w) >=? window then (mkWindow now 1, true)
  else if w_count w >=? limit then (w, false)
  else (mkWindow (w_start w) (w_count w + 1), true).

(** the array of slots, all zero to start with *)
Record stunLimiter := mkStunLimiter {
  seed : Z;
  global : stunWindow;
  slots : gmap Z stunWindow
}.

Definition newSTUNLimiter (seed : bytes) : stunLimiter :=
  mkStunLimiter (be_decode seed) zeroWindow ∅.

Definition slotAt (l : stunLimiter) (i : Z) : stunWindow := default zeroWindow (slots l !! i).

(** seeded FNV-1a over the 16-byte form, masked to a slot *)
Definition slotOf (seed : Z) (source : Addr) : Z :=
  let hash := fold_left (fun hash b => u64 (Z.lxor hash b * 1099511628211)) (As16 source) seed in
  Z.land hash (stunLimiterSlots - 1).

Definition allow (l : stunLimiter) (source : Addr) (now : time) : stunLimiter * bool :=
  let (g, ok) := charge (global l) now stunGlobalWindow stunGlobalRate in
  let l := mkStunLimiter (seed l) g (slots l) in
  if negb ok then (l, false) else
  let i := slotOf (seed l) source in
  let (w, ok) := charge (slotAt l i) now stunRateWindow stunRateLimit in
  (mkStunLimiter (seed l) (global l) (<[i := w]> (slots l)), ok).

(** ** Messages *)

(** [stunBindingTxID]: [None] for "not a request" *)
Definition stunBindingTxID (request : bytes) : option bytes :=
  if len request <? stunHeaderSize then None else
  if negb (be_decode (take 2 request) =? stunBindingRequest) then None else
  if negb (be_decode (take 4 (drop 4 request)) =? stunMagicCookie) then None else
  let length := be_decode (take 2 (drop 2 request)) in
  if negb (length mod 4 =? 0) || negb (stunHeaderSize + length =? len request) then None else
  Some (take 12 (drop 8 request)).

Definition appendSTUNAttr (dst : bytes) (attrType : Z) (value : bytes) : bytes :=
  dst ++ be_encode 2 attrType ++ be_encode 2 (u16 (len value)) ++ value
  ++ repeat 0 (Z.to_nat ((4 - len value mod 4) mod 4)).

(** [zipWith] is the loop [value[4+i] = b ^ pad[i]] over the address *)
Definition xorBytes (a pad : bytes) : bytes := zip_with Z.lxor a pad.

Definition appendXORMappedAddress (dst txID : bytes) (source : Addr) (port : Z) : bytes :=
  let pad := be_encode 4 stunMagicCookie ++ txID in
  let xport := be_encode 2 (Z.lxor port (u16 (Z.shiftr stunMagicCookie 16))) in
  let value :=
    match source with
    | Addr4 address => [0; stunFamilyIPv4] ++ xport ++ xorBytes address pad
    | Addr16 address => [0; stunFamilyIPv6] ++ xport ++ xorBytes address pad
    end in
  appendSTUNAttr dst stunAttrXORMappedAddress value.

(** [binary.BigEndian.PutUint16(dst[off:off+2], v)] *)
Definition putUint16 (dst : bytes) (off : nat) (v : Z) : bytes :=
  take off dst ++ be_encode 2 v ++ drop (off + 2) dst.

Definition appendBindingSuccess (dst txID : bytes) (source : Addr) (port requestSize : Z) : bytes :=
  let head := length dst in
  let dst := dst ++ be_encode 2 stunBindingSuccess in
  let dst := dst ++ be_encode 2 0 in
  let dst := dst ++ be_encode 4 stunMagicCookie in
  let dst := dst ++ txID in
  let dst := appendXORMappedAddress dst txID source port in
  let software := stunAttrHeaderSize + (len stunSoftware + 3) / 4 * 4 in
  let dst := if len dst - Z.of_nat head + software <=? 2 * requestSize
             then appendSTUNAttr dst stunAttrSoftware stunSoftware else dst in
  putUint16 dst (head + 2) (u16 (len dst - Z.of_nat head - stunHeaderSize)).

(** one datagram: the limiter's next state and the response, if one is sent *)
Definition handleDatagram (l : stunLimiter) (request : bytes) (from : Addr) (port : Z) (now : time)
    : stunLimiter * option bytes :=
  match stunBindingTxID request with
  | None => (l, None)
  | Some txID =>
      let source := Unmap from in
      let (l, ok) := allow l source now in
      if negb ok then (l, None)
      else (l, Some (appendBindingSuccess [] txID source port (len request)))
  end.

(** ** The response *)

(** what a peer reads from a Binding Success Response (RFC 5389): the
    transaction id and the reflected address, when the header is consistent *)
Definition decodeSuccess (response : bytes) : option (bytes * Addr * Z) :=
  if negb (be_decode (take 2 response) =? stunBindingSuccess) then None else
  if negb (be_decode (take 2 (drop 2 response)) + 20 =? len response) then None else
  if negb (be_decode (take 4 (drop 4 response)) =? stunMagicCookie) then None else
  let txID := take 12 (drop 8 response) in
  let pad := be_encode 4 stunMagicCookie ++ txID in
  let attr := drop 20 response in
  if negb (be_decode (take 2 attr) =? stunAttrXORMappedAddress) then None else
  match take (Z.to_nat (be_decode (take 2 (drop 2 attr)))) (drop 4 attr) with
  | _ :: family :: p1 :: p0 :: address =>
      let port := Z.lxor (be_decode [p1; p0]) (Z.shiftr stunMagicCookie 16) in
      if (family =? stunFamilyIPv4) && (length address =? 4)%nat
      then Some (txID, Addr4 (xorBytes address pad), port)
      else if (family =? stunFamilyIPv6) && (length address =? 16)%nat
      then Some (txID, Addr16 (xorBytes address pad), port)
      else None
  | _ => None
  end.

Definition softwareAttr : bytes := appendSTUNAttr [] stunAttrSoftware stunSoftware.

(** the attributes of the response to a request of [n] bytes *)
Definition attributes (txID : bytes) (source : Addr) (port n : Z) : bytes :=
  let a := appendXORMappedAddress [] txID source port in
  if 20 + len a + 20 <=? 2 * n then a ++ softwareAttr else a.

Lemma appendSTUNAttr_nil dst t v : appendSTUNAttr dst t v = dst ++ appendSTUNAttr [] t v.
Proof. done. Qed.

Lemma length_xorAttr txID source port :
  len txID = stunTxIDSize -> addr_ok source ->
  len (appendXORMappedAddress [] txID source port) = if Is4 source then 12 else 24.
Proof.
  unfold stunTxIDSize. intros Ht Ha. unfold appendXORMappedAddress, appendSTUNAttr, xorBytes.
  destruct source as [b|b]; destruct Ha as [Hb _];
    set (z := zip_with _ _ _);
    assert (Hz : length z = length b)
      by (unfold z; rewrite length_zip_with, length_app, length_be_encode; lia);
    rewrite !length_app, repeat_length; cbn [length be_encode Is4]; rewrite Hz, Hb; done.
Qed.

Lemma appendXOR_nil dst txID source port :
  appendXORMappedAddress dst txID source port =
  dst ++ appendXORMappedAddress [] txID source port.
Proof. done. Qed.

Lemma response_shape txID source port n :
  len txID = stunTxIDSize -> addr_ok source ->
  appendBindingSuccess [] txID source port n =
    be_encode 2 stunBindingSuccess ++ be_encode 2 (len (attributes txID source port n)) ++
    be_encode 4 stunMagicCookie ++ txID ++ attributes txID source port n.
Proof.
  intros Ht Ha. pose proof (length_xorAttr txID source port Ht Ha) as Hl.
  unfold stunTxIDSize in Ht. unfold appendBindingSuccess, attributes.
  rewrite appendXOR_nil.
  set (a := appendXORMappedAddress [] txID source port) in *. clearbody a.
  set (hdr := (((([] ++ be_encode 2 stunBindingSuccess) ++ be_encode 2 0)
                 ++ be_encode 4 stunMagicCookie) ++ txID)).
  assert (Hh : len hdr = 20) by (unfold hdr; rewrite !length_app, !length_be_encode; cbn; lia).
  change (stunAttrHeaderSize + (len stunSoftware + 3) / 4 * 4) with 20.
  rewrite (appendSTUNAttr_nil (hdr ++ a)), <- (app_assoc hdr a).
  change (appendSTUNAttr [] stunAttrSoftware stunSoftware) with softwareAttr.
  rewrite length_app. replace (Z.of_nat (length hdr + length a) - Z.of_nat (length (@nil Z)) + 20)
    with (20 + len a + 20) by (cbn [length]; lia).
  set (attrs := if _ <=? _ then a ++ softwareAttr else a).
  replace (if 20 + len a + 20 <=? 2 * n then hdr ++ a ++ softwareAttr else hdr ++ a)
    with (hdr ++ attrs) by (unfold attrs; by destruct (_ <=? _)).
  assert (Hat : len attrs <= 44).
  { unfold attrs. destruct (_ <=? _); rewrite ?length_app; change (length softwareAttr) with 20%nat;
      destruct (Is4 source); lia. }
  rewrite length_app. cbn [length Nat.add]. unfold stunHeaderSize, u16.
  rewrite Z.mod_small by lia.
  replace (Z.of_nat (length hdr + length attrs) - Z.of_nat 0 - 20) with (len attrs) by lia.
  clearbody attrs. unfold hdr, putUint16. cbn [be_encode app take drop Nat.add]. 
  by rewrite <- ?app_assoc.
Qed.

Lemma xorBytes_cancel b pad :
  (length b <= length pad)%nat -> xorBytes (xorBytes b pad) pad = b.
Proof.
  unfold xorBytes. revert pad. induction b as [|x b IH]; intros [|y pad] Hl; cbn in *;
    try done; try lia. rewrite lxor_cancel, IH by lia. done.
Qed.

Lemma length_xorBytes b pad : (length b <= length pad)%nat -> length (xorBytes b pad) = length b.
Proof. intros. unfold xorBytes. rewrite length_zip_with. lia. Qed.

(** the XOR-MAPPED-ADDRESS attribute, field by field *)
Lemma xorAttr_value txID source port :
  len txID = stunTxIDSize -> addr_ok source ->
  exists xaddr fill,
    appendXORMappedAddress [] txID source port =
      be_encode 2 stunAttrXORMappedAddress ++
      be_encode 2 (if Is4 source then 8 else 20) ++
      (0 :: (if Is4 source then stunFamilyIPv4 else stunFamilyIPv6)
         :: be_encode 2 (Z.lxor port (Z.shiftr stunMagicCookie 16)) ++ xaddr) ++ fill /\
    length xaddr = (if Is4 source then 4 else 16)%nat /\
    xorBytes xaddr (be_encode 4 stunMagicCookie ++ txID) =
      match source with Addr4 b => b | Addr16 b => b end.
Proof.
  unfold stunTxIDSize. intros Ht Ha. unfold appendXORMappedAddress, appendSTUNAttr.
  change (u16 (Z.shiftr stunMagicCookie 16)) with (Z.shiftr stunMagicCookie 16).
  set (pad := be_encode 4 stunMagicCookie ++ txID).
  assert (Hpad : length pad = 16%nat) by (unfold pad; rewrite length_app, length_be_encode; lia).
  clearbody pad.
  destruct source as [b|b]; destruct Ha as [Hb _]; cbn [Is4];
    (exists (xorBytes b pad); eexists;
     rewrite xorBytes_cancel by lia;
     split; [|split; [rewrite length_xorBytes; lia|done]];
     rewrite !length_app, length_xorBytes, length_be_encode, Hb by lia; reflexivity).
Qed.

(** A peer reads back from the response its own transaction id and the very
    address and port its datagram came from. *)
Theorem response_reflects txID source port n :
  len txID = stunTxIDSize -> addr_ok source -> 0 <= port < 2 ^ 16 ->
  decodeSuccess (appendBindingSuccess [] txID source port n) = Some (txID, source, port).
Proof.
  intros Ht Ha Hp. rewrite response_shape by done.
  pose proof (length_xorAttr txID source port Ht Ha) as Hl.
  destruct (xorAttr_value txID source port Ht Ha) as (xaddr & fill & Hx & Hxl & Hxx).
  unfold stunTxIDSize in Ht.
  set (attrs := attributes txID source port n).
  assert (Hat : len attrs <= 44 /\ exists rest, attrs = appendXORMappedAddress [] txID source port ++ rest).
  { unfold attrs, attributes. destruct (_ <=? _).
    - split; [|by eexists]. rewrite length_app. change (length softwareAttr) with 20%nat.
      destruct (Is4 source); lia.
    - split; [destruct (Is4 source); lia|]. exists []. by rewrite app_nil_r. }
  destruct Hat as [Hat [rest Hrest]]. clearbody attrs.
  assert (Hport : be_decode (be_encode 2 (Z.lxor port (Z.shiftr stunMagicCookie 16))) =
                  Z.lxor port (Z.shiftr stunMagicCookie 16)).
  { apply be_decode_encode_small. apply (lxor_bound 16); [done|done|]. by vm_compute. }
  assert (Hfield : forall v, 0 <= v < 65536 -> exists a b,
             be_encode 2 v = [a; b] /\ be_decode [a; b] = v).
  { intros v Hv. do 2 eexists. split; [reflexivity|]. by apply (be_decode_encode_small 2). }
  destruct (Hfield (len attrs)) as (l1 & l0 & El & Hlen); [lia|].
  destruct (Hfield (Z.lxor port (Z.shiftr stunMagicCookie 16))) as (p1 & p0 & Ep & Hpp).
  { apply (lxor_bound 16); [done|done|]. by vm_compute. }
  rewrite El. rewrite Ep in Hx. clear Hport Hfield.
  rewrite Hx in Hrest. 
  unfold decodeSuccess.
  change (be_encode 2 stunBindingSuccess) with [1; 1].
  change (be_encode 4 stunMagicCookie) with [33; 18; 164; 66] in *.
  do 12 (destruct txID as [|? txID]; [cbn in Ht; lia|]). destruct txID; [|cbn in Ht; lia].
  cbn [app take drop length]. rewrite Hlen.
  replace (len attrs + 20 =? _) with true by (symmetry; apply Z.eqb_eq; lia).
  change (be_decode [1; 1]) with stunBindingSuccess.
  change (be_decode [33; 18; 164; 66]) with stunMagicCookie.
  rewrite !Z.eqb_refl. cbn [negb]. rewrite Hrest.
  change (be_encode 2 stunAttrXORMappedAddress) with [0; 32].
  destruct source as [b|b]; cbn [Is4] in *.
  - change (be_encode 2 8) with [0; 8]. cbn [app take drop].
    change (Z.to_nat (be_decode [0; 8])) with 8%nat. 
    do 4 (destruct xaddr as [|? xaddr]; [done|]). destruct xaddr; [|done].
    cbn [app take] in Hxx |- *. rewrite take_0, Hpp, lxor_cancel, Hxx. reflexivity.
  - change (be_encode 2 20) with [0; 20]. cbn [app take drop].
    change (Z.to_nat (be_decode [0; 20])) with 20%nat. 
    do 16 (destruct xaddr as [|? xaddr]; [done|]). destruct xaddr; [|done].
    cbn [app take] in Hxx |- *. rewrite take_0, Hpp, lxor_cancel, Hxx. reflexivity.
Qed.

(** ** Amplification *)

Lemma stunBindingTxID_spec request txID :
  stunBindingTxID request = Some txID ->
  stunHeaderSize <= len request /\ len txID = stunTxIDSize /\
  be_decode (take 2 request) = stunBindingRequest /\
  be_decode (take 4 (drop 4 request)) = stunMagicCookie /\
  stunHeaderSize + be_decode (take 2 (drop 2 request)) = len request /\
  txID = take 12 (drop 8 request).
Proof.
  unfold stunBindingTxID, stunHeaderSize, stunTxIDSize. intros H.
  repeat case_if_in H; try done. simplify_eq. zb.
  rewrite length_take, length_drop. repeat split; try done; lia.
Qed.

Lemma Unmap_ok a : addr_ok a -> addr_ok (Unmap a).
Proof.
  destruct a as [b|b]; intros [Hl Hb]; [done|]. unfold Unmap. case_bool_decide; [|done].
  split; [rewrite length_drop; lia|by apply Forall_drop].
Qed.

Lemma length_response txID source port n :
  len txID = stunTxIDSize -> addr_ok source ->
  len (appendBindingSuccess [] txID source port n) = 20 + len (attributes txID source port n).
Proof.
  intros Ht Ha. rewrite response_shape by done. unfold stunTxIDSize in Ht.
  rewrite !length_app, !length_be_encode. lia.
Qed.

(** The port is no reflector: only a well-formed Binding Request is answered,
    the answer never exceeds twice the request except for the mandatory part a
    bare IPv6 request needs, and it always fits the reserved buffer. *)
Theorem response_not_amplifying l request from port now l' response :
  addr_ok from -> handleDatagram l request from port now = (l', Some response) ->
  stunHeaderSize <= len request /\
  be_decode (take 2 request) = stunBindingRequest /\
  be_decode (take 4 (drop 4 request)) = stunMagicCookie /\
  len response <= Z.max (2 * len request) stunMandatoryResponse /\
  len response <= stunMaxResponse /\
  (Is4 (Unmap from) = true -> len response <= 2 * len request).
Proof.
  intros Ha H. unfold handleDatagram in H.
  destruct (stunBindingTxID request) as [txID|] eqn:E; [|done].
  apply stunBindingTxID_spec in E as (Hn & Ht & Htype & Hcookie & _).
  destruct (allow l (Unmap from) now) as [l1 ok]. destruct ok; [|done]. cbn [negb] in H.
  simplify_eq. apply Unmap_ok in Ha. do 3 (split; [done|]).
  rewrite length_response by done.
  pose proof (length_xorAttr txID (Unmap from) port Ht Ha) as Hx.
  unfold attributes, stunMandatoryResponse, stunHeaderSize, stunAttrHeaderSize in *.
  change stunMaxResponse with 64.
  destruct (_ <=? _) eqn:El; zb; rewrite ?length_app in *;
    change (length softwareAttr) with 20%nat; destruct (Is4 (Unmap from)); lia.
Qed.

(** ** The limiter *)

(** a slot is a fixed-window counter *)
Definition asBucket (w : stunWindow) : RateLimit.rateBucket :=
  RateLimit.mkBucket (w_start w) (w_count w).

Lemma charge_specStep w now win lim :
  let (w', ok) := charge w now win lim in
  RateLimit.specStep lim win (Some (asBucket w)) now = (asBucket w', ok).
Proof. unfold charge, RateLimit.specStep. cbn. by repeat case_if. Qed.

(** the outcome of a sequence of datagrams, with their sources *)
Fixpoint runAllow (l : stunLimiter) (events : list (Addr * time)) : list bool :=
  match events with
  | [] => []
  | (source, now) :: events =>
      let (l, ok) := allow l source now in ok :: runAllow l events
  end.

Fixpoint ordered (t : time) (events : list (Addr * time)) : Prop :=
  match events with
  | [] => True
  | (_, now) :: events => t <= now /\ ordered now events
  end.

(** the datagrams of sources satisfying [P] let through in [[lo, hi)] *)
Fixpoint passed (P : Addr -> bool) (lo hi : time) (events : list (Addr * time))
    (oks : list bool) : Z :=
  match events, oks with
  | (source, now) :: events, ok :: oks =>
      (if P source && ok && (lo <=? now) && (now <? hi) then 1 else 0) + passed P lo hi events oks
  | _, _ => 0
  end.

Section Bounds.
Context (sd : Z) (lo : time).

Definition gcap := RateLimit.cap stunGlobalRate stunGlobalWindow lo.
Definition scap := RateLimit.cap stunRateLimit stunRateWindow lo.
Definition gok := RateLimit.bucket_ok stunGlobalRate.
Definition sok := RateLimit.bucket_ok stunRateLimit.

Lemma charge_cap w t now win lim :
  0 < lim -> 0 < win < 2 ^ 62 -> RateLimit.bucket_ok lim t (Some (asBucket w)) -> t <= now ->
  let (w', ok) := charge w now win lim in
  RateLimit.bucket_ok lim now (Some (asBucket w')) /\
  (if ok && (lo <=? now) && (now <? lo + win) then 1 else 0)
  + RateLimit.cap lim win lo (Some (asBucket w')) now
  <= RateLimit.cap lim win lo (Some (asBucket w)) t.
Proof.
  intros Hl Hw Hok Ht. pose proof (charge_specStep w now win lim) as Hs.
  pose proof (RateLimit.specStep_cap lim win lo Hl Hw _ t now Hok Ht) as Hc.
  destruct (charge w now win lim) as [w' ok]. rewrite Hs in Hc. exact Hc.
Qed.

Lemma bucket_ok_later lim t now ob :
  RateLimit.bucket_ok lim t ob -> t <= now -> RateLimit.bucket_ok lim now ob.
Proof. unfold RateLimit.bucket_ok. destruct ob; lia. Qed.

(** the whole listener *)
Lemma passed_global l t events :
  gok t (Some (asBucket (global l))) -> ordered t events ->
  passed (fun _ => true) lo (lo + stunGlobalWindow) events (runAllow l events)
  <= gcap (Some (asBucket (global l))) t.
Proof.
  revert l t. induction events as [|[src now] events IH]; intros l t Hok Hord; cbn [passed runAllow].
  { apply RateLimit.cap_nonneg; done || by vm_compute. }
  destruct Hord as [Ht Hord]. unfold allow.
  pose proof (charge_cap (global l) t now stunGlobalWindow stunGlobalRate) as Hc.
  destruct (charge (global l) now _ _) as [g ok].
  destruct Hc as [Hg Hc]; [by vm_compute|by vm_compute|done|done|].
  destruct ok; cbn [negb].
  - destruct (charge (slotAt _ _) now _ _) as [w ok2].
    set (l2 := mkStunLimiter _ _ _). specialize (IH l2 now Hg Hord). fold gcap in *.
    cbn [global l2] in IH. cbn [andb] in *. destruct ok2; cbn [andb] in *; [lia|].
    destruct ((lo <=? now) && _); lia.
  - set (l2 := mkStunLimiter _ _ _). specialize (IH l2 now Hg Hord). fold gcap in *.
    cbn [global l2] in IH. cbn [andb] in *. lia.
Qed.

(** one slot *)
Lemma passed_slot l t events i :
  seed l = sd -> sok t (Some (asBucket (slotAt l i))) -> ordered t events ->
  passed (fun src => slotOf sd src =? i) lo (lo + stunRateWindow) events (runAllow l events)
  <= scap (Some (asBucket (slotAt l i))) t.
Proof.
  revert l t. induction events as [|[src now] events IH]; intros l t Hsd Hok Hord;
    cbn [passed runAllow].
  { apply RateLimit.cap_nonneg; done || by vm_compute. }
  destruct Hord as [Ht Hord]. unfold allow.
  pose proof (bucket_ok_later _ _ _ _ Hok Ht) as Hok'.
  assert (Hlater : scap (Some (asBucket (slotAt l i))) now <= scap (Some (asBucket (slotAt l i))) t)
    by (apply RateLimit.cap_later; done || by vm_compute).
  destruct (charge (global l) now _ _) as [g ok]. destruct ok; cbn [negb].
  - cbn [seed]. rewrite Hsd. change (slotAt (mkStunLimiter sd g (slots l))) with (slotAt l).
    destruct (slotOf sd src =? i) eqn:Ei; zb.
    + rewrite Ei. pose proof (charge_cap (slotAt l i) t now stunRateWindow stunRateLimit) as Hc.
      destruct (charge (slotAt l i) now _ _) as [w ok2].
      destruct Hc as [Hw Hc]; [by vm_compute|by vm_compute|done|done|].
      set (l2 := mkStunLimiter _ _ _).
      assert (Hl2 : slotAt l2 i = w) by (unfold slotAt, l2; cbn; by rewrite lookup_insert_eq).
      specialize (IH l2 now eq_refl). rewrite Hl2 in IH. specialize (IH Hw Hord).
      fold scap in *. cbn [andb]. lia.
    + destruct (charge (slotAt l (slotOf sd src)) now _ _) as [w ok2]. cbn [andb].
      set (l2 := mkStunLimiter _ _ _).
      assert (Hl2 : slotAt l2 i = slotAt l i) by (unfold slotAt, l2; cbn; by rewrite lookup_insert_ne).
      specialize (IH l2 now eq_refl). rewrite Hl2 in IH. specialize (IH Hok' Hord).
      fold scap in *. lia.
  - set (l2 := mkStunLimiter _ _ _). specialize (IH l2 now Hsd).
    change (slotAt l2 i) with (slotAt l i) in IH. specialize (IH Hok' Hord).
    fold scap in *. rewrite andb_false_r. cbn [andb]. lia.
Qed.

End Bounds.

Lemma passed_mono (P Q : Addr -> bool) lo hi events oks :
  (forall a, P a = true -> Q a = true) ->
  passed P lo hi events oks <= passed Q lo hi events oks.
Proof.
  intros HPQ. revert oks. induction events as [|[a now] events IH]; intros [|ok oks];
    cbn [passed]; try lia.
  specialize (IH oks). destruct (P a) eqn:EP; [rewrite (HPQ a EP); lia|].
  cbn [andb]. destruct (Q a && ok && (lo <=? now) && (now <? hi)); lia.
Qed.

(** In any second the listener lets through at most twice the global rate,
    and in any five seconds at most twice the per-source limit for one source,
    although sources share slots and their addresses may be forged. *)
Theorem stun_rates_bounded sd events lo source :
  ordered zero_time events ->
  passed (fun _ => true) lo (lo + stunGlobalWindow) events
    (runAllow (mkStunLimiter sd zeroWindow ∅) events) <= 2 * stunGlobalRate /\
  passed (fun a => bool_decide (As16 a = As16 source)) lo (lo + stunRateWindow) events
    (runAllow (mkStunLimiter sd zeroWindow ∅) events) <= 2 * stunRateLimit.
Proof.
  intros Hord. split.
  - etransitivity; [apply passed_global with (t := zero_time); [|done]|].
    + by vm_compute.
    + unfold gcap, RateLimit.cap. cbn. unfold stunGlobalRate. ifs; lia.
  - etransitivity; [apply (passed_mono _ (fun a => slotOf sd a =? slotOf sd source))|].
    { intros a Ha. zb. unfold slotOf. rewrite Ha. apply Z.eqb_refl. }
    etransitivity; [apply passed_slot with (t := zero_time); [done| |done]|].
    + by vm_compute.
    + unfold scap, RateLimit.cap, slotAt. cbn. rewrite lookup_empty. cbn.
      unfold stunRateLimit. ifs; lia.
Qed.

(** ** Witnesses *)

Definition demoAddr : Addr := Addr16 (mappedPrefix ++ [203; 0; 113; 7]).
Definition demoTx : bytes := [1; 2; 3; 4; 5; 6; 7; 8; 9; 10; 11; 12].
Definition demoRequest : bytes := [0; 1; 0; 0; 33; 18; 164; 66] ++ demoTx.

Lemma demoAddr_ok : addr_ok demoAddr.
Proof. split; [reflexivity|]. repeat constructor; vm_compute; discriminate. Defined.

Lemma response_reflects_witness :
  decodeSuccess (appendBindingSuccess [] demoTx (Unmap demoAddr) 40000 20)
  = Some (demoTx, Addr4 [203; 0; 113; 7], 40000).
Proof.
  apply (response_reflects demoTx (Addr4 [203; 0; 113; 7]) 40000 20).
  - reflexivity.
  - split; [reflexivity|]. repeat constructor; vm_compute; discriminate.
  - vm_compute. intuition discriminate.
Defined.

Lemma response_not_amplifying_witness :
  stunHeaderSize <= len demoRequest.
Proof.
  eapply (response_not_amplifying (mkStunLimiter 5 zeroWindow ∅) demoRequest demoAddr 40000
            (1000 * second) _ _ demoAddr_ok).
  vm_compute. reflexivity.
Defined.

Lemma stun_rates_bounded_witness :
  passed (fun _ => true) 5 (5 + stunGlobalWindow) [(demoAddr, 5); (demoAddr, 6)]
    (runAllow (mkStunLimiter 9 zeroWindow ∅) [(demoAddr, 5); (demoAddr, 6)]) <= 2 * stunGlobalRate.
Proof.
  apply (stun_rates_bounded 9 [(demoAddr, 5); (demoAddr, 6)] 5 demoAddr).
  vm_compute. intuition discriminate.
Defined.

End Stun.
