(* ===== verification/ClientQueue.v ===== *)
(** One phone connection of the gateway and its outbound queue
    ([internal/gateway/client.go]).

    The methods that run under [sendMu] or [closeOnce] are functions on the
    connection; the goroutine [writePump] is a set of steps, so that deliveries
    and closes interleave with it.  Fields after [closed] record what the
    outside world sees: the frames the relay handed over, the frames written to
    the phone and the close frame. *)
From S2P Require Import Prelude.
#[local] Open Scope Z_scope.

Module ClientQueue.

Definition clientQueueDepth : Z := 32.
Definition maxQueuedBytes : Z := Z.shiftl 4 20.

(** where the writer goroutine is: waiting in the [select], holding a received
    frame it has not accounted for, writing one to the socket, or returned *)
Inductive writer :=
| Waiting
| Received (frame : bytes)
| Writing (frame : bytes)
| Returned.

Record clientConn := mkClient {
  lastActivity : time;
  out : list bytes;            (* buffered channel *)
  chanClosed : bool;
  outClosed : bool;
  queuedBytes : Z;
  drainStatus : Z;
  drainReason : string;
  closed : bool;               (* closeOnce has run *)
  cancelled : bool;
  pump : writer;
  accepted : list bytes;
  written : list bytes;
  closeFrame : option (Z * string)
}.

Definition newClient (now : time) : clientConn :=
  mkClient now [] false false 0 0 "" false false Waiting [] [] None.

Definition touch (c : clientConn) (now : time) : clientConn :=
  mkClient now (out c) (chanClosed c) (outClosed c) (queuedBytes c) (drainStatus c)
    (drainReason c) (closed c) (cancelled c) (pump c) (accepted c) (written c) (closeFrame c).

Definition deliver (c : clientConn) (frame : bytes) : clientConn * bool :=
  if outClosed c then (c, false) else
  if queuedBytes c + len frame >? maxQueuedBytes then (c, false) else
  if len (out c) <? clientQueueDepth then
    (mkClient (lastActivity c) (out c ++ [frame]) (chanClosed c) (outClosed c)
       (queuedBytes c + len frame) (drainStatus c) (drainReason c) (closed c) (cancelled c)
       (pump c) (accepted c ++ [frame]) (written c) (closeFrame c), true)
  else (c, false).

Definition finish (c : clientConn) (status : Z) (reason : string) : clientConn :=
  if outClosed c then c else
  mkClient (lastActivity c) (out c) true true (queuedBytes c) status reason (closed c)
    (cancelled c) (pump c) (accepted c) (written c) (closeFrame c).

Definition closeWith (c : clientConn) (status : Z) (reason : string) : clientConn :=
  if closed c then c else
  mkClient (lastActivity c) (out c) (chanClosed c) true (queuedBytes c) (drainStatus c)
    (drainReason c) true true (pump c) (accepted c) (written c) (Some (status, reason)).

Definition kill (c : clientConn) : clientConn :=
  if closed c then c else
  mkClient (lastActivity c) (out c) (chanClosed c) true (queuedBytes c) (drainStatus c)
    (drainReason c) true true (pump c) (accepted c) (written c) (closeFrame c).

Definition setPump (c : clientConn) (o : list bytes) (q : Z) (p : writer) (w : list bytes)
    (cancel : bool) : clientConn :=
  mkClient (lastActivity c) o (chanClosed c) (outClosed c) q (drainStatus c) (drainReason c)
    (closed c) (cancelled c || cancel) p (accepted c) w (closeFrame c).

(** the branches of [writePump]'s loop *)
Inductive pumpStep : clientConn -> clientConn -> Prop :=
| pump_done c :
    pump c = Waiting -> cancelled c = true ->
    pumpStep c (setPump c (out c) (queuedBytes c) Returned (written c) false)
| pump_receive c frame rest :
    pump c = Waiting -> out c = frame :: rest ->
    pumpStep c (setPump c rest (queuedBytes c) (Received frame) (written c) false)
| pump_drained c :
    pump c = Waiting -> out c = [] -> chanClosed c = true ->
    pumpStep c (let c' := closeWith c (drainStatus c) (drainReason c) in
                setPump c' (out c') (queuedBytes c') Returned (written c') false)
| pump_account c frame :
    pump c = Received frame ->
    pumpStep c (setPump c (out c) (queuedBytes c - len frame) (Writing frame) (written c) false)
| pump_write c frame :
    pump c = Writing frame ->
    pumpStep c (setPump c (out c) (queuedBytes c) Waiting (written c ++ [frame]) false)
| pump_write_fail c frame :
    pump c = Writing frame ->
    pumpStep c (setPump c (out c) (queuedBytes c) Returned (written c) true).

(** the goroutines around a connection: the relay's read pump delivers, the
    link's maintenance finishes or kills, the connection's own goroutine closes *)
Inductive step : clientConn -> clientConn -> Prop :=
| step_pump c c' : pumpStep c c' -> step c c'
| step_deliver c frame : step c (deliver c frame).1
| step_touch c now : step c (touch c now)
| step_finish c status reason : step c (finish c status reason)
| step_close c status reason : step c (closeWith c status reason)
| step_kill c : step c (kill c).

Definition reachable (c : clientConn) : Prop := exists now, rtc step (newClient now) c.

(** ** Invariants *)

Definition bytesOf (l : list bytes) : Z := foldr (fun f n => len f + n) 0 l.
Arguments bytesOf : simpl never.

(** a frame taken from the channel that still counts as queued *)
Definition unaccounted (p : writer) : Z := match p with Received f => len f | _ => 0 end.
(** a frame taken from the channel and not yet on the socket *)
Definition inHand (p : writer) : list bytes :=
  match p with Received f | Writing f => [f] | _ => [] end.

Record inv (c : clientConn) : Prop := mkInv {
  inv_bytes : queuedBytes c = bytesOf (out c) + unaccounted (pump c);
  inv_bound : queuedBytes c <= maxQueuedBytes;
  inv_depth : len (out c) <= clientQueueDepth;
  inv_chan : chanClosed c = true -> outClosed c = true;
  inv_closed : closed c = true -> outClosed c = true /\ cancelled c = true;
  inv_fifo : pump c <> Returned -> accepted c = written c ++ inHand (pump c) ++ out c;
  inv_prefix : written c `prefix_of` accepted c
}.

Lemma bytesOf_app l1 l2 : bytesOf (l1 ++ l2) = bytesOf l1 + bytesOf l2.
Proof. unfold bytesOf. induction l1 as [|f l1 IH]; cbn; [done|]. rewrite IH. lia. Qed.

Lemma bytesOf_nonneg l : 0 <= bytesOf l.
Proof. unfold bytesOf. induction l; cbn; lia. Qed.

Lemma inv_new now : inv (newClient now).
Proof. split; cbn; done. Qed.

Lemma inv_deliver c frame : inv c -> inv (deliver c frame).1.
Proof.
  intros Hinv. pose proof Hinv as [Hb Hm Hd Hc Hcl Hf Hp]. unfold deliver.
  ifs; try exact Hinv. split; cbn; try done.
  - rewrite bytesOf_app. change (bytesOf [frame]) with (len frame + 0). lia.
  - rewrite length_app. cbn. unfold clientQueueDepth in *. lia.
  - intros Hr. rewrite (Hf Hr). by rewrite <- !app_assoc.
  - by apply prefix_app_r.
Qed.

Lemma inv_finish c status reason : inv c -> inv (finish c status reason).
Proof.
  intros Hinv. pose proof Hinv as [Hb Hm Hd Hc Hcl Hf Hp]. unfold finish.
  destruct (outClosed c) eqn:E; [exact Hinv|].
  split; cbn; try done. intros H. by destruct (Hcl H).
Qed.

Lemma inv_closeWith c status reason : inv c -> inv (closeWith c status reason).
Proof. 
  intros Hinv. pose proof Hinv as [Hb Hm Hd Hc Hcl Hf Hp]. unfold closeWith.
  destruct (closed c); [exact Hinv|by split].
 Qed.

Lemma inv_kill c : inv c -> inv (kill c).
Proof. 
  intros Hinv. pose proof Hinv as [Hb Hm Hd Hc Hcl Hf Hp]. unfold kill.
  destruct (closed c); [exact Hinv|by split].
 Qed.

Lemma inv_pump c c' : inv c -> pumpStep c c' -> inv c'.
Proof.
  intros Hinv Hs. destruct Hs as [c E Hcan|c f rest E Eo|c E Eo Ech|c f E|c f E|c f E];
    pose proof Hinv as [Hb Hm Hd Hc Hcl Hf Hp].
  - rewrite E in *. cbn in *. split; cbn; rewrite ?orb_false_r; try done; lia.
  - rewrite E, Eo in *. change (bytesOf (f :: rest)) with (len f + bytesOf rest) in Hb.
    cbn in *. split; cbn; rewrite ?orb_false_r; try done; try lia. intros _. by apply Hf.
  - pose proof (inv_closeWith c (drainStatus c) (drainReason c) Hinv) as [Hb' Hm' Hd' Hc' Hcl' Hf' Hp'].
    assert (Ep : pump (closeWith c (drainStatus c) (drainReason c)) = Waiting)
      by (unfold closeWith; by destruct (closed c)).
    split; cbn; rewrite ?orb_false_r; try done. rewrite Ep in Hb'. cbn in Hb'. lia.
  - rewrite E in *. cbn in *. specialize (Hf ltac:(done)).
    split; cbn; rewrite ?orb_false_r; try done; lia.
  - rewrite E in *. cbn in *. specialize (Hf ltac:(done)).
    split; cbn; rewrite ?orb_false_r; try done; try lia.
    + intros _. rewrite Hf. by rewrite <- app_assoc.
    + rewrite Hf. exists (out c). by rewrite <- app_assoc.
  - rewrite E in *. cbn in *.
    split; cbn; rewrite ?orb_true_r; try done; try lia. intros H. by destruct (Hcl H).
Qed.

Lemma inv_step c c' : inv c -> step c c' -> inv c'.
Proof.
  intros Hinv Hs. destruct Hs; eauto using inv_pump, inv_deliver, inv_finish, inv_closeWith, inv_kill.
  destruct Hinv. by split.
Qed.

Lemma reachable_inv c : reachable c -> inv c.
Proof.
  intros [now Hr]. revert Hr. generalize (inv_new now). generalize (newClient now) as c0.
  intros c0 H0 Hr. induction Hr; eauto using inv_step.
Qed.

(** At every point of every interleaving, the memory a slow phone can pin is
    bounded, in frames and in bytes, and the byte count is exact whenever the
    writer is not in between receiving and accounting. *)
Theorem queue_bounded c :
  reachable c ->
  len (out c) <= clientQueueDepth /\ bytesOf (out c) <= maxQueuedBytes /\
  0 <= queuedBytes c <= maxQueuedBytes /\
  (unaccounted (pump c) = 0 -> queuedBytes c = bytesOf (out c)).
Proof.
  intros Hr. destruct (reachable_inv c Hr) as [Hb Hm Hd _ _ _ _].
  pose proof (bytesOf_nonneg (out c)).
  assert (0 <= unaccounted (pump c)) by (destruct (pump c); cbn; lia). lia.
Qed.

(** A phone sees the frames the relay handed over in order and without gaps;
    and when the writer closes the socket after an orderly [finish], with the
    status [finish] recorded, it has written all of them. *)
Theorem queue_fifo c :
  reachable c ->
  written c `prefix_of` accepted c /\
  (forall c', pumpStep c c' -> closeFrame c' <> closeFrame c ->
     written c' = accepted c' /\ closeFrame c' = Some (drainStatus c, drainReason c)).
Proof.
  intros Hr. destruct (reachable_inv c Hr) as [_ _ _ _ _ Hf Hp]. split; [done|].
  intros c' Hs Hne. destruct Hs as [c E Hcan|c f rest E Eo|c E Eo Ech|c f E|c f E|c f E];
    try done.
  rewrite E, Eo in Hf. cbn in *. unfold closeWith in *. destruct (closed c); [done|].
  cbn. rewrite Hf by done. by rewrite app_nil_r.
Qed.

(** [finish] stops deliveries for good: nothing is sent on a closed channel *)
Lemma finish_stops c status reason frame :
  (deliver (finish c status reason) frame).2 = false.
Proof. unfold deliver, finish. destruct (outClosed c) eqn:E; cbn; by rewrite ?E. Qed.

(** ** Witnesses *)

Definition demoQueue : clientConn :=
  finish (deliver (deliver (newClient 7) [1; 2; 3]).1 [4]).1 1000 "bye".

Lemma demo_reachable : reachable demoQueue.
Proof.
  exists 7. eapply rtc_l; [apply (step_deliver _ [1; 2; 3])|].
  eapply rtc_l; [apply (step_deliver _ [4])|].
  eapply rtc_l; [apply (step_finish _ 1000 "bye")|]. apply rtc_refl.
Defined.

Lemma queue_bounded_witness : len (out demoQueue) <= clientQueueDepth.
Proof. apply (queue_bounded demoQueue demo_reachable). Defined.

Lemma queue_fifo_witness : written demoQueue `prefix_of` accepted demoQueue.
Proof. apply (queue_fifo demoQueue demo_reachable). Defined.

End ClientQueue.
