(* ===== verification/Gateway.v ===== *)
(** The gateway server: registrations, relay links and the phones attached to
    them ([internal/gateway/server.go], [relay.go], [client.go]).

    A critical section under [Server.mu] or [relayLink.mu], and an operation on
    the atomic client counter, is one function on the server; what a method
    does outside the locks is a separate step, so the step relation at the end
    interleaves the goroutines of every connection.  Two ghost counters record
    the slots of the global ceiling that in-flight goroutines hold: [reserved]
    between [reserveClient] and the locked part of [attach], [pending] between
    a deletion under [relayLink.mu] and [releaseClients].

    WebSocket writes are effects; whether one succeeds is an argument. *)
From S2P Require Import Prelude GoLib GatewayWire RateLimit Quota ClientQueue.
#[local] Open Scope Z_scope.

Module Gateway.
Import GatewayWire ClientQueue.

(** ** Options *)

Definition minute : duration := 60 * second.
Definition maxUnansweredPings : Z := 2.
Definition maxIdleSweepInterval : duration := 30 * second.
Definition probeInterval : duration := 10 * second.
Definition relayIDLogPrefix : Z := 6.

Definition DefaultMaxRelays : Z := 1024.
Definition DefaultMaxClients : Z := 512.
Definition DefaultMaxClientsPerRelay : Z := 8.
Definition DefaultConnectRatePerMinute : Z := 30.
Definition DefaultMonthlyBytes : Z := Z.shiftl 5 30.
Definition DefaultQuotaWarnPercent : Z := 80.
Definition DefaultIdleTimeout : duration := 5 * minute.

Definition reasonGatewayShutdown : string := "gateway_shutdown".
Definition reasonRelayGone : string := "relay_disconnected".
Definition reasonRelayReplaced : string := "relay_replaced".
Definition reasonIdleTimeout : string := "idle_timeout".
Definition reasonSlowClient : string := "slow_client".
Definition reasonClientClosed : string := "client_closed".
Definition reasonRelayWriteFail : string := "relay_write_failed".
Definition reasonBinaryOnly : string := "binary_frames_only".
Definition reasonPingTimeout : string := "ping_timeout".
Definition reasonUnknownConn : string := "unknown_conn".

(** WebSocket close codes *)
Definition StatusNormalClosure : Z := 1000.
Definition StatusGoingAway : Z := 1001.
Definition StatusProtocolError : Z := 1002.
Definition StatusUnsupportedData : Z := 1003.
Definition StatusPolicyViolation : Z := 1008.
Definition StatusInternalError : Z := 1011.

Record Options := mkOptions {
  MaxRelays : Z;
  MaxClients : Z;
  MaxClientsPerRelay : Z;
  ConnectRatePerMinute : Z;
  MonthlyBytes : Z;
  QuotaWarnPercent : Z;
  IdleTimeout : duration;
  StatePath : string
}.

(** the validation and the defaults of [New]; [None] is its error *)
Definition applyDefaults (o : Options) : option Options :=
  if QuotaWarnPercent o >? 100 then None else
  let dflt v d := if v =? 0 then d else v in
  Some (mkOptions
    (dflt (MaxRelays o) DefaultMaxRelays)
    (dflt (MaxClients o) DefaultMaxClients)
    (dflt (MaxClientsPerRelay o) DefaultMaxClientsPerRelay)
    (dflt (ConnectRatePerMinute o) DefaultConnectRatePerMinute)
    (dflt (MonthlyBytes o) DefaultMonthlyBytes)
    (dflt (QuotaWarnPercent o) DefaultQuotaWarnPercent)
    (dflt (IdleTimeout o) DefaultIdleTimeout)
    (StatePath o)).

Definition idleSweepInterval (o : Options) : duration :=
  if IdleTimeout o <=? 0 then 0 else
  let interval := Z.quot (IdleTimeout o) 2 in
  let interval := if interval >? maxIdleSweepInterval then maxIdleSweepInterval else interval in
  if interval <? second then second else interval.

(** ** State *)

Record relayLink := mkLink {
  relayID : string;
  conns : gmap Z clientConn;
  nextID : Z;
  linkClosed : bool;
  unansweredPings : Z
}.

(** links are heap objects: [relays] and the goroutines hold pointers to them *)
Record Server := mkServer {
  opts : Options;
  connectLimiter : RateLimit.rateLimiter;
  quota : Quota.quotaStore;
  clients : Z;
  relays : gmap string positive;
  links : gmap positive relayLink;
  stopped : bool;
  reserved : Z;
  pending : Z
}.

Definition newServer (o : Options) : Server :=
  mkServer o (RateLimit.newRateLimiter (ConnectRatePerMinute o) minute)
    (Quota.newQuotaStore (StatePath o) (MonthlyBytes o) (QuotaWarnPercent o))
    0 ∅ ∅ false 0 0.

Definition setLink (s : Server) (lk : positive) (l : relayLink) : Server :=
  mkServer (opts s) (connectLimiter s) (quota s) (clients s) (relays s)
    (<[lk := l]> (links s)) (stopped s) (reserved s) (pending s).
Definition setRelays (s : Server) (r : gmap string positive) : Server :=
  mkServer (opts s) (connectLimiter s) (quota s) (clients s) r (links s) (stopped s)
    (reserved s) (pending s).
Definition setCounts (s : Server) (c r p : Z) : Server :=
  mkServer (opts s) (connectLimiter s) (quota s) c (relays s) (links s) (stopped s) r p.
Definition setQuota (s : Server) (q : Quota.quotaStore) : Server :=
  mkServer (opts s) (connectLimiter s) q (clients s) (relays s) (links s) (stopped s)
    (reserved s) (pending s).
Definition setLimiter (s : Server) (l : RateLimit.rateLimiter) : Server :=
  mkServer (opts s) l (quota s) (clients s) (relays s) (links s) (stopped s)
    (reserved s) (pending s).

Definition setConns (l : relayLink) (m : gmap Z clientConn) : relayLink :=
  mkLink (relayID l) m (nextID l) (linkClosed l) (unansweredPings l).

(** ** The global ceiling *)

(** one successful compare-and-swap of [reserveClient]; [None] is [false] *)
Definition reserveClient (s : Server) : option Server :=
  let limit := MaxClients (opts s) in
  if limit <? 0 then Some (setCounts s (clients s + 1) (reserved s + 1) (pending s)) else
  if clients s >=? limit then None
  else Some (setCounts s (clients s + 1) (reserved s + 1) (pending s)).

(** [releaseClients(n)] by a goroutine that deleted [n] connections *)
Definition releaseClients (s : Server) (n : Z) : Server :=
  if n >? 0 then setCounts s (clients s - n) (reserved s) (pending s - n) else s.

(** [releaseClients(1)] by an [attach] that gives up its reservation *)
Definition unreserveClient (s : Server) : Server :=
  setCounts s (clients s - 1) (reserved s - 1) (pending s).

(** ** Attaching and detaching phones *)

Inductive attachError := errAtCapacity | errLinkClosed | errTooManyClients.

(** the part of [attach] under [relayLink.mu] *)
Definition attachLocked (s : Server) (lk : positive) (l : relayLink) (c : clientConn)
    : Server * result attachError Z :=
  if linkClosed l then (unreserveClient s, Err errLinkClosed) else
  let limit := MaxClientsPerRelay (opts s) in
  if (limit >=? 0) && (Z.of_nat (size (conns l)) >=? limit)
  then (unreserveClient s, Err errTooManyClients) else
  let id := u32 (nextID l + 1) in
  let id := if id =? 0 then 1 else id in
  let l := mkLink (relayID l) (<[id := c]> (conns l)) id (linkClosed l) (unansweredPings l) in
  (setCounts (setLink s lk l) (clients s) (reserved s - 1) (pending s), Ok id).

Definition attach (s : Server) (lk : positive) (l : relayLink) (c : clientConn)
    : Server * result attachError Z :=
  match reserveClient s with
  | None => (s, Err errAtCapacity)
  | Some s => attachLocked s lk l c
  end.

(** the deletion of [remove], under [relayLink.mu] *)
Definition removeLocked (s : Server) (lk : positive) (l : relayLink) (connID : Z)
    : Server * option clientConn :=
  match conns l !! connID with
  | None => (s, None)
  | Some c =>
      (setCounts (setLink s lk (setConns l (delete connID (conns l))))
         (clients s) (reserved s) (pending s + 1), Some c)
  end.

Definition remove (s : Server) (lk : positive) (l : relayLink) (connID : Z)
    : Server * option clientConn :=
  match removeLocked s lk l connID with
  | (s, Some c) => (releaseClients s 1, Some c)
  | (s, None) => (s, None)
  end.

(** [detachClients] and [sweepIdle] under [relayLink.mu]: the connections taken
    off the link *)
Definition detachLocked (s : Server) (lk : positive) (l : relayLink) : Server * gmap Z clientConn :=
  (setCounts (setLink s lk (setConns l ∅)) (clients s) (reserved s)
     (pending s + Z.of_nat (size (conns l))), conns l).

Definition sweepLocked (s : Server) (lk : positive) (l : relayLink) (now : time)
    : Server * gmap Z clientConn :=
  let deadline := now - IdleTimeout (opts s) in
  let kept := filter (fun kc => lastActivity kc.2 > deadline) (conns l) in
  let stale := filter (fun kc => ~ lastActivity kc.2 > deadline) (conns l) in
  (setCounts (setLink s lk (setConns l kept)) (clients s) (reserved s)
     (pending s + Z.of_nat (size stale)), stale).

(** ** Effects *)

Inductive effect :=
| ToRelay (frame : bytes)            (* a binary frame on the relay link *)
| Phone (connID : Z) (c : clientConn) (* a detached phone and its final state *)
| CloseLink (status : Z) (reason : string).

Definition detachClients (s : Server) (lk : positive) (l : relayLink) (reason : string)
    : Server * list effect :=
  let (s, gone) := detachLocked s lk l in
  (releaseClients s (Z.of_nat (size gone)),
   (fun kc => Phone kc.1 (finish kc.2 StatusGoingAway reason)) <$> map_to_list gone).

Definition sweepIdle (s : Server) (lk : positive) (l : relayLink) (now : time)
    : Server * list effect :=
  let (s, stale) := sweepLocked s lk l now in
  (releaseClients s (Z.of_nat (size stale)),
   map_to_list stale ≫= fun kc =>
     [Phone kc.1 (finish kc.2 StatusPolicyViolation reasonIdleTimeout);
      ToRelay (EncodeFrame OpClose kc.1 (bytes_of_string reasonIdleTimeout))]).

(** ** Registrations *)

Inductive refusal := AtCapacity | RelayBusy.

(** what the first critical section of [registerRelay] decides *)
Inductive claim :=
| Refused (why : refusal)
| Installed (lk : positive)
| Probe (previous : positive).

Definition newLink (id : string) : relayLink := mkLink id ∅ 0 false 0.

Definition overRelays (s : Server) : bool :=
  (MaxRelays (opts s) >=? 0) && (Z.of_nat (size (relays s)) >=? MaxRelays (opts s)).

(** install a link for [id], at a new address *)
Definition install (s : Server) (id : string) : Server * positive :=
  let lk := fresh (dom (links s)) in
  (setRelays (setLink s lk (newLink id)) (<[id := lk]> (relays s)), lk).

Definition registerRelay (s : Server) (id : string) : Server * claim :=
  match relays s !! id with
  | None =>
      if overRelays s then (s, Refused AtCapacity)
      else let (s, lk) := install s id in (s, Installed lk)
  | Some previous => (s, Probe previous)
  end.

(** the second critical section, after the incumbent was probed *)
Definition displaceRelay (s : Server) (id : string) (previous : positive) (alive : bool)
    : Server * claim :=
  if alive then (s, Refused RelayBusy) else
  match relays s !! id with
  | Some current =>
      if bool_decide (current <> previous) then (s, Refused RelayBusy)
      else let (s, lk) := install s id in (s, Installed lk)
  | None =>
      if overRelays s then (s, Refused AtCapacity)
      else let (s, lk) := install s id in (s, Installed lk)
  end.

Definition refusalCode (r : refusal) : string :=
  match r with AtCapacity => CodeAtCapacity | RelayBusy => CodeRelayBusy end.

Definition refusalMessage (code : string) : string :=
  if bool_decide (code = CodeRelayBusy) then "another link for this relay id is still live"
  else "gateway is at its relay capacity".

Definition unregisterRelay (s : Server) (lk : positive) (l : relayLink) : Server :=
  if bool_decide (relays s !! relayID l = Some lk)
  then setRelays s (delete (relayID l) (relays s)) else s.

Definition closeLink (s : Server) (lk : positive) (l : relayLink) : Server :=
  setLink s lk (mkLink (relayID l) (conns l) (nextID l) true (unansweredPings l)).

(** the end of [registerRelay] once a dead incumbent was displaced *)
Definition finishDisplace (s : Server) (previous : positive) (l : relayLink) : Server * list effect :=
  let (s, eff) := detachClients s previous l reasonRelayReplaced in
  let l := default l (links s !! previous) in
  (closeLink s previous l, eff ++ [CloseLink StatusPolicyViolation CodeRelayBusy]).

(** the deferred teardown of [relayLink.run] *)
Definition teardown (s : Server) (lk : positive) (l : relayLink) : Server * list effect :=
  let s := closeLink s lk l in
  let l := default l (links s !! lk) in
  let (s, eff) := detachClients s lk l reasonRelayGone in
  (unregisterRelay s lk l, CloseLink StatusNormalClosure "" :: eff).

Definition lookupRelay (s : Server) (id : string) : option (positive * relayLink) :=
  let? lk := relays s !! id in
  let? l := links s !! lk in
  Some (lk, l).

(** [Close]: the table is emptied; the links it held are closed one by one *)
Definition closeServer (s : Server) : Server :=
  mkServer (opts s) (connectLimiter s) (quota s) (clients s) ∅ (links s) true
    (reserved s) (pending s).

Definition counts (s : Server) : Z * Z := (Z.of_nat (size (relays s)), clients s).

(** ** Hello exchange *)

(** [sanitizeReason] on a reason: at most 120 bytes, empty unless valid UTF-8,
    control characters dropped (in valid UTF-8 a byte below 0x20 or 0x7f is a
    character of its own) *)
Definition sanitizeReason (payload : bytes) : bytes :=
  let payload := if len payload >? MaxCloseReason
                 then take (Z.to_nat MaxCloseReason) payload else payload in
  if utf8_valid payload
  then List.filter (fun b => negb ((b <? 0x20) || (b =? 0x7f))) payload else [].

Definition proofBytes : Z := 32.

Definition validProof (proof : string) : bool :=
  match b64_decode_string proof with
  | Some raw => len raw =? proofBytes
  | None => false
  end.

Definition shortID (id : string) : string :=
  if slen id <=? relayIDLogPrefix then id
  else String.substring 0 (Z.to_nat relayIDLogPrefix) id.

(** a coded refusal: the code and the human message *)
Definition rejection : Type := string * string.

(** [connectHello] after the message was read; [hello] is what
    [json.Unmarshal] made of it, [None] a parse error *)
Definition connectHello (hello : option ConnectHello) : result rejection ConnectHello :=
  match hello with
  | None => Err (CodeBadHello, "connect hello is malformed")
  | Some h =>
      if negb (String.eqb (ch_Type h) TypeConnect)
      then Err (CodeBadHello, "connect hello is malformed") else
      if negb (ch_Proto h =? Proto)
      then Err (CodeBadHello, "unsupported gateway protocol version") else
      if negb (ValidRelayID (ch_RelayID h)) then Err (CodeBadHello, "relay id is malformed") else
      if negb (validProof (ch_Proof h)) then Err (CodeBadHello, "proof is malformed") else
      Ok h
  end.

(** [relayHello] likewise *)
Definition relayHello (hello : option RegisterHello) : result rejection string :=
  match hello with
  | None => Err (CodeBadHello, "register hello is malformed")
  | Some h =>
      if negb (String.eqb (rh_Type h) TypeRegister)
      then Err (CodeBadHello, "register hello is malformed") else
      if negb (rh_Proto h =? Proto)
      then Err (CodeBadHello, "unsupported gateway protocol version") else
      if negb (ValidRelayID (rh_RelayID h)) then Err (CodeBadHello, "relay id is malformed") else
      Ok (rh_RelayID h)
  end.

(** ** Copying frames *)

Section Frames.
(** [marshalNotice] is [json.Marshal] of a notice, [marshalOpen] of the open
    payload; [writeOk] tells whether a write on the link succeeds *)
Context (marshalNotice : NoticePayload -> bytes) (marshalOpen : OpenPayload -> bytes)
        (writeOk : bytes -> bool).

(** [notify] stops at the first write that fails *)
Fixpoint notify (notices : list NoticePayload) : list effect :=
  match notices with
  | [] => []
  | n :: ns =>
      let frame := EncodeFrame OpNotice 0 (marshalNotice n) in
      ToRelay frame :: if writeOk frame then notify ns else []
  end.

(** [deliverData] *)
Definition deliverData (s : Server) (lk : positive) (l : relayLink) (connID : Z)
    (payload : bytes) (now : time) : Server * list effect :=
  match conns l !! connID with
  | None => (s, [ToRelay (EncodeFrame OpClose connID (bytes_of_string reasonUnknownConn))])
  | Some c =>
      let c := touch c now in
      let (q, notices) := Quota.add (quota s) (relayID l) (len payload) now in
      let s := setQuota s q in
      let (c, ok) := deliver c payload in
      let l := setConns l (<[connID := c]> (conns l)) in
      let s := setLink s lk l in
      if ok then (s, notify notices)
      else
        match remove s lk l connID with
        | (s, Some c) =>
            (s, notify notices ++
                [Phone connID (kill c);
                 ToRelay (EncodeFrame OpClose connID (bytes_of_string reasonSlowClient))])
        | (s, None) => (s, notify notices)
        end
  end.

(** one message from the relay: the loop body of [relayLink.readPump]; the
    boolean tells whether the pump goes on *)
Definition relayMessage (s : Server) (lk : positive) (l : relayLink) (binary : bool)
    (data : bytes) (now : time) : Server * list effect * bool :=
  if negb binary then
    (closeLink s lk l, [CloseLink StatusUnsupportedData reasonBinaryOnly], false) else
  match DecodeFrame data with
  | Err _ => (closeLink s lk l, [CloseLink StatusProtocolError "malformed_frame"], false)
  | Ok (op, connID, payload) =>
      if op =? OpData then
        let (s, eff) := deliverData s lk l connID payload now in (s, eff, true)
      else if op =? OpClose then
        match remove s lk l connID with
        | (s, Some c) =>
            (s, [Phone connID (finish c StatusPolicyViolation
                   (string_of_bytes (sanitizeReason payload)))], true)
        | (s, None) => (s, [], true)
        end
      else if op =? OpPong then
        (setLink s lk (mkLink (relayID l) (conns l) (nextID l) (linkClosed l) 0), [], true)
      else if op =? OpPing then
        let frame := EncodeFrame OpPong 0 [] in (s, [ToRelay frame], writeOk frame)
      else
        (closeLink s lk l, [CloseLink StatusProtocolError "unexpected_opcode"], false)
  end.

(** the ping branch of [maintain] *)
Definition pingTick (s : Server) (lk : positive) (l : relayLink) : Server * list effect * bool :=
  if unansweredPings l >=? maxUnansweredPings then
    (closeLink s lk l, [CloseLink StatusPolicyViolation reasonPingTimeout], false)
  else
    let l := mkLink (relayID l) (conns l) (nextID l) (linkClosed l) (unansweredPings l + 1) in
    let frame := EncodeFrame OpPing 0 [] in
    if writeOk frame then (setLink s lk l, [ToRelay frame], true)
    else (closeLink s lk l, [ToRelay frame; CloseLink StatusInternalError ""], false).

(** one message from a phone: the loop body of [clientConn.readPump]; the pump
    ends with a status and reason *)
Definition phoneMessage (s : Server) (lk : positive) (l : relayLink) (connID : Z)
    (c : clientConn) (binary : bool) (data : bytes) (now : time)
    : Server * list effect * option (Z * string) :=
  if negb binary then (s, [], Some (StatusUnsupportedData, reasonBinaryOnly)) else
  let c := touch c now in
  let s := match conns l !! connID with
           | Some _ => setLink s lk (setConns l (<[connID := c]> (conns l)))
           | None => s
           end in
  let frame := AppendFrame [] OpData connID data in
  if negb (writeOk frame) then (s, [ToRelay frame], Some (StatusGoingAway, reasonRelayWriteFail))
  else
    let (q, notices) := Quota.add (quota s) (relayID l) (len data) now in
    (setQuota s q, ToRelay frame :: notify notices, None).

(** the end of [clientConn.run] *)
Definition phoneEnd (s : Server) (lk : positive) (l : relayLink) (connID : Z)
    (status : Z) (reason : string) : Server * list effect :=
  match remove s lk l connID with
  | (s, Some c) =>
      (s, [ToRelay (EncodeFrame OpClose connID (bytes_of_string reason));
           Phone connID (closeWith c status reason)])
  | (s, None) => (s, [])
  end.

(** what [handleConnect] does with a phone, once the challenge [nonce] was sent:
    refused with a code, dropped because the ready message could not be written
    ([readyOk]), or paired under a connection id *)
Inductive connectOutcome :=
| Rejected (why : rejection)
| Dropped
| Paired (connID : Z).

Definition handleConnect (s : Server) (ip nonce : string) (hello : option ConnectHello)
    (now : time) (readyOk : bool) : Server * list effect * connectOutcome :=
  match connectHello hello with
  | Err why => (s, [], Rejected why)
  | Ok hello =>
      let (lim, ok) := RateLimit.allow (connectLimiter s) (String.append "connect:" ip) now in
      let s := setLimiter s lim in
      if negb ok then (s, [], Rejected (CodeRateLimited, "too many connection attempts")) else
      match lookupRelay s (ch_RelayID hello) with
      | None => (s, [], Rejected (CodeUnknownRelay, "no relay is registered under that id"))
      | Some (lk, l) =>
          let '(q, (over, notices)) := Quota.exceeded (quota s) (ch_RelayID hello) now in
          let s := setQuota s q in
          let eff := notify notices in
          if over then
            (s, eff, Rejected (CodeQuotaExceeded, "relay exceeded its monthly relayed-byte quota"))
          else
          match attach s lk l (newClient now) with
          | (s, Err errAtCapacity) =>
              (s, eff, Rejected (CodeAtCapacity, "gateway is at its client capacity"))
          | (s, Err errTooManyClients) =>
              (s, eff, Rejected (CodeTooManyClient,
                         "relay already has its maximum number of clients"))
          | (s, Err errLinkClosed) =>
              (s, eff, Rejected (CodeUnknownRelay, "relay link closed"))
          | (s, Ok connID) =>
              let l := default l (links s !! lk) in
              if negb readyOk then ((remove s lk l connID).1, eff, Dropped) else
              let frame := EncodeFrame OpOpen connID
                             (marshalOpen (mkOpenPayload nonce (ch_Proof hello))) in
              if negb (writeOk frame) then
                ((remove s lk l connID).1, eff ++ [ToRelay frame],
                 Rejected (CodeInternal, "gateway could not reach the relay"))
              else (s, eff ++ [ToRelay frame], Paired connID)
          end
      end
  end.

End Frames.

End Gateway.
