(* ===== verification/GatewayInv.v ===== *)
(** The gateway's goroutines as a step relation, and what holds in every state
    they reach: the global and per-relay client ceilings, the registration
    ceiling, exact accounting of client slots and fresh connection ids.  The
    handlers of [Gateway] are shown to be sequences of these steps. *)
From S2P Require Import Prelude GoLib GatewayWire RateLimit Quota ClientQueue Gateway.
#[local] Open Scope Z_scope.

Module GatewayInv.
Import GatewayWire ClientQueue Gateway.

(** one critical section or atomic operation of some goroutine *)
Inductive step : Server -> Server -> Prop :=
| step_reserve s s' : reserveClient s = Some s' -> step s s'
| step_attach s lk l c :
    links s !! lk = Some l -> 0 < reserved s -> step s (attachLocked s lk l c).1
| step_remove s lk l id : links s !! lk = Some l -> step s (removeLocked s lk l id).1
| step_detach s lk l : links s !! lk = Some l -> step s (detachLocked s lk l).1
| step_sweep s lk l now : links s !! lk = Some l -> step s (sweepLocked s lk l now).1
| step_release s n : 0 < n <= pending s -> step s (releaseClients s n)
| step_register s id : step s (registerRelay s id).1
| step_displace s id previous alive : step s (displaceRelay s id previous alive).1
| step_unregister s lk l : links s !! lk = Some l -> step s (unregisterRelay s lk l)
| step_closeLink s lk l : links s !! lk = Some l -> step s (closeLink s lk l)
| step_closeServer s : step s (closeServer s)
| step_queue s lk l id c c' :
    links s !! lk = Some l -> conns l !! id = Some c -> ClientQueue.step c c' ->
    step s (setLink s lk (setConns l (<[id := c']> (conns l))))
| step_ping s lk l n :
    links s !! lk = Some l ->
    step s (setLink s lk (mkLink (relayID l) (conns l) (nextID l) (linkClosed l) n))
| step_quota s q : step s (setQuota s q)
| step_limiter s l : step s (setLimiter s l).

(** ** Counting connections *)

Definition total (m : gmap positive relayLink) : Z :=
  map_fold (fun _ l n => Z.of_nat (size (conns l)) + n) 0 m.

Lemma total_insert_new m lk l :
  m !! lk = None -> total (<[lk := l]> m) = Z.of_nat (size (conns l)) + total m.
Proof.
  intros H. unfold total. rewrite map_fold_insert_L; [done| |done]. intros. lia.
Qed.

Lemma total_update m lk l l' :
  m !! lk = Some l ->
  total (<[lk := l']> m) = total m - Z.of_nat (size (conns l)) + Z.of_nat (size (conns l')).
Proof.
  intros H. rewrite <- (insert_delete_eq m), total_insert_new by apply lookup_delete_eq.
  rewrite <- (insert_delete_id m lk l H) at 2.
  rewrite total_insert_new by apply lookup_delete_eq. lia.
Qed.

(** ** The invariant *)

(** [n] bounds the connection ids handed out so far on any link *)
Record ginv (n : Z) (s : Server) : Prop := mkGinv {
  gi_count : clients s = total (links s) + reserved s + pending s;
  gi_held : 0 <= reserved s /\ 0 <= pending s;
  gi_clients : 0 <= MaxClients (opts s) -> clients s <= MaxClients (opts s);
  gi_perRelay : forall lk l, links s !! lk = Some l ->
    0 <= MaxClientsPerRelay (opts s) ->
    Z.of_nat (size (conns l)) <= MaxClientsPerRelay (opts s);
  gi_ids : forall lk l, links s !! lk = Some l ->
    0 <= nextID l <= n /\ forall id, is_Some (conns l !! id) -> 1 <= id <= nextID l;
  gi_relays : 0 <= MaxRelays (opts s) -> Z.of_nat (size (relays s)) <= MaxRelays (opts s);
  gi_reg : forall id lk, relays s !! id = Some lk ->
    exists l, links s !! lk = Some l /\ relayID l = id
}.

Lemma ginv_mono n n' s : n <= n' -> ginv n s -> ginv n' s.
Proof.
  intros Hn [H1 H2 H3 H4 H5 H6 H7]. split; try done. intros lk l Hl.
  destruct (H5 lk l Hl) as [? ?]. split; [lia|done].
Qed.

(** replacing a link by one with fewer connections that are not new, while the
    slots of the lost ones become pending *)
Lemma ginv_shrink n s lk l l' p :
  ginv n s -> links s !! lk = Some l -> relayID l' = relayID l -> nextID l' = nextID l ->
  (forall id, is_Some (conns l' !! id) -> is_Some (conns l !! id)) ->
  p = Z.of_nat (size (conns l)) - Z.of_nat (size (conns l')) -> 0 <= p ->
  ginv n (setCounts (setLink s lk l') (clients s) (reserved s) (pending s + p)).
Proof.
  intros [H1 H2 H3 H4 H5 H6 H7] Hl Hid Hnext Hdom Hp Hp0.
  split; cbn [setCounts setLink clients reserved pending links opts relays]; try done.
  - rewrite (total_update _ _ l) by done. lia.
  - lia.
  - intros lk' l0 Hl0 Hmax. destruct (decide (lk = lk')) as [->|Hne].
    + rewrite lookup_insert_eq in Hl0. simplify_eq. specialize (H4 lk' l Hl Hmax). lia.
    + rewrite lookup_insert_ne in Hl0 by done. by apply (H4 lk').
  - intros lk' l0 Hl0. destruct (decide (lk = lk')) as [->|Hne].
    + rewrite lookup_insert_eq in Hl0. simplify_eq. rewrite Hnext.
      destruct (H5 lk' l Hl) as [? Hids]. split; [done|]. intros id Hi. apply Hids. by apply Hdom.
    + rewrite lookup_insert_ne in Hl0 by done. by apply (H5 lk').
  - intros id lk' Hr. destruct (H7 id lk' Hr) as (l0 & Hl0 & Hrid).
    destruct (decide (lk = lk')) as [->|Hne].
    + rewrite lookup_insert_eq. exists l'. simplify_eq. split; [done|congruence].
    + rewrite lookup_insert_ne by done. by exists l0.
Qed.

(** changing a link without touching its set of connections *)
Lemma ginv_same n s lk l l' :
  ginv n s -> links s !! lk = Some l -> relayID l' = relayID l -> nextID l' = nextID l ->
  dom (conns l') = dom (conns l) -> ginv n (setLink s lk l').
Proof.
  intros Hi Hl Hid Hnext Hdom.
  assert (Hsize : size (conns l') = size (conns l))
    by (rewrite <- !size_dom; by rewrite Hdom).
  pose proof (ginv_shrink n s lk l l' 0 Hi Hl Hid Hnext) as H.
  rewrite Z.add_0_r in H. destruct s. apply H; [|lia|lia].
  intros id. rewrite <- !elem_of_dom, Hdom. done.
Qed.

Lemma ginv_install n s id :
  ginv n s -> 0 <= n ->
  (0 <= MaxRelays (opts s) ->
   Z.of_nat (size (<[id := fresh (dom (links s))]> (relays s))) <= MaxRelays (opts s)) ->
  ginv n (install s id).1.
Proof.
  intros [H1 H2 H3 H4 H5 H6 H7] Hn Hcap. unfold install.
  set (lk := fresh (dom (links s))).
  assert (Hfresh : links s !! lk = None) by (apply not_elem_of_dom, is_fresh).
  split; cbn [setRelays setLink clients reserved pending links opts relays fst]; try done.
  - rewrite total_insert_new by done. cbn. rewrite map_size_empty. lia.
  - intros lk' l Hl Hmax. destruct (decide (lk = lk')) as [->|Hne].
    + rewrite lookup_insert_eq in Hl. simplify_eq. cbn. rewrite map_size_empty. lia.
    + rewrite lookup_insert_ne in Hl by done. by apply (H4 lk').
  - intros lk' l Hl. destruct (decide (lk = lk')) as [->|Hne].
    + rewrite lookup_insert_eq in Hl. simplify_eq. cbn. split; [lia|].
      intros i [c Hc]. by rewrite lookup_empty in Hc.
    + rewrite lookup_insert_ne in Hl by done. by apply (H5 lk').
  - intros id' lk' Hr. destruct (decide (id = id')) as [->|Hne].
    + rewrite lookup_insert_eq in Hr. simplify_eq. rewrite lookup_insert_eq. by eexists.
    + rewrite lookup_insert_ne in Hr by done. destruct (H7 id' lk' Hr) as (l & Hl & Hid).
      rewrite lookup_insert_ne by congruence. by exists l.
Qed.

(** the id [attachLocked] hands out before the counter wraps *)
Lemma attach_id n s lk l :
  ginv n s -> n < 2 ^ 32 - 1 -> links s !! lk = Some l ->
  u32 (nextID l + 1) = nextID l + 1 /\ (nextID l + 1 =? 0) = false /\
  conns l !! (nextID l + 1) = None.
Proof.
  intros Hi Hn Hl. destruct (gi_ids n s Hi lk l Hl) as [Hb Hids].
  split; [unfold u32; apply Z.mod_small; lia|]. split; [apply Z.eqb_neq; lia|].
  destruct (conns l !! (nextID l + 1)) eqn:E; [|done].
  specialize (Hids (nextID l + 1)). rewrite E in Hids. specialize (Hids ltac:(done)). lia.
Qed.

Lemma ginv_unreserve n s : ginv n s -> 0 < reserved s -> ginv n (unreserveClient s).
Proof. intros [H1 H2 H3 H4 H5 H6 H7] Hr. split; cbn; try done; lia. Qed.

Lemma ginv_attach n s lk l c :
  ginv n s -> 0 <= n < 2 ^ 32 - 1 -> links s !! lk = Some l -> 0 < reserved s ->
  ginv (n + 1) (attachLocked s lk l c).1.
Proof.
  intros Hi Hn Hl Hr. unfold attachLocked.
  destruct (linkClosed l); [by apply (ginv_mono n); [lia|apply ginv_unreserve]|].
  destruct (_ && _) eqn:Ecap; [by apply (ginv_mono n); [lia|apply ginv_unreserve]|].
  destruct (attach_id n s lk l Hi ltac:(lia) Hl) as (-> & -> & Hfree).
  pose proof Hi as [H1 H2 H3 H4 H5 H6 H7].
  split; cbn [setCounts setLink clients reserved pending links opts relays fst]; try done.
  - rewrite (total_update _ _ l) by done. cbn [conns]. rewrite map_size_insert_None by done. lia.
  - lia.
  - intros lk' l0 Hl0 Hmax. destruct (decide (lk = lk')) as [->|Hne].
    + rewrite lookup_insert_eq in Hl0. simplify_eq. cbn [conns].
      rewrite map_size_insert_None by done. zb; lia.
    + rewrite lookup_insert_ne in Hl0 by done. by apply (H4 lk').
  - intros lk' l0 Hl0. destruct (decide (lk = lk')) as [->|Hne].
    + rewrite lookup_insert_eq in Hl0. simplify_eq. cbn [conns nextID].
      destruct (H5 lk' l Hl) as [? Hids]. split; [lia|]. intros id Hid.
      destruct (decide (id = nextID l + 1)) as [->|Hne]; [lia|].
      rewrite lookup_insert_ne in Hid by done. specialize (Hids id Hid). lia.
    + rewrite lookup_insert_ne in Hl0 by done. destruct (H5 lk' l0 Hl0). split; [lia|done].
  - intros id lk' Hid. destruct (H7 id lk' Hid) as (l0 & Hl0 & Hrid).
    destruct (decide (lk = lk')) as [->|Hne].
    + rewrite lookup_insert_eq. eexists. split; [done|]. simplify_eq. done.
    + rewrite lookup_insert_ne by done. by exists l0.
Qed.

Lemma ginv_release n s k : ginv n s -> 0 < k <= pending s -> ginv n (releaseClients s k).
Proof.
  intros [H1 H2 H3 H4 H5 H6 H7] Hk. unfold releaseClients.
  destruct (k >? 0) eqn:E; zb; split; cbn; try done; lia.
Qed.

Lemma size_filter_split (P : Z * clientConn -> Prop) `{!forall x, Decision (P x)} (m : gmap Z clientConn) :
  (size (filter P m) + size (filter (fun x => ~ P x) m) = size m)%nat.
Proof.
  rewrite <- map_size_disj_union by apply map_disjoint_filter_complement.
  by rewrite map_filter_union_complement.
Qed.

Lemma overRelays_false s :
  overRelays s = false -> 0 <= MaxRelays (opts s) ->
  Z.of_nat (size (relays s)) < MaxRelays (opts s).
Proof. unfold overRelays. intros. zb; lia. Qed.

Lemma ginv_register n s id : ginv n s -> 0 <= n -> ginv n (registerRelay s id).1.
Proof.
  intros Hi Hn. unfold registerRelay. destruct (relays s !! id) eqn:E; [done|].
  destruct (overRelays s) eqn:Eo; [done|]. apply ginv_install; [done..|].
  intros Hm. rewrite map_size_insert_None by done.
  pose proof (overRelays_false s Eo Hm). lia.
Qed.

Lemma ginv_displace n s id previous alive :
  ginv n s -> 0 <= n -> ginv n (displaceRelay s id previous alive).1.
Proof.
  intros Hi Hn. unfold displaceRelay. destruct alive; [done|].
  destruct (relays s !! id) as [cur|] eqn:E.
  - case_bool_decide; [done|]. apply ginv_install; [done..|]. intros Hm.
    rewrite map_size_insert_Some by (rewrite E; by eexists). by apply (gi_relays n s Hi).
  - destruct (overRelays s) eqn:Eo; [done|]. apply ginv_install; [done..|]. intros Hm.
    rewrite map_size_insert_None by done. pose proof (overRelays_false s Eo Hm). lia.
Qed.

Lemma ginv_unregister n s lk l : ginv n s -> ginv n (unregisterRelay s lk l).
Proof.
  intros Hi. unfold unregisterRelay. case_bool_decide as E; [|done].
  destruct Hi as [H1 H2 H3 H4 H5 H6 H7]. split; cbn; try done.
  - intros Hm. specialize (H6 Hm). rewrite map_size_delete_Some by (rewrite E; by eexists). lia.
  - intros id lk' Hr. apply lookup_delete_Some in Hr as [_ Hr]. by apply H7.
Qed.

Lemma ginv_step n s s' : ginv n s -> 0 <= n < 2 ^ 32 - 1 -> step s s' -> ginv (n + 1) s'.
Proof.
  intros Hi Hn Hs.
  assert (Hup : forall t, ginv n t -> ginv (n + 1) t) by (intros; apply (ginv_mono n); [lia|done]).
  assert (Hn0 : 0 <= n) by lia.
  destruct Hs as [s s' Hr|s lk l c Hl Hres|s lk l id Hl|s lk l Hl|s lk l now Hl|s k Hk|s id
                 |s id prev alive|s lk l Hl|s lk l Hl|s|s lk l id c c' Hl Hc _|s lk l m Hl|s q|s lim];
    eauto using ginv_attach, ginv_release, ginv_register, ginv_displace, ginv_unregister.
  - apply Hup. unfold reserveClient in Hr. destruct Hi as [H1 H2 H3 H4 H5 H6 H7].
    repeat case_if_in Hr; simplify_eq; zb; split; cbn; try done; lia.
  - apply Hup. unfold removeLocked. destruct (conns l !! id) as [c|] eqn:E; [|done].
    apply (ginv_shrink n s lk l); [done|done|done|done| | |done]; cbn [fst setConns conns].
    + intros i Hd. by apply lookup_delete_is_Some in Hd as [_ ?].
    + rewrite map_size_delete_Some by (rewrite E; by eexists).
      assert (size (conns l) <> 0%nat).
      { intros H0%map_size_empty_inv. rewrite H0, lookup_empty in E. done. } lia.
  - apply Hup. apply (ginv_shrink n s lk l); [done|done|done|done| | |lia]; cbn [setConns conns].
    + intros i [? Hx]. by rewrite lookup_empty in Hx.
    + rewrite map_size_empty. lia.
  - apply Hup. apply (ginv_shrink n s lk l); [done|done|done|done| | |lia]; cbn [setConns conns].
    + intros i [x Hx]. apply map_lookup_filter_Some in Hx as [? _]. by eexists.
    + pose proof (size_filter_split (fun kc => lastActivity kc.2 > now - IdleTimeout (opts s)) (conns l)).
      lia.
  - apply Hup. by apply (ginv_same n s lk l).
  - apply Hup. destruct Hi as [H1 H2 H3 H4 H5 H6 H7]. split; cbn; try done.
  - apply Hup. apply (ginv_same n s lk l); try done. cbn [setConns conns].
    apply dom_insert_lookup_L. by eexists.
  - apply Hup. by apply (ginv_same n s lk l).
  - apply Hup. destruct Hi as [H1 H2 H3 H4 H5 H6 H7]. by split.
  - apply Hup. destruct Hi as [H1 H2 H3 H4 H5 H6 H7]. by split.
Qed.

Lemma ginv_new o : ginv 0 (newServer o).
Proof. split; cbn; try done; try lia. Qed.

Lemma ginv_reachable o n s :
  nsteps step n (newServer o) s -> Z.of_nat n < 2 ^ 32 -> ginv (Z.of_nat n) s.
Proof.
  revert s. induction n as [|n IH]; intros s Hs Hn.
  - inversion Hs; subst. apply ginv_new.
  - apply nsteps_inv_r in Hs as (s1 & Hs1 & Hstep).
    rewrite Nat2Z.inj_succ, <- Z.add_1_r.
    apply (ginv_step _ s1); [apply IH; [done|lia]|lia|done].
Qed.

(** In every state the gateway's goroutines can reach, the phones attached to
    all relays together, the phones of one relay and the registrations stay
    within their configured ceilings, however registrations, attachments,
    removals, sweeps and closes interleave; and the counter published by
    [/healthz] is exact once no goroutine holds a slot in flight. *)
Theorem ceilings_hold o n s :
  nsteps step n (newServer o) s -> Z.of_nat n < 2 ^ 32 ->
  (0 <= MaxClients (opts s) ->
     total (links s) <= clients s /\ clients s <= MaxClients (opts s)) /\
  (forall lk l, links s !! lk = Some l -> 0 <= MaxClientsPerRelay (opts s) ->
     Z.of_nat (size (conns l)) <= MaxClientsPerRelay (opts s)) /\
  (0 <= MaxRelays (opts s) -> Z.of_nat (size (relays s)) <= MaxRelays (opts s)) /\
  (reserved s = 0 -> pending s = 0 -> (counts s).2 = total (links s)).
Proof.
  intros Hs Hn. destruct (ginv_reachable o n s Hs Hn) as [H1 H2 H3 H4 H5 H6 H7].
  split; [intros Hm; specialize (H3 Hm); lia|]. split; [done|]. split; [done|].
  intros Hr Hp. cbn. lia.
Qed.

(** ** Connection ids *)

(** links persist and their id counters only grow *)
Lemma step_nextID n s s' lk l :
  ginv n s -> 0 <= n < 2 ^ 32 - 1 -> step s s' -> links s !! lk = Some l ->
  exists l', links s' !! lk = Some l' /\ nextID l <= nextID l'.
Proof.
  intros Hi Hn Hs Hlk.
  assert (Hset : forall lk0 l0 l1, links s !! lk0 = Some l0 -> nextID l0 <= nextID l1 ->
            exists l', <[lk0 := l1]> (links s) !! lk = Some l' /\ nextID l <= nextID l').
  { intros lk0 l0 l1 H0 Hle. destruct (decide (lk0 = lk)) as [->|Hne].
    - rewrite lookup_insert_eq. eexists. split; [done|]. simplify_eq. done.
    - rewrite lookup_insert_ne by done. by exists l. }
  assert (Hinst : forall id, exists l', links (install s id).1 !! lk = Some l' /\ nextID l <= nextID l').
  { intros id. unfold install. cbn. exists l. rewrite lookup_insert_ne; [done|].
    intros Heq. pose proof (is_fresh (dom (links s))) as Hf. rewrite Heq in Hf.
    apply Hf. by apply elem_of_dom_2 in Hlk. }
  assert (Hsame : exists l', links s !! lk = Some l' /\ nextID l <= nextID l') by (by exists l).
  destruct Hs as [s s' Hr|s lk0 l0 c Hl Hres|s lk0 l0 id Hl|s lk0 l0 Hl|s lk0 l0 now Hl|s k Hk|s id
                 |s id prev alive|s lk0 l0 Hl|s lk0 l0 Hl|s|s lk0 l0 id c c' Hl Hc _|s lk0 l0 m Hl|s q|s lim];
    try done; try (by apply (Hset lk0 l0)).
  - unfold reserveClient in Hr. repeat case_if_in Hr; by simplify_eq.
  - unfold attachLocked. destruct (linkClosed l0); [done|]. destruct (_ && _); [done|].
    destruct (attach_id n s lk0 l0 Hi ltac:(lia) Hl) as (-> & -> & _).
    apply (Hset lk0 l0); [done|]. cbn. lia.
  - unfold removeLocked. destruct (conns l0 !! id); [|done]. by apply (Hset lk0 l0).
  - unfold releaseClients. by destruct (k >? 0).
  - unfold registerRelay. destruct (relays s !! id); [done|].
    destruct (overRelays s); [done|]. apply Hinst.
  - unfold displaceRelay. destruct alive; [done|]. destruct (relays s !! id).
    + case_bool_decide; [done|]. apply Hinst.
    + destruct (overRelays s); [done|]. apply Hinst.
  - unfold unregisterRelay. by case_bool_decide.
Qed.

(** A connection id is never handed out twice on a link (before 2^32 - 1
    steps): whatever happens between two attachments to the same link, the
    later id is larger than the earlier one, which a late frame may still name. *)
Theorem connection_ids_increase o n1 n2 s1 s2 lk l1 l2 c1 c2 t1 t2 id1 id2 :
  nsteps step n1 (newServer o) s1 -> links s1 !! lk = Some l1 -> 0 < reserved s1 ->
  attachLocked s1 lk l1 c1 = (t1, Ok id1) ->
  nsteps step n2 t1 s2 -> links s2 !! lk = Some l2 ->
  attachLocked s2 lk l2 c2 = (t2, Ok id2) ->
  Z.of_nat n1 + Z.of_nat n2 + 2 < 2 ^ 32 ->
  id1 < id2 /\ conns l2 !! id2 = None.
Proof.
  intros Hs1 Hl1 Hr1 Ha1 Hs2 Hl2 Ha2 Hn.
  pose proof (ginv_reachable o n1 s1 Hs1 ltac:(lia)) as Hi1.
  pose proof (ginv_attach _ _ lk l1 c1 Hi1 ltac:(lia) Hl1 Hr1) as Hit. rewrite Ha1 in Hit. cbn in Hit.
  assert (Ht1 : exists l, links t1 !! lk = Some l /\ nextID l = id1).
  { unfold attachLocked in Ha1. repeat case_if_in Ha1; simplify_eq; cbn; rewrite lookup_insert_eq;
      eexists; split; done. }
  assert (Hgrow : forall n t, nsteps step n t1 t -> (n <= n2)%nat ->
            ginv (Z.of_nat n1 + 1 + Z.of_nat n) t /\
            exists l, links t !! lk = Some l /\ id1 <= nextID l).
  { induction n as [|n IH]; intros t Ht Hle.
    - inversion Ht; subst. destruct Ht1 as (l & Hl & <-). split; [by rewrite Z.add_0_r|].
      by exists l.
    - apply nsteps_inv_r in Ht as (u & Hu & Hstep). destruct (IH u Hu ltac:(lia)) as [Hiu (l & Hl & Hle1)].
      split.
      + replace (Z.of_nat n1 + 1 + Z.of_nat (S n)) with (Z.of_nat n1 + 1 + Z.of_nat n + 1) by lia.
        apply (ginv_step _ u); [done|lia|done].
      + destruct (step_nextID _ u t lk l Hiu ltac:(lia) Hstep Hl) as (l' & Hl' & Hle2).
        exists l'. split; [done|lia]. }
  destruct (Hgrow n2 s2 Hs2 ltac:(lia)) as [Hi2 (l & Hl & Hle)]. simplify_eq.
  destruct (attach_id _ s2 lk l2 Hi2 ltac:(lia) Hl2) as (Hu & Hz & Hfree).
  unfold attachLocked in Ha2. rewrite Hu, Hz in Ha2.
  repeat case_if_in Ha2; simplify_eq. split; [lia|done].
Qed.

(** ** Registrations *)

(** Replacing a dead registration is final: the goroutine of the displaced
    link, unwinding later, cannot evict its successor, and the relay id keeps
    resolving to the new link. *)
Theorem successor_survives n s id previous s' lk lp :
  ginv n s -> relays s !! id = Some previous -> links s !! previous = Some lp ->
  displaceRelay s id previous false = (s', Installed lk) ->
  lk <> previous /\ relays (unregisterRelay s' previous lp) !! id = Some lk /\
  relays (unregisterRelay (closeLink s' previous lp) previous lp) !! id = Some lk.
Proof.
  intros Hi Hr Hlp Hd. unfold displaceRelay in Hd. rewrite Hr in Hd.
  rewrite bool_decide_false in Hd by (intros H; by apply H). unfold install in Hd. simplify_eq.
  set (lk := fresh _). assert (Hne : lk <> previous).
  { intros Heq. pose proof (is_fresh (dom (links s))) as Hf. fold lk in Hf. rewrite Heq in Hf.
    apply Hf. by apply elem_of_dom_2 in Hlp. }
  split; [done|]. destruct (gi_reg n s Hi id previous Hr) as (l & Hl & Hid). simplify_eq.
  unfold unregisterRelay, closeLink. cbn [relays setRelays setLink].
  rewrite !bool_decide_false by (rewrite lookup_insert_eq; congruence).
  cbn. by rewrite lookup_insert_eq.
Qed.

(** ** The handlers are sequences of steps *)

Lemma steps_remove s lk l id :
  links s !! lk = Some l -> 0 <= pending s -> rtc step s (remove s lk l id).1.
Proof.
  intros Hl Hp. unfold remove. pose proof (step_remove s lk l id Hl) as Hs.
  unfold removeLocked in *. destruct (conns l !! id); cbn [fst] in *; [|apply rtc_refl].
  eapply rtc_l; [exact Hs|]. apply rtc_once, step_release. cbn. lia.
Qed.

Lemma steps_attach s lk l c :
  links s !! lk = Some l -> 0 <= reserved s -> rtc step s (attach s lk l c).1.
Proof.
  intros Hl Hr. unfold attach. destruct (reserveClient s) as [s1|] eqn:E; [|apply rtc_refl].
  eapply rtc_l; [by apply step_reserve|]. apply rtc_once.
  unfold reserveClient in E. repeat case_if_in E; simplify_eq; apply step_attach; cbn; done || lia.
Qed.

Lemma steps_detach s lk l reason :
  links s !! lk = Some l -> 0 <= pending s -> rtc step s (detachClients s lk l reason).1.
Proof.
  intros Hl Hp. unfold detachClients. pose proof (step_detach s lk l Hl) as Hs.
  unfold detachLocked in *. cbn [fst snd] in *. eapply rtc_l; [exact Hs|].
  destruct (decide (0 < Z.of_nat (size (conns l)))) as [Hlt|Hge].
  - apply rtc_once, step_release. cbn. lia.
  - unfold releaseClients. replace (_ >? 0) with false; [apply rtc_refl|].
    symmetry. rewrite Z.gtb_ltb. apply Z.ltb_ge. lia.
Qed.

Lemma steps_sweep s lk l now :
  links s !! lk = Some l -> 0 <= pending s -> rtc step s (sweepIdle s lk l now).1.
Proof.
  intros Hl Hp. unfold sweepIdle. pose proof (step_sweep s lk l now Hl) as Hs.
  unfold sweepLocked in *. cbn [fst snd] in *. set (stale := filter (fun kc => ~ _) (conns l)) in *.
  eapply rtc_l; [exact Hs|].
  destruct (decide (0 < Z.of_nat (size stale))) as [Hlt|Hge].
  - apply rtc_once, step_release. cbn. lia.
  - unfold releaseClients. replace (_ >? 0) with false; [apply rtc_refl|].
    symmetry. rewrite Z.gtb_ltb. apply Z.ltb_ge. lia.
Qed.

Lemma steps_deliver mn wok s lk l id payload now :
  links s !! lk = Some l -> 0 <= pending s ->
  rtc step s (deliverData mn wok s lk l id payload now).1.
Proof.
  intros Hl Hp. unfold deliverData. destruct (conns l !! id) as [c|] eqn:Ec; [|apply rtc_refl].
  destruct (Quota.add _ _ _ _) as [q notices].
  destruct (deliver (touch c now) payload) as [c' ok] eqn:Ed.
  set (l' := setConns l (<[id := c']> (conns l))).
  assert (Hq : rtc step s (setLink (setQuota s q) lk l')).
  { eapply rtc_l; [apply (step_quota s q)|].
    eapply rtc_l; [apply (step_queue _ lk l id c (touch c now)); [done|done|apply ClientQueue.step_touch]|].
    eapply rtc_l.
    - apply (step_queue _ lk (setConns l (<[id := touch c now]> (conns l))) id (touch c now) c').
      + cbn. by rewrite lookup_insert_eq.
      + cbn. by rewrite lookup_insert_eq.
      + pose proof (ClientQueue.step_deliver (touch c now) payload) as Hs. by rewrite Ed in Hs.
    - unfold setLink, setConns, l'. cbn. rewrite !insert_insert_eq. apply rtc_refl. }
  destruct ok; [exact Hq|].
  pose proof (steps_remove (setLink (setQuota s q) lk l') lk l' id) as Hr.
  destruct (remove _ lk l' id) as [s2 [c2|]]; cbn in *;
    (etransitivity; [exact Hq|]; apply Hr; [by rewrite lookup_insert_eq|done]).
Qed.

Lemma attach_ok_link s lk l c s' id :
  attach s lk l c = (s', Ok id) ->
  (exists l', links s' !! lk = Some l') /\ pending s' = pending s.
Proof.
  unfold attach, reserveClient, attachLocked. intros H.
  repeat case_if_in H; simplify_eq; cbn in *; simplify_eq; cbn; rewrite lookup_insert_eq; eauto.
Qed.

Lemma steps_connect mn mo wok s ip nonce hello now readyOk :
  0 <= reserved s -> 0 <= pending s ->
  rtc step s (handleConnect mn mo wok s ip nonce hello now readyOk).1.1.
Proof.
  intros Hr Hp. unfold handleConnect.
  destruct (connectHello hello) as [h|]; [|apply rtc_refl].
  destruct (RateLimit.allow _ _ _) as [lim ok].
  eapply rtc_l; [apply (step_limiter s lim)|].
  destruct ok; cbn [negb]; [|apply rtc_refl].
  destruct (lookupRelay _ _) as [[lk l]|] eqn:El; [|apply rtc_refl].
  assert (Hl : links s !! lk = Some l).
  { unfold lookupRelay in El. cbn in El. destruct (relays s !! ch_RelayID h) as [lk'|]; [|done].
    cbn in El. destruct (links s !! lk') as [l'|] eqn:E; [|done]. cbn in El. by simplify_eq. }
  destruct (Quota.exceeded _ _ _) as [q [over ns]].
  eapply rtc_l; [apply (step_quota _ q)|]. destruct over; [apply rtc_refl|].
  set (s1 := setQuota _ q).
  pose proof (steps_attach s1 lk l (newClient now) Hl Hr) as Ha.
  destruct (attach s1 lk l (newClient now)) as [s2 [cid|[]]] eqn:Ea; cbn [fst] in *; try done.
  apply attach_ok_link in Ea as [[l' Hl'] Hp']. rewrite Hl'. cbn [default from_option id].
  assert (Hrm : rtc step s2 (remove s2 lk l' cid).1) by (apply steps_remove; [done|by rewrite Hp']).
  destruct readyOk; cbn [negb fst]; [|by etransitivity].
  destruct (wok _); cbn [negb fst]; [done|by etransitivity].
Qed.

Lemma steps_teardown s lk l :
  links s !! lk = Some l -> 0 <= pending s -> rtc step s (teardown s lk l).1.
Proof.
  intros Hl Hp. unfold teardown. eapply rtc_l; [by apply step_closeLink|].
  set (s1 := closeLink s lk l). set (l1 := default l (links s1 !! lk)).
  assert (Hl1 : links s1 !! lk = Some l1) by (unfold l1, s1; cbn; by rewrite lookup_insert_eq).
  pose proof (steps_detach s1 lk l1 reasonRelayGone Hl1 Hp) as Hd.
  assert (Hl2 : links (detachClients s1 lk l1 reasonRelayGone).1 !! lk = Some (setConns l1 ∅)).
  { unfold detachClients, detachLocked, releaseClients. cbn [fst]. case_if; cbn;
      by rewrite lookup_insert_eq. }
  destruct (detachClients _ _ _ _) as [s2 eff]. cbn [fst] in *. etransitivity; [exact Hd|].
  apply rtc_once. exact (step_unregister s2 lk _ Hl2).
Qed.

(** a closed link with no phones keeps none: an attachment that looked the link
    up before it was closed is refused *)
Lemma step_closed_empty s s' lk l :
  step s s' -> links s !! lk = Some l -> linkClosed l = true -> conns l = ∅ ->
  exists l', links s' !! lk = Some l' /\ linkClosed l' = true /\ conns l' = ∅.
Proof.
  intros Hs Hlk Hcl Hem.
  assert (Hset : forall lk0 l0 l1, links s !! lk0 = Some l0 ->
            (linkClosed l0 = true -> conns l0 = ∅ -> linkClosed l1 = true /\ conns l1 = ∅) ->
            exists l', <[lk0 := l1]> (links s) !! lk = Some l' /\ linkClosed l' = true /\ conns l' = ∅).
  { intros lk0 l0 l1 H0 Hok. destruct (decide (lk0 = lk)) as [->|Hne].
    - rewrite lookup_insert_eq. simplify_eq. destruct (Hok Hcl Hem). by eexists.
    - rewrite lookup_insert_ne by done. by exists l. }
  assert (Hinst : forall id, exists l', links (install s id).1 !! lk = Some l' /\ linkClosed l' = true /\ conns l' = ∅).
  { intros id. unfold install. cbn. exists l. rewrite lookup_insert_ne; [done|].
    intros Heq. pose proof (is_fresh (dom (links s))) as Hf. rewrite Heq in Hf.
    apply Hf. by apply elem_of_dom_2 in Hlk. }
  assert (Hsame : exists l', links s !! lk = Some l' /\ linkClosed l' = true /\ conns l' = ∅) by (by exists l).
  destruct Hs as [s s' Hr|s lk0 l0 c Hl Hres|s lk0 l0 id Hl|s lk0 l0 Hl|s lk0 l0 now Hl|s k Hk|s id
                 |s id prev alive|s lk0 l0 Hl|s lk0 l0 Hl|s|s lk0 l0 id c c' Hl Hc _|s lk0 l0 m Hl|s q|s lim];
    try done; try (by apply (Hset lk0 l0)).
  - unfold reserveClient in Hr. repeat case_if_in Hr; by simplify_eq.
  - unfold attachLocked. destruct (linkClosed l0) eqn:Ec0; [done|]. destruct (_ && _); [done|].
    apply (Hset lk0 l0); [done|]. congruence.
  - unfold removeLocked. destruct (conns l0 !! id) eqn:E; [|done]. apply (Hset lk0 l0); [done|].
    intros _ H0. by rewrite H0, lookup_empty in E.
  - apply (Hset lk0 l0); [done|]. intros ? H0. split; [done|]. cbn. by rewrite H0, map_filter_empty.
  - unfold releaseClients. by destruct (k >? 0).
  - unfold registerRelay. destruct (relays s !! id); [done|].
    destruct (overRelays s); [done|]. apply Hinst.
  - unfold displaceRelay. destruct alive; [done|]. destruct (relays s !! id).
    + case_bool_decide; [done|]. apply Hinst.
    + destruct (overRelays s); [done|]. apply Hinst.
  - unfold unregisterRelay. by case_bool_decide.
  - apply (Hset lk0 l0); [done|]. intros _ H0. by rewrite H0, lookup_empty in Hc.
Qed.

Lemma teardown_links s lk l :
  links (teardown s lk l).1 !! lk =
    Some (mkLink (relayID l) ∅ (nextID l) true (unansweredPings l)).
Proof.
  unfold teardown, detachClients, detachLocked, closeLink, releaseClients, unregisterRelay.
  cbn. rewrite lookup_insert_eq. cbn. repeat case_if; cbn; by rewrite !lookup_insert_eq.
Qed.

(** Tearing a relay link down is complete and final: every phone it had is
    handed back once with the reason, the relay id no longer resolves to the
    link, and in every later state the link has no phone, so no phone is paired
    with a relay that is gone. *)
Theorem teardown_final s lk l s' :
  rtc step (teardown s lk l).1 s' ->
  (teardown s lk l).2 =
    CloseLink StatusNormalClosure "" ::
    ((fun kc => Phone kc.1 (finish kc.2 StatusGoingAway reasonRelayGone)) <$> map_to_list (conns l)) /\
  relays (teardown s lk l).1 !! relayID l <> Some lk /\
  exists l', links s' !! lk = Some l' /\ linkClosed l' = true /\ conns l' = ∅.
Proof.
  intros Hs. split; [|split].
  - unfold teardown, detachClients, detachLocked, closeLink. cbn. by rewrite lookup_insert_eq.
  - unfold teardown, detachClients, detachLocked, closeLink, unregisterRelay. cbn.
    rewrite lookup_insert_eq. cbn. case_bool_decide as H; [|done]. cbn. by rewrite lookup_delete_eq.
  - pose proof (teardown_links s lk l) as Hl. revert Hl.
    assert (Hgen : forall t, rtc step t s' -> (exists l1, links t !! lk = Some l1 /\ linkClosed l1 = true /\ conns l1 = ∅) ->
       exists l', links s' !! lk = Some l' /\ linkClosed l' = true /\ conns l' = ∅).
    { intros t Ht. induction Ht as [|t u v Htu _ IH]; [done|]. intros (l1 & H1 & H2 & H3).
      apply IH; [exact Hs|]. by apply (step_closed_empty t u lk l1). }
    intros Hl. apply (Hgen _ Hs). by eexists.
Qed.

(** Every handler of the gateway is a sequence of the atomic steps above, so
    the ceilings hold through it: a message from a relay, a ping tick, a message
    from a phone, the end of a phone, the teardown of a link and the admission of
    a new phone. *)
Theorem handlers_are_steps mn mo wok s lk l :
  links s !! lk = Some l -> 0 <= reserved s -> 0 <= pending s ->
  (forall binary data now, rtc step s (relayMessage mn wok s lk l binary data now).1.1) /\
  rtc step s (pingTick wok s lk l).1.1 /\
  (forall id c binary data now, conns l !! id = Some c ->
     rtc step s (phoneMessage mn wok s lk l id c binary data now).1.1) /\
  (forall id status reason, rtc step s (phoneEnd s lk l id status reason).1) /\
  rtc step s (teardown s lk l).1 /\
  (forall ip nonce hello now readyOk,
     rtc step s (handleConnect mn mo wok s ip nonce hello now readyOk).1.1).
Proof.
  intros Hl Hr Hp. split_and!.
  - intros binary data now. unfold relayMessage.
    destruct binary; [|by apply rtc_once, step_closeLink]. cbn [negb].
    destruct (DecodeFrame data) as [[[op id] payload]|]; [|by apply rtc_once, step_closeLink].
    destruct (op =? OpData).
    { pose proof (steps_deliver mn wok s lk l id payload now Hl Hp).
      by destruct (deliverData _ _ _ _ _ _ _ _). }
    destruct (op =? OpClose).
    { pose proof (steps_remove s lk l id Hl Hp). by destruct (remove _ _ _ _) as [? []]. }
    destruct (op =? OpPong); [by apply rtc_once, step_ping|].
    destruct (op =? OpPing); [apply rtc_refl|by apply rtc_once, step_closeLink].
  - unfold pingTick. destruct (_ >=? _); [by apply rtc_once, step_closeLink|].
    destruct (wok _); [by apply rtc_once, step_ping|].
    eapply rtc_l; [by apply (step_ping s lk l (unansweredPings l + 1))|].
    pose proof (step_closeLink (setLink s lk (mkLink (relayID l) (conns l) (nextID l)
      (linkClosed l) (unansweredPings l + 1))) lk _ (lookup_insert_eq _ _ _)) as Hc.
    unfold closeLink, setLink in *. cbn in *. rewrite insert_insert_eq in Hc. by apply rtc_once.
  - intros id c binary data now Hc. unfold phoneMessage.
    destruct binary; [|apply rtc_refl]. cbn [negb]. rewrite Hc.
    set (s1 := setLink _ _ _).
    assert (H1 : step s s1)
      by (apply (step_queue s lk l id c); [done|done|apply ClientQueue.step_touch]).
    destruct (wok _); cbn [negb]; [|by apply rtc_once].
    destruct (Quota.add _ _ _ _) as [q ns]. cbn. eapply rtc_l; [exact H1|].
    apply rtc_once, step_quota.
  - intros id status reason. unfold phoneEnd. pose proof (steps_remove s lk l id Hl Hp).
    by destruct (remove _ _ _ _) as [? []].
  - by apply steps_teardown.
  - intros. by apply steps_connect.
Qed.

(** ** A concrete run: one relay, two phones, a full per-relay ceiling *)

Definition demoOptions : Options := mkOptions 4 8 2 30 1000 80 DefaultIdleTimeout "".
Definition demo0 : Server := newServer demoOptions.
Definition demo1 : Server := (registerRelay demo0 "r").1.
Definition demoLk : positive := fresh (dom (links demo0)).
Definition demoL1 : relayLink := newLink "r".
Definition demo2 : Server := default demo1 (reserveClient demo1).
Definition demo3 : Server := (attachLocked demo2 demoLk demoL1 (newClient 5)).1.
Definition demo4 : Server := default demo3 (reserveClient demo3).
Definition demoL2 : relayLink := default demoL1 (links demo4 !! demoLk).

Lemma demo_links1 : links demo2 !! demoLk = Some demoL1.
Proof. vm_compute. reflexivity. Qed.

Lemma demo_links2 : links demo4 !! demoLk = Some demoL2.
Proof. vm_compute. reflexivity. Qed.

Lemma demo_run : nsteps step 2 demo0 demo2.
Proof.
  apply (nsteps_l _ _ demo0 demo1); [apply step_register|].
  apply nsteps_once, step_reserve. by vm_compute.
Qed.

Lemma demo_run3 : nsteps step 1 demo3 demo4.
Proof. apply nsteps_once, step_reserve. by vm_compute. Qed.

Lemma demo_run4 : nsteps step 4 demo0 demo4.
Proof.
  apply (nsteps_trans 2 2 _ demo2); [exact demo_run|].
  apply (nsteps_l _ _ demo2 demo3); [|exact demo_run3].
  apply step_attach; [exact demo_links1|by vm_compute].
Qed.

Lemma ceilings_hold_witness :
  total (links demo4) <= clients demo4 /\ clients demo4 = 2 /\ clients demo4 <= 8.
Proof.
  destruct (ceilings_hold demoOptions 4 demo4 demo_run4 ltac:(vm_compute; reflexivity)) as [H _].
  destruct (H ltac:(vm_compute; discriminate)) as [H1 H2].
  split; [exact H1|]. split; [vm_compute; reflexivity|exact H2].
Defined.

Lemma connection_ids_increase_witness : 1 < 2.
Proof.
  refine (proj1 (connection_ids_increase demoOptions 2 1 demo2 demo4 demoLk demoL1 demoL2
    (newClient 5) (newClient 6) demo3 (attachLocked demo4 demoLk demoL2 (newClient 6)).1 1 2
    demo_run demo_links1 _ _ demo_run3 demo_links2 _ _)); vm_compute; reflexivity.
Defined.

Definition demoNew : positive := fresh (dom (links demo1)).

Lemma successor_survives_witness : demoNew <> demoLk.
Proof.
  refine (proj1 (successor_survives 0 demo1 "r" demoLk
    (displaceRelay demo1 "r" demoLk false).1 demoNew demoL1 _ _ _ _));
    [apply ginv_register; [apply ginv_new|lia]|vm_compute; reflexivity..].
Defined.

Lemma teardown_final_witness :
  relays (teardown demo4 demoLk demoL2).1 !! relayID demoL2 <> Some demoLk.
Proof.
  exact (proj1 (proj2 (teardown_final demo4 demoLk demoL2 _ (rtc_refl step _)))).
Defined.

Lemma handlers_are_steps_witness :
  rtc step demo4 (pingTick (fun _ => true) demo4 demoLk demoL2).1.1.
Proof.
  refine (proj1 (proj2 (handlers_are_steps (fun _ => []) (fun _ => []) (fun _ => true)
    demo4 demoLk demoL2 demo_links2 _ _))); vm_compute; discriminate.
Defined.

End GatewayInv.
