(* ===== verification/PaneDelta.v ===== *)
(** Deltas of terminal panes ([internal/panedelta/delta.go]): [Build] describes
    the current text as copies of line ranges of the previous text and literal
    text; [Apply] rebuilds it on the phone's side.  Text is a byte string; a
    run-time panic is [None]. *)
From S2P Require Import Prelude GoLib.
#[local] Open Scope Z_scope.

Module PaneDelta.

Definition minimumCopyLines : Z := 3.
Definition maxCandidates : Z := 64.
Definition newline : Z := 10.

Record Segment := mkSegment { CopyStart : Z; CopyLines : Z; Text : bytes }.

Definition lineKey : Type := bytes * bytes * bytes.

Definition keyAt (lines : list bytes) (i : Z) : option lineKey :=
  let? a := index lines i in
  let? b := index lines (i + 1) in
  let? c := index lines (i + 2) in
  Some (a, b, c).

(** ** Build *)

(** the loop of [matchingLines]; [fuel] bounds its iterations *)
Fixpoint matchLoop (fuel : nat) (previous current : list bytes)
    (previousIndex currentIndex matched : Z) : option Z :=
  if (previousIndex + matched <? len previous) && (currentIndex + matched <? len current) then
    let? a := index previous (previousIndex + matched) in
    let? b := index current (currentIndex + matched) in
    if bool_decide (a = b) then
      match fuel with
      | O => None
      | S fuel => matchLoop fuel previous current previousIndex currentIndex (matched + 1)
      end
    else Some matched
  else Some matched.

Definition matchingLines (previous current : list bytes) (previousIndex currentIndex : Z)
    : option Z :=
  matchLoop (length previous) previous current previousIndex currentIndex 0.

(** the candidate positions of every key of [previous], at most [maxCandidates]
    for one key *)
Definition indexLine (lines : list bytes) (matches : gmap lineKey (list Z)) (i : Z)
    : option (gmap lineKey (list Z)) :=
  let? key := keyAt lines i in
  let candidates := default [] (matches !! key) in
  Some (if len candidates <? maxCandidates
        then <[key := candidates ++ [i]]> matches else matches).

Definition indexLines (lines : list bytes) : option (gmap lineKey (list Z)) :=
  foldM (indexLine lines) ∅ (seqZ 0 (len lines - minimumCopyLines + 1)).

(** the first longest match among the candidates *)
Definition bestMatch (previous current : list bytes) (currentIndex : Z) (candidates : list Z)
    : option (Z * Z) :=
  foldM (fun best previousIndex =>
           let? matched := matchingLines previous current previousIndex currentIndex in
           Some (if matched >? best.2 then (previousIndex, matched) else best))
        (0, 0) candidates.

Definition flushLiteral (currentLines : list bytes) (literalStart : Z) (segments : list Segment)
    (stop : Z) : option (list Segment) :=
  if stop <=? literalStart then Some segments else
  let? text := slice currentLines literalStart stop in
  Some (segments ++ [mkSegment 0 0 (concat text)]).

(** the main loop of [Build]: the segments and [literalStart] it ends with *)
Fixpoint buildLoop (fuel : nat) (previousLines currentLines : list bytes)
    (matches : gmap lineKey (list Z)) (currentIndex literalStart : Z) (segments : list Segment)
    : option (list Segment * Z) :=
  if currentIndex <? len currentLines then
    if currentIndex + minimumCopyLines >? len currentLines then Some (segments, literalStart) else
    match fuel with
    | O => None
    | S fuel =>
        let? key := keyAt currentLines currentIndex in
        let? best := bestMatch previousLines currentLines currentIndex
                       (default [] (matches !! key)) in
        if best.2 <? minimumCopyLines then
          buildLoop fuel previousLines currentLines matches (currentIndex + 1) literalStart segments
        else
          let? segments := flushLiteral currentLines literalStart segments currentIndex in
          buildLoop fuel previousLines currentLines matches (currentIndex + best.2)
            (currentIndex + best.2) (segments ++ [mkSegment best.1 best.2 []])
    end
  else Some (segments, literalStart).

Definition Build (previous current : bytes) : option (list Segment) :=
  let previousLines := splitAfter newline previous in
  let currentLines := splitAfter newline current in
  let? matches := indexLines previousLines in
  let? out := buildLoop (length currentLines) previousLines currentLines matches 0 0 [] in
  flushLiteral currentLines out.2 out.1 (len currentLines).

Definition Efficient (segments : list Segment) (current : bytes) : bool :=
  let literalBytes := foldl (fun n s => n + len (Text s)) 0 segments in
  literalBytes + len segments * 64 <? Z.quot (len current * 3) 4.

(** ** Apply *)

(** the result of one segment: [None] a panic, [Some None] the refusal
    ["", false] *)
Definition applySegment (lines : list bytes) (s : Segment) : option (option bytes) :=
  if CopyLines s >? 0 then
    let stop := i64 (CopyStart s + CopyLines s) in
    if (CopyStart s <? 0) || (stop <? CopyStart s) || (stop >? len lines) then Some None
    else let? copied := slice lines (CopyStart s) stop in Some (Some (concat copied))
  else Some (Some (Text s)).

Fixpoint applyLoop (lines : list bytes) (output : bytes) (segments : list Segment)
    : option (option bytes) :=
  match segments with
  | [] => Some (Some output)
  | s :: segments =>
      let? r := applySegment lines s in
      match r with
      | None => Some None
      | Some text => applyLoop lines (output ++ text) segments
      end
  end.

Definition Apply (previous : bytes) (segments : list Segment) : option (option bytes) :=
  applyLoop (splitAfter newline previous) [] segments.

(** ** Matching *)

(** [k] lines of the two texts agree from the two positions *)
Definition agree (p c : list bytes) (i j k : Z) : Prop :=
  forall d, 0 <= d < k -> exists x, index p (i + d) = Some x /\ index c (j + d) = Some x.

Lemma matchLoop_spec fuel p c i j m :
  0 <= i -> 0 <= j -> 0 <= m -> len p - i - m <= Z.of_nat fuel -> agree p c i j m ->
  exists k, matchLoop fuel p c i j m = Some k /\ m <= k /\ agree p c i j k /\ ~ agree p c i j (k + 1).
Proof.
  intros Hi Hj. revert m. induction fuel as [|fuel IH]; intros m Hm Hf Ha; cbn [matchLoop];
    (destruct ((i + m <? len p) && (j + m <? len c)) eqn:E; zb;
     [|exists m; split_and!; try done; intros Hag; destruct (Hag m ltac:(lia)) as (x & Hx & Hy);
       apply index_Some in Hx as [? Hx%lookup_lt_Some], Hy as [? Hy%lookup_lt_Some]; lia..]); [lia|].
  destruct (index_in_range p (i + m) ltac:(lia)) as [a Ea].
  destruct (index_in_range c (j + m) ltac:(lia)) as [b Eb]. rewrite Ea, Eb. cbn.
  case_bool_decide as Hab.
  - subst b. destruct (IH (m + 1)) as (k & Hk & Hle & ? & ?); [lia|lia| |].
    + intros d Hd. destruct (decide (d = m)) as [->|]; [by exists a|]. apply Ha. lia.
    + exists k. split_and!; try done. lia.
  - exists m. split_and!; try done. intros Hag. destruct (Hag m ltac:(lia)) as (x & Hx & Hy). congruence.
Qed.

Lemma agree_slices p c i j k :
  0 <= i -> 0 <= j -> 0 <= k -> agree p c i j k ->
  take (Z.to_nat k) (drop (Z.to_nat i) p) = take (Z.to_nat k) (drop (Z.to_nat j) c) /\
  (0 < k -> i + k <= len p /\ j + k <= len c).
Proof.
  intros Hi Hj Hk Ha. split.
  - apply list_eq. intros n. destruct (decide (n < Z.to_nat k)%nat) as [Hn|Hn].
    + rewrite !lookup_take_lt, !lookup_drop by done. destruct (Ha (Z.of_nat n)) as (x & Hx & Hy); [lia|].
      apply index_Some in Hx as [_ Hx], Hy as [_ Hy].
      replace (Z.to_nat i + n)%nat with (Z.to_nat (i + Z.of_nat n)) by lia.
      replace (Z.to_nat j + n)%nat with (Z.to_nat (j + Z.of_nat n)) by lia. congruence.
    + rewrite !lookup_take_ge by lia. done.
  - intros Hk0. destruct (Ha (k - 1)) as (x & Hx & Hy); [lia|].
    apply index_Some in Hx as [_ Hx%lookup_lt_Some], Hy as [_ Hy%lookup_lt_Some]. lia.
Qed.

Lemma keyAt_in_range lines i : 0 <= i -> i + 3 <= len lines -> is_Some (keyAt lines i).
Proof.
  intros H0 H1. unfold keyAt.
  destruct (index_in_range lines i ltac:(lia)) as [a ->].
  destruct (index_in_range lines (i + 1) ltac:(lia)) as [b ->].
  destruct (index_in_range lines (i + 2) ltac:(lia)) as [c ->]. by eexists.
Qed.

(** the index holds only positions of the key they are filed under *)
Definition index_ok (lines : list bytes) (m : gmap lineKey (list Z)) : Prop :=
  forall key l, m !! key = Some l -> Forall (fun i => 0 <= i /\ keyAt lines i = Some key) l.

Lemma indexLines_ok lines : exists m, indexLines lines = Some m /\ index_ok lines m.
Proof.
  apply (foldM_inv (index_ok lines) (fun i => 0 <= i /\ i + 3 <= len lines)).
  - intros key l H. by rewrite lookup_empty in H.
  - apply Forall_forall. intros i Hi%elem_of_seqZ. unfold minimumCopyLines in Hi. lia.
  - intros m i Hm [Hi0 Hi3]. unfold indexLine. destruct (keyAt_in_range lines i Hi0 Hi3) as [key Hk].
    rewrite Hk. cbn. eexists. split; [done|]. case_if; [|done].
    intros key' l Hl. destruct (decide (key = key')) as [->|Hne].
    + rewrite lookup_insert_eq in Hl. simplify_eq. apply Forall_app. split; [|by constructor].
      destruct (m !! key') eqn:Em; cbn; [by apply Hm|constructor].
    + rewrite lookup_insert_ne in Hl by done. by apply Hm.
Qed.

(** the best match describes lines that agree *)
Lemma bestMatch_ok p c j candidates :
  0 <= j -> Forall (fun i => 0 <= i) candidates ->
  exists best, bestMatch p c j candidates = Some best /\
    0 <= best.1 /\ 0 <= best.2 /\ agree p c best.1 j best.2.
Proof.
  intros Hj Hc.
  apply (foldM_inv (fun best => 0 <= best.1 /\ 0 <= best.2 /\ agree p c best.1 j best.2)
           (fun i => 0 <= i)); [|done|].
  - cbn. split_and!; try lia. intros d Hd. lia.
  - intros best i Hb Hi. unfold matchingLines.
    destruct (matchLoop_spec (length p) p c i j 0) as (k & -> & Hk & Ha & _);
      [done|done|done|lia|intros d Hd; lia|].
    cbn. eexists. split; [done|]. case_if; done.
Qed.

(** ** Correctness of [Build] *)

Lemma applyLoop_app lines out s1 s2 text :
  applyLoop lines out s1 = Some (Some text) ->
  applyLoop lines out (s1 ++ s2) = applyLoop lines text s2.
Proof.
  revert out. induction s1 as [|s s1 IH]; intros out H; cbn in *; [by simplify_eq|].
  destruct (applySegment lines s) as [[t|]|]; cbn in *; [by apply IH|done..].
Qed.

(** the segments emitted so far rebuild the first [n] lines *)
Definition rebuilt (p c : list bytes) (segments : list Segment) (n : Z) : Prop :=
  applyLoop p [] segments = Some (Some (concat (take (Z.to_nat n) c))).

Lemma flush_ok p c lit segments stop :
  0 <= lit -> lit <= stop <= len c -> rebuilt p c segments lit ->
  exists segments', flushLiteral c lit segments stop = Some segments' /\ rebuilt p c segments' stop.
Proof.
  intros Hl Hs Hr. unfold flushLiteral. destruct (Z.leb_spec stop lit).
  - exists segments. replace stop with lit by lia. done.
  - rewrite slice_in_range by lia. cbn. eexists. split; [done|].
    unfold rebuilt. erewrite applyLoop_app by exact Hr. cbn. rewrite <- concat_app.
    do 3 f_equal. rewrite Z2Nat.inj_sub by lia. apply take_drop_app_eq. lia.
Qed.

Lemma copy_ok p c segments j best :
  len p < 2 ^ 63 -> 0 <= j -> 0 <= best.1 -> 0 < best.2 -> agree p c best.1 j best.2 ->
  rebuilt p c segments j ->
  rebuilt p c (segments ++ [mkSegment best.1 best.2 []]) (j + best.2).
Proof.
  intros Hlen Hj H1 H2 Ha Hr. destruct (agree_slices p c best.1 j best.2) as [Heq Hb]; [lia..|done|].
  specialize (Hb H2). unfold rebuilt. erewrite applyLoop_app by exact Hr. cbn.
  unfold applySegment. cbn. rewrite Z.gtb_ltb, (proj2 (Z.ltb_lt 0 best.2) H2).
  replace (i64 (best.1 + best.2)) with (best.1 + best.2) by (unfold i64; rewrite Z.mod_small; lia).
  rewrite (proj2 (Z.ltb_ge best.1 0)), (proj2 (Z.ltb_ge (best.1 + best.2) best.1)),
    Z.gtb_ltb, (proj2 (Z.ltb_ge (len p) (best.1 + best.2))) by lia.
  cbn. rewrite slice_in_range by lia. cbn. do 2 f_equal. rewrite <- concat_app. f_equal.
  replace (best.1 + best.2 - best.1) with best.2 by lia. rewrite Heq.
  replace (Z.to_nat best.2) with (Z.to_nat (j + best.2) - Z.to_nat j)%nat by lia.
  apply take_drop_app_eq. lia.
Qed.

Lemma buildLoop_ok fuel p c m j lit segments :
  len p < 2 ^ 63 -> index_ok p m -> 0 <= lit -> lit <= j <= len c -> len c - j <= Z.of_nat fuel ->
  rebuilt p c segments lit ->
  exists segments' lit', buildLoop fuel p c m j lit segments = Some (segments', lit') /\
    0 <= lit' <= len c /\ rebuilt p c segments' lit'.
Proof.
  intros Hp Hm. revert j lit segments.
  induction fuel as [|fuel IH]; intros j lit segments Hl Hj Hf Hr; cbn [buildLoop];
    (destruct (j <? len c) eqn:Ej; zb; [|by exists segments, lit; split_and!; [|lia..|]]); [lia|].
  destruct (j + minimumCopyLines >? len c) eqn:Em; [by exists segments, lit; split_and!; [|lia..|]|].
  zb. unfold minimumCopyLines in *. destruct (keyAt_in_range c j ltac:(lia) ltac:(lia)) as [key ->]. cbn.
  destruct (bestMatch_ok p c j (default [] (m !! key))) as (best & -> & Hb1 & Hb2 & Ha); [lia| |].
  { destruct (m !! key) eqn:E; cbn; [|constructor].
    eapply Forall_impl; [by apply (Hm key)|]. by intros i []. }
  cbn. destruct (best.2 <? 3) eqn:Eb; zb; [apply IH; [done|lia|lia|done]|].
  destruct (flush_ok p c lit segments j) as (segs & -> & Hr'); [lia|lia|done|]. cbn.
  destruct (agree_slices p c best.1 j best.2) as [_ Hb]; [lia..|done|].
  apply IH; [lia|lia|lia|]. apply copy_ok; (done || lia).
Qed.

(** C23: a delta is exact: for any two texts [Build] terminates without a panic,
    and applying what it built to the previous text gives the current text,
    byte for byte. *)
Theorem build_apply previous current :
  len (splitAfter newline previous) < 2 ^ 63 ->
  exists segments, Build previous current = Some segments /\
    Apply previous segments = Some (Some current).
Proof.
  intros Hp. unfold Build. set (p := splitAfter newline previous) in *.
  set (c := splitAfter newline current). destruct (indexLines_ok p) as (m & -> & Hm). cbn.
  destruct (buildLoop_ok (length c) p c m 0 0 []) as (segs & lit & -> & Hl & Hr);
    [done|done|lia|lia|lia|done|]. cbn.
  destruct (flush_ok p c lit segs (len c)) as (out & -> & Ho); [lia|lia|done|].
  exists out. split; [done|]. unfold Apply. fold p. rewrite Ho, Nat2Z.id, firstn_all.
  unfold c. by rewrite concat_splitAfter.
Qed.

(** [Apply] never panics on a delta from the network, whatever copy ranges it
    names, and what it accepts is made of lines of the previous text and the
    literal text of the delta. *)
Theorem apply_total previous segments :
  Forall (fun s => - 2 ^ 63 <= CopyStart s < 2 ^ 63 /\ CopyLines s < 2 ^ 63) segments ->
  exists r, Apply previous segments = Some r /\
    (forall text, r = Some text -> exists parts, text = concat parts /\
      Forall2 (fun s part =>
        if CopyLines s >? 0
        then slice (splitAfter newline previous) (CopyStart s) (CopyStart s + CopyLines s) ≫=
               (fun ls => Some (concat ls)) = Some part
        else part = Text s) segments parts).
Proof.
  intros Hs. unfold Apply. set (lines := splitAfter newline previous).
  assert (Hgen : forall out, exists r, applyLoop lines out segments = Some r /\
    (forall text, r = Some text -> exists parts, text = out ++ concat parts /\
      Forall2 (fun s part =>
        if CopyLines s >? 0
        then slice lines (CopyStart s) (CopyStart s + CopyLines s) ≫= (fun ls => Some (concat ls)) = Some part
        else part = Text s) segments parts)); [|by apply (Hgen [])].
  induction Hs as [|s segments Hr Hs IH]; intros out; cbn.
  { eexists. split; [done|]. intros text [= <-]. exists []. by rewrite app_nil_r. }
  unfold applySegment. destruct (CopyLines s >? 0) eqn:Ec; zb.
  - destruct (_ || _) eqn:Eg; cbn; [by exists None|]. zb.
    assert (Hi : i64 (CopyStart s + CopyLines s) = CopyStart s + CopyLines s).
    { unfold i64 in *. destruct (decide (CopyStart s + CopyLines s < 2 ^ 63)).
      - rewrite Z.mod_small by lia. lia.
      - exfalso. assert ((CopyStart s + CopyLines s + 2 ^ 63) mod 2 ^ 64 = CopyStart s + CopyLines s + 2 ^ 63 - 2 ^ 64); [|lia].
        symmetry. apply (Z.mod_unique_pos _ _ 1); lia. }
    rewrite Hi in *. rewrite slice_in_range by lia. cbn.
    destruct (IH (out ++ concat (take (Z.to_nat (CopyStart s + CopyLines s - CopyStart s)) (drop (Z.to_nat (CopyStart s)) lines))))
      as (r & -> & Hp).
    exists r. split; [done|]. intros text Ht. destruct (Hp text Ht) as (parts & -> & HF).
    eexists (_ :: parts). split; [cbn; by rewrite app_assoc|]. constructor; [|done].
    rewrite Z.gtb_ltb, (proj2 (Z.ltb_lt _ _) Ec), slice_in_range by lia. done.
  - cbn. destruct (IH (out ++ Text s)) as (r & -> & Hp). exists r. split; [done|].
    intros text Ht. destruct (Hp text Ht) as (parts & -> & HF).
    exists (Text s :: parts). split; [cbn; by rewrite app_assoc|]. constructor; [|done].
    rewrite Z.gtb_ltb, (proj2 (Z.ltb_ge _ _) Ec). done.
Qed.

(** ** Witnesses *)

Definition demoPrevious : bytes := bytes_of_string "a
b
c
d
e".
Definition demoCurrent : bytes := bytes_of_string "x
b
c
d
e".

Example build_demo :
  Build demoPrevious demoCurrent =
    Some [mkSegment 0 0 (bytes_of_string "x
"); mkSegment 1 4 []].
Proof. vm_compute. reflexivity. Qed.

Lemma build_apply_witness :
  exists segments, Build demoPrevious demoCurrent = Some segments /\
    Apply demoPrevious segments = Some (Some demoCurrent).
Proof. apply (build_apply demoPrevious demoCurrent). vm_compute. reflexivity. Defined.

Lemma apply_total_witness :
  exists r, Apply demoPrevious [mkSegment (2 ^ 63 - 1) 5 []] = Some r.
Proof.
  destruct (apply_total demoPrevious [mkSegment (2 ^ 63 - 1) 5 []]) as (r & H & _).
  - constructor; [vm_compute; repeat split; discriminate|constructor].
  - exists r. exact H.
Defined.

End PaneDelta.
