(* ===== verification/E2EE.v ===== *)
(** The end-to-end encrypted session ([internal/transport/e2ee.go]) and its
    counterpart on the phone ([frontend/src/lib/e2ee.ts]): the handshake on both
    sides, frame sealing and opening with their sequence numbers, the two frame
    codecs.

    P-256, HMAC-SHA256, HKDF-SHA256, AES-GCM and JSON are operations of the
    classes [Crypto] and [Json]; what the theorems rely on is in [CryptoLaws]
    and [JsonLaws].  A JavaScript string is its UTF-8 encoding. *)
From S2P Require Import Prelude GoLib.
#[local] Open Scope Z_scope.

Module E2EE.

(** ** Constants *)

Definition e2eeVersion : Z := 1.
Definition e2eeNonceBytes : Z := 32.
Definition e2eePublicKeyBytes : Z := 65.
Definition maxE2EESequence : Z := 2 ^ 53 - 1.
Definition e2eeClientDirection : string := "c2s".
Definition e2eeServerDirection : string := "s2c".
Definition sha256Size : Z := 32.

Inductive FrameCodec := CodecJSON | CodecBinary.

Definition binaryFrameVersion : Z := 1.
Definition binaryFrameKindData : Z := 0.
Definition binaryFrameHeaderSize : Z := 1 + 1 + 8.

(** a label and the NUL byte that ends it *)
Definition label (s : string) : bytes := bytes_of_string s ++ [0].
Definition e2eeClientProofLabel : bytes := label "herdr-e2ee-v1 client".
Definition e2eeServerProofLabel : bytes := label "herdr-e2ee-v1 server".
Definition e2eeKeySaltLabel : bytes := label "herdr-e2ee-v1 key".

(** ** Messages *)

Record e2eeClientHello := mkClientHello {
  chType : string; chVersion : Z; chNonce : string; chPublicKey : string; chProof : string }.
Record e2eeServerHello := mkServerHello {
  shType : string; shVersion : Z; shNonce : string; shPublicKey : string; shProof : string }.
Record e2eeClientFinish := mkClientFinish { cfType : string; cfVersion : Z }.
Record e2eeFrame := mkFrame {
  frType : string; frVersion : Z; frSequence : Z; frCiphertext : string }.

(** ** The libraries both sides call *)

Class Crypto := {
  private : Type;
  hmac : bytes -> bytes -> bytes;                     (* key, message *)
  hkdfKey : bytes -> bytes -> string -> bytes;        (* secret, salt, info: 32 bytes *)
  aeadSeal : bytes -> bytes -> bytes -> bytes -> bytes;        (* key, nonce, plaintext, aad *)
  aeadOpen : bytes -> bytes -> bytes -> bytes -> option bytes; (* key, nonce, ciphertext, aad *)
  publicBytes : private -> bytes;                     (* uncompressed point *)
  newPublicKey : bytes -> bool;                       (* is a point of the curve *)
  ecdh : private -> bytes -> option bytes             (* shared secret *)
}.

Class Json := {
  unmarshalHello : bytes -> option e2eeClientHello;
  marshalServerHello : e2eeServerHello -> bytes;
  unmarshalFinish : bytes -> option e2eeClientFinish;
  marshalFrame : e2eeFrame -> bytes;
  unmarshalFrame : bytes -> option e2eeFrame;
  (* on the phone: JSON.stringify and JSON.parse with asRecord *)
  stringifyHello : e2eeClientHello -> bytes;
  parseServerHello : bytes -> option e2eeServerHello;
  stringifyFinish : e2eeClientFinish -> bytes;
  stringifyFrame : e2eeFrame -> bytes;
  parseFrame : bytes -> option e2eeFrame
}.

Section Session.
Context `{Crypto} `{Json}.

(** ** Frame codecs *)

Definition encodeFrame (c : FrameCodec) (sequence : Z) (ciphertext : bytes) : bytes :=
  match c with
  | CodecBinary => binaryFrameVersion :: binaryFrameKindData :: be_encode 8 sequence ++ ciphertext
  | CodecJSON => marshalFrame (mkFrame "e2ee" e2eeVersion sequence (b64_encode_string ciphertext))
  end.

Definition decodeFrame (c : FrameCodec) (rawFrame : bytes) : result string (Z * bytes) :=
  match c with
  | CodecBinary =>
      if len rawFrame <? binaryFrameHeaderSize then Err "invalid encrypted frame" else
      match rawFrame with
      | version :: kind :: rest =>
          if negb (version =? binaryFrameVersion) || negb (kind =? binaryFrameKindData)
          then Err "unsupported encrypted frame"
          else Ok (be_decode (take 8 rest), drop 8 rest)
      | _ => Err "invalid encrypted frame"
      end
  | CodecJSON =>
      match unmarshalFrame rawFrame with
      | None => Err "invalid encrypted frame"
      | Some frame =>
          if negb (String.eqb (frType frame) "e2ee") || negb (frVersion frame =? e2eeVersion)
          then Err "unsupported encrypted frame" else
          match b64_decode_string (frCiphertext frame) with
          | None => Err "invalid encrypted frame ciphertext"
          | Some ciphertext => Ok (frSequence frame, ciphertext)
          end
      end
  end.

(** ** Nonces, additional data, tags *)

Definition e2eeFrameNonce (sequence : Z) : bytes := repeat 0 4 ++ be_encode 8 sequence.

Definition e2eeAAD (direction : string) (sequence : Z) : bytes :=
  bytes_of_string "herdr-e2ee-v1 " ++ bytes_of_string direction ++ [0] ++ be_encode 8 sequence.

Definition e2eeAuthTag (token : string) (parts : list bytes) : bytes :=
  hmac (bytes_of_string token) (concat parts).

Definition e2eeTranscript (clientNonce clientPublic serverNonce serverPublic : bytes) : bytes :=
  clientNonce ++ clientPublic ++ serverNonce ++ serverPublic.

Definition decodeE2EEField (value : string) (size : Z) : option bytes :=
  let? decoded := b64_decode_string value in
  if len decoded =? size then Some decoded else None.

(** ** Sessions *)

(** an AEAD is its key *)
Record e2eeSession := mkSession {
  send : bytes;
  receive : bytes;
  codec : FrameCodec;
  sendDirection : string;
  receiveDirection : string;
  sendSequence : Z;
  receiveSequence : Z
}.

(** AES takes keys of 16, 24 or 32 bytes *)
Definition newE2EEAEAD (key : bytes) : option bytes :=
  if (len key =? 16) || (len key =? 24) || (len key =? 32) then Some key else None.

Definition newE2EESession (sendKey receiveKey : bytes) (sendDirection receiveDirection : string)
    : result string e2eeSession :=
  match newE2EEAEAD sendKey with
  | None => Err "create send cipher"
  | Some send =>
      match newE2EEAEAD receiveKey with
      | None => Err "create receive cipher"
      | Some receive => Ok (mkSession send receive CodecJSON sendDirection receiveDirection 0 0)
      end
  end.

Definition setCodec (s : e2eeSession) (c : FrameCodec) : e2eeSession :=
  mkSession (send s) (receive s) c (sendDirection s) (receiveDirection s)
    (sendSequence s) (receiveSequence s).

Definition seal (s : e2eeSession) (plaintext : bytes) : e2eeSession * result string bytes :=
  if sendSequence s >? maxE2EESequence then (s, Err "encrypted send sequence exhausted") else
  let sequence := sendSequence s in
  let ciphertext := aeadSeal (send s) (e2eeFrameNonce sequence) plaintext
                      (e2eeAAD (sendDirection s) sequence) in
  (mkSession (send s) (receive s) (codec s) (sendDirection s) (receiveDirection s)
     (u64 (sendSequence s + 1)) (receiveSequence s),
   Ok (encodeFrame (codec s) sequence ciphertext)).

Definition open (s : e2eeSession) (rawFrame : bytes) : e2eeSession * result string bytes :=
  match decodeFrame (codec s) rawFrame with
  | Err e => (s, Err e)
  | Ok (sequence, ciphertext) =>
      if (sequence >? maxE2EESequence) || negb (sequence =? receiveSequence s)
      then (s, Err "invalid encrypted frame sequence") else
      match aeadOpen (receive s) (e2eeFrameNonce sequence) ciphertext
              (e2eeAAD (receiveDirection s) sequence) with
      | None => (s, Err "encrypted frame authentication failed")
      | Some plaintext =>
          (mkSession (send s) (receive s) (codec s) (sendDirection s) (receiveDirection s)
             (sendSequence s) (u64 (receiveSequence s + 1)), Ok plaintext)
      end
  end.

(** ** The server's handshake *)

Record parsedE2EEClientHello := mkParsed { nonce : bytes; hsPublic : bytes }.

Definition parseE2EEClientHello (rawHello : bytes) (token : string)
    : result string parsedE2EEClientHello :=
  match unmarshalHello rawHello with
  | None => Err "invalid client hello"
  | Some hello =>
      if negb (String.eqb (chType hello) "e2ee_client_hello") ||
         negb (chVersion hello =? e2eeVersion)
      then Err "unsupported client hello" else
      match decodeE2EEField (chNonce hello) e2eeNonceBytes with
      | None => Err "invalid client nonce"
      | Some clientNonce =>
          match decodeE2EEField (chPublicKey hello) e2eePublicKeyBytes with
          | None => Err "invalid client public key"
          | Some clientPublicBytes =>
              match decodeE2EEField (chProof hello) sha256Size with
              | None => Err "invalid client proof"
              | Some clientProof =>
                  let wantClientProof :=
                    e2eeAuthTag token [e2eeClientProofLabel; clientNonce; clientPublicBytes] in
                  if negb (bool_decide (clientProof = wantClientProof))
                  then Err "client proof did not authenticate" else
                  if negb (newPublicKey clientPublicBytes)
                  then Err "invalid client public key"
                  else Ok (mkParsed clientNonce clientPublicBytes)
              end
          end
      end
  end.

Definition parseE2EEClientFinish (plaintext : bytes) : result string unit :=
  if negb (utf8_valid plaintext) then Err "invalid client finish" else
  match unmarshalFinish plaintext with
  | None => Err "invalid client finish"
  | Some finish =>
      if negb (String.eqb (cfType finish) "e2ee_client_finish") ||
         negb (cfVersion finish =? e2eeVersion)
      then Err "invalid client finish" else Ok tt
  end.

(** the session and the response for a hello; the private key and the nonce are
    fresh randomness *)
Definition serverRespond (c : FrameCodec) (token : string) (serverPrivate : private)
    (serverNonce rawHello : bytes) : result string (e2eeSession * bytes) :=
  let! clientHello := parseE2EEClientHello rawHello token in
  let serverPublicBytes := publicBytes serverPrivate in
  match ecdh serverPrivate (hsPublic clientHello) with
  | None => Err "derive shared secret"
  | Some sharedSecret =>
      let transcript := e2eeTranscript (nonce clientHello) (hsPublic clientHello)
                          serverNonce serverPublicBytes in
      let serverProof := e2eeAuthTag token [e2eeServerProofLabel; transcript] in
      let keySalt := e2eeAuthTag token [e2eeKeySaltLabel; transcript] in
      let clientKey := hkdfKey sharedSecret keySalt "herdr-e2ee-v1 c2s" in
      let serverKey := hkdfKey sharedSecret keySalt "herdr-e2ee-v1 s2c" in
      let! session := newE2EESession serverKey clientKey e2eeServerDirection e2eeClientDirection in
      Ok (setCodec session c,
          marshalServerHello (mkServerHello "e2ee_server_hello" e2eeVersion
            (b64_encode_string serverNonce) (b64_encode_string serverPublicBytes)
            (b64_encode_string serverProof)))
  end.

Definition serverFinish (session : e2eeSession) (rawFinish : bytes) : result string e2eeSession :=
  match open session rawFinish with
  | (_, Err _) => Err "client finish did not authenticate"
  | (session, Ok plaintextFinish) =>
      let! _ := parseE2EEClientFinish plaintextFinish in Ok session
  end.

(** the whole handshake: [read1] and [read2] are the frames read ([None] a read
    error), [writeOk] tells whether the response could be written *)
Definition performServerE2EEHandshake (c : FrameCodec) (token : string) (serverPrivate : private)
    (serverNonce : bytes) (read1 : option bytes) (writeOk : bool) (read2 : option bytes)
    : result string e2eeSession :=
  match read1 with
  | None => Err "read client hello"
  | Some rawHello =>
      let! respond := serverRespond c token serverPrivate serverNonce rawHello in
      if negb writeOk then Err "write server hello" else
      match read2 with
      | None => Err "read client finish"
      | Some rawFinish => serverFinish respond.1 rawFinish
      end
  end.

(** ** The phone *)

Inductive wireFrame := TextFrame (b : bytes) | BinaryFrame (b : bytes).

(** what reaches the relay's [ReadFrame] *)
Definition wireBytes (w : wireFrame) : bytes :=
  match w with TextFrame b | BinaryFrame b => b end.

(** what the relay wrote, as the phone's transport hands it over *)
Definition toWire (c : FrameCodec) (b : bytes) : wireFrame :=
  match c with CodecJSON => TextFrame b | CodecBinary => BinaryFrame b end.

Record E2EESession := mkPhoneSession {
  p_sendKey : bytes;
  p_receiveKey : bytes;
  p_codec : FrameCodec;
  p_sendSequence : Z;
  p_receiveSequence : Z
}.

Definition encodeBinaryFrame (sequence : Z) (ciphertext : bytes) : bytes :=
  1 :: 0 :: be_encode 8 sequence ++ ciphertext.

(** [Number.isSafeInteger] on a non-negative integer; a [Number] above 2^53 is
    the rounded value, which is not safe either *)
Definition isSafeInteger (n : Z) : bool := (- maxE2EESequence <=? n) && (n <=? maxE2EESequence).

Definition decodeBinaryFrame (rawFrame : wireFrame) : option (Z * bytes) :=
  match rawFrame with
  | TextFrame _ => None
  | BinaryFrame raw =>
      if len raw <? 10 then None else
      match raw with
      | v :: k :: rest =>
          if negb (v =? 1) || negb (k =? 0) then None else
          let sequence := be_decode (take 8 rest) in
          if negb (isSafeInteger sequence) || (sequence <? 0) then None
          else Some (sequence, drop 8 rest)
      | _ => None
      end
  end.

(** [base64UrlDecode] accepts no line breaks *)
Definition base64UrlDecode (s : string) : option bytes :=
  let? vs := mapM b64_value (bytes_of_string s) in b64_groups vs.

Definition decodeJsonFrame (rawFrame : wireFrame) : option (Z * bytes) :=
  match rawFrame with
  | BinaryFrame _ => None
  | TextFrame raw =>
      let? frame := parseFrame raw in
      if negb (String.eqb (frType frame) "e2ee") || negb (frVersion frame =? e2eeVersion)
      then None else
      if negb (isSafeInteger (frSequence frame)) || (frSequence frame <? 0) then None else
      let? ciphertext := base64UrlDecode (frCiphertext frame) in
      Some (frSequence frame, ciphertext)
  end.

Definition encryptNext (s : E2EESession) (plaintext : bytes) : E2EESession * option wireFrame :=
  if negb (isSafeInteger (p_sendSequence s)) then (s, None) else
  let sequence := p_sendSequence s in
  let ciphertext := aeadSeal (p_sendKey s) (e2eeFrameNonce sequence) plaintext
                      (e2eeAAD "c2s" sequence) in
  (mkPhoneSession (p_sendKey s) (p_receiveKey s) (p_codec s) (sequence + 1) (p_receiveSequence s),
   Some (match p_codec s with
         | CodecBinary => BinaryFrame (encodeBinaryFrame sequence ciphertext)
         | CodecJSON => TextFrame (stringifyFrame
             (mkFrame "e2ee" e2eeVersion sequence (b64_encode_string ciphertext)))
         end)).

(** [TextDecoder('utf-8', { fatal: true })]: a byte order mark at the start is dropped *)
Definition stripBOM (l : bytes) : bytes := if bool_decide (take 3 l = [239; 187; 191]) then drop 3 l else l.
Definition textDecode (l : bytes) : option bytes := if utf8_valid l then Some (stripBOM l) else None.

(** the sequence advances before the plaintext is decoded as UTF-8 *)
Definition decryptNext (s : E2EESession) (rawFrame : wireFrame) : E2EESession * option bytes :=
  match (match p_codec s with
         | CodecBinary => decodeBinaryFrame rawFrame
         | CodecJSON => decodeJsonFrame rawFrame
         end) with
  | None => (s, None)
  | Some (sequence, ciphertext) =>
      if negb (sequence =? p_receiveSequence s) then (s, None) else
      match aeadOpen (p_receiveKey s) (e2eeFrameNonce sequence) ciphertext
              (e2eeAAD "s2c" sequence) with
      | None => (s, None)
      | Some plaintext =>
          (mkPhoneSession (p_sendKey s) (p_receiveKey s) (p_codec s) (p_sendSequence s)
             (p_receiveSequence s + 1),
           textDecode plaintext)
      end
  end.

Definition decodeSizedField (value : string) (size : Z) : option bytes :=
  let? decoded := base64UrlDecode value in
  if len decoded =? size then Some decoded else None.

Definition clientHello (token : string) (keyPair : private) (clientNonce : bytes)
    : option e2eeClientHello :=
  if slen token <? 16 then None else
  if negb (len clientNonce =? e2eeNonceBytes) then None else
  let clientPublic := publicBytes keyPair in
  let clientProof := e2eeAuthTag token [e2eeClientProofLabel; clientNonce; clientPublic] in
  Some (mkClientHello "e2ee_client_hello" e2eeVersion (b64_encode_string clientNonce)
          (b64_encode_string clientPublic) (b64_encode_string clientProof)).

Definition clientFinishMessage : e2eeClientFinish :=
  mkClientFinish "e2ee_client_finish" e2eeVersion.

(** [complete]: the session and the finish message for a server hello *)
Definition complete (c : FrameCodec) (token : string) (keyPair : private)
    (clientNonce rawServerHello : bytes) : option (E2EESession * wireFrame) :=
  let? hello := parseServerHello rawServerHello in
  if negb (String.eqb (shType hello) "e2ee_server_hello") || negb (shVersion hello =? e2eeVersion)
  then None else
  let? serverNonce := decodeSizedField (shNonce hello) e2eeNonceBytes in
  let? serverPublic := decodeSizedField (shPublicKey hello) e2eePublicKeyBytes in
  let? serverProof := decodeSizedField (shProof hello) 32 in
  let transcript := clientNonce ++ publicBytes keyPair ++ serverNonce ++ serverPublic in
  if negb (bool_decide (serverProof = e2eeAuthTag token [e2eeServerProofLabel; transcript]))
  then None else
  if negb (newPublicKey serverPublic) then None else
  let? sharedSecret := ecdh keyPair serverPublic in
  let keySalt := e2eeAuthTag token [e2eeKeySaltLabel; transcript] in
  let session := mkPhoneSession (hkdfKey sharedSecret keySalt "herdr-e2ee-v1 c2s")
                   (hkdfKey sharedSecret keySalt "herdr-e2ee-v1 s2c") c 0 0 in
  let (session, finish) := encryptNext session (stringifyFinish clientFinishMessage) in
  let? finish := finish in
  Some (session, finish).

End Session.
End E2EE.
