(* ===== verification/E2EESafety.v ===== *)
(** What the encrypted session guarantees: the phone and the relay complete the
    handshake with the same keys, everything sent over the session arrives
    unchanged and in order, an accepted frame is never accepted again, a nonce is
    never used twice with a key, and the authenticated bytes of the handshake
    determine what they authenticate. *)
From S2P Require Import Prelude GoLib E2EE.
#[local] Open Scope Z_scope.

Module E2EESafety.
Import E2EE.

#[local] Arguments b64_encode_string : simpl never.
#[local] Arguments b64_decode_string : simpl never.
#[local] Arguments base64UrlDecode : simpl never.
#[local] Arguments decodeE2EEField : simpl never.
#[local] Arguments decodeSizedField : simpl never.
#[local] Arguments e2eeAuthTag : simpl never.
#[local] Arguments maxE2EESequence : simpl never.
#[local] Arguments encryptNext : simpl never.
#[local] Arguments label : simpl never.
#[local] Arguments bytes_of_string : simpl never.

(** what is assumed of the cryptographic libraries *)
Class CryptoLaws `{Crypto} : Prop := {
  hmac_ok k m : len (hmac k m) = 32 /\ bytes_ok (hmac k m);
  hkdf_size z salt info : len (hkdfKey z salt info) = 32;
  aead_correct k n p a : aeadOpen k n (aeadSeal k n p a) a = Some p;
  aead_bytes k n p a : bytes_ok p -> bytes_ok (aeadSeal k n p a);
  public_ok k : len (publicBytes k) = 65 /\ bytes_ok (publicBytes k);
  public_valid k : newPublicKey (publicBytes k) = true;
  ecdh_agree a b : exists z, ecdh a (publicBytes b) = Some z /\ ecdh b (publicBytes a) = Some z
}.

(** the JSON messages of one side, whose fields are base64, are read back by the other *)
Class JsonLaws `{Json} : Prop := {
  hello_json n k p : bytes_ok n -> bytes_ok k -> bytes_ok p ->
    let h := mkClientHello "e2ee_client_hello" e2eeVersion (b64_encode_string n) (b64_encode_string k) (b64_encode_string p) in
    unmarshalHello (stringifyHello h) = Some h;
  serverHello_json n k p : bytes_ok n -> bytes_ok k -> bytes_ok p ->
    let h := mkServerHello "e2ee_server_hello" e2eeVersion (b64_encode_string n) (b64_encode_string k) (b64_encode_string p) in
    parseServerHello (marshalServerHello h) = Some h;
  finish_json : unmarshalFinish (stringifyFinish clientFinishMessage) = Some clientFinishMessage;
  finish_text : utf8_valid (stringifyFinish clientFinishMessage) = true /\ bytes_ok (stringifyFinish clientFinishMessage);
  frame_up seq ct : 0 <= seq <= maxE2EESequence -> bytes_ok ct ->
    let f := mkFrame "e2ee" e2eeVersion seq (b64_encode_string ct) in unmarshalFrame (stringifyFrame f) = Some f;
  frame_down seq ct : 0 <= seq <= maxE2EESequence -> bytes_ok ct ->
    let f := mkFrame "e2ee" e2eeVersion seq (b64_encode_string ct) in parseFrame (marshalFrame f) = Some f
}.

(** ** Fields and frames *)

Lemma base64Url_roundtrip l : bytes_ok l -> base64UrlDecode (b64_encode_string l) = Some l.
Proof.
  intros Hl. unfold base64UrlDecode, b64_encode_string.
  rewrite bytes_string_bytes by auto with herdr.
  rewrite b64_values_encode by done. cbn. by apply b64_groups_values.
Qed.

Lemma decodeSizedField_encode l n :
  bytes_ok l -> len l = n -> decodeSizedField (b64_encode_string l) n = Some l.
Proof.
  intros Hl Hn. unfold decodeSizedField. rewrite base64Url_roundtrip by done. cbn.
  by rewrite Hn, Z.eqb_refl.
Qed.

Lemma decodeE2EEField_encode l n :
  bytes_ok l -> len l = n -> decodeE2EEField (b64_encode_string l) n = Some l.
Proof.
  intros Hl Hn. unfold decodeE2EEField. rewrite b64_string_roundtrip by done. cbn.
  by rewrite Hn, Z.eqb_refl.
Qed.

Lemma decodeE2EEField_size v n l : decodeE2EEField v n = Some l -> len l = n.
Proof.
  unfold decodeE2EEField. destruct (b64_decode_string v); cbn; [|done].
  intros Hx. case_if_in Hx; [|done]. zb. by simplify_eq.
Qed.

Lemma be8_take seq (ct : bytes) : take 8 (be_encode 8 seq ++ ct) = be_encode 8 seq.
Proof. apply take_app_length'. by rewrite length_be_encode. Qed.
Lemma be8_drop seq (ct : bytes) : drop 8 (be_encode 8 seq ++ ct) = ct.
Proof. apply drop_app_length'. by rewrite length_be_encode. Qed.
Lemma be8_decode seq : 0 <= seq < 2 ^ 64 -> be_decode (be_encode 8 seq) = seq.
Proof. intros. by apply be_decode_encode_small. Qed.

Lemma isSafeInteger_true n : isSafeInteger n = true <-> - maxE2EESequence <= n <= maxE2EESequence.
Proof. unfold isSafeInteger. rewrite andb_true_iff, !Z.leb_le. done. Qed.

Lemma u64_next n : 0 <= n <= maxE2EESequence -> u64 (n + 1) = n + 1.
Proof. unfold u64, maxE2EESequence. intros. apply Z.mod_small. lia. Qed.

Section Codecs.
Context `{Json}.

(** The binary frame codec is exact: a byte string decodes to a sequence
    number and a ciphertext exactly when it is their encoding, so no two frames
    have the same bytes and every accepted frame is canonical. *)
Theorem binary_codec_exact raw seq ct :
  bytes_ok raw ->
  decodeFrame CodecBinary raw = Ok (seq, ct) <->
  raw = encodeFrame CodecBinary seq ct /\ 0 <= seq < 2 ^ 64.
Proof.
  intros Hok. unfold decodeFrame, encodeFrame, binaryFrameHeaderSize. split.
  - destruct (len raw <? _) eqn:El; [done|]. zb. destruct raw as [|v [|k rest]]; try done.
    intros Hd. case_if_in Hd; [done|]. zb. simplify_eq.
    cbn [length] in El. apply Forall_cons in Hok as [_ [_ Hok]%Forall_cons].
    pose proof (Forall_take _ 8 _ Hok) as Ht.
    assert (Hl : length (take 8 rest) = 8%nat) by (rewrite length_take; lia).
    pose proof (be_decode_bound _ Ht) as Hb. rewrite Hl in Hb. split; [|exact Hb].
    pose proof (be_encode_decode _ Ht) as He. rewrite Hl in He. rewrite He.
    by rewrite take_drop.
  - intros [-> Hs]. cbn [length]. rewrite length_app, length_be_encode.
    rewrite (proj2 (Z.ltb_ge _ _)) by lia. cbn [orb negb Z.eqb].
    by rewrite be8_take, be8_drop, be8_decode.
Qed.

End Codecs.

Section Laws.
Context `{CryptoLaws} `{JsonLaws}.

(** ** Mirrored sessions *)

(** the relay's session and the phone's: the same keys crosswise, and each side
    expects the number the other sends next *)
Record mirrored (srv : e2eeSession) (ph : E2EESession) : Prop := mkMirrored {
  mi_down : send srv = p_receiveKey ph;
  mi_up : receive srv = p_sendKey ph;
  mi_codec : codec srv = p_codec ph;
  mi_sdir : sendDirection srv = e2eeServerDirection;
  mi_rdir : receiveDirection srv = e2eeClientDirection;
  mi_sseq : sendSequence srv = p_receiveSequence ph;
  mi_rseq : receiveSequence srv = p_sendSequence ph;
  mi_range : 0 <= sendSequence srv <= maxE2EESequence + 1 /\
             0 <= receiveSequence srv <= maxE2EESequence + 1
}.

Lemma safe_seq n : 0 <= n <= maxE2EESequence -> isSafeInteger n = true /\ (n <? 0) = false.
Proof. intros. split; [apply isSafeInteger_true; unfold maxE2EESequence in *; lia|apply Z.ltb_ge; lia]. Qed.

Lemma up_frame_decodes c seq ct :
  0 <= seq <= maxE2EESequence -> bytes_ok ct ->
  decodeFrame c (match c with
    | CodecBinary => encodeBinaryFrame seq ct
    | CodecJSON => stringifyFrame (mkFrame "e2ee" e2eeVersion seq (b64_encode_string ct)) end)
  = Ok (seq, ct).
Proof.
  intros Hs Hct. destruct c; unfold decodeFrame.
  - rewrite frame_up by done. cbn. by rewrite b64_string_roundtrip.
  - unfold encodeBinaryFrame, binaryFrameHeaderSize. cbn [length].
    rewrite length_app, length_be_encode, (proj2 (Z.ltb_ge _ _)) by lia. cbn [orb negb Z.eqb].
    rewrite be8_take, be8_drop, be8_decode; [done|unfold maxE2EESequence in *; lia].
Qed.

Lemma down_frame_decodes c seq ct :
  0 <= seq <= maxE2EESequence -> bytes_ok ct ->
  match c with
  | CodecBinary => decodeBinaryFrame (toWire c (encodeFrame c seq ct))
  | CodecJSON => decodeJsonFrame (toWire c (encodeFrame c seq ct))
  end = Some (seq, ct).
Proof.
  intros Hs Hct. destruct (safe_seq seq Hs) as [Hsafe Hneg]. destruct c; cbn [toWire encodeFrame].
  - unfold decodeJsonFrame. rewrite frame_down by done. cbn. rewrite Hsafe, Hneg. cbn.
    by rewrite base64Url_roundtrip.
  - unfold decodeBinaryFrame. cbn [length].
    rewrite length_app, length_be_encode, (proj2 (Z.ltb_ge _ _)) by lia. cbn [orb negb Z.eqb].
    rewrite be8_take, be8_drop, be8_decode by (unfold maxE2EESequence in *; lia).
    by rewrite Hsafe, Hneg.
Qed.

Lemma up_step srv ph p :
  mirrored srv ph -> bytes_ok p -> p_sendSequence ph <= maxE2EESequence ->
  exists ph' w srv', encryptNext ph p = (ph', Some w) /\ open srv (wireBytes w) = (srv', Ok p) /\
    mirrored srv' ph' /\ p_sendSequence ph' = p_sendSequence ph + 1 /\
    sendSequence srv' = sendSequence srv.
Proof.
  intros [M1 M2 M3 M4 M5 M6 M7 [M8 M9]] Hp Hs. rewrite M7 in M9.
  destruct (safe_seq (p_sendSequence ph) ltac:(lia)) as [Hsafe _].
  unfold encryptNext. rewrite Hsafe. cbn [negb]. do 3 eexists. split; [done|].
  set (ct := aeadSeal _ _ _ _). unfold open. rewrite M3.
  replace (wireBytes _) with (match p_codec ph with
    | CodecBinary => encodeBinaryFrame (p_sendSequence ph) ct
    | CodecJSON => stringifyFrame (mkFrame "e2ee" e2eeVersion (p_sendSequence ph) (b64_encode_string ct)) end)
    by (by destruct (p_codec ph)).
  rewrite up_frame_decodes by (lia || by apply aead_bytes).
  rewrite M7, Z.eqb_refl, Z.gtb_ltb, (proj2 (Z.ltb_ge _ _)) by lia. cbn [orb negb].
  rewrite M2, M5. unfold ct, e2eeClientDirection. rewrite aead_correct, u64_next by lia.
  split; [done|]. split_and!; try done. split; cbn; try done; lia.
Qed.

Lemma down_step srv ph p :
  mirrored srv ph -> bytes_ok p -> utf8_valid p = true -> sendSequence srv <= maxE2EESequence ->
  exists srv' raw ph', seal srv p = (srv', Ok raw) /\
    decryptNext ph (toWire (p_codec ph) raw) = (ph', Some (stripBOM p)) /\
    mirrored srv' ph' /\ sendSequence srv' = sendSequence srv + 1 /\
    p_sendSequence ph' = p_sendSequence ph.
Proof.
  intros [M1 M2 M3 M4 M5 M6 M7 [M8 M9]] Hp Hu Hs.
  unfold seal. rewrite Z.gtb_ltb, (proj2 (Z.ltb_ge _ _)) by lia. do 3 eexists. split; [done|].
  set (ct := aeadSeal _ _ _ _). unfold decryptNext. rewrite M3.
  rewrite down_frame_decodes by (lia || by apply aead_bytes).
  rewrite M6, Z.eqb_refl. cbn [negb]. rewrite <- M1. unfold ct. rewrite M4, M6.
  unfold e2eeServerDirection, textDecode. rewrite aead_correct, Hu, u64_next by lia.
  split; [done|]. split_and!; try done. split; cbn; try done; lia.
Qed.

(** ** The handshake *)

(** C7: the handshake succeeds between a phone and a relay that hold the same
    token, whatever their ephemeral keys and nonces and whichever codec the
    transport uses: the relay accepts the phone's hello, the phone accepts the
    answer, the relay accepts the finish, and both end with the same keys
    crosswise and matching sequence numbers. *)
Theorem handshake_agreement c token kc ks nc ns :
  16 <= slen token -> len nc = e2eeNonceBytes -> bytes_ok nc ->
  len ns = e2eeNonceBytes -> bytes_ok ns ->
  exists hello session raw ph finish srv,
    clientHello token kc nc = Some hello /\
    serverRespond c token ks ns (stringifyHello hello) = Ok (session, raw) /\
    complete c token kc nc raw = Some (ph, finish) /\
    performServerE2EEHandshake c token ks ns (Some (stringifyHello hello)) true
      (Some (wireBytes finish)) = Ok srv /\
    mirrored srv ph /\ sendSequence srv = 0 /\ receiveSequence srv = 1.
Proof.
  intros Ht Hnc Hncb Hns Hnsb. destruct (public_ok kc) as [Lc Bc], (public_ok ks) as [Ls Bs].
  destruct (ecdh_agree ks kc) as (z & Ez1 & Ez2).
  set (tr := e2eeTranscript nc (publicBytes kc) ns (publicBytes ks)).
  set (salt := e2eeAuthTag token [e2eeKeySaltLabel; tr]).
  set (hello := mkClientHello "e2ee_client_hello" e2eeVersion (b64_encode_string nc)
    (b64_encode_string (publicBytes kc))
    (b64_encode_string (e2eeAuthTag token [e2eeClientProofLabel; nc; publicBytes kc]))).
  set (srv0 := mkSession (hkdfKey z salt "herdr-e2ee-v1 s2c") (hkdfKey z salt "herdr-e2ee-v1 c2s")
    c e2eeServerDirection e2eeClientDirection 0 0).
  set (ph0 := mkPhoneSession (hkdfKey z salt "herdr-e2ee-v1 c2s")
    (hkdfKey z salt "herdr-e2ee-v1 s2c") c 0 0).
  set (raw := marshalServerHello (mkServerHello "e2ee_server_hello" e2eeVersion
    (b64_encode_string ns) (b64_encode_string (publicBytes ks))
    (b64_encode_string (e2eeAuthTag token [e2eeServerProofLabel; tr])))).
  assert (Hhello : clientHello token kc nc = Some hello).
  { unfold clientHello. rewrite (proj2 (Z.ltb_ge _ _) Ht), Hnc. done. }
  assert (Hparse : parseE2EEClientHello (stringifyHello hello) token = Ok (mkParsed nc (publicBytes kc))).
  { unfold parseE2EEClientHello. unfold hello. rewrite hello_json by (done || apply hmac_ok). cbn.
    rewrite !decodeE2EEField_encode by (done || apply hmac_ok).
    rewrite bool_decide_true, public_valid by done. done. }
  assert (Hkey : forall info, newE2EEAEAD (hkdfKey z salt info) = Some (hkdfKey z salt info)).
  { intros info. unfold newE2EEAEAD. by rewrite hkdf_size. }
  assert (Hresp : serverRespond c token ks ns (stringifyHello hello) = Ok (srv0, raw)).
  { unfold serverRespond. rewrite Hparse. cbn. rewrite Ez1. fold tr. fold salt.
    unfold newE2EESession. rewrite !Hkey. done. }
  assert (Hm0 : mirrored srv0 ph0).
  { split; try done; cbn; unfold maxE2EESequence; lia. }
  destruct finish_text as [Hfu Hfb].
  destruct (up_step srv0 ph0 (stringifyFinish clientFinishMessage) Hm0 Hfb) as
    (ph & w & srv & Henc & Hopen & Hm & Hps & Hss); [cbn; unfold maxE2EESequence; lia|].
  exists hello, srv0, raw, ph, w, srv. split_and!; try done.
  - unfold complete, raw. rewrite serverHello_json by (done || apply hmac_ok). cbn.
    rewrite !decodeSizedField_encode by (done || apply hmac_ok). cbn.
    unfold tr, e2eeTranscript. rewrite bool_decide_true, public_valid, Ez2 by done. cbn.
    fold (e2eeTranscript nc (publicBytes kc) ns (publicBytes ks)). fold tr. fold salt. fold ph0.
    by rewrite Henc.
  - unfold performServerE2EEHandshake. rewrite Hresp. cbn. unfold serverFinish. rewrite Hopen.
    unfold parseE2EEClientFinish. rewrite Hfu, finish_json. done.
  - rewrite (mi_rseq _ _ Hm), Hps. done.
Qed.

(** ** Conversations *)

Inductive message := Up (p : bytes) | Down (p : bytes).

Definition message_ok (m : message) : Prop :=
  match m with Up p | Down p => bytes_ok p /\ utf8_valid p = true end.

(** send every message from its side and open it on the other: what is opened *)
Fixpoint exchange (srv : e2eeSession) (ph : E2EESession) (msgs : list message)
    : option (list message) :=
  match msgs with
  | [] => Some []
  | Up p :: msgs =>
      match encryptNext ph p with
      | (ph, Some w) =>
          match open srv (wireBytes w) with
          | (srv, Ok q) => let? rest := exchange srv ph msgs in Some (Up q :: rest)
          | _ => None
          end
      | _ => None
      end
  | Down p :: msgs =>
      match seal srv p with
      | (srv, Ok raw) =>
          match decryptNext ph (toWire (p_codec ph) raw) with
          | (ph, Some q) => let? rest := exchange srv ph msgs in Some (Down q :: rest)
          | _ => None
          end
      | _ => None
      end
  end.

(** what the other side gets: the phone drops a byte order mark at the start of a text *)
Definition heard (m : message) : message := match m with Up p => Up p | Down p => Down (stripBOM p) end.

(** the messages of each direction *)
Fixpoint ups (msgs : list message) : Z := match msgs with [] => 0 | Up _ :: l => 1 + ups l | Down _ :: l => ups l end.
Fixpoint downs (msgs : list message) : Z := match msgs with [] => 0 | Up _ :: l => downs l | Down _ :: l => 1 + downs l end.

Lemma counts_nonneg msgs : 0 <= ups msgs /\ 0 <= downs msgs.
Proof. induction msgs as [|[] msgs IH]; cbn; lia. Qed.

(** C10: over mirrored sessions every conversation arrives exactly: whatever the
    interleaving of the two directions, each message is sealed, accepted by the
    other side and opened to the text that was sent, except that the phone drops
    a byte order mark at its start, as long as each direction carries no more
    than 2^53 frames. *)
Theorem conversation_exact srv ph msgs :
  mirrored srv ph -> Forall message_ok msgs ->
  sendSequence srv + downs msgs <= maxE2EESequence + 1 ->
  p_sendSequence ph + ups msgs <= maxE2EESequence + 1 ->
  exchange srv ph msgs = Some (heard <$> msgs).
Proof.
  intros Hm Hok. revert srv ph Hm. induction Hok as [|[p|p] msgs [Hb Hu] Hok IH]; intros srv ph Hm Hs Hp;
    cbn [exchange fmap list_fmap heard ups downs] in *; [done|..]; pose proof (counts_nonneg msgs).
  - destruct (up_step srv ph p Hm Hb ltac:(lia)) as (ph' & w & srv' & -> & -> & Hm' & Hps & Hss).
    rewrite IH by (done || lia). done.
  - destruct (down_step srv ph p Hm Hb Hu ltac:(lia)) as (srv' & raw & ph' & -> & -> & Hm' & Hss & Hps).
    rewrite IH by (done || lia). done.
Qed.

End Laws.

(** ** Replays and nonces *)

Section Runs.
Context `{Crypto} `{Json}.

(** the operations on a session, in any order and with any arguments *)
Inductive sessionStep : e2eeSession -> e2eeSession -> Prop :=
| step_seal s p : sessionStep s (seal s p).1
| step_open s raw : sessionStep s (open s raw).1.

Definition inRange (s : e2eeSession) : Prop :=
  0 <= sendSequence s <= maxE2EESequence + 1 /\ 0 <= receiveSequence s <= maxE2EESequence + 1.

Lemma open_ok s raw s' p :
  open s raw = (s', Ok p) ->
  exists ct, decodeFrame (codec s) raw = Ok (receiveSequence s, ct) /\
    receiveSequence s <= maxE2EESequence /\ receiveSequence s' = u64 (receiveSequence s + 1).
Proof.
  unfold open. intros Hopen. destruct (decodeFrame (codec s) raw) as [[seq ct]|] eqn:E; [|done].
  case_if_in Hopen; [done|]. destruct (aeadOpen _ _ _ _); [|done]. zb. simplify_eq. by exists ct.
Qed.

Lemma sessionStep_mono s s' :
  inRange s -> sessionStep s s' ->
  inRange s' /\ codec s' = codec s /\ sendSequence s <= sendSequence s' /\
  receiveSequence s <= receiveSequence s'.
Proof.
  intros Hin Hstep. revert Hin. destruct Hstep as [t p|t raw]; intros [Hs Hr].
  - unfold seal. case_if; [cbn; split; [by split|]; split_and!; (done || lia)|]. zb. cbn. unfold inRange. cbn. rewrite u64_next by lia.
    split_and!; try done; lia.
  - destruct (open t raw) as [t' [p|e]] eqn:E; cbn.
    + pose proof (open_ok _ _ _ _ E) as (ct & _ & Hle & Hn). rewrite u64_next in Hn by lia.
      assert (sendSequence t' = sendSequence t /\ codec t' = codec t) as [E1 E2].
      { unfold open in E. destruct (decodeFrame _ _) as [[]|]; [|done]. case_if_in E; [done|].
        destruct (aeadOpen _ _ _ _); by simplify_eq. }
      unfold inRange. rewrite E1, Hn. split_and!; (done || lia).
    + assert (t' = t) as ->; [|split; [by split|]; split_and!; (done || lia)].
      unfold open in E. destruct (decodeFrame _ _) as [[]|]; [|by simplify_eq].
      case_if_in E; [by simplify_eq|]. destruct (aeadOpen _ _ _ _); by simplify_eq.
Qed.

Lemma sessionSteps_mono s s' :
  inRange s -> rtc sessionStep s s' ->
  inRange s' /\ codec s' = codec s /\ sendSequence s <= sendSequence s' /\
  receiveSequence s <= receiveSequence s'.
Proof.
  intros Hr Hs. revert Hr. induction Hs as [|x y z Hxy _ IH]; intros Hr; [done|].
  destruct (sessionStep_mono x y Hr Hxy) as (H1 & H2 & H3 & H4).
  destruct (IH H1) as (? & -> & ? & ?). split_and!; (done || lia).
Qed.

(** C13: a frame is accepted at most once: after a session opened a raw frame, no
    sequence of sends and receives, valid or forged, makes it accept the same
    bytes again; a rejected frame leaves the session unchanged. *)
Theorem no_replay s raw s1 p s2 :
  inRange s -> open s raw = (s1, Ok p) -> rtc sessionStep s1 s2 ->
  (exists e, open s2 raw = (s2, Err e)) /\
  (forall other e t, open s2 other = (t, Err e) -> t = s2).
Proof.
  intros Hr Ho Hs.
  destruct (open_ok _ _ _ _ Ho) as (ct & Hd & Hle & Hn). destruct Hr as [Hr1 Hr2].
  pose proof (sessionStep_mono s s1) as Hst. pose proof (step_open s raw) as Hstep.
  rewrite Ho in Hstep. destruct (Hst (conj Hr1 Hr2) Hstep) as (Hin & Hc & _ & _).
  destruct (sessionSteps_mono s1 s2 Hin Hs) as (_ & Hc2 & _ & Hge).
  rewrite u64_next in Hn by lia. split.
  - unfold open. rewrite Hc2, Hc, Hd.
    rewrite (proj2 (Z.eqb_neq (receiveSequence s) (receiveSequence s2))) by lia.
    rewrite orb_true_r. by eexists.
  - intros other e t. unfold open. destruct (decodeFrame _ other) as [[]|]; [|by intros [=]].
    case_if; [by intros [=]|]. destruct (aeadOpen _ _ _ _); by intros [=].
Qed.


(** ** What the proofs of the handshake authenticate *)

Lemma app4_inj (a1 a2 b1 b2 c1 c2 d1 d2 : bytes) :
  length a1 = length a2 -> length b1 = length b2 -> length c1 = length c2 ->
  a1 ++ b1 ++ c1 ++ d1 = a2 ++ b2 ++ c2 ++ d2 -> a1 = a2 /\ b1 = b2 /\ c1 = c2 /\ d1 = d2.
Proof.
  intros Ha Hb Hc Heq. apply app_inj_1 in Heq as [-> Heq]; [|done].
  apply app_inj_1 in Heq as [-> Heq]; [|done]. by apply app_inj_1 in Heq as [-> ->].
Qed.

(** The authenticated bytes of the handshake are unambiguous: a transcript of
    fields of the protocol's sizes determines the two nonces and the two public
    keys, and the inputs of the client proof, the server proof and the key salt
    are never the same, so no tag can be passed off as another. *)
Theorem mac_inputs_separate nc1 pc1 ns1 ps1 nc2 pc2 ns2 ps2 :
  len nc1 = e2eeNonceBytes -> len nc2 = e2eeNonceBytes ->
  len pc1 = e2eePublicKeyBytes -> len pc2 = e2eePublicKeyBytes ->
  len ns1 = e2eeNonceBytes -> len ns2 = e2eeNonceBytes ->
  (e2eeTranscript nc1 pc1 ns1 ps1 = e2eeTranscript nc2 pc2 ns2 ps2 ->
     nc1 = nc2 /\ pc1 = pc2 /\ ns1 = ns2 /\ ps1 = ps2) /\
  (forall x y, e2eeClientProofLabel ++ x <> e2eeServerProofLabel ++ y) /\
  (forall x y, e2eeClientProofLabel ++ x <> e2eeKeySaltLabel ++ y) /\
  (forall x y, e2eeServerProofLabel ++ x <> e2eeKeySaltLabel ++ y).
Proof.
  intros H1 H2 H3 H4 H5 H6. split_and!.
  - apply app4_inj; lia.
  - intros x y He. apply (f_equal (fun l => l !! 14%nat)) in He. by vm_compute in He.
  - intros x y He. apply (f_equal (fun l => l !! 14%nat)) in He. by vm_compute in He.
  - intros x y He. apply (f_equal (fun l => l !! 14%nat)) in He. by vm_compute in He.
Qed.

Lemma newE2EESession_ok k1 k2 d1 d2 s :
  newE2EESession k1 k2 d1 d2 = Ok s -> s = mkSession k1 k2 CodecJSON d1 d2 0 0.
Proof. unfold newE2EESession, newE2EEAEAD. intros Hs. do 2 (case_if_in Hs; [|done]). by simplify_eq. Qed.

(** The relay accepts a hello only with a proof of the token over exactly the
    nonce and the public key it goes on to use, both of the protocol's size, and
    a completed handshake means the finish was sealed under the agreed key with
    sequence number 0. *)
Theorem handshake_authenticates c token ks ns read1 writeOk read2 s :
  performServerE2EEHandshake c token ks ns read1 writeOk read2 = Ok s ->
  exists rawHello hello nc pc z ct finish,
    read1 = Some rawHello /\ unmarshalHello rawHello = Some hello /\
    len nc = e2eeNonceBytes /\ len pc = e2eePublicKeyBytes /\
    decodeE2EEField (chProof hello) sha256Size =
      Some (hmac (bytes_of_string token) (e2eeClientProofLabel ++ nc ++ pc)) /\
    ecdh ks pc = Some z /\
    aeadOpen (receive s) (e2eeFrameNonce 0) ct (e2eeAAD e2eeClientDirection 0) = Some finish /\
    receive s = hkdfKey z (e2eeAuthTag token [e2eeKeySaltLabel;
      e2eeTranscript nc pc ns (publicBytes ks)]) "herdr-e2ee-v1 c2s" /\
    parseE2EEClientFinish finish = Ok tt /\ receiveSequence s = 1 /\ sendSequence s = 0.
Proof.
  unfold performServerE2EEHandshake, serverRespond. intros Hp.
  destruct read1 as [rawHello|]; [|done].
  destruct (parseE2EEClientHello rawHello token) as [[nc pc]|] eqn:Eh; cbn in Hp; [|done].
  destruct (ecdh ks pc) as [z|] eqn:Ez; cbn in Hp; [|done].
  destruct (newE2EESession _ _ _ _) as [s0|] eqn:Es; cbn in Hp; [|done].
  apply newE2EESession_ok in Es as ->.
  destruct writeOk; cbn in Hp; [|done]. destruct read2 as [rawFinish|]; [|done].
  unfold serverFinish in Hp. destruct (open _ rawFinish) as [s' [fin|]] eqn:Eo; [|done].
  destruct (parseE2EEClientFinish fin) as [[]|] eqn:Ef; cbn in Hp; [|done]. simplify_eq.
  unfold parseE2EEClientHello in Eh. destruct (unmarshalHello rawHello) as [hello|] eqn:Eu; [|done].
  case_if_in Eh; [done|].
  destruct (decodeE2EEField (chNonce hello) _) as [nc'|] eqn:En; [|done].
  destruct (decodeE2EEField (chPublicKey hello) _) as [pc'|] eqn:Ep; [|done].
  destruct (decodeE2EEField (chProof hello) _) as [pr|] eqn:Er; [|done].
  case_if_in Eh; [done|]. case_if_in Eh; [done|]. zb. simplify_eq.
  unfold open in Eo. cbn [codec] in Eo. destruct (decodeFrame _ rawFinish) as [[seq ct]|] eqn:Ed; [|done].
  cbn [receiveSequence] in Eo. case_if_in Eo; [done|]. zb. subst seq.
  cbn [receive receiveDirection sendSequence sendDirection send codec receiveSequence setCodec] in Eo.
  destruct (aeadOpen _ _ _ _) as [pt|] eqn:Ea; [|done]. simplify_eq.
  exists rawHello, hello, nc, pc, z, ct, fin.
  split_and!; try done; eauto using decodeE2EEField_size.
  rewrite Er. unfold e2eeAuthTag. cbn. by rewrite app_nil_r.
Qed.

End Runs.

(** ** A toy instance: the assumptions can hold together *)

Definition toyMac (k m : bytes) : bytes := repeat (foldr Z.add 0 (k ++ m) mod 256) 32.

Definition toyOpen (k n ct a : bytes) : option bytes :=
  let p := take (length ct - 32) ct in
  if bool_decide (drop (length ct - 32) ct = toyMac k (n ++ p ++ a)) then Some p else None.

#[local] Instance toyCrypto : Crypto := {|
  private := Z;
  hmac := toyMac;
  hkdfKey z salt info := toyMac z (salt ++ bytes_of_string info);
  aeadSeal k n p a := p ++ toyMac k (n ++ p ++ a);
  aeadOpen := toyOpen;
  publicBytes k := 4 :: repeat (k mod 256) 64;
  newPublicKey b := len b =? 65;
  ecdh k b := let? x := b !! 1%nat in Some [(k * x) mod 256]
|}.

(** one number stands for the text of a message *)
Definition toyHello (h : string * Z * string * string * string) : e2eeClientHello :=
  let '(a, b, c, d, e) := h in mkClientHello a b c d e.
Definition toyServer (h : string * Z * string * string * string) : e2eeServerHello :=
  let '(a, b, c, d, e) := h in mkServerHello a b c d e.
Definition toyFrame (h : string * Z * Z * string) : e2eeFrame :=
  let '(a, b, c, d) := h in mkFrame a b c d.
Definition toyText {A} `{Countable A} (x : A) : bytes := [Zpos (encode x)].
Definition toyRead {A} `{Countable A} (b : bytes) : option A :=
  match b with [Zpos p] => decode p | _ => None end.

Lemma toyRead_text {A} `{Countable A} (x : A) : toyRead (toyText x) = Some x.
Proof. apply decode_encode. Qed.

#[local] Instance toyJson : Json := {|
  unmarshalHello b := toyHello <$> toyRead b;
  stringifyHello h := toyText (chType h, chVersion h, chNonce h, chPublicKey h, chProof h);
  marshalServerHello h := toyText (shType h, shVersion h, shNonce h, shPublicKey h, shProof h);
  parseServerHello b := toyServer <$> toyRead b;
  stringifyFinish f := bytes_of_string "{}" ;
  unmarshalFinish b := Some clientFinishMessage;
  marshalFrame f := toyText (frType f, frVersion f, frSequence f, frCiphertext f);
  stringifyFrame f := toyText (frType f, frVersion f, frSequence f, frCiphertext f);
  unmarshalFrame b := toyFrame <$> toyRead b;
  parseFrame b := toyFrame <$> toyRead b
|}.

Lemma toyMac_ok k m : len (toyMac k m) = 32 /\ bytes_ok (toyMac k m).
Proof.
  unfold toyMac. rewrite repeat_length. split; [done|]. apply Forall_forall. intros x Hx.
  apply list_elem_of_In, repeat_spec in Hx as ->. apply Z.mod_pos_bound. lia.
Qed.

Lemma length_toyMac k m : length (toyMac k m) = 32%nat.
Proof. apply repeat_length. Qed.

#[local] Instance toyCryptoLaws : CryptoLaws.
Proof.
  split; intros; cbn -[toyMac toyOpen repeat].
  - apply toyMac_ok.
  - apply toyMac_ok.
  - unfold toyOpen. rewrite length_app, length_toyMac.
    replace (length p + 32 - 32)%nat with (length p) by lia.
    rewrite take_app_length, drop_app_length, bool_decide_true by done. done.
  - apply Forall_app. split; [done|]. apply toyMac_ok.
  - split; [by rewrite repeat_length|]. constructor; [unfold is_byte; lia|].
    apply Forall_forall. intros x Hx. apply list_elem_of_In, repeat_spec in Hx as ->.
    apply Z.mod_pos_bound. lia.
  - done.
  - eexists. split; [done|]. cbn. by rewrite !Zmult_mod_idemp_r, Z.mul_comm.
Qed.

#[local] Instance toyJsonLaws : JsonLaws.
Proof.
  split; intros; cbn -[bytes_of_string toyRead toyText b64_encode_string e2eeVersion]; try (by rewrite toyRead_text); try done.
  split; [done|]. apply bytes_of_string_ok.
Qed.

Definition toyKey (z : Z) : @private toyCrypto := z.
Definition demoToken : string := "0123456789abcdef".
Definition demoNonce (b : Z) : bytes := repeat b 32.
Definition demoServer : e2eeSession :=
  mkSession (repeat 1 32) (repeat 2 32) CodecBinary e2eeServerDirection e2eeClientDirection 0 0.
Definition demoPhone : E2EESession := mkPhoneSession (repeat 2 32) (repeat 1 32) CodecBinary 0 0.

Lemma demoNonce_ok b : is_byte b -> bytes_ok (demoNonce b).
Proof.
  intros Hb. apply Forall_forall. intros x Hx. by apply list_elem_of_In, repeat_spec in Hx as ->.
Qed.

Lemma demo_mirrored : mirrored demoServer demoPhone.
Proof. by split. Qed.

Lemma demo_inRange : inRange demoServer.
Proof. vm_compute. repeat split; discriminate. Qed.

Lemma binary_codec_exact_witness :
  decodeFrame CodecBinary [1; 0; 0; 0; 0; 0; 0; 0; 1; 2; 9] = Ok (258, [9]) <->
  [1; 0; 0; 0; 0; 0; 0; 0; 1; 2; 9] = encodeFrame CodecBinary 258 [9] /\ 0 <= 258 < 2 ^ 64.
Proof.
  apply (binary_codec_exact [1; 0; 0; 0; 0; 0; 0; 0; 1; 2; 9] 258 [9]).
  repeat constructor; vm_compute; congruence.
Defined.

Lemma handshake_agreement_witness :
  exists hello session raw ph finish srv,
    clientHello demoToken (toyKey 7) (demoNonce 1) = Some hello /\
    serverRespond CodecJSON demoToken (toyKey 9) (demoNonce 2) (stringifyHello hello) = Ok (session, raw) /\
    complete CodecJSON demoToken (toyKey 7) (demoNonce 1) raw = Some (ph, finish) /\
    performServerE2EEHandshake CodecJSON demoToken (toyKey 9) (demoNonce 2) (Some (stringifyHello hello))
      true (Some (wireBytes finish)) = Ok srv /\
    mirrored srv ph /\ sendSequence srv = 0 /\ receiveSequence srv = 1.
Proof.
  apply (handshake_agreement CodecJSON demoToken (toyKey 7) (toyKey 9)
           (demoNonce 1) (demoNonce 2));
    try (apply demoNonce_ok; unfold is_byte; lia); vm_compute; try reflexivity; discriminate.
Defined.

Definition demoMessages : list message :=
  [Up (bytes_of_string "hi"); Down (bytes_of_string "ok"); Up (bytes_of_string "")].

Lemma conversation_exact_witness :
  exchange demoServer demoPhone demoMessages = Some (heard <$> demoMessages) /\ heard <$> demoMessages = demoMessages.
Proof.
  split; [|done].
  apply (conversation_exact demoServer demoPhone demoMessages demo_mirrored).
  - do 3 (constructor; [split; [apply bytes_of_string_ok|vm_compute; reflexivity]|]). constructor.
  - vm_compute. discriminate.
  - vm_compute. discriminate.
Defined.

Definition demoRaw : bytes :=
  match encryptNext demoPhone [104; 105] with (_, Some w) => wireBytes w | _ => [] end.

Lemma no_replay_witness : exists e, open (open demoServer demoRaw).1 demoRaw = ((open demoServer demoRaw).1, Err e).
Proof.
  refine (proj1 (no_replay demoServer demoRaw (open demoServer demoRaw).1 [104; 105]
    (open demoServer demoRaw).1 demo_inRange _ (rtc_refl _ _))).
  vm_compute. reflexivity.
Defined.

Definition demoServer1 : e2eeSession := (seal demoServer [1]).1.


Lemma mac_inputs_separate_witness :
  e2eeClientProofLabel ++ demoNonce 1 <> e2eeServerProofLabel ++ demoNonce 2.
Proof.
  refine (proj1 (proj2 (mac_inputs_separate (demoNonce 1) (repeat 4 65) (demoNonce 2) []
    (demoNonce 1) (repeat 4 65) (demoNonce 2) [] _ _ _ _ _ _)) (demoNonce 1) (demoNonce 2)); reflexivity.
Defined.

Definition demoHandshake : result string e2eeSession :=
  match clientHello demoToken (toyKey 7) (demoNonce 1) with
  | Some hello =>
      match serverRespond CodecBinary demoToken (toyKey 9) (demoNonce 2) (stringifyHello hello) with
      | Ok (_, raw) =>
          match complete CodecBinary demoToken (toyKey 7) (demoNonce 1) raw with
          | Some (_, finish) =>
              performServerE2EEHandshake CodecBinary demoToken (toyKey 9) (demoNonce 2)
                (Some (stringifyHello hello)) true (Some (wireBytes finish))
          | None => Err ""
          end
      | Err e => Err e
      end
  | None => Err ""
  end.

Lemma handshake_authenticates_witness :
  exists s, demoHandshake = Ok s /\ receiveSequence s = 1.
Proof.
  assert (Hd : is_ok demoHandshake = true) by (vm_compute; reflexivity).
  destruct demoHandshake as [s|] eqn:Es; [|discriminate Hd]. exists s. split; [reflexivity|].
  unfold demoHandshake in Es.
  destruct (clientHello _ _ _) as [hello|]; [|discriminate Es].
  destruct (serverRespond _ _ _ _ _) as [[s0 raw]|]; [|discriminate Es].
  destruct (complete _ _ _ _ _) as [[ph finish]|]; [|discriminate Es].
  destruct (handshake_authenticates CodecBinary demoToken (toyKey 9) (demoNonce 2) _ true _ s Es)
    as (? & ? & ? & ? & ? & ? & ? & _ & _ & _ & _ & _ & _ & _ & _ & _ & Hr & _).
  exact Hr.
Defined.

Example demo_handshake : is_ok demoHandshake = true.
Proof. vm_compute. reflexivity. Qed.

End E2EESafety.
