(* ===== verification/State.v ===== *)
(** The relay's state of the Herdr panes ([internal/coordinator/state.go],
    [triage.go]): the inventory of agents with their revisions, session
    generations, notification bookkeeping, pending events and triage records.

    Every method of the source runs under the state's mutex and is one function
    here.  A Go map is a [gmap] read with a default; a [map[string]bool] that
    only ever holds [true] is a [gset].  The readings of the clock during one
    call are one instant [now]; random bytes are drawn from [draw], whose [n]-th
    value is the [n]-th read of [crypto/rand] ([None] a failed read), and the
    calls of the transition callback and the writes of the triage file are a list
    of effects.  SHA-256 in hexadecimal is an argument.  The 64-bit counters are
    unbounded: they only count operations. *)
From S2P Require Import Prelude GoLib.
From stdpp Require Import pretty sorting.
#[local] Open Scope Z_scope.

Module State.

(** ** Panes *)

Definition AttentionApproval : string := "approval".
Definition AttentionQuestion : string := "question".
Definition AttentionChat : string := "chat".
Definition AttentionUnknown : string := "unknown".

(** a parsed question; only its id takes part in comparisons *)
Record Interaction := mkInteraction { int_ID : string; int_Kind : string; int_Question : string }.

(** the fields of [AgentState] that describe what a blocked agent asks *)
Record BlockedDetails := mkBlocked {
  BlockedEventID : string;
  AttentionKind : string;
  Prompt : string;
  Command : string;
  Options : list string;
  interaction : option Interaction;
  QuestionLayout : bool;
  InteractionID : string
}.

(** the fields of [AgentState] that an inventory reports and nothing else sets *)
Record PaneInfo := mkInfo {
  PaneID : string;
  RawPaneID : string;
  TerminalID : string;
  TabID : string;
  TabLabel : string;
  TabNumber : Z;
  TabOrder : Z;
  WorkspaceID : string;
  Agent : string;
  Shell : bool;
  Name : string;
  Focused : bool;
  Cwd : string;
  Project : string;
  Host : string;
  HerdrSession : string;
  Session : string;
  SessionName : string;
  ActivitySeq : Z;
  SessionID : string;
  ConversationHistoryAvailable : bool;
  PaneRevision : Z;
  ScrollMaxOffset : Z;
  ForegroundCwd : string
}.

Record AgentState := mkAgent {
  info : PaneInfo;
  Status : string;
  UpdatedAt : Z;
  LastActiveAt : Z;
  LastSeenAt : Z;
  blocked : BlockedDetails;
  StateRevision : Z
}.

Definition set_Status (v : string) (a : AgentState) : AgentState :=
  mkAgent (info a) v (UpdatedAt a) (LastActiveAt a) (LastSeenAt a) (blocked a) (StateRevision a).
Definition set_UpdatedAt (v : Z) (a : AgentState) : AgentState :=
  mkAgent (info a) (Status a) v (LastActiveAt a) (LastSeenAt a) (blocked a) (StateRevision a).
Definition set_LastActiveAt (v : Z) (a : AgentState) : AgentState :=
  mkAgent (info a) (Status a) (UpdatedAt a) v (LastSeenAt a) (blocked a) (StateRevision a).
Definition set_LastSeenAt (v : Z) (a : AgentState) : AgentState :=
  mkAgent (info a) (Status a) (UpdatedAt a) (LastActiveAt a) v (blocked a) (StateRevision a).
Definition set_blocked (v : BlockedDetails) (a : AgentState) : AgentState :=
  mkAgent (info a) (Status a) (UpdatedAt a) (LastActiveAt a) (LastSeenAt a) v (StateRevision a).
Definition set_StateRevision (v : Z) (a : AgentState) : AgentState :=
  mkAgent (info a) (Status a) (UpdatedAt a) (LastActiveAt a) (LastSeenAt a) (blocked a) v.

Definition noBlocked : BlockedDetails := mkBlocked "" "" "" "" [] None false "".
Definition setBlockedEventID (v : string) (b : BlockedDetails) : BlockedDetails :=
  mkBlocked v (AttentionKind b) (Prompt b) (Command b) (Options b) (interaction b)
    (QuestionLayout b) (InteractionID b).
Definition setAttentionKind (v : string) (b : BlockedDetails) : BlockedDetails :=
  mkBlocked (BlockedEventID b) v (Prompt b) (Command b) (Options b) (interaction b)
    (QuestionLayout b) (InteractionID b).

Definition clearBlockedDetails (a : AgentState) : AgentState := set_blocked noBlocked a.
Definition copyBlockedDetails (destination source : AgentState) : AgentState :=
  set_blocked (blocked source) destination.

(** ** Workspaces *)

Record WorkspaceWorktree := mkWorktree {
  RepoKey : string; RepoName : string; RepoRoot : string; CheckoutPath : string;
  IsLinkedWorktree : bool }.
#[export] Instance worktree_eq_dec : EqDecision WorkspaceWorktree.
Proof. solve_decision. Defined.

Record Workspace := mkWorkspace {
  ws_ID : string; ws_Number : Z; ws_Label : string; ws_Focused : bool; ws_PaneCount : Z;
  ws_TabCount : Z; ws_ActiveTabID : string; ws_AgentStatus : string; ws_Cwd : string;
  ws_Worktree : option WorkspaceWorktree; ws_Session : string }.

(** ** The rest of the state *)

Record triageRecord := mkTriage { t_LastActiveAt : Z; t_LastSeenAt : Z }.
#[export] Instance triage_eq_dec : EqDecision triageRecord.
Proof. solve_decision. Defined.

Record pendingEvent := mkPending {
  pe_tabID : string; pe_workspaceID : string; pe_status : string; pe_updatedAt : Z;
  pe_expiresAt : time }.

Record PollToken := mkToken { BaseRevision : Z; TopologyGeneration : Z }.

(** readiness of the inventory *)
Record Inventory := mkInventory {
  inventoryReady : bool;
  inventoryErrorCode : string;
  inventoryMessage : string;
  lastAttemptAt : time;
  lastSuccessAt : time
}.

(** [onTransition] tells whether a callback is set; [drawn] counts the reads of
    random bytes *)
Record State := mkState {
  agents : gmap string AgentState;
  workspaces : list Workspace;
  revision : gmap string Z;
  contentRev : gmap string Z;
  attentionRev : gmap string Z;
  prevStatus : gmap string string;
  topologyGen : Z;
  revCounter : Z;
  unseenDone : gset string;
  ackDone : gset string;
  finishedNotif : gset string;
  completionRev : gmap string Z;
  generation : gmap string Z;
  triage : gmap string triageRecord;
  triagePath : string;
  inventory : Inventory;
  onTransition : bool;
  pendingEvents : gmap string pendingEvent;
  topologyRetries : Z;
  blockedEventSeq : Z;
  customAnswers : gmap string (gmap string string);
  drawn : Z
}.

Definition set_agents (v : gmap string AgentState) (s : State) : State :=
  mkState v (workspaces s) (revision s) (contentRev s) (attentionRev s) (prevStatus s)
    (topologyGen s) (revCounter s) (unseenDone s) (ackDone s) (finishedNotif s)
    (completionRev s) (generation s) (triage s) (triagePath s) (inventory s) (onTransition
    s) (pendingEvents s) (topologyRetries s) (blockedEventSeq s) (customAnswers s) (drawn s).
Definition set_workspaces (v : list Workspace) (s : State) : State :=
  mkState (agents s) v (revision s) (contentRev s) (attentionRev s) (prevStatus s)
    (topologyGen s) (revCounter s) (unseenDone s) (ackDone s) (finishedNotif s)
    (completionRev s) (generation s) (triage s) (triagePath s) (inventory s) (onTransition
    s) (pendingEvents s) (topologyRetries s) (blockedEventSeq s) (customAnswers s) (drawn s).
Definition set_revision (v : gmap string Z) (s : State) : State :=
  mkState (agents s) (workspaces s) v (contentRev s) (attentionRev s) (prevStatus s)
    (topologyGen s) (revCounter s) (unseenDone s) (ackDone s) (finishedNotif s)
    (completionRev s) (generation s) (triage s) (triagePath s) (inventory s) (onTransition
    s) (pendingEvents s) (topologyRetries s) (blockedEventSeq s) (customAnswers s) (drawn s).
Definition set_contentRev (v : gmap string Z) (s : State) : State :=
  mkState (agents s) (workspaces s) (revision s) v (attentionRev s) (prevStatus s)
    (topologyGen s) (revCounter s) (unseenDone s) (ackDone s) (finishedNotif s)
    (completionRev s) (generation s) (triage s) (triagePath s) (inventory s) (onTransition
    s) (pendingEvents s) (topologyRetries s) (blockedEventSeq s) (customAnswers s) (drawn s).
Definition set_attentionRev (v : gmap string Z) (s : State) : State :=
  mkState (agents s) (workspaces s) (revision s) (contentRev s) v (prevStatus s)
    (topologyGen s) (revCounter s) (unseenDone s) (ackDone s) (finishedNotif s)
    (completionRev s) (generation s) (triage s) (triagePath s) (inventory s) (onTransition
    s) (pendingEvents s) (topologyRetries s) (blockedEventSeq s) (customAnswers s) (drawn s).
Definition set_prevStatus (v : gmap string string) (s : State) : State :=
  mkState (agents s) (workspaces s) (revision s) (contentRev s) (attentionRev s) v
    (topologyGen s) (revCounter s) (unseenDone s) (ackDone s) (finishedNotif s)
    (completionRev s) (generation s) (triage s) (triagePath s) (inventory s) (onTransition
    s) (pendingEvents s) (topologyRetries s) (blockedEventSeq s) (customAnswers s) (drawn s).
Definition set_topologyGen (v : Z) (s : State) : State :=
  mkState (agents s) (workspaces s) (revision s) (contentRev s) (attentionRev s)
    (prevStatus s) v (revCounter s) (unseenDone s) (ackDone s) (finishedNotif s)
    (completionRev s) (generation s) (triage s) (triagePath s) (inventory s) (onTransition
    s) (pendingEvents s) (topologyRetries s) (blockedEventSeq s) (customAnswers s) (drawn s).
Definition set_revCounter (v : Z) (s : State) : State :=
  mkState (agents s) (workspaces s) (revision s) (contentRev s) (attentionRev s)
    (prevStatus s) (topologyGen s) v (unseenDone s) (ackDone s) (finishedNotif s)
    (completionRev s) (generation s) (triage s) (triagePath s) (inventory s) (onTransition
    s) (pendingEvents s) (topologyRetries s) (blockedEventSeq s) (customAnswers s) (drawn s).
Definition set_unseenDone (v : gset string) (s : State) : State :=
  mkState (agents s) (workspaces s) (revision s) (contentRev s) (attentionRev s)
    (prevStatus s) (topologyGen s) (revCounter s) v (ackDone s) (finishedNotif s)
    (completionRev s) (generation s) (triage s) (triagePath s) (inventory s) (onTransition
    s) (pendingEvents s) (topologyRetries s) (blockedEventSeq s) (customAnswers s) (drawn s).
Definition set_ackDone (v : gset string) (s : State) : State :=
  mkState (agents s) (workspaces s) (revision s) (contentRev s) (attentionRev s)
    (prevStatus s) (topologyGen s) (revCounter s) (unseenDone s) v (finishedNotif s)
    (completionRev s) (generation s) (triage s) (triagePath s) (inventory s) (onTransition
    s) (pendingEvents s) (topologyRetries s) (blockedEventSeq s) (customAnswers s) (drawn s).
Definition set_finishedNotif (v : gset string) (s : State) : State :=
  mkState (agents s) (workspaces s) (revision s) (contentRev s) (attentionRev s)
    (prevStatus s) (topologyGen s) (revCounter s) (unseenDone s) (ackDone s) v
    (completionRev s) (generation s) (triage s) (triagePath s) (inventory s) (onTransition
    s) (pendingEvents s) (topologyRetries s) (blockedEventSeq s) (customAnswers s) (drawn s).
Definition set_completionRev (v : gmap string Z) (s : State) : State :=
  mkState (agents s) (workspaces s) (revision s) (contentRev s) (attentionRev s)
    (prevStatus s) (topologyGen s) (revCounter s) (unseenDone s) (ackDone s) (finishedNotif
    s) v (generation s) (triage s) (triagePath s) (inventory s) (onTransition s)
    (pendingEvents s) (topologyRetries s) (blockedEventSeq s) (customAnswers s) (drawn s).
Definition set_generation (v : gmap string Z) (s : State) : State :=
  mkState (agents s) (workspaces s) (revision s) (contentRev s) (attentionRev s)
    (prevStatus s) (topologyGen s) (revCounter s) (unseenDone s) (ackDone s) (finishedNotif
    s) (completionRev s) v (triage s) (triagePath s) (inventory s) (onTransition s)
    (pendingEvents s) (topologyRetries s) (blockedEventSeq s) (customAnswers s) (drawn s).
Definition set_triage (v : gmap string triageRecord) (s : State) : State :=
  mkState (agents s) (workspaces s) (revision s) (contentRev s) (attentionRev s)
    (prevStatus s) (topologyGen s) (revCounter s) (unseenDone s) (ackDone s) (finishedNotif
    s) (completionRev s) (generation s) v (triagePath s) (inventory s) (onTransition s)
    (pendingEvents s) (topologyRetries s) (blockedEventSeq s) (customAnswers s) (drawn s).
Definition set_triagePath (v : string) (s : State) : State :=
  mkState (agents s) (workspaces s) (revision s) (contentRev s) (attentionRev s)
    (prevStatus s) (topologyGen s) (revCounter s) (unseenDone s) (ackDone s) (finishedNotif
    s) (completionRev s) (generation s) (triage s) v (inventory s) (onTransition s)
    (pendingEvents s) (topologyRetries s) (blockedEventSeq s) (customAnswers s) (drawn s).
Definition set_inventory (v : Inventory) (s : State) : State :=
  mkState (agents s) (workspaces s) (revision s) (contentRev s) (attentionRev s)
    (prevStatus s) (topologyGen s) (revCounter s) (unseenDone s) (ackDone s) (finishedNotif
    s) (completionRev s) (generation s) (triage s) (triagePath s) v (onTransition s)
    (pendingEvents s) (topologyRetries s) (blockedEventSeq s) (customAnswers s) (drawn s).
Definition set_onTransition (v : bool) (s : State) : State :=
  mkState (agents s) (workspaces s) (revision s) (contentRev s) (attentionRev s)
    (prevStatus s) (topologyGen s) (revCounter s) (unseenDone s) (ackDone s) (finishedNotif
    s) (completionRev s) (generation s) (triage s) (triagePath s) (inventory s) v
    (pendingEvents s) (topologyRetries s) (blockedEventSeq s) (customAnswers s) (drawn s).
Definition set_pendingEvents (v : gmap string pendingEvent) (s : State) : State :=
  mkState (agents s) (workspaces s) (revision s) (contentRev s) (attentionRev s)
    (prevStatus s) (topologyGen s) (revCounter s) (unseenDone s) (ackDone s) (finishedNotif
    s) (completionRev s) (generation s) (triage s) (triagePath s) (inventory s)
    (onTransition s) v (topologyRetries s) (blockedEventSeq s) (customAnswers s) (drawn s).
Definition set_topologyRetries (v : Z) (s : State) : State :=
  mkState (agents s) (workspaces s) (revision s) (contentRev s) (attentionRev s)
    (prevStatus s) (topologyGen s) (revCounter s) (unseenDone s) (ackDone s) (finishedNotif
    s) (completionRev s) (generation s) (triage s) (triagePath s) (inventory s)
    (onTransition s) (pendingEvents s) v (blockedEventSeq s) (customAnswers s) (drawn s).
Definition set_blockedEventSeq (v : Z) (s : State) : State :=
  mkState (agents s) (workspaces s) (revision s) (contentRev s) (attentionRev s)
    (prevStatus s) (topologyGen s) (revCounter s) (unseenDone s) (ackDone s) (finishedNotif
    s) (completionRev s) (generation s) (triage s) (triagePath s) (inventory s)
    (onTransition s) (pendingEvents s) (topologyRetries s) v (customAnswers s) (drawn s).
Definition set_customAnswers (v : gmap string (gmap string string)) (s : State) : State :=
  mkState (agents s) (workspaces s) (revision s) (contentRev s) (attentionRev s)
    (prevStatus s) (topologyGen s) (revCounter s) (unseenDone s) (ackDone s) (finishedNotif
    s) (completionRev s) (generation s) (triage s) (triagePath s) (inventory s)
    (onTransition s) (pendingEvents s) (topologyRetries s) (blockedEventSeq s) v (drawn s).
Definition set_drawn (v : Z) (s : State) : State :=
  mkState (agents s) (workspaces s) (revision s) (contentRev s) (attentionRev s)
    (prevStatus s) (topologyGen s) (revCounter s) (unseenDone s) (ackDone s) (finishedNotif
    s) (completionRev s) (generation s) (triage s) (triagePath s) (inventory s)
    (onTransition s) (pendingEvents s) (topologyRetries s) (blockedEventSeq s)
    (customAnswers s) v.

Definition NewState : State :=
  mkState ∅ [] ∅ ∅ ∅ ∅ 0 0 ∅ ∅ ∅ ∅ ∅ ∅ "" (mkInventory false "" "" zero_time zero_time) false
    ∅ 0 0 ∅ 0.

Definition SetOnTransition (s : State) : State := set_onTransition true s.

(** [m[k]++] *)
Definition bump (k : string) (m : gmap string Z) : gmap string Z :=
  <[k := default 0 (m !! k) + 1]> m.

Inductive effect :=
| Transition (paneID agent project status : string) (revision : Z)
| PersistTriage (path : string) (panes : gmap string triageRecord).

Definition attentionStatuses (status : string) : bool :=
  String.eqb status "working" || String.eqb status "blocked".

Definition doneStatuses (status : string) : bool :=
  bool_decide (status ∈ ["done"; "complete"; "completed"; "finished"; "success"; "succeeded";
                         "unread"]).

(** milliseconds since the Unix epoch of an instant *)
Definition unixEpoch : time := 62135596800 * second.
Definition UnixMilli (t : time) : Z := (t - unixEpoch) / 1000000.

(** ** Queries *)

Definition BeginPoll (s : State) : PollToken := mkToken (revCounter s) (topologyGen s).
Definition RevisionCounter (s : State) : Z := revCounter s.
Definition Generation (s : State) (paneID : string) : Z := default 0 (generation s !! paneID).
Definition Revision (s : State) (paneID : string) : Z := default 0 (revision s !! paneID).
Definition ContentRevision (s : State) (paneID : string) : Z := default 0 (contentRev s !! paneID).
Definition AttentionRevision (s : State) (paneID : string) : Z :=
  default 0 (attentionRev s !! paneID).
Definition completionOf (s : State) (paneID : string) : Z := default 0 (completionRev s !! paneID).

Definition PaneSession (s : State) (paneID : string) : Z * bool :=
  (Generation s paneID, bool_decide (is_Some (agents s !! paneID))).
Definition PaneSessionCurrent (s : State) (paneID : string) (g : Z) : bool :=
  bool_decide (is_Some (agents s !! paneID)) && (u64 (Generation s paneID) =? g).

Definition TransitionCurrent (s : State) (paneID status : string) (rev : Z) : bool :=
  match agents s !! paneID with
  | Some a => String.eqb (Status a) status && (Revision s paneID =? rev)
  | None => false
  end.

Definition BlockedTransitionCurrent (s : State) (paneID eventID : string) (g : Z) : bool :=
  match agents s !! paneID with
  | Some a => String.eqb (Status a) "blocked" && String.eqb (BlockedEventID (blocked a)) eventID &&
              (u64 (Generation s paneID) =? g)
  | None => false
  end.

Definition AttentionTransitionCurrent (s : State) (paneID eventID : string) (g : Z)
    (attentionKind : string) (attentionRevision : Z) : bool :=
  match agents s !! paneID with
  | Some a => String.eqb (Status a) "blocked" && String.eqb (BlockedEventID (blocked a)) eventID &&
              (u64 (Generation s paneID) =? g) &&
              String.eqb (AttentionKind (blocked a)) attentionKind &&
              (AttentionRevision s paneID =? attentionRevision)
  | None => false
  end.

(** a blocked agent that only waits for chat counts as finished *)
Definition chatBlocked (a : AgentState) : bool :=
  String.eqb (Status a) "blocked" && String.eqb (AttentionKind (blocked a)) AttentionChat.

Definition CompletionCurrent (s : State) (paneID : string) (rev : Z) : bool :=
  match agents s !! paneID with
  | Some a => (negb (attentionStatuses (Status a)) || chatBlocked a) &&
              (completionOf s paneID =? rev)
  | None => false
  end.

Definition DisplayedStatus (s : State) (paneID : string) : string :=
  match agents s !! paneID with
  | None => ""
  | Some a =>
      if doneStatuses (Status a) && bool_decide (paneID ∈ ackDone s) then "idle"
      else if String.eqb (Status a) "idle" && bool_decide (paneID ∈ unseenDone s) then "done"
      else Status a
  end.

(** one entry of [Snapshot] *)
Definition snapshotAgent (s : State) (a : AgentState) : AgentState :=
  let id := PaneID (info a) in
  let cp := set_StateRevision (Revision s id) a in
  let cp := if doneStatuses (Status cp) && bool_decide (id ∈ ackDone s)
            then set_Status "idle" cp else cp in
  if String.eqb (Status cp) "idle" && bool_decide (id ∈ unseenDone s)
  then set_Status "done" cp else cp.

(** lexicographic order of the pane ids *)
Definition paneLe (a b : AgentState) : Prop :=
  String.leb (PaneID (info a)) (PaneID (info b)) = true.
#[export] Instance paneLe_dec : RelDecision paneLe.
Proof. intros a b. unfold paneLe. apply _. Defined.

Definition Snapshot (s : State) : list AgentState :=
  merge_sort paneLe ((fun ia => snapshotAgent s ia.2) <$> map_to_list (agents s)).

Definition AgentOf (s : State) (paneID : string) : option AgentState :=
  set_StateRevision (Revision s paneID) <$> agents s !! paneID.
Definition AgentCount (s : State) : Z := Z.of_nat (size (agents s)).

Definition LastUpdatedAt (s : State) : option Z :=
  let latest := map_fold (fun _ a m => if UpdatedAt a >? m then UpdatedAt a else m) 0 (agents s) in
  if latest =? 0 then None else Some latest.

(** ** Readiness *)

Definition MarkInventoryFailure (s : State) (err : option bool) (now : time) : State :=
  (* [Some true] is a [CLIError] whose code is server_not_running *)
  let last := lastSuccessAt (inventory s) in
  set_inventory (match err with
  | None => mkInventory false "" "" now last
  | Some true => mkInventory false "server_not_running"
      "Herdr is not running on this computer. Start it with `herdr`." now last
  | Some false => mkInventory false "command_failed"
      "Unable to read the current Herdr agent inventory." now last
  end) s.

Definition MarkTopologyDegraded (s : State) (now : time) : State :=
  set_inventory (mkInventory false "topology_churn"
    "Agent inventory is changing too quickly to produce a stable snapshot." now
    (lastSuccessAt (inventory s))) s.

Definition InventoryState (s : State) : string :=
  if inventoryReady (inventory s) then "ready"
  else if String.eqb (inventoryErrorCode (inventory s)) "" then "starting" else "error".

Definition inventoryStale (s : State) : bool :=
  negb (String.eqb (InventoryState s) "ready") && negb (lastSuccessAt (inventory s) =? zero_time).

Definition MarkTopologyChanged (s : State) : State := set_topologyGen (topologyGen s + 1) s.
Definition BumpGeneration (s : State) (paneID : string) : State :=
  set_generation (bump paneID (generation s)) s.

(** ** Custom answers *)

(** [RecordCustomAnswer] once the question was normalised to [key] and [text]
    trimmed *)
Definition RecordCustomAnswer (s : State) (paneID key text : string) : State :=
  if String.eqb paneID "" || String.eqb key "" || String.eqb text "" then s else
  let answers := default ∅ (customAnswers s !! paneID) in
  let s := set_customAnswers (<[paneID := answers]> (customAnswers s)) s in
  if negb (bool_decide (is_Some (answers !! key))) && (Z.of_nat (size answers) >=? 32) then s
  else set_customAnswers (<[paneID := <[key := text]> answers]> (customAnswers s)) s.

Definition CustomAnswers (s : State) (paneID : string) : gmap string string :=
  default ∅ (customAnswers s !! paneID).

(** ** Workspaces *)

Definition cloneWorkspaces (w : list Workspace) : list Workspace := w.

Definition workspaceEqual (l r : Workspace) : bool :=
  String.eqb (ws_ID l) (ws_ID r) && (ws_Number l =? ws_Number r) &&
  String.eqb (ws_Label l) (ws_Label r) && Bool.eqb (ws_Focused l) (ws_Focused r) &&
  (ws_PaneCount l =? ws_PaneCount r) && (ws_TabCount l =? ws_TabCount r) &&
  String.eqb (ws_ActiveTabID l) (ws_ActiveTabID r) &&
  String.eqb (ws_AgentStatus l) (ws_AgentStatus r) && String.eqb (ws_Cwd l) (ws_Cwd r) &&
  bool_decide (ws_Worktree l = ws_Worktree r).

Fixpoint workspacesEqual (ls rs : list Workspace) : bool :=
  match ls, rs with
  | [], [] => true
  | l :: ls, r :: rs => workspaceEqual l r && workspacesEqual ls rs
  | _, _ => false
  end.

(** the last workspace with an id wins in [previousByID] *)
Definition previousCwd (ws : list Workspace) (id : string) : string :=
  foldl (fun cwd w => if String.eqb (ws_ID w) id then ws_Cwd w else cwd) "" ws.

Definition withCwd (w : Workspace) (cwd : string) : Workspace :=
  mkWorkspace (ws_ID w) (ws_Number w) (ws_Label w) (ws_Focused w) (ws_PaneCount w)
    (ws_TabCount w) (ws_ActiveTabID w) (ws_AgentStatus w) cwd (ws_Worktree w) (ws_Session w).

Definition commitWorkspacesLocked (s : State) (ws : list Workspace) : State * bool :=
  let merged := (fun w => if String.eqb (ws_Cwd w) ""
                          then withCwd w (previousCwd (workspaces s) (ws_ID w)) else w)
                <$> cloneWorkspaces ws in
  if workspacesEqual (workspaces s) merged then (s, false)
  else (set_workspaces merged s, true).

Definition CommitWorkspaces (s : State) (ws : list Workspace) : State * bool :=
  commitWorkspacesLocked s ws.

Definition WorkspaceOf (s : State) (id : string) : option Workspace :=
  List.find (fun w => String.eqb (ws_ID w) id) (workspaces s).

(** ** Comparisons *)

Fixpoint stringSlicesEqual (ls rs : list string) : bool :=
  match ls, rs with
  | [], [] => true
  | l :: ls, r :: rs => String.eqb l r && stringSlicesEqual ls rs
  | _, _ => false
  end.

Definition interactionsEqual (l0 r0 : option Interaction) : bool :=
  match l0, r0 with
  | Some l, Some r => String.eqb (int_ID l) (int_ID r)
  | None, None => true
  | _, _ => false
  end.

Definition detailsEqual (l r : BlockedDetails) : bool :=
  String.eqb (BlockedEventID l) (BlockedEventID r) &&
  String.eqb (AttentionKind l) (AttentionKind r) &&
  String.eqb (Prompt l) (Prompt r) && String.eqb (Command l) (Command r) &&
  stringSlicesEqual (Options l) (Options r) &&
  interactionsEqual (interaction l) (interaction r) &&
  Bool.eqb (QuestionLayout l) (QuestionLayout r) &&
  String.eqb (InteractionID l) (InteractionID r).

(** a [nil] state differs from every other *)
Definition blockedDetailsEqual (l0 r0 : option AgentState) : bool :=
  match l0, r0 with
  | Some l, Some r => detailsEqual (blocked l) (blocked r)
  | None, None => true
  | _, _ => false
  end.

Definition paneSessionReplaced (existing incoming : AgentState) : bool :=
  let differs (x y : string) :=
    negb (String.eqb x "") && negb (String.eqb y "") && negb (String.eqb x y) in
  differs (RawPaneID (info existing)) (RawPaneID (info incoming)) ||
  differs (TerminalID (info existing)) (TerminalID (info incoming)) ||
  differs (TabID (info existing)) (TabID (info incoming)) ||
  differs (WorkspaceID (info existing)) (WorkspaceID (info incoming)).

Definition eventIdentityMatches (a : AgentState) (tabID workspaceID : string) : bool :=
  let clashes (x y : string) :=
    negb (String.eqb x "") && negb (String.eqb y "") && negb (String.eqb x y) in
  negb (clashes tabID (TabID (info a))) && negb (clashes workspaceID (WorkspaceID (info a))).

Definition preservesChatCompletion (previousStatus currentStatus previousAttention : string) : bool :=
  String.eqb previousStatus "blocked" && String.eqb currentStatus "idle" &&
  String.eqb previousAttention AttentionChat.

(** ** Transitions *)

Definition drop_cycle (paneID : string) (s : State) : State :=
  set_completionRev (delete paneID (completionRev s))
    (set_finishedNotif (finishedNotif s ∖ {[paneID]})
      (set_ackDone (ackDone s ∖ {[paneID]}) (set_unseenDone (unseenDone s ∖ {[paneID]}) s))).

(** the call of the callback, when one is set *)
Definition notifyTransition (s : State) (paneID status : string) : list effect :=
  if onTransition s then
    match agents s !! paneID with
    | Some a => [Transition paneID (Agent (info a)) (Project (info a)) status (Revision s paneID)]
    | None => [Transition paneID "" "" status (Revision s paneID)]
    end
  else [].

Definition markCompleted (paneID : string) (s : State) : State :=
  set_completionRev (<[paneID := Revision s paneID]> (completionRev s))
    (set_unseenDone (unseenDone s ∪ {[paneID]}) (set_ackDone (ackDone s ∖ {[paneID]}) s)).

Definition registerTransition (s : State) (paneID prev status previousAttention : string)
    : State * list effect :=
  if attentionStatuses status then
    let s := if negb (String.eqb prev status) then drop_cycle paneID s else s in
    let e1 := if String.eqb status "blocked" && negb (String.eqb prev "blocked")
              then notifyTransition s paneID status else [] in
    let e2 := if String.eqb status "working" && negb (String.eqb prev "working")
              then notifyTransition s paneID status else [] in
    (s, e1 ++ e2)
  else if doneStatuses status then
    if attentionStatuses prev then
      let s := markCompleted paneID s in (s, notifyTransition s paneID status)
    else (s, [])
  else if String.eqb status "idle" && attentionStatuses prev then
    if String.eqb prev "blocked" && String.eqb previousAttention AttentionChat then (s, [])
    else let s := markCompleted paneID s in (s, notifyTransition s paneID status)
  else (s, []).

Definition syncAttentionCompletionLocked (s : State) (paneID previous current : string) : State :=
  if String.eqb current AttentionChat then
    if negb (String.eqb previous AttentionChat) then
      set_completionRev (<[paneID := Revision s paneID]> (completionRev s))
        (set_finishedNotif (finishedNotif s ∖ {[paneID]}) s)
    else s
  else if String.eqb previous AttentionChat then
    set_completionRev (delete paneID (completionRev s))
      (set_finishedNotif (finishedNotif s ∖ {[paneID]}) s)
  else s.

Definition RegisterFinishedNotification (s : State) (paneID : string) : State * bool :=
  if bool_decide (paneID ∈ finishedNotif s) then (s, false)
  else (set_finishedNotif (finishedNotif s ∪ {[paneID]}) s, true).

Definition RegisterFinishedNotificationForTransition (s : State) (paneID : string) (rev : Z)
    : State * bool :=
  match agents s !! paneID with
  | None => (s, false)
  | Some a =>
      if (attentionStatuses (Status a) && negb (chatBlocked a)) ||
         negb (completionOf s paneID =? rev) || bool_decide (paneID ∈ finishedNotif s)
      then (s, false)
      else (set_finishedNotif (finishedNotif s ∪ {[paneID]}) s, true)
  end.

(** ** Triage *)

Definition triageStateVersion : Z := 2.
Definition triageStateLimit : Z := 2048.
Definition triageStateMaxAge : duration := 90 * 24 * 3600 * second.

Definition maxInt64 (l r : Z) : Z := if l >? r then l else r.

Definition triageTime (r : triageRecord) : Z := maxInt64 (t_LastActiveAt r) (t_LastSeenAt r).

Definition firstNonEmpty (values : list string) : string :=
  default "" (List.find (fun v => negb (String.eqb v "")) values).

Definition olderTriage (x y : string * triageRecord) : Prop := triageTime x.2 <= triageTime y.2.
#[export] Instance olderTriage_dec : RelDecision olderTriage.
Proof. intros x y. unfold olderTriage. apply _. Defined.

(** records older than [cutoff] go, then the oldest beyond the limit ([sort.Slice]
    leaves the order of equal times open) *)
Definition pruneTriage (m : gmap string triageRecord) (cutoff : Z) : gmap string triageRecord :=
  let m := filter (fun kr => ~ triageTime kr.2 < cutoff) m in
  if Z.of_nat (size m) <=? triageStateLimit then m else
  let ordered := merge_sort olderTriage (map_to_list m) in
  foldl (fun m kr => delete kr.1 m) m
    (take (Z.to_nat (len ordered - triageStateLimit)) ordered).

(** what [EnableTriagePersistence] keeps of a file of the given version *)
Definition loadTriage (version : Z) (panes : gmap string triageRecord)
    : option (gmap string triageRecord) :=
  if negb (version =? 1) && negb (version =? triageStateVersion) then None else
  let valid := filter (fun kr => kr.1 <> "" /\ 0 <= t_LastActiveAt kr.2 /\ 0 <= t_LastSeenAt kr.2)
                 panes in
  Some (if version =? 1 then (fun r => mkTriage 0 (t_LastSeenAt r)) <$> valid else valid).

Section Operations.
Context (sha256hex : string -> string) (draw : Z -> option bytes).

Definition NUL : string := String Ascii.zero "".

Definition triageIdentity (a : AgentState) : string :=
  let i := info a in
  let parts :=
    (if negb (String.eqb (TerminalID i) "") then ["terminal=" +:+ TerminalID i]
     else ["pane=" +:+ firstNonEmpty [RawPaneID i; PaneID i]; "tab=" +:+ TabID i;
           "workspace=" +:+ WorkspaceID i]) ++
    (if negb (String.eqb (SessionID i) "") then ["session=" +:+ SessionID i] else []) in
  sha256hex (String.concat NUL parts).

Definition applyTriageLocked (s : State) (a : AgentState) : AgentState :=
  let record := default (mkTriage 0 0) (triage s !! triageIdentity a) in
  set_LastSeenAt (t_LastSeenAt record) (set_LastActiveAt (t_LastActiveAt record) a).

Definition syncTriageLocked (s : State) (a : AgentState) : State * bool :=
  let key := triageIdentity a in
  if String.eqb key "" then (s, false) else
  let next := mkTriage (LastActiveAt a) (LastSeenAt a) in
  if (LastActiveAt a =? 0) && (LastSeenAt a =? 0) then (s, false) else
  if bool_decide (triage s !! key = Some next) then (s, false)
  else (set_triage (<[key := next]> (triage s)) s, true).

Definition persistTriageLocked (s : State) (now : time) : State * list effect :=
  if String.eqb (triagePath s) "" then (s, []) else
  let s := set_triage (pruneTriage (triage s) (UnixMilli (now - triageStateMaxAge))) s in
  (s, [PersistTriage (triagePath s) (triage s)]).

(** [EnableTriagePersistence] once the file was read: [None] when it does not
    exist, [Some None] when it is not JSON, else its version and records; [Err] is
    the error return *)
Definition EnableTriagePersistence (s : State) (path : string)
    (file : option (option (Z * gmap string triageRecord))) (now : time)
    : result string (State * list effect) :=
  match file with
  | None => Ok (set_triage ∅ (set_triagePath path s), [])
  | Some None => Err "triage state is invalid"
  | Some (Some (version, panes)) =>
      match loadTriage version panes with
      | None => Err "triage state is invalid"
      | Some loaded =>
          let s := set_triage loaded (set_triagePath path s) in
          if version =? 1 then Ok (persistTriageLocked s now) else Ok (s, [])
      end
  end.

(** ** Blocked cycles *)

Definition newBlockedEventIDLocked (s : State) (now : time) : State * string :=
  let s := set_drawn (drawn s + 1) s in
  match draw (drawn s) with
  | Some value => (s, b64_encode_string value)
  | None =>
      let s := set_blockedEventSeq (blockedEventSeq s + 1) s in
      (s, "blocked-" +:+ pretty (now - unixEpoch) +:+ "-" +:+ pretty (blockedEventSeq s))
  end.

Definition applyBlockedCycleLocked (s : State) (a : AgentState) (existing : option AgentState)
    (now : time) : State * AgentState :=
  if negb (String.eqb (Status a) "blocked") then (s, clearBlockedDetails a) else
  let a := if String.eqb (AttentionKind (blocked a)) ""
           then set_blocked (setAttentionKind AttentionUnknown (blocked a)) a else a in
  if negb (String.eqb (BlockedEventID (blocked a)) "") then (s, a) else
  match existing with
  | Some e =>
      if String.eqb (Status e) "blocked" && negb (String.eqb (BlockedEventID (blocked e)) "")
      then (s, set_blocked (setBlockedEventID (BlockedEventID (blocked e)) (blocked a)) a)
      else let (s, id) := newBlockedEventIDLocked s now in
           (s, set_blocked (setBlockedEventID id (blocked a)) a)
  | None => let (s, id) := newBlockedEventIDLocked s now in
            (s, set_blocked (setBlockedEventID id (blocked a)) a)
  end.

(** ** Inventories *)

(** the bookkeeping of a pane whose session was replaced *)
Definition endSession (s : State) (id : string) : State :=
  drop_cycle id (set_prevStatus (delete id (prevStatus s))
    (set_generation (bump id (generation s)) s)).

(** the existing state of a pane that goes on, and whether it was replaced *)
Definition continuing (s : State) (incoming : AgentState) : option AgentState * bool :=
  match agents s !! PaneID (info incoming) with
  | Some e => if paneSessionReplaced e incoming then (None, true) else (Some e, false)
  | None => (None, false)
  end.

(** activity and seen times carried over, and the status of an event that landed
    during the poll kept *)
Definition carryOver (s : State) (cp : AgentState) (existing : option AgentState) (baseRev : Z)
    : AgentState :=
  match existing with
  | None => applyTriageLocked s cp
  | Some e =>
      let cp := set_LastSeenAt (LastSeenAt e) (set_LastActiveAt (LastActiveAt e) cp) in
      if (Revision s (PaneID (info cp)) >? baseRev) && negb (String.eqb (Status cp) (Status e))
      then
        let cp := set_Status (Status e) cp in
        if String.eqb (Status e) "blocked" then copyBlockedDetails cp e else cp
      else cp
  end.

(** an event that came before the pane was known; the boolean is
    [pendingTimestamp] *)
Definition applyPending (s : State) (cp : AgentState) (now : time) : State * AgentState * bool :=
  let id := PaneID (info cp) in
  match pendingEvents s !! id with
  | None => (s, cp, false)
  | Some p =>
      let s := set_pendingEvents (delete id (pendingEvents s)) s in
      if (now <? pe_expiresAt p) && eventIdentityMatches cp (pe_tabID p) (pe_workspaceID p)
      then (s, set_UpdatedAt (pe_updatedAt p) (set_Status (pe_status p) cp), true)
      else (s, cp, false)
  end.

Definition sameContent (e cp : AgentState) : bool :=
  String.eqb (Status e) (Status cp) && String.eqb (Name (info e)) (Name (info cp)) &&
  String.eqb (Cwd (info e)) (Cwd (info cp)) && String.eqb (Agent (info e)) (Agent (info cp)) &&
  (ActivitySeq (info e) =? ActivitySeq (info cp)).

Definition samePane (e cp : AgentState) : bool :=
  sameContent e cp && (PaneRevision (info e) =? PaneRevision (info cp)) &&
  (ScrollMaxOffset (info e) =? ScrollMaxOffset (info cp)) &&
  String.eqb (ForegroundCwd (info e)) (ForegroundCwd (info cp)).

Definition stampUpdated (cp : AgentState) (existing : option AgentState)
    (pendingTimestamp initialSnapshot : bool) (now : time) : AgentState :=
  let cp := match existing with
    | None => if pendingTimestamp then cp
              else if initialSnapshot then set_UpdatedAt 0 cp
              else set_UpdatedAt (UnixMilli now) cp
    | Some e => if samePane e cp then set_UpdatedAt (UpdatedAt e) cp
                else set_UpdatedAt (UnixMilli now) cp
    end in
  let activityAdvanced := pendingTimestamp ||
    match existing with
    | Some e => negb (String.eqb (Status e) (Status cp)) ||
                negb (ActivitySeq (info e) =? ActivitySeq (info cp))
    | None => false
    end in
  if activityAdvanced && (UpdatedAt cp >? LastActiveAt cp)
  then set_LastActiveAt (UpdatedAt cp) cp else cp.

(** a pane seen for the first time with a finished status *)
Definition restoreSeen (s : State) (cp : AgentState) (existed : bool) : State :=
  let id := PaneID (info cp) in
  if negb existed && (doneStatuses (Status cp) || String.eqb (Status cp) "idle") then
    if LastActiveAt cp >? LastSeenAt cp then
      set_ackDone (ackDone s ∖ {[id]}) (set_unseenDone (unseenDone s ∪ {[id]}) s)
    else if doneStatuses (Status cp) && ((LastActiveAt cp >? 0) || (LastSeenAt cp >? 0)) then
      set_ackDone (ackDone s ∪ {[id]}) s
    else s
  else s.

(** the first half of the loop body of [commitInventoryLocked]: the new state of
    the pane, the one it continues and whether its question details changed *)
Definition prepareAgent (initialSnapshot : bool) (baseRev : Z) (now : time) (s : State)
    (incoming : AgentState) : State * AgentState * option AgentState * bool :=
  let id := PaneID (info incoming) in
  let '(existing, replaced) := continuing s incoming in
  let s := if replaced then endSession s id else s in
  let cp := carryOver s incoming existing baseRev in
  let s := if negb (bool_decide (is_Some existing)) && negb replaced && negb initialSnapshot &&
              (Generation s id >? 0) then BumpGeneration s id else s in
  let '(s, cp, pendingTimestamp) := applyPending s cp now in
  let cp := stampUpdated cp existing pendingTimestamp initialSnapshot now in
  let '(s, cp) := applyBlockedCycleLocked s cp existing now in
  let attentionChanged := negb (blockedDetailsEqual existing (Some cp)) in
  let contentChanged := match existing with
    | None => true | Some e => negb (sameContent e cp) end || attentionChanged in
  let s := if contentChanged then set_contentRev (bump id (contentRev s)) s else s in
  let s := if attentionChanged then set_attentionRev (bump id (attentionRev s)) s else s in
  (s, cp, existing, attentionChanged).

(** a new state of a pane is put in place under the current revision *)
Definition putAgent (s : State) (id : string) (cp : AgentState) : State :=
  let s := set_revision (<[id := revCounter s]> (revision s)) s in
  let s := set_agents (<[id := cp]> (agents s)) s in
  set_prevStatus (<[id := Status cp]> (prevStatus s)) s.

(** the second half; the boolean tells whether a triage record changed *)
Definition installAgent (s : State) (cp : AgentState) (existing : option AgentState)
    (attentionChanged : bool) : State * bool * list effect :=
  let id := PaneID (info cp) in
  let prev := default "" (prevStatus s !! id) in
  let previousAttention := from_option (fun e => AttentionKind (blocked e)) "" existing in
  let s := putAgent s id cp in
  let (s, e1) := registerTransition s id prev (Status cp) previousAttention in
  let s := restoreSeen s cp (bool_decide (is_Some existing)) in
  let (s, synced) := syncTriageLocked s cp in
  let attention := AttentionKind (blocked cp) in
  let s := if negb (preservesChatCompletion prev (Status cp) previousAttention)
           then syncAttentionCompletionLocked s id previousAttention attention else s in
  let e2 := if String.eqb prev "blocked" && String.eqb (Status cp) "blocked" &&
               (negb (String.eqb previousAttention attention) ||
                attentionChanged && String.eqb attention AttentionApproval)
            then notifyTransition s id (Status cp) else [] in
  (s, synced, e1 ++ e2).

(** one agent of the snapshot: the loop body of [commitInventoryLocked] *)
Definition commitAgent (initialSnapshot : bool) (baseRev : Z) (now : time)
    (acc : State * bool * list effect) (incoming : AgentState) : State * bool * list effect :=
  let '(s, dirty, eff) := acc in
  let '(s, cp, existing, attentionChanged) := prepareAgent initialSnapshot baseRev now s incoming in
  let '(s, synced, e) := installAgent s cp existing attentionChanged in
  (s, synced || dirty, eff ++ e).

(** a pane that is no longer in the inventory *)
Definition forgetPane (s : State) (id : string) : State :=
  set_customAnswers (delete id (customAnswers s))
   (drop_cycle id
    (set_prevStatus (delete id (prevStatus s))
     (set_attentionRev (delete id (attentionRev s))
      (set_contentRev (delete id (contentRev s))
       (set_revision (delete id (revision s))
        (set_agents (delete id (agents s))
         (set_generation (bump id (generation s)) s))))))).

Definition topologyChangedBy (s : State) (incoming : list AgentState) : bool :=
  negb (len incoming =? Z.of_nat (size (agents s))) ||
  existsb (fun a => match agents s !! PaneID (info a) with
                    | None => true
                    | Some e => paneSessionReplaced e a
                    end) incoming.

(** [commitInventoryLocked]; a [nil] entry of the list is dereferenced, [None] is
    the panic *)
Definition commitInventoryLocked (s : State) (incoming : list (option AgentState)) (baseRev : Z)
    (now : time) : option (State * list effect) :=
  let? incoming := mapM id incoming in
  let initialSnapshot := negb (inventoryReady (inventory s)) in
  let s := if topologyChangedBy s incoming then set_topologyGen (topologyGen s + 1) s else s in
  let s := set_revCounter (revCounter s + 1) s in
  let s := set_inventory (mkInventory true "" "" now now) s in
  let '(s, dirty, eff) :=
    foldl (commitAgent initialSnapshot baseRev now) (s, false, []) incoming in
  let seen := (fun a => PaneID (info a)) <$> incoming in
  let gone := filter (fun id => id ∉ seen) (elements (dom (agents s))) in
  let s := foldl forgetPane s gone in
  let s := set_pendingEvents (filter (fun kp => now < pe_expiresAt kp.2) (pendingEvents s)) s in
  if dirty then let (s, e) := persistTriageLocked s now in Some (s, eff ++ e)
  else Some (s, eff).

Definition CommitInventory (s : State) (incoming : list (option AgentState)) (baseRev : Z)
    (now : time) : option (State * list effect) :=
  commitInventoryLocked s incoming baseRev now.

(** what [commitTopologyLocked] makes of one entry of the snapshot *)
Definition topologyAgent (s : State) (incoming : AgentState) : AgentState :=
  match agents s !! PaneID (info incoming) with
  | Some e =>
      if paneSessionReplaced e incoming then incoming else
      let cp := set_Status (Status e) incoming in
      if String.eqb (Status e) "blocked" then copyBlockedDetails cp e else cp
  | None => incoming
  end.

Definition commitTopologyLocked (s : State) (incoming : list (option AgentState)) (baseRev : Z)
    (now : time) : option (State * list effect) :=
  commitInventoryLocked s (option_map (topologyAgent s) <$> incoming) baseRev now.

Definition CommitTopology (s : State) (incoming : list (option AgentState)) (ws : list Workspace)
    (baseRev : Z) (now : time) : option (State * list effect * bool) :=
  let (s, workspaceChanged) := commitWorkspacesLocked s ws in
  let s := if workspaceChanged then set_topologyGen (topologyGen s + 1) s else s in
  let? out := commitTopologyLocked s incoming baseRev now in
  Some (out, workspaceChanged).

(** the booleans are [workspaceChanged] and [committed] *)
Definition CommitPoll (s : State) (incoming : list (option AgentState)) (ws : list Workspace)
    (token : PollToken) (now : time) : option (State * list effect * (bool * bool)) :=
  if negb (topologyGen s =? TopologyGeneration token)
  then Some (set_topologyRetries (topologyRetries s + 1) s, [], (false, false)) else
  let (s, workspaceChanged) := commitWorkspacesLocked s ws in
  let? out := commitInventoryLocked s incoming (BaseRevision token) now in
  Some (out, (workspaceChanged, true)).

(** ** Events *)

(** the pane whose pending event expires first, in the order [order] in which
    the map is iterated *)
Definition oldestPending (order : list (string * pendingEvent)) : string :=
  (foldl (fun acc kp => if String.eqb acc.1 "" || (pe_expiresAt kp.2 <? acc.2)
                        then (kp.1, pe_expiresAt kp.2) else acc) ("", zero_time) order).1.

Definition maxPending : Z := 128.

Definition deferEvent (s : State) (paneID tabID workspaceID status : string) (updatedAt : Z)
    (now : time) (order : list (string * pendingEvent)) : State :=
  let pending := if Z.of_nat (size (pendingEvents s)) >=? maxPending
                 then delete (oldestPending order) (pendingEvents s) else pendingEvents s in
  set_pendingEvents (<[paneID := mkPending tabID workspaceID status updatedAt (now + 30 * second)]>
                       pending) s.

(** the new state of a pane an event applies to, with its question details *)
Definition eventAgent (s : State) (before : AgentState) (status : string) (updatedAt : Z)
    (now : time) : State * AgentState :=
  let a := set_UpdatedAt updatedAt (set_Status status before) in
  let a := if updatedAt >? LastActiveAt a then set_LastActiveAt updatedAt a
           else if updatedAt <=? 0 then set_LastActiveAt (UnixMilli now) a else a in
  if String.eqb status "blocked" then
    if negb (String.eqb (Status before) "blocked") || String.eqb (BlockedEventID (blocked a)) "" then
      let (s, id) := newBlockedEventIDLocked s now in
      (s, set_blocked (setAttentionKind AttentionUnknown (setBlockedEventID id noBlocked)) a)
    else (s, a)
  else (s, clearBlockedDetails a).

(** the bookkeeping of an applied event *)
Definition installEvent (s : State) (paneID : string) (before a : AgentState) (now : time)
    : State * list effect :=
  let prev := Status before in
  let previousAttention := AttentionKind (blocked before) in
  let s := putAgent s paneID a in
  let (s, eff) := registerTransition s paneID prev (Status a) previousAttention in
  let s := if negb (preservesChatCompletion prev (Status a) previousAttention)
           then syncAttentionCompletionLocked s paneID previousAttention
                  (AttentionKind (blocked a)) else s in
  let (s, synced) := syncTriageLocked s a in
  if synced then let (s, e) := persistTriageLocked s now in (s, eff ++ e) else (s, eff).

Definition CommitEventForSession (s : State) (paneID tabID workspaceID status : string)
    (updatedAt : Z) (now : time) (order : list (string * pendingEvent))
    : State * list effect * bool :=
  match agents s !! paneID with
  | None => (deferEvent s paneID tabID workspaceID status updatedAt now order, [], false)
  | Some before =>
      if negb (eventIdentityMatches before tabID workspaceID) then (s, [], false) else
      let s := set_revCounter (revCounter s + 1) s in
      let s := if negb (String.eqb (Status before) status)
               then set_contentRev (bump paneID (contentRev s)) s else s in
      let (s, a) := eventAgent s before status updatedAt now in
      let s := if negb (blockedDetailsEqual (Some before) (Some a))
               then set_attentionRev (bump paneID (attentionRev s)) s else s in
      (installEvent s paneID before a now, true)
  end.

Definition CommitEvent (s : State) (paneID status : string) (updatedAt : Z) (now : time)
    (order : list (string * pendingEvent)) : State * list effect * bool :=
  CommitEventForSession s paneID "" "" status updatedAt now order.

(** ** Classification and acknowledgement *)

Record Classification := mkClassification {
  cl_Kind : string; cl_Prompt : string; cl_Command : string; cl_Options : list string;
  cl_Interaction : option Interaction; cl_QuestionLayout : bool }.

(** the new details and whether they changed *)
Definition applyAttentionClassification (b : BlockedDetails) (c : Classification)
    : BlockedDetails * bool :=
  let options := if String.eqb (cl_Kind c) AttentionApproval then cl_Options c else [] in
  let isQuestion := String.eqb (cl_Kind c) AttentionQuestion in
  let nextInteraction := if isQuestion then cl_Interaction c else None in
  let nextQuestionLayout := isQuestion && cl_QuestionLayout c in
  let nextInteractionID := from_option int_ID "" nextInteraction in
  let changed :=
    negb (String.eqb (AttentionKind b) (cl_Kind c)) ||
    negb (String.eqb (Prompt b) (cl_Prompt c)) ||
    negb (String.eqb (Command b) (cl_Command c)) ||
    negb (stringSlicesEqual (Options b) options) ||
    negb (interactionsEqual (interaction b) nextInteraction) ||
    negb (Bool.eqb (QuestionLayout b) nextQuestionLayout) ||
    negb (String.eqb (InteractionID b) nextInteractionID) in
  (mkBlocked (BlockedEventID b) (cl_Kind c) (cl_Prompt c) (cl_Command c) options nextInteraction
     nextQuestionLayout nextInteractionID, changed).

Definition CommitAttentionClassification (s : State) (paneID eventID : string) (g : Z)
    (contentRevision : Z) (c : Classification) : State * option AgentState :=
  match agents s !! paneID with
  | None => (s, None)
  | Some a =>
      if negb (String.eqb (Status a) "blocked") ||
         negb (String.eqb (BlockedEventID (blocked a)) eventID) ||
         negb (u64 (Generation s paneID) =? g) ||
         negb (ContentRevision s paneID =? contentRevision)
      then (s, None) else
      let c := if String.eqb (cl_Kind c) ""
               then mkClassification AttentionUnknown (cl_Prompt c) (cl_Command c) (cl_Options c)
                      (cl_Interaction c) (cl_QuestionLayout c) else c in
      let previous := AttentionKind (blocked a) in
      let (details, changed) := applyAttentionClassification (blocked a) c in
      let a := set_blocked details a in
      let s := set_agents (<[paneID := a]> (agents s)) s in
      let s := if changed then
          let s := set_revCounter (revCounter s + 1) s in
          let s := set_revision (<[paneID := revCounter s]> (revision s)) s in
          let s := set_contentRev (bump paneID (contentRev s)) s in
          let s := set_attentionRev (bump paneID (attentionRev s)) s in
          syncAttentionCompletionLocked s paneID previous (AttentionKind details)
        else s in
      (s, Some (set_StateRevision (Revision s paneID) a))
  end.

Definition AcknowledgePane (s : State) (paneID : string) (now : time)
    : State * list effect * bool :=
  match agents s !! paneID with
  | None => (s, [], false)
  | Some a =>
      let a := set_LastSeenAt (maxInt64 (UnixMilli now) (LastActiveAt a)) a in
      let s := set_agents (<[paneID := a]> (agents s)) s in
      let s := if bool_decide (paneID ∈ unseenDone s) || doneStatuses (Status a)
               then set_ackDone (ackDone s ∪ {[paneID]})
                      (set_unseenDone (unseenDone s ∖ {[paneID]}) s)
               else s in
      let (s, synced) := syncTriageLocked s a in
      if synced then let (s, e) := persistTriageLocked s now in (s, e, true) else (s, [], true)
  end.

End Operations.
End State.
