(* ===== verification/StateInv.v ===== *)
(** What holds of the pane state in every state the relay can reach: the
    bookkeeping of each pane is consistent, pending events and recorded answers
    are bounded, session generations only grow, a completion is announced at most
    once. *)
From S2P Require Import Prelude GoLib State.
From stdpp Require Import pretty sorting.
#[local] Open Scope Z_scope.

Module StateInv.
Import State.

(** ** The view of one pane *)

Record paneView := mkView {
  v_agent : option AgentState;
  v_prev : option string;
  v_rev : option Z;
  v_unseen : bool;
  v_ack : bool;
  v_notif : bool;
  v_completion : option Z;
  v_pending : option pendingEvent
}.

Definition view (s : State) (id : string) : paneView :=
  mkView (agents s !! id) (prevStatus s !! id) (revision s !! id)
    (bool_decide (id ∈ unseenDone s)) (bool_decide (id ∈ ackDone s))
    (bool_decide (id ∈ finishedNotif s)) (completionRev s !! id) (pendingEvents s !! id).

(** a blocked agent has an event id and a kind, another has no details *)
Definition blockedOk (a : AgentState) : Prop :=
  if String.eqb (Status a) "blocked"
  then BlockedEventID (blocked a) <> "" /\ AttentionKind (blocked a) <> ""
  else blocked a = noBlocked.

(** consistency of one pane; [n] is the global revision counter *)
Record viewOk (n : Z) (id : string) (v : paneView) : Prop := mkViewOk {
  vo_prev : v_prev v = Status <$> v_agent v;
  vo_agent : forall a, v_agent v = Some a -> PaneID (info a) = id /\ blockedOk a;
  vo_rev : match v_agent v with
           | Some _ => exists r, v_rev v = Some r /\ 0 < r <= n
           | None => v_rev v = None
           end;
  vo_disj : v_unseen v = true -> v_ack v = true -> False;
  vo_seen : v_unseen v = true \/ v_ack v = true ->
            exists a, v_agent v = Some a /\ attentionStatuses (Status a) = false;
  vo_comp : forall r, v_completion v = Some r ->
            exists a m, v_agent v = Some a /\ v_rev v = Some m /\ 0 < r <= m;
  vo_pending : is_Some (v_pending v) -> v_agent v = None
}.

Record wf (s : State) : Prop := mkWf {
  wf_panes : forall id, viewOk (revCounter s) id (view s id);
  wf_pending : Z.of_nat (size (pendingEvents s)) <= maxPending;
  wf_answers : forall id m, customAnswers s !! id = Some m -> Z.of_nat (size m) <= 32;
  wf_counter : 0 <= revCounter s
}.

(** ** Steps on a view *)

Definition vdrop (v : paneView) : paneView :=
  mkView (v_agent v) (v_prev v) (v_rev v) false false false None (v_pending v).
Definition vcomplete (v : paneView) : paneView :=
  mkView (v_agent v) (v_prev v) (v_rev v) true false (v_notif v) (Some (default 0 (v_rev v)))
    (v_pending v).

Definition vregister (prev status previousAttention : string) (v : paneView) : paneView :=
  if attentionStatuses status then if negb (String.eqb prev status) then vdrop v else v
  else if doneStatuses status then if attentionStatuses prev then vcomplete v else v
  else if String.eqb status "idle" && attentionStatuses prev then
    if String.eqb prev "blocked" && String.eqb previousAttention AttentionChat then v
    else vcomplete v
  else v.

Definition vsync (previous current : string) (v : paneView) : paneView :=
  if String.eqb current AttentionChat then
    if negb (String.eqb previous AttentionChat)
    then mkView (v_agent v) (v_prev v) (v_rev v) (v_unseen v) (v_ack v) false
           (Some (default 0 (v_rev v))) (v_pending v)
    else v
  else if String.eqb previous AttentionChat
  then mkView (v_agent v) (v_prev v) (v_rev v) (v_unseen v) (v_ack v) false None (v_pending v)
  else v.

Definition vrestore (cp : AgentState) (existed : bool) (v : paneView) : paneView :=
  if negb existed && (doneStatuses (Status cp) || String.eqb (Status cp) "idle") then
    if LastActiveAt cp >? LastSeenAt cp
    then mkView (v_agent v) (v_prev v) (v_rev v) true false (v_notif v) (v_completion v) (v_pending v)
    else if doneStatuses (Status cp) && ((LastActiveAt cp >? 0) || (LastSeenAt cp >? 0))
    then mkView (v_agent v) (v_prev v) (v_rev v) (v_unseen v) true (v_notif v) (v_completion v)
           (v_pending v)
    else v
  else v.

(** put a new state of the pane in place under revision [n] *)
Definition vput (cp : AgentState) (n : Z) (v : paneView) : paneView :=
  mkView (Some cp) (Some (Status cp)) (Some n) (v_unseen v) (v_ack v) (v_notif v)
    (v_completion v) (v_pending v).

(** membership after adding or removing an element *)
Lemma member_added (id : string) (X : gset string) : bool_decide (id ∈ X ∪ {[id]}) = true.
Proof. apply bool_decide_eq_true, elem_of_union_r. by apply elem_of_singleton. Qed.
Lemma member_removed (id : string) (X : gset string) : bool_decide (id ∈ X ∖ {[id]}) = false.
Proof. apply bool_decide_eq_false. intros [_ H]%elem_of_difference. by apply H, elem_of_singleton. Qed.
Lemma member_add (i id : string) (X : gset string) :
  i <> id -> bool_decide (i ∈ X ∪ {[id]}) = bool_decide (i ∈ X).
Proof. intros. apply bool_decide_ext. rewrite elem_of_union, elem_of_singleton. tauto. Qed.
Lemma member_remove (i id : string) (X : gset string) :
  i <> id -> bool_decide (i ∈ X ∖ {[id]}) = bool_decide (i ∈ X).
Proof. intros. apply bool_decide_ext. rewrite elem_of_difference, elem_of_singleton. tauto. Qed.

Ltac vset := rewrite ?member_added, ?member_removed.

Lemma view_drop s id : view (drop_cycle id s) id = vdrop (view s id).
Proof. unfold view, drop_cycle, vdrop. cbn. vset. by rewrite lookup_delete_eq. Qed.

Lemma view_complete s id : view (markCompleted id s) id = vcomplete (view s id).
Proof.
  unfold view, markCompleted, vcomplete, Revision. cbn. vset. by rewrite lookup_insert_eq.
Qed.

Lemma view_register s id prev status att :
  view (registerTransition s id prev status att).1 id = vregister prev status att (view s id).
Proof.
  unfold registerTransition, vregister.
  repeat case_if; cbn [fst]; rewrite ?view_drop, ?view_complete; done.
Qed.

Lemma view_sync s id p c :
  view (syncAttentionCompletionLocked s id p c) id = vsync p c (view s id).
Proof.
  unfold syncAttentionCompletionLocked, vsync. repeat case_if; try done;
    unfold view, Revision; cbn; vset; by rewrite ?lookup_insert_eq, ?lookup_delete_eq.
Qed.

Lemma view_restore s cp existed id :
  PaneID (info cp) = id -> view (restoreSeen s cp existed) id = vrestore cp existed (view s id).
Proof.
  intros <-. unfold restoreSeen, vrestore. repeat case_if; try done; unfold view; cbn; by vset.
Qed.

Lemma view_ack s id :
  view (set_ackDone (ackDone s ∪ {[id]}) (set_unseenDone (unseenDone s ∖ {[id]}) s)) id =
  mkView (v_agent (view s id)) (v_prev (view s id)) (v_rev (view s id)) false true
    (v_notif (view s id)) (v_completion (view s id)) (v_pending (view s id)).
Proof. unfold view. cbn. by vset. Qed.

(** ** What an operation on one pane leaves alone *)

(** the completion of a pane is kept (with its announcement), dropped, or set to
    a revision after [c] *)
Definition finStep (c : Z) (v v' : paneView) : Prop :=
  (v_completion v' = v_completion v /\ (v_notif v = true -> v_notif v' = true)) \/
  v_completion v' = None \/ exists r, v_completion v' = Some r /\ c < r.

Record touch (c : Z) (id : string) (s s' : State) : Prop := mkTouch {
  t_rev : revCounter s' = revCounter s;
  t_gen : forall i, Generation s i <= Generation s' i;
  t_other : forall i, i <> id -> view s' i = view s i;
  t_fin : finStep c (view s id) (view s' id);
  t_answers : forall i m, customAnswers s' !! i = Some m -> customAnswers s !! i = Some m;
  t_pending : (size (pendingEvents s') <= size (pendingEvents s))%nat
}.

Lemma finStep_refl c v : finStep c v v.
Proof. by left. Qed.

Lemma finStep_trans c v1 v2 v3 : finStep c v1 v2 -> finStep c v2 v3 -> finStep c v1 v3.
Proof.
  unfold finStep. intros [[H1 H2]|[H1|(r & H1 & H2)]] [[H3 H4]|[H3|(r' & H3 & H4)]]; eauto.
  - left. split; [congruence|auto].
  - right. left. congruence.
  - right. right. exists r. split; [congruence|done].
Qed.

Lemma touch_refl c id s : touch c id s s.
Proof. split; try done. apply finStep_refl. Qed.

Lemma touch_trans c id s1 s2 s3 : touch c id s1 s2 -> touch c id s2 s3 -> touch c id s1 s3.
Proof.
  intros [A1 A2 A3 A4 A5 A6] [B1 B2 B3 B4 B5 B6]. split; try congruence; auto.
  - intros i. specialize (A2 i). specialize (B2 i). lia.
  - intros i Hi. by rewrite B3, A3.
  - by eapply finStep_trans.
  - lia.
Qed.

Ltac vother :=
  intros; unfold view; cbn;
  rewrite ?member_add, ?member_remove, ?lookup_insert_ne, ?lookup_delete_ne by congruence; done.

Lemma generation_bump s i id : Generation s i <= default 0 (bump id (generation s) !! i).
Proof.
  unfold Generation, bump. destruct (decide (id = i)) as [->|]; 
    [rewrite lookup_insert_eq; cbn; lia|by rewrite lookup_insert_ne].
Qed.

Lemma touch_drop c id s : touch c id s (drop_cycle id s).
Proof. split; try done; [vother|]. rewrite view_drop. right. by left. Qed.

Lemma touch_complete c id s :
  c < Revision s id -> touch c id s (markCompleted id s).
Proof.
  intros Hc. split; try done; [vother|]. rewrite view_complete. right. right. by eexists.
Qed.

Lemma touch_register c id s prev status att :
  c < Revision s id -> touch c id s (registerTransition s id prev status att).1.
Proof.
  intros Hc. unfold registerTransition. repeat case_if; cbn [fst];
    auto using touch_refl, touch_drop, touch_complete.
Qed.

Lemma touch_sync c id s p q :
  c < Revision s id -> touch c id s (syncAttentionCompletionLocked s id p q).
Proof.
  intros Hc. unfold syncAttentionCompletionLocked.
  destruct (String.eqb q AttentionChat) eqn:E1; [destruct (negb (String.eqb p AttentionChat)) eqn:E2
    |destruct (String.eqb p AttentionChat) eqn:E2]; try apply touch_refl.
  - split; try done; [vother|]. right. right. cbn. rewrite lookup_insert_eq. by eexists.
  - split; try done; [vother|]. right. left. cbn. by rewrite lookup_delete_eq.
Qed.

Lemma touch_restore c id s cp existed :
  PaneID (info cp) = id -> touch c id s (restoreSeen s cp existed).
Proof.
  intros <-. unfold restoreSeen. repeat case_if; try apply touch_refl;
    (split; try done; [vother|by left]).
Qed.

(** the fields the invariant speaks about *)
Record sameCore (s s' : State) : Prop := mkSame {
  sc_agents : agents s' = agents s;
  sc_prev : prevStatus s' = prevStatus s;
  sc_revision : revision s' = revision s;
  sc_unseen : unseenDone s' = unseenDone s;
  sc_ack : ackDone s' = ackDone s;
  sc_notif : finishedNotif s' = finishedNotif s;
  sc_completion : completionRev s' = completionRev s;
  sc_pending : pendingEvents s' = pendingEvents s;
  sc_counter : revCounter s' = revCounter s;
  sc_generation : generation s' = generation s;
  sc_answers : customAnswers s' = customAnswers s
}.

Lemma core_view s s' id : sameCore s s' -> view s' id = view s id.
Proof.
  intros [E1 E2 E3 E4 E5 E6 E7 E8 _ _ _]. unfold view. by rewrite E1, E2, E3, E4, E5, E6, E7, E8.
Qed.

Lemma touch_core c id s s' : sameCore s s' -> touch c id s s'.
Proof.
  intros Hc. pose proof (fun i => core_view s s' i Hc) as Hv. destruct Hc.
  split; try congruence; auto.
  - intros. unfold Generation. by rewrite sc_generation0.
  - rewrite Hv. apply finStep_refl.
  - by rewrite sc_pending0.
Qed.

Lemma wf_core s s' : sameCore s s' -> wf s -> wf s'.
Proof.
  intros Hc [W1 W2 W3 W4]. pose proof (fun i => core_view s s' i Hc) as Hv. destruct Hc.
  split; [intros id; rewrite Hv, sc_counter0; done|by rewrite sc_pending0|by rewrite sc_answers0|
    by rewrite sc_counter0].
Qed.

(** ** Views after a pane was put in place *)

Lemma done_not_attention st : doneStatuses st = true -> attentionStatuses st = false.
Proof.
  unfold doneStatuses. intros H%bool_decide_eq_true.
  rewrite !elem_of_cons, elem_of_nil in H. destruct_or!; by subst.
Qed.

Lemma viewOk_register n id cp prev att v :
  v_pending v = None -> (v_unseen v = true -> v_ack v = true -> False) ->
  (v_unseen v = true \/ v_ack v = true -> attentionStatuses prev = false) ->
  (forall r, v_completion v = Some r -> 0 < r <= n) -> 0 < n ->
  PaneID (info cp) = id -> blockedOk cp ->
  viewOk n id (vregister prev (Status cp) att (vput cp n v)).
Proof.
  intros Hp Hd Hs Hc Hn Hid Hb.
  assert (Hbase : (v_unseen v = true \/ v_ack v = true -> attentionStatuses (Status cp) = false) ->
    viewOk n id (vput cp n v)).
  { intros Hseen. split; cbn; try done.
    - intros a [= <-]. done.
    - exists n. split; [done|lia].
    - intros H. exists cp. auto.
    - intros r Hr. exists cp, n. auto.
    - rewrite Hp. by intros []. }
  assert (Hcomplete : attentionStatuses (Status cp) = false -> viewOk n id (vcomplete (vput cp n v))).
  { intros Hatt. split; cbn; try done.
    - intros a [= <-]. done.
    - exists n. split; [done|lia].
    - intros _. by exists cp.
    - intros r [= <-]. exists cp, n. split_and!; (done || lia).
    - rewrite Hp. by intros []. }
  unfold vregister. destruct (attentionStatuses (Status cp)) eqn:Ea.
  - destruct (String.eqb_spec prev (Status cp)) as [->|Hne]; cbn [negb].
    + apply Hbase. intros H. specialize (Hs H). congruence.
    + split; cbn; try done.
      * intros a [= <-]. done.
      * exists n. split; [done|lia].
      * by intros [].
      * rewrite Hp. by intros [].
  - repeat case_if; auto.
Qed.

Lemma vregister_agent prev st att v : v_agent (vregister prev st att v) = v_agent v.
Proof. unfold vregister. by repeat case_if. Qed.

Lemma vregister_unseen prev st att v :
  attentionStatuses prev = false -> v_unseen v = false ->
  v_unseen (vregister prev st att v) = false.
Proof. unfold vregister. intros -> Hv. rewrite andb_false_r. by repeat case_if. Qed.

Lemma viewOk_restore n id cp existed v :
  viewOk n id v -> v_agent v = Some cp -> (existed = false -> v_unseen v = false) ->
  viewOk n id (vrestore cp existed v).
Proof.
  intros [V1 V2 V3 V4 V5 V6 V7] Ha Hu. unfold vrestore.
  destruct (negb existed && (doneStatuses (Status cp) || String.eqb (Status cp) "idle")) eqn:E;
    [|done].
  apply andb_true_iff in E as [E1%negb_true_iff E2]. specialize (Hu E1).
  assert (Hatt : attentionStatuses (Status cp) = false).
  { apply orb_true_iff in E2 as [E2|E2]; [by apply done_not_attention|].
    apply String.eqb_eq in E2. by rewrite E2. }
  repeat case_if; try done; split; cbn; try done; eauto. congruence.
Qed.

Lemma viewOk_sync n id p q v :
  viewOk n id v -> is_Some (v_agent v) -> viewOk n id (vsync p q v).
Proof.
  intros [V1 V2 V3 V4 V5 V6 V7] [a Ha]. unfold vsync. rewrite Ha in V3.
  destruct V3 as (r & Hr & Hrn). repeat case_if; try done; split; cbn; try done;
    try (rewrite Ha; by eexists).
  rewrite Hr. intros r' [= <-]. exists a, r. split_and!; (done || lia).
Qed.

(** ** One agent of an inventory *)

Section Steps.
Context (sha256hex : string -> string) (draw : Z -> option bytes).
(** [rand.Read] fills the 12-byte buffer it is given *)
Hypothesis draw_size : forall n v, draw n = Some v -> len v = 12.

Lemma newBlockedEventID_ok s now :
  sameCore s (newBlockedEventIDLocked draw s now).1 /\
  (newBlockedEventIDLocked draw s now).2 <> "".
Proof.
  unfold newBlockedEventIDLocked. cbn. destruct (draw _) as [v|] eqn:E; cbn.
  - split; [by split|]. apply draw_size in E. destruct v as [|a [|b [|c v]]]; done.
  - split; [by split|done].
Qed.

Lemma blockedCycle_ok s a existing now :
  let out := applyBlockedCycleLocked draw s a existing now in
  sameCore s out.1 /\ info out.2 = info a /\ Status out.2 = Status a /\ blockedOk out.2.
Proof.
  cbv zeta. unfold applyBlockedCycleLocked.
  destruct (newBlockedEventID_ok s now) as [Hc Hne].
  destruct (newBlockedEventIDLocked draw s now) as [s' fresh]. cbn [fst snd] in *.
  destruct (String.eqb_spec (Status a) "blocked") as [Hb|Hb]; cbn [negb];
    [|split_and!; try done; unfold blockedOk; cbn; by destruct (String.eqb_spec (Status a) "blocked")].
  set (a1 := if String.eqb (AttentionKind (blocked a)) "" then _ else a).
  assert (Ha1 : info a1 = info a /\ Status a1 = Status a /\ AttentionKind (blocked a1) <> "").
  { unfold a1. destruct (String.eqb_spec (AttentionKind (blocked a)) ""); done. }
  destruct Ha1 as (Hi & Hs & Hk).
  assert (Hok : forall id, id <> "" -> blockedOk (set_blocked (setBlockedEventID id (blocked a1)) a1)).
  { intros id Hid. unfold blockedOk. cbn. rewrite Hs, Hb. done. }
  destruct (String.eqb_spec (BlockedEventID (blocked a1)) "") as [Hid|Hid]; cbn [negb];
    [|cbn [fst snd]; split_and!; try done; unfold blockedOk; by rewrite Hs, Hb].
  destruct existing as [e|]; [destruct (_ && _) eqn:Ee|]; cbn; split_and!; auto; try done.
  apply Hok. apply andb_true_iff in Ee as [_ Ee%negb_true_iff]. by apply String.eqb_neq in Ee.
Qed.

Lemma carryOver_info s cp existing baseRev :
  info (carryOver sha256hex s cp existing baseRev) = info cp.
Proof. unfold carryOver. destruct existing; [|done]. by repeat case_if. Qed.

Lemma stampUpdated_keeps cp existing p i now :
  info (stampUpdated cp existing p i now) = info cp /\
  Status (stampUpdated cp existing p i now) = Status cp.
Proof. unfold stampUpdated. destruct existing; by repeat case_if. Qed.

Lemma touch_gen c id s g :
  (forall i, Generation s i <= default 0 (g !! i)) -> touch c id s (set_generation g s).
Proof. intros Hg. split; try done. apply finStep_refl. Qed.

Lemma touch_bump c id i s : touch c id s (BumpGeneration s i).
Proof. apply touch_gen. intros. apply generation_bump. Qed.

Lemma touch_prev c id s : touch c id s (set_prevStatus (delete id (prevStatus s)) s).
Proof. split; try done; [vother|by left]. Qed.

Lemma touch_endSession c id s : touch c id s (endSession s id).
Proof.
  unfold endSession. eapply touch_trans; [apply (touch_bump c id id)|].
  eapply touch_trans; [apply (touch_prev c id)|]. apply touch_drop.
Qed.

Lemma pending_ok c s cp now :
  let '(s', cp', _) := applyPending s cp now in
  let id := PaneID (info cp) in
  touch c id s s' /\ info cp' = info cp /\
  view s' id = mkView (agents s !! id) (prevStatus s !! id) (revision s !! id)
    (bool_decide (id ∈ unseenDone s)) (bool_decide (id ∈ ackDone s))
    (bool_decide (id ∈ finishedNotif s)) (completionRev s !! id) None.
Proof.
  unfold applyPending. destruct (pendingEvents s !! PaneID (info cp)) as [p|] eqn:E.
  - assert (Ht : touch c (PaneID (info cp)) s (set_pendingEvents (delete (PaneID (info cp)) (pendingEvents s)) s)).
    { split; try done; [vother|by left|]. cbn. rewrite map_size_delete, E. lia. }
    case_if; split_and!; try done; unfold view; cbn; by rewrite lookup_delete_eq.
  - split_and!; [apply touch_refl|done|]. unfold view. by rewrite E.
Qed.

Lemma view_revision s id r : v_rev (view s id) = Some r -> Revision s id = r.
Proof. unfold Revision. cbn. by intros ->. Qed.

Lemma vregister_rev prev st att v : v_rev (vregister prev st att v) = v_rev v.
Proof. unfold vregister. by repeat case_if. Qed.
Lemma vrestore_keeps cp e v : v_rev (vrestore cp e v) = v_rev v /\ v_agent (vrestore cp e v) = v_agent v.
Proof. unfold vrestore. by repeat case_if. Qed.

(** what the bookkeeping of a pane must satisfy before a new state is put in
    place: [prev] is the status it leaves, [existed] whether its session goes on *)
Record ready (n : Z) (prev : string) (existed : bool) (v : paneView) : Prop := mkReady {
  rd_pending : v_pending v = None;
  rd_disj : v_unseen v = true -> v_ack v = true -> False;
  rd_seen : v_unseen v = true \/ v_ack v = true -> attentionStatuses prev = false;
  rd_comp : forall r, v_completion v = Some r -> 0 < r <= n;
  rd_new : existed = false -> v_unseen v = false /\ attentionStatuses prev = false
}.

Definition vsettle (v : paneView) : paneView :=
  mkView (v_agent v) (v_prev v) (v_rev v) (v_unseen v) (v_ack v) (v_notif v) (v_completion v) None.

Lemma ready_going_on n id v e :
  viewOk n id v -> v_agent v = Some e -> ready n (Status e) true (vsettle v).
Proof.
  intros [V1 V2 V3 V4 V5 V6 V7] Ha. split; cbn; try done.
  - intros Hs. destruct (V5 Hs) as (b & Hb & Hatt). congruence.
  - intros r Hr. destruct (V6 r Hr) as (b & m & _ & Hm & Hle). rewrite Ha in V3.
    destruct V3 as (r' & Hr' & Hle'). simplify_eq. lia.
Qed.

Lemma view_put s id cp : view (putAgent s id cp) id = vput cp (revCounter s) (view s id).
Proof. unfold putAgent, vput, view. cbn. by rewrite !lookup_insert_eq. Qed.

Lemma touch_put c id cp s : touch c id s (putAgent s id cp).
Proof. split; try done; [unfold putAgent; vother|by left]. Qed.

(** the bookkeeping that follows a new state [cp] of a pane *)
Lemma bookkeeping_ok c id s cp prev att existed :
  0 <= c < revCounter s -> ready (revCounter s) prev existed (view s id) ->
  PaneID (info cp) = id -> blockedOk cp ->
  let s' := restoreSeen (registerTransition (putAgent s id cp) id prev (Status cp) att).1 cp existed in
  touch c id s s' /\ viewOk (revCounter s) id (view s' id) /\
  v_rev (view s' id) = Some (revCounter s) /\ v_agent (view s' id) = Some cp.
Proof.
  intros Hc [Hp Hd Hs Hr He] Hid Hb. cbv zeta. pose proof (view_put s id cp) as Hv.
  assert (Hrev : Revision (putAgent s id cp) id = revCounter s) by (apply view_revision; by rewrite Hv).
  pose proof (view_register (putAgent s id cp) id prev (Status cp) att) as Hvr. rewrite Hv in Hvr.
  set (v := vregister prev (Status cp) att (vput cp (revCounter s) (view s id))) in *.
  assert (Hok : viewOk (revCounter s) id v) by (apply viewOk_register; (done || lia)).
  rewrite (view_restore _ cp existed id Hid), Hvr. destruct (vrestore_keeps cp existed v) as [-> ->].
  unfold v at 2 3. rewrite vregister_rev, vregister_agent. split_and!; try done.
  - eapply touch_trans; [apply touch_put|].
    eapply touch_trans; [apply touch_register; rewrite Hrev; lia|by apply touch_restore].
  - apply viewOk_restore; [done|unfold v; by rewrite vregister_agent|].
    intros Hex. destruct (He Hex). unfold v. by apply vregister_unseen.
Qed.

Lemma maybeSync_ok c n id s cp (b : bool) p q :
  v_rev (view s id) = Some n -> c < n -> v_agent (view s id) = Some cp -> viewOk n id (view s id) ->
  let s' := if b then syncAttentionCompletionLocked s id p q else s in
  touch c id s s' /\ viewOk n id (view s' id) /\ v_agent (view s' id) = Some cp.
Proof.
  intros Hr Hc Ha Hok. cbv zeta. destruct b; [|split_and!; [apply touch_refl|done|done]].
  rewrite view_sync. split_and!.
  - apply touch_sync. by rewrite (view_revision _ _ _ Hr).
  - apply viewOk_sync; [done|]. by rewrite Ha.
  - unfold vsync. by repeat case_if.
Qed.

Lemma syncTriage_core s a : sameCore s (syncTriageLocked sha256hex s a).1.
Proof. unfold syncTriageLocked. by repeat case_if. Qed.

Lemma persistTriage_core s now : sameCore s (persistTriageLocked s now).1.
Proof. unfold persistTriageLocked. by case_if. Qed.

Lemma continuing_ok c s incoming :
  let id := PaneID (info incoming) in
  let '(existing, replaced) := continuing s incoming in
  let s1 := if replaced then endSession s id else s in
  viewOk (revCounter s) id (view s id) ->
  touch c id s s1 /\ agents s1 !! id = agents s !! id /\
  match existing with
  | Some e => view s1 id = view s id /\ agents s !! id = Some e
  | None => v_unseen (view s1 id) = false /\ v_ack (view s1 id) = false /\
            v_completion (view s1 id) = None /\ v_prev (view s1 id) = None
  end.
Proof.
  cbv zeta. unfold continuing. destruct (agents s !! PaneID (info incoming)) as [e|] eqn:E;
    [destruct (paneSessionReplaced e incoming)|]; intros Hok.
  - split; [apply touch_endSession|]. split; [done|]. unfold endSession. rewrite view_drop.
    cbn. by rewrite lookup_delete_eq.
  - split; [apply touch_refl|done].
  - split; [apply touch_refl|]. split; [done|]. destruct Hok as [V1 V2 V3 V4 V5 V6 V7].
    assert (Hnone : v_agent (view s (PaneID (info incoming))) = None) by done.
    split_and!.
    + apply not_true_iff_false. intros Hu. destruct (V5 (or_introl Hu)) as (a & Ha & _). congruence.
    + apply not_true_iff_false. intros Hu. destruct (V5 (or_intror Hu)) as (a & Ha & _). congruence.
    + destruct (v_completion _) eqn:Ec; [|done]. destruct (V6 _ eq_refl) as (a & ? & Ha & _). congruence.
    + rewrite V1, Hnone. done.
Qed.

(** the view [prepareAgent] hands over is that of a pane whose session goes on, or
    that of a new pane *)
Lemma continuing_ready c s incoming :
  let id := PaneID (info incoming) in
  let '(existing, replaced) := continuing s incoming in
  let s1 := if replaced then endSession s id else s in
  viewOk (revCounter s) id (view s id) ->
  touch c id s s1 /\
  ready (revCounter s) (default "" (v_prev (view s1 id))) (bool_decide (is_Some existing))
    (vsettle (view s1 id)).
Proof.
  cbv zeta. pose proof (continuing_ok c s incoming) as H. cbv zeta in H.
  destruct (continuing s incoming) as [[e|] replaced]; intros Hok;
    destruct (H Hok) as (T & _ & Hex); (split; [done|]).
  - destruct Hex as [-> Hag]. rewrite bool_decide_true by (by eexists).
    rewrite (vo_prev _ _ _ Hok). assert (Hv : v_agent (view s (PaneID (info incoming))) = Some e) by done.
    rewrite Hv. by apply (ready_going_on _ (PaneID (info incoming))).
  - destruct Hex as (Hu & Ha & Hc & Hp). rewrite Hp, bool_decide_false by (by intros []).
    split; cbn -[view]; rewrite ?Hu, ?Ha, ?Hc; try done.
Qed.

Lemma prepareAgent_ok c initial baseRev now s incoming :
  let id := PaneID (info incoming) in
  viewOk (revCounter s) id (view s id) ->
  let '(s', cp, existing, _) := prepareAgent sha256hex draw initial baseRev now s incoming in
  touch c id s s' /\ PaneID (info cp) = id /\ blockedOk cp /\
  ready (revCounter s') (default "" (prevStatus s' !! id)) (bool_decide (is_Some existing)) (view s' id).
Proof.
  cbv zeta. intros Hok. unfold prepareAgent. set (id := PaneID (info incoming)) in *.
  pose proof (continuing_ready c s incoming) as Hcont. cbv zeta in Hcont. fold id in Hcont.
  destruct (continuing s incoming) as [existing replaced].
  destruct (Hcont Hok) as (T1 & Hrd). clear Hcont.
  set (s1 := if replaced then endSession s id else s) in *.
  set (cp1 := carryOver _ s1 incoming existing baseRev).
  assert (I1 : info cp1 = info incoming) by apply carryOver_info.
  set (s2 := if _ && _ && _ && _ then BumpGeneration s1 id else s1).
  assert (T2 : touch c id s1 s2 /\ view s2 id = view s1 id).
  { unfold s2. case_if; [|split; [apply touch_refl|done]]. split; [apply touch_bump|done]. }
  destruct T2 as [T2 V2]. clearbody s2.
  pose proof (pending_ok c s2 cp1 now) as Hp. cbv zeta in Hp. rewrite I1 in Hp. fold id in Hp.
  destruct (applyPending s2 cp1 now) as [[s3 cp2] pts]. destruct Hp as (T3 & I2 & V3).
  destruct (stampUpdated_keeps cp2 existing pts initial now) as [I3 _].
  set (cp3 := stampUpdated cp2 existing pts initial now) in *. clearbody cp3.
  pose proof (blockedCycle_ok s3 cp3 existing now) as Hb. cbv zeta in Hb.
  destruct (applyBlockedCycleLocked draw s3 cp3 existing now) as [s4 cp]. cbn [fst snd] in Hb.
  destruct Hb as (C4 & I4 & _ & B4).
  set (changed := negb (blockedDetailsEqual existing (Some cp))).
  set (s5 := if _ || changed then set_contentRev _ s4 else s4).
  set (s6 := if changed then set_attentionRev _ s5 else s5).
  assert (C6 : sameCore s4 s6) by (unfold s6, s5; by repeat case_if). clearbody s6.
  assert (T6 : touch c id s s6).
  { repeat (eapply touch_trans; [eassumption|]).
    eapply touch_trans; [by apply touch_core|]. by apply touch_core. }
  assert (V6 : view s6 id = vsettle (view s1 id))
    by (rewrite (core_view _ _ _ C6), (core_view _ _ _ C4), V3, <- V2; done).
  split_and!; [done|unfold id; congruence|done|].
  change (prevStatus s6 !! id) with (v_prev (view s6 id)). by rewrite V6, (t_rev _ _ _ _ T6).
Qed.

Lemma installAgent_ok c s cp existing changed :
  let id := PaneID (info cp) in
  let s' := (installAgent sha256hex s cp existing changed).1.1 in
  0 <= c < revCounter s -> blockedOk cp ->
  ready (revCounter s) (default "" (prevStatus s !! id)) (bool_decide (is_Some existing)) (view s id) ->
  touch c id s s' /\ viewOk (revCounter s) id (view s' id) /\ agents s' !! id = Some cp.
Proof.
  cbv zeta. intros Hc Hb Hrd. unfold installAgent. set (id := PaneID (info cp)) in *.
  set (prev := default "" (prevStatus s !! id)) in *. set (att := from_option _ "" existing).
  destruct (bookkeeping_ok c id s cp prev att _ Hc Hrd eq_refl Hb) as (T8 & V8 & R8 & A8).
  destruct (registerTransition (putAgent s id cp) id prev (Status cp) att) as [s7 e1].
  cbn [fst] in *. set (s8 := restoreSeen s7 cp _) in *. clearbody s8.
  pose proof (syncTriage_core s8 cp) as C9.
  destruct (syncTriageLocked sha256hex s8 cp) as [s9 synced]. cbn [fst snd] in *.
  rewrite <- (core_view _ _ id C9) in V8, R8, A8.
  destruct (maybeSync_ok c (revCounter s) id s9 cp (negb (preservesChatCompletion prev (Status cp) att))
              att (AttentionKind (blocked cp)) R8) as (T10 & V10 & A10); [lia|done|done|].
  split_and!; [|done|done].
  eapply touch_trans; [exact T8|]. eapply touch_trans; [by apply touch_core|done].
Qed.

Lemma commitAgent_ok c initial baseRev now s dirty eff incoming :
  let id := PaneID (info incoming) in
  let s' := (commitAgent sha256hex draw initial baseRev now (s, dirty, eff) incoming).1.1 in
  viewOk (revCounter s) id (view s id) -> 0 <= c < revCounter s ->
  touch c id s s' /\ viewOk (revCounter s) id (view s' id) /\
  is_Some (agents s' !! id).
Proof.
  cbv zeta. intros Hok Hc. unfold commitAgent.
  pose proof (prepareAgent_ok c initial baseRev now s incoming Hok) as Hp.
  destruct (prepareAgent _ _ _ _ _ _ _) as [[[s1 cp] existing] changed].
  destruct Hp as (T1 & Hid & Hb & Hrd). rewrite <- Hid in *. rewrite <- (t_rev _ _ _ _ T1) in Hc |- *.
  pose proof (installAgent_ok c s1 cp existing changed Hc Hb Hrd) as (T2 & V2 & A2).
  destruct (installAgent _ _ _ _ _) as [[s2 synced] e]. cbn [fst] in *.
  split_and!; [by eapply touch_trans|done|by eexists].
Qed.

(** ** Inventories *)

Record sweep (c : Z) (s s' : State) : Prop := mkSweep {
  sw_rev : revCounter s' = revCounter s;
  sw_gen : forall i, Generation s i <= Generation s' i;
  sw_fin : forall i, finStep c (view s i) (view s' i);
  sw_answers : forall i m, customAnswers s' !! i = Some m -> customAnswers s !! i = Some m;
  sw_pending : (size (pendingEvents s') <= size (pendingEvents s))%nat
}.

Lemma touch_sweep c id s s' : touch c id s s' -> sweep c s s'.
Proof.
  intros [T1 T2 T3 T4 T5 T6]. split; try done. intros i.
  destruct (decide (i = id)) as [->|Hne]; [done|]. rewrite T3 by done. apply finStep_refl.
Qed.

Lemma sweep_refl c s : sweep c s s.
Proof. by apply (touch_sweep c ""), touch_refl. Qed.

Lemma sweep_trans c s1 s2 s3 : sweep c s1 s2 -> sweep c s2 s3 -> sweep c s1 s3.
Proof.
  intros [A1 A2 A3 A4 A5] [B1 B2 B3 B4 B5]. split; try congruence; auto.
  - intros i. specialize (A2 i). specialize (B2 i). lia.
  - intros i. by eapply finStep_trans.
  - lia.
Qed.

Definition panesOk (s : State) : Prop := forall id, viewOk (revCounter s) id (view s id).

Lemma touch_panes c id s s' :
  panesOk s -> touch c id s s' -> viewOk (revCounter s) id (view s' id) -> panesOk s'.
Proof.
  intros Hp [T1 T2 T3 T4 T5 T6] Hok i. rewrite T1. destruct (decide (i = id)) as [->|Hne]; [done|].
  rewrite T3 by done. apply Hp.
Qed.

Lemma commitAgents_ok c initial baseRev now l acc :
  panesOk acc.1.1 -> 0 <= c < revCounter acc.1.1 ->
  let s' := (foldl (commitAgent sha256hex draw initial baseRev now) acc l).1.1 in
  sweep c acc.1.1 s' /\ panesOk s'.
Proof.
  cbv zeta. revert acc. induction l as [|a l IH]; intros acc Hp Hc; cbn [foldl];
    [split; [apply sweep_refl|done]|].
  destruct acc as [[s dirty] eff]. cbn [fst] in *.
  pose proof (commitAgent_ok c initial baseRev now s dirty eff a (Hp _) Hc) as (T & V & _).
  set (acc1 := commitAgent _ _ _ _ _ _ _) in *.
  pose proof (touch_panes _ _ _ _ Hp T V) as Hp1.
  destruct (IH acc1 Hp1) as [Hs Hok]; [rewrite (t_rev _ _ _ _ T); lia|].
  split; [|done]. eapply sweep_trans; [by eapply touch_sweep|done].
Qed.

Lemma view_forget s id :
  view (forgetPane s id) id = mkView None None None false false false None (pendingEvents s !! id).
Proof. unfold forgetPane, view. cbn. vset. by rewrite !lookup_delete_eq. Qed.

Lemma touch_forget c s id : touch c id s (forgetPane s id).
Proof.
  split; try done.
  - intros i. unfold forgetPane. cbn. apply generation_bump.
  - vother.
  - rewrite view_forget. right. by left.
  - intros i m. unfold forgetPane. cbn. intros [_ ?]%lookup_delete_Some. done.
Qed.

Lemma viewOk_gone n id p : viewOk n id (mkView None None None false false false None p).
Proof. by split; [done|done|done|done|intros []|done|done]. Qed.

Lemma forgetPanes_ok c l s :
  panesOk s -> sweep c s (foldl forgetPane s l) /\ panesOk (foldl forgetPane s l).
Proof.
  revert s. induction l as [|id l IH]; intros s Hp; cbn [foldl]; [split; [apply sweep_refl|done]|].
  pose proof (touch_forget c s id) as T.
  destruct (IH (forgetPane s id)) as [Hs Hok].
  - apply (touch_panes c id s); [done|done|]. rewrite view_forget. apply viewOk_gone.
  - split; [|done]. eapply sweep_trans; [by eapply touch_sweep|done].
Qed.

Lemma viewOk_mono n n' id v : n <= n' -> viewOk n id v -> viewOk n' id v.
Proof.
  intros Hn [V1 V2 V3 V4 V5 V6 V7]. split; try done.
  destruct (v_agent v); [|done]. destruct V3 as (r & ? & ?). exists r. split; [done|lia].
Qed.

Lemma expire_ok c s now :
  let s' := set_pendingEvents (filter (fun kp => now < pe_expiresAt kp.2) (pendingEvents s)) s in
  panesOk s -> sweep c s s' /\ panesOk s'.
Proof.
  cbv zeta. intros Hp. split.
  - split; try done; [by left|]. cbn. apply map_size_filter.
  - intros id. destruct (Hp id) as [V1 V2 V3 V4 V5 V6 V7]. split; try done.
    intros [p Hf]. apply V7. cbn in *. apply map_lookup_filter_Some in Hf as [? _]. by eexists.
Qed.

(** a whole operation: [c] is the revision counter before it *)
Record evolve (s s' : State) : Prop := mkEvolve {
  ev_rev : revCounter s <= revCounter s';
  ev_gen : forall i, Generation s i <= Generation s' i;
  ev_fin : forall i, finStep (revCounter s) (view s i) (view s' i)
}.

Lemma evolve_core s s' : sameCore s s' -> evolve s s'.
Proof.
  intros Hc. destruct (touch_sweep (revCounter s) "" s s' (touch_core _ _ _ _ Hc)).
  split; [lia|done|done].
Qed.

Lemma commitInventory_ok s incoming baseRev now s' eff :
  wf s -> commitInventoryLocked sha256hex draw s incoming baseRev now = Some (s', eff) ->
  wf s' /\ evolve s s'.
Proof.
  intros [W1 W2 W3 W4] Hci. unfold commitInventoryLocked in Hci.
  destruct (mapM id incoming) as [l|]; [|done]. cbn [mbind option_bind] in Hci.
  set (s1 := if topologyChangedBy s l then _ else s) in *.
  assert (C1 : sameCore s s1) by (unfold s1; by case_if). clearbody s1.
  set (s2 := set_inventory _ _) in *.
  assert (V2 : forall i, view s2 i = view s i) by (intros i; by rewrite <- (core_view _ _ i C1)).
  assert (R2 : revCounter s2 = revCounter s + 1) by (cbn; by rewrite (sc_counter _ _ C1)).
  assert (P2 : panesOk s2).
  { intros i. rewrite V2, R2. apply (viewOk_mono (revCounter s)); [lia|apply W1]. }
  assert (G2 : generation s2 = generation s /\ customAnswers s2 = customAnswers s /\
               pendingEvents s2 = pendingEvents s).
  { cbn. rewrite (sc_generation _ _ C1), (sc_answers _ _ C1), (sc_pending _ _ C1). done. }
  clearbody s2. destruct G2 as (G2 & A2 & N2).
  destruct (commitAgents_ok (revCounter s) (negb (inventoryReady (inventory s))) baseRev now l
              (s2, false, []) P2) as [S3 P3]; [cbn; lia|].
  destruct (foldl _ _ l) as [[s3 dirty] e3]. cbn [fst] in *.
  set (gone := filter _ (elements _)) in *.
  destruct (forgetPanes_ok (revCounter s) gone s3 P3) as [S4 P4].
  destruct (expire_ok (revCounter s) (foldl forgetPane s3 gone) now P4) as [S5 P5]. cbv zeta in *.
  set (s5 := set_pendingEvents _ _) in *. clearbody s5.
  pose proof (sweep_trans _ _ _ _ (sweep_trans _ _ _ _ S3 S4) S5) as S.
  assert (Hfin : wf s5 /\ evolve s s5).
  { destruct S as [B1 B2 B3 B4 B5]. split.
    - split; [done| | |lia].
      + rewrite N2 in B5. lia.
      + intros i m Hm. apply (W3 i). rewrite <- A2. by apply B4.
    - split; [lia| |].
      + intros i. specialize (B2 i). unfold Generation in *. by rewrite G2 in B2.
      + intros i. rewrite <- V2. apply B3. }
  destruct Hfin as [Hwf Hev]. destruct dirty; [|by simplify_eq].
  pose proof (persistTriage_core s5 now) as C6.
  destruct (persistTriageLocked s5 now) as [s6 e6]. simplify_eq. cbn [fst] in C6.
  split; [by apply (wf_core s5)|]. destruct Hev as [E1 E2 E3].
  destruct (evolve_core s5 s' C6) as [F1 F2 _]. split; [lia| |].
  - intros i. specialize (E2 i). specialize (F2 i). lia.
  - intros i. by rewrite (core_view _ _ i C6).
Qed.

(** ** Events *)

Lemma oldestPending_in order : order <> [] -> exists p, (oldestPending order, p) ∈ order.
Proof.
  assert (Hgen : forall l seen acc, (exists p, (acc.1, p) ∈ (seen : list (string * pendingEvent))) ->
    exists p, ((foldl (fun acc kp => if String.eqb acc.1 "" || (pe_expiresAt kp.2 <? acc.2)
                        then (kp.1, pe_expiresAt kp.2) else acc) acc l).1, p) ∈ seen ++ l).
  { induction l as [|[k p] l IH]; intros seen acc Hacc; cbn [foldl]; [by rewrite app_nil_r|].
    replace (seen ++ (k, p) :: l) with ((seen ++ [(k, p)]) ++ l) by (by rewrite <- app_assoc).
    apply IH. destruct Hacc as [q Hq]. case_if; cbn [fst];
      [exists p|exists q]; apply elem_of_app; [right; by apply list_elem_of_singleton|by left]. }
  destruct order as [|[k p] l]; [done|]. intros _. unfold oldestPending. cbn [foldl fst].
  apply (Hgen l [(k, p)]). exists p. by apply list_elem_of_singleton.
Qed.

Lemma defer_ok s paneID tabID workspaceID status updatedAt now order :
  wf s -> agents s !! paneID = None -> order ≡ₚ map_to_list (pendingEvents s) ->
  wf (deferEvent s paneID tabID workspaceID status updatedAt now order) /\
  evolve s (deferEvent s paneID tabID workspaceID status updatedAt now order).
Proof.
  intros [W1 W2 W3 W4] Hnone Hord. unfold deferEvent.
  set (pending := if Z.of_nat (size (pendingEvents s)) >=? maxPending then _ else pendingEvents s).
  assert (Hsub : forall i p, pending !! i = Some p -> pendingEvents s !! i = Some p).
  { intros i p. unfold pending. case_if; [|done]. by intros [_ ?]%lookup_delete_Some. }
  assert (Hsize : Z.of_nat (size pending) < maxPending).
  { unfold pending. unfold maxPending in *. case_if; zb; [|lia].
    destruct (oldestPending_in order) as [p Hp].
    - intros ->. assert (length (map_to_list (pendingEvents s)) = 0%nat) by (by rewrite <- Hord).
      rewrite length_map_to_list in H. lia.
    - set (oldest := oldestPending order) in *. rewrite Hord in Hp. apply elem_of_map_to_list in Hp.
      rewrite map_size_delete_Some by (rewrite Hp; by eexists). lia. }
  split; split; try done.
  - intros i. cbn [revCounter set_pendingEvents]. destruct (W1 i) as [V1 V2 V3 V4 V5 V6 V7].
    split; try done. cbn. intros [p Hp]. apply lookup_insert_Some in Hp as [[<- _]|[_ Hp]]; [done|].
    apply V7. cbn. by rewrite (Hsub i p).
  - cbn [pendingEvents set_pendingEvents]. rewrite map_size_insert.
    destruct (pending !! paneID); unfold maxPending, id in *; lia.
  - intros i. by left.
Qed.

Lemma eventAgent_ok s before status updatedAt now :
  let out := eventAgent draw s before status updatedAt now in
  sameCore s out.1 /\ onTransition out.1 = onTransition s /\
  info out.2 = info before /\ Status out.2 = status /\ (blockedOk before -> blockedOk out.2).
Proof.
  cbv zeta. unfold eventAgent.
  set (a1 := set_UpdatedAt updatedAt (set_Status status before)).
  set (a2 := if updatedAt >? LastActiveAt a1 then set_LastActiveAt updatedAt a1 else _).
  assert (A2 : info a2 = info before /\ Status a2 = status /\ blocked a2 = blocked before)
    by (unfold a2; by repeat case_if).
  clearbody a2. destruct A2 as (I2 & St2 & B2).
  destruct (newBlockedEventID_ok s now) as [Hc Hne].
  assert (Hon : onTransition (newBlockedEventIDLocked draw s now).1 = onTransition s)
    by (unfold newBlockedEventIDLocked; cbn; by destruct (draw _)).
  destruct (newBlockedEventIDLocked draw s now) as [s' fresh]. cbn [fst snd] in *.
  unfold blockedOk in *. destruct (String.eqb_spec status "blocked") as [Hb|Hb].
  - destruct (negb (String.eqb (Status before) "blocked") || _) eqn:E;
      cbn [fst snd]; split_and!; try done; cbn; rewrite St2, Hb; [done|].
    rewrite B2. cbn. apply orb_false_iff in E as [E%negb_false_iff _]. by rewrite E.
  - split_and!; try done. cbn. rewrite St2. by destruct (String.eqb_spec status "blocked").
Qed.

Lemma persisted_core s (synced : bool) now eff :
  sameCore s (if synced then let (s, e) := persistTriageLocked s now in (s, eff ++ e)
              else (s, eff)).1.
Proof.
  destruct synced; [|done]. pose proof (persistTriage_core s now) as H.
  by destruct (persistTriageLocked s now).
Qed.

Lemma installEvent_ok c s id before a now :
  let s' := (installEvent sha256hex s id before a now).1 in
  0 <= c < revCounter s -> PaneID (info a) = id -> blockedOk a ->
  ready (revCounter s) (Status before) true (view s id) ->
  touch c id s s' /\ viewOk (revCounter s) id (view s' id).
Proof.
  cbv zeta. intros Hc Hid Hb Hrd. unfold installEvent. set (att := AttentionKind (blocked before)).
  destruct (bookkeeping_ok c id s a _ att _ Hc Hrd Hid Hb) as (T8 & V8 & R8 & A8).
  change (restoreSeen ?x a true) with x in *.
  destruct (registerTransition (putAgent s id a) id (Status before) (Status a) att) as [s8 e8].
  cbn [fst] in *.
  destruct (maybeSync_ok c (revCounter s) id s8 a
              (negb (preservesChatCompletion (Status before) (Status a) att))
              att (AttentionKind (blocked a)) R8) as (T9 & V9 & _); [lia|done|done|].
  set (s9 := if negb _ then _ else s8) in *. clearbody s9.
  pose proof (syncTriage_core s9 a) as C10.
  destruct (syncTriageLocked sha256hex s9 a) as [s10 synced]. cbn [fst] in C10.
  pose proof (persisted_core s10 synced now e8) as C11. destruct (if synced then _ else _) as [s11 e11].
  cbn [fst] in *. split; [|by rewrite (core_view _ _ id C11), (core_view _ _ id C10)].
  eapply touch_trans; [exact T8|]. eapply touch_trans; [exact T9|].
  eapply touch_trans; by apply touch_core.
Qed.

(** a change confined to one pane under a new revision *)
Lemma wf_next id s s1 s2 :
  wf s -> sameCore (set_revCounter (revCounter s + 1) s) s1 -> touch (revCounter s) id s1 s2 ->
  viewOk (revCounter s1) id (view s2 id) -> wf s2 /\ evolve s s2.
Proof.
  intros [W1 W2 W3 W4] C1 [B1 B2 B3 B4 B5 B6] Hv.
  assert (V1 : forall i, view s1 i = view s i) by (intros i; by rewrite (core_view _ _ i C1)).
  destruct C1 as [_ _ _ _ _ _ _ K1 K2 K3 K4]. cbn in K1, K2, K3, K4. split; split; try lia.
  - intros i. rewrite B1. destruct (decide (i = id)) as [->|Hne]; [done|].
    rewrite B3, V1, K2 by done. apply (viewOk_mono (revCounter s)); [lia|apply W1].
  - rewrite K1 in B6. lia.
  - intros i m Hm. apply (W3 i). rewrite <- K4. by apply B5.
  - intros i. specialize (B2 i). unfold Generation in *. by rewrite K3 in B2.
  - intros i. destruct (decide (i = id)) as [->|Hne]; [by rewrite <- V1|].
    rewrite B3, V1 by done. apply finStep_refl.
Qed.

Lemma event_ok s paneID tabID workspaceID status updatedAt now order :
  wf s -> order ≡ₚ map_to_list (pendingEvents s) ->
  let s' := (CommitEventForSession sha256hex draw s paneID tabID workspaceID status updatedAt now
               order).1.1 in
  wf s' /\ evolve s s'.
Proof.
  intros W Hord. cbv zeta. unfold CommitEventForSession.
  destruct (agents s !! paneID) as [before|] eqn:Eag; [|by apply defer_ok].
  case_if; [split; [done|by apply evolve_core]|].
  pose proof (wf_panes _ W paneID) as Hok. destruct (vo_agent _ _ _ Hok _ Eag) as [Hid Hbo].
  set (s1 := set_revCounter _ s). set (s3 := if negb (String.eqb (Status before) status) then _ else s1).
  assert (C3 : sameCore s1 s3) by (unfold s3; by case_if). clearbody s3.
  destruct (eventAgent_ok s3 before status updatedAt now) as (C4 & _ & Ia & _ & Ba).
  specialize (Ba Hbo).
  destruct (eventAgent draw s3 before status updatedAt now) as [s4 a]. cbn [fst snd] in *.
  set (s5 := if negb (blockedDetailsEqual _ _) then _ else s4).
  assert (C5 : sameCore s1 s5).
  { assert (sameCore s4 s5) as [] by (unfold s5; by case_if). destruct C3, C4. split; congruence. }
  clearbody s5. pose proof (wf_counter _ W).
  assert (R5 : revCounter s5 = revCounter s + 1) by apply (sc_counter _ _ C5).
  assert (V5 : view s5 paneID = vsettle (view s paneID)).
  { rewrite (core_view _ _ _ C5). unfold vsettle. cbn. unfold view. f_equal. cbn.
    destruct (pendingEvents s !! paneID) eqn:Ep; [|done].
    assert (v_agent (view s paneID) = None) as Hn by (apply (vo_pending _ _ _ Hok); cbn; rewrite Ep; by eexists).
    cbn in Hn. congruence. }
  destruct (installEvent_ok (revCounter s) s5 paneID before a now) as [T V]; try done; try lia.
  - congruence.
  - rewrite V5. apply (ready_going_on _ paneID); [|done]. apply (viewOk_mono (revCounter s)); [lia|done].
  - cbn [fst]. by apply (wf_next paneID s s5).
Qed.

(** ** Classification, acknowledgement, notifications, answers *)

(** a pane's state replaced by one with the same status and valid details *)
Lemma vput_same n id v a a' :
  viewOk n id v -> v_agent v = Some a -> Status a' = Status a -> PaneID (info a') = id ->
  blockedOk a' ->
  viewOk n id (mkView (Some a') (v_prev v) (v_rev v) (v_unseen v) (v_ack v) (v_notif v)
                 (v_completion v) (v_pending v)).
Proof.
  intros [V1 V2 V3 V4 V5 V6 V7] Ha Hs Hid Hb. split; cbn; try done.
  - rewrite V1, Ha. cbn. congruence.
  - intros b [= <-]. done.
  - by rewrite Ha in V3.
  - intros H. destruct (V5 H) as (b & Hb' & Hatt). exists a'. split; [done|]. congruence.
  - intros r Hr. destruct (V6 r Hr) as (b & m & _ & Hm). by exists a', m.
  - intros H. specialize (V7 H). congruence.
Qed.

Lemma same_status_ok c s id a a' :
  viewOk (revCounter s) id (view s id) -> agents s !! id = Some a -> Status a' = Status a ->
  PaneID (info a') = id -> blockedOk a' ->
  let s' := set_agents (<[id := a']> (agents s)) s in
  touch c id s s' /\ viewOk (revCounter s) id (view s' id).
Proof.
  intros Hok Hag Hs Hid Hb. cbv zeta. split; [split; try done; [vother|by left]|].
  pose proof (vput_same _ _ _ a a' Hok Hag Hs Hid Hb) as H. unfold view in *. cbn in *.
  by rewrite lookup_insert_eq.
Qed.

(** a change confined to one pane *)
Lemma wf_touch id s s' :
  wf s -> touch (revCounter s) id s s' -> viewOk (revCounter s) id (view s' id) ->
  wf s' /\ evolve s s'.
Proof.
  intros [W1 W2 W3 W4] [B1 B2 B3 B4 B5 B6] Hv. split; split; try lia.
  - intros i. rewrite B1. destruct (decide (i = id)) as [->|Hne]; [done|]. by rewrite B3.
  - intros i m Hm. apply (W3 i). by apply B5.
  - done.
  - intros i. destruct (decide (i = id)) as [->|Hne]; [done|]. rewrite B3 by done. apply finStep_refl.
Qed.

(** a pane that was there gets the current revision *)
Lemma stamp_ok c n s id a :
  viewOk n id (view s id) -> v_agent (view s id) = Some a -> n < revCounter s ->
  let s' := set_revision (<[id := revCounter s]> (revision s)) s in
  touch c id s s' /\ viewOk (revCounter s) id (view s' id) /\
  v_rev (view s' id) = Some (revCounter s) /\ v_agent (view s' id) = Some a.
Proof.
  intros [V1 V2 V3 V4 V5 V6 V7] Ha Hn. cbv zeta. rewrite Ha in V3. destruct V3 as (rv & Hrv & Hrvn).
  split_and!; [split; try done; [vother|by left]| |cbn; by rewrite lookup_insert_eq|done].
  cbn in *. split; cbn; rewrite ?lookup_insert_eq; try done.
  - rewrite Ha. exists (revCounter s). split; [done|lia].
  - intros r Hr. destruct (V6 r Hr) as (b & m & Hb & Hm & Hle). simplify_eq.
    exists a, (revCounter s). split_and!; (done || lia).
Qed.

Lemma classified_blocked b c :
  BlockedEventID (applyAttentionClassification b c).1 = BlockedEventID b /\
  AttentionKind (applyAttentionClassification b c).1 = cl_Kind c.
Proof. done. Qed.

Lemma classification_ok s paneID eventID g contentRevision cl :
  wf s -> let s' := (CommitAttentionClassification s paneID eventID g contentRevision cl).1 in
  wf s' /\ evolve s s'.
Proof.
  intros W. cbv zeta. unfold CommitAttentionClassification.
  destruct (agents s !! paneID) as [a|] eqn:Eag; [|split; [done|by apply evolve_core]].
  destruct (_ || _ || _ || _) eqn:Eg; [split; [done|by apply evolve_core]|].
  apply orb_false_iff in Eg as [[[Eg%negb_false_iff%String.eqb_eq _]%orb_false_iff _]%orb_false_iff _].
  set (cl1 := if String.eqb (cl_Kind cl) "" then _ else cl).
  assert (Hk : cl_Kind cl1 <> "") by (unfold cl1; by destruct (String.eqb_spec (cl_Kind cl) "")).
  clearbody cl1. destruct (classified_blocked (blocked a) cl1) as [Hd1 Hd2].
  destruct (applyAttentionClassification (blocked a) cl1) as [details changed]. cbn [fst] in Hd1, Hd2.
  pose proof (wf_panes _ W paneID) as Hok. destruct (vo_agent _ _ _ Hok a Eag) as [Hid Hb].
  assert (Hb' : blockedOk (set_blocked details a)).
  { unfold blockedOk in *. cbn. rewrite Eg in *. cbn in *. rewrite Hd1, Hd2. by destruct Hb. }
  destruct (same_status_ok (revCounter s) s paneID a (set_blocked details a) Hok Eag eq_refl Hid Hb')
    as [T1 P1].
  destruct changed; cbn [fst]; [|by apply (wf_touch paneID)].
  set (a' := set_blocked details a) in *. set (s0 := set_revCounter (revCounter s + 1) s).
  set (s1 := set_revCounter _ (set_agents _ s)).
  assert (T1' : touch (revCounter s) paneID s0 s1) by (destruct T1; split; done).
  assert (A1 : v_agent (view s1 paneID) = Some a') by (cbn; by rewrite lookup_insert_eq).
  destruct (stamp_ok (revCounter s) (revCounter s) s1 paneID a' P1 A1) as (T2 & P2 & R2 & A2);
    [cbn; lia|].
  set (s2 := set_revision _ s1) in *. set (s3 := set_attentionRev _ (set_contentRev _ s2)).
  assert (C3 : sameCore s2 s3) by done. rewrite <- (core_view _ _ _ C3) in P2, R2, A2.
  destruct (maybeSync_ok (revCounter s) (revCounter s1) paneID s3 a' true (AttentionKind (blocked a))
              (AttentionKind details) R2) as (T4 & P4 & _); [cbn; lia|done|done|].
  apply (wf_next paneID s s0); [done|done| |done].
  eapply touch_trans; [exact T1'|]. eapply touch_trans; [exact T2|].
  eapply touch_trans; [by apply touch_core|done].
Qed.

(** a pane that was seen leaves the finished set for the acknowledged one *)
Lemma mark_seen_ok c s id a :
  viewOk (revCounter s) id (view s id) -> v_agent (view s id) = Some a ->
  bool_decide (id ∈ unseenDone s) || doneStatuses (Status a) = true ->
  let s' := set_ackDone (ackDone s ∪ {[id]}) (set_unseenDone (unseenDone s ∖ {[id]}) s) in
  touch c id s s' /\ viewOk (revCounter s) id (view s' id).
Proof.
  intros [V1 V2 V3 V4 V5 V6 V7] Ha E. cbv zeta. split; [split; try done; [vother|by left]|].
  rewrite view_ack. rewrite Ha in *.
  split; cbn [v_agent v_prev v_rev v_unseen v_ack v_notif v_completion v_pending]; rewrite ?Ha; try done.
  intros _. exists a. split; [done|].
  apply orb_true_iff in E as [E|E]; [|by apply done_not_attention].
  destruct (V5 (or_introl E)) as (b & Hb' & Hatt). by simplify_eq.
Qed.

Lemma acknowledge_ok s paneID now :
  wf s -> let s' := (AcknowledgePane sha256hex s paneID now).1.1 in wf s' /\ evolve s s'.
Proof.
  intros W. cbv zeta. unfold AcknowledgePane.
  destruct (agents s !! paneID) as [a|] eqn:Eag; [|split; [done|by apply evolve_core]].
  pose proof (wf_panes _ W paneID) as Hok. destruct (vo_agent _ _ _ Hok a Eag) as [Hid Hb].
  set (a' := set_LastSeenAt _ a).
  destruct (same_status_ok (revCounter s) s paneID a a' Hok Eag eq_refl Hid Hb) as [T1 P1].
  set (s1 := set_agents _ s) in *.
  assert (A1 : v_agent (view s1 paneID) = Some a') by (cbn; by rewrite lookup_insert_eq).
  set (s2 := if bool_decide (paneID ∈ unseenDone s1) || doneStatuses (Status a') then _ else s1).
  assert (H2 : touch (revCounter s) paneID s s2 /\ viewOk (revCounter s) paneID (view s2 paneID)).
  { unfold s2. destruct (bool_decide _ || _) eqn:E; [|done].
    destruct (mark_seen_ok (revCounter s) s1 paneID a' P1 A1 E) as [T2 P2].
    split; [by eapply touch_trans|done]. }
  clearbody s2. destruct H2 as [T2 P2]. pose proof (syncTriage_core s2 a') as C3.
  destruct (syncTriageLocked sha256hex s2 a') as [s3 synced]. cbn [fst] in C3.
  assert (Hfin : forall t, sameCore s3 t -> wf t /\ evolve s t).
  { intros t Ct. apply (wf_touch paneID); [done| |by rewrite (core_view _ _ _ Ct), (core_view _ _ _ C3)].
    eapply touch_trans; [exact T2|]. eapply touch_trans; by apply touch_core. }
  pose proof (persistTriage_core s3 now) as C4. destruct (persistTriageLocked s3 now) as [s4 e4].
  destruct synced; by apply Hfin.
Qed.

Lemma notified_ok s paneID :
  wf s -> let s' := set_finishedNotif (finishedNotif s ∪ {[paneID]}) s in wf s' /\ evolve s s'.
Proof.
  intros [W1 W2 W3 W4]. cbv zeta. split; split; try done.
  - intros i. destruct (W1 i). by split.
  - intros i. left. cbn. split; [done|]. rewrite !bool_decide_eq_true. apply elem_of_union_l.
Qed.

Lemma answer_ok s paneID key text :
  wf s -> wf (RecordCustomAnswer s paneID key text) /\ evolve s (RecordCustomAnswer s paneID key text).
Proof.
  intros W. unfold RecordCustomAnswer. case_if; [split; [done|by apply evolve_core]|].
  destruct W as [W1 W2 W3 W4]. set (answers := default ∅ (customAnswers s !! paneID)).
  assert (Ha : Z.of_nat (size answers) <= 32).
  { unfold answers. destruct (customAnswers s !! paneID) as [m|] eqn:Em; [by apply (W3 paneID)|].
    cbn. rewrite map_size_empty. lia. }
  assert (Hset : forall m, Z.of_nat (size m) <= 32 -> forall t,
    sameCore (set_customAnswers (customAnswers t) s) t ->
    customAnswers t = <[paneID := m]> (customAnswers s) -> wf t /\ evolve s t).
  { intros m Hm t Ht Hc. split; [|].
    - apply (wf_core _ _ Ht). split; try done. cbn. rewrite Hc. intros i m' Hm'.
      apply lookup_insert_Some in Hm' as [[_ <-]|[_ ?]]; [done|by apply (W3 i)].
    - destruct (evolve_core _ _ Ht) as [E1 E2 E3]. by split. }
  destruct (_ && _) eqn:Ec.
  - by apply (Hset answers).
  - apply (Hset (<[key := text]> answers)).
    + destruct (decide (is_Some (answers !! key))) as [Hs|Hs].
      * by rewrite map_size_insert_Some.
      * rewrite map_size_insert_None by (by apply eq_None_not_Some).
        rewrite bool_decide_false in Ec by done. cbn in Ec. zb. lia.
    + done.
    + cbn. by rewrite insert_insert_eq.
Qed.

End Steps.

End StateInv.
