(* ===== verification/StateSafety.v ===== *)
(** The pane state over whole runs: every operation is a step, every reachable
    state is consistent, and the guarantees the rest of the relay builds on:
    what the phone is shown, which status survives a poll, when a pane session
    ends, how often a completion is announced. *)
From S2P Require Import Prelude GoLib State StateInv.
From stdpp Require Import pretty sorting.
#[local] Open Scope Z_scope.

Module StateSafety.
Import State StateInv.

Section Runs.
Context (sha256hex : string -> string) (draw : Z -> option bytes).
Hypothesis draw_size : forall n v, draw n = Some v -> len v = 12.

(** one call of a method that changes the state *)
Inductive step : State -> State -> Prop :=
| step_callback s : step s (SetOnTransition s)
| step_failure s err now : step s (MarkInventoryFailure s err now)
| step_degraded s now : step s (MarkTopologyDegraded s now)
| step_topology s : step s (MarkTopologyChanged s)
| step_generation s id : step s (BumpGeneration s id)
| step_answer s id key text : step s (RecordCustomAnswer s id key text)
| step_workspaces s ws : step s (CommitWorkspaces s ws).1
| step_inventory s incoming baseRev now s' eff :
    CommitInventory sha256hex draw s incoming baseRev now = Some (s', eff) -> step s s'
| step_topologyCommit s incoming ws baseRev now s' eff b :
    CommitTopology sha256hex draw s incoming ws baseRev now = Some (s', eff, b) -> step s s'
| step_poll s incoming ws token now s' eff b :
    CommitPoll sha256hex draw s incoming ws token now = Some (s', eff, b) -> step s s'
| step_event s id tab ws status updatedAt now order :
    order ≡ₚ map_to_list (pendingEvents s) ->
    step s (CommitEventForSession sha256hex draw s id tab ws status updatedAt now order).1.1
| step_classify s id eventID g rev c :
    step s (CommitAttentionClassification s id eventID g rev c).1
| step_acknowledge s id now : step s (AcknowledgePane sha256hex s id now).1.1
| step_finished s id : step s (RegisterFinishedNotification s id).1
| step_finishedFor s id rev : step s (RegisterFinishedNotificationForTransition s id rev).1
| step_triage s path file now s' eff :
    EnableTriagePersistence s path file now = Ok (s', eff) -> step s s'.

Lemma NewState_wf : wf NewState.
Proof.
  split; try done. intros id. split; try done. by intros [].
Qed.

Lemma workspaces_core s ws : sameCore s (commitWorkspacesLocked s ws).1.
Proof. unfold commitWorkspacesLocked. by case_if. Qed.

(** a change of other fields, then an inventory *)
Lemma after_core s s1 s2 : wf s -> sameCore s s1 -> wf s2 /\ evolve s1 s2 -> wf s2 /\ evolve s s2.
Proof.
  intros W Hc [W2 [E1 E2 E3]]. split; [done|]. split.
  - by rewrite <- (sc_counter _ _ Hc).
  - intros i. unfold Generation in *. rewrite <- (sc_generation _ _ Hc). apply E2.
  - intros i. rewrite <- (core_view _ _ i Hc), <- (sc_counter _ _ Hc). apply E3.
Qed.

Lemma step_ok s s' : wf s -> step s s' -> wf s' /\ evolve s s'.
Proof.
  intros W Hs.
  assert (Hcore : forall t t', wf t -> sameCore t t' -> wf t' /\ evolve t t').
  { intros t t' Wt Ct. split; [by apply (wf_core t)|by apply evolve_core]. }
  destruct Hs as [s|s err now|s now|s|s id|s id key text|s ws|s inc rev now s' eff Hc
    |s inc ws rev now s' eff b Hc|s inc ws tok now s' eff b Hc|s id tab ws st upd now order Hord
    |s id ev g rev c|s id now|s id|s id rev|s path file now s' eff Hc].
  - by apply Hcore.
  - by apply Hcore.
  - by apply Hcore.
  - by apply Hcore.
  - destruct (touch_bump (revCounter s) id id s) as [T1 T2 T3 T4 T5 T6].
    pose proof W as [W1 W2 W3 W4]. split; split; try done. intros i. apply finStep_refl.
  - by apply answer_ok.
  - apply Hcore; [done|apply workspaces_core].
  - by apply (commitInventory_ok sha256hex draw draw_size s inc rev now s' eff).
  - unfold CommitTopology in Hc. pose proof (workspaces_core s ws) as C1.
    destruct (commitWorkspacesLocked s ws) as [s1 changed]. cbn [fst] in C1.
    set (s2 := if changed then _ else s1) in Hc.
    assert (C2 : sameCore s s2) by (destruct C1; unfold s2; case_if; by split). clearbody s2.
    destruct (commitTopologyLocked _ _ s2 inc rev now) as [[s3 e3]|] eqn:E3; [|done].
    cbn in Hc. simplify_eq. apply (after_core s s2); [done|done|].
    exact (commitInventory_ok sha256hex draw draw_size s2 _ rev now s' eff (wf_core _ _ C2 W) E3).
  - unfold CommitPoll in Hc. case_if_in Hc; [simplify_eq; by apply Hcore|].
    pose proof (workspaces_core s ws) as C1.
    destruct (commitWorkspacesLocked s ws) as [s1 changed]. cbn [fst] in C1.
    destruct (commitInventoryLocked _ _ s1 inc _ now) as [[s3 e3]|] eqn:E3; [|done].
    cbn in Hc. simplify_eq. apply (after_core s s1); [done|done|].
    exact (commitInventory_ok sha256hex draw draw_size s1 inc _ now s' eff (wf_core _ _ C1 W) E3).
  - by apply event_ok.
  - by apply classification_ok.
  - by apply acknowledge_ok.
  - unfold RegisterFinishedNotification. case_if; [by apply Hcore|by apply notified_ok].
  - unfold RegisterFinishedNotificationForTransition.
    destruct (agents s !! id); [|by apply Hcore]. case_if; [by apply Hcore|by apply notified_ok].
  - unfold EnableTriagePersistence in Hc. destruct file as [[[version panes]|]|];
      [|done|simplify_eq; by apply Hcore].
    destruct (loadTriage version panes) as [loaded|]; [|done].
    case_if_in Hc; [|simplify_eq; by apply Hcore].
    pose proof (persistTriage_core (set_triage loaded (set_triagePath path s)) now) as C.
    destruct (persistTriageLocked _ now) as [s1 e1]. simplify_eq. apply Hcore; [done|].
    destruct C. by split.
Qed.

Lemma steps_ok s s' :
  wf s -> rtc step s s' ->
  wf s' /\ revCounter s <= revCounter s' /\ forall i, Generation s i <= Generation s' i.
Proof.
  intros W Hs. revert W. induction Hs as [|x y z Hxy _ IH]; intros W; [done|].
  destruct (step_ok x y W Hxy) as [Wy [E1 E2 _]]. destruct (IH Wy) as (Wz & Hr & Hg).
  split_and!; [done|lia|]. intros i. specialize (E2 i). specialize (Hg i). lia.
Qed.

(** C1: in every state the relay can reach, whatever polls, events,
    classifications, acknowledgements and notifications interleave, the
    bookkeeping is consistent: an agent is filed under its own pane id with a
    revision no greater than the global counter, its previous status is its
    current one, it has question details exactly while it is blocked, a pane is
    never both unseen and acknowledged and only while not busy, no event is
    pending for a known pane, at most 128 events are pending and at most 32
    answers are kept for a pane. *)
Theorem reachable_consistent s : rtc step NewState s -> wf s.
Proof. intros Hs. by destruct (steps_ok _ _ NewState_wf Hs). Qed.

(** ** What the phone is shown *)

Lemma paneLe_total : Total paneLe.
Proof.
  intros a b. unfold paneLe. destruct (String.leb_total (PaneID (info a)) (PaneID (info b))); auto.
Qed.

Lemma snapshotAgent_status s id a :
  viewOk (revCounter s) id (view s id) -> agents s !! id = Some a ->
  PaneID (info (snapshotAgent s a)) = id /\ Status (snapshotAgent s a) = DisplayedStatus s id.
Proof.
  intros Hok Ha. destruct (vo_agent _ _ _ Hok a Ha) as [Hid _].
  pose proof (vo_disj _ _ _ Hok) as Hd. cbn in Hd. unfold snapshotAgent, DisplayedStatus.
  rewrite Ha, Hid. cbn [Status set_StateRevision].
  destruct (doneStatuses (Status a) && bool_decide (id ∈ ackDone s)) eqn:E1;
    cbn [Status set_Status set_StateRevision info].
  - apply andb_true_iff in E1 as [_ E1]. destruct (bool_decide (id ∈ unseenDone s)); [by destruct Hd|].
    rewrite andb_false_r. by rewrite ?Hid.
  - case_if; by rewrite ?Hid.
Qed.

(** A snapshot sent to the phone is ordered by pane id and has exactly one
    entry for every pane, with the status [DisplayedStatus] gives: in no
    reachable state do the two differ. *)
Theorem snapshot_displayed s :
  rtc step NewState s ->
  Sorted paneLe (Snapshot s) /\
  ((fun a => (PaneID (info a), Status a)) <$> Snapshot s) ≡ₚ
    ((fun id => (id, DisplayedStatus s id)) <$> (map_to_list (agents s)).*1).
Proof.
  intros Hs. destruct (steps_ok _ _ NewState_wf Hs) as [[W1 _ _ _] _]. unfold Snapshot. split.
  - pose proof paneLe_total. apply Sorted_merge_sort. apply _.
  - rewrite merge_sort_Permutation, <- !list_fmap_compose.
    assert (Hall : Forall (fun ia => agents s !! ia.1 = Some ia.2) (map_to_list (agents s))).
    { apply Forall_forall. intros [i a] Hi. by apply elem_of_map_to_list in Hi. }
    induction Hall as [|[i a] l Hi _ IH]; [done|]. cbn in *. rewrite IH.
    destruct (snapshotAgent_status s i a (W1 i) Hi) as [-> ->]. done.
Qed.

(** ** Announcing a completion *)

Lemma fin_kept r id s s' :
  wf s -> rtc step s s' -> r <= revCounter s ->
  (completionRev s !! id = Some r -> id ∈ finishedNotif s) ->
  completionRev s' !! id = Some r -> id ∈ finishedNotif s'.
Proof.
  intros W Hs. revert W. induction Hs as [|x y z Hxy _ IH]; intros W Hr Hq; [done|].
  destruct (step_ok x y W Hxy) as [Wy [E1 _ E3]]. apply IH; [done|lia|].
  intros Hy. specialize (E3 id). unfold finStep in E3. cbn in E3.
  destruct E3 as [[E4 E5]|[E4|(r' & E4 & E5)]].
  - rewrite Hy in E4. apply bool_decide_eq_true in E5; [done|].
    apply bool_decide_eq_true. auto.
  - congruence.
  - rewrite Hy in E4. simplify_eq. lia.
Qed.

(** C6: a completion is announced at most once: once the notification of the
    completion at revision [r] was registered, no sequence of operations makes
    it registrable again, however the pane's status, its attention and the
    inventory change meanwhile. *)
Theorem finished_once s id r s1 s2 :
  rtc step NewState s -> 0 < r ->
  RegisterFinishedNotificationForTransition s id r = (s1, true) -> rtc step s1 s2 ->
  (RegisterFinishedNotificationForTransition s2 id r).2 = false.
Proof.
  intros Hs Hr Hreg Hs2. destruct (steps_ok _ _ NewState_wf Hs) as [W _].
  assert (Hc : completionRev s !! id = Some r /\ s1 = set_finishedNotif (finishedNotif s ∪ {[id]}) s).
  { unfold RegisterFinishedNotificationForTransition in Hreg.
    destruct (agents s !! id); [|done]. case_if_in Hreg; [done|]. simplify_eq.
    apply orb_false_iff in E as [E _]. apply orb_false_iff in E as [_ E%negb_false_iff%Z.eqb_eq].
    unfold completionOf in E. destruct (completionRev s !! id); cbn in E; [by subst|lia]. }
  destruct Hc as [Hc ->].
  assert (Hle : r <= revCounter s).
  { destruct W as [W1 _ _ _]. destruct (W1 id) as [_ _ V3 _ _ V6 _].
    destruct (V6 r Hc) as (a & m & Ha & Hm & Hle). rewrite Ha in V3. destruct V3 as (r' & Hr' & ?).
    simplify_eq. lia. }
  assert (Hq : completionRev s2 !! id = Some r -> id ∈ finishedNotif s2).
  { apply (fin_kept r id (set_finishedNotif (finishedNotif s ∪ {[id]}) s)); try done.
    - by apply notified_ok.
    - intros _. cbn. apply elem_of_union_r. by apply elem_of_singleton. }
  unfold RegisterFinishedNotificationForTransition. destruct (agents s2 !! id); [|done].
  case_if; [done|]. apply orb_false_iff in E as [E1 E2]. apply orb_false_iff in E1 as [_ E1].
  apply negb_false_iff, Z.eqb_eq in E1. apply bool_decide_eq_false in E2. exfalso. apply E2, Hq.
  unfold completionOf in E1. destruct (completionRev s2 !! id); cbn in E1; [by subst|lia].
Qed.

(** ** Announcing a transition *)

(** when the callback is due for a change of status *)
Definition announces (prev status previousAttention : string) : bool :=
  (attentionStatuses status && negb (String.eqb prev status)) ||
  (attentionStatuses prev &&
   (doneStatuses status ||
    String.eqb status "idle" &&
    negb (String.eqb prev "blocked" && String.eqb previousAttention AttentionChat))).

Lemma registerTransition_keeps s id prev st att :
  let s' := (registerTransition s id prev st att).1 in
  agents s' = agents s /\ revision s' = revision s /\ onTransition s' = onTransition s /\
  generation s' = generation s /\ pendingEvents s' = pendingEvents s.
Proof. cbv zeta. unfold registerTransition. by repeat case_if. Qed.

Lemma attention_cases st : attentionStatuses st = true -> st = "working" \/ st = "blocked".
Proof.
  unfold attentionStatuses. intros [E|E]%orb_true_iff; apply String.eqb_eq in E; auto.
Qed.

Lemma registerTransition_effects s id prev st att :
  (registerTransition s id prev st att).2 =
  if announces prev st att then notifyTransition s id st else [].
Proof.
  assert (Hn : forall t, agents t = agents s -> revision t = revision s -> onTransition t = onTransition s ->
    notifyTransition t id st = notifyTransition s id st).
  { intros t H1 H2 H3. unfold notifyTransition, Revision. by rewrite H1, H2, H3. }
  unfold registerTransition, announces. destruct (attentionStatuses st) eqn:Ea.
  - destruct (attention_cases st Ea) as [->| ->]; cbn;
      destruct (String.eqb prev _); cbn; rewrite ?andb_false_r; rewrite ?app_nil_r; try done; by apply Hn.
  - cbn [andb orb]. destruct (doneStatuses st) eqn:Ed.
    + destruct (attentionStatuses prev); [by apply Hn|done].
    + destruct (String.eqb st "idle"), (attentionStatuses prev), (String.eqb prev "blocked"),
        (String.eqb att AttentionChat); cbn; try done; by apply Hn.
Qed.

Definition isTransition (e : effect) : bool :=
  match e with Transition _ _ _ _ _ => true | PersistTriage _ _ => false end.

Lemma persist_no_transition s now : List.filter isTransition (persistTriageLocked s now).2 = [].
Proof. unfold persistTriageLocked. by case_if. Qed.

Lemma maybeSync_keeps s id (b : bool) p q :
  let s' := if b then syncAttentionCompletionLocked s id p q else s in
  agents s' = agents s /\ revision s' = revision s /\ revCounter s' = revCounter s /\
  generation s' = generation s.
Proof. cbv zeta. unfold syncAttentionCompletionLocked. by repeat case_if. Qed.

(** the callbacks a new state of a pane gives rise to *)
Lemma put_transition s id a prev att :
  let out := registerTransition (putAgent s id a) id prev (Status a) att in
  (agents out.1 !! id = Some a /\ Revision out.1 id = revCounter s /\ revCounter out.1 = revCounter s) /\
  List.filter isTransition out.2 =
    (if onTransition s && announces prev (Status a) att
     then [Transition id (Agent (info a)) (Project (info a)) (Status a) (revCounter s)] else []).
Proof.
  cbv zeta. set (s7 := putAgent s id a).
  assert (K : agents s7 !! id = Some a /\ Revision s7 id = revCounter s).
  { unfold s7, putAgent, Revision. cbn. by rewrite !lookup_insert_eq. }
  destruct K as [K1 K2].
  destruct (registerTransition_keeps s7 id prev (Status a) att) as (H1 & H2 & _).
  rewrite (registerTransition_effects s7 id prev (Status a) att).
  assert (T : revCounter (registerTransition s7 id prev (Status a) att).1 = revCounter s)
    by (unfold registerTransition; by repeat case_if).
  unfold notifyTransition. rewrite K1, K2. change (onTransition s7) with (onTransition s). split.
  - unfold Revision in *. by rewrite H1, H2, T.
  - by destruct (announces _ _ _), (onTransition s).
Qed.

Lemma installEvent_keeps s id before a now :
  let out := installEvent sha256hex s id before a now in
  agents out.1 !! id = Some a /\ Revision out.1 id = revCounter s /\ revCounter out.1 = revCounter s /\
  List.filter isTransition out.2 =
    (if onTransition s && announces (Status before) (Status a) (AttentionKind (blocked before))
     then [Transition id (Agent (info a)) (Project (info a)) (Status a) (revCounter s)] else []).
Proof.
  cbv zeta. unfold installEvent. set (att := AttentionKind (blocked before)).
  destruct (put_transition s id a (Status before) att) as [(K1 & K2 & K3) <-].
  destruct (registerTransition _ _ _ _ _) as [s8 e8]. cbn [fst snd] in *.
  destruct (maybeSync_keeps s8 id (negb (preservesChatCompletion (Status before) (Status a) att)) att
              (AttentionKind (blocked a))) as (H1 & H2 & H3 & _).
  set (s9 := if negb _ then _ else s8) in *. clearbody s9.
  pose proof (syncTriage_core sha256hex s9 a) as C10.
  destruct (syncTriageLocked sha256hex s9 a) as [s10 synced]. cbn [fst] in C10.
  pose proof (persisted_core s10 synced now e8) as C11.
  assert (N : List.filter isTransition (if synced then let (t, e) := persistTriageLocked s10 now in
    (t, e8 ++ e) else (s10, e8)).2 = List.filter isTransition e8).
  { destruct synced; [|done]. pose proof (persist_no_transition s10 now) as N.
    destruct (persistTriageLocked s10 now) as [t e]. cbn [snd] in *.
    by rewrite List.filter_app, N, app_nil_r. }
  rewrite N. destruct (if synced then _ else _) as [s11 e11]. cbn [fst] in *. unfold Revision in *.
  by rewrite (sc_agents _ _ C11), (sc_revision _ _ C11), (sc_counter _ _ C11),
    (sc_agents _ _ C10), (sc_revision _ _ C10), (sc_counter _ _ C10), H1, H2, H3.
Qed.

(** what an applied event does to its pane: the new status and revision, and the
    transition callbacks *)
Lemma event_applied s id tab ws status updatedAt now order s' eff before :
  agents s !! id = Some before ->
  CommitEventForSession sha256hex draw s id tab ws status updatedAt now order = (s', eff, true) ->
  (exists a, agents s' !! id = Some a /\ Status a = status /\ info a = info before) /\
  Revision s' id = revCounter s + 1 /\ revCounter s' = revCounter s + 1 /\
  List.filter isTransition eff =
    (if onTransition s && announces (Status before) status (AttentionKind (blocked before))
     then [Transition id (Agent (info before)) (Project (info before)) status (revCounter s + 1)]
     else []).
Proof.
  intros Hag Hev. unfold CommitEventForSession in Hev. rewrite Hag in Hev.
  case_if_in Hev; [done|]. set (s1 := set_revCounter _ s) in Hev.
  set (s3 := if negb (String.eqb (Status before) status) then _ else s1) in Hev.
  assert (C3 : revCounter s3 = revCounter s + 1 /\ onTransition s3 = onTransition s)
    by (unfold s3; by case_if).
  clearbody s3. destruct C3 as [R3 O3].
  destruct (eventAgent_ok draw draw_size s3 before status updatedAt now) as (C4 & O4 & Ia & Sa & _).
  destruct (eventAgent draw s3 before status updatedAt now) as [s4 a]. cbn [fst snd] in *.
  set (s5 := if negb (blockedDetailsEqual _ _) then _ else s4) in Hev.
  assert (C5 : revCounter s5 = revCounter s + 1 /\ onTransition s5 = onTransition s).
  { rewrite <- R3, <- O3, <- O4, <- (sc_counter _ _ C4). unfold s5. by case_if. }
  clearbody s5. destruct C5 as [R5 O5].
  destruct (installEvent_keeps s5 id before a now) as (K1 & K2 & K3 & K4).
  destruct (installEvent sha256hex s5 id before a now). cbn [fst snd] in *. simplify_eq.
  rewrite K4, O5, R5, Ia in *. split_and!; eauto.
Qed.

(** The transition callback fires exactly when a pane starts to work or to
    wait for input, or finishes; an event that repeats a status, or that only
    ends a chat the agent was waiting in, announces nothing. *)
Theorem event_announces s id tab ws status updatedAt now order s' eff before :
  onTransition s = true -> agents s !! id = Some before ->
  CommitEventForSession sha256hex draw s id tab ws status updatedAt now order = (s', eff, true) ->
  List.filter isTransition eff =
    (if announces (Status before) status (AttentionKind (blocked before))
     then [Transition id (Agent (info before)) (Project (info before)) status (revCounter s + 1)]
     else []).
Proof.
  intros Hon Hag Hev. destruct (event_applied _ _ _ _ _ _ _ _ _ _ _ Hag Hev) as (_ & _ & _ & ->).
  by rewrite Hon.
Qed.

(** ** What an inventory does to a pane *)

Lemma prepareAgent_fields initial baseRev now s incoming :
  let id := PaneID (info incoming) in
  let '(existing, replaced) := continuing s incoming in
  let s1 := if replaced then endSession s id else s in
  let cp1 := carryOver sha256hex s1 incoming existing baseRev in
  let s2 := if negb (bool_decide (is_Some existing)) && negb replaced && negb initial &&
               (Generation s1 id >? 0) then BumpGeneration s1 id else s1 in
  let out := (prepareAgent sha256hex draw initial baseRev now s incoming).1.1 in
  agents out.1 = agents s /\ generation out.1 = generation s2 /\ info out.2 = info incoming /\
  Status out.2 = Status (applyPending s2 cp1 now).1.2.
Proof.
  cbv zeta. unfold prepareAgent. set (id := PaneID (info incoming)).
  destruct (continuing s incoming) as [existing replaced].
  set (s1 := if replaced then endSession s id else s).
  assert (A1 : agents s1 = agents s) by (unfold s1; by case_if).
  pose proof (carryOver_info sha256hex s1 incoming existing baseRev) as I1.
  set (cp1 := carryOver _ s1 incoming existing baseRev) in *.
  set (s2 := if _ && _ && _ && _ then BumpGeneration s1 id else s1).
  assert (A2 : agents s2 = agents s) by (unfold s2; rewrite <- A1; by case_if). clearbody s1.
  assert (A3 : agents (applyPending s2 cp1 now).1.1 = agents s2 /\
               generation (applyPending s2 cp1 now).1.1 = generation s2 /\
               info (applyPending s2 cp1 now).1.2 = info cp1).
  { unfold applyPending. destruct (pendingEvents s2 !! _); [|done]. by case_if. }
  destruct (applyPending s2 cp1 now) as [[s3 cp2] pts]. cbn [fst snd] in *. destruct A3 as (A3 & G3 & I3).
  destruct (stampUpdated_keeps cp2 existing pts initial now) as [I4 St3].
  set (cp3 := stampUpdated cp2 existing pts initial now) in *. clearbody cp3.
  pose proof (blockedCycle_ok draw draw_size s3 cp3 existing now) as Hb. cbv zeta in Hb.
  destruct (applyBlockedCycleLocked draw s3 cp3 existing now) as [s4 cp]. cbn [fst snd] in *.
  destruct Hb as (C4 & I5 & S4 & _).
  assert (C6 : forall b1 b2 : bool, let s5 := if b1 then set_contentRev (bump id (contentRev s4)) s4 else s4 in
    sameCore s4 (if b2 then set_attentionRev (bump id (attentionRev s5)) s5 else s5))
    by (intros [] []; done).
  rewrite (sc_agents _ _ (C6 _ _)), (sc_generation _ _ (C6 _ _)), (sc_agents _ _ C4),
    (sc_generation _ _ C4). split_and!; congruence.
Qed.

Lemma installAgent_fields s cp existing changed :
  let s' := (installAgent sha256hex s cp existing changed).1.1 in
  agents s' = <[PaneID (info cp) := cp]> (agents s) /\ generation s' = generation s.
Proof.
  cbv zeta. unfold installAgent. set (id := PaneID (info cp)).
  set (prev := default "" _). set (att := from_option _ "" existing).
  destruct (registerTransition_keeps (putAgent s id cp) id prev (Status cp) att) as (H1 & _ & _ & H2 & _).
  destruct (registerTransition _ id prev (Status cp) att) as [t e]. cbn [fst] in *.
  assert (Hr : agents (restoreSeen t cp (bool_decide (is_Some existing))) = agents t /\
               generation (restoreSeen t cp (bool_decide (is_Some existing))) = generation t)
    by (unfold restoreSeen; by repeat case_if).
  set (r := restoreSeen t cp _) in *. clearbody r.
  pose proof (syncTriage_core sha256hex r cp) as [Ha _ _ _ _ _ _ _ _ Hg _].
  destruct (syncTriageLocked sha256hex r cp) as [u synced]. cbn [fst] in *.
  destruct (maybeSync_keeps u id (negb (preservesChatCompletion prev (Status cp) att)) att
              (AttentionKind (blocked cp))) as (-> & _ & _ & ->).
  destruct Hr as [Hr1 Hr2]. by rewrite Ha, Hg, Hr1, Hr2, H1, H2.
Qed.

Lemma commitAgent_fields initial baseRev now s dirty eff incoming :
  let id := PaneID (info incoming) in
  let '(existing, replaced) := continuing s incoming in
  let s1 := if replaced then endSession s id else s in
  let cp1 := carryOver sha256hex s1 incoming existing baseRev in
  let s2 := if negb (bool_decide (is_Some existing)) && negb replaced && negb initial &&
               (Generation s1 id >? 0) then BumpGeneration s1 id else s1 in
  let s' := (commitAgent sha256hex draw initial baseRev now (s, dirty, eff) incoming).1.1 in
  exists cp, agents s' = <[id := cp]> (agents s) /\ generation s' = generation s2 /\
    Status cp = Status (applyPending s2 cp1 now).1.2.
Proof.
  pose proof (prepareAgent_fields initial baseRev now s incoming) as H. cbv zeta in *.
  unfold commitAgent. destruct (continuing s incoming) as [existing replaced].
  destruct (prepareAgent _ _ _ _ _ _ _) as [[[s1 cp] existing'] changed]. cbn [fst snd] in H.
  destruct H as (A1 & G1 & I1 & S1).
  pose proof (installAgent_fields s1 cp existing' changed) as [A2 G2]. rewrite I1 in A2.
  destruct (installAgent _ _ _ _ _) as [[s2 synced] e]. cbn [fst] in *.
  exists cp. rewrite A2, A1, G2. done.
Qed.

(** the status of a pane that goes on *)
Lemma commitAgent_status initial baseRev now s dirty eff incoming e :
  let id := PaneID (info incoming) in
  let s' := (commitAgent sha256hex draw initial baseRev now (s, dirty, eff) incoming).1.1 in
  agents s !! id = Some e -> paneSessionReplaced e incoming = false -> pendingEvents s !! id = None ->
  exists cp, agents s' !! id = Some cp /\
    Status cp = if Revision s id >? baseRev then Status e else Status incoming.
Proof.
  cbv zeta. intros Hag Hrep Hpen.
  pose proof (commitAgent_fields initial baseRev now s dirty eff incoming) as H. cbv zeta in H.
  unfold continuing in H. rewrite Hag, Hrep in H. cbn [bool_decide negb andb] in H.
  destruct H as (cp & Ha & _ & Hs). exists cp. rewrite Ha, lookup_insert_eq. split; [done|].
  rewrite Hs. rewrite bool_decide_true by (by eexists). cbn [negb andb].
  unfold applyPending. rewrite carryOver_info, Hpen. cbn [fst snd]. unfold carryOver.
  cbn [info set_LastSeenAt set_LastActiveAt Status].
  destruct (Revision s (PaneID (info incoming)) >? baseRev) eqn:Er; cbn [andb]; [|done].
  destruct (String.eqb_spec (Status incoming) (Status e)) as [Heq|Hne]; cbn [negb]; [done|].
  by case_if.
Qed.

Lemma commitAgent_generation initial baseRev now s dirty eff incoming e :
  let id := PaneID (info incoming) in
  let s' := (commitAgent sha256hex draw initial baseRev now (s, dirty, eff) incoming).1.1 in
  agents s !! id = Some e -> paneSessionReplaced e incoming = true ->
  Generation s' id = Generation s id + 1.
Proof.
  cbv zeta. intros Hag Hrep.
  pose proof (commitAgent_fields initial baseRev now s dirty eff incoming) as H. cbv zeta in H.
  unfold continuing in H. rewrite Hag, Hrep in H. destruct H as (cp & _ & Hg & _).
  unfold Generation at 1. rewrite Hg. rewrite andb_false_r. cbn [andb].
  unfold endSession. cbn. unfold bump. by rewrite lookup_insert_eq.
Qed.

Abbreviation paneIDs l := ((fun a => PaneID (info a)) <$> l).

(** agents of an inventory leave the other panes alone *)
Lemma commitAgents_other c initial baseRev now l acc id :
  panesOk acc.1.1 -> 0 <= c < revCounter acc.1.1 -> id ∉ paneIDs l ->
  view (foldl (commitAgent sha256hex draw initial baseRev now) acc l).1.1 id = view acc.1.1 id.
Proof.
  revert acc. induction l as [|a l IH]; intros acc Hp Hc Hni; cbn [foldl]; [done|].
  rewrite fmap_cons in Hni. apply not_elem_of_cons in Hni as [Hne Hni].
  destruct acc as [[s dirty] eff]. cbn [fst] in *.
  pose proof (commitAgent_ok sha256hex draw draw_size c initial baseRev now s dirty eff a (Hp _) Hc)
    as (T & V & _).
  rewrite IH; [|by eapply touch_panes|rewrite (t_rev _ _ _ _ T); lia|done].
  by apply (t_other _ _ _ _ T).
Qed.

Lemma forgetPanes_other l s id : id ∉ l -> view (foldl forgetPane s l) id = view s id.
Proof.
  revert s. induction l as [|x l IH]; intros s Hni; cbn [foldl]; [done|].
  apply not_elem_of_cons in Hni as [Hne Hni]. rewrite IH by done.
  by apply (t_other _ _ _ _ (touch_forget 0 s x)).
Qed.

Lemma forgetPanes_generation l s id :
  Generation s id <= Generation (foldl forgetPane s l) id /\
  (id ∈ l -> Generation s id + 1 <= Generation (foldl forgetPane s l) id).
Proof.
  revert s. induction l as [|x l IH]; intros s; cbn [foldl]; [split; [lia|by intros ?%not_elem_of_nil]|].
  destruct (IH (forgetPane s x)) as [H1 H2]. pose proof (t_gen _ _ _ _ (touch_forget 0 s x) id) as H3.
  split; [lia|]. intros [->|Hin]%elem_of_cons; [|specialize (H2 Hin); lia].
  assert (Generation (forgetPane s x) x = Generation s x + 1); [|lia].
  unfold Generation, forgetPane. cbn. unfold bump. by rewrite lookup_insert_eq.
Qed.

(** the states [commitInventoryLocked] goes through: before the loop, after it,
    at the end *)
Lemma commitInventory_stages s l baseRev now s' eff :
  wf s -> commitInventoryLocked sha256hex draw s (Some <$> l) baseRev now = Some (s', eff) ->
  exists s2 s3, (forall i, view s2 i = view s i) /\ generation s2 = generation s /\
    panesOk s2 /\ revCounter s2 = revCounter s + 1 /\
    s3 = (foldl (commitAgent sha256hex draw (negb (inventoryReady (inventory s))) baseRev now)
            (s2, false, []) l).1.1 /\
    let gone := filter (fun id => id ∉ paneIDs l) (elements (dom (agents s3))) in
    agents s' = agents (foldl forgetPane s3 gone) /\
    generation s' = generation (foldl forgetPane s3 gone).
Proof.
  intros [W1 W2 W3 W4] Hci. unfold commitInventoryLocked in Hci.
  assert (Hm : mapM id (Some <$> l) = Some l).
  { clear. induction l as [|a l IH]; [done|]. cbn in *. by rewrite IH. }
  rewrite Hm in Hci. cbn [mbind option_bind] in Hci.
  set (s1 := if topologyChangedBy s l then _ else s) in *.
  assert (C1 : sameCore s s1) by (unfold s1; by case_if). clearbody s1.
  set (s2 := set_inventory _ _) in *.
  assert (V2 : forall i, view s2 i = view s i) by (intros i; by rewrite <- (core_view _ _ i C1)).
  assert (R2 : revCounter s2 = revCounter s + 1) by (cbn; by rewrite (sc_counter _ _ C1)).
  assert (G2 : generation s2 = generation s) by (cbn; by rewrite (sc_generation _ _ C1)).
  clearbody s2. exists s2. eexists. split_and!; [done..| |done|done|].
  { intros i. rewrite V2, R2. apply (viewOk_mono (revCounter s)); [lia|apply W1]. }
  cbv zeta. destruct (foldl _ _ l) as [[s3 dirty] e3]. cbn [fst].
  destruct dirty; [|by simplify_eq].
  set (s5 := set_pendingEvents _ _) in Hci. pose proof (persistTriage_core s5 now) as C6.
  destruct (persistTriageLocked s5 now) as [s6 e6]. simplify_eq. cbn [fst] in C6.
  by rewrite (sc_agents _ _ C6), (sc_generation _ _ C6).
Qed.

Lemma inventory_status s l baseRev now s' eff a e :
  wf s -> commitInventoryLocked sha256hex draw s (Some <$> l) baseRev now = Some (s', eff) ->
  NoDup (paneIDs l) -> a ∈ l -> agents s !! PaneID (info a) = Some e ->
  paneSessionReplaced e a = false ->
  exists cp, agents s' !! PaneID (info a) = Some cp /\
    Status cp = if Revision s (PaneID (info a)) >? baseRev then Status e else Status a.
Proof.
  intros W Hci Hnd Hin Hag Hrep. set (id := PaneID (info a)) in *.
  destruct (commitInventory_stages s l baseRev now s' eff W Hci)
    as (s2 & s3 & V2 & _ & P2 & R2 & E3 & Ha & _). cbv zeta in Ha.
  pose proof W as [W1 _ _ W4].
  apply list_elem_of_split in Hin as (l1 & l2 & ->).
  rewrite fmap_app, fmap_cons in Hnd. apply NoDup_app in Hnd as (_ & Hd & Hnd2).
  apply NoDup_cons in Hnd2 as [Hni2 _].
  assert (Hni1 : id ∉ paneIDs l1) by (intros Hx; apply (Hd id Hx); by left).
  rewrite foldl_app in E3. cbn [foldl] in E3.
  set (init := negb _) in E3.
  destruct (commitAgents_ok sha256hex draw draw_size (revCounter s) init baseRev now l1 (s2, false, []))
    as [S1 P1]; [done|cbn; lia|].
  pose proof (commitAgents_other (revCounter s) init baseRev now l1 (s2, false, []) id P2 ltac:(cbn; lia) Hni1) as V1.
  destruct (foldl _ _ l1) as [[t1 d1] f1]. cbn [fst] in *. rewrite V2 in V1.
  assert (Hag1 : agents t1 !! id = Some e) by (change (v_agent (view t1 id) = Some e); by rewrite V1).
  assert (Hpen : pendingEvents t1 !! id = None).
  { change (v_pending (view t1 id) = None). rewrite V1. cbn.
    destruct (pendingEvents s !! id) eqn:Ep; [|done]. exfalso.
    pose proof (vo_pending _ _ _ (W1 id)) as Hv. cbn in Hv. rewrite Ep in Hv.
    specialize (Hv ltac:(by eexists)). congruence. }
  assert (Hrev : Revision t1 id = Revision s id)
    by (unfold Revision; change (revision t1 !! id) with (v_rev (view t1 id)); by rewrite V1).
  destruct (commitAgent_status init baseRev now t1 d1 f1 a e Hag1 Hrep Hpen) as (cp & Hcp & Hst).
  assert (R1 : revCounter t1 = revCounter s + 1) by (rewrite (sw_rev _ _ _ S1); done).
  destruct (commitAgent_ok sha256hex draw draw_size (revCounter s) init baseRev now t1 d1 f1 a (P1 _))
    as (T2 & Vk2 & _); [lia|].
  set (acc := commitAgent _ _ init baseRev now (t1, d1, f1) a) in *.
  pose proof (commitAgents_other (revCounter s) init baseRev now l2 acc id
                (touch_panes _ _ _ _ P1 T2 Vk2) ltac:(rewrite (t_rev _ _ _ _ T2); lia) Hni2) as V3.
  rewrite <- E3 in V3. exists cp. rewrite <- Hrev. split; [|done].
  rewrite Ha. set (gone := filter _ _).
  change (v_agent (view (foldl forgetPane s3 gone) id) = Some cp).
  rewrite forgetPanes_other, V3; [done|].
  intros [Hg _]%list_elem_of_filter. apply Hg. rewrite fmap_app, fmap_cons. apply elem_of_app. right. by left.
Qed.

(** An inventory poll never overwrites a newer event: for a pane whose session
    goes on, the status after a poll is the one an event set since the poll
    began, and the polled one when no event came in between, whatever the rest of
    the inventory holds. *)
Theorem poll_status s l ws token now s' eff changed a e :
  rtc step NewState s ->
  CommitPoll sha256hex draw s (Some <$> l) ws token now = Some (s', eff, (changed, true)) ->
  NoDup (paneIDs l) -> a ∈ l -> agents s !! PaneID (info a) = Some e ->
  paneSessionReplaced e a = false ->
  exists cp, agents s' !! PaneID (info a) = Some cp /\
    Status cp = if Revision s (PaneID (info a)) >? BaseRevision token then Status e else Status a.
Proof.
  intros Hs Hp Hnd Hin Hag Hrep. destruct (steps_ok _ _ NewState_wf Hs) as [W _].
  unfold CommitPoll in Hp. case_if_in Hp; [done|].
  pose proof (workspaces_core s ws) as C1. destruct (commitWorkspacesLocked s ws) as [s1 wc].
  cbn [fst] in C1. destruct (commitInventoryLocked _ _ s1 _ _ now) as [[s3 e3]|] eqn:E3; [|done].
  cbn in Hp. simplify_eq.
  assert (Hag1 : agents s1 !! PaneID (info a) = Some e) by (by rewrite (sc_agents _ _ C1)).
  destruct (inventory_status s1 l _ now s' eff a e (wf_core _ _ C1 W) E3 Hnd Hin Hag1 Hrep)
    as (cp & ? & Hst).
  exists cp. split; [done|]. rewrite Hst. unfold Revision. by rewrite (sc_revision _ _ C1).
Qed.

(** C3: an event that lands while a poll is under way survives it: whatever
    happens between the start of the poll and the event, committing the poll
    right after leaves the status the event set. *)
Theorem event_survives_poll s0 s id tab st_ws status updatedAt t order s1 eff1
    l ws now s2 eff2 changed a :
  rtc step NewState s0 -> rtc step s0 s -> order ≡ₚ map_to_list (pendingEvents s) ->
  CommitEventForSession sha256hex draw s id tab st_ws status updatedAt t order = (s1, eff1, true) ->
  CommitPoll sha256hex draw s1 (Some <$> l) ws (BeginPoll s0) now = Some (s2, eff2, (changed, true)) ->
  NoDup (paneIDs l) -> a ∈ l -> PaneID (info a) = id ->
  (forall e, agents s1 !! id = Some e -> paneSessionReplaced e a = false) ->
  exists cp, agents s2 !! id = Some cp /\ Status cp = status.
Proof.
  intros H0 H1 Hord Hev Hp Hnd Hin Hid Hrep. destruct (steps_ok _ _ NewState_wf H0) as [W0 _].
  destruct (steps_ok _ _ W0 H1) as (W & Hle & _).
  destruct (event_ok sha256hex draw draw_size s id tab st_ws status updatedAt t order W Hord) as [W1 _].
  rewrite Hev in W1. cbn in W1.
  destruct (agents s !! id) as [before|] eqn:Eag;
    [|unfold CommitEventForSession in Hev; rewrite Eag in Hev; done].
  destruct (event_applied _ _ _ _ _ _ _ _ _ _ _ Eag Hev) as ((e & He & Hst & _) & Hrev & _ & _).
  unfold CommitPoll in Hp. case_if_in Hp; [done|].
  pose proof (workspaces_core s1 ws) as C1. destruct (commitWorkspacesLocked s1 ws) as [s1' wc].
  cbn [fst] in C1. destruct (commitInventoryLocked _ _ s1' _ _ now) as [[s3 e3]|] eqn:E3; [|done].
  cbn in Hp. simplify_eq.
  assert (Hag1 : agents s1' !! PaneID (info a) = Some e) by (by rewrite (sc_agents _ _ C1)).
  destruct (inventory_status s1' l _ now s2 eff2 a e (wf_core _ _ C1 W1) E3 Hnd Hin Hag1 (Hrep e He))
    as (cp & Hcp & Hs). exists cp. split; [done|]. rewrite Hs.
  unfold Revision in *. rewrite (sc_revision _ _ C1), Hrev. cbn [BeginPoll BaseRevision].
  rewrite Z.gtb_ltb, (proj2 (Z.ltb_lt _ _)) by lia. done.
Qed.

(** ** Pane sessions *)

Lemma inventory_ends_session s l baseRev now s' eff id e :
  wf s -> commitInventoryLocked sha256hex draw s (Some <$> l) baseRev now = Some (s', eff) ->
  agents s !! id = Some e -> NoDup (paneIDs l) ->
  (id ∉ paneIDs l \/ exists a, a ∈ l /\ PaneID (info a) = id /\ paneSessionReplaced e a = true) ->
  Generation s id + 1 <= Generation s' id.
Proof.
  intros W Hci Hag Hnd Hend.
  destruct (commitInventory_stages s l baseRev now s' eff W Hci)
    as (s2 & s3 & V2 & G2 & P2 & R2 & E3 & _ & Hg). cbv zeta in Hg.
  pose proof W as [W1 _ _ W4]. set (init := negb _) in E3.
  set (gone := filter _ _) in Hg.
  destruct (forgetPanes_generation gone s3 id) as [F1 F2].
  assert (Hg' : Generation s' id = Generation (foldl forgetPane s3 gone) id)
    by (unfold Generation; by rewrite Hg).
  destruct (commitAgents_ok sha256hex draw draw_size (revCounter s) init baseRev now l (s2, false, []))
    as [S1 P1]; [done|cbn; lia|].
  pose proof (sw_gen _ _ _ S1 id) as F3. rewrite <- E3 in F3. cbn [fst] in F3.
  assert (F4 : Generation s2 id = Generation s id) by (unfold Generation; by rewrite G2).
  destruct Hend as [Hni|(a & Hin & Hid & Hrep)].
  - assert (Hin : id ∈ gone).
    { apply list_elem_of_filter. split; [done|]. apply elem_of_elements, elem_of_dom.
      exists e. change (v_agent (view s3 id) = Some e). rewrite E3.
      rewrite (commitAgents_other (revCounter s)); [|done|cbn; lia|done].
      cbn [fst]. by rewrite V2. }
    specialize (F2 Hin). lia.
  - apply list_elem_of_split in Hin as (l1 & l2 & ->).
    rewrite fmap_app, fmap_cons in Hnd. apply NoDup_app in Hnd as (_ & Hd & Hnd2).
    assert (Hni1 : id ∉ paneIDs l1) by (intros Hx; apply (Hd id Hx); rewrite Hid; by left).
    rewrite foldl_app in E3. cbn [foldl] in E3.
    destruct (commitAgents_ok sha256hex draw draw_size (revCounter s) init baseRev now l1 (s2, false, []))
      as [S2 P3]; [done|cbn; lia|].
    pose proof (commitAgents_other (revCounter s) init baseRev now l1 (s2, false, []) id P2 ltac:(cbn; lia) Hni1) as V1.
    destruct (foldl _ _ l1) as [[t1 d1] f1]. cbn [fst] in *. rewrite V2 in V1.
    assert (Hag1 : agents t1 !! PaneID (info a) = Some e)
      by (rewrite Hid; change (v_agent (view t1 id) = Some e); by rewrite V1).
    pose proof (commitAgent_generation init baseRev now t1 d1 f1 a e Hag1 Hrep) as F5.
    assert (R1 : revCounter t1 = revCounter s + 1) by (rewrite (sw_rev _ _ _ S2); done).
    destruct (commitAgent_ok sha256hex draw draw_size (revCounter s) init baseRev now t1 d1 f1 a (P3 _))
      as (T2 & Vk2 & _); [lia|].
    set (acc := commitAgent _ _ init baseRev now (t1, d1, f1) a) in *.
    destruct (commitAgents_ok sha256hex draw draw_size (revCounter s) init baseRev now l2 acc)
      as [S3 _]; [by eapply touch_panes|rewrite (t_rev _ _ _ _ T2); lia|].
    pose proof (sw_gen _ _ _ S3 id) as F6. pose proof (sw_gen _ _ _ S2 id) as F7. cbn [fst] in F7.
    rewrite <- E3 in F6. rewrite Hid in F5. lia.
Qed.

(** C27: a pane session ends for good: once an inventory no longer lists the pane,
    or lists another terminal, tab or workspace under its id, work admitted for
    the old generation is never current again, not even when a pane with the same
    id comes back. *)
Theorem session_ends_for_good s l ws token now s1 eff changed id e s2 :
  rtc step NewState s ->
  CommitPoll sha256hex draw s (Some <$> l) ws token now = Some (s1, eff, (changed, true)) ->
  agents s !! id = Some e -> NoDup (paneIDs l) ->
  (id ∉ paneIDs l \/ exists a, a ∈ l /\ PaneID (info a) = id /\ paneSessionReplaced e a = true) ->
  rtc step s1 s2 -> Generation s2 id < 2 ^ 64 ->
  PaneSessionCurrent s id (Generation s id) = true /\
  PaneSessionCurrent s2 id (Generation s id) = false.
Proof.
  intros Hs Hp Hag Hnd Hend Hs2 Hlt. destruct (steps_ok _ _ NewState_wf Hs) as (W & _ & Hg0).
  specialize (Hg0 id). change (Generation NewState id) with 0 in Hg0.
  pose proof (step_poll _ _ _ _ _ _ _ _ Hp) as Hst.
  unfold CommitPoll in Hp. case_if_in Hp; [done|].
  pose proof (workspaces_core s ws) as C1. destruct (commitWorkspacesLocked s ws) as [s1' wc].
  cbn [fst] in C1. destruct (commitInventoryLocked _ _ s1' _ _ now) as [[s3 e3]|] eqn:E3; [|done].
  cbn in Hp. simplify_eq.
  destruct (step_ok s s1 W Hst) as [Wf1 _]. destruct (steps_ok _ _ Wf1 Hs2) as (_ & _ & Hmono).
  specialize (Hmono id).
  assert (Hag1 : agents s1' !! id = Some e) by (by rewrite (sc_agents _ _ C1)).
  pose proof (inventory_ends_session s1' l _ now s1 eff id e (wf_core _ _ C1 W) E3 Hag1 Hnd Hend) as Hgt.
  assert (Hg1 : Generation s1' id = Generation s id)
    by (unfold Generation; by rewrite (sc_generation _ _ C1)).
  unfold PaneSessionCurrent. rewrite Hag. unfold u64. rewrite !Z.mod_small by lia. split.
  - rewrite Z.eqb_refl. done.
  - rewrite (proj2 (Z.eqb_neq _ _)) by lia. apply andb_false_r.
Qed.

(** The guard of [commitTopologyLocked] against [nil] entries has no effect: it
    leaves them in the list it hands to [commitInventoryLocked], which
    dereferences every entry, so a topology snapshot with a [nil] entry always
    panics. *)
Theorem topology_nil_panics s incoming ws baseRev now :
  None ∈ incoming -> CommitTopology sha256hex draw s incoming ws baseRev now = None.
Proof.
  intros Hin. unfold CommitTopology. destruct (commitWorkspacesLocked s ws) as [s1 b].
  unfold commitTopologyLocked, commitInventoryLocked.
  set (s2 := if b then _ else s1). clearbody s2.
  assert (Hm : mapM id (option_map (topologyAgent s2) <$> incoming) = None); [|by rewrite Hm].
  induction incoming as [|o l IH]; [by apply not_elem_of_nil in Hin|].
  apply elem_of_cons in Hin as [<-|Hin]; [done|]. cbn in *. destruct o; [|done]. cbn.
  by rewrite (IH Hin).
Qed.

End Runs.
(** ** A concrete run *)

Definition demoSha (x : string) : string := x.
Definition demoDraw (n : Z) : option bytes := Some (repeat 7 12).
Lemma demoDraw_size n v : demoDraw n = Some v -> len v = 12.
Proof. by intros [= <-]. Qed.

Definition demoPane (id terminal status : string) : AgentState :=
  mkAgent (mkInfo id id terminal "t1" "tab" 1 1 "w1" "claude" false "agent" false "/src" "src"
             "host" "" "" "" 0 "" false 0 0 "/src") status 0 0 0 noBlocked 0.
Definition demoNow : time := unixEpoch + 1000 * second.

Definition demoS0 : State := SetOnTransition NewState.
Definition demoCommit (s : State) (l : list AgentState) : State * list effect :=
  default (s, []) (CommitPoll demoSha demoDraw s (Some <$> l) [] (BeginPoll s) demoNow ≫= fun o => Some o.1).
Definition demoS1 : State := (demoCommit demoS0 [demoPane "p" "term1" "working"]).1.
Definition demoEvent (s : State) (status : string) : State * list effect * bool :=
  CommitEventForSession demoSha demoDraw s "p" "t1" "w1" status 2000 demoNow
    (map_to_list (pendingEvents s)).
Definition demoS2 : State := (demoEvent demoS1 "idle").1.1.
Definition demoS3 : State := (RegisterFinishedNotificationForTransition demoS2 "p" 2).1.

Abbreviation demoStep := (step demoSha demoDraw).

Lemma demo_run1 : rtc demoStep NewState demoS1.
Proof.
  eapply rtc_l; [apply step_callback|]. apply rtc_once.
  apply (step_poll demoSha demoDraw demoS0 (Some <$> [demoPane "p" "term1" "working"]) []
           (BeginPoll demoS0) demoNow demoS1 (demoCommit demoS0 [demoPane "p" "term1" "working"]).2
           (false, true)).
  vm_compute. reflexivity.
Qed.

Lemma demo_run2 : rtc demoStep NewState demoS2.
Proof.
  eapply rtc_r; [exact demo_run1|]. apply (step_event demoSha demoDraw demoS1 "p" "t1" "w1" "idle" 2000 demoNow).
  done.
Qed.

Lemma reachable_consistent_witness : wf demoS2.
Proof. exact (reachable_consistent demoSha demoDraw demoDraw_size demoS2 demo_run2). Defined.

Lemma snapshot_displayed_witness :
  ((fun a => (PaneID (info a), Status a)) <$> Snapshot demoS2) ≡ₚ
  ((fun id => (id, DisplayedStatus demoS2 id)) <$> (map_to_list (agents demoS2)).*1) /\
  DisplayedStatus demoS2 "p" = "done".
Proof.
  split; [exact (proj2 (snapshot_displayed demoSha demoDraw demoDraw_size demoS2 demo_run2))|].
  vm_compute. reflexivity.
Defined.

Lemma finished_once_witness :
  (RegisterFinishedNotificationForTransition demoS3 "p" 2).2 = false.
Proof.
  refine (finished_once demoSha demoDraw demoDraw_size demoS2 "p" 2 demoS3 demoS3 demo_run2 _ _
            (rtc_refl _ _)); [reflexivity|vm_compute; reflexivity].
Defined.

Definition demoBefore : AgentState := default (demoPane "p" "" "") (agents demoS1 !! "p").

Lemma event_announces_witness :
  List.filter isTransition (demoEvent demoS1 "idle").1.2 = [Transition "p" "claude" "src" "idle" 2].
Proof.
  refine (event_announces demoSha demoDraw demoDraw_size demoS1 "p" "t1" "w1" "idle" 2000 demoNow
    (map_to_list (pendingEvents demoS1)) demoS2 (demoEvent demoS1 "idle").1.2 demoBefore _ _ _);
    vm_compute; reflexivity.
Defined.

Definition demoPoll : State * list effect :=
  default (demoS2, []) (CommitPoll demoSha demoDraw demoS2 (Some <$> [demoPane "p" "term1" "working"])
     [] (BeginPoll demoS1) demoNow ≫= fun o => Some o.1).

Lemma poll_status_witness :
  exists cp, agents demoPoll.1 !! "p" = Some cp /\ Status cp = "idle".
Proof.
  destruct (poll_status demoSha demoDraw demoDraw_size demoS2 [demoPane "p" "term1" "working"] []
    (BeginPoll demoS1) demoNow demoPoll.1 demoPoll.2 false (demoPane "p" "term1" "working")
    (default demoBefore (agents demoS2 !! "p")) demo_run2) as (cp & H1 & H2).
  - vm_compute. reflexivity.
  - apply NoDup_singleton.
  - by left.
  - vm_compute. reflexivity.
  - vm_compute. reflexivity.
  - exists cp. split; [exact H1|]. rewrite H2. vm_compute. reflexivity.
Defined.

Lemma event_survives_poll_witness :
  exists cp, agents demoPoll.1 !! "p" = Some cp /\ Status cp = "idle".
Proof.
  refine (event_survives_poll demoSha demoDraw demoDraw_size demoS1 demoS1 "p" "t1" "w1" "idle" 2000
    demoNow (map_to_list (pendingEvents demoS1)) demoS2 (demoEvent demoS1 "idle").1.2
    [demoPane "p" "term1" "working"] [] demoNow demoPoll.1 demoPoll.2 false
    (demoPane "p" "term1" "working") demo_run1 (rtc_refl _ _) (Permutation_refl _) _ _
    (NoDup_singleton _) _ eq_refl _).
  - vm_compute. reflexivity.
  - vm_compute. reflexivity.
  - by left.
  - intros e He. vm_compute in He. injection He as <-. vm_compute. reflexivity.
Defined.

Lemma topology_nil_panics_witness :
  CommitTopology demoSha demoDraw demoS1 [Some (demoPane "p" "term1" "idle"); None] [] 0 demoNow = None.
Proof.
  apply (topology_nil_panics demoSha demoDraw demoS1 [Some (demoPane "p" "term1" "idle"); None] [] 0 demoNow).
  right. left.
Defined.

Definition demoReplaced : State * list effect := demoCommit demoS1 [demoPane "p" "term2" "working"].

Lemma session_ends_for_good_witness :
  PaneSessionCurrent demoS1 "p" 0 = true /\ PaneSessionCurrent demoReplaced.1 "p" 0 = false.
Proof.
  refine (session_ends_for_good demoSha demoDraw demoDraw_size demoS1
    [demoPane "p" "term2" "working"] [] (BeginPoll demoS1) demoNow demoReplaced.1 demoReplaced.2
    false "p" demoBefore demoReplaced.1 demo_run1 _ _ (NoDup_singleton _) _ (rtc_refl _ _) _).
  - vm_compute. reflexivity.
  - vm_compute. reflexivity.
  - right. exists (demoPane "p" "term2" "working"). split; [by left|]. split; [reflexivity|].
    vm_compute. reflexivity.
  - vm_compute. reflexivity.
Defined.

End StateSafety.
