(* ===== verification/SendBuffer.v ===== *)
(** The outbound buffer of one phone ([internal/transport/sendbuffer.go]): a
    bounded FIFO whose last message may be replaced by a newer one of the same
    kind.  Each method runs under the buffer's mutex; [Pop] waits on a condition
    variable, so it is a step that is enabled when the buffer is not empty or is
    closed. *)
From S2P Require Import Prelude GoLib.
#[local] Open Scope Z_scope.

Module SendBuffer.

Definition clientOutboundMaxItems : Z := 64.
Definition clientOutboundMaxBytes : Z := 4 * 1024 * 1024.

Record bufferedMessage := mkMessage { data : bytes; messageType : string; replaceable : bool }.

Record sendBuffer := mkBuffer {
  items : list bufferedMessage;
  bytesUsed : Z;
  maxItems : Z;
  maxBytes : Z;
  closed : bool
}.

Definition newSendBuffer (maxItems maxBytes : Z) : sendBuffer := mkBuffer [] 0 maxItems maxBytes false.

Inductive pushResult := pushRejected | pushQueued | pushCoalesced.

(** the tail of the buffer and what comes before it *)
Definition splitTail (l : list bufferedMessage) : option (list bufferedMessage * bufferedMessage) :=
  let? tail := last l in Some (removelast l, tail).

(** the message is appended *)
Definition enqueue (b : sendBuffer) (d : bytes) (kind : string) (repl : bool)
    : sendBuffer * pushResult :=
  if (len (items b) >=? maxItems b) || (bytesUsed b + len d >? maxBytes b) then (b, pushRejected)
  else (mkBuffer (items b ++ [mkMessage d kind repl]) (bytesUsed b + len d) (maxItems b) (maxBytes b)
          (closed b), pushQueued).

Definition pushTyped (b : sendBuffer) (d : bytes) (kind : string) (repl : bool)
    : sendBuffer * pushResult :=
  if closed b then (b, pushRejected) else
  match (if repl then splitTail (items b) else None) with
  | Some (front, tail) =>
      if replaceable tail && String.eqb (messageType tail) kind then
        let nextBytes := bytesUsed b - len (data tail) + len d in
        if nextBytes >? maxBytes b then (b, pushRejected)
        else (mkBuffer (front ++ [mkMessage d (messageType tail) (replaceable tail)]) nextBytes
                (maxItems b) (maxBytes b) (closed b), pushCoalesced)
      else enqueue b d kind repl
  | None => enqueue b d kind repl
  end.

Definition PushTyped (b : sendBuffer) (d : bytes) (kind : string) (repl : bool) : sendBuffer * bool :=
  let (b, r) := pushTyped b d kind repl in
  (b, match r with pushRejected => false | _ => true end).

(** [kindOf] is the [type] field of the JSON message, as [messageType] reads it *)
Definition Push (kindOf : bytes -> string) (b : sendBuffer) (d : bytes) : sendBuffer * bool :=
  PushTyped b d (kindOf d) false.

(** [Pop] once it no longer waits; [None] while it does *)
Definition Pop (b : sendBuffer) : option (sendBuffer * option bytes) :=
  match items b with
  | [] => if closed b then Some (b, None) else None
  | item :: rest =>
      Some (mkBuffer rest (bytesUsed b - len (data item)) (maxItems b) (maxBytes b) (closed b),
            Some (data item))
  end.

Definition Close (b : sendBuffer) : sendBuffer :=
  if closed b then b else mkBuffer (items b) (bytesUsed b) (maxItems b) (maxBytes b) true.

Definition Len (b : sendBuffer) : Z := len (items b).
Definition Bytes (b : sendBuffer) : Z := bytesUsed b.

(** ** Specification: an unbounded log of what was sent, with replacements *)

(** the buffer together with what it delivered and what it accepted, newest
    message replaced in place *)
Record trace := mkTrace { buf : sendBuffer; delivered : list bytes; accepted : list bytes }.

Definition replaceLast (l : list bytes) (d : bytes) : list bytes := removelast l ++ [d].

Inductive step : trace -> trace -> Prop :=
| step_push t d kind repl b r :
    pushTyped (buf t) d kind repl = (b, r) ->
    step t (mkTrace b (delivered t)
              match r with
              | pushRejected => accepted t
              | pushQueued => accepted t ++ [d]
              | pushCoalesced => replaceLast (accepted t) d
              end)
| step_pop t b d :
    Pop (buf t) = Some (b, Some d) -> step t (mkTrace b (delivered t ++ [d]) (accepted t))
| step_close t : step t (mkTrace (Close (buf t)) (delivered t) (accepted t)).

Definition start (n m : Z) : trace := mkTrace (newSendBuffer n m) [] [].

Definition total (l : list bufferedMessage) : Z := foldr (fun i n => len (data i) + n) 0 l.

Record inv (n m : Z) (t : trace) : Prop := mkInv {
  i_fifo : accepted t = delivered t ++ (data <$> items (buf t));
  i_bytes : bytesUsed (buf t) = total (items (buf t));
  i_limits : maxItems (buf t) = n /\ maxBytes (buf t) = m;
  i_items : len (items (buf t)) <= n;
  i_max : bytesUsed (buf t) <= m
}.

Lemma total_app l1 l2 : total (l1 ++ l2) = total l1 + total l2.
Proof. unfold total. induction l1 as [|x l1 IH]; cbn; [done|]. rewrite IH. lia. Qed.

Lemma buffered_nonneg l : 0 <= total l.
Proof. unfold total. induction l; cbn; lia. Qed.

Lemma splitTail_Some l front tail : splitTail l = Some (front, tail) -> l = front ++ [tail].
Proof.
  unfold splitTail. destruct (last l) as [x|] eqn:E; [|done]. cbn. intros [= <- <-].
  apply last_Some in E as [l' ->]. by rewrite removelast_last.
Qed.

Lemma inv_enqueue n m t d kind repl b r :
  inv n m t -> enqueue (buf t) d kind repl = (b, r) ->
  r <> pushCoalesced /\
  inv n m (mkTrace b (delivered t) match r with pushQueued => accepted t ++ [d] | _ => accepted t end).
Proof.
  intros [I1 I2 [I3 I4] I5 I6] He. unfold enqueue in He. case_if_in He; simplify_eq; (split; [done|]).
  - by split.
  - zb. split; cbn -[total]; try done; try lia.
    + rewrite fmap_app, app_assoc. cbn. by rewrite <- I1.
    + rewrite total_app, I2. cbn. lia.
    + rewrite length_app. cbn. lia.
Qed.

Lemma buffer_inv_step n m t t' : inv n m t -> step t t' -> inv n m t'.
Proof.
  intros Hi Hs. destruct Hs as [t d kind repl b r Hp|t b d Hp|t].
  - unfold pushTyped in Hp. destruct (closed (buf t)); [simplify_eq; by destruct Hi|].
    assert (Henq : enqueue (buf t) d kind repl = (b, r) -> inv n m (mkTrace b (delivered t)
       match r with pushRejected => accepted t | pushQueued => accepted t ++ [d]
       | pushCoalesced => replaceLast (accepted t) d end)).
    { intros He. destruct (inv_enqueue n m t d kind repl b r Hi He) as [Hr Hok]. by destruct r. }
    destruct repl; [|by apply Henq].
    destruct (splitTail (items (buf t))) as [[front tail]|] eqn:Et; [|by apply Henq].
    apply splitTail_Some in Et. case_if_in Hp; [|by apply Henq].
    case_if_in Hp; simplify_eq; destruct Hi as [I1 I2 I3 I4 I5]; [by split|].
    zb. rewrite Et, fmap_app in I1. rewrite Et, total_app in I2. cbn in I1, I2.
    split; cbn; try done; try lia.
    + unfold replaceLast. rewrite I1, (app_assoc (delivered t)), removelast_last, fmap_app. cbn.
      by rewrite app_assoc.
    + rewrite total_app. cbn. lia.
    + rewrite Et, length_app in I4. rewrite length_app. cbn in *. lia.
  - unfold Pop in Hp. destruct (items (buf t)) as [|x l] eqn:Ei; [by case_if_in Hp|]. simplify_eq.
    destruct Hi as [I1 I2 I3 I4 I5]. rewrite Ei in *. cbn in *.
    pose proof (buffered_nonneg l).
    split; cbn; try done; try lia. by rewrite I1, <- app_assoc.
  - unfold Close. destruct Hi as [I1 I2 I3 I4 I5]. case_if; by split.
Qed.

Lemma inv_reachable n m t : 0 <= n -> 0 <= m -> rtc step (start n m) t -> inv n m t.
Proof.
  intros Hn Hm Hs.
  assert (Hgen : forall u, rtc step u t -> inv n m u -> inv n m t).
  { intros u Hu. induction Hu; eauto using buffer_inv_step. }
  apply (Hgen _ Hs). by split.
Qed.

(** The outbound buffer of a phone is a bounded FIFO: for any sequence of
    pushes, replacements, pops and closes, what was delivered followed by what is
    buffered is exactly what was accepted, in order (a replaceable update
    overwrites only the message still at the tail, never a delivered one), and
    the items and bytes held stay within the limits and are counted exactly. *)
Theorem buffer_fifo_bounded n m t :
  0 <= n -> 0 <= m -> rtc step (start n m) t ->
  accepted t = delivered t ++ (data <$> items (buf t)) /\
  Len (buf t) <= n /\ Bytes (buf t) <= m /\ Bytes (buf t) = total (items (buf t)).
Proof. intros Hn Hm Hs. by destruct (inv_reachable n m t Hn Hm Hs). Qed.

(** A closed buffer accepts nothing and drains: every push is rejected and
    leaves it unchanged, [Pop] never waits, and it hands out every message that
    was buffered before it reports the end. *)
Theorem closed_buffer_drains b :
  closed b = true ->
  (forall d kind repl, pushTyped b d kind repl = (b, pushRejected)) /\
  exists b', Nat.iter (length (items b))
      (fun o => let? s := o in let? p := Pop s.1 in
                match p.2 with Some d => Some (p.1, s.2 ++ [d]) | None => None end)
      (Some (b, [])) = Some (b', data <$> items b) /\ Pop b' = Some (b', None).
Proof.
  intros Hc. split; [intros; unfold pushTyped; by rewrite Hc|].
  assert (Hgen : forall l acc n b0, items b0 = l -> closed b0 = true -> n = length l ->
    exists b', Nat.iter n
      (fun o => let? s := o in let? p := Pop s.1 in
                match p.2 with Some d => Some (p.1, s.2 ++ [d]) | None => None end)
      (Some (b0, acc)) = Some (b', acc ++ (data <$> l)) /\ Pop b' = Some (b', None)).
  { induction l as [|x l IH]; intros acc n b0 Hi Hcl ->.
    - exists b0. cbn. rewrite app_nil_r. split; [done|]. unfold Pop. by rewrite Hi, Hcl.
    - cbn [length]. rewrite Nat.iter_succ_r. cbn [mbind option_bind fst snd].
      unfold Pop at 2. rewrite Hi. cbn [mbind option_bind fst snd].
      destruct (IH (acc ++ [data x]) (length l)
        (mkBuffer l (bytesUsed b0 - len (data x)) (maxItems b0) (maxBytes b0) (closed b0)))
        as (b' & Hit & Hp); [done|done|done|].
      exists b'. split; [|done]. rewrite Hit, <- app_assoc. done. }
  by apply (Hgen (items b) [] (length (items b)) b).
Qed.

(** ** Witnesses *)

Definition demoTrace : trace :=
  mkTrace (mkBuffer [mkMessage [2] "update" true] 1 2 8 false) [] [[2]].

Lemma demo_steps : rtc step (start 2 8) demoTrace.
Proof.
  eapply rtc_l; [apply (step_push (start 2 8) [1; 1] "update" true
    (mkBuffer [mkMessage [1; 1] "update" true] 2 2 8 false) pushQueued); reflexivity|].
  apply rtc_once. exact (step_push (mkTrace (mkBuffer [mkMessage [1; 1] "update" true] 2 2 8 false)
    [] [[1; 1]]) [2] "update" true (buf demoTrace) pushCoalesced eq_refl).
Qed.

Lemma buffer_fifo_bounded_witness :
  accepted demoTrace = delivered demoTrace ++ (data <$> items (buf demoTrace)).
Proof.
  exact (proj1 (buffer_fifo_bounded 2 8 demoTrace ltac:(lia) ltac:(lia) demo_steps)).
Defined.

Lemma closed_buffer_drains_witness :
  pushTyped (Close (buf demoTrace)) [9] "update" true = (Close (buf demoTrace), pushRejected).
Proof. exact (proj1 (closed_buffer_drains (Close (buf demoTrace)) eq_refl) [9] "update" true). Defined.

End SendBuffer.
