(* ===== verification/DeadlineHeap.v ===== *)
(** * The deadline heap of the scheduler ([coordinator/coordinator.go])

    [deadlineHeap] with its [Len], [Less], [Swap], [Push] and [Pop], under the
    functions of [container/heap] that drive it.  A [*scheduledOperation] is
    represented by its operation id and its (immutable) deadline; its [index]
    field lives in a map from ids, where absence is the value [-1] of the code.
    The theorems: every operation keeps the index fields equal to the positions,
    changes the contents as a priority queue should, and the root is a minimum. *)
From S2P Require Import Prelude.

Module DeadlineHeap.

Record item := mkItem { it_id : Z; it_deadline : time }.

#[export] Instance item_eq_dec : EqDecision item.
Proof. solve_decision. Defined.

Record deadlineHeap := mkHeap { items : list item; indexOf : gmap Z nat }.

Definition empty : deadlineHeap := mkHeap [] ∅.

Definition Len (h : deadlineHeap) : nat := length (items h).

Definition deadlineAt (l : list item) (i : nat) : time := from_option it_deadline 0 (l !! i).

Definition Less (h : deadlineHeap) (i j : nat) : bool :=
  deadlineAt (items h) i <? deadlineAt (items h) j.

Definition exchange (l : list item) (i j : nat) : list item :=
  match l !! i, l !! j with
  | Some a, Some b => <[i := b]> (<[j := a]> l)
  | _, _ => l
  end.

(** the index field of the operation at position [i] becomes [i] *)
Definition setIndex (l : list item) (i : nat) (m : gmap Z nat) : gmap Z nat :=
  match l !! i with Some a => <[it_id a := i]> m | None => m end.

Definition Swap (h : deadlineHeap) (i j : nat) : deadlineHeap :=
  let l := exchange (items h) i j in
  mkHeap l (setIndex l j (setIndex l i (indexOf h))).

(** the methods [Push] and [Pop] of the heap interface; [None] is the panic on an
    empty slice *)
Definition pushLast (h : deadlineHeap) (op : item) : deadlineHeap :=
  mkHeap (items h ++ [op]) (<[it_id op := length (items h)]> (indexOf h)).

Definition popLast (h : deadlineHeap) : option (deadlineHeap * item) :=
  match last (items h) with
  | None => None
  | Some op => Some (mkHeap (take (length (items h) - 1) (items h)) (delete (it_id op) (indexOf h)), op)
  end.

(** ** [container/heap] *)

Fixpoint up (fuel : nat) (h : deadlineHeap) (j : nat) : deadlineHeap :=
  match fuel with
  | O => h
  | S fuel =>
      let i := Nat.div2 (j - 1) in
      if Nat.eqb i j || negb (Less h j i) then h else up fuel (Swap h i j) i
  end.

(** the position where the element at [i] comes to rest, with the heap *)
Fixpoint down (fuel : nat) (h : deadlineHeap) (i n : nat) : deadlineHeap * nat :=
  match fuel with
  | O => (h, i)
  | S fuel =>
      let j1 := (2 * i + 1)%nat in
      if Nat.leb n j1 then (h, i) else
      let j2 := S j1 in
      let j := if Nat.ltb j2 n && Less h j2 j1 then j2 else j1 in
      if negb (Less h j i) then (h, i) else down fuel (Swap h i j) j n
  end.

Definition Push (h : deadlineHeap) (op : item) : deadlineHeap :=
  let h := pushLast h op in up (Len h) h (Len h - 1).

Definition Pop (h : deadlineHeap) : option (deadlineHeap * item) :=
  let n := (Len h - 1)%nat in
  popLast (down (Len h) (Swap h 0 n) 0 n).1.

(** an index past the end is a panic in [Swap] *)
Definition Remove (h : deadlineHeap) (i : nat) : option (deadlineHeap * item) :=
  if Nat.leb (Len h) i then None else
  let n := (Len h - 1)%nat in
  if Nat.eqb n i then popLast h else
  let (h1, i1) := down (Len h) (Swap h i n) i n in
  popLast (if Nat.ltb i i1 then h1 else up (Len h) h1 i).

(** ** Heap order, as a property of the deadlines by position *)

Section Order.
Implicit Types (f : nat -> Z) (n i j p c : nat).

Definition child p c : Prop := (c = 2 * p + 1 \/ c = 2 * p + 2)%nat.

Definition ordered f n : Prop := forall p c, child p c -> (c < n)%nat -> f p <= f c.

(** ordered but for the edges at [i], whose removal would leave a heap *)
Definition ordered_but f n i : Prop :=
  (forall p c, child p c -> (c < n)%nat -> p <> i -> c <> i -> f p <= f c) /\
  (forall p c, child p i -> child i c -> (c < n)%nat -> f p <= f c).

Definition above_ok f i : Prop := forall p, child p i -> f p <= f i.
Definition below_ok f n i : Prop := forall c, child i c -> (c < n)%nat -> f i <= f c.

Definition swapped f i j : nat -> Z :=
  fun k => if Nat.eqb k i then f j else if Nat.eqb k j then f i else f k.

Lemma ordered_but_done f n i :
  ordered_but f n i -> above_ok f i -> below_ok f n i -> ordered f n.
Proof.
  intros [H1 _] Ha Hb p c Hc Hn. destruct (decide (c = i)) as [->|]; [by apply Ha|].
  destruct (decide (p = i)) as [->|]; [by apply Hb|by apply H1].
Qed.

Lemma ordered_weaken f n i : ordered f n -> ordered_but f n i /\ above_ok f i \/ (n <= i)%nat.
Proof.
  intros H. destruct (decide (i < n)%nat); [left|right; lia]. split; [split|].
  - intros p c Hc Hn _ _. by apply H.
  - intros p c Hp Hc Hn. assert (i < n)%nat by (unfold child in *; lia).
    transitivity (f i); by apply H.
  - intros p Hp. by apply H.
Qed.

Lemma parent_child j : (0 < j)%nat -> child (Nat.div2 (j - 1)) j.
Proof.
  intros. unfold child. rewrite Nat.div2_div. pose proof (Nat.div_mod (j - 1) 2 ltac:(lia)).
  pose proof (Nat.mod_upper_bound (j - 1) 2 ltac:(lia)). lia.
Qed.

Lemma child_parent p j : child p j -> p = Nat.div2 (j - 1).
Proof.
  unfold child. rewrite Nat.div2_div. intros H.
  pose proof (Nat.div_mod (j - 1) 2 ltac:(lia)). pose proof (Nat.mod_upper_bound (j - 1) 2 ltac:(lia)).
  lia.
Qed.

Lemma child_unique p q c : child p c -> child q c -> p = q.
Proof. unfold child. lia. Qed.

Lemma swapped_l f i j : swapped f i j i = f j.
Proof. unfold swapped. by rewrite Nat.eqb_refl. Qed.
Lemma swapped_r f i j : swapped f i j j = f i.
Proof. unfold swapped. rewrite Nat.eqb_refl. destruct (Nat.eqb_spec j i); congruence. Qed.
Lemma swapped_ne f i j k : k <> i -> k <> j -> swapped f i j k = f k.
Proof. intros. unfold swapped. by destruct (Nat.eqb_spec k i), (Nat.eqb_spec k j). Qed.

(** one round of [up] *)
Lemma sift_up_step f n p j :
  child p j -> (j < n)%nat -> f j < f p -> ordered_but f n j -> below_ok f n j ->
  ordered_but (swapped f p j) n p /\ below_ok (swapped f p j) n p.
Proof.
  intros Hp Hj Hlt [H1 H2] Hb. assert (Hne : p <> j) by (unfold child in *; lia).
  assert (Hs : forall c, child p c -> (c < n)%nat -> c <> j -> f p <= f c) by (intros; by apply H1).
  split; [split|].
  - intros q c Hc Hn Hq Hcp. assert (c <> j) by (intros ->; by eapply Hq, child_unique).
    rewrite (swapped_ne f p j c) by done. destruct (decide (q = j)) as [->|Hqj].
    + rewrite swapped_r. by apply H2.
    + rewrite swapped_ne by done. by apply H1.
  - intros q c Hq Hc Hn. assert (Hqp : f q <= f p).
    { apply H1; [done|unfold child in *; lia|unfold child in *; lia|done]. }
    rewrite (swapped_ne f p j q) by (unfold child in *; lia).
    destruct (decide (c = j)) as [->|Hcj]; [by rewrite swapped_r|].
    rewrite swapped_ne by (unfold child in *; lia). specialize (Hs c Hc Hn Hcj). lia.
  - intros c Hc Hn. rewrite swapped_l. destruct (decide (c = j)) as [->|Hcj]; [rewrite swapped_r; lia|].
    rewrite swapped_ne by (unfold child in *; lia). specialize (Hs c Hc Hn Hcj). lia.
Qed.

(** one round of [down], to the smaller child [j] *)
Lemma sift_down_step f n i j :
  child i j -> (j < n)%nat -> f j < f i ->
  (forall c, child i c -> (c < n)%nat -> f j <= f c) -> ordered_but f n i ->
  ordered_but (swapped f i j) n j /\ above_ok (swapped f i j) j.
Proof.
  intros Hj Hn Hlt Hmin [H1 H2]. assert (Hne : i <> j) by (unfold child in *; lia). split; [split|].
  - intros p c Hc Hcn Hp Hcj. destruct (decide (c = i)) as [->|Hci].
    + rewrite swapped_l, swapped_ne by (done || unfold child in *; lia). by apply H2.
    + rewrite (swapped_ne f i j c) by done. destruct (decide (p = i)) as [->|Hpi].
      * rewrite swapped_l. by apply Hmin.
      * rewrite swapped_ne by done. by apply H1.
  - intros p c Hp Hc Hcn. assert (p = i) as -> by (by eapply child_unique).
    rewrite swapped_l, swapped_ne by (unfold child in *; lia).
    apply H1; [done|done|unfold child in *; lia|unfold child in *; lia].
  - intros p Hp. assert (p = i) as -> by (by eapply child_unique). rewrite swapped_l, swapped_r. lia.
Qed.

(** the root of an ordered tree is a minimum *)
Lemma ordered_root f n k : ordered f n -> (k < n)%nat -> f 0%nat <= f k.
Proof.
  intros H. induction (lt_wf k) as [k _ IH]. intros Hk. destruct (decide (k = 0%nat)) as [->|Hk0]; [lia|].
  pose proof (parent_child k ltac:(lia)) as Hp. transitivity (f (Nat.div2 (k - 1))).
  - apply IH; unfold child in Hp; lia.
  - by apply H.
Qed.

End Order.

(** ** The operations *)

Abbreviation keys h := (deadlineAt (items h)).

(** the index fields are the positions *)
Definition indexed (h : deadlineHeap) : Prop :=
  forall id i, indexOf h !! id = Some i <-> exists d, items h !! i = Some (mkItem id d).

Record wf (h : deadlineHeap) : Prop := mkWf {
  wf_indexed : indexed h;
  wf_ordered : ordered (keys h) (Len h)
}.

Lemma exchange_lookup l i j k :
  (i < length l)%nat -> (j < length l)%nat ->
  exchange l i j !! k = if Nat.eqb k i then l !! j else if Nat.eqb k j then l !! i else l !! k.
Proof.
  intros Hi Hj. unfold exchange.
  destruct (lookup_lt_is_Some_2 l i Hi) as [a Ha], (lookup_lt_is_Some_2 l j Hj) as [b Hb].
  rewrite Ha, Hb. destruct (Nat.eqb_spec k i) as [->|Hki].
  - apply list_lookup_insert_eq. by rewrite length_insert.
  - rewrite list_lookup_insert_ne by done. destruct (Nat.eqb_spec k j) as [->|Hkj].
    + by apply list_lookup_insert_eq.
    + by rewrite list_lookup_insert_ne.
Qed.

Lemma length_exchange l i j : length (exchange l i j) = length l.
Proof. unfold exchange. destruct (l !! i), (l !! j); rewrite ?length_insert; done. Qed.

Lemma exchange_Permutation l i j : exchange l i j ≡ₚ l.
Proof.
  unfold exchange. destruct (l !! i) as [a|] eqn:Ha, (l !! j) as [b|] eqn:Hb; try done.
  destruct (decide (i = j)) as [->|Hne].
  - simplify_eq. rewrite (list_insert_id _ j a); [by rewrite list_insert_id|]. by rewrite list_insert_id.
  - assert (Hi : (i < length l)%nat) by (by eapply lookup_lt_Some).
    assert (Hj : (j < length l)%nat) by (by eapply lookup_lt_Some).
    apply Permutation_inj. split; [by rewrite !length_insert|].
    exists (fun k => if Nat.eqb k i then j else if Nat.eqb k j then i else k). split.
    + intros x y. destruct (Nat.eqb_spec x i), (Nat.eqb_spec y i); try congruence;
        destruct (Nat.eqb_spec x j), (Nat.eqb_spec y j); congruence.
    + intros k. destruct (Nat.eqb_spec k i) as [->|Hki].
      * rewrite list_lookup_insert_eq by (by rewrite length_insert). done.
      * rewrite list_lookup_insert_ne by done. destruct (Nat.eqb_spec k j) as [->|Hkj];
          [by rewrite list_lookup_insert_eq|by rewrite list_lookup_insert_ne].
Qed.

Lemma keys_exchange l i j k :
  (i < length l)%nat -> (j < length l)%nat ->
  deadlineAt (exchange l i j) k = swapped (deadlineAt l) i j k.
Proof. intros. unfold deadlineAt, swapped. rewrite exchange_lookup by done. by repeat case_match. Qed.

Lemma indexed_inj h i j a b :
  indexed h -> items h !! i = Some a -> items h !! j = Some b -> it_id a = it_id b -> i = j.
Proof.
  intros Hx Ha Hb Hid. destruct a as [ia da], b as [ib db]. cbn in Hid. subst ib.
  assert (indexOf h !! ia = Some i) by (apply Hx; by eexists).
  assert (indexOf h !! ia = Some j) by (apply Hx; by eexists). congruence.
Qed.

Lemma Swap_indexed h i j :
  indexed h -> (i < Len h)%nat -> (j < Len h)%nat -> indexed (Swap h i j).
Proof.
  intros Hx Hi Hj. unfold indexed, Swap. cbn [items indexOf]. unfold setIndex, Len in *.
  destruct (lookup_lt_is_Some_2 _ i Hi) as [a Ha], (lookup_lt_is_Some_2 _ j Hj) as [b Hb].
  rewrite (exchange_lookup _ i j i Hi Hj), (exchange_lookup _ i j j Hi Hj), !Nat.eqb_refl.
  rewrite Ha, Hb. replace (if Nat.eqb j i then Some b else Some a) with (Some a)
    by (destruct (Nat.eqb_spec j i); congruence).
  intros id k. rewrite exchange_lookup by done. rewrite Ha, Hb.
  destruct (decide (it_id a = id)) as [<-|Hida].
  - rewrite lookup_insert_eq. split.
    + intros [= <-]. exists (it_deadline a). destruct (Nat.eqb_spec j i) as [->|]; [|rewrite Nat.eqb_refl];
        destruct a; simplify_eq; done.
    + intros [d Hd]. destruct (Nat.eqb_spec k i) as [->|Hki]; [|destruct (Nat.eqb_spec k j) as [->|Hkj]; [done|]].
      * simplify_eq/=. f_equal. by eapply (indexed_inj h j i).
      * exfalso. apply Hki. by eapply (indexed_inj h k i).
  - rewrite lookup_insert_ne by done. destruct (decide (it_id b = id)) as [<-|Hidb].
    + rewrite lookup_insert_eq. split.
      * intros [= <-]. rewrite Nat.eqb_refl. exists (it_deadline b). by destruct b.
      * intros [d Hd]. destruct (Nat.eqb_spec k i) as [->|Hki]; [done|].
        destruct (Nat.eqb_spec k j) as [->|Hkj]; [simplify_eq/=; done|].
        exfalso. apply Hkj. by eapply (indexed_inj h k j).
    + rewrite lookup_insert_ne by done. rewrite (Hx id k).
      destruct (Nat.eqb_spec k i) as [->|Hki]; [|destruct (Nat.eqb_spec k j) as [->|Hkj]; [|done]];
        rewrite ?Ha, ?Hb; split; intros [d Hd]; simplify_eq/=.
Qed.

(** what moving elements around never changes *)
Definition rearranged (n : nat) (h h' : deadlineHeap) : Prop :=
  indexed h' /\ items h' ≡ₚ items h /\ (forall k, (n <= k)%nat -> items h' !! k = items h !! k).

Lemma rearranged_refl n h : indexed h -> rearranged n h h.
Proof. done. Qed.

Lemma rearranged_trans n h1 h2 h3 : rearranged n h1 h2 -> rearranged n h2 h3 -> rearranged n h1 h3.
Proof.
  intros (A1 & A2 & A3) (B1 & B2 & B3). split_and!; [done|by rewrite B2|].
  intros k Hk. by rewrite B3, A3.
Qed.

Lemma rearranged_Len n h h' : rearranged n h h' -> Len h' = Len h.
Proof. intros (_ & Hp & _). by apply Permutation_length. Qed.

Lemma Swap_rearranged n h i j :
  indexed h -> (i < n)%nat -> (j < n)%nat -> (n <= Len h)%nat -> rearranged n h (Swap h i j).
Proof.
  intros Hx Hi Hj Hn. unfold Len in *. split_and!.
  - apply Swap_indexed; unfold Len; (done || lia).
  - apply exchange_Permutation.
  - intros k Hk. unfold Swap. cbn [items]. rewrite exchange_lookup by lia.
    destruct (Nat.eqb_spec k i), (Nat.eqb_spec k j); (lia || done).
Qed.

Lemma ordered_but_ext f g n i :
  (forall k, f k = g k) -> ordered_but f n i -> ordered_but g n i.
Proof.
  intros E [H1 H2]. split; intros; rewrite <- !E; [by apply H1|by apply (H2 p c)].
Qed.

Lemma keys_Swap h i j :
  (i < Len h)%nat -> (j < Len h)%nat -> forall k, swapped (keys h) i j k = keys (Swap h i j) k.
Proof. intros Hi Hj k. symmetry. by apply keys_exchange. Qed.

(** [up] repairs the order above [j] *)
Lemma up_ok fuel h j n :
  indexed h -> (j < n)%nat -> (n <= Len h)%nat -> (j < fuel)%nat ->
  ordered_but (keys h) n j -> below_ok (keys h) n j ->
  rearranged n h (up fuel h j) /\ ordered (keys (up fuel h j)) n.
Proof.
  revert h j. induction fuel as [|fuel IH]; [lia|]. intros h j Hx Hj Hn Hf Ho Hb. cbn [up].
  destruct (Nat.eqb_spec (Nat.div2 (j - 1)) j) as [E|Hne]; cbn [orb].
  - assert (j = 0%nat) as ->.
    { destruct j; [done|]. rewrite Nat.div2_div in E. pose proof (Nat.Div0.div_le_upper_bound (S j - 1) 2 j). lia. }
    split; [by apply rearranged_refl|]. eapply ordered_but_done; [done| |done].
    intros p Hp. unfold child in Hp. lia.
  - assert (Hj0 : (0 < j)%nat) by (destruct j; [done|lia]).
    pose proof (parent_child j Hj0) as Hp. set (p := Nat.div2 (j - 1)) in *.
    unfold Less. destruct (Z.ltb_spec (keys h j) (keys h p)) as [Hlt|Hge]; cbn [negb].
    + assert (Hpj : (p < j)%nat) by (unfold child in Hp; lia).
      destruct (sift_up_step (keys h) n p j Hp Hj Hlt Ho Hb) as [Ho' Hb'].
      pose proof (keys_Swap h p j ltac:(lia) ltac:(lia)) as E.
      pose proof (Swap_rearranged n h p j Hx ltac:(lia) Hj Hn) as R.
      destruct (IH (Swap h p j) p) as [R' O']; [apply R|lia|by rewrite (rearranged_Len _ _ _ R)|lia| | |].
      * by eapply ordered_but_ext.
      * intros c Hc Hcn. rewrite <- !E. by apply Hb'.
      * split; [by eapply rearranged_trans|done].
    + split; [by apply rearranged_refl|]. eapply ordered_but_done; [done| |done].
      intros q Hq. by rewrite (child_unique q p j Hq Hp).
Qed.

(** the child [down] goes to is the smaller one *)
Lemma smaller_child h i n :
  (2 * i + 1 < n)%nat ->
  let j := if Nat.ltb (S (2 * i + 1)) n && Less h (S (2 * i + 1)) (2 * i + 1)
           then S (2 * i + 1) else (2 * i + 1)%nat in
  child i j /\ (j < n)%nat /\ (forall c, child i c -> (c < n)%nat -> keys h j <= keys h c).
Proof.
  intros Hn. cbv zeta. unfold Less. set (j1 := (2 * i + 1)%nat) in *.
  destruct (Nat.ltb_spec (S j1) n); cbn [andb]; [destruct (Z.ltb_spec (keys h (S j1)) (keys h j1))|];
    (split; [unfold child; lia|]; split; [lia|]; intros c Hc Hcn;
     assert (c = j1 \/ c = S j1) as [-> | ->] by (unfold child in Hc; lia); lia).
Qed.

(** [down] repairs the order below [i]; it reports whether the element moved *)
Lemma down_ok fuel h i n :
  indexed h -> (i < n)%nat -> (n <= Len h)%nat -> (n <= fuel + i)%nat -> ordered_but (keys h) n i ->
  let '(h', i') := down fuel h i n in
  rearranged n h h' /\
  ((i < i')%nat /\ ordered (keys h') n \/ i' = i /\ h' = h /\ below_ok (keys h) n i).
Proof.
  revert h i. induction fuel as [|fuel IH]; intros h i Hx Hi Hn Hf Ho; [lia|]. cbn [down].
  destruct (Nat.leb_spec n (2 * i + 1)) as [Hlast|Hlast].
  { split; [by apply rearranged_refl|]. right. split_and!; try done.
    intros c Hc Hcn. unfold child in Hc. lia. }
  destruct (smaller_child h i n Hlast) as (Hc & Hjn & Hmin).
  set (j := if _ && _ then _ else _) in *. clearbody j.
  unfold Less. destruct (Z.ltb_spec (keys h j) (keys h i)) as [Hlt|Hge]; cbn [negb].
  - destruct (sift_down_step (keys h) n i j Hc Hjn Hlt Hmin Ho) as [Ho' Ha'].
    pose proof (keys_Swap h i j ltac:(lia) ltac:(lia)) as E.
    pose proof (Swap_rearranged n h i j Hx Hi Hjn Hn) as R.
    assert (Hij : (i < j)%nat) by (unfold child in Hc; lia).
    assert (O2 : ordered_but (keys (Swap h i j)) n j) by (by eapply ordered_but_ext).
    specialize (IH (Swap h i j) j (proj1 R) Hjn ltac:(by rewrite (rearranged_Len _ _ _ R)) ltac:(lia) O2).
    destruct (down fuel (Swap h i j) j n) as [h' i']. destruct IH as [R' IH].
    split; [by eapply rearranged_trans|]. left.
    destruct IH as [[Hi' Hord]|(-> & -> & Hbelow)]; (split; [lia|]); [done|].
    eapply ordered_but_done; [done| |done]. intros p Hp. rewrite <- !E. by apply Ha'.
  - split; [by apply rearranged_refl|]. right. split_and!; try done.
    intros c Hc' Hcn. specialize (Hmin c Hc' Hcn). lia.
Qed.

Lemma pushLast_indexed h op :
  indexed h -> indexOf h !! it_id op = None -> indexed (pushLast h op).
Proof.
  intros Hx Hnew id i. unfold pushLast. cbn [items indexOf].
  destruct (decide (it_id op = id)) as [<-|Hne].
  - rewrite lookup_insert_eq. split.
    + intros [= <-]. exists (it_deadline op). rewrite list_lookup_middle by done. by destruct op.
    + intros [d [Hd|[Hle Hd]]%lookup_app_Some].
      * assert (indexOf h !! it_id op = Some i) by (apply Hx; by eexists). congruence.
      * destruct (i - length (items h))%nat eqn:E; [f_equal; lia|done].
  - rewrite lookup_insert_ne by done. rewrite (Hx id i). split; intros [d Hd]; exists d.
    + by apply lookup_app_l_Some.
    + apply lookup_app_Some in Hd as [Hd|[Hle Hd]]; [done|].
      destruct (i - length (items h))%nat; [|done]. by simplify_eq/=.
Qed.

(** [heap.Push] adds the operation and keeps the heap *)
Lemma Push_ok h op :
  wf h -> indexOf h !! it_id op = None -> wf (Push h op) /\ items (Push h op) ≡ₚ op :: items h.
Proof.
  intros [Hx Ho] Hnew. unfold Push. pose proof (pushLast_indexed h op Hx Hnew) as Hx'.
  assert (HL : Len (pushLast h op) = S (Len h)) by (unfold Len, pushLast; cbn; rewrite length_app; cbn; lia).
  assert (Hk : forall k, (k < Len h)%nat -> keys (pushLast h op) k = keys h k).
  { intros k Hk. unfold deadlineAt, pushLast. cbn [items]. by rewrite lookup_app_l. }
  rewrite HL. replace (S (Len h) - 1)%nat with (Len h) by lia.
  destruct (up_ok (S (Len h)) (pushLast h op) (Len h) (S (Len h))) as [R O]; try done; try lia.
  - split.
    + intros p c Hc Hn Hp Hcl. rewrite !Hk by (unfold child in *; lia). apply Ho; [done|lia].
    + intros p c Hp Hc Hn. unfold child in *. lia.
  - intros c Hc Hn. unfold child in Hc. lia.
  - split; [split|].
    + apply R.
    + by rewrite (rearranged_Len _ _ _ R), HL.
    + destruct R as (_ & -> & _). unfold pushLast. cbn [items]. by rewrite Permutation_app_comm.
Qed.

(** taking the last element off *)
Lemma popLast_ok h op :
  indexed h -> items h !! (Len h - 1)%nat = Some op -> ordered (keys h) (Len h - 1) ->
  exists h', popLast h = Some (h', op) /\ wf h' /\ items h ≡ₚ op :: items h'.
Proof.
  intros Hx Hl Ho. unfold popLast, Len in *.
  assert (Hne : (length (items h) - 1 < length (items h))%nat) by (by eapply lookup_lt_Some).
  rewrite last_lookup. replace (pred (length (items h))) with (length (items h) - 1)%nat by lia.
  rewrite Hl. eexists. split; [done|]. split; [split|].
  - intros id i. cbn [items indexOf]. destruct (decide (it_id op = id)) as [<-|Hid].
    + rewrite lookup_delete_eq. split; [done|]. intros [d Hd].
      apply lookup_take_Some in Hd as [Hd Hi].
      assert (i = (length (items h) - 1)%nat) by (by eapply (indexed_inj h)). lia.
    + rewrite lookup_delete_ne, (Hx id i) by done. split; intros [d Hd]; exists d.
      * apply lookup_take_Some. split; [done|]. pose proof (lookup_lt_Some _ _ _ Hd).
        destruct (decide (i = length (items h) - 1)%nat) as [->|]; [|lia]. by simplify_eq/=.
      * by apply lookup_take_Some in Hd as [? _].
  - unfold Len. cbn [items]. rewrite length_take. intros p c Hc Hn.
    unfold deadlineAt. rewrite !lookup_take_lt by (unfold child in *; lia). apply Ho; [done|lia].
  - cbn [items]. rewrite <- (take_drop (length (items h) - 1) (items h)) at 1.
    rewrite (drop_S _ _ _ Hl), drop_ge by lia. by rewrite Permutation_app_comm.
Qed.

Lemma wf_root h op o : wf h -> items h !! 0%nat = Some op -> o ∈ items h -> it_deadline op <= it_deadline o.
Proof.
  intros [_ Ho] H0 [k Hk]%list_elem_of_lookup.
  pose proof (ordered_root _ _ k Ho (lookup_lt_Some _ _ _ Hk)) as H.
  unfold deadlineAt in H. by rewrite H0, Hk in H.
Qed.

(** [heap.Remove] at the index field of an operation takes that operation out *)
Lemma Remove_ok h id i :
  wf h -> indexOf h !! id = Some i ->
  exists h' op, Remove h i = Some (h', op) /\ it_id op = id /\ wf h' /\ items h ≡ₚ op :: items h'.
Proof.
  intros [Hx Ho] Hi. destruct (proj1 (Hx id i) Hi) as [d Hd]. pose proof (lookup_lt_Some _ _ _ Hd) as Hlt.
  unfold Remove. destruct (Nat.leb_spec (Len h) i) as [Hge|_]; [unfold Len in Hge; lia|].
  set (n := (Len h - 1)%nat). destruct (Nat.eqb_spec n i) as [<-|Hni].
  - destruct (popLast_ok h (mkItem id d) Hx Hd) as (h' & E & Hw & Hp).
    { intros p c Hc Hn. apply Ho; [done|lia]. }
    by exists h', (mkItem id d).
  - assert (Hin : (i < n)%nat) by (unfold n, Len in *; lia).
    pose proof (Swap_rearranged (S n) h i n Hx ltac:(lia) ltac:(lia) ltac:(unfold n; lia)) as R.
    pose proof (keys_Swap h i n ltac:(unfold n in *; lia) ltac:(unfold n in *; lia)) as E.
    assert (Hlast : items (Swap h i n) !! n = Some (mkItem id d)).
    { unfold Swap. cbn [items]. rewrite exchange_lookup by (unfold n, Len in *; lia).
      rewrite Nat.eqb_refl, Hd. by destruct (Nat.eqb_spec n i). }
    assert (HL := rearranged_Len _ _ _ R).
    assert (Hbut : ordered_but (keys (Swap h i n)) n i).
    { split.
      - intros p c Hc Hcn Hp Hci. rewrite <- !E, !swapped_ne by (unfold child in *; lia).
        apply Ho; [done|unfold n in *; lia].
      - intros p c Hp Hc Hcn. rewrite <- !E, !swapped_ne by (unfold child in *; lia).
        transitivity (keys h i); apply Ho; (done || unfold n, child in *; lia). }
    pose proof (down_ok (Len h) (Swap h i n) i n (proj1 R) Hin ltac:(unfold n in *; lia)
                  ltac:(unfold n; lia) Hbut) as Hdown.
    destruct (down (Len h) (Swap h i n) i n) as [h1 i1]. destruct Hdown as [R1 Hdown].
    assert (Hfin : exists h2, (if Nat.ltb i i1 then h1 else up (Len h) h1 i) = h2 /\
      rearranged n (Swap h i n) h2 /\ ordered (keys h2) n).
    { eexists. split; [done|]. destruct Hdown as [[Hm Hord]|(-> & -> & Hb)].
      - by rewrite (proj2 (Nat.ltb_lt i i1) Hm).
      - rewrite Nat.ltb_irrefl. apply up_ok; (apply R1 || done || unfold n in *; lia). }
    destruct Hfin as (h2 & -> & R2 & O2). assert (HL2 := rearranged_Len _ _ _ R2).
    assert (Len h2 - 1 = n)%nat as Hn2 by (unfold n; lia).
    destruct (popLast_ok h2 (mkItem id d)) as (h' & Eq & Hw & Hp).
    + apply R2.
    + rewrite Hn2. rewrite (proj2 (proj2 R2)) by lia. done.
    + by rewrite Hn2.
    + exists h', (mkItem id d). split_and!; try done. rewrite <- Hp.
      destruct R as (_ & <- & _), R2 as (_ & <- & _). done.
Qed.

(** [heap.Pop] takes out an operation with the earliest deadline *)
Lemma Pop_ok h :
  wf h -> items h <> [] ->
  exists h' op, Pop h = Some (h', op) /\ wf h' /\ items h ≡ₚ op :: items h' /\ items h !! 0%nat = Some op /\
    forall o, o ∈ items h -> it_deadline op <= it_deadline o.
Proof.
  intros Hw Hne. pose proof Hw as [Hx Ho].
  assert (HL : (0 < Len h)%nat) by (unfold Len; destruct (items h); cbn; [done|lia]).
  destruct (lookup_lt_is_Some_2 (items h) 0 HL) as [op Hop].
  assert (Hmin : forall o, o ∈ items h -> it_deadline op <= it_deadline o) by (intros o; by apply wf_root).
  unfold Pop. set (n := (Len h - 1)%nat).
  pose proof (Swap_rearranged (S n) h 0 n Hx ltac:(lia) ltac:(lia) ltac:(unfold n; lia)) as R.
  pose proof (keys_Swap h 0 n ltac:(lia) ltac:(unfold n; lia)) as E.
  assert (Hlast : items (Swap h 0 n) !! n = Some op).
  { unfold Swap. cbn [items]. rewrite exchange_lookup by (unfold n, Len in *; lia).
    destruct (Nat.eqb_spec n 0) as [->|]; [done|]. by rewrite Nat.eqb_refl. }
  assert (HL1 := rearranged_Len _ _ _ R).
  assert (Hfin : exists h2, (down (Len h) (Swap h 0 n) 0 n).1 = h2 /\
    rearranged n (Swap h 0 n) h2 /\ ordered (keys h2) n).
  { eexists. split; [done|]. destruct (decide (n = 0%nat)) as [Hn0|Hn0].
    - destruct (Len h) as [|m]; [lia|]. cbn [down]. replace (Nat.leb n (2 * 0 + 1)) with true
        by (symmetry; apply Nat.leb_le; lia). cbn [fst]. split; [by apply rearranged_refl, R|].
      intros p c Hc Hcn. lia.
    - assert (Hbut : ordered_but (keys (Swap h 0 n)) n 0).
      { split; [|intros p c Hp; unfold child in Hp; lia].
        intros p c Hc Hcn Hp Hci. rewrite <- !E, !swapped_ne by (unfold child in *; lia).
        apply Ho; [done|unfold n in *; lia]. }
      pose proof (down_ok (Len h) (Swap h 0 n) 0 n (proj1 R) ltac:(lia) ltac:(unfold n in *; lia)
                    ltac:(unfold n; lia) Hbut) as Hdown.
      destruct (down _ _ _ _) as [h1 i1]. destruct Hdown as [R1 [[_ Hord]|(-> & -> & Hb)]]; [done|].
      split; [done|]. eapply ordered_but_done; [done| |done]. intros p Hp. unfold child in Hp. lia. }
  destruct Hfin as (h2 & -> & R2 & O2). assert (HL2 := rearranged_Len _ _ _ R2).
  assert (Len h2 - 1 = n)%nat as Hn2 by (unfold n; lia).
  destruct (popLast_ok h2 op) as (h' & Eq & Hw' & Hp).
  - apply R2.
  - rewrite Hn2. rewrite (proj2 (proj2 R2)) by lia. done.
  - by rewrite Hn2.
  - exists h', op. split_and!; try done. rewrite <- Hp.
    destruct R as (_ & <- & _), R2 as (_ & <- & _). done.
Qed.

Lemma wf_empty : wf empty.
Proof.
  split; [|intros p c _ Hn; cbn in Hn; lia].
  intros id i. unfold empty. cbn. rewrite lookup_empty. split; [done|intros [? [=]]].
Qed.

Lemma indexed_member h id : indexed h -> is_Some (indexOf h !! id) <-> id ∈ it_id <$> items h.
Proof.
  intros Hx. split.
  - intros [i Hi]. apply Hx in Hi as [d Hd]. apply list_elem_of_fmap. exists (mkItem id d).
    split; [done|]. by eapply list_elem_of_lookup_2.
  - intros (o & -> & [i Hi]%list_elem_of_lookup)%list_elem_of_fmap. exists i. apply Hx.
    exists (it_deadline o). by destruct o.
Qed.

Lemma indexed_nodup h : indexed h -> NoDup (it_id <$> items h).
Proof.
  intros Hx. apply NoDup_fmap_2_strong.
  - intros a b [i Ha]%list_elem_of_lookup [j Hb]%list_elem_of_lookup Hab.
    assert (i = j) as -> by (by apply (indexed_inj h i j a b)). congruence.
  - apply NoDup_alt. intros i j a Ha Hb. by apply (indexed_inj h i j a a).
Qed.
End DeadlineHeap.
