(* ===== verification/Scheduler.v ===== *)
(** * The scheduler of the coordinator ([coordinator/coordinator.go], [types.go])

    One goroutine ([run]) owns the queues: a FIFO by command number per pane, one
    queue for commands of the relay itself, a ledger that makes retries
    idempotent, a heap of deadlines.  Its local variables are the record [Owner];
    every case of its [select] is a function of the owner.  Operations are
    pointers in the code: [ops] maps operation ids to them, queues hold ids.  What
    the owner does to the outside (answers on response channels, workers started
    and cancelled) is appended to [trace]; every [ExecuteAdmitted] makes one
    response channel, named by the id of the operation it made.  [None] is a
    run-time panic (or a loop that does not end).  The clock reads of one case are
    one instant [now]; Go iterates over maps in an arbitrary order, which is an
    argument where it can be observed.

    [Scheduler] holds the operations, [SchedulerInv] the invariant and that every
    operation keeps it, [SchedulerSafety] the guarantees of runs. *)
From stdpp Require Import sorting.
From S2P Require Import Prelude DeadlineHeap.
Import DeadlineHeap.

Module Scheduler.

(** ** Data ([types.go], [CommandResult] of [dispatch.go]) *)

(** [Data], an arbitrary JSON value, is its rendering *)
Record CommandResult := mkResult {
  cr_RequestID : string; cr_Action : string; cr_OK : bool; cr_Phase : string; cr_Error : string;
  cr_PaneID : string; cr_Data : string; cr_replayed : bool }.

Inductive error := ErrIngressFull | ErrConflict | ErrClosed | ErrPaneReplaced.

(** [Command] and [ScheduleOptions]; the payload is not read by the scheduler *)
Record ScheduleOptions := mkOptions {
  ID : Z; ClientID : string; RequestID : string; ReceivedAt : time; Deadline : time; Kind : string;
  PaneID : string; RelayLevel : bool; PaneGeneration : Z; AllowAbsent : bool; LedgerKey : string;
  PayloadHash : string }.

Record EffectResult := mkEffect { Result : option CommandResult; BumpGeneration : bool }.

Record WorkerToken := mkToken {
  wt_OperationID : Z; wt_PaneID : string; wt_Generation : Z; wt_AllowAbsent : bool;
  wt_Deadline : time }.

(** ** State of the scheduler *)

Record scheduleWaiter := mkWaiter { response : Z; w_replayed : bool }.

Record scheduledOperation := mkOp {
  options : ScheduleOptions; sequence : Z; operation : Z; generation : Z;
  waiters : list scheduleWaiter; dispatched : bool }.

Definition set_generation (g : Z) (o : scheduledOperation) : scheduledOperation :=
  mkOp (options o) (sequence o) (operation o) g (waiters o) (dispatched o).
Definition set_waiters (w : list scheduleWaiter) (o : scheduledOperation) : scheduledOperation :=
  mkOp (options o) (sequence o) (operation o) (generation o) w (dispatched o).
Definition set_dispatched (o : scheduledOperation) : scheduledOperation :=
  mkOp (options o) (sequence o) (operation o) (generation o) (waiters o) true.

Record InFlightOperation := mkInFlight {
  if_OperationID : Z; if_CommandID : Z; if_Generation : Z; if_StartedAt : time }.

Record PaneSlot := mkSlot {
  Generation : Z; Queue : list Z; InFlight : option InFlightOperation }.

Definition newSlot : PaneSlot := mkSlot 0 [] None.

Record ledgerEntry := mkEntry {
  le_payloadHash : string; le_operation : option Z; le_result : option CommandResult;
  le_generation : Z; le_paneID : string; le_createdAt : time }.

Record SchedulerMetrics := mkMetrics {
  IngressHighWater : Z; CompletionHighWater : Z; RejectedNotStarted : Z; ExpiredQueued : Z;
  Dispatched : Z; Completed : Z; HerdrInUse : Z; PaneSlots : Z; LatencySamples : Z;
  LatencyTotalMicros : Z; LatencyMaxMicros : Z }.

Inductive effect :=
| Reply (response : Z) (result : option CommandResult) (err : option error) (replayed : bool)
| Start (token : WorkerToken) (relayLevel : bool)
| Cancel (op : Z)
| TopologyApplied
| Stopped.

Record Owner := mkOwner {
  ops : gmap Z scheduledOperation;
  slots : gmap string PaneSlot;
  relayQueue : list Z;
  relayInFlight : gset Z;
  ledger : gmap string ledgerEntry;
  knownActive : gset string;
  deadlines : deadlineHeap;
  timer : option time;
  inUse : Z;
  stopping : bool;
  stopAck : bool;
  metrics : SchedulerMetrics;
  trace : list effect
}.

Definition set_ops (v : gmap Z scheduledOperation) (s : Owner) : Owner :=
  mkOwner v (slots s) (relayQueue s) (relayInFlight s) (ledger s) (knownActive s) (deadlines s)
    (timer s) (inUse s) (stopping s) (stopAck s) (metrics s) (trace s).
Definition set_slots (v : gmap string PaneSlot) (s : Owner) : Owner :=
  mkOwner (ops s) v (relayQueue s) (relayInFlight s) (ledger s) (knownActive s) (deadlines s)
    (timer s) (inUse s) (stopping s) (stopAck s) (metrics s) (trace s).
Definition set_relayQueue (v : list Z) (s : Owner) : Owner :=
  mkOwner (ops s) (slots s) v (relayInFlight s) (ledger s) (knownActive s) (deadlines s) (timer
    s) (inUse s) (stopping s) (stopAck s) (metrics s) (trace s).
Definition set_relayInFlight (v : gset Z) (s : Owner) : Owner :=
  mkOwner (ops s) (slots s) (relayQueue s) v (ledger s) (knownActive s) (deadlines s) (timer s)
    (inUse s) (stopping s) (stopAck s) (metrics s) (trace s).
Definition set_ledger (v : gmap string ledgerEntry) (s : Owner) : Owner :=
  mkOwner (ops s) (slots s) (relayQueue s) (relayInFlight s) v (knownActive s) (deadlines s)
    (timer s) (inUse s) (stopping s) (stopAck s) (metrics s) (trace s).
Definition set_knownActive (v : gset string) (s : Owner) : Owner :=
  mkOwner (ops s) (slots s) (relayQueue s) (relayInFlight s) (ledger s) v (deadlines s) (timer
    s) (inUse s) (stopping s) (stopAck s) (metrics s) (trace s).
Definition set_deadlines (v : deadlineHeap) (s : Owner) : Owner :=
  mkOwner (ops s) (slots s) (relayQueue s) (relayInFlight s) (ledger s) (knownActive s) v
    (timer s) (inUse s) (stopping s) (stopAck s) (metrics s) (trace s).
Definition set_timer (v : option time) (s : Owner) : Owner :=
  mkOwner (ops s) (slots s) (relayQueue s) (relayInFlight s) (ledger s) (knownActive s)
    (deadlines s) v (inUse s) (stopping s) (stopAck s) (metrics s) (trace s).
Definition set_inUse (v : Z) (s : Owner) : Owner :=
  mkOwner (ops s) (slots s) (relayQueue s) (relayInFlight s) (ledger s) (knownActive s)
    (deadlines s) (timer s) v (stopping s) (stopAck s) (metrics s) (trace s).
Definition set_stopping (v : bool) (s : Owner) : Owner :=
  mkOwner (ops s) (slots s) (relayQueue s) (relayInFlight s) (ledger s) (knownActive s)
    (deadlines s) (timer s) (inUse s) v (stopAck s) (metrics s) (trace s).
Definition set_stopAck (v : bool) (s : Owner) : Owner :=
  mkOwner (ops s) (slots s) (relayQueue s) (relayInFlight s) (ledger s) (knownActive s)
    (deadlines s) (timer s) (inUse s) (stopping s) v (metrics s) (trace s).
Definition set_metrics (v : SchedulerMetrics) (s : Owner) : Owner :=
  mkOwner (ops s) (slots s) (relayQueue s) (relayInFlight s) (ledger s) (knownActive s)
    (deadlines s) (timer s) (inUse s) (stopping s) (stopAck s) v (trace s).
Definition set_trace (v : list effect) (s : Owner) : Owner :=
  mkOwner (ops s) (slots s) (relayQueue s) (relayInFlight s) (ledger s) (knownActive s)
    (deadlines s) (timer s) (inUse s) (stopping s) (stopAck s) (metrics s) v.

Definition coordinatorIngressCapacity : Z := 128.
Definition coordinatorCompletionCapacity : Z := 32.
Definition maxLedgerEntries : Z := 256.
Definition ledgerRetention : duration := 24 * 3600 * second.
Definition defaultHerdrCapacity : Z := 8.

Definition newOwner : Owner :=
  mkOwner ∅ ∅ [] ∅ ∅ ∅ empty None 0 false false (mkMetrics 0 0 0 0 0 0 0 0 0 0 0) [].

(** ** Metrics *)

Definition metric (f : SchedulerMetrics -> SchedulerMetrics) (s : Owner) : Owner :=
  set_metrics (f (metrics s)) s.

Definition observeIngress (depth : Z) (m : SchedulerMetrics) : SchedulerMetrics :=
  mkMetrics (if depth >? IngressHighWater m then depth else IngressHighWater m) (CompletionHighWater m)
    (RejectedNotStarted m) (ExpiredQueued m) (Dispatched m) (Completed m) (HerdrInUse m) (PaneSlots m)
    (LatencySamples m) (LatencyTotalMicros m) (LatencyMaxMicros m).
Definition observeCompletion (depth : Z) (m : SchedulerMetrics) : SchedulerMetrics :=
  mkMetrics (IngressHighWater m) (if depth >? CompletionHighWater m then depth else CompletionHighWater m)
    (RejectedNotStarted m) (ExpiredQueued m) (Dispatched m) (Completed m) (HerdrInUse m) (PaneSlots m)
    (LatencySamples m) (LatencyTotalMicros m) (LatencyMaxMicros m).
Definition addRejected (m : SchedulerMetrics) : SchedulerMetrics :=
  mkMetrics (IngressHighWater m) (CompletionHighWater m) (RejectedNotStarted m + 1) (ExpiredQueued m)
    (Dispatched m) (Completed m) (HerdrInUse m) (PaneSlots m) (LatencySamples m)
    (LatencyTotalMicros m) (LatencyMaxMicros m).
Definition addExpired (m : SchedulerMetrics) : SchedulerMetrics :=
  mkMetrics (IngressHighWater m) (CompletionHighWater m) (RejectedNotStarted m) (ExpiredQueued m + 1)
    (Dispatched m) (Completed m) (HerdrInUse m) (PaneSlots m) (LatencySamples m)
    (LatencyTotalMicros m) (LatencyMaxMicros m).
Definition addDispatched (m : SchedulerMetrics) : SchedulerMetrics :=
  mkMetrics (IngressHighWater m) (CompletionHighWater m) (RejectedNotStarted m) (ExpiredQueued m)
    (Dispatched m + 1) (Completed m) (HerdrInUse m) (PaneSlots m) (LatencySamples m)
    (LatencyTotalMicros m) (LatencyMaxMicros m).
Definition addCompleted (m : SchedulerMetrics) : SchedulerMetrics :=
  mkMetrics (IngressHighWater m) (CompletionHighWater m) (RejectedNotStarted m) (ExpiredQueued m)
    (Dispatched m) (Completed m + 1) (HerdrInUse m) (PaneSlots m) (LatencySamples m)
    (LatencyTotalMicros m) (LatencyMaxMicros m).
Definition addLatency (latency : duration) (m : SchedulerMetrics) : SchedulerMetrics :=
  if latency >? 0 then
    let micros := latency / 1000 in
    mkMetrics (IngressHighWater m) (CompletionHighWater m) (RejectedNotStarted m) (ExpiredQueued m)
      (Dispatched m) (Completed m) (HerdrInUse m) (PaneSlots m) (LatencySamples m + 1)
      (LatencyTotalMicros m + micros) (if micros >? LatencyMaxMicros m then micros else LatencyMaxMicros m)
  else m.
Definition setOwnerMetrics (s : Owner) : Owner :=
  metric (fun m => mkMetrics (IngressHighWater m) (CompletionHighWater m) (RejectedNotStarted m)
    (ExpiredQueued m) (Dispatched m) (Completed m) (inUse s) (Z.of_nat (size (slots s)))
    (LatencySamples m) (LatencyTotalMicros m) (LatencyMaxMicros m)) s.

(** ** Answers *)

Definition emit (e : effect) (s : Owner) : Owner := set_trace (trace s ++ [e]) s.

Definition replyWithReplay (s : Owner) (op : scheduledOperation) (result : option CommandResult)
    (err : option error) (forceReplay : bool) : Owner :=
  set_trace (trace s ++ ((fun w => Reply (response w) result err (forceReplay || w_replayed w)) <$>
                         waiters op)) s.

Definition reply (s : Owner) (op : scheduledOperation) (result : option CommandResult)
    (err : option error) : Owner := replyWithReplay s op result err false.

Definition replyReplayed (s : Owner) (op : scheduledOperation) (result : option CommandResult)
    (err : option error) : Owner := replyWithReplay s op result err true.

Definition notStarted (op : scheduledOperation) : CommandResult :=
  mkResult (RequestID (options op)) (Kind (options op)) false "not_started"
    "command was not sent; retry is safe" (PaneID (options op)) "" false.

Definition replyNotStarted (s : Owner) (op : scheduledOperation) : Owner :=
  reply s op (Some (notStarted op)) None.

Definition forget (key : string) (s : Owner) : Owner :=
  if String.eqb key "" then s else set_ledger (delete key (ledger s)) s.

Definition staleResult (op : scheduledOperation) : CommandResult :=
  let '(phase, publicError) :=
    if dispatched op
    then ("dispatched_unknown",
          "command was dispatched before the pane session was replaced; outcome is unknown")
    else ("failed", "pane session was replaced") in
  mkResult (RequestID (options op)) (Kind (options op)) false phase publicError
    (PaneID (options op)) "" false.

Definition replyStale (s : Owner) (op : scheduledOperation) : Owner :=
  reply (forget (LedgerKey (options op)) s) op (Some (staleResult op)) None.

Definition expire (s : Owner) (op : scheduledOperation) : Owner :=
  replyNotStarted (metric addExpired (forget (LedgerKey (options op)) s)) op.

(** ** Queues *)

(** [sort.Search]: binary search for the first index in [i, j) where [f] holds *)
Fixpoint search (fuel : nat) (i j : nat) (f : nat -> bool) : nat :=
  match fuel with
  | O => i
  | S fuel =>
      if Nat.ltb i j then
        let h := Nat.div2 (i + j) in
        if negb (f h) then search fuel (S h) j f else search fuel i h f
      else i
  end.

Definition sequenceOf (s : Owner) (id : Z) : Z := from_option sequence 0 (ops s !! id).

Definition insertBySequence (s : Owner) (queue : list Z) (id : Z) : list Z :=
  let at_ := search (S (length queue)) 0 (length queue)
               (fun i => sequenceOf s (default 0 (queue !! i)) >? sequenceOf s id) in
  take at_ queue ++ id :: drop at_ queue.

Fixpoint removeOperation (queue : list Z) (target : Z) : list Z * bool :=
  match queue with
  | [] => ([], false)
  | op :: queue =>
      if op =? target then (queue, true)
      else let (queue, removed) := removeOperation queue target in (op :: queue, removed)
  end.

Definition set_Queue (q : list Z) (sl : PaneSlot) : PaneSlot := mkSlot (Generation sl) q (InFlight sl).
Definition set_Generation (g : Z) (sl : PaneSlot) : PaneSlot := mkSlot g (Queue sl) (InFlight sl).
Definition set_InFlight (f : option InFlightOperation) (sl : PaneSlot) : PaneSlot :=
  mkSlot (Generation sl) (Queue sl) f.

Definition putSlot (paneID : string) (sl : PaneSlot) (s : Owner) : Owner :=
  set_slots (<[paneID := sl]> (slots s)) s.

(** [if op.index >= 0 { heap.Remove(&deadlines, op.index) }] *)
Definition dropDeadline (s : Owner) (id : Z) : option Owner :=
  match indexOf (deadlines s) !! id with
  | None => Some s
  | Some i => let? r := Remove (deadlines s) i in Some (set_deadlines r.1 s)
  end.

Definition removeQueued (s : Owner) (id : Z) (op : scheduledOperation) : Owner * bool :=
  if RelayLevel (options op) then
    let (queue, removed) := removeOperation (relayQueue s) id in (set_relayQueue queue s, removed)
  else
    match slots s !! PaneID (options op) with
    | None => (s, false)
    | Some sl =>
        if from_option (fun f => if_OperationID f =? id) false (InFlight sl) then (s, false) else
        let (queue, removed) := removeOperation (Queue sl) id in
        (putSlot (PaneID (options op)) (set_Queue queue sl) s, removed)
    end.

(** ** Dispatch *)

Definition start (s : Owner) (op : scheduledOperation) (g : Z) : Owner :=
  let token := mkToken (operation op) (PaneID (options op)) g (AllowAbsent (options op))
                 (Deadline (options op)) in
  emit (Start token (RelayLevel (options op)))
    (set_ops (<[operation op := set_dispatched op]> (ops s)) (metric addDispatched s)).

(** the loop discards operations whose index field says they left the heap *)
Fixpoint resetLoop (fuel : nat) (s : Owner) : option Owner :=
  match fuel with
  | O => None
  | S fuel =>
      match items (deadlines s) with
      | [] => Some (set_timer None s)
      | op :: _ =>
          if bool_decide (is_Some (indexOf (deadlines s) !! it_id op))
          then Some (set_timer (Some (it_deadline op)) s)
          else let? r := Pop (deadlines s) in resetLoop fuel (set_deadlines r.1 s)
      end
  end.

(** the timer is armed for the first deadline *)
Definition resetTimer (s : Owner) : option Owner :=
  resetLoop (S (Len (deadlines s))) (set_timer None s).

Section Dispatch.
Context (capacity : Z).

(** one command of the relay queue *)
Definition dispatchRelayHead (now : time) (s : Owner) (id : Z) (rest : list Z) : option Owner :=
  let s := set_relayQueue rest s in
  let? op := ops s !! id in
  if negb (now <? Deadline (options op)) then
    let? s := dropDeadline s id in Some (expire s op)
  else
    Some (start (set_relayInFlight (relayInFlight s ∪ {[id]}) (set_inUse (inUse s + 1) s)) op 0).

Fixpoint dispatchRelay (fuel : nat) (now : time) (s : Owner) : option Owner :=
  match relayQueue s with
  | [] => Some s
  | id :: rest =>
      if negb (inUse s <? capacity) || stopping s then Some s else
      match fuel with
      | O => None
      | S fuel => let? s := dispatchRelayHead now s id rest in dispatchRelay fuel now s
      end
  end.

(** the head of the queue of one pane; the boolean tells whether it was taken *)
Definition dispatchPane (now : time) (s : Owner) (paneID : string) : option (Owner * bool) :=
  let? slot := slots s !! paneID in
  match InFlight slot, Queue slot with
  | Some _, _ | _, [] => Some (s, false)
  | None, id :: rest =>
      let? op := ops s !! id in
      let s := putSlot paneID (set_Queue rest slot) s in
      if negb (generation op =? Generation slot) then
        let? s := dropDeadline s id in Some (replyStale s op, true)
      else if negb (now <? Deadline (options op)) then
        let? s := dropDeadline s id in Some (expire s op, true)
      else
        let s := set_inUse (inUse s + 1) s in
        let f := mkInFlight (operation op) (ID (options op)) (Generation slot) now in
        let s := putSlot paneID (mkSlot (Generation slot) rest (Some f)) s in
        Some (start s op (Generation slot), true)
  end.

Fixpoint dispatchRound (now : time) (s : Owner) (progress : bool) (paneIDs : list string)
    : option (Owner * bool) :=
  match paneIDs with
  | [] => Some (s, progress)
  | paneID :: paneIDs =>
      if inUse s >=? capacity then Some (s, progress) else
      let? r := dispatchPane now s paneID in
      dispatchRound now r.1 (progress || r.2) paneIDs
  end.

Fixpoint dispatchPanes (fuel : nat) (now : time) (s : Owner) (paneIDs : list string) : option Owner :=
  if negb (inUse s <? capacity) || stopping s then Some s else
  match fuel with
  | O => None
  | S fuel =>
      let? r := dispatchRound now s false paneIDs in
      if r.2 : bool then dispatchPanes fuel now r.1 paneIDs else Some r.1
  end.

Definition string_le (a b : string) : Prop := String.leb a b = true.
#[export] Instance string_le_dec a b : Decision (string_le a b) := decide (String.leb a b = true).

(** the number of queued commands of panes, which bounds the rounds *)
Definition queuedCount (s : Owner) : nat :=
  sum_list ((fun ps => length (Queue ps.2)) <$> map_to_list (slots s)).

Definition dispatch (now : time) (s : Owner) : option Owner :=
  let? s := dispatchRelay (length (relayQueue s)) now s in
  let paneIDs := merge_sort string_le (elements (dom (slots s))) in
  let? s := dispatchPanes (S (queuedCount s)) now s paneIDs in
  resetTimer (setOwnerMetrics s).

(** ** Completions *)

(** ledger entries of older sessions of a pane, all but the one under [keep] *)
Definition dropOlder (keep : string -> bool) (paneID : string) (g : Z) (s : Owner) : Owner :=
  set_ledger (filter (fun ke => keep ke.1 = true \/ negb (String.eqb (le_paneID ke.2) paneID) = true \/
                                (le_generation ke.2 <? g) = false) (ledger s)) s.

(** the slot after its worker reported; the boolean tells whether the session the
    worker ran in was replaced *)
Definition releaseSlot (current : string -> Z -> bool) (s : Owner) (op : scheduledOperation)
    (slot : PaneSlot) (f : InFlightOperation) (result : EffectResult) : Owner * bool :=
  let paneID := PaneID (options op) in
  let stale := negb (if_Generation f =? Generation slot) || negb (current paneID (if_Generation f)) in
  let bump := BumpGeneration result && negb stale in
  let slot := if bump then set_Generation (Generation slot + 1) slot else slot in
  let s := if bump
           then dropOlder (fun key => String.eqb key (LedgerKey (options op))) paneID (Generation slot) s
           else s in
  let slot := set_InFlight None slot in
  let closed := from_option (fun r => String.eqb (cr_Phase r) "closed") false (Result result) in
  let s := if bool_decide (Queue slot = []) && bump && closed
           then set_slots (delete paneID (slots s)) s else putSlot paneID slot s in
  (s, stale).

(** the ledger entry of an operation that ended *)
Definition recordResult (s : Owner) (key : string) (result : option CommandResult) : Owner :=
  if String.eqb key "" then s else
  match ledger s !! key with
  | None => s
  | Some entry =>
      match result with
      | None => set_ledger (delete key (ledger s)) s
      | Some r =>
          if String.eqb (cr_Phase r) "not_started" then set_ledger (delete key (ledger s)) s else
          set_ledger (<[key := mkEntry (le_payloadHash entry) None (Some r) (le_generation entry)
                                 (le_paneID entry) (le_createdAt entry)]> (ledger s)) s
      end
  end.

Definition finish (now : time) (s : Owner) (id : Z) (op : scheduledOperation) (result : EffectResult)
    : option Owner :=
  let s := set_inUse (inUse s - 1) s in
  let? s := dropDeadline s id in
  let s := recordResult s (LedgerKey (options op)) (Result result) in
  let s := metric (addLatency (time_sub now (ReceivedAt (options op)))) (metric addCompleted s) in
  dispatch now (reply (setOwnerMetrics s) op (Result result) None).

Definition finishStale (now : time) (s : Owner) (id : Z) (op : scheduledOperation) : option Owner :=
  let s := set_inUse (inUse s - 1) s in
  let? s := dropDeadline s id in
  dispatch now (replyStale (setOwnerMetrics (metric addCompleted s)) op).

(** [current] is the callback [generationCurrent], constantly true when it is not
    set; [depth] the number of reports that still wait *)
Definition completeAndRedispatch (current : string -> Z -> bool) (depth : Z) (now : time) (s : Owner)
    (id : Z) (result : EffectResult) : option Owner :=
  let s := metric (observeCompletion depth) s in
  let? op := ops s !! id in
  if RelayLevel (options op) then
    if bool_decide (id ∈ relayInFlight s)
    then finish now (set_relayInFlight (relayInFlight s ∖ {[id]}) s) id op result else Some s
  else
    match slots s !! PaneID (options op) with
    | None => Some s
    | Some slot =>
        match InFlight slot with
        | None => Some s
        | Some f =>
            if negb (if_OperationID f =? id) then Some s else
            let (s, stale) := releaseSlot current s op slot f result in
            if stale then finishStale now s id op else finish now s id op result
        end
    end.

(** ** Pane sessions *)

(** a queued command is answered as stale; the answers do not read the slots, so
    the slot is emptied before them *)
Definition flushOne (s : Owner) (id : Z) : option Owner :=
  let? op := ops s !! id in
  let? s := dropDeadline s id in
  Some (replyStale s op).

(** a new session of a pane: the running command is cancelled, the queue is
    answered, older ledger entries are dropped *)
Definition renewSession (keep : string -> bool) (paneID : string) (slot : PaneSlot) (g : Z) (s : Owner)
    : option Owner :=
  let s := match InFlight slot with Some f => emit (Cancel (if_OperationID f)) s | None => s end in
  let? s := foldM flushOne (putSlot paneID (mkSlot g [] (InFlight slot)) s) (Queue slot) in
  Some (dropOlder keep paneID g s).

Definition keepNone (key : string) : bool := false.

(** a pane that is no longer in the inventory *)
Definition paneGone (active : gset string) (s : Owner) (paneID : string) : option Owner :=
  if bool_decide (paneID ∈ active) then Some s else
  match slots s !! paneID with
  | None => Some s
  | Some slot => renewSession keepNone paneID slot (Generation slot + 1) s
  end.

Definition paneGeneration (s : Owner) (pg : string * Z) : option Owner :=
  let (paneID, g) := pg in
  let slot := default newSlot (slots s !! paneID) in
  let s := putSlot paneID slot s in
  if g <=? Generation slot then Some s else renewSession keepNone paneID slot g s.

(** the two maps are ranged over in the orders [known] and [generations] *)
Definition applyTopology (now : time) (s : Owner) (active : gset string)
    (known : list string) (generations : list (string * Z)) : option Owner :=
  let? s := foldM (paneGone active) s known in
  let? s := foldM paneGeneration s generations in
  dispatch now (emit TopologyApplied (set_knownActive active s)).

(** ** Admission *)

Definition oldestEntry (ledger : gmap string ledgerEntry) (order : list string) : string :=
  (foldl (fun acc key =>
     match ledger !! key with
     | Some e =>
         if bool_decide (is_Some (le_operation e)) then acc
         else if String.eqb acc.1 "" || (le_createdAt e <? acc.2) then (key, le_createdAt e) else acc
     | None => acc
     end) ("", zero_time) order).1.

(** the entries are ranged over in the order [order], anew in every round *)
Fixpoint evict (fuel : nat) (order : nat -> list string) (s : Owner) : option Owner :=
  if negb (Z.of_nat (size (ledger s)) >=? maxLedgerEntries) then Some s else
  match fuel with
  | O => None
  | S fuel =>
      let oldestKey := oldestEntry (ledger s) (order fuel) in
      if String.eqb oldestKey "" then Some s
      else evict fuel order (set_ledger (delete oldestKey (ledger s)) s)
  end.

Definition pruneLedger (now : time) (order : nat -> list string) (s : Owner) : option Owner :=
  let s := set_ledger (filter (fun ke => is_Some (le_operation ke.2) \/
             (time_sub now (le_createdAt ke.2) >=? ledgerRetention) = false) (ledger s)) s in
  evict (S (size (ledger s))) order s.

(** a retry of an operation that is known *)
Definition retry (s : Owner) (op : scheduledOperation) (existing : ledgerEntry) : option Owner :=
  if negb (String.eqb (le_payloadHash existing) (PayloadHash (options op)))
  then Some (reply s op None (Some ErrConflict)) else
  match le_result existing with
  | Some r => Some (replyReplayed s op (Some r) None)
  | None =>
      let? target := le_operation existing in
      let? live := ops s !! target in
      let attached := (fun w => mkWaiter (response w) true) <$> waiters op in
      Some (set_ops (<[target := set_waiters (waiters live ++ attached) live]> (ops s)) s)
  end.

Definition enqueue (s : Owner) (id : Z) (op : scheduledOperation) : option Owner :=
  let s := set_deadlines (Push (deadlines s) (mkItem id (Deadline (options op)))) s in
  if RelayLevel (options op) then
    Some (set_relayQueue (insertBySequence s (relayQueue s) id) s)
  else
    let paneID := PaneID (options op) in
    let slot := default newSlot (slots s !! paneID) in
    let s := putSlot paneID slot s in
    let? s := if PaneGeneration (options op) >? Generation slot
              then renewSession (fun key => String.eqb key (LedgerKey (options op))) paneID slot
                     (PaneGeneration (options op)) s
              else Some s in
    let? slot := slots s !! paneID in
    let s := match ledger s !! LedgerKey (options op) with
             | Some e => set_ledger (<[LedgerKey (options op) :=
                 mkEntry (le_payloadHash e) (le_operation e) (le_result e) (Generation slot)
                   (le_paneID e) (le_createdAt e)]> (ledger s)) s
             | None => s
             end in
    let s := set_ops (<[id := set_generation (Generation slot) op]> (ops s)) s in
    Some (putSlot paneID (set_Queue (insertBySequence s (Queue slot) id) slot) s).

(** the request carries the operation, which the owner now knows *)
Definition onIngress (now : time) (order : nat -> list string) (s : Owner) (op : scheduledOperation)
    : option Owner :=
  let id := operation op in
  let? s := pruneLedger now order (set_ops (<[id := op]> (ops s)) s) in
  if stopping s then Some (reply s op None (Some ErrClosed)) else
  if negb (now <? Deadline (options op)) then Some (replyNotStarted s op) else
  if negb (RelayLevel (options op)) &&
     from_option (fun slot => PaneGeneration (options op) <? Generation slot) false
       (slots s !! PaneID (options op))
  then Some (replyStale s op) else
  let key := LedgerKey (options op) in
  match (if String.eqb key "" then None else ledger s !! key) with
  | Some existing => retry s op existing
  | None =>
      let s := if String.eqb key "" then s else
        set_ledger (<[key := mkEntry (PayloadHash (options op)) (Some id) None 0
                               (PaneID (options op)) (ReceivedAt (options op))]> (ledger s)) s in
      let? s := enqueue s id op in
      dispatch now s
  end.

(** ** Ledger queries *)

Definition onLedgerUpdate (s : Owner) (key : string) (g : Z) (result : option CommandResult)
    : Owner * bool :=
  match ledger s !! key, result with
  | Some e, Some r =>
      if (le_generation e =? g) && bool_decide (is_Some (le_result e))
      then (set_ledger (<[key := mkEntry (le_payloadHash e) (le_operation e) (Some r) (le_generation e)
                                   (le_paneID e) (le_createdAt e)]> (ledger s)) s, true)
      else (s, false)
  | _, _ => (s, false)
  end.

Definition onReplayQuery (s : Owner) (key payloadHash : string)
    : option CommandResult * bool * option error :=
  match ledger s !! key with
  | None => (None, false, None)
  | Some e => if negb (String.eqb (le_payloadHash e) payloadHash) then (None, true, Some ErrConflict)
              else (le_result e, true, None)
  end.

(** ** Timer and shutdown *)

Fixpoint expireDue (fuel : nat) (now : time) (s : Owner) : option Owner :=
  match items (deadlines s) with
  | [] => Some s
  | first :: _ =>
      if now <? it_deadline first then Some s else
      match fuel with
      | O => None
      | S fuel =>
          let? r := Pop (deadlines s) in
          let s := set_deadlines r.1 s in
          let id := it_id r.2 in
          let? op := ops s !! id in
          let (s, removed) := removeQueued s id op in
          expireDue fuel now (if removed : bool then expire s op else s)
      end
  end.

Definition onTimer (now : time) (s : Owner) : option Owner :=
  let? s := expireDue (Len (deadlines s)) now (set_timer None s) in dispatch now s.

Definition replyClosed (s : Owner) (id : Z) : option Owner :=
  let? op := ops s !! id in Some (reply s op None (Some ErrClosed)).

Definition closeSlot (s : Owner) (paneID : string) : option Owner :=
  let? slot := slots s !! paneID in
  let s := match InFlight slot with Some f => emit (Cancel (if_OperationID f)) s | None => s end in
  foldM replyClosed (putSlot paneID (set_Queue [] slot) s) (Queue slot).

(** the maps are ranged over in the orders [panes] and [relay] *)
Definition shutdown (panes : list string) (relay : list Z) (s : Owner) : option Owner :=
  let s := set_stopping true s in
  let? s := foldM closeSlot s panes in
  let s := foldl (fun s id => emit (Cancel id) s) s relay in
  foldM replyClosed (set_relayQueue [] s) (relayQueue s).

Definition onCancelInflight (panes : list string) (relay : list Z) (s : Owner) : option Owner :=
  if stopping s then Some s else let? s := shutdown panes relay s in resetTimer s.

Definition onStop (panes : list string) (relay : list Z) (s : Owner) : option Owner :=
  let s := set_stopAck true s in
  let? s := if stopping s then Some s else shutdown panes relay s in
  resetTimer s.

End Dispatch.
End Scheduler.
