(* ===== verification/SchedulerInv.v ===== *)
(** * The invariant of the scheduler and its preservation

    Every operation of [Scheduler] keeps the bookkeeping consistent, answers every
    response channel exactly once and does not panic.  The accounting is a
    permutation: the channels answered so far, together with those of the live
    operations (queued, running, or in the hand of the owner), are the channels
    that were ever handed to the owner. *)
From stdpp Require Import sorting.
From S2P Require Import Prelude DeadlineHeap Scheduler.
Import DeadlineHeap Scheduler.

Module SchedulerInv.

(** ** Ids held by the slots *)

Definition gather (f : PaneSlot -> list Z) (m : gmap string PaneSlot) : list Z :=
  map_to_list m ≫= (fun ps => f ps.2).

Lemma gather_empty f : gather f ∅ = [].
Proof. unfold gather. by rewrite map_to_list_empty. Qed.

Lemma gather_fresh f m p sl : m !! p = None -> gather f (<[p := sl]> m) ≡ₚ f sl ++ gather f m.
Proof. intros H. unfold gather. by rewrite (map_to_list_insert _ _ _ H). Qed.

Lemma gather_insert f m p sl : gather f (<[p := sl]> m) ≡ₚ f sl ++ gather f (delete p m).
Proof. rewrite <- insert_delete_eq. apply gather_fresh, lookup_delete_eq. Qed.

Lemma gather_lookup f m p sl : m !! p = Some sl -> gather f m ≡ₚ f sl ++ gather f (delete p m).
Proof. intros H. rewrite <- (insert_id m p sl H) at 1. apply gather_insert. Qed.

Lemma elem_of_gather f m id : id ∈ gather f m <-> exists p sl, m !! p = Some sl /\ id ∈ f sl.
Proof.
  unfold gather. rewrite list_elem_of_bind. split.
  - intros ([p sl] & Hid & Hps%elem_of_map_to_list). by exists p, sl.
  - intros (p & sl & Hps & Hid). exists (p, sl). by rewrite elem_of_map_to_list.
Qed.

(** a slot that holds nothing *)
Lemma gather_newSlot f m p : f newSlot = [] -> gather f (<[p := default newSlot (m !! p)]> m) ≡ₚ gather f m.
Proof.
  intros Hf. destruct (m !! p) as [sl|] eqn:E; cbn [default from_option id].
  - by rewrite insert_id.
  - rewrite gather_fresh by done. by rewrite Hf.
Qed.

Definition flight (sl : PaneSlot) : list Z := option_list (if_OperationID <$> InFlight sl).
Definition slotIds (sl : PaneSlot) : list Z := Queue sl ++ flight sl.

Definition live (s : Owner) : list Z :=
  relayQueue s ++ elements (relayInFlight s) ++ gather slotIds (slots s).

(** ** Accounting *)

Definition chans (s : Owner) (id : Z) : list Z :=
  from_option (fun op => response <$> waiters op) [] (ops s !! id).

Definition channel (e : effect) : list Z := match e with Reply c _ _ _ => [c] | _ => [] end.
Definition answered (tr : list effect) : list Z := tr ≫= channel.

Lemma answered_app tr tr' : answered (tr ++ tr') = answered tr ++ answered tr'.
Proof. apply bind_app. Qed.

Lemma answered_replies r e (f : bool) ws :
  answered ((fun w => Reply (response w) r e (f || w_replayed w)) <$> ws) = response <$> ws.
Proof. induction ws as [|w ws IH]; [done|]. cbn. by f_equal. Qed.

(** an entry of the ledger: it holds a result or names the live operation it is for *)
Definition entryOk (L : list Z) (s : Owner) (key : string) (e : ledgerEntry) : Prop :=
  key <> "" /\
  match le_operation e with
  | None => is_Some (le_result e)
  | Some o => le_result e = None /\
              (exists op, ops s !! o = Some op /\ LedgerKey (options op) = key) /\
              (stopping s = false -> o ∈ L)
  end.

(** [U] are the channels handed to the owner, [L] the live operations *)
Record acct (U L : list Z) (s : Owner) : Prop := mkAcct {
  a_nodup : NoDup L;
  a_sum : answered (trace s) ++ (L ≫= chans s) ≡ₚ U;
  a_ops : forall id op, ops s !! id = Some op -> operation op = id;
  a_live : forall id, id ∈ L -> is_Some (ops s !! id);
  a_ledger : forall key e, ledger s !! key = Some e -> entryOk L s key e
}.

#[export] Instance acct_proper U : Proper ((≡ₚ) ==> eq ==> iff) (acct U).
Proof.
  assert (H : forall L L' s, L ≡ₚ L' -> acct U L s -> acct U L' s).
  { intros L L' s HL [A1 A2 A3 A4 A5]. split.
    - by rewrite <- HL.
    - by rewrite <- HL.
    - done.
    - intros id. rewrite <- HL. apply A4.
    - intros key e He. destruct (A5 key e He) as [K1 K2]. split; [done|].
      destruct (le_operation e); [|done]. by setoid_rewrite <- HL. }
  intros L L' HL s ? <-. split; by apply H.
Qed.

(** ** Placement *)

Definition queued (s : Owner) : list Z := relayQueue s ++ gather Queue (slots s).

(** ordered by command number *)
Definition seqSorted (s : Owner) (q : list Z) : Prop :=
  StronglySorted (fun a b => sequenceOf s a <= sequenceOf s b) q.

Lemma sorted_sublist {A} (R : A -> A -> Prop) l k : sublist k l -> StronglySorted R l -> StronglySorted R k.
Proof.
  intros Hsub. induction Hsub as [|x k l Hsub IH|x k l Hsub IH]; intros Hs; [done|..];
    apply StronglySorted_inv in Hs as [Hs Hx]; [|by apply IH].
  constructor; [by apply IH|]. rewrite Forall_forall in Hx |- *. intros y Hy. apply Hx.
  by apply (sublist_subseteq _ _ Hsub).
Qed.

Record placed (capacity : Z) (s : Owner) : Prop := mkPlaced {
  p_relay : forall id op, id ∈ relayQueue s ++ elements (relayInFlight s) -> ops s !! id = Some op ->
            RelayLevel (options op) = true;
  p_pane : forall p sl id op, slots s !! p = Some sl -> id ∈ slotIds sl -> ops s !! id = Some op ->
           RelayLevel (options op) = false /\ PaneID (options op) = p;
  p_use : inUse s = len (elements (relayInFlight s) ++ gather flight (slots s));
  p_cap : inUse s <= capacity;
  p_heap : wf (deadlines s);
  p_items : forall it, it ∈ items (deadlines s) ->
            exists op, ops s !! it_id it = Some op /\ Deadline (options op) = it_deadline it;
  p_armed : stopping s = false -> forall id, id ∈ queued s -> is_Some (indexOf (deadlines s) !! id);
  p_sorted : seqSorted s (relayQueue s) /\ forall p sl, slots s !! p = Some sl -> seqSorted s (Queue sl)
}.

(** the invariant, with the operations [X] in the hand of the owner *)
Record inv (capacity : Z) (U X : list Z) (s : Owner) : Prop := mkInv {
  i_acct : acct U (live s ++ X) s;
  i_placed : placed capacity s
}.

(** what the invariant does not look at *)
Lemma inv_same capacity U X s s' :
  inv capacity U X s -> ops s' = ops s -> slots s' = slots s -> relayQueue s' = relayQueue s ->
  relayInFlight s' = relayInFlight s -> ledger s' = ledger s -> deadlines s' = deadlines s ->
  inUse s' = inUse s -> stopping s' = stopping s -> answered (trace s') = answered (trace s) ->
  inv capacity U X s'.
Proof.
  destruct s, s'. cbn. intros [[A1 A2 A3 A4 A5] [P1 P2 P3 P4 P5 P6 P7 P8]] -> -> -> -> -> -> -> -> Htr.
  split; split; try done. cbn in *. by rewrite Htr.
Qed.

Ltac same := eapply inv_same; [eassumption|reflexivity..|];
  try (cbn; rewrite ?answered_app; cbn; by rewrite ?app_nil_r).

Section Steps.
Context {capacity : Z}.
Abbreviation Inv := (inv capacity).

Lemma inv_metric U X f s : Inv U X s -> Inv U X (metric f s).
Proof. intros. same. Qed.
Lemma inv_setOwnerMetrics U X s : Inv U X s -> Inv U X (setOwnerMetrics s).
Proof. intros. same. Qed.
Lemma inv_timer U X t s : Inv U X s -> Inv U X (set_timer t s).
Proof. intros. same. Qed.
Lemma inv_emit U X e s : channel e = [] -> Inv U X s -> Inv U X (emit e s).
Proof. intros He H. same. cbn. rewrite answered_app. unfold answered at 2. cbn. by rewrite He, app_nil_r. Qed.

(** *** Answering the operation in hand *)

Lemma entryOk_hand id L s key e :
  entryOk (id :: L) s key e -> (stopping s = false -> le_operation e <> Some id) -> entryOk L s key e.
Proof.
  intros [K1 K2] Hne. split; [done|]. destruct (le_operation e) as [o|]; [|done].
  destruct K2 as (Hr & Hop & Hl). split_and!; try done. intros Hs.
  destruct (proj1 (elem_of_cons _ _ _) (Hl Hs)) as [->|]; [by destruct (Hne Hs)|done].
Qed.

Lemma hand_perm s id X : live s ++ id :: X ≡ₚ id :: live s ++ X.
Proof. symmetry. apply Permutation_middle. Qed.

Lemma inv_answer U X s id op r e f :
  Inv U (id :: X) s -> ops s !! id = Some op ->
  (stopping s = false -> forall key en, ledger s !! key = Some en -> le_operation en <> Some id) ->
  Inv U X (replyWithReplay s op r e f).
Proof.
  intros [A P] Hop Hled. rewrite hand_perm in A. destruct A as [A1 A2 A3 A4 A5].
  split; [|destruct P; by split]. split; cbn [trace ledger ops replyWithReplay set_trace].
  - by apply NoDup_cons in A1 as [_ ?].
  - rewrite <- A2, answered_app, answered_replies. cbn [mbind list_bind].
    change (chans (replyWithReplay s op r e f)) with (chans s).
    change (live (replyWithReplay s op r e f)) with (live s).
    unfold chans at 2. rewrite Hop. cbn. by rewrite <- app_assoc.
  - done.
  - intros i Hi. apply A4. by right.
  - intros key en Hen. apply (entryOk_hand id); [exact (A5 key en Hen)|]. intros Hs. by apply (Hled Hs key).
Qed.

Lemma inv_ledger_delete U X s key : Inv U X s -> Inv U X (set_ledger (delete key (ledger s)) s).
Proof.
  intros [[A1 A2 A3 A4 A5] [P1 P2 P3 P4 P5 P6 P7 P8]]. split; split; try done.
  intros k e He. cbn [ledger set_ledger] in He. apply lookup_delete_Some in He as [_ He].
  exact (A5 k e He).
Qed.

Lemma inv_forget U X s key : Inv U X s -> Inv U X (forget key s).
Proof. intros H. unfold forget. case_if; [done|by apply inv_ledger_delete]. Qed.

(** after [forget] no entry names the operation *)
Lemma forget_unnamed U X s id op key e :
  Inv U X s -> ops s !! id = Some op -> ledger (forget (LedgerKey (options op)) s) !! key = Some e ->
  le_operation e <> Some id.
Proof.
  intros [A _] Hop He Hop'. unfold forget in He.
  destruct (String.eqb_spec (LedgerKey (options op)) "") as [Hk|Hk].
  - destruct (a_ledger _ _ _ A key e He) as [K1 K2]. rewrite Hop' in K2.
    destruct K2 as (_ & (op' & Ho' & Hk') & _). congruence.
  - cbn [ledger set_ledger] in He. apply lookup_delete_Some in He as [Hne He]. destruct (a_ledger _ _ _ A key e He) as [K1 K2].
    rewrite Hop' in K2. destruct K2 as (_ & (op' & Ho' & Hk') & _). congruence.
Qed.

Lemma forget_ops key s : ops (forget key s) = ops s.
Proof. unfold forget. by case_if. Qed.

Lemma inv_replyStale U X s id op :
  Inv U (id :: X) s -> ops s !! id = Some op -> Inv U X (replyStale s op).
Proof.
  intros H Hop. apply (inv_answer U X _ id); [by apply inv_forget|by rewrite forget_ops|].
  intros _ key e. by apply (forget_unnamed U (id :: X)).
Qed.

Lemma inv_expire U X s id op :
  Inv U (id :: X) s -> ops s !! id = Some op -> Inv U X (expire s op).
Proof.
  intros H Hop. apply (inv_answer U X _ id).
  - apply inv_metric. by apply inv_forget.
  - cbn. by rewrite forget_ops.
  - intros _ key e. by apply (forget_unnamed U (id :: X)).
Qed.

(** *** Moving operations between the queues, the workers and the hand *)

Lemma queued_live s id : id ∈ queued s -> id ∈ live s.
Proof.
  unfold queued, live. rewrite !elem_of_app, !elem_of_gather. intros [H|(p & sl & Hp & Hq)]; [by left|].
  right. right. exists p, sl. split; [done|]. apply elem_of_app. by left.
Qed.

Lemma hand_not_live U X s id : Inv U X s -> id ∈ X -> id ∉ live s.
Proof. intros [[A1 _ _ _ _] _] HX HL. apply NoDup_app in A1 as (_ & A & _). by apply (A id). Qed.

Lemma acct_same U L L' s s' :
  acct U L s -> L' ≡ₚ L -> ops s' = ops s -> trace s' = trace s -> ledger s' = ledger s ->
  stopping s' = stopping s -> acct U L' s'.
Proof.
  intros A ->. destruct s, s'. cbn. intros -> -> -> ->. destruct A as [A1 A2 A3 A4 A5]. by split.
Qed.

(** an operation that is not queued leaves the heap *)
Lemma inv_heap_shrink U X s h it :
  Inv U X s -> wf h -> items (deadlines s) ≡ₚ it :: items h -> it_id it ∉ queued s ->
  Inv U X (set_deadlines h s).
Proof.
  intros [A P] Hw' Hperm Hid. pose proof (p_heap _ _ P) as Hw.
  split; [by eapply acct_same|]. destruct P as [P1 P2 P3 P4 P5 P6 P7 P8]. split; try done.
  - intros o Ho. apply P6. rewrite Hperm. by right.
  - intros Hs o Ho. cbn in *. specialize (P7 Hs o Ho).
    rewrite indexed_member in P7 |- * by apply wf_indexed, Hw || apply wf_indexed, Hw'.
    rewrite Hperm in P7. cbn in P7. apply elem_of_cons in P7 as [->|]; [|done]. by exfalso.
Qed.

Lemma heap_shrink_gone h h' it : wf h -> wf h' -> items h ≡ₚ it :: items h' -> indexOf h' !! it_id it = None.
Proof.
  intros Hw Hw' Hperm. apply eq_None_not_Some. rewrite indexed_member by apply wf_indexed, Hw'.
  pose proof (indexed_nodup _ (wf_indexed _ Hw)) as Hnd. rewrite Hperm in Hnd. cbn in Hnd.
  by apply NoDup_cons in Hnd as [? _].
Qed.

(** the deadline of an operation that is not queued is taken out of the heap *)
Lemma dropDeadline_ok U X s id :
  Inv U X s -> id ∉ queued s ->
  exists d, dropDeadline s id = Some (set_deadlines d s) /\ Inv U X (set_deadlines d s) /\
    indexOf d !! id = None /\ (forall it, it ∈ items (deadlines s) -> it_id it <> id -> it ∈ items d).
Proof.
  intros H Hid. pose proof (p_heap _ _ (i_placed _ _ _ _ H)) as Hw. unfold dropDeadline.
  destruct (indexOf (deadlines s) !! id) as [i|] eqn:Ei.
  - destruct (Remove_ok _ _ _ Hw Ei) as (h & it & -> & <- & Hw' & Hperm). cbn. exists h. split_and!; [done|..].
    + by apply (inv_heap_shrink U X s h it).
    + by apply (heap_shrink_gone (deadlines s)).
    + intros o. rewrite Hperm. intros [->|]%elem_of_cons; done.
  - exists (deadlines s). assert (Hs : set_deadlines (deadlines s) s = s) by (by destruct s).
    rewrite Hs. split_and!; try done.
Qed.

Lemma dropDeadline_hand U X s id :
  Inv U X s -> id ∈ X ->
  exists d, dropDeadline s id = Some (set_deadlines d s) /\ Inv U X (set_deadlines d s) /\
    indexOf d !! id = None /\ (forall it, it ∈ items (deadlines s) -> it_id it <> id -> it ∈ items d).
Proof.
  intros H HX. apply dropDeadline_ok; [done|]. intros Hq. eapply hand_not_live; [done..|].
  by apply queued_live.
Qed.

Lemma inv_popRelay U X s id rest :
  Inv U X s -> relayQueue s = id :: rest -> Inv U (id :: X) (set_relayQueue rest s).
Proof.
  intros [A P] Hq. split.
  - eapply acct_same; [exact A| |done..]. unfold live. cbn. rewrite Hq. cbn. symmetry.
    rewrite <- !app_assoc. solve_Permutation.
  - destruct P as [P1 P2 P3 P4 P5 P6 P7 P8]. split; try done; cbn in *.
    + intros i op Hi. apply P1. rewrite Hq. by right.
    + intros Hs i Hi. apply P7; [done|]. unfold queued in *. cbn in *. rewrite Hq. by right.
    + split; [|apply P8]. eapply sorted_sublist; [|apply P8]. rewrite Hq. by constructor.
Qed.

(** the live operations when one slot changes *)
Lemma live_slot s p sl sl' X X' :
  slots s !! p = Some sl -> slotIds sl' ++ X' ≡ₚ slotIds sl ++ X ->
  live (putSlot p sl' s) ++ X' ≡ₚ live s ++ X.
Proof.
  intros Hp Hperm. unfold live, putSlot. cbn. rewrite gather_insert, (gather_lookup _ _ _ _ Hp).
  set (G := gather slotIds (delete p (slots s))).
  transitivity (relayQueue s ++ elements (relayInFlight s) ++ G ++ (slotIds sl' ++ X'));
    [solve_Permutation|]. rewrite Hperm. solve_Permutation.
Qed.

Lemma queued_slot s p sl sl' id :
  slots s !! p = Some sl -> (forall i, i ∈ Queue sl' -> i ∈ Queue sl) ->
  id ∈ queued (putSlot p sl' s) -> id ∈ queued s.
Proof.
  intros Hp Hsub. unfold queued, putSlot. cbn. rewrite gather_insert, (gather_lookup _ _ _ _ Hp).
  rewrite !elem_of_app. intros [H|[H|H]]; auto.
Qed.

Lemma placed_slot s p sl sl' :
  placed capacity s -> slots s !! p = Some sl -> (forall i, i ∈ slotIds sl' -> i ∈ slotIds sl) ->
  sublist (Queue sl') (Queue sl) -> flight sl' = flight sl ->
  placed capacity (putSlot p sl' s).
Proof.
  intros [P1 P2 P3 P4 P5 P6 P7 P8] Hp Hids Hsub Hf. pose proof (sublist_subseteq _ _ Hsub) as Hq.
  split; try done.
  - intros q sl2 i op Hsl Hi Hop. cbn in Hsl. apply lookup_insert_Some in Hsl as [[<- <-]|[_ Hsl]];
      [by apply (P2 p sl i op Hp); [apply Hids|]|by apply (P2 q sl2 i op)].
  - cbn. rewrite P3. rewrite !length_app. f_equal. f_equal.
    rewrite (Permutation_length (gather_insert flight (slots s) p sl')),
      (Permutation_length (gather_lookup flight (slots s) p sl Hp)). by rewrite !length_app, Hf.
  - intros Hs i Hi. apply P7; [done|]. by eapply queued_slot.
  - split; [apply P8|]. intros q sl2 Hsl. cbn in Hsl.
    apply lookup_insert_Some in Hsl as [[<- <-]|[_ Hsl]]; [|by eapply P8].
    eapply sorted_sublist; [exact Hsub|by eapply P8].
Qed.

Lemma inv_popPane U X s p sl id rest :
  Inv U X s -> slots s !! p = Some sl -> Queue sl = id :: rest ->
  Inv U (id :: X) (putSlot p (set_Queue rest sl) s).
Proof.
  intros [A P] Hp Hq. split.
  - eapply acct_same; [exact A| |done..]. apply (live_slot s p sl); [done|].
    unfold slotIds. cbn. rewrite Hq. change (flight (set_Queue rest sl)) with (flight sl). solve_Permutation.
  - apply (placed_slot s p sl); try done; [|cbn; rewrite Hq; by constructor].
    unfold slotIds; cbn; rewrite Hq; intros i. change (flight (set_Queue rest sl)) with (flight sl). set_solver.
Qed.

Lemma StronglySorted_impl' {A} (R R' : A -> A -> Prop) l :
  (forall a b, R a b -> R' a b) -> StronglySorted R l -> StronglySorted R' l.
Proof.
  intros H. induction 1 as [|x l Hs IH Hx]; constructor; [done|]. eapply Forall_impl; [exact Hx|]. auto.
Qed.

(** operations that differ only in what changes while they live *)
Definition similar (m m' : gmap Z scheduledOperation) : Prop :=
  forall i, (fun o => (options o, operation o, sequence o)) <$> m' !! i = (fun o => (options o, operation o, sequence o)) <$> m !! i.

Lemma similar_insert m id op op' :
  m !! id = Some op -> options op' = options op -> operation op' = operation op ->
  sequence op' = sequence op -> similar m (<[id := op']> m).
Proof.
  intros Hop Ho Hid Hsq i. destruct (decide (id = i)) as [<-|Hne]; [|by rewrite lookup_insert_ne].
  rewrite lookup_insert_eq, Hop. cbn. by rewrite Ho, Hid, Hsq.
Qed.

Lemma similar_back m m' i o :
  similar m m' -> m' !! i = Some o ->
  exists o', m !! i = Some o' /\ options o = options o' /\ operation o = operation o'.
Proof.
  intros H Hi. specialize (H i). rewrite Hi in H. destruct (m !! i) as [o'|]; [|done].
  cbn in H. injection H as Ho Hid Hsq. by exists o'.
Qed.

Lemma similar_fwd m m' i o :
  similar m m' -> m !! i = Some o -> exists o', m' !! i = Some o' /\ options o' = options o.
Proof.
  intros H Hi. specialize (H i). rewrite Hi in H. destruct (m' !! i) as [o'|]; [|done].
  cbn in H. injection H as Ho Hid Hsq. by exists o'.
Qed.

Lemma placed_similar s m : similar (ops s) m -> placed capacity s -> placed capacity (set_ops m s).
Proof.
  intros Hsim [P1 P2 P3 P4 P5 P6 P7 P8]. split; try done.
  - intros i o Hi Hio. destruct (similar_back _ _ i o Hsim Hio) as (o' & Ho' & -> & _). by apply (P1 i).
  - intros q sl i o Hsl Hi Hio. destruct (similar_back _ _ i o Hsim Hio) as (o' & Ho' & -> & _).
    by apply (P2 q sl i).
  - intros it Hit. destruct (P6 it Hit) as (o & Hoi & Hd).
    destruct (similar_fwd _ _ _ o Hsim Hoi) as (o' & Ho' & Hopt). exists o'. by rewrite Hopt.
  - assert (Hseq : forall i, sequenceOf (set_ops m s) i = sequenceOf s i).
    { intros i. unfold sequenceOf. cbn. specialize (Hsim i). destruct (m !! i), (ops s !! i); try done.
      cbn in *. congruence. }
    assert (Hsort : forall q, seqSorted s q -> seqSorted (set_ops m s) q).
    { intros q. unfold seqSorted. apply StronglySorted_impl'. intros a b. by rewrite !Hseq. }
    split; [by apply Hsort, P8|]. intros p sl Hp. apply Hsort. by eapply P8.
Qed.

Lemma entryOk_similar L s m key e :
  similar (ops s) m -> entryOk L s key e -> entryOk L (set_ops m s) key e.
Proof.
  intros Hsim [K1 K2]. split; [done|]. destruct (le_operation e) as [o|]; [|done].
  destruct K2 as (Hr & (oo & Hoo & Hkey) & Hl). split_and!; try done.
  destruct (similar_fwd _ _ o oo Hsim Hoo) as (o' & Ho' & Hopt). exists o'. by rewrite Hopt.
Qed.

(** an operation is updated in a way that keeps its options and waiters *)
Lemma inv_updOp U X s id op op' :
  Inv U X s -> ops s !! id = Some op -> options op' = options op -> operation op' = operation op ->
  waiters op' = waiters op -> sequence op' = sequence op -> Inv U X (set_ops (<[id := op']> (ops s)) s).
Proof.
  intros [[A1 A2 A3 A4 A5] P] Hop Ho Hoid Hw Hsq. pose proof (similar_insert _ _ _ _ Hop Ho Hoid Hsq) as Hsim.
  assert (Hch : forall i, chans (set_ops (<[id := op']> (ops s)) s) i = chans s i).
  { intros i. unfold chans. cbn. destruct (decide (id = i)) as [<-|Hne].
    - rewrite lookup_insert_eq, Hop. cbn. by rewrite Hw.
    - by rewrite lookup_insert_ne. }
  split; [split|by apply placed_similar].
  - done.
  - cbn [trace set_ops]. rewrite <- A2. f_equiv. apply reflexive_eq. by apply list_bind_ext.
  - intros i o Hi. destruct (similar_back _ _ i o Hsim Hi) as (o' & Ho' & _ & ->). by apply A3.
  - intros i Hi. destruct (A4 i Hi) as [o Hi']. destruct (similar_fwd _ _ i o Hsim Hi') as (o' & Ho' & _).
    by exists o'.
  - intros key e He. apply entryOk_similar; [done|]. exact (A5 key e He).
Qed.

(** a command starts: it moves from the hand to the workers *)
Lemma inv_startRelay U X s id op :
  Inv U (id :: X) s -> ops s !! id = Some op -> RelayLevel (options op) = true -> inUse s < capacity ->
  Inv U X (start (set_relayInFlight (relayInFlight s ∪ {[id]}) (set_inUse (inUse s + 1) s)) op 0).
Proof.
  intros H Hop Hrel Hcap. assert (Hid : operation op = id) by (by apply (a_ops _ _ _ (i_acct _ _ _ _ H))).
  unfold start. apply inv_emit; [done|]. rewrite Hid.
  pose proof (hand_not_live _ _ _ id H ltac:(by left)) as Hnl. destruct H as [A P].
  assert (Hni : id ∉ relayInFlight s).
  { intros Hi. apply Hnl. unfold live. rewrite !elem_of_app, elem_of_elements. auto. }
  assert (Hel : elements (relayInFlight s ∪ {[id]}) ≡ₚ id :: elements (relayInFlight s)).
  { rewrite (comm_L (∪)). by apply elements_union_singleton. }
  match goal with |- inv _ _ _ (set_ops _ ?m) => apply (inv_updOp U X m id op); [|done..] end.
  apply inv_metric. split.
  - eapply acct_same; [exact A| |done..]. unfold live. cbn. rewrite Hel. solve_Permutation.
  - destruct P as [P1 P2 P3 P4 P5 P6 P7 P8]. split; try done; cbn.
    + intros i o. rewrite Hel. intros Hi Ho. apply elem_of_app in Hi as [Hi|Hi].
      * apply (P1 i); [apply elem_of_app; by left|done].
      * apply elem_of_cons in Hi as [->|Hi]; [congruence|]. apply (P1 i); [apply elem_of_app; by right|done].
    + rewrite length_app, (Permutation_length Hel), P3, length_app. cbn. lia.
    + lia.
Qed.

Lemma inv_startPane U X s p sl id op now :
  Inv U (id :: X) s -> slots s !! p = Some sl -> InFlight sl = None -> ops s !! id = Some op ->
  RelayLevel (options op) = false -> PaneID (options op) = p -> inUse s < capacity ->
  Inv U X (start (putSlot p (mkSlot (Generation sl) (Queue sl)
     (Some (mkInFlight (operation op) (ID (options op)) (Generation sl) now)))
     (set_inUse (inUse s + 1) s)) op (Generation sl)).
Proof.
  intros H Hp Hf Hop Hrel Hpane Hcap.
  assert (Hid : operation op = id) by (by apply (a_ops _ _ _ (i_acct _ _ _ _ H))).
  unfold start. apply inv_emit; [done|]. rewrite Hid. destruct H as [A P].
  match goal with |- inv _ _ _ (set_ops _ ?m) => apply (inv_updOp U X m id op); [|done..] end.
  apply inv_metric.
  set (sl' := mkSlot _ _ (Some _)). assert (Hfl : flight sl = [] /\ flight sl' = [id]).
  { unfold flight. cbn. by rewrite Hf. }
  destruct Hfl as [Hfl Hfl']. split.
  - eapply acct_same; [exact A| |done..]. change (live (putSlot p sl' (set_inUse (inUse s + 1) s)))
      with (live (putSlot p sl' s)). apply (live_slot s p sl); [done|].
    unfold slotIds. rewrite Hfl, Hfl'. cbn. solve_Permutation.
  - destruct P as [P1 P2 P3 P4 P5 P6 P7 P8]. split; try done; cbn.
    + intros q sl2 i o Hsl Hi Ho. apply lookup_insert_Some in Hsl as [[<- <-]|[_ Hsl]];
        [|by apply (P2 q sl2 i o)].
      unfold slotIds in Hi. rewrite Hfl' in Hi. apply elem_of_app in Hi as [Hi|Hi].
      * apply (P2 p sl i o Hp); [apply elem_of_app; by left|done].
      * apply list_elem_of_singleton in Hi as ->. by simplify_eq.
    + rewrite P3, !length_app. rewrite (Permutation_length (gather_insert flight (slots s) p sl')),
        (Permutation_length (gather_lookup flight (slots s) p sl Hp)), !length_app, Hfl, Hfl'. cbn. lia.
    + lia.
    + intros Hs i Hi. apply P7; [done|]. by apply (queued_slot s p sl sl' i Hp).
    + split; [apply P8|]. intros q sl2 Hsl. cbn in Hsl.
      apply lookup_insert_Some in Hsl as [[<- <-]|[_ Hsl]]; [exact (proj2 P8 p sl Hp)|by eapply P8].
Qed.

(** *** What dispatching does to the outside *)

Definition gens (s : Owner) (p : string) : option Z := Generation <$> slots s !! p.

(** a worker starts only while the scheduler runs, before the deadline of its
    command and in the current session of the pane *)
Definition startOk (now : time) (s : Owner) (e : effect) : Prop :=
  match e with
  | Start tok relay => stopping s = false /\ now < wt_Deadline tok /\
                       (relay = false -> gens s (wt_PaneID tok) = Some (wt_Generation tok))
  | _ => True
  end.

(** the commands whose worker was started and has not been heard *)
Definition flying (s : Owner) : list Z := elements (relayInFlight s) ++ gather flight (slots s).

Definition startedBy (e : effect) : list Z :=
  match e with Start tok _ => [wt_OperationID tok] | _ => [] end.
Definition started (tr : list effect) : list Z := tr ≫= startedBy.

Lemma started_app tr tr' : started (tr ++ tr') = started tr ++ started tr'.
Proof. apply bind_app. Qed.

Lemma started_replies r e (f : bool) ws :
  started ((fun w => Reply (response w) r e (f || w_replayed w)) <$> ws) = [].
Proof. by induction ws. Qed.

Lemma flying_put s p sl sl' :
  slots s !! p = Some sl -> flight sl' = flight sl -> flying (putSlot p sl' s) ≡ₚ flying s.
Proof.
  intros Hp Hf. unfold flying, putSlot. cbn. by rewrite gather_insert, (gather_lookup _ _ _ _ Hp), Hf.
Qed.

(** [new] is what was sent to the outside *)
Definition sent (now : time) (s s' : Owner) (new : list effect) : Prop :=
  trace s' = trace s ++ new /\ Forall (startOk now s) new /\ flying s' ≡ₚ flying s ++ started new /\
  NoDup (started new) /\ (forall i, i ∈ started new -> i ∈ queued s /\ i ∉ queued s').

Record ext (now : time) (s s' : Owner) : Prop := mkExt {
  e_trace : exists new, sent now s s' new;
  e_gens : forall p, gens s' p = gens s p;
  e_stopping : stopping s' = stopping s;
  e_dom : dom (ops s') = dom (ops s);
  e_queued : queued s' ⊆ queued s
}.

Lemma ext_refl now s s' :
  trace s' = trace s -> (forall p, gens s' p = gens s p) -> stopping s' = stopping s ->
  flying s' ≡ₚ flying s -> dom (ops s') = dom (ops s) -> queued s' ⊆ queued s -> ext now s s'.
Proof.
  intros Ht Hg Hs Hf Hd Hq. split; try done. exists []. split_and!; rewrite ?app_nil_r; try done; [constructor|].
  by intros i ?%elem_of_nil.
Qed.

Lemma ext_trans now s1 s2 s3 : ext now s1 s2 -> ext now s2 s3 -> ext now s1 s3.
Proof.
  intros [(n1 & T1 & F1 & L1 & N1 & M1) G1 S1 D1 Q1] [(n2 & T2 & F2 & L2 & N2 & M2) G2 S2 D2 Q2].
  split; [|congruence..|by etrans].
  exists (n1 ++ n2). split; [by rewrite T2, T1, app_assoc|].
  split; [|split_and!].
  2: by rewrite L2, L1, started_app, app_assoc.
  2: { rewrite started_app. apply NoDup_app. split_and!; try done. intros i Hi Hi'.
       destruct (M1 i Hi) as [_ []]. by apply M2. }
  2: { intros i. rewrite started_app. intros [Hi|Hi]%elem_of_app; [destruct (M1 i Hi)|destruct (M2 i Hi)]; auto. }
  apply Forall_app. split; [done|].
  eapply Forall_impl; [exact F2|]. intros [] H; try done. destruct H as (H1 & H2 & H3).
  split_and!; [congruence|done|]. intros Hr. rewrite <- G1. auto.
Qed.

Lemma ext_reply now s op r e f : ext now s (replyWithReplay s op r e f).
Proof.
  split; try done. eexists. split; [done|]. split; [by apply Forall_fmap, Forall_true|].
  rewrite started_replies, app_nil_r. split_and!; [done|constructor|by intros i ?%elem_of_nil].
Qed.

Lemma ext_replyStale now s op : ext now s (replyStale s op).
Proof.
  eapply ext_trans; [|apply ext_reply]. unfold forget. case_if; by apply ext_refl.
Qed.

Lemma ext_expire now s op : ext now s (expire s op).
Proof.
  eapply ext_trans; [|apply ext_reply]. unfold forget. case_if; by apply ext_refl.
Qed.

Lemma dom_started (m : gmap Z scheduledOperation) op id :
  m !! id = Some op -> operation op = id -> dom (<[operation op := set_dispatched op]> m) = dom m.
Proof. intros Hop ->. by apply dom_insert_lookup_L. Qed.

Lemma flying_relay s s' id :
  id ∉ relayInFlight s -> relayInFlight s' = relayInFlight s ∪ {[id]} -> slots s' = slots s ->
  flying s' ≡ₚ flying s ++ [id].
Proof.
  intros Hid Hr Hs. unfold flying. rewrite Hr, Hs, (comm_L (∪)), elements_union_singleton by done.
  solve_Permutation.
Qed.

Lemma flying_pane s s' p sl sl' id :
  slots s !! p = Some sl -> flight sl = [] -> flight sl' = [id] -> slots s' = <[p := sl']> (slots s) ->
  relayInFlight s' = relayInFlight s -> flying s' ≡ₚ flying s ++ [id].
Proof.
  intros Hp Hf Hf' Hs Hr. unfold flying. rewrite Hs, Hr, gather_insert, (gather_lookup _ _ _ _ Hp), Hf, Hf'.
  solve_Permutation.
Qed.

(** *** Dispatching *)

Lemma dispatchRelayHead_ok U now s id rest :
  Inv U [] s -> relayQueue s = id :: rest -> inUse s < capacity -> stopping s = false ->
  exists s', dispatchRelayHead now s id rest = Some s' /\ Inv U [] s' /\ ext now s s' /\
    relayQueue s' = rest /\ slots s' = slots s.
Proof.
  intros H Hq Hcap Hstop. unfold dispatchRelayHead.
  pose proof (inv_popRelay _ _ _ _ _ H Hq) as H1. set (s1 := set_relayQueue rest s) in *.
  assert (Hop : is_Some (ops s1 !! id)).
  { apply (a_live _ _ _ (i_acct _ _ _ _ H1)). apply elem_of_app. right. by left. }
  destruct Hop as [op Hop]. rewrite Hop. cbn [mbind option_bind].
  assert (Hrel : RelayLevel (options op) = true).
  { apply (p_relay _ _ (i_placed _ _ _ _ H) id); [|done]. rewrite Hq. by left. }
  assert (Hsub : queued s1 ⊆ queued s).
  { intros i. unfold queued. rewrite Hq. cbn. set_solver. }
  destruct (Z.ltb_spec now (Deadline (options op))) as [Hd|Hd]; cbn [negb].
  - eexists. split; [done|]. split; [by apply (inv_startRelay U [] s1 id)|]. split_and!; try done.
    split; try done; [|by apply (dom_started _ op id), (a_ops _ _ _ (i_acct _ _ _ _ H))]. eexists. split; [done|]. split.
    + apply Forall_singleton. cbn. split_and!; try done. by rewrite Hrel.
    + cbn. rewrite (a_ops _ _ _ (i_acct _ _ _ _ H) id op Hop). split_and!; [|apply NoDup_singleton|].
      * apply flying_relay; [|done|done].
        intros Hi. eapply hand_not_live; [exact H1|by left|]. unfold live. rewrite !elem_of_app, elem_of_elements. auto.
      * intros i ->%list_elem_of_singleton. split; [unfold queued; rewrite Hq; by left|].
        intros Hi. eapply hand_not_live; [exact H1|by left|]. by apply queued_live.
  - destruct (dropDeadline_hand _ _ _ id H1 ltac:(by left)) as (d & -> & H2 & _). cbn.
    eexists. split; [done|]. split; [by apply (inv_expire U [] _ id)|]. split.
    + eapply ext_trans; [|apply ext_expire]. by apply ext_refl.
    + unfold expire, forget. case_if; done.
Qed.

Lemma dispatchRelay_ok U now fuel s :
  Inv U [] s -> (length (relayQueue s) <= fuel)%nat ->
  exists s', dispatchRelay capacity fuel now s = Some s' /\ Inv U [] s' /\ ext now s s' /\
    (stopping s' = true \/ capacity <= inUse s' \/ relayQueue s' = []) /\ slots s' = slots s.
Proof.
  revert s. induction fuel as [|fuel IH]; intros s H Hf.
  - cbn [dispatchRelay]. destruct (relayQueue s) as [|id rest] eqn:Hq; [|cbn in Hf; lia].
    exists s. split_and!; auto. by apply ext_refl.
  - cbn [dispatchRelay]. destruct (relayQueue s) as [|id rest] eqn:Hq.
    { exists s. split_and!; auto. by apply ext_refl. }
    destruct (negb (inUse s <? capacity) || stopping s) eqn:E.
    { exists s. split_and!; auto; [by apply ext_refl|]. zb; [lia|by left]. }
    zb. destruct (dispatchRelayHead_ok U now s id rest H Hq) as (s1 & -> & I1 & E1 & Q1 & L1); try done.
    cbn [mbind option_bind]. destruct (IH s1 I1) as (s2 & -> & I2 & E2 & D2 & L2); [rewrite Q1; cbn in Hf; lia|].
    exists s2. split_and!; try done; [by eapply ext_trans|congruence].
Qed.

Definition idle (s : Owner) (p : string) : Prop :=
  forall sl, slots s !! p = Some sl -> Queue sl = [] \/ is_Some (InFlight sl).

Lemma queuedCount_gather s : queuedCount s = length (gather Queue (slots s)).
Proof.
  unfold queuedCount, gather. induction (map_to_list (slots s)) as [|x l IH]; [done|].
  cbn. by rewrite length_app, IH.
Qed.

Lemma queuedCount_put s p sl sl' :
  slots s !! p = Some sl ->
  (queuedCount (putSlot p sl' s) + length (Queue sl) = queuedCount s + length (Queue sl'))%nat.
Proof.
  intros Hp. rewrite !queuedCount_gather. unfold putSlot. cbn.
  rewrite (Permutation_length (gather_insert Queue (slots s) p sl')),
    (Permutation_length (gather_lookup Queue (slots s) p sl Hp)), !length_app. lia.
Qed.

Lemma dispatchPane_ok U now s p :
  Inv U [] s -> is_Some (slots s !! p) -> inUse s < capacity -> stopping s = false ->
  exists s' b, dispatchPane now s p = Some (s', b) /\ Inv U [] s' /\ ext now s s' /\
    relayQueue s' = relayQueue s /\
    if b : bool then S (queuedCount s') = queuedCount s else s' = s /\ idle s p.
Proof.
  intros H [sl Hp] Hcap Hstop. unfold dispatchPane. rewrite Hp. cbn [mbind option_bind].
  destruct (InFlight sl) as [f|] eqn:Hf.
  { exists s, false. split_and!; try done; [by apply ext_refl|]. intros sl' Hsl'. simplify_eq.
    right. by rewrite Hf. }
  destruct (Queue sl) as [|id rest] eqn:Hq.
  { exists s, false. split_and!; try done; [by apply ext_refl|]. intros sl' Hsl'. simplify_eq. by left. }
  pose proof (inv_popPane _ _ _ _ _ _ _ H Hp Hq) as H1.
  set (s1 := putSlot p (set_Queue rest sl) s) in *.
  assert (Hop : is_Some (ops s !! id)).
  { apply (a_live _ _ _ (i_acct _ _ _ _ H1)). apply elem_of_app. right. by left. }
  destruct Hop as [op Hop]. rewrite Hop. cbn [mbind option_bind].
  destruct (p_pane _ _ (i_placed _ _ _ _ H) p sl id op Hp) as [Hrel Hpane]; [|done|].
  { unfold slotIds. rewrite Hq. by left. }
  pose proof (queuedCount_put s p sl (set_Queue rest sl) Hp) as Hcount. fold s1 in Hcount.
  rewrite Hq in Hcount. cbn in Hcount.
  assert (G1 : forall q, gens s1 q = gens s q).
  { intros q. unfold gens, s1. cbn. destruct (decide (p = q)) as [<-|Hne];
      [by rewrite lookup_insert_eq, Hp|by rewrite lookup_insert_ne]. }
  assert (F1 : flying s1 ≡ₚ flying s) by (by apply (flying_put s p sl)).
  assert (Q1 : queued s1 ⊆ queued s).
  { intros i. apply (queued_slot s p sl); [done|]. intros j. rewrite Hq. cbn. set_solver. }
  destruct (dropDeadline_hand _ _ _ id H1 ltac:(by left)) as (d & Hd & H2 & _).
  assert (E2 : ext now s (set_deadlines d s1)) by (by apply ext_refl).
  destruct (negb (generation op =? Generation sl)); [|destruct (Z.ltb_spec now (Deadline (options op))) as [Hdl|Hdl]; cbn [negb]].
  - rewrite Hd. cbn. eexists _, true. split; [done|]. split; [by apply (inv_replyStale U [] _ id)|].
    split; [eapply ext_trans; [exact E2|apply ext_replyStale]|].
    unfold replyStale, forget. case_if; (split; [done|]; change (S (queuedCount s1) = queuedCount s); lia).
  - eexists _, true. split; [done|].
    assert (Hs1 : slots s1 !! p = Some (set_Queue rest sl)) by (unfold s1; cbn; by rewrite lookup_insert_eq).
    split; [exact (inv_startPane U [] s1 p _ id op now H1 Hs1 Hf Hop Hrel Hpane Hcap)|].
    set (s2 := putSlot p _ (set_inUse _ s1)).
    assert (G2 : forall q, gens s2 q = gens s q).
    { intros q. unfold gens, s2, s1. cbn. destruct (decide (p = q)) as [<-|Hne];
        [by rewrite lookup_insert_eq, Hp|by rewrite !lookup_insert_ne]. }
    split; [|split; [done|]].
    + split; try done; [|by apply (dom_started _ op id), (a_ops _ _ _ (i_acct _ _ _ _ H))|
        intros i Hi; apply Q1; revert Hi; apply (queued_slot (set_inUse _ s1) p _ _ i Hs1); cbn; intros j Hj; exact Hj]. eexists. split; [done|]. split.
      * apply Forall_singleton. cbn. split_and!; try done. intros _. rewrite Hpane. unfold gens. by rewrite Hp.
      * cbn. split_and!; [|apply NoDup_singleton|].
        -- apply (flying_pane s _ p sl (mkSlot (Generation sl) rest (Some (mkInFlight (operation op)
             (ID (options op)) (Generation sl) now)))); try done; [unfold flight; by rewrite Hf|].
           cbn. by rewrite insert_insert_eq.
        -- rewrite (a_ops _ _ _ (i_acct _ _ _ _ H) id op Hop). intros i ->%list_elem_of_singleton. split.
           ++ apply elem_of_app. right. apply elem_of_gather. exists p, sl. rewrite Hq. split; [done|by left].
           ++ intros Hi. eapply hand_not_live; [exact H1|by left|]. apply queued_live.
              revert Hi. apply (queued_slot (set_inUse _ s1) p _ _ id Hs1). cbn. auto.
    + change (S (queuedCount s2) = queuedCount s).
      pose proof (queuedCount_put (set_inUse (inUse s1 + 1) s1) p (set_Queue rest sl)
        (mkSlot (Generation sl) rest (Some (mkInFlight (operation op) (ID (options op)) (Generation sl) now))) Hs1) as Hc2.
      fold s2 in Hc2. change (queuedCount (set_inUse (inUse s1 + 1) s1)) with (queuedCount s1) in Hc2. cbn in Hc2. lia.
  - rewrite Hd. cbn. eexists _, true. split; [done|]. split; [by apply (inv_expire U [] _ id)|].
    split; [eapply ext_trans; [exact E2|apply ext_expire]|].
    unfold expire, forget. case_if; (split; [done|]; change (S (queuedCount s1) = queuedCount s); lia).
Qed.

Lemma ext_dom now s s' p : ext now s s' -> is_Some (slots s !! p) -> is_Some (slots s' !! p).
Proof.
  intros [_ G _ _ _] [sl Hp]. specialize (G p). unfold gens in G. rewrite Hp in G. cbn in G.
  destruct (slots s' !! p); [by eexists|done].
Qed.

Lemma dispatchRound_ok U now s b ps :
  Inv U [] s -> Forall (fun p => is_Some (slots s !! p)) ps -> stopping s = false ->
  exists s' b', dispatchRound capacity now s b ps = Some (s', b') /\ Inv U [] s' /\ ext now s s' /\
    relayQueue s' = relayQueue s /\
    (if b : bool then b' = true else
     b' = true /\ (queuedCount s' < queuedCount s)%nat \/
     b' = false /\ s' = s /\ (capacity <= inUse s \/ Forall (idle s) ps)) /\
    (queuedCount s' <= queuedCount s)%nat.
Proof.
  revert s b. induction ps as [|p ps IH]; intros s b H Hdom Hstop; cbn [dispatchRound].
  { exists s, b. split_and!; try done; [by apply ext_refl|]. destruct b; auto. }
  apply Forall_cons in Hdom as [Hp Hps].
  destruct (inUse s >=? capacity) eqn:E; zb.
  { exists s, b. split_and!; try done; [by apply ext_refl|]. destruct b; auto. }
  destruct (dispatchPane_ok U now s p H Hp ltac:(lia) Hstop) as (s1 & b1 & -> & I1 & E1 & R1 & B1).
  cbn [mbind option_bind fst snd].
  destruct (IH s1 (b || b1) I1) as (s2 & b2 & -> & I2 & E2 & R2 & B2 & C2).
  { eapply Forall_impl; [exact Hps|]. intros q. by apply (ext_dom now). }
  { by rewrite (e_stopping _ _ _ E1). }
  exists s2, b2. split_and!; try done; [by eapply ext_trans|congruence| |].
  - destruct b; [done|]. destruct b1; cbn [orb] in *; [left; split; [done|lia]|].
    destruct B1 as [-> Hidle]. destruct B2 as [[? ?]|(-> & -> & Hsat)]; [by left|right].
    split_and!; try done. destruct Hsat as [?|?]; [by left|right]. by constructor.
  - destruct b1; [lia|]. destruct B1 as [-> _]. done.
Qed.

Definition saturated (s : Owner) : Prop :=
  stopping s = true \/ capacity <= inUse s \/ relayQueue s = [] /\ forall p, idle s p.

Lemma dispatchPanes_ok U now fuel s ps :
  Inv U [] s -> Forall (fun p => is_Some (slots s !! p)) ps -> (queuedCount s < fuel)%nat ->
  exists s', dispatchPanes capacity fuel now s ps = Some s' /\ Inv U [] s' /\ ext now s s' /\
    relayQueue s' = relayQueue s /\ (capacity <= inUse s -> s' = s) /\
    (stopping s' = true \/ capacity <= inUse s' \/ Forall (idle s') ps).
Proof.
  revert s. induction fuel as [|fuel IH]; intros s H Hdom Hf; [lia|]. cbn [dispatchPanes].
  destruct (negb (inUse s <? capacity) || stopping s) eqn:E.
  { exists s. split_and!; try done; [by apply ext_refl|]. zb; [lia|by left]. }
  apply orb_false_iff in E as [Hcap Hstop]. zb.
  destruct (dispatchRound_ok U now s false ps H Hdom Hstop) as (s1 & b1 & -> & I1 & E1 & R1 & B1 & _).
  cbn [mbind option_bind fst snd]. destruct b1.
  - destruct (IH s1 I1) as (s2 & -> & I2 & E2 & R2 & _ & D2).
    + eapply Forall_impl; [exact Hdom|]. intros q. by apply (ext_dom now).
    + destruct B1 as [[_ ?]|[? _]]; [lia|done].
    + exists s2. split_and!; try done; [by eapply ext_trans|congruence|lia].
  - exists s1. destruct B1 as [[? _]|(_ & -> & Hsat)]; [done|]. split_and!; try done. by right.
Qed.

Definition armed (s : Owner) : Prop := timer s = it_deadline <$> head (items (deadlines s)).

Lemma resetTimer_ok s :
  wf (deadlines s) -> resetTimer s = Some (set_timer (it_deadline <$> head (items (deadlines s))) s).
Proof.
  intros Hw. unfold resetTimer. cbn [resetLoop]. cbn [deadlines set_timer].
  destruct (items (deadlines s)) as [|it l] eqn:E; [by destruct s|].
  rewrite bool_decide_true; [by destruct s|].
  apply indexed_member; [apply Hw|]. rewrite E. by left.
Qed.

(** between two cases of the loop nothing that could run waits, and the timer is
    armed for the first deadline *)
Definition settled (s : Owner) : Prop := saturated s /\ armed s.

Lemma dispatch_ok U now s :
  Inv U [] s ->
  exists s', dispatch capacity now s = Some s' /\ Inv U [] s' /\ ext now s s' /\ settled s'.
Proof.
  intros H. unfold dispatch.
  destruct (dispatchRelay_ok U now (length (relayQueue s)) s H ltac:(lia))
    as (s1 & -> & I1 & E1 & D1 & L1). cbn [mbind option_bind].
  set (ps := merge_sort string_le (elements (dom (slots s1)))).
  assert (Hps : forall p, p ∈ ps <-> is_Some (slots s1 !! p)).
  { intros p. unfold ps. by rewrite merge_sort_Permutation, elem_of_elements, elem_of_dom. }
  destruct (dispatchPanes_ok U now (S (queuedCount s1)) s1 ps I1) as (s2 & -> & I2 & E2 & R2 & C2 & D2).
  { apply Forall_forall. intros p. by rewrite Hps. }
  { lia. }
  cbn [mbind option_bind]. set (s3 := setOwnerMetrics s2).
  assert (I3 : Inv U [] s3) by (by apply inv_setOwnerMetrics).
  rewrite resetTimer_ok by apply (p_heap _ _ (i_placed _ _ _ _ I3)).
  eexists. split; [done|]. split; [by apply inv_timer|]. split.
  - eapply ext_trans; [exact E1|]. eapply ext_trans; [exact E2|]. by apply ext_refl.
  - split; [|done]. unfold saturated. cbn.
    destruct D2 as [?|[?|Hidle]]; [by left|by right; left|].
    destruct D1 as [Hs|[Hc|Hq]].
    + left. by rewrite (e_stopping _ _ _ E2).
    + right. left. by rewrite (C2 Hc).
    + right. right. rewrite R2. split; [done|]. intros p sl Hp.
      assert (Hin : p ∈ ps).
      { apply Hps. pose proof (e_gens _ _ _ E2 p) as G. unfold gens in G. cbn in Hp. rewrite Hp in G.
        destruct (slots s1 !! p); [by eexists|done]. }
      rewrite Forall_forall in Hidle. by apply (Hidle p Hin).
Qed.

(** *** Steps that neither start a worker nor touch the queues *)

Definition noStart (e : effect) : Prop := match e with Start _ _ => False | _ => True end.

Record quiet (s s' : Owner) : Prop := mkQuiet {
  q_slots : slots s' = slots s;
  q_ops : ops s' = ops s;
  q_relayQueue : relayQueue s' = relayQueue s;
  q_relayInFlight : relayInFlight s' = relayInFlight s;
  q_inUse : inUse s' = inUse s;
  q_stopping : stopping s' = stopping s;
  q_trace : exists new, trace s' = trace s ++ new /\ Forall noStart new
}.

Lemma quiet_same s s' :
  slots s' = slots s -> ops s' = ops s -> relayQueue s' = relayQueue s ->
  relayInFlight s' = relayInFlight s -> inUse s' = inUse s -> stopping s' = stopping s ->
  trace s' = trace s -> quiet s s'.
Proof. intros. split; try done. exists []. by rewrite app_nil_r. Qed.

Lemma quiet_trans s1 s2 s3 : quiet s1 s2 -> quiet s2 s3 -> quiet s1 s3.
Proof.
  intros [A1 A2 A3 A4 A5 A6 (n1 & T1 & F1)] [B1 B2 B3 B4 B5 B6 (n2 & T2 & F2)].
  split; try congruence. exists (n1 ++ n2). rewrite T2, T1, app_assoc. split; [done|].
  by apply Forall_app.
Qed.

Lemma quiet_forget key s : quiet s (forget key s).
Proof. unfold forget. case_if; by apply quiet_same. Qed.

Lemma quiet_emit e s : noStart e -> quiet s (emit e s).
Proof. intros He. split; try done. exists [e]. split; [done|]. by constructor. Qed.

Lemma quiet_reply s op r e f : quiet s (replyWithReplay s op r e f).
Proof. split; try done. eexists. split; [done|]. apply Forall_fmap, Forall_true. done. Qed.

Lemma quiet_replyStale s op : quiet s (replyStale s op).
Proof. eapply quiet_trans; [apply quiet_forget|apply quiet_reply]. Qed.

Lemma quiet_expire s op : quiet s (expire s op).
Proof.
  eapply quiet_trans; [apply (quiet_forget (LedgerKey (options op)))|].
  eapply quiet_trans; [|apply quiet_reply]. by apply quiet_same.
Qed.

(** the ledger may lose entries *)
Lemma inv_ledger_sub U X s m : Inv U X s -> m ⊆ ledger s -> Inv U X (set_ledger m s).
Proof.
  intros [[A1 A2 A3 A4 A5] [P1 P2 P3 P4 P5 P6 P7 P8]] Hm. split; split; try done.
  intros k e He. apply (A5 k e). by apply (lookup_weaken _ _ _ _ He).
Qed.

Lemma dropOlder_ok U X keep p g s :
  Inv U X s -> Inv U X (dropOlder keep p g s) /\ quiet s (dropOlder keep p g s).
Proof. intros H. split; [apply inv_ledger_sub; [done|apply map_filter_subseteq]|by apply quiet_same]. Qed.

(** *** A new session of a pane *)

Lemma flushed_ok U X Q s :
  Inv U (Q ++ X) s ->
  exists s', foldM flushOne s Q = Some s' /\ Inv U X s' /\ quiet s s' /\
    (forall it, it ∈ items (deadlines s) -> it_id it ∉ Q -> it ∈ items (deadlines s')).
Proof.
  revert s. induction Q as [|id Q IH]; intros s H; cbn [foldM].
  { exists s. split_and!; try done. by apply quiet_same. }
  cbn [app] in H.
  assert (Hop : is_Some (ops s !! id)).
  { apply (a_live _ _ _ (i_acct _ _ _ _ H)). apply elem_of_app. right. by left. }
  destruct Hop as [op Hop].
  destruct (dropDeadline_hand _ _ _ id H ltac:(by left)) as (d & Hd & H1 & _ & Hsub).
  assert (Hone : flushOne s id = Some (replyStale (set_deadlines d s) op)).
  { unfold flushOne. rewrite Hop. cbn [mbind option_bind]. by rewrite Hd. }
  rewrite Hone. cbn [mbind option_bind].
  pose proof (inv_replyStale U (Q ++ X) _ id op H1 Hop) as H2.
  destruct (IH _ H2) as (s' & -> & I' & Q' & Hsub'). exists s'. split_and!; try done.
  - eapply quiet_trans; [|exact Q']. eapply quiet_trans; [|apply quiet_replyStale]. by apply quiet_same.
  - intros it Hit [Hne Hni]%not_elem_of_cons. apply Hsub'; [|done]. specialize (Hsub it Hit Hne).
    unfold replyStale, forget. by case_if.
Qed.

(** the queue of a slot goes to the hand *)
Lemma inv_takeQueue U X s p sl g :
  Inv U X s -> slots s !! p = Some sl -> Inv U (Queue sl ++ X) (putSlot p (mkSlot g [] (InFlight sl)) s).
Proof.
  intros [A P] Hp. split.
  - eapply acct_same; [exact A| |done..]. apply (live_slot s p sl); [done|].
    unfold slotIds. cbn. change (flight (mkSlot g [] (InFlight sl))) with (flight sl). solve_Permutation.
  - apply (placed_slot s p sl); try done.
    + intros i. unfold slotIds. cbn. change (flight (mkSlot g [] (InFlight sl))) with (flight sl).
      intros ?. apply elem_of_app. by right.
    + apply sublist_nil_l.
Qed.

Lemma renewSession_ok U X keep p sl g s :
  Inv U X s -> slots s !! p = Some sl ->
  exists s', renewSession keep p sl g s = Some s' /\ Inv U X s' /\
    quiet (putSlot p (mkSlot g [] (InFlight sl)) s) s' /\
    (forall it, it ∈ items (deadlines s) -> it_id it ∉ Queue sl -> it ∈ items (deadlines s')).
Proof.
  intros H Hp. unfold renewSession.
  set (s1 := match InFlight sl with Some _ => _ | None => s end).
  assert (H1 : Inv U X s1 /\ quiet s s1 /\ deadlines s1 = deadlines s).
  { unfold s1. destruct (InFlight sl); [|by split_and!; try done; apply quiet_same].
    split_and!; [by apply inv_emit|by apply quiet_emit|done]. }
  destruct H1 as (I1 & Q1 & D1). clearbody s1.
  assert (Hp1 : slots s1 !! p = Some sl) by (by rewrite (q_slots _ _ Q1)).
  pose proof (inv_takeQueue U X s1 p sl g I1 Hp1) as I2.
  destruct (flushed_ok U X (Queue sl) _ I2) as (s2 & -> & I3 & Q3 & Hsub). cbn [mbind option_bind].
  destruct (dropOlder_ok U X keep p g s2 I3) as [I4 Q4]. eexists. split_and!; [done|done| |].
  - eapply quiet_trans; [|exact Q4]. eapply quiet_trans; [|exact Q3].
    destruct Q1 as [A1 A2 A3 A4 A5 A6 A7]. split; try done. cbn. by rewrite A1.
  - intros it Hit Hni. apply Hsub; [|done]. cbn. by rewrite D1.
Qed.

(** *** Steps before a dispatch: no worker starts, sessions only go forward *)

(** [N] are the commands that were put in a queue *)
Record risen (N : list Z) (s s' : Owner) : Prop := mkRise {
  r_trace : exists new, trace s' = trace s ++ new /\ Forall noStart new;
  r_gens : forall p g, gens s p = Some g -> exists g', gens s' p = Some g' /\ g <= g';
  r_stopping : stopping s' = stopping s;
  r_flying : flying s' ≡ₚ flying s;
  r_dom : dom (ops s') = dom (ops s);
  r_queued : queued s' ⊆ N ++ queued s
}.
Abbreviation rise := (risen []).

Lemma rise_trans N s1 s2 s3 : risen N s1 s2 -> risen N s2 s3 -> risen N s1 s3.
Proof.
  intros [(n1 & T1 & F1) G1 S1 L1 D1 Q1] [(n2 & T2 & F2) G2 S2 L2 D2 Q2].
  split; [| |congruence|by rewrite L2|congruence|set_solver].
  - exists (n1 ++ n2). rewrite T2, T1, app_assoc. split; [done|]. by apply Forall_app.
  - intros p g Hg. destruct (G1 p g Hg) as (g1 & Hg1 & ?). destruct (G2 p g1 Hg1) as (g2 & Hg2 & ?).
    exists g2. split; [done|lia].
Qed.

Lemma quiet_rise N s s' : quiet s s' -> risen N s s'.
Proof.
  intros [A1 A2 A3 A4 _ A6 A7].
  split; try done; [|unfold flying; by rewrite A1, A4|by rewrite A2|unfold queued; rewrite A1, A3; set_solver]. intros p g. unfold gens. rewrite A1. intros ->.
  exists g. split; [done|lia].
Qed.

Lemma rise_same N s s' :
  trace s' = trace s -> slots s' = slots s -> stopping s' = stopping s ->
  relayInFlight s' = relayInFlight s -> dom (ops s') = dom (ops s) ->
  queued s' ⊆ N ++ queued s -> risen N s s'.
Proof.
  intros Ht Hl Hs Hr Hd Hq. split; [exists []; by rewrite app_nil_r| |done|unfold flying; by rewrite Hl, Hr|done|done]. intros p g. unfold gens. rewrite Hl.
  intros ->. exists g. split; [done|lia].
Qed.

Lemma rise_refl N s : risen N s s.
Proof. by apply quiet_rise, quiet_same. Qed.

Lemma rise_more N s s' : rise s s' -> risen N s s'.
Proof. intros [A B C D E F]. split; try done. set_solver. Qed.

Lemma rise_put N s p sl' :
  (forall sl, slots s !! p = Some sl -> Generation sl <= Generation sl') ->
  flight sl' = flight (default newSlot (slots s !! p)) ->
  Queue sl' ⊆ N ++ Queue (default newSlot (slots s !! p)) -> risen N s (putSlot p sl' s).
Proof.
  intros Hle Hf Hq. split; [exists []; by rewrite app_nil_r| |done| |done|].
  3: { unfold queued, putSlot. cbn. intros i. destruct (slots s !! p) as [sl|] eqn:Hp; cbn in Hq.
       - rewrite gather_insert, (gather_lookup _ _ _ _ Hp). set_solver.
       - rewrite (gather_fresh _ _ _ _ Hp). set_solver. }
  2: { destruct (slots s !! p) as [sl|] eqn:Hp; [by apply (flying_put s p sl)|].
       unfold flying, putSlot. cbn in *. by rewrite gather_fresh, Hf. }
  intros q g. unfold gens, putSlot. cbn.
  destruct (decide (p = q)) as [<-|Hne].
  - rewrite lookup_insert_eq. intros (sl & Hsl & ->)%fmap_Some. exists (Generation sl'). split; [done|].
    by apply Hle.
  - rewrite lookup_insert_ne by done. intros ->. exists g. split; [done|lia].
Qed.

(** a step of a handler, from one case of the loop to the next, that hears the
    workers [D] *)
Record adv (now : time) (D N : list Z) (s s' : Owner) : Prop := mkAdv {
  ad_trace : exists new, trace s' = trace s ++ new /\ Forall (startOk now s') new /\
             flying s' ++ D ≡ₚ flying s ++ started new /\ NoDup (started new) /\
             (forall i, i ∈ started new -> i ∈ N ++ queued s /\ i ∉ queued s');
  ad_gens : forall p g g', gens s p = Some g -> gens s' p = Some g' -> g <= g';
  ad_stopping : stopping s = true -> stopping s' = true;
  ad_drained : stopping s' = true -> stopping s = true \/ queued s' = [];
  ad_dom : dom (ops s') = dom (ops s);
  ad_queued : queued s' ⊆ N ++ queued s
}.

Lemma startOk_ext now s s' e : ext now s s' -> startOk now s e -> startOk now s' e.
Proof. intros [_ G S _ _]. destruct e; try done. cbn. by rewrite G, S. Qed.

Lemma noStart_ok now s e : noStart e -> startOk now s e.
Proof. by destruct e. Qed.

Lemma noStart_started tr : Forall noStart tr -> started tr = [].
Proof. induction 1 as [|e tr He _ IH]; [done|]. destruct e; try done. Qed.

Lemma rise_ext_adv now N s s1 s' : risen N s s1 -> ext now s1 s' -> adv now [] N s s'.
Proof.
  intros [(n1 & T1 & F1) G1 S1 L1 D1 Q1] E. pose proof E as [(n2 & T2 & F2 & L2 & N2 & M2) G2 S2 D2 Q2]. split.
  - exists (n1 ++ n2). split; [by rewrite T2, T1, app_assoc|]. split; [apply Forall_app; split|split_and!].
    + eapply Forall_impl; [exact F1|]. intros e. apply noStart_ok.
    + eapply Forall_impl; [exact F2|]. intros e. by apply startOk_ext.
    + rewrite app_nil_r, L2, L1, started_app. by rewrite (noStart_started n1 F1).
    + by rewrite started_app, (noStart_started n1 F1).
    + intros i. rewrite started_app, (noStart_started n1 F1). intros Hi. destruct (M2 i Hi). auto.
  - intros p g g' Hg Hg'. destruct (G1 p g Hg) as (g1 & Hg1 & Hle). rewrite G2, Hg1 in Hg'. by simplify_eq.
  - congruence.
  - left. congruence.
  - congruence.
  - by etrans.
Qed.

Lemma rise_adv now N s s' : risen N s s' -> adv now [] N s s'.
Proof. intros H. eapply rise_ext_adv; [exact H|]. by apply ext_refl. Qed.

(** *** Topology *)

(** looking a slot up creates it *)
Lemma inv_touchSlot U X s p :
  Inv U X s -> Inv U X (putSlot p (default newSlot (slots s !! p)) s) /\
  rise s (putSlot p (default newSlot (slots s !! p)) s).
Proof.
  intros H. split; [|apply rise_put; [intros sl ->; cbn; lia|done|by rewrite app_nil_l]].
  destruct (slots s !! p) as [sl|] eqn:Hp; cbn [default from_option].
  { assert (putSlot p (id sl) s = s) as ->; [|done]. unfold putSlot. rewrite insert_id by done. by destruct s. }
  destruct H as [A [P1 P2 P3 P4 P5 P6 P7 P8]]. split.
  - eapply acct_same; [exact A| |done..]. unfold live, putSlot. cbn. by rewrite gather_fresh.
  - split; try done; cbn.
    + intros q sl i o Hsl Hi Ho. apply lookup_insert_Some in Hsl as [[<- <-]|[_ Hsl]];
        [by apply elem_of_nil in Hi|by apply (P2 q sl i o)].
    + rewrite P3, !length_app. by rewrite (Permutation_length (gather_fresh flight (slots s) p newSlot Hp)).
    + intros Hs i Hi. apply P7; [done|]. unfold queued in *. cbn in Hi. by rewrite gather_fresh in Hi.
    + split; [apply P8|]. intros q sl Hsl.
      apply lookup_insert_Some in Hsl as [[<- <-]|[_ Hsl]]; [constructor|by eapply P8].
Qed.

Lemma renewSession_rise U X keep p sl g s :
  Inv U X s -> slots s !! p = Some sl -> Generation sl <= g ->
  exists s', renewSession keep p sl g s = Some s' /\ Inv U X s' /\ rise s s' /\ gens s' p = Some g.
Proof.
  intros H Hp Hg. destruct (renewSession_ok U X keep p sl g s H Hp) as (s' & -> & I' & Q' & _).
  exists s'. split_and!; try done.
  - eapply rise_trans; [|by apply quiet_rise]. apply rise_put; [intros sl' ?; by simplify_eq|by rewrite Hp|apply list_subseteq_nil].
  - unfold gens. rewrite (q_slots _ _ Q'). cbn. by rewrite lookup_insert_eq.
Qed.

Lemma paneGone_ok U active s p :
  Inv U [] s -> exists s', paneGone active s p = Some s' /\ Inv U [] s' /\ rise s s' /\
    (p ∉ active -> forall g, gens s p = Some g -> gens s' p = Some (g + 1)).
Proof.
  intros H. unfold paneGone. destruct (bool_decide (p ∈ active)) eqn:E; zb.
  { exists s. split_and!; try done. apply rise_refl. }
  destruct (slots s !! p) as [sl|] eqn:Hp.
  - destruct (renewSession_rise U [] keepNone p sl (Generation sl + 1) s H Hp ltac:(lia))
      as (s' & -> & I' & R' & G'). exists s'. split_and!; try done.
    intros _ g. unfold gens at 1. rewrite Hp. cbn. intros [= <-]. done.
  - exists s. split_and!; try done; [apply rise_refl|]. intros _ g. unfold gens at 1. by rewrite Hp.
Qed.

Lemma paneGeneration_ok U s pg :
  Inv U [] s -> exists s', paneGeneration s pg = Some s' /\ Inv U [] s' /\ rise s s' /\
    exists g, gens s' pg.1 = Some g /\ pg.2 <= g.
Proof.
  intros H. destruct pg as [p g]. unfold paneGeneration. cbn [fst snd].
  destruct (inv_touchSlot U [] s p H) as [H1 R1]. set (sl := default newSlot (slots s !! p)) in *.
  set (s1 := putSlot p sl s) in *.
  assert (Hp : slots s1 !! p = Some sl) by (unfold s1; cbn; by rewrite lookup_insert_eq).
  destruct (Z.leb_spec g (Generation sl)) as [Hle|Hgt].
  - exists s1. split_and!; try done. exists (Generation sl). unfold gens. by rewrite Hp.
  - destruct (renewSession_rise U [] keepNone p sl g s1 H1 Hp ltac:(lia)) as (s' & -> & I' & R' & G').
    exists s'. split_and!; try done; [by eapply rise_trans|]. exists g. split; [done|lia].
Qed.

(** a loop of steps that keep the invariant; [Q] is established by the step for an
    element and stable afterwards *)
Lemma loop_ok {A} U (f : Owner -> A -> option Owner) (Q : A -> Owner -> Prop) l s0 s :
  (forall t x, Inv U [] t -> rise s0 t -> exists t', f t x = Some t' /\ Inv U [] t' /\ rise t t' /\ Q x t') ->
  (forall x t t', rise t t' -> Q x t -> Q x t') ->
  Inv U [] s -> rise s0 s ->
  exists s', foldM f s l = Some s' /\ Inv U [] s' /\ rise s s' /\ Forall (fun x => Q x s') l.
Proof.
  intros Hf HQ. revert s. induction l as [|x l IH]; intros s H R; cbn [foldM].
  { exists s. split_and!; try done. apply rise_refl. }
  destruct (Hf s x H R) as (s1 & -> & I1 & R1 & Q1). cbn [mbind option_bind].
  destruct (IH s1 I1) as (s2 & -> & I2 & R2 & Q2); [by eapply rise_trans|]. exists s2. split_and!; try done.
  - by eapply rise_trans.
  - constructor; [by apply (HQ x s1)|done].
Qed.

(** the session of a pane that is gone is over, a published session is entered *)
Definition sessionOver (s s' : Owner) (p : string) : Prop :=
  forall g, gens s p = Some g -> exists g', gens s' p = Some g' /\ g < g'.
Definition sessionAtLeast (s : Owner) (pg : string * Z) : Prop := exists g, gens s pg.1 = Some g /\ pg.2 <= g.

Lemma sessionOver_rise s s1 s2 p : sessionOver s s1 p -> rise s1 s2 -> sessionOver s s2 p.
Proof.
  intros H R g Hg. destruct (H g Hg) as (g1 & Hg1 & ?). destruct (r_gens _ _ _ R _ _ Hg1) as (g2 & ? & ?).
  exists g2. split; [done|lia].
Qed.

Lemma sessionAtLeast_rise pg s s' : rise s s' -> sessionAtLeast s pg -> sessionAtLeast s' pg.
Proof.
  intros R (g & Hg & Hle). destruct (r_gens _ _ _ R _ _ Hg) as (g' & Hg' & ?). exists g'. split; [done|lia].
Qed.

Lemma applyTopology_ok U now s active known generations :
  Inv U [] s ->
  exists s', applyTopology capacity now s active known generations = Some s' /\ Inv U [] s' /\
    adv now [] [] s s' /\ settled s' /\ Forall (fun p => p ∉ active -> sessionOver s s' p) known /\
    Forall (sessionAtLeast s') generations.
Proof.
  intros H. unfold applyTopology.
  destruct (loop_ok U (paneGone active) (fun p t => p ∉ active -> sessionOver s t p) known s s)
    as (s1 & -> & I1 & R1 & F1); try done.
  { intros t p Ht Rt. destruct (paneGone_ok U active t p Ht) as (t' & ? & ? & ? & G). exists t'. split_and!; try done.
    intros Hp g Hg. destruct (r_gens _ _ _ Rt _ _ Hg) as (g1 & Hg1 & ?). exists (g1 + 1). split; [by apply G|lia]. }
  { intros p t t' R Hp Hn. eapply sessionOver_rise; [by apply Hp|done]. }
  { apply rise_refl. }
  cbn [mbind option_bind].
  destruct (loop_ok U paneGeneration (fun pg t => sessionAtLeast t pg) generations s s1)
    as (s2 & -> & I2 & R2 & F2); try done.
  { intros t pg Ht _. by apply paneGeneration_ok. }
  { intros pg t t' R. by apply sessionAtLeast_rise. }
  cbn [mbind option_bind]. set (s3 := emit TopologyApplied _).
  assert (I3 : Inv U [] s3) by (apply inv_emit; [done|]; same).
  assert (R23 : rise s2 s3).
  { eapply rise_trans; [|by apply quiet_rise, quiet_emit]. by apply quiet_rise, quiet_same. }
  assert (R3 : rise s s3) by (eapply rise_trans; [exact R1|]; by eapply rise_trans).
  destruct (dispatch_ok U now s3 I3) as (s4 & -> & I4 & E4 & Hset). exists s4. split_and!; try done.
  - by eapply rise_ext_adv.
  - eapply Forall_impl; [exact F1|]. intros p Hp Hn g Hg. rewrite (e_gens _ _ _ E4).
    apply (sessionOver_rise s s1 s3 p (Hp Hn)); [by eapply rise_trans|done].
  - eapply Forall_impl; [exact F2|]. intros pg Hpg. unfold sessionAtLeast. rewrite (e_gens _ _ _ E4).
    by apply (sessionAtLeast_rise pg s2).
Qed.

End Steps.

Arguments saturated : clear implicits.
Arguments settled : clear implicits.

End SchedulerInv.
