(* ===== verification/SchedulerSteps.v ===== *)
(** * The cases of the scheduler's loop

    Each case of the [select] in [run], from one iteration to the next: it does
    not panic, its loops end, it keeps the invariant of [SchedulerInv], it leaves
    the scheduler settled, and the workers it starts are admissible ([adv]). *)
From stdpp Require Import sorting.
From S2P Require Import Prelude DeadlineHeap Scheduler SchedulerInv.
Import DeadlineHeap Scheduler SchedulerInv.

Module SchedulerSteps.

Section Steps.
Context (capacity : Z).
Abbreviation Inv := (inv capacity).
Abbreviation rise := (risen []).
Abbreviation settled := (SchedulerInv.settled capacity).

(** *** Completions *)

(** no entry of the ledger names the operation *)
Definition unnamed (s : Owner) (id : Z) : Prop :=
  forall key e, ledger s !! key = Some e -> le_operation e <> Some id.

Lemma named_key U X s id op key e :
  Inv U X s -> ops s !! id = Some op -> ledger s !! key = Some e -> le_operation e = Some id ->
  key = LedgerKey (options op) /\ key <> "".
Proof.
  intros [A _] Hop He Ho. destruct (a_ledger _ _ _ A key e He) as [K1 K2]. rewrite Ho in K2.
  destruct K2 as (_ & (op' & Ho' & Hk) & _). simplify_eq. done.
Qed.

Lemma recordResult_ok U X s id op r :
  Inv U X s -> ops s !! id = Some op ->
  let s' := recordResult s (LedgerKey (options op)) r in
  Inv U X s' /\ quiet s s' /\ unnamed s' id /\ deadlines s' = deadlines s.
Proof.
  intros H Hop. cbv zeta. unfold recordResult. set (k := LedgerKey (options op)).
  assert (Hun : forall key e, ledger s !! key = Some e -> key <> k \/ k = "" -> le_operation e <> Some id).
  { intros key e He Hk Ho. destruct (named_key U X s id op key e H Hop He Ho). unfold k in *.
    destruct Hk; congruence. }
  assert (Hdel : Inv U X (set_ledger (delete k (ledger s)) s) /\ quiet s (set_ledger (delete k (ledger s)) s) /\
    unnamed (set_ledger (delete k (ledger s)) s) id /\ deadlines s = deadlines s).
  { split_and!; try done; [by apply inv_ledger_delete|by apply quiet_same|].
    intros key e He. cbn in He. apply lookup_delete_Some in He as [Hne He]. apply (Hun key e He).
    left. congruence. }
  destruct (String.eqb_spec k "") as [Hk|Hk].
  { split_and!; try done; [by apply quiet_same|]. intros key e He. apply (Hun key e He). by right. }
  destruct (ledger s !! k) as [en|] eqn:Een.
  2: { split_and!; try done; [by apply quiet_same|]. intros key e He. apply (Hun key e He). left. congruence. }
  destruct r as [r|]; [|exact Hdel]. case_if; [exact Hdel|]. split_and!; try done.
  - destruct H as [[A1 A2 A3 A4 A5] [P1 P2 P3 P4 P5 P6 P7 P8]]. split; split; try done.
    intros key e He. cbn in He. apply lookup_insert_Some in He as [[<- <-]|[_ He]]; [|exact (A5 key e He)].
    split; [done|]. by eexists.
  - by apply quiet_same.
  - intros key e He. cbn in He. apply lookup_insert_Some in He as [[<- <-]|[Hne He]]; [done|].
    apply (Hun key e He). left. congruence.
Qed.

Lemma inv_landRelay U s id :
  Inv U [] s -> id ∈ relayInFlight s ->
  let s' := set_relayInFlight (relayInFlight s ∖ {[id]}) s in Inv U [id] (set_inUse (inUse s' - 1) s').
Proof.
  intros [A [P1 P2 P3 P4 P5 P6 P7 P8]] Hid. cbv zeta.
  assert (Hel : elements (relayInFlight s) ≡ₚ id :: elements (relayInFlight s ∖ {[id]})).
  { rewrite (union_difference_L {[id]} (relayInFlight s)) at 1 by set_solver.
    rewrite elements_union_singleton by set_solver. done. }
  split.
  - eapply acct_same; [exact A| |done..]. unfold live. cbn. rewrite Hel. solve_Permutation.
  - split; try done; cbn.
    + intros i o Hi Ho. apply (P1 i); [|done]. rewrite Hel. set_solver.
    + rewrite P3, !length_app, (Permutation_length Hel). cbn. lia.
    + lia.
Qed.

(** the slot of a worker that reported *)
Lemma inv_landPane U s p sl f sl' :
  Inv U [] s -> slots s !! p = Some sl -> InFlight sl = Some f -> Queue sl' = Queue sl ->
  InFlight sl' = None ->
  Inv U [if_OperationID f] (set_inUse (inUse s - 1) (putSlot p sl' s)).
Proof.
  intros [A [P1 P2 P3 P4 P5 P6 P7 P8]] Hp Hf Hq Hf'.
  assert (Hfl : flight sl = [if_OperationID f] /\ flight sl' = []) by (unfold flight; by rewrite Hf, Hf').
  destruct Hfl as [Hfl Hfl']. split.
  - eapply acct_same; [exact A| |done..].
    change (live (set_inUse (inUse s - 1) (putSlot p sl' s))) with (live (putSlot p sl' s)).
    apply (live_slot s p sl); [done|]. unfold slotIds. rewrite Hfl, Hfl', Hq. solve_Permutation.
  - split; try done; cbn.
    + intros q sl2 i o Hsl Hi Ho. apply lookup_insert_Some in Hsl as [[<- <-]|[_ Hsl]];
        [|by apply (P2 q sl2 i o)]. apply (P2 p sl i o Hp); [|done].
      unfold slotIds in *. rewrite Hq, Hfl' in Hi. set_solver.
    + rewrite P3, !length_app, (Permutation_length (gather_insert flight (slots s) p sl')),
        (Permutation_length (gather_lookup flight (slots s) p sl Hp)), !length_app, Hfl, Hfl'. cbn. lia.
    + lia.
    + intros Hs i Hi. apply P7; [done|]. apply (queued_slot s p sl sl' i Hp); [by rewrite Hq|done].
    + split; [apply P8|]. intros q sl2 Hsl.
      apply lookup_insert_Some in Hsl as [[<- <-]|[_ Hsl]]; [rewrite Hq; exact (proj2 P8 p sl Hp)|by eapply P8].
Qed.

(** an empty slot can be dropped *)
Lemma inv_dropSlot U X s p sl :
  Inv U X (putSlot p sl s) -> Queue sl = [] -> InFlight sl = None ->
  Inv U X (set_slots (delete p (slots s)) s).
Proof.
  intros [A [P1 P2 P3 P4 P5 P6 P7 P8]] Hq Hf. assert (Hids : slotIds sl = []) by (unfold slotIds, flight; by rewrite Hq, Hf).
  assert (Hfl : flight sl = []) by (unfold flight; by rewrite Hf). split.
  - eapply acct_same; [exact A| |done..]. unfold live, putSlot. cbn. by rewrite gather_insert, Hids.
  - split; try done; cbn in *.
    + intros q sl2 i o [Hne Hsl]%lookup_delete_Some. apply (P2 q sl2). by rewrite lookup_insert_ne.
    + rewrite P3, !length_app, (Permutation_length (gather_insert flight (slots s) p sl)), Hfl. done.
    + intros Hs i Hi. apply P7; [done|]. unfold queued in *. cbn in *. by rewrite gather_insert, Hq.
    + split; [apply P8|]. intros q sl2 [Hne Hsl]%lookup_delete_Some. apply (proj2 P8 q). by rewrite lookup_insert_ne.
Qed.

Lemma releaseSlot_ok U s current op p sl f result :
  Inv U [] s -> PaneID (options op) = p -> slots s !! p = Some sl -> InFlight sl = Some f ->
  let (s', stale) := releaseSlot current s op sl f result in
  Inv U [if_OperationID f] (set_inUse (inUse s' - 1) s') /\ ops s' = ops s /\ trace s' = trace s /\
  stopping s' = stopping s /\ flying s' ++ [if_OperationID f] ≡ₚ flying s /\
  (forall q g g', gens s q = Some g -> gens s' q = Some g' -> g <= g') /\ queued s' ⊆ queued s.
Proof.
  intros H Hpane Hp Hf. unfold releaseSlot. rewrite Hpane. set (stale := negb _ || negb _).
  set (bump := BumpGeneration result && negb stale).
  set (sl1 := if bump then set_Generation (Generation sl + 1) sl else sl).
  assert (Hsl1 : Queue sl1 = Queue sl /\ Generation sl <= Generation sl1).
  { unfold sl1. destruct bump; cbn; (split; [done|lia]). }
  destruct Hsl1 as [Hq1 Hg1].
  set (s1 := if bump then dropOlder _ p (Generation sl1) s else s).
  assert (H1 : Inv U [] s1 /\ quiet s s1).
  { unfold s1. destruct bump; [by apply dropOlder_ok|]. split; [done|by apply quiet_same]. }
  destruct H1 as [I1 Q1]. assert (Tr : trace s1 = trace s) by (unfold s1; by destruct bump).
  clearbody s1. set (sl2 := set_InFlight None sl1).
  assert (Hp1 : slots s1 !! p = Some sl) by (by rewrite (q_slots _ _ Q1)).
  pose proof (inv_landPane U s1 p sl f sl2 I1 Hp1 Hf Hq1 eq_refl) as I2.
  assert (Hfl : gather flight (delete p (slots s)) ++ [if_OperationID f] ≡ₚ gather flight (slots s)).
  { rewrite (gather_lookup _ _ _ _ Hp), Permutation_app_comm. unfold flight at 2. by rewrite Hf. }
  destruct (bool_decide (Queue sl2 = []) && bump && _) eqn:Eb.
  - apply andb_true_iff in Eb as [[Eq _]%andb_true_iff _]. apply bool_decide_eq_true in Eq.
    split_and!; try (cbn; apply Q1 || done).
    + exact (inv_dropSlot U [if_OperationID f] (set_inUse (inUse s1 - 1) s1) p sl2 I2 Eq eq_refl).
    + unfold flying. cbn. by rewrite (q_slots _ _ Q1), (q_relayInFlight _ _ Q1), <- app_assoc, Hfl.
    + intros q g g'. unfold gens. cbn. rewrite (q_slots _ _ Q1). destruct (decide (p = q)) as [<-|Hne];
        [by rewrite lookup_delete_eq|rewrite lookup_delete_ne by done]. intros. simplify_eq. lia.
    + unfold queued. cbn. rewrite (q_slots _ _ Q1), (q_relayQueue _ _ Q1). intros i.
      rewrite (gather_lookup _ _ _ _ Hp). set_solver.
  - split_and!; try (cbn; apply Q1 || done).
    { unfold flying. cbn. rewrite (q_slots _ _ Q1), (q_relayInFlight _ _ Q1), <- app_assoc, gather_insert.
      change (flight sl2) with (@nil Z). cbn. by rewrite Hfl. }
    2: { unfold queued. cbn. rewrite (q_slots _ _ Q1), (q_relayQueue _ _ Q1). intros i.
         rewrite (gather_lookup _ _ _ _ Hp), gather_insert. cbn. by rewrite Hq1. }
    intros q g g'. unfold gens. cbn. rewrite (q_slots _ _ Q1). destruct (decide (p = q)) as [<-|Hne].
    + rewrite lookup_insert_eq, Hp. cbn. intros [= <-] [= <-]. done.
    + rewrite lookup_insert_ne by done. intros. simplify_eq. lia.
Qed.

Lemma finish_ok U now s id op result :
  Inv U [id] (set_inUse (inUse s - 1) s) -> ops s !! id = Some op ->
  exists s', finish capacity now s id op result = Some s' /\ Inv U [] s' /\ ext now s s' /\ settled s'.
Proof.
  intros H Hop. unfold finish. set (s1 := set_inUse (inUse s - 1) s) in *.
  destruct (dropDeadline_hand _ _ _ id H ltac:(by left)) as (d & -> & H2 & _). cbn [mbind option_bind].
  destruct (recordResult_ok U [id] (set_deadlines d s1) id op (Result result) H2 Hop) as (I3 & Q3 & Hun & _).
  set (s3 := recordResult _ _ _) in *. clearbody s3. set (s4 := setOwnerMetrics _).
  assert (I4 : Inv U [id] s4) by (apply inv_setOwnerMetrics, inv_metric, inv_metric, I3).
  assert (Hop4 : ops s4 !! id = Some op) by (cbn; by rewrite (q_ops _ _ Q3)).
  assert (I5 : Inv U [] (reply s4 op (Result result) None)) by (apply (inv_answer U [] s4 id); [done|done|intros _; exact Hun]).
  destruct (dispatch_ok U now _ I5) as (s6 & -> & I6 & E6 & Hset). exists s6. split_and!; try done.
  eapply ext_trans; [|exact E6]. eapply ext_trans; [|apply ext_reply].
  destruct Q3 as [B1 B2 B3 B4 _ B6 (new & B7 & B8)]. split.
  - exists new. split; [exact B7|]. split; [eapply Forall_impl; [exact B8|]; intros e; apply noStart_ok|].
    rewrite (noStart_started new B8), app_nil_r. split_and!; [|constructor|by intros i ?%elem_of_nil].
    unfold flying. cbn. by rewrite B1, B4.
  - intros p. unfold gens. cbn. by rewrite B1.
  - exact B6.
  - cbn. by rewrite B2.
  - unfold queued. cbn. by rewrite B1, B3.
Qed.

Lemma finishStale_ok U now s id op :
  Inv U [id] (set_inUse (inUse s - 1) s) -> ops s !! id = Some op ->
  exists s', finishStale capacity now s id op = Some s' /\ Inv U [] s' /\ ext now s s' /\ settled s'.
Proof.
  intros H Hop. unfold finishStale. set (s1 := set_inUse (inUse s - 1) s) in *.
  destruct (dropDeadline_hand _ _ _ id H ltac:(by left)) as (d & -> & H2 & _). cbn [mbind option_bind].
  set (s4 := setOwnerMetrics _).
  assert (I4 : Inv U [id] s4) by (by apply inv_setOwnerMetrics, inv_metric).
  pose proof (inv_replyStale U [] s4 id op I4 Hop) as I5.
  destruct (dispatch_ok U now _ I5) as (s6 & -> & I6 & E6 & Hset). exists s6. split_and!; try done.
  eapply ext_trans; [|exact E6]. eapply ext_trans; [|apply ext_replyStale]. by apply ext_refl.
Qed.

(** a command that flies is where its options say *)
Lemma flying_place U X s id op :
  Inv U X s -> ops s !! id = Some op -> id ∈ flying s ->
  if RelayLevel (options op) then id ∈ relayInFlight s
  else exists sl f, slots s !! PaneID (options op) = Some sl /\ InFlight sl = Some f /\ if_OperationID f = id.
Proof.
  intros [_ P] Hop [Hq|Hq]%elem_of_app.
  - rewrite (p_relay _ _ P id op); [by apply elem_of_elements|apply elem_of_app; by right|done].
  - apply elem_of_gather in Hq as (p & sl & Hp & Hq).
    destruct (p_pane _ _ P p sl id op Hp) as [-> ->]; [apply elem_of_app; by right|done|].
    exists sl. unfold flight in Hq. destruct (InFlight sl) as [f|]; [|by apply elem_of_nil in Hq].
    apply list_elem_of_singleton in Hq. by exists f.
Qed.

Lemma complete_ok U current depth now s id result :
  Inv U [] s -> id ∈ flying s ->
  exists s', completeAndRedispatch capacity current depth now s id result = Some s' /\
    Inv U [] s' /\ adv now [id] [] s s' /\ settled s'.
Proof.
  intros H0 Hfly. unfold completeAndRedispatch. set (s1 := metric (observeCompletion depth) s).
  assert (H : Inv U [] s1) by (by apply inv_metric).
  assert (Hop : is_Some (ops s !! id)).
  { apply (a_live _ _ _ (i_acct _ _ _ _ H0)). rewrite app_nil_r. unfold live, flying in *.
    rewrite !elem_of_app in *. destruct Hfly as [?|(p & sl & ? & ?)%elem_of_gather]; [by auto|].
    right. right. apply elem_of_gather. exists p, sl. split; [done|]. apply elem_of_app. by right. }
  destruct Hop as [op Hop]. pose proof (flying_place U [] s id op H0 Hop Hfly) as Hplace.
  change (ops s1) with (ops s). rewrite Hop. cbn [mbind option_bind].
  assert (Hadv : forall s2 s', trace s2 = trace s -> stopping s2 = stopping s -> flying s2 ++ [id] ≡ₚ flying s ->
    (forall q g g', gens s q = Some g -> gens s2 q = Some g' -> g <= g') -> ops s2 = ops s -> queued s2 ⊆ queued s ->
    ext now s2 s' -> adv now [id] [] s s').
  { intros s2 s' T2 S2 F2 G2 O2 Q2 E. pose proof E as [(new & Tn & Fn & Ln & Nn & Mn) Gn Sn Dn Qn]. split.
    - exists new. split; [congruence|]. split; [eapply Forall_impl; [exact Fn|]; intros e; by apply startOk_ext|].
      split_and!; [rewrite Ln, <- F2; solve_Permutation|done|]. intros i Hi. destruct (Mn i Hi). auto.
    - intros q g g' Hg Hg'. rewrite Gn in Hg'. by apply (G2 q).
    - by rewrite Sn, S2.
    - rewrite Sn, S2. by left.
    - by rewrite Dn, O2.
    - by etrans. }
  destruct (RelayLevel (options op)) eqn:Hrel.
  - rewrite bool_decide_true by done. pose proof (inv_landRelay U s1 id H Hplace) as I2.
    destruct (finish_ok U now _ id op result I2 Hop) as (s' & -> & I' & E' & Hset). exists s'.
    split_and!; try done. eapply (Hadv _ s'); [..|exact E']; try done.
    + unfold flying. cbn. rewrite (union_difference_L {[id]} (relayInFlight s)) at 2 by set_solver.
      rewrite elements_union_singleton by set_solver. solve_Permutation.
    + intros q g g'. unfold gens. cbn. intros. simplify_eq. lia.
  - destruct Hplace as (sl & f & Hp & Hf & Hid). change (slots s1) with (slots s). rewrite Hp, Hf.
    rewrite (proj2 (Z.eqb_eq _ _) Hid). cbn [negb].
    pose proof (releaseSlot_ok U s1 current op _ sl f result H eq_refl Hp Hf) as Hrelease.
    destruct (releaseSlot current s1 op sl f result) as [s2 stale]. rewrite Hid in Hrelease.
    destruct Hrelease as (I2 & O2 & T2 & S2 & F2 & G2 & Q2).
    assert (Hop2 : ops s2 !! id = Some op) by (by rewrite O2).
    destruct stale.
    + destruct (finishStale_ok U now s2 id op I2 Hop2) as (s' & -> & I' & E' & Hset). exists s'.
      split_and!; try done. by apply (Hadv s2).
    + destruct (finish_ok U now s2 id op result I2 Hop2) as (s' & -> & I' & E' & Hset). exists s'.
      split_and!; try done. by apply (Hadv s2).
Qed.

(** *** Admission *)

(** the request of a new operation is read from the channel *)
Lemma inv_addOp U s op :
  Inv U [] s -> ops s !! operation op = None -> Inv U [] (set_ops (<[operation op := op]> (ops s)) s).
Proof.
  intros [A P] Hnew. rewrite app_nil_r in A. destruct A as [A1 A2 A3 A4 A5]. destruct P as [P1 P2 P3 P4 P5 P6 P7 P8].
  set (id := operation op) in *. set (s' := set_ops _ s).
  assert (Hlive : forall i, i ∈ live s -> ops s' !! i = ops s !! i).
  { intros i Hi. cbn. rewrite lookup_insert_ne; [done|]. intros <-. destruct (A4 id Hi) as [? Hs]. congruence. }
  assert (Hkeep : forall i o, ops s !! i = Some o -> ops s' !! i = Some o).
  { intros i o Hi. cbn. rewrite lookup_insert_ne; [done|congruence]. }
  assert (Hsort : forall q, (forall i, i ∈ q -> i ∈ queued s) -> seqSorted s q -> seqSorted s' q).
  { intros q Hq Hs. induction Hs as [|x q Hs IH Hx]; [constructor|]. constructor.
    - apply IH. intros i Hi. apply Hq. by right.
    - rewrite Forall_forall in Hx |- *. intros y Hy. specialize (Hx y Hy). unfold sequenceOf in *.
      rewrite !Hlive; [done|apply queued_live, Hq; by right|apply queued_live, Hq; by left]. }
  split; [rewrite app_nil_r|]; split; try done.
  - assert (Hch : forall L, (forall i, i ∈ L -> i ∈ live s) -> L ≫= chans s' = L ≫= chans s).
    { intros L HL. induction L as [|x L IH]; [done|]. cbn. rewrite IH by (intros i Hi; apply HL; by right).
      f_equal. unfold chans. rewrite Hlive; [done|]. apply HL. by left. }
    change (live s') with (live s). by rewrite Hch.
  - intros i o Hi. cbn in Hi. apply lookup_insert_Some in Hi as [[<- <-]|[_ Hi]]; [done|by apply A3].
  - intros i Hi. rewrite (Hlive i Hi). by apply A4.
  - intros key e He. destruct (A5 key e He) as [K1 K2]. split; [done|]. destruct (le_operation e) as [o|]; [|done].
    destruct K2 as (? & (oo & Hoo & ?) & ?). split_and!; try done. exists oo. split; [by apply Hkeep|done].
  - intros i o Hi Ho. rewrite Hlive in Ho; [by apply (P1 i)|]. unfold live. set_solver.
  - intros p sl i o Hp Hi Ho. rewrite Hlive in Ho; [by apply (P2 p sl i)|]. unfold live.
    rewrite !elem_of_app, elem_of_gather. right. right. by exists p, sl.
  - intros it Hit. destruct (P6 it Hit) as (o & Ho & Hd). exists o. split; [by apply Hkeep|done].
  - split; [apply Hsort, P8; intros i Hi; apply elem_of_app; by left|]. intros p sl Hp.
    apply Hsort; [|by eapply P8]. intros i Hi. apply elem_of_app. right. apply elem_of_gather. by exists p, sl.
Qed.

(** the owner takes a new operation in its hand *)
Lemma inv_receive U s id :
  Inv U [] s -> is_Some (ops s !! id) -> id ∉ live s -> Inv (chans s id ++ U) [id] s.
Proof.
  intros [A P] Hop Hnl. split; [|done]. rewrite app_nil_r in A. destruct A as [A1 A2 A3 A4 A5].
  assert (HL : live s ++ [id] ≡ₚ id :: live s) by (by rewrite Permutation_app_comm). rewrite HL. split.
  - by constructor.
  - cbn [mbind list_bind]. rewrite <- A2. solve_Permutation.
  - done.
  - intros i [->|Hi]%elem_of_cons; [done|by apply A4].
  - intros key e He. destruct (A5 key e He) as [K1 K2]. split; [done|].
    destruct (le_operation e); [|done]. destruct K2 as (? & ? & Hl). split_and!; try done.
    intros Hs. right. by apply Hl.
Qed.

Lemma oldestEntry_in ledger order :
  oldestEntry ledger order = "" \/ is_Some (ledger !! oldestEntry ledger order).
Proof.
  unfold oldestEntry. set (f := fun acc key => _).
  assert (H : forall acc, acc.1 = "" \/ is_Some (ledger !! acc.1) ->
    (foldl f acc order).1 = "" \/ is_Some (ledger !! (foldl f acc order).1)).
  { induction order as [|key order IH]; intros acc Hacc; [done|]. cbn. apply IH. unfold f.
    destruct (ledger !! key) eqn:E; [|done]. repeat case_if; try done. right. cbn. rewrite E. by eexists. }
  apply H. by left.
Qed.

Lemma evict_ok U X fuel order s :
  Inv U X s -> (size (ledger s) < fuel)%nat ->
  exists m, evict fuel order s = Some (set_ledger m s) /\ m ⊆ ledger s.
Proof.
  revert s. induction fuel as [|fuel IH]; intros s H Hf; [lia|]. cbn [evict].
  assert (Hs : set_ledger (ledger s) s = s) by (by destruct s).
  case_if; [exists (ledger s); by rewrite Hs|].
  case_if; [exists (ledger s); by rewrite Hs|].
  destruct (oldestEntry_in (ledger s) (order fuel)) as [Ho|Ho]; [by rewrite Ho in *|].
  set (k := oldestEntry _ _) in *.
  destruct (IH (set_ledger (delete k (ledger s)) s)) as (m & -> & Hm).
  - by apply inv_ledger_delete.
  - cbn. rewrite map_size_delete_Some by done. assert (size (ledger s) <> 0%nat); [|lia].
    destruct Ho as [e He]. intros H0. apply map_size_empty_iff in H0. by rewrite H0 in He.
  - exists m. split; [done|]. etrans; [exact Hm|]. apply delete_subseteq.
Qed.

Lemma pruneLedger_ok U X now order s :
  Inv U X s -> exists m, pruneLedger now order s = Some (set_ledger m s) /\ m ⊆ ledger s.
Proof.
  intros H. unfold pruneLedger. set (m0 := filter _ (ledger s)).
  assert (H0 : m0 ⊆ ledger s) by apply map_filter_subseteq.
  pose proof (inv_ledger_sub _ _ _ _ H H0) as H1.
  destruct (evict_ok U X (S (size m0)) order (set_ledger m0 s) H1) as (m & Hm & Hsub); [cbn; lia|].
  exists m. split; [exact Hm|]. cbn in Hsub. by etrans.
Qed.

(** an entry is replaced by one for the same operation and with the same result *)
Lemma inv_ledger_update U X s key e e' :
  Inv U X s -> ledger s !! key = Some e -> le_operation e' = le_operation e ->
  le_result e' = le_result e -> Inv U X (set_ledger (<[key := e']> (ledger s)) s).
Proof.
  intros [[A1 A2 A3 A4 A5] [P1 P2 P3 P4 P5 P6 P7 P8]] He Ho Hr. split; split; try done.
  intros k en Hen. cbn in Hen. apply lookup_insert_Some in Hen as [[<- <-]|[_ Hen]]; [|exact (A5 k en Hen)].
  unfold entryOk. rewrite Ho, Hr. exact (A5 key e He).
Qed.

(** a new entry names the operation in hand *)
Lemma inv_ledger_new U X s id op key h g p t :
  Inv U X s -> id ∈ X -> ops s !! id = Some op -> LedgerKey (options op) = key -> key <> "" ->
  Inv U X (set_ledger (<[key := mkEntry h (Some id) None g p t]> (ledger s)) s).
Proof.
  intros [[A1 A2 A3 A4 A5] [P1 P2 P3 P4 P5 P6 P7 P8]] HX Hop Hk Hne. split; split; try done.
  intros k en Hen. cbn in Hen. apply lookup_insert_Some in Hen as [[<- <-]|[_ Hen]]; [|exact (A5 k en Hen)].
  split; [done|]. cbn. split_and!; [done|by exists op|]. intros _. apply elem_of_app. by right.
Qed.

(** the waiters of the operation in hand join those of a live one *)
Lemma inv_attach U s id op target tgt :
  Inv U [id] s -> ops s !! id = Some op -> ops s !! target = Some tgt -> target ∈ live s ->
  unnamed s id ->
  Inv U [] (set_ops (<[target := set_waiters (waiters tgt ++
    ((fun w => mkWaiter (response w) true) <$> waiters op)) tgt]> (ops s)) s).
Proof.
  intros H Hop Htgt Hlive Hun. pose proof (hand_not_live _ _ _ id H ltac:(by left)) as Hnl.
  destruct H as [A P]. rewrite hand_perm, app_nil_r in A.
  destruct A as [A1 A2 A3 A4 A5]. set (tgt' := set_waiters _ tgt).
  pose proof (similar_insert (ops s) target tgt tgt' Htgt eq_refl eq_refl eq_refl) as Hsim.
  apply NoDup_cons in A1 as [_ A1].
  split; [|by apply placed_similar]. rewrite app_nil_r. split.
  - done.
  - change (live (set_ops _ s)) with (live s). cbn [trace set_ops]. rewrite <- A2. f_equiv. cbn [mbind list_bind].
    destruct (elem_of_Permutation (live s) target) as [Hp _]. destruct (Hp Hlive) as [L HL].
    rewrite HL in A1 |- *. apply NoDup_cons in A1 as [Hni _]. cbn [mbind list_bind].
    assert (HcL : L ≫= chans (set_ops (<[target := tgt']> (ops s)) s) = L ≫= chans s).
    { clear HL. induction L as [|x L IH]; [done|]. cbn. apply not_elem_of_cons in Hni as [Hx Hni].
      rewrite IH by done. f_equal. unfold chans. cbn. by rewrite lookup_insert_ne by done. }
    rewrite HcL. unfold chans at 1 3 4. cbn. rewrite lookup_insert_eq, Hop, Htgt. cbn.
    rewrite fmap_app, <- list_fmap_compose. cbn. set (W := response <$> waiters tgt).
    change (response ∘ (fun w : scheduleWaiter => mkWaiter (response w) true)) with response. solve_Permutation.
  - intros i o Hi. destruct (similar_back _ _ i o Hsim Hi) as (o' & Ho' & _ & ->). by apply A3.
  - intros i Hi. destruct (A4 i ltac:(by right)) as [o Hio].
    destruct (similar_fwd _ _ i o Hsim Hio) as (o' & Ho' & _). by exists o'.
  - intros key e He. apply entryOk_similar; [done|].
    apply (entryOk_hand id); [exact (A5 key e He)|intros _; by apply (Hun key)].
Qed.

Lemma insertBySequence_perm s q id : insertBySequence s q id ≡ₚ id :: q.
Proof.
  unfold insertBySequence. set (n := search _ _ _ _). rewrite <- (take_drop n q) at 3. by rewrite Permutation_middle.
Qed.

(** binary search finds the boundary of a monotone test *)
Lemma search_ok fuel i j n f :
  (i <= j <= n)%nat -> (j - i < fuel)%nat ->
  (forall a b, (a <= b < n)%nat -> f a = true -> f b = true) ->
  (forall a, (a < i)%nat -> f a = false) -> (forall a, (j <= a < n)%nat -> f a = true) ->
  let k := search fuel i j f in
  (k <= n)%nat /\ (forall a, (a < k)%nat -> f a = false) /\ (forall a, (k <= a < n)%nat -> f a = true).
Proof.
  revert i j. induction fuel as [|fuel IH]; intros i j Hij Hf Hmono Hlo Hhi; [lia|]. cbn [search].
  destruct (Nat.ltb_spec i j) as [Hlt|Hge].
  - assert (Hh : (i <= Nat.div2 (i + j) < j)%nat).
    { rewrite Nat.div2_div. pose proof (Nat.div_mod (i + j) 2 ltac:(lia)).
      pose proof (Nat.mod_upper_bound (i + j) 2 ltac:(lia)). lia. }
    set (h := Nat.div2 (i + j)) in *. destruct (f h) eqn:Eh; cbn [negb].
    + apply IH; try done; try lia. intros a Ha. apply (Hmono h); [lia|done].
    + apply IH; try done; try lia. intros a Ha. destruct (f a) eqn:Ea; [|done].
      rewrite (Hmono a h) in Eh; [done|lia|done].
  - split_and!; [lia|done|]. intros a Ha. apply Hhi. lia.
Qed.

Lemma sorted_le s q i j a b :
  seqSorted s q -> (i <= j)%nat -> q !! i = Some a -> q !! j = Some b -> sequenceOf s a <= sequenceOf s b.
Proof.
  intros Hs. revert i j. induction Hs as [|x q Hs IH Hx]; intros i j Hij Ha Hb; [done|].
  destruct i as [|i], j as [|j]; cbn in *; simplify_eq; try lia.
  - rewrite Forall_forall in Hx. apply Hx. by eapply list_elem_of_lookup_2.
  - apply (IH i j); [lia|done|done].
Qed.

(** a new command goes behind all commands with a number not above its own *)
Lemma insertBySequence_sorted s q id : seqSorted s q -> seqSorted s (insertBySequence s q id).
Proof.
  intros Hs. unfold insertBySequence. set (f := fun i => _).
  destruct (search_ok (S (length q)) 0 (length q) (length q) f) as (Hk & Hlo & Hhi); try lia.
  { intros a b Hab. unfold f. destruct (lookup_lt_is_Some_2 q a ltac:(lia)) as [x Hx].
    destruct (lookup_lt_is_Some_2 q b ltac:(lia)) as [y Hy]. rewrite Hx, Hy. cbn.
    pose proof (sorted_le s q a b x y Hs ltac:(lia) Hx Hy). rewrite !Z.gtb_ltb, !Z.ltb_lt. lia. }
  set (k := search _ _ _ f) in *. clearbody k. unfold seqSorted in *.
  assert (Hd : StronglySorted (fun a b => sequenceOf s a <= sequenceOf s b) (id :: drop k q)).
  { constructor; [by eapply sorted_sublist; [apply sublist_drop|]|]. apply Forall_forall. intros x Hx.
    apply list_elem_of_lookup in Hx as [i Hi]. rewrite lookup_drop in Hi. pose proof (lookup_lt_Some _ _ _ Hi).
    specialize (Hhi (k + i)%nat ltac:(lia)). unfold f in Hhi. rewrite Hi in Hhi. cbn in Hhi. zb. lia. }
  assert (Hall : forall x y, x ∈ take k q -> y ∈ id :: drop k q -> sequenceOf s x <= sequenceOf s y).
  { intros x y Hx Hy. apply list_elem_of_lookup in Hx as [i Hi]. apply lookup_take_Some in Hi as [Hi Hik].
    apply elem_of_cons in Hy as [->|Hy].
    - specialize (Hlo i Hik). unfold f in Hlo. rewrite Hi in Hlo. cbn in Hlo. rewrite Z.gtb_ltb in Hlo. zb. lia.
    - apply list_elem_of_lookup in Hy as [j Hj]. rewrite lookup_drop in Hj.
      by apply (sorted_le s q i (k + j)); [|lia|..]. }
  assert (Ht : StronglySorted (fun a b => sequenceOf s a <= sequenceOf s b) (take k q))
    by (by eapply sorted_sublist; [apply sublist_take|]).
  clear Hs Hlo Hhi Hk. induction Ht as [|x l Hs IH Hx]; [done|]. cbn. constructor.
  - apply IH. intros a b Ha. apply Hall. by right.
  - apply Forall_app. split; [done|]. apply Forall_forall. intros y. apply Hall. by left.
Qed.

Lemma inv_pushHeap U X s id op :
  Inv U X s -> ops s !! id = Some op -> indexOf (deadlines s) !! id = None ->
  let it := mkItem id (Deadline (options op)) in
  Inv U X (set_deadlines (Push (deadlines s) it) s) /\ it ∈ items (Push (deadlines s) it).
Proof.
  intros [A P] Hop Hnew. cbv zeta. set (it := mkItem id _). destruct P as [P1 P2 P3 P4 P5 P6 P7 P8].
  destruct (Push_ok (deadlines s) it P5 Hnew) as [Hw Hperm]. split; [split; [by eapply acct_same|]|].
  - split; try done; cbn.
    + intros o. rewrite Hperm. intros [->|Ho]%elem_of_cons; [by exists op|by apply P6].
    + intros Hs i Hi. specialize (P7 Hs i Hi). rewrite indexed_member in P7 |- * by apply wf_indexed, Hw || apply wf_indexed, P5.
      rewrite Hperm. by right.
  - rewrite Hperm. by left.
Qed.

Lemma inv_pushRelay U s id op q :
  Inv U [id] s -> ops s !! id = Some op -> RelayLevel (options op) = true ->
  is_Some (indexOf (deadlines s) !! id) -> q ≡ₚ id :: relayQueue s -> seqSorted s q ->
  Inv U [] (set_relayQueue q s).
Proof.
  intros [A P] Hop Hrel Hheap Hq Hsort. split.
  - eapply acct_same; [exact A| |done..]. unfold live. cbn. rewrite Hq. solve_Permutation.
  - destruct P as [P1 P2 P3 P4 P5 P6 P7 P8]. split; try done; cbn.
    + intros i o. rewrite Hq. intros [->|Hi]%elem_of_cons Ho; [congruence|by apply (P1 i)].
    + intros Hs i Hi. unfold queued in Hi. cbn in Hi. rewrite Hq in Hi.
      apply elem_of_cons in Hi as [->|Hi]; [done|by apply P7].
    + split; [exact Hsort|apply P8].
Qed.

Lemma inv_pushPane U s id op p sl q :
  Inv U [id] s -> ops s !! id = Some op -> RelayLevel (options op) = false -> PaneID (options op) = p ->
  slots s !! p = Some sl -> is_Some (indexOf (deadlines s) !! id) -> q ≡ₚ id :: Queue sl ->
  seqSorted s q -> Inv U [] (putSlot p (set_Queue q sl) s).
Proof.
  intros [A P] Hop Hrel Hpane Hp Hheap Hq Hsort. split.
  - eapply acct_same; [exact A| |done..]. apply (live_slot s p sl); [done|].
    unfold slotIds. cbn. change (flight (set_Queue q sl)) with (flight sl). rewrite Hq. solve_Permutation.
  - destruct P as [P1 P2 P3 P4 P5 P6 P7 P8]. split; try done; cbn.
    + intros q' sl2 i o Hsl Hi Ho. apply lookup_insert_Some in Hsl as [[<- <-]|[_ Hsl]];
        [|by apply (P2 q' sl2 i o)]. unfold slotIds in Hi. change (flight (set_Queue q sl)) with (flight sl) in Hi.
      cbn [Queue set_Queue] in Hi. rewrite Hq in Hi. cbn in Hi. apply elem_of_cons in Hi as [->|Hi]; [by simplify_eq|]. by apply (P2 p sl i o Hp).
    + rewrite P3, !length_app. do 2 f_equal.
      rewrite (Permutation_length (gather_insert flight (slots s) p (set_Queue q sl))),
        (Permutation_length (gather_lookup flight (slots s) p sl Hp)). done.
    + intros Hs i Hi. unfold queued, putSlot in Hi. cbn in Hi. rewrite gather_insert in Hi. cbn in Hi.
      rewrite Hq in Hi. destruct (decide (i = id)) as [->|Hne]; [done|]. apply P7; [done|].
      unfold queued. rewrite (gather_lookup _ _ _ _ Hp). set_solver.
    + split; [apply P8|]. intros q' sl2 Hsl.
      apply lookup_insert_Some in Hsl as [[<- <-]|[_ Hsl]]; [exact Hsort|by eapply P8].
Qed.

(** the slot of a new command, renewed when the command knows a later session *)
Lemma slotFor_ok U X keep s p g :
  Inv U X s ->
  let sl := default newSlot (slots s !! p) in
  exists s' sl', (if g >? Generation sl then renewSession keep p sl g (putSlot p sl s)
                  else Some (putSlot p sl s)) = Some s' /\
    Inv U X s' /\ rise s s' /\ slots s' !! p = Some sl' /\ ops s' = ops s /\
    (forall it, it ∈ items (deadlines s) -> it_id it ∉ live s -> it ∈ items (deadlines s')).
Proof.
  intros H. cbv zeta. destruct (inv_touchSlot U X s p H) as [H1 R1].
  set (sl := default newSlot (slots s !! p)) in *. set (s1 := putSlot p sl s) in *.
  assert (Hp : slots s1 !! p = Some sl) by (unfold s1; cbn; by rewrite lookup_insert_eq).
  destruct (g >? Generation sl) eqn:E; zb.
  - destruct (renewSession_ok U X keep p sl g s1 H1 Hp) as (s2 & -> & I2 & Q2 & Hkeep).
    exists s2, (mkSlot g [] (InFlight sl)). split_and!; try done.
    + eapply rise_trans; [exact R1|]. eapply rise_trans; [|by apply quiet_rise].
      apply rise_put; [intros sl0 ?; simplify_eq; cbn; lia|by rewrite Hp|apply list_subseteq_nil].
    + rewrite (q_slots _ _ Q2). cbn. by rewrite lookup_insert_eq.
    + by rewrite (q_ops _ _ Q2).
    + intros it Hit Hnl. apply Hkeep; [done|]. intros Hq. apply Hnl. apply queued_live. unfold queued.
      apply elem_of_app. right. apply elem_of_gather. unfold sl in Hq.
      destruct (slots s !! p) as [sl0|] eqn:Hp0; [by exists p, sl0|by apply elem_of_nil in Hq].
  - exists s1, sl. by split_and!.
Qed.

Lemma enqueue_ok U s id op :
  Inv U [id] s -> ops s !! id = Some op -> indexOf (deadlines s) !! id = None ->
  exists s', enqueue s id op = Some s' /\ Inv U [] s' /\ risen [id] s s'.
Proof.
  intros H Hop Hnew. unfold enqueue. destruct (inv_pushHeap U [id] s id op H Hop Hnew) as [H1 Hin].
  set (it := mkItem id _) in *. set (s1 := set_deadlines _ s) in *.
  assert (R1 : risen [id] s s1) by (by apply rise_more, rise_same).
  assert (Hheap : is_Some (indexOf (deadlines s1) !! id)).
  { apply indexed_member; [apply (p_heap _ _ (i_placed _ _ _ _ H1))|]. apply list_elem_of_fmap. by exists it. }
  destruct (RelayLevel (options op)) eqn:Hrel.
  { eexists. split_and!; [done| |by eapply rise_trans; [exact R1|apply rise_same; try done; intros i; unfold queued;
        cbn [relayQueue set_relayQueue slots]; rewrite insertBySequence_perm; set_solver]].
    apply (inv_pushRelay U s1 id op); try done; [apply insertBySequence_perm|].
    apply insertBySequence_sorted, (p_sorted _ _ (i_placed _ _ _ _ H1)). }
  set (p := PaneID (options op)).
  destruct (slotFor_ok U [id] (fun key => String.eqb key (LedgerKey (options op))) s1 p
              (PaneGeneration (options op)) H1) as (s2 & sl & Hs2 & I2 & R2 & Hp2 & O2 & Hkeep).
  cbv zeta in Hs2. rewrite Hs2. cbn [mbind option_bind]. clear Hs2. rewrite Hp2. cbn [mbind option_bind].
  set (s3 := match ledger s2 !! LedgerKey (options op) with Some _ => _ | None => s2 end).
  assert (H3 : Inv U [id] s3 /\ quiet s2 s3 /\ deadlines s3 = deadlines s2).
  { unfold s3. destruct (ledger s2 !! LedgerKey (options op)) as [e|] eqn:He; split_and!; try done;
      [by eapply inv_ledger_update|by apply quiet_same|by apply quiet_same]. }
  destruct H3 as (I3 & Q3 & D3). clearbody s3.
  assert (Hop3 : ops s3 !! id = Some op) by (by rewrite (q_ops _ _ Q3), O2).
  pose proof (inv_updOp U [id] s3 id op (set_generation (Generation sl) op) I3 Hop3 eq_refl eq_refl eq_refl eq_refl) as I4.
  set (s4 := set_ops _ s3) in *.
  assert (Hheap4 : is_Some (indexOf (deadlines s4) !! id)).
  { apply indexed_member; [apply (p_heap _ _ (i_placed _ _ _ _ I4))|]. apply list_elem_of_fmap. exists it.
    split; [done|]. cbn. rewrite D3. apply Hkeep; [done|]. by eapply hand_not_live; [exact H1|left]. }
  eexists. split_and!; [done| |].
  - apply (inv_pushPane U s4 id (set_generation (Generation sl) op) p sl); try done.
    + cbn. by rewrite lookup_insert_eq.
    + cbn. by rewrite (q_slots _ _ Q3).
    + apply insertBySequence_perm.
    + apply insertBySequence_sorted. apply (proj2 (p_sorted _ _ (i_placed _ _ _ _ I4)) p).
      cbn. by rewrite (q_slots _ _ Q3).
  - eapply rise_trans; [exact R1|]. eapply rise_trans; [exact (rise_more _ _ _ R2)|].
    eapply rise_trans; [by apply quiet_rise|]. eapply (rise_trans _ _ s4); [by apply rise_more, rise_same; try done; apply dom_insert_lookup_L|].
    apply rise_put; cbn [slots set_ops s4]; rewrite (q_slots _ _ Q3), Hp2; [by intros sl0 [= <-]|done|].
    intros i. cbn [Queue set_Queue]. by rewrite insertBySequence_perm.
Qed.

Lemma settled_quiet s s' :
  quiet s s' -> deadlines s' = deadlines s -> timer s' = timer s -> settled s -> settled s'.
Proof.
  intros [A1 A2 A3 A4 A5 A6 A7] Hd Ht [S1 S2]. split.
  - unfold saturated, idle in *. by rewrite A1, A3, A5, A6.
  - unfold armed in *. by rewrite Hd, Ht.
Qed.

(** answering the operation in hand without touching the queues *)
Lemma answer_settled U s id op r e f :
  Inv U [id] s -> ops s !! id = Some op -> (stopping s = false -> unnamed s id) ->
  exists s', Some (replyWithReplay s op r e f) = Some s' /\ Inv U [] s' /\ rise s s' /\
    (settled s -> settled s').
Proof.
  intros H Hop Hun. eexists. split; [done|]. split; [by apply (inv_answer U [] s id)|].
  pose proof (quiet_reply s op r e f) as Q. split; [by apply quiet_rise|by apply settled_quiet].
Qed.

Lemma retry_ok U s id op key e :
  Inv U [id] s -> ops s !! id = Some op -> stopping s = false -> unnamed s id ->
  ledger s !! key = Some e ->
  exists s', retry s op e = Some s' /\ Inv U [] s' /\ rise s s' /\ (settled s -> settled s').
Proof.
  intros H Hop Hs Hun He. assert (Hans := fun r er f => answer_settled U s id op r er f H Hop (fun _ => Hun)).
  unfold retry. case_if; [apply Hans|].
  destruct (a_ledger _ _ _ (i_acct _ _ _ _ H) key e He) as [_ K].
  destruct (le_result e) as [r|] eqn:Er; [apply Hans|].
  destruct (le_operation e) as [target|] eqn:Eo; [|by destruct K]. destruct K as (_ & (tgt & Htgt & _) & Hl).
  cbn [mbind option_bind]. rewrite Htgt. cbn [mbind option_bind]. eexists. split; [done|].
  assert (Hlive : target ∈ live s).
  { destruct (proj1 (elem_of_app _ _ _) (Hl Hs)) as [|Hx]; [done|]. apply list_elem_of_singleton in Hx as ->.
    by destruct (Hun key e He). }
  split; [by apply (inv_attach U s id op)|].
  by split; [apply rise_same; try done; by apply dom_insert_lookup_L|].
Qed.

(** an operation that is new to the ledger is entered and queued *)
Lemma admit_ok U now s id op key :
  Inv U [id] s -> ops s !! id = Some op -> LedgerKey (options op) = key ->
  indexOf (deadlines s) !! id = None ->
  exists s', (let? s := enqueue (if String.eqb key "" then s else
        set_ledger (<[key := mkEntry (PayloadHash (options op)) (Some id) None 0
                               (PaneID (options op)) (ReceivedAt (options op))]> (ledger s)) s) id op in
      dispatch capacity now s) = Some s' /\ Inv U [] s' /\ adv now [] [id] s s' /\ settled s'.
Proof.
  intros H Hop Hk Hnew. set (s3 := if String.eqb key "" then s else _).
  assert (H3 : Inv U [id] s3 /\ quiet s s3 /\ deadlines s3 = deadlines s).
  { unfold s3. destruct (String.eqb_spec key ""); split_and!; try done;
      [by apply quiet_same| |by apply quiet_same]. apply (inv_ledger_new U [id] s id op); try done. by left. }
  destruct H3 as (I3 & Q3 & D3). clearbody s3.
  destruct (enqueue_ok U s3 id op I3) as (s4 & -> & I4 & R4).
  { by rewrite (q_ops _ _ Q3). }
  { by rewrite D3. }
  cbn [mbind option_bind]. destruct (dispatch_ok U now s4 I4) as (s5 & -> & I5 & E5 & Hset5).
  exists s5. split_and!; try done. eapply rise_ext_adv; [|exact E5].
  eapply rise_trans; [by apply quiet_rise|exact R4].
Qed.

(** [s1] is the owner that knows the new operation *)
Lemma onIngress_ok U now order s op :
  let s1 := set_ops (<[operation op := op]> (ops s)) s in
  Inv U [] s -> settled s -> ops s !! operation op = None ->
  exists s', onIngress capacity now order s op = Some s' /\ Inv ((response <$> waiters op) ++ U) [] s' /\
    adv now [] (if stopping s then [] else [operation op]) s1 s' /\ settled s'.
Proof.
  intros s1 H0 Hset0 Hnone. unfold onIngress. fold s1. set (id := operation op) in *.
  pose proof (inv_addOp U s op H0 Hnone) as H. fold id s1 in H. assert (Hset : settled s1) by exact Hset0.
  assert (Hop : ops s1 !! id = Some op) by apply lookup_insert_eq.
  assert (Hnl : id ∉ live s1).
  { intros Hl. destruct (a_live _ _ _ (i_acct _ _ _ _ H0) id) as [? ?]; [|congruence]. by rewrite app_nil_r. }
  assert (Hnew : indexOf (deadlines s1) !! id = None).
  { apply eq_None_not_Some. change (deadlines s1) with (deadlines s).
    rewrite indexed_member by apply (p_heap _ _ (i_placed _ _ _ _ H0)). intros (it & Heq & Hit)%list_elem_of_fmap.
    destruct (p_items _ _ (i_placed _ _ _ _ H0) it Hit) as (o & Ho & _). congruence. }
  assert (HU : (response <$> waiters op) = chans s1 id) by (unfold chans; by rewrite Hop). rewrite HU. clear HU.
  change (stopping s) with (stopping s1). clearbody s1. clear H0 Hset0 Hnone s. rename s1 into s.
  pose proof (inv_receive U s id H ltac:(by eexists) Hnl) as H1. set (U' := chans s id ++ U) in *. clearbody U'.
  destruct (pruneLedger_ok U' [id] now order s H1) as (m & -> & Hm). cbn [mbind option_bind].
  pose proof (inv_ledger_sub _ _ _ _ H1 Hm) as H2. set (s2 := set_ledger m s) in *.
  assert (Hset2 : settled s2) by exact Hset.
  assert (Hun : stopping s2 = false -> unnamed s2 id).
  { intros Hs key e He Ho. pose proof (lookup_weaken _ _ _ _ He Hm) as He'.
    destruct (a_ledger _ _ _ (i_acct _ _ _ _ H) key e He') as [_ K]. rewrite Ho in K.
    destruct K as (_ & _ & Hl). apply Hnl. rewrite app_nil_r in Hl. by apply Hl. }
  assert (Hfrom : forall o, (exists s', o = Some s' /\ Inv U' [] s' /\ rise s2 s' /\ (settled s2 -> settled s')) ->
    exists s', o = Some s' /\ Inv U' [] s' /\ adv now [] (if stopping s then [] else [id]) s s' /\ settled s').
  { intros o (s' & -> & I' & R' & S'). exists s'. split_and!; auto.
    apply rise_adv, rise_more. eapply rise_trans; [|exact R']. by apply rise_same. }
  assert (Hans := fun r e f => Hfrom _ (answer_settled U' s2 id op r e f H2 Hop Hun)).
  case_if; [apply Hans|]. case_if; [apply Hans|]. case_if.
  { apply Hfrom. eexists. split; [done|]. split; [by apply (inv_replyStale U' [] s2 id)|].
    split; [apply quiet_rise, quiet_replyStale|]. apply settled_quiet; [apply quiet_replyStale|
      unfold replyStale, forget; by case_if..]. }
  set (key := LedgerKey (options op)).
  destruct (if String.eqb key "" then None else ledger s2 !! key) as [e|] eqn:Ee.
  - apply Hfrom. apply (retry_ok U' s2 id op key); [done|done|done|by apply Hun|by case_if_in Ee].
  - destruct (admit_ok U' now s2 id op key H2 Hop eq_refl Hnew) as (s' & Hs' & I' & A' & S').
    exists s'. split_and!; try done. change (stopping s2) with (stopping s) in *.
    destruct (stopping s); [done|]. destruct A' as [A1 A2 A3 A4 A5 A6]. by split.
Qed.

(** *** The timer *)

Lemma removeOperation_ok q id q' b :
  removeOperation q id = (q', b) ->
  if b : bool then q ≡ₚ id :: q' /\ sublist q' q else q' = q /\ id ∉ q.
Proof.
  revert q' b. induction q as [|x q IH]; intros q' b; cbn [removeOperation].
  { intros [= <- <-]. split; [done|]. by apply not_elem_of_nil. }
  destruct (Z.eqb_spec x id) as [->|Hne]; [intros [= <- <-]; split; [done|by constructor]|].
  destruct (removeOperation q id) as [q1 b1]. specialize (IH q1 b1 eq_refl). intros [= <- <-]. destruct b1.
  - destruct IH as [IH Hsub]. split; [rewrite IH; apply perm_swap|by constructor].
  - destruct IH as [-> Hn]. split; [done|]. apply not_elem_of_cons. by split.
Qed.

Lemma queued_place U X s id op :
  Inv U X s -> ops s !! id = Some op -> id ∈ queued s ->
  if RelayLevel (options op) then id ∈ relayQueue s
  else exists sl, slots s !! PaneID (options op) = Some sl /\ id ∈ Queue sl.
Proof.
  intros [_ P] Hop [Hq|Hq]%elem_of_app.
  - rewrite (p_relay _ _ P id op); [done|apply elem_of_app; by left|done].
  - apply elem_of_gather in Hq as (p & sl & Hp & Hq).
    destruct (p_pane _ _ P p sl id op Hp) as [-> ->]; [apply elem_of_app; by left|done|]. by exists sl.
Qed.

Lemma not_queued U s id p sl :
  Inv U [] s -> slots s !! p = Some sl -> id ∈ flight sl -> id ∉ Queue sl.
Proof.
  intros [A _] Hp Hf Hq. rewrite app_nil_r in A. pose proof (a_nodup _ _ _ A) as Hnd. unfold live in Hnd.
  rewrite (gather_lookup _ _ _ _ Hp), !NoDup_app in Hnd.
  destruct Hnd as (_ & _ & _ & _ & (Hnd & _ & _)). apply NoDup_app in Hnd as (_ & Hd & _). by apply (Hd id).
Qed.

(** an operation is taken out of its queue; when it was not there it is not queued *)
Lemma removeQueued_ok U s id op :
  Inv U [] s -> ops s !! id = Some op ->
  let (s', removed) := removeQueued s id op in
  Inv U (if removed then [id] else []) s' /\ ~ (id ∈ queued s') /\ rise s s' /\
  ops s' = ops s /\ deadlines s' = deadlines s.
Proof.
  intros H Hop. unfold removeQueued. destruct (RelayLevel (options op)) eqn:Hrel.
  - destruct (removeOperation (relayQueue s) id) as [q b] eqn:Er. apply removeOperation_ok in Er.
    assert (I' : Inv U (if b then [id] else []) (set_relayQueue q s)).
    { destruct b; [|destruct Er as [-> _]; by destruct s]. destruct Er as [Er Hsub].
      destruct H as [A [P1 P2 P3 P4 P5 P6 P7 P8]]. split.
      - eapply acct_same; [exact A| |done..]. unfold live. cbn. rewrite Er. solve_Permutation.
      - split; try done; cbn.
        + intros i o Hi. apply P1. rewrite Er. by right.
        + intros Hs i Hi. apply P7; [done|]. unfold queued in *. cbn in Hi. rewrite Er. by right.
        + split; [|apply P8]. eapply sorted_sublist; [exact Hsub|apply P8]. }
    assert (Hqsub : q ⊆ relayQueue s).
    { destruct b; [destruct Er as [Er _]; rewrite Er; set_solver|by destruct Er as [-> _]]. }
    split_and!; try done.
    2: { apply rise_same; try done. intros i. unfold queued. cbn. rewrite !elem_of_app.
         intros [?|?]; [left; by apply Hqsub|by right]. }
    intros Hq. pose proof (queued_place _ _ _ id op I' Hop Hq) as Hq'. rewrite Hrel in Hq'. cbn in Hq'.
    destruct b; [|by destruct Er as [-> Hn]]. eapply hand_not_live; [exact I'|by left|by apply queued_live].
  - destruct (slots s !! PaneID (options op)) as [sl|] eqn:Hp.
    2: { split_and!; try done; [|by apply rise_same]. intros Hq.
         pose proof (queued_place _ _ _ id op H Hop Hq) as Hq'. rewrite Hrel in Hq'.
         destruct Hq' as (sl & Hsl & _). congruence. }
    destruct (from_option _ false (InFlight sl)) eqn:Ef.
    + split_and!; try done; [|by apply rise_same]. intros Hq.
      pose proof (queued_place _ _ _ id op H Hop Hq) as Hq'. rewrite Hrel in Hq'.
      destruct Hq' as (sl' & Hsl' & Hin). assert (sl' = sl) as -> by congruence.
      revert Hin. apply (not_queued U s id _ _ H Hp).
      unfold flight. destruct (InFlight sl) as [f|]; [|done]. cbn in Ef. zb. subst id. by left.
    + destruct (removeOperation (Queue sl) id) as [q b] eqn:Er. apply removeOperation_ok in Er.
      set (p := PaneID (options op)) in *.
      assert (Hqsub : q ⊆ Queue sl).
      { destruct b; [destruct Er as [Er _]; rewrite Er; set_solver|by destruct Er as [-> _]]. }
      assert (I' : Inv U (if b then [id] else []) (putSlot p (set_Queue q sl) s)).
      { destruct b.
        - destruct Er as [Er Hsub]. destruct H as [A P]. split.
          + eapply acct_same; [exact A| |done..]. apply (live_slot s p sl); [done|]. unfold slotIds.
            change (flight (set_Queue q sl)) with (flight sl). cbn [Queue set_Queue]. rewrite Er. solve_Permutation.
          + apply (placed_slot s p sl); try done.
            * intros i. unfold slotIds. change (flight (set_Queue q sl)) with (flight sl). cbn [Queue set_Queue].
              rewrite Er. set_solver.
        - destruct Er as [-> _]. assert (set_Queue (Queue sl) sl = sl) as -> by (by destruct sl).
          unfold putSlot. rewrite insert_id by done. by destruct s. }
      split_and!; try done; [|apply rise_put; [intros sl0 ?; by simplify_eq|by rewrite Hp|rewrite Hp; apply Hqsub]]. intros Hq.
      pose proof (queued_place _ _ _ id op I' Hop Hq) as Hq'. rewrite Hrel in Hq'.
      destruct Hq' as (sl' & Hsl' & Hin). cbn in Hsl'. fold p in Hsl'. rewrite lookup_insert_eq in Hsl'. simplify_eq.
      destruct b; [|by destruct Er as [-> Hn]]. eapply hand_not_live; [exact I'|by left|by apply queued_live].
Qed.

Lemma expireDue_ok U now fuel s :
  Inv U [] s -> (Len (deadlines s) <= fuel)%nat ->
  exists s', expireDue fuel now s = Some s' /\ Inv U [] s' /\ rise s s' /\
    forall it, it ∈ items (deadlines s') -> now < it_deadline it.
Proof.
  revert s. induction fuel as [|fuel IH]; intros s H Hf.
  - cbn [expireDue]. unfold Len in Hf. destruct (items (deadlines s)) eqn:E; [|cbn in Hf; lia].
    exists s. split_and!; try done; [apply rise_refl|]. intros it. rewrite E. by intros ?%elem_of_nil.
  - cbn [expireDue]. destruct (items (deadlines s)) as [|first l] eqn:E.
    { exists s. split_and!; try done; [apply rise_refl|]. intros it. rewrite E. by intros ?%elem_of_nil. }
    pose proof (p_heap _ _ (i_placed _ _ _ _ H)) as Hw.
    destruct (Z.ltb_spec now (it_deadline first)) as [Hlt|Hge].
    { exists s. split_and!; try done; [apply rise_refl|]. intros it Hit.
      pose proof (wf_root (deadlines s) first it Hw ltac:(by rewrite E) Hit). lia. }
    destruct (Pop_ok (deadlines s) Hw ltac:(by rewrite E)) as (h & it & -> & Hw' & Hperm & Hhd & _).
    cbn [mbind option_bind fst snd].
    assert (Hit : it ∈ items (deadlines s)) by (rewrite Hperm; by left).
    destruct (p_items _ _ (i_placed _ _ _ _ H) it Hit) as (op & Hop & _).
    change (ops (set_deadlines h s)) with (ops s). rewrite Hop. cbn [mbind option_bind].
    pose proof (removeQueued_ok U s (it_id it) op H Hop) as Hrm.
    assert (Hcomm : removeQueued (set_deadlines h s) (it_id it) op =
      let (t, b) := removeQueued s (it_id it) op in (set_deadlines h t, b)).
    { unfold removeQueued. cbn [relayQueue slots set_deadlines]. case_if; [by destruct (removeOperation _ _)|].
      destruct (slots s !! _) as [sl|]; [|done]. case_if; [done|]. by destruct (removeOperation _ _). }
    rewrite Hcomm. destruct (removeQueued s (it_id it) op) as [t b]. destruct Hrm as (I1 & Hnq & R1 & O1 & D1).
    assert (I2 : Inv U (if b then [it_id it] else []) (set_deadlines h t)).
    { apply (inv_heap_shrink _ _ t h it); try done. by rewrite D1. }
    set (s3 := if b then expire (set_deadlines h t) op else set_deadlines h t).
    assert (H3 : Inv U [] s3 /\ rise s s3 /\ deadlines s3 = h).
    { unfold s3. destruct b; split_and!; try done.
      - apply (inv_expire U [] _ (it_id it)); [done|cbn; by rewrite O1].
      - eapply rise_trans; [exact R1|]. eapply rise_trans; [|apply quiet_rise, quiet_expire]. by apply rise_same.
      - unfold expire, forget. by case_if.
      - eapply rise_trans; [exact R1|]. by apply rise_same. }
    destruct H3 as (I3 & R3 & D3). destruct (IH s3 I3) as (s4 & -> & I4 & R4 & Hdue).
    + rewrite D3. unfold Len in *. apply Permutation_length in Hperm. rewrite E in Hperm. rewrite E in Hf.
      cbn in Hperm, Hf. lia.
    + exists s4. split_and!; try done. by eapply rise_trans.
Qed.

Lemma onTimer_ok U now s :
  Inv U [] s -> exists s', onTimer capacity now s = Some s' /\ Inv U [] s' /\ adv now [] [] s s' /\ settled s'.
Proof.
  intros H. unfold onTimer.
  destruct (expireDue_ok U now (Len (deadlines s)) (set_timer None s) (inv_timer _ _ _ _ H) (le_n _))
    as (s1 & -> & I1 & R1 & _). cbn [mbind option_bind].
  destruct (dispatch_ok U now s1 I1) as (s2 & -> & I2 & E2 & Hset). exists s2. split_and!; try done.
  eapply rise_ext_adv; [|exact E2]. destruct R1 as [A B C D F Q]. by split.
Qed.

(** *** Shutdown *)

Lemma replyClosed_ok U X Q s :
  Inv U (Q ++ X) s -> stopping s = true ->
  exists s', foldM replyClosed s Q = Some s' /\ Inv U X s' /\ quiet s s' /\ deadlines s' = deadlines s.
Proof.
  revert s. induction Q as [|id Q IH]; intros s H Hs; cbn [foldM].
  { exists s. split_and!; try done. by apply quiet_same. }
  assert (Hop : is_Some (ops s !! id)).
  { apply (a_live _ _ _ (i_acct _ _ _ _ H)). apply elem_of_app. right. by left. }
  destruct Hop as [op Hop].
  assert (Hone : replyClosed s id = Some (reply s op None (Some ErrClosed)))
    by (unfold replyClosed; by rewrite Hop).
  rewrite Hone. cbn [mbind option_bind].
  assert (H1 : Inv U (Q ++ X) (reply s op None (Some ErrClosed))).
  { apply (inv_answer U (Q ++ X) s id); [done|done|]. by rewrite Hs. }
  destruct (IH _ H1 Hs) as (s' & -> & I' & Q' & D'). exists s'. split_and!; try done.
  eapply quiet_trans; [apply quiet_reply|exact Q'].
Qed.

Definition emptied (s : Owner) (p : string) : Prop :=
  forall sl, slots s !! p = Some sl -> Queue sl = [].

Lemma closeSlot_ok U s p :
  Inv U [] s -> stopping s = true -> is_Some (slots s !! p) ->
  exists s', closeSlot s p = Some s' /\ Inv U [] s' /\ rise s s' /\ emptied s' p /\
    (forall q, is_Some (slots s !! q) -> is_Some (slots s' !! q)) /\
    (forall q, emptied s q -> emptied s' q) /\ relayQueue s' = relayQueue s.
Proof.
  intros H Hs [sl Hp]. unfold closeSlot. rewrite Hp. cbn [mbind option_bind].
  set (s1 := match InFlight sl with Some _ => _ | None => s end).
  assert (H1 : Inv U [] s1 /\ quiet s s1).
  { unfold s1. destruct (InFlight sl); [|by split; [|apply quiet_same]].
    split; [by apply inv_emit|by apply quiet_emit]. }
  destruct H1 as (I1 & Q1). clearbody s1.
  assert (Hp1 : slots s1 !! p = Some sl) by (by rewrite (q_slots _ _ Q1)).
  pose proof (inv_takeQueue U [] s1 p sl (Generation sl) I1 Hp1) as I2.
  assert (Hs1 : stopping s1 = true) by (by rewrite (q_stopping _ _ Q1)).
  change (set_Queue [] sl) with (mkSlot (Generation sl) [] (InFlight sl)).
  set (s2 := putSlot p _ s1) in *. destruct (replyClosed_ok U [] (Queue sl) s2 I2 Hs1) as (s' & -> & I' & Q' & _).
  assert (Hsl : slots s' = <[p := mkSlot (Generation sl) [] (InFlight sl)]> (slots s))
    by (rewrite (q_slots _ _ Q'); unfold s2; cbn; by rewrite (q_slots _ _ Q1)).
  exists s'. split_and!; try done.
  - eapply rise_trans; [apply quiet_rise, Q1|]. eapply rise_trans; [|apply quiet_rise, Q'].
    apply rise_put; [intros sl0 ?; by simplify_eq|by rewrite Hp1|apply list_subseteq_nil].
  - intros sl0. rewrite Hsl, lookup_insert_eq. by intros [= <-].
  - intros q. rewrite Hsl, lookup_insert_is_Some'. by right.
  - intros q Hq sl0. rewrite Hsl. intros [[_ <-]|[_ ?]]%lookup_insert_Some; [done|by apply Hq].
  - rewrite (q_relayQueue _ _ Q'). cbn. apply Q1.
Qed.

Lemma closeSlots_ok U ps s :
  Inv U [] s -> stopping s = true -> Forall (fun p => is_Some (slots s !! p)) ps ->
  exists s', foldM closeSlot s ps = Some s' /\ Inv U [] s' /\ rise s s' /\ Forall (emptied s') ps /\
    (forall q, emptied s q -> emptied s' q) /\ relayQueue s' = relayQueue s.
Proof.
  revert s. induction ps as [|p ps IH]; intros s H Hs Hdom; cbn [foldM].
  { exists s. split_and!; try done. apply rise_refl. }
  apply Forall_cons in Hdom as [Hp Hps].
  destruct (closeSlot_ok U s p H Hs Hp) as (s1 & -> & I1 & R1 & E1 & D1 & K1 & L1). cbn [mbind option_bind].
  destruct (IH s1 I1) as (s2 & -> & I2 & R2 & F2 & K2 & L2).
  - by rewrite (r_stopping _ _ _ R1).
  - eapply Forall_impl; [exact Hps|]. apply D1.
  - exists s2. split_and!; try done.
    + by eapply rise_trans.
    + constructor; [by apply K2|done].
    + auto.
    + congruence.
Qed.

Lemma inv_stopping U X s : Inv U X s -> Inv U X (set_stopping true s).
Proof.
  intros [[A1 A2 A3 A4 A5] [P1 P2 P3 P4 P5 P6 P7 P8]]. split; split; try done.
  intros key e He. destruct (A5 key e He) as [K1 K2]. split; [done|].
  destruct (le_operation e); [|done]. by destruct K2 as (? & ? & _).
Qed.

Lemma cancels_ok U l s :
  Inv U [] s -> Inv U [] (foldl (fun s id => emit (Cancel id) s) s l) /\
  quiet s (foldl (fun s id => emit (Cancel id) s) s l) /\
  deadlines (foldl (fun s id => emit (Cancel id) s) s l) = deadlines s.
Proof.
  revert s. induction l as [|id l IH]; intros s H; cbn; [split_and!; try done; by apply quiet_same|].
  destruct (IH (emit (Cancel id) s)) as (I & Q & D); [by apply inv_emit|].
  split_and!; try done. eapply quiet_trans; [|exact Q]. by apply quiet_emit.
Qed.

(** after a shutdown nothing is queued *)
Lemma shutdown_ok U panes relay s :
  Inv U [] s -> panes ≡ₚ elements (dom (slots s)) ->
  exists s', shutdown panes relay s = Some s' /\ Inv U [] s' /\ rise (set_stopping true s) s' /\
    queued s' = [].
Proof.
  intros H Hpanes. unfold shutdown. pose proof (inv_stopping U [] s H) as H1. set (s1 := set_stopping true s) in *.
  assert (Hdom : forall p, p ∈ panes <-> is_Some (slots s1 !! p)).
  { intros p. by rewrite Hpanes, elem_of_elements, elem_of_dom. }
  destruct (closeSlots_ok U panes s1 H1 eq_refl) as (s2 & -> & I2 & R2 & F2 & K2 & L2).
  { apply Forall_forall. intros p. apply Hdom. }
  cbn [mbind option_bind]. destruct (cancels_ok U relay s2 I2) as (I3 & Q3 & D3).
  set (s3 := foldl _ s2 relay) in *. clearbody s3.
  assert (S3 : stopping s3 = true) by (by rewrite (q_stopping _ _ Q3), (r_stopping _ _ _ R2)).
  assert (I4 : Inv U (relayQueue s3 ++ []) (set_relayQueue [] s3)).
  { destruct I3 as [A [P1 P2 P3 P4 P5 P6 P7 P8]]. split.
    - eapply acct_same; [exact A| |done..]. unfold live. cbn. solve_Permutation.
    - split; try done; cbn.
      + intros i o Hi. apply P1. apply elem_of_app. by right.
      + by rewrite S3.
      + split; [constructor|apply P8]. }
  destruct (replyClosed_ok U [] (relayQueue s3) _ I4 S3) as (s4 & -> & I5 & Q5 & _).
  exists s4. split_and!; try done.
  - eapply rise_trans; [exact R2|]. eapply rise_trans; [apply quiet_rise, Q3|].
    eapply rise_trans; [|apply quiet_rise, Q5]. apply rise_same; try done.
    intros i Hi. rewrite app_nil_l. apply elem_of_app. by right.
  - unfold queued. rewrite (q_relayQueue _ _ Q5), (q_slots _ _ Q5). cbn. rewrite (q_slots _ _ Q3).
    destruct (gather Queue (slots s2)) as [|x l] eqn:E; [done|].
    assert (Hx : x ∈ gather Queue (slots s2)) by (rewrite E; by left).
    apply elem_of_gather in Hx as (p & sl & Hp & Hx).
    assert (Hq : emptied s2 p).
    { destruct (decide (p ∈ panes)) as [Hin|Hout]; [by apply (proj1 (Forall_forall _ _) F2)|].
      apply K2. intros sl0 Hsl0. destruct Hout. apply Hdom. by eexists. }
    by rewrite (Hq sl Hp) in Hx; apply elem_of_nil in Hx.
Qed.

Lemma queued_settled s : stopping s = true -> armed s -> settled s.
Proof. intros Hs Ha. split; [by left|done]. Qed.

(** what both ways of stopping guarantee *)
Definition stopped (s : Owner) : Prop := stopping s = true /\ queued s = [].

Lemma stop_adv now s s' : rise (set_stopping true s) s' -> queued s' = [] -> adv now [] [] s s'.
Proof.
  intros [(new & T & F) G S L D Q] Hq. split.
  - exists new. split; [exact T|]. split; [eapply Forall_impl; [exact F|]; intros e; apply noStart_ok|].
    rewrite (noStart_started new F), !app_nil_r. split_and!; [exact L|constructor|by intros i ?%elem_of_nil].
  - intros p g g' Hg Hg'. destruct (G p g Hg) as (g1 & Hg1 & ?). by simplify_eq.
  - done.
  - by right.
  - exact D.
  - exact Q.
Qed.

Lemma onCancelInflight_ok U now panes relay s :
  Inv U [] s -> settled s -> panes ≡ₚ elements (dom (slots s)) ->
  exists s', onCancelInflight panes relay s = Some s' /\ Inv U [] s' /\ adv now [] [] s s' /\ settled s' /\
    stopping s' = true /\ (stopping s = false -> queued s' = []).
Proof.
  intros H Hset Hp. unfold onCancelInflight. destruct (stopping s) eqn:Es.
  { exists s. split_and!; try done. apply rise_adv, rise_refl. }
  destruct (shutdown_ok U panes relay s H Hp) as (s1 & -> & I1 & R1 & Hq). cbn [mbind option_bind].
  rewrite resetTimer_ok by apply (p_heap _ _ (i_placed _ _ _ _ I1)). eexists. split_and!; [done|..].
  - by apply inv_timer.
  - apply stop_adv; [|done]. eapply rise_trans; [exact R1|]. by apply rise_same.
  - apply queued_settled; [apply (r_stopping _ _ _ R1)|done].
  - apply (r_stopping _ _ _ R1).
  - done.
Qed.

Lemma onStop_ok U now panes relay s :
  Inv U [] s -> panes ≡ₚ elements (dom (slots s)) ->
  exists s', onStop panes relay s = Some s' /\ Inv U [] s' /\ adv now [] [] s s' /\ settled s' /\
    stopping s' = true /\ (stopping s = false \/ queued s = [] -> queued s' = []).
Proof.
  intros H Hp. unfold onStop. assert (H0 : Inv U [] (set_stopAck true s)) by same.
  change (stopping (set_stopAck true s)) with (stopping s). destruct (stopping s) eqn:Es; cbn [mbind option_bind].
  - rewrite resetTimer_ok by apply (p_heap _ _ (i_placed _ _ _ _ H)). eexists. split_and!; [done|..].
    + by apply inv_timer.
    + by apply rise_adv, rise_same.
    + by apply queued_settled.
    + done.
    + by intros [?|?].
  - destruct (shutdown_ok U panes relay (set_stopAck true s) H0 Hp) as (s1 & -> & I1 & R1 & Hq).
    cbn [mbind option_bind]. rewrite resetTimer_ok by apply (p_heap _ _ (i_placed _ _ _ _ I1)).
    eexists. split_and!; [done|..].
    + by apply inv_timer.
    + apply stop_adv; [|done]. eapply (rise_trans _ _ (set_stopping true (set_stopAck true s))); [by apply rise_same|].
      eapply rise_trans; [exact R1|]. by apply rise_same.
    + apply queued_settled; [apply (r_stopping _ _ _ R1)|done].
    + apply (r_stopping _ _ _ R1).
    + done.
Qed.

(** *** Ledger updates *)

Lemma onLedgerUpdate_ok U now s key g r :
  Inv U [] s -> settled s ->
  let s' := (onLedgerUpdate s key g r).1 in Inv U [] s' /\ adv now [] [] s s' /\ settled s'.
Proof.
  intros H Hset. cbv zeta. unfold onLedgerUpdate.
  assert (Hid : Inv U [] s /\ adv now [] [] s s /\ settled s) by (split_and!; try done; apply rise_adv, rise_refl).
  destruct (ledger s !! key) as [e|] eqn:He; [|done]. destruct r as [r|]; [|done]. case_if; [|done].
  apply andb_true_iff in E as [_ Hr]. apply bool_decide_eq_true in Hr. cbn [fst].
  split_and!; [|by apply rise_adv, rise_same|exact Hset].
  destruct H as [[A1 A2 A3 A4 A5] [P1 P2 P3 P4 P5 P6 P7 P8]]. split; split; try done.
  intros k en Hen. cbn in Hen. apply lookup_insert_Some in Hen as [[<- <-]|[_ Hen]]; [|exact (A5 k en Hen)].
  destruct (A5 key e He) as [K1 K2]. split; [done|]. cbn. destruct (le_operation e); [|by eexists].
  destruct K2 as [K2 _]. rewrite K2 in Hr. by destruct Hr.
Qed.

End Steps.
End SchedulerSteps.
