(* ===== verification/SchedulerSafety.v ===== *)
(** * Runs of the scheduler and what they guarantee

    The owner of [Scheduler] in its world: the callers of [ExecuteAdmitted], the
    bounded channel of requests, the workers that run commands and report, and
    [Close].  [handle] is one event; the owner takes any case of its [select] that
    is ready, which covers every schedule (the code prefers some cases, so it has
    fewer runs).  [enabled] says when an event can happen. *)
From S2P Require Import Prelude DeadlineHeap Scheduler SchedulerInv SchedulerSteps.
Import DeadlineHeap Scheduler SchedulerInv SchedulerSteps.

Module SchedulerSafety.

(** ** The world *)

(** [running] are the workers that have not reported, [completions] the reports
    that wait for the owner, [exited] tells that [done] is closed *)
Record World := mkWorld {
  own : Owner;
  ingress : list scheduledOperation;
  running : list Z;
  completions : list (Z * EffectResult);
  closed : bool;
  exited : bool;
  commandSequence : Z;
  operationSeq : Z
}.

Definition set_own (o : Owner) (w : World) : World :=
  mkWorld o (ingress w) (running w) (completions w) (closed w) (exited w) (commandSequence w) (operationSeq w).

Definition schedulerCapacity (capacity : Z) : Z := if capacity <=? 0 then defaultHerdrCapacity else capacity.

Definition NewScheduler : World := mkWorld newOwner [] [] [] false false 0 0.

(** the options as they are admitted: receipt time, command number, deadline *)
Definition admittedOptions (now : time) (id : Z) (callerDeadline : option time) (o : ScheduleOptions)
    : ScheduleOptions :=
  let received := if ReceivedAt o =? zero_time then now else ReceivedAt o in
  let deadline := match callerDeadline with
                  | Some d => if d <? Deadline o then d else Deadline o
                  | None => Deadline o
                  end in
  mkOptions id (ClientID o) (RequestID o) received deadline (Kind o) (PaneID o) (RelayLevel o)
    (PaneGeneration o) (AllowAbsent o) (LedgerKey o) (PayloadHash o).

(** [ExecuteAdmitted] up to its wait; [None] when it waits for a response.  The
    response channel has the number of the operation. *)
Definition ExecuteAdmitted (now : time) (callerDeadline : option time) (o : ScheduleOptions) (w : World)
    : World * option error :=
  if closed w then (w, Some ErrClosed) else
  let command := if ID o =? 0 then commandSequence w + 1 else commandSequence w in
  let id := if ID o =? 0 then command else ID o in
  let o := admittedOptions now id callerDeadline o in
  let operation := operationSeq w + 1 in
  let op := mkOp o (ID o) operation 0 [mkWaiter operation false] false in
  if len (ingress w) <? coordinatorIngressCapacity then
    (mkWorld (metric (observeIngress (len (ingress w) + 1)) (own w)) (ingress w ++ [op]) (running w)
       (completions w) (closed w) (exited w) command operation, None)
  else
    (mkWorld (metric addRejected (own w)) (ingress w) (running w) (completions w) (closed w) (exited w)
       command operation, Some ErrIngressFull).

(** what a caller that waits can get back *)
Inductive returns (w : World) (operation : Z) (requestID : string)
    : option CommandResult * option error -> Prop :=
| returns_reply r e replayed :
    Reply operation r e replayed ∈ trace (own w) ->
    returns w operation requestID
      ((fun r => mkResult requestID (cr_Action r) (cr_OK r) (cr_Phase r) (cr_Error r) (cr_PaneID r)
                   (cr_Data r) replayed) <$> r, e)
| returns_done : exited w = true -> returns w operation requestID (None, Some ErrClosed).

(** the owner went from one state to another: its new workers run *)
Definition hear (o : Owner) (w : World) : World :=
  mkWorld o (ingress w) (running w ++ started (drop (length (trace (own w))) (trace o))) (completions w)
    (closed w) (exited w) (commandSequence w) (operationSeq w).

Definition set_ingress (q : list scheduledOperation) (w : World) : World :=
  mkWorld (own w) q (running w) (completions w) (closed w) (exited w) (commandSequence w) (operationSeq w).
Definition set_completions (c : list (Z * EffectResult)) (w : World) : World :=
  mkWorld (own w) (ingress w) (running w) c (closed w) (exited w) (commandSequence w) (operationSeq w).

Definition UpdateLedgerResult (key : string) (g : Z) (result : option CommandResult) (w : World) : World * bool :=
  if String.eqb key "" || closed w || exited w then (w, false)
  else let (o, applied) := onLedgerUpdate (own w) key g result in (set_own o w, applied).

Definition UpdateLedgerPhase (key : string) (g : Z) (phase : string) (w : World) : World * bool :=
  UpdateLedgerResult key g (Some (mkResult "" "" (String.eqb phase "confirmed") phase "" "" "" false)) w.

(** result, found, error *)
Definition ReplayLedger (key payloadHash : string) (w : World) : option CommandResult * bool * option error :=
  if String.eqb key "" || closed w || exited w then (None, false, Some ErrClosed)
  else let '(r, found, e) := onReplayQuery (own w) key payloadHash in
       ((fun r => mkResult (cr_RequestID r) (cr_Action r) (cr_OK r) (cr_Phase r) (cr_Error r) (cr_PaneID r)
                    (cr_Data r) true) <$> r, found, e).

Inductive event :=
| Admit (now : time) (callerDeadline : option time) (o : ScheduleOptions)
| Ingress (now : time) (order : nat -> list string)
| Report (id : Z) (result : EffectResult)
| Completion (now : time) (current : string -> Z -> bool)
| Topology (now : time) (active : gset string) (known : list string) (generations : list (string * Z))
| LedgerUpdate (key : string) (g : Z) (result : option CommandResult)
| Timer (now : time)
| CancelInflight (panes : list string) (relay : list Z)
| Close
| Stop (panes : list string) (relay : list Z)
| Exit.

Section World.
Context (configured : Z).
Abbreviation capacity := (schedulerCapacity configured).

Definition handle (w : World) (e : event) : option World :=
  match e with
  | Admit now callerDeadline o => Some (ExecuteAdmitted now callerDeadline o w).1
  | Ingress now order =>
      match ingress w with
      | [] => Some w
      | op :: rest =>
          let? o := onIngress capacity now order (own w) op in Some (hear o (set_ingress rest w))
      end
  | Report id result =>
      Some (mkWorld (own w) (ingress w) (removeOperation (running w) id).1
              (completions w ++ [(id, result)]) (closed w) (exited w) (commandSequence w) (operationSeq w))
  | Completion now current =>
      match completions w with
      | [] => Some w
      | (id, result) :: rest =>
          let? o := completeAndRedispatch capacity current (len rest) now (own w) id result in
          Some (hear o (set_completions rest w))
      end
  | Topology now active known generations =>
      let? o := applyTopology capacity now (own w) active known generations in Some (hear o w)
  | LedgerUpdate key g result => Some (set_own (onLedgerUpdate (own w) key g result).1 w)
  | Timer now => let? o := onTimer capacity now (own w) in Some (hear o w)
  | CancelInflight panes relay => let? o := onCancelInflight panes relay (own w) in Some (hear o w)
  | Close => Some (mkWorld (own w) (ingress w) (running w) (completions w) true (exited w)
                     (commandSequence w) (operationSeq w))
  | Stop panes relay => let? o := onStop panes relay (own w) in Some (hear o w)
  | Exit => Some (mkWorld (emit Stopped (own w)) (ingress w) (running w) (completions w) (closed w) true
                    (commandSequence w) (operationSeq w))
  end.

Definition enabled (w : World) (e : event) : Prop :=
  match e with
  | Admit _ _ _ => True
  | Ingress _ _ => exited w = false /\ ingress w <> []
  | Report id _ => id ∈ running w /\ len (completions w) < coordinatorCompletionCapacity
  | Completion _ _ => exited w = false /\ completions w <> []
  | Topology _ _ known _ => exited w = false /\ known ≡ₚ elements (knownActive (own w))
  | LedgerUpdate key _ _ => exited w = false /\ key <> ""
  | Timer now => exited w = false /\ from_option (fun t => t <= now) False (timer (own w))
  | CancelInflight panes relay =>
      exited w = false /\ panes ≡ₚ elements (dom (slots (own w))) /\
      relay ≡ₚ elements (relayInFlight (own w))
  | Close => closed w = false
  | Stop panes relay =>
      exited w = false /\ closed w = true /\ stopAck (own w) = false /\
      panes ≡ₚ elements (dom (slots (own w))) /\ relay ≡ₚ elements (relayInFlight (own w))
  | Exit => exited w = false /\ stopping (own w) = true /\ inUse (own w) = 0 /\ stopAck (own w) = true
  end.

Inductive reachable : World -> Prop :=
| reachable_new : reachable NewScheduler
| reachable_step w e w' : reachable w -> enabled w e -> handle w e = Some w' -> reachable w'.

(** ** The invariant of the world *)

Lemma inv_perm U U' X s : U ≡ₚ U' -> inv capacity U X s -> inv capacity U' X s.
Proof. intros HU [[A1 A2 A3 A4 A5] P]. split; [|done]. split; try done. by rewrite A2. Qed.

Definition drained (s : Owner) : Prop := stopping s = true -> queued s = [].

(** no command was started twice, and none that was started waits to be *)
Definition once (s : Owner) : Prop :=
  NoDup (started (trace s)) /\ forall i, i ∈ started (trace s) -> i ∈ dom (ops s) /\ i ∉ queued s.

Record ownInv (s : Owner) : Prop := mkOwnInv {
  o_inv : inv capacity (elements (dom (ops s))) [] s;
  o_settled : settled capacity s;
  o_drained : drained s;
  o_once : once s
}.

Record wInv (w : World) : Prop := mkWInv {
  w_own : ownInv (own w);
  w_nodup : NoDup (operation <$> ingress w);
  w_fresh : Forall (fun op => (operation op ∉ dom (ops (own w))) /\ operation op <= operationSeq w /\
              waiters op = [mkWaiter (operation op) false]) (ingress w);
  w_seq : forall id, id ∈ dom (ops (own w)) -> id <= operationSeq w;
  w_workers : running w ++ (fst <$> completions w) ≡ₚ flying (own w)
}.

Lemma queued_dom U s i : inv capacity U [] s -> i ∈ queued s -> i ∈ dom (ops s).
Proof.
  intros [A _] Hi. apply elem_of_dom, (a_live _ _ _ A), elem_of_app. left. by apply queued_live.
Qed.

Lemma once_adv now D N U s s' :
  inv capacity U [] s -> once s -> adv now D N s s' ->
  (forall i, i ∈ N -> i ∈ dom (ops s) /\ i ∉ started (trace s)) -> once s'.
Proof.
  intros H [O1 O2] [(new & T & _ & _ & Hnd & Hnew) _ _ _ Hdom Hq] HN. unfold once. rewrite T, started_app, Hdom. split.
  - apply NoDup_app. split_and!; try done. intros i Hi Hi'. destruct (Hnew i Hi') as [[HiN|Hiq]%elem_of_app _].
    + by destruct (HN i HiN).
    + by destruct (O2 i Hi).
  - intros i [Hi|Hi]%elem_of_app.
    + destruct (O2 i Hi) as [Hd Hn]. split; [done|]. intros Hi'. apply Hq, elem_of_app in Hi' as [HiN|?]; [by destruct (HN i HiN)|done].
    + destruct (Hnew i Hi) as [[HiN|Hiq]%elem_of_app Hn]; (split; [|done]); [by apply HN|by eapply queued_dom].
Qed.

(** a case of the owner's loop *)
Lemma ownInv_adv now D N U0 U s s' :
  inv capacity U0 [] s -> drained s -> once s ->
  inv capacity U [] s' -> U ≡ₚ elements (dom (ops s)) -> adv now D N s s' -> settled capacity s' ->
  (forall i, i ∈ N -> i ∈ dom (ops s) /\ (i ∉ started (trace s)) /\ stopping s = false) -> ownInv s'.
Proof.
  intros H Hdr Ho H' HU A Hs HN. split; try done.
  - rewrite (ad_dom _ _ _ _ _ A). by eapply inv_perm.
  - intros Hst. destruct (ad_drained _ _ _ _ _ A Hst) as [Hs0|]; [|done].
    destruct (queued s') as [|i l] eqn:E; [done|]. pose proof (ad_queued _ _ _ _ _ A i) as Hi. rewrite E in Hi.
    specialize (Hi ltac:(by left)). apply elem_of_app in Hi as [Hi|Hi]; [|by rewrite (Hdr Hs0) in Hi; apply elem_of_nil in Hi].
    destruct (HN i Hi) as (_ & _ & ?). congruence.
  - apply (once_adv now D N U0 s s'); try done. intros i Hi. destruct (HN i Hi) as (? & ? & _). done.
Qed.

Lemma hear_workers now D N (s : Owner) o w C :
  running w ++ C ≡ₚ flying s -> trace (own w) = trace s -> adv now D N s o ->
  running (hear o w) ++ C ≡ₚ flying o ++ D.
Proof.
  intros Hw Ht A. destruct (ad_trace _ _ _ _ _ A) as (new & T & _ & L & _). cbn.
  rewrite Ht, T, drop_app_length, L, <- Hw. solve_Permutation.
Qed.

(** ** Every event keeps the invariant *)

Definition clock (e : event) : time :=
  match e with
  | Ingress now _ | Completion now _ | Topology now _ _ _ | Timer now | Admit now _ _ => now
  | _ => 0
  end.

(** the worker an event hears *)
Definition heard (w : World) (e : event) : list Z :=
  match e with Completion _ _ => take 1 (fst <$> completions w) | _ => [] end.

(** what one event does to the outside, to the workers and to the sessions *)
Record stepped (now : time) (D : list Z) (s s' : Owner) : Prop := mkStepped {
  st_trace : exists new, trace s' = trace s ++ new /\ Forall (startOk now s') new /\
             flying s' ++ D ≡ₚ flying s ++ started new;
  st_gens : forall p g g', gens s p = Some g -> gens s' p = Some g' -> g <= g';
  st_stopping : stopping s = true -> stopping s' = true
}.

Lemma adv_stepped now D N s s' : adv now D N s s' -> stepped now D s s'.
Proof. intros [(new & T & F & L & _) G S _ _ _]. split; [by exists new|done|done]. Qed.

Lemma stepped_same now s s' :
  trace s' = trace s -> slots s' = slots s -> relayInFlight s' = relayInFlight s -> stopping s' = stopping s ->
  stepped now [] s s'.
Proof.
  intros Ht Hl Hr Hs. split; [| |congruence].
  { exists []. unfold flying. rewrite !app_nil_r, Hl, Hr. by split_and!. } intros p g g'. unfold gens. rewrite Hl.
  intros. simplify_eq. lia.
Qed.

Lemma ownInv_metric f s : ownInv s -> ownInv (metric f s).
Proof. intros [I S D O]. split; try done. by apply inv_metric. Qed.

(** an event of the owner that neither receives a request nor a report *)
Lemma move_ok now w o :
  wInv w -> inv capacity (elements (dom (ops (own w)))) [] o -> adv now [] [] (own w) o -> settled capacity o ->
  wInv (hear o w).
Proof.
  intros [[I S D O] W2 W3 W4 W5] Io A So. pose proof (ad_dom _ _ _ _ _ A) as Hdom. split; cbn; rewrite ?Hdom; try done.
  - apply (ownInv_adv now [] [] _ _ (own w) o I D O Io); try done. by intros i ?%elem_of_nil.
  - rewrite <- (app_nil_r (flying o)). exact (hear_workers now [] [] (own w) o w _ W5 eq_refl A).
Qed.

Lemma ExecuteAdmitted_ok now cd o w :
  wInv w -> wInv (ExecuteAdmitted now cd o w).1 /\ stepped now [] (own w) (own (ExecuteAdmitted now cd o w).1).
Proof.
  intros H. unfold ExecuteAdmitted. destruct (closed w); [split; [done|by apply stepped_same]|].
  destruct H as [W1 W2 W3 W4 W5]. rewrite Forall_forall in W3.
  assert (W3' : forall op, op ∈ ingress w -> (operation op ∉ dom (ops (own w))) /\
    operation op <= operationSeq w + 1 /\ waiters op = [mkWaiter (operation op) false]).
  { intros op Hop. destruct (W3 op Hop) as (? & ? & ?). split_and!; try done. lia. }
  case_if; (split; [|by apply stepped_same]); split; try done; cbn.
  - by apply ownInv_metric.
  - rewrite fmap_app. apply NoDup_app. split_and!; [done| |apply NoDup_singleton].
    intros i (op & Heq & Hop)%list_elem_of_fmap Hi%list_elem_of_singleton.
    destruct (W3 op Hop) as (_ & ? & _). cbn in *. lia.
  - apply Forall_forall. intros op [Hop|Hop]%elem_of_app; [by apply W3'|].
    apply list_elem_of_singleton in Hop as ->. cbn. split_and!; [|lia|done]. intros Hd. specialize (W4 _ Hd). lia.
  - intros id Hid. specialize (W4 id Hid). lia.
  - by apply ownInv_metric.
  - by apply Forall_forall.
  - intros id Hid. specialize (W4 id Hid). lia.
Qed.

Lemma Ingress_ok now order w op rest :
  wInv w -> ingress w = op :: rest ->
  exists o, onIngress capacity now order (own w) op = Some o /\ wInv (hear o (set_ingress rest w)) /\
    stepped now [] (own w) o.
Proof.
  intros [[I S D O] W2 W3 W4 W5] Hq. rewrite Hq in W2, W3. rewrite fmap_cons in W2. apply NoDup_cons in W2 as [Hni W2].
  apply Forall_cons in W3 as [(Hfresh & Hseq & Hw) W3].
  assert (Hnone : ops (own w) !! operation op = None) by (by apply not_elem_of_dom).
  destruct (onIngress_ok capacity _ now order (own w) op I S Hnone) as (o & Ho & Io & A & So).
  set (s1 := set_ops _ (own w)) in *. exists o. split; [done|].
  assert (Hd1 : dom (ops s1) = {[operation op]} ∪ dom (ops (own w))) by (unfold s1; cbn; by rewrite dom_insert_L).
  assert (HU : (response <$> waiters op) ++ elements (dom (ops (own w))) ≡ₚ elements (dom (ops s1))).
  { rewrite Hd1, Hw, elements_union_singleton by done. done. }
  assert (O1 : once s1).
  { destruct O as [O1 O2]. split; [done|]. intros i Hi. destruct (O2 i Hi). split; [rewrite Hd1; set_solver|done]. }
  pose proof (ad_dom _ _ _ _ _ A) as Hdom. split.
  - split; cbn.
    + apply (ownInv_adv now [] _ _ _ s1 o (inv_addOp _ _ _ _ I Hnone) D O1 Io HU A So).
      intros i Hi. destruct (stopping (own w)) eqn:Es; [by apply elem_of_nil in Hi|].
      apply list_elem_of_singleton in Hi as ->. split_and!; [rewrite Hd1; set_solver| |done].
      intros Hs. by destruct (proj2 O _ Hs).
    + done.
    + rewrite Hdom, Hd1. rewrite Forall_forall in W3 |- *. intros op' Hop'. destruct (W3 op' Hop') as (? & ? & ?).
      split_and!; try done. intros [Heq%elem_of_singleton|]%elem_of_union; [|done].
      apply Hni. apply list_elem_of_fmap. by exists op'.
    + rewrite Hdom, Hd1. intros id [->%elem_of_singleton|]%elem_of_union; [done|by apply W4].
    + rewrite <- (app_nil_r (flying o)). exact (hear_workers now [] _ s1 o (set_ingress rest w) _ W5 eq_refl A).
  - destruct (adv_stepped _ _ _ _ _ A) as [B1 B2 B3]. by split.
Qed.

Lemma Completion_ok now current w id result rest :
  wInv w -> completions w = (id, result) :: rest ->
  exists o, completeAndRedispatch capacity current (len rest) now (own w) id result = Some o /\
    wInv (hear o (set_completions rest w)) /\ stepped now [id] (own w) o.
Proof.
  intros [[I S D O] W2 W3 W4 W5] Hq. rewrite Hq in W5. cbn in W5.
  assert (Hid : id ∈ flying (own w)) by (rewrite <- W5; set_solver).
  destruct (complete_ok capacity _ current (len rest) now (own w) id result I Hid) as (o & -> & Io & A & So).
  exists o. split; [done|]. pose proof (ad_dom _ _ _ _ _ A) as Hdom. split; [|by eapply adv_stepped].
  split; cbn; rewrite ?Hdom; try done.
  - apply (ownInv_adv now [id] [] _ _ (own w) o I D O Io); try done. by intros i ?%elem_of_nil.
  - apply (Permutation_cons_inv (a := id)). rewrite (Permutation_middle _ _ id).
    rewrite (hear_workers now [id] [] (own w) o w (id :: (fst <$> rest)) W5 eq_refl A). by rewrite Permutation_app_comm.
Qed.

Lemma Report_ok w id result :
  wInv w -> id ∈ running w ->
  wInv (mkWorld (own w) (ingress w) (removeOperation (running w) id).1 (completions w ++ [(id, result)])
          (closed w) (exited w) (commandSequence w) (operationSeq w)).
Proof.
  intros [W1 W2 W3 W4 W5] Hid. split; try done. cbn. rewrite <- W5, fmap_app. cbn.
  destruct (removeOperation (running w) id) as [q b] eqn:Er. apply removeOperation_ok in Er. cbn.
  destruct b; [|by destruct Er as [_ Hn]]. destruct Er as [Er _]. rewrite Er. solve_Permutation.
Qed.

Lemma world_step_ok w e :
  wInv w -> enabled w e ->
  exists w', handle w e = Some w' /\ wInv w' /\ stepped (clock e) (heard w e) (own w) (own w').
Proof.
  intros H He. pose proof H as [[I S D O] _ _ _ _].
  assert (Hmove : forall now o, inv capacity (elements (dom (ops (own w)))) [] o ->
    adv now [] [] (own w) o -> settled capacity o -> wInv (hear o w) /\ stepped now [] (own w) o).
  { intros now o Io A So. split; [by apply (move_ok now)|by eapply adv_stepped]. }
  destruct e as [now cd o|now order|id result|now current|now active known gs|key g r|now|panes relay| |panes relay|];
    cbn [handle enabled clock heard] in *.
  - eexists. split; [done|]. by apply ExecuteAdmitted_ok.
  - destruct He as [_ Hq]. destruct (ingress w) as [|op rest] eqn:E; [done|].
    destruct (Ingress_ok now order w op rest H E) as (o & -> & W & St). eexists. by split_and!.
  - destruct He as [Hid _]. eexists. split; [done|]. split; [by apply Report_ok|by apply stepped_same].
  - destruct He as [_ Hq]. destruct (completions w) as [|[id result] rest] eqn:E; [done|].
    destruct (Completion_ok now current w id result rest H E) as (o & -> & W & St). eexists. by split_and!.
  - destruct (applyTopology_ok (capacity := capacity) _ now (own w) active known gs I) as (o & -> & Io & A & So & _).
    eexists. split; [done|]. by apply Hmove.
  - eexists. split; [done|]. destruct (onLedgerUpdate_ok capacity _ 0 (own w) key g r I S) as (Io & A & So).
    assert (Hh : set_own (onLedgerUpdate (own w) key g r).1 w = hear (onLedgerUpdate (own w) key g r).1 w).
    { unfold set_own, hear. f_equal. rewrite drop_ge; [by rewrite app_nil_r|].
      unfold onLedgerUpdate. destruct (ledger (own w) !! key), r; try done. by case_if. }
    rewrite Hh. by apply Hmove.
  - destruct (onTimer_ok capacity _ now (own w) I) as (o & -> & Io & A & So). eexists. split; [done|]. by apply Hmove.
  - destruct He as (_ & Hp & _).
    destruct (onCancelInflight_ok capacity _ 0 panes relay (own w) I S Hp) as (o & -> & Io & A & So & _).
    eexists. split; [done|]. by apply Hmove.
  - eexists. split; [done|]. split; [|by apply stepped_same]. by destruct H.
  - destruct He as (_ & _ & _ & Hp & _).
    destruct (onStop_ok capacity _ 0 panes relay (own w) I Hp) as (o & -> & Io & A & So & _).
    eexists. split; [done|]. by apply Hmove.
  - eexists. split; [done|].
    split.
    + destruct H as [_ W2 W3 W4 W5]. split; try done. split; try done; [by apply inv_emit|].
      unfold once. cbn. rewrite started_app. cbn. by rewrite app_nil_r.
    + split; [|unfold gens; cbn; intros; simplify_eq; lia|done]. exists [Stopped].
      split_and!; [done|by apply Forall_singleton|done].
Qed.

Lemma world_reachable_inv w : reachable w -> wInv w.
Proof.
  induction 1 as [|w e w' _ IH He Hh].
  - split; cbn; [|apply NoDup_nil_2|apply Forall_nil_2|done|done].
    split; cbn; try done; [|split; [by right; right|done]|split; [apply NoDup_nil_2|by intros i ?%elem_of_nil]].
    split; split; cbn; try done.
    + apply NoDup_nil_2.
    + by intros id ?%elem_of_nil.
    + unfold schedulerCapacity, defaultHerdrCapacity. destruct (Z.leb_spec configured 0); lia.
    + apply wf_empty.
    + by intros it ?%elem_of_nil.
    + by intros _ id ?%elem_of_nil.
    + split; [constructor|done].
  - destruct (world_step_ok w e IH He) as (w1 & Hw1 & ? & _). by simplify_eq.
Qed.

(** ** Guarantees of every run *)

(** C11: every event that can happen in a reachable world is handled: no case of
    the owner's loop panics on a missing slot or a bad heap index, and all of its
    loops (dispatch rounds, expiry, eviction) end. *)
Theorem events_never_panic w e : reachable w -> enabled w e -> exists w', handle w e = Some w'.
Proof. intros Hr He. destruct (world_step_ok w e (world_reachable_inv w Hr) He) as (w' & ? & _). by exists w'. Qed.

(** C8: every response channel is answered at most once, and the channels not yet
    answered are exactly those of commands that are queued or running: no caller
    is forgotten and none is answered twice. *)
Theorem answered_exactly_once w :
  reachable w ->
  NoDup (answered (trace (own w))) /\
  answered (trace (own w)) ++ (live (own w) ≫= chans (own w)) ≡ₚ elements (dom (ops (own w))) /\
  Forall (fun op => operation op ∉ answered (trace (own w))) (ingress w).
Proof.
  intros Hr. destruct (world_reachable_inv w Hr) as [[I _ _ _] _ W3 _ _]. pose proof (a_sum _ _ _ (i_acct _ _ _ _ I)) as Hsum.
  rewrite app_nil_r in Hsum.
  assert (Hnd : NoDup (answered (trace (own w)) ++ (live (own w) ≫= chans (own w))))
    by (rewrite Hsum; apply NoDup_elements).
  split_and!; [by apply NoDup_app in Hnd as (? & _)|done|].
  eapply Forall_impl; [exact W3|]. intros op (Hn & _) Ha. apply Hn, elem_of_elements. rewrite <- Hsum. set_solver.
Qed.

(** C20: no command is given to a worker twice, and a command that was given to one
    never waits in a queue again. *)
Theorem no_command_runs_twice w :
  reachable w ->
  NoDup (started (trace (own w))) /\ forall id, id ∈ started (trace (own w)) -> id ∉ queued (own w).
Proof.
  intros Hr. destruct (o_once _ (w_own _ (world_reachable_inv w Hr))) as [O1 O2]. split; [done|].
  intros id Hid. by apply O2.
Qed.

(** two workers of one pane are the same worker *)
Lemma pane_worker s U id1 id2 op1 op2 :
  inv capacity U [] s -> id1 ∈ flying s -> id2 ∈ flying s -> ops s !! id1 = Some op1 -> ops s !! id2 = Some op2 ->
  RelayLevel (options op1) = false -> RelayLevel (options op2) = false ->
  PaneID (options op1) = PaneID (options op2) -> id1 = id2.
Proof.
  intros I H1 H2 Ho1 Ho2 Hr1 Hr2 Hp. pose proof (flying_place capacity _ _ _ _ _ I Ho1 H1) as P1.
  pose proof (flying_place capacity _ _ _ _ _ I Ho2 H2) as P2. rewrite Hr1 in P1. rewrite Hr2 in P2.
  destruct P1 as (sl1 & f1 & S1 & F1 & <-), P2 as (sl2 & f2 & S2 & F2 & <-). rewrite Hp in S1. by simplify_eq.
Qed.

Lemma flying_nodup s U : inv capacity U [] s -> NoDup (flying s).
Proof.
  intros [A _]. pose proof (a_nodup _ _ _ A) as H. rewrite app_nil_r in H. unfold live in H.
  apply NoDup_app in H as (_ & _ & H). unfold flying. apply NoDup_app in H as (H1 & H2 & H3). apply NoDup_app.
  split_and!; try done.
  - intros x Hx (p & sl & Hp & Hf)%elem_of_gather. apply (H2 x Hx), elem_of_gather. exists p, sl. split; [done|].
    apply elem_of_app. by right.
  - unfold gather in *. induction (map_to_list (slots s)) as [|[p sl] l IH]; [constructor|]. cbn in *.
    apply NoDup_app in H3 as (N1 & N2 & N3). apply NoDup_app in N1 as (_ & _ & N1). apply NoDup_app. split_and!; try done.
    + intros x Hx Hl. apply (N2 x); [apply elem_of_app; by right|]. apply list_elem_of_bind in Hl as (y & Hy & Hl).
      apply list_elem_of_bind. exists y. split; [apply elem_of_app; by right|done].
    + apply IH; [|done]. intros x Hx Hl. apply (H2 x Hx). cbn. apply elem_of_app. by right.
Qed.

(** C14: at most the configured number of workers exists at any time, the counter
    [inUse] is their exact number (those that run and those whose report waits),
    and no two of them work on the same pane. *)
Theorem workers_bounded w :
  reachable w ->
  let workers := running w ++ (fst <$> completions w) in
  NoDup workers /\ len workers = inUse (own w) /\ inUse (own w) <= schedulerCapacity configured /\
  forall id1 id2 op1 op2, id1 ∈ workers -> id2 ∈ workers ->
    ops (own w) !! id1 = Some op1 -> ops (own w) !! id2 = Some op2 ->
    RelayLevel (options op1) = false -> RelayLevel (options op2) = false ->
    PaneID (options op1) = PaneID (options op2) -> id1 = id2.
Proof.
  intros Hr. destruct (world_reachable_inv w Hr) as [[I _ _ _] _ _ _ W5]. cbv zeta. split_and!.
  - rewrite W5. by eapply flying_nodup.
  - rewrite (Permutation_length W5). symmetry. apply (p_use _ _ (i_placed _ _ _ _ I)).
  - apply (p_cap _ _ (i_placed _ _ _ _ I)).
  - intros id1 id2 op1 op2. rewrite W5. by apply (pane_worker _ (elements (dom (ops (own w))))).
Qed.

(** C39: between two events the scheduler is work conserving (as long as a worker is
    free nothing waits that could run), the timer stands at the first deadline, so
    every waiting command has the timer set no later than its own deadline, and
    every queue is ordered by command number. *)
Theorem work_conserving w :
  reachable w ->
  saturated capacity (own w) /\ armed (own w) /\
  (stopping (own w) = false -> forall id, id ∈ queued (own w) ->
     exists op t, ops (own w) !! id = Some op /\ timer (own w) = Some t /\ t <= Deadline (options op)) /\
  seqSorted (own w) (relayQueue (own w)) /\
  forall p sl, slots (own w) !! p = Some sl -> seqSorted (own w) (Queue sl).
Proof.
  intros Hr. destruct (w_own _ (world_reachable_inv w Hr)) as [I [S1 S2] _ _]. destruct I as [A P]. split_and!; try done; try apply P.
  intros Hs id Hid. pose proof (p_armed _ _ P Hs id Hid) as Hix. pose proof (p_heap _ _ P) as Hw.
  rewrite indexed_member in Hix by apply Hw. apply list_elem_of_fmap in Hix as (it & -> & Hit).
  destruct (p_items _ _ P it Hit) as (op & Hop & Hd). unfold armed in S2.
  destruct (items (deadlines (own w))) as [|first l] eqn:E; [by apply elem_of_nil in Hit|].
  exists op, (it_deadline first). split_and!; [done|done|]. rewrite Hd.
  apply (wf_root (deadlines (own w)) first it Hw); by rewrite E.
Qed.

(** A worker is started only while the scheduler is not stopping, before the
    deadline of its command, and for a pane only in the pane's current session;
    sessions never go back while the pane has a slot, and stopping is final. *)
Theorem starts_admissible w e w' :
  reachable w -> enabled w e -> handle w e = Some w' ->
  (exists new, trace (own w') = trace (own w) ++ new /\ Forall (startOk (clock e) (own w')) new) /\
  (forall p g g', gens (own w) p = Some g -> gens (own w') p = Some g' -> g <= g') /\
  (stopping (own w) = true -> stopping (own w') = true).
Proof.
  intros Hr He Hh. destruct (world_step_ok w e (world_reachable_inv w Hr) He) as (w1 & Hw1 & _ & [(new & T & F & _) G S]).
  simplify_eq. split_and!; try done. by exists new.
Qed.

(** A topology update ends the session of every known pane that is gone (its
    generation grows) and enters every published session, before the caller of
    [ApplyTopology] is released. *)
Theorem topology_published w now active known generations w' :
  reachable w -> enabled w (Topology now active known generations) ->
  handle w (Topology now active known generations) = Some w' ->
  (forall p, p ∈ knownActive (own w) -> p ∉ active -> sessionOver (own w) (own w') p) /\
  Forall (sessionAtLeast (own w')) generations.
Proof.
  intros Hr [_ Hk] Hh. destruct (w_own _ (world_reachable_inv w Hr)) as [I _ _ _].
  destruct (applyTopology_ok (capacity := capacity) _ now (own w) active known generations I)
    as (o & Ho & _ & _ & _ & F1 & F2). cbn in Hh. rewrite Ho in Hh. cbn in Hh. injection Hh as <-. split; [|done].
  intros p Hp. rewrite Forall_forall in F1. apply F1. rewrite Hk. by apply elem_of_elements.
Qed.

(** Once the scheduler stops, no worker is started; every report that is heard
    lowers the number of workers by one and nothing raises it, so the owner can
    exit as soon as the running workers have reported. *)
Theorem stopping_drains w e w' :
  reachable w -> enabled w e -> handle w e = Some w' -> stopping (own w) = true ->
  inUse (own w') = inUse (own w) - len (heard w e) /\ queued (own w') = [] /\
  (inUse (own w) = 0 -> exited w = false -> stopAck (own w) = true -> enabled w Exit).
Proof.
  intros Hr He Hh Hs. destruct (world_step_ok w e (world_reachable_inv w Hr) He) as (w1 & Hw1 & W1 & [(new & T & F & L) _ S]).
  simplify_eq. pose proof (world_reachable_inv w Hr) as W0.
  assert (Hnew : started new = []).
  { clear -F S Hs. induction F as [|ef new Hef _ IH]; [done|]. unfold started in *. cbn. rewrite IH, app_nil_r.
    destruct ef; try done. destruct Hef as [Hf _]. rewrite S in Hf by done. done. }
  rewrite Hnew, app_nil_r in L. pose proof (p_use _ _ (i_placed _ _ _ _ (o_inv _ (w_own _ W0)))) as U0.
  pose proof (p_use _ _ (i_placed _ _ _ _ (o_inv _ (w_own _ W1)))) as U1.
  apply Permutation_length in L. unfold flying in L. rewrite length_app in L. split_and!.
  - rewrite U0, U1. lia.
  - apply (o_drained _ (w_own _ W1)). by apply S.
  - done.
Qed.

(** what remains once the owner is gone *)
Lemma exited_idle w : reachable w -> exited w = true -> inUse (own w) = 0 /\ stopping (own w) = true.
Proof.
  induction 1 as [|w e w' Hr IH He Hh]; [done|]. intros Hx.
  destruct e as [now cd o|now order|id result|now current|now active known gs|key g r|now|panes relay| |panes relay|];
    cbn [handle enabled] in *.
  - injection Hh as <-. revert Hx. unfold ExecuteAdmitted. repeat case_if; exact IH.
  - destruct He as [He Hq], (ingress w); [done|]. destruct (onIngress _ _ _ _ _); [|done]. simplify_eq/=; congruence.
  - simplify_eq. by apply IH.
  - destruct He as [He Hq], (completions w) as [|[]]; [done|].
    destruct (completeAndRedispatch _ _ _ _ _ _ _); [|done]. simplify_eq/=; congruence.
  - destruct He as [He _], (applyTopology _ _ _ _ _ _); [|done]. simplify_eq/=; congruence.
  - destruct He as [He _]. simplify_eq/=; congruence.
  - destruct He as [He _], (onTimer _ _ _); [|done]. simplify_eq/=; congruence.
  - destruct He as [He _], (onCancelInflight _ _ _); [|done]. simplify_eq/=; congruence.
  - simplify_eq. by apply IH.
  - destruct He as [He _], (onStop _ _ _); [|done]. simplify_eq/=; congruence.
  - destruct He as (_ & ? & ? & _). by simplify_eq/=.
Qed.

(** When the owner has exited no worker is left and every command it took was
    answered; the callers whose request it did not take return [ErrClosed]. *)
Theorem exit_leaves_nothing w :
  reachable w -> exited w = true ->
  running w = [] /\ completions w = [] /\ answered (trace (own w)) ≡ₚ elements (dom (ops (own w))) /\
  Forall (fun op => returns w (operation op) (RequestID (options op)) (None, Some ErrClosed)) (ingress w).
Proof.
  intros Hr Hx. destruct (exited_idle w Hr Hx) as [Hu Hs].
  destruct (world_reachable_inv w Hr) as [[I _ D _] _ _ _ W5]. specialize (D Hs).
  pose proof (p_use _ _ (i_placed _ _ _ _ I)) as U0. fold (flying (own w)) in U0.
  assert (Hf : flying (own w) = []) by (destruct (flying (own w)); [done|cbn in U0; lia]).
  rewrite Hf in W5. apply Permutation_nil_r in W5. apply app_eq_nil in W5 as [-> Hc]. split_and!.
  - done.
  - by apply fmap_nil_inv in Hc.
  - pose proof (a_sum _ _ _ (i_acct _ _ _ _ I)) as Hsum. rewrite app_nil_r in Hsum.
    assert (Hl : live (own w) = []); [|by rewrite Hl, app_nil_r in Hsum].
    destruct (live (own w)) as [|x l] eqn:E; [done|]. exfalso.
    assert (Hx' : x ∈ live (own w)) by (rewrite E; by left). unfold live in Hx'. rewrite !elem_of_app in Hx'.
    assert (Hcase : x ∈ queued (own w) \/ x ∈ flying (own w)).
    { unfold queued, flying. rewrite !elem_of_app. destruct Hx' as [|[|(p & sl & Hp & Hx')%elem_of_gather]]; auto.
      apply elem_of_app in Hx' as [?|?]; [left|right]; right; apply elem_of_gather; by exists p, sl. }
    rewrite D, Hf in Hcase. destruct Hcase as [?%elem_of_nil|?%elem_of_nil]; done.
  - apply Forall_forall. intros op _. by apply returns_done.
Qed.

(** ** Idempotent retries *)

Lemma oldestEntry_done ledger order :
  oldestEntry ledger order = "" \/
  exists e, ledger !! oldestEntry ledger order = Some e /\ le_operation e = None.
Proof.
  unfold oldestEntry. set (f := fun acc key => _).
  set (P := fun acc : string * Z => acc.1 = "" \/ exists e, ledger !! acc.1 = Some e /\ le_operation e = None).
  assert (H : forall acc, P acc -> P (foldl f acc order)).
  { induction order as [|key order IH]; intros acc Hacc; [done|]. cbn. apply IH. unfold f.
    destruct (ledger !! key) as [e|] eqn:E; [|done]. case_bool_decide as Ho; [done|]. case_if; [|done].
    right. exists e. split; [done|]. by apply eq_None_not_Some. }
  apply H. by left.
Qed.

(** the entry of a live command is never evicted, and a recent result only for
    want of room *)
Lemma evict_keeps fuel order s s' key e :
  evict fuel order s = Some s' -> ledger s !! key = Some e ->
  is_Some (le_operation e) \/ Z.of_nat (size (ledger s)) < maxLedgerEntries -> ledger s' !! key = Some e.
Proof.
  revert s. induction fuel as [|fuel IH]; intros s Hev He Hkeep; cbn [evict] in Hev.
  { destruct (negb _) eqn:En; by simplify_eq. }
  destruct (Z.geb_spec (Z.of_nat (size (ledger s))) maxLedgerEntries) as [Hge|Hlt]; cbn [negb] in Hev; [|by simplify_eq].
  destruct Hkeep as [Ho|?]; [|lia]. destruct (oldestEntry_done (ledger s) (order fuel)) as [Hk|(e' & He' & Ho')].
  - rewrite Hk in Hev. cbn in Hev. by simplify_eq.
  - case_if_in Hev; [by simplify_eq|]. apply (IH _ Hev); [|by left]. cbn. rewrite lookup_delete_ne; [done|].
    intros Heq. rewrite Heq in He'. simplify_eq. rewrite Ho' in Ho. by destruct Ho.
Qed.

Lemma pruneLedger_keeps now order s s' key e :
  pruneLedger now order s = Some s' -> ledger s !! key = Some e ->
  is_Some (le_operation e) \/
    time_sub now (le_createdAt e) < ledgerRetention /\ Z.of_nat (size (ledger s)) < maxLedgerEntries ->
  ledger s' !! key = Some e.
Proof.
  unfold pruneLedger. intros Hev He Hkeep. apply (evict_keeps _ _ _ _ _ _ Hev).
  - cbn. apply map_lookup_filter_Some. split; [done|]. cbn. destruct Hkeep as [?|[? _]]; [by left|right].
    rewrite Z.geb_leb. by apply Z.leb_gt.
  - destruct Hkeep as [?|[_ Hsz]]; [by left|right]. cbn. eapply Z.le_lt_trans; [|exact Hsz].
    apply inj_le, map_subseteq_size, map_filter_subseteq.
Qed.

(** a request that reaches the ledger: the scheduler runs, the deadline is ahead
    and the pane's session is not newer than the caller's *)
Definition reachesLedger (now : time) (s : Owner) (op : scheduledOperation) : Prop :=
  stopping s = false /\ now < Deadline (options op) /\
  (RelayLevel (options op) = false -> forall sl, slots s !! PaneID (options op) = Some sl ->
     Generation sl <= PaneGeneration (options op)).

Lemma onIngress_retry now order w op rest key e :
  wInv w -> ingress w = op :: rest -> reachesLedger now (own w) op ->
  LedgerKey (options op) = key -> key <> "" -> ledger (own w) !! key = Some e ->
  is_Some (le_operation e) \/
    time_sub now (le_createdAt e) < ledgerRetention /\ Z.of_nat (size (ledger (own w))) < maxLedgerEntries ->
  exists m, let s := set_ledger m (set_ops (<[operation op := op]> (ops (own w))) (own w)) in
    m !! key = Some e /\ onIngress capacity now order (own w) op = retry s op e /\
    inv capacity (operation op :: elements (dom (ops (own w)))) [operation op] s /\
    ops (own w) !! operation op = None /\ waiters op = [mkWaiter (operation op) false].
Proof.
  intros [[I S D O] _ W3 _ _] Hq (Hs & Hd & Hg) Hk Hne He Hkeep. rewrite Hq in W3.
  apply Forall_cons in W3 as [(Hfresh & _ & Hw) _].
  assert (Hnone : ops (own w) !! operation op = None) by (by apply not_elem_of_dom).
  pose proof (inv_addOp capacity _ _ op I Hnone) as I1. set (s1 := set_ops _ (own w)) in *.
  assert (Hnl : operation op ∉ live s1).
  { intros Hl. destruct (a_live _ _ _ (i_acct _ _ _ _ I) (operation op)) as [? ?]; [by rewrite app_nil_r|congruence]. }
  pose proof (inv_receive capacity _ s1 (operation op) I1 ltac:(eexists; apply lookup_insert_eq) Hnl) as I2.
  assert (Hch : chans s1 (operation op) = [operation op]).
  { unfold chans, s1. cbn. rewrite lookup_insert_eq. cbn. by rewrite Hw. }
  rewrite Hch in I2. cbn [app] in I2.
  destruct (pruneLedger_ok capacity _ _ now order s1 I2) as (m & Hm & Hsub).
  exists m. cbv zeta. pose proof (pruneLedger_keeps now order s1 _ key e Hm He Hkeep) as Hkept. cbn in Hkept.
  split_and!; try done; [|by eapply inv_ledger_sub].
  unfold onIngress. fold s1. rewrite Hm. cbn [mbind option_bind]. change (stopping (set_ledger m s1)) with (stopping (own w)).
  rewrite Hs, (proj2 (Z.ltb_lt _ _) Hd). cbn [negb].
  assert (Hst : negb (RelayLevel (options op)) && from_option (fun slot => PaneGeneration (options op) <? Generation slot)
    false (slots (set_ledger m s1) !! PaneID (options op)) = false).
  { destruct (RelayLevel (options op)) eqn:Er; [done|]. cbn. change (slots (set_ledger m s1)) with (slots (own w)).
    destruct (slots (own w) !! PaneID (options op)) as [sl|] eqn:Es; [|done]. cbn. apply Z.ltb_ge. by apply Hg. }
  rewrite Hst, Hk, (proj2 (String.eqb_neq _ _) Hne). cbn [ledger set_ledger]. by rewrite Hkept.
Qed.

(** A retry of a command that is queued or running does not run it again: with
    the same payload the caller is attached to the live command and shares its
    answer, marked as a replay; with another payload it is answered
    [ErrConflict].  No worker starts, and nobody else is answered. *)
Theorem retry_joins now order w op rest e target :
  reachable w -> ingress w = op :: rest -> reachesLedger now (own w) op ->
  LedgerKey (options op) <> "" -> ledger (own w) !! LedgerKey (options op) = Some e ->
  le_operation e = Some target ->
  exists w', handle w (Ingress now order) = Some w' /\ running w' = running w /\
  if String.eqb (le_payloadHash e) (PayloadHash (options op))
  then trace (own w') = trace (own w) /\
       exists lv, ops (own w) !! target = Some lv /\
         ops (own w') !! target = Some (set_waiters (waiters lv ++ [mkWaiter (operation op) true]) lv)
  else trace (own w') = trace (own w) ++ [Reply (operation op) None (Some ErrConflict) false].
Proof.
  intros Hr Hq Hl Hne He Ho.
  destruct (onIngress_retry now order w op rest _ e (world_reachable_inv w Hr) Hq Hl eq_refl Hne He ltac:(left; by rewrite Ho))
    as (m & Hm & Hret & I & Hnone & Hw). cbn [handle]. rewrite Hq, Hret. unfold retry.
  set (s := set_ledger m _) in *.
  destruct (String.eqb (le_payloadHash e) (PayloadHash (options op))); cbn [negb].
  - destruct (a_ledger _ _ _ (i_acct _ _ _ _ I) _ e Hm) as [_ K]. rewrite Ho in K. destruct K as (-> & (lv & Hlv & _) & Hlive).
    rewrite Ho. cbn [mbind option_bind]. rewrite Hlv. cbn [mbind option_bind]. eexists. split; [done|]. cbn.
    rewrite drop_all, app_nil_r. split_and!; [done|done|]. exists lv. rewrite lookup_insert_eq, Hw.
    assert (Hne' : target <> operation op).
    { intros ->. destruct (a_ledger _ _ _ (i_acct _ _ _ _ (o_inv _ (w_own _ (world_reachable_inv w Hr)))) _ e He) as [_ K'].
      rewrite Ho in K'. destruct K' as (_ & (lv' & Hlv' & _) & _). congruence. }
    unfold s in Hlv. cbn in Hlv. by rewrite lookup_insert_ne in Hlv.
  - eexists. split; [done|]. unfold s. cbn. rewrite Hw. cbn. rewrite drop_app_length. cbn. by rewrite app_nil_r.
Qed.

(** A retry of a command that ended within the retention time, while the ledger
    has room, is answered with the recorded result, marked as a replay; the
    command does not run again. *)
Theorem retry_replays now order w op rest e r :
  reachable w -> ingress w = op :: rest -> reachesLedger now (own w) op ->
  LedgerKey (options op) <> "" -> ledger (own w) !! LedgerKey (options op) = Some e ->
  le_payloadHash e = PayloadHash (options op) -> le_result e = Some r ->
  time_sub now (le_createdAt e) < ledgerRetention -> Z.of_nat (size (ledger (own w))) < maxLedgerEntries ->
  exists w', handle w (Ingress now order) = Some w' /\ running w' = running w /\
    trace (own w') = trace (own w) ++ [Reply (operation op) (Some r) None true].
Proof.
  intros Hr Hq Hl Hne He Hh Hres Ht Hsz.
  destruct (onIngress_retry now order w op rest _ e (world_reachable_inv w Hr) Hq Hl eq_refl Hne He ltac:(by right))
    as (m & Hm & Hret & I & Hnone & Hw). cbn [handle]. rewrite Hq, Hret. unfold retry.
  rewrite (proj2 (String.eqb_eq _ _) Hh), Hres. cbn [negb mbind option_bind]. eexists. split; [done|]. cbn.
  rewrite Hw. cbn. rewrite drop_app_length. cbn. by rewrite app_nil_r.
Qed.

(** A confirmation that was applied is what later replays of the operation get:
    [ReplayLedger] with the recorded payload returns the updated result, and a
    query with another payload is a conflict. *)
Theorem update_then_replay key g r w w' hash :
  UpdateLedgerResult key g r w = (w', true) ->
  exists e res, ledger (own w) !! key = Some e /\ le_generation e = g /\ r = Some res /\
    ReplayLedger key hash w' =
      if String.eqb (le_payloadHash e) hash
      then (Some (mkResult (cr_RequestID res) (cr_Action res) (cr_OK res) (cr_Phase res) (cr_Error res)
                    (cr_PaneID res) (cr_Data res) true), true, None)
      else (None, true, Some ErrConflict).
Proof.
  unfold UpdateLedgerResult, onLedgerUpdate, ReplayLedger, onReplayQuery.
  destruct (String.eqb key "" || closed w || exited w) eqn:Eg; [done|].
  destruct (ledger (own w) !! key) as [e|] eqn:He; [|done]. destruct r as [res|]; [|done].
  case_if; [|done]. intros [= <-]. apply andb_true_iff in E as [Hg _]. exists e, res.
  cbn [own set_own closed exited ledger set_ledger]. rewrite Eg, lookup_insert_eq. split_and!; [done|lia|done|].
  cbn [le_payloadHash le_result]. by destruct (String.eqb (le_payloadHash e) hash).
Qed.

(** ** Concrete runs *)

Fixpoint run (w : World) (es : list event) : option World :=
  match es with [] => Some w | e :: es => let? w := handle w e in run w es end.

Fixpoint runnable (w : World) (es : list event) : Prop :=
  match es with
  | [] => True
  | e :: es => enabled w e /\ from_option (fun w' => runnable w' es) False (handle w e)
  end.

Lemma reachable_run es w w' : reachable w -> runnable w es -> run w es = Some w' -> reachable w'.
Proof.
  revert w. induction es as [|e es IH]; intros w Hr Hen Hrun; cbn in *; [by simplify_eq|].
  destruct Hen as [He Hen]. destruct (handle w e) as [w1|] eqn:E; [|done]. cbn in *.
  apply (IH w1); [by apply (reachable_step w e)|done|done].
Qed.

End World.

Definition demoCommand (key hash : string) (g deadline : Z) : ScheduleOptions :=
  mkOptions 0 "phone" "r" 5 deadline "send" "p1" false g false key hash.
Definition noOrder (n : nat) : list string := [].
Definition demoResult : EffectResult :=
  mkEffect (Some (mkResult "r" "send" true "confirmed" "" "p1" "" false)) false.

(** a world after [es], and that it is reachable *)
Definition after (es : list event) : World := default NewScheduler (run 1 NewScheduler es).

Ltac reach es := apply (reachable_run 1 es NewScheduler); [constructor|
  vm_compute; repeat split; first [discriminate|reflexivity|constructor]|vm_compute; reflexivity].

(** one command waits in the channel while another one of the pane runs *)
Definition demoRun : list event :=
  [Admit 10 None (demoCommand "k" "h" 1 100); Ingress 11 noOrder; Admit 12 (Some 90) (demoCommand "k" "h" 1 100)].
Definition demoEnd : list event :=
  demoRun ++ [Report 1 demoResult; Completion 20 (fun _ _ => true)].
Definition demoStop : list event :=
  demoEnd ++ [Close; Stop ["p1"] []].

Lemma after_demoRun : reachable 1 (after demoRun).
Proof. reach demoRun. Qed.
Lemma after_demoEnd : reachable 1 (after demoEnd).
Proof. reach demoEnd. Qed.
Lemma after_demoStop : reachable 1 (after demoStop).
Proof. reach demoStop. Qed.
Lemma after_demoExit : reachable 1 (after (demoStop ++ [Exit])).
Proof. reach (demoStop ++ [Exit]). Qed.

Lemma events_never_panic_witness : exists w', handle 1 (after demoRun) (Ingress 13 noOrder) = Some w'.
Proof. apply (events_never_panic 1 _ _ after_demoRun). split; [by vm_compute|vm_compute; discriminate]. Defined.

Lemma answered_exactly_once_witness : NoDup (answered (trace (own (after demoEnd)))).
Proof. apply (answered_exactly_once 1 _ after_demoEnd). Defined.

Lemma no_command_runs_twice_witness : NoDup (started (trace (own (after demoEnd)))).
Proof. apply (no_command_runs_twice 1 _ after_demoEnd). Defined.

Lemma workers_bounded_witness : inUse (own (after demoRun)) <= 1.
Proof. apply (workers_bounded 1 _ after_demoRun). Defined.

Lemma work_conserving_witness : armed (own (after demoRun)).
Proof. apply (work_conserving 1 _ after_demoRun). Defined.

Lemma starts_admissible_witness :
  exists new, trace (own (after (take 2 demoRun))) = trace (own (after (take 1 demoRun))) ++ new /\
    Forall (startOk 11 (own (after (take 2 demoRun)))) new.
Proof.
  apply (starts_admissible 1 (after (take 1 demoRun)) (Ingress 11 noOrder) (after (take 2 demoRun)));
    [reach (take 1 demoRun)|split; [by vm_compute|vm_compute; discriminate]|by vm_compute].
Defined.

Lemma topology_published_witness :
  Forall (sessionAtLeast (own (after [Topology 5 {["p1"]} [] [("p1", 3)]]))) [("p1", 3)].
Proof.
  apply (topology_published 1 NewScheduler 5 {["p1"]} [] [("p1", 3)]); [constructor|by vm_compute|by vm_compute].
Defined.

Lemma stopping_drains_witness : queued (own (after (demoStop ++ [Exit]))) = [].
Proof.
  apply (stopping_drains 1 (after demoStop) Exit (after (demoStop ++ [Exit])) after_demoStop);
    by vm_compute.
Defined.

Lemma exit_leaves_nothing_witness : running (after (demoStop ++ [Exit])) = [].
Proof. apply (exit_leaves_nothing 1 _ after_demoExit). by vm_compute. Defined.

Lemma retry_joins_witness :
  exists w', handle 1 (after demoRun) (Ingress 13 noOrder) = Some w' /\ running w' = running (after demoRun).
Proof.
  set (op := default (mkOp (demoCommand "" "" 0 0) 0 0 0 [] false) (head (ingress (after demoRun)))).
  set (e := default (mkEntry "" None None 0 "" 0) (ledger (own (after demoRun)) !! "k")).
  destruct (retry_joins 1 13 noOrder (after demoRun) op [] e 1 after_demoRun) as (w' & ? & ? & _);
    [by vm_compute| |vm_compute; discriminate|by vm_compute|by vm_compute|exists w'; split; assumption].
  split_and!; [by vm_compute|by vm_compute|]. intros _ sl Hsl. vm_compute in Hsl. injection Hsl as <-. vm_compute. discriminate.
Defined.

Lemma retry_replays_witness :
  exists w', handle 1 (after demoEnd) (Ingress 30 noOrder) = Some w' /\ running w' = running (after demoEnd).
Proof.
  set (op := default (mkOp (demoCommand "" "" 0 0) 0 0 0 [] false) (head (ingress (after demoEnd)))).
  set (e := default (mkEntry "" None None 0 "" 0) (ledger (own (after demoEnd)) !! "k")).
  destruct (retry_replays 1 30 noOrder (after demoEnd) op [] e
    (mkResult "r" "send" true "confirmed" "" "p1" "" false) after_demoEnd) as (w' & ? & ? & _);
    [by vm_compute| |vm_compute; discriminate|by vm_compute..|exists w'; split; assumption].
  split_and!; [by vm_compute|by vm_compute|]. intros _ sl Hsl. vm_compute in Hsl. injection Hsl as <-. vm_compute. discriminate.
Defined.

Lemma update_then_replay_witness :
  ReplayLedger "k" "other" (UpdateLedgerPhase "k" 1 "confirmed" (after demoEnd)).1 = (None, true, Some ErrConflict).
Proof.
  destruct (update_then_replay "k" 1 (Some (mkResult "" "" true "confirmed" "" "" "" false)) (after demoEnd)
    (UpdateLedgerPhase "k" 1 "confirmed" (after demoEnd)).1 "other") as (e & res & He & _ & _ & ->); [by vm_compute|].
  vm_compute in He. injection He as <-. reflexivity.
Defined.

(** A late retry of an older session removes the ledger entry of the live command
    with the same key, so the next retry runs the command again: two workers get
    the same operation key and payload while the first has not reported. *)
Example stale_retry_runs_again :
  let es := [Admit 10 None (demoCommand "k" "h" 2 100); Ingress 11 noOrder;
             Admit 12 None (demoCommand "k" "h" 1 100); Ingress 13 noOrder;
             Admit 14 None (demoCommand "k" "h" 2 100); Ingress 15 noOrder;
             Report 1 demoResult; Completion 20 (fun _ _ => true)] in
  reachable 1 (after es) /\ started (trace (own (after es))) = [1; 3] /\
  (LedgerKey ∘ options <$> ops (own (after es)) !! 1) = (LedgerKey ∘ options <$> ops (own (after es)) !! 3).
Proof.
  intros es. split; [|split; vm_compute; reflexivity]. unfold es. reach [Admit 10 None (demoCommand "k" "h" 2 100); Ingress 11 noOrder;
             Admit 12 None (demoCommand "k" "h" 1 100); Ingress 13 noOrder;
             Admit 14 None (demoCommand "k" "h" 2 100); Ingress 15 noOrder;
             Report 1 demoResult; Completion 20 (fun _ _ => true)].
Qed.

End SchedulerSafety.
