(* ===== verification/SeqMatch.v ===== *)
(** * Matching blocks of two sequences ([seqmatch/seqmatch.go])

    A port of the sequence matcher of Python's difflib without the junk heuristic.
    Indices are natural numbers (the code never computes a negative one except
    [j-1] for [j = 0], a key that is not in the map); [None] is an index out of
    range or a loop that does not end.

    The theorems: [FindLongestMatch] returns a longest common block of the two
    ranges; [GetMatchingBlocks] ends, its blocks are true matches, ordered and
    disjoint in both sequences and separated from each other, and no further pair
    of equal lines fits between them. *)
From stdpp Require Import sorting.
From S2P Require Import Prelude.

Module SeqMatch.

Abbreviation line := bytes.

Record Match := mkMatch { A : nat; B : nat; Size : nat }.

Record Matcher := mkMatcher { a : list line; b : list line; b2j : gmap line (list nat) }.

Definition addIndex (m : gmap line (list nat)) (je : nat * line) : gmap line (list nat) :=
  <[je.2 := default [] (m !! je.2) ++ [je.1]]> m.

Definition buildB2J (b : list line) : gmap line (list nat) := foldl addIndex ∅ (imap pair b).

Definition NewMatcher (a b : list line) : Matcher := mkMatcher a b (buildB2J b).

(** [j2len[j-1]] *)
Definition previousLength (j2len : gmap nat nat) (j : nat) : nat :=
  match j with O => 0 | S j => default 0%nat (j2len !! j) end.

Fixpoint scanRow (i blo bhi : nat) (j2len newj2len : gmap nat nat) (best : Match) (js : list nat)
    : gmap nat nat * Match :=
  match js with
  | [] => (newj2len, best)
  | j :: js =>
      if Nat.ltb j blo then scanRow i blo bhi j2len newj2len best js else
      if Nat.leb bhi j then (newj2len, best) else
      let k := (previousLength j2len j + 1)%nat in
      scanRow i blo bhi j2len (<[j := k]> newj2len)
        (if Nat.ltb (Size best) k then mkMatch (i + 1 - k) (j + 1 - k) k else best) js
  end.

Definition findRow (m : Matcher) (blo bhi : nat) (st : gmap nat nat * Match) (i : nat)
    : option (gmap nat nat * Match) :=
  let? elem := a m !! i in
  Some (scanRow i blo bhi st.1 ∅ st.2 (default [] (b2j m !! elem))).

Definition FindLongestMatch (m : Matcher) (alo ahi blo bhi : nat) : option Match :=
  let? r := foldM (findRow m blo bhi) (∅, mkMatch alo blo 0) (seq alo (ahi - alo)) in Some r.2.

Definition compareMatch (x y : Match) : Z :=
  if negb (Nat.eqb (A x) (A y)) then (if Nat.ltb (A x) (A y) then -1 else 1)
  else if negb (Nat.eqb (B x) (B y)) then (if Nat.ltb (B x) (B y) then -1 else 1)
  else 0.

(** the elements before [key], nearest first: those greater than it move up *)
Fixpoint shiftUp (before : list Match) (key : Match) : list Match :=
  match before with
  | [] => [key]
  | x :: before => if compareMatch x key >? 0 then x :: shiftUp before key else key :: x :: before
  end.

Definition sortMatches (matches : list Match) : list Match := reverse (foldl shiftUp [] matches).

Record span := mkSpan { alo : nat; ahi : nat; blo : nat; bhi : nat }.

(** the stack of spans has its top at the head *)
Fixpoint blocksLoop (fuel : nat) (m : Matcher) (queue : list span) (blocks : list Match)
    : option (list Match) :=
  match queue with
  | [] => Some blocks
  | s :: queue =>
      match fuel with
      | O => None
      | S fuel =>
          let? match_ := FindLongestMatch m (alo s) (ahi s) (blo s) (bhi s) in
          if Nat.ltb 0 (Size match_) then
            let left := if Nat.ltb (alo s) (A match_) && Nat.ltb (blo s) (B match_)
                        then [mkSpan (alo s) (A match_) (blo s) (B match_)] else [] in
            let right := if Nat.ltb (A match_ + Size match_) (ahi s) &&
                            Nat.ltb (B match_ + Size match_) (bhi s)
                         then [mkSpan (A match_ + Size match_) (ahi s) (B match_ + Size match_) (bhi s)]
                         else [] in
            blocksLoop fuel m (right ++ left ++ queue) (blocks ++ [match_])
          else blocksLoop fuel m queue blocks
      end
  end.

Definition mergeStep (st : list Match * Match) (m2 : Match) : list Match * Match :=
  let (merged, cur) := st in
  if Nat.eqb (A cur + Size cur) (A m2) && Nat.eqb (B cur + Size cur) (B m2)
  then (merged, mkMatch (A cur) (B cur) (Size cur + Size m2))
  else (if Nat.ltb 0 (Size cur) then merged ++ [cur] else merged, m2).

Definition GetMatchingBlocks (m : Matcher) : option (list Match) :=
  let la := length (a m) in let lb := length (b m) in
  let? blocks := blocksLoop (2 * la + 1) m [mkSpan 0 la 0 lb] [] in
  let (merged, cur) := foldl mergeStep ([], mkMatch 0 0 0) (sortMatches blocks) in
  let merged := if Nat.ltb 0 (Size cur) then merged ++ [cur] else merged in
  Some (merged ++ [mkMatch la lb 0]).

(** ** The longest common block *)

Section Longest.
Context (x y : list line).

(** the lines of [x] from [i] and of [y] from [j] agree for [n] lines *)
Definition common (i j n : nat) : Prop :=
  forall d, (d < n)%nat -> exists e, x !! (i + d)%nat = Some e /\ y !! (j + d)%nat = Some e.

(** length of the common run that ends before [i] and [j] *)
Fixpoint run (lo lo' i j : nat) : nat :=
  match i, j with
  | S i, S j =>
      if Nat.leb lo i && Nat.leb lo' j && bool_decide (is_Some (x !! i) /\ x !! i = y !! j)
      then S (run lo lo' i j) else 0
  | _, _ => 0
  end.

Lemma run_common lo lo' i j :
  let k := run lo lo' i j in
  (k <= i)%nat /\ (k <= j)%nat /\ common (i - k) (j - k) k /\ (0 < k -> lo <= i - k /\ lo' <= j - k)%nat.
Proof.
  revert j. induction i as [|i IH]; intros [|j]; cbn [run]; cbv zeta; try (split_and!; try lia; intros d; lia).
  case_if; [|split_and!; try lia; intros d; lia].
  apply andb_true_iff in E as [[El%Nat.leb_le El'%Nat.leb_le]%andb_true_iff Ee%bool_decide_eq_true].
  destruct (IH j) as (K1 & K2 & K3 & K4). set (k := run lo lo' i j) in *. split_and!; [lia|lia| |].
  - intros d Hd. replace (S i - S k)%nat with (i - k)%nat by lia. replace (S j - S k)%nat with (j - k)%nat by lia.
    destruct (decide (d = k)) as [->|Hne]; [|apply K3; lia].
    replace (i - k + k)%nat with i by lia. replace (j - k + k)%nat with j by lia.
    destruct Ee as [[e He] Heq]. exists e. by rewrite <- Heq.
  - intros _. replace (S i - S k)%nat with (i - k)%nat by lia. replace (S j - S k)%nat with (j - k)%nat by lia.
    destruct (decide (0 < k)%nat); [auto|]. replace k with 0%nat by lia. lia.
Qed.

Lemma run_longest lo lo' i j n :
  common i j n -> (lo <= i)%nat -> (lo' <= j)%nat -> (n <= run lo lo' (i + n) (j + n))%nat.
Proof.
  revert i j. induction n as [|n IH]; intros i j Hc Hi Hj; [lia|].
  rewrite !Nat.add_succ_r. cbn [run].
  destruct (Hc n ltac:(lia)) as (e & He & He').
  rewrite (proj2 (Nat.leb_le _ _)), (proj2 (Nat.leb_le _ _)), bool_decide_true by (first [lia|split; [by eexists|congruence]]).
  cbn. apply le_n_S, IH; [|lia|lia]. intros d Hd. apply Hc. lia.
Qed.

Lemma run_step lo lo' i j e :
  x !! i = Some e -> y !! j = Some e -> (lo <= i)%nat -> (lo' <= j)%nat ->
  run lo lo' (S i) (S j) = S (run lo lo' i j).
Proof.
  intros He He' Hi Hj. cbn [run]. rewrite (proj2 (Nat.leb_le _ _)), (proj2 (Nat.leb_le _ _)), bool_decide_true by
    (first [lia|split; [by eexists|congruence]]). done.
Qed.

Lemma run_mismatch lo lo' i j : x !! i <> y !! j -> run lo lo' (S i) (S j) = 0%nat.
Proof. intros Hne. cbn [run]. rewrite bool_decide_false by (by intros [_ ?]). by rewrite !andb_false_r. Qed.

(** *** The index of lines *)

Lemma b2j_spec e j : j ∈ default [] (buildB2J y !! e) <-> y !! j = Some e.
Proof.
  unfold buildB2J. induction y as [|l z IH] using rev_ind; [cbn; rewrite lookup_empty, elem_of_nil; by split|].
  rewrite imap_app, foldl_app. cbn [imap foldl]. set (m := foldl _ _ _) in *.
  change (imap (pair ∘ Nat.add (length z)) [l]) with [((length z + 0)%nat, l)]. cbn [foldl].
  unfold addIndex. cbn [fst snd]. destruct (decide (l = e)) as [->|Hne].
  - rewrite lookup_insert_eq. cbn [default from_option id]. rewrite elem_of_app, list_elem_of_singleton, IH.
    rewrite lookup_snoc_Some. rewrite Nat.add_0_r. split.
    + intros [H| ->]; [left; split; [by eapply lookup_lt_Some|done]|by right].
    + intros [[_ ?]|[-> _]]; [by left|by right].
  - rewrite lookup_insert_ne, IH by done. rewrite lookup_snoc_Some. split.
    + intros H. left. split; [by eapply lookup_lt_Some|done].
    + intros [[_ ?]|[_ ?]]; [done|congruence].
Qed.

Lemma b2j_sorted e : StronglySorted lt (default [] (buildB2J y !! e)).
Proof.
  assert (Hb : forall z, Forall (fun j => j < length z)%nat (default [] (buildB2J z !! e)) /\
    StronglySorted lt (default [] (buildB2J z !! e))); [|apply Hb].
  intros z. unfold buildB2J. induction z as [|l z IH] using rev_ind; [cbn; rewrite lookup_empty; by split; constructor|].
  rewrite imap_app, foldl_app. cbn [imap foldl]. set (m := foldl _ _ _) in *. rewrite length_app. cbn [length].
  change (imap (pair ∘ Nat.add (length z)) [l]) with [((length z + 0)%nat, l)]. cbn [foldl]. rewrite Nat.add_0_r.
  destruct IH as [IH1 IH2]. unfold addIndex. cbn [fst snd]. destruct (decide (l = e)) as [->|Hne].
  - rewrite lookup_insert_eq. cbn [default from_option id]. split.
    + apply Forall_app. split; [|constructor; [lia|done]]. eapply Forall_impl; [exact IH1|]. intros; cbn in *; lia.
    + clear -IH1 IH2. induction IH2 as [|j js Hs IH Hj]; [repeat constructor|]. cbn.
      apply Forall_cons in IH1 as [H1 H2]. constructor; [by apply IH|]. apply Forall_app. split; [done|by constructor].
  - rewrite lookup_insert_ne by done. split; [|done]. eapply Forall_impl; [exact IH1|]. intros; cbn in *; lia.
Qed.

End Longest.

(** *** The rows of the dynamic program *)

Section Find.
Context (m : Matcher) (Hm : b2j m = buildB2J (b m)).
Context (lo hi lo' hi' : nat) (Hhi : (hi <= length (a m))%nat) (Hhi' : (hi' <= length (b m))%nat).

Abbreviation common := (common (a m) (b m)).
Abbreviation run := (run (a m) (b m) lo lo').

(** a block of the ranges, with rows before [i] *)
Definition blockIn (i : nat) (r : Match) : Prop :=
  common (A r) (B r) (Size r) /\ (lo <= A r)%nat /\ (A r + Size r <= i)%nat /\
  (lo' <= B r)%nat /\ (B r + Size r <= hi')%nat.

Definition row (i : nat) (j2len : gmap nat nat) : Prop :=
  forall j, default 0%nat (j2len !! j) = if bool_decide (lo' <= j < hi')%nat then run i (S j) else 0%nat.

Lemma previousLength_row i j2len j :
  row i j2len -> (lo' <= j < hi')%nat -> previousLength j2len j = run i j.
Proof.
  intros Hrow Hj. destruct j as [|j]; cbn [previousLength]; [by destruct i|]. rewrite Hrow. case_bool_decide; [done|].
  destruct i as [|i]; [done|]. cbn. rewrite (proj2 (Nat.leb_gt lo' j)) by lia. by rewrite andb_false_r.
Qed.

Lemma scanRow_ok i j2len new best js e :
  a m !! i = Some e -> (lo <= i)%nat -> row i j2len -> StronglySorted lt js ->
  Forall (fun j => b m !! j = Some e) js -> blockIn (S i) best -> (lo' <= hi')%nat ->
  let r := scanRow i lo' hi' j2len new best js in
  (forall j, default 0%nat (r.1 !! j) =
     if bool_decide (j ∈ js /\ (lo' <= j < hi')%nat) then run (S i) (S j) else default 0%nat (new !! j)) /\
  blockIn (S i) r.2 /\ (Size best <= Size r.2)%nat /\
  (forall j, j ∈ js -> (lo' <= j < hi')%nat -> run (S i) (S j) <= Size r.2)%nat.
Proof.
  intros He Hi Hrow. revert new best. induction js as [|j js IH]; intros new best Hs Hjs Hb Hle; cbn [scanRow]; cbv zeta.
  { split_and!; [|done|done|by intros j ?%elem_of_nil]. intros j. rewrite bool_decide_false; [done|].
    by intros [?%elem_of_nil _]. }
  apply StronglySorted_inv in Hs as [Hs Hlt]. apply Forall_cons in Hjs as [Hj Hjs].
  destruct (Nat.ltb_spec j lo') as [Hjl|Hjl].
  { destruct (IH new best Hs Hjs Hb Hle) as (R1 & R2 & R3 & R4). split_and!; try done.
    - intros j'. rewrite R1. apply (f_equal (fun c : bool => if c then _ else _)). apply bool_decide_ext.
      rewrite elem_of_cons. split; [by intros []; auto|]. intros [[->|?] ?]; [lia|done].
    - intros j' [->|?]%elem_of_cons ?; [lia|by apply R4]. }
  destruct (Nat.leb_spec hi' j) as [Hjh|Hjh].
  { assert (Hout : forall j', j' ∈ j :: js -> (hi' <= j')%nat).
    { intros j' [->|Hin]%elem_of_cons; [done|]. rewrite Forall_forall in Hlt. specialize (Hlt j' Hin). lia. }
    cbn [fst snd]. split_and!; try done.
    - intros j'. rewrite bool_decide_false; [done|]. intros [Hin ?]. specialize (Hout j' Hin). lia.
    - intros j' Hin ?. specialize (Hout j' Hin). lia. }
  assert (Hk : (previousLength j2len j + 1)%nat = run (S i) (S j)).
  { rewrite (previousLength_row i) by (done || lia). rewrite (run_step _ _ _ _ _ _ e) by done. lia. }
  rewrite Hk. set (k := run (S i) (S j)) in *. set (best' := if Nat.ltb (Size best) k then _ else best).
  assert (Hb' : blockIn (S i) best' /\ (Size best <= Size best')%nat /\ (k <= Size best')%nat).
  { unfold best'. destruct (Nat.ltb_spec (Size best) k) as [Hlt'|Hge]; [|by split_and!].
    destruct (run_common (a m) (b m) lo lo' (S i) (S j)) as (K1 & K2 & K3 & K4). fold k in K1, K2, K3, K4.
    unfold blockIn. cbn [A B Size]. rewrite !Nat.add_1_r. specialize (K4 ltac:(lia)). split_and!; try lia. exact K3. }
  destruct Hb' as (Hb1 & Hb2 & Hb3).
  destruct (IH (<[j := k]> new) best' Hs Hjs Hb1 Hle) as (R1 & R2 & R3 & R4). split_and!; try done; [|lia|].
  - intros j'. rewrite R1. destruct (decide (j' = j)) as [->|Hne].
    + rewrite (bool_decide_true (j ∈ j :: js /\ _)) by (split; [by left|lia]).
      case_bool_decide; [done|]. by rewrite lookup_insert_eq.
    + rewrite lookup_insert_ne by done. apply (f_equal (fun c : bool => if c then _ else _)). apply bool_decide_ext.
      rewrite elem_of_cons. naive_solver.
  - intros j' [->|?]%elem_of_cons ?; [fold k; lia|by apply R4].
Qed.

(** every block of the ranges with rows before [i] is at most as long as [r] *)
Definition covers (i : nat) (r : Match) : Prop :=
  forall i' j, (i' <= i)%nat -> (lo' <= j < hi')%nat -> (run i' (S j) <= Size r)%nat.

Lemma findRow_ok i st :
  (lo <= i < hi)%nat -> (lo' <= hi')%nat -> row i st.1 -> blockIn i st.2 -> covers i st.2 ->
  exists st', findRow m lo' hi' st i = Some st' /\ row (S i) st'.1 /\ blockIn (S i) st'.2 /\ covers (S i) st'.2.
Proof.
  intros Hi Hle Hrow Hb Hc. unfold findRow. destruct (lookup_lt_is_Some_2 (a m) i ltac:(lia)) as [e He].
  rewrite He. cbn [mbind option_bind]. eexists. split; [done|]. rewrite Hm.
  assert (Hjs : Forall (fun j => b m !! j = Some e) (default [] (buildB2J (b m) !! e))).
  { apply Forall_forall. intros j. apply b2j_spec. }
  assert (Hb' : blockIn (S i) st.2) by (destruct Hb as (? & ? & ? & ? & ?); by split_and!; try lia).
  destruct (scanRow_ok i st.1 ∅ st.2 _ e He ltac:(lia) Hrow (b2j_sorted (b m) e) Hjs Hb' Hle) as (R1 & R2 & R3 & R4).
  assert (Hmis : forall j, j ∉ default [] (buildB2J (b m) !! e) -> run (S i) (S j) = 0%nat).
  { intros j Hj. apply run_mismatch. rewrite He. intros Heq. apply Hj, b2j_spec. by symmetry. }
  split_and!; [|done|].
  - intros j. rewrite R1, lookup_empty. cbn [default from_option].
    case_bool_decide as H1; case_bool_decide as H2; try done; [by destruct H1|].
    symmetry. apply Hmis. intros Hin. by apply H1.
  - intros i' j Hi' Hj. destruct (decide (i' = S i)) as [->|Hne].
    + destruct (decide (j ∈ default [] (buildB2J (b m) !! e))) as [Hin|Hout]; [by apply R4|].
      rewrite (Hmis j Hout). lia.
    + etrans; [|exact R3]. apply Hc; [lia|done].
Qed.

Lemma findRows_ok n st :
  (lo + n <= hi)%nat -> (lo' <= hi')%nat ->
  (n = 0%nat -> st.1 = ∅) -> st = (∅, mkMatch lo lo' 0) ->
  exists st', foldM (findRow m lo' hi') st (seq lo n) = Some st' /\
    row (lo + n) st'.1 /\ blockIn (lo + n) st'.2 /\ covers (lo + n) st'.2.
Proof.
  intros Hn Hle _ ->. induction n as [|n IH].
  - eexists. split; [done|]. rewrite Nat.add_0_r.
    assert (H0 : forall i' j, (i' <= lo)%nat -> run i' j = 0%nat).
    { intros [|i'] [|j] Hi'; try done. cbn. by rewrite (proj2 (Nat.leb_gt lo i')) by lia. }
    split_and!.
    + intros j. cbn. rewrite lookup_empty. case_bool_decide; [|done]. by rewrite H0.
    + repeat split; cbn; try lia. intros d; lia.
    + intros i' j Hi' _. by rewrite H0.
  - destruct IH as (st & Hst & R1 & R2 & R3); [lia|]. rewrite seq_S.
    assert (Happ : forall s l1 l2, foldM (findRow m lo' hi') s (l1 ++ l2) =
      let? s := foldM (findRow m lo' hi') s l1 in foldM (findRow m lo' hi') s l2).
    { intros s l1. revert s. induction l1 as [|z l1 IHl]; intros s l2; [done|]. cbn.
      destruct (findRow m lo' hi' s z); [|done]. cbn. apply IHl. }
    rewrite Happ, Hst. cbn [mbind option_bind foldM].
    destruct (findRow_ok (lo + n) st ltac:(lia) Hle R1 R2 R3) as (st' & -> & R1' & R2' & R3'). cbn.
    exists st'. rewrite Nat.add_succ_r. by split_and!.
Qed.

Lemma FindLongestMatch_ok :
  (lo <= hi)%nat -> (lo' <= hi')%nat ->
  exists r, FindLongestMatch m lo hi lo' hi' = Some r /\ blockIn hi r /\
    forall i j n, common i j n -> (lo <= i)%nat -> (i + n <= hi)%nat -> (lo' <= j)%nat -> (j + n <= hi')%nat ->
      (n <= Size r)%nat.
Proof.
  intros Hlh Hlh'. unfold FindLongestMatch.
  destruct (findRows_ok (hi - lo) (∅, mkMatch lo lo' 0)) as (st & -> & _ & R2 & R3); try done; [lia|].
  replace (lo + (hi - lo))%nat with hi in * by lia. exists st.2. split_and!; try done.
  intros i j n Hc Hi Hin Hj Hjn. destruct n as [|n]; [lia|].
  etrans; [apply (run_longest (a m) (b m) lo lo' i j (S n) Hc Hi Hj)|].
  rewrite (Nat.add_succ_r j n). apply R3; lia.
Qed.

End Find.

(** ** Matching blocks *)

Definition boxOf (r : Match) : span := mkSpan (A r) (A r + Size r) (B r) (B r + Size r).

Definition precedes (p q : span) : Prop := (ahi p <= alo q /\ bhi p <= blo q)%nat.
Definition apart (p q : span) : Prop := precedes p q \/ precedes q p.

Fixpoint allApart (l : list span) : Prop :=
  match l with [] => True | p :: l => Forall (apart p) l /\ allApart l end.

Lemma apart_sym p q : apart p q -> apart q p.
Proof. unfold apart. tauto. Qed.

Lemma allApart_perm l l' : l ≡ₚ l' -> allApart l -> allApart l'.
Proof.
  induction 1 as [|p l l' Hl IH|p q l|l l' l'' _ IH1 _ IH2]; cbn; try tauto.
  - intros [H1 H2]. split; [by rewrite <- Hl|auto].
  - intros [H1 [H2 H3]]. apply Forall_cons in H1 as [H0 H1]. split_and!; try done. constructor; [by apply apart_sym|done].
Qed.

(** a box inside another one is apart from what the other is apart from *)
Definition inside (q p : span) : Prop := (alo p <= alo q /\ ahi q <= ahi p /\ blo p <= blo q /\ bhi q <= bhi p)%nat.

Lemma apart_inside q p r : inside q p -> apart p r -> apart q r.
Proof. unfold inside, apart, precedes. lia. Qed.

Lemma allApart_refine p qs l :
  allApart (p :: l) -> Forall (fun q => inside q p) qs -> allApart qs -> allApart (qs ++ l).
Proof.
  intros [Hp Hl] Hin Hqs. induction qs as [|q qs IH]; [done|]. apply Forall_cons in Hin as [Hq Hin].
  destruct Hqs as [Hq1 Hq2]. cbn. split; [|auto]. apply Forall_app. split; [done|].
  eapply Forall_impl; [exact Hp|]. intros r. by apply apart_inside.
Qed.

(** the pair [i], [j] of equal lines does not fit in a chain that has block [r] *)
Definition crosses (r : Match) (i j : nat) : Prop :=
  ~ (i < A r /\ j < B r)%nat /\ ~ (A r + Size r <= i /\ B r + Size r <= j)%nat.

Definition inSpan (s : span) (i j : nat) : Prop := (alo s <= i < ahi s /\ blo s <= j < bhi s)%nat.

Section Blocks.
Context (x y : list line).
Abbreviation m := (NewMatcher x y).

Definition spanOk (s : span) : Prop :=
  (alo s <= ahi s <= length x /\ blo s <= bhi s <= length y)%nat.
Definition blockOk (r : Match) : Prop := (0 < Size r)%nat /\ common x y (A r) (B r) (Size r).

Definition complete (queue : list span) (blocks : list Match) : Prop :=
  forall i j e, x !! i = Some e -> y !! j = Some e ->
    (exists s, s ∈ queue /\ inSpan s i j) \/ exists r, r ∈ blocks /\ crosses r i j.

Record loopInv (queue : list span) (blocks : list Match) : Prop := mkLoopInv {
  l_spans : Forall spanOk queue;
  l_blocks : Forall blockOk blocks;
  l_apart : allApart (queue ++ (boxOf <$> blocks));
  l_complete : complete queue blocks
}.

Definition weight : list span -> nat := sum_list_with (fun s => 2 * (ahi s - alo s) + 1)%nat.

(** the spans left and right of a match *)
Definition leftOf (s : span) (r : Match) : list span :=
  if Nat.ltb (alo s) (A r) && Nat.ltb (blo s) (B r) then [mkSpan (alo s) (A r) (blo s) (B r)] else [].
Definition rightOf (s : span) (r : Match) : list span :=
  if Nat.ltb (A r + Size r) (ahi s) && Nat.ltb (B r + Size r) (bhi s)
  then [mkSpan (A r + Size r) (ahi s) (B r + Size r) (bhi s)] else [].

Lemma sides_weight s r :
  (0 < Size r)%nat -> inside (boxOf r) s -> (weight (rightOf s r ++ leftOf s r) < 2 * (ahi s - alo s) + 1)%nat.
Proof.
  unfold inside, rightOf, leftOf, weight. cbn. intros H0 Hi.
  do 2 case_if; cbn; lia.
Qed.

Lemma sides_inside s r :
  inside (boxOf r) s -> Forall (fun q => inside q s) (rightOf s r ++ leftOf s r ++ [boxOf r]).
Proof.
  intros Hi. unfold rightOf, leftOf. repeat rewrite Forall_app. unfold inside, boxOf in *. cbn in *.
  split_and!; [case_if|case_if|]; repeat constructor; cbn; lia.
Qed.

Lemma sides_apart s r : allApart (rightOf s r ++ leftOf s r ++ [boxOf r]).
Proof.
  unfold rightOf, leftOf. do 2 case_if; cbn; repeat split; repeat constructor; unfold apart, precedes, boxOf; cbn; lia.
Qed.

Lemma sides_ok s r : spanOk s -> inside (boxOf r) s -> Forall spanOk (rightOf s r ++ leftOf s r).
Proof.
  unfold spanOk, inside, rightOf, leftOf, boxOf. cbn. intros Hs Hi. apply Forall_app.
  split; case_if; repeat constructor; cbn; lia.
Qed.

Lemma loopInv_match s queue blocks r :
  loopInv (s :: queue) blocks -> blockOk r -> inside (boxOf r) s ->
  loopInv (rightOf s r ++ leftOf s r ++ queue) (blocks ++ [r]).
Proof.
  intros [L1 L2 L3 L4] Hr Hin. apply Forall_cons in L1 as [Hs L1]. split.
  - rewrite app_assoc. apply Forall_app. split; [by apply sides_ok|done].
  - apply Forall_app. split; [done|by constructor].
  - eapply allApart_perm; [|apply (allApart_refine s _ _ L3 (sides_inside s r Hin) (sides_apart s r))].
    rewrite fmap_app. cbn. solve_Permutation.
  - intros i j e Hi Hj. destruct (L4 i j e Hi Hj) as [(t & Ht & Hit)|(r' & Hr' & Hx)].
    + apply elem_of_cons in Ht as [->|Ht].
      * assert (Hcase : crosses r i j \/ (i < A r /\ j < B r)%nat \/ (A r + Size r <= i /\ B r + Size r <= j)%nat)
          by (unfold crosses; lia).
        destruct Hcase as [Hc|[Hl|Hr']]; [right; exists r; split; [set_solver|done]|left..].
        -- exists (mkSpan (alo s) (A r) (blo s) (B r)). unfold leftOf, inSpan in *.
           rewrite (proj2 (Nat.ltb_lt _ _)), (proj2 (Nat.ltb_lt _ _)) by lia. cbn. split; [set_solver|lia].
        -- exists (mkSpan (A r + Size r) (ahi s) (B r + Size r) (bhi s)). unfold rightOf, inSpan in *.
           rewrite (proj2 (Nat.ltb_lt _ _)), (proj2 (Nat.ltb_lt _ _)) by lia. cbn. split; [set_solver|lia].
      * left. exists t. split; [set_solver|done].
    + right. exists r'. split; [set_solver|done].
Qed.

Lemma loopInv_empty s queue blocks r :
  loopInv (s :: queue) blocks -> Size r = 0%nat ->
  (forall i j n, common x y i j n -> alo s <= i -> i + n <= ahi s -> blo s <= j -> j + n <= bhi s -> n <= Size r)%nat ->
  loopInv queue blocks.
Proof.
  intros [L1 L2 L3 L4] H0 Hmax. split; [by apply Forall_cons in L1 as [_ ?]|done|by destruct L3|].
  intros i j e Hi Hj. destruct (L4 i j e Hi Hj) as [(t & [->|Ht]%elem_of_cons & Hit)|?]; [|left; by exists t|by right].
  exfalso. assert (Hc : common x y i j 1).
  { intros d Hd. replace d with 0%nat by lia. rewrite !Nat.add_0_r. by exists e. }
  unfold inSpan in Hit. specialize (Hmax i j 1%nat Hc). lia.
Qed.

Lemma blocksLoop_ok fuel queue blocks :
  loopInv queue blocks -> (weight queue <= fuel)%nat ->
  exists blocks', blocksLoop fuel m queue blocks = Some blocks' /\ loopInv [] blocks'.
Proof.
  revert queue blocks. induction fuel as [|fuel IH]; intros queue blocks L Hf.
  { destruct queue as [|s queue]; [by exists blocks|]. unfold weight in Hf. cbn in Hf. lia. }
  destruct queue as [|s queue]; [by exists blocks|]. cbn [blocksLoop].
  pose proof (l_spans _ _ L) as Hs. apply Forall_cons in Hs as [[[Ha Ha'] [Hb Hb']] _].
  destruct (FindLongestMatch_ok m eq_refl (alo s) (ahi s) (blo s) (bhi s)) as (r & -> & Hblock & Hmax); try done.
  destruct Hblock as (Hc & Hblock). cbn [mbind option_bind]. fold (leftOf s r) (rightOf s r).
  change (weight (s :: queue)) with (2 * (ahi s - alo s) + 1 + weight queue)%nat in Hf.
  destruct (Nat.ltb_spec 0 (Size r)) as [Hpos|Hz].
  - assert (Hin : inside (boxOf r) s) by (unfold inside; cbn; lia). apply IH; [by apply loopInv_match|].
    rewrite app_assoc. unfold weight. rewrite sum_list_with_app. fold weight.
    pose proof (sides_weight s r Hpos Hin). lia.
  - apply IH; [|lia]. by apply (loopInv_empty s queue blocks r L); [lia|].
Qed.

(** *** Sorting and merging *)

Lemma compareMatch_le p q : compareMatch p q <= 0 -> (A p <= A q)%nat.
Proof.
  unfold compareMatch. destruct (Nat.eqb_spec (A p) (A q)), (Nat.ltb_spec (A p) (A q)); cbn [negb]; lia.
Qed.
Lemma compareMatch_gt p q : 0 < compareMatch p q -> (A q <= A p)%nat.
Proof.
  unfold compareMatch. destruct (Nat.eqb_spec (A p) (A q)), (Nat.ltb_spec (A p) (A q)); cbn [negb]; lia.
Qed.

Lemma sorted_snoc {T} (R : T -> T -> Prop) l z :
  StronglySorted R l -> Forall (fun w => R w z) l -> StronglySorted R (l ++ [z]).
Proof.
  induction 1 as [|w l Hs IH Hw]; intros Hz; [repeat constructor|]. apply Forall_cons in Hz as [Hz1 Hz2].
  cbn. constructor; [by apply IH|]. apply Forall_app. split; [done|by constructor].
Qed.

Definition laterFirst (p q : Match) : Prop := (A q <= A p)%nat.

Lemma shiftUp_ok l key :
  StronglySorted laterFirst l -> shiftUp l key ≡ₚ key :: l /\ StronglySorted laterFirst (shiftUp l key).
Proof.
  induction 1 as [|p l Hs [IH1 IH2] Hp]; cbn [shiftUp]; [split; [done|repeat constructor]|].
  destruct (compareMatch p key >? 0) eqn:E; rewrite Z.gtb_ltb in E; zb.
  - split; [rewrite IH1; apply perm_swap|]. constructor; [done|]. rewrite IH1. constructor; [by apply compareMatch_gt|done].
  - split; [done|]. constructor; [by constructor|]. pose proof (compareMatch_le p key E).
    constructor; [done|]. eapply Forall_impl; [exact Hp|]. unfold laterFirst. intros; lia.
Qed.

Lemma sortMatches_ok l :
  sortMatches l ≡ₚ l /\ StronglySorted (fun p q => A p <= A q)%nat (sortMatches l).
Proof.
  unfold sortMatches.
  assert (H : forall l acc, StronglySorted laterFirst acc ->
    foldl shiftUp acc l ≡ₚ acc ++ l /\ StronglySorted laterFirst (foldl shiftUp acc l)).
  { clear l. induction l as [|p l IH]; intros acc Hacc; cbn [foldl]; [by rewrite app_nil_r|].
    destruct (shiftUp_ok acc p Hacc) as [H1 H2]. destruct (IH _ H2) as [H3 H4]. split; [|done].
    rewrite H3, H1. solve_Permutation. }
  destruct (H l [] ltac:(constructor)) as [H1 H2]. split; [by rewrite reverse_Permutation, H1|].
  clear H1. induction H2 as [|p k Hs IH Hp]; [constructor|]. rewrite reverse_cons.
  apply sorted_snoc; [exact IH|]. by rewrite reverse_Permutation.
Qed.

(** one block before another, not touching it *)
Definition separated (p q : Match) : Prop :=
  precedes (boxOf p) (boxOf q) /\ ~ (A p + Size p = A q /\ B p + Size p = B q)%nat.

Lemma separated_trans p c q :
  separated p c -> precedes (boxOf c) (boxOf q) -> (0 < Size c)%nat -> separated p q.
Proof. unfold separated, precedes. cbn. lia. Qed.

Record mergeInv (done rest : list Match) (merged : list Match) (cur : Match) : Prop := mkMergeInv {
  g_merged : Forall blockOk merged;
  g_cur : common x y (A cur) (B cur) (Size cur);
  g_start : Size cur = 0%nat -> cur = mkMatch 0 0 0 /\ merged = [] /\ done = [];
  g_sorted : StronglySorted separated merged;
  g_last : Forall (fun p => separated p cur) merged;
  g_rest : Forall (fun q => precedes (boxOf cur) (boxOf q)) rest;
  g_inside : Forall (fun p => exists q, q ∈ merged ++ [cur] /\ inside (boxOf p) (boxOf q)) done
}.

Lemma common_join i j n k : common x y i j n -> common x y (i + n) (j + n) k -> common x y i j (n + k).
Proof.
  intros H1 H2 d Hd. destruct (decide (d < n)%nat); [by apply H1|]. specialize (H2 (d - n)%nat ltac:(lia)).
  replace (i + n + (d - n))%nat with (i + d)%nat in H2 by lia.
  by replace (j + n + (d - n))%nat with (j + d)%nat in H2 by lia.
Qed.

Lemma mergeStep_ok done m2 rest merged cur :
  mergeInv done (m2 :: rest) merged cur -> blockOk m2 ->
  Forall (fun q => precedes (boxOf m2) (boxOf q)) rest ->
  let st := mergeStep (merged, cur) m2 in mergeInv (done ++ [m2]) rest st.1 st.2.
Proof.
  intros [G1 G2 G3 G4 G5 G6 G7] [Hpos Hc] Hrest. cbv zeta. unfold mergeStep. apply Forall_cons in G6 as [G6 G6'].
  destruct (Nat.eqb_spec (A cur + Size cur) (A m2)) as [Ea|Ea], (Nat.eqb_spec (B cur + Size cur) (B m2)) as [Eb|Eb];
    cbn [andb].
  1: { split; cbn [fst snd A B Size]; try done; [|lia| |].
    - apply common_join; [done|]. by rewrite Ea, Eb.
    - eapply Forall_impl; [exact Hrest|]. unfold precedes. cbn. intros q. lia.
    - apply Forall_app. split.
      + eapply Forall_impl; [exact G7|]. intros p (q & [Hq| ->%list_elem_of_singleton]%elem_of_app & Hin).
        * exists q. split; [set_solver|done].
        * eexists. split; [apply elem_of_app; right; by left|]. unfold inside in *. cbn in *. lia.
      + constructor; [|done]. eexists. split; [apply elem_of_app; right; by left|]. unfold inside. cbn. lia. }
  all: destruct (Nat.ltb_spec 0 (Size cur)) as [Hp|Hz].
  all: try (destruct (G3 ltac:(lia)) as (-> & -> & ->); cbn [fst snd];
    split; cbn; try done; try lia; try constructor; repeat constructor; try lia;
    exists m2; split; [by left|unfold inside; lia]).
  all: assert (Hsep : separated cur m2) by (split; [done|lia]).
  all: split; cbn [fst snd]; try done; try lia.
  all: try (apply Forall_app; split; [done|repeat constructor; done]).
  all: try (apply sorted_snoc; done).
  all: try (apply Forall_app; split; [|by constructor]; eapply Forall_impl; [exact G5|]; intros p Hp';
            by apply (separated_trans p cur)).
  all: apply Forall_app; split;
    [eapply Forall_impl; [exact G7|]; intros p (q & Hq & Hin); exists q; split; [set_solver|done]
    |constructor; [|done]; exists m2; split; [set_solver|unfold inside; lia]].
Qed.

Lemma merge_ok done rest merged cur :
  mergeInv done rest merged cur -> Forall blockOk rest ->
  StronglySorted (fun p q => precedes (boxOf p) (boxOf q)) rest ->
  let st := foldl mergeStep (merged, cur) rest in mergeInv (done ++ rest) [] st.1 st.2.
Proof.
  revert done merged cur. induction rest as [|m2 rest IH]; intros done merged cur G Hok Hs; cbn [foldl]; [by rewrite app_nil_r|].
  apply Forall_cons in Hok as [Hm2 Hok]. apply StronglySorted_inv in Hs as [Hs Hr].
  pose proof (mergeStep_ok done m2 rest merged cur G Hm2 Hr) as G'.
  destruct (mergeStep (merged, cur) m2) as [merged' cur']. cbv zeta in G'. cbn [fst snd] in G'.
  replace (done ++ m2 :: rest) with ((done ++ [m2]) ++ rest) by (by rewrite <- app_assoc).
  by apply IH.
Qed.

Lemma apart_sorted l :
  Forall blockOk l -> allApart (boxOf <$> l) -> StronglySorted (fun p q => A p <= A q)%nat l ->
  StronglySorted (fun p q => precedes (boxOf p) (boxOf q)) l.
Proof.
  induction l as [|p l IH]; intros Hok Hap Hs; [constructor|]. apply Forall_cons in Hok as [Hp Hok].
  rewrite fmap_cons in Hap. destruct Hap as [Ha Hap]. apply StronglySorted_inv in Hs as [Hs Hle]. constructor; [by apply IH|].
  rewrite Forall_forall in Hok, Hle |- *. pose proof (proj1 (Forall_forall _ _) Ha) as Ha'. clear Ha. rename Ha' into Ha. intros q Hq. specialize (Hle q Hq). specialize (Hok q Hq) as [Hok _].
  destruct Hp as [Hp _]. specialize (Ha (boxOf q) ltac:(apply list_elem_of_fmap; by exists q)).
  destruct Ha as [?|[Ha _]]; [done|]. cbn in Ha. lia.
Qed.

Lemma crosses_inside p q i j : inside (boxOf p) (boxOf q) -> crosses p i j -> crosses q i j.
Proof. unfold inside, crosses. cbn. lia. Qed.

Lemma GetMatchingBlocks_ok :
  exists blocks, GetMatchingBlocks m = Some (blocks ++ [mkMatch (length x) (length y) 0]) /\
    Forall blockOk blocks /\ StronglySorted separated blocks /\ complete [] blocks.
Proof.
  unfold GetMatchingBlocks. cbn [a b NewMatcher].
  assert (L0 : loopInv [mkSpan 0 (length x) 0 (length y)] []).
  { split; cbn; [repeat constructor; cbn; lia|constructor|by repeat constructor|].
    intros i j e Hi Hj. left. eexists. split; [by left|]. apply lookup_lt_Some in Hi, Hj. unfold inSpan. cbn. lia. }
  destruct (blocksLoop_ok (2 * length x + 1) _ _ L0) as (bs & Hbs & [_ L2 L3 L4]); [cbn; lia|].
  change (mkMatcher x y (buildB2J y)) with m. rewrite Hbs. cbn [mbind option_bind].
  destruct (sortMatches_ok bs) as [Hperm Hsort]. cbn in L3.
  assert (Hok : Forall blockOk (sortMatches bs)) by (by rewrite Hperm).
  assert (Hchain : StronglySorted (fun p q => precedes (boxOf p) (boxOf q)) (sortMatches bs)).
  { apply apart_sorted; [done| |done]. eapply allApart_perm; [|exact L3]. by rewrite Hperm. }
  assert (G0 : mergeInv [] (sortMatches bs) [] (mkMatch 0 0 0)).
  { split; cbn; try constructor; try done; [intros d; lia|]. apply Forall_forall. intros q _. unfold precedes. cbn. lia. }
  pose proof (merge_ok _ _ _ _ G0 Hok Hchain) as G. cbv zeta in G.
  destruct (foldl mergeStep ([], mkMatch 0 0 0) (sortMatches bs)) as [merged cur]. cbn [fst snd app] in G.
  destruct G as [G1 G2 G3 G4 G5 _ G7]. eexists. split; [done|].
  assert (Hfrom : forall blocks, (forall q, q ∈ merged ++ [cur] -> q ∈ blocks \/ sortMatches bs = []) -> complete [] blocks).
  { intros blocks Hin i j e Hi Hj. destruct (L4 i j e Hi Hj) as [(s & Hs & _)|(r & Hr & Hx)]; [by apply elem_of_nil in Hs|].
    right. rewrite <- Hperm in Hr. rewrite Forall_forall in G7. destruct (G7 r Hr) as (q & Hq & Hins).
    destruct (Hin q Hq) as [Hb|He]; [|by rewrite He in Hr; apply elem_of_nil in Hr].
    exists q. split; [done|by eapply crosses_inside]. }
  destruct (Nat.ltb_spec 0 (Size cur)) as [Hp|Hz].
  - split_and!; [|by apply sorted_snoc|by apply Hfrom; left]. apply Forall_app. split; [done|by repeat constructor].
  - destruct (G3 ltac:(lia)) as (_ & -> & Hnil). split_and!; [done|constructor|]. apply Hfrom. by right.
Qed.

End Blocks.

(** ** Theorems *)

(** [FindLongestMatch] returns a common block of the two ranges, and no common
    block of the ranges is longer. *)
Theorem longest_match x y lo hi lo' hi' :
  (lo <= hi <= length x)%nat -> (lo' <= hi' <= length y)%nat ->
  exists r, FindLongestMatch (NewMatcher x y) lo hi lo' hi' = Some r /\
    common x y (A r) (B r) (Size r) /\ inside (boxOf r) (mkSpan lo hi lo' hi') /\
    forall i j n, common x y i j n -> (lo <= i)%nat -> (i + n <= hi)%nat -> (lo' <= j)%nat -> (j + n <= hi')%nat ->
      (n <= Size r)%nat.
Proof.
  intros Hx Hy. destruct (FindLongestMatch_ok (NewMatcher x y) eq_refl lo hi lo' hi') as (r & Hr & Hb & Hmax); [cbn; lia..|].
  exists r. destruct Hb as (Hc & Hb). by split_and!; try apply Hb.
Qed.

(** C33: [GetMatchingBlocks] ends without an index out of range.  Its blocks, before
    the sentinel at the ends of both sequences, are runs of equal lines, ordered
    and disjoint in both sequences, never touching each other, and maximal: no
    further pair of equal lines fits between them. *)
Theorem matching_blocks x y :
  exists blocks, GetMatchingBlocks (NewMatcher x y) = Some (blocks ++ [mkMatch (length x) (length y) 0]) /\
    Forall (fun r => (0 < Size r)%nat /\ common x y (A r) (B r) (Size r)) blocks /\
    StronglySorted separated blocks /\
    forall i j e, x !! i = Some e -> y !! j = Some e -> exists r, r ∈ blocks /\ crosses r i j.
Proof.
  destruct (GetMatchingBlocks_ok x y) as (blocks & Hb & Hok & Hs & Hc). exists blocks. split_and!; try done.
  intros i j e Hi Hj. destruct (Hc i j e Hi Hj) as [(s & Hs' & _)|?]; [by apply elem_of_nil in Hs'|done].
Qed.

Lemma longest_match_witness :
  exists r, FindLongestMatch (NewMatcher [[1]; [2]; [3]] [[2]; [3]; [9]]) 0 3 0 3 = Some r /\
    common [[1]; [2]; [3]] [[2]; [3]; [9]] (A r) (B r) (Size r).
Proof.
  destruct (longest_match [[1]; [2]; [3]] [[2]; [3]; [9]] 0 3 0 3) as (r & ? & ? & _); [cbn; lia..|by exists r].
Defined.

End SeqMatch.
