(* ===== verification/History.v ===== *)
(** * Terminal history of a pane ([history/history.go])

    Successive snapshots of a pane overlap; [merge] appends what is new to the
    stored history.  Pane text is bytes, as in [PaneDelta].  The directory of
    saved histories is a map from file names; [reread] is what comes back after
    encoding a state to JSON and decoding it ([encoding/json]).  The clock, and
    whether a write succeeds, are arguments; [None] is a run-time panic.

    The theorems: a merge never panics and the history stays bounded; a snapshot
    that continues the history extends it by exactly its new lines; merging the
    same snapshot again changes nothing; the content that is returned is the last
    lines of history and footer; the counter of refused tails is at most one. *)
From stdpp Require Import sorting.
From S2P Require Import Prelude GoLib SeqMatch.
Import SeqMatch.

Module History.

Abbreviation line := bytes.

Definition MaxLines : Z := 10000.
Definition FooterLines : nat := 6.
Definition SaveInterval : duration := 10 * second.

Record PaneState := mkPaneState {
  History : list line; Footer : list line; StaleRefusals : Z; LastHash : Z }.

Definition newPaneState : PaneState := mkPaneState [] [] 0 (-1).

(** ** Text *)

Definition newline : Z := 10.

(** [strings.Split] and [strings.Join] with a newline *)
Fixpoint split (s : bytes) : list line :=
  match s with
  | [] => [[]]
  | c :: r => if c =? newline then [] :: split r
              else match split r with l :: ls => (c :: l) :: ls | [] => [[c]] end
  end.

Fixpoint join (ls : list line) : bytes :=
  match ls with
  | [] => []
  | l :: ls => match ls with [] => l | _ => l ++ newline :: join ls end
  end.

Definition cut {T} (l : list T) (lo hi : nat) : option (list T) := slice l (Z.of_nat lo) (Z.of_nat hi).

Definition splitSnapshot (raw : bytes) : option (list line * list line) :=
  let lines := split raw in
  if Nat.leb (length lines) FooterLines then Some (lines, []) else
  let n := (length lines - FooterLines)%nat in
  let? body := cut lines 0 n in
  let? footer := cut lines n (length lines) in
  Some (body, footer).

Definition digitOrSemi (c : Z) : bool := (48 <=? c) && (c <=? 57) || (c =? 59).
Definition letter (c : Z) : bool := (65 <=? c) && (c <=? 90) || (97 <=? c) && (c <=? 122).
(** one of h l J K H f G *)
Definition modeFinal (c : Z) : bool := existsb (Z.eqb c) [104; 108; 74; 75; 72; 102; 71].

(** [[0-9;]*] and one byte of a class: the rest after it *)
Fixpoint afterParams (final : Z -> bool) (l : bytes) : option bytes :=
  match l with
  | [] => None
  | c :: l => if digitOrSemi c then afterParams final l else if final c then Some l else None
  end.

(** up to and with the bell *)
Fixpoint afterBell (l : bytes) : option bytes :=
  match l with [] => None | c :: l => if c =? 7 then Some l else afterBell l end.

(** the alternatives of [ansiRe] at the start of [l]: the rest after the match.
    They differ in the byte after the escape; for the bracket the first and the
    last alternative differ in the question mark. *)
Definition ansiRe (l : bytes) : option bytes :=
  match l with
  | 27 :: c :: l =>
      if c =? 91 then
        match l with
        | 63 :: l' => afterParams modeFinal l'
        | _ => afterParams letter l
        end
      else if c =? 93 then afterBell l
      else if (c =? 40) || (c =? 41) then
        match l with
        | d :: l => if (48 <=? d) && (d <=? 57) || (65 <=? d) && (d <=? 66) then Some l else None
        | [] => None
        end
      else if (c =? 62) || (c =? 61) || (c =? 60) then Some l
      else None
  | _ => None
  end.

(** [ReplaceAllString] with the empty string; a match consumes at least two bytes *)
Fixpoint stripAnsi (fuel : nat) (l : bytes) : bytes :=
  match fuel with
  | O => l
  | S fuel =>
      match l with
      | [] => []
      | c :: r => match ansiRe l with Some rest => stripAnsi fuel rest | None => c :: stripAnsi fuel r end
      end
  end.

(** [strings.TrimRight] with space, tab and newline *)
Fixpoint trimRight (l : bytes) : bytes :=
  match l with
  | [] => []
  | c :: l => match trimRight l with
              | [] => if (c =? 32) || (c =? 9) || (c =? newline) then [] else [c]
              | r => c :: r
              end
  end.

Definition NormalizeLine (l : line) : line :=
  trimRight (filter (fun c => negb (c =? 13) = true) (stripAnsi (length l) l)).

Definition normalizeLines (ls : list line) : list line := NormalizeLine <$> ls.

(** the runes of a string; a byte that starts no well-formed sequence is U+FFFD *)
Fixpoint runes (l : bytes) : list Z :=
  match l with
  | [] => []
  | b0 :: l1 =>
      if b0 <? 0x80 then b0 :: runes l1 else
      match l1 with
      | b1 :: l2 =>
          if (0xC2 <=? b0) && (b0 <=? 0xDF) && cont_byte b1
          then Z.lor (Z.shiftl (Z.land b0 0x1F) 6) (Z.land b1 0x3F) :: runes l2 else
          match l2 with
          | b2 :: l3 =>
              if (0xE0 <=? b0) && (b0 <=? 0xEF) && cont_byte b2 &&
                 (if b0 =? 0xE0 then (0xA0 <=? b1) && (b1 <=? 0xBF)
                  else if b0 =? 0xED then (0x80 <=? b1) && (b1 <=? 0x9F) else cont_byte b1)
              then Z.lor (Z.lor (Z.shiftl (Z.land b0 0x0F) 12) (Z.shiftl (Z.land b1 0x3F) 6))
                     (Z.land b2 0x3F) :: runes l3 else
              match l3 with
              | b3 :: l4 =>
                  if (0xF0 <=? b0) && (b0 <=? 0xF4) && cont_byte b2 && cont_byte b3 &&
                     (if b0 =? 0xF0 then (0x90 <=? b1) && (b1 <=? 0xBF)
                      else if b0 =? 0xF4 then (0x80 <=? b1) && (b1 <=? 0x8F) else cont_byte b1)
                  then Z.lor (Z.lor (Z.shiftl (Z.land b0 0x07) 18) (Z.shiftl (Z.land b1 0x3F) 12))
                         (Z.lor (Z.shiftl (Z.land b2 0x3F) 6) (Z.land b3 0x3F)) :: runes l4
                  else 0xFFFD :: runes l1
              | [] => 0xFFFD :: runes l1
              end
          | [] => 0xFFFD :: runes l1
          end
      | [] => [0xFFFD]
      end
  end.

(** a [uint64]; the code stores its sixteen hexadecimal digits, and -1 stands for
    the empty string of a new pane *)
Definition hashLines (lines : list line) : Z :=
  foldl (fun h l => u64 (foldl (fun h c => u64 (h * 31 + c)) h (runes l) * 31 + newline)) 0 lines.

(** ** Overlap *)

(** [history[off+i..] = current[i..]] for [n] lines *)
Fixpoint sameFrom (history current : list line) (off i n : nat) : bool :=
  match n with
  | O => true
  | S n => if decide (history !! (off + i)%nat = current !! i)
           then sameFrom history current off (S i) n else false
  end.

Fixpoint overlapLoop (history current : list line) (k : nat) : nat :=
  match k with
  | O => 0
  | S k' => if sameFrom history current (length history - k) 0 k then k else overlapLoop history current k'
  end.

Definition tailOverlap (history current : list line) : nat :=
  overlapLoop history current (Nat.min (length history) (length current)).

Definition nonEmptyLines (ls : list line) : nat := length (filter (fun l => l <> []) ls).

Definition betterBlock (history : list line) (best : Match) (block : Match) : option Match :=
  if Nat.ltb (Size block) 2 then Some best else
  let? lines := cut history (A block) (A block + Size block) in
  if Nat.ltb (nonEmptyLines lines) 2 then Some best
  else Some (if Nat.ltb (Size best) (Size block) ||
                (Nat.eqb (Size block) (Size best) && Nat.ltb (A best) (A block)) then block else best).

Definition sequenceMatch (history current : list line) : option Match :=
  if bool_decide (history = []) || bool_decide (current = []) then Some (mkMatch 0 0 0) else
  let? blocks := GetMatchingBlocks (NewMatcher history current) in
  foldM (betterBlock history) (mkMatch 0 0 0) blocks.

(** ** Merging *)

(** [copy(dst[lo:hi], src)] *)
Definition copyAt {T} (dst : list T) (lo hi : nat) (src : list T) : option (list T) :=
  let? old := cut dst lo hi in
  Some (take lo dst ++ take (hi - lo) src ++ drop (lo + Nat.min (hi - lo) (length src)) dst).

Definition set_History (h : list line) (s : PaneState) : PaneState :=
  mkPaneState h (Footer s) (StaleRefusals s) (LastHash s).
Definition set_StaleRefusals (n : Z) (s : PaneState) : PaneState :=
  mkPaneState (History s) (Footer s) n (LastHash s).

Definition applyMatch (state : PaneState) (body : list line) (match_ : Match) : option PaneState :=
  let historyEnd := (A match_ + Size match_)%nat in
  let currentEnd := (B match_ + Size match_)%nat in
  let? src := cut body (B match_) currentEnd in
  let? history := copyAt (History state) (A match_) historyEnd src in
  let state := set_History history state in
  let? currentSuffix := cut body currentEnd (length body) in
  let historyTail := (length history - historyEnd)%nat in
  let rebase := let? kept := cut history 0 historyEnd in
                Some (set_StaleRefusals 0 (set_History (kept ++ currentSuffix) state)) in
  if bool_decide (currentSuffix = []) then Some (set_StaleRefusals 0 state)
  else if Nat.leb (length body) historyTail
       then Some (set_StaleRefusals 0 (set_History (history ++ body) state))
  else if Nat.leb historyTail 3 then rebase
  else if StaleRefusals state + 1 >=? 2 then rebase
       else Some (set_StaleRefusals (StaleRefusals state + 1) state).

(** the content to return and whether it was clipped *)
Definition joinContent (state : PaneState) (limit : Z) : option (bytes * bool) :=
  let historyLines := History state in
  let footerLines := Footer state in
  let truncated := (limit >? 0) && (len historyLines + len footerLines >? limit) in
  let? r := if truncated : bool then
              if len footerLines >=? limit
              then let? f := slice footerLines (len footerLines - limit) (len footerLines) in Some ([], f)
              else let? h := slice historyLines (len historyLines - (limit - len footerLines)) (len historyLines) in
                   Some (h, footerLines)
            else Some (historyLines, footerLines) in
  let '(h, f) := r in
  let parts := (if bool_decide (h = []) then [] else [join h]) ++
               (if bool_decide (f = []) then [] else [join f]) in
  Some (join parts, truncated).

(** the state after a snapshot with a new body *)
Definition mergeBody (state : PaneState) (body footer : list line) : option PaneState :=
  let state := mkPaneState (History state) footer (StaleRefusals state) (hashLines body) in
  let normalized := normalizeLines body in
  let histNorm := normalizeLines (History state) in
  let overlap := tailOverlap histNorm normalized in
  let? state :=
    if Nat.ltb 0 overlap then
      let? prefix := cut body 0 overlap in
      let? history := copyAt (History state) (length (History state) - overlap) (length (History state)) prefix in
      let? suffix := cut body overlap (length body) in
      Some (set_History (history ++ suffix) state)
    else
      let? match_ := sequenceMatch histNorm normalized in
      if Nat.leb 2 (Size match_) then applyMatch state body match_
      else Some (set_StaleRefusals 0 (set_History (History state ++ body) state)) in
  if len (History state) >? MaxLines then
    let? kept := slice (History state) (len (History state) - MaxLines) (len (History state)) in
    Some (set_History kept state)
  else Some state.

(** the snapshot changes nothing: no body, or the body of the last snapshot *)
Definition unchanged (state : PaneState) (body : list line) : bool :=
  bool_decide (body = []) || ((hashLines body =? LastHash state) && (StaleRefusals state =? 0)).

(** ** The manager *)

Record Manager := mkManager {
  states : gmap string PaneState; disk : gmap string PaneState; lastSave : gmap string time }.

Definition NewManager (disk : gmap string PaneState) : Manager := mkManager ∅ disk ∅.

(** slashes and colons become underscores *)
Fixpoint safeName (s : string) : string :=
  match s with
  | EmptyString => EmptyString
  | String c s => String (if (b_of_ascii c =? 47) || (b_of_ascii c =? 58) then ascii_of_b 95 else c) (safeName s)
  end.

Definition stateFile (paneID : string) : string := (safeName paneID ++ ".json")%string.

Definition set_states (v : gmap string PaneState) (m : Manager) : Manager := mkManager v (disk m) (lastSave m).

Definition loadState (m : Manager) (paneID : string) : Manager * PaneState :=
  match states m !! paneID with
  | Some s => (m, s)
  | None => let s := default newPaneState (disk m !! stateFile paneID) in
            (set_states (<[paneID := s]> (states m)) m, s)
  end.

Section Disk.
Context (reread : PaneState -> PaneState).

Definition saveState (ok : bool) (paneID : string) (state : PaneState) (m : Manager) : Manager :=
  if ok then mkManager (states m) (<[stateFile paneID := reread state]> (disk m)) (lastSave m) else m.

Definition maybeSave (now : time) (ok : bool) (paneID : string) (state : PaneState) (m : Manager) : Manager :=
  if from_option (fun t => time_sub now t <? SaveInterval) false (lastSave m !! paneID) then m
  else let m := saveState ok paneID state m in
       mkManager (states m) (disk m) (<[paneID := now]> (lastSave m)).

Definition merge (now : time) (ok : bool) (m : Manager) (paneID : string) (rawContent : bytes) (limit : Z)
    : option (Manager * (bytes * bool)) :=
  let (m, state) := loadState m paneID in
  let? bf := splitSnapshot rawContent in
  if unchanged state bf.1 then let? r := joinContent state limit in Some (m, r) else
  let? state := mergeBody state bf.1 bf.2 in
  let m := maybeSave now ok paneID state (set_states (<[paneID := state]> (states m)) m) in
  let? r := joinContent state limit in
  Some (m, r).

Definition Merge (now : time) (ok : bool) (m : Manager) (paneID : string) (rawContent : bytes)
    : option (Manager * bytes) :=
  let? r := merge now ok m paneID rawContent 0 in Some (r.1, r.2.1).

Definition MergeLimited (now : time) (ok : bool) (m : Manager) (paneID : string) (rawContent : bytes)
    (limit : Z) : option (Manager * (bytes * bool)) := merge now ok m paneID rawContent limit.

Definition Content (m : Manager) (paneID : string) (limit : Z) : option (Manager * bytes) :=
  let (m, state) := loadState m paneID in
  let? r := joinContent state limit in Some (m, r.1).

Definition Discard (paneID : string) (m : Manager) : Manager :=
  mkManager (delete paneID (states m)) (delete (stateFile paneID) (disk m)) (delete paneID (lastSave m)).

(** every pane in memory, in the order of the map *)
Definition SaveAll (order : list (string * PaneState)) (ok : string -> bool) (m : Manager) : Manager :=
  foldl (fun m ps => saveState (ok ps.1) ps.1 ps.2 m) m order.

Definition Reconcile (active : gset string) (m : Manager) : Manager :=
  mkManager (filter (fun ps => ps.1 ∈ active) (states m))
    (filter (fun fs => fs.1 ∈ (set_map stateFile active : gset string)) (disk m))
    (filter (fun ps => ps.1 ∈ active \/ states m !! ps.1 = None) (lastSave m)).

End Disk.

(** ** Slices and copies *)

Lemma cut_ok {T} (l : list T) lo hi :
  (lo <= hi <= length l)%nat -> cut l lo hi = Some (take (hi - lo) (drop lo l)).
Proof.
  intros H. unfold cut, slice. rewrite (proj2 (Z.leb_le _ _)), (proj2 (Z.leb_le _ _)), (proj2 (Z.leb_le _ _)) by lia.
  cbn. do 2 f_equal; [lia|]. by rewrite Nat2Z.id.
Qed.

Lemma cut_prefix {T} (l : list T) n : (n <= length l)%nat -> cut l 0 n = Some (take n l).
Proof. intros H. rewrite cut_ok by lia. by rewrite Nat.sub_0_r, drop_0. Qed.

Lemma cut_suffix {T} (l : list T) n : (n <= length l)%nat -> cut l n (length l) = Some (drop n l).
Proof. intros H. rewrite cut_ok by lia. f_equal. apply take_ge. rewrite length_drop. lia. Qed.

Lemma slice_suffix {T} (l : list T) n :
  0 <= n <= len l -> slice l (len l - n) (len l) = Some (drop (length l - Z.to_nat n) l).
Proof.
  intros H. replace (len l - n) with (Z.of_nat (length l - Z.to_nat n)) by lia. apply (cut_suffix l). lia.
Qed.

Lemma copyAt_ok {T} (l : list T) lo hi src :
  (lo <= hi <= length l)%nat -> length src = (hi - lo)%nat ->
  copyAt l lo hi src = Some (take lo l ++ src ++ drop hi l).
Proof.
  intros H Hs. unfold copyAt. rewrite cut_ok by done. cbn. rewrite Hs, Nat.min_id, (take_ge src) by lia.
  do 4 f_equal. lia.
Qed.

(** ** Overlap *)

Lemma sameFrom_spec h c off i n :
  sameFrom h c off i n = true <-> forall d, (i <= d < i + n)%nat -> h !! (off + d)%nat = c !! d.
Proof.
  revert i. induction n as [|n IH]; intros i; cbn [sameFrom]; [split; [lia|done]|].
  destruct (decide (h !! (off + i)%nat = c !! i)) as [He|He].
  - rewrite IH. split; intros H d Hd; [|apply H; lia].
    destruct (decide (d = i)) as [->|]; [done|apply H; lia].
  - split; [done|]. intros H. destruct He. apply H. lia.
Qed.

(** the last [k] lines of [h] are the first [k] lines of [c] *)
Definition overlaps (h c : list line) (k : nat) : Prop :=
  (k <= length h)%nat /\ (k <= length c)%nat /\ drop (length h - k) h = take k c.

Lemma sameFrom_overlaps h c k :
  (k <= length h)%nat -> (k <= length c)%nat ->
  sameFrom h c (length h - k) 0 k = true <-> drop (length h - k) h = take k c.
Proof.
  intros Hh Hc. rewrite sameFrom_spec. split.
  - intros H. apply list_eq. intros d. rewrite lookup_drop. destruct (decide (d < k)%nat).
    + rewrite lookup_take_lt by done. apply H. lia.
    + rewrite !lookup_ge_None_2; [done|rewrite length_take; lia|lia].
  - intros H d Hd. rewrite <- lookup_drop, H. apply lookup_take_lt. lia.
Qed.

Lemma tailOverlap_ok h c :
  overlaps h c (tailOverlap h c) /\ forall k, overlaps h c k -> (k <= tailOverlap h c)%nat.
Proof.
  unfold tailOverlap. set (n := Nat.min (length h) (length c)).
  assert (H : forall k, (k <= n)%nat -> overlaps h c (overlapLoop h c k) /\
    forall k', (k' <= k)%nat -> overlaps h c k' -> (k' <= overlapLoop h c k)%nat).
  { induction k as [|k IH]; intros Hk.
    - split; [|intros; lia]. repeat split; cbn; try lia. by rewrite Nat.sub_0_r, drop_all.
    - cbn [overlapLoop]. pose proof (sameFrom_overlaps h c (S k) ltac:(lia) ltac:(lia)) as Hs.
      destruct (sameFrom h c (length h - S k) 0 (S k)).
      + split; [|intros; lia]. split_and!; [lia|lia|by apply Hs].
      + destruct IH as [I1 I2]; [lia|]. split; [done|]. intros k' Hk' Ho.
        destruct (decide (k' = S k)) as [->|]; [|apply I2; [lia|done]]. destruct Ho as (_ & _ & Ho). by apply Hs in Ho. }
  destruct (H n ltac:(lia)) as [H1 H2]. split; [done|]. intros k Hk. apply H2; [|done].
  destruct Hk as (? & ? & _). lia.
Qed.

(** ** Matching a snapshot against the history *)

Lemma common_range x y i j n : common x y i j n -> (0 < n)%nat -> (i + n <= length x /\ j + n <= length y)%nat.
Proof.
  intros H Hn. destruct (H (n - 1)%nat ltac:(lia)) as (e & H1%lookup_lt_Some & H2%lookup_lt_Some). lia.
Qed.

Lemma length_normalizeLines ls : length (normalizeLines ls) = length ls.
Proof. apply length_fmap. Qed.

Lemma sequenceMatch_ok h c :
  exists r, sequenceMatch h c = Some r /\ ((2 <= Size r)%nat -> common h c (A r) (B r) (Size r)).
Proof.
  unfold sequenceMatch. case_if; [eexists; split; [done|]; cbn; lia|].
  destruct (matching_blocks h c) as (blocks & -> & Hok & _). cbn [mbind option_bind].
  set (P := fun r : Match => (2 <= Size r)%nat -> common h c (A r) (B r) (Size r)).
  assert (H : forall l best, P best -> Forall (fun r => (2 <= Size r)%nat -> common h c (A r) (B r) (Size r)) l ->
    exists r, foldM (betterBlock h) best l = Some r /\ P r).
  { induction l as [|r l IH]; intros best Hb Hl; cbn [foldM]; [by exists best|]. apply Forall_cons in Hl as [Hr Hl].
    unfold betterBlock. destruct (Nat.ltb_spec (Size r) 2) as [|H2]; [by apply IH|].
    pose proof (common_range _ _ _ _ _ (Hr H2) ltac:(lia)). rewrite cut_ok by lia. cbn [mbind option_bind].
    repeat case_if; by apply IH. }
  apply H; [intros H2; cbn in H2; lia|]. apply Forall_app.
  split; [|constructor; [intros H2; cbn in H2; lia|done]].
  eapply Forall_impl; [exact Hok|]. intros r [_ Hc] _. done.
Qed.

Definition refusalsOk (s : PaneState) : Prop := 0 <= StaleRefusals s <= 1.

Lemma applyMatch_ok s body r :
  refusalsOk s -> (A r + Size r <= length (History s))%nat -> (B r + Size r <= length body)%nat ->
  exists s', applyMatch s body r = Some s' /\ refusalsOk s' /\ Footer s' = Footer s /\ LastHash s' = LastHash s.
Proof.
  intros Hs Ha Hb. unfold applyMatch. rewrite (cut_ok body (B r) (B r + Size r)) by lia. cbn [mbind option_bind].
  rewrite copyAt_ok; [|lia|rewrite length_take, length_drop; lia]. cbn [mbind option_bind].
  rewrite cut_suffix by lia. cbn [mbind option_bind]. set (h := take _ _ ++ _).
  assert (Hh : length h = length (History s)).
  { unfold h. rewrite !length_app, !length_take, !length_drop. lia. }
  rewrite Hh, cut_prefix by lia. cbn [mbind option_bind]. unfold refusalsOk in *. cbn [StaleRefusals set_History].
  repeat case_if; eexists; (split; [done|]); cbn; split_and!; try done; zb; lia.
Qed.

Lemma mergeBody_ok s body footer :
  refusalsOk s ->
  exists s', mergeBody s body footer = Some s' /\ refusalsOk s' /\ len (History s') <= MaxLines /\
    Footer s' = footer /\ LastHash s' = hashLines body.
Proof.
  intros Hs. unfold mergeBody. cbn [History]. set (s0 := mkPaneState _ footer _ _).
  destruct (tailOverlap_ok (normalizeLines (History s)) (normalizeLines body)) as [(O1 & O2 & _) _].
  rewrite length_normalizeLines in O1, O2. set (k := tailOverlap _ _) in *. clearbody k.
  assert (Hmid : exists s1, (if Nat.ltb 0 k then
      let? prefix := cut body 0 k in
      let? history := copyAt (History s) (length (History s) - k) (length (History s)) prefix in
      let? suffix := cut body k (length body) in Some (set_History (history ++ suffix) s0)
    else let? match_ := sequenceMatch (normalizeLines (History s)) (normalizeLines body) in
      if Nat.leb 2 (Size match_) then applyMatch s0 body match_
      else Some (set_StaleRefusals 0 (set_History (History s ++ body) s0))) = Some s1 /\
    refusalsOk s1 /\ Footer s1 = footer /\ LastHash s1 = hashLines body).
  { case_if.
    - rewrite cut_prefix by lia. cbn [mbind option_bind]. rewrite copyAt_ok by (rewrite ?length_take; lia).
      cbn [mbind option_bind]. rewrite cut_suffix by lia. eexists. by split_and!.
    - destruct (sequenceMatch_ok (normalizeLines (History s)) (normalizeLines body)) as (r & -> & Hr).
      cbn [mbind option_bind]. destruct (Nat.leb_spec 2 (Size r)) as [H2|]; [|eexists; split_and!; try done; unfold refusalsOk; cbn; lia].
      destruct (common_range _ _ _ _ _ (Hr H2) ltac:(lia)) as [Ha Hb]. rewrite length_normalizeLines in Ha, Hb.
      destruct (applyMatch_ok s0 body r Hs Ha Hb) as (s1 & ? & ? & ? & ?). by exists s1. }
  destruct Hmid as (s1 & -> & H1 & H2 & H3). cbn [mbind option_bind].
  destruct (len (History s1) >? MaxLines) eqn:E; zb; [|exists s1; split_and!; try done; lia].
  rewrite slice_suffix by (unfold MaxLines in *; lia). eexists. split_and!; try done. cbn. rewrite length_drop. unfold MaxLines in *. lia.
Qed.

(** [mergeBody] where the snapshot continues the history *)
Lemma mergeBody_overlap s body footer s' k :
  tailOverlap (normalizeLines (History s)) (normalizeLines body) = k -> (0 < k)%nat ->
  mergeBody s body footer = Some s' ->
  let lines := take (length (History s) - k) (History s) ++ body in
  History s' = drop (length lines - Z.to_nat MaxLines) lines.
Proof.
  intros Hk Hpos. destruct (tailOverlap_ok (normalizeLines (History s)) (normalizeLines body)) as [(O1 & O2 & _) _].
  rewrite Hk, length_normalizeLines in O1, O2. unfold mergeBody. cbn [History]. rewrite Hk.
  rewrite (proj2 (Nat.ltb_lt _ _)) by done. rewrite cut_prefix by lia. cbn [mbind option_bind].
  rewrite copyAt_ok by (rewrite ?length_take; lia). cbn [mbind option_bind]. rewrite cut_suffix by lia.
  cbn [mbind option_bind History set_History]. rewrite drop_all, app_nil_r, <- app_assoc, take_drop. cbv zeta.
  set (lines := take _ _ ++ body). destruct (len lines >? MaxLines) eqn:E; zb.
  - rewrite slice_suffix by (unfold MaxLines in *; lia). by intros [= <-].
  - intros [= <-]. cbn. replace (length lines - Z.to_nat MaxLines)%nat with 0%nat by lia. by rewrite drop_0.
Qed.

(** ** Joining *)

Lemma join_cons l ls : ls <> [] -> join (l :: ls) = l ++ newline :: join ls.
Proof. by destruct ls. Qed.

Lemma join_app l1 l2 : l1 <> [] -> l2 <> [] -> join (l1 ++ l2) = join l1 ++ newline :: join l2.
Proof.
  intros H1 H2. induction l1 as [|x l1 IH]; [done|]. destruct l1 as [|y l1].
  - cbn [app]. by rewrite join_cons.
  - change ((x :: y :: l1) ++ l2) with (x :: ((y :: l1) ++ l2)).
    rewrite !join_cons by (by cbn). rewrite IH by done. by rewrite <- app_assoc.
Qed.

Lemma join_parts h f :
  join ((if bool_decide (h = []) then [] else [join h]) ++ (if bool_decide (f = []) then [] else [join f])) = join (h ++ f).
Proof.
  destruct h as [|x h], f as [|y f]; [done|done| |].
  - rewrite (app_nil_r (x :: h)), (bool_decide_false (x :: h = [])), (bool_decide_true ([] = [])) by done. done.
  - rewrite (join_app (x :: h) (y :: f)), !bool_decide_false by done. done.
Qed.

Lemma split_join s : join (split s) = s.
Proof.
  induction s as [|c r IH]; [done|]. cbn [split]. destruct (split r) as [|l ls] eqn:E; [by destruct r|].
  destruct (Z.eqb_spec c newline) as [->|Hne]; [by rewrite join_cons, IH|].
  rewrite <- IH. by destruct ls.
Qed.

(** ** Theorems *)

(** What is returned to the phone is exactly the last [limit] lines of history
    followed by footer (all of them for no limit), and the flag tells whether
    lines were left out; the computation never slices out of range. *)
Theorem content_is_tail s limit :
  let lines := History s ++ Footer s in
  joinContent s limit =
    if (0 <? limit) && (limit <? len lines)
    then Some (join (drop (length lines - Z.to_nat limit) lines), true)
    else Some (join lines, false).
Proof.
  cbv zeta. unfold joinContent. rewrite length_app, Nat2Z.inj_add, Z.gtb_ltb.
  destruct (Z.ltb_spec 0 limit) as [H0|H0]; cbn [andb]; [|cbn; by rewrite join_parts].
  rewrite Z.gtb_ltb. destruct (Z.ltb_spec limit (len (History s) + len (Footer s))) as [Hl|Hl]; [|cbn; by rewrite join_parts].
  destruct (Z.geb_spec (len (Footer s)) limit) as [Hf|Hf].
  - rewrite slice_suffix by lia. cbn [mbind option_bind]. rewrite join_parts. cbn [app].
    rewrite drop_app_ge by lia. do 4 f_equal. lia.
  - rewrite slice_suffix by lia. cbn [mbind option_bind]. rewrite join_parts, drop_app_le by lia. do 5 f_equal. lia.
Qed.

(** the body of a snapshot is not empty *)
Lemma splitSnapshot_ok raw :
  exists body footer, splitSnapshot raw = Some (body, footer) /\ body <> [] /\ body ++ footer = split raw.
Proof.
  unfold splitSnapshot, FooterLines. assert (Hne : split raw <> []).
  { destruct raw as [|c r]; [done|]. cbn. case_if; [done|]. by destruct (split r). }
  destruct (Nat.leb_spec (length (split raw)) 6) as [H|H]; [exists (split raw), []; by rewrite app_nil_r|].
  rewrite cut_prefix, cut_suffix by lia. eexists _, _. split_and!; [done| |apply take_drop].
  intros He. apply (f_equal length) in He. rewrite length_take in He. cbn in He. lia.
Qed.

Lemma applyMatch_hash s body r s' : applyMatch s body r = Some s' -> LastHash s' = LastHash s.
Proof.
  unfold applyMatch. intros H. apply bind_Some in H as (src & _ & H). apply bind_Some in H as (h & _ & H).
  apply bind_Some in H as (suf & _ & H).
  assert (Hre : forall s'', (let? kept := cut h 0 (A r + Size r) in
    Some (set_StaleRefusals 0 (set_History (kept ++ suf) (set_History h s)))) = Some s'' -> LastHash s'' = LastHash s).
  { intros s'' (kept & _ & [= <-])%bind_Some. done. }
  repeat case_if_in H; auto; by injection H as <-.
Qed.

Lemma mergeBody_hash s body footer s' : mergeBody s body footer = Some s' -> LastHash s' = hashLines body.
Proof.
  unfold mergeBody. set (s0 := mkPaneState _ _ _ _). intros H. apply bind_Some in H as (s1 & H1 & H).
  assert (E1 : LastHash s1 = hashLines body).
  { case_if_in H1.
    - apply bind_Some in H1 as (pre & _ & H1). apply bind_Some in H1 as (h & _ & H1).
      apply bind_Some in H1 as (suf & _ & [= <-]). done.
    - apply bind_Some in H1 as (r & _ & H1). case_if_in H1; [by apply applyMatch_hash in H1|by injection H1 as <-]. }
  case_if_in H; [|by injection H as <-]. apply bind_Some in H as (kept & _ & [= <-]). done.
Qed.

Definition stateOk (s : PaneState) : Prop := len (History s) <= MaxLines /\ refusalsOk s.
Definition managerOk (m : Manager) : Prop :=
  map_Forall (fun _ => stateOk) (states m) /\ map_Forall (fun _ => stateOk) (disk m).

Lemma loadState_ok m p :
  managerOk m -> let (m', s) := loadState m p in managerOk m' /\ stateOk s /\ states m' !! p = Some s.
Proof.
  intros [M1 M2]. unfold loadState. destruct (states m !! p) as [s|] eqn:E; [split_and!; [done|by apply (M1 p)|done]|].
  set (s := default _ _). assert (Hs : stateOk s).
  { unfold s. destruct (disk m !! stateFile p) as [s'|] eqn:Ed; cbn; [by apply (M2 (stateFile p))|].
    unfold stateOk, refusalsOk, MaxLines. cbn. lia. }
  split_and!; [|done|cbn; by rewrite lookup_insert_eq]. split; cbn; [|done]. by apply map_Forall_insert_2.
Qed.

Section Runs.
Context (reread : PaneState -> PaneState).
Context (reread_ok : forall s, stateOk s -> stateOk (reread s)).

Lemma saveState_ok ok p s m : managerOk m -> stateOk s -> managerOk (saveState reread ok p s m).
Proof.
  intros [M1 M2] Hs. unfold saveState. case_if; [|done]. split; [done|]. cbn. apply map_Forall_insert_2; auto.
Qed.

Lemma historyMerge_ok now ok m p raw limit :
  managerOk m -> exists m' r, merge reread now ok m p raw limit = Some (m', r) /\ managerOk m'.
Proof.
  intros Hm. unfold merge. pose proof (loadState_ok m p Hm) as Hl. destruct (loadState m p) as [m1 s].
  destruct Hl as (M1 & S1 & _). destruct (splitSnapshot_ok raw) as (body & footer & -> & _). cbn [mbind option_bind fst snd].
  assert (Hj : forall s l, exists r, joinContent s l = Some r).
  { intros s' l. rewrite content_is_tail. case_if; by eexists. }
  case_if.
  - destruct (Hj s limit) as [r ->]. by exists m1, r.
  - destruct (mergeBody_ok s body footer (proj2 S1)) as (s' & -> & H1 & H2 & _). cbn [mbind option_bind].
    destruct (Hj s' limit) as [r ->]. eexists _, r. split; [done|]. unfold maybeSave.
    assert (M2 : managerOk (set_states (<[p := s']> (states m1)) m1)).
    { destruct M1. split; cbn; [by apply map_Forall_insert_2|done]. }
    case_if; [done|]. by apply (saveState_ok ok p s').
Qed.

(** the public operations, one after the other *)
Inductive op :=
| DoMerge (now : time) (ok : bool) (paneID : string) (raw : bytes) (limit : Z)
| DoContent (paneID : string) (limit : Z)
| DoDiscard (paneID : string)
| DoSaveAll (ok : string -> bool)
| DoReconcile (active : gset string).

Definition exec (m : Manager) (o : op) : option Manager :=
  match o with
  | DoMerge now ok p raw limit => let? r := MergeLimited reread now ok m p raw limit in Some r.1
  | DoContent p limit => let? r := Content m p limit in Some r.1
  | DoDiscard p => Some (Discard p m)
  | DoSaveAll ok => Some (SaveAll reread (map_to_list (states m)) ok m)
  | DoReconcile active => Some (Reconcile active m)
  end.

Lemma exec_ok m o : managerOk m -> exists m', exec m o = Some m' /\ managerOk m'.
Proof.
  intros Hm. destruct o as [now ok p raw limit|p limit|p|ok|active]; cbn [exec].
  - destruct (historyMerge_ok now ok m p raw limit Hm) as (m' & r & Hr & Hm'). unfold MergeLimited. rewrite Hr. by exists m'.
  - unfold Content. pose proof (loadState_ok m p Hm) as Hl. destruct (loadState m p) as [m1 s]. destruct Hl as (M1 & _).
    rewrite content_is_tail. case_if; by exists m1.
  - eexists. split; [done|]. destruct Hm. by split; cbn; apply map_Forall_delete.
  - eexists. split; [done|]. unfold SaveAll.
    assert (Hall : Forall (fun ps => stateOk ps.2) (map_to_list (states m))).
    { apply Forall_forall. intros [p s] Hps%elem_of_map_to_list. by apply (proj1 Hm p). }
    revert Hall. generalize (map_to_list (states m)). intros l Hall. revert m Hm. induction Hall as [|[p s] l Hps _ IH]; intros m Hm; [done|].
    cbn. apply IH. by apply saveState_ok.
  - eexists. split; [done|]. destruct Hm as [M1 M2]. split; cbn; intros k s [Hk _]%map_lookup_filter_Some;
      [by apply (M1 k)|by apply (M2 k)].
Qed.

(** In every sequence of merges, reads, discards, saves and reconciliations, no
    operation panics, no history in memory or on disk grows past the limit, and
    at most one snapshot in a row is refused as stale. *)
Theorem histories_bounded files ops :
  map_Forall (fun _ => stateOk) files ->
  exists m, foldM exec (NewManager files) ops = Some m /\ managerOk m.
Proof.
  intros Hd. assert (Hm : managerOk (NewManager files)) by (split; [apply map_Forall_empty|done]).
  revert Hm. generalize (NewManager files). induction ops as [|o ops IH]; intros m Hm; cbn [foldM]; [by exists m|].
  destruct (exec_ok m o Hm) as (m1 & -> & Hm1). cbn. by apply IH.
Qed.

(** A snapshot whose body is the body of the previous snapshot of the pane
    changes nothing, unless a tail was refused just before: the state and the
    content stay the same, whatever its footer lines are. *)
Theorem same_body_ignored now now' ok ok' m p raw raw' body footer footer' limit m1 r1 s1 :
  merge reread now ok m p raw limit = Some (m1, r1) ->
  splitSnapshot raw = Some (body, footer) -> splitSnapshot raw' = Some (body, footer') ->
  states m1 !! p = Some s1 -> StaleRefusals s1 = 0 ->
  merge reread now' ok' m1 p raw' limit = Some (m1, r1).
Proof.
  intros Hmerge Hraw Hraw' Hs1 Hst. unfold merge in *. destruct (loadState m p) as [m0 s0] eqn:El.
  rewrite Hraw in Hmerge. cbn [mbind option_bind fst snd] in Hmerge.
  assert (Hload : loadState m1 p = (m1, s1)) by (unfold loadState; by rewrite Hs1). rewrite Hload, Hraw'.
  cbn [mbind option_bind fst snd].
  assert (Hm0 : states m0 !! p = Some s0).
  { unfold loadState in El. destruct (states m !! p) eqn:E; simplify_eq; [done|]. cbn. by rewrite lookup_insert_eq. }
  destruct (unchanged s0 body) eqn:Eu.
  - destruct (joinContent s0 limit) as [r|] eqn:Ej; [|done]. cbn in Hmerge. injection Hmerge as <- <-.
    assert (s0 = s1) as -> by congruence. by rewrite Eu, Ej.
  - destruct (mergeBody s0 body footer) as [s2|] eqn:Eb; [|done]. cbn [mbind option_bind] in Hmerge.
    destruct (joinContent s2 limit) as [r|] eqn:Ej; [|done]. cbn [mbind option_bind] in Hmerge. injection Hmerge as <- <-.
    assert (s2 = s1) as ->.
    { unfold maybeSave, saveState in Hs1. repeat case_if_in Hs1; cbn in Hs1; rewrite lookup_insert_eq in Hs1; congruence. }
    assert (Hh : LastHash s1 = hashLines body).
    { by apply (mergeBody_hash s0 body footer). }
    unfold unchanged. rewrite Hh, Z.eqb_refl, Hst. cbn. rewrite orb_true_r. by rewrite Ej.
Qed.

End Runs.

(** While the lines of a transcript are distinct, a pane that scrolls through it
    is recorded exactly: when the history is the transcript up to line [p] and the
    snapshot shows lines [q] to [r] with at least one known line, the history
    becomes the transcript up to line [r] (up to colours and trailing blanks). *)
Theorem scroll_exact transcript s body footer p q r :
  let N := normalizeLines transcript in
  NoDup N -> refusalsOk s -> normalizeLines (History s) = take p N ->
  normalizeLines body = take (r - q) (drop q N) ->
  (q < p <= r)%nat -> (r <= length transcript)%nat -> Z.of_nat r <= MaxLines ->
  exists s', mergeBody s body footer = Some s' /\ normalizeLines (History s') = take r N.
Proof.
  intros N HN Hs HH Hb Hq Hr Hmax. destruct (mergeBody_ok s body footer Hs) as (s' & Hs' & _). exists s'. split; [done|].
  assert (HlN : length N = length transcript) by apply length_normalizeLines.
  assert (LH : length (History s) = p) by (rewrite <- length_normalizeLines, HH, length_take; lia).
  assert (LB : length body = (r - q)%nat) by (rewrite <- length_normalizeLines, Hb, length_take, length_drop; lia).
  destruct (tailOverlap_ok (normalizeLines (History s)) (normalizeLines body)) as [(O1 & O2 & O3) Omax].
  set (k := tailOverlap _ _) in *.
  assert (Hk0 : (p - q <= k)%nat).
  { apply Omax. split_and!; rewrite ?length_normalizeLines; try lia.
    rewrite HH, Hb, LH. replace (p - (p - q))%nat with q by lia.
    rewrite take_take, Nat.min_l by lia. by rewrite skipn_firstn_comm. }
  assert (Hk : k = (p - q)%nat).
  { rewrite length_normalizeLines, LH in O3, O1. destruct (decide (k = (p - q)%nat)) as [|Hne]; [done|exfalso].
    assert (Hlook : N !! (p - k)%nat = N !! q).
    { apply (f_equal (fun l => l !! 0%nat)) in O3. rewrite lookup_drop, lookup_take_lt in O3 by lia.
      rewrite HH, Hb, lookup_take_lt, lookup_take_lt, lookup_drop in O3 by lia. by rewrite !Nat.add_0_r in O3. }
    destruct (lookup_lt_is_Some_2 N q) as [e He]; [lia|]. rewrite He in Hlook.
    pose proof (NoDup_lookup N _ _ e HN Hlook He). lia. }
  pose proof (mergeBody_overlap s body footer s' k eq_refl ltac:(lia) Hs') as Hh. cbv zeta in Hh. rewrite Hh, Hk, LH.
  replace (p - (p - q))%nat with q by lia. rewrite length_app, length_take, LH, LB.
  replace (Nat.min q p + (r - q) - Z.to_nat MaxLines)%nat with 0%nat by lia. rewrite drop_0.
  unfold normalizeLines in *. rewrite fmap_app, fmap_take, HH, Hb, take_take, Nat.min_l by lia.
  apply take_drop_app_eq. lia.
Qed.

(** ** Concrete snapshots *)

Definition lines_ (l : list string) : bytes := join (bytes_of_string <$> l).

Definition demoFrame (last : string) : bytes :=
  lines_ ["a"; "b"; "c"; "f1"; "f2"; "f3"; "f4"; "f5"; last].
Definition demoFirst : Manager * (bytes * bool) :=
  default (NewManager ∅, ([], false)) (merge id 0 true (NewManager ∅) "p" (demoFrame "f6") 0).

Lemma histories_bounded_witness :
  exists m, foldM (exec id) (NewManager ∅) [DoMerge 0 true "p" (demoFrame "f6") 0; DoSaveAll (fun _ => true)] = Some m /\
    managerOk m.
Proof. apply (histories_bounded id (fun s H => H)). apply map_Forall_empty. Defined.

Lemma same_body_ignored_witness :
  merge id 5 true demoFirst.1 "p" (demoFrame "other") 0 = Some demoFirst.
Proof.
  apply (same_body_ignored id 0 5 true true (NewManager ∅) "p" (demoFrame "f6") (demoFrame "other")
    (bytes_of_string <$> ["a"; "b"; "c"]) (bytes_of_string <$> ["f1"; "f2"; "f3"; "f4"; "f5"; "f6"])
    (bytes_of_string <$> ["f1"; "f2"; "f3"; "f4"; "f5"; "other"]) 0 demoFirst.1 demoFirst.2
    (default newPaneState (states demoFirst.1 !! "p"))); by vm_compute.
Defined.

(** The new footer line is not in the content that is returned. *)
Example footer_change_lost :
  (fun r => r.2.1) <$> merge id 5 true demoFirst.1 "p" (demoFrame "other") 0 = Some (demoFrame "f6").
Proof. by vm_compute. Qed.

Lemma scroll_exact_witness :
  exists s', mergeBody (mkPaneState (bytes_of_string <$> ["a"; "b"; "c"]) [] 0 0)
      (bytes_of_string <$> ["b "; "c"; "d"]) [] = Some s' /\
    normalizeLines (History s') = take 4 (normalizeLines (bytes_of_string <$> ["a"; "b"; "c"; "d"])).
Proof.
  apply (scroll_exact (bytes_of_string <$> ["a"; "b"; "c"; "d"]) _ _ [] 3 1 4); try (vm_compute; first [done|lia]).
  - apply (bool_decide_unpack _). by vm_compute.
Defined.

End History.
