(* ===== verification/PaneSize.v ===== *)
(** * Pane size leases ([panesize/manager.go])

    Phones lease a width, and perhaps a height, of a pane; the terminal gets the
    smallest leased size and its own size back when the leases are gone.  The
    world has the manager's panes and the terminals themselves ([terms], by tty).
    What is outside the manager is in [Env]: the clock, whether the caller is
    gone, which tty a pane has, and whether the [stty] commands on a tty work.
    [givenUp] are the ttys whose restoration was abandoned.

    The theorems: an acquired size is the smallest of the leases and the terminal
    has it; without local resizes every terminal that is not leased has its own
    size, also when commands fail; lapsed leases give the terminal back; a pane
    whose terminal is gone is given up after a bounded number of sweeps. *)
From S2P Require Import Prelude.

Module PaneSize.

Definition MinColumns : Z := 40.
Definition MaxColumns : Z := 240.
Definition MinRows : Z := 10.
Definition MaxRows : Z := 120.
Definition LeaseTTL : duration := 120 * second.
Definition ReleaseGrace : duration := 10 * second.
Definition maxRestoreFailures : Z := 5.

Inductive error :=
| ErrClosed | ErrInvalidColumns | ErrInvalidRows | ErrInvalidLease | ErrLeaseOwnerGone
| ErrProcessUnavailable | ErrTTYUnavailable | ErrSizeUnavailable | ErrResizeFailed | ErrUnsupportedOS.

Record Lease := mkLease { Columns : Z; Rows : Z; ExpiresAt : time }.

#[export] Instance Lease_eq_dec : EqDecision Lease.
Proof. solve_decision. Defined.

Record terminalSize := mkSize { rows : Z; columns : Z }.

Record paneState := mkPane {
  tty : string; baselineRows : Z; baselineColumns : Z; appliedRows : Z; appliedColumns : Z;
  resizedAt : time; leases : gmap string Lease; restoreFailures : Z }.

Definition set_leases (l : gmap string Lease) (s : paneState) : paneState :=
  mkPane (tty s) (baselineRows s) (baselineColumns s) (appliedRows s) (appliedColumns s) (resizedAt s) l
    (restoreFailures s).
Definition set_baseline (r c : Z) (s : paneState) : paneState :=
  mkPane (tty s) r c (appliedRows s) (appliedColumns s) (resizedAt s) (leases s) (restoreFailures s).
Definition set_applied (r c : Z) (at_ : time) (s : paneState) : paneState :=
  mkPane (tty s) (baselineRows s) (baselineColumns s) r c at_ (leases s) (restoreFailures s).
Definition set_failures (n : Z) (s : paneState) : paneState :=
  mkPane (tty s) (baselineRows s) (baselineColumns s) (appliedRows s) (appliedColumns s) (resizedAt s)
    (leases s) n.

Record World := mkWorld {
  panes : gmap string paneState; closed : bool; terms : gmap string terminalSize; givenUp : list string }.

Definition set_panes (p : gmap string paneState) (w : World) : World := mkWorld p (closed w) (terms w) (givenUp w).
Definition put (paneID : string) (s : paneState) (w : World) : World := set_panes (<[paneID := s]> (panes w)) w.

Definition newManager (terms : gmap string terminalSize) : World := mkWorld ∅ false terms [].

Record Env := mkEnv {
  now : time; supported : bool; gone : bool; goneLater : bool;
  resolve : string -> error + string; readOk : string -> bool; setOk : string -> bool }.

Definition sttyDeviceFlag (goos : string) : option string :=
  if String.eqb goos "linux" then Some "-F" else if String.eqb goos "darwin" then Some "-f" else None.

(** ** Processes *)

Record PaneProcessInfo := mkInfo {
  info_PaneID : string; ForegroundProcessGroupID : Z; ForegroundProcesses : list Z }.

(** the processes are their PIDs *)
Definition foregroundPID (info : option PaneProcessInfo) (paneID : string) : error + Z :=
  match info with
  | None => inl ErrProcessUnavailable
  | Some i =>
      if String.eqb (info_PaneID i) "" || negb (String.eqb (info_PaneID i) paneID) ||
         (ForegroundProcessGroupID i <=? 0) || bool_decide (ForegroundProcesses i = [])
      then inl ErrProcessUnavailable else
      match List.find (fun pid => pid =? ForegroundProcessGroupID i) (ForegroundProcesses i) with
      | Some pid => inr pid
      | None =>
          match List.find (fun pid => pid >? 0) (ForegroundProcesses i) with
          | Some pid => inr pid
          | None => inl ErrProcessUnavailable
          end
      end
  end.

(** ** Terminals *)

Definition readSize (e : Env) (w : World) (t : string) : error + terminalSize :=
  if negb (supported e) then inl ErrUnsupportedOS else
  if negb (readOk e t) then inl ErrSizeUnavailable else
  match terms w !! t with
  | Some sz => if (rows sz <? 1) || (columns sz <? 1) then inl ErrSizeUnavailable else inr sz
  | None => inl ErrSizeUnavailable
  end.

Definition setSize (e : Env) (w : World) (t : string) (cols rws : Z) : World * option error :=
  if negb (supported e) then (w, Some ErrUnsupportedOS) else
  match (if setOk e t then terms w !! t else None) with
  | Some sz => (mkWorld (panes w) (closed w)
                  (<[t := mkSize (if rws >? 0 then rws else rows sz) cols]> (terms w)) (givenUp w), None)
  | None => (w, Some ErrResizeFailed)
  end.

Definition resolvePane (e : Env) (w : World) (paneID : string) : error + paneState :=
  match resolve e paneID with
  | inl err => inl err
  | inr t =>
      match readSize e w t with
      | inl err => inl err
      | inr sz => inr (mkPane t (rows sz) (columns sz) (rows sz) (columns sz) zero_time ∅ 0)
      end
  end.

(** ** Leases *)

Definition leaseList (l : gmap string Lease) : list Lease := (map_to_list l).*2.

(** the map is ranged over in any order; a minimum does not depend on it *)
Definition minimumColumns (l : gmap string Lease) : Z * bool :=
  let minimum := foldl (fun m x => if (m =? 0) || (Columns x <? m) then Columns x else m) 0 (leaseList l) in
  (minimum, negb (minimum =? 0)).

Definition minimumRows (l : gmap string Lease) : Z :=
  foldl (fun m x => if Rows x <=? 0 then m else if (m =? 0) || (Rows x <? m) then Rows x else m) 0 (leaseList l).

Definition removeExpired (s : paneState) (at_ : time) : paneState * bool :=
  let kept := filter (fun kl => at_ < ExpiresAt kl.2) (leases s) in
  (set_leases kept s, bool_decide (kept <> leases s)).

Definition restore (e : Env) (paneID : string) (s : paneState) (w : World) : World * option error :=
  let sttyRows := if appliedRows s =? baselineRows s then 0 else baselineRows s in
  let (w, err) := setSize e w (tty s) (baselineColumns s) sttyRows in
  match err with
  | Some x =>
      let s := set_failures (restoreFailures s + 1) s in
      (if restoreFailures s >=? maxRestoreFailures
       then mkWorld (delete paneID (panes w)) (closed w) (terms w) (tty s :: givenUp w)
       else put paneID s w, Some x)
  | None => (set_panes (delete paneID (panes w)) w, None)
  end.

(** the size of the leases: columns, rows, and the rows that are passed to stty *)
Definition target (s : paneState) : Z * Z * Z :=
  let targetColumns := (minimumColumns (leases s)).1 in
  let minRows := minimumRows (leases s) in
  let targetRows := if minRows >? 0 then minRows else baselineRows s in
  let sttyRows := if negb (minRows >? 0) && (targetRows =? appliedRows s) then 0 else targetRows in
  (targetColumns, targetRows, sttyRows).

Definition reconcile (e : Env) (paneID : string) (s : paneState) (w : World) : World * option error :=
  if negb (minimumColumns (leases s)).2 then restore e paneID s w else
  let '(targetColumns, targetRows, sttyRows) := target s in
  if (targetColumns =? appliedColumns s) && (targetRows =? appliedRows s) then (put paneID s w, None) else
  let (w, err) := setSize e w (tty s) targetColumns sttyRows in
  match err with
  | Some x => (put paneID s w, Some x)
  | None => (put paneID (set_applied targetRows targetColumns (now e) s) w, None)
  end.

(** ** Operations *)

(** the pane as [Acquire] finds it, its terminal size, and whether it is new *)
Definition acquirePane (e : Env) (w : World) (paneID : string) : World * (error + paneState * terminalSize * bool) :=
  match panes w !! paneID with
  | None =>
      (w, match resolvePane e w paneID with
          | inl err => inl err
          | inr s => inr (s, mkSize (appliedRows s) (appliedColumns s), true)
          end)
  | Some s =>
      let s := (removeExpired s (now e)).1 in
      match readSize e w (tty s) with
      | inl err => (put paneID s w, inl err)
      | inr current =>
          let bc := if negb (columns current =? appliedColumns s) then columns current else baselineColumns s in
          let br := if negb (rows current =? appliedRows s) then rows current else baselineRows s in
          let s := set_baseline br bc s in
          (put paneID s w, inr (s, current, false))
      end
  end.

Definition applyLease (e : Env) (clientID paneID : string) (cols rws : Z) (s : paneState)
    (current : terminalSize) (w : World) : World * (error + Z * Z) :=
  let previous := leases s !! clientID in
  let s' := set_leases (<[clientID := mkLease cols rws (now e + LeaseTTL)]> (leases s)) s in
  let '(targetColumns, targetRows, sttyRows) := target s' in
  let resizeNeeded := negb (targetColumns =? columns current) ||
                      ((sttyRows >? 0) && negb (targetRows =? rows current)) in
  if resizeNeeded then
    let (w, err) := setSize e w (tty s) targetColumns sttyRows in
    match err with
    | Some x => (put paneID (set_leases (match previous with
                                         | Some p => <[clientID := p]> (leases s')
                                         | None => delete clientID (leases s')
                                         end) s') w, inl x)
    | None => (put paneID (set_applied targetRows targetColumns (now e) s') w, inr (targetColumns, targetRows))
    end
  else (put paneID (set_applied targetRows targetColumns (resizedAt s') s') w, inr (targetColumns, targetRows)).

Definition Acquire (e : Env) (clientID paneID : string) (cols rws : Z) (w : World) : World * (error + Z * Z) :=
  if String.eqb clientID "" || String.eqb paneID "" then (w, inl ErrInvalidLease) else
  if (cols <? MinColumns) || (cols >? MaxColumns) then (w, inl ErrInvalidColumns) else
  if negb (rws =? 0) && ((rws <? MinRows) || (rws >? MaxRows)) then (w, inl ErrInvalidRows) else
  if closed w then (w, inl ErrClosed) else
  if gone e then (w, inl ErrLeaseOwnerGone) else
  let (w, r) := acquirePane e w paneID in
  match r with
  | inl err => (w, inl err)
  | inr (s, current, newState) =>
      if goneLater e then (w, inl ErrLeaseOwnerGone)
      else applyLease e clientID paneID cols rws s current w
  end.

Definition activeLeases (at_ : time) (s : paneState) : gmap string Lease :=
  filter (fun kl => at_ < ExpiresAt kl.2) (leases s).

Definition ActiveColumns (at_ : time) (w : World) (paneID : string) : Z * bool :=
  if closed w then (0, false) else
  match panes w !! paneID with
  | None => (0, false)
  | Some s => minimumColumns (activeLeases at_ s)
  end.

Definition ActiveRows (at_ : time) (w : World) (paneID : string) : Z * bool :=
  if closed w then (0, false) else
  match panes w !! paneID with
  | None => (0, false)
  | Some s =>
      if bool_decide (activeLeases at_ s = ∅) then (0, false) else
      let minimum := minimumRows (activeLeases at_ s) in
      (if minimum =? 0 then baselineRows s else minimum, true)
  end.

Definition ResizedWithin (at_ : time) (w : World) (paneID : string) (window : duration) : bool :=
  if closed w then false else
  match panes w !! paneID with
  | None => false
  | Some s => if resizedAt s =? zero_time then false else time_sub at_ (resizedAt s) <? window
  end.

Definition Release (e : Env) (clientID paneID : string) (w : World) : World * option error :=
  if String.eqb clientID "" || String.eqb paneID "" then (w, Some ErrInvalidLease) else
  if closed w then (w, None) else
  match panes w !! paneID with
  | None => (w, None)
  | Some s =>
      match leases s !! clientID with
      | None => (w, None)
      | Some lease =>
          let lapse := now e + ReleaseGrace in
          let lease' := if lapse <? ExpiresAt lease then mkLease (Columns lease) (Rows lease) lapse else lease in
          let s := set_leases (<[clientID := lease']> (leases s)) s in
          if now e <? ExpiresAt lease' then (put paneID s w, None)
          else reconcile e paneID (set_leases (delete clientID (leases s)) s) w
      end
  end.

(** one pane of [ReleaseClient] *)
Definition releaseOne (e : Env) (clientID : string) (w : World) (paneID : string) : World :=
  match panes w !! paneID with
  | None => w
  | Some s =>
      let owned := bool_decide (is_Some (leases s !! clientID)) in
      let s := set_leases (delete clientID (leases s)) s in
      if negb owned && (minimumColumns (leases s)).2 then w else (reconcile e paneID s w).1
  end.

(** the panes in the order [order]; the errors are only reported *)
Definition ReleaseClient (e : Env) (order : list string) (clientID : string) (w : World) : World :=
  if String.eqb clientID "" then w else if closed w then w else
  foldl (releaseOne e clientID) w order.

Definition sweepOne (e : Env) (w : World) (paneID : string) : World :=
  match panes w !! paneID with
  | None => w
  | Some s =>
      let (s, removed) := removeExpired s (now e) in
      let (targetColumns, active) := minimumColumns (leases s) in
      let minRows := minimumRows (leases s) in
      let targetRows := if minRows =? 0 then baselineRows s else minRows in
      if negb removed && active && (appliedColumns s =? targetColumns) && (appliedRows s =? targetRows) then w
      else (reconcile e paneID s w).1
  end.

Definition SweepExpired (e : Env) (order : list string) (w : World) : World :=
  if closed w then w else foldl (sweepOne e) w order.

Definition shutdownOne (e : Env) (w : World) (paneID : string) : World :=
  match panes w !! paneID with
  | None => w
  | Some s => (restore e paneID (set_leases ∅ s) w).1
  end.

Definition Shutdown (e : Env) (order : list string) (w : World) : World :=
  foldl (shutdownOne e) (mkWorld (panes w) true (terms w) (givenUp w)) order.

(** ** The smallest lease *)

Definition lower (f : Lease -> Z) (m : Z) (x : Lease) : Z := if (m =? 0) || (f x <? m) then f x else m.

Lemma lower_fold f l acc :
  Forall (fun x => 0 < f x) l -> 0 <= acc ->
  let r := foldl (lower f) acc l in
  0 <= r /\ (r = 0 <-> acc = 0 /\ l = []) /\ (r = acc \/ r ∈ f <$> l) /\ (0 < acc -> r <= acc) /\
  Forall (fun x => r <= f x) l.
Proof.
  revert acc. induction l as [|x l IH]; intros acc Hl Hacc; cbn [foldl]; cbv zeta.
  { split_and!; [done|tauto|by left|done|constructor]. }
  apply Forall_cons in Hl as [Hx Hl].
  assert (H1 : 0 < lower f acc x /\ (0 < acc -> lower f acc x <= acc) /\ lower f acc x <= f x /\
    (lower f acc x = acc \/ lower f acc x = f x)).
  { unfold lower. case_if; zb; split_and!; try lia; auto. }
  destruct H1 as (P1 & P2 & P3 & P4).
  destruct (IH (lower f acc x) Hl ltac:(lia)) as (R0 & R1 & R2 & R3 & R4). set (r := foldl _ _ l) in *.
  specialize (R3 P1). split_and!; try lia.
  - split; [|by intros [_ ?]]. intros Hr. apply R1 in Hr as [? _]. lia.
  - cbn. rewrite elem_of_cons. destruct R2 as [R2|R2]; [|by auto]. rewrite R2. destruct P4; auto.
  - constructor; [lia|done].
Qed.

Lemma minimumRows_lower l :
  minimumRows l = foldl (lower Rows) 0 (filter (fun x => 0 < Rows x) (leaseList l)).
Proof.
  unfold minimumRows. set (g := fun m x => _).
  assert (H : forall k acc, foldl g acc k = foldl (lower Rows) acc (filter (fun x => 0 < Rows x) k)); [|apply H].
  intros k. induction k as [|x k IH]; intros acc; [done|]. cbn [foldl]. rewrite filter_cons. unfold g at 2.
  destruct (Z.leb_spec (Rows x) 0); [rewrite decide_False by lia|rewrite decide_True by lia]; cbn [foldl]; apply IH.
Qed.

(** the leases of a pane are in range *)
Definition leaseOk (x : Lease) : Prop :=
  MinColumns <= Columns x <= MaxColumns /\ (Rows x = 0 \/ MinRows <= Rows x <= MaxRows).
Definition leasesOk (l : gmap string Lease) : Prop := map_Forall (fun _ => leaseOk) l.

Lemma elem_leaseList l x : x ∈ leaseList l <-> exists c, l !! c = Some x.
Proof.
  unfold leaseList. rewrite list_elem_of_fmap. split.
  - intros ([c y] & -> & H%elem_of_map_to_list). by exists c.
  - intros (c & H). exists (c, x). by rewrite elem_of_map_to_list.
Qed.

Lemma leaseList_pos l : leasesOk l -> Forall (fun x => 0 < Columns x) (leaseList l).
Proof.
  intros H. apply Forall_forall. intros x (c & Hc)%elem_leaseList. destruct (H c x Hc) as [? _]. unfold MinColumns in *. lia.
Qed.

Lemma leaseList_empty l : leaseList l = [] <-> l = ∅.
Proof.
  unfold leaseList. split; [|intros ->; by rewrite map_to_list_empty].
  intros H. apply map_eq_nil in H. by apply map_to_list_empty_iff.
Qed.

Lemma minimumColumns_ok l :
  leasesOk l ->
  ((minimumColumns l).2 = false <-> l = ∅) /\
  (l <> ∅ -> (exists c x, l !! c = Some x /\ Columns x = (minimumColumns l).1) /\
             forall c x, l !! c = Some x -> (minimumColumns l).1 <= Columns x).
Proof.
  intros Hl. pose proof (lower_fold Columns (leaseList l) 0 (leaseList_pos l Hl) ltac:(lia)) as (R0 & R1 & R2 & _ & R4).
  unfold minimumColumns. change (fun (m : Z) (x : Lease) => if (m =? 0) || (Columns x <? m) then Columns x else m) with (lower Columns).
  set (r := foldl _ _ _) in *. cbn [fst snd]. split.
  - rewrite negb_false_iff, Z.eqb_eq, R1, leaseList_empty. tauto.
  - intros Hne. assert (Hr : r <> 0) by (rewrite R1, leaseList_empty; tauto). split.
    + destruct R2 as [?|(x & -> & (c & Hc)%elem_leaseList)%list_elem_of_fmap]; [done|]. by exists c, x.
    + intros c x Hc. rewrite Forall_forall in R4. apply R4, elem_leaseList. by exists c.
Qed.

Lemma minimumColumns_range l : leasesOk l -> l <> ∅ -> MinColumns <= (minimumColumns l).1 <= MaxColumns.
Proof. intros Hl Hne. destruct (proj2 (minimumColumns_ok l Hl) Hne) as [(c & x & Hc & <-) _]. by destruct (Hl c x Hc). Qed.

Lemma minimumRows_ok l :
  leasesOk l ->
  0 <= minimumRows l /\ (forall c x, l !! c = Some x -> 0 < Rows x -> 0 < minimumRows l <= Rows x) /\
  (0 < minimumRows l -> exists c x, l !! c = Some x /\ Rows x = minimumRows l).
Proof.
  intros Hl. rewrite minimumRows_lower. set (k := filter _ (leaseList l)).
  assert (Hk : Forall (fun x => 0 < Rows x) k) by (apply Forall_forall; intros x [? _]%list_elem_of_filter; done).
  destruct (lower_fold Rows k 0 Hk ltac:(lia)) as (R0 & R1 & R2 & _ & R4). set (r := foldl _ _ k) in *. split_and!; [done| |].
  - intros c x Hc Hx. assert (Hin : x ∈ k) by (apply list_elem_of_filter; split; [done|apply elem_leaseList; by exists c]).
    rewrite Forall_forall in R4. specialize (R4 x Hin). assert (r <> 0); [|lia]. rewrite R1. intros [_ H]. by rewrite H in Hin; apply elem_of_nil in Hin.
  - intros Hr. destruct R2 as [?|(x & -> & [_ (c & Hc)%elem_leaseList]%list_elem_of_filter)%list_elem_of_fmap]; [lia|]. by exists c, x.
Qed.

(** ** Invariants *)

Record paneOk (s : paneState) : Prop := mkPaneOk {
  k_leases : leasesOk (leases s);
  k_rows : 0 < baselineRows s;
  k_columns : 0 < baselineColumns s;
  k_failures : 0 <= restoreFailures s < maxRestoreFailures
}.

Definition panesOk (w : World) : Prop := map_Forall (fun _ => paneOk) (panes w).

Lemma setSize_cases e w t c r w' err :
  setSize e w t c r = (w', err) ->
  panes w' = panes w /\ closed w' = closed w /\ givenUp w' = givenUp w /\
  match err with
  | None => exists sz, terms w !! t = Some sz /\
              terms w' = <[t := mkSize (if r >? 0 then r else rows sz) c]> (terms w)
  | Some _ => terms w' = terms w
  end.
Proof.
  unfold setSize. case_if; [by intros [= <- <-]|].
  destruct (if setOk e t then terms w !! t else None) as [sz|] eqn:Es; intros [= <- <-]; [|done].
  split_and!; try done. exists sz. destruct (setOk e t); [|done]. by cbn.
Qed.

Lemma readSize_ok e w t sz : readSize e w t = inr sz -> terms w !! t = Some sz /\ 0 < rows sz /\ 0 < columns sz.
Proof.
  unfold readSize. do 2 (case_if; [done|]). destruct (terms w !! t) as [sz'|]; [|done]. case_if; [done|].
  intros [= ->]. zb. split; [done|lia].
Qed.

(** the rows given to the terminal are those of the target *)
Lemma target_spec s :
  paneOk s -> leases s <> ∅ ->
  let '(c, r, sr) := target s in
  MinColumns <= c <= MaxColumns /\ 0 < r /\ (sr = 0 \/ sr = r) /\ (sr = 0 -> r = appliedRows s /\ r = baselineRows s) /\
  (forall k x, leases s !! k = Some x -> c <= Columns x /\ (0 < Rows x -> r <= Rows x)) /\
  (exists k x, leases s !! k = Some x /\ Columns x = c).
Proof.
  intros [K1 K2 K3 K4] Hne. unfold target.
  pose proof (minimumColumns_range _ K1 Hne) as Hc. destruct (proj2 (minimumColumns_ok _ K1) Hne) as [Hex Hmin].
  destruct (minimumRows_ok _ K1) as (R0 & R1 & _). set (mr := minimumRows (leases s)) in *.
  set (c := (minimumColumns (leases s)).1) in *. clearbody mr c.
  destruct (Z.gtb_spec mr 0) as [Hmr|Hmr]; cbn [negb andb]; split_and!; try lia; auto.
  - intros k x Hk. split; [by apply (Hmin k)|]. intros Hx. destruct (R1 k x Hk Hx). lia.
  - case_if; auto.
  - case_if; zb; [split; [done|lia]|lia].
  - intros k x Hk. split; [by apply (Hmin k)|]. intros Hx. destruct (R1 k x Hk Hx). lia.
Qed.

Lemma panesOk_put p s w : panesOk w -> paneOk s -> panesOk (put p s w).
Proof. intros Hw Hs. by apply map_Forall_insert_2. Qed.

Lemma paneOk_leases s l : paneOk s -> leasesOk l -> paneOk (set_leases l s).
Proof. intros [K1 K2 K3 K4] Hl. by split. Qed.

Lemma removeExpired_ok s t : paneOk s -> paneOk (removeExpired s t).1.
Proof. intros Hs. apply paneOk_leases; [done|]. intros c x [Hc _]%map_lookup_filter_Some. by apply (k_leases s Hs c). Qed.

Lemma restore_panesOk e p s w : panesOk w -> paneOk s -> panesOk (restore e p s w).1.
Proof.
  intros Hw Hs. unfold restore. destruct (setSize _ _ _ _ _) as [w' err] eqn:E.
  apply setSize_cases in E as (E1 & _). assert (Hw' : panesOk w') by (unfold panesOk; by rewrite E1).
  destruct err; cbn; [case_if; cbn|]; try (by apply map_Forall_delete).
  apply panesOk_put; [done|]. destruct Hs. split; try done. cbn in *. zb. lia.
Qed.

Lemma reconcile_panesOk e p s w : panesOk w -> paneOk s -> panesOk (reconcile e p s w).1.
Proof.
  intros Hw Hs. unfold reconcile. case_if; [by apply restore_panesOk|]. destruct (target s) as [[c r] sr].
  case_if; [by apply panesOk_put|]. destruct (setSize _ _ _ _ _) as [w' err] eqn:E1.
  apply setSize_cases in E1 as (E1 & _). assert (Hw' : panesOk w') by (unfold panesOk; by rewrite E1).
  destruct err; cbn; apply panesOk_put; try done. by destruct Hs.
Qed.

(** the pane that [Acquire] works on: its terminal has the size that was read, and
    where that is not the applied one it is the new baseline *)
Lemma acquirePane_ok e w p w' s cur b :
  panesOk w -> acquirePane e w p = (w', inr (s, cur, b)) ->
  panesOk w' /\ paneOk s /\ terms w' = terms w /\ givenUp w' = givenUp w /\ closed w' = closed w /\
  terms w !! tty s = Some cur /\ (rows cur = appliedRows s \/ baselineRows s = rows cur) /\
  (if b then panes w !! p = None /\ w' = w /\ resolve e p = inr (tty s) /\ leases s = ∅ /\
             cur = mkSize (baselineRows s) (baselineColumns s) /\ cur = mkSize (appliedRows s) (appliedColumns s)
   else exists s0, panes w !! p = Some s0 /\ tty s = tty s0 /\ appliedRows s = appliedRows s0 /\
          appliedColumns s = appliedColumns s0 /\ panes w' = <[p := s]> (panes w) /\
          (cur = mkSize (appliedRows s0) (appliedColumns s0) ->
           baselineRows s = baselineRows s0 /\ baselineColumns s = baselineColumns s0)).
Proof.
  intros Hw. unfold acquirePane. destruct (panes w !! p) as [s0|] eqn:Hp.
  - pose proof (removeExpired_ok s0 (now e) (Hw p s0 Hp)) as H1. cbn [fst removeExpired] in *.
    set (s1 := set_leases _ s0) in *. destruct (readSize e w (tty s1)) as [err|sz] eqn:Er; [done|].
    apply readSize_ok in Er as (Et & Hr & Hc). intros [= <- <- <- <-]. cbn [tty set_baseline].
    set (s2 := set_baseline _ _ s1).
    assert (H2 : paneOk s2) by (destruct H1 as [J1 J2 J3 J4]; cbn in J2, J3; split; try done; cbn; case_if; lia).
    split_and!; try done.
    + by apply panesOk_put.
    + cbn. destruct (Z.eqb_spec (rows sz) (appliedRows s0)); cbn; auto.
    + exists s0. split_and!; try done. intros ->. cbn. rewrite !Z.eqb_refl. done.
  - destruct (resolvePane e w p) as [err|s1] eqn:Er; [done|]. unfold resolvePane in Er.
    destruct (resolve e p) as [err|t] eqn:Et; [done|]. destruct (readSize e w t) as [err|sz] eqn:Es; [done|].
    injection Er as <-. apply readSize_ok in Es as (Hs & Hr & Hc). intros [= <- <- <- <-]. cbn.
    split_and!; try done; try (by left); try (by destruct sz).
Qed.

Lemma setApplied_ok r c t s : paneOk s -> paneOk (set_applied r c t s).
Proof. intros [K1 K2 K3 K4]. by split. Qed.

(** a lease that is granted: the terminal has the size of the leases *)
Lemma applyLease_ok e c p cols rws s cur w w' res :
  paneOk s -> leaseOk (mkLease cols rws (now e + LeaseTTL)) -> panesOk w -> terms w !! tty s = Some cur ->
  (rows cur = appliedRows s \/ baselineRows s = rows cur) ->
  applyLease e c p cols rws s cur w = (w', res) ->
  panesOk w' /\ givenUp w' = givenUp w /\ closed w' = closed w /\
  exists s', panes w' = <[p := s']> (panes w) /\ tty s' = tty s /\
    baselineRows s' = baselineRows s /\ baselineColumns s' = baselineColumns s /\
    match res with
    | inl _ => terms w' = terms w /\ appliedRows s' = appliedRows s /\ appliedColumns s' = appliedColumns s
    | inr (tc, tr) =>
        terms w' = <[tty s := mkSize tr tc]> (terms w) /\ appliedRows s' = tr /\ appliedColumns s' = tc /\
        leases s' = <[c := mkLease cols rws (now e + LeaseTTL)]> (leases s) /\
        MinColumns <= tc <= MaxColumns /\
        (forall k x, leases s' !! k = Some x -> tc <= Columns x /\ (0 < Rows x -> tr <= Rows x)) /\
        (exists k x, leases s' !! k = Some x /\ Columns x = tc)
    end.
Proof.
  intros Hs Hx Hw Ht Hcur. unfold applyLease. set (l := mkLease cols rws _) in *.
  set (s1 := set_leases (<[c := l]> (leases s)) s).
  assert (Hs1 : paneOk s1) by (apply paneOk_leases; [done|]; apply map_Forall_insert_2; [done|apply Hs]).
  assert (Hne : leases s1 <> ∅) by apply insert_non_empty.
  pose proof (target_spec s1 Hs1 Hne) as Htgt. destruct (target s1) as [[tc tr] sr].
  destruct Htgt as (C1 & C2 & C3 & C4 & C5 & C6). change (appliedRows s1) with (appliedRows s) in C4.
  change (baselineRows s1) with (baselineRows s) in C4.
  destruct (negb (tc =? columns cur) || (sr >? 0) && negb (tr =? rows cur)) eqn:En.
  - destruct (setSize e w (tty s) tc sr) as [w1 err] eqn:E1. apply setSize_cases in E1 as (E1 & E2 & E3 & E4).
    assert (Hw1 : panesOk w1) by (unfold panesOk; by rewrite E1). destruct err as [x|]; intros [= <- <-].
    + set (s2 := set_leases _ s1). assert (Hs2 : paneOk s2).
      { apply paneOk_leases; [done|]. destruct (leases s !! c) as [pl|] eqn:Ep.
        - apply map_Forall_insert_2; [by apply (k_leases s Hs c)|apply Hs1].
        - apply map_Forall_delete, Hs1. }
      split_and!; [by apply panesOk_put|done|done|]. exists s2. cbn. rewrite E1. by split_and!.
    + split_and!; [apply panesOk_put; [done|by apply setApplied_ok]|done|done|].
      destruct E4 as (sz & Hsz & E4). exists (set_applied tr tc (now e) s1). cbn. rewrite E1, E4. split_and!; try done; try lia.
      do 2 f_equal. rewrite Ht in Hsz. simplify_eq. destruct (Z.gtb_spec sr 0); [lia|].
      destruct (C4 ltac:(lia)) as [? ?]. lia.
  - intros [= <- <-]. apply orb_false_iff in En as [En1%negb_false_iff%Z.eqb_eq En2].
    assert (Hsz : mkSize tr tc = cur).
    { destruct cur as [cr cc]. cbn in *. f_equal; [|lia]. destruct C3 as [C3|C3].
      - destruct (C4 C3). lia.
      - rewrite (proj2 (Z.gtb_lt sr 0)) in En2 by lia. cbn in En2. apply negb_false_iff, Z.eqb_eq in En2. lia. }
    split_and!; [apply panesOk_put; [done|by apply setApplied_ok]|done|done|].
    exists (set_applied tr tc (resizedAt s1) s1). cbn. split_and!; try done; try lia.
    rewrite Hsz. by rewrite insert_id.
Qed.

(** the checks of [Acquire] *)
Lemma range_ok cols rws t :
  (cols <? MinColumns) || (cols >? MaxColumns) = false ->
  negb (rws =? 0) && ((rws <? MinRows) || (rws >? MaxRows)) = false -> leaseOk (mkLease cols rws t).
Proof.
  unfold leaseOk, MinColumns, MaxColumns, MinRows, MaxRows. cbn. rewrite !Z.gtb_ltb. intros [H1%Z.ltb_ge H2%Z.ltb_ge]%orb_false_iff H3.
  split; [lia|]. destruct (Z.eqb_spec rws 0); [by left|]. cbn in H3. apply orb_false_iff in H3 as [H3%Z.ltb_ge H4%Z.ltb_ge]. right. lia.
Qed.

Lemma Acquire_panesOk e c p cols rws w : panesOk w -> panesOk (Acquire e c p cols rws w).1.
Proof.
  intros Hw. unfold Acquire. case_if; [done|]. case_if; [done|]. case_if; [done|].
  pose proof (range_ok cols rws (now e + LeaseTTL) ltac:(done) ltac:(done)) as Hx. do 2 (case_if; [done|]).
  destruct (acquirePane e w p) as [w1 [err|[[s cur] b]]] eqn:Ea.
  - revert Ea. unfold acquirePane. destruct (panes w !! p) as [s0|] eqn:Hp; [|by destruct (resolvePane e w p); intros [= <- _]].
    pose proof (removeExpired_ok s0 (now e) (Hw p s0 Hp)). destruct (readSize _ _ _); [|done]. intros [= <- _].
    by apply panesOk_put.
  - apply acquirePane_ok in Ea as (H1 & H2 & H3 & _ & _ & H4 & H5 & _); [|done]. case_if; [done|].
    destruct (applyLease e c p cols rws s cur w1) as [w2 r] eqn:El.
    by destruct (applyLease_ok _ _ _ _ _ _ _ _ _ _ H2 Hx H1 ltac:(by rewrite H3) H5 El) as [? _].
Qed.

Lemma Release_panesOk e c p w : panesOk w -> panesOk (Release e c p w).1.
Proof.
  intros Hw. unfold Release. do 2 (case_if; [done|]). destruct (panes w !! p) as [s|] eqn:Hp; [|done].
  destruct (leases s !! c) as [x|] eqn:Hx; [|done]. pose proof (Hw p s Hp) as Hs. set (x' := if _ <? _ then _ else x).
  assert (Hl : leasesOk (<[c := x']> (leases s))).
  { apply map_Forall_insert_2; [|apply Hs]. unfold x'. pose proof (k_leases s Hs c x Hx) as Hx'. case_if; [by destruct Hx'|done]. }
  case_if; [by apply panesOk_put; [|apply paneOk_leases]|]. apply reconcile_panesOk; [done|].
  apply paneOk_leases; [by apply paneOk_leases|]. by apply map_Forall_delete.
Qed.

Lemma foldl_keep {A B} (P : A -> Prop) (f : A -> B -> A) l a : (forall a b, P a -> P (f a b)) -> P a -> P (foldl f a l).
Proof. intros Hf. revert a. induction l as [|b l IH]; intros a Ha; [done|]. cbn. auto. Qed.

Lemma releaseOne_panesOk e c w p : panesOk w -> panesOk (releaseOne e c w p).
Proof.
  intros Hw. unfold releaseOne. destruct (panes w !! p) as [s|] eqn:Hp; [|done]. case_if; [done|].
  apply reconcile_panesOk; [done|]. apply paneOk_leases; [by apply (Hw p)|]. apply map_Forall_delete, (Hw p s Hp).
Qed.

Lemma sweepOne_panesOk e w p : panesOk w -> panesOk (sweepOne e w p).
Proof.
  intros Hw. unfold sweepOne. destruct (panes w !! p) as [s|] eqn:Hp; [|done].
  pose proof (removeExpired_ok s (now e) (Hw p s Hp)) as Hs. destruct (removeExpired s (now e)) as [s' rm].
  destruct (minimumColumns (leases s')). case_if; [done|]. by apply reconcile_panesOk.
Qed.

Lemma shutdownOne_panesOk e w p : panesOk w -> panesOk (shutdownOne e w p).
Proof.
  intros Hw. unfold shutdownOne. destruct (panes w !! p) as [s|] eqn:Hp; [|done]. apply restore_panesOk; [done|].
  apply paneOk_leases; [by apply (Hw p)|apply map_Forall_empty].
Qed.

(** what a phone, the clock and the local user do *)
Inductive op :=
| OpAcquire (e : Env) (clientID paneID : string) (cols rws : Z)
| OpRelease (e : Env) (clientID paneID : string)
| OpReleaseClient (e : Env) (order : list string) (clientID : string)
| OpSweep (e : Env) (order : list string)
| OpShutdown (e : Env) (order : list string)
| OpLocalResize (t : string) (sz : terminalSize).

Definition exec (w : World) (o : op) : World :=
  match o with
  | OpAcquire e c p cols rws => (Acquire e c p cols rws w).1
  | OpRelease e c p => (Release e c p w).1
  | OpReleaseClient e order c => ReleaseClient e order c w
  | OpSweep e order => SweepExpired e order w
  | OpShutdown e order => Shutdown e order w
  | OpLocalResize t sz => mkWorld (panes w) (closed w) (<[t := sz]> (terms w)) (givenUp w)
  end.

Lemma exec_panesOk w o : panesOk w -> panesOk (exec w o).
Proof.
  intros Hw. destruct o as [e c p cols rws|e c p|e order c|e order|e order|t sz]; cbn.
  - by apply Acquire_panesOk.
  - by apply Release_panesOk.
  - unfold ReleaseClient. do 2 (case_if; [done|]). apply foldl_keep; [|done]. intros. by apply releaseOne_panesOk.
  - unfold SweepExpired. case_if; [done|]. apply foldl_keep; [|done]. intros. by apply sweepOne_panesOk.
  - unfold Shutdown. apply foldl_keep; [|done]. intros. by apply shutdownOne_panesOk.
  - done.
Qed.

Lemma run_panesOk ts ops : panesOk (foldl exec (newManager ts) ops).
Proof. apply foldl_keep; [apply exec_panesOk|apply map_Forall_empty]. Qed.

(** ** The size that is applied *)

(** Whatever happened before (also local resizes and failing commands), a lease
    that is granted leaves the terminal at the size it reports: the width is the
    narrowest lease of the pane, between the limits, and the height no larger than
    any leased one, the caller's lease included. *)
Theorem acquire_applies ts ops e c p cols rws w' tc tr :
  Acquire e c p cols rws (foldl exec (newManager ts) ops) = (w', inr (tc, tr)) ->
  exists s, panes w' !! p = Some s /\ terms w' !! tty s = Some (mkSize tr tc) /\
    leases s !! c = Some (mkLease cols rws (now e + LeaseTTL)) /\ MinColumns <= tc <= MaxColumns /\
    (forall k x, leases s !! k = Some x -> tc <= Columns x /\ (0 < Rows x -> tr <= Rows x)) /\
    exists k x, leases s !! k = Some x /\ Columns x = tc.
Proof.
  set (w := foldl _ _ _). pose proof (run_panesOk ts ops : panesOk w) as Hw. clearbody w. unfold Acquire.
  case_if; [done|]. case_if; [done|]. case_if; [done|].
  pose proof (range_ok cols rws (now e + LeaseTTL) ltac:(done) ltac:(done)) as Hx. do 2 (case_if; [done|]).
  destruct (acquirePane e w p) as [w1 [err|[[s cur] b]]] eqn:Ea; [done|].
  apply acquirePane_ok in Ea as (H1 & H2 & H3 & _ & _ & H4 & H5 & _); [|done]. case_if; [done|]. intros El.
  destruct (applyLease_ok _ _ _ _ _ _ _ _ _ _ H2 Hx H1 ltac:(by rewrite H3) H5 El)
    as (_ & _ & _ & s' & P1 & P2 & _ & _ & P3 & _ & _ & P4 & P5 & P6 & P7).
  exists s'. split_and!; try done; try lia; [by rewrite P1, lookup_insert_eq|by rewrite P2, P3, lookup_insert_eq|].
  by rewrite P4, lookup_insert_eq.
Qed.

(** ** Terminals get their size back *)

Section Tracked.
Context (ttyOf : string -> string) (ttyOf_inj : forall p q, ttyOf p = ttyOf q -> p = q).
Context (orig : gmap string terminalSize).

Record tracked (w : World) : Prop := mkTracked {
  t_panes : forall p s, panes w !! p = Some s ->
    tty s = ttyOf p /\ terms w !! tty s = Some (mkSize (appliedRows s) (appliedColumns s)) /\
    (tty s ∉ givenUp w -> orig !! tty s = Some (mkSize (baselineRows s) (baselineColumns s)));
  t_free : forall t, t ∉ givenUp w -> (forall p, is_Some (panes w !! p) -> ttyOf p <> t) -> terms w !! t = orig !! t
}.

(** a pane is entered or changed together with its terminal *)
Lemma tracked_put w w' p s :
  tracked w -> panes w' = <[p := s]> (panes w) -> givenUp w' = givenUp w -> tty s = ttyOf p ->
  terms w' = <[tty s := mkSize (appliedRows s) (appliedColumns s)]> (terms w) ->
  (tty s ∉ givenUp w -> orig !! tty s = Some (mkSize (baselineRows s) (baselineColumns s))) -> tracked w'.
Proof.
  intros [T1 T2] Hp Hg Ht Hterms Horig. split; rewrite Hp, Hg, Hterms.
  - intros q s' [[<- <-]|[Hne Hq]]%lookup_insert_Some; [by rewrite lookup_insert_eq|].
    destruct (T1 q s' Hq) as (Q1 & Q2 & Q3). split_and!; try done. rewrite lookup_insert_ne; [done|].
    rewrite Ht, Q1. by intros ?%ttyOf_inj.
  - intros t Hgt Hfree. rewrite lookup_insert_ne.
    + apply T2; [done|]. intros q Hq. apply Hfree. rewrite lookup_insert_is_Some'. by right.
    + rewrite Ht. apply Hfree. rewrite lookup_insert_eq. by eexists.
Qed.

(** a pane is left with its terminal restored, or given up *)
Lemma tracked_delete w w' p s :
  tracked w -> panes w !! p = Some s -> panes w' = delete p (panes w) ->
  givenUp w' = givenUp w /\ terms w' = <[tty s := mkSize (baselineRows s) (baselineColumns s)]> (terms w) \/
  givenUp w' = tty s :: givenUp w /\ terms w' = terms w -> tracked w'.
Proof.
  intros [T1 T2] Hp Hp' Hcase. destruct (T1 p s Hp) as (P1 & P2 & P3).
  assert (Hother : forall q s', q <> p -> panes w !! q = Some s' -> tty s <> tty s').
  { intros q s' Hne Hq. destruct (T1 q s' Hq) as (-> & _). rewrite P1. intros ?%ttyOf_inj. congruence. }
  split; rewrite Hp'.
  - intros q s' [Hne Hq]%lookup_delete_Some. destruct (T1 q s' Hq) as (Q1 & Q2 & Q3).
    pose proof (Hother q s' ltac:(done) Hq). split_and!; [done| |].
    + destruct Hcase as [[_ ->]|[_ ->]]; [by rewrite lookup_insert_ne|done].
    + intros Hg. apply Q3. destruct Hcase as [[Hgu _]|[Hgu _]]; rewrite Hgu in Hg; set_solver.
  - intros t Hg Hfree. destruct Hcase as [[Hgu ->]|[Hgu ->]]; rewrite Hgu in *.
    + destruct (decide (t = tty s)) as [->|Hne]; [rewrite lookup_insert_eq; symmetry; by apply P3|].
      rewrite lookup_insert_ne by done. apply T2; [done|]. intros q [s' Hq]. destruct (decide (q = p)) as [->|Hqp]; [congruence|].
      apply Hfree. exists s'. by apply lookup_delete_Some.
    + apply not_elem_of_cons in Hg as [Hne Hg]. apply T2; [done|]. intros q [s' Hq].
      destruct (decide (q = p)) as [->|Hqp]; [congruence|]. apply Hfree. exists s'. by apply lookup_delete_Some.
Qed.

(** changes of leases and counters only *)
Definition sameSizes (s s' : paneState) : Prop :=
  tty s' = tty s /\ baselineRows s' = baselineRows s /\ baselineColumns s' = baselineColumns s /\
  appliedRows s' = appliedRows s /\ appliedColumns s' = appliedColumns s.

Lemma tracked_same w w' p s s' :
  tracked w -> panes w !! p = Some s -> sameSizes s s' -> panes w' = <[p := s']> (panes w) ->
  givenUp w' = givenUp w -> terms w' = terms w -> tracked w'.
Proof.
  intros T Hp (S1 & S2 & S3 & S4 & S5) Hp' Hg Ht. destruct (t_panes _ T p s Hp) as (P1 & P2 & P3).
  apply (tracked_put w w' p s' T Hp' Hg); rewrite ?S1, ?S2, ?S3, ?S4, ?S5; try done. by rewrite Ht, insert_id.
Qed.

Lemma restore_tracked e p s s0 w :
  tracked w -> panes w !! p = Some s0 -> sameSizes s0 s -> 0 < baselineRows s -> tracked (restore e p s w).1.
Proof.
  intros T Hp Hss Hpos. pose proof Hss as (S1 & S2 & S3 & S4 & S5). unfold restore.
  destruct (t_panes _ T p s0 Hp) as (P1 & P2 & P3).
  destruct (setSize _ _ _ _ _) as [w' err] eqn:E1. apply setSize_cases in E1 as (E1 & E2 & E3 & E4).
  destruct err as [x|]; cbn [fst]; [case_if|].
  - apply (tracked_delete w _ p s0); try done; [by cbn; rewrite E1|]. right. cbn. by rewrite E3, E4, S1.
  - apply (tracked_same w _ p s0 (set_failures (restoreFailures s + 1) s)); try done. cbn. by rewrite E1.
  - apply (tracked_delete w _ p s0); try done; [by cbn; rewrite E1|]. left. cbn. split; [done|].
    destruct E4 as (sz & Hsz & ->). rewrite S1 in *. rewrite P2 in Hsz. injection Hsz as <-. cbn [rows].
    rewrite <- S2, <- S3. do 2 f_equal. destruct (Z.eqb_spec (appliedRows s) (baselineRows s)); [cbn; congruence|].
    destruct (Z.gtb_spec (baselineRows s) 0); [done|lia].
Qed.

Lemma reconcile_tracked e p s s0 w :
  tracked w -> panes w !! p = Some s0 -> sameSizes s0 s -> paneOk s -> tracked (reconcile e p s w).1.
Proof.
  intros T Hp Hss Hs. pose proof Hss as (S1 & S2 & S3 & S4 & S5). unfold reconcile.
  case_if; [apply (restore_tracked e p s s0); try done; apply Hs|].
  assert (Hne : leases s <> ∅).
  { intros He. pose proof (proj1 (minimumColumns_ok _ (k_leases s Hs))) as Hm. rewrite (proj2 Hm He) in E. done. }
  pose proof (target_spec s Hs Hne) as Htgt. destruct (target s) as [[c r] sr].
  destruct Htgt as (C1 & C2 & C3 & C4 & _). destruct (t_panes _ T p s0 Hp) as (P1 & P2 & P3).
  case_if; [by apply (tracked_same w _ p s0 s)|].
  destruct (setSize _ _ _ _ _) as [w' err] eqn:E1. apply setSize_cases in E1 as (E1 & E2 & E3 & E4).
  destruct err as [x|]; cbn [fst].
  - apply (tracked_same w _ p s0 s); try done. cbn. by rewrite E1.
  - apply (tracked_put w _ p (set_applied r c (now e) s)); try done; cbn; rewrite ?E1, ?S1, ?S2, ?S3; try done.
    destruct E4 as (sz & Hsz & ->). rewrite S1 in *. rewrite P2 in Hsz. injection Hsz as <-. cbn [rows]. do 2 f_equal.
    destruct (Z.gtb_spec sr 0); [lia|]. destruct (C4 ltac:(lia)). lia.
Qed.

(** the environments of a run: panes keep their tty *)
Definition envOk (e : Env) : Prop := forall p t, resolve e p = inr t -> t = ttyOf p.
Definition opOk (o : op) : Prop :=
  match o with
  | OpAcquire e _ _ _ _ => envOk e
  | OpLocalResize _ _ => False
  | _ => True
  end.

Lemma acquirePane_tracked e w p w' r :
  envOk e -> panesOk w -> tracked w -> acquirePane e w p = (w', r) ->
  tracked w' /\
  match r with
  | inr (s, cur, _) => tty s = ttyOf p /\ cur = mkSize (appliedRows s) (appliedColumns s) /\
                       (tty s ∉ givenUp w' -> orig !! tty s = Some (mkSize (baselineRows s) (baselineColumns s)))
  | inl _ => True
  end.
Proof.
  intros He Hw T Ea. destruct r as [err|[[s cur] b]].
  - split; [|done]. revert Ea. unfold acquirePane.
    destruct (panes w !! p) as [s0|] eqn:Hp; [|by destruct (resolvePane e w p); intros [= <- _]].
    destruct (readSize _ _ _); [|done]. intros [= <- _]. by apply (tracked_same w _ p s0 (removeExpired s0 (now e)).1).
  - apply acquirePane_ok in Ea as (H1 & H2 & H3 & H4 & _ & H5 & _ & Hb); [|done]. destruct b.
    + destruct Hb as (Hp & -> & Hres & _ & Hc1 & Hc2). apply He in Hres. split_and!; try done. intros Hg.
      rewrite <- Hc1, <- H5. symmetry. apply (t_free _ T); [done|]. intros q [sq Hq] Heq. rewrite Hres in Heq.
      apply ttyOf_inj in Heq as ->. congruence.
    + destruct Hb as (s0 & Hp & S1 & S4 & S5 & Hp' & Hbase). destruct (t_panes _ T p s0 Hp) as (P1 & P2 & P3).
      rewrite S1, P2 in H5. injection H5 as <-. destruct (Hbase eq_refl) as [S2 S3].
      split; [by apply (tracked_same w _ p s0 s)|]. rewrite S1, S2, S3, S4, S5, H4. by split_and!.
Qed.

Lemma Acquire_tracked e c p cols rws w :
  envOk e -> panesOk w -> tracked w -> tracked (Acquire e c p cols rws w).1.
Proof.
  intros He Hw T. unfold Acquire. case_if; [done|]. case_if; [done|]. case_if; [done|].
  pose proof (range_ok cols rws (now e + LeaseTTL) ltac:(done) ltac:(done)) as Hx. do 2 (case_if; [done|]).
  destruct (acquirePane e w p) as [w1 r] eqn:Ea. destruct (acquirePane_tracked e w p w1 r He Hw T Ea) as [T1 Hr].
  destruct r as [err|[[s cur] b]]; [done|]. destruct Hr as (P1 & P2 & P3).
  pose proof (acquirePane_ok _ _ _ _ _ _ _ Hw Ea) as (H1 & H2 & H3 & _ & _ & H4 & H5 & Hb). case_if; [done|].
  destruct (applyLease e c p cols rws s cur w1) as [w2 res] eqn:El.
  assert (H4' : terms w1 !! tty s = Some cur) by (by rewrite H3).
  destruct (applyLease_ok _ _ _ _ _ _ _ _ _ _ H2 Hx H1 H4' H5 El) as (_ & Hg & _ & s' & Q1 & Q2 & Q3 & Q4 & Q5).
  cbn [fst]. apply (tracked_put w1 w2 p s' T1 Q1 Hg); rewrite ?Q2, ?Q3, ?Q4; try done.
  destruct res as [err|[tc tr]].
  - destruct Q5 as (-> & -> & ->). rewrite insert_id; [done|]. by rewrite H4', P2.
  - by destruct Q5 as (-> & -> & -> & _).
Qed.

Lemma Release_tracked e c p w : panesOk w -> tracked w -> tracked (Release e c p w).1.
Proof.
  intros Hw T. unfold Release. do 2 (case_if; [done|]). destruct (panes w !! p) as [s|] eqn:Hp; [|done].
  destruct (leases s !! c) as [x|] eqn:Hx; [|done]. pose proof (Hw p s Hp) as Hs. set (x' := if _ <? _ then _ else x).
  set (s1 := set_leases _ s). case_if; [by apply (tracked_same w _ p s s1)|].
  assert (Hs1 : paneOk s1).
  { apply paneOk_leases; [done|]. apply map_Forall_insert_2; [|apply Hs]. unfold x'.
    pose proof (k_leases s Hs c x Hx) as Hx'. case_if; [by destruct Hx'|done]. }
  apply (reconcile_tracked e p _ s); try done. apply paneOk_leases; [done|]. apply map_Forall_delete, Hs1.
Qed.

Lemma releaseOne_tracked e c w p : panesOk w -> tracked w -> tracked (releaseOne e c w p).
Proof.
  intros Hw T. unfold releaseOne. destruct (panes w !! p) as [s|] eqn:Hp; [|done]. case_if; [done|].
  apply (reconcile_tracked e p _ s); try done. apply paneOk_leases; [by apply (Hw p)|]. apply map_Forall_delete, (Hw p s Hp).
Qed.

Lemma sweepOne_tracked e w p : panesOk w -> tracked w -> tracked (sweepOne e w p).
Proof.
  intros Hw T. unfold sweepOne. destruct (panes w !! p) as [s|] eqn:Hp; [|done].
  pose proof (removeExpired_ok s (now e) (Hw p s Hp)) as Hs.
  assert (Hss : sameSizes s (removeExpired s (now e)).1) by done.
  destruct (removeExpired s (now e)) as [s' rm]. destruct (minimumColumns (leases s')). case_if; [done|].
  by apply (reconcile_tracked e p s' s).
Qed.

Lemma shutdownOne_tracked e w p : panesOk w -> tracked w -> tracked (shutdownOne e w p).
Proof.
  intros Hw T. unfold shutdownOne. destruct (panes w !! p) as [s|] eqn:Hp; [|done].
  apply (restore_tracked e p _ s); try done. apply (Hw p s Hp).
Qed.

Lemma exec_tracked w o : opOk o -> panesOk w -> tracked w -> tracked (exec w o).
Proof.
  intros Ho Hw T.
  assert (Hfold : forall f : World -> string -> World, (forall w p, panesOk w -> panesOk (f w p)) ->
    (forall w p, panesOk w -> tracked w -> tracked (f w p)) ->
    forall l w, panesOk w -> tracked w -> tracked (foldl f w l)).
  { intros f F1 F2 l w0 Hw0 T0. apply (foldl_keep (fun w => panesOk w /\ tracked w) f l w0); [|done].
    intros w1 p [Hw1 T1]. split; auto. }
  destruct o as [e c p cols rws|e c p|e order c|e order|e order|t sz]; cbn [exec opOk] in *; [| | | | |done].
  - by apply Acquire_tracked.
  - by apply Release_tracked.
  - unfold ReleaseClient. do 2 (case_if; [done|]).
    apply Hfold; [intros; by apply releaseOne_panesOk|intros; by apply releaseOne_tracked|done|done].
  - unfold SweepExpired. case_if; [done|].
    apply Hfold; [intros; by apply sweepOne_panesOk|intros; by apply sweepOne_tracked|done|done].
  - unfold Shutdown. apply Hfold; [intros; by apply shutdownOne_panesOk|intros; by apply shutdownOne_tracked|done|].
    destruct T as [T1 T2]. by split.
Qed.

(** In every run of leases, releases, disconnects, sweeps and shutdown without
    local resizes, even when commands fail, a terminal that no pane of the manager
    uses has its original size, unless its restoration was given up. *)
Theorem sizes_given_back ops :
  Forall opOk ops ->
  let w := foldl exec (newManager orig) ops in
  forall t, t ∉ givenUp w -> (forall p, is_Some (panes w !! p) -> ttyOf p <> t) -> terms w !! t = orig !! t.
Proof.
  intros Hops. cbv zeta. apply t_free.
  assert (H : forall w, panesOk w -> tracked w -> tracked (foldl exec w ops)).
  { induction Hops as [|o ops Ho _ IH]; intros w Hw T; [done|]. cbn. apply IH; [by apply exec_panesOk|by apply exec_tracked]. }
  apply H; [apply map_Forall_empty|]. split; [|done]. intros p s Hp. cbn in Hp. by rewrite lookup_empty in Hp.
Qed.

End Tracked.

(** ** Lapsed leases *)

Lemma removeExpired_all s t :
  (forall c x, leases s !! c = Some x -> ExpiresAt x <= t) -> leases (removeExpired s t).1 = ∅.
Proof.
  intros H. cbn. apply map_eq. intros c. rewrite lookup_empty. apply map_lookup_filter_None. right.
  intros x Hc. specialize (H c x Hc). cbn. lia.
Qed.

Lemma sweepOne_lapsed e w p s :
  panes w !! p = Some s -> (forall c x, leases s !! c = Some x -> ExpiresAt x <= now e) ->
  sweepOne e w p = (restore e p (removeExpired s (now e)).1 w).1.
Proof.
  intros Hp Hl. unfold sweepOne. rewrite Hp. pose proof (removeExpired_all s (now e) Hl) as He.
  destruct (removeExpired s (now e)) as [s' rm]. cbn [fst] in *. rewrite He. cbn. rewrite andb_false_r. cbn.
  unfold reconcile. rewrite He. done.
Qed.

(** A sweep gives a pane back once all its leases have expired: the terminal has
    the width the pane had before the leases (or after the last local resize that
    was noticed), the height too where a lease had changed it, and the manager
    forgets the pane. *)
Theorem lapsed_leases_restore e w p s sz :
  closed w = false -> panes w !! p = Some s -> (forall c x, leases s !! c = Some x -> ExpiresAt x <= now e) ->
  supported e = true -> setOk e (tty s) = true -> terms w !! tty s = Some sz -> 0 < baselineRows s ->
  let w' := SweepExpired e [p] w in
  panes w' !! p = None /\
  terms w' !! tty s = Some (mkSize (if appliedRows s =? baselineRows s then rows sz else baselineRows s) (baselineColumns s)).
Proof.
  intros Hc Hp Hl Hs Hok Ht Hb. cbv zeta. unfold SweepExpired. rewrite Hc. cbn [foldl].
  rewrite (sweepOne_lapsed e w p s Hp Hl). unfold restore, setSize. cbn. rewrite Hs, Hok, Ht. cbn.
  rewrite lookup_delete_eq, lookup_insert_eq. split; [done|]. do 2 f_equal. destruct (appliedRows s =? baselineRows s); [done|].
  destruct (Z.gtb_spec (baselineRows s) 0); [done|lia].
Qed.

(** A pane without leases whose terminal cannot be restored (it is gone, or
    [stty] fails) is given up after at most [maxRestoreFailures] sweeps: sweeping
    does not repeat the same error for ever. *)
Theorem hopeless_pane_given_up e w p s n :
  closed w = false -> panes w !! p = Some s -> paneOk s ->
  (forall c x, leases s !! c = Some x -> ExpiresAt x <= now e) -> setOk e (tty s) = false ->
  maxRestoreFailures <= restoreFailures s + Z.of_nat n ->
  panes (Nat.iter n (SweepExpired e [p]) w) !! p = None.
Proof.
  intros Hc Hp Hs Hl Hok. assert (Hnone : forall k w, closed w = false -> panes w !! p = None ->
    panes (Nat.iter k (SweepExpired e [p]) w) !! p = None).
  { clear. intros k. induction k as [|k IH]; intros w Hc Hp; [done|]. rewrite Nat.iter_succ_r. apply IH;
      unfold SweepExpired; rewrite Hc; cbn; unfold sweepOne; by rewrite Hp. }
  revert w s Hc Hp Hs Hl Hok. induction n as [|n IH]; intros w s Hc Hp Hs Hl Hok Hn; [destruct Hs; lia|].
  rewrite Nat.iter_succ_r.
  assert (Hw : SweepExpired e [p] w =
    let s' := set_failures (restoreFailures s + 1) (removeExpired s (now e)).1 in
    if restoreFailures s' >=? maxRestoreFailures
    then mkWorld (delete p (panes w)) (closed w) (terms w) (tty s' :: givenUp w) else put p s' w).
  { unfold SweepExpired. rewrite Hc at 1. cbn [foldl]. rewrite (sweepOne_lapsed e w p s Hp Hl). unfold restore, setSize. cbn.
    rewrite Hok. destruct (supported e); reflexivity. }
  rewrite Hw. cbn [restoreFailures set_failures]. case_if.
  - apply Hnone; [done|]. cbn. by rewrite lookup_delete_eq.
  - zb. apply (IH _ (set_failures (restoreFailures s + 1) (removeExpired s (now e)).1)); try done.
    + cbn. by rewrite lookup_insert_eq.
    + destruct (removeExpired_ok s (now e) Hs). destruct Hs. split; try done. cbn. lia.
    + intros c x. cbn. intros [Hx _]%map_lookup_filter_Some. by apply (Hl c).
    + cbn. lia.
Qed.

(** ** Concrete runs *)

Definition demoEnv (t : time) (works : bool) : Env :=
  mkEnv t true false false (fun p => inr ("/dev/" ++ p)%string) (fun _ => true) (fun _ => works).
Definition demoTerms : gmap string terminalSize := {[ "/dev/p" := mkSize 50 200 ]}.
Definition demoOps : list op :=
  [OpAcquire (demoEnv 0 true) "a" "p" 80 30; OpAcquire (demoEnv 1 true) "b" "p" 60 0].
Definition demoWorld : World := foldl exec (newManager demoTerms) demoOps.
Definition demoPane : paneState :=
  default (mkPane "" 0 0 0 0 0 ∅ 0) (panes demoWorld !! "p").

Lemma acquire_applies_witness :
  exists s, panes (Acquire (demoEnv 2 true) "a" "p" 70 0 demoWorld).1 !! "p" = Some s.
Proof.
  destruct (acquire_applies demoTerms demoOps (demoEnv 2 true) "a" "p" 70 0
    (Acquire (demoEnv 2 true) "a" "p" 70 0 demoWorld).1 60 50) as (s & ? & _); [by vm_compute|by exists s].
Defined.

Lemma sizes_given_back_witness :
  terms (foldl exec (newManager demoTerms) (demoOps ++ [OpSweep (demoEnv (300 * second) true) ["p"]])) !! "/dev/p" =
  demoTerms !! "/dev/p".
Proof.
  apply (sizes_given_back (fun p => "/dev/" ++ p)%string).
  - intros p q H. by apply (inj (String.append "/dev/")) in H.
  - repeat constructor; intros p t [= <-]; done.
  - vm_compute. by intros ?%elem_of_nil.
  - intros p Hp. vm_compute in Hp. by destruct Hp.
Defined.

Lemma lapsed_leases_restore_witness :
  panes (SweepExpired (demoEnv (300 * second) true) ["p"] demoWorld) !! "p" = None.
Proof.
  apply (lapsed_leases_restore (demoEnv (300 * second) true) demoWorld "p" demoPane (mkSize 30 60));
    [by vm_compute|by vm_compute| |by vm_compute|by vm_compute|by vm_compute|by vm_compute].
  assert (H : map_Forall (fun _ x => ExpiresAt x <= 300 * second) (leases demoPane))
    by (apply (bool_decide_unpack _); by vm_compute).
  exact H.
Defined.

Lemma hopeless_pane_given_up_witness :
  panes (Nat.iter 5 (SweepExpired (demoEnv (300 * second) false) ["p"]) demoWorld) !! "p" = None.
Proof.
  apply (hopeless_pane_given_up (demoEnv (300 * second) false) demoWorld "p" demoPane 5);
    [by vm_compute|by vm_compute| | |by vm_compute|by vm_compute].
  - apply (run_panesOk demoTerms demoOps "p" demoPane). by vm_compute.
  - assert (H : map_Forall (fun _ x => ExpiresAt x <= 300 * second) (leases demoPane))
      by (apply (bool_decide_unpack _); by vm_compute).
    exact H.
Defined.

End PaneSize.
