(* ===== verification/Mux.v ===== *)
(** The link of the relay to a gateway ([internal/transport/gateway.go]) and the
    connection it hands to the hub ([pipeConn] of [internal/transport/conn.go]).

    One WebSocket carries the frames of every phone.  The read loop demultiplexes
    and reassembles them, each phone has a pump that chunks its frames into the
    shared write queue, and one writer empties the queue.  The functions below are
    the critical sections and the handlers; [step] interleaves the goroutines.  A
    [gatewayConn] is known by its position in [heap], which stands for the
    pointer, so that a stale connection differs from its successor with the same
    id.  Choosing a gateway is [GatewaySelect]. *)
From S2P Require Import Prelude GoLib Framing GatewayWire.
#[local] Open Scope Z_scope.

Module Mux.
Import GatewayWire.

Definition gatewayWriteQueue : Z := 64.
Definition gatewayConnQueue : Z := 32.
Definition gatewayHealthFailureLimit : Z := 2.

Definition gatewayReasonUnauthorized : string := "unauthorized".
Definition gatewayReasonBusy : string := "busy".
Definition gatewayReasonSlow : string := "slow".
Definition gatewayReasonUnknownConn : string := "unknown".
Definition gatewayReasonFraming : string := "framing".

Inductive linkError :=
| ErrFrameConnClosed
| errGatewayWriteQueueFull
| errFrameLimit (n : Z).

(** ** The connection of the hub *)

(** [inbound] is a channel of capacity [queue] *)
Record pipeConn := mkPipe { inbound : list bytes; queue : Z; closed : bool }.

Definition newPipeConn (queue : Z) : pipeConn := mkPipe [] queue false.

Definition Deliver (c : pipeConn) (frame : bytes) : pipeConn * bool :=
  if closed c then (c, false)
  else if len (inbound c) <? queue c then (mkPipe (inbound c ++ [frame]) (queue c) (closed c), true)
  else (c, false).

(** the branch of the [select] that is taken, [None] while it is not ready *)
Inductive readBranch := FromInbound | FromClosed | FromContext (cancelled : bool).
Inductive readError := ReadClosed | ReadCancelled.

Definition ReadFrame (b : readBranch) (c : pipeConn) : option (pipeConn * result readError bytes) :=
  match b with
  | FromInbound =>
      match inbound c with
      | [] => None
      | frame :: rest => Some (mkPipe rest (queue c) (closed c), Ok frame)
      end
  | FromClosed => if closed c then Some (c, Err ReadClosed) else None
  | FromContext cancelled => if cancelled then Some (c, Err ReadCancelled) else None
  end.

(** [close(c.closed)] under the [closeOnce] that [Close] and [Shutdown] share *)
Definition shut (c : pipeConn) : pipeConn := mkPipe (inbound c) (queue c) true.

(** ** One phone *)

(** [pending] are the chunks of the frame that is being sent under [sendMu];
    [stopped] tells that the write pump of the hub has ended, which it does after
    the first [WriteFrame] that fails. *)
Record gatewayConn := mkConn {
  connID : Z;
  pipe : pipeConn;
  recv : Framing.Reassembler;
  pending : option (list bytes);
  stopped : bool
}.

Definition newConn (id : Z) : gatewayConn :=
  mkConn id (newPipeConn gatewayConnQueue) (Framing.NewReassembler Framing.GatewayChunkSize) None false.

Definition set_pipe (x : pipeConn) (c : gatewayConn) : gatewayConn :=
  mkConn (connID c) x (recv c) (pending c) (stopped c).
Definition set_recv (x : Framing.Reassembler) (c : gatewayConn) : gatewayConn :=
  mkConn (connID c) (pipe c) x (pending c) (stopped c).
Definition set_pending (x : option (list bytes)) (c : gatewayConn) : gatewayConn :=
  mkConn (connID c) (pipe c) (recv c) x (stopped c).
Definition stopPump (c : gatewayConn) : gatewayConn :=
  mkConn (connID c) (pipe c) (recv c) None true.

Definition push (now : time) (c : gatewayConn) (part : bytes)
    : gatewayConn * result Framing.error (option bytes) :=
  match Framing.Push now (recv c) part with
  | (r, Err e) => (set_recv (Framing.Reset r) c, Err e)
  | (r, Ok frame) => (set_recv r c, Ok frame)
  end.

Definition stalled (now : time) (c : gatewayConn) : bool := Framing.Expired now (recv c).

(** what is left of the limit, cut before a rune that does not fit *)
Fixpoint trimmed (n : nat) (reason : bytes) : bytes :=
  if utf8_valid (take n reason) then take n reason
  else match n with O => [] | S n => trimmed n reason end.

Definition closeReasonBytes (reason : string) : bytes :=
  let b := bytes_of_string reason in
  if len b >? MaxCloseReason then trimmed (Z.to_nat MaxCloseReason) b else b.

(** ** The registered link *)

Record Session := mkSession {
  conns : gmap Z nat;
  heap : list gatewayConn;
  writes : list bytes;
  done : bool;
  writerDone : bool;
  failErr : option string;
  lastNotice : string
}.

Definition newSession (notice : string) : Session := mkSession ∅ [] [] false false None notice.

Definition set_conns (x : gmap Z nat) (s : Session) : Session :=
  mkSession x (heap s) (writes s) (done s) (writerDone s) (failErr s) (lastNotice s).
Definition set_heap (x : list gatewayConn) (s : Session) : Session :=
  mkSession (conns s) x (writes s) (done s) (writerDone s) (failErr s) (lastNotice s).
Definition set_writes (x : list bytes) (s : Session) : Session :=
  mkSession (conns s) (heap s) x (done s) (writerDone s) (failErr s) (lastNotice s).
Definition update (p : nat) (f : gatewayConn -> gatewayConn) (s : Session) : Session :=
  set_heap (alter f p (heap s)) s.

Definition stop (s : Session) : Session :=
  mkSession (conns s) (heap s) (writes s) true (writerDone s) (failErr s) (lastNotice s).

(** the first fault is kept *)
Definition fail (err : string) (s : Session) : Session :=
  stop (mkSession (conns s) (heap s) (writes s) (done s) (writerDone s)
          (match failErr s with Some e => Some e | None => Some err end) (lastNotice s)).

Definition enqueue (frame : bytes) (s : Session) : Session * option linkError :=
  if done s then (s, Some ErrFrameConnClosed)
  else if len (writes s) <? gatewayWriteQueue then (set_writes (writes s ++ [frame]) s, None)
  else (s, Some errGatewayWriteQueueFull).

Definition reject (id : Z) (reason : string) (s : Session) : Session :=
  (enqueue (EncodeFrame OpClose id (closeReasonBytes reason)) s).1.

(** ** The registry *)

Definition Shutdown (p : nat) (s : Session) : Session := update p (fun c => set_pipe (shut (pipe c)) c) s.

Definition lookupConn (id : Z) (s : Session) : option nat := conns s !! id.

Definition removeConn (id : Z) (p : nat) (s : Session) : Session :=
  if bool_decide (conns s !! id = Some p) then set_conns (delete id (conns s)) s else s.

Definition takeConn (id : Z) (s : Session) : Session * option nat :=
  match conns s !! id with
  | None => (s, None)
  | Some p => (set_conns (delete id (conns s)) s, Some p)
  end.

(** [addConn] with the new connection; the stale one of the same id is torn down *)
Definition addConn (maxClients id : Z) (s : Session) : Session * bool :=
  let s := match conns s !! id with
           | Some stale => Shutdown stale (set_conns (delete id (conns s)) s)
           | None => s
           end in
  if Z.of_nat (size (conns s)) >=? maxClients then (s, false)
  else (set_conns (<[id := length (heap s)]> (conns s)) (set_heap (heap s ++ [newConn id]) s), true).

Definition evictAll (order : list nat) (s : Session) : Session :=
  foldl (fun s p => Shutdown p s) (set_conns ∅ s) order.

(** [closeConn], the [closeFunc] of the pipe *)
Definition closeConn (p : nat) (reason : string) (s : Session) : Session :=
  match heap s !! p with
  | None => s
  | Some c => reject (connID c) reason (removeConn (connID c) p s)
  end.

(** [pipe.Close] *)
Definition Close (p : nat) (reason : string) (s : Session) : Session :=
  match heap s !! p with
  | None => s
  | Some c => if closed (pipe c) then s else closeConn p reason (Shutdown p s)
  end.

(** ** Sending *)

(** [WriteFrame] up to the loop over the chunks: the frame is refused, or its
    chunks wait under [sendMu].  [None] is a panic. *)
Definition beginSend (p : nat) (frame : bytes) (s : Session) : option (Session * option linkError) :=
  let? c := heap s !! p in
  if closed (pipe c) then Some (update p stopPump s, Some ErrFrameConnClosed)
  else if len frame >? Framing.MaxLogicalBytes
  then Some (update p stopPump s, Some (errFrameLimit (len frame)))
  else
    let? chunks := Framing.Chunk [] frame Framing.GatewayChunkSize in
    Some (update p (set_pending (Some chunks)) s, None).

(** one iteration of the loop *)
Definition sendPart (p : nat) (s : Session) : Session * option linkError :=
  match heap s !! p with
  | Some c =>
      match pending c with
      | Some (part :: rest) =>
          let (s, err) := enqueue (EncodeFrame OpData (connID c) part) s in
          match err with
          | None => (update p (set_pending (Some rest)) s, None)
          | Some errGatewayWriteQueueFull =>
              (update p stopPump (Shutdown p (removeConn (connID c) p s)), err)
          | Some _ => (update p stopPump s, err)
          end
      | Some [] => (update p (set_pending None) s, None)
      | None => (s, None)
      end
  | None => (s, None)
  end.

Fixpoint sendParts (n : nat) (p : nat) (s : Session) : Session * option linkError :=
  match n with
  | O => (s, None)
  | S n => let (s, err) := sendPart p s in
           match err with Some _ => (s, err) | None => sendParts n p s end
  end.

(** the whole call: one turn per chunk and the one that leaves the loop *)
Definition WriteFrame (p : nat) (frame : bytes) (s : Session) : option (Session * option linkError) :=
  let? r := beginSend p frame s in
  match r with
  | (s, Some err) => Some (s, Some err)
  | (s, None) =>
      let? c := heap s !! p in
      Some (sendParts (S (length (default [] (pending c)))) p s)
  end.

(** the writer returns *)
Definition endWriter (s : Session) : Session :=
  mkSession (conns s) (heap s) (writes s) (done s) true (failErr s) (lastNotice s).

(** one turn of the writer: [ok] tells whether the socket takes the frame; [None]
    while there is no frame, or when the writer has returned *)
Definition writeNext (ok : bool) (s : Session) : option (Session * list bytes) :=
  if writerDone s then None else
  match writes s with
  | [] => None
  | frame :: rest =>
      Some (if ok then (set_writes rest s, [frame])
            else (endWriter (fail "write gateway frame" (set_writes rest s)), []))
  end.

(** ** Handlers *)

Definition setNotice (m : string) (s : Session) : Session :=
  mkSession (conns s) (heap s) (writes s) (done s) (writerDone s) (failErr s) m.

(** the middle of [handleData]: the chunk is reassembled and a completed frame is
    delivered; the result is the reason to close the connection, if any *)
Definition receive (now : time) (p : nat) (payload : bytes) (s : Session) : Session * option string :=
  match heap s !! p with
  | None => (s, None)
  | Some c =>
      let (c, r) := push now c payload in
      match r with
      | Err _ => (update p (fun _ => c) s, Some gatewayReasonFraming)
      | Ok None => (update p (fun _ => c) s, None)
      | Ok (Some frame) =>
          let (x, ok) := Deliver (pipe c) frame in
          (update p (fun _ => set_pipe x c) s, if ok then None else Some gatewayReasonSlow)
      end
  end.

Definition handleData (now : time) (id : Z) (payload : bytes) (s : Session) : Session :=
  match lookupConn id s with
  | None => reject id gatewayReasonUnknownConn s
  | Some p =>
      let (s, reason) := receive now p payload s in
      match reason with None => s | Some reason => Close p reason s end
  end.

Definition handleClose (id : Z) (s : Session) : Session :=
  let (s, p) := takeConn id s in
  match p with None => s | Some p => Shutdown p s end.

(** [order] is the snapshot of the registry in the order it is ranged over *)
Definition sweepStalled (now : time) (order : list nat) (s : Session) : Session :=
  foldl (fun s p => match heap s !! p with
                    | Some c => if stalled now c then Close p gatewayReasonSlow s else s
                    | None => s
                    end) s order.

(** one tick of [healthLoop]: the consecutive failures, [None] when it has ended *)
Definition healthTick (r : Session * option Z) (healthy : bool) : Session * option Z :=
  match r with
  | (s, None) => (s, None)
  | (s, Some failures) =>
      if healthy then (s, Some 0)
      else if failures + 1 <? gatewayHealthFailureLimit then (s, Some (failures + 1))
      else (fail "gateway public path failed" s, None)
  end.

(** the end of [runSession]: [order] lists the connections of the registry *)
Definition endSession (order : list nat) (s : Session) : Session := evictAll order (endWriter (stop s)).

(** what [conn.Read] returns: an error, with the reason of a policy violation, a
    text message, or a binary one *)
Inductive message := ReadFailed (violation : option string) | Text | Binary (data : bytes).

Inductive loopError :=
| RejectedError (code reason : string)
| ReadError
| NonBinary
| DecodeError (e : frameError)
| PingUnanswered (e : linkError).

Section Link.
(** [readOpen] and [readNotice] are [json.Unmarshal] *)
Context (hmac : bytes -> bytes -> bytes)
        (readOpen : bytes -> option OpenPayload) (readNotice : bytes -> option NoticePayload)
        (rendezvousKey : bytes) (relayID : string) (maxClients : Z).

Definition authentic (payload : bytes) : bool :=
  match readOpen payload with
  | None => false
  | Some o =>
      match b64_decode_string (op_Nonce o), b64_decode_string (op_Proof o) with
      | Some nonce, Some proof => VerifyConnectProof hmac rendezvousKey relayID nonce proof
      | _, _ => false
      end
  end.

Definition handleOpen (id : Z) (payload : bytes) (s : Session) : Session :=
  if negb (authentic payload) then reject id gatewayReasonUnauthorized s
  else
    let (s, ok) := addConn maxClients id s in
    if ok then s else reject id gatewayReasonBusy s.

Definition handleNotice (payload : bytes) (s : Session) : Session :=
  match readNotice payload with None => s | Some n => setNotice (np_Message n) s end.

(** one turn of [readLoop]; [Some] error ends it *)
Definition readMessage (now : time) (m : message) (s : Session) : Session * option loopError :=
  match m with
  | ReadFailed (Some reason) => (s, Some (RejectedError CodeRelayBusy reason))
  | ReadFailed None => (s, Some ReadError)
  | Text => (s, Some NonBinary)
  | Binary data =>
      match DecodeFrame data with
      | Err e => (s, Some (DecodeError e))
      | Ok (op, id, payload) =>
          if op =? OpData then (handleData now id payload s, None)
          else if op =? OpOpen then (handleOpen id payload s, None)
          else if op =? OpClose then (handleClose id s, None)
          else if op =? OpPing then
            let (s, err) := enqueue (EncodeFrame OpPong id payload) s in
            (s, PingUnanswered <$> err)
          else if op =? OpNotice then (handleNotice payload s, None)
          else (s, None)
      end
  end.

(** ** The goroutines as a step relation *)

Inductive event :=
| Sent (p : nat) (frame : bytes)
| Received (p : nat) (part : bytes)
| Read (p : nat) (frame : bytes)
| Wrote (frame : bytes).

(** the read loop marks a connection closed before it handles the next frame *)
Definition receiveOrShut (now : time) (p : nat) (part : bytes) (s : Session) : Session :=
  let (s, reason) := receive now p part s in
  match reason with None => s | Some _ => Shutdown p s end.

Inductive step : Session -> list event -> Session -> Prop :=
| step_open s id : 0 <= id < 2 ^ 32 -> step s [] (addConn maxClients id s).1
| step_control s op id payload :
    op = OpClose \/ op = OpPong -> validFrame op id payload ->
    step s [] (enqueue (EncodeFrame op id payload) s).1
| step_receive s now p part :
    (p < length (heap s))%nat -> step s [Received p part] (receiveOrShut now p part s)
| step_shut s p : step s [] (Shutdown p s)
| step_remove s id p : step s [] (removeConn id p s)
| step_take s id : step s [] (takeConn id s).1
| step_evict s : step s [] (set_conns ∅ s)
| step_begin s p c frame s' err :
    heap s !! p = Some c -> pending c = None -> stopped c = false ->
    beginSend p frame s = Some (s', err) ->
    step s (match err with None => [Sent p frame] | Some _ => [] end) s'
| step_part s p : step s [] (sendPart p s).1
| step_write s ok s' out : writeNext ok s = Some (s', out) -> step s (Wrote <$> out) s'
| step_writer_end s : step s [] (endWriter s)
| step_stop s : step s [] (stop s)
| step_fail s err : step s [] (fail err s)
| step_read s p c x frame :
    heap s !! p = Some c -> ReadFrame FromInbound (pipe c) = Some (x, Ok frame) ->
    step s [Read p frame] (update p (set_pipe x) s)
| step_notice s m : step s [] (setNotice m s).

Inductive run : list event -> Session -> Prop :=
| run_new notice : run [] (newSession notice)
| run_step tr s ev s' : run tr s -> step s ev s' -> run (tr ++ ev) s'.

(** several steps *)
Inductive steps : Session -> list event -> Session -> Prop :=
| steps_nil s : steps s [] s
| steps_cons s ev s' ev' s'' : step s ev s' -> steps s' ev' s'' -> steps s (ev ++ ev') s''.

(** *** What a run did *)

Definition sentBy (p : nat) (tr : list event) : list bytes :=
  omap (fun e => match e with Sent q f => if decide (q = p) then Some f else None | _ => None end) tr.
Definition receivedBy (p : nat) (tr : list event) : list bytes :=
  omap (fun e => match e with Received q f => if decide (q = p) then Some f else None | _ => None end) tr.
Definition readFrom (p : nat) (tr : list event) : list bytes :=
  omap (fun e => match e with Read q f => if decide (q = p) then Some f else None | _ => None end) tr.
Definition wrote (tr : list event) : list bytes :=
  omap (fun e => match e with Wrote f => Some f | _ => None end) tr.

(** the chunks for one phone among the frames of the link *)
Definition dataOf (id : Z) (frames : list bytes) : list bytes :=
  omap (fun f => match DecodeFrame f with
                 | Ok (op, i, payload) => if (op =? OpData) && (i =? id) then Some payload else None
                 | Err _ => None
                 end) frames.

(** ** Invariant *)

(** the frames of the link: written, lost by a failed write, and waiting *)
Definition stream (lost : list bytes) (tr : list event) (s : Session) : list bytes :=
  wrote tr ++ lost ++ writes s.

Definition linkFrame (f : bytes) : Prop :=
  exists op id payload, f = EncodeFrame op id payload /\ validFrame op id payload /\
    (op = OpData \/ op = OpClose \/ op = OpPong).

(** the chunks of several frames, each chunked as [send] does *)
Fixpoint chunksOf (frames : list bytes) : option (list bytes) :=
  match frames with
  | [] => Some []
  | f :: fs =>
      let? a := Framing.Chunk [] f Framing.GatewayChunkSize in
      let? b := chunksOf fs in Some (a ++ b)
  end.

(** the chunks of the frames a phone was sent are in the stream, up to those that
    are still to be enqueued, or that were dropped when the pump stopped *)
Definition outOk (tr : list event) (st : list bytes) (p : nat) (c : gatewayConn) : Prop :=
  Forall (fun f => len f <= Framing.MaxLogicalBytes) (sentBy p tr) /\
  exists rest, chunksOf (sentBy p tr) = Some (dataOf (connID c) st ++ rest) /\
    (stopped c = false -> rest = default [] (pending c)).

(** equal up to the time of the last chunk *)
Definition sameState (r r' : Framing.Reassembler) : Prop :=
  Framing.maxChunk r' = Framing.maxChunk r /\ Framing.buf r' = Framing.buf r /\
  Framing.want r' = Framing.want r /\ Framing.active r' = Framing.active r.

(** the chunks that wait fit a frame, and a pump that stopped has none *)
Definition pumpOk (c : gatewayConn) : Prop :=
  Forall (fun part => len part <= Framing.GatewayChunkSize) (default [] (pending c)) /\
  (stopped c = true -> pending c = None).

(** what the hub reads is the reassembly of what arrived *)
Definition inOk (tr : list event) (p : nat) (c : gatewayConn) : Prop :=
  pumpOk c /\ len (inbound (pipe c)) <= gatewayConnQueue /\ queue (pipe c) = gatewayConnQueue /\
  exists parts frames r,
    Framing.pushAll 0 (Framing.NewReassembler Framing.GatewayChunkSize) parts = (r, Ok frames) /\
    parts `prefix_of` receivedBy p tr /\
    readFrom p tr ++ inbound (pipe c) `prefix_of` frames /\
    (closed (pipe c) = false -> parts = receivedBy p tr /\
       readFrom p tr ++ inbound (pipe c) = frames /\ sameState r (recv c)).

Record inv (lost : list bytes) (tr : list event) (s : Session) : Prop := mkInv {
  i_cap : Z.of_nat (size (conns s)) <= Z.max 0 maxClients;
  i_reg : forall id p, conns s !! id = Some p -> exists c, heap s !! p = Some c /\ connID c = id;
  i_writes : len (writes s) <= gatewayWriteQueue;
  i_ids : Forall (fun c => 0 <= connID c < 2 ^ 32) (heap s);
  i_lost : writerDone s = false -> lost = [];
  i_valid : Forall linkFrame (stream lost tr s);
  i_fresh : forall id, id ∉ (connID <$> heap s) -> dataOf id (stream lost tr s) = [];
  i_trace : forall p, (length (heap s) <= p)%nat -> sentBy p tr = [] /\ receivedBy p tr = [] /\ readFrom p tr = [];
  i_out : NoDup (connID <$> heap s) -> forall p c, heap s !! p = Some c -> outOk tr (stream lost tr s) p c;
  i_in : forall p c, heap s !! p = Some c -> inOk tr p c
}.

Lemma sentBy_app p t u : sentBy p (t ++ u) = sentBy p t ++ sentBy p u.
Proof. apply omap_app. Qed.
Lemma receivedBy_app p t u : receivedBy p (t ++ u) = receivedBy p t ++ receivedBy p u.
Proof. apply omap_app. Qed.
Lemma readFrom_app p t u : readFrom p (t ++ u) = readFrom p t ++ readFrom p u.
Proof. apply omap_app. Qed.
Lemma wrote_app t u : wrote (t ++ u) = wrote t ++ wrote u.
Proof. apply omap_app. Qed.
Lemma dataOf_app id l k : dataOf id (l ++ k) = dataOf id l ++ dataOf id k.
Proof. apply omap_app. Qed.

Lemma dataOf_frame op i payload id :
  validFrame op i payload ->
  dataOf id [EncodeFrame op i payload] = if (op =? OpData) && (i =? id) then [payload] else [].
Proof.
  intros H. unfold dataOf. cbn -[DecodeFrame EncodeFrame OpData]. rewrite frame_decode_encode by done.
  by destruct (_ && _).
Qed.

Lemma chunksOf_app fs gs :
  chunksOf (fs ++ gs) = let? a := chunksOf fs in let? b := chunksOf gs in Some (a ++ b).
Proof.
  induction fs as [|f fs IH]; cbn; [by destruct (chunksOf gs)|].
  destruct (Framing.Chunk [] f _); cbn; [|done]. rewrite IH. destruct (chunksOf fs); cbn; [|done].
  destruct (chunksOf gs); cbn; [by rewrite app_assoc|done].
Qed.

(** every frame within the limit is chunked, and a receiver that is between two
    frames rebuilds what it is given so far *)
Lemma chunksOf_ok frames :
  Forall (fun f => len f <= Framing.MaxLogicalBytes) frames ->
  exists parts, chunksOf frames = Some parts /\
    Forall (fun part => len part <= Framing.GatewayChunkSize) parts /\
    forall now r, Framing.idle Framing.GatewayChunkSize r ->
      exists r', Framing.pushAll now r parts = (r', Ok frames).
Proof.
  induction 1 as [|f fs Hf _ (qs & E & Hq & IH)].
  { exists []. split; [done|]. split; [done|]. intros now r _. by exists r. }
  destruct (Framing.Chunk_spec [] f Framing.GatewayChunkSize) as (ps & H1 & _ & H3 & H4); [done|done|].
  exists (ps ++ qs). cbn [chunksOf]. rewrite H1, E. split; [done|]. split; [by apply Forall_app|].
  intros now r Hr. destruct (IH now (Framing.mkReassembler Framing.GatewayChunkSize [] 0 false now)) as [r' Hr']; [done|].
  exists r'. by rewrite Framing.pushAll_app, H4, Hr'.
Qed.

Lemma prefix_rebuilds frames parts qs now :
  Forall (fun f => len f <= Framing.MaxLogicalBytes) frames -> chunksOf frames = Some parts -> qs `prefix_of` parts ->
  exists r fs, Framing.pushAll now (Framing.NewReassembler Framing.GatewayChunkSize) qs = (r, Ok fs) /\ fs `prefix_of` frames.
Proof.
  intros Hf Hc [rest ->]. destruct (chunksOf_ok frames Hf) as (ps & E & _ & Hp). simplify_eq.
  destruct (Hp now (Framing.NewReassembler Framing.GatewayChunkSize)) as [r' Hr]; [done|].
  rewrite Framing.pushAll_app in Hr.
  destruct (Framing.pushAll now _ qs) as [r [fs|]]; [|done]. exists r, fs. split; [done|].
  destruct (Framing.pushAll now r rest) as [? [gs|]]; [|done]. simplify_eq. by exists gs.
Qed.

(** reassembly does not depend on the clock *)
Lemma Push_sameState now r r' part :
  sameState r r' ->
  (Framing.Push now r' part).2 = (Framing.Push 0 r part).2 /\
  sameState (Framing.Push 0 r part).1 (Framing.Push now r' part).1.
Proof.
  intros (H1 & H2 & H3 & H4). destruct r as [m b w a u], r' as [m' b' w' a' u']. cbn in *. subst.
  unfold Framing.Push, sameState. cbn. destruct part as [|v [|fl body]]; repeat case_if; done.
Qed.

(** ** Steps keep the invariant *)

Lemma inv_conns lost tr s m : inv lost tr s -> m ⊆ conns s -> inv lost tr (set_conns m s).
Proof.
  intros [Hc ?] Hm. constructor; try done.
  - cbn. pose proof (map_subseteq_size _ _ Hm). lia.
  - intros id p H. cbn in H. apply (lookup_weaken _ _ _ _ H) in Hm. by apply i_reg0.
Qed.

Lemma inv_frame lost tr s s' :
  inv lost tr s -> conns s' = conns s -> heap s' = heap s -> writes s' = writes s ->
  (writerDone s' = false -> writerDone s = false) -> inv lost tr s'.
Proof.
  intros [] E1 E2 E3 Hw. unfold stream in *. constructor; unfold stream; rewrite ?E1, ?E2, ?E3; auto.
Qed.

(** a frame joins the queue *)
Lemma stream_enqueue lost tr s frame :
  stream lost tr (set_writes (writes s ++ [frame]) s) = stream lost tr s ++ [frame].
Proof. unfold stream. cbn. by rewrite !app_assoc. Qed.

Lemma outOk_stream tr st frame p c :
  dataOf (connID c) [frame] = [] -> outOk tr st p c -> outOk tr (st ++ [frame]) p c.
Proof. intros E (? & rest & ?). split; [done|]. exists rest. by rewrite dataOf_app, E, app_nil_r. Qed.

Lemma inv_control lost tr s op id payload :
  inv lost tr s -> op = OpClose \/ op = OpPong -> validFrame op id payload ->
  inv lost tr (enqueue (EncodeFrame op id payload) s).1.
Proof.
  intros Hi Hop Hv. unfold enqueue. repeat case_if; try done. cbn [fst].
  assert (Hd : forall i, dataOf i [EncodeFrame op id payload] = []).
  { intros i. rewrite dataOf_frame by done. destruct Hop as [-> | ->]; done. }
  destruct Hi. zb. constructor; rewrite ?stream_enqueue; cbn; try done.
  - rewrite length_app. cbn. lia.
  - apply Forall_app. split; [done|]. repeat constructor. exists op, id, payload. split; [done|]. split; [done|by right].
  - intros i Hi. by rewrite dataOf_app, Hd, app_nil_r, i_fresh0.
  - intros ND p c Hp. by apply outOk_stream, i_out0.
Qed.

(** a connection changes, with events that concern only it *)
Definition evAbout (p : nat) (ev : list event) : Prop :=
  wrote ev = [] /\ forall q, q <> p -> sentBy q ev = [] /\ receivedBy q ev = [] /\ readFrom q ev = [].

Lemma inv_update lost tr ev s p f :
  inv lost tr s -> evAbout p ev -> (p < length (heap s))%nat \/ ev = [] ->
  (forall c, heap s !! p = Some c -> connID (f c) = connID c /\
     (inOk tr p c -> inOk (tr ++ ev) p (f c)) /\
     (outOk tr (stream lost tr s) p c -> outOk (tr ++ ev) (stream lost tr s) p (f c))) ->
  inv lost (tr ++ ev) (update p f s).
Proof.
  intros [] [Hw Ho] Hp Hf.
  assert (Hst : stream lost (tr ++ ev) (update p f s) = stream lost tr s)
    by (unfold stream; by rewrite wrote_app, Hw, app_nil_r).
  assert (Hids : connID <$> heap (update p f s) = connID <$> heap s).
  { cbn. apply list_eq. intros i. rewrite !list_lookup_fmap. destruct (decide (i = p)) as [->|Hne].
    - rewrite list_lookup_alter_eq. destruct (heap s !! p) eqn:E; [|done]. cbn.
      destruct (Hf _ eq_refl) as [? _]. congruence.
    - by rewrite list_lookup_alter_ne. }
  assert (Hq : forall q, q <> p -> sentBy q (tr ++ ev) = sentBy q tr /\
     receivedBy q (tr ++ ev) = receivedBy q tr /\ readFrom q (tr ++ ev) = readFrom q tr).
  { intros q Hq. destruct (Ho q Hq) as (E1 & E2 & E3).
    by rewrite sentBy_app, receivedBy_app, readFrom_app, E1, E2, E3, !app_nil_r. }
  constructor; rewrite ?Hst, ?Hids; try done.
  - intros id q H. cbn in H. destruct (i_reg0 id q H) as (c & Hc & Hid). cbn.
    destruct (decide (q = p)) as [->|Hne].
    + rewrite list_lookup_alter_eq, Hc. cbn. exists (f c). split; [done|]. destruct (Hf c Hc). congruence.
    + rewrite list_lookup_alter_ne by done. by exists c.
  - apply Forall_forall. intros c Hc. apply (Forall_fmap connID (fun i => 0 <= i < 2 ^ 32)) in i_ids0.
    rewrite <- Hids in i_ids0. rewrite Forall_fmap, Forall_forall in i_ids0. by apply (i_ids0 c).
  - cbn. rewrite length_alter. intros q Hge. destruct Hp as [Hp| ->]; [|rewrite app_nil_r; by apply i_trace0].
    destruct (Hq q ltac:(lia)) as (-> & -> & ->). by apply i_trace0.
  - intros ND q c Hc. cbn in Hc. destruct (decide (q = p)) as [->|Hne].
    + rewrite list_lookup_alter_eq in Hc. destruct (heap s !! p) as [c0|] eqn:E; [|done]. cbn in Hc. simplify_eq.
      apply (Hf c0 eq_refl). by apply i_out0.
    + rewrite list_lookup_alter_ne in Hc by done. destruct (Hq q Hne) as (E & _ & _).
      unfold outOk. rewrite E. by apply i_out0.
  - intros q c Hc. cbn in Hc. destruct (decide (q = p)) as [->|Hne].
    + rewrite list_lookup_alter_eq in Hc. destruct (heap s !! p) as [c0|] eqn:E; [|done]. cbn in Hc. simplify_eq.
      apply (Hf c0 eq_refl). by apply i_in0.
    + rewrite list_lookup_alter_ne in Hc by done. destruct (Hq q Hne) as (_ & E2 & E3).
      unfold inOk. rewrite E2, E3. by apply i_in0.
Qed.

Lemma evAbout_nil p : evAbout p [].
Proof. done. Qed.

Lemma inv_silent lost tr s p f :
  inv lost tr s ->
  (forall c, heap s !! p = Some c -> connID (f c) = connID c /\ (inOk tr p c -> inOk tr p (f c)) /\
     (outOk tr (stream lost tr s) p c -> outOk tr (stream lost tr s) p (f c))) ->
  inv lost tr (update p f s).
Proof.
  intros Hi Hf. rewrite <- (app_nil_r tr). apply inv_update; [done|apply evAbout_nil|by right|].
  rewrite app_nil_r. done.
Qed.

Lemma inOk_shut tr p c : inOk tr p c -> inOk tr p (set_pipe (shut (pipe c)) c).
Proof.
  intros (? & ? & ? & ps & fs & r & ? & ? & ? & _). do 3 (split; [done|]). by exists ps, fs, r.
Qed.

Lemma inv_Shutdown lost tr s p : inv lost tr s -> inv lost tr (Shutdown p s).
Proof.
  intros Hi. apply inv_silent; [done|]. intros c _. split; [done|]. split; [apply inOk_shut|done].
Qed.

Lemma inv_stopPump lost tr s p : inv lost tr s -> inv lost tr (update p stopPump s).
Proof.
  intros Hi. apply inv_silent; [done|]. intros c _. split; [done|]. split.
  - intros (_ & ?). split; [by split|done].
  - intros (? & rest & ? & _). split; [done|]. by exists rest.
Qed.

Lemma inv_removeConn lost tr s id p : inv lost tr s -> inv lost tr (removeConn id p s).
Proof.
  intros Hi. unfold removeConn. case_if; [|done]. apply inv_conns; [done|apply delete_subseteq].
Qed.

(** a new connection: nothing of it is in the stream yet *)
Lemma outOk_new lost tr s id :
  inv lost tr s -> id ∉ (connID <$> heap s) -> outOk tr (stream lost tr s) (length (heap s)) (newConn id).
Proof.
  intros Hi Hid. destruct (i_trace _ _ _ Hi (length (heap s))) as (E & _); [done|].
  unfold outOk. rewrite E. split; [done|]. exists []. rewrite (i_fresh _ _ _ Hi) by done. by repeat split.
Qed.

Lemma inOk_new lost tr s id : inv lost tr s -> inOk tr (length (heap s)) (newConn id).
Proof.
  intros Hi. destruct (i_trace _ _ _ Hi (length (heap s))) as (_ & E2 & E3); [done|].
  unfold inOk. rewrite E2, E3. split; [by split|]. split; [done|]. split; [done|].
  exists [], [], (Framing.NewReassembler Framing.GatewayChunkSize). by repeat split.
Qed.

Lemma inv_insert lost tr s id :
  inv lost tr s -> 0 <= id < 2 ^ 32 -> Z.of_nat (size (conns s)) < maxClients -> conns s !! id = None ->
  inv lost tr (set_conns (<[id := length (heap s)]> (conns s)) (set_heap (heap s ++ [newConn id]) s)).
Proof.
  intros Hi Hid Hcap Hn. pose proof Hi as [].
  constructor; cbn; try done.
  - rewrite map_size_insert_None by done. lia.
  - intros i p H. apply lookup_insert_Some in H as [[<- <-]|[Hne H]].
    + exists (newConn id). split; [by apply list_lookup_middle|done].
    + destruct (i_reg0 i p H) as (c & Hc & E). exists c. split; [|done]. by apply lookup_app_l_Some.
  - apply Forall_app. split; [done|]. by apply Forall_singleton.
  - intros i Hin. rewrite fmap_app in Hin. apply not_elem_of_app in Hin as [Hin _]. by apply i_fresh0.
  - rewrite length_app. cbn. intros p Hp. apply i_trace0. lia.
  - rewrite fmap_app. intros ND p c Hc. apply NoDup_app in ND as (ND & Hdis & _).
    apply lookup_app_Some in Hc as [Hc|[Hlen Hc]]; [by apply i_out0|].
    apply list_lookup_singleton_Some in Hc as [Hz <-].
    replace p with (length (heap s)) by lia.
    change (outOk tr (stream lost tr s) (length (heap s)) (newConn id)).
    apply (outOk_new lost); [done|]. intros Hin. by apply (Hdis id Hin), list_elem_of_singleton.
  - intros p c Hc. apply lookup_app_Some in Hc as [Hc|[Hlen Hc]]; [by apply i_in0|].
    apply list_lookup_singleton_Some in Hc as [Hz <-]. replace p with (length (heap s)) by lia.
    by apply (inOk_new lost).
Qed.

Lemma inv_addConn lost tr s id : inv lost tr s -> 0 <= id < 2 ^ 32 -> inv lost tr (addConn maxClients id s).1.
Proof.
  intros Hi Hid. unfold addConn. set (s1 := match conns s !! id with Some _ => _ | None => _ end).
  assert (Hs1 : inv lost tr s1 /\ conns s1 !! id = None).
  { unfold s1. destruct (conns s !! id) as [stale|] eqn:E; [|done]. split; [|apply lookup_delete_eq].
    by apply inv_Shutdown, inv_conns, delete_subseteq. }
  clearbody s1. destruct Hs1 as [H1 H2]. case_if; [done|]. zb. cbn [fst]. by apply inv_insert; [..|lia|].
Qed.

(** ** Receiving *)

Lemma pushAll_snoc now r ps part :
  Framing.pushAll now r (ps ++ [part]) =
  match Framing.pushAll now r ps with
  | (r, Err e) => (r, Err e)
  | (r, Ok fs) =>
      match Framing.Push now r part with
      | (r, Err e) => (r, Err e)
      | (r, Ok (Some f)) => (r, Ok (fs ++ [f]))
      | (r, Ok None) => (r, Ok fs)
      end
  end.
Proof.
  rewrite Framing.pushAll_app. destruct (Framing.pushAll now r ps) as [r1 [fs|]]; [|done]. cbn.
  destruct (Framing.Push now r1 part) as [r2 [[f|]|]]; [done|by rewrite app_nil_r|done].
Qed.

Lemma evAbout_receive p part : evAbout p [Received p part].
Proof. split; [done|]. intros q Hq. cbn. rewrite decide_False by done. done. Qed.

Lemma receivedBy_self p tr part : receivedBy p (tr ++ [Received p part]) = receivedBy p tr ++ [part].
Proof. rewrite receivedBy_app. cbn. by rewrite decide_True. Qed.

Lemma other_traces p tr part :
  sentBy p (tr ++ [Received p part]) = sentBy p tr /\ readFrom p (tr ++ [Received p part]) = readFrom p tr.
Proof. by rewrite sentBy_app, readFrom_app, !app_nil_r. Qed.

(** a connection that is closed keeps what it has, whatever still arrives *)
Lemma inOk_closed tr p part c c' :
  inOk tr p c -> pumpOk c' -> closed (pipe c') = true -> inbound (pipe c') = inbound (pipe c) ->
  queue (pipe c') = queue (pipe c) -> inOk (tr ++ [Received p part]) p c'.
Proof.
  intros (_ & H1 & H2 & ps & fs & r & Hp & Hpre & Hin & _) Hpump Hc Ei Eq. unfold inOk.
  rewrite receivedBy_self, (proj2 (other_traces p tr part)), Ei, Eq, Hc. do 3 (split; [done|]).
  exists ps, fs, r. split; [done|]. split; [by apply prefix_app_r|]. by split.
Qed.

(** what [receiveOrShut] makes of the connection *)
Definition received (now : time) (part : bytes) (c : gatewayConn) : gatewayConn :=
  let (c, r) := push now c part in
  match r with
  | Err _ => set_pipe (shut (pipe c)) c
  | Ok None => c
  | Ok (Some frame) =>
      let (x, ok) := Deliver (pipe c) frame in
      if ok then set_pipe x c else set_pipe (shut x) c
  end.

Lemma receiveOrShut_eq now p part s : receiveOrShut now p part s = update p (received now part) s.
Proof.
  unfold receiveOrShut, receive, received, update, Shutdown. destruct (heap s !! p) as [c|] eqn:E.
  - assert (Halt : forall g h, g c = h c -> alter g p (heap s) = alter h p (heap s)).
    { intros g h Hgh. apply list_alter_ext; [|done]. intros x Hx. congruence. }
    destruct (push now c part) as [c1 [[f|]|e]] eqn:Ep.
    + destruct (Deliver (pipe c1) f) as [x ok] eqn:Ed. destruct ok; unfold update, set_heap; cbn; f_equal.
      * apply Halt. by rewrite Ep, Ed.
      * rewrite list_alter_alter_eq. apply Halt. cbn. by rewrite Ep, Ed.
    + unfold set_heap; cbn; f_equal. apply Halt. by rewrite Ep.
    + unfold update, set_heap; cbn; f_equal. rewrite list_alter_alter_eq. apply Halt. cbn. by rewrite Ep.
  - unfold set_heap. replace (alter _ p (heap s)) with (heap s); [by destruct s|].
    apply list_eq. intros i. destruct (decide (i = p)) as [->|];
      [by rewrite list_lookup_alter_eq, E|by rewrite list_lookup_alter_ne].
Qed.

Lemma push_pipe now c part : pipe (push now c part).1 = pipe c /\ connID (push now c part).1 = connID c.
Proof. unfold push. by destruct (Framing.Push now (recv c) part) as [r [f|e]]. Qed.

Lemma received_keeps now part c :
  connID (received now part c) = connID c /\ stopped (received now part c) = stopped c /\
  pending (received now part c) = pending c.
Proof.
  unfold received, push. destruct (Framing.Push now (recv c) part) as [r [[f|]|e]]; try done.
  destruct (Deliver _ _) as [x []]; done.
Qed.

Lemma pumpOk_received now part c : pumpOk c -> pumpOk (received now part c).
Proof. destruct (received_keeps now part c) as (_ & E2 & E3). unfold pumpOk. by rewrite E2, E3. Qed.

(** the open connection takes another chunk *)
Lemma inOk_more tr p part c' r frames :
  Framing.pushAll 0 (Framing.NewReassembler Framing.GatewayChunkSize) (receivedBy p tr ++ [part]) = (r, Ok frames) ->
  readFrom p tr ++ inbound (pipe c') = frames -> sameState r (recv c') ->
  len (inbound (pipe c')) <= gatewayConnQueue -> queue (pipe c') = gatewayConnQueue ->
  pumpOk c' -> inOk (tr ++ [Received p part]) p c'.
Proof.
  intros Hp Hf Hs Hl Hq Hpump. unfold inOk. rewrite receivedBy_self, (proj2 (other_traces p tr part)).
  do 3 (split; [done|]). exists (receivedBy p tr ++ [part]), frames, r. split; [done|].
  split; [done|]. split; [by rewrite Hf|]. by intros _.
Qed.

Lemma inOk_received tr now p part c :
  inOk tr p c -> inOk (tr ++ [Received p part]) p (received now part c).
Proof.
  intros Hin. pose proof Hin as (Hpump & Hl & Hq & ps & fs & r & Hp & _ & _ & Hopen).
  pose proof (pumpOk_received now part c Hpump) as Hpump'. destruct (closed (pipe c)) eqn:Hc.
  - apply (inOk_closed _ _ _ c); [done|done|..]; unfold received; destruct (push_pipe now c part) as [Ep _];
      destruct (push now c part) as [c1 [[f|]|e]]; cbn in Ep; unfold Deliver; rewrite ?Ep, ?Hc; cbn;
      by rewrite ?Ep, ?Hc.
  - destruct (Hopen eq_refl) as (-> & <- & Hs).
    destruct (Push_sameState now r (recv c) part Hs) as [Eres Est].
    pose proof (pushAll_snoc 0 (Framing.NewReassembler Framing.GatewayChunkSize) (receivedBy p tr) part) as Hsn.
    rewrite Hp in Hsn. unfold received, push in *.
    destruct (Framing.Push now (recv c) part) as [r1 o]. destruct (Framing.Push 0 r part) as [r0 o0].
    cbn in Eres, Est. subst o. destruct o0 as [[f|]|e].
    + unfold Deliver in *. cbn [pipe set_recv] in *. rewrite Hc, Hq in *. destruct (_ <? _) eqn:El.
      * zb. eapply inOk_more; try done; cbn.
        -- by rewrite app_assoc.
        -- rewrite length_app. cbn. lia.
      * by apply (inOk_closed _ _ _ c).
    + eapply inOk_more; done.
    + by apply (inOk_closed _ _ _ c).
Qed.

Lemma inv_received lost tr s now p part :
  inv lost tr s -> (p < length (heap s))%nat ->
  inv lost (tr ++ [Received p part]) (receiveOrShut now p part s).
Proof.
  intros Hi Hp. rewrite receiveOrShut_eq. apply inv_update; [done|apply evAbout_receive|by left|].
  intros c Hc. destruct (received_keeps now part c) as (E1 & E2 & E3). split; [done|].
  split; [apply inOk_received|]. unfold outOk. rewrite (proj1 (other_traces p tr part)), E1, E2, E3. done.
Qed.

Lemma inv_read lost tr s p c x frame :
  inv lost tr s -> heap s !! p = Some c -> ReadFrame FromInbound (pipe c) = Some (x, Ok frame) ->
  inv lost (tr ++ [Read p frame]) (update p (set_pipe x) s).
Proof.
  intros Hi Hc Hr. apply inv_update; [done| |left; by eapply lookup_lt_Some|].
  { split; [done|]. intros q Hq. cbn. by rewrite decide_False. }
  intros c' Hc'. rewrite Hc in Hc'. injection Hc' as <-. split; [done|]. unfold inOk, outOk.
  rewrite sentBy_app, receivedBy_app, readFrom_app. cbn. rewrite !app_nil_r, decide_True by done.
  split; [|done]. unfold ReadFrame in Hr. destruct (inbound (pipe c)) as [|f rest]; [done|].
  simplify_eq. cbn. intros (Hu & Hl & Hq & ps & fs & r & Hp & H1 & H2 & H3).
  split; [done|]. split; [lia|]. split; [done|]. exists ps, fs, r. by rewrite <- app_assoc.
Qed.

(** ** Sending *)

Lemma evAbout_sent p frame : evAbout p [Sent p frame].
Proof. split; [done|]. intros q Hq. cbn. by rewrite decide_False. Qed.

Lemma inv_begin lost tr s p c frame s' err :
  inv lost tr s -> heap s !! p = Some c -> pending c = None -> stopped c = false ->
  beginSend p frame s = Some (s', err) ->
  inv lost (tr ++ match err with None => [Sent p frame] | Some _ => [] end) s'.
Proof.
  intros Hi Hc Hpend Hstop Hb. unfold beginSend in Hb. rewrite Hc in Hb. cbn [mbind option_bind] in Hb.
  repeat case_if_in Hb; simplify_eq; rewrite ?app_nil_r; [by apply inv_stopPump..|]. zb.
  assert (Hlen : Forall (fun f => len f <= Framing.MaxLogicalBytes) [frame]) by (apply Forall_singleton; lia).
  destruct (chunksOf_ok [frame] Hlen) as (parts & Hp & Hsz & _). cbn [chunksOf] in Hp.
  destruct (Framing.Chunk [] frame _) as [ps|] eqn:Ech; [|done]. cbn in Hp, Hb. rewrite app_nil_r in Hp. simplify_eq.
  apply inv_update; [done|apply evAbout_sent|left; by eapply lookup_lt_Some|].
  intros c' Hc'. rewrite Hc in Hc'. injection Hc' as <-. split; [done|]. unfold inOk, outOk.
  rewrite sentBy_app, receivedBy_app, readFrom_app. cbn. rewrite !app_nil_r, decide_True by done. split.
  { intros (_ & ?). split; [|done]. split; [done|]. cbn. congruence. }
  intros (Hf & rest & Hch & Hrest). rewrite Hpend in Hrest. rewrite (Hrest Hstop) in Hch.
  split; [by apply Forall_app|]. exists parts.
  rewrite chunksOf_app, Hch. cbn. rewrite Ech. cbn. by rewrite !app_nil_r.
Qed.


Lemma GatewayChunkSize_fits : Framing.GatewayChunkSize <= MaxFramePayload.
Proof. done. Qed.

Lemma ids_alter f p (h : list gatewayConn) :
  (forall c, connID (f c) = connID c) -> connID <$> alter f p h = connID <$> h.
Proof. intros H. revert p. induction h as [|c h IH]; intros [|p]; cbn; f_equal; auto. Qed.

(** in a stream with distinct ids a chunk concerns only its own connection *)
Lemma other_id (h : list gatewayConn) p q c d :
  NoDup (connID <$> h) -> h !! p = Some c -> h !! q = Some d -> p <> q -> connID d <> connID c.
Proof.
  intros ND Hp Hq Hne E. apply Hne. eapply NoDup_lookup; [done|..]; rewrite list_lookup_fmap;
    [by rewrite Hp|by rewrite Hq; cbn; f_equal].
Qed.

(** a chunk of the connection at [p] joins the queue *)
Lemma inv_chunk lost tr s p c part rest :
  inv lost tr s -> heap s !! p = Some c -> pending c = Some (part :: rest) ->
  len (writes s) < gatewayWriteQueue ->
  inv lost tr (update p (set_pending (Some rest))
     (set_writes (writes s ++ [EncodeFrame OpData (connID c) part]) s)).
Proof.
  intros Hi Hc Hpend Hq. pose proof Hi as [].
  destruct (i_in0 p c Hc) as ((Hsz & Hstop) & Hin). rewrite Hpend in Hsz, Hstop. cbn in Hsz.
  apply Forall_cons in Hsz as [Hl Hsz].
  assert (Hs : stopped c = false) by (destruct (stopped c); [by specialize (Hstop eq_refl)|done]).
  assert (Hv : validFrame OpData (connID c) part).
  { pose proof GatewayChunkSize_fits. split; [done|]. split; [|lia].
    rewrite Forall_forall in i_ids0. apply (i_ids0 c). by eapply list_elem_of_lookup_2. }
  set (s' := update p _ _).
  assert (Hst : stream lost tr s' = stream lost tr s ++ [EncodeFrame OpData (connID c) part])
    by apply stream_enqueue.
  assert (Hids : connID <$> heap s' = connID <$> heap s) by (by apply ids_alter).
  constructor; rewrite ?Hst, ?Hids; try done.
  - intros id q H. destruct (i_reg0 id q H) as (d & Hd & Eid). cbn.
    destruct (decide (q = p)) as [->|]; [|rewrite list_lookup_alter_ne by done; by exists d].
    rewrite list_lookup_alter_eq, Hd. by exists (set_pending (Some rest) d).
  - cbn. rewrite length_app. cbn. lia.
  - rewrite <- (Forall_fmap connID (fun i => 0 <= i < 2 ^ 32)), Hids, Forall_fmap. done.
  - apply Forall_app. split; [done|]. apply Forall_singleton. exists OpData, (connID c), part.
    split; [done|]. split; [done|by left].
  - intros id Hid. rewrite dataOf_app, dataOf_frame, i_fresh0 by done.
    destruct (connID c =? id) eqn:E; [|done]. zb. subst. destruct Hid.
    apply list_elem_of_fmap. exists c. split; [done|]. by eapply list_elem_of_lookup_2.
  - intros q. cbn. rewrite length_alter. apply i_trace0.
  - intros ND q d Hd. cbn in Hd. destruct (decide (q = p)) as [->|Hne].
    + rewrite list_lookup_alter_eq, Hc in Hd. cbn in Hd. injection Hd as <-.
      destruct (i_out0 ND p c Hc) as (Hf & r & Hch & Hr). split; [done|]. exists rest.
      rewrite (Hr Hs), Hpend in Hch. cbn [connID set_pending].
      rewrite dataOf_app, dataOf_frame, (Z.eqb_refl (connID c)) by done.
      split; [|done]. rewrite Hch. change (OpData =? OpData) with true. by rewrite <- app_assoc.
    + rewrite list_lookup_alter_ne in Hd by done. apply outOk_stream; [|by apply i_out0].
      rewrite dataOf_frame by done. destruct (connID c =? connID d) eqn:E; [|done]. zb.
      by destruct (other_id _ _ _ _ _ ND Hc Hd ltac:(congruence)).
  - intros q d Hd. cbn in Hd. destruct (decide (q = p)) as [->|Hne].
    + rewrite list_lookup_alter_eq, Hc in Hd. cbn in Hd. injection Hd as <-.
      split; [|done]. split; [done|]. cbn. congruence.
    + rewrite list_lookup_alter_ne in Hd by done. by apply i_in0.
Qed.

Lemma inv_part lost tr s p : inv lost tr s -> inv lost tr (sendPart p s).1.
Proof.
  intros Hi. unfold sendPart. destruct (heap s !! p) as [c|] eqn:Hc; [|done].
  destruct (pending c) as [[|part rest]|] eqn:Hp; [| |done].
  - cbn [fst]. apply inv_silent; [done|]. intros c' Hc'. rewrite Hc in Hc'. injection Hc' as <-.
    split; [done|]. split.
    + intros ((? & ?) & ?). split; [|done]. by split.
    + unfold outOk. cbn. by rewrite Hp.
  - unfold enqueue. repeat case_if; cbn [fst].
    + by apply inv_stopPump.
    + zb. by apply inv_chunk.
    + by apply inv_stopPump, inv_Shutdown, inv_removeConn.
Qed.

(** the writer takes the head of the queue *)
Lemma inv_write lost tr s ok s' out :
  inv lost tr s -> writeNext ok s = Some (s', out) ->
  exists lost', inv lost' (tr ++ (Wrote <$> out)) s'.
Proof.
  intros Hi Hw. unfold writeNext in Hw. destruct (writerDone s) eqn:Hd; [done|].
  destruct (writes s) as [|frame rest] eqn:E; [done|].
  assert (lost = []) as -> by (by apply (i_lost _ _ _ Hi)).
  assert (Hst : stream [] tr s = wrote tr ++ frame :: rest) by (unfold stream; cbn; by rewrite E).
  pose proof (i_writes _ _ _ Hi) as Hlen. rewrite E in Hlen. cbn in Hlen.
  destruct ok; simplify_eq.
  - exists []. change (Wrote <$> [frame]) with [Wrote frame].
    assert (Hst' : stream [] (tr ++ [Wrote frame]) (set_writes rest s) = stream [] tr s).
    { rewrite Hst. unfold stream. rewrite wrote_app. cbn. by rewrite <- app_assoc. }
    destruct Hi. constructor; rewrite ?Hst'; cbn; try done; try lia.
    + intros p Hp. rewrite sentBy_app, receivedBy_app, readFrom_app. cbn. rewrite !app_nil_r. by apply i_trace0.
    + intros ND p c Hc. unfold outOk. rewrite sentBy_app. cbn. rewrite app_nil_r. by apply i_out0.
    + intros p c Hc. unfold inOk. rewrite receivedBy_app, readFrom_app. cbn. rewrite !app_nil_r. by apply i_in0.
  - exists [frame]. cbn. rewrite app_nil_r.
    assert (Hst' : stream [frame] tr (endWriter (fail "write gateway frame" (set_writes rest s))) = stream [] tr s).
    { rewrite Hst. done. }
    destruct Hi. constructor; rewrite ?Hst'; cbn; try done; try lia.
Qed.

Lemma inv_linkStep lost tr s ev s' : inv lost tr s -> step s ev s' -> exists lost', inv lost' (tr ++ ev) s'.
Proof.
  intros Hi Hs. destruct Hs; rewrite ?app_nil_r;
    try (exists lost; by apply (inv_frame lost tr s)).
  - exists lost. by apply inv_addConn.
  - exists lost. by apply inv_control.
  - exists lost. by apply inv_received.
  - exists lost. by apply inv_Shutdown.
  - exists lost. by apply inv_removeConn.
  - exists lost. unfold takeConn. destruct (conns s !! id); [|done]. apply inv_conns; [done|apply delete_subseteq].
  - exists lost. apply inv_conns; [done|apply map_empty_subseteq].
  - exists lost. by eapply inv_begin.
  - exists lost. by apply inv_part.
  - by eapply inv_write.
  - exists lost. by eapply inv_read.
Qed.

Lemma run_inv tr s : run tr s -> exists lost, inv lost tr s.
Proof.
  induction 1 as [notice|tr s ev s' _ [lost IH] Hs].
  - exists []. constructor; cbn; try done; rewrite ?map_size_empty; try lia.
  - by eapply inv_linkStep.
Qed.

(** ** What the link guarantees *)

Lemma prefix_dataOf id l k : l `prefix_of` k -> dataOf id l `prefix_of` dataOf id k.
Proof. intros [r ->]. rewrite dataOf_app. by apply prefix_app_r. Qed.

(** C28: whatever the goroutines of the link do, a phone that reassembles the chunks
    written for its connection id gets a prefix of the frames the relay sent to it,
    complete and in order, with no chunk of another phone among them; when the
    queue is empty and its pump is idle it has got all of them.  (Connection ids
    are not repeated on a link, which the gateway guarantees.) *)
Theorem phone_stream_exact tr s p c now :
  run tr s -> NoDup (connID <$> heap s) -> heap s !! p = Some c ->
  exists r frames,
    Framing.pushAll now (Framing.NewReassembler Framing.GatewayChunkSize) (dataOf (connID c) (wrote tr)) = (r, Ok frames) /\
    frames `prefix_of` sentBy p tr /\
    (writes s = [] -> writerDone s = false -> pending c = None -> stopped c = false -> frames = sentBy p tr).
Proof.
  intros Hr ND Hc. destruct (run_inv tr s Hr) as [lost Hi].
  destruct (i_out _ _ _ Hi ND p c Hc) as (Hf & rest & Hch & Hrest).
  destruct (prefix_rebuilds _ _ (dataOf (connID c) (wrote tr)) now Hf Hch) as (r & fs & Hp & Hpre).
  { apply prefix_app_r, prefix_dataOf. unfold stream. by apply prefix_app_r. }
  exists r, fs. split; [done|]. split; [done|]. intros Hw Hd Hpend Hstop.
  rewrite (Hrest Hstop), Hpend in Hch. cbn in Hch. unfold stream in Hch.
  rewrite (i_lost _ _ _ Hi Hd), Hw, !app_nil_r in Hch.
  destruct (chunksOf_ok _ Hf) as (ps & E & _ & Hall). rewrite Hch in E. injection E as <-.
  destruct (Hall now (Framing.NewReassembler Framing.GatewayChunkSize)) as [r' Hr']; [done|]. congruence.
Qed.

(** When a phone sends the chunks of a sequence of frames, the hub reads a prefix
    of these frames from the connection, whatever happens meanwhile; while the
    connection is open, every frame whose chunks have arrived has been read or is
    next in its queue. *)
Theorem hub_stream_exact tr s p c frames parts :
  run tr s -> heap s !! p = Some c ->
  Forall (fun f => len f <= Framing.MaxLogicalBytes) frames -> chunksOf frames = Some parts ->
  receivedBy p tr `prefix_of` parts ->
  readFrom p tr ++ inbound (pipe c) `prefix_of` frames /\
  (closed (pipe c) = false -> receivedBy p tr = parts -> readFrom p tr ++ inbound (pipe c) = frames).
Proof.
  intros Hr Hc Hf Hch Hpre. destruct (run_inv tr s Hr) as [lost Hi].
  destruct (i_in _ _ _ Hi p c Hc) as (_ & _ & _ & ps & fs & r & Hp & Hps & Hin & Hopen).
  split.
  - destruct (prefix_rebuilds frames parts ps 0 Hf Hch) as (r' & fs' & Hp' & Hpre'); [by etransitivity|].
    rewrite Hp in Hp'. injection Hp' as <- <-. by etransitivity.
  - intros Hcl Hall. destruct (Hopen Hcl) as (-> & -> & _).
    destruct (chunksOf_ok _ Hf) as (qs & E & _ & Hq). rewrite Hch in E. injection E as <-.
    destruct (Hq 0 (Framing.NewReassembler Framing.GatewayChunkSize)) as [r' Hr']; [done|].
    rewrite <- Hall in Hr'. congruence.
Qed.

(** At most [maxClients] phones are registered, the write queue and the queue of
    every phone are bounded, and every frame the relay writes is a valid frame of
    the wire contract, which the gateway decodes. *)
Theorem link_bounded tr s :
  run tr s ->
  Z.of_nat (size (conns s)) <= Z.max 0 maxClients /\ len (writes s) <= gatewayWriteQueue /\
  (forall p c, heap s !! p = Some c -> len (inbound (pipe c)) <= gatewayConnQueue) /\
  Forall (fun f => is_ok (DecodeFrame f) = true) (wrote tr ++ writes s).
Proof.
  intros Hr. destruct (run_inv tr s Hr) as [lost Hi]. pose proof Hi as [].
  split_and!; try done.
  - intros p c Hc. by destruct (i_in0 p c Hc) as (_ & ? & _).
  - unfold stream in i_valid0. rewrite !Forall_app in i_valid0. destruct i_valid0 as (H1 & _ & H2).
    apply Forall_app. split; eapply Forall_impl; try done;
      intros f (op & id & payload & -> & Hv & _); by rewrite frame_decode_encode.
Qed.

(** The relay registers a phone that the gateway announces only if its open
    payload carries a nonce of the right size and the HMAC of the relay id and that
    nonce under the rendezvous key. *)
Theorem open_authenticates id payload s i p :
  conns (handleOpen id payload s) !! i = Some p ->
  conns s !! i = Some p \/
  i = id /\ exists o nonce, readOpen payload = Some o /\ b64_decode_string (op_Nonce o) = Some nonce /\
    len nonce = NonceBytes /\
    b64_decode_string (op_Proof o) = Some (ConnectProof hmac rendezvousKey relayID nonce).
Proof.
  intros H. unfold handleOpen in H.
  assert (Hrej : forall reason s', conns (reject id reason s') = conns s')
    by (intros; unfold reject, enqueue; by repeat case_if).
  destruct (authentic payload) eqn:Ha; cbn [negb] in H; [|left; by rewrite Hrej in H].
  destruct (decide (i = id)) as [->|Hne].
  - right. split; [done|]. unfold authentic in Ha.
    destruct (readOpen payload) as [o|]; [|done].
    destruct (b64_decode_string (op_Nonce o)) as [nonce|] eqn:En; [|done].
    destruct (b64_decode_string (op_Proof o)) as [proof|] eqn:Ep; [|done].
    apply VerifyConnectProof_spec in Ha as (H1 & H2 & ->). by exists o, nonce.
  - left. unfold addConn in H. set (s1 := match conns s !! id with Some _ => _ | None => _ end) in H.
    assert (E : conns s1 !! i = conns s !! i).
    { unfold s1. destruct (conns s !! id); [|done]. by apply lookup_delete_ne. }
    case_if_in H; [rewrite Hrej in H; congruence|]. cbn in H. rewrite lookup_insert_ne in H by done. congruence.
Qed.

Lemma reject_keeps id reason s : conns (reject id reason s) = conns s /\ heap (reject id reason s) = heap s.
Proof. unfold reject, enqueue. by repeat case_if. Qed.

Lemma removeConn_keeps id p s i :
  heap (removeConn id p s) = heap s /\ (i <> id -> conns (removeConn id p s) !! i = conns s !! i).
Proof. unfold removeConn. case_if; cbn; split; try done. intros. by apply lookup_delete_ne. Qed.

Lemma update_other p q f s : q <> p -> heap (update p f s) !! q = heap s !! q.
Proof. intros. by apply list_lookup_alter_ne. Qed.

Lemma Close_keeps p reason s i q c :
  heap s !! p = Some c -> i <> connID c -> q <> p ->
  conns (Close p reason s) !! i = conns s !! i /\ heap (Close p reason s) !! q = heap s !! q.
Proof.
  intros Hc Hi Hq. unfold Close. rewrite Hc. case_if; [done|]. unfold closeConn.
  cbn [heap Shutdown update set_heap]. rewrite list_lookup_alter_eq, Hc. cbn [fmap option_fmap option_map connID set_pipe].
  destruct (reject_keeps (connID c) reason (removeConn (connID c) p (Shutdown p s))) as [-> ->].
  destruct (removeConn_keeps (connID c) p (Shutdown p s) i) as [-> Ek]. rewrite Ek by done.
  split; [done|]. by apply update_other.
Qed.

(** A data frame, however malformed, touches only the connection it names: every
    other phone keeps its registration, its queue and its partial frame. *)
Theorem phones_isolated tr s now id payload i q d :
  run tr s -> conns s !! i = Some q -> heap s !! q = Some d -> i <> id ->
  conns (handleData now id payload s) !! i = Some q /\ heap (handleData now id payload s) !! q = Some d.
Proof.
  intros Hr Hq Hd Hi. destruct (run_inv tr s Hr) as [lost Hinv].
  destruct (i_reg _ _ _ Hinv i q Hq) as (d' & Hd' & Eid). rewrite Hd in Hd'. injection Hd' as <-.
  unfold handleData, lookupConn. destruct (conns s !! id) as [p|] eqn:Hp;
    [|by destruct (reject_keeps id gatewayReasonUnknownConn s) as [-> ->]].
  destruct (i_reg _ _ _ Hinv id p Hp) as (c & Hc & Ec).
  assert (Hne : q <> p) by (intros ->; rewrite Hc in Hd; congruence).
  assert (Hrec : conns (receive now p payload s).1 = conns s /\ heap (receive now p payload s).1 !! q = Some d /\
     exists c', heap (receive now p payload s).1 !! p = Some c' /\ connID c' = id).
  { unfold receive. rewrite Hc. destruct (push_pipe now c payload) as [_ Eid'].
    destruct (push now c payload) as [c1 [[f|]|e]]; cbn in Eid'; [destruct (Deliver (pipe c1) f) as [x ok]|..];
      cbn; rewrite list_lookup_alter_eq, Hc, list_lookup_alter_ne by done; (split; [done|]); (split; [done|]);
      eexists; (split; [done|]); cbn; congruence. }
  destruct (receive now p payload s) as [s1 [reason|]]; cbn in Hrec; destruct Hrec as (E1 & E2 & c' & E3 & E4);
    [|by rewrite E1].
  destruct (Close_keeps p reason s1 i q c' E3) as [-> ->]; [congruence|done|]. by rewrite E1.
Qed.

(** ** The handlers are made of the steps *)

Lemma steps_one s ev s' : step s ev s' -> steps s ev s'.
Proof. intros H. rewrite <- (app_nil_r ev). by econstructor; [|constructor]. Qed.

Lemma steps_trans s ev s' ev' s'' : steps s ev s' -> steps s' ev' s'' -> steps s (ev ++ ev') s''.
Proof. intros H1 H2. induction H1; [done|]. rewrite <- app_assoc. econstructor; [done|auto]. Qed.

Lemma run_steps tr s ev s' : run tr s -> steps s ev s' -> run (tr ++ ev) s'.
Proof.
  intros Hr Hs. revert tr Hr. induction Hs as [s|s ev s' ev' s'' H _ IH]; intros tr Hr; [by rewrite app_nil_r|].
  rewrite app_assoc. apply IH. by econstructor.
Qed.

(** [s'] is reached from [s] by the steps of the goroutines *)
Definition leads (s s' : Session) : Prop := exists ev, steps s ev s'.

Lemma leads_refl s : leads s s.
Proof. exists []. constructor. Qed.
Lemma leads_step s ev s' : step s ev s' -> leads s s'.
Proof. intros H. exists ev. by apply steps_one. Qed.
Lemma leads_trans s s' s'' : leads s s' -> leads s' s'' -> leads s s''.
Proof. intros [e1 H1] [e2 H2]. exists (e1 ++ e2). by eapply steps_trans. Qed.

(** a state some run reaches *)
Definition reachable (s : Session) : Prop := exists tr, run tr s.

Lemma reachable_leads s s' : reachable s -> leads s s' -> reachable s'.
Proof. intros [tr Hr] [ev Hs]. exists (tr ++ ev). by eapply run_steps. Qed.

Lemma length_trimmed n l : (length (trimmed n l) <= n)%nat /\ trimmed n l `prefix_of` l.
Proof.
  induction n as [|n IH]; cbn [trimmed]; case_if.
  - split; [rewrite length_take; lia|apply prefix_take].
  - split; [cbn; lia|apply prefix_nil].
  - split; [rewrite length_take; lia|apply prefix_take].
  - destruct IH. split; [lia|done].
Qed.

Lemma trimmed_valid n l : utf8_valid (trimmed n l) = true.
Proof. induction n as [|n IH]; cbn [trimmed]; by case_if. Qed.

(** The reason of a close frame is a prefix of the given one within the limit of
    the wire contract, and cutting it never leaves half a rune. *)
Lemma closeReasonBytes_ok reason :
  len (closeReasonBytes reason) <= MaxCloseReason /\
  closeReasonBytes reason `prefix_of` bytes_of_string reason /\
  (utf8_valid (bytes_of_string reason) = true -> utf8_valid (closeReasonBytes reason) = true).
Proof.
  unfold closeReasonBytes. case_if; zb; [|split; [lia|by split]].
  destruct (length_trimmed (Z.to_nat MaxCloseReason) (bytes_of_string reason)) as [Hl Hp].
  split; [unfold MaxCloseReason in *; lia|]. split; [done|]. intros _. apply trimmed_valid.
Qed.

Lemma leads_reject id reason s : 0 <= id < 2 ^ 32 -> leads s (reject id reason s).
Proof.
  intros Hid. eapply leads_step. apply step_control; [by left|]. split; [done|]. split; [done|].
  destruct (closeReasonBytes_ok reason) as [Hl _]. assert (MaxCloseReason <= MaxFramePayload) by done. lia.
Qed.

Lemma Shutdown_none p s : heap s !! p = None -> Shutdown p s = s.
Proof.
  intros Hc. unfold Shutdown, update. replace (alter _ p (heap s)) with (heap s); [by destruct s|].
  symmetry. rewrite <- (list_alter_id id (heap s) p) at 2 by done. apply list_alter_ext; [congruence|done].
Qed.

Lemma Shutdown_closed p s c : heap s !! p = Some c -> closed (pipe c) = true -> Shutdown p s = s.
Proof.
  intros Hc Hcl. unfold Shutdown, update. replace (alter _ p (heap s)) with (heap s); [by destruct s|].
  symmetry. rewrite <- (list_alter_id id (heap s) p) at 2 by done. apply list_alter_ext; [|done].
  intros x Hx. rewrite Hc in Hx. injection Hx as <-. destruct c as [? [? ? ?]]. cbn in *. by subst.
Qed.

(** [Close] from the moment the connection is marked closed *)
Lemma leads_rest p reason s : reachable (Shutdown p s) -> leads (Shutdown p s) (Close p reason s).
Proof.
  intros [tr Hr]. destruct (run_inv _ _ Hr) as [lost Hi]. unfold Close.
  destruct (heap s !! p) as [c|] eqn:Hc; [|rewrite Shutdown_none by done; apply leads_refl].
  case_if; [rewrite (Shutdown_closed p s c) by done; apply leads_refl|]. unfold closeConn.
  assert (Hc' : heap (Shutdown p s) !! p = Some (set_pipe (shut (pipe c)) c))
    by (cbn; by rewrite list_lookup_alter_eq, Hc).
  rewrite Hc'. eapply leads_trans; [eapply leads_step; apply step_remove|]. apply leads_reject.
  pose proof (i_ids _ _ _ Hi) as H. rewrite Forall_forall in H. apply (H (set_pipe (shut (pipe c)) c)).
  by eapply list_elem_of_lookup_2.
Qed.

Lemma leads_Close p reason s : reachable s -> leads s (Close p reason s).
Proof.
  intros Hre. assert (leads s (Shutdown p s)) by (eapply leads_step, step_shut).
  eapply leads_trans; [done|]. apply leads_rest. by eapply reachable_leads.
Qed.

Lemma leads_handleData now id payload s :
  reachable s -> 0 <= id < 2 ^ 32 -> leads s (handleData now id payload s).
Proof.
  intros Hre Hid. pose proof Hre as [tr Hr]. destruct (run_inv tr s Hr) as [lost Hi].
  unfold handleData, lookupConn. destruct (conns s !! id) as [p|] eqn:Hp; [|by apply leads_reject].
  destruct (i_reg _ _ _ Hi id p Hp) as (c & Hc & Ec).
  assert (Hst : leads s (receiveOrShut now p payload s))
    by (eapply leads_step, step_receive; by eapply lookup_lt_Some).
  pose proof (reachable_leads _ _ Hre Hst) as Hre'.
  unfold receiveOrShut in Hst, Hre'. destruct (receive now p payload s) as [s1 [reason|]]; [|done].
  eapply leads_trans; [done|]. by apply leads_rest.
Qed.

Lemma leads_foldl {A} (f : Session -> A -> Session) l s :
  reachable s -> (forall s x, reachable s -> leads s (f s x)) -> leads s (foldl f s l).
Proof.
  intros Hs Hf. revert s Hs. induction l as [|x l IH]; intros s Hs; cbn; [apply leads_refl|].
  eapply leads_trans; [by apply Hf|]. apply IH. by eapply reachable_leads, Hf.
Qed.

Lemma leads_sendParts n p s : leads s (sendParts n p s).1.
Proof.
  revert s. induction n as [|n IH]; intros s; cbn [sendParts]; [apply leads_refl|].
  assert (H : leads s (sendPart p s).1) by (eapply leads_step, step_part).
  destruct (sendPart p s) as [s1 [e|]]; [done|]. by eapply leads_trans.
Qed.

Lemma leads_readMessage now data s : reachable s -> bytes_ok data -> leads s (readMessage now (Binary data) s).1.
Proof.
  intros Hre Hb. cbn [readMessage]. destruct (DecodeFrame data) as [[[op id] payload]|e] eqn:E; [|apply leads_refl].
  apply frame_encode_decode in E as (_ & Hop & Hid & Hlen); [|done].
  repeat case_if; cbn [fst].
  - by apply leads_handleData.
  - unfold handleOpen. case_if; [by apply leads_reject|].
    assert (H : leads s (addConn maxClients id s).1) by (by eapply leads_step, step_open).
    destruct (addConn maxClients id s) as [s1 []]; [done|]. eapply leads_trans; [done|]. by apply leads_reject.
  - unfold handleClose. assert (H : leads s (takeConn id s).1) by (eapply leads_step, step_take).
    destruct (takeConn id s) as [s1 [p|]]; [|done]. eapply leads_trans; [done|]. eapply leads_step, step_shut.
  - assert (H : leads s (enqueue (EncodeFrame OpPong id payload) s).1).
    { eapply leads_step, step_control; [by right|]. by split. }
    by destruct (enqueue _ s) as [s1 e1].
  - unfold handleNotice. destruct (readNotice payload); [|apply leads_refl]. eapply leads_step, step_notice.
  - apply leads_refl.
Qed.

(** The read loop on any message, a whole [WriteFrame], the sweep of stalled
    connections and the end of a session are sequences of the atomic steps, so the
    guarantees of the runs hold for the program that calls them. *)
Theorem link_handlers_are_steps tr s :
  run tr s ->
  (forall now m, (forall data, m = Binary data -> bytes_ok data) -> leads s (readMessage now m s).1) /\
  (forall now order, leads s (sweepStalled now order s)) /\
  (forall order, leads s (endSession order s)) /\
  (forall p c frame s' err, heap s !! p = Some c -> pending c = None -> stopped c = false ->
     WriteFrame p frame s = Some (s', err) -> leads s s').
Proof.
  intros Hr. assert (Hre : reachable s) by (by exists tr). split_and!.
  - intros now [[reason|]| |data] Hb; [apply leads_refl..|]. apply leads_readMessage; [done|by apply Hb].
  - intros now order. apply leads_foldl; [done|]. intros s1 p H1.
    destruct (heap s1 !! p); [|apply leads_refl]. case_if; [by apply leads_Close|apply leads_refl].
  - intros order. unfold endSession, evictAll.
    assert (H : leads s (set_conns ∅ (endWriter (stop s)))).
    { eapply leads_trans; [eapply leads_step, step_stop|].
      eapply leads_trans; [eapply leads_step, step_writer_end|]. eapply leads_step, step_evict. }
    eapply leads_trans; [done|]. apply leads_foldl; [by eapply reachable_leads|].
    intros s1 p _. eapply leads_step, step_shut.
  - intros p c frame s' err Hc Hp Hst Hw. unfold WriteFrame in Hw.
    destruct (beginSend p frame s) as [[s1 e1]|] eqn:Hb; [|done]. cbn [mbind option_bind] in Hw.
    assert (H : leads s s1) by (eapply leads_step, step_begin; done).
    destruct e1; [by simplify_eq|]. destruct (heap s1 !! p) as [c1|]; [|done]. cbn [mbind option_bind] in Hw.
    apply (inj Some) in Hw. apply (f_equal fst) in Hw. cbn [fst] in Hw. subst s'.
    eapply leads_trans; [done|]. apply leads_sendParts.
Qed.

Lemma evict_closed order s p c :
  heap s !! p = Some c -> (p ∈ order \/ closed (pipe c) = true) ->
  exists d, heap (foldl (fun s p => Shutdown p s) s order) !! p = Some d /\ closed (pipe d) = true.
Proof.
  revert s c. induction order as [|q order IH]; intros s c Hc Hor; cbn.
  - destruct Hor as [H|H]; [by apply elem_of_nil in H|by exists c].
  - destruct (decide (p = q)) as [->|Hne].
    + apply (IH _ (set_pipe (shut (pipe c)) c)); [cbn; by rewrite list_lookup_alter_eq, Hc|by right].
    + apply (IH _ c); [cbn; by rewrite list_lookup_alter_ne|]. destruct Hor as [[|]%elem_of_cons|]; [done|by left|by right].
Qed.

(** When a session ends no phone stays registered, every connection it carried is
    closed, so the hub stops serving it, and no frame is accepted any more. *)
Theorem session_ends_clean tr s order :
  run tr s -> (forall id p, conns s !! id = Some p -> p ∈ order) ->
  conns (endSession order s) = ∅ /\
  (forall id p, conns s !! id = Some p ->
     exists c, heap (endSession order s) !! p = Some c /\ closed (pipe c) = true) /\
  (forall frame, enqueue frame (endSession order s) = (endSession order s, Some ErrFrameConnClosed)).
Proof.
  intros Hr Hord. destruct (run_inv tr s Hr) as [lost Hi]. unfold endSession, evictAll.
  assert (Hk : forall s0, conns (foldl (fun s p => Shutdown p s) s0 order) = conns s0 /\
                          done (foldl (fun s p => Shutdown p s) s0 order) = done s0).
  { clear. induction order as [|p l IH]; intros s0; cbn; [done|]. destruct (IH (Shutdown p s0)) as [-> ->]. done. }
  destruct (Hk (set_conns ∅ (endWriter (stop s)))) as [E1 E2]. split; [by rewrite E1|]. split.
  - intros id p Hp. destruct (i_reg _ _ _ Hi id p Hp) as (c & Hc & _).
    apply (evict_closed _ _ _ c); [done|left; by apply (Hord id)].
  - intros frame. unfold enqueue. by rewrite E2.
Qed.

Lemma sendParts_S n p s :
  sendParts (S n) p s = let (s, err) := sendPart p s in
                        match err with Some _ => (s, err) | None => sendParts n p s end.
Proof. done. Qed.

(** A [WriteFrame] never panics; it succeeds when the connection is open, the
    frame within the limit and the queue has room for its chunks, and then its
    chunks stand next to each other at the end of the queue. *)
Theorem WriteFrame_total p frame s c :
  heap s !! p = Some c ->
  exists s' err, WriteFrame p frame s = Some (s', err) /\
    forall parts, closed (pipe c) = false -> done s = false -> len frame <= Framing.MaxLogicalBytes ->
      chunksOf [frame] = Some parts -> len (writes s) + len parts <= gatewayWriteQueue ->
      err = None /\ writes s' = writes s ++ (EncodeFrame OpData (connID c) <$> parts).
Proof.
  intros Hc. unfold WriteFrame, beginSend. rewrite Hc. cbn [mbind option_bind].
  destruct (closed (pipe c)) eqn:Hcl; [by do 2 eexists|].
  destruct (_ >? _) eqn:Hl; zb; [do 2 eexists; split; [done|]; lia|].
  assert (Hf : Forall (fun f => len f <= Framing.MaxLogicalBytes) [frame]) by (apply Forall_singleton; lia).
  destruct (chunksOf_ok [frame] Hf) as (parts & Hp & _). cbn [chunksOf] in *.
  destruct (Framing.Chunk [] frame _) as [ps|]; [|done]. cbn [mbind option_bind] in *.
  rewrite app_nil_r in *. injection Hp as ->. cbn [heap update set_heap].
  rewrite list_lookup_alter_eq, Hc. cbn [fmap option_fmap option_map mbind option_bind pending set_pending].
  set (s1 := update p _ s).
  assert (Hs1 : heap s1 !! p = Some (set_pending (Some parts) c)) by (cbn; by rewrite list_lookup_alter_eq, Hc).
  assert (E1 : writes s1 = writes s /\ done s1 = done s) by done. clearbody s1.
  destruct (sendParts (S (length (default [] (Some parts)))) p s1) as [s' err] eqn:Hsend. exists s', err.
  split; [done|]. intros parts' _ Hd _ Hp' Hroom. injection Hp' as <-. destruct E1 as [E1 E2]. rewrite <- E1, <- E2 in *.
  clear E1 E2 Hc Hcl Hf Hl. cbn [default id] in Hsend. revert s1 c Hs1 Hsend Hd Hroom. clear.
  induction parts as [|part parts IH]; intros s1 c Hs1 Hsend Hd Hroom; rewrite sendParts_S in Hsend.
  - unfold sendPart in Hsend. rewrite Hs1 in Hsend. cbn in Hsend. simplify_eq. by rewrite app_nil_r.
  - unfold sendPart in Hsend at 1. rewrite Hs1 in Hsend. cbn [pending set_pending connID] in Hsend.
    cbn [length] in Hroom.
    assert (Hen : enqueue (EncodeFrame OpData (connID c) part) s1 =
      (set_writes (writes s1 ++ [EncodeFrame OpData (connID c) part]) s1, None)).
    { unfold enqueue. rewrite Hd. destruct (_ <? _) eqn:E; [done|]. zb. lia. }
    rewrite Hen in Hsend.
    match type of Hsend with sendParts _ _ ?s2 = _ => destruct (IH s2 c) as [-> ->] end; [|done|done|..].
    { cbn. by rewrite list_lookup_alter_eq, Hs1. }
    { cbn. rewrite length_app. cbn. lia. }
    split; [done|]. cbn. by rewrite <- app_assoc.
Qed.

(** *** The probe of the public path *)

Lemma healthTick_ended l s : (foldl healthTick (s, None) l) = (s, None).
Proof. by induction l. Qed.

(** The health loop ends the session exactly when two probes in a row failed. *)
Theorem health_two_misses s outcomes :
  (foldl healthTick (s, Some 0) outcomes).2 = None <->
  exists before after, outcomes = before ++ [false; false] ++ after.
Proof.
  assert (H : forall s l k, 0 <= k <= 1 -> (foldl healthTick (s, Some k) l).2 = None <->
    (k = 1 /\ exists after, l = false :: after) \/ exists before after, l = before ++ [false; false] ++ after).
  { clear. intros s l. revert s. induction l as [|b l IH]; intros s k Hk; cbn [foldl].
    - split; [done|]. intros [[_ [a Ha]]|(bf & a & Ha)]; [done|by destruct bf].
    - unfold healthTick at 2. destruct b.
      + rewrite IH by lia. split.
        * intros [[? _]|(bf & a & ->)]; [lia|]. right. by exists (true :: bf), a.
        * intros [[_ [a Ha]]|(bf & a & Ha)]; [done|]. destruct bf as [|x bf]; [done|]. cbn in Ha.
          injection Ha as <- ->. right. by exists bf, a.
      + unfold gatewayHealthFailureLimit. destruct (_ <? _) eqn:E; zb.
        * assert (k = 0) as -> by lia. rewrite IH by lia. split.
          -- intros [[_ [a ->]]|(bf & a & ->)]; right; [by exists [], a|by exists (false :: bf), a].
          -- intros [[? _]|(bf & a & Ha)]; [lia|]. destruct bf as [|x bf]; cbn in Ha.
             ++ injection Ha as ->. left. split; [done|]. by exists a.
             ++ injection Ha as <- ->. right. by exists bf, a.
        * rewrite healthTick_ended. split; [|done]. intros _. left. split; [lia|]. by exists l. }
  rewrite H by lia. split; [intros [[? _]|?]; [lia|done]|by right].
Qed.

End Link.

(** ** A run *)

(** a phone opens connection 7, the relay sends it a frame and reads one from it *)
Definition demo0 : Session := newSession "".
Definition demo1 : Session := (addConn 8 7 demo0).1.
Definition demo2 : Session := match beginSend 0 [104; 105] demo1 with Some (s, _) => s | None => demo1 end.
Definition demo3 : Session := (sendPart 0 (sendPart 0 demo2).1).1.
Definition demo4 : Session := match writeNext true demo3 with Some (s, _) => s | None => demo3 end.
Definition demoPart : bytes := [Framing.Version; 3; 0; 0; 0; 1; 65].
Definition demo5 : Session := receiveOrShut 5 0 demoPart demo4.
Definition demoWire : bytes := EncodeFrame OpData 7 [Framing.Version; 3; 0; 0; 0; 2; 104; 105].
Definition demoTrace : list event := [Sent 0 [104; 105]; Wrote demoWire; Received 0 demoPart].
Definition demoConn : gatewayConn := default (newConn 7) (heap demo5 !! 0%nat).

Lemma demo_link_run : run 8 demoTrace demo5.
Proof.
  assert (H1 : run 8 [] demo1) by (apply (run_step 8 [] demo0 []); [constructor|by apply step_open]).
  assert (H2 : run 8 [Sent 0 [104; 105]] demo2).
  { apply (run_step 8 [] demo1 [Sent 0 [104; 105]]); [done|].
    apply (step_begin 8 demo1 0 (newConn 7) [104; 105] demo2 None); vm_compute; reflexivity. }
  assert (H3 : run 8 [Sent 0 [104; 105]] demo3).
  { apply (run_step 8 [Sent 0 [104; 105]] (sendPart 0 demo2).1 []); [|apply step_part].
    apply (run_step 8 [Sent 0 [104; 105]] demo2 []); [done|apply step_part]. }
  assert (H4 : run 8 [Sent 0 [104; 105]; Wrote demoWire] demo4).
  { apply (run_step 8 [Sent 0 [104; 105]] demo3 [Wrote demoWire]); [done|].
    apply (step_write 8 demo3 true demo4 [demoWire]). vm_compute. reflexivity. }
  apply (run_step 8 [Sent 0 [104; 105]; Wrote demoWire] demo4 [Received 0 demoPart]); [done|]. apply step_receive. vm_compute. lia.
Qed.

Lemma demo_conn : heap demo5 !! 0%nat = Some demoConn.
Proof. vm_compute. reflexivity. Qed.

Lemma phone_stream_exact_witness :
  exists r frames,
    Framing.pushAll 9 (Framing.NewReassembler Framing.GatewayChunkSize)
      (dataOf (connID demoConn) (wrote demoTrace)) = (r, Ok frames) /\ frames = [[104; 105]].
Proof.
  destruct (phone_stream_exact 8 demoTrace demo5 0 demoConn 9 demo_link_run) as (r & frames & H & _ & E).
  - apply (bool_decide_unpack _). vm_compute. reflexivity.
  - exact demo_conn.
  - exists r, frames. split; [exact H|]. rewrite E; vm_compute; reflexivity.
Defined.

Lemma hub_stream_exact_witness : readFrom 0 demoTrace ++ inbound (pipe demoConn) = [[65]].
Proof.
  apply (hub_stream_exact 8 demoTrace demo5 0 demoConn [[65]] [demoPart] demo_link_run demo_conn).
  - apply Forall_singleton. vm_compute. discriminate.
  - vm_compute. reflexivity.
  - vm_compute. exists []. reflexivity.
  - vm_compute. reflexivity.
  - vm_compute. reflexivity.
Defined.

Lemma link_bounded_witness : Z.of_nat (size (conns demo5)) <= Z.max 0 8.
Proof. apply (link_bounded 8 demoTrace demo5 demo_link_run). Defined.

(** a toy HMAC and JSON decoder: the phone knows the key when its nonce says so *)
Definition demoHmac (key msg : bytes) : bytes := repeat (len key) 32.
Definition demoOpen (payload : bytes) : option OpenPayload :=
  Some (mkOpenPayload (b64_encode_string (repeat 1 32)) (b64_encode_string payload)).

Lemma open_authenticates_witness :
  conns (handleOpen demoHmac demoOpen [1; 2] "id" 8 9 (repeat 2 32) demo5) !! 9 = Some 1%nat /\
  exists nonce : bytes, len nonce = NonceBytes.
Proof.
  split; [vm_compute; reflexivity|].
  destruct (open_authenticates demoHmac demoOpen [1; 2] "id" 8 9 (repeat 2 32) demo5 9 1) as [H|(_ & o & nonce & _ & _ & H & _)].
  - vm_compute. reflexivity.
  - vm_compute in H. discriminate.
  - exists nonce. exact H.
Defined.

Definition demo6 : Session := (addConn 8 9 demo5).1.
Lemma phones_isolated_witness :
  conns (handleData 6 9 [1; 2] demo6) !! 7 = Some 0%nat /\ heap (handleData 6 9 [1; 2] demo6) !! 0%nat = Some demoConn.
Proof.
  apply (phones_isolated 8 demoTrace demo6 6 9 [1; 2] 7 0 demoConn).
  - rewrite <- (app_nil_r demoTrace). apply (run_step 8 demoTrace demo5 []); [exact demo_link_run|]. by apply step_open.
  - vm_compute. reflexivity.
  - vm_compute. reflexivity.
  - discriminate.
Defined.

Lemma link_handlers_are_steps_witness : leads 8 demo5 (readMessage demoHmac demoOpen (fun _ => None) [] "" 8 3 (Binary demoWire) demo5).1.
Proof.
  apply (link_handlers_are_steps demoHmac demoOpen (fun _ => None) [] "" 8 demoTrace demo5 demo_link_run).
  intros data [= <-]. apply (bool_decide_unpack _). vm_compute. reflexivity.
Defined.

Lemma session_ends_clean_witness : conns (endSession [0%nat] demo5) = ∅.
Proof.
  apply (session_ends_clean 8 demoTrace demo5 [0%nat] demo_link_run). intros id p H. vm_compute in H.
  destruct id as [|[[[]|[]|]|[]|]|]; try discriminate; injection H as <-; left.
Defined.

Lemma WriteFrame_total_witness :
  exists s' err, WriteFrame 0 [1] demo5 = Some (s', err) /\ err = None.
Proof.
  destruct (WriteFrame_total 0 [1] demo5 demoConn demo_conn) as (s' & err & H & Hok). exists s', err.
  split; [exact H|]. apply (Hok [[Framing.Version; 3; 0; 0; 0; 1; 1]]); vm_compute; try reflexivity; discriminate.
Defined.
End Mux.
