(* ===== verification/GoText.v ===== *)
(** The functions of Go's [strings] package that the components below call, on
    strings of bytes: white space as [unicode.IsSpace] defines it. *)
From S2P Require Import Prelude GoLib.
From Stdlib Require Import Ascii String.
#[local] Open Scope Z_scope.

(** ** White space *)

Definition space1 (b : Z) : bool := (b =? 32) || ((9 <=? b) && (b <=? 13)).
(** U+0085 and U+00A0 *)
Definition space2 (b0 b1 : Z) : bool := (b0 =? 0xC2) && ((b1 =? 0x85) || (b1 =? 0xA0)).
(** U+1680, U+2000 … U+200A, U+2028, U+2029, U+202F, U+205F, U+3000 *)
Definition space3 (b0 b1 b2 : Z) : bool :=
  ((b0 =? 0xE1) && (b1 =? 0x9A) && (b2 =? 0x80)) ||
  ((b0 =? 0xE2) && (b1 =? 0x80) &&
     (((0x80 <=? b2) && (b2 <=? 0x8A)) || (b2 =? 0xA8) || (b2 =? 0xA9) || (b2 =? 0xAF))) ||
  ((b0 =? 0xE2) && (b1 =? 0x81) && (b2 =? 0x9F)) ||
  ((b0 =? 0xE3) && (b1 =? 0x80) && (b2 =? 0x80)).

Fixpoint trimLeftSpace (l : bytes) : bytes :=
  match l with
  | b0 :: l1 =>
      if space1 b0 then trimLeftSpace l1 else
      match l1 with
      | b1 :: l2 =>
          if space2 b0 b1 then trimLeftSpace l2 else
          match l2 with
          | b2 :: l3 => if space3 b0 b1 b2 then trimLeftSpace l3 else l
          | [] => l
          end
      | [] => l
      end
  | [] => []
  end.

(** the same from the end, on the reversed string *)
Fixpoint trimRevSpace (l : bytes) : bytes :=
  match l with
  | b0 :: l1 =>
      if space1 b0 then trimRevSpace l1 else
      match l1 with
      | b1 :: l2 =>
          if space2 b1 b0 then trimRevSpace l2 else
          match l2 with
          | b2 :: l3 => if space3 b2 b1 b0 then trimRevSpace l3 else l
          | [] => l
          end
      | [] => l
      end
  | [] => []
  end.

Definition trimSpaceBytes (l : bytes) : bytes := rev (trimRevSpace (rev (trimLeftSpace l))).

(** [strings.TrimSpace] *)
Definition TrimSpace (s : string) : string := string_of_bytes (trimSpaceBytes (bytes_of_string s)).

(** [strings.TrimRight] with a cutset of one ASCII character *)
Fixpoint trimRevByte (c : Z) (l : bytes) : bytes :=
  match l with
  | b :: l' => if b =? c then trimRevByte c l' else l
  | [] => []
  end.
Definition TrimRightByte (c : Z) (s : string) : string :=
  string_of_bytes (rev (trimRevByte c (rev (bytes_of_string s)))).

Definition slash : Z := 47.

(** [strings.Split] with a separator of one ASCII character: never empty *)
Fixpoint splitByte (c : Z) (l : bytes) : list bytes :=
  match l with
  | [] => [[]]
  | b :: l =>
      if b =? c then [] :: splitByte c l
      else match splitByte c l with
           | first :: rest => (b :: first) :: rest
           | [] => [[b]]
           end
  end.
Definition SplitByte (c : Z) (s : string) : list string := string_of_bytes <$> splitByte c (bytes_of_string s).

Definition comma : Z := 44.

(** ** The order of strings: bytewise *)

Lemma string_ltb_cons a s b t :
  String.ltb (String a s) (String b t) =
    match N.compare (N_of_ascii a) (N_of_ascii b) with Lt => true | Gt => false | Eq => String.ltb s t end.
Proof. unfold String.ltb. cbn [String.compare]. unfold Ascii.compare. by destruct (_ ?= _)%N. Qed.
Lemma string_ltb_irrefl s : String.ltb s s = false.
Proof. unfold String.ltb. induction s as [|a s IH]; cbn [String.compare]; [done|]. unfold Ascii.compare. by rewrite N.compare_refl. Qed.
Lemma string_ltb_trans s t u : String.ltb s t = true -> String.ltb t u = true -> String.ltb s u = true.
Proof.
  revert t u. induction s as [|a s IH]; intros [|b t] [|c u]; try done.
  rewrite !string_ltb_cons.
  destruct (N.compare_spec (N_of_ascii a) (N_of_ascii b)) as [E1|E1|E1], (N.compare_spec (N_of_ascii b) (N_of_ascii c)) as [E2|E2|E2]; try done;
  destruct (N.compare_spec (N_of_ascii a) (N_of_ascii c)) as [E3|E3|E3]; try done; try lia; intros; eauto.
Qed.
Lemma string_ltb_total s t : s = t \/ String.ltb s t = true \/ String.ltb t s = true.
Proof.
  revert t. induction s as [|a s IH]; intros [|b t]; auto. rewrite !string_ltb_cons.
  destruct (N.compare_spec (N_of_ascii a) (N_of_ascii b)) as [E|E|E].
  - rewrite (N.compare_antisym (N_of_ascii a) (N_of_ascii b)), E, N.compare_refl. cbn.
    apply (f_equal ascii_of_N) in E. rewrite !ascii_N_embedding in E. subst. destruct (IH t) as [->|[]]; auto.
  - auto.
  - rewrite (N.compare_antisym (N_of_ascii a) (N_of_ascii b)). apply N.compare_gt_iff in E. rewrite E. auto.
Qed.
