(* ===== verification/GatewaySelect.v ===== *)
(** Which gateway the relay registers with, and how it does
    ([internal/transport/gateway.go]): the candidate list, the selection rule, the
    hello exchange, and the reconnect loop.  The registered link is [Mux].  The
    probes and the sessions are arguments: what they returned. *)
From S2P Require Import Prelude GoLib GoText GatewayWire.
#[local] Open Scope Z_scope.

Module GatewaySelect.
Import GatewayWire.

Definition GatewaySelectionOrdered : string := "ordered".
Definition GatewaySelectionLatency : string := "latency".

Definition gatewayProbeTieWindow : duration := 20 * 1000000.
Definition gatewayDefaultMaxClients : Z := 8.
Definition gatewayBackoffBase : duration := 1 * second.
Definition gatewayBackoffMax : duration := 60 * second.

Record GatewayOptions := mkOptions {
  URL : string; URLs : list string; SelectionRule : string; RelayKey : string; MaxClients : Z }.

Record GatewayClient := mkClient {
  urls : list string;
  selection : string;
  relayID : string;
  rendezvousKey : bytes;
  maxClients : Z;
  active : Z;
  registered : bool;
  lastError : string;
  connectedSince : time;
  gatewayVersion : string;
  gatewayRevision : string;
  stunPort : Z
}.

(** ** Configuration *)

Inductive configError :=
| ErrNoURL | ErrPrimary (primary first : string) | ErrParse (entry : string)
| ErrScheme (entry : string) | ErrNoKey | ErrDerive.

Definition normalized (raw : string) : string := TrimRightByte slash (TrimSpace raw).

Section Config.
(** [parse] is [url.Parse], reduced to the scheme and the host *)
Context (parse : string -> option (string * string))
        (hkdf : bytes -> bytes -> bytes -> Z -> option bytes).

Fixpoint validEntries (l : list string) : option configError :=
  match l with
  | [] => None
  | entry :: l =>
      match parse entry with
      | None => Some (ErrParse entry)
      | Some (scheme, host) =>
          if String.eqb host "" || (negb (String.eqb scheme "ws") && negb (String.eqb scheme "wss"))
          then Some (ErrScheme entry) else validEntries l
      end
  end.

Definition gatewayURLs (opts : GatewayOptions) : result configError (list string) :=
  let primary := normalized (URL opts) in
  let list := filter (fun e => e <> ""%string) (normalized <$> URLs opts) in
  let! list := match list with
               | [] => if String.eqb primary "" then Err ErrNoURL else Ok [primary]
               | first :: _ =>
                   if negb (String.eqb primary "") && negb (String.eqb first primary)
                   then Err (ErrPrimary primary first) else Ok list
               end in
  match validEntries list with Some e => Err e | None => Ok list end.

Definition NewGatewayClient (opts : GatewayOptions) : result configError GatewayClient :=
  let! us := gatewayURLs opts in
  if String.eqb (RelayKey opts) "" then Err ErrNoKey else
  match DeriveRelayID hkdf (RelayKey opts), DeriveRendezvousKey hkdf (RelayKey opts) with
  | Some id, Some key =>
      Ok (mkClient us (SelectionRule opts) id key
            (if MaxClients opts <=? 0 then gatewayDefaultMaxClients else MaxClients opts)
            0 false "" zero_time "" "" 0)
  | _, _ => Err ErrDerive
  end.
End Config.

(** ** Fields *)

Definition set_active (x : Z) (c : GatewayClient) : GatewayClient :=
  mkClient (urls c) (selection c) (relayID c) (rendezvousKey c) (maxClients c) x (registered c)
    (lastError c) (connectedSince c) (gatewayVersion c) (gatewayRevision c) (stunPort c).

(** [c.urls[c.active]]; [None] is the panic *)
Definition CurrentURL (c : GatewayClient) : option string := index (urls c) (active c).

(** [% len(c.urls)] panics on the empty list *)
Definition advance (c : GatewayClient) : option GatewayClient :=
  if len (urls c) =? 0 then None
  else Some (set_active (Z.rem (active c + 1) (len (urls c))) c).

Fixpoint othersFrom (i act : Z) (l : list string) : list string :=
  match l with
  | [] => []
  | entry :: l => (if negb (i =? act) then [entry] else []) ++ othersFrom (i + 1) act l
  end.

Definition activeFirstLocked (c : GatewayClient) : option (list string) :=
  let? first := CurrentURL c in Some (first :: othersFrom 0 (active c) (urls c)).

Definition latencyRanked (c : GatewayClient) : bool := String.eqb (selection c) GatewaySelectionLatency.

Definition Selection (c : GatewayClient) : string :=
  if latencyRanked c then GatewaySelectionLatency else GatewaySelectionOrdered.

Definition setSTUNPort (port : Z) (c : GatewayClient) : GatewayClient :=
  mkClient (urls c) (selection c) (relayID c) (rendezvousKey c) (maxClients c) (active c) (registered c)
    (lastError c) (connectedSince c) (gatewayVersion c) (gatewayRevision c)
    (if (port <? 1) || (port >? 65535) then 0 else port).

Definition setGatewayBuild (version revision : string) (c : GatewayClient) : GatewayClient :=
  mkClient (urls c) (selection c) (relayID c) (rendezvousKey c) (maxClients c) (active c) (registered c)
    (lastError c) (connectedSince c) version revision (stunPort c).

Definition markRegistered (now : time) (c : GatewayClient) : GatewayClient :=
  mkClient (urls c) (selection c) (relayID c) (rendezvousKey c) (maxClients c) (active c) true
    "" now (gatewayVersion c) (gatewayRevision c) (stunPort c).

Definition markUnregistered (c : GatewayClient) : GatewayClient :=
  mkClient (urls c) (selection c) (relayID c) (rendezvousKey c) (maxClients c) (active c) false
    (lastError c) zero_time (gatewayVersion c) (gatewayRevision c) (stunPort c).

Definition recordError (err : string) (c : GatewayClient) : GatewayClient :=
  mkClient (urls c) (selection c) (relayID c) (rendezvousKey c) (maxClients c) (active c) (registered c)
    err (connectedSince c) (gatewayVersion c) (gatewayRevision c) (stunPort c).

(** ** Selection *)

(** [ok] is false for a probe that failed *)
Record gatewayProbeResult := mkProbe { index_ : Z; rtt : duration; ok : bool }.

Definition earliest (best result : gatewayProbeResult) : gatewayProbeResult :=
  if index_ result <? index_ best then result else best.

Definition applyConfiguredOrder (c : GatewayClient) (first : gatewayProbeResult)
    (rest : list gatewayProbeResult) : GatewayClient :=
  set_active (index_ (foldl earliest first rest)) c.

Definition fastest (best : duration) (result : gatewayProbeResult) : duration :=
  if rtt result <? best then rtt result else best.

(** the scan for the lowest index within the tie window *)
Definition tied (minRTT : duration) (best : Z) (result : gatewayProbeResult) : Z :=
  if (rtt result - minRTT <=? gatewayProbeTieWindow) && (index_ result <? best) then index_ result else best.

Definition applyProbeResults (c : GatewayClient) (results : list gatewayProbeResult) : GatewayClient * bool :=
  match results with
  | [] => (c, false)
  | first :: rest =>
      if negb (latencyRanked c) then (applyConfiguredOrder c first rest, true)
      else
        let minRTT := foldl fastest (rtt first) rest in
        (set_active (foldl (tied minRTT) (len (urls c)) results) c, true)
  end.

Definition candidates (n excluded : Z) : list Z :=
  filter (fun i => i <> excluded) (seqZ 0 n).

(** [arrivals] are the results of the probes that came before the timeout *)
Definition selectGateway (c : GatewayClient) (excluded : Z) (arrivals : list gatewayProbeResult)
    : GatewayClient * bool :=
  match candidates (len (urls c)) excluded with
  | [] => (c, false)
  | [only] => (set_active only c, true)
  | _ => applyProbeResults c (filter (fun r => ok r = true) arrivals)
  end.

(** ** Registration *)

Inductive wsMessage := WsError | WsText (data : bytes) | WsBinary.

Inductive sessionError :=
| ErrDial | ErrReadHello | ErrHelloNotText | ErrDecodeHello | ErrHelloType (t : string) | ErrProto (p : Z)
| ErrWriteRegister | ErrReadReply | ErrReplyNotText | ErrDecodeReply | ErrDecodeReady | ErrDecodeError
| ErrRejected (code message : string) | ErrReply (t : string) | ErrLink (e : string).

Section Register.
(** [json.Unmarshal] of the messages; [readType] reads the [type] field *)
Context (readHello : bytes -> option ServerHello) (readType : bytes -> option string)
        (readReady : bytes -> option ReadyMessage) (readError : bytes -> option ErrorMessage).

(** the replies of the gateway are arguments; the register message is returned
    when it was written *)
Definition registerLink (hello reply : wsMessage) (writable : bool) (c : GatewayClient)
    : GatewayClient * option RegisterHello * option sessionError :=
  match hello with
  | WsError => (c, None, Some ErrReadHello)
  | WsBinary => (c, None, Some ErrHelloNotText)
  | WsText raw =>
      match readHello raw with
      | None => (c, None, Some ErrDecodeHello)
      | Some h =>
          if negb (String.eqb (sh_Type h) TypeServerHello) then (c, None, Some (ErrHelloType (sh_Type h))) else
          if negb (sh_Proto h =? Proto) then (c, None, Some (ErrProto (sh_Proto h))) else
          let c := setSTUNPort (sh_StunPort h) (setGatewayBuild (sh_Version h) (sh_Revision h) c) in
          if negb writable then (c, None, Some ErrWriteRegister) else
          let register := mkRegisterHello TypeRegister Proto (relayID c) in
          (c, Some register,
           match reply with
           | WsError => Some ErrReadReply
           | WsBinary => Some ErrReplyNotText
           | WsText raw =>
               match readType raw with
               | None => Some ErrDecodeReply
               | Some t =>
                   if String.eqb t TypeReady then
                     match readReady raw with
                     | None => Some ErrDecodeReady
                     | Some r => if negb (rm_Proto r =? Proto) then Some (ErrProto (rm_Proto r)) else None
                     end
                   else if String.eqb t TypeError then
                     match readError raw with
                     | None => Some ErrDecodeError
                     | Some e => Some (ErrRejected (em_Code e) (em_Message e))
                     end
                   else Some (ErrReply t)
               end
           end)
      end
  end.

(** what a session met: the dial, the hello exchange, and how the link ended *)
Record sessionRun := mkRun {
  dialed : bool; hello : wsMessage; reply : wsMessage; writable : bool; since : time;
  cancelled : bool; failure : option string; readErr : string }.

(** [None] is a panic *)
Definition runSession (r : sessionRun) (c : GatewayClient) : option (GatewayClient * bool * option sessionError) :=
  let? base := CurrentURL c in
  Some (if negb (dialed r) then (c, false, Some ErrDial) else
        match registerLink (hello r) (reply r) (writable r) c with
        | (c, _, Some err) => (c, false, Some err)
        | (c, _, None) =>
            let c := markUnregistered (markRegistered (since r) c) in
            (c, true, if cancelled r then None
                      else match failure r with Some e => Some (ErrLink e) | None => Some (ErrLink (readErr r)) end)
        end).

Definition nextBackoff (delay : duration) : duration := Z.min (i64 (delay * 2)) gatewayBackoffMax.

(** one turn of the loop of [Run]: the client and the next delay, [None] for a
    panic; [describe] is [err.Error()].  The turn in which the context is cancelled
    is the last. *)
Definition runTurn (describe : sessionError -> string) (r : sessionRun) (arrivals : list gatewayProbeResult)
    (s : GatewayClient * duration) : option (GatewayClient * duration) :=
  let (c, delay) := s in
  let failedIndex := active c in
  match runSession r c with
  | None => None
  | Some (c, reached, err) =>
      if cancelled r then Some (c, delay) else
      let? c := match err with
                | None => Some c
                | Some e =>
                    let (c, selected) := selectGateway (recordError (describe e) c) failedIndex arrivals in
                    if selected then Some c else advance c
                end in
      Some (c, nextBackoff (if reached then gatewayBackoffBase else delay))
  end.

(** [Run] up to its first turn *)
Definition startRun (arrivals : list gatewayProbeResult) (c : GatewayClient) : GatewayClient * duration :=
  (if len (urls c) >? 1 then (selectGateway c (-1) arrivals).1 else c, gatewayBackoffBase).
End Register.

(** ** Invariant *)

Record wf (c : GatewayClient) : Prop := mkWf {
  wf_active : 0 <= active c < len (urls c);
  wf_port : 0 <= stunPort c <= 65535
}.

(** the probes are those of the candidates *)
Definition probesOf (c : GatewayClient) (excluded : Z) (arrivals : list gatewayProbeResult) : Prop :=
  Forall (fun r => 0 <= index_ r < len (urls c) /\ index_ r <> excluded) arrivals.

Lemma elem_candidates n excluded i : i ∈ candidates n excluded <-> 0 <= i < n /\ i <> excluded.
Proof. unfold candidates. rewrite list_elem_of_filter, elem_of_seqZ. lia. Qed.

Lemma earliest_spec first rest :
  let b := foldl earliest first rest in
  b ∈ first :: rest /\ Forall (fun r => index_ b <= index_ r) (first :: rest).
Proof.
  revert first. induction rest as [|r rest IH]; intros first; cbn [foldl].
  - split; [by left|]. constructor; [lia|constructor].
  - destruct (IH (earliest first r)) as [Hin Hall]. apply Forall_cons in Hall as [H1 Hall].
    unfold earliest in *. destruct (_ <? _) eqn:E; zb.
    + split; [by right|]. repeat constructor; [lia|done|done].
    + split; [apply elem_of_cons in Hin as [->|]; [by left|right; by right]|].
      repeat constructor; [done|lia|done].
Qed.

Lemma fastest_spec m rest :
  let b := foldl fastest m rest in
  b <= m /\ Forall (fun r => b <= rtt r) rest /\ (b = m \/ exists r, r ∈ rest /\ b = rtt r).
Proof.
  revert m. induction rest as [|r rest IH]; intros m; cbn [foldl]; [split; [lia|]; split; [constructor|by left]|].
  destruct (IH (fastest m r)) as (H1 & H2 & H3). unfold fastest in *. destruct (_ <? _) eqn:E; zb.
  - split; [lia|]. split; [by constructor|]. right. destruct H3 as [->|(r' & ? & ->)].
    + exists r. split; [by left|done].
    + exists r'. split; [by right|done].
  - split; [done|]. split; [constructor; [lia|done]|]. destruct H3 as [->|(r' & ? & ->)]; [by left|].
    right. exists r'. split; [by right|done].
Qed.

Definition within (m : duration) (r : gatewayProbeResult) : Prop := rtt r - m <= gatewayProbeTieWindow.

Lemma tied_spec m best l :
  let b := foldl (tied m) best l in
  b <= best /\ (forall r, r ∈ l -> within m r -> b <= index_ r) /\
  (b = best \/ exists r, r ∈ l /\ within m r /\ b = index_ r).
Proof.
  revert best. induction l as [|r l IH]; intros best; cbn [foldl].
  { split; [lia|]. split; [|by left]. intros r H. by apply elem_of_nil in H. }
  destruct (IH (tied m best r)) as (H1 & H2 & H3).
  assert (Ht : tied m best r <= best /\ (within m r -> tied m best r <= index_ r) /\
     (tied m best r = best \/ within m r /\ tied m best r = index_ r)).
  { unfold tied, within. destruct (_ <=? _) eqn:E1, (_ <? _) eqn:E2; cbn; zb; lia. }
  destruct Ht as (T1 & T2 & T3). split; [lia|]. split.
  - intros r' [->|Hr]%elem_of_cons Hw; [specialize (T2 Hw); lia|by apply H2].
  - destruct H3 as [->|(r' & ? & ? & ->)].
    + destruct T3 as [->|[Hw ->]]; [by left|]. right. exists r. split; [by left|done].
    + right. exists r'. split; [by right|done].
Qed.

(** what a selection among several candidates chooses *)
Definition chosen (c : GatewayClient) (healthy : list gatewayProbeResult) (best : gatewayProbeResult) : Prop :=
  best ∈ healthy /\
  if latencyRanked c
  then (forall r, r ∈ healthy -> rtt best - rtt r <= gatewayProbeTieWindow) /\
       (forall r, r ∈ healthy -> (forall r', r' ∈ healthy -> rtt r - rtt r' <= gatewayProbeTieWindow) ->
          index_ best <= index_ r)
  else forall r, r ∈ healthy -> index_ best <= index_ r.

Lemma applyProbeResults_ok c results :
  results <> [] -> Forall (fun r => index_ r < len (urls c)) results ->
  exists best, applyProbeResults c results = (set_active (index_ best) c, true) /\ chosen c results best.
Proof.
  intros Hne Hall. destruct results as [|first rest]; [done|]. cbn [applyProbeResults]. unfold chosen.
  destruct (latencyRanked c); cbn [negb].
  - destruct (fastest_spec (rtt first) rest) as (F1 & F2 & F3). set (m := foldl fastest _ _) in *. cbn zeta in *.
    assert (Hmin : exists r, r ∈ first :: rest /\ m = rtt r).
    { destruct F3 as [E|(r & Hr & E)]; [exists first; split; [by left|done]|exists r; split; [by right|done]]. }
    assert (Hle : forall r, r ∈ first :: rest -> m <= rtt r).
    { intros r [->|Hr]%elem_of_cons; [done|]. rewrite Forall_forall in F2. by apply F2. }
    destruct (tied_spec m (len (urls c)) (first :: rest)) as (T1 & T2 & T3). cbn zeta in *.
    destruct Hmin as (r0 & Hr0 & Em).
    assert (H0 : foldl (tied m) (len (urls c)) (first :: rest) <= index_ r0)
      by (apply T2; [done|]; unfold within, gatewayProbeTieWindow; lia).
    destruct T3 as [E|(best & Hb & Hw & E)].
    { rewrite Forall_forall in Hall. specialize (Hall r0 Hr0). lia. }
    exists best. rewrite E. split; [done|]. split; [done|]. unfold within in Hw. split.
    + intros r Hr. specialize (Hle r Hr). lia.
    + intros r Hr Hall'. rewrite <- E. apply T2; [done|]. specialize (Hall' r0 Hr0). unfold within. lia.
  - exists (foldl earliest first rest). destruct (earliest_spec first rest) as [Hin Hmin]. cbn zeta in *.
    split; [done|]. split; [done|]. rewrite Forall_forall in Hmin. done.
Qed.

Lemma healthy_of c excluded arrivals :
  probesOf c excluded arrivals ->
  Forall (fun r => 0 <= index_ r < len (urls c) /\ index_ r <> excluded) (filter (fun r => ok r = true) arrivals).
Proof.
  intros H. apply Forall_forall. intros r [_ Hr]%list_elem_of_filter. unfold probesOf in H.
  rewrite Forall_forall in H. by apply H.
Qed.

Lemma selection_cases c excluded arrivals c' b :
  probesOf c excluded arrivals -> selectGateway c excluded arrivals = (c', b) ->
  let healthy := filter (fun r => ok r = true) arrivals in
  let cands := candidates (len (urls c)) excluded in
  (b = true -> c' = set_active (active c') c /\ active c' ∈ cands) /\
  (b = false -> c' = c) /\
  (2 <= len cands -> b = true <-> healthy <> []) /\
  (2 <= len cands -> b = true -> exists best, chosen c healthy best /\ active c' = index_ best).
Proof.
  intros Hp Hs healthy cands. unfold selectGateway in Hs. subst cands. fold healthy in Hs.
  pose proof (healthy_of c excluded arrivals Hp) as Hh. fold healthy in Hh.
  destruct (candidates (len (urls c)) excluded) as [|only [|second more]] eqn:Ec.
  - simplify_eq. cbn. split_and!; done || lia.
  - simplify_eq. cbn. split_and!; try done; try lia. intros _. split; [done|by left].
  - destruct (decide (healthy = [])) as [E|Hne].
    + rewrite E in *. cbn in Hs. simplify_eq. by split_and!.
    + destruct (applyProbeResults_ok c healthy Hne) as (best & Ha & Hb).
      { eapply Forall_impl; [done|]. cbn. lia. }
      rewrite Hs in Ha. simplify_eq. split_and!; try done; [|by intros; exists best].
      intros _. split; [done|]. cbn. rewrite <- Ec. apply elem_candidates.
      rewrite Forall_forall in Hh. apply Hh, Hb.
Qed.

(** A selection never picks the excluded gateway or one that is not configured.
    Among several candidates it succeeds exactly when a probe was healthy, and picks
    the first healthy entry of the configured order, or, when ranked by latency, the
    first one within the tie window of the fastest.  A failed selection changes
    nothing. *)
Theorem selection_rule c excluded arrivals c' b :
  probesOf c excluded arrivals -> selectGateway c excluded arrivals = (c', b) ->
  let healthy := filter (fun r => ok r = true) arrivals in
  let cands := candidates (len (urls c)) excluded in
  (b = true -> c' = set_active (active c') c /\ active c' ∈ cands) /\
  (b = false -> c' = c) /\
  (2 <= len cands -> b = true <-> healthy <> []) /\
  (2 <= len cands -> b = true -> exists best, chosen c healthy best /\ active c' = index_ best).
Proof. apply selection_cases. Qed.

Lemma candidates_two n failed : 2 <= n -> 0 <= failed < n -> exists i, i ∈ candidates n failed.
Proof.
  intros Hn Hf. destruct (decide (failed = 0)); [exists 1|exists 0]; apply elem_candidates; lia.
Qed.

Lemma advance_ok c : wf c -> exists c', advance c = Some c' /\ wf c' /\ urls c' = urls c /\
  (2 <= len (urls c) -> active c' <> active c).
Proof.
  intros [Ha Hp]. unfold advance. destruct (_ =? 0) eqn:E; zb; [lia|]. eexists. split; [done|].
  rewrite Z.rem_mod_nonneg by lia. split; [constructor; [|done]; cbn; apply Z.mod_pos_bound; lia|].
  split; [done|]. cbn. intros Hn. destruct (decide (active c + 1 = len (urls c))) as [Heq|].
  - rewrite Heq, Z.mod_same by lia. lia.
  - rewrite Z.mod_small by lia. lia.
Qed.

Section Turns.
Context (readHello : bytes -> option ServerHello) (readType : bytes -> option string)
        (readReady : bytes -> option ReadyMessage) (readError : bytes -> option ErrorMessage)
        (describe : sessionError -> string).
#[local] Abbreviation turn := (runTurn readHello readType readReady readError describe).
#[local] Abbreviation session := (runSession readHello readType readReady readError).

(** the configuration, the selected entry and the port stay valid *)
Definition keeps (c c' : GatewayClient) : Prop := urls c' = urls c /\ active c' = active c /\ wf c'.

Lemma registerLink_keeps h r w c :
  wf c -> keeps c (registerLink readHello readType readReady readError h r w c).1.1.
Proof.
  intros Hw. unfold registerLink. destruct h as [|raw|]; [done| |done].
  destruct (readHello raw) as [h|]; [|done]. repeat case_if; try done; cbn [fst];
    (split; [done|]); (split; [done|]); destruct Hw; constructor; cbn; try done; case_if; zb; lia.
Qed.

Lemma runSession_ok r c : wf c -> exists c' reached err, session r c = Some (c', reached, err) /\ keeps c c' /\
  (err = None -> cancelled r = true).
Proof.
  intros Hw. unfold runSession. destruct (index_in_range (urls c) (active c) (wf_active c Hw)) as [u Hu].
  unfold CurrentURL. rewrite Hu. cbn [mbind option_bind].
  destruct (dialed r); cbn [negb]; [|do 3 eexists; split; [done|]; split; done].
  pose proof (registerLink_keeps (hello r) (reply r) (writable r) c Hw) as Hk.
  destruct (registerLink _ _ _ _ _ _ _ c) as [[c1 reg] [e|]]; cbn in Hk; do 3 eexists; (split; [done|]); (split; [|]).
  - done.
  - done.
  - destruct Hk as (? & ? & []). split; [done|]. split; [done|]. by constructor.
  - destruct (cancelled r); [done|]. by destruct (failure r).
Qed.

(** The reconnect loop never panics: the selected entry is always one of the
    list.  After a session that failed it moves to another gateway whenever more
    than one is configured, whatever the probes said, and the delay before the next
    attempt stays between the base and the maximum. *)
Theorem reconnect_moves_on r arrivals c delay :
  wf c -> probesOf c (active c) arrivals -> gatewayBackoffBase <= delay <= gatewayBackoffMax ->
  exists c' delay', turn r arrivals (c, delay) = Some (c', delay') /\
    urls c' = urls c /\ wf c' /\ gatewayBackoffBase <= delay' <= gatewayBackoffMax /\
    (cancelled r = false -> 2 <= len (urls c) -> active c' <> active c).
Proof.
  intros Hw Hp Hd. unfold runTurn.
  destruct (runSession_ok r c Hw) as (c1 & reached & err & Hs & (Eu & Ea & Hw1) & Hcan). rewrite Hs.
  destruct (cancelled r) eqn:Ec; [do 2 eexists; split; [done|]; done|].
  assert (Hdelay : gatewayBackoffBase <= nextBackoff (if reached then gatewayBackoffBase else delay) <= gatewayBackoffMax).
  { unfold nextBackoff, i64, gatewayBackoffBase, gatewayBackoffMax, second in *.
    rewrite Z.mod_small; destruct reached; lia. }
  destruct err as [e|]; [|by specialize (Hcan eq_refl)].
  set (c2 := recordError (describe e) c1).
  assert (Hw2 : wf c2) by (by destruct Hw1).
  destruct (selectGateway c2 (active c) arrivals) as [c3 b] eqn:Hsel.
  assert (Hp2 : probesOf c2 (active c) arrivals) by (unfold probesOf; cbn; by rewrite Eu).
  destruct (selection_cases c2 (active c) arrivals c3 b Hp2 Hsel) as (T & F & _). cbn in T.
  destruct b.
  - destruct (T eq_refl) as [E Hin]. rewrite Eu in Hin. apply elem_candidates in Hin as [Hr Hne].
    exists c3, (nextBackoff (if reached then gatewayBackoffBase else delay)). split; [done|].
    split; [rewrite E; done|]. split; [|done]. constructor; [rewrite E; cbn; by rewrite Eu|rewrite E; apply Hw2].
  - rewrite (F eq_refl). destruct (advance_ok c2 Hw2) as (c4 & -> & Hw4 & Eu4 & Hne). cbn [mbind option_bind].
    do 2 eexists. split; [done|]. split; [by rewrite Eu4|]. split; [done|]. split; [done|].
    intros _ Hn. rewrite <- Ea. apply Hne. cbn. by rewrite Eu.
Qed.
End Turns.

(** *** The candidate list *)

Lemma othersFrom_perm i act l x :
  i <= act -> l !! Z.to_nat (act - i) = Some x -> x :: othersFrom i act l ≡ₚ l.
Proof.
  revert i. induction l as [|y l IH]; intros i Hi Hx; [done|]. cbn [othersFrom].
  destruct (i =? act) eqn:E; zb; cbn [negb app].
  - subst. rewrite Z.sub_diag in Hx. cbn in Hx. injection Hx as ->. f_equiv.
    assert (H : forall k j, act < k -> othersFrom k act j = j).
    { clear. intros k j. revert k. induction j as [|z j IH]; intros k Hk; cbn; [done|].
      destruct (k =? act) eqn:E; zb; [lia|]. cbn. f_equal. apply IH. lia. }
    by rewrite H by lia.
  - replace (Z.to_nat (act - i)) with (S (Z.to_nat (act - (i + 1)))) in Hx by lia. cbn in Hx.
    rewrite perm_swap. f_equiv. apply IH; [lia|done].
Qed.

(** The list the phone stores has every configured gateway once, the selected one
    first. *)
Theorem active_first c :
  wf c -> exists l first, activeFirstLocked c = Some l /\ CurrentURL c = Some first /\
    head l = Some first /\ l ≡ₚ urls c.
Proof.
  intros [Ha _]. destruct (index_in_range (urls c) (active c) Ha) as [u Hu].
  unfold activeFirstLocked, CurrentURL. rewrite Hu. cbn. do 2 eexists. split; [done|]. split; [done|].
  split; [done|]. apply othersFrom_perm; [lia|]. apply index_Some in Hu as [_ Hu]. by rewrite Z.sub_0_r.
Qed.

Section NewClient.
Context (parse : string -> option (string * string))
        (hkdf : bytes -> bytes -> bytes -> Z -> option bytes).

Definition webSocketURL (entry : string) : Prop :=
  exists scheme host, parse entry = Some (scheme, host) /\ host <> ""%string /\ (scheme = "ws" \/ scheme = "wss")%string.

Lemma validEntries_ok l : validEntries parse l = None -> Forall webSocketURL l.
Proof.
  induction l as [|e l IH]; cbn; [constructor|]. destruct (parse e) as [[scheme host]|] eqn:E; [|done].
  case_if; [done|]. intros H. constructor; [|by apply IH]. exists scheme, host. split; [done|].
  zb; repeat match goal with H : String.eqb _ _ = _ |- _ => apply String.eqb_eq in H || apply String.eqb_neq in H end;
    (split; [done|]); auto.
Qed.

(** A client is created only with a non-empty list of WebSocket URLs, led by the
    primary URL when one is given, with a relay id of the shape the gateway checks,
    and it starts in a valid state. *)
Theorem new_client_valid opts c :
  (forall s salt info n k, hkdf s salt info n = Some k -> len k = n /\ bytes_ok k) ->
  NewGatewayClient parse hkdf opts = Ok c ->
  wf c /\ Forall webSocketURL (urls c) /\ ValidRelayID (relayID c) = true /\ 0 < maxClients c /\
  (normalized (URL opts) <> ""%string -> CurrentURL c = Some (normalized (URL opts))).
Proof.
  intros Hk H. unfold NewGatewayClient in H. destruct (gatewayURLs parse opts) as [us|] eqn:Eu; [|done]. cbn in H.
  case_if_in H; [done|].
  destruct (DeriveRelayID hkdf (RelayKey opts)) as [id|] eqn:Eid; [|done].
  destruct (DeriveRendezvousKey hkdf (RelayKey opts)) as [key|]; [|done]. simplify_eq.
  assert (Hus : us <> [] /\ Forall webSocketURL us /\
     (normalized (URL opts) <> ""%string -> head us = Some (normalized (URL opts)))).
  { unfold gatewayURLs in Eu. destruct (filter _ _) as [|first l].
    - destruct (String.eqb _ _) eqn:E1; cbn in Eu; [done|].
      pose proof (validEntries_ok [normalized (URL opts)]) as Hv. cbn in Hv.
      destruct (parse _) as [[sch host]|]; [|done]. case_if_in Eu; [done|]. simplify_eq. split; [done|]. auto.
    - destruct (_ && _) eqn:E1; cbn [rbind] in Eu; [done|].
      destruct (validEntries parse (first :: l)) eqn:Ev; [done|]. injection Eu as <-.
      split; [done|]. split; [by apply validEntries_ok|]. intros Hne. cbn. f_equal.
      zb; match goal with H : String.eqb _ _ = true |- _ => by apply String.eqb_eq in H end. }
  destruct Hus as (Hne & Hv & Hfirst). cbn. split; [constructor; cbn; [|lia]|].
  { destruct us; [done|]. cbn. lia. }
  split; [done|]. split; [by eapply DeriveRelayID_valid|]. split.
  { case_if; zb; unfold gatewayDefaultMaxClients; lia. }
  intros Hn. specialize (Hfirst Hn). unfold CurrentURL, index. cbn. by destruct us.
Qed.
End NewClient.

(** ** Concrete clients *)

Definition demoParse (entry : string) : option (string * string) := Some ("wss", "gw")%string.
Definition demoHkdf (s salt info : bytes) (n : Z) : option bytes :=
  if 0 <=? n then Some (repeat 0 (Z.to_nat n)) else None.
Definition demoOptions : GatewayOptions :=
  mkOptions "wss://a/" [" wss://a"; "wss://b/"; ""; "wss://c"] "latency" "key" 0.
Definition demoClient : GatewayClient :=
  match NewGatewayClient demoParse demoHkdf demoOptions with
  | Ok c => c
  | Err _ => mkClient [] "" "" [] 0 0 false "" 0 "" "" 0
  end.
Definition demoProbes : list gatewayProbeResult :=
  [mkProbe 2 (30 * 1000000) true; mkProbe 0 (90 * 1000000) true; mkProbe 1 (45 * 1000000) true].

Lemma demo_client_wf : wf demoClient.
Proof. constructor; vm_compute; split; congruence. Qed.

Lemma demo_probes_ok excluded l :
  (forall r, r ∈ l -> index_ r <> excluded /\ 0 <= index_ r < 3) -> probesOf demoClient excluded l.
Proof. intros H. apply Forall_forall. intros r Hr. destruct (H r Hr). split; [vm_compute len; lia|done]. Qed.

Lemma new_client_valid_witness : CurrentURL demoClient = Some "wss://a"%string.
Proof.
  apply (new_client_valid demoParse demoHkdf demoOptions demoClient).
  - intros s salt info n k H. unfold demoHkdf in H. destruct (0 <=? n) eqn:E; [|done]. simplify_eq. zb.
    rewrite repeat_length. split; [lia|]. apply Forall_forall. intros x Hx.
    apply list_elem_of_In, repeat_spec in Hx. subst. unfold is_byte. lia.
  - vm_compute. reflexivity.
  - vm_compute. discriminate.
Defined.

Lemma selection_rule_witness :
  exists best, chosen demoClient (filter (fun r => ok r = true) demoProbes) best /\
    active (selectGateway demoClient (-1) demoProbes).1 = index_ best.
Proof.
  apply (selection_rule demoClient (-1) demoProbes (selectGateway demoClient (-1) demoProbes).1 true).
  - apply demo_probes_ok. intros r Hr. unfold demoProbes in Hr. set_unfold in Hr. cbn.
    destruct Hr as [->|[->|[->|[]]]]; cbn; lia.
  - vm_compute. reflexivity.
  - vm_compute. discriminate.
  - vm_compute. reflexivity.
Defined.

Definition demoFailed : sessionRun := mkRun false WsError WsError true 0 false None "".

Lemma reconnect_moves_on_witness :
  exists c' delay', runTurn (fun _ => None) (fun _ => None) (fun _ => None) (fun _ => None) (fun _ => "") demoFailed []
    (demoClient, gatewayBackoffBase) = Some (c', delay') /\ active c' <> active demoClient.
Proof.
  destruct (reconnect_moves_on (fun _ => None) (fun _ => None) (fun _ => None) (fun _ => None) (fun _ => "") demoFailed []
    demoClient gatewayBackoffBase demo_client_wf) as (c' & d' & H & _ & _ & _ & Hne).
  - constructor.
  - vm_compute. split; discriminate.
  - exists c', d'. split; [exact H|]. apply Hne; [reflexivity|]. vm_compute. discriminate.
Defined.

Lemma active_first_witness : exists l, activeFirstLocked demoClient = Some l /\ l ≡ₚ urls demoClient.
Proof. destruct (active_first demoClient demo_client_wf) as (l & f & H & _ & _ & Hp). by exists l. Defined.
End GatewaySelect.
