(* ===== verification/Hub.v ===== *)
(** The hub of the relay ([internal/transport/ws.go]): it admits the connections of
    every transport, stamps and orders what the phones send, and queues what they are
    sent, in the outbound buffers of [SendBuffer].

    Two mutexes matter.  [register] is held while a client is admitted, from the
    handshake messages of [onConnect] to its entry in the registry, and during a
    broadcast; it is the field [lock], with what its holder has still to do.  [mu]
    guards the maps and is held for one function at a time.  The functions are the
    sections between which goroutines interleave; [step] is their interleaving. *)
From Stdlib Require Import Sorting.Sorted.
From S2P Require Import Prelude GoLib GoText SendBuffer.
#[local] Open Scope Z_scope.

Module Hub.
Import SendBuffer.

Definition handlerCapacity : Z := 32.
Definition orderedIngressCapacity : Z := 128.

(** *** The upgrade ([auth.go]) *)

Definition e2eeSubprotocol : string := "herdr-e2ee-v1".

Record config := mkConfig { Token : string; AllowedOrigins : list string }.
(** the headers, and whether the query has a [token] parameter *)
Record request := mkRequest {
  Origin : string; Authorization : string; hasToken : bool; SecWebSocketProtocol : string }.

Definition originAllowed (cfg : config) (r : request) : bool :=
  if String.eqb (Origin r) "" then true
  else if negb (String.eqb (Token cfg) "") then true
  else existsb (fun allowed => String.eqb allowed "*" || String.eqb allowed (Origin r)) (AllowedOrigins cfg).

Definition webSocketUpgradeAllowed (cfg : config) (r : request) : bool :=
  if negb (originAllowed cfg r) then false
  else if String.eqb (Token cfg) "" then true
  else if negb (String.eqb (Authorization r) "") || hasToken r then false
  else existsb (fun requested => String.eqb (TrimSpace requested) e2eeSubprotocol)
         (SplitByte comma (SecWebSocketProtocol r)).

(** [gone]: [removeClient] ran, so the context is cancelled and [closeOne] is spent *)
Record ClientConn := mkClient { transport : string; outbound : sendBuffer; gone : bool }.

(** an encoded message *)
Record Message := mkMessage { m_data : bytes; m_kind : string; m_replaceable : bool }.

(** [encodeMessage]: [marshal] is [json.Marshal] of the message and [kindOf] reads the
    [type] field of the result *)
Definition encodeMessage (marshal : option bytes) (kindOf : bytes -> string) : option Message :=
  let? data := marshal in
  let kind := kindOf data in
  Some (mkMessage data kind
          (String.eqb kind "agents" || String.eqb kind "inventory_status" ||
           String.eqb kind "update_status" || String.eqb kind "app_deploy_status")).

(** a message of a phone, with the fields the hub reads, as stamped by [readPump] *)
Record inboundMessage := mkInbound { client : Z; requestID : string; action : string; body : bytes; sequence : Z }.

(** who holds [register], and what is left to do: the messages of [onConnect], the
    entry into the registry, the recipients of a broadcast and the number of its
    update, if it has one *)
Inductive holder :=
| Free
| Connecting (id : Z) (todo : list Message)
| Registering (id : Z)
| Casting (m : Message) (update : option Z) (todo : list Z).

(** the loop of [runOrderedIngress]: idle, or waiting for the admission of a message *)
Inductive ingressLoop := IngressIdle | IngressWaits (id : Z) (sequence : Z).

Record Metrics := mkMetrics { ingressRejected : Z; coalesced : Z; slowClientEvictions : Z }.

Record Hub := mkHub {
  clients : gset Z;
  all : gmap Z ClientConn;
  pending : gset Z;
  nextID : Z;
  closing : bool;
  lock : holder;
  updates : Z;
  receiptSequence : Z;
  orderedIngress : list inboundMessage;
  ingress : ingressLoop;
  handlers : list Z;
  metrics : Metrics
}.

Definition NewHub : Hub :=
  mkHub ∅ ∅ ∅ 0 false Free 0 0 [] IngressIdle [] (mkMetrics 0 0 0).

Definition set_clients (x : gset Z) (h : Hub) : Hub :=
  mkHub x (all h) (pending h) (nextID h) (closing h) (lock h) (updates h) (receiptSequence h)
    (orderedIngress h) (ingress h) (handlers h) (metrics h).
Definition set_all (x : gmap Z ClientConn) (h : Hub) : Hub :=
  mkHub (clients h) x (pending h) (nextID h) (closing h) (lock h) (updates h) (receiptSequence h)
    (orderedIngress h) (ingress h) (handlers h) (metrics h).
Definition set_pending (x : gset Z) (h : Hub) : Hub :=
  mkHub (clients h) (all h) x (nextID h) (closing h) (lock h) (updates h) (receiptSequence h)
    (orderedIngress h) (ingress h) (handlers h) (metrics h).
Definition set_nextID (x : Z) (h : Hub) : Hub :=
  mkHub (clients h) (all h) (pending h) x (closing h) (lock h) (updates h) (receiptSequence h)
    (orderedIngress h) (ingress h) (handlers h) (metrics h).
Definition set_lock (x : holder) (h : Hub) : Hub :=
  mkHub (clients h) (all h) (pending h) (nextID h) (closing h) x (updates h) (receiptSequence h)
    (orderedIngress h) (ingress h) (handlers h) (metrics h).
Definition set_updates (x : Z) (h : Hub) : Hub :=
  mkHub (clients h) (all h) (pending h) (nextID h) (closing h) (lock h) x (receiptSequence h)
    (orderedIngress h) (ingress h) (handlers h) (metrics h).
Definition set_metrics (x : Metrics) (h : Hub) : Hub :=
  mkHub (clients h) (all h) (pending h) (nextID h) (closing h) (lock h) (updates h) (receiptSequence h)
    (orderedIngress h) (ingress h) (handlers h) x.
Definition set_ingress (q : list inboundMessage) (l : ingressLoop) (hs : list Z) (h : Hub) : Hub :=
  mkHub (clients h) (all h) (pending h) (nextID h) (closing h) (lock h) (updates h) (receiptSequence h)
    q l hs (metrics h).
Definition set_receipt (x : Z) (h : Hub) : Hub :=
  mkHub (clients h) (all h) (pending h) (nextID h) (closing h) (lock h) (updates h) x
    (orderedIngress h) (ingress h) (handlers h) (metrics h).

Definition evicted (h : Hub) : Hub :=
  let m := metrics h in
  set_metrics (mkMetrics (ingressRejected m) (coalesced m) (slowClientEvictions m + 1)) h.
Definition counted (r : pushResult) (h : Hub) : Hub :=
  let m := metrics h in
  match r with
  | pushCoalesced => set_metrics (mkMetrics (ingressRejected m) (coalesced m + 1) (slowClientEvictions m)) h
  | _ => h
  end.
Definition refused (h : Hub) : Hub :=
  let m := metrics h in
  set_metrics (mkMetrics (ingressRejected m + 1) (coalesced m) (slowClientEvictions m)) h.

(** what the hub did, for the goroutines around it: a client was told of an update,
    its handshake was composed, it got a message, it was reported disconnected, a
    handler was started *)
Inductive event :=
| Queued (id : Z) (update : option Z)
| Handshake (id : Z) (known : Z)
| Wrote (id : Z) (data : bytes)
| Disconnected (id : Z)
| Handler (sequence : Z).

(** ** Registry *)

Definition isGone (h : Hub) (id : Z) : bool :=
  match all h !! id with Some c => gone c | None => true end.

Definition removeClient (id : Z) (h : Hub) : Hub * list event :=
  match all h !! id with
  | None => (h, [])
  | Some c =>
      if gone c then (h, [])
      else (set_all (<[id := mkClient (transport c) (SendBuffer.Close (outbound c)) true]> (all h))
              (set_clients (clients h ∖ {[id]}) h), [Disconnected id])
  end.

(** [push], with its counters; the boolean is false when the buffer refuses *)
Definition push (id : Z) (m : Message) (h : Hub) : Hub * bool :=
  match all h !! id with
  | None => (h, false)
  | Some c =>
      let (b, r) := pushTyped (outbound c) (m_data m) (m_kind m) (m_replaceable m) in
      let h := set_all (<[id := mkClient (transport c) b (gone c)]> (all h)) h in
      match r with pushRejected => (h, false) | _ => (counted r h, true) end
  end.

(** [push] and the eviction of a client that cannot follow; [u] is the update it
    tells of *)
Definition pushOrEvict (id : Z) (m : Message) (u : option Z) (h : Hub) : Hub * list event * bool :=
  let (h, ok) := push id m h in
  if ok then (h, [Queued id u], true)
  else let (h, ev) := removeClient id (evicted h) in (h, ev, false).

(** [Send]; [None] is a message that cannot be encoded *)
Definition Send (id : Z) (m : option Message) (h : Hub) : Hub * list event * bool :=
  match m with None => (h, [], false) | Some m => pushOrEvict id m None h end.

Definition SendByID (id : Z) (m : option Message) (h : Hub) : Hub * list event * bool :=
  if bool_decide (id ∈ clients h) then Send id m h else (h, [], false).

(** ** Admission *)

(** [Serve] up to the handshake of the encrypted session; false is a hub that is
    closing *)
Definition enter (conn : Z) (h : Hub) : Hub * bool :=
  if closing h then (h, false) else (set_pending (pending h ∪ {[conn]}) h, true).

(** the session handshake failed *)
Definition abandon (conn : Z) (h : Hub) : Hub := set_pending (pending h ∖ {[conn]}) h.

(** [register] is taken: the client is created and [onConnect] composes its
    messages from what is known now *)
Definition admitClient (conn : Z) (name : string) (greeting : list Message) (h : Hub) : Hub * list event :=
  let h := set_pending (pending h ∖ {[conn]}) h in
  if closing h then (h, [])
  else
    let id := nextID h + 1 in
    let c := mkClient name (newSendBuffer clientOutboundMaxItems clientOutboundMaxBytes) false in
    (set_lock (Connecting id greeting) (set_all (<[id := c]> (all h)) (set_nextID id h)),
     [Handshake id (updates h)]).

(** one [Send] of [onConnect], the check of the context, the entry *)
Definition connectNext (h : Hub) : Hub * list event :=
  match lock h with
  | Connecting id (m :: todo) =>
      let '(h, ev, _) := Send id (Some m) h in (set_lock (Connecting id todo) h, ev)
  | Connecting id [] => (set_lock (if isGone h id then Free else Registering id) h, [])
  | Registering id => (set_lock Free (set_clients (clients h ∪ {[id]}) h), [])
  | _ => (h, [])
  end.

(** ** Broadcast *)

(** [BroadcastPrepared] takes [register], applies the update and lists the
    recipients; [Broadcast] is the case without an update.  [order] is the order of
    the map. *)
Definition beginBroadcast (m : Message) (prepared : bool) (order : list Z) (h : Hub) : Hub :=
  if prepared
  then set_lock (Casting m (Some (updates h)) order) (set_updates (updates h + 1) h)
  else set_lock (Casting m None order) h.

Definition castNext (h : Hub) : Hub * list event :=
  match lock h with
  | Casting m u (id :: todo) =>
      let '(h, ev, _) := pushOrEvict id m u h in (set_lock (Casting m u todo) h, ev)
  | Casting m u [] => (set_lock Free h, [])
  | _ => (h, [])
  end.

(** ** Pumps *)

(** one turn of [writePump]: [None] while it waits; [ok] tells whether the frame
    could be sealed and written *)
Definition writePump (id : Z) (ok : bool) (h : Hub) : option (Hub * list event) :=
  let? c := all h !! id in
  match Pop (outbound c) with
  | None => None
  | Some (b, None) => Some (h, [])
  | Some (b, Some d) =>
      let h := set_all (<[id := mkClient (transport c) b (gone c)]> (all h)) h in
      if ok then Some (h, [Wrote id d]) else Some (removeClient id h)
  end.

(** [decodeWebSocketMessage]: [unmarshal] is [None] on malformed JSON and
    [Some None] on [null] *)
Definition decodeWebSocketMessage (unmarshal : bytes -> option (option (string * string))) (data : bytes)
    : option (string * string) :=
  if negb (utf8_valid data) then None else
  match unmarshal data with Some (Some x) => Some x | _ => None end.

Definition busyReply (m : inboundMessage) : string * string := (requestID m, action m).

Definition submitMessage (reply : string * string -> option Message) (m : inboundMessage) (h : Hub)
    : Hub * list event :=
  if len (orderedIngress h) <? orderedIngressCapacity
  then (set_ingress (orderedIngress h ++ [m]) (ingress h) (handlers h) h, [])
  else let '(h, ev, _) := Send (client m) (reply (busyReply m)) (refused h) in (h, ev).

(** what a read gives: the end of the connection, or a frame, which the encrypted
    session opens first ([None] when it rejects it) *)
Inductive readResult := ReadEnded | ReadFrame (secure : bool) (opened : option bytes).

(** one turn of [readPump]; false ends it *)
Definition readPump (unmarshal : bytes -> option (option (string * string)))
    (reply : string * string -> option Message) (id : Z) (r : readResult) (h : Hub) : Hub * list event * bool :=
  match r with
  | ReadEnded | ReadFrame _ None => (h, [], false)
  | ReadFrame secure (Some data) =>
      match decodeWebSocketMessage unmarshal data with
      | None => (h, [], negb secure)
      | Some (request, act) =>
          let n := receiptSequence h + 1 in
          let (h, ev) := submitMessage reply (mkInbound id request act data n) (set_receipt n h) in
          (h, ev, true)
      end
  end.

(** ** Ordered ingress *)

(** the loop takes a message: a client that is gone is skipped, otherwise a handler
    slot is taken and its handler started; [None] while the loop cannot go on *)
Definition ingressNext (h : Hub) : option (Hub * list event) :=
  match ingress h, orderedIngress h with
  | IngressIdle, m :: rest =>
      if isGone h (client m) then Some (set_ingress rest IngressIdle (handlers h) h, [])
      else if len (handlers h) <? handlerCapacity
      then Some (set_ingress rest (IngressWaits (client m) (sequence m)) (handlers h ++ [sequence m]) h,
                 [Handler (sequence m)])
      else None
  | _, _ => None
  end.

(** the handler signals that its command is admitted *)
Definition admitted (n : Z) (h : Hub) : Hub :=
  match ingress h with
  | IngressWaits _ k => if k =? n then set_ingress (orderedIngress h) IngressIdle (handlers h) h else h
  | IngressIdle => h
  end.

(** the client of the awaited message is gone *)
Definition ingressSkips (h : Hub) : option Hub :=
  match ingress h with
  | IngressWaits id _ => if isGone h id then Some (set_ingress (orderedIngress h) IngressIdle (handlers h) h) else None
  | IngressIdle => None
  end.

(** a handler returns: it signals at the latest now, and frees its slot *)
Definition handlerDone (n : Z) (h : Hub) : Hub :=
  let h := admitted n h in
  set_ingress (orderedIngress h) (ingress h) (filter (fun k => k <> n) (handlers h)) h.

(** ** Shutdown *)

(** its first part, under both mutexes *)
Definition beginShutdown (h : Hub) : Hub :=
  mkHub ∅ (all h) ∅ (nextID h) true (lock h) (updates h) (receiptSequence h) (orderedIngress h) (ingress h)
    (handlers h) (metrics h).

Definition ClientCount (h : Hub) : Z := Z.of_nat (size (clients h)).

(** ** The goroutines as a step relation *)

Section Steps.
Context (unmarshal : bytes -> option (option (string * string))) (reply : string * string -> option Message).

Inductive step : Hub -> list event -> Hub -> Prop :=
| step_enter h conn : step h [] (enter conn h).1
| step_abandon h conn : step h [] (abandon conn h)
| step_admit h conn name greeting h' ev :
    lock h = Free -> admitClient conn name greeting h = (h', ev) -> step h ev h'
| step_connect h h' ev : connectNext h = (h', ev) -> step h ev h'
| step_send h id m h' ev b : Send id m h = (h', ev, b) -> step h ev h'
| step_broadcast h m prepared order :
    lock h = Free -> order ≡ₚ elements (clients h) -> step h [] (beginBroadcast m prepared order h)
| step_cast h h' ev : castNext h = (h', ev) -> step h ev h'
| step_write h id ok h' ev : writePump id ok h = Some (h', ev) -> step h ev h'
| step_remove h id h' ev : removeClient id h = (h', ev) -> step h ev h'
| step_read h id r h' ev b : readPump unmarshal reply id r h = (h', ev, b) -> step h ev h'
| step_ingress h h' ev : ingressNext h = Some (h', ev) -> step h ev h'
| step_admitted h n : step h [] (admitted n h)
| step_skip h h' : ingressSkips h = Some h' -> step h [] h'
| step_done h n : step h [] (handlerDone n h)
| step_shutdown h : lock h = Free -> step h [] (beginShutdown h).

Inductive run : list event -> Hub -> Prop :=
| run_new : run [] NewHub
| run_step tr h ev h' : run tr h -> step h ev h' -> run (tr ++ ev) h'.

(** *** What a run did *)

(** the updates a client was told of, in order *)
Definition told (id : Z) (tr : list event) : list Z :=
  omap (fun e => match e with Queued i (Some k) => if i =? id then Some k else None | _ => None end) tr.
(** how many updates its handshake knew *)
Definition handshakes (id : Z) (tr : list event) : list Z :=
  omap (fun e => match e with Handshake i n => if i =? id then Some n else None | _ => None end) tr.
Definition disconnected (tr : list event) : list Z :=
  omap (fun e => match e with Disconnected i => Some i | _ => None end) tr.
Definition startedHandlers (tr : list event) : list Z :=
  omap (fun e => match e with Handler n => Some n | _ => None end) tr.

Lemma told_app id t u : told id (t ++ u) = told id t ++ told id u.
Proof. apply omap_app. Qed.
Lemma handshakes_app id t u : handshakes id (t ++ u) = handshakes id t ++ handshakes id u.
Proof. apply omap_app. Qed.
Lemma disconnected_app t u : disconnected (t ++ u) = disconnected t ++ disconnected u.
Proof. apply omap_app. Qed.
Lemma startedHandlers_app t u : startedHandlers (t ++ u) = startedHandlers t ++ startedHandlers u.
Proof. apply omap_app. Qed.

(** ** Sections that touch only clients *)

Definition live (h : Hub) (id : Z) : Prop := exists c, all h !! id = Some c /\ gone c = false.

(** clients may be told something or removed; nothing else changes *)
Record touch (h : Hub) (ev : list event) (h' : Hub) : Prop := mkTouch {
  t_lock : lock h' = lock h;
  t_updates : updates h' = updates h;
  t_closing : closing h' = closing h;
  t_next : nextID h' = nextID h;
  t_receipt : receiptSequence h' = receiptSequence h;
  t_queue : orderedIngress h' = orderedIngress h;
  t_ingress : ingress h' = ingress h;
  t_handlers : handlers h' = handlers h;
  t_clients : clients h' ⊆ clients h;
  t_dom : dom (all h') = dom (all h);
  t_live : forall id, live h' id -> live h id;
  t_gone : NoDup (disconnected ev) /\ forall id, id ∈ disconnected ev -> live h id /\ ~ live h' id;
  t_closed : (forall id c, all h !! id = Some c -> gone c = true -> closed (outbound c) = true) ->
    forall id c, all h' !! id = Some c -> gone c = true -> closed (outbound c) = true;
  t_events : startedHandlers ev = [] /\ forall id, handshakes id ev = []
}.

Lemma removeClient_touch id h h' ev :
  removeClient id h = (h', ev) -> touch h ev h' /\ (forall i, told i ev = []) /\ ~ live h' id.
Proof.
  unfold removeClient. destruct (all h !! id) as [c|] eqn:Hc.
  2:{ intros [= <- <-]. split; [|split; [done|]].
      - constructor; try done. split; [constructor|]. by intros ? ?%elem_of_nil.
      - intros (c & Hc' & _). congruence. }
  destruct (gone c) eqn:Hg; intros [= <- <-].
  { split; [|split; [done|]].
    - constructor; try done. split; [constructor|]. by intros ? ?%elem_of_nil.
    - intros (c' & Hc' & ?). congruence. }
  assert (Hng : ~ live (set_all (<[id := mkClient (transport c) (SendBuffer.Close (outbound c)) true]> (all h))
                  (set_clients (clients h ∖ {[id]}) h)) id).
  { intros (c' & Hc' & ?). cbn in Hc'. rewrite lookup_insert_eq in Hc'. by simplify_eq. }
  split; [|by split]. constructor; try done; cbn.
  - intros x Hx. by apply elem_of_difference in Hx as [? _].
  - rewrite dom_insert_L. apply elem_of_dom_2 in Hc. set_solver.
  - intros i (c' & Hc' & ?). cbn in Hc'. apply lookup_insert_Some in Hc' as [[<- <-]|[? ?]]; [done|]. by exists c'.
  - split; [apply NoDup_singleton|]. intros i ->%list_elem_of_singleton. split; [by exists c|done].
  - intros Hall i c' Hc' Hgc. apply lookup_insert_Some in Hc' as [[<- <-]|[? ?]]; [|by eapply Hall].
    cbn. unfold SendBuffer.Close. by destruct (closed (outbound c)) eqn:?.
Qed.

(** a client keeps its state but for its buffer *)
Lemma touch_buffer id c b h :
  all h !! id = Some c -> (gone c = true -> closed (outbound c) = true -> closed b = true) ->
  touch h [] (set_all (<[id := mkClient (transport c) b (gone c)]> (all h)) h) /\
  forall i, live (set_all (<[id := mkClient (transport c) b (gone c)]> (all h)) h) i <-> live h i.
Proof.
  intros Hc Hb.
  assert (Hl : forall i, live (set_all (<[id := mkClient (transport c) b (gone c)]> (all h)) h) i <-> live h i).
  { intros i. unfold live. cbn. destruct (decide (i = id)) as [->|Hne].
    - rewrite lookup_insert_eq, Hc. split; intros (x & Hx & ?); simplify_eq; eauto.
    - by rewrite lookup_insert_ne. }
  split; [|done]. constructor; try done; cbn.
  - rewrite dom_insert_L. apply elem_of_dom_2 in Hc. set_solver.
  - apply Hl.
  - split; [constructor|]. by intros ? ?%elem_of_nil.
  - intros Hall i c' Hc' Hg. apply lookup_insert_Some in Hc' as [[<- <-]|[? ?]]; [|by eapply Hall].
    cbn in *. apply Hb; [done|]. by eapply Hall.
Qed.

Lemma touch_metrics h ev h' x : touch h ev h' -> touch h ev (set_metrics x h').
Proof. intros []. by constructor. Qed.

Lemma pushTyped_closed b d k r : closed b = true -> pushTyped b d k r = (b, pushRejected).
Proof. intros H. unfold pushTyped. by rewrite H. Qed.

Lemma touch_seq h e1 h1 e2 h2 : touch h e1 h1 -> disconnected e1 = [] -> touch h1 e2 h2 -> touch h (e1 ++ e2) h2.
Proof.
  intros [] E []. constructor; try (etransitivity; eassumption).
  - intros id H. by apply t_live0, t_live1.
  - rewrite disconnected_app, E. split; [apply t_gone1|]. intros id Hid. destruct t_gone1 as [_ H].
    destruct (H id Hid). split; [by apply t_live0|done].
  - intros H. by apply t_closed1, t_closed0.
  - destruct t_events0 as [E1 E2], t_events1 as [E3 E4]. rewrite startedHandlers_app, E1, E3. split; [done|].
    intros id. by rewrite handshakes_app, E2, E4.
Qed.

Lemma push_touch id m h h' b :
  push id m h = (h', b) -> touch h [] h' /\ (forall i, live h' i <-> live h i).
Proof.
  unfold push. destruct (all h !! id) as [c|] eqn:Hc.
  2:{ intros [= <- <-]. split; [|done]. constructor; try done. split; [constructor|]. by intros ? ?%elem_of_nil. }
  destruct (pushTyped (outbound c) (m_data m) (m_kind m) (m_replaceable m)) as [b' r] eqn:Hp.
  destruct (touch_buffer id c b' h Hc) as [Ht Hl].
  { intros _ Hcl. rewrite pushTyped_closed in Hp by done. by simplify_eq. }
  destruct r; intros [= <- <-]; (split; [|done]); [done|done|by apply touch_metrics].
Qed.

Lemma pushOrEvict_ok id m u h h' ev b :
  pushOrEvict id m u h = (h', ev, b) ->
  touch h ev h' /\ (ev = [Queued id u] \/ (forall i, told i ev = []) /\ ~ live h' id).
Proof.
  unfold pushOrEvict. destruct (push id m h) as [h1 ok] eqn:Hp. destruct (push_touch _ _ _ _ _ Hp) as [Ht Hl].
  destruct ok.
  - intros [= <- <- <-]. split; [|by left]. destruct Ht. constructor; try done.
  - destruct (removeClient id (evicted h1)) as [h2 ev2] eqn:Hr. intros [= <- <- <-].
    destruct (removeClient_touch _ _ _ _ Hr) as (Ht2 & Hto & Hng). split; [|by right].
    apply (touch_seq h [] (evicted h1)); [by apply touch_metrics|done|done].
Qed.

Lemma Send_ok id m h h' ev b :
  Send id m h = (h', ev, b) -> touch h ev h' /\ forall i, told i ev = [].
Proof.
  destruct m as [m|]; cbn.
  - intros H. apply pushOrEvict_ok in H as (Ht & [->|[Hto _]]); done.
  - intros [= <- <- <-]. split; [|done]. constructor; try done. split; [constructor|]. by intros ? ?%elem_of_nil.
Qed.

Lemma Pop_closed b b' d : Pop b = Some (b', d) -> closed b' = closed b.
Proof. unfold Pop. destruct (items b); [case_if; [by intros [= <- <-]|done]|by intros [= <- <-]]. Qed.

Lemma writePump_ok id ok h h' ev :
  writePump id ok h = Some (h', ev) -> touch h ev h' /\ forall i, told i ev = [].
Proof.
  unfold writePump. destruct (all h !! id) as [c|] eqn:Hc; [|done]. cbn [mbind option_bind].
  assert (Hnil : forall e, startedHandlers e = [] -> disconnected e = [] -> (forall i, handshakes i e = []) -> touch h e h).
  { intros e E1 E2 E3. constructor; try done. rewrite E2. split; [constructor|]. by intros ? ?%elem_of_nil. }
  destruct (Pop (outbound c)) as [[b [d|]]|] eqn:Hp; [| |done].
  - destruct (touch_buffer id c b h Hc) as [Ht Hl]; [intros _ <-; by eapply Pop_closed|].
    destruct ok; [intros [= <- <-]; split; [|done]; by destruct Ht; constructor|].
    intros [= Hr]. destruct (removeClient_touch _ _ _ _ Hr) as (Ht2 & Hto & _). split; [|done].
    by apply (touch_seq _ _ _ _ _ Ht).
  - intros [= <- <-]. split; [by apply Hnil|done].
Qed.

(** ** Invariant *)

(** 1 when the update that is being broadcast has still to reach the client *)
Definition ahead (h : Hub) (id : Z) : Z :=
  match lock h with
  | Casting _ (Some _) todo => if bool_decide (id ∈ todo) then 1 else 0
  | _ => 0
  end.

Definition connecting (h : Hub) (id : Z) : Prop :=
  match lock h with Connecting i _ | Registering i => i = id | _ => False end.

(** what a live client knows *)
Definition knows (tr : list event) (h : Hub) (id : Z) : Prop :=
  exists n, handshakes id tr = [n] /\ 0 <= n /\ n + ahead h id <= updates h /\
    (id ∈ clients h -> told id tr = seqZ n (updates h - n - ahead h id)) /\
    (connecting h id -> n = updates h /\ told id tr = []).

(** a client is reported disconnected at most once, when it is removed *)
Definition discOk (tr : list event) (h : Hub) : Prop :=
  NoDup (disconnected tr) /\ forall id, id ∈ disconnected tr -> id ∈ dom (all h) /\ ~ live h id.

Record inv (tr : list event) (h : Hub) : Prop := mkInv {
  i_ids : forall id, id ∈ dom (all h) -> 1 <= id <= nextID h;
  i_next : 0 <= nextID h;
  i_reg : clients h ⊆ dom (all h);
  i_lock : match lock h with
           | Free => True
           | Connecting id _ | Registering id => id ∈ dom (all h) /\ (id ∉ clients h) /\ closing h = false
           | Casting _ u todo => NoDup todo /\ (forall i, i ∈ todo -> i ∈ dom (all h)) /\
                                (forall k, u = Some k -> k = updates h - 1)
           end;
  i_closing : closing h = true -> clients h = ∅;
  i_fresh : forall id, nextID h < id -> handshakes id tr = [] /\ told id tr = [];
  i_knows : forall id, live h id -> knows tr h id;
  i_disc : discOk tr h;
  i_closed : forall id c, all h !! id = Some c -> gone c = true -> closed (outbound c) = true;
  i_updates : 0 <= updates h
}.

(** the ingress half *)
Record ingressInv (tr : list event) (h : Hub) : Prop := mkIngress {
  g_sorted : StronglySorted Z.lt (startedHandlers tr ++ (sequence <$> orderedIngress h));
  g_bound : Forall (fun n => n <= receiptSequence h) (startedHandlers tr ++ (sequence <$> orderedIngress h));
  g_queue : len (orderedIngress h) <= orderedIngressCapacity;
  g_handlers : len (handlers h) <= handlerCapacity;
  g_started : Forall (fun n => n ∈ startedHandlers tr) (handlers h)
}.

Lemma knows_same tr ev h h' id :
  knows tr h id -> handshakes id ev = [] -> told id ev = [] -> updates h' = updates h -> ahead h' id = ahead h id ->
  (id ∈ clients h' -> id ∈ clients h) -> (connecting h' id -> connecting h id) -> knows (tr ++ ev) h' id.
Proof.
  intros (n & Hh & Hn & Hle & Hc & Hk) E1 E2 E3 E4 E5 E6. exists n.
  rewrite handshakes_app, told_app, E1, E2, E3, E4, !app_nil_r. do 3 (split; [done|]). split; intros H; auto.
Qed.

Lemma discOk_touch tr h ev h' : discOk tr h -> touch h ev h' -> discOk (tr ++ ev) h'.
Proof.
  intros [ND Hd] []. destruct t_gone0 as [ND2 Hd2]. unfold discOk. rewrite disconnected_app, t_dom0. split.
  - apply NoDup_app. split; [done|]. split; [|done]. intros i H1 H2. destruct (Hd i H1), (Hd2 i H2). done.
  - intros i [H|H]%elem_of_app; [destruct (Hd i H) as [? Hn]; split; [done|]; intros Hx; by apply Hn, t_live0|].
    destruct (Hd2 i H) as [(c & Hc & _) ?]. split; [by eapply elem_of_dom_2|done].
Qed.

Lemma inv_touch tr h ev h' : inv tr h -> touch h ev h' -> (forall i, told i ev = []) -> inv (tr ++ ev) h'.
Proof.
  intros [] Ht Hto. pose proof Ht as []. destruct t_events0 as [Est Ehs].
  assert (Hah : forall id, ahead h' id = ahead h id) by (intros; unfold ahead; by rewrite t_lock0).
  assert (Hco : forall id, connecting h' id -> connecting h id) by (intros ?; unfold connecting; by rewrite t_lock0).
  constructor; rewrite ?t_dom0, ?t_next0, ?t_updates0, ?t_lock0, ?t_closing0; try done.
  - set_solver.
  - destruct (lock h); try done; destruct i_lock0 as (? & ? & ?); (split; [done|]); (split; [|done]);
      first [done|set_solver].
  - intros Hc. specialize (i_closing0 Hc). set_solver.
  - intros id Hid. rewrite handshakes_app, told_app, Ehs, Hto, !app_nil_r. by apply i_fresh0.
  - intros id Hl. apply (knows_same tr ev h); auto; set_solver.
  - exact (discOk_touch tr h _ _ i_disc0 Ht).
  - by apply t_closed0.
Qed.

(** fields the invariant does not read *)
Lemma inv_hubSame tr h h' :
  inv tr h -> clients h' = clients h -> all h' = all h -> nextID h' = nextID h -> closing h' = closing h ->
  lock h' = lock h -> updates h' = updates h -> inv tr h'.
Proof.
  intros [] E1 E2 E3 E4 E5 E6.
  assert (Hl : forall id, live h' id <-> live h id) by (intros; unfold live; by rewrite E2).
  constructor; rewrite ?E1, ?E2, ?E3, ?E4, ?E5, ?E6; try done.
  - intros id H. unfold knows, ahead, connecting. rewrite E1, E5, E6. by apply i_knows0, Hl.
  - destruct i_disc0 as [ND Hd]. split; [done|]. intros id H. destruct (Hd id H). rewrite E2, Hl. done.
Qed.

(** the holder of [register] goes on *)
Lemma inv_lock tr h l :
  inv tr h ->
  (match l with
   | Free => True
   | Connecting id _ | Registering id => connecting h id
   | Casting _ _ _ => False
   end) ->
  (forall id, live h id -> ahead h id = 0) -> inv tr (set_lock l h).
Proof.
  intros [] Hl Ha. constructor; try done.
  - cbn. destruct l; try done; unfold connecting in Hl; destruct (lock h); try done; by subst.
  - intros id Hid. destruct (i_knows0 id Hid) as (n & ? & ? & ? & Hc & Hk). exists n.
    assert (E : ahead (set_lock l h) id = 0) by (unfold ahead; by destruct l).
    rewrite E. rewrite (Ha id Hid) in *. do 3 (split; [done|]). split; [done|].
    intros Hcon. apply Hk. unfold connecting in *. cbn in Hcon. destruct l; try done; by subst.
Qed.

Lemma inv_admit tr h conn name greeting h' ev :
  inv tr h -> lock h = Free -> admitClient conn name greeting h = (h', ev) -> inv (tr ++ ev) h'.
Proof.
  intros Hi Hl. unfold admitClient. cbn [closing set_pending]. destruct (closing h) eqn:Hc.
  { intros [= <- <-]. rewrite app_nil_r. by apply (inv_hubSame tr h). }
  intros [= <- <-]. cbn. destruct Hi. set (id := nextID h + 1).
  assert (Hfresh : id ∉ dom (all h)) by (intros H; specialize (i_ids0 id H); lia).
  destruct (i_fresh0 id) as [F1 F2]; [lia|].
  constructor; cbn; try done.
  - intros i. rewrite dom_insert_L, elem_of_union, elem_of_singleton. intros [->|H]; [lia|].
    specialize (i_ids0 i H). lia.
  - lia.
  - rewrite dom_insert_L. set_solver.
  - rewrite dom_insert_L. split; [set_solver|]. split; [set_solver|done].
  - intros i Hi. rewrite handshakes_app, told_app. cbn. destruct (id =? i) eqn:E; zb; [lia|].
    rewrite !app_nil_r. apply i_fresh0. lia.
  - intros i (c & Hci & Hg). cbn in Hci. apply lookup_insert_Some in Hci as [[<- <-]|[Hne Hci]].
    + exists (updates h). rewrite handshakes_app, told_app, F1, F2. cbn. rewrite Z.eqb_refl.
      split; [done|]. split; [done|]. split; [lia|]. split; [|done]. intros H. set_solver.
    + apply (knows_same tr _ h); [apply i_knows0; by exists c| |done|done|unfold ahead; by rewrite Hl|done|].
      * cbn. destruct (id =? i) eqn:E; zb; [lia|done].
      * unfold connecting. cbn. intros ->. by destruct Hne.
  - unfold discOk. rewrite disconnected_app. cbn. rewrite app_nil_r. destruct i_disc0 as [ND Hd]. split; [done|].
    intros i H. destruct (Hd i H) as [H1 H2]. rewrite dom_insert_L. split; [set_solver|].
    intros (c & Hci & Hg). cbn in Hci. apply lookup_insert_Some in Hci as [[<- <-]|[Hne Hci]]; [done|].
    apply H2. by exists c.
  - intros i c Hci Hg. apply lookup_insert_Some in Hci as [[<- <-]|[Hne Hci]]; [done|]. by eapply i_closed0.
Qed.

Lemma ahead_connecting h id i : connecting h id -> ahead h i = 0.
Proof. unfold connecting, ahead. by destruct (lock h). Qed.

Lemma inv_register tr h id :
  inv tr h -> lock h = Registering id -> inv tr (set_lock Free (set_clients (clients h ∪ {[id]}) h)).
Proof.
  intros [] Hl. rewrite Hl in i_lock0. destruct i_lock0 as (Hd & Hn & Hc).
  assert (Ha : forall i, ahead h i = 0) by (intros; unfold ahead; by rewrite Hl).
  constructor; cbn; try done.
  - set_solver.
  - congruence.
  - intros i Hi. destruct (i_knows0 i Hi) as (n & ? & ? & ? & Hk & Hcon). exists n. rewrite Ha in *.
    change (ahead (set_lock Free (set_clients (clients h ∪ {[id]}) h)) i) with 0. cbn.
    do 3 (split; [done|]). split; [|done]. intros [Hin|Hin%elem_of_singleton]%elem_of_union; [by apply Hk|]. subst i.
    destruct Hcon as [-> ->]; [unfold connecting; by rewrite Hl|]. by rewrite Z.sub_diag.
Qed.

Lemma inv_connect tr h h' ev : inv tr h -> connectNext h = (h', ev) -> inv (tr ++ ev) h'.
Proof.
  intros Hi. unfold connectNext.
  destruct (lock h) as [|id [|m todo]|id|] eqn:Hl; try (intros [= <- <-]; by rewrite app_nil_r).
  - intros [= <- <-]. rewrite app_nil_r.
    apply inv_lock; [done|case_if; [done|unfold connecting; by rewrite Hl]|].
    intros i _. apply (ahead_connecting h id). unfold connecting. by rewrite Hl.
  - destruct (Send id (Some m) h) as [[h1 ev1] b] eqn:Hs. intros [= <- <-].
    apply Send_ok in Hs as [Ht Hto]. pose proof (t_lock _ _ _ Ht) as El.
    assert (Hc : connecting h1 id) by (unfold connecting; by rewrite El, Hl).
    apply inv_lock; [by apply (inv_touch tr h)|done|]. intros i _. by apply (ahead_connecting h1 id).
  - intros [= <- <-]. rewrite app_nil_r. by apply inv_register.
Qed.

Lemma inv_broadcast tr h m prepared order :
  inv tr h -> lock h = Free -> order ≡ₚ elements (clients h) -> inv tr (beginBroadcast m prepared order h).
Proof.
  intros Hi Hl Ho. assert (ND : NoDup order) by (rewrite Ho; apply NoDup_elements).
  assert (Hin : forall i, i ∈ order <-> i ∈ clients h) by (intros; rewrite Ho; apply elem_of_elements).
  assert (Ha : forall i, ahead h i = 0) by (intros; unfold ahead; by rewrite Hl).
  destruct Hi. unfold beginBroadcast. destruct prepared; constructor; cbn; try done; try lia.
  - split; [done|]. split; [intros i Hi%Hin; by apply i_reg0|]. intros k [= <-]. lia.
  - intros i Hi. destruct (i_knows0 i Hi) as (n & ? & ? & Hle & Hk & _). rewrite Ha in *. exists n.
    split; [done|]. split; [done|]. unfold ahead. cbn. rewrite (bool_decide_ext _ _ (Hin i)).
    destruct (bool_decide (i ∈ clients h)) eqn:E; zb.
    + split; [lia|]. split; [|done]. intros _. rewrite (Hk E). f_equal. lia.
    + split; [lia|]. by split.
  - split; [done|]. split; [intros i Hi%Hin; by apply i_reg0|done].
  - intros i Hi. destruct (i_knows0 i Hi) as (n & ? & ? & Hle & Hk & _). rewrite Ha in *. by exists n.
Qed.

Lemma seqZ_snoc n k : 0 <= k -> seqZ n (k + 1) = seqZ n k ++ [n + k].
Proof. intros H. rewrite seqZ_app by lia. done. Qed.

Lemma inv_cast tr h h' ev : inv tr h -> castNext h = (h', ev) -> inv (tr ++ ev) h'.
Proof.
  intros Hi. unfold castNext. destruct (lock h) as [| | |m u [|id todo]] eqn:Hl;
    try (intros [= <- <-]; by rewrite app_nil_r).
  { intros [= <- <-]. rewrite app_nil_r. apply inv_lock; [done|done|]. intros i _. unfold ahead. rewrite Hl. by destruct u. }
  destruct (pushOrEvict id m u h) as [[h1 ev1] b] eqn:Hp. intros [= <- <-].
  apply pushOrEvict_ok in Hp as [Ht Hor]. pose proof Ht as [].
  pose proof (i_lock _ _ Hi) as Hlk. rewrite Hl in Hlk. destruct Hlk as (ND & Hdom & Hu). apply NoDup_cons in ND as [Hni ND].
  assert (Hto : forall i, i <> id -> told i ev1 = []).
  { intros i Hne. destruct Hor as [->|[Hto _]]; [|done]. cbn. destruct u; [|done]. by destruct (id =? i) eqn:E; zb. }
  assert (Hah : forall i, i <> id -> ahead (set_lock (Casting m u todo) h1) i = ahead h i).
  { intros i Hne. unfold ahead. rewrite Hl. cbn. destruct u; [|done].
    rewrite (bool_decide_ext (i ∈ todo) (i ∈ id :: todo)); [done|]. rewrite elem_of_cons. split; [by right|by intros [|]]. }
  destruct t_events0 as [Est Ehs].
  assert (Hknow : forall i, live h1 i -> knows (tr ++ ev1) (set_lock (Casting m u todo) h1) i).
  { intros i Hi1. pose proof (i_knows _ _ Hi i (t_live0 i Hi1)) as Hk. destruct (decide (i = id)) as [->|Hne].
    - destruct Hor as [->|[_ Hno]]; [|done]. destruct Hk as (n & Hh & Hn & Hle & Hk & _). exists n.
      rewrite handshakes_app, told_app. cbn. rewrite t_updates0, app_nil_r. split; [done|]. split; [done|].
      unfold ahead in *. rewrite Hl in *. cbn. destruct u as [k|].
      + rewrite bool_decide_true in Hle, Hk by (by left). rewrite bool_decide_false by done.
        split; [lia|]. split; [|done]. intros Hc. rewrite (Hu k eq_refl), Z.eqb_refl, Hk by (by apply t_clients0).
        replace (updates h - n - 0) with ((updates h - n - 1) + 1) by lia.
        rewrite seqZ_snoc by lia. do 2 f_equal. lia.
      + split; [done|]. split; [|done]. rewrite app_nil_r. intros Hc. by apply Hk, t_clients0.
    - apply (knows_same tr ev1 h); auto. unfold connecting. done. }
  assert (Hid : id ∈ dom (all h)) by (apply Hdom; by left). destruct Hi.
  constructor; cbn; rewrite ?t_dom0, ?t_next0, ?t_updates0, ?t_closing0; try done.
  - set_solver.
  - split; [done|]. split; [intros i Hi; apply Hdom; by right|done].
  - intros Hc. specialize (i_closing0 Hc). set_solver.
  - intros i Hi. specialize (i_ids0 id Hid). rewrite handshakes_app, told_app, Ehs, Hto, !app_nil_r by lia. by apply i_fresh0.
  - exact (discOk_touch tr h _ _ i_disc0 Ht).
  - by apply t_closed0.
Qed.

Lemma submitMessage_ok m h h' ev :
  submitMessage reply m h = (h', ev) ->
  touch h ev (set_ingress (orderedIngress h) (ingress h) (handlers h) h') /\ (forall i, told i ev = []) /\
  receiptSequence h' = receiptSequence h /\ ingress h' = ingress h /\ handlers h' = handlers h /\
  (orderedIngress h' = orderedIngress h \/
   orderedIngress h' = orderedIngress h ++ [m] /\ len (orderedIngress h) < orderedIngressCapacity).
Proof.
  unfold submitMessage. destruct (_ <? _) eqn:E; zb.
  - intros [= <- <-]. split; [|split; [done|]; cbn; repeat split; by right].
    constructor; try done. split; [constructor|]. by intros ? ?%elem_of_nil.
  - destruct (Send (client m) _ (refused h)) as [[h1 ev1] b] eqn:Hs. intros [= <- <-].
    apply Send_ok in Hs as [[] Hto]. cbn in *. split; [by constructor|]. split; [done|]. repeat split; try done. by left.
Qed.

(** ** Every step keeps the invariants *)

Lemma inv_event tr h ev :
  inv tr h -> disconnected ev = [] -> (forall i, told i ev = [] /\ handshakes i ev = []) -> inv (tr ++ ev) h.
Proof.
  intros [] Hd He. constructor; try done.
  - intros id Hid. destruct (He id) as [E1 E2]. rewrite handshakes_app, told_app, E1, E2, !app_nil_r. by apply i_fresh0.
  - intros id Hid. destruct (He id) as [E1 E2]. by apply (knows_same tr ev h); auto.
  - unfold discOk. by rewrite disconnected_app, Hd, app_nil_r.
Qed.

Lemma inv_shutdown tr h : inv tr h -> lock h = Free -> inv tr (beginShutdown h).
Proof.
  intros [] Hl. constructor; cbn; try done.
  - by rewrite Hl.
  - intros id Hid. destruct (i_knows0 id Hid) as (n & ? & ? & Hle & _). exists n.
    assert (E : ahead (beginShutdown h) id = ahead h id) by done. rewrite E.
    do 3 (split; [done|]). split; [cbn; set_solver|]. unfold connecting. cbn. by rewrite Hl.
Qed.

Lemma inv_hubStep tr h ev h' : inv tr h -> step h ev h' -> inv (tr ++ ev) h'.
Proof.
  intros Hi Hs. destruct Hs as [h conn|h conn|h conn name g h' ev Hl Ha|h h' ev Hc|h id m h' ev b Hs|
    h m p order Hl Ho|h h' ev Hc|h id ok h' ev Hw|h id h' ev Hr|h id r h' ev b Hr|h h' ev Hn|h n|h h' Hk|h n|h Hl];
    rewrite ?app_nil_r.
  - unfold enter. case_if; [done|]. by apply (inv_hubSame tr h).
  - by apply (inv_hubSame tr h).
  - by eapply inv_admit.
  - by eapply inv_connect.
  - apply Send_ok in Hs as [Ht Hto]. by apply (inv_touch tr h).
  - by apply inv_broadcast.
  - by eapply inv_cast.
  - apply writePump_ok in Hw as [Ht Hto]. by apply (inv_touch tr h).
  - apply removeClient_touch in Hr as (Ht & Hto & _). by apply (inv_touch tr h).
  - destruct r as [|secure [data|]]; cbn in Hr; [by simplify_eq; rewrite app_nil_r| |by simplify_eq; rewrite app_nil_r].
    destruct (decodeWebSocketMessage unmarshal data) as [[q a]|]; [|by simplify_eq; rewrite app_nil_r].
    destruct (submitMessage reply _ _) as [h1 ev1] eqn:Hsub. simplify_eq.
    apply submitMessage_ok in Hsub as (Ht & Hto & _).
    set (h0 := set_receipt (receiptSequence h + 1) h) in *.
    assert (H0 : inv tr h0) by (by apply (inv_hubSame tr h)).
    pose proof (inv_touch tr h0 ev _ H0 Ht Hto) as H1. by apply (inv_hubSame _ _ h' H1).
  - unfold ingressNext in Hn. destruct (ingress h); [|done]. destruct (orderedIngress h) as [|m rest]; [done|].
    destruct (isGone h (client m)); simplify_eq; [rewrite app_nil_r; by apply (inv_hubSame tr h)|].
    case_if_in Hn; [|done]. simplify_eq.
    assert (H : inv (tr ++ [Handler (sequence m)]) h) by (by apply inv_event). by apply (inv_hubSame _ h).
  - unfold admitted. destruct (ingress h); [done|]. case_if; [|done]. by apply (inv_hubSame tr h).
  - unfold ingressSkips in Hk. destruct (ingress h); [done|]. case_if_in Hk; [|done]. simplify_eq. by apply (inv_hubSame tr h).
  - unfold handlerDone. apply (inv_hubSame tr h); try done; unfold admitted; destruct (ingress h); try done; by case_if.
  - by apply inv_shutdown.
Qed.

Lemma ingress_same tr ev h h' :
  ingressInv tr h -> startedHandlers ev = [] -> receiptSequence h' = receiptSequence h ->
  orderedIngress h' = orderedIngress h -> handlers h' = handlers h -> ingressInv (tr ++ ev) h'.
Proof.
  intros [] E1 E2 E3 E4. constructor; rewrite ?startedHandlers_app, ?E1, ?E2, ?E3, ?E4, ?app_nil_r; done.
Qed.

Lemma ingress_touch tr h ev h' : ingressInv tr h -> touch h ev h' -> ingressInv (tr ++ ev) h'.
Proof. intros Hg [? ? ? ? ? ? ? ? ? ? ? ? ? [? _]]. by apply (ingress_same tr ev h). Qed.

Lemma sorted_drop (l : list Z) x r : StronglySorted Z.lt (l ++ x :: r) -> StronglySorted Z.lt (l ++ r).
Proof.
  induction l as [|y l IH]; cbn; intros H; inversion H as [|? ? H1 H2]; subst; [done|].
  constructor; [by apply IH|]. apply Forall_app in H2 as [? H2]. apply Forall_cons in H2 as [_ H2]. by apply Forall_app.
Qed.

Lemma sorted_snoc_max (l : list Z) x : StronglySorted Z.lt l -> Forall (fun y => y < x) l -> StronglySorted Z.lt (l ++ [x]).
Proof.
  induction l as [|y l IH]; intros Hs Hf; cbn; [repeat constructor|].
  inversion Hs; subst. apply Forall_cons in Hf as [? ?]. constructor; [by apply IH|]. apply Forall_app. by repeat constructor.
Qed.

Lemma ingress_read tr h id r h' ev b :
  ingressInv tr h -> readPump unmarshal reply id r h = (h', ev, b) -> ingressInv (tr ++ ev) h'.
Proof.
  intros Hg Hr. destruct r as [|secure [data|]]; cbn in Hr; [by simplify_eq; rewrite app_nil_r| |by simplify_eq; rewrite app_nil_r].
  destruct (decodeWebSocketMessage unmarshal data) as [[q a]|]; [|by simplify_eq; rewrite app_nil_r].
  destruct (submitMessage reply _ _) as [h1 ev1] eqn:Hsub. simplify_eq.
  apply submitMessage_ok in Hsub as ([? ? ? ? ? ? ? ? ? ? ? ? ? [Est _]] & _ & E1 & _ & E3 & Hq). cbn in *.
  destruct Hg. assert (Hup : Forall (fun n => n < receiptSequence h + 1) (startedHandlers tr ++ (sequence <$> orderedIngress h)))
    by (eapply Forall_impl; [done|]; cbn; lia).
  destruct Hq as [Hq|[Hq Hroom]];
    constructor; rewrite ?startedHandlers_app, ?Est, ?E1, ?E3, ?Hq, ?app_nil_r, ?fmap_app; try done.
  - eapply Forall_impl; [done|]. cbn. lia.
  - rewrite app_assoc. by apply sorted_snoc_max.
  - rewrite app_assoc. apply Forall_app. split; [eapply Forall_impl; [exact Hup|]; cbn; lia|]. by repeat constructor.
  - rewrite length_app. cbn. lia.
Qed.

Lemma ingress_next tr h h' ev : ingressInv tr h -> ingressNext h = Some (h', ev) -> ingressInv (tr ++ ev) h'.
Proof.
  intros [] Hn. unfold ingressNext in Hn. destruct (ingress h); [|done].
  destruct (orderedIngress h) as [|m rest] eqn:Eq; [done|]. cbn in g_sorted0, g_bound0, g_queue0.
  destruct (isGone h (client m)); simplify_eq.
  - constructor; rewrite ?app_nil_r; cbn; try done.
    + by eapply sorted_drop.
    + rewrite Forall_app in g_bound0. destruct g_bound0 as [? H]. apply Forall_cons in H as [_ H]. by apply Forall_app.
    + lia.
  - case_if_in Hn; [|done]. simplify_eq. zb.
    constructor; rewrite ?startedHandlers_app; cbn; rewrite <- ?app_assoc; try done.
    + lia.
    + rewrite length_app. cbn. lia.
    + apply Forall_app. split.
      * eapply Forall_impl; [done|]. cbn. intros n Hin. apply elem_of_app. by left.
      * repeat constructor. apply elem_of_app. right. by left.
Qed.

Lemma ingress_step tr h ev h' : ingressInv tr h -> step h ev h' -> ingressInv (tr ++ ev) h'.
Proof.
  intros Hg Hs. destruct Hs as [h conn|h conn|h conn name g h' ev Hl Ha|h h' ev Hc|h id m h' ev b Hs|
    h m p order Hl Ho|h h' ev Hc|h id ok h' ev Hw|h id h' ev Hr|h id r h' ev b Hr|h h' ev Hn|h n|h h' Hk|h n|h Hl].
  - unfold enter. case_if; by apply (ingress_same tr [] h).
  - by apply (ingress_same tr [] h).
  - unfold admitClient in Ha. case_if_in Ha; simplify_eq; by apply (ingress_same tr _ h).
  - unfold connectNext in Hc. destruct (lock h) as [|id [|m todo]|id|]; try (injection Hc as <- <-; by apply (ingress_same tr [] h)).
    destruct (Send id (Some m) h) as [[h1 ev1] b] eqn:Hs. simplify_eq.
    apply Send_ok in Hs as [Ht _]. pose proof (ingress_touch tr h _ h1 Hg Ht) as H. by destruct H.
  - apply Send_ok in Hs as [Ht _]. by apply (ingress_touch tr h).
  - unfold beginBroadcast. case_if; by apply (ingress_same tr [] h).
  - unfold castNext in Hc. destruct (lock h) as [| | |m u [|id todo]]; try (injection Hc as <- <-; by apply (ingress_same tr [] h)).
    destruct (pushOrEvict id m u h) as [[h1 ev1] b] eqn:Hs. simplify_eq.
    apply pushOrEvict_ok in Hs as [Ht _]. pose proof (ingress_touch tr h _ h1 Hg Ht) as H. by destruct H.
  - apply writePump_ok in Hw as [Ht _]. by apply (ingress_touch tr h).
  - apply removeClient_touch in Hr as (Ht & _). by apply (ingress_touch tr h).
  - by eapply ingress_read.
  - by eapply ingress_next.
  - unfold admitted. destruct (ingress h); [|case_if]; by apply (ingress_same tr [] h).
  - unfold ingressSkips in Hk. destruct (ingress h); [done|]. case_if_in Hk; [|done]. simplify_eq. by apply (ingress_same tr [] h).
  - assert (H : ingressInv (tr ++ []) (admitted n h)).
    { unfold admitted. destruct (ingress h); [|case_if]; by apply (ingress_same tr [] h). }
    destruct H. unfold handlerDone. constructor; cbn; try done.
    + pose proof (length_filter (fun k => k <> n) (handlers (admitted n h))). lia.
    + apply Forall_forall. intros k [_ Hk]%list_elem_of_filter. rewrite Forall_forall in g_started0. by apply g_started0.
  - by apply (ingress_same tr [] h).
Qed.

Lemma run_hubInv tr h : run tr h -> inv tr h /\ ingressInv tr h.
Proof.
  induction 1 as [|tr h ev h' _ [I1 I2] Hs].
  - split; constructor; cbn; try done; try lia; try constructor.
    + intros id (c & Hc & _). cbn in Hc. by rewrite lookup_empty in Hc.
    + constructor.
    + by intros ? ?%elem_of_nil.
  - split; [by eapply inv_hubStep|by eapply ingress_step].
Qed.

(** ** What the hub guarantees *)

(** C9: never both and never neither: a client that is registered and was not evicted
    has been told, in order and once each, exactly the updates that are not in the
    snapshot of its handshake, whatever connections, broadcasts, sends and evictions
    interleave. *)
Theorem snapshot_or_delta tr h id :
  run tr h -> lock h = Free -> id ∈ clients h -> isGone h id = false ->
  exists n, handshakes id tr = [n] /\ 0 <= n <= updates h /\ told id tr = seqZ n (updates h - n).
Proof.
  intros Hr Hl Hin Hg. destruct (run_hubInv tr h Hr) as [Hi _].
  assert (Hlive : live h id).
  { unfold isGone in Hg. destruct (all h !! id) as [c|] eqn:E; [by exists c|done]. }
  destruct (i_knows _ _ Hi id Hlive) as (n & Hh & Hn & Hle & Hk & _). unfold ahead in *. rewrite Hl in *.
  exists n. split; [done|]. split; [lia|]. rewrite (Hk Hin). f_equal. lia.
Qed.

(** A client is reported disconnected at most once, and once it is removed its
    buffer is closed: every further push is refused, so it is sent nothing that
    another connection should get. *)
Theorem disconnected_once tr h :
  run tr h ->
  NoDup (disconnected tr) /\
  forall id c, all h !! id = Some c -> gone c = true ->
    forall m, (push id m h).2 = false.
Proof.
  intros Hr. destruct (run_hubInv tr h Hr) as [[] _]. split; [apply i_disc0|].
  intros id c Hc Hg m. unfold push. rewrite Hc, pushTyped_closed; [done|]. by eapply i_closed0.
Qed.

(** Handlers are started in the order in which the messages were received over
    all connections (the order of their sequence numbers), none twice; at most
    [handlerCapacity] run and at most [orderedIngressCapacity] messages wait. *)
Theorem ingress_in_order tr h :
  run tr h ->
  StronglySorted Z.lt (startedHandlers tr ++ (sequence <$> orderedIngress h)) /\
  len (handlers h) <= handlerCapacity /\ len (orderedIngress h) <= orderedIngressCapacity /\
  Forall (fun n => n ∈ startedHandlers tr) (handlers h).
Proof. intros Hr. by destruct (run_hubInv tr h Hr) as [_ []]. Qed.

Lemma closing_forever h ev h' : step h ev h' -> closing h = true -> closing h' = true.
Proof.
  intros Hs Hc. destruct Hs as [h conn|h conn|h conn name g h' ev Hl Ha|h h' ev Hn|h id m h' ev b Hs|
    h m p order Hl Ho|h h' ev Hn|h id ok h' ev Hw|h id h' ev Hr|h id r h' ev b Hr|h h' ev Hn|h n|h h' Hk|h n|h Hl];
    try done.
  - unfold enter. by rewrite Hc.
  - unfold admitClient in Ha. cbn in Ha. rewrite Hc in Ha. by simplify_eq.
  - unfold connectNext in Hn. destruct (lock h) as [|id [|m todo]|id|]; try (by injection Hn as <- <-).
    destruct (Send id (Some m) h) as [[h1 ev1] b] eqn:Hs. apply Send_ok in Hs as [[] _].
    injection Hn as <- <-. cbn. congruence.
  - apply Send_ok in Hs as [[] _]. congruence.
  - unfold beginBroadcast. by case_if.
  - unfold castNext in Hn. destruct (lock h) as [| | |m u [|id todo]]; try (by injection Hn as <- <-).
    destruct (pushOrEvict id m u h) as [[h1 ev1] b] eqn:Hs. apply pushOrEvict_ok in Hs as [[] _].
    injection Hn as <- <-. cbn. congruence.
  - apply writePump_ok in Hw as [[] _]. congruence.
  - apply removeClient_touch in Hr as ([] & _). congruence.
  - destruct r as [|secure [data|]]; cbn in Hr; [by simplify_eq| |by simplify_eq].
    destruct (decodeWebSocketMessage unmarshal data) as [[q a]|]; [|by simplify_eq].
    destruct (submitMessage reply _ _) as [h1 ev1] eqn:Hsub. apply submitMessage_ok in Hsub as ([] & _).
    simplify_eq. cbn in *. congruence.
  - unfold ingressNext in Hn. destruct (ingress h); [|done]. destruct (orderedIngress h); [done|].
    repeat case_if_in Hn; by simplify_eq.
  - unfold admitted. destruct (ingress h); [done|]. by case_if.
  - unfold ingressSkips in Hk. destruct (ingress h); [done|]. case_if_in Hk; by simplify_eq.
  - unfold handlerDone, admitted. destruct (ingress h); cbn; [done|]. by case_if.
Qed.

(** Once the hub shuts down it has no registered client, and never has one again:
    no connection is admitted, so nothing is broadcast to anyone. *)
Theorem shutdown_final tr h ev h' :
  run tr h -> closing h = true -> step h ev h' ->
  clients h = ∅ /\ clients h' = ∅ /\ closing h' = true /\
  forall conn name greeting, (admitClient conn name greeting h').2 = [].
Proof.
  intros Hr Hc Hs. pose proof (closing_forever _ _ _ Hs Hc) as Hc'.
  destruct (run_hubInv tr h Hr) as [Hi _].
  destruct (run_hubInv _ _ (run_step _ _ _ _ Hr Hs)) as [Hi' _].
  split; [by apply (i_closing _ _ Hi)|]. split; [by apply (i_closing _ _ Hi')|]. split; [done|].
  intros conn name greeting. unfold admitClient. cbn. by rewrite Hc'.
Qed.

End Steps.

(** ** Concrete runs *)

Definition demoUnmarshal (data : bytes) : option (option (string * string)) := Some (Some ("r", "send")%string).
Definition demoReply (r : string * string) : option Message := Some (mkMessage [1] "command_result" false).
Definition demoHello : Message := mkMessage [7; 7] "push_config" false.
Definition demoDelta : Message := mkMessage [8] "agent_update" false.

(** a client connects, an update is broadcast, and a message of it is handled *)
Definition demo1 : Hub := (admitClient 1 "websocket" [demoHello] NewHub).1.
Definition demo2 : Hub := (connectNext demo1).1.
Definition demo3 : Hub := (connectNext demo2).1.
Definition demo4 : Hub := (connectNext demo3).1.
Definition demo5 : Hub := beginBroadcast demoDelta true [1] demo4.
Definition demo6 : Hub := (castNext demo5).1.
Definition demo7 : Hub := (castNext demo6).1.
Definition demo8 : Hub := (readPump demoUnmarshal demoReply 1 (ReadFrame false (Some [65])) demo7).1.1.
Definition demo9 : Hub := match ingressNext demo8 with Some (h, _) => h | None => demo8 end.
Definition demoTrace : list event :=
  [Handshake 1 0; Queued 1 None; Queued 1 (Some 0); Handler 1].

Lemma demo_hub3 : run demoUnmarshal demoReply [Handshake 1 0; Queued 1 None] demo3.
Proof.
  apply (run_step _ _ [Handshake 1 0; Queued 1 None] demo2 []); [|by apply step_connect].
  apply (run_step _ _ [Handshake 1 0] demo1 [Queued 1 None]); [|by apply step_connect].
  apply (run_step _ _ [] NewHub [Handshake 1 0]); [constructor|by apply (step_admit _ _ _ 1 "websocket" [demoHello])].
Qed.

Lemma demo_hub : run demoUnmarshal demoReply demoTrace demo9.
Proof.
  apply (run_step _ _ [Handshake 1 0; Queued 1 None; Queued 1 (Some 0)] demo8 [Handler 1]);
    [|apply step_ingress; vm_compute; reflexivity].
  apply (run_step _ _ [Handshake 1 0; Queued 1 None; Queued 1 (Some 0)] demo7 []);
    [|apply (step_read _ _ _ 1 (ReadFrame false (Some [65])) _ _ true); vm_compute; reflexivity].
  apply (run_step _ _ [Handshake 1 0; Queued 1 None; Queued 1 (Some 0)] demo6 []); [|by apply step_cast].
  apply (run_step _ _ [Handshake 1 0; Queued 1 None] demo5 [Queued 1 (Some 0)]); [|by apply step_cast].
  apply (run_step _ _ [Handshake 1 0; Queued 1 None] demo4 []).
  - apply (run_step _ _ [Handshake 1 0; Queued 1 None] demo3 []); [exact demo_hub3|by apply step_connect].
  - apply step_broadcast; [vm_compute; reflexivity|]. vm_compute. reflexivity.
Qed.

Lemma snapshot_or_delta_witness : exists n, handshakes 1 demoTrace = [n] /\ told 1 demoTrace = seqZ n (updates demo9 - n).
Proof.
  destruct (snapshot_or_delta demoUnmarshal demoReply demoTrace demo9 1 demo_hub) as (n & H1 & _ & H2);
    [vm_compute; reflexivity|apply (bool_decide_unpack _); vm_compute; reflexivity|vm_compute; reflexivity|].
  exists n. split; [exact H1|exact H2].
Defined.

Lemma disconnected_once_witness : NoDup (disconnected demoTrace).
Proof. apply (disconnected_once demoUnmarshal demoReply demoTrace demo9 demo_hub). Defined.

Lemma ingress_in_order_witness : StronglySorted Z.lt (startedHandlers demoTrace ++ (sequence <$> orderedIngress demo9)).
Proof. apply (ingress_in_order demoUnmarshal demoReply demoTrace demo9 demo_hub). Defined.

Lemma shutdown_final_witness : clients (enter 2 (beginShutdown demo9)).1 = ∅.
Proof.
  apply (shutdown_final demoUnmarshal demoReply (demoTrace ++ []) (beginShutdown demo9) [] (enter 2 (beginShutdown demo9)).1).
  - apply (run_step _ _ demoTrace demo9 []); [exact demo_hub|]. apply step_shutdown. vm_compute. reflexivity.
  - reflexivity.
  - apply step_enter.
Defined.

(** A client whose first write fails between the check of its context and its entry
    into the registry is entered although it was removed; removing it again has no
    effect, so it stays registered until the hub shuts down. *)
Example removed_client_registered :
  let h := (connectNext (removeClient 1 demo3).1).1 in
  run demoUnmarshal demoReply [Handshake 1 0; Queued 1 None; Disconnected 1] h /\
  clients h = {[1]} /\ isGone h 1 = true /\ removeClient 1 h = (h, []).
Proof.
  split.
  - apply (run_step _ _ [Handshake 1 0; Queued 1 None; Disconnected 1] (removeClient 1 demo3).1 []);
      [|apply step_connect; vm_compute; reflexivity].
    apply (run_step _ _ [Handshake 1 0; Queued 1 None] demo3 [Disconnected 1]); [exact demo_hub3|].
    apply (step_remove _ _ _ 1). vm_compute. reflexivity.
  - split; [apply (bool_decide_unpack _); vm_compute; reflexivity|]. split; vm_compute; reflexivity.
Qed.
End Hub.
