(* ===== verification/QuestionInput.v ===== *)
(** From an answer on the phone to key presses in the terminal
    ([internal/question/input.go], and the keys of an approval in
    [coordinator/approval.go]).

    A plan is a list of steps, each some keys and then some text.  [None] is a
    run-time panic (an index or a length out of range).  [current := *interaction]
    copies the struct but shares its [Options] slice, so a plan that ticks options
    also ticks those of the interaction it was given; the planners that do return the
    options as they leave them.  What the forms of the agents do with the keys is not
    modelled. *)
From S2P Require Import Prelude GoLib.
#[local] Open Scope Z_scope.

Module QuestionInput.

Record Option := mkOption { Label : string; Description : string; Selected : bool }.
Record Other := mkOther { o_Selected : bool; o_Text : string; AllowEmpty : bool; Hidden : bool }.
Record Focus := mkFocus { f_Kind : string; Index : Z }.

Record Interaction := mkInteraction {
  ID : string;
  Kind : string;
  Question : string;
  Options : list Option;
  other : Other;
  CanChat : bool;
  CanGoBack : bool;
  QuestionIndex : Z;
  QuestionTotal : Z;
  focus : Focus;
  AllOptionCount : Z;
  Agent : string;
  NotesActive : bool
}.

Record InputIntent := mkIntent {
  Navigation : string;
  Clarify : bool;
  i_Selected : list Z;
  OtherSelected : bool;
  OtherText : string
}.

Record InputStep := mkStep { Keys : list string; Text : string }.

Definition keysStep (ks : list string) : InputStep := mkStep ks "".
Definition textStep (t : string) : InputStep := mkStep [] t.
(** the text is typed only when there is some *)
Definition textSteps (t : string) : list InputStep := if String.eqb t "" then [] else [textStep t].

Definition set_focus (x : Focus) (i : Interaction) : Interaction :=
  mkInteraction (ID i) (Kind i) (Question i) (Options i) (other i) (CanChat i) (CanGoBack i) (QuestionIndex i) (QuestionTotal i)
    x (AllOptionCount i) (Agent i) (NotesActive i).
Definition set_options (x : list Option) (i : Interaction) : Interaction :=
  mkInteraction (ID i) (Kind i) (Question i) x (other i) (CanChat i) (CanGoBack i) (QuestionIndex i) (QuestionTotal i)
    (focus i) (AllOptionCount i) (Agent i) (NotesActive i).
Definition set_other (x : Other) (i : Interaction) : Interaction :=
  mkInteraction (ID i) (Kind i) (Question i) (Options i) x (CanChat i) (CanGoBack i) (QuestionIndex i) (QuestionTotal i)
    (focus i) (AllOptionCount i) (Agent i) (NotesActive i).
Definition set_notes (x : bool) (i : Interaction) : Interaction :=
  mkInteraction (ID i) (Kind i) (Question i) (Options i) (other i) (CanChat i) (CanGoBack i) (QuestionIndex i) (QuestionTotal i)
    (focus i) (AllOptionCount i) (Agent i) x.

Definition option_ (index : Z) : Focus := mkFocus "option" index.
Definition otherFocus : Focus := mkFocus "other" 0.
Definition submitFocus : Focus := mkFocus "submit" 0.
Definition chatFocus : Focus := mkFocus "chat" 0.

(** ** Moving the focus *)

Definition position (i : Interaction) (f : Focus) : Z :=
  if String.eqb (f_Kind f) "option" then Index f
  else if String.eqb (f_Kind f) "submit" then
    if String.eqb (Kind i) "multi_select" then AllOptionCount i else 0
  else if String.eqb (f_Kind f) "chat" then
    AllOptionCount i + (if String.eqb (Kind i) "multi_select" then 1 else 0)
  else 0.

Definition qoderPosition (i : Interaction) (f : Focus) : Z :=
  if String.eqb (f_Kind f) "option" then Index f
  else if String.eqb (f_Kind f) "submit" then len (Options i)
  else if String.eqb (f_Kind f) "other" then
    len (Options i) + (if String.eqb (Kind i) "multi_select" then 1 else 0)
  else 0.

Definition openCodePosition (i : Interaction) (f : Focus) : Z :=
  if String.eqb (f_Kind f) "other" then len (Options i) else Index f.

(** the key presses over a distance *)
Definition moves (distance : Z) : list string :=
  if distance <? 0 then repeat "Up" (Z.to_nat (- distance))%string else repeat "Down" (Z.to_nat distance)%string.

Definition navigationKeys (i : Interaction) (target : Focus) : list string :=
  moves (position i target - position i (focus i)).
Definition qoderNavigationKeys (i : Interaction) (target : Focus) : list string :=
  moves (qoderPosition i target - qoderPosition i (focus i)).
Definition openCodeNavigationKeys (i : Interaction) (target : Focus) : list string :=
  moves (openCodePosition i target - openCodePosition i (focus i)).

Definition approvalKeys (target current : Z) : list string := moves (target - current) ++ ["Enter"%string].

Definition containsInt (values : list Z) (target : Z) : bool := bool_decide (target ∈ values).

(** ** Plans *)

(** the loop over the options of a multi-select form: every option whose tick differs
    from the wanted one is visited and toggled.  [nav] is the navigation of the form;
    [store] tells whether the loop also records the new tick. *)
Fixpoint toggleLoop (nav : Interaction -> Focus -> list string) (store : bool) (wanted : list Z)
    (index : Z) (options : list Option) (i : Interaction) : list InputStep * Interaction :=
  match options with
  | [] => ([], i)
  | option :: options =>
      let desired := containsInt wanted index in
      if Bool.eqb (Selected option) desired then toggleLoop nav store wanted (index + 1) options i
      else
        let step := keysStep (nav i (option_ index) ++ ["Enter"%string]) in
        let i := set_focus (option_ index) i in
        let i := if store
                 then set_options (<[Z.to_nat index := mkOption (Label option) (Description option) desired]> (Options i)) i
                 else i in
        let (steps, i) := toggleLoop nav store wanted (index + 1) options i in
        (step :: steps, i)
  end.

Definition toggles (nav : Interaction -> Focus -> list string) (store : bool) (wanted : list Z) (i : Interaction)
    : list InputStep * Interaction :=
  toggleLoop nav store wanted 0 (Options i) i.

Definition planCodexInput (i : Interaction) (intent : InputIntent) : list InputStep :=
  match i_Selected intent with
  | first :: _ => [keysStep (navigationKeys i (option_ first) ++ ["Enter"%string])]
  | [] =>
      let keys := navigationKeys i (option_ (AllOptionCount i - 1)) in
      if String.eqb (OtherText intent) "" then [keysStep (keys ++ ["Enter"%string])]
      else
        let keys := if NotesActive i then ["Ctrl+U"%string] else keys ++ ["Tab"%string] in
        [keysStep keys; textStep (OtherText intent); keysStep ["Enter"%string]]
  end.

Definition planQoderMultiInput (i : Interaction) (intent : InputIntent) : list InputStep * Interaction :=
  let notesHandled := NotesActive i in
  let '(steps, current) :=
    if NotesActive i then
      (keysStep ["Ctrl+U"%string] ::
         (if OtherSelected intent then textSteps (OtherText intent) else []) ++ [keysStep ["Enter"%string]],
       set_other (mkOther true (OtherText intent) (AllowEmpty (other i)) (Hidden (other i)))
         (set_notes false (set_focus otherFocus i)))
    else ([], i) in
  let (ticks, current) := toggles qoderNavigationKeys true (i_Selected intent) current in
  let '(last, current) :=
    if OtherSelected intent && negb notesHandled then
      (keysStep (qoderNavigationKeys current otherFocus ++ ["Enter"; "Ctrl+U"]%string) ::
         textSteps (OtherText intent) ++ [keysStep ["Enter"%string]], set_focus otherFocus current)
    else if negb (OtherSelected intent) && o_Selected (other current) then
      ([keysStep (qoderNavigationKeys current otherFocus ++ ["Enter"%string])], set_focus otherFocus current)
    else ([], current) in
  (steps ++ ticks ++ last ++ [keysStep (qoderNavigationKeys current submitFocus ++ ["Enter"%string])], current).

Definition planQoderInput (i : Interaction) (intent : InputIntent) : option (list InputStep) :=
  if String.eqb (Kind i) "single_select" then
    if NotesActive i then
      let steps := keysStep ["Ctrl+U"%string] ::
        (if OtherSelected intent then textSteps (OtherText intent) else []) ++ [keysStep ["Enter"%string]] in
      if OtherSelected intent then Some steps
      else
        let? first := index (i_Selected intent) 0 in
        Some (steps ++ [keysStep (qoderNavigationKeys (set_focus otherFocus i) (option_ first) ++ ["Enter"%string])])
    else
      match i_Selected intent with
      | first :: _ => Some [keysStep (qoderNavigationKeys i (option_ first) ++ ["Enter"%string])]
      | [] => Some (keysStep (qoderNavigationKeys i otherFocus ++ ["Enter"; "Ctrl+U"]%string) ::
                      textSteps (OtherText intent) ++ [keysStep ["Enter"%string]])
      end
  else Some (planQoderMultiInput i intent).1.

Definition planOpenCodeMultiInput (i : Interaction) (intent : InputIntent) : list InputStep * Interaction :=
  let '(steps, current) :=
    if NotesActive i then
      let '(steps, current) :=
        if OtherSelected intent then
          (keysStep ["Ctrl+U"%string] :: textSteps (OtherText intent) ++ [keysStep ["Enter"%string]],
           set_other (mkOther true (OtherText intent) (AllowEmpty (other i)) (Hidden (other i))) i)
        else ([keysStep ["Escape"%string]], i) in
      (steps, set_notes false (set_focus otherFocus current))
    else ([], i) in
  let (ticks, current) := toggles openCodeNavigationKeys true (i_Selected intent) current in
  let last :=
    if OtherSelected intent &&
       (negb (o_Selected (other current)) || negb (String.eqb (o_Text (other current)) (OtherText intent)))
    then keysStep (openCodeNavigationKeys current otherFocus ++ ["Enter"; "Ctrl+U"]%string) ::
           textSteps (OtherText intent) ++ [keysStep ["Enter"%string]]
    else if negb (OtherSelected intent) && o_Selected (other current)
    then [keysStep (openCodeNavigationKeys current otherFocus ++ ["Enter"%string])]
    else [] in
  (steps ++ ticks ++ last ++ [keysStep ["Tab"%string]], current).

Definition planOpenCodeInput (i : Interaction) (intent : InputIntent) : option (list InputStep) :=
  if Hidden (other i) then Some [keysStep ["Enter"%string]]
  else if String.eqb (Kind i) "multi_select" then Some (planOpenCodeMultiInput i intent).1
  else if NotesActive i then
    if OtherSelected intent
    then Some (keysStep ["Ctrl+U"%string] :: textSteps (OtherText intent) ++
                 [keysStep ["Enter"%string]; keysStep ["Enter"%string]])
    else
      let? first := index (i_Selected intent) 0 in
      Some [keysStep ["Escape"%string];
            keysStep (openCodeNavigationKeys (set_focus otherFocus i) (option_ first) ++ ["Enter"%string])]
  else
    match i_Selected intent with
    | first :: _ => Some [keysStep (openCodeNavigationKeys i (option_ first) ++ ["Enter"%string])]
    | [] => Some (keysStep (openCodeNavigationKeys i otherFocus ++ ["Enter"; "Ctrl+U"]%string) ::
                    textSteps (OtherText intent) ++ [keysStep ["Enter"%string]; keysStep ["Enter"%string]])
    end.

(** [make([]string, distance)] panics when [distance] is negative *)
Definition planOMPInput (i : Interaction) (intent : InputIntent) : option (list InputStep) :=
  if String.eqb (Kind i) "single_select" then
    match i_Selected intent with
    | first :: _ => Some [keysStep (navigationKeys i (option_ first) ++ ["Enter"%string])]
    | [] => Some (keysStep (navigationKeys i (option_ (AllOptionCount i - 1)) ++ ["Enter"; "Ctrl+U"]%string) ::
                    textSteps (OtherText intent) ++ [keysStep ["Enter"%string]])
    end
  else
    let (steps, current) := toggles navigationKeys false (i_Selected intent) i in
    if OtherSelected intent then
      Some (steps ++ keysStep (navigationKeys current (option_ (AllOptionCount current - 1)) ++ ["Enter"; "Ctrl+U"]%string) ::
              textSteps (OtherText intent) ++ [keysStep ["Enter"%string]])
    else if QuestionTotal current >? 1 then Some (steps ++ [keysStep ["Right"%string]])
    else
      match i_Selected intent with
      | [] => Some steps
      | _ =>
          let distance := len (Options current) - Index (focus current) in
          if distance <? 0 then None
          else Some (steps ++ [keysStep (repeat "Down"%string (Z.to_nat distance) ++ ["Enter"%string])])
      end.

Definition planClaudeMultiInput (i : Interaction) (intent : InputIntent) : list InputStep * Interaction :=
  let (ticks, current) := toggles navigationKeys true (i_Selected intent) i in
  let otherTarget := option_ (AllOptionCount current - 1) in
  let '(typed, current) :=
    if negb (String.eqb (o_Text (other current)) (OtherText intent))
    then (keysStep (navigationKeys current otherTarget ++ ["Ctrl+U"%string]) :: textSteps (OtherText intent),
          set_focus otherTarget current)
    else ([], current) in
  let '(ticked, current) :=
    if negb (Bool.eqb (o_Selected (other current)) (OtherSelected intent))
    then ([keysStep (navigationKeys current otherTarget ++ ["Enter"%string])], set_focus otherTarget current)
    else ([], current) in
  (ticks ++ typed ++ ticked ++ [keysStep (navigationKeys current submitFocus ++ ["Enter"%string])], current).

Definition planClaudeInput (i : Interaction) (intent : InputIntent) : list InputStep :=
  if String.eqb (Kind i) "single_select" then
    let otherTarget := option_ (AllOptionCount i - 1) in
    match i_Selected intent with
    | first :: _ =>
        let '(steps, current) :=
          if negb (Hidden (other i)) && negb (String.eqb (o_Text (other i)) "") && String.eqb (OtherText intent) ""
          then ([keysStep (navigationKeys i otherTarget ++ ["Ctrl+U"%string])], set_focus otherTarget i)
          else ([], i) in
        steps ++ [keysStep (navigationKeys current (option_ first) ++ ["Enter"%string])]
    | [] => keysStep (navigationKeys i otherTarget ++ ["Ctrl+U"%string]) ::
              textSteps (OtherText intent) ++ [keysStep ["Enter"%string]]
    end
  else (planClaudeMultiInput i intent).1.

Definition PlanInput (i : Interaction) (intent : InputIntent) : option (list InputStep) :=
  if String.eqb (Navigation intent) "previous" then
    Some [keysStep [if String.eqb (Agent i) "opencode" then "Shift+Tab" else "Left"]%string]
  else if String.eqb (Navigation intent) "next" then
    Some [keysStep [if String.eqb (Agent i) "opencode" then "Tab" else "Right"]%string]
  else if Clarify intent then Some [keysStep (navigationKeys i chatFocus ++ ["Enter"%string])]
  else if String.eqb (Agent i) "codex" then Some (planCodexInput i intent)
  else if String.eqb (Agent i) "qoder" then planQoderInput i intent
  else if String.eqb (Agent i) "opencode" then planOpenCodeInput i intent
  else if String.eqb (Agent i) "omp" then planOMPInput i intent
  else Some (planClaudeInput i intent).

(** ** Where the keys go *)

(** the rows on which Enter is pressed, when an arrow moves by one row *)
Fixpoint entered (row : Z) (keys : list string) : list Z :=
  match keys with
  | [] => []
  | key :: keys =>
      if String.eqb key "Enter" then row :: entered row keys
      else entered (if String.eqb key "Down" then row + 1 else if String.eqb key "Up" then row - 1 else row) keys
  end.
Definition keysOf (steps : list InputStep) : list string := concat (Keys <$> steps).

Lemma entered_moves row d keys : entered row (moves d ++ keys) = entered (row + d) keys.
Proof.
  unfold moves. destruct (Z.ltb_spec d 0) as [Hd|Hd].
  - replace d with (- Z.of_nat (Z.to_nat (- d))) at 2 by lia. generalize (Z.to_nat (- d)) as n. clear Hd. intros n. revert row.
    induction n as [|n IH]; intros row; cbn [repeat app]; [f_equal; lia|]. cbn. rewrite IH. f_equal. lia.
  - replace d with (Z.of_nat (Z.to_nat d)) at 2 by lia. generalize (Z.to_nat d) as n. clear Hd. intros n. revert row.
    induction n as [|n IH]; intros row; cbn [repeat app]; [f_equal; lia|]. cbn. rewrite IH. f_equal. lia.
Qed.

(** the options whose tick has to change *)
Fixpoint toChange (wanted : list Z) (index : Z) (options : list Option) : list Z :=
  match options with
  | [] => []
  | o :: options => (if Bool.eqb (Selected o) (containsInt wanted index) then [] else [index]) ++ toChange wanted (index + 1) options
  end.

Section Toggles.
(** the navigation of a form in which the options are the first rows *)
Context (nav : Interaction -> Focus -> list string) (P : Interaction -> Focus -> Z).
Context (nav_moves : forall i t, nav i t = moves (P i t - P i (focus i))) (P_option : forall i k, P i (option_ k) = k).

Lemma toggleLoop_enters store wanted options : forall index i,
  entered (P i (focus i)) (keysOf (toggleLoop nav store wanted index options i).1) = toChange wanted index options.
Proof.
  induction options as [|o options IH]; intros index i; [done|]. cbn [toggleLoop toChange]. destruct (Bool.eqb _ _); [apply IH|].
  set (i' := if store then _ else _). specialize (IH (index + 1) i').
  assert (Ef : focus i' = option_ index) by (subst i'; by destruct store). rewrite Ef, P_option in IH.
  destruct (toggleLoop nav store wanted (index + 1) options i') as [steps j]. cbn [fst app] in *.
  unfold keysOf. rewrite fmap_cons. cbn [Keys keysStep concat]. rewrite nav_moves, P_option, <- app_assoc, entered_moves.
  replace (P i (focus i) + (index - P i (focus i))) with index by lia. cbn. f_equal. exact IH.
Qed.

Lemma toggleLoop_ticks wanted options : forall before i,
  Options i = before ++ options ->
  Selected <$> Options (toggleLoop nav true wanted (len before) options i).2 =
    (Selected <$> before) ++ (containsInt wanted <$> seqZ (len before) (len options)).
Proof.
  induction options as [|o options IH]; intros before i E; cbn [toggleLoop].
  { cbn. by rewrite E, app_nil_r, app_nil_r. }
  rewrite length_cons, Nat2Z.inj_succ, seqZ_cons, Z.pred_succ by lia. rewrite fmap_cons.
  assert (Hs : len before + 1 = Z.of_nat (length (before ++ [o]))) by (rewrite length_app; cbn; lia).
  assert (Hn : Z.succ (len before) = len before + 1) by lia.
  destruct (Bool.eqb_spec (Selected o) (containsInt wanted (len before))) as [Eq|Hne].
  - rewrite Hn, Hs, IH by (by rewrite E, <- app_assoc). rewrite fmap_app, <- app_assoc. cbn. by rewrite Eq.
  - set (o' := mkOption (Label o) (Description o) (containsInt wanted (len before))).
    cbn zeta. set (i' := set_options _ _).
    assert (Ei : Options i' = (before ++ [o']) ++ options).
    { subst i'. cbn. rewrite Nat2Z.id, E, <- app_assoc. by rewrite insert_app_r_alt, Nat.sub_diag by lia. }
    assert (Hs' : len before + 1 = Z.of_nat (length (before ++ [o']))) by (rewrite length_app; cbn; lia).
    rewrite Hn, Hs'. specialize (IH _ _ Ei). destruct (toggleLoop nav true wanted _ options i') as [steps j]. cbn [snd] in *.
    rewrite IH, fmap_app, <- app_assoc. done.
Qed.
End Toggles.

(** The multi-select plans change exactly the ticks that differ: followed from the
    row that has the focus, their Enters fall on the options whose tick is not the
    wanted one, each once and in order, and the interaction is left with the wanted
    ticks; the keys of an approval press Enter on the wanted choice only. *)
Theorem ticks_exact i wanted store :
  entered (position i (focus i)) (keysOf (toggles navigationKeys store wanted i).1) = toChange wanted 0 (Options i) /\
  entered (qoderPosition i (focus i)) (keysOf (toggles qoderNavigationKeys store wanted i).1) = toChange wanted 0 (Options i) /\
  entered (openCodePosition i (focus i)) (keysOf (toggles openCodeNavigationKeys store wanted i).1) = toChange wanted 0 (Options i) /\
  Selected <$> Options (toggles navigationKeys true wanted i).2 = (containsInt wanted <$> seqZ 0 (len (Options i))) /\
  forall target current, entered current (approvalKeys target current) = [target].
Proof.
  split_and!; [apply (toggleLoop_enters navigationKeys position)|apply (toggleLoop_enters qoderNavigationKeys qoderPosition)|
    apply (toggleLoop_enters openCodeNavigationKeys openCodePosition)|apply (toggleLoop_ticks navigationKeys wanted (Options i) [] i eq_refl)|]; try done.
  intros target current. unfold approvalKeys. rewrite entered_moves. cbn. f_equal. lia.
Qed.

(** ** Instances *)

(** three options, the second ticked, and a custom answer *)
Definition demo (agent kind : string) (o : Other) (f : Focus) (all : Z) (notes : bool) : Interaction :=
  mkInteraction "q" kind "which?" [mkOption "a" "" false; mkOption "b" "" true; mkOption "c" "" false] o true false 1 2 f all agent notes.

Example claude_multi_plan :
  PlanInput (demo "claude" "multi_select" (mkOther true "old" false false) (option_ 1) 4 false) (mkIntent "" false [0; 1] true "new") =
  Some [keysStep ["Up"; "Enter"]; keysStep ["Down"; "Down"; "Down"; "Ctrl+U"]; textStep "new"; keysStep ["Down"; "Enter"]]%string.
Proof. reflexivity. Qed.
End QuestionInput.
