(* ===== verification/HerdrSessions.v ===== *)
(** The herdr sessions one relay serves ([internal/herdr/sessions.go]) and the views
    the poller keeps of them ([internal/coordinator/sessions.go]).

    Every session numbers its panes from one, so above the client an id carries the
    name of its session.  [Sessions] is a record, one function per method; a client
    is known by the server it talks to.  [sessions_routed] says that an id of a
    running session reaches the server of that session and no other. *)
From Stdlib Require Import Ascii.
From stdpp Require Import sorting.
From S2P Require Import Prelude GoLib GoText State.
#[local] Open Scope Z_scope.

Module HerdrSessions.
Import State.

(** ** Qualified ids *)

Definition sessionSeparator : ascii := "/"%char.

(** [strings.Cut] at the first [c]; [None] when there is none *)
Fixpoint cut (c : ascii) (s : string) : option (string * string) :=
  match s with
  | EmptyString => None
  | String a s =>
      if Ascii.eqb a c then Some (EmptyString, s)
      else (fun p => (String a p.1, p.2)) <$> cut c s
  end.

(** [strings.Contains] with one character *)
Fixpoint containsChar (c : ascii) (s : string) : bool :=
  match s with
  | EmptyString => false
  | String a s => Ascii.eqb a c || containsChar c s
  end.

Definition QualifyID (session id : string) : string :=
  if String.eqb session "" || String.eqb id "" then id
  else (session ++ String sessionSeparator id)%string.

Definition SplitID (id : string) : string * string :=
  match cut sessionSeparator id with
  | None => ("", id)
  | Some p => p
  end.

Record Tab := mkTab { tab_ID : string; tab_WorkspaceID : string; tab_Label : string; tab_Number : Z; tab_Cwd : string }.

(** a pane as herdr lists it *)
Record Pane := mkPane {
  pane_ID : string; pane_TerminalID : string; pane_TabID : string; pane_TabLabel : string; pane_TabNumber : Z;
  pane_WorkspaceID : string; pane_Agent : string; pane_Name : string; pane_Status : string; pane_Focused : bool;
  pane_Cwd : string; pane_Revision : Z; pane_StateChangeSeq : Z; pane_MaxOffsetFromBottom : Z;
  pane_ForegroundCwd : string; pane_Session : string }.

Definition QualifyWorkspace (session : string) (w : Workspace) : Workspace :=
  if String.eqb session "" then w
  else mkWorkspace (QualifyID session (ws_ID w)) (ws_Number w) (ws_Label w) (ws_Focused w) (ws_PaneCount w) (ws_TabCount w)
         (QualifyID session (ws_ActiveTabID w)) (ws_AgentStatus w) (ws_Cwd w) (ws_Worktree w) session.
Definition qualifyTab (session : string) (t : Tab) : Tab :=
  mkTab (QualifyID session (tab_ID t)) (QualifyID session (tab_WorkspaceID t)) (tab_Label t) (tab_Number t) (tab_Cwd t).
Definition qualifyPane (session : string) (p : Pane) : Pane :=
  mkPane (QualifyID session (pane_ID p)) (pane_TerminalID p) (QualifyID session (pane_TabID p)) (pane_TabLabel p)
    (pane_TabNumber p) (QualifyID session (pane_WorkspaceID p)) (pane_Agent p) (pane_Name p) (pane_Status p)
    (pane_Focused p) (pane_Cwd p) (pane_Revision p) (pane_StateChangeSeq p) (pane_MaxOffsetFromBottom p)
    (pane_ForegroundCwd p) (pane_Session p).

Definition QualifyTopology (session : string) (ws : list Workspace) (ts : list Tab) (ps : list Pane)
    : list Workspace * list Tab * list Pane :=
  if String.eqb session "" then (ws, ts, ps)
  else (QualifyWorkspace session <$> ws, qualifyTab session <$> ts, qualifyPane session <$> ps).

Record CreateResult := mkCreated { cre_PaneID : string; cre_TabID : string; cre_WorkspaceID : string }.

Definition QualifyCreateResult (session : string) (r : option CreateResult) : option CreateResult :=
  if String.eqb session "" then r
  else (fun r => mkCreated (QualifyID session (cre_PaneID r)) (QualifyID session (cre_TabID r))
                   (QualifyID session (cre_WorkspaceID r))) <$> r.

Definition qualifyOptionalID (session : string) (id : option string) : option string :=
  match id with
  | Some i => if String.eqb i "" then id else Some (QualifyID session i)
  | None => None
  end.

(** worktrees *)
Record Worktree := mkWorktreeInfo {
  wt_Path : string; wt_Branch : option string; wt_IsBare : bool; wt_IsDetached : bool; wt_IsPrunable : bool; wt_IsLinked : bool;
  wt_Label : string; wt_OpenWorkspaceID : option string }.
Record WorktreeSource := mkSource {
  src_RepoKey : string; src_RepoName : string; src_RepoRoot : string; src_CheckoutPath : string; src_WorkspaceID : option string }.
Record WorktreeListResult := mkListing { wl_Source : WorktreeSource; wl_Worktrees : list Worktree }.
Record WorktreeMutationResult := mkMutation {
  wm_Workspace : Workspace; wm_Tab : Tab; wm_RootPane : Pane; wm_Worktree : Worktree; wm_AlreadyOpen : bool }.
Record WorktreeRemoveResult := mkRemoved { wr_WorkspaceID : string; wr_Path : string; wr_Forced : bool }.

Definition QualifyWorktreeListing (session : string) (l : WorktreeListResult) : WorktreeListResult :=
  if String.eqb session "" then l
  else
    let s := wl_Source l in
    mkListing (mkSource (src_RepoKey s) (src_RepoName s) (src_RepoRoot s) (src_CheckoutPath s) (qualifyOptionalID session (src_WorkspaceID s)))
      ((fun t => mkWorktreeInfo (wt_Path t) (wt_Branch t) (wt_IsBare t) (wt_IsDetached t) (wt_IsPrunable t) (wt_IsLinked t) (wt_Label t)
                   (qualifyOptionalID session (wt_OpenWorkspaceID t))) <$> wl_Worktrees l).

Definition QualifyWorktreeMutation (session : string) (r : WorktreeMutationResult) : WorktreeMutationResult :=
  if String.eqb session "" then r
  else mkMutation (QualifyWorkspace session (wm_Workspace r)) (wm_Tab r) (wm_RootPane r) (wm_Worktree r) (wm_AlreadyOpen r).

(** ** The sessions *)

Record SessionInfo := mkSession { Name : string; Default : bool; Running : bool; SocketPath : string }.

(** the base client, a client of a socket, or the stand-in that reaches no server *)
Inductive Client := Base | Opened (socketPath : string) | Unavailable (session : string).
#[export] Instance Client_eq_dec : EqDecision Client.
Proof. solve_decision. Defined.

Record Sessions := mkSessions {
  baseSocket : string;
  baseName : string;
  clients : gmap string Client;
  infos : list SessionInfo
}.

Definition NewSessions (socketPath : string) : Sessions := mkSessions socketPath "" ∅ [].

(** the sessions of a listing that are taken over *)
Definition usable (info : SessionInfo) : bool :=
  Running info && negb (String.eqb (Name info) "") && negb (containsChar sessionSeparator (Name info)).

(** one turn of the loop over the listing *)
Definition takeSession (s : Sessions) (info : SessionInfo) : Sessions :=
  if negb (usable info) then s
  else
    let s :=
      if String.eqb (SocketPath info) (baseSocket s)
      then mkSessions (baseSocket s) (Name info) (<[Name info := Base]> (clients s)) (infos s)
      else if bool_decide (is_Some (clients s !! Name info)) then s
      else mkSessions (baseSocket s) (baseName s) (<[Name info := Opened (SocketPath info)]> (clients s)) (infos s) in
    mkSessions (baseSocket s) (baseName s) (clients s) (infos s ++ [info]).

(** the order of the listing: the base session, then by name *)
Definition infoLess (base : string) (i j : SessionInfo) : bool :=
  if negb (Bool.eqb (String.eqb (Name i) base) (String.eqb (Name j) base)) then String.eqb (Name i) base
  else String.ltb (Name i) (Name j).

(** a stable sort *)
Fixpoint insertBy {A} (less : A -> A -> bool) (x : A) (l : list A) : list A :=
  match l with
  | [] => [x]
  | y :: l => if less y x then y :: insertBy less x l else x :: y :: l
  end.
Definition sortBy {A} (less : A -> A -> bool) (l : list A) : list A := foldr (insertBy less) [] l.

(** a listing that was read; the second part are the clients that are closed *)
Definition refreshed (s : Sessions) (listed : list SessionInfo) : Sessions * list Client :=
  let found := foldl takeSession (mkSessions (baseSocket s) (baseName s) (clients s) []) listed in
  let seen : gset string := list_to_set (Name <$> infos found) in
  let gone := filter (fun nc => nc.1 ∉ seen) (map_to_list (clients found)) in
  let left := filter (fun nc => nc.1 ∈ seen) (clients found) in
  (mkSessions (baseSocket s) (baseName found) left (sortBy (infoLess (baseName found)) (infos found)),
   filter (fun c => c <> Base) (snd <$> gone)).

(** [Refresh]; [None] is a listing that could not be read *)
Definition Refresh (s : Sessions) (listed : option (list SessionInfo)) : Sessions * list Client * list SessionInfo :=
  match listed with
  | None => (s, [], infos s)
  | Some listed => let (s, closed) := refreshed s listed in (s, closed, infos s)
  end.

Definition Prefix (s : Sessions) (name : string) : string :=
  if String.eqb name "" || String.eqb name (baseName s) then "" else name.

Definition ClientOf (s : Sessions) (prefix : string) : option Client :=
  if String.eqb prefix "" then Some Base
  else if String.eqb prefix (baseName s) then Some Base
  else clients s !! prefix.

Definition Resolve (s : Sessions) (id : string) : option Client * string :=
  let (prefix, raw) := SplitID id in (ClientOf s prefix, raw).

Definition ClientFor (s : Sessions) (prefix : string) : Client :=
  match ClientOf s prefix with Some c => c | None => Unavailable prefix end.

(** ** The views of the poller *)

Record sessionTopology := mkTopology { v_agents : list AgentState; v_workspaces : list Workspace }.

Abbreviation sessionViews := (gmap string sessionTopology) (only parsing).

Definition set (v : sessionViews) (prefix : string) (t : sessionTopology) : sessionViews := <[prefix := t]> v.
Definition drop (v : sessionViews) (prefix : string) : sessionViews := delete prefix v.
Definition keep (v : sessionViews) (running : gset string) : sessionViews := filter (fun pt => pt.1 ∈ running) v.

Definition lessPrefix (a b : string) : bool :=
  if negb (Bool.eqb (String.eqb a "") (String.eqb b "")) then String.eqb a "" else String.ltb a b.

(** the inner loop: the new prefix sinks while it is less than the one before it; the
    sorted part is held in reverse *)
Fixpoint sink (x : string) (sorted : list string) : list string :=
  match sorted with
  | [] => [x]
  | y :: rest => if lessPrefix x y then y :: sink x rest else x :: y :: rest
  end.
Definition sortPrefixes (prefixes : list string) : list string := rev (foldl (fun sorted x => sink x sorted) [] prefixes).

(** the prefixes come in the order of the map, which the sort makes irrelevant *)
Definition merged (v : sessionViews) : list AgentState * list Workspace :=
  let views := omap (fun p => v !! p) (sortPrefixes (map_to_list v).*1) in
  (concat (v_agents <$> views), concat (v_workspaces <$> views)).

(** ** Ids come back *)

Lemma cut_append c p s : containsChar c p = false -> cut c (p ++ String c s)%string = Some (p, s).
Proof.
  induction p as [|a p IH]; intros H.
  - change ("" ++ String c s)%string with (String c s). cbn [cut]. by rewrite Ascii.eqb_refl.
  - change (String a p ++ String c s)%string with (String a (p ++ String c s)). cbn [cut containsChar] in *.
    apply orb_false_iff in H as [-> H]. by rewrite IH.
Qed.
Lemma cut_none c s : containsChar c s = false -> cut c s = None.
Proof. induction s as [|a s IH]; cbn [cut containsChar]; intros H; [done|]. apply orb_false_iff in H as [-> H]. by rewrite IH. Qed.

Lemma split_qualify_id session id :
  containsChar sessionSeparator session = false -> containsChar sessionSeparator id = false -> id <> ""%string ->
  SplitID (QualifyID session id) = (session, id).
Proof.
  intros Hs Hi Hne. unfold QualifyID, SplitID. destruct (String.eqb session "") eqn:E; cbn.
  - apply String.eqb_eq in E as ->. by rewrite cut_none.
  - destruct (String.eqb id "") eqn:E2; [by apply String.eqb_eq in E2|]. by rewrite cut_append.
Qed.

(** Qualified ids name one thing: two sessions never share an id, although each
    numbers its own panes, tabs and workspaces from one. *)
Theorem qualified_ids_distinct session session' id id' :
  containsChar sessionSeparator session = false -> containsChar sessionSeparator session' = false ->
  containsChar sessionSeparator id = false -> containsChar sessionSeparator id' = false ->
  id <> ""%string -> id' <> ""%string ->
  QualifyID session id = QualifyID session' id' -> session = session' /\ id = id'.
Proof.
  intros Hs Hs' Hi Hi' He He' E. apply (f_equal SplitID) in E. rewrite !split_qualify_id in E by done. by simplify_eq.
Qed.

(** ** Routing *)

(** the server behind a socket *)
Definition serverOf (s : Sessions) (path : string) : Client :=
  if String.eqb path (baseSocket s) then Base else Opened path.

Section Routing.
(** a session keeps its socket while it is listed *)
Context (sock : string -> string).
Definition faithful (listed : list SessionInfo) : Prop := Forall (fun i => SocketPath i = sock (Name i)) listed.

Record Inv (s : Sessions) : Prop := mkInv {
  inv_client n c : clients s !! n = Some c -> c = serverOf s (sock n);
  inv_base : baseName s <> ""%string -> sock (baseName s) = baseSocket s;
  inv_infos i : i ∈ infos s -> usable i = true /\ SocketPath i = sock (Name i) /\ is_Some (clients s !! Name i)
}.

(** the clients and the name of the base, without the listing *)
Definition InvC (s : Sessions) : Prop :=
  (forall n c, clients s !! n = Some c -> c = serverOf s (sock n)) /\
  (baseName s <> ""%string -> sock (baseName s) = baseSocket s).

Lemma takeSession_ok s i :
  InvC s -> (forall j, j ∈ infos s -> usable j = true /\ SocketPath j = sock (Name j) /\ is_Some (clients s !! Name j)) ->
  SocketPath i = sock (Name i) ->
  let s' := takeSession s i in
  baseSocket s' = baseSocket s /\ InvC s' /\
  (forall j, j ∈ infos s' -> usable j = true /\ SocketPath j = sock (Name j) /\ is_Some (clients s' !! Name j)).
Proof.
  intros [Hc Hb] Hi Hs. unfold takeSession. destruct (usable i) eqn:Eu; cbn [negb]; [|done].
  destruct (String.eqb (SocketPath i) (baseSocket s)) eqn:Es.
  - apply String.eqb_eq in Es. cbn. split; [done|]. split.
    + split; cbn; [|congruence]. intros n c. rewrite lookup_insert_Some. intros [[<- <-]|[_ H]].
      * unfold serverOf. cbn. rewrite <- Hs, Es. by rewrite String.eqb_refl.
      * by apply Hc in H.
    + intros j [H| ->%list_elem_of_singleton]%elem_of_app.
      * destruct (Hi j H) as (? & ? & ?). rewrite lookup_insert_is_Some'. auto.
      * rewrite lookup_insert_is_Some'. auto.
  - apply String.eqb_neq in Es. case_bool_decide as Ek; cbn.
    + split; [done|]. split; [done|]. intros j [H| ->%list_elem_of_singleton]%elem_of_app; auto.
    + split; [done|]. split.
      * split; cbn; [|done]. intros n c. rewrite lookup_insert_Some. intros [[<- <-]|[_ H]].
        -- unfold serverOf. cbn. rewrite <- Hs. apply String.eqb_neq in Es. by rewrite Es.
        -- by apply Hc in H.
      * intros j [H| ->%list_elem_of_singleton]%elem_of_app; rewrite lookup_insert_is_Some'; [|by auto].
        destruct (Hi j H) as (? & ? & ?). auto.
Qed.

Lemma takeAll_ok listed s :
  faithful listed -> InvC s ->
  (forall j, j ∈ infos s -> usable j = true /\ SocketPath j = sock (Name j) /\ is_Some (clients s !! Name j)) ->
  let s' := foldl takeSession s listed in
  baseSocket s' = baseSocket s /\ InvC s' /\
  (forall j, j ∈ infos s' -> usable j = true /\ SocketPath j = sock (Name j) /\ is_Some (clients s' !! Name j)).
Proof.
  revert s. induction listed as [|i listed IH]; intros s Hf Hc Hi; cbn; [done|].
  apply Forall_cons in Hf as [Hs Hf]. destruct (takeSession_ok s i Hc Hi Hs) as (E & Hc' & Hi').
  destruct (IH _ Hf Hc' Hi') as (E' & ?). split; [congruence|done].
Qed.

Lemma insertBy_elem {A} (less : A -> A -> bool) x y l : y ∈ insertBy less x l <-> y = x \/ y ∈ l.
Proof.
  induction l as [|z l IH]; cbn; [rewrite list_elem_of_singleton; set_solver|].
  destruct (less z x); rewrite !elem_of_cons, ?IH; tauto.
Qed.
Lemma sortBy_elem {A} (less : A -> A -> bool) y l : y ∈ sortBy less l <-> y ∈ l.
Proof. induction l as [|z l IH]; cbn; [done|]. by rewrite insertBy_elem, IH, elem_of_cons. Qed.

Lemma refreshed_inv s listed : faithful listed -> Inv s -> Inv (refreshed s listed).1.
Proof.
  intros Hf [Hc Hb _]. unfold refreshed.
  destruct (takeAll_ok listed (mkSessions (baseSocket s) (baseName s) (clients s) []) Hf) as (E & [Hc' Hb'] & Hi');
    [done|by intros ? ?%not_elem_of_nil|].
  set (found := foldl takeSession _ listed) in *. cbn in E. cbn. split; cbn.
  - intros n c [H _]%map_lookup_filter_Some. apply Hc' in H. unfold serverOf in *. cbn in *. by rewrite E in H.
  - intros H. by rewrite <- E, Hb'.
  - intros i H. rewrite sortBy_elem in H. destruct (Hi' i H) as (? & ? & [c ?]). split_and!; try done.
    exists c. apply map_lookup_filter_Some. split; [done|]. cbn. apply elem_of_list_to_set, list_elem_of_fmap. eauto.
Qed.

Inductive reached (path : string) : Sessions -> Prop :=
| reached_new : reached path (NewSessions path)
| reached_refresh s listed s' closed infos :
    reached path s -> faithful (default [] listed) -> Refresh s listed = (s', closed, infos) -> reached path s'.

Lemma reached_inv path s : reached path s -> Inv s.
Proof.
  induction 1 as [|s listed s' closed ins _ IH Hf E].
  - split; cbn; [intros ? ?; by rewrite lookup_empty|done|by intros ? ?%not_elem_of_nil].
  - unfold Refresh in E. destruct listed as [listed|]; [|by simplify_eq].
    pose proof (refreshed_inv s listed Hf IH) as H. destruct (refreshed s listed) as [s0 c0]. by simplify_eq.
Qed.

(** An id of a running session reaches the server of that session: taking the
    qualified id apart gives the id the server knows and the client of its socket, the
    base client for the base session and never for another one.  A session that is not
    running is answered by a stand-in that reaches no server. *)
Theorem sessions_routed path s :
  reached path s ->
  (forall info id, info ∈ infos s -> containsChar sessionSeparator id = false -> id <> ""%string ->
     SplitID (QualifyID (Prefix s (Name info)) id) = (Prefix s (Name info), id) /\
     ClientFor s (Prefix s (Name info)) = serverOf s (SocketPath info)) /\
  (forall prefix, prefix <> ""%string -> prefix <> baseName s -> clients s !! prefix = None ->
     ClientFor s prefix = Unavailable prefix).
Proof.
  intros Hr. apply reached_inv in Hr as [Hc Hb Hi]. split.
  - intros info id Hin Hid Hne. destruct (Hi info Hin) as (Hu & Hs & [c Hk]).
    unfold usable in Hu. apply andb_true_iff in Hu as [[_ Hn]%andb_true_iff Hsep]. apply negb_true_iff in Hn, Hsep.
    split.
    + apply split_qualify_id; [|done|done]. unfold Prefix. destruct (_ || _); done.
    + unfold Prefix. rewrite Hn. cbn. unfold ClientFor, ClientOf.
      destruct (String.eqb (Name info) (baseName s)) eqn:Eb; cbn.
      * apply String.eqb_eq in Eb. apply String.eqb_neq in Hn. unfold serverOf.
        rewrite Hs, Eb, Hb by (by rewrite <- Eb). by rewrite String.eqb_refl.
      * by rewrite Hn, Eb, Hk, Hs, <- (Hc _ _ Hk).
  - intros prefix Hne Hnb Hk. unfold ClientFor, ClientOf. apply String.eqb_neq in Hne, Hnb. by rewrite Hne, Hnb, Hk.
Qed.
End Routing.

(** ** The merged view *)

Lemma lessPrefix_trans a b c : lessPrefix a b = true -> lessPrefix b c = true -> lessPrefix a c = true.
Proof.
  unfold lessPrefix. destruct (String.eqb a ""), (String.eqb b ""), (String.eqb c ""); cbn; try done; apply string_ltb_trans.
Qed.
Lemma lessPrefix_irrefl a : lessPrefix a a = false.
Proof. unfold lessPrefix. rewrite Bool.eqb_reflx. cbn. apply string_ltb_irrefl. Qed.
Lemma lessPrefix_total a b : a = b \/ lessPrefix a b = true \/ lessPrefix b a = true.
Proof.
  unfold lessPrefix. destruct (String.eqb a "") eqn:Ea, (String.eqb b "") eqn:Eb; cbn; auto using string_ltb_total.
Qed.

(** ascending: no prefix is less than one before it *)
Definition ascending (l : list string) : Prop := StronglySorted (fun a b => lessPrefix a b = true) l.

Lemma sink_perm x l : sink x l ≡ₚ x :: l.
Proof. induction l as [|y l IH]; cbn; [done|]. destruct (lessPrefix x y); [|done]. rewrite IH. constructor. Qed.
Lemma sortPrefixes_perm l : sortPrefixes l ≡ₚ l.
Proof.
  unfold sortPrefixes. rewrite <- Permutation_rev.
  enough (H : forall acc, foldl (fun sorted x => sink x sorted) acc l ≡ₚ acc ++ l) by apply (H []).
  induction l as [|x l IH]; intros acc; cbn; [by rewrite app_nil_r|].
  rewrite IH, sink_perm. apply Permutation_middle.
Qed.

Lemma sink_sorted x l :
  StronglySorted (fun a b => lessPrefix b a = true) l -> x ∉ l ->
  StronglySorted (fun a b => lessPrefix b a = true) (sink x l).
Proof.
  induction 1 as [|y l Hs IH Hy]; intros Hx; cbn; [by repeat constructor|]. apply not_elem_of_cons in Hx as [Hne Hx].
  destruct (lessPrefix x y) eqn:E.
  - constructor; [by apply IH|]. rewrite sink_perm. by constructor.
  - destruct (lessPrefix_total x y) as [?|[?|Hl]]; [done|congruence|]. constructor; [by constructor|].
    constructor; [done|]. eapply Forall_impl; [exact Hy|]. cbn. eauto using lessPrefix_trans.
Qed.

Lemma sorted_rev {A} (R : A -> A -> Prop) l : StronglySorted (fun a b => R b a) l -> StronglySorted R (rev l).
Proof.
  induction 1 as [|x l Hs IH Hx]; cbn; [constructor|].
  apply StronglySorted_app_2; [|done|by repeat constructor].
  intros a b Ha ->%list_elem_of_singleton. rewrite list_elem_of_In, <- in_rev, <- list_elem_of_In in Ha.
  rewrite Forall_forall in Hx. auto.
Qed.

Lemma sortPrefixes_ascending l : NoDup l -> ascending (sortPrefixes l).
Proof.
  intros Hn. apply sorted_rev.
  enough (H : forall l acc, NoDup (acc ++ l) -> StronglySorted (fun a b => lessPrefix b a = true) acc ->
    StronglySorted (fun a b => lessPrefix b a = true) (foldl (fun sorted x => sink x sorted) acc l))
    by (apply H; [done|constructor]).
  clear. intros l. induction l as [|x l IH]; intros acc Hn Ha; cbn; [done|].
  apply IH; [by rewrite sink_perm; rewrite <- Permutation_middle in Hn|].
  apply sink_sorted; [done|]. apply NoDup_app in Hn as (_ & Hd & _). intros H. by apply (Hd x H), elem_of_cons; left.
Qed.

Lemma ascending_unique l l' : ascending l -> ascending l' -> l ≡ₚ l' -> l = l'.
Proof.
  intros Hs. revert l'. induction Hs as [|x l Hs IH Hx]; intros l' Hs' Hp.
  { by apply Permutation_nil in Hp as ->. }
  destruct Hs' as [|y l' Hs' Hy]; [by apply Permutation_nil_r in Hp|].
  assert (x = y) as <-.
  { destruct (lessPrefix_total x y) as [?|[E|E]]; [done| |]; exfalso.
    - assert (Hin : x ∈ y :: l') by (rewrite <- Hp; by left). apply elem_of_cons in Hin as [->|Hin]; [by rewrite lessPrefix_irrefl in E|].
      rewrite Forall_forall in Hy. apply Hy in Hin. pose proof (lessPrefix_trans _ _ _ E Hin) as H. by rewrite lessPrefix_irrefl in H.
    - assert (Hin : y ∈ x :: l) by (rewrite Hp; by left). apply elem_of_cons in Hin as [->|Hin]; [by rewrite lessPrefix_irrefl in E|].
      rewrite Forall_forall in Hx. apply Hx in Hin. pose proof (lessPrefix_trans _ _ _ E Hin) as H. by rewrite lessPrefix_irrefl in H. }
  f_equal. apply IH; [done|]. by apply Permutation_cons_inv in Hp.
Qed.

(** the views in the order the phone sees *)
Definition viewsOf (v : gmap string sessionTopology) (prefixes : list string) : list sessionTopology :=
  omap (fun p => v !! p) (sortPrefixes prefixes).

(** The merged view holds the panes and workspaces of every session, the base
    session's first, in an order that does not depend on the order in which the map of
    views is walked. *)
Theorem merged_stable v prefixes :
  prefixes ≡ₚ (map_to_list v).*1 ->
  merged v = (concat (v_agents <$> viewsOf v prefixes), concat (v_workspaces <$> viewsOf v prefixes)) /\
  viewsOf v prefixes ≡ₚ (map_to_list v).*2 /\
  (forall base, v !! ""%string = Some base -> exists rest, viewsOf v prefixes = base :: rest).
Proof.
  intros Hp. pose proof (NoDup_fst_map_to_list v) as Hn.
  assert (E : sortPrefixes prefixes = sortPrefixes (map_to_list v).*1).
  { apply ascending_unique; [apply sortPrefixes_ascending; by rewrite Hp|by apply sortPrefixes_ascending|].
    by rewrite !sortPrefixes_perm. }
  unfold viewsOf, merged. rewrite E. split; [done|]. split.
  - rewrite sortPrefixes_perm. clear. assert (H : Forall (fun pt => v !! pt.1 = Some pt.2) (map_to_list v)).
    { apply Forall_forall. intros [p t]. apply elem_of_map_to_list. }
    induction H as [|[p t] l Ep _ IH]; cbn in *; [done|]. by rewrite Ep, IH.
  - intros base Hb. pose proof (sortPrefixes_ascending _ Hn) as Ha.
    assert (Hin : ""%string ∈ sortPrefixes (map_to_list v).*1).
    { rewrite sortPrefixes_perm. apply list_elem_of_fmap. exists (""%string, base). by rewrite elem_of_map_to_list. }
    destruct (sortPrefixes (map_to_list v).*1) as [|p l]; [by apply not_elem_of_nil in Hin|].
    assert (p = ""%string) as ->; [|exists (omap (fun p => v !! p) l); cbn; by rewrite Hb].
    apply elem_of_cons in Hin as [<-|Hin]; [done|]. inversion_clear Ha as [|? ? _ Hf]. rewrite Forall_forall in Hf.
    apply Hf in Hin. unfold lessPrefix in Hin. destruct (String.eqb p "") eqn:Ep; [by apply String.eqb_eq in Ep|]. done.
Qed.

(** ** Runs *)

Definition mainSession : SessionInfo := mkSession "main" true true "/run/main.sock".
Definition sideSession : SessionInfo := mkSession "side" false true "/run/side.sock".
Definition twoSessions : Sessions := (Refresh (NewSessions "/run/main.sock") (Some [sideSession; mainSession])).1.1.

Lemma qualified_ids_witness :
  QualifyID "side" "w1:p1" <> QualifyID "" "w1:p1" /\ QualifyID "side" "w1:p1" = "side/w1:p1"%string.
Proof.
  split; [|reflexivity]. intros E. apply (qualified_ids_distinct "side" "") in E; [|reflexivity..|discriminate|discriminate].
  by destruct E.
Defined.

Definition demoSocket (name : string) : string := if String.eqb name "main" then "/run/main.sock" else "/run/side.sock".

Lemma sessions_routed_witness :
  ClientFor twoSessions "side" = Opened "/run/side.sock" /\ ClientFor twoSessions (Prefix twoSessions "main") = Base /\
  ClientFor twoSessions "other" = Unavailable "other".
Proof.
  destruct (sessions_routed demoSocket "/run/main.sock" twoSessions) as [H1 H2].
  { eapply (reached_refresh _ _ (NewSessions "/run/main.sock") (Some [sideSession; mainSession])); [constructor| |reflexivity].
    by repeat constructor. }
  split; [|split].
  - apply (H1 sideSession "w1:p1"%string); [right; left|reflexivity|discriminate].
  - apply (H1 mainSession "w1:p1"%string); [left|reflexivity|discriminate].
  - apply H2; [discriminate|discriminate|reflexivity].
Defined.

Definition demoViews : gmap string sessionTopology := {["side"%string := mkTopology [] []; ""%string := mkTopology [] []]}.

Lemma merged_stable_witness : exists rest, viewsOf demoViews (map_to_list demoViews).*1 = mkTopology [] [] :: rest.
Proof. by apply (merged_stable demoViews (map_to_list demoViews).*1). Defined.

(** A client is kept under the name of its session.  When the base session is renamed
    and its old name passes to another server, the ids of that server go to the base
    session. *)
Example renamed_session_misrouted :
  let s := (Refresh (NewSessions "/run/main.sock") (Some [mainSession])).1.1 in
  let s := (Refresh s (Some [mkSession "work" true true "/run/main.sock"; mkSession "main" false true "/run/new.sock"])).1.1 in
  Prefix s "main" = "main"%string /\ ClientFor s "main" = Base.
Proof. by vm_compute. Qed.
End HerdrSessions.
