(* ===== verification/Poller.v ===== *)
(** The poller ([internal/coordinator/poller.go] and [collectSession] of
    [sessions.go]): how an inventory of herdr becomes agents, the reconcile poll and the
    event streams that commit it, and the broadcasts that follow.  The world is shared by
    the poll and one goroutine per event stream; the steps are the stretches between two
    locks. *)
From stdpp Require Import sorting.
From S2P Require Import Prelude GoLib GoText State StateInv StateSafety HerdrSessions.
#[local] Open Scope Z_scope.

Module Poller.
Import State HerdrSessions.

(** [filepath.Base] of a path that is not empty *)
Definition Base (path : string) : string := default "/"%string (last (filter (fun e => e <> ""%string) (SplitByte slash path))).

(** ** From panes to agents *)

Record tabIndex := mkTabs { tabByID : gmap string Tab; tabOrderByID : gmap string Z; perWorkspace : gmap string Z }.

Definition indexTab (acc : tabIndex * Z) (t : Tab) : tabIndex * Z :=
  let '(x, index) := acc in
  let t := if tab_Number t =? 0 then mkTab (tab_ID t) (tab_WorkspaceID t) (tab_Label t) (index + 1) (tab_Cwd t) else t in
  let per := bump (tab_WorkspaceID t) (perWorkspace x) in
  (mkTabs (<[tab_ID t := t]> (tabByID x)) (<[tab_ID t := default 0 (per !! tab_WorkspaceID t)]> (tabOrderByID x)) per, index + 1).
Definition indexTabs (tabs : list Tab) : tabIndex := (foldl indexTab (mkTabs ∅ ∅ ∅, 0) tabs).1.

Definition paneAgent (hostname session : string) (x : tabIndex) (p : Pane) : AgentState :=
  let status := if String.eqb (pane_Agent p) "" then ""%string else pane_Status p in
  let (label, number) := match tabByID x !! pane_TabID p with
                         | Some t => (tab_Label t, tab_Number t)
                         | None => (pane_TabLabel p, pane_TabNumber p)
                         end in
  let project := if String.eqb (pane_Cwd p) "" then ""%string else Base (pane_Cwd p) in
  mkAgent (mkInfo (pane_ID p) (pane_ID p) (pane_TerminalID p) (pane_TabID p) label number
             (default 0 (tabOrderByID x !! pane_TabID p)) (pane_WorkspaceID p) (pane_Agent p) (String.eqb (pane_Agent p) "")
             (pane_Name p) (pane_Focused p) (pane_Cwd p) project hostname session (pane_Session p) "" (pane_StateChangeSeq p) ""
             false (pane_Revision p) (pane_MaxOffsetFromBottom p) (pane_ForegroundCwd p))
    status 0 0 0 noBlocked 0.

Definition agentsFromTopology (hostname session : string) (panes : list Pane) (tabs : list Tab) : list AgentState :=
  paneAgent hostname session (indexTabs tabs) <$> panes.

(** the panes of the agents, and the panes without an agent *)
Definition withShellPanes (agentPanes topologyPanes : list Pane) : list Pane :=
  agentPanes ++ filter (fun p => pane_Agent p = ""%string /\ pane_ID p ∉ (pane_ID <$> agentPanes)) topologyPanes.

Definition shorterPath (current candidate : string) : string :=
  if String.eqb candidate "" || negb (String.eqb current "") && (String.length current <=? String.length candidate)%nat
  then current else candidate.

Definition noteCwd (cwds : gmap string string) (wc : string * string) : gmap string string :=
  if String.eqb wc.1 "" then cwds else <[wc.1 := shorterPath (default ""%string (cwds !! wc.1)) wc.2]> cwds.

(** the directories of tabs and panes, in the order the loops read them *)
Definition places (tabs : list Tab) (panes : list Pane) : list (string * string) :=
  ((fun t => (tab_WorkspaceID t, tab_Cwd t)) <$> tabs) ++ ((fun p => (pane_WorkspaceID p, pane_Cwd p)) <$> panes).

Definition hydrate (cwds : gmap string string) (w : Workspace) : Workspace :=
  match ws_Worktree w with
  | Some t => if String.eqb (CheckoutPath t) "" then withCwd w (default ""%string (cwds !! ws_ID w)) else withCwd w (CheckoutPath t)
  | None => withCwd w (default ""%string (cwds !! ws_ID w))
  end.
Definition hydrateWorkspaceCwds (ws : list Workspace) (tabs : list Tab) (panes : list Pane) : list Workspace :=
  hydrate (foldl noteCwd ∅ (places tabs panes)) <$> ws.

(** what a client of herdr answers to the four calls; [Err true] is the refusal of a
    server that does not run *)
Record replies := mkReplies {
  GetInventory : result bool (list Pane);
  WorkspaceList : result bool (list Workspace);
  TabList : result bool (list Tab);
  PaneList : result bool (list Pane)
}.
Definition orElse {A} (r : result bool A) (a : A) : A := match r with Ok x => x | Err _ => a end.

(** the inventory of one session with its ids qualified *)
Definition collectSession (hostname prefix : string) (c : replies) : result bool sessionTopology :=
  let! inv := GetInventory c in
  let! ws := WorkspaceList c in
  let tabs := orElse (TabList c) [] in
  let topologyPanes := orElse (PaneList c) inv in
  let ws := hydrateWorkspaceCwds ws tabs topologyPanes in
  let '(ws, tabs, inv) := QualifyTopology prefix ws tabs inv in
  let panes := match PaneList c with
               | Ok topologyPanes => withShellPanes inv (QualifyTopology prefix [] [] topologyPanes).2
               | Err _ => inv
               end in
  Ok (mkTopology (agentsFromTopology hostname prefix panes tabs) ws).

(** [poll] without the session overlay reads the same, unqualified *)
Definition collectBase (hostname : string) (c : replies) : result bool sessionTopology :=
  let! inv := GetInventory c in
  let! ws := WorkspaceList c in
  let tabs := orElse (TabList c) [] in
  let topologyPanes := orElse (PaneList c) inv in
  let ws := hydrateWorkspaceCwds ws tabs topologyPanes in
  let panes := match PaneList c with Ok topologyPanes => withShellPanes inv topologyPanes | Err _ => inv end in
  Ok (mkTopology (agentsFromTopology hostname "" panes tabs) ws).

(** ** The world of the poller *)

Definition idlePollInterval : duration := 15 * second.
Definition maxImmediateTopologyPolls : Z := 3.

(** [InventoryStatus] *)
Record status := mkStatus {
  st_state : string; st_error : string; st_message : string; st_attempt : Z; st_success : Z; st_stale : bool }.
Definition unixOf (t : time) : Z := if t =? zero_time then 0 else (t - unixEpoch) / second.
Definition InventoryStatus (s : State) : status :=
  let i := inventory s in
  mkStatus (InventoryState s) (inventoryErrorCode i) (inventoryMessage i) (unixOf (lastAttemptAt i)) (unixOf (lastSuccessAt i))
    (inventoryStale s).
Definition inventoryStatusChanged (previous current : status) : bool :=
  negb (String.eqb (st_state previous) (st_state current) && String.eqb (st_error previous) (st_error current) &&
        String.eqb (st_message previous) (st_message current) && Bool.eqb (st_stale previous) (st_stale current)).

Inductive output :=
| AgentsOut (l : list AgentState)
| WorkspacesOut (l : list Workspace)
| StatusOut (s : status)
| StateOut (e : list effect).   (** what the pane state calls during a commit *)

Section Polling.
(** [json.Marshal] of what is compared; the callback that enriches agents in place; the
    digests of the pane state; the host name and the configured interval *)
Context {J : Type} `{!EqDecision J} (marshalAgents : list AgentState -> option J) (marshalWorkspaces : list Workspace -> option J).
Context (enrich : list AgentState -> list AgentState) (sha256hex : string -> string) (draw : Z -> option bytes).
Context (hostname : string) (interval : duration).

Record World := mkWorld {
  state : State;
  sessions : option Sessions;
  views : gmap string sessionTopology;
  retries : Z;                  (** [topologyRetries] *)
  failures : Z;                 (** [consecutiveFailures] *)
  wakeup : bool;                (** the channel holds a token *)
  streams : Z;                  (** [eventStreams] *)
  lastAgentsJSON : option J;
  lastWorkspacesJSON : option J;
  out : list output
}.

Definition set_state (v : State) (w : World) : World :=
  mkWorld v (sessions w) (views w) (retries w) (failures w) (wakeup w) (streams w) (lastAgentsJSON w) (lastWorkspacesJSON w) (out w).
Definition set_sessions (v : option Sessions) (w : World) : World :=
  mkWorld (state w) v (views w) (retries w) (failures w) (wakeup w) (streams w) (lastAgentsJSON w) (lastWorkspacesJSON w) (out w).
Definition set_views (v : gmap string sessionTopology) (w : World) : World :=
  mkWorld (state w) (sessions w) v (retries w) (failures w) (wakeup w) (streams w) (lastAgentsJSON w) (lastWorkspacesJSON w) (out w).
Definition set_retries (v : Z) (w : World) : World :=
  mkWorld (state w) (sessions w) (views w) v (failures w) (wakeup w) (streams w) (lastAgentsJSON w) (lastWorkspacesJSON w) (out w).
Definition set_failures (v : Z) (w : World) : World :=
  mkWorld (state w) (sessions w) (views w) (retries w) v (wakeup w) (streams w) (lastAgentsJSON w) (lastWorkspacesJSON w) (out w).
Definition set_wakeup (v : bool) (w : World) : World :=
  mkWorld (state w) (sessions w) (views w) (retries w) (failures w) v (streams w) (lastAgentsJSON w) (lastWorkspacesJSON w) (out w).
Definition set_streams (v : Z) (w : World) : World :=
  mkWorld (state w) (sessions w) (views w) (retries w) (failures w) (wakeup w) v (lastAgentsJSON w) (lastWorkspacesJSON w) (out w).
Definition set_lastAgents (v : option J) (w : World) : World :=
  mkWorld (state w) (sessions w) (views w) (retries w) (failures w) (wakeup w) (streams w) v (lastWorkspacesJSON w) (out w).
Definition set_lastWorkspaces (v : option J) (w : World) : World :=
  mkWorld (state w) (sessions w) (views w) (retries w) (failures w) (wakeup w) (streams w) (lastAgentsJSON w) v (out w).
Definition emit (o : output) (w : World) : World :=
  mkWorld (state w) (sessions w) (views w) (retries w) (failures w) (wakeup w) (streams w) (lastAgentsJSON w) (lastWorkspacesJSON w) (out w ++ [o]).

Definition Wake (w : World) : World := set_wakeup true w.

Definition notifyStatusChange (previous : status) (w : World) : World :=
  let current := InventoryStatus (state w) in
  if inventoryStatusChanged previous current then emit (StatusOut current) w else w.

(** what is compared: the agents without their revision *)
Definition comparable (snapshot : list AgentState) : list AgentState := set_StateRevision 0 <$> snapshot.

Definition notifyAgentsChanged (w : World) : World :=
  let snapshot := Snapshot (state w) in
  match marshalAgents (comparable snapshot) with
  | Some encoded =>
      if bool_decide (lastAgentsJSON w = Some encoded) then w
      else emit (AgentsOut snapshot) (set_lastAgents (Some encoded) w)
  | None => emit (AgentsOut snapshot) w
  end.

Definition notifyWorkspacesChanged (w : World) : World :=
  let ws := workspaces (state w) in
  match marshalWorkspaces ws with
  | Some encoded =>
      if bool_decide (lastWorkspacesJSON w = Some encoded) then w
      else emit (WorkspacesOut ws) (set_lastWorkspaces (Some encoded) w)
  | None => emit (WorkspacesOut ws) w
  end.

Definition handleTopologyStale (previous : status) (now : time) (w : World) : World :=
  let w := set_retries (retries w + 1) w in
  if retries w <=? maxImmediateTopologyPolls then Wake w
  else notifyStatusChange previous (set_state (MarkTopologyDegraded (state w) now) w).

Definition currentInterval (w : World) : duration :=
  if 0 <? streams w then idlePollInterval
  else if (interval <=? 0) || (interval >? idlePollInterval) then idlePollInterval
  else interval.

(** ** Committing *)

(** the enriched agents are the objects the views hold *)
Fixpoint giveBack (v : gmap string sessionTopology) (prefixes : list string) (l : list AgentState) : gmap string sessionTopology :=
  match prefixes with
  | [] => v
  | p :: prefixes =>
      match v !! p with
      | Some t => giveBack (<[p := mkTopology (take (length (v_agents t)) l) (v_workspaces t)]> v) prefixes (List.skipn (length (v_agents t)) l)
      | None => giveBack v prefixes l
      end
  end.

Definition mergeViews (w : World) : list AgentState * list Workspace * World :=
  let (l, ws) := merged (views w) in
  let l := enrich l in
  (l, ws, set_views (giveBack (views w) (sortPrefixes (map_to_list (views w)).*1) l) w).

(** what is left to tell after a commit *)
Definition failPoll (previous : status) (refused : bool) (now : time) (w : World) : World :=
  notifyStatusChange previous (set_state (MarkInventoryFailure (state w) (Some refused) now) (set_failures (failures w + 1) w)).

(** [CommitPoll]; the answer is whether it was committed and whether workspaces changed *)
Definition commitSample (l : list AgentState) (ws : list Workspace) (token : PollToken) (now : time) (w : World)
    : option (World * (bool * bool)) :=
  let? o := CommitPoll sha256hex draw (state w) (Some <$> l) ws token now in
  let '(s, eff, (changed, committed)) := o in
  Some (emit (StateOut eff) (set_state s w), (changed, committed)).

Definition commitEvents (l : list AgentState) (ws : list Workspace) (baseRevision : Z) (now : time) (w : World)
    : option (World * bool) :=
  let? o := CommitTopology sha256hex draw (state w) (Some <$> l) ws baseRevision now in
  let '(s, eff, changed) := o in
  Some (emit (StateOut eff) (set_state s w), changed).

Definition notifyAll (previous : status) (changed : bool) (w : World) : World :=
  let w := notifyAgentsChanged (notifyStatusChange previous w) in
  if changed then notifyWorkspacesChanged w else w.

(** ** The reconcile poll *)

Definition finishPoll (l : list AgentState) (ws : list Workspace) (token : PollToken) (previous : status) (now : time) (w : World)
    : option World :=
  let? o := commitSample l ws token now w in
  let '(w, (changed, committed)) := (o : World * (bool * bool)) in
  if committed then Some (notifyAll previous changed (set_retries 0 w)) else Some (handleTopologyStale previous now w).

(** one session of the loop; [Err] ends the poll *)
Definition sampleSession (previous : status) (now : time) (answers : string -> replies) (w : World) (prefix : string)
    : result World World :=
  match sessions w ≫= fun s => ClientOf s prefix with
  | None => Ok w
  | Some _ =>
      match collectSession hostname prefix (answers prefix) with
      | Ok t => Ok (set_views (set (views w) prefix t) w)
      | Err refused =>
          if String.eqb prefix "" then Err (failPoll previous refused now w)
          else Ok (set_views (HerdrSessions.drop (views w) prefix) w)
      end
  end.

Fixpoint sampleSessions (previous : status) (now : time) (answers : string -> replies) (prefixes : list string) (w : World)
    : result World World :=
  match prefixes with
  | [] => Ok w
  | p :: prefixes => let! w := sampleSession previous now answers w p in sampleSessions previous now answers prefixes w
  end.

(** the prefixes of the running sessions *)
Definition running (s : Sessions) (listed : list SessionInfo) : gset string := {[ ""%string ]} ∪ list_to_set ((fun i => Prefix s (Name i)) <$> listed).

Definition refreshSessions (listing : option (list SessionInfo)) (s : Sessions) : Sessions * gset string :=
  let '(s, _, listed) := Refresh s listing in (s, running s listed).

Definition pollSessions (listing : option (list SessionInfo)) (answers : string -> replies) (order : list string) (now : time)
    (s : Sessions) (w : World) : option World :=
  let token := BeginPoll (state w) in
  let previous := InventoryStatus (state w) in
  let (s, run) := refreshSessions listing s in
  let w := set_sessions (Some s) w in
  match sampleSessions previous now answers order w with
  | Err w => Some w
  | Ok w =>
      let w := set_failures 0 w in
      let w := set_views (keep (views w) run) w in
      let '(l, ws, w) := mergeViews w in
      finishPoll l ws token previous now w
  end.

Definition pollBase (c : replies) (now : time) (w : World) : option World :=
  let token := BeginPoll (state w) in
  let previous := InventoryStatus (state w) in
  match collectBase hostname c with
  | Err refused => Some (failPoll previous refused now (match GetInventory c with Ok _ => set_failures 0 w | Err _ => w end))
  | Ok t => finishPoll (enrich (v_agents t)) (v_workspaces t) token previous now (set_failures 0 w)
  end.

(** [order] is the order in which the map of running sessions is walked *)
Definition poll (listing : option (list SessionInfo)) (answers : string -> replies) (order : list string) (now : time) (w : World)
    : option World :=
  match sessions w with
  | Some s => pollSessions listing answers order now s w
  | None => pollBase (answers ""%string) now w
  end.

(** ** The event streams *)

Definition eventAgents (prefix : string) (tabs : list Tab) (panes : list Pane) (ws : list Workspace) : sessionTopology :=
  let '(ws, tabs, panes) := QualifyTopology prefix ws tabs panes in
  mkTopology (agentsFromTopology hostname prefix panes tabs) ws.

(** the union of the sessions, one of which changed *)
Definition eventUnion (prefix : string) (t : sessionTopology) (w : World) : list AgentState * list Workspace * World :=
  match sessions w with
  | Some _ => mergeViews (set_views (set (views w) prefix t) w)
  | None => (enrich (v_agents t), v_workspaces t, w)
  end.

Definition commitEventTopology (prefix : string) (tabs : list Tab) (panes : list Pane) (ws : list Workspace) (baseRevision : Z)
    (now : time) (w : World) : option World :=
  let previous := InventoryStatus (state w) in
  let '(l, ws, w) := eventUnion prefix (eventAgents prefix tabs panes ws) w in
  let? o := commitEvents l ws baseRevision now (set_failures 0 w) in
  let '(w, changed) := (o : World * bool) in
  Some (notifyAll previous changed w).

(** [setLive] of a stream *)
Definition setLive (live next : bool) (w : World) : bool * World :=
  if Bool.eqb next live then (live, w) else (next, set_streams (if next then streams w + 1 else streams w - 1) w).

(** ** Goroutines *)

(** what a goroutine commits at the end: a poll sample, or the topology of an event *)
Inductive commit := PollCommit (token : PollToken) | EventCommit (baseRevision : Z).

(** where a goroutine stands between two locks *)
Inductive job :=
| Sampling (token : PollToken) (previous : status) (run : gset string) (todo : list string)
| Merging (c : commit) (previous : status)
| Committing (c : commit) (l : list AgentState) (ws : list Workspace) (previous : status)
| Telling (previous : status) (changed : bool)
| TellingAgents (changed : bool)
| TellingWorkspaces.

(** the next stretch of a goroutine *)
Definition turn (answers : string -> replies) (now : time) (j : job) (w : World) : option (World * option job) :=
  match j with
  | Sampling token previous run [] =>
      let w := set_failures 0 w in
      Some (set_views (keep (views w) run) w, Some (Merging (PollCommit token) previous))
  | Sampling token previous run (p :: todo) =>
      match sampleSession previous now answers w p with
      | Ok w => Some (w, Some (Sampling token previous run todo))
      | Err w => Some (w, None)
      end
  | Merging c previous => let '(l, ws, w) := mergeViews w in Some (w, Some (Committing c l ws previous))
  | Committing (PollCommit token) l ws previous =>
      let? o := commitSample l ws token now w in
      let '(w, (changed, committed)) := (o : World * (bool * bool)) in
      if committed then Some (set_retries 0 w, Some (Telling previous changed)) else Some (handleTopologyStale previous now w, None)
  | Committing (EventCommit base) l ws previous =>
      let? o := commitEvents l ws base now (set_failures 0 w) in
      let '(w, changed) := (o : World * bool) in Some (w, Some (Telling previous changed))
  | Telling previous changed => Some (notifyStatusChange previous w, Some (TellingAgents changed))
  | TellingAgents changed => Some (notifyAgentsChanged w, if changed then Some TellingWorkspaces else None)
  | TellingWorkspaces => Some (notifyWorkspacesChanged w, None)
  end.

(** the turns of one goroutine that nothing interrupts *)
Fixpoint alone (answers : string -> replies) (now : time) (fuel : nat) (j : option job) (w : World) : option World :=
  match j with
  | None => Some w
  | Some j =>
      match fuel with
      | O => None
      | S fuel => let? o := turn answers now j w in let '(w, j) := (o : World * option job) in alone answers now fuel j w
      end
  end.

(** [dirty]: another part of the relay changed the state since the last broadcast *)
Record Cfg := mkCfg { world : World; jobs : list job; dirtyAgents : bool; dirtyWorkspaces : bool }.

Definition tellsAgents (j : job) : bool := match j with Telling _ _ | TellingAgents _ => true | _ => false end.
Definition tellsWorkspaces (j : job) : bool :=
  match j with Telling _ changed | TellingAgents changed => changed | TellingWorkspaces => true | _ => false end.

Inductive step : Cfg -> Cfg -> Prop :=
| step_turn answers now w w' js1 j js2 next dA dW :
    turn answers now j w = Some (w', next) ->
    step (mkCfg w (js1 ++ j :: js2) dA dW)
         (mkCfg w' (js1 ++ option_list next ++ js2)
            (match j with TellingAgents _ => false | _ => dA end) (match j with TellingWorkspaces => false | _ => dW end))
| step_poll w js dA dW s listing order :
    sessions w = Some s ->
    step (mkCfg w js dA dW)
         (let (s', run) := refreshSessions listing s in
          mkCfg (set_wakeup false (set_sessions (Some s') w))
            (Sampling (BeginPoll (state w)) (InventoryStatus (state w)) run order :: js) dA dW)
| step_event w js dA dW prefix t baseRevision :
    step (mkCfg w js dA dW)
         (mkCfg (set_views (set (views w) prefix t) w) (Merging (EventCommit baseRevision) (InventoryStatus (state w)) :: js) dA dW)
| step_gone w js dA dW prefix :
    step (mkCfg w js dA dW) (mkCfg (set_views (HerdrSessions.drop (views w) prefix) w) js dA dW)
| step_live w js dA dW live next :
    step (mkCfg w js dA dW) (mkCfg (setLive live next w).2 js dA dW)
| step_wake w js dA dW : step (mkCfg w js dA dW) (mkCfg (Wake w) js dA dW)
| step_other w js dA dW s : step (mkCfg w js dA dW) (mkCfg (set_state s w) js true true).

Definition startWorld (s : State) (sess : option Sessions) : World := mkWorld s sess ∅ 0 0 false 0 None None [].
Definition start (s : State) (sess : option Sessions) : Cfg := mkCfg (startWorld s sess) [] true true.

(** ** What the phones were sent *)

Definition sentAgents (l : list output) : list (list AgentState) := omap (fun o => match o with AgentsOut a => Some a | _ => None end) l.
Definition sentWorkspaces (l : list output) : list (list Workspace) := omap (fun o => match o with WorkspacesOut a => Some a | _ => None end) l.
Definition agentsNow (w : World) : option J := marshalAgents (comparable (Snapshot (state w))).
Definition workspacesNow (w : World) : option J := marshalWorkspaces (workspaces (state w)).

Definition distinctNext {A} (f : A -> option J) (l : list A) : Prop :=
  forall i a b, l !! i = Some a -> l !! S i = Some b -> f a <> f b.

Lemma distinctNext_snoc {A} (f : A -> option J) l x :
  distinctNext f l -> (forall y, last l = Some y -> f y <> f x) -> distinctNext f (l ++ [x]).
Proof.
  intros H Hx i a b Ha Hb. apply lookup_lt_Some in Hb as Hlt. rewrite length_app in Hlt. cbn in Hlt.
  rewrite lookup_app_l in Ha by lia. destruct (decide (S i < length l)%nat) as [Hi|Hi].
  - rewrite lookup_app_l in Hb by lia. by apply (H i).
  - rewrite lookup_app_r in Hb by lia. replace (S i - length l)%nat with 0%nat in Hb by lia. injection Hb as <-.
    apply Hx. rewrite last_lookup. replace (pred (length l)) with i by lia. done.
Qed.

Section Invariant.
Context (total : forall l, is_Some (marshalAgents l)) (totalWs : forall l, is_Some (marshalWorkspaces l)).

Record Inv (c : Cfg) : Prop := mkInv {
  inv_agents : dirtyAgents c = false -> existsb tellsAgents (jobs c) = false -> lastAgentsJSON (world c) = agentsNow (world c);
  inv_workspaces : dirtyWorkspaces c = false -> existsb tellsWorkspaces (jobs c) = false -> lastWorkspacesJSON (world c) = workspacesNow (world c);
  inv_sent : (last (sentAgents (out (world c))) ≫= fun l => marshalAgents (comparable l)) = lastAgentsJSON (world c);
  inv_sentWs : (last (sentWorkspaces (out (world c))) ≫= marshalWorkspaces) = lastWorkspacesJSON (world c);
  inv_distinct : distinctNext (fun l => marshalAgents (comparable l)) (sentAgents (out (world c)));
  inv_distinctWs : distinctNext marshalWorkspaces (sentWorkspaces (out (world c)))
}.

(** the same for the phones: nothing sent, nothing new to show *)
Record outsSame (w w' : World) : Prop := mkOuts {
  os_agents : lastAgentsJSON w' = lastAgentsJSON w;
  os_workspaces : lastWorkspacesJSON w' = lastWorkspacesJSON w;
  os_sent : sentAgents (out w') = sentAgents (out w);
  os_sentWs : sentWorkspaces (out w') = sentWorkspaces (out w)
}.
Record same (w w' : World) : Prop := mkSameW {
  same_outs : outsSame w w';
  same_now : agentsNow w' = agentsNow w;
  same_nowWs : workspacesNow w' = workspacesNow w
}.

Lemma outsSame_trans w1 w2 w3 : outsSame w1 w2 -> outsSame w2 w3 -> outsSame w1 w3.
Proof. intros [] []. split; congruence. Qed.
Lemma same_trans w1 w2 w3 : same w1 w2 -> same w2 w3 -> same w1 w3.
Proof. intros [H1 ??] [H2 ??]. split; [by eapply outsSame_trans|congruence|congruence]. Qed.

Lemma outs_emit o w : (forall l, o <> AgentsOut l) -> (forall l, o <> WorkspacesOut l) -> outsSame w (emit o w).
Proof.
  intros H1 H2. split; [done|done| |]; cbn; unfold sentAgents, sentWorkspaces; rewrite omap_app; destruct o; cbn; rewrite ?app_nil_r; try done.
  - by destruct (H1 l).
  - by destruct (H2 l).
Qed.

Lemma same_emit o w : (forall l, o <> AgentsOut l) -> (forall l, o <> WorkspacesOut l) -> same w (emit o w).
Proof. intros H1 H2. split; [by apply outs_emit|done|done]. Qed.

Lemma same_status previous w : same w (notifyStatusChange previous w).
Proof. unfold notifyStatusChange. case_match; [by apply same_emit|by split]. Qed.

Lemma same_inventory i w : same w (set_state (set_inventory i (state w)) w).
Proof. by split. Qed.

Lemma same_stale previous now w : same w (handleTopologyStale previous now w).
Proof.
  unfold handleTopologyStale. cbn zeta. case_match; [by split|]. eapply same_trans; [|apply same_status]. by split.
Qed.
Lemma same_fail previous refused now w : same w (failPoll previous refused now w).
Proof. unfold failPoll. eapply same_trans; [|apply same_status]. by split. Qed.

Lemma same_sample previous now answers w p :
  match sampleSession previous now answers w p with Ok w' => same w w' | Err w' => same w w' end.
Proof.
  unfold sampleSession. destruct (_ ≫= _); [|by split]. destruct (collectSession _ _ _); [by split|].
  destruct (String.eqb p ""); [apply same_fail|by split].
Qed.

(** ** Commits do not touch the workspaces behind the back of the poller *)

Ltac untouched := repeat (case_match; simplify_eq/=); reflexivity.

Lemma register_workspaces s id prev status attention : workspaces (registerTransition s id prev status attention).1 = workspaces s.
Proof. unfold registerTransition. untouched. Qed.
Lemma restoreSeen_workspaces s cp b : workspaces (restoreSeen s cp b) = workspaces s.
Proof. unfold restoreSeen. untouched. Qed.
Lemma syncTriage_workspaces s cp : workspaces (syncTriageLocked sha256hex s cp).1 = workspaces s.
Proof. unfold syncTriageLocked. untouched. Qed.
Lemma syncAttention_workspaces s id a b : workspaces (syncAttentionCompletionLocked s id a b) = workspaces s.
Proof. unfold syncAttentionCompletionLocked. untouched. Qed.
Lemma blockedCycle_workspaces s cp existing now : workspaces (applyBlockedCycleLocked draw s cp existing now).1 = workspaces s.
Proof. unfold applyBlockedCycleLocked, newBlockedEventIDLocked. untouched. Qed.
Lemma applyPending_workspaces s cp now : workspaces (applyPending s cp now).1.1 = workspaces s.
Proof. unfold applyPending. untouched. Qed.

Lemma installAgent_workspaces s cp existing b : workspaces (installAgent sha256hex s cp existing b).1.1 = workspaces s.
Proof.
  unfold installAgent. cbn zeta.
  pose proof (register_workspaces (putAgent s (PaneID (info cp)) cp) (PaneID (info cp)) (default "" (prevStatus s !! PaneID (info cp)))
    (Status cp) (from_option (fun e => AttentionKind (blocked e)) "" existing)) as H1.
  destruct (registerTransition _ _ _ _ _) as [s1 e1]. cbn in H1.
  pose proof (syncTriage_workspaces (restoreSeen s1 cp (bool_decide (is_Some existing))) cp) as H2.
  destruct (syncTriageLocked _ _ _) as [s2 synced]. cbn in H2 |- *. rewrite restoreSeen_workspaces, H1 in H2.
  destruct (negb _); [by rewrite syncAttention_workspaces|done].
Qed.

Lemma prepareAgent_workspaces b base now s a : workspaces (prepareAgent sha256hex draw b base now s a).1.1.1 = workspaces s.
Proof.
  unfold prepareAgent. destruct (continuing s a) as [existing replaced].
  set (s1 := if replaced then endSession s _ else s). assert (H1 : workspaces s1 = workspaces s) by (unfold s1; by destruct replaced).
  set (s2 := if _ && _ then BumpGeneration s1 _ else s1). assert (H2 : workspaces s2 = workspaces s) by (unfold s2; by destruct (_ && _)).
  pose proof (applyPending_workspaces s2 (carryOver sha256hex s1 a existing base) now) as H3.
  destruct (applyPending _ _ _) as [[s3 cp3] pt]. cbn in H3.
  pose proof (blockedCycle_workspaces s3 (stampUpdated cp3 existing pt b now) existing now) as H4.
  destruct (applyBlockedCycleLocked _ _ _ _ _) as [s4 cp4]. cbn in H4 |- *.
  destruct (_ || _); destruct (negb (blockedDetailsEqual existing (Some cp4))); cbn; congruence.
Qed.

Lemma commitInventory_workspaces s l base now s' eff :
  commitInventoryLocked sha256hex draw s (Some <$> l) base now = Some (s', eff) -> workspaces s' = workspaces s.
Proof.
  unfold commitInventoryLocked. rewrite mapM_fmap_Some by done. cbn [mbind option_bind]. cbn zeta.
  set (s0 := set_inventory _ _).
  assert (H0 : workspaces s0 = workspaces s) by (unfold s0; by destruct (topologyChangedBy s l)).
  assert (Hf : forall l acc, workspaces (foldl (commitAgent sha256hex draw (negb (inventoryReady (inventory s))) base now) acc l).1.1 = workspaces acc.1.1).
  { intros l'. induction l' as [|a l' IH]; intros [[s1 d1] e1]; [done|]. cbn [foldl]. rewrite IH. unfold commitAgent.
    pose proof (prepareAgent_workspaces (negb (inventoryReady (inventory s))) base now s1 a) as H1.
    destruct (prepareAgent sha256hex draw _ base now s1 a) as [[[s2 cp] ex] ac]. pose proof (installAgent_workspaces s2 cp ex ac) as H2.
    destruct (installAgent sha256hex s2 cp ex ac) as [[s3 sy] e]. cbn in *. congruence. }
  specialize (Hf l (s0, false, [])). destruct (foldl _ _ l) as [[s1 dirty] e1]. cbn in Hf.
  assert (Hg : forall ids x, workspaces (foldl forgetPane x ids) = workspaces x)
    by (intros ids; induction ids as [|i ids IH]; intros x; [done|]; cbn; by rewrite IH).
  destruct dirty; [unfold persistTriageLocked; destruct (String.eqb _ _)|]; cbn; intros E; simplify_eq/=; rewrite Hg; congruence.
Qed.

Lemma commitWorkspaces_kept s ws : (commitWorkspacesLocked s ws).2 = false -> workspaces (commitWorkspacesLocked s ws).1 = workspaces s.
Proof. unfold commitWorkspacesLocked. by destruct (workspacesEqual _ _). Qed.

Lemma outs_commit s eff w : outsSame w (emit (StateOut eff) (set_state s w)).
Proof. destruct (outs_emit (StateOut eff) (set_state s w)); [done|done|by split]. Qed.

Lemma commitSample_outs l ws token now w w' changed committed :
  commitSample l ws token now w = Some (w', (changed, committed)) ->
  outsSame w w' /\ (changed = false -> workspacesNow w' = workspacesNow w) /\ (committed = false -> same w w').
Proof.
  unfold commitSample, CommitPoll. destruct (negb _).
  { cbn. intros [= <- <- <-]. split_and!; [apply outs_commit|done|].
    intros _. eapply same_trans; [|by apply same_emit]. by split. }
  pose proof (commitWorkspaces_kept (state w) ws) as Hk. destruct (commitWorkspacesLocked (state w) ws) as [s1 wc]. cbn in Hk.
  destruct (commitInventoryLocked _ _ _ _ _ _) as [[s2 eff]|] eqn:E; [|done]. cbn. intros [= <- <- <-].
  apply commitInventory_workspaces in E. split_and!; [apply outs_commit| |done].
  intros ->. unfold workspacesNow. cbn. by rewrite E, Hk.
Qed.

Lemma commitEvents_outs l ws base now w w' changed :
  commitEvents l ws base now w = Some (w', changed) ->
  outsSame w w' /\ (changed = false -> workspacesNow w' = workspacesNow w).
Proof.
  unfold commitEvents, CommitTopology, commitTopologyLocked.
  pose proof (commitWorkspaces_kept (state w) ws) as Hk. destruct (commitWorkspacesLocked (state w) ws) as [s1 wc]. cbn in Hk.
  set (s1' := if wc then _ else s1). assert (H1 : workspaces s1' = workspaces s1) by (unfold s1'; by destruct wc).
  rewrite <- list_fmap_compose. change (option_map (topologyAgent s1') ∘ Some) with (fun a => Some (topologyAgent s1' a)).
  rewrite (list_fmap_compose (topologyAgent s1') Some).
  destruct (commitInventoryLocked _ _ _ _ _ _) as [[s2 eff]|] eqn:E; [|done]. cbn. intros [= <- <-].
  apply commitInventory_workspaces in E. split; [apply outs_commit|].
  intros ->. unfold workspacesNow. cbn. by rewrite E, H1, Hk.
Qed.

(** ** The broadcasts keep up *)

Lemma existsb_middle (f : job -> bool) js1 x js2 :
  existsb f (js1 ++ x ++ js2) = existsb f js1 || existsb f x || existsb f js2.
Proof. by rewrite !existsb_app, orb_assoc. Qed.

Lemma existsb_at (f : job -> bool) js1 j js2 : existsb f (js1 ++ j :: js2) = existsb f js1 || f j || existsb f js2.
Proof. rewrite existsb_app. cbn. by rewrite orb_assoc. Qed.

(** a turn that only moves on: the jobs that tell stay as they are *)
Lemma Inv_same w w' js js' dA dW :
  Inv (mkCfg w js dA dW) -> same w w' ->
  (existsb tellsAgents js' = false -> existsb tellsAgents js = false) ->
  (existsb tellsWorkspaces js' = false -> existsb tellsWorkspaces js = false) -> Inv (mkCfg w' js' dA dW).
Proof.
  intros [H1 H2 H3 H4 H5 H6] [[E1 E2 E3 E4] N1 N2] HA HW. cbn in *. split; cbn; rewrite ?E1, ?E2, ?E3, ?E4, ?N1, ?N2; auto.
Qed.

(** a commit: what changed is told later *)
Lemma Inv_commit w w' js js' dA dW :
  Inv (mkCfg w js dA dW) -> outsSame w w' -> existsb tellsAgents js' = true ->
  (existsb tellsWorkspaces js' = false -> existsb tellsWorkspaces js = false /\ workspacesNow w' = workspacesNow w) ->
  Inv (mkCfg w' js' dA dW).
Proof.
  intros [H1 H2 H3 H4 H5 H6] [E1 E2 E3 E4] HA HW. cbn in *. split; cbn; rewrite ?E1, ?E2, ?E3, ?E4, ?HA; auto; try done.
  intros Hd Hj. destruct (HW Hj) as [Hj' ->]. auto.
Qed.

Lemma sentAgents_snoc l a : sentAgents (l ++ [AgentsOut a]) = sentAgents l ++ [a].
Proof. unfold sentAgents. by rewrite omap_app. Qed.
Lemma sentWorkspaces_snoc l a : sentWorkspaces (l ++ [WorkspacesOut a]) = sentWorkspaces l ++ [a].
Proof. unfold sentWorkspaces. by rewrite omap_app. Qed.
Lemma sentWorkspaces_agents l a : sentWorkspaces (l ++ [AgentsOut a]) = sentWorkspaces l.
Proof. unfold sentWorkspaces. by rewrite omap_app, app_nil_r. Qed.
Lemma sentAgents_workspaces l a : sentAgents (l ++ [WorkspacesOut a]) = sentAgents l.
Proof. unfold sentAgents. by rewrite omap_app, app_nil_r. Qed.

Lemma Inv_tellAgents w js1 js2 changed dA dW :
  Inv (mkCfg w (js1 ++ TellingAgents changed :: js2) dA dW) ->
  Inv (mkCfg (notifyAgentsChanged w) (js1 ++ option_list (if changed then Some TellingWorkspaces else None) ++ js2) false dW).
Proof using total.
  intros [H1 H2 H3 H4 H5 H6]. cbn in *.
  assert (HW : existsb tellsWorkspaces (js1 ++ option_list (if changed then Some TellingWorkspaces else None) ++ js2) =
               existsb tellsWorkspaces (js1 ++ TellingAgents changed :: js2)).
  { rewrite existsb_middle, existsb_at. by destruct changed. }
  unfold notifyAgentsChanged. cbn zeta. destruct (total (comparable (Snapshot (state w)))) as [e Ee]. rewrite Ee.
  case_bool_decide as Hl.
  { split; cbn; rewrite ?HW; auto. intros _ _. rewrite Hl. unfold agentsNow. by rewrite Ee. }
  split; cbn; rewrite ?HW, ?sentAgents_snoc, ?sentWorkspaces_agents, ?last_snoc; cbn; auto.
  apply distinctNext_snoc; [done|]. intros y Hy. rewrite Hy in H3. cbn in H3. rewrite H3, Ee. done.
Qed.

Lemma Inv_tellWorkspaces w js1 js2 dA dW :
  Inv (mkCfg w (js1 ++ TellingWorkspaces :: js2) dA dW) ->
  Inv (mkCfg (notifyWorkspacesChanged w) (js1 ++ js2) dA false).
Proof using totalWs.
  intros [H1 H2 H3 H4 H5 H6]. cbn in *.
  assert (HA : existsb tellsAgents (js1 ++ js2) = existsb tellsAgents (js1 ++ TellingWorkspaces :: js2))
    by (rewrite existsb_at, existsb_app; cbn; by rewrite orb_false_r).
  unfold notifyWorkspacesChanged. cbn zeta. destruct (totalWs (workspaces (state w))) as [e Ee]. rewrite Ee.
  case_bool_decide as Hl.
  { split; cbn; rewrite ?HA; auto. intros _ _. rewrite Hl. unfold workspacesNow. by rewrite Ee. }
  split; cbn; rewrite ?HA, ?sentWorkspaces_snoc, ?sentAgents_workspaces, ?last_snoc; cbn; auto.
  apply distinctNext_snoc; [done|]. intros y Hy. rewrite Hy in H4. cbn in H4. rewrite H4, Ee. done.
Qed.

Ltac rest := first [done | rewrite existsb_middle, existsb_at; cbn; by rewrite ?orb_false_r | idtac].

Lemma Inv_turn answers now w w' js1 j js2 next dA dW :
  Inv (mkCfg w (js1 ++ j :: js2) dA dW) -> turn answers now j w = Some (w', next) ->
  Inv (mkCfg w' (js1 ++ option_list next ++ js2)
        (match j with TellingAgents _ => false | _ => dA end) (match j with TellingWorkspaces => false | _ => dW end)).
Proof using total totalWs.
  intros HI Ht.
  destruct j as [token previous run [|p todo]|c previous|[token|base] l ws previous|previous changed|changed|]; cbn in Ht.
  - simplify_eq. eapply Inv_same; [exact HI|by split|rest|rest].
  - pose proof (same_sample previous now answers w p) as Hs.
    destruct (sampleSession _ _ _ _ _); simplify_eq; (eapply Inv_same; [exact HI|exact Hs|rest|rest]).
  - simplify_eq. eapply Inv_same; [exact HI|by split|rest|rest].
  - destruct (commitSample l ws token now w) as [[w1 [changed committed]]|] eqn:E; [|done]. cbn in Ht.
    apply commitSample_outs in E as (H1 & H2 & H3). destruct committed; simplify_eq.
    + eapply Inv_commit; [exact HI|destruct H1; by split|rewrite existsb_middle; cbn; by rewrite orb_true_r|].
      rewrite existsb_middle, existsb_at. cbn. rewrite !orb_false_r. intros [[-> ->]%orb_false_iff ->]%orb_false_iff. split; [done|]. by apply H2.
    + eapply Inv_same; [exact HI| |rest|rest]. eapply same_trans; [by apply H3|apply same_stale].
  - destruct (commitEvents l ws base now (set_failures 0 w)) as [[w1 changed]|] eqn:E; [|done]. cbn in Ht. simplify_eq.
    apply commitEvents_outs in E as (H1 & H2).
    eapply Inv_commit; [exact HI|destruct H1; by split|rewrite existsb_middle; cbn; by rewrite orb_true_r|].
    rewrite existsb_middle, existsb_at. cbn. rewrite !orb_false_r. intros [[-> ->]%orb_false_iff ->]%orb_false_iff. split; [done|]. by apply H2.
  - simplify_eq. eapply Inv_same; [exact HI|apply same_status|rest|rest].
  - simplify_eq. by eapply Inv_tellAgents.
  - simplify_eq. by eapply Inv_tellWorkspaces.
Qed.

Lemma Inv_step c c' : Inv c -> step c c' -> Inv c'.
Proof using total totalWs.
  intros HI Hs. destruct Hs.
  - by eapply Inv_turn.
  - destruct (refreshSessions listing s) as [s' run]. eapply Inv_same; [exact HI|by split|done|done].
  - eapply Inv_same; [exact HI|by split|done|done].
  - eapply Inv_same; [exact HI|by split|done|done].
  - eapply Inv_same; [exact HI| |done|done]. unfold setLive. destruct (Bool.eqb _ _); by split.
  - eapply Inv_same; [exact HI|by split|done|done].
  - destruct HI as [H1 H2 H3 H4 H5 H6]. by split.
Qed.

Lemma Inv_reached s sess c : rtc step (start s sess) c -> Inv c.
Proof using total totalWs.
  intros H. remember (start s sess) as c0 eqn:E0. assert (H0 : Inv c0) by (subst; split; cbn; try done; by intros i a b []%lookup_nil_Some || intros i a b Hi; done).
  clear E0. induction H; [done|]. eauto using Inv_step.
Qed.

(** C24: the phones are not left behind and not told twice.  In every interleaving of
    polls, event streams and other changes: once no commit is waiting to be told and
    nothing else changed the state, the last agents that were broadcast are those the
    state shows, revisions aside, and the same for workspaces; and no broadcast repeats
    the one before it. *)
Theorem broadcasts_keep_up s sess c :
  rtc step (start s sess) c ->
  (dirtyAgents c = false -> existsb tellsAgents (jobs c) = false ->
   exists l, last (sentAgents (out (world c))) = Some l /\ marshalAgents (comparable l) = agentsNow (world c)) /\
  (dirtyWorkspaces c = false -> existsb tellsWorkspaces (jobs c) = false ->
   exists l, last (sentWorkspaces (out (world c))) = Some l /\ marshalWorkspaces l = workspacesNow (world c)) /\
  distinctNext (fun l => marshalAgents (comparable l)) (sentAgents (out (world c))) /\
  distinctNext marshalWorkspaces (sentWorkspaces (out (world c))).
Proof using total totalWs.
  intros Hr. destruct (Inv_reached _ _ _ Hr) as [H1 H2 H3 H4 H5 H6]. split_and!; [| |done|done].
  - intros Hd Hj. rewrite (H1 Hd Hj) in H3. destruct (last (sentAgents _)) as [l|]; [by exists l|].
    destruct (total (comparable (Snapshot (state (world c))))) as [e Ee]. unfold agentsNow in H3. by rewrite Ee in H3.
  - intros Hd Hj. rewrite (H2 Hd Hj) in H4. destruct (last (sentWorkspaces _)) as [l|]; [by exists l|].
    destruct (totalWs (workspaces (state (world c)))) as [e Ee]. unfold workspacesNow in H4. by rewrite Ee in H4.
Qed.
End Invariant.

(** ** A poll is its turns *)

Lemma commit_total s l base now : is_Some (commitInventoryLocked sha256hex draw s (Some <$> l) base now).
Proof.
  unfold commitInventoryLocked. rewrite mapM_fmap_Some by done. cbn [mbind option_bind]. cbn zeta.
  destruct (foldl _ _ l) as [[s1 dirty] e1]. destruct dirty; [destruct (persistTriageLocked _ _)|]; by eexists.
Qed.

Lemma commitSample_total l ws token now w : is_Some (commitSample l ws token now w).
Proof.
  unfold commitSample, CommitPoll. destruct (negb _); [by eexists|]. destruct (commitWorkspacesLocked (state w) ws) as [s1 wc].
  destruct (commit_total s1 l (BaseRevision token) now) as [[s2 eff] ->]. by eexists.
Qed.

Lemma finishPoll_alone answers now fuel l ws token previous w :
  alone answers now (4 + fuel) (Some (Committing (PollCommit token) l ws previous)) w = finishPoll l ws token previous now w.
Proof.
  unfold finishPoll. cbn [alone Nat.add turn]. destruct (commitSample_total l ws token now w) as [[w1 [changed committed]] ->]. cbn.
  destruct committed; [|by destruct fuel]. unfold notifyAll. by destruct changed, fuel.
Qed.

(** A poll that nothing interrupts is the poll as it is written: the turns of its
    goroutine, run one after the other, end and give what the poll gives. *)
Theorem poll_is_its_turns listing answers order now s w :
  sessions w = Some s ->
  let (s', run) := refreshSessions listing s in
  alone answers now (length order + 6) (Some (Sampling (BeginPoll (state w)) (InventoryStatus (state w)) run order)) (set_sessions (Some s') w) =
    poll listing answers order now w /\ is_Some (poll listing answers order now w).
Proof.
  intros Hs. unfold poll, pollSessions. rewrite Hs. destruct (refreshSessions listing s) as [s' run].
  set (token := BeginPoll (state w)). set (previous := InventoryStatus (state w)). generalize (set_sessions (Some s') w) as w0.
  induction order as [|p order IH]; intros w0; cbn [sampleSessions length Nat.add].
  - cbn [alone turn]. cbn -[alone finishPoll mergeViews]. destruct (mergeViews _) as [[l ws] w1]. cbn -[alone finishPoll].
    split; [exact (finishPoll_alone answers now 0 l ws token previous w1)|]. unfold finishPoll.
    destruct (commitSample_total l ws token now w1) as [[w2 [changed committed]] ->]. cbn. by destruct committed.
  - cbn [alone turn]. destruct (sampleSession previous now answers w0 p) as [w1|w1]; cbn -[alone sampleSessions].
    + apply IH.
    + destruct (length order + 6)%nat eqn:E; [lia|]. split; [done|by eexists].
Qed.

(** ** The panes of different sessions *)

Definition paneIds (t : sessionTopology) : list string := (fun a => PaneID (info a)) <$> v_agents t.

(** ids as herdr gives them *)
Definition rawIds (l : list Pane) : Prop :=
  NoDup (pane_ID <$> l) /\ Forall (fun id => id <> ""%string /\ containsChar sessionSeparator id = false) (pane_ID <$> l).
Definition wellNumbered (c : replies) : Prop :=
  (forall l, GetInventory c = Ok l -> rawIds l) /\ (forall l, PaneList c = Ok l -> rawIds l).

Lemma agents_ids session panes tabs : ((fun a => PaneID (info a)) <$> agentsFromTopology hostname session panes tabs) = pane_ID <$> panes.
Proof.
  unfold agentsFromTopology. rewrite <- list_fmap_compose. apply list_fmap_ext. intros i p _. cbn. unfold paneAgent.
  by destruct (match _ with Some _ => _ | None => _ end).
Qed.

Lemma qualified_ids prefix panes : (pane_ID <$> (QualifyTopology prefix [] [] panes).2) = QualifyID prefix <$> (pane_ID <$> panes).
Proof.
  unfold QualifyTopology. destruct (String.eqb prefix "") eqn:E; cbn.
  - apply String.eqb_eq in E as ->. rewrite <- (list_fmap_id (pane_ID <$> panes)) at 1. apply list_fmap_ext. intros. done.
  - rewrite <- !list_fmap_compose. by apply list_fmap_ext.
Qed.

Lemma withShell_nodup a b : NoDup (pane_ID <$> a) -> NoDup (pane_ID <$> b) -> NoDup (pane_ID <$> withShellPanes a b).
Proof.
  intros Ha Hb. unfold withShellPanes. rewrite fmap_app. apply NoDup_app. split_and!; [done| |].
  - intros id Hin (p & -> & Hp)%list_elem_of_fmap. apply list_elem_of_filter in Hp as [[_ Hn] _]. done.
  - clear Ha. induction b as [|p b IH]; [done|]. cbn in Hb. apply NoDup_cons in Hb as [Hn Hb]. rewrite filter_cons.
    case_decide; [|by apply IH]. cbn. apply NoDup_cons. split; [|by apply IH].
    intros (q & Eq & Hq)%list_elem_of_fmap. apply list_elem_of_filter in Hq as [_ Hq]. apply Hn. rewrite Eq. by apply list_elem_of_fmap_2.
Qed.

(** the ids of a collected session are ids of herdr with the prefix *)
Lemma collected_ids prefix c t :
  wellNumbered c -> containsChar sessionSeparator prefix = false -> collectSession hostname prefix c = Ok t ->
  NoDup (paneIds t) /\ forall id, id ∈ paneIds t -> exists raw, SplitID id = (prefix, raw).
Proof.
  intros [Hi Hp] Hpre. unfold collectSession. destruct (GetInventory c) as [inv|] eqn:Ei; [|done]. cbn.
  destruct (WorkspaceList c) as [ws|]; [|done]. cbn. specialize (Hi inv eq_refl) as [Hn Hr].
  set (ws' := hydrateWorkspaceCwds _ _ _). set (tabs := orElse (TabList c) []).
  assert (Eq : exists a b, QualifyTopology prefix ws' tabs inv = (a, b, (QualifyTopology prefix [] [] inv).2))
    by (unfold QualifyTopology; destruct (String.eqb prefix ""); by eexists _, _).
  destruct Eq as (a & b & ->). intros [= <-]. unfold paneIds. cbn [v_agents]. rewrite agents_ids.
  assert (Hinj : forall l, rawIds l -> NoDup (pane_ID <$> (QualifyTopology prefix [] [] l).2) /\
            forall id, id ∈ (pane_ID <$> (QualifyTopology prefix [] [] l).2) -> exists raw, SplitID id = (prefix, raw)).
  { intros l [Hn' Hr']. rewrite qualified_ids. rewrite Forall_forall in Hr'. split.
    - apply NoDup_fmap_2_strong; [|done]. intros x y Hx Hy E. destruct (Hr' _ Hx), (Hr' _ Hy).
      apply (f_equal SplitID) in E. rewrite !split_qualify_id in E by done. by simplify_eq.
    - intros id (raw & -> & Hin)%list_elem_of_fmap. destruct (Hr' _ Hin). exists raw. by rewrite split_qualify_id. }
  destruct (Hinj inv (conj Hn Hr)) as [H1 H2]. destruct (PaneList c) as [topo|] eqn:Et; [|done].
  destruct (Hinj topo (Hp topo eq_refl)) as [H3 H4]. split; [by apply withShell_nodup|].
  intros id. unfold withShellPanes. rewrite fmap_app, elem_of_app. intros [Hin|(p & -> & Hin)%list_elem_of_fmap]; [by apply H2|].
  apply list_elem_of_filter in Hin as [_ Hin]. by apply H4, list_elem_of_fmap_2.
Qed.

Lemma concat_nodup {A} (f : A -> list string) (key : string -> A) l :
  NoDup l -> (forall x, x ∈ l -> NoDup (f x)) -> (forall x y, x ∈ l -> y ∈ f x -> key y = x) -> NoDup (concat (f <$> l)).
Proof.
  induction l as [|x l IH]; intros Hl Hn Hk; [apply NoDup_nil_2|]. apply NoDup_cons in Hl as [Hx Hl]. cbn. apply NoDup_app. split_and!.
  - apply Hn. by left.
  - intros y Hy. rewrite list_elem_of_In, in_concat. intros (ys & Hys & Hy').
    apply list_elem_of_In, list_elem_of_fmap in Hys as (x' & -> & Hx'). apply list_elem_of_In in Hy'.
    apply Hx. rewrite <- (Hk x y) by (done || by left). rewrite (Hk x' y) by (done || by right). done.
  - apply IH; [done| |]; intros; [apply Hn|apply (Hk x0)]; try done; by right.
Qed.

(** The union of the sessions has one entry per pane: panes of different sessions
    never share an id, although herdr numbers the panes of every session alike. *)
Theorem union_has_distinct_panes v :
  (forall p t, v !! p = Some t -> containsChar sessionSeparator p = false /\
     exists c, wellNumbered c /\ collectSession hostname p c = Ok t) ->
  NoDup ((fun a => PaneID (info a)) <$> (merged v).1).
Proof.
  intros Hv. unfold merged. cbn [fst].
  set (ps := sortPrefixes (map_to_list v).*1).
  assert (E : ((fun a => PaneID (info a)) <$> concat (v_agents <$> omap (fun p => v !! p) ps)) =
              concat ((fun p => from_option paneIds [] (v !! p)) <$> ps)).
  { clearbody ps. induction ps as [|p ps IH]; [done|]. cbn. destruct (v !! p) as [t|]; cbn; [rewrite fmap_app|]; by rewrite IH. }
  rewrite E. apply (concat_nodup _ (fun id => (SplitID id).1)).
  - unfold ps. rewrite sortPrefixes_perm. apply NoDup_fst_map_to_list.
  - intros p _. destruct (v !! p) as [t|] eqn:Et; [|apply NoDup_nil_2]. destruct (Hv p t Et) as (Hp & c & Hw & Hc). cbn.
    by destruct (collected_ids p c t Hw Hp Hc).
  - intros p y _ Hy. destruct (v !! p) as [t|] eqn:Et; [|by apply elem_of_nil in Hy]. destruct (Hv p t Et) as (Hp & c & Hw & Hc). cbn in Hy.
    destruct (collected_ids p c t Hw Hp Hc) as [_ H]. by destruct (H y Hy) as [raw ->].
Qed.
End Polling.

(** ** The directory of a workspace *)

Lemma shorterPath_fold l r :
  (foldl shorterPath r l = r /\ (forall c, c ∈ l -> c <> ""%string -> r <> ""%string /\ (String.length r <= String.length c)%nat)) \/
  (foldl shorterPath r l ∈ l /\ foldl shorterPath r l <> ""%string /\
   (r <> ""%string -> (String.length (foldl shorterPath r l) <= String.length r)%nat) /\
   forall c, c ∈ l -> c <> ""%string -> (String.length (foldl shorterPath r l) <= String.length c)%nat).
Proof.
  revert r. induction l as [|x l IH]; intros r; cbn [foldl].
  { left. split; [done|]. by intros c ?%elem_of_nil. }
  change (shorterPath r x) with (if String.eqb x "" || negb (String.eqb r "") && (String.length r <=? String.length x)%nat then r else x).
  destruct (String.eqb x "") eqn:Ex; cbn [orb].
  { apply String.eqb_eq in Ex as ->. destruct (IH r) as [[E H]|(H1 & H2 & H3 & H4)].
    - left. rewrite E. split; [done|]. intros c [->|Hc]%elem_of_cons ?; [done|by apply H].
    - right. split_and!; [by right|done|done|]. intros c [->|Hc]%elem_of_cons ?; [done|by apply H4]. }
  apply String.eqb_neq in Ex. destruct (negb (String.eqb r "") && (String.length r <=? String.length x)%nat) eqn:Er.
  - apply andb_true_iff in Er as [Hr Hl]. apply negb_true_iff, String.eqb_neq in Hr. apply Nat.leb_le in Hl.
    destruct (IH r) as [[E H]|(H1 & H2 & H3 & H4)].
    + left. rewrite E. split; [done|]. intros c [->|Hc]%elem_of_cons ?; [done|by apply H].
    + right. split_and!; [by right|done|done|]. intros c [->|Hc]%elem_of_cons ?; [specialize (H3 Hr); lia|by apply H4].
  - assert (Hrx : r <> ""%string -> (String.length x <= String.length r)%nat).
    { intros Hr. apply andb_false_iff in Er as [Er|Er]; [by apply negb_false_iff, String.eqb_eq in Er|apply Nat.leb_gt in Er; lia]. }
    destruct (IH x) as [[E H]|(H1 & H2 & H3 & H4)].
    + right. rewrite E. split_and!; [by left|done|done|]. intros c [->|Hc]%elem_of_cons ?; [done|by apply H].
    + right. specialize (H3 Ex). split_and!; [by right|done|intros Hr; specialize (Hrx Hr); lia|].
      intros c [->|Hc]%elem_of_cons ?; [done|by apply H4].
Qed.

Lemma noteCwd_fold l m id :
  id <> ""%string ->
  default ""%string (foldl noteCwd m l !! id) = foldl shorterPath (default ""%string (m !! id)) (snd <$> filter (fun wc => wc.1 = id) l).
Proof.
  intros Hid. revert m. induction l as [|[i c] l IH]; intros m; [done|]. cbn [foldl]. rewrite IH, filter_cons. cbn [fst].
  unfold noteCwd. cbn [fst snd]. destruct (decide (i = id)) as [->|Hne].
  - apply String.eqb_neq in Hid. rewrite Hid, lookup_insert_eq. done.
  - destruct (String.eqb i ""); [done|]. by rewrite lookup_insert_ne.
Qed.

(** A workspace without a checkout of its own gets the shortest directory that is
    known for it: the one of a tab or pane of the workspace, none of which is shorter,
    and none only when no tab or pane has one. *)
Theorem workspace_cwd_shortest ws tabs panes i w :
  hydrateWorkspaceCwds ws tabs panes !! i = Some w -> ws_Worktree w = None -> ws_ID w <> ""%string ->
  let known := snd <$> filter (fun wc => wc.1 = ws_ID w) (places tabs panes) in
  (ws_Cwd w ∈ known \/ ws_Cwd w = ""%string) /\
  forall c, c ∈ known -> c <> ""%string -> ws_Cwd w <> ""%string /\ (String.length (ws_Cwd w) <= String.length c)%nat.
Proof.
  unfold hydrateWorkspaceCwds. rewrite list_lookup_fmap. destruct (ws !! i) as [w0|]; [|done]. cbn. intros [= <-].
  unfold hydrate. destruct (ws_Worktree w0) as [t|] eqn:Ew.
  { destruct (String.eqb _ _); cbn; by rewrite Ew. }
  cbn. intros _ Hid. rewrite noteCwd_fold, lookup_empty by done. cbn.
  destruct (shorterPath_fold (snd <$> filter (fun wc => wc.1 = ws_ID w0) (places tabs panes)) "") as [[E H]|(H1 & H2 & _ & H4)].
  - rewrite E. split; [by right|]. intros c Hc Hne. by destruct (H c Hc Hne).
  - split; [by left|]. intros c Hc Hne. split; [done|by apply H4].
Qed.

(** ** Runs *)

Definition demoPane (id agent : string) : Pane :=
  mkPane id "" "t1" "" 0 "w1" agent "" "idle" false "/home/u/p" 0 0 0 "" "".
Definition answering (panes : list Pane) : replies := mkReplies (Ok panes) (Ok []) (Ok []) (Ok panes).
Definition demoSessions : Sessions := fst (fst (Refresh (NewSessions "/base.sock") (Some
  [mkSession "main" true true "/base.sock"; mkSession "side" false true "/side.sock"]))).

Definition encodeAll (l : list AgentState) : option (list string) := Some ((fun a => PaneID (info a) +:+ Status a) <$> l).
Definition encodeWs (l : list Workspace) : option (list string) := Some (ws_ID <$> l).
Definition demoTurn : (string -> replies) -> time -> job -> World -> option (World * option job) :=
  turn encodeAll encodeWs id (fun s => s) (fun _ => None) "host".
Definition demoAnswers (prefix : string) : replies := answering [demoPane "w1:p1" "claude"].
Definition demoWorld : World (J := list string) := startWorld NewState (Some demoSessions).
Definition demoPoll : option (World (J := list string)) :=
  poll encodeAll encodeWs id (fun s => s) (fun _ => None) "host" None demoAnswers [""; "side"]%string unixEpoch demoWorld.

Example poll_of_two_sessions :
  (fun w => (fun a => PaneID (info a)) <$> Snapshot (state w)) <$> demoPoll = Some ["side/w1:p1"; "w1:p1"]%string.
Proof. vm_compute. reflexivity. Qed.

Lemma poll_turns_witness :
  alone encodeAll encodeWs id (fun s => s) (fun _ => None) "host" demoAnswers unixEpoch 8
    (Some (Sampling (BeginPoll NewState) (InventoryStatus NewState) (refreshSessions None demoSessions).2 [""; "side"]%string))
    (set_sessions (Some (refreshSessions None demoSessions).1) demoWorld) = demoPoll.
Proof.
  destruct (poll_is_its_turns encodeAll encodeWs id (fun s => s) (fun _ => None) "host" None demoAnswers [""; "side"]%string unixEpoch
    demoSessions demoWorld eq_refl) as [H _]. exact H.
Defined.

(** the turn of a goroutine in the runs below *)
Definition after (wj : World (J := list string) * option job) : World (J := list string) * option job :=
  match wj.2 with
  | Some j => default wj (demoTurn demoAnswers unixEpoch j wj.1)
  | None => wj
  end.
Definition eventIn (prefix : string) (panes : list Pane) (w : World (J := list string)) : World (J := list string) * option job :=
  (set_views (set (views w) prefix (eventAgents "host" prefix [] panes [])) w,
   Some (Merging (EventCommit (revCounter (state w))) (InventoryStatus (state w)))).

Definition demoEvent : nat -> World (J := list string) * option job :=
  fun n => Nat.iter n after (eventIn "" [demoPane "w1:p1" "claude"] demoWorld).

Definition jobAt (n : nat) : job := default TellingWorkspaces (demoEvent n).2.
Definition cfgAt (n : nat) : Cfg (J := list string) := mkCfg (demoEvent n).1 (option_list (demoEvent n).2) (n <? 4)%nat true.
Definition demoStep : Cfg -> Cfg -> Prop := step encodeAll encodeWs id (fun s => s) (fun _ => None) "host".

Lemma demoEvent_step n :
  (demoEvent n).2 = Some (jobAt n) -> demoTurn demoAnswers unixEpoch (jobAt n) (demoEvent n).1 = Some (demoEvent (S n)) ->
  match jobAt n with TellingAgents _ => false | _ => (n <? 4)%nat end = (S n <? 4)%nat ->
  match jobAt n with TellingWorkspaces => false | _ => true end = true -> demoStep (cfgAt n) (cfgAt (S n)).
Proof.
  intros Hj Ht H1 H2. unfold cfgAt. rewrite Hj.
  pose proof (step_turn encodeAll encodeWs id (fun s => s) (fun _ => None) "host" demoAnswers unixEpoch (demoEvent n).1 (demoEvent (S n)).1
    [] (jobAt n) [] (demoEvent (S n)).2 (n <? 4)%nat true) as Hs.
  rewrite H1, H2, app_nil_r in Hs. apply Hs. rewrite <- surjective_pairing. exact Ht.
Qed.

Lemma demo_reached : rtc demoStep (start NewState (Some demoSessions)) (cfgAt 4).
Proof.
  assert (H0 : demoStep (start NewState (Some demoSessions)) (cfgAt 0))
    by (apply (step_event encodeAll encodeWs id (fun s => s) (fun _ => None) "host" demoWorld [] true true "" (eventAgents "host" "" [] [demoPane "w1:p1" "claude"] []) 0)).
  apply rtc_l with (cfgAt 0); [exact H0|].
  apply rtc_l with (cfgAt 1); [apply (demoEvent_step 0); vm_compute; reflexivity|].
  apply rtc_l with (cfgAt 2); [apply (demoEvent_step 1); vm_compute; reflexivity|].
  apply rtc_l with (cfgAt 3); [apply (demoEvent_step 2); vm_compute; reflexivity|].
  apply rtc_l with (cfgAt 4); [apply (demoEvent_step 3); vm_compute; reflexivity|]. apply rtc_refl.
Qed.

Lemma broadcasts_witness :
  exists l, last (sentAgents (out (world (cfgAt 4)))) = Some l /\ encodeAll (comparable l) = agentsNow encodeAll (world (cfgAt 4)).
Proof.
  destruct (broadcasts_keep_up encodeAll encodeWs id (fun s => s) (fun _ => None) "host" (fun l => ltac:(by eexists)) (fun l => ltac:(by eexists))
    NewState (Some demoSessions) (cfgAt 4) demo_reached) as [H _]. apply H; vm_compute; reflexivity.
Defined.

Lemma union_witness :
  NoDup ((fun a => PaneID (info a)) <$> (merged {[""%string := mkTopology (agentsFromTopology "host" "" [demoPane "w1:p1" "claude"] []) []]}).1).
Proof.
  apply (union_has_distinct_panes "host"). intros p t [<- <-]%lookup_singleton_Some. split; [reflexivity|].
  exists (answering [demoPane "w1:p1" "claude"]). split; [|vm_compute; reflexivity].
  split; intros l [= <-]; (split; [apply NoDup_singleton|]); constructor; [split; [discriminate|reflexivity]|constructor|split; [discriminate|reflexivity]|constructor].
Defined.

Lemma workspace_cwd_witness :
  let w := mkWorkspace "w1" 1 "p" false 1 1 "" "" "/home/u/p" None "" in
  (ws_Cwd w ∈ [""; "/home/u/p"]%string \/ ws_Cwd w = ""%string) /\
  forall c, c ∈ [""; "/home/u/p"]%string -> c <> ""%string -> ws_Cwd w <> ""%string /\ (String.length (ws_Cwd w) <= String.length c)%nat.
Proof.
  exact (workspace_cwd_shortest [mkWorkspace "w1" 1 "p" false 1 1 "" "" "" None ""] [mkTab "t1" "w1" "" 0 ""]
    [demoPane "w1:p1" "claude"] 0 (mkWorkspace "w1" 1 "p" false 1 1 "" "" "/home/u/p" None "") eq_refl eq_refl ltac:(discriminate)).
Defined.

(** the stream of the base session merges the views, then a pane appears in the other
    session and is committed, then the first stream commits what it merged: the new pane
    is gone from the state although both streams have reported and no goroutine has
    anything left to do *)
Definition raced : World (J := list string) :=
  let first := after (eventIn "" [demoPane "w1:p1" "claude"] demoWorld) in
  let second := Nat.iter 4 after (eventIn "side" [demoPane "w1:p1" "claude"] first.1) in
  (Nat.iter 3 after (second.1, first.2)).1.
Example stale_union_committed :
  ((fun a => PaneID (info a)) <$> (merged (views raced)).1) = ["w1:p1"; "side/w1:p1"]%string /\
  ((fun a => PaneID (info a)) <$> Snapshot (state raced)) = ["w1:p1"%string].
Proof. split; vm_compute; reflexivity. Qed.
End Poller.
