(* ===== verification/DispatchBase.v ===== *)
(** What the dispatcher's handlers are written with
    ([internal/coordinator/dispatch.go], [internal/herdr/client.go]): errors and their
    classification, the values of a message, and a monad for the effects.

    A handler talks to herdr, reads the pane state, hands work to the scheduler, waits,
    records activity and starts watchers, while other goroutines change all of these.
    The monad [M] keeps the list of everything the handler did; what it gets back is a
    function of that list, [Env], which is arbitrary: a theorem for every [Env] holds
    for every interleaving. *)
From Stdlib Require Import Ascii.
From stdpp Require Import pretty.
From S2P Require Import Prelude GoLib GoText State Scheduler QuestionInput HerdrSessions.
#[local] Open Scope Z_scope.

Module DispatchBase.
Import Scheduler.

(** ** Errors *)

(** the sentinels [errors.Is] and [errors.As] look for *)
Inductive sentinel :=
| ErrPartiallyApplied
| ErrDispatchedUnknown
| ErrNotStarted
| ErrCreatedTargetUnknown
| DeadlineExceeded
| PaneReplaced
| CLIError (code message : string)
| OtherError (text : string).
#[export] Instance sentinel_eq_dec : EqDecision sentinel.
Proof. solve_decision. Defined.

(** an error is the chain it wraps, in the order of the walk *)
Abbreviation error := (list sentinel) (only parsing).

Definition Is (e : error) (s : sentinel) : bool := bool_decide (s ∈ e).

Definition refusalCodes : list string := ["server_not_running"; "agent_pane_busy"]%string.

(** the first [CLIError] of the chain *)
Fixpoint asCLIError (e : error) : option (string * string) :=
  match e with
  | [] => None
  | CLIError code message :: _ => Some (code, message)
  | _ :: e => asCLIError e
  end.

Definition IsRefused (e : error) : bool :=
  match asCLIError e with
  | None => false
  | Some (code, _) => bool_decide (code ∈ refusalCodes)
  end.

(** [OutcomeError.Unwrap] *)
Definition outcome (started : bool) (e : error) : error :=
  (if started then ErrDispatchedUnknown else ErrNotStarted) :: e.

Definition partiallyApplied (e : error) : error := ErrDispatchedUnknown :: ErrPartiallyApplied :: e.

(** the phase, the public text and the data of a failure; the data is the name of the
    one flag it sets *)
Definition classify (e : error) : string * string * string :=
  let unknown := "dispatched_unknown"%string in
  if Is e ErrPartiallyApplied
  then ("dispatched_unknown", "Part of the command already reached the agent; review it before retrying", unknown)
  else if IsRefused e then ("not_started", "Command was not sent; retry is safe", "")
  else if Is e ErrCreatedTargetUnknown
  then ("dispatched_unknown", "Herdr may have created an empty target; review Herdr before retrying", unknown)
  else if Is e ErrDispatchedUnknown
  then ("dispatched_unknown", "Command may have executed; review the agent before retrying", unknown)
  else if Is e ErrNotStarted || Is e DeadlineExceeded then ("not_started", "Command was not sent; retry is safe", "")
  else ("failed", "Command failed", "").

(** ** Values of a message *)

(** [map[string]any] as JSON decodes it; the last three are built by Go code.  A
    [float64] is [m · 2^e]. *)
#[warnings="-register-all"]
Inductive any :=
| ANil
| ABool (b : bool)
| AString (s : string)
| AFloat (m e : Z)
| AList (l : list any)
| AObject
| AInt (z : Z)
| AUint (z : Z)
| AInts (l : list Z)
| AStrings (l : list string).

Abbreviation message := (gmap string any) (only parsing).

Definition valueOf (m : message) (key : string) : any := default ANil (m !! key).

Definition stringValue (m : message) (key : string) : string :=
  match valueOf m key with AString s => s | _ => "" end.

Section Floats.
(** what the platform makes of a [float64] that no [int] holds, and whether it comes
    back the same *)
Context (wideInt : Z -> Z -> Z) (wideSame : Z -> Z -> bool).

Definition truncFloat (m e : Z) : Z := if 0 <=? e then m * 2 ^ e else Z.quot m (2 ^ (- e)).
Definition inInt (z : Z) : bool := (min_int64 <=? z) && (z <=? max_int64).
Definition intOfFloat (m e : Z) : Z := let t := truncFloat m e in if inInt t then t else wideInt m e.
(** [number == float64(int(number))] *)
Definition isInt (m e : Z) : bool :=
  if inInt (truncFloat m e) then (0 <=? e) || (Z.rem m (2 ^ (- e)) =? 0) else wideSame m e.
(** [number >= 0], [number > 0] and [number <= limit] *)
Definition floatNonNeg (m : Z) : bool := 0 <=? m.
Definition floatPos (m : Z) : bool := 0 <? m.
Definition floatAtMost (m e limit : Z) : bool := if 0 <=? e then m * 2 ^ e <=? limit else m <=? limit * 2 ^ (- e).

Definition intValue (v : any) (fallback : Z) : Z :=
  match v with
  | AInt z => z
  | AFloat m e => intOfFloat m e
  | _ => fallback
  end.

Definition maxTabInsertIndex : Z := 10000.
Definition tabInsertIndex (v : any) : Z * bool :=
  match v with
  | AInt z => (z, (0 <=? z) && (z <=? maxTabInsertIndex))
  | AFloat m e => (intOfFloat m e, floatNonNeg m && floatAtMost m e maxTabInsertIndex && isInt m e)
  | _ => (0, false)
  end.

Definition uint64Value (v : any) : Z :=
  match v with
  | AUint z => z
  | AInt z => if 0 <? z then z else 0
  | AFloat m e => if floatPos m then (if truncFloat m e <? 2 ^ 64 then truncFloat m e else wideInt m e) else 0
  | _ => 0
  end.
End Floats.

Fixpoint allNonEmpty (l : list any) : option (list string) :=
  match l with
  | [] => Some []
  | AString s :: l => if String.eqb s "" then None else cons s <$> allNonEmpty l
  | _ => None
  end.

Definition stringSlice (v : any) : option (list string) :=
  match v with
  | AStrings l => if bool_decide (""%string ∈ l) then None else Some l
  | AList l => allNonEmpty l
  | _ => None
  end.

(** ** Runes *)

Definition replacement : bytes := [0xEF; 0xBF; 0xBD].

(** [[]rune(text)], each rune as [string(rune)] writes it: a byte that starts no
    well-formed sequence is the replacement character *)
Fixpoint runes (l : bytes) : list bytes :=
  match l with
  | [] => []
  | b0 :: l0 =>
      if b0 <? 0x80 then [b0] :: runes l0
      else if (0xC2 <=? b0) && (b0 <=? 0xDF) then
        match l0 with
        | b1 :: l1 => if cont_byte b1 then [b0; b1] :: runes l1 else replacement :: runes l0
        | _ => replacement :: runes l0
        end
      else if (0xE0 <=? b0) && (b0 <=? 0xEF) then
        match l0 with
        | b1 :: b2 :: l2 =>
            if (if b0 =? 0xE0 then (0xA0 <=? b1) && (b1 <=? 0xBF)
                else if b0 =? 0xED then (0x80 <=? b1) && (b1 <=? 0x9F)
                else cont_byte b1) && cont_byte b2
            then [b0; b1; b2] :: runes l2 else replacement :: runes l0
        | _ => replacement :: runes l0
        end
      else if (0xF0 <=? b0) && (b0 <=? 0xF4) then
        match l0 with
        | b1 :: b2 :: b3 :: l3 =>
            if (if b0 =? 0xF0 then (0x90 <=? b1) && (b1 <=? 0xBF)
                else if b0 =? 0xF4 then (0x80 <=? b1) && (b1 <=? 0x8F)
                else cont_byte b1) && cont_byte b2 && cont_byte b3
            then [b0; b1; b2; b3] :: runes l3 else replacement :: runes l0
        | _ => replacement :: runes l0
        end
      else replacement :: runes l0
  end.

Definition runeStrings (s : string) : list string := string_of_bytes <$> runes (bytes_of_string s).
Definition runeCount (s : string) : Z := len (runes (bytes_of_string s)).

(** [value < 0x20 || value == 0x7f] *)
Definition controlRune (r : bytes) : bool :=
  match r with [b] => (b <? 0x20) || (b =? 0x7f) | _ => false end.

(** the runes of well-formed text are its bytes *)
Lemma runes_valid l : utf8_valid l = true -> concat (runes l) = l.
Proof.
  remember (length l) as n eqn:En. assert (Hn : (length l <= n)%nat) by lia. clear En. revert l Hn.
  induction n as [|n IH]; intros [|b0 l] Hn H; try done; cbn in Hn; [lia|]. cbn [runes utf8_valid] in *.
  destruct (b0 <? 0x80); [cbn; f_equal; apply IH; [lia|done]|].
  destruct ((0xC2 <=? b0) && (b0 <=? 0xDF)).
  { destruct l as [|b1 l]; [done|]. apply andb_true_iff in H as [-> H]. cbn in *. do 2 f_equal. apply IH; [lia|done]. }
  destruct ((0xE0 <=? b0) && (b0 <=? 0xEF)).
  { destruct l as [|b1 [|b2 l]]; try done. apply andb_true_iff in H as [-> H]. cbn in *. do 3 f_equal. apply IH; [lia|done]. }
  destruct ((0xF0 <=? b0) && (b0 <=? 0xF4)); [|done].
  destruct l as [|b1 [|b2 [|b3 l]]]; try done. apply andb_true_iff in H as [-> H]. cbn in *. do 4 f_equal. apply IH; [lia|done].
Qed.

(** a rune stands for itself in front of any text *)
Definition goodRune (r : bytes) : Prop :=
  forall t, runes (r ++ t) = r :: runes t /\ utf8_valid (r ++ t) = utf8_valid t.

Lemma runes_good l : Forall goodRune (runes l).
Proof.
  remember (length l) as n eqn:En. assert (Hn : (length l <= n)%nat) by lia. clear En. revert l Hn.
  induction n as [|n IH]; intros [|b0 l] Hn; try done; cbn in Hn; [lia|]. cbn [runes].
  assert (Hrep : goodRune replacement) by done.
  destruct (b0 <? 0x80) eqn:E0.
  { constructor; [|apply IH; lia]. intros t. cbn. by rewrite E0. }
  destruct ((0xC2 <=? b0) && (b0 <=? 0xDF)) eqn:E1.
  { destruct l as [|b1 l]; [by repeat constructor|]. cbn in Hn. destruct (cont_byte b1) eqn:C1; (constructor; [|apply IH; cbn; lia]); [|done].
    intros t. cbn. by rewrite E0, E1, C1. }
  destruct ((0xE0 <=? b0) && (b0 <=? 0xEF)) eqn:E2.
  { destruct l as [|b1 [|b2 l]]; try (constructor; [done|apply IH; cbn in *; lia]). cbn in Hn.
    destruct (_ && cont_byte b2) eqn:C; (constructor; [|apply IH; cbn; lia]); [|done].
    intros t. cbn. rewrite E0, E1, E2. rewrite C. done. }
  destruct ((0xF0 <=? b0) && (b0 <=? 0xF4)) eqn:E3; [|constructor; [done|apply IH; lia]].
  destruct l as [|b1 [|b2 [|b3 l]]]; try (constructor; [done|apply IH; cbn in *; lia]). cbn in Hn.
  destruct (_ && cont_byte b3) eqn:C; (constructor; [|apply IH; cbn; lia]); [|done].
  intros t. cbn. rewrite E0, E1, E2, E3. rewrite C. done.
Qed.

Lemma runes_bytes l : bytes_ok l -> Forall bytes_ok (runes l).
Proof.
  remember (length l) as n eqn:En. assert (Hn : (length l <= n)%nat) by lia. clear En. revert l Hn.
  induction n as [|n IH]; intros [|b0 l] Hn Hb; try done; cbn in Hn; [lia|]. cbn [runes].
  assert (Hrep : bytes_ok replacement) by (repeat constructor; unfold is_byte; lia).
  repeat case_match; subst; cbn in Hn;
    repeat match goal with H : Forall is_byte (_ :: _) |- _ => apply Forall_cons in H as [? ?] end;
    apply Forall_cons; (split; [rewrite ?Forall_cons; by auto|apply IH; [cbn; lia|rewrite ?Forall_cons; by auto]]).
Qed.

Lemma runes_concat rs : Forall goodRune rs -> runes (concat rs) = rs /\ utf8_valid (concat rs) = true.
Proof.
  intros H. induction H as [|r rs Hr _ [IH1 IH2]]; cbn; [done|]. destruct (Hr (concat rs)) as [-> ->]. by rewrite IH1, IH2.
Qed.

(** ** Letters *)

(** [strings.ToLower] as far as a comparison with ASCII text can tell: the letters A to
    Z, and the two other characters whose lower case is an ASCII letter, U+0130 and the
    Kelvin sign *)
Fixpoint lowerBytes (l : bytes) : bytes :=
  match l with
  | [] => []
  | b0 :: l0 =>
      if (65 <=? b0) && (b0 <=? 90) then (b0 + 32) :: lowerBytes l0
      else match l0 with
           | b1 :: l1 =>
               if (b0 =? 0xC4) && (b1 =? 0xB0) then 105 :: lowerBytes l1
               else match l1 with
                    | b2 :: l2 => if (b0 =? 0xE2) && (b1 =? 0x84) && (b2 =? 0xAA) then 107 :: lowerBytes l2
                                  else b0 :: lowerBytes l0
                    | [] => b0 :: lowerBytes l0
                    end
           | [] => b0 :: lowerBytes l0
           end
  end.
Definition ToLower (s : string) : string := string_of_bytes (lowerBytes (bytes_of_string s)).

(** [strings.Contains] *)
Fixpoint hasPrefixBytes (p l : bytes) : bool :=
  match p, l with
  | [], _ => true
  | a :: p, b :: l => (a =? b) && hasPrefixBytes p l
  | _, [] => false
  end.
Fixpoint containsBytes (p l : bytes) : bool :=
  hasPrefixBytes p l || match l with [] => false | _ :: l => containsBytes p l end.
Definition Contains (s sub : string) : bool := containsBytes (bytes_of_string sub) (bytes_of_string s).

Definition isQoderAgent (agent : string) : bool :=
  let a := ToLower (TrimSpace agent) in String.eqb a "qoder" || String.eqb a "qodercli".

Definition isClaudeAgent (agent : string) : bool := Contains (ToLower agent) "claude".

(** ** Effects *)

(** what is asked of herdr: the session of the client and the id herdr knows *)
Inductive call :=
| Prompt (client id text : string)
| SendText (client id text : string)
| SendKeys (client id : string) (keys : list string)
| StopPane (client id : string)
| TabRename (client id label : string)
| TabMove (client id : string) (insertIndex : Z)
| TabCreate (client workspaceID cwd label : string)
| WorkspaceCreate (client cwd label : string)
| WorkspaceRename (client id label : string)
| WorkspaceMove (client id : string) (insertIndex : Z)
| WorkspaceMoveBlock (client : string) (ids : list string) (before : string)
| WorkspaceClose (client id : string)
| WorktreeList (client id : string)
| WorktreeCreate (client id branch base label : string)
| WorktreeOpen (client id path branch label : string)
| WorktreeRemove (client id : string) (force : bool)
| PaneRun (client id : string) (argv : list string)
| StartAgent (client name kind id : string)
| RenameAgent (client id name : string)
| AgentGet (client id : string)
| GetInventory (client : string)
| WorkspaceList (client : string)
| ReadPane (client id : string) (lines : Z) (format : string)
| ReadPaneRecent (client id : string) (lines : Z) (format : string)
| ReadPaneVisible (client id : string) (lines : Z) (format : string)
| ProbePaneVisible (client id : string) (lines : Z) (format : string).

(** the calls that change something *)
Definition mutates (c : call) : bool :=
  match c with
  | AgentGet _ _ | GetInventory _ | WorkspaceList _ | WorktreeList _ _ | ReadPane _ _ _ _ | ReadPaneRecent _ _ _ _
  | ReadPaneVisible _ _ _ _ | ProbePaneVisible _ _ _ _ => false
  | _ => true
  end.

(** [delivered] is not visible to the program: whether the call took effect *)
Record reply := mkReply {
  r_err : option error;
  delivered : bool;
  r_content : string;
  r_truncated : bool;
  r_running : bool;
  r_panes : list HerdrSessions.Pane;
  r_workspaces : list State.Workspace;
  r_created : HerdrSessions.CreateResult;
  r_listing : option HerdrSessions.WorktreeListResult;
  r_opened : option HerdrSessions.WorktreeMutationResult;
  r_removed : option HerdrSessions.WorktreeRemoveResult
}.

(** what a command carries besides its options *)
Inductive payload :=
| PNone
| PText (text : string)
| PKeys (keys : list string)
| PCount (n : Z)
| PApproval (eventID : string) (index total : Z)
| PQuestion (interactionID : string) (selected : list Z) (otherSelected : bool) (otherText : string) (clarify : bool)
    (navigation : string)
| PStart (profileID workspaceID name cwd prompt session : string).

Inductive mutation :=
| BumpPane (paneID : string)
| TopologyChanged
| Acknowledged (paneID : string)
| CustomAnswer (paneID questionText text : string)
| ProfileForgotten (paneID : string)
| ProfileRemembered (paneID profileID : string).

Record entry := mkEntry {
  e_kind : string; e_status : string; e_summary : string; e_extract : string; e_paneID : string; e_requestID : string;
  e_agent : string; e_project : string; e_host : string; e_session : string }.

Inductive watcher :=
| ApprovalWatcher (requestID paneID eventID : string) (generation : Z)
| QuestionWatcher (ledgerKey requestID action paneID : string) (original : QuestionInput.Interaction) (navigation : string)
    (generation : Z).

(** what a handler did, oldest first *)
Inductive Ev :=
| Looked
| Checked (token : WorkerToken) (current : bool)
| Called (c : call) (r : reply)
| Waited (e : option error)
| Submitted (o : ScheduleOptions) (p : payload)
| Asked (ledgerKey : string)
| AdmittedNow
| Mutated (m : mutation)
| Recorded (a : entry)
| RecordFailed
| Broadcast (kind : string)
| Woken
| Watches (w : watcher)
| Updated (ledgerKey : string) (generation : Z) (r : CommandResult) (applied : bool)
| ClosedMeanwhile   (** the scheduler closed while the effect ran, before its answer *)
| Panicked.   (** a run-time panic: nothing after it happens *)

(** what [ExecuteAdmitted] meets: a closed scheduler, a full ingress, or an answer: of the
    owner without the effect running here, of the effect, that the pane was replaced
    while it ran ([replyStale]), or none when the scheduler is closed meanwhile *)
Inductive execution :=
| Closed
| Full
| Answered (r : option CommandResult) (e : option Scheduler.error) (replayed : bool)
| Ran (operation : Z) (deadline : time)
| RanReplaced (operation : Z) (deadline : time)
| RanClosed (operation : Z) (deadline : time).

(** a launch profile ([internal/profiles]) *)
Record Profile := mkProfile { p_ID : string; p_Label : string; p_Kind : string; p_Argv : list string }.

(** the file system as the lifecycle asks it: [filepath.Abs], [filepath.EvalSymlinks]
    (clean absolute paths) and what opening a path below a root gives *)
Inductive opened := NoRoot | NoEntry | NotDirectory | Directory.
Record Files := mkFiles {
  absPath : string -> option string;
  evalSymlinks : string -> option string;
  openBelow : string -> string -> opened
}.

Record Env := mkEnv {
  stateAt : list Ev -> State.State;
  herdr : list Ev -> call -> reply;
  waits : list Ev -> option error;
  executes : list Ev -> ScheduleOptions -> execution;
  replays : list Ev -> string -> string -> option CommandResult * bool * bool;   (** result, found, conflict *)
  commits : list Ev -> bool;
  updates : list Ev -> bool;   (** [UpdateLedgerResult] found the operation *)
  profileOf : list Ev -> string -> option Profile;
  resolvePane : list Ev -> string -> string -> string;
  files : list Ev -> Files;
  late : list Ev -> bool   (** no time is left to start an agent *)
}.

(** the parts of a [Dispatcher] that are set once: whether it has the session overlay,
    launch profiles, a journal, a broadcast and a poll to wake *)
Record Dispatcher := mkDispatcher {
  d_sessions : bool;
  d_profiles : bool;
  d_activity : bool;
  d_broadcast : bool;
  d_wakePoll : bool
}.

Section Effects.
Context (d : Dispatcher) (env : Env).

Definition M (A : Type) : Type := list Ev -> A * list Ev.
Definition ret {A} (a : A) : M A := fun l => (a, l).
Definition bind {A B} (m : M A) (k : A -> M B) : M B := fun l => let (a, l) := m l in k a l.

Definition did (e : Ev) : M unit := fun l => (tt, l ++ [e]).
Definition look {A} (f : State.State -> A) : M A := fun l => (f (stateAt env l), l ++ [Looked]).
Definition askEnv {A} (f : list Ev -> A) : M A := fun l => (f l, l ++ [Looked]).
Definition callHerdr (c : call) : M reply := fun l => let r := herdr env l c in (r, l ++ [Called c r]).
Definition contextDelay : M (option error) := fun l => let e := waits env l in (e, l ++ [Waited e]).
End Effects.
Arguments M : clear implicits.

Notation "'let*' x := m 'in' k" := (bind m (fun x => k))
  (at level 10, x binder, m at level 100, k at level 200) : herdr_scope.
Notation "'do*' m 'in' k" := (bind m (fun _ => k))
  (at level 10, m at level 100, k at level 200) : herdr_scope.

(** ** What computations do *)

(** [m] only adds events, and [Q] relates its answer and the events it added *)
Definition sat {A} (m : M A) (Q : A -> list Ev -> Prop) : Prop :=
  forall l, exists evs, (m l).2 = l ++ evs /\ Q (m l).1 evs.

Lemma sat_ret {A} (a : A) (Q : A -> list Ev -> Prop) : Q a [] -> sat (ret a) Q.
Proof. intros H l. exists []. by rewrite app_nil_r. Qed.

Lemma sat_bind {A B} (m : M A) (k : A -> M B) (R : A -> list Ev -> Prop) (Q : B -> list Ev -> Prop) :
  sat m R -> (forall a, sat (k a) (fun b evs => forall before, R a before -> Q b (before ++ evs))) ->
  sat (bind m k) Q.
Proof.
  intros Hm Hk l. destruct (Hm l) as (e1 & E1 & H1). unfold bind. destruct (m l) as [a l1]. cbn in *. subst l1.
  destruct (Hk a (l ++ e1)) as (e2 & E2 & H2). exists (e1 ++ e2). rewrite app_assoc. auto.
Qed.

Lemma sat_mono {A} (m : M A) (Q R : A -> list Ev -> Prop) :
  sat m Q -> (forall a evs, Q a evs -> R a evs) -> sat m R.
Proof. intros Hm HQ l. destruct (Hm l) as (evs & E & H). eauto. Qed.

Lemma sat_and {A} (m : M A) (Q R : A -> list Ev -> Prop) : sat m Q -> sat m R -> sat m (fun a evs => Q a evs /\ R a evs).
Proof.
  intros H1 H2 l. destruct (H1 l) as (e1 & E1 & Q1). destruct (H2 l) as (e2 & E2 & Q2). rewrite E1 in E2.
  apply app_inv_head in E2 as ->. eauto.
Qed.
End DispatchBase.
