(* ===== verification/Handlers.v ===== *)
(** The handlers of the dispatcher ([internal/coordinator/dispatch.go],
    [approval.go]): what a message of the phone makes the relay do.

    A handler checks the message, hands an effect to the scheduler and finishes with the
    answer.  The effect runs later with the token of its pane session; it talks to herdr.
    All of it is written in the monad of [DispatchBase].  [Parse] and [Classify], the
    readers of the screen, are arbitrary. *)
From Stdlib Require Import Ascii.
From stdpp Require Import pretty sorting.
From S2P Require Import Prelude GoLib GoText State Scheduler QuestionInput HerdrSessions DispatchBase.
#[local] Open Scope Z_scope.

Module Handlers.
Import Scheduler DispatchBase.
Import (notations) DispatchBase.

Definition rawID (id : string) : string := (HerdrSessions.SplitID id).2.
Definition prefixOf (id : string) : string := (HerdrSessions.SplitID id).1.

Definition commandDeadline : duration := 12 * second.
Definition approvalDeadline : duration := 9 * second.
Definition questionDeadline : duration := 16 * second.
Definition agentStartDeadline : duration := 40 * second.
Definition promptMaxChars : Z := 100000.
Definition secretMaxRunes : Z := 256.

(** [strings.ReplaceAll(action, "_", " ")] *)
Fixpoint spaced (s : string) : string :=
  match s with
  | EmptyString => EmptyString
  | String a s => String (if Ascii.eqb a "_"%char then " "%char else a) (spaced s)
  end.

(** the pane session a message was received for *)
Record paneSessionAdmission := mkAdmission { a_generation : Z; a_active : bool; a_allowAbsent : bool }.

(** the values of a context: the receipt number, the session, an admission signal *)
Record Ctx := mkCtx { c_receipt : Z; c_session : option paneSessionAdmission; c_admit : bool }.

Definition completed (requestID action paneID data : string) : CommandResult :=
  mkResult requestID action true "completed" "" paneID data false.

Definition failed (requestID action paneID message : string) : CommandResult :=
  mkResult requestID action false "failed" message paneID "" false.

Definition set_phase (phase : string) (r : CommandResult) : CommandResult :=
  mkResult (cr_RequestID r) (cr_Action r) (cr_OK r) phase (cr_Error r) (cr_PaneID r) (cr_Data r) (cr_replayed r).
Definition set_request (requestID : string) (r : CommandResult) : CommandResult :=
  mkResult requestID (cr_Action r) (cr_OK r) (cr_Phase r) (cr_Error r) (cr_PaneID r) (cr_Data r) (cr_replayed r).
Definition set_replayed (b : bool) (r : CommandResult) : CommandResult :=
  mkResult (cr_RequestID r) (cr_Action r) (cr_OK r) (cr_Phase r) (cr_Error r) (cr_PaneID r) (cr_Data r) b.
Definition set_data (data : string) (r : CommandResult) : CommandResult :=
  mkResult (cr_RequestID r) (cr_Action r) (cr_OK r) (cr_Phase r) (cr_Error r) (cr_PaneID r) data (cr_replayed r).

Section Handlers.
Context (d : Dispatcher) (env : Env).
Context (hashPayload : payload -> string).
Context (wideInt : Z -> Z -> Z) (wideSame : Z -> Z -> bool).

Definition herdrFor (id : string) : string := if d_sessions d then prefixOf id else "".

(** ** Activity *)

Definition commitEntry (a : entry) : M bool :=
  fun l => let ok := commits env l in (ok, l ++ [if ok then Recorded a else RecordFailed]).

Definition broadcast (kind : string) : M unit := if d_broadcast d then did (Broadcast kind) else ret tt.

Definition recordActivityWithExtract (kind status summary extract paneID requestID : string) : M unit :=
  if negb (d_activity d) then ret tt
  else
    let* agent := look env (fun s => State.AgentOf s paneID) in
    let info f := from_option (fun a => f (State.info a)) ""%string agent in
    let* ok := commitEntry (mkEntry kind status summary extract paneID requestID
                 (info State.Agent) (info State.Project) (info State.Host) (info State.Session)) in
    if ok then broadcast "activity" else ret tt.

Definition recordActivity (kind status summary paneID requestID : string) : M unit :=
  recordActivityWithExtract kind status summary "" paneID requestID.

Definition wake : M unit := if d_wakePoll d then did Woken else ret tt.

(** ** Failures *)

Definition fail (requestID action paneID message : string) : M CommandResult :=
  do* (if String.eqb action "" then ret tt
       else recordActivity action "failed" (spaced action ++ " failed: " ++ message)%string paneID requestID) in
  ret (failed requestID action paneID message).

Definition failErr (requestID action paneID : string) (e : list sentinel) : M CommandResult :=
  let '(phase, public, data) := classify e in
  do* (if String.eqb action "" then ret tt
       else recordActivity action "failed" (spaced action ++ " failed: " ++ public)%string paneID requestID) in
  ret (mkResult requestID action false phase public paneID data false).

(** ** The pane session *)

Definition sessionCurrent (s : State.State) (token : WorkerToken) : bool :=
  let (generation, active) := State.PaneSession s (wt_PaneID token) in
  (u64 generation =? wt_Generation token) && (active || wt_AllowAbsent token).

(** [paneSessionError]: whether the session is current *)
Definition paneSession (token : WorkerToken) : M bool :=
  fun l => let ok := sessionCurrent (stateAt env l) token in (ok, l ++ [Checked token ok]).

Definition replacedText : string := "pane session was replaced".

Definition paneSessionCurrent (token : WorkerToken) (requestID action : string) : M (option CommandResult) :=
  let* ok := paneSession token in
  if ok then ret None
  else let* r := fail requestID action (wt_PaneID token) replacedText in ret (Some r).

(** ** Scheduling *)

(** an ID of 0 is given the next number *)
Definition command (ctx : Ctx) (receivedAt : time) (requestID kind paneID : string) (budget : duration)
    (relayLevel : bool) (ledgerKey payloadHash : string) : ScheduleOptions :=
  mkOptions (c_receipt ctx) "" requestID receivedAt (receivedAt + budget) kind paneID relayLevel 0 false ledgerKey payloadHash.

Definition admitOptions (a : paneSessionAdmission) (o : ScheduleOptions) : ScheduleOptions :=
  mkOptions (ID o) (ClientID o) (RequestID o) (ReceivedAt o) (Deadline o) (Kind o) (PaneID o) (RelayLevel o)
    (a_generation a) (a_allowAbsent a) (LedgerKey o) (PayloadHash o).

(** [sync.Once] around the admission signal *)
Definition isAdmitted (e : Ev) : bool := match e with AdmittedNow => true | _ => false end.
Definition signal (ctx : Ctx) : M unit :=
  fun l => (tt, if c_admit ctx && negb (existsb isAdmitted l) then l ++ [AdmittedNow] else l).

(** the token of a worker: a pane command starts only in the session it was admitted in *)
Definition workerToken (o : ScheduleOptions) (operation : Z) (deadline : time) : WorkerToken :=
  mkToken operation (PaneID o) (if RelayLevel o then 0 else PaneGeneration o) (AllowAbsent o) deadline.

(** [replyStale] of an operation that was dispatched *)
Definition replacedResult (o : ScheduleOptions) : CommandResult :=
  mkResult (RequestID o) (Kind o) false "dispatched_unknown"
    "command was dispatched before the pane session was replaced; outcome is unknown" (PaneID o) "" false.

(** [ExecuteAdmitted]: the answer of the scheduler, and what the effect left behind; the
    admission signal is given where the command is refused or taken by the ingress *)
Definition execute {X} (ctx : Ctx) (o : ScheduleOptions) (p : payload) (runner : WorkerToken -> M (EffectResult * X))
    : M (option CommandResult * option Scheduler.error * option X) :=
  let stamp (replayed : bool) (r : option CommandResult) := (fun r => set_replayed replayed (set_request (RequestID o) r)) <$> r in
  do* did (Submitted o p) in
  let* x := (fun l => (executes env l o, l)) in
  match x with
  | Closed => do* signal ctx in ret (None, Some ErrClosed, None)
  | Full => do* signal ctx in ret (None, Some ErrIngressFull, None)
  | Answered r e replayed => do* signal ctx in ret (stamp replayed r, e, None)
  | Ran operation deadline =>
      do* signal ctx in
      let* ex := runner (workerToken o operation deadline) in ret (stamp false (Result ex.1), None, Some ex.2)
  | RanReplaced operation deadline =>
      do* signal ctx in
      let* ex := runner (workerToken o operation deadline) in ret (stamp false (Some (replacedResult o)), None, Some ex.2)
  | RanClosed operation deadline =>
      do* signal ctx in
      let* ex := runner (workerToken o operation deadline) in
      do* did ClosedMeanwhile in ret (None, Some ErrClosed, Some ex.2)
  end.

Definition finishSchedule (o : ScheduleOptions) (r : option CommandResult) (e : option Scheduler.error) : M CommandResult :=
  match e, r with
  | None, Some r => ret r
  | Some ErrConflict, _ => fail (RequestID o) (Kind o) (PaneID o) "A different response was already submitted"
  | Some ErrIngressFull, _ | Some ErrClosed, _ =>
      ret (mkResult (RequestID o) (Kind o) false "not_started" "command was not sent; retry is safe" (PaneID o) "" false)
  | Some ErrPaneReplaced, _ => failErr (RequestID o) (Kind o) (PaneID o) [PaneReplaced]
  | None, None => fail (RequestID o) (Kind o) (PaneID o) "Command failed"
  end.

Definition schedule {X} (ctx : Ctx) (o : ScheduleOptions) (p : payload) (runner : WorkerToken -> M (EffectResult * X))
    : M (CommandResult * option X) :=
  let run o :=
    let* rex := execute ctx o p runner in
    let '(r, e, x) := rex in
    let* r := finishSchedule o r e in ret (r, x) in
  if RelayLevel o then run o
  else
    let sessionOf s := State.PaneSession s (PaneID o) in
    let* admission := match c_session ctx with
                      | Some a => ret a
                      | None => let* ga := look env sessionOf in ret (mkAdmission (u64 ga.1) ga.2 false)
                      end in
    let* ga := look env sessionOf in
    if negb (u64 ga.1 =? a_generation admission) || (negb ga.2 && negb (a_allowAbsent admission))
    then let* r := fail (RequestID o) (Kind o) (PaneID o) replacedText in ret (r, None)
    else run (admitOptions admission o).

(** an effect that leaves nothing behind *)
Definition effect (m : M CommandResult) (bump : bool) : M (EffectResult * unit) :=
  let* r := m in ret (mkEffect (Some r) (bump && cr_OK r), tt).

(** one call of herdr after a check of the session: most effects *)
Definition guardedCall (token : WorkerToken) (requestID action paneID : string) (c : call) (data : string) : M CommandResult :=
  let* stale := paneSessionCurrent token requestID action in
  match stale with
  | Some r => ret r
  | None =>
      let* r := callHerdr env c in
      match r_err r with
      | Some e => failErr requestID action paneID e
      | None => ret (completed requestID action paneID data)
      end
  end.

(** ** Input of a pane *)

(** [waitTestGate] is left out: no gate exists outside of tests *)
Definition promptEffect (requestID paneID text : string) (requiresEnter : bool) (token : WorkerToken) : M CommandResult :=
  let* stale := paneSessionCurrent token requestID "prompt" in
  match stale with
  | Some r => ret r
  | None =>
      if negb requiresEnter then
        let* r := callHerdr env (Prompt (herdrFor paneID) (rawID paneID) text) in
        match r_err r with
        | Some e => failErr requestID "prompt" paneID e
        | None => ret (completed requestID "prompt" paneID "")
        end
      else
        let* r := callHerdr env (SendText (herdrFor paneID) (rawID paneID) text) in
        match r_err r with
        | Some e => failErr requestID "prompt" paneID e
        | None =>
            let* ok := paneSession token in
            if negb ok then failErr requestID "prompt" paneID (partiallyApplied [PaneReplaced])
            else
              let* r := callHerdr env (SendKeys (herdrFor paneID) (rawID paneID) ["Enter"%string]) in
              match r_err r with
              | Some e => failErr requestID "prompt" paneID (partiallyApplied e)
              | None => ret (completed requestID "prompt" paneID "")
              end
        end
  end.

Definition handlePrompt (ctx : Ctx) (receivedAt : time) (requestID paneID text : string) : M CommandResult :=
  if String.eqb paneID "" || String.eqb text "" then fail requestID "prompt" paneID "Text and agent are required"
  else if runeCount text >? promptMaxChars then fail requestID "prompt" paneID "Prompt is longer than 100,000 characters"
  else
    let* agent := look env (fun s => State.AgentOf s paneID) in
    let requiresEnter := from_option (fun a => isQoderAgent (State.Agent (State.info a))) false agent in
    let* rx := schedule ctx (command ctx receivedAt requestID "prompt" paneID commandDeadline false "" "") (PText text)
                 (fun token => effect (promptEffect requestID paneID text requiresEnter token) false) in
    let r := rx.1 in
    do* (if cr_OK r
         then do* recordActivityWithExtract "prompt" "sent" "Prompt sent" text paneID requestID in wake
         else ret tt) in
    ret r.

Definition handleKeys (ctx : Ctx) (receivedAt : time) (requestID paneID : string) (msg : gmap string any) : M CommandResult :=
  match stringSlice (valueOf msg "keys") with
  | Some (k :: ks) =>
      if String.eqb paneID "" then fail requestID "keys" paneID "Keys and agent are required"
      else
        let keys := k :: ks in
        let* rx := schedule ctx (command ctx receivedAt requestID "keys" paneID commandDeadline false "" "") (PKeys keys)
                     (fun token => effect (guardedCall token requestID "keys" paneID
                        (SendKeys (herdrFor paneID) (rawID paneID) keys) "") false) in
        let r := rx.1 in
        do* (if cr_OK r
             then
               let label := stringValue msg "activity_label" in
               do* recordActivity "keys" "sent" (if String.eqb label "" then "keys" else label) paneID requestID in wake
             else ret tt) in
        ret r
  | _ => fail requestID "keys" paneID "Keys and agent are required"
  end.

Definition handleText (ctx : Ctx) (receivedAt : time) (requestID paneID : string) (msg : gmap string any) : M CommandResult :=
  let text := stringValue msg "text" in
  if String.eqb paneID "" || String.eqb text "" then fail requestID "text" paneID "Text and agent are required"
  else
    let* rx := schedule ctx (command ctx receivedAt requestID "text" paneID commandDeadline false "" "") (PText text)
                 (fun token => effect (guardedCall token requestID "text" paneID
                    (SendText (herdrFor paneID) (rawID paneID) text) "") false) in
    let r := rx.1 in
    do* (if cr_OK r
         then do* recordActivityWithExtract "text" "sent" "Text inserted" text paneID requestID in wake
         else ret tt) in
    ret r.

(** the keys of a secret *)
Definition secretKeys (text : string) : list string := runeStrings text ++ ["Enter"%string].

Definition handleSecret (ctx : Ctx) (receivedAt : time) (requestID paneID : string) (msg : gmap string any) : M CommandResult :=
  let text := stringValue msg "text" in
  if String.eqb paneID "" || String.eqb text "" then fail requestID "send_secret" paneID "Secret and agent are required"
  else if runeCount text >? secretMaxRunes then fail requestID "send_secret" paneID "Secret is too long"
  else if existsb controlRune (runes (bytes_of_string text))
  then fail requestID "send_secret" paneID "Secret must not contain control characters"
  else
    let* rx := schedule ctx (command ctx receivedAt requestID "send_secret" paneID commandDeadline false "" "")
                 (PCount (runeCount text))
                 (fun token => effect (guardedCall token requestID "send_secret" paneID
                    (SendKeys (herdrFor paneID) (rawID paneID) (secretKeys text)) "") false) in
    let r := rx.1 in
    do* (if cr_OK r
         then do* recordActivity "send_secret" "sent" "Password entered" paneID requestID in wake
         else ret tt) in
    ret r.

(** ** Tabs and the life of a pane *)

Definition nul : string := String Ascii.zero "".

Definition handleStop (ctx : Ctx) (receivedAt : time) (requestID paneID : string) : M CommandResult :=
  if String.eqb paneID "" then fail requestID "agent_stop" paneID "Agent is required"
  else
    let* rx := schedule ctx (command ctx receivedAt requestID "agent_stop" paneID commandDeadline false
                               ("stop" ++ nul ++ paneID ++ nul ++ requestID)%string (hashPayload PNone)) PNone
                 (fun token => effect (guardedCall token requestID "agent_stop" paneID
                    (StopPane (herdrFor paneID) (rawID paneID)) "") true) in
    let r := rx.1 in
    do* (if cr_OK r && negb (cr_replayed r)
         then
           do* did (Mutated (BumpPane paneID)) in
           do* did (Mutated TopologyChanged) in
           do* (if d_profiles d then did (Mutated (ProfileForgotten paneID)) else ret tt) in
           do* recordActivity "agent_stop" "sent" "Stopped agent" paneID requestID in wake
         else ret tt) in
    ret r.

Definition handleTabRename (ctx : Ctx) (receivedAt : time) (requestID paneID : string) (msg : gmap string any) : M CommandResult :=
  let label := TrimSpace (stringValue msg "name") in
  if String.eqb paneID "" then fail requestID "agent_rename" paneID "Agent is required"
  else if String.eqb label "" then fail requestID "agent_rename" paneID "Tab name is required"
  else
    let* agent := look env (fun s => State.AgentOf s paneID) in
    let tabID := from_option (fun a => State.TabID (State.info a)) ""%string agent in
    if String.eqb tabID "" then fail requestID "agent_rename" paneID "Tab is unavailable"
    else
      let* rx := schedule ctx (command ctx receivedAt requestID "agent_rename" paneID commandDeadline false "" "") (PText label)
                   (fun token => effect (guardedCall token requestID "agent_rename" paneID
                      (TabRename (herdrFor tabID) (rawID tabID) label) "") false) in
      let r := rx.1 in
      do* (if cr_OK r
           then do* recordActivity "agent_rename" "renamed" ("Renamed tab to " ++ label)%string paneID requestID in wake
           else ret tt) in
      ret r.

Definition handleTabReorder (ctx : Ctx) (receivedAt : time) (requestID paneID : string) (msg : gmap string any) : M CommandResult :=
  let (insertIndex, valid) := tabInsertIndex wideInt wideSame (valueOf msg "insert_index") in
  if String.eqb paneID "" then fail requestID "tab_reorder" paneID "Agent is required"
  else if negb valid then fail requestID "tab_reorder" paneID "Tab position is invalid"
  else
    let* agent := look env (fun s => State.AgentOf s paneID) in
    let tabID := from_option (fun a => State.TabID (State.info a)) ""%string agent in
    if String.eqb tabID "" then fail requestID "tab_reorder" paneID "Tab is unavailable"
    else
      let* rx := schedule ctx (command ctx receivedAt requestID "tab_reorder" paneID commandDeadline false "" "") (PCount insertIndex)
                   (fun token => effect (guardedCall token requestID "tab_reorder" paneID
                      (TabMove (herdrFor tabID) (rawID tabID) insertIndex) ("insert_index=" ++ pretty insertIndex)%string) false) in
      let r := rx.1 in
      do* (if cr_OK r
           then do* recordActivity "tab_reorder" "reordered" "Reordered tab" paneID requestID in wake
           else ret tt) in
      ret r.

(** [AcknowledgePane] says whether the pane is known *)
Definition handleAcknowledge (requestID paneID : string) : M CommandResult :=
  let* before := look env (fun s => State.DisplayedStatus s paneID) in
  let* known := look env (fun s => bool_decide (is_Some (State.agents s !! paneID))) in
  if String.eqb paneID "" || negb known then fail requestID "acknowledge_pane" paneID "Agent is unavailable"
  else
    do* did (Mutated (Acknowledged paneID)) in
    let* after := look env (fun s => State.DisplayedStatus s paneID) in
    do* wake in
    do* (if negb (String.eqb before after) then broadcast "agent_update" else ret tt) in
    ret (completed requestID "acknowledge_pane" paneID "").

(** ** Approvals *)

(** what the screen shows of a blocked agent *)
Record Classification := mkClassification { k_Kind : string; k_Options : list string; k_ApprovalFocus : Z }.

Context (Parse : string -> string -> option QuestionInput.Interaction) (Classify : string -> string -> Classification).

Record approvalPayload := mkApproval { EventID : string; ap_Index : Z; Total : Z }.

Record questionPayload := mkQuestion {
  InteractionID : string; Selected : list Z; OtherSelected : bool; OtherText : string; Clarify : bool; Navigation : string }.

Definition approvalLedgerKey (paneID eventID : string) : string := ("approval" ++ nul ++ paneID ++ nul ++ eventID)%string.

Definition questionOperationLedgerKey (action paneID interactionID requestID : string) : string :=
  ((if String.eqb action "navigate_question" then "question-navigation"
    else if String.eqb action "clarify_question" then "question-clarification" else "question-answer") ++
   nul ++ paneID ++ nul ++ interactionID ++ nul ++ requestID)%string.

(** one key per write, each after a check of the session; the error, if any *)
Fixpoint sendKeysFrom (token : WorkerToken) (paneID : string) (index : Z) (keys : list string) : M (option (list sentinel)) :=
  match keys with
  | [] => ret None
  | key :: keys =>
      let partly e := if 0 <? index then partiallyApplied e else e in
      let* ok := paneSession token in
      if negb ok then ret (Some (partly [PaneReplaced]))
      else
        let* r := callHerdr env (SendKeys (herdrFor paneID) (rawID paneID) [key]) in
        match r_err r with
        | Some e => ret (Some (partly e))
        | None =>
            match keys with
            | [] => ret None
            | _ =>
                let* e := contextDelay env in
                match e with
                | Some e => ret (Some (partiallyApplied e))
                | None => sendKeysFrom token paneID (index + 1) keys
                end
            end
        end
  end.

Definition sendQuestionKeysForSession (token : WorkerToken) (paneID : string) (keys : list string) : M (option (list sentinel)) :=
  sendKeysFrom token paneID 0 keys.

Definition isApproval (a : State.AgentState) (p : approvalPayload) : bool :=
  String.eqb (State.AttentionKind (State.blocked a)) State.AttentionApproval && (len (State.Options (State.blocked a)) =? Total p).
Definition sameEvent (a : State.AgentState) (eventID : string) : bool :=
  negb (String.eqb (State.BlockedEventID (State.blocked a)) "") && String.eqb (State.BlockedEventID (State.blocked a)) eventID.
Definition isBlocked (a : State.AgentState) : bool := String.eqb (State.Status a) "blocked".

Definition accepted (requestID action paneID : string) : CommandResult := set_phase "accepted" (completed requestID action paneID "").

(** the effect, given the agent as it is when the worker runs *)
Definition approveCurrent (requestID paneID : string) (p : approvalPayload) (token : WorkerToken)
    (current : option State.AgentState) : M CommandResult :=
  match current with
  | Some a =>
      if isBlocked a && sameEvent a (EventID p) && isApproval a p then
        let* r := callHerdr env (ReadPaneRecent (herdrFor paneID) (rawID paneID) 80 "ansi") in
        match r_err r with
        | Some e => failErr requestID "approval" paneID e
        | None =>
            let c := Classify (r_content r) (State.Agent (State.info a)) in
            if negb (String.eqb (k_Kind c) State.AttentionApproval) || negb (len (k_Options c) =? Total p) ||
               (len (k_Options c) <=? ap_Index p)
            then fail requestID "approval" paneID "Approval choices are no longer available"
            else
              let* stale := paneSessionCurrent token requestID "approval" in
              match stale with
              | Some r => ret r
              | None =>
                  let* e := sendQuestionKeysForSession token paneID (QuestionInput.approvalKeys (ap_Index p) (k_ApprovalFocus c)) in
                  match e with
                  | Some e => failErr requestID "approval" paneID e
                  | None => ret (accepted requestID "approval" paneID)
                  end
              end
        end
      else fail requestID "approval" paneID "This approval request is no longer current"
  | None => fail requestID "approval" paneID "This approval request is no longer current"
  end.

Definition approvalEffect (requestID paneID : string) (p : approvalPayload) (token : WorkerToken) : M CommandResult :=
  let* current := look env (fun s => State.AgentOf s paneID) in
  approveCurrent requestID paneID p token current.

Definition replayLedger (key payloadHash : string) : M (option CommandResult * bool * bool) :=
  fun l => (replays env l key payloadHash, l ++ [Asked key]).

(** after the checks: submit, and watch for the agent to go on *)
Definition submitApproval (ctx : Ctx) (receivedAt : time) (requestID paneID : string) (p : approvalPayload) : M CommandResult :=
  let pay := PApproval (EventID p) (ap_Index p) (Total p) in
  let* generation := look env (fun s => State.Generation s paneID) in
  let* rx := schedule ctx (command ctx receivedAt requestID "approval" paneID approvalDeadline false
                             (approvalLedgerKey paneID (EventID p)) (hashPayload pay)) pay
               (fun token => effect (approvalEffect requestID paneID p token) false) in
  let r := rx.1 in
  do* (if cr_OK r && negb (cr_replayed r)
       then
         do* recordActivity "approval" "approved" ("Approved option " ++ pretty (ap_Index p + 1))%string paneID requestID in
         do* wake in
         did (Watches (ApprovalWatcher requestID paneID (EventID p) (u64 generation)))
       else ret tt) in
  ret r.

(** the agent does not wait any more: an answer that was given before is repeated, one
    that is under way is joined *)
Definition replayApproval (ctx : Ctx) (receivedAt : time) (requestID paneID : string) (p : approvalPayload) : M CommandResult :=
  let* rfc := replayLedger (approvalLedgerKey paneID (EventID p)) (hashPayload (PApproval (EventID p) (ap_Index p) (Total p))) in
  let '(replay, found, conflict) := rfc in
  if conflict then fail requestID "approval" paneID "A different response was already submitted"
  else match replay with
       | Some r => ret (set_request requestID r)
       | None => if found then submitApproval ctx receivedAt requestID paneID p
                 else fail requestID "approval" paneID "Agent is no longer waiting for approval"
       end.

Definition handleApproval (ctx : Ctx) (receivedAt : time) (requestID paneID : string) (msg : gmap string any) : M CommandResult :=
  let p := mkApproval (stringValue msg "event_id") (intValue wideInt (valueOf msg "index") 0)
             (intValue wideInt (valueOf msg "total") 2) in
  if String.eqb paneID "" || String.eqb (EventID p) "" then fail requestID "approval" paneID "Agent and approval event are required"
  else if (Total p <? 2) || (Total p >? 20) || (ap_Index p <? 0) || (ap_Index p >=? Total p)
  then fail requestID "approval" paneID "Approval choice is no longer available"
  else
    let* agent := look env (fun s => State.AgentOf s paneID) in
    match agent with
    | Some a =>
        if isBlocked a then
          if negb (sameEvent a (EventID p)) then fail requestID "approval" paneID "This approval request is no longer current"
          else if negb (isApproval a p) then fail requestID "approval" paneID "Approval choices are no longer available"
          else submitApproval ctx receivedAt requestID paneID p
        else replayApproval ctx receivedAt requestID paneID p
    | None => replayApproval ctx receivedAt requestID paneID p
    end.

(** ** Questions *)

(** the indices of a JSON array: whole numbers, not negative *)
Fixpoint selectedIndices (l : list any) : option (list Z) :=
  match l with
  | [] => Some []
  | AFloat m e :: l =>
      if negb (floatNonNeg m) || negb (isInt wideSame m e) then None
      else cons (intOfFloat wideInt m e) <$> selectedIndices l
  | _ => None
  end.

Fixpoint dropRepeats (last : Z) (l : list Z) : list Z :=
  match l with
  | [] => []
  | x :: l => if x =? last then dropRepeats last l else x :: dropRepeats x l
  end.
Definition uniqueInts (l : list Z) : list Z :=
  match l with
  | [] => []
  | x :: l => x :: dropRepeats x l
  end.

Definition decodeQuestionPayload (msg : gmap string any) : result string questionPayload :=
  let interactionID := stringValue msg "interaction_id" in
  let otherText := stringValue msg "other_text" in
  let otherSelected := match valueOf msg "other_selected" with ABool b => b | _ => false end in
  if String.eqb interactionID "" then Err "agent and question are required"%string
  else if runeCount otherText >? promptMaxChars then Err "other answer is longer than 100,000 characters"%string
  else
    match (match valueOf msg "selected_indices" with
           | AList raw => selectedIndices raw
           | AInts typed => Some typed
           | _ => None
           end) with
    | None => Err "invalid question selection"%string
    | Some raw =>
        let selected := uniqueInts (merge_sort Z.le raw) in
        if bool_decide (selected = []) && String.eqb otherText "" && negb otherSelected
        then Err "choose an answer or enter an Other answer"%string
        else if negb (String.eqb otherText "") && negb otherSelected then Err "other text must be selected"%string
        else Ok (mkQuestion interactionID selected otherSelected otherText false "")
    end.

Definition boolInt (b : bool) : Z := if b then 1 else 0.

(** [None] when the answer fits the question *)
Definition validateQuestionPayload (p : questionPayload) (i : QuestionInput.Interaction) : option string :=
  if String.eqb (Navigation p) "previous" && negb (QuestionInput.CanGoBack i)
  then Some "there is no previous question to open"%string
  else if String.eqb (Navigation p) "next" &&
          ((QuestionInput.QuestionIndex i =? 0) || (QuestionInput.QuestionIndex i >=? QuestionInput.QuestionTotal i))
  then Some "there is no next question to open"%string
  else if Clarify p && (negb (QuestionInput.CanChat i) || negb (String.eqb (QuestionInput.Agent i) "claude"))
  then Some "this question can no longer be discussed"%string
  else if negb (String.eqb (Navigation p) "") || Clarify p then None
  else if existsb (fun index => (index <? 0) || (index >=? len (QuestionInput.Options i))) (Selected p)
  then Some "question selection is no longer available"%string
  else
    let otherIsChoice := OtherSelected p &&
      (negb (String.eqb (TrimSpace (OtherText p)) "") || QuestionInput.AllowEmpty (QuestionInput.other i)) in
    if QuestionInput.Hidden (QuestionInput.other i) && OtherSelected p
    then Some "this question does not accept a custom answer"%string
    else if String.eqb (QuestionInput.Kind i) "single_select" && negb (len (Selected p) + boolInt otherIsChoice =? 1)
    then Some "choose one answer or enter an Other answer"%string
    else None.

Definition intentOf (p : questionPayload) : QuestionInput.InputIntent :=
  QuestionInput.mkIntent (Navigation p) (Clarify p) (Selected p) (OtherSelected p) (OtherText p).

(** the keys of a step *)
Definition stepKeys (token : WorkerToken) (paneID : string) (dispatched : bool) (keys : list string)
    : M (option (list sentinel) * bool) :=
  match keys with
  | [] => ret (None, dispatched)
  | _ =>
      let* e := sendQuestionKeysForSession token paneID keys in
      match e with
      | None => ret (None, true)
      | Some e => ret (Some (if dispatched then partiallyApplied e else e), dispatched)
      end
  end.

(** the text of a step *)
Definition stepText (token : WorkerToken) (paneID : string) (dispatched : bool) (text : string)
    : M (option (list sentinel) * bool) :=
  if String.eqb text "" then ret (None, dispatched)
  else
    let* ok := paneSession token in
    if negb ok then ret (Some [PaneReplaced], dispatched)
    else
      let* r := callHerdr env (SendText (herdrFor paneID) (rawID paneID) text) in
      match r_err r with
      | None => ret (None, true)
      | Some e => ret (Some (if dispatched then partiallyApplied e else e), dispatched)
      end.

Fixpoint runSteps (token : WorkerToken) (paneID : string) (dispatched : bool) (steps : list QuestionInput.InputStep)
    : M (option (list sentinel)) :=
  match steps with
  | [] => ret None
  | step :: steps =>
      let* ed := stepKeys token paneID dispatched (QuestionInput.Keys step) in
      match ed.1 with
      | Some e => ret (Some e)
      | None =>
          let* ed := stepText token paneID ed.2 (QuestionInput.Text step) in
          match ed.1, steps with
          | Some e, _ => ret (Some e)
          | None, [] => ret None
          | None, _ =>
              let* e := contextDelay env in
              match e with
              | Some e => ret (Some (partiallyApplied e))
              | None => runSteps token paneID ed.2 steps
              end
          end
      end
  end.

Definition executeQuestion (token : WorkerToken) (paneID : string) (p : questionPayload) (i : QuestionInput.Interaction)
    : M (option (list sentinel)) :=
  match QuestionInput.PlanInput i (intentOf p) with
  | None => do* did Panicked in ret None
  | Some steps => runSteps token paneID false steps
  end.

(** a question can be answered while the agent waits or has stopped *)
Definition answerable (a : option State.AgentState) : option State.AgentState :=
  match a with
  | Some a => if String.eqb (State.Status a) "blocked" || String.eqb (State.Status a) "done" then Some a else None
  | None => None
  end.

Definition questionChanged : string := "The question changed before the answer was applied".

(** the effect, and the interaction it answered *)
Definition questionEffect (requestID action paneID : string) (p : questionPayload) (token : WorkerToken)
    : M (EffectResult * option QuestionInput.Interaction) :=
  let done (m : M CommandResult) := let* r := m in ret (mkEffect (Some r) false, None) in
  let* current := look env (fun s => State.AgentOf s paneID) in
  match answerable current with
  | None => done (fail requestID action paneID questionChanged)
  | Some a =>
      let* r := callHerdr env (ReadPaneRecent (herdrFor paneID) (rawID paneID) 80 "ansi") in
      match r_err r with
      | Some e => done (failErr requestID action paneID e)
      | None =>
          match Parse (r_content r) (State.Agent (State.info a)) with
          | None => done (fail requestID action paneID questionChanged)
          | Some i =>
              do* (if OtherSelected p then did (Mutated (CustomAnswer paneID (QuestionInput.Question i) (OtherText p))) else ret tt) in
              if negb (String.eqb (QuestionInput.ID i) (InteractionID p)) then done (fail requestID action paneID questionChanged)
              else match validateQuestionPayload p i with
                   | Some text => done (fail requestID action paneID text)
                   | None =>
                       let keep (m : M CommandResult) := let* r := m in ret (mkEffect (Some r) false, Some i) in
                       let* stale := paneSessionCurrent token requestID action in
                       match stale with
                       | Some r => keep (ret r)
                       | None =>
                           let* e := executeQuestion token paneID p i in
                           match e with
                           | None => keep (ret (accepted requestID action paneID))
                           | Some e =>
                               if Is e PaneReplaced then keep (fail requestID action paneID replacedText)
                               else keep (failErr requestID action paneID e)
                           end
                       end
                   end
          end
      end
  end.

Definition actionOf (p : questionPayload) : string :=
  if negb (String.eqb (Navigation p) "") then "navigate_question"
  else if Clarify p then "clarify_question" else "answer_question".

Definition bareInteraction (id : string) : QuestionInput.Interaction :=
  QuestionInput.mkInteraction id "" "" [] (QuestionInput.mkOther false "" false false) false false 0 0
    (QuestionInput.mkFocus "" 0) 0 "" false.

Definition interactionSnapshot (id : string) (i : option QuestionInput.Interaction) : QuestionInput.Interaction :=
  match i with
  | Some i => if String.eqb (QuestionInput.ID i) id then i else bareInteraction id
  | None => bareInteraction id
  end.

Definition scheduleQuestion (ctx : Ctx) (receivedAt : time) (requestID paneID : string) (p : questionPayload) : M CommandResult :=
  let action := actionOf p in
  let pay := PQuestion (InteractionID p) (Selected p) (OtherSelected p) (OtherText p) (Clarify p) (Navigation p) in
  let key := questionOperationLedgerKey action paneID (InteractionID p) requestID in
  let* rx := schedule ctx (command ctx receivedAt requestID "question" paneID questionDeadline false key (hashPayload pay)) pay
               (questionEffect requestID action paneID p) in
  let r := rx.1 in
  do* (if cr_OK r && negb (cr_replayed r)
       then
         do* wake in
         let* generation := look env (fun s => State.Generation s paneID) in
         did (Watches (QuestionWatcher key requestID action paneID
                (interactionSnapshot (InteractionID p) (mjoin rx.2)) (Navigation p) (u64 generation)))
       else ret tt) in
  ret r.

Definition submitQuestion (ctx : Ctx) (receivedAt : time) (requestID paneID : string) (p : questionPayload) : M CommandResult :=
  if String.eqb paneID "" then fail requestID "answer_question" paneID "Agent is required"
  else
    let action := actionOf p in
    let pay := PQuestion (InteractionID p) (Selected p) (OtherSelected p) (OtherText p) (Clarify p) (Navigation p) in
    let* rfc := replayLedger (questionOperationLedgerKey action paneID (InteractionID p) requestID) (hashPayload pay) in
    let '(replay, found, conflict) := rfc in
    if conflict then fail requestID action paneID "A different response was already submitted"
    else
      let* agent := look env (fun s => State.AgentOf s paneID) in
      match replay with
      | Some r => ret (set_request requestID r)
      | None =>
          if bool_decide (is_Some (answerable agent)) || found then scheduleQuestion ctx receivedAt requestID paneID p
          else fail requestID action paneID "Agent is no longer waiting for a question"
      end.

Definition handleQuestion (ctx : Ctx) (receivedAt : time) (requestID paneID : string) (msg : gmap string any) : M CommandResult :=
  match decodeQuestionPayload msg with
  | Err text => fail requestID "answer_question" paneID text
  | Ok p => submitQuestion ctx receivedAt requestID paneID p
  end.

Definition handleClarifyQuestion (ctx : Ctx) (receivedAt : time) (requestID paneID : string) (msg : gmap string any) : M CommandResult :=
  let id := stringValue msg "interaction_id" in
  if String.eqb id "" then fail requestID "clarify_question" paneID "Agent and question are required"
  else submitQuestion ctx receivedAt requestID paneID (mkQuestion id [] false "" true "").

Definition handleNavigateQuestion (ctx : Ctx) (receivedAt : time) (requestID paneID : string) (msg : gmap string any) : M CommandResult :=
  let direction := stringValue msg "direction" in
  if negb (String.eqb direction "previous") && negb (String.eqb direction "next")
  then fail requestID "navigate_question" paneID "Question navigation is no longer available"
  else
    let id := stringValue msg "interaction_id" in
    if String.eqb id "" then fail requestID "navigate_question" paneID "Question is required"
    else submitQuestion ctx receivedAt requestID paneID (mkQuestion id [] false "" false direction).

(** ** Starting agents ([lifecycle.go]) *)

Record StartRequest := mkStart {
  s_ProfileID : string; s_WorkspaceID : string; s_Name : string; s_Cwd : string; s_Prompt : string; s_Session : string }.
Record StartResult := mkStarted { st_PaneID : string; st_Name : string; st_Cwd : string; st_WorkspaceID : string }.

Definition set_Cwd (cwd : string) (r : StartRequest) : StartRequest :=
  mkStart (s_ProfileID r) (s_WorkspaceID r) (s_Name r) cwd (s_Prompt r) (s_Session r).

(** the elements of a clean absolute path *)
Definition elements_ (path : string) : list string := filter (fun e => e <> ""%string) (SplitByte slash path).

(** what [filepath.Rel] leaves of two clean absolute paths after their common part *)
Fixpoint uncommon (base target : list string) : list string * list string :=
  match base, target with
  | b :: bs, t :: ts => if String.eqb b t then uncommon bs ts else (base, target)
  | _, _ => (base, target)
  end.

(** [ResolveCwd]: a directory below the home directory, with its links resolved.
    [relative] starts with [..] when an element of the home directory is left over, and
    is [.] when nothing is. *)
Definition ResolveCwd (fs : Files) (home raw : string) : result string string :=
  if String.eqb raw "" then Err "cwd is required"%string
  else
    match absPath fs home, absPath fs raw with
    | None, _ => Err "home directory is unavailable"%string
    | _, None => Err "cwd is invalid"%string
    | Some home, Some absolute =>
        match evalSymlinks fs home, evalSymlinks fs absolute with
        | None, _ => Err "home directory is unavailable"%string
        | _, None => Err "cwd is not an accessible directory inside the home directory"%string
        | Some resolvedHome, Some resolved =>
            match uncommon (elements_ resolvedHome) (elements_ resolved) with
            | (_ :: _, _) => Err "cwd must be inside the home directory"%string
            | ([], []) => Err "cwd must be a project directory below the home directory"%string
            | ([], _) =>
                match openBelow fs resolvedHome resolved with
                | NoRoot => Err "home directory is unavailable"%string
                | NoEntry => Err "cwd is not an accessible directory inside the home directory"%string
                | NotDirectory => Err "cwd is not an accessible directory"%string
                | Directory => Ok resolved
                end
            end
        end
    end.

(** [^[a-z][a-z0-9_-]{0,31}$]; in Go [$] is the end of the text *)
Definition lowerLetter (b : Z) : bool := (97 <=? b) && (b <=? 122).
Definition nameByte (b : Z) : bool := lowerLetter b || ((48 <=? b) && (b <=? 57)) || (b =? 95) || (b =? 45).
Definition agentName (name : string) : bool :=
  match bytes_of_string name with
  | first :: rest => lowerLetter first && forallb nameByte rest && (len rest <=? 31)
  | [] => false
  end.

Context (home : string).

Definition ValidateStart (profile : option Profile) (fs : Files) (r : StartRequest) : result string (Profile * StartRequest) :=
  match profile with
  | None => Err "profile_id is not available"%string
  | Some profile =>
      if negb (agentName (s_Name r)) then Err "name must match [a-z][a-z0-9_-]{0,31}"%string
      else if runeCount (s_Prompt r) >? promptMaxChars then Err "prompt exceeds maximum length"%string
      else let! cwd := ResolveCwd fs home (s_Cwd r) in Ok (profile, set_Cwd cwd r)
  end.

(** [target]: the client, the prefix and the workspace id herdr knows *)
Definition target (sessions : string -> string) (r : StartRequest) : string * string * string :=
  if negb (d_sessions d) then ("", "", s_WorkspaceID r)%string
  else if negb (String.eqb (s_WorkspaceID r) "")
  then let (prefix, raw) := HerdrSessions.SplitID (s_WorkspaceID r) in (prefix, prefix, raw)
  else (sessions (s_Session r), sessions (s_Session r), ""%string).

Definition workspaceExists (ws : list State.Workspace) (id : string) : bool := existsb (fun w => String.eqb (State.ws_ID w) id) ws.

(** [SelectWorkspaceForCwd] *)
Definition countsOf (fs : Files) (cwd : string) (panes : list HerdrSessions.Pane) (id : string) : Z * Z :=
  let inside := filter (fun p => HerdrSessions.pane_WorkspaceID p = id) panes in
  (len (filter (fun p => evalSymlinks fs (HerdrSessions.pane_Cwd p) = Some cwd) inside), len inside).

Definition theOnly {A} (l : list A) : option A := match l with [x] => Some x | _ => None end.

(** [filepath.Base] of a clean absolute path *)
Definition baseName (path : string) : string := default "/"%string (last (elements_ path)).

Definition SelectWorkspaceForCwd (fs : Files) (cwd : string) (panes : list HerdrSessions.Pane) (ws : list State.Workspace) : string :=
  match evalSymlinks fs cwd with
  | None => ""
  | Some t =>
      let ids := remove_dups (filter (fun id => id <> ""%string) (HerdrSessions.pane_WorkspaceID <$> panes)) in
      let counts := countsOf fs t panes in
      let candidates := filter (fun id => 0 < (counts id).1) ids in
      let isHome := bool_decide (evalSymlinks fs home = Some t) in
      let labelled := filter (fun w => State.ws_ID w ∈ candidates /\
                        (State.ws_Label w = baseName t \/ isHome = true /\ State.ws_Label w = "~"%string)) ws in
      match theOnly labelled with
      | Some w => State.ws_ID w
      | None =>
          match theOnly (filter (fun id => (counts id).1 = (counts id).2) candidates) with
          | Some id => id
          | None => default ""%string (theOnly (filter (fun id => (counts id).2 < (counts id).1 * 2) candidates))
          end
      end
  end.

(** a call that returns an error *)
Definition attempt (c : call) : M (reply * option (list sentinel)) := let* r := callHerdr env c in ret (r, r_err r).

Definition createTarget (client workspaceID label cwd : string) : M (HerdrSessions.CreateResult + list sentinel) :=
  if negb (String.eqb workspaceID "") then
    let* re := attempt (TabCreate client workspaceID cwd label) in
    ret (match re.2 with Some e => inr e | None => inl (r_created re.1) end)
  else
    let workspaceLabel := baseName cwd in
    let* re := attempt (WorkspaceCreate client cwd (if String.eqb workspaceLabel "/" then "workspace" else workspaceLabel)) in
    match re.2 with
    | Some e => ret (inr e)
    | None =>
        let created := r_created re.1 in
        if String.eqb (HerdrSessions.cre_TabID created) "" then ret (inl created)
        else
          let* rn := attempt (TabRename client (HerdrSessions.cre_TabID created) label) in
          match rn.2 with
          | None => ret (inl created)
          | Some e => do* callHerdr env (StopPane client (HerdrSessions.cre_PaneID created)) in ret (inr e)
          end
    end.

(** the waits between attempts are 150, 300, 600, 1200 and then 1500 milliseconds, so
    the 35 seconds a start may take are over after 27 of them; a custom agent is looked
    for every 250 milliseconds *)
Definition kindAttempts : nat := 27.
Definition customPolls : nat := 140.

Fixpoint startKindAgent (fuel : nat) (client kind name id : string) : M (option (list sentinel)) :=
  let* re := attempt (StartAgent client name kind id) in
  match re.2 with
  | None => ret None
  | Some e =>
      if negb (IsRefused e) then ret (Some e)
      else
        let* done := contextDelay env in
        match done, fuel with
        | Some _, _ | None, O => ret (Some e)
        | None, S fuel => startKindAgent fuel client kind name id
        end
  end.

Fixpoint waitCustomAgent (fuel : nat) (client name id : string) : M (option (list sentinel)) :=
  let* re := attempt (AgentGet client id) in
  if bool_decide (re.2 = None) && r_running re.1 then let* re := attempt (RenameAgent client id name) in ret re.2
  else
    let* done := contextDelay env in
    match done, fuel with
    | Some _, _ | None, O => ret (Some [ErrDispatchedUnknown])
    | None, S fuel => waitCustomAgent fuel client name id
    end.

Definition startInTarget (client : string) (profile : Profile) (name id : string) : M (option (list sentinel)) :=
  if negb (String.eqb (p_Kind profile) "") then startKindAgent kindAttempts client (p_Kind profile) name id
  else if bool_decide (p_Argv profile = []) then ret (Some [OtherError "profile has no executable argv"])
  else
    let* re := attempt (PaneRun client id (p_Argv profile)) in
    match re.2 with
    | Some e => ret (Some e)
    | None => waitCustomAgent customPolls client name id
    end.

(** the pane a start of this name and directory already made *)
Definition reconcileExisting (fs : Files) (resolve : string -> string -> string) (prefix rawWorkspace profileID : string)
    (r : StartRequest) (panes : list HerdrSessions.Pane) : option string :=
  head (omap (fun p =>
    let paneID := HerdrSessions.QualifyID prefix (HerdrSessions.pane_ID p) in
    if String.eqb (HerdrSessions.pane_Name p) (s_Name r) &&
       bool_decide (evalSymlinks fs (HerdrSessions.pane_Cwd p) = Some (s_Cwd r)) &&
       (String.eqb rawWorkspace "" || String.eqb (HerdrSessions.pane_WorkspaceID p) rawWorkspace) &&
       String.eqb (resolve paneID (HerdrSessions.pane_Agent p)) profileID
    then Some paneID else None) panes).

Definition started (paneID workspaceID : string) (r : StartRequest) : StartResult :=
  mkStarted paneID (s_Name r) (s_Cwd r) workspaceID.
Definition noStart : StartResult := mkStarted "" "" "" "".

(** [Sessions.Prefix] as the lifecycle reads it *)
Context (sessionPrefix : list Ev -> string -> string).

Definition startNew (client prefix workspaceID : string) (profile : Profile) (r : StartRequest) (fs : Files)
    : M (StartResult * option (list sentinel)) :=
  let* tooLate := askEnv (late env) in
  if tooLate then ret (noStart, Some [ErrNotStarted])
  else
    let* inv := attempt (GetInventory client) in
    match inv.2 with
    | Some e => ret (noStart, Some e)
    | None =>
        let* ws := attempt (WorkspaceList client) in
        match ws.2 with
        | Some e => ret (noStart, Some e)
        | None =>
            if negb (String.eqb workspaceID "") && negb (workspaceExists (r_workspaces ws.1) workspaceID)
            then ret (noStart, Some [OtherError "workspace is unavailable"])
            else
              let workspaceID := if String.eqb workspaceID ""
                                 then SelectWorkspaceForCwd fs (s_Cwd r) (r_panes inv.1) (r_workspaces ws.1) else workspaceID in
              let* made := createTarget client workspaceID (s_Name r) (s_Cwd r) in
              match made with
              | inr e => ret (noStart, Some e)
              | inl created =>
                  let paneID := HerdrSessions.QualifyID prefix (HerdrSessions.cre_PaneID created) in
                  let result := started paneID (HerdrSessions.QualifyID prefix (HerdrSessions.cre_WorkspaceID created)) r in
                  let* e := startInTarget client profile (s_Name r) (rawID paneID) in
                  match e with
                  | Some e => ret (result, Some e)
                  | None => do* did (Mutated (ProfileRemembered paneID (p_ID profile))) in ret (result, None)
                  end
              end
        end
    end.

(** [Lifecycle.Start] *)
Definition Start (profile : Profile) (r : StartRequest) : M (StartResult * option (list sentinel)) :=
  let* fs := askEnv (files env) in
  let* prefixes := askEnv sessionPrefix in
  let '(client, prefix, rawWorkspace) := target prefixes r in
  let* inv := attempt (GetInventory client) in
  let* resolve := askEnv (resolvePane env) in
  let existing := match inv.2 with
                  | Some _ => None
                  | None => reconcileExisting fs resolve prefix rawWorkspace (p_ID profile) r (r_panes inv.1)
                  end in
  match existing with
  | Some paneID =>
      do* did (Mutated (ProfileRemembered paneID (p_ID profile))) in
      ret (started paneID (s_WorkspaceID r) r, None)
  | None => startNew client prefix rawWorkspace profile r fs
  end.

(** the result shown to the phone when the first prompt was not confirmed *)
Definition warned : string := "warning".

Definition startEffect (requestID : string) (profile : Profile) (r : StartRequest) (token : WorkerToken) : M CommandResult :=
  let* se := Start profile r in
  match se.2 with
  | Some e => failErr requestID "agent_start" (st_PaneID se.1) e
  | None => ret (completed requestID "agent_start" (st_PaneID se.1) "started")
  end.

(** the first prompt goes to a pane the poller may not know yet *)
Definition initialPrompt (ctx : Ctx) (receivedAt : time) (requestID paneID prompt : string) (r : CommandResult) : M CommandResult :=
  if String.eqb prompt "" || String.eqb paneID "" then ret r
  else
    let* ga := look env (fun s => State.PaneSession s paneID) in
    let ctx := mkCtx (c_receipt ctx) (Some (mkAdmission (u64 ga.1) ga.2 true)) (c_admit ctx) in
    let* pr := handlePrompt ctx receivedAt (requestID ++ "-initial")%string paneID prompt in
    ret (if cr_OK pr then r else set_phase "completed_with_warning" (set_data warned r)).

(** with the launch profiles installed, as the server does *)
Definition handleAgentStart (ctx : Ctx) (receivedAt : time) (requestID : string) (msg : gmap string any) : M CommandResult :=
  let request := mkStart (stringValue msg "profile_id") (stringValue msg "workspace_id") (stringValue msg "name")
                   (stringValue msg "cwd") (stringValue msg "prompt") (stringValue msg "herdr_session") in
  if String.eqb (s_ProfileID request) "" || String.eqb (s_Name request) "" || String.eqb (s_Cwd request) ""
  then fail requestID "agent_start" "" "Profile, name, and working directory are required"
  else
    let pay r := PStart (s_ProfileID r) (s_WorkspaceID r) (s_Name r) (s_Cwd r) (s_Prompt r) (s_Session r) in
    let* profile := askEnv (fun l => profileOf env l (s_ProfileID request)) in
    let* fs := askEnv (files env) in
    match ValidateStart profile fs request with
    | Err text => fail requestID "agent_start" "" text
    | Ok (profile, valid) =>
        let* rx := schedule ctx (command ctx receivedAt requestID "agent_start" "" agentStartDeadline true
                                   ("start" ++ nul ++ requestID)%string (hashPayload (pay request))) (pay valid)
                     (fun token => effect (startEffect requestID profile valid token) false) in
        let r := rx.1 in
        if negb (cr_OK r) then
          do* (if negb (String.eqb (cr_PaneID r) "") then do* did (Mutated TopologyChanged) in wake else ret tt) in
          ret r
        else if cr_replayed r then ret r
        else
          let paneID := cr_PaneID r in
          let* r := initialPrompt ctx receivedAt requestID paneID (s_Prompt valid) r in
          do* recordActivity "agent_start" "started" ("Started " ++ s_Name valid)%string paneID requestID in
          do* did (Mutated TopologyChanged) in
          do* wake in
          ret r
    end.

(** a replacement is started before the old pane is closed *)
Definition clearEffect (requestID paneID : string) (profile : Profile) (r : StartRequest) (token : WorkerToken) : M CommandResult :=
  let* stale := paneSessionCurrent token requestID "agent_clear" in
  match stale with
  | Some r => ret r
  | None =>
      let* se := Start profile r in
      match se.2 with
      | Some e => failErr requestID "agent_clear" paneID e
      | None =>
          let data := ("pane_id=" ++ st_PaneID se.1)%string in
          let* stale := paneSessionCurrent token requestID "agent_clear" in
          match stale with
          | Some r => ret r
          | None =>
              let* re := attempt (StopPane (herdrFor paneID) (rawID paneID)) in
              match re.2 with
              | Some _ => ret (set_phase "completed_with_warning" (completed requestID "agent_clear" paneID data))
              | None => ret (completed requestID "agent_clear" paneID data)
              end
          end
      end
  end.

Context (clearName : time -> string).

Definition handleClear (ctx : Ctx) (receivedAt : time) (requestID paneID : string) : M CommandResult :=
  if String.eqb paneID "" then fail requestID "agent_clear" paneID "Agent is required"
  else
    let* agent := look env (fun s => State.AgentOf s paneID) in
    match agent with
    | None => fail requestID "agent_clear" paneID "Agent is no longer available"
    | Some a =>
        let* profileID := askEnv (fun l => resolvePane env l paneID (State.Agent (State.info a))) in
        let* profile := askEnv (fun l => profileOf env l profileID) in
        match profile with
        | None => fail requestID "agent_clear" paneID "This agent does not match an available launch profile"
        | Some profile =>
            let request := mkStart (p_ID profile) "" (clearName receivedAt) (State.Cwd (State.info a)) ""
                             (State.HerdrSession (State.info a)) in
            let* again := askEnv (fun l => profileOf env l (p_ID profile)) in
            let* fs := askEnv (files env) in
            match ValidateStart again fs request with
            | Err text => fail requestID "agent_clear" paneID text
            | Ok (_, valid) =>
                let* rx := schedule ctx (command ctx receivedAt requestID "agent_clear" paneID agentStartDeadline false
                                           ("clear" ++ nul ++ paneID ++ nul ++ requestID)%string "")
                             (PStart (s_ProfileID valid) (s_WorkspaceID valid) (s_Name valid) (s_Cwd valid) (s_Prompt valid) (s_Session valid))
                             (fun token => effect (clearEffect requestID paneID profile valid token) true) in
                let r := rx.1 in
                do* (if cr_OK r && negb (cr_replayed r)
                     then
                       do* did (Mutated (BumpPane paneID)) in
                       do* did (Mutated TopologyChanged) in
                       do* did (Mutated (ProfileForgotten paneID)) in
                       do* recordActivity "agent_clear" "cleared" "Cleared agent" paneID requestID in wake
                     else ret tt) in
                ret r
            end
        end
    end.

(** ** The entry points *)

(** [time.Parse(time.RFC3339Nano, …)] *)
Context (parseTime : string -> option time).

(** the handler of an action *)
Definition route (ctx : Ctx) (receivedAt : time) (requestID paneID action : string) (msg : gmap string any) : M CommandResult :=
  if String.eqb action "submit_prompt" || String.eqb action "prompt"
  then handlePrompt ctx receivedAt requestID paneID (stringValue msg "text")
  else if String.eqb action "send_keys" || String.eqb action "keys" then handleKeys ctx receivedAt requestID paneID msg
  else if String.eqb action "send_text" || String.eqb action "text" then handleText ctx receivedAt requestID paneID msg
  else if String.eqb action "send_secret" then handleSecret ctx receivedAt requestID paneID msg
  else if String.eqb action "respond" then handleApproval ctx receivedAt requestID paneID msg
  else if String.eqb action "answer_question" then handleQuestion ctx receivedAt requestID paneID msg
  else if String.eqb action "navigate_question" then handleNavigateQuestion ctx receivedAt requestID paneID msg
  else if String.eqb action "clarify_question" then handleClarifyQuestion ctx receivedAt requestID paneID msg
  else if String.eqb action "agent_stop" then handleStop ctx receivedAt requestID paneID
  else if String.eqb action "agent_rename" then handleTabRename ctx receivedAt requestID paneID msg
  else if String.eqb action "tab_reorder" then handleTabReorder ctx receivedAt requestID paneID msg
  else if String.eqb action "acknowledge_pane" then handleAcknowledge requestID paneID
  else if String.eqb action "agent_start" then handleAgentStart ctx receivedAt requestID msg
  else if String.eqb action "agent_clear" || String.eqb action "agent_restart" then handleClear ctx receivedAt requestID paneID
  else ret (mkResult requestID action false "failed" "Unknown command" "" "" false).

Definition Handle (ctx : Ctx) (now : time) (msg : gmap string any) : M CommandResult :=
  let receivedAt := match valueOf msg "_server_received_at" with AString raw => default now (parseTime raw) | _ => now end in
  let sequence := uint64Value wideInt (valueOf msg "_server_sequence") in
  let ctx := if sequence =? 0 then ctx else mkCtx sequence (c_session ctx) (c_admit ctx) in
  let action := stringValue msg "action" in
  let action := if String.eqb action "" then stringValue msg "type" else action in
  let requestID := stringValue msg "request_id" in
  let requestID := if String.eqb requestID "" then ("req-" ++ pretty (receivedAt - State.unixEpoch))%string else requestID in
  let paneID := stringValue msg "pane_id" in
  let* ctx := (if String.eqb paneID "" then ret ctx
               else let* ga := look env (fun s => State.PaneSession s paneID) in
                    ret (mkCtx (c_receipt ctx) (Some (mkAdmission (u64 ga.1) ga.2 false)) (c_admit ctx))) in
  route ctx receivedAt requestID paneID action msg.

Definition HandleAdmitted (ctx : Ctx) (now : time) (msg : gmap string any) : M CommandResult :=
  let ctx := mkCtx (c_receipt ctx) (c_session ctx) true in
  let* r := Handle ctx now msg in
  do* signal ctx in
  ret r.

(** ** Reading a pane *)

(** the last [limit] lines: [end] is the number of bytes before a final newline *)
Fixpoint capFrom (index : nat) (remaining : Z) (content : bytes) : bytes :=
  match index with
  | O => content
  | S index =>
      if bool_decide (content !! index = Some 10) then
        if remaining - 1 =? 0 then drop (S index) content else capFrom index (remaining - 1) content
      else capFrom index remaining content
  end.

Definition capPaneContentLines (content : bytes) (limit : Z) : bytes :=
  if (limit <? 1) || bool_decide (content = []) then content
  else
    let stop := if bool_decide (last content = Some 10) then (length content - 1)%nat else length content in
    capFrom stop limit content.

Definition readPaneForDisplay (paneID : string) (lines : Z) (format : string) (resized : bool) : M reply :=
  if negb (String.eqb format "ansi") then callHerdr env (ReadPaneVisible (herdrFor paneID) (rawID paneID) lines format)
  else
    let* claude := (if resized then ret false
                    else look env (fun s => from_option (fun a => isClaudeAgent (State.Agent (State.info a))) false
                                              (State.AgentOf s paneID))) in
    if claude then callHerdr env (ReadPane (herdrFor paneID) (rawID paneID) lines format)
    else callHerdr env (ReadPaneRecent (herdrFor paneID) (rawID paneID) lines format).

(** the answer to a read *)
Record PaneContent := mkContent {
  pc_PaneID : string; pc_Content : bytes; pc_Format : string; pc_Truncated : bool; pc_ViewportOnly : bool;
  pc_ViewportRows : option Z; pc_Error : string }.
Definition contentError (paneID format error : string) : PaneContent := mkContent paneID [] format false false None error.

(** callers that ask for the same thing share one read; this is the one that does it *)
Definition HandleReadPane (msg : gmap string any) : M PaneContent :=
  let paneID := stringValue msg "pane_id" in
  if String.eqb paneID "" then ret (mkContent "" [] "text" false false None "")
  else
    do* handleAcknowledge (stringValue msg "request_id") paneID in
    let lines := Z.min 10000 (Z.max 1 (intValue wideInt (valueOf msg "lines") 30)) in
    let format := if String.eqb (stringValue msg "format") "ansi" then "ansi"%string else "text"%string in
    let columns := Z.max 0 (intValue wideInt (valueOf msg "terminal_columns") 0) in
    let* generation := look env (fun s => State.Generation s paneID) in
    let* revision := look env (fun s => State.ContentRevision s paneID) in
    let* r := readPaneForDisplay paneID lines format (0 <? columns) in
    match r_err r with
    | Some _ => ret (contentError paneID format "Unable to read the agent pane")
    | None =>
        let* generation' := look env (fun s => State.Generation s paneID) in
        if negb (generation' =? generation)
        then ret (contentError paneID format "The agent pane was replaced while it was being read")
        else
          let* revision' := look env (fun s => State.ContentRevision s paneID) in
          if negb (revision' =? revision)
          then ret (contentError paneID format "The agent state changed while the pane was being read")
          else
            let rows := intValue wideInt (valueOf msg "terminal_rows") 0 in
            ret (mkContent paneID (capPaneContentLines (bytes_of_string (r_content r)) lines) format (r_truncated r) (0 <? columns)
                   (if 0 <? rows then Some rows else None) "")
    end.

Definition HandleProbePane (msg : gmap string any) : M PaneContent :=
  let paneID := stringValue msg "pane_id" in
  let format := if String.eqb (stringValue msg "format") "ansi" then "ansi"%string else "text"%string in
  if String.eqb paneID "" then ret (contentError "" format "Unable to read the agent pane")
  else
    let* generation := look env (fun s => State.Generation s paneID) in
    let* revision := look env (fun s => State.ContentRevision s paneID) in
    let* r := callHerdr env (ProbePaneVisible (herdrFor paneID) (rawID paneID) 500 format) in
    match r_err r with
    | Some _ => ret (contentError paneID format "Unable to read the agent pane")
    | None =>
        let* generation' := look env (fun s => State.Generation s paneID) in
        let* revision' := look env (fun s => State.ContentRevision s paneID) in
        if negb (generation' =? generation) || negb (revision' =? revision)
        then ret (contentError paneID format "The agent pane changed while it was being read")
        else ret (mkContent paneID (bytes_of_string (r_content r)) format false false None "")
    end.

(** ** Watching for the effect of an answer *)

(** [commitAndBroadcastResult] *)
Definition commitAndBroadcastResult (key : string) (generation : Z) (r : CommandResult) : M bool :=
  let* applied := (fun l => let ok := updates env l in (ok, l ++ [Updated key generation r ok])) in
  do* (if applied then broadcast "command_result" else ret tt) in
  ret applied.

Definition commitAndBroadcastPhase (key : string) (generation : Z) (requestID action paneID phase : string) : M unit :=
  do* commitAndBroadcastResult key generation
        (mkResult requestID action (String.eqb phase "confirmed") phase "" paneID "" false) in
  ret tt.

(** five seconds hold 14 ticks of 350 milliseconds *)
Definition watchTicks : nat := 14.

Fixpoint watchApproval (ticks : nat) (requestID paneID eventID : string) (generation : Z) : M unit :=
  let finish phase := commitAndBroadcastPhase (approvalLedgerKey paneID eventID) generation requestID "approval" paneID phase in
  let* done := contextDelay env in
  match done, ticks with
  | Some _, _ | None, O => finish "unconfirmed"%string
  | None, S ticks =>
      let* current := look env (fun s => State.Generation s paneID) in
      if negb (u64 current =? generation) then ret tt
      else
        let* agent := look env (fun s => State.AgentOf s paneID) in
        match agent with
        | Some a =>
            if isBlocked a && sameEvent a eventID && String.eqb (State.AttentionKind (State.blocked a)) State.AttentionApproval
            then watchApproval ticks requestID paneID eventID generation
            else finish "confirmed"%string
        | None => finish "confirmed"%string
        end
  end.

Definition unexpectedQuestion : string := "The agent opened an unexpected question; the screen was refreshed".

(** the outcome of an answer, given the question on the screen now; the data is the id
    of that question *)
Definition questionOutcome (requestID action paneID : string) (original : QuestionInput.Interaction) (navigation : string)
    (current : option QuestionInput.Interaction) : CommandResult :=
  let data := from_option QuestionInput.ID ""%string current in
  let is_ phase := mkResult requestID action true phase "" paneID data false in
  let wrong := mkResult requestID action false "failed" unexpectedQuestion paneID data false in
  let index := QuestionInput.QuestionIndex original in
  if negb (String.eqb navigation "") then
    let expected := if String.eqb navigation "previous" then index - 1 else index + 1 in
    match current with
    | Some i => if (0 <? expected) && (QuestionInput.QuestionIndex i =? expected) then is_ "navigated"%string else wrong
    | None => wrong
    end
  else
    match current with
    | Some i =>
        if negb (String.eqb action "answer_question") then mkResult requestID action true "confirmed" "" paneID "" false
        else if (0 <? index) && (QuestionInput.QuestionIndex i =? index + 1) then is_ "advanced"%string
        else wrong
    | None => mkResult requestID action true "confirmed" "" paneID "" false
    end.

Definition finishQuestionWatch (key : string) (generation : Z) (requestID action paneID : string)
    (original : QuestionInput.Interaction) (navigation : string) (current : option QuestionInput.Interaction) : M unit :=
  let r := questionOutcome requestID action paneID original navigation current in
  let* applied := commitAndBroadcastResult key generation r in
  if negb applied || negb (cr_OK r) then ret tt
  else if String.eqb navigation "previous" then recordActivity "question" "navigated" "Opened previous question" paneID requestID
  else if String.eqb navigation "next" then recordActivity "question" "navigated" "Opened next question" paneID requestID
  else if String.eqb action "answer_question" then recordActivity "question" "answered" "Answered question" paneID requestID
  else ret tt.

(** another question is expected on the screen soon *)
Definition expectsQuestion (action navigation : string) (original : QuestionInput.Interaction) : bool :=
  negb (String.eqb navigation "") ||
  String.eqb action "answer_question" && (0 <? QuestionInput.QuestionIndex original) &&
  (QuestionInput.QuestionIndex original <? QuestionInput.QuestionTotal original).

Definition mayAskNext (a : State.AgentState) : bool :=
  let kind := State.AttentionKind (State.blocked a) in
  isBlocked a && (String.eqb kind "" || String.eqb kind State.AttentionUnknown || String.eqb kind State.AttentionQuestion).

(** [original] is never nil: [interactionSnapshot] makes one *)
Fixpoint watchQuestion (ticks : nat) (key requestID action paneID : string) (original : QuestionInput.Interaction)
    (navigation : string) (generation : Z) : M unit :=
  let* done := contextDelay env in
  match done, ticks with
  | Some _, _ | None, O =>
      do* commitAndBroadcastResult key generation
            (mkResult requestID action false "unconfirmed" "The agent still shows the same question; try again" paneID "" false) in
      ret tt
  | None, S ticks =>
      let again := watchQuestion ticks key requestID action paneID original navigation generation in
      let finish := finishQuestionWatch key generation requestID action paneID original navigation in
      let* current := look env (fun s => State.Generation s paneID) in
      if negb (u64 current =? generation) then ret tt
      else
        let* agent := look env (fun s => State.AgentOf s paneID) in
        match agent with
        | None => finish None
        | Some a =>
            let* r := callHerdr env (ReadPaneRecent (herdrFor paneID) (rawID paneID) 80 "ansi") in
            match r_err r with
            | Some _ => again
            | None =>
                let shown := Parse (r_content r) (State.Agent (State.info a)) in
                do* (match shown with
                     | Some i =>
                         let text := TrimSpace (QuestionInput.o_Text (QuestionInput.other i)) in
                         if String.eqb text "" then ret tt
                         else did (Mutated (CustomAnswer paneID (QuestionInput.Question i) text))
                     | None => ret tt
                     end) in
                match shown with
                | None => if expectsQuestion action navigation original && mayAskNext a then again else finish None
                | Some i => if String.eqb (QuestionInput.ID i) (QuestionInput.ID original) then again else finish (Some i)
                end
            end
        end
  end.
End Handlers.
End Handlers.
