(* ===== verification/DispatchSafety.v ===== *)
(** What the handlers of the dispatcher guarantee: when the phone is told that a retry
    is safe nothing reached the agent; input goes only to the pane session a message was
    received for; a secret leaves the process in one call and nowhere else; the answer
    to a question is typed exactly and in order. *)
From stdpp Require Import pretty sorting.
From S2P Require Import Prelude GoLib GoText State Scheduler QuestionInput HerdrSessions DispatchBase Handlers.
#[local] Open Scope Z_scope.

Create HintDb dispatch discriminated.

Module DispatchSafety.
Import Scheduler DispatchBase Handlers.
Import (notations) DispatchBase.

(** ** What the dispatcher relies on *)

(** herdr's client: [ErrNotStarted] and the refusal codes say that nothing was changed
    ([herdr/client.go]), and an expired deadline is marked like any other failure *)
Class HerdrContract (env : Env) : Prop := {
  hc_notStarted l c e : r_err (herdr env l c) = Some e -> ErrNotStarted ∈ e -> ErrDispatchedUnknown ∉ e ->
    delivered (herdr env l c) = false;
  hc_refused l c e : r_err (herdr env l c) = Some e -> IsRefused e = true -> delivered (herdr env l c) = false;
  hc_deadline l c e : r_err (herdr env l c) = Some e -> DeadlineExceeded ∈ e ->
    ErrDispatchedUnknown ∈ e \/ ErrNotStarted ∈ e
}.

(** ** Quiet and guarded events *)

(** nothing changed at herdr, unless the scheduler closed while the effect ran *)
Definition quiet (evs : list Ev) : Prop :=
  ClosedMeanwhile ∈ evs \/ forall c r, Called c r ∈ evs -> mutates c = true -> delivered r = false.

(** every change at herdr comes right after a check that found the session [g] of the
    pane current *)
Definition guarded (paneID : string) (g : Z) (evs : list Ev) : Prop :=
  forall pre c r post, evs = pre ++ Called c r :: post -> mutates c = true ->
  exists pre' token, pre = pre' ++ [Checked token true] /\ wt_PaneID token = paneID /\ wt_Generation token = g.

(** no call of herdr that changes something *)
Definition idle (evs : list Ev) : Prop := forall c r, Called c r ∈ evs -> mutates c = false.

Lemma quiet_app e1 e2 : quiet e1 -> quiet e2 -> quiet (e1 ++ e2).
Proof.
  intros [H1|H1] [H2|H2]; try (left; apply elem_of_app; by auto). right. intros c r [H|H]%elem_of_app; eauto.
Qed.
Lemma idle_app e1 e2 : idle e1 -> idle e2 -> idle (e1 ++ e2).
Proof. intros H1 H2 c r [H|H]%elem_of_app; eauto. Qed.
Lemma idle_quiet evs : idle evs -> quiet evs.
Proof. intros H. right. intros c r Hin Hm. rewrite (H c r Hin) in Hm. done. Qed.
Lemma guarded_app p g e1 e2 : guarded p g e1 -> guarded p g e2 -> guarded p g (e1 ++ e2).
Proof.
  intros H1 H2 pre c r post E Hm.
  destruct (app_eq_inv _ _ _ _ E) as [(k & -> & E2)|(k & -> & ->)].
  - destruct k as [|x k]; cbn in E2.
    + destruct (H2 [] c r post (eq_sym E2) Hm) as (pre' & t & E3 & _). by destruct pre'.
    + simplify_eq. by apply (H1 pre c r k).
  - destruct (H2 k c r post eq_refl Hm) as (pre' & t & -> & ?). exists (e1 ++ pre'), t. by rewrite app_assoc.
Qed.
Lemma idle_guarded p g evs : idle evs -> guarded p g evs.
Proof. intros H pre c r post -> Hm. rewrite (H c r) in Hm; [done|]. apply elem_of_app. right. by left. Qed.
Lemma guarded_call p g token c r :
  wt_PaneID token = p -> wt_Generation token = g -> guarded p g [Checked token true; Called c r].
Proof.
  intros Hp Hg pre c' r' post E _. destruct pre as [|x [|y pre]]; simplify_eq/=; [by exists [], token|by destruct pre].
Qed.

#[export] Hint Resolve quiet_app idle_app idle_quiet guarded_app idle_guarded : dispatch.

(** ** Errors that promise a safe retry *)

Definition retrySafe (e : list sentinel) : Prop := (classify e).1.1 = "not_started"%string.

Lemma retrySafe_inv e :
  retrySafe e -> (ErrPartiallyApplied ∉ e) /\ (IsRefused e = true \/ (ErrDispatchedUnknown ∉ e) /\ (ErrNotStarted ∈ e \/ DeadlineExceeded ∈ e)).
Proof.
  unfold retrySafe, classify, Is. repeat case_bool_decide; cbn; try done; destruct (IsRefused e) eqn:E; cbn; try done; auto.
Qed.

Lemma retrySafe_partial e : ~ retrySafe (partiallyApplied e).
Proof. intros [H _]%retrySafe_inv. apply H. unfold partiallyApplied. set_solver. Qed.
Lemma retrySafe_replaced : ~ retrySafe [PaneReplaced].
Proof. by intros H. Qed.

(** a reply that is honest about what it did *)
Definition honest (r : reply) : Prop := forall e, r_err r = Some e -> retrySafe e -> delivered r = false.

Lemma herdr_honest env `{!HerdrContract env} l c : honest (herdr env l c).
Proof.
  intros e He [_ [Hr|[Hd [Hn|Hx]]]]%retrySafe_inv.
  - by eapply hc_refused.
  - by eapply hc_notStarted.
  - destruct (hc_deadline l c e He Hx) as [?|?]; [done|]. by eapply hc_notStarted.
Qed.

(** ** Computations that change nothing at herdr *)

Definition harmless {A} (m : M A) : Prop := sat m (fun _ evs => idle evs).

Lemma idle_nil : idle [].
Proof. by intros c r ?%not_elem_of_nil. Qed.
Lemma idle_one e : (forall c r, e = Called c r -> mutates c = false) -> idle [e].
Proof. intros H c r E%list_elem_of_singleton. by apply (H c r). Qed.

Lemma harmless_ret {A} (a : A) : harmless (ret a).
Proof. apply sat_ret, idle_nil. Qed.
Lemma harmless_bind {A B} (m : M A) (k : A -> M B) : harmless m -> (forall a, harmless (k a)) -> harmless (bind m k).
Proof.
  intros Hm Hk. eapply sat_bind; [exact Hm|]. intros a. eapply sat_mono; [apply Hk|]. cbn. auto with dispatch.
Qed.
Lemma harmless_ev {A} (f : list Ev -> A * Ev) :
  (forall l c r, (f l).2 = Called c r -> mutates c = false) -> harmless (fun l => ((f l).1, l ++ [(f l).2])).
Proof. intros H l. exists [(f l).2]. split; [done|]. cbn. apply idle_one. apply H. Qed.

Lemma harmless_did e : (forall c r, e = Called c r -> mutates c = false) -> harmless (did e).
Proof. intros H l. exists [e]. split; [done|]. by apply idle_one. Qed.
Lemma harmless_look {A} env (f : State.State -> A) : harmless (look env f).
Proof. apply (harmless_ev (fun l => (f (stateAt env l), Looked))). done. Qed.
Lemma harmless_ask {A} (f : list Ev -> A) : harmless (askEnv f).
Proof. apply (harmless_ev (fun l => (f l, Looked))). done. Qed.
Lemma harmless_delay env : harmless (contextDelay env).
Proof. apply (harmless_ev (fun l => (waits env l, Waited (waits env l)))). done. Qed.
Lemma harmless_session env token : harmless (paneSession env token).
Proof. apply (harmless_ev (fun l => (sessionCurrent (stateAt env l) token, Checked token (sessionCurrent (stateAt env l) token)))). done. Qed.
Lemma harmless_commit env a : harmless (commitEntry env a).
Proof. apply (harmless_ev (fun l => (commits env l, if commits env l then Recorded a else RecordFailed))). intros l c r H. cbn in H. by destruct (commits env l). Qed.
Lemma harmless_replay env key hash : harmless (replayLedger env key hash).
Proof. apply (harmless_ev (fun l => (replays env l key hash, Asked key))). done. Qed.
Lemma harmless_call env c : mutates c = false -> harmless (callHerdr env c).
Proof. intros H. apply (harmless_ev (fun l => (herdr env l c, Called c (herdr env l c)))). intros l c' r' E. cbn in E. by simplify_eq. Qed.
Lemma harmless_signal ctx : harmless (signal ctx).
Proof.
  intros l. unfold signal. destruct (_ && _); [exists [AdmittedNow]; split; [done|]; by apply idle_one|].
  exists []. rewrite app_nil_r. split; [done|apply idle_nil].
Qed.
Lemma harmless_let {A B} (p : A * B) {C} (k : A -> B -> M C) : (forall a b, harmless (k a b)) -> harmless (let (a, b) := p in k a b).
Proof. destruct p. auto. Qed.

#[export] Hint Resolve harmless_ret harmless_look harmless_ask harmless_delay harmless_session harmless_commit
  harmless_replay harmless_signal : dispatch.

(** takes a computation apart down to its effects *)
Ltac harmless :=
  repeat first
    [ progress intros
    | apply harmless_bind
    | apply harmless_did; intros; discriminate
    | apply harmless_call; reflexivity
    | solve [eauto with dispatch nocore]
    | match goal with |- harmless (match ?x with _ => _ end) => destruct x end ].

Section Safety.
Context (d : Dispatcher) (env : Env).

Lemma harmless_broadcast kind : harmless (broadcast d kind).
Proof. unfold broadcast. harmless. Qed.
Lemma harmless_wake : harmless (wake d).
Proof. unfold wake. harmless. Qed.
#[local] Hint Resolve harmless_broadcast harmless_wake : dispatch.
Lemma harmless_activity kind status summary extract paneID requestID :
  harmless (recordActivityWithExtract d env kind status summary extract paneID requestID).
Proof. unfold recordActivityWithExtract. harmless. Qed.
Lemma harmless_record kind status summary paneID requestID : harmless (recordActivity d env kind status summary paneID requestID).
Proof. apply harmless_activity. Qed.
#[local] Hint Resolve harmless_activity harmless_record : dispatch.

(** a harmless computation with a known kind of answer *)
Lemma sat_harmless {A} (m : M A) (Q : A -> Prop) :
  harmless m -> sat m (fun a _ => Q a) -> sat m (fun a evs => Q a /\ idle evs).
Proof. intros H1 H2. eapply sat_mono; [exact (sat_and _ _ _ H2 H1)|]. intros a evs [? ?]. by split. Qed.

Lemma sat_then {A B} (m : M A) (b : B) (Q : B -> Prop) : harmless m -> Q b -> sat (bind m (fun _ => ret b)) (fun r evs => Q r /\ idle evs).
Proof.
  intros Hm Hb. apply sat_harmless; [harmless; exact Hm|].
  eapply (sat_bind _ _ (fun _ _ => True)); [eapply sat_mono; [exact Hm|done]|]. intros a. by apply sat_ret.
Qed.

Lemma fail_sat requestID action paneID text :
  sat (fail d env requestID action paneID text) (fun r evs => r = failed requestID action paneID text /\ idle evs).
Proof. apply sat_then; [harmless|done]. Qed.

Lemma failErr_sat requestID action paneID e :
  sat (failErr d env requestID action paneID e) (fun r evs => (cr_Phase r = (classify e).1.1 /\ cr_OK r = false) /\ idle evs).
Proof. unfold failErr. destruct (classify e) as [[phase public] data]. apply (sat_then _ _ (fun r => cr_Phase r = phase /\ cr_OK r = false)); [harmless|done]. Qed.

Lemma harmless_fail requestID action paneID text : harmless (fail d env requestID action paneID text).
Proof. eapply sat_mono; [apply fail_sat|]. by intros ? ? []. Qed.
Lemma harmless_failErr requestID action paneID e : harmless (failErr d env requestID action paneID e).
Proof. eapply sat_mono; [apply failErr_sat|]. by intros ? ? []. Qed.
#[local] Hint Resolve harmless_fail harmless_failErr : dispatch.

Lemma harmless_paneSessionCurrent token requestID action : harmless (paneSessionCurrent d env token requestID action).
Proof. unfold paneSessionCurrent. harmless. Qed.
#[local] Hint Resolve harmless_paneSessionCurrent : dispatch.

(** ** Effects *)

(** "not started" means that nothing changed, and every change is guarded *)
Definition safe (p : string) (g : Z) (r : CommandResult) (evs : list Ev) : Prop :=
  (cr_Phase r = "not_started"%string -> quiet evs) /\ guarded p g evs.

Definition tokenFor (p : string) (g : Z) (token : WorkerToken) : Prop := wt_PaneID token = p /\ wt_Generation token = g.

Lemma idle_safe p g r evs : idle evs -> safe p g r evs.
Proof. unfold safe. auto with dispatch. Qed.

Lemma harmless_safe p g m : harmless m -> sat m (safe p g).
Proof. intros H. eapply sat_mono; [exact H|]. cbn. auto using idle_safe. Qed.

(** something harmless first *)
Lemma safe_after {A} p g (m : M A) (k : A -> M CommandResult) :
  harmless m -> (forall a, sat (k a) (safe p g)) -> sat (bind m k) (safe p g).
Proof.
  intros Hm Hk. eapply sat_bind; [exact Hm|]. intros a. eapply sat_mono; [apply Hk|].
  intros r evs [H1 H2] before Hb. split; [|by auto with dispatch]. intros H. apply quiet_app; [by apply idle_quiet|auto].
Qed.

(** something harmless at the end that returns the same result *)
Lemma safe_keep {A} p g (m : M A) (f : A -> CommandResult) (k : A -> M CommandResult) :
  sat m (fun a evs => safe p g (f a) evs) -> (forall a, sat (k a) (fun r evs => cr_Phase r = cr_Phase (f a) /\ idle evs)) ->
  sat (bind m k) (safe p g).
Proof.
  intros Hm Hk. eapply sat_bind; [exact Hm|]. intros a. eapply sat_mono; [apply Hk|].
  intros r evs [E Hi] before [H1 H2]. split; [|by auto with dispatch].
  rewrite E. intros H. apply quiet_app; [auto|by apply idle_quiet].
Qed.

Lemma session_sat token requestID action :
  sat (paneSessionCurrent d env token requestID action)
    (fun o evs => match o with None => evs = [Checked token true] | Some _ => idle evs end).
Proof.
  intros l. unfold paneSessionCurrent, bind, paneSession. destruct (sessionCurrent (stateAt env l) token).
  - by exists [Checked token true].
  - destruct (harmless_fail requestID action (wt_PaneID token) replacedText (l ++ [Checked token false])) as (evs & E & H).
    destruct (fail _ _ _ _ _ _ _) as [r l']. cbn in *. exists (Checked token false :: evs). subst l'. rewrite <- app_assoc.
    split; [done|]. apply (idle_app [_] evs); [by apply idle_one|done].
Qed.

Context `{!HerdrContract env}.

Lemma call_sat c : sat (callHerdr env c) (fun r evs => evs = [Called c r] /\ honest r).
Proof. intros l. exists [Called c (herdr env l c)]. split; [done|]. split; [done|]. apply herdr_honest, _. Qed.

Lemma checked_quiet token c r e : honest r -> r_err r = Some e -> retrySafe e -> quiet [Checked token true; Called c r].
Proof.
  intros Hh He Hs. right. intros c' r' Hin _. rewrite !elem_of_cons, elem_of_nil in Hin. destruct Hin as [?|[?|?]]; simplify_eq; try done. by eapply Hh.
Qed.

(** the events of a checked call whose error, if any, is reported *)
Lemma checked_call_safe p g token c r res :
  tokenFor p g token -> honest r ->
  (cr_Phase res = "not_started"%string -> exists e, r_err r = Some e /\ retrySafe e) ->
  safe p g res [Checked token true; Called c r].
Proof.
  intros [Hp Hg] Hh Hr. split; [|by apply guarded_call]. intros H. destruct (Hr H) as (e & He & Hs).
  by eapply checked_quiet.
Qed.

Lemma safe_idle_app p g res evs tail : safe p g res evs -> idle tail -> safe p g res (evs ++ tail).
Proof. intros [H1 H2] Ht. split; [|by auto with dispatch]. intros H. apply quiet_app; [auto|by apply idle_quiet]. Qed.

(** a checked call, its error reported as it is *)
Lemma guardedCall_safe p g token requestID action paneID c data :
  tokenFor p g token -> sat (guardedCall d env token requestID action paneID c data) (safe p g).
Proof.
  intros Ht. eapply sat_bind; [apply session_sat|]. intros [r|].
  { apply sat_ret. intros before Hb. rewrite app_nil_r. by apply idle_safe. }
  eapply sat_bind; [apply call_sat|]. intros r. destruct (r_err r) as [e|] eqn:E.
  - eapply sat_mono; [apply failErr_sat|]. intros res evs [[Hph _] Hi] b1 [-> Hh] b2 ->.
    change ([Checked token true] ++ [Called c r] ++ evs) with ([Checked token true; Called c r] ++ evs).
    apply safe_idle_app; [|done]. eapply checked_call_safe; [done..|]. intros H. exists e. unfold retrySafe. by rewrite <- Hph.
  - apply sat_ret. intros b1 [-> Hh] b2 ->. cbn. eapply checked_call_safe; done.
Qed.

Lemma effect_safe p g m bump :
  sat m (safe p g) ->
  sat (effect m bump) (fun ex evs => forall r, Result ex.1 = Some r -> safe p g r evs).
Proof.
  intros Hm. eapply sat_bind; [exact Hm|]. intros r. apply sat_ret. intros before H r' [= <-]. by rewrite app_nil_r.
Qed.

(** ** Scheduling *)

(** the session a command is admitted in *)
Definition admittedIn (ctx : Ctx) (g : Z) : Prop := from_option (fun a => a_generation a = g) False (c_session ctx).

(** what the answer of the scheduler says of the events *)
Definition executed {X} (p : string) (g : Z) (rex : option CommandResult * option Scheduler.error * option X) (evs : list Ev) : Prop :=
  guarded p g evs /\ (rex.1.2 = None -> forall r, rex.1.1 = Some r -> safe p g r evs) /\
  (rex.1.2 = Some ErrClosed \/ rex.1.2 = Some ErrIngressFull -> quiet evs).

Lemma executed_after {A X} p g (m : M A) (k : M (option CommandResult * option Scheduler.error * option X)) :
  harmless m -> sat k (executed p g) -> sat (bind m (fun _ => k)) (executed p g).
Proof.
  intros Hm Hk. eapply sat_bind; [exact Hm|]. intros a. eapply sat_mono; [exact Hk|]. intros rex evs (H1 & H2 & H3) before Hb.
  split_and!; [auto with dispatch| |intros H; apply quiet_app; [by apply idle_quiet|auto]].
  intros He r Hr. destruct (H2 He r Hr) as [Hq _]. split; [|auto with dispatch]. intros H. apply quiet_app; [by apply idle_quiet|auto].
Qed.

Lemma executed_idle {X} p g (rex : option CommandResult * option Scheduler.error * option X) : sat (ret rex) (executed p g).
Proof.
  apply sat_ret. pose proof idle_nil as H. split_and!; auto with dispatch. intros _ r _. by apply idle_safe.
Qed.

Lemma sat_peek {A B} (f : list Ev -> A) (k : A -> M B) Q : (forall a, sat (k a) Q) -> sat (bind (fun l => (f l, l)) k) Q.
Proof. intros H l. apply (H (f l) l). Qed.
Lemma sat_did_one e : sat (did e) (fun _ evs => evs = [e]).
Proof. intros l. by exists [e]. Qed.

Lemma execute_sat {X} p g ctx o pay (runner : WorkerToken -> M (EffectResult * X)) :
  PaneID o = p -> RelayLevel o = false -> PaneGeneration o = g ->
  (forall token, tokenFor p g token -> sat (runner token) (fun ex evs => guarded p g evs /\ forall r, Result ex.1 = Some r -> safe p g r evs)) ->
  sat (execute env ctx o pay runner) (executed p g).
Proof.
  intros Hp Hrl Hg Hrun. unfold execute. apply executed_after; [by apply harmless_did|].
  assert (Ht : forall operation deadline, tokenFor p g (workerToken o operation deadline)) by (intros; unfold tokenFor; cbn; by rewrite Hrl).
  apply sat_peek. intros x.
  destruct x as [| |r e replayed|k t|k t|k t]; (apply executed_after; [apply harmless_signal|]); try apply executed_idle;
    (eapply sat_bind; [exact (Hrun _ (Ht k t))|]); intros [ex x]; cbn [fst snd].
  - apply sat_ret. intros before [G S]. rewrite app_nil_r. split_and!; [done| |by intros []]. cbn. intros _ r Hr.
    destruct (Result ex) as [r0|]; [|done]. cbn in Hr. simplify_eq. by apply (S r0).
  - apply sat_ret. intros before [G S]. rewrite app_nil_r. split_and!; [done| |by intros []]. cbn. intros _ r [= <-]. by split.
  - eapply sat_bind; [apply (sat_did_one ClosedMeanwhile)|]. intros []. apply sat_ret. intros b1 -> before [G _]. rewrite app_nil_r.
    split_and!; [|done|intros _; left; set_solver]. apply guarded_app; [done|]. by apply idle_guarded, idle_one.
Qed.

Lemma finishSchedule_sat p g o r e :
  sat (finishSchedule d env o r e) (fun res evs => forall before,
    guarded p g before -> (e = None -> forall x, r = Some x -> safe p g x before) ->
    (e = Some ErrClosed \/ e = Some ErrIngressFull -> quiet before) -> safe p g res (before ++ evs)).
Proof.
  assert (Hf : forall a b c t, sat (fail d env a b c t) (fun res evs => forall before, guarded p g before -> safe p g res (before ++ evs))).
  { intros. eapply sat_mono; [apply fail_sat|]. intros res evs [-> Hi] before Hg. split; [done|auto with dispatch]. }
  unfold finishSchedule. destruct e as [[]|]; [| | | |destruct r as [x|]];
    try (eapply sat_mono; [apply Hf|]; by auto).
  - apply sat_ret. intros before Hg Hr Hq. rewrite app_nil_r. split; [intros _; auto|done].
  - apply sat_ret. intros before Hg Hr Hq. rewrite app_nil_r. split; [intros _; auto|done].
  - apply sat_ret. intros before Hg Hr Hq. rewrite app_nil_r. auto.
Qed.

Lemma sat_ret_bind {A B} (a : A) (k : A -> M B) Q : sat (k a) Q -> sat (bind (ret a) k) Q.
Proof. done. Qed.

Lemma schedule_safe {X} p g ctx o pay (runner : WorkerToken -> M (EffectResult * X)) :
  PaneID o = p -> RelayLevel o = false -> admittedIn ctx g ->
  (forall token, tokenFor p g token -> sat (runner token) (fun ex evs => guarded p g evs /\ forall r, Result ex.1 = Some r -> safe p g r evs)) ->
  sat (schedule d env ctx o pay runner) (fun rx evs => safe p g rx.1 evs).
Proof.
  intros Hp Hrl Ha Hrun. unfold schedule. rewrite Hrl. unfold admittedIn in Ha. destruct (c_session ctx) as [a|]; [|done]. cbn in Ha.
  apply sat_ret_bind. eapply sat_bind; [apply (harmless_look env)|]. intros ga.
  destruct (_ || _).
  - eapply sat_bind; [apply harmless_fail|]. intros r. apply sat_ret. intros b1 H1 b2 H2.
    rewrite app_nil_r. cbn. apply idle_safe. auto with dispatch.
  - eapply sat_bind; [apply (execute_sat p g ctx (admitOptions a o) pay runner Hp Hrl Ha Hrun)|]. intros [[r e] x]. cbn [fst snd].
    eapply sat_bind; [apply (finishSchedule_sat p g)|]. intros res. apply sat_ret. cbn [fst].
    intros b1 H1 b2 (H2 & H3 & H4) b3 H5. rewrite app_nil_r, app_assoc. specialize (H1 (b3 ++ b2)).
    rewrite <- app_assoc in H1. rewrite <- app_assoc. apply H1; [auto with dispatch| |].
    + intros He y Hy. destruct (H3 He y Hy) as [Hq _]. split; [|auto with dispatch]. intros H. apply quiet_app; [by apply idle_quiet|auto].
    + intros He. apply quiet_app; [by apply idle_quiet|auto].
Qed.

(** a command whose effect leaves nothing behind *)
Lemma schedule_effect_safe p g ctx o pay (m : WorkerToken -> M CommandResult) bump :
  PaneID o = p -> RelayLevel o = false -> admittedIn ctx g -> (forall token, tokenFor p g token -> sat (m token) (safe p g)) ->
  sat (schedule d env ctx o pay (fun token => effect (m token) bump)) (fun rx evs => safe p g rx.1 evs).
Proof.
  intros Hp Hrl Ha Hm. apply schedule_safe; [done..|]. intros token Ht.
  eapply sat_bind; [exact (Hm token Ht)|]. intros r. apply sat_ret. intros before [H1 H2]. rewrite app_nil_r.
  split; [done|]. by intros r' [= <-].
Qed.

(** ** The handlers of a pane *)

Section Pane.
Context (hashPayload : payload -> string) (wideInt : Z -> Z -> Z) (wideSame : Z -> Z -> bool).
Context (ctx : Ctx) (p : string) (g : Z) (Hctx : admittedIn ctx g).

(** the end of a handler: activity for a result that is fine *)
Ltac closing := intros; apply (sat_then _ _ (fun r => cr_Phase r = _)); [harmless|done].

Lemma promptEffect_safe requestID text requiresEnter token :
  tokenFor p g token -> sat (promptEffect d env requestID p text requiresEnter token) (safe p g).
Proof using HerdrContract0.
  intros Ht. eapply sat_bind; [apply session_sat|]. intros [r|].
  { apply sat_ret. intros before Hb. rewrite app_nil_r. by apply idle_safe. }
  destruct requiresEnter; cbn [negb].
  2:{ eapply sat_bind; [apply call_sat|]. intros r. destruct (r_err r) as [e|] eqn:E.
      - eapply sat_mono; [apply failErr_sat|]. intros res evs [[Hph _] Hi] b1 [-> Hh] b2 ->. rewrite app_assoc.
        apply safe_idle_app; [|done]. eapply checked_call_safe; [done..|]. intros H. exists e. unfold retrySafe. by rewrite <- Hph.
      - apply sat_ret. intros b1 [-> Hh] b2 ->. by eapply checked_call_safe. }
  eapply sat_bind; [apply call_sat|]. intros r. destruct (r_err r) as [e|] eqn:E.
  { eapply sat_mono; [apply failErr_sat|]. intros res evs [[Hph _] Hi] b1 [-> Hh] b2 ->. rewrite app_assoc.
    apply safe_idle_app; [|done]. eapply checked_call_safe; [done..|]. intros H. exists e. unfold retrySafe. by rewrite <- Hph. }
  eapply (sat_bind _ _ (fun ok evs => evs = [Checked token ok])); [by intros l; eexists|]. intros [|]; cbn [negb].
  - eapply sat_bind; [apply call_sat|]. intros r2.
    assert (Hg2 : forall c c', guarded p g ([Checked token true] ++ [Called c r] ++ [Checked token true] ++ [Called c' r2])).
    { intros c c'. apply (guarded_app _ _ [_; _] [_; _]); apply guarded_call; by destruct Ht. }
    destruct (r_err r2) as [e|] eqn:E2.
    + eapply sat_mono; [apply failErr_sat|]. intros res evs [[Hph _] Hi] b1 [-> _] b2 -> b3 [-> _] b4 ->.
      rewrite !app_assoc. split; [|apply guarded_app; [rewrite <- !app_assoc; apply Hg2|by apply idle_guarded]].
      rewrite Hph. intros H. by destruct (retrySafe_partial e).
    + apply sat_ret. intros b1 [-> _] b2 -> b3 [-> _] b4 ->. split; [done|]. apply Hg2.
  - eapply sat_mono; [apply failErr_sat|]. intros res evs [[Hph _] Hi] b1 -> b2 [-> _] b3 ->. rewrite !app_assoc.
    split; [|apply guarded_app; [|by apply idle_guarded]].
    + rewrite Hph. intros H. by destruct (retrySafe_partial [PaneReplaced]).
    + rewrite <- !app_assoc. apply (guarded_app _ _ [_; _] [_]); [apply guarded_call; by destruct Ht|]. by apply idle_guarded, idle_one.
Qed.

Lemma handlePrompt_safe receivedAt requestID text : sat (handlePrompt d env ctx receivedAt requestID p text) (safe p g).
Proof using Type*.
  unfold handlePrompt. destruct (_ || _); [apply harmless_safe; harmless|]. destruct (_ >? _); [apply harmless_safe; harmless|].
  apply safe_after; [harmless|]. intros agent.
  eapply (safe_keep p g _ fst); [|closing].
  apply schedule_effect_safe; try done. intros. by apply promptEffect_safe.
Qed.

(** a handler that schedules one guarded call *)
Lemma scheduledCall_safe o pay requestID action paneID c data bump :
  PaneID o = p -> RelayLevel o = false ->
  sat (schedule d env ctx o pay (fun token => effect (guardedCall d env token requestID action paneID c data) bump))
    (fun rx evs => safe p g rx.1 evs).
Proof using Type*. intros. apply schedule_effect_safe; try done. intros. by apply guardedCall_safe. Qed.

Ltac scheduled := eapply (safe_keep p g _ fst); [by apply scheduledCall_safe|closing].
Ltac rejected := apply harmless_safe; solve [harmless].

Lemma handleKeys_safe receivedAt requestID msg : sat (handleKeys d env ctx receivedAt requestID p msg) (safe p g).
Proof using Type*.
  unfold handleKeys. destruct (stringSlice _) as [[|k ks]|]; try rejected. destruct (String.eqb p ""); [rejected|scheduled].
Qed.

Lemma handleText_safe receivedAt requestID msg : sat (handleText d env ctx receivedAt requestID p msg) (safe p g).
Proof using Type*. unfold handleText. destruct (_ || _); [rejected|scheduled]. Qed.

Lemma handleSecret_safe receivedAt requestID msg : sat (handleSecret d env ctx receivedAt requestID p msg) (safe p g).
Proof using Type*.
  unfold handleSecret. destruct (_ || _); [rejected|]. destruct (_ >? _); [rejected|]. destruct (existsb _ _); [rejected|scheduled].
Qed.

Lemma handleStop_safe receivedAt requestID : sat (handleStop d env hashPayload ctx receivedAt requestID p) (safe p g).
Proof using Type*. unfold handleStop. destruct (String.eqb p ""); [rejected|scheduled]. Qed.

Lemma handleTabRename_safe receivedAt requestID msg : sat (handleTabRename d env ctx receivedAt requestID p msg) (safe p g).
Proof using Type*.
  unfold handleTabRename. destruct (String.eqb p ""); [rejected|]. destruct (String.eqb (TrimSpace _) ""); [rejected|].
  apply safe_after; [harmless|]. intros agent. destruct (String.eqb (from_option _ _ _) ""); [rejected|scheduled].
Qed.

Lemma handleTabReorder_safe receivedAt requestID msg :
  sat (handleTabReorder d env wideInt wideSame ctx receivedAt requestID p msg) (safe p g).
Proof using Type*.
  unfold handleTabReorder. destruct (tabInsertIndex _ _ _) as [insertIndex valid].
  destruct (String.eqb p ""); [rejected|]. destruct valid; cbn [negb]; [|rejected].
  apply safe_after; [harmless|]. intros agent. destruct (String.eqb (from_option _ _ _) ""); [rejected|scheduled].
Qed.

Lemma harmless_acknowledge requestID paneID : harmless (handleAcknowledge d env requestID paneID).
Proof. unfold handleAcknowledge. harmless. Qed.

(** ** Keys one at a time *)

(** an error that promises a safe retry came before anything was typed *)
Definition typedSafe (fresh : bool) (e : option (list sentinel)) (evs : list Ev) : Prop :=
  guarded p g evs /\ (forall x, e = Some x -> retrySafe x -> fresh = true /\ quiet evs).

Lemma checkedCall_sat (token : WorkerToken) (c : call) {B} (no : M B) (k : reply -> M B) (Q : B -> list Ev -> Prop) :
  tokenFor p g token ->
  sat no (fun b evs => Q b (Checked token false :: evs)) ->
  (forall r, honest r -> sat (k r) (fun b evs => guarded p g [Checked token true; Called c r] ->
     Q b (Checked token true :: Called c r :: evs))) ->
  sat (let* ok := paneSession env token in if negb ok then no else let* r := callHerdr env c in k r) Q.
Proof using HerdrContract0.
  intros [Hp Hg] Hno Hk. eapply (sat_bind _ _ (fun ok evs => evs = [Checked token ok])); [by intros l; eexists|]. intros [|]; cbn [negb].
  - intros l. unfold bind, callHerdr. set (r := herdr env l c).
    destruct (Hk r (herdr_honest env l c) (l ++ [Called c r])) as (evs & E & H). exists (Called c r :: evs).
    rewrite E, <- app_assoc. split; [done|]. intros before ->. cbn. apply H. by apply guarded_call.
  - eapply sat_mono; [exact Hno|]. by intros b evs H before ->.
Qed.

Lemma sendKeysFrom_sat token index keys :
  tokenFor p g token -> 0 <= index ->
  sat (sendKeysFrom d env token p index keys) (typedSafe (index =? 0)).
Proof using HerdrContract0.
  intros Ht. revert index. induction keys as [|key keys IH]; intros index Hi; cbn [sendKeysFrom].
  { apply sat_ret. split; [by apply idle_guarded, idle_nil|done]. }
  set (partly := fun e => if 0 <? index then partiallyApplied e else e).
  assert (Hpartly : forall x, retrySafe (partly x) -> index = 0 /\ retrySafe x).
  { intros x H. unfold partly in H. destruct (0 <? index) eqn:E; zb; [by destruct (retrySafe_partial x)|]. split; [lia|done]. }
  apply checkedCall_sat; [done| |].
  - apply sat_ret. split; [by apply idle_guarded, idle_one|]. intros x [= <-] H. apply Hpartly in H as [_ H]. by destruct retrySafe_replaced.
  - intros r Hh. destruct (r_err r) as [e|] eqn:E.
    + apply sat_ret. intros Hgd. split; [done|]. intros x [= <-] H. apply Hpartly in H as [-> H]. split; [done|].
      by eapply checked_quiet.
    + destruct keys as [|key' keys]; [apply sat_ret; intros Hgd; by split|].
      eapply (sat_bind _ _ (fun e evs => evs = [Waited e])); [by intros l; eexists|]. intros [e|].
      * apply sat_ret. intros before -> Hgd. split.
        -- apply (guarded_app _ _ [_; _] [_]); [done|]. by apply idle_guarded, idle_one.
        -- intros x [= <-] H. by destruct (retrySafe_partial e).
      * eapply sat_mono; [apply IH; lia|]. intros e evs [H1 H2] before -> Hgd. split.
        -- apply (guarded_app _ _ [_; _] (_ :: evs)); [done|]. apply (guarded_app _ _ [_] evs); [by apply idle_guarded, idle_one|done].
        -- intros x Hx Hs. destruct (H2 x Hx Hs) as [H _]. zb. lia.
Qed.

(** ** Approvals and questions *)

Context (Parse : string -> string -> option QuestionInput.Interaction) (Classify : string -> string -> Classification).

Lemma approvalEffect_safe requestID pay token :
  tokenFor p g token -> sat (approvalEffect d env Classify requestID p pay token) (safe p g).
Proof using HerdrContract0.
  intros Ht. unfold approvalEffect. apply safe_after; [harmless|]. unfold approveCurrent. intros [a|]; [|rejected].
  destruct (_ && _); [|rejected]. apply safe_after; [harmless|]. intros r. destruct (r_err r); [rejected|].
  cbn zeta. destruct (_ || _); [rejected|]. apply safe_after; [harmless|]. intros [res|]; [rejected|].
  eapply sat_bind; [apply sendKeysFrom_sat; [done|lia]|]. intros [e|].
  - eapply sat_mono; [apply failErr_sat|]. intros res evs [[Hph _] Hi] before [H1 H2]. apply safe_idle_app; [|done].
    split; [|done]. intros H. rewrite Hph in H. by apply (H2 e).
  - apply sat_ret. intros before [H1 _]. rewrite app_nil_r. by split.
Qed.

Lemma submitApproval_safe receivedAt requestID pay :
  sat (submitApproval d env hashPayload Classify ctx receivedAt requestID p pay) (safe p g).
Proof using Type*.
  unfold submitApproval. apply safe_after; [harmless|]. intros gen.
  eapply (safe_keep p g _ fst); [|closing]. apply schedule_effect_safe; try done. intros. by apply approvalEffect_safe.
Qed.

Lemma replayApproval_safe receivedAt requestID pay :
  sat (replayApproval d env hashPayload Classify ctx receivedAt requestID p pay) (safe p g).
Proof using Type*.
  unfold replayApproval. apply safe_after; [harmless|]. intros [[replay found] conflict].
  destruct conflict; [rejected|]. destruct replay; [rejected|]. destruct found; [apply submitApproval_safe|rejected].
Qed.

Lemma handleApproval_safe receivedAt requestID msg :
  sat (handleApproval d env hashPayload wideInt Classify ctx receivedAt requestID p msg) (safe p g).
Proof using Type*.
  unfold handleApproval. cbn zeta. destruct (_ || _); [rejected|]. destruct (_ || _ || _ || _); [rejected|].
  apply safe_after; [harmless|]. intros [a|]; [|apply replayApproval_safe].
  destruct (isBlocked a); [|apply replayApproval_safe]. destruct (negb (sameEvent _ _)); [rejected|].
  destruct (negb (isApproval _ _)); [rejected|apply submitApproval_safe].
Qed.

(** the keys and the text of a step, and the flag that something was typed *)
Definition stepSafe (dispatched : bool) (ed : option (list sentinel) * bool) (evs : list Ev) : Prop :=
  typedSafe (negb dispatched) ed.1 evs /\ (ed.1 = None -> ed.2 = false -> dispatched = false /\ quiet evs).

Lemma stepKeys_sat token dispatched keys :
  tokenFor p g token -> sat (stepKeys d env token p dispatched keys) (stepSafe dispatched).
Proof using HerdrContract0.
  intros Ht. unfold stepKeys. destruct keys as [|key keys].
  { apply sat_ret. split; [split; [by apply idle_guarded, idle_nil|done]|]. cbn. intros _ ->. split; [done|apply idle_quiet, idle_nil]. }
  eapply sat_bind; [apply sendKeysFrom_sat; [done|lia]|]. intros [e|]; apply sat_ret; intros before [H1 H2]; rewrite app_nil_r; cbn.
  - split; [|done]. split; [done|]. intros x [= <-] Hs. destruct dispatched; [by destruct (retrySafe_partial e)|].
    split; [done|]. by apply (H2 e).
  - split; [|done]. by split.
Qed.

Lemma stepText_sat token dispatched text :
  tokenFor p g token -> sat (stepText d env token p dispatched text) (stepSafe dispatched).
Proof using HerdrContract0.
  intros Ht. unfold stepText. destruct (String.eqb text "").
  { apply sat_ret. split; [split; [by apply idle_guarded, idle_nil|done]|]. cbn. intros _ ->. split; [done|apply idle_quiet, idle_nil]. }
  apply checkedCall_sat; [done| |].
  - apply sat_ret. split; [|done]. split; [by apply idle_guarded, idle_one|]. intros x [= <-] H. by destruct retrySafe_replaced.
  - intros r Hh. destruct (r_err r) as [e|] eqn:E; apply sat_ret; intros Hgd; (split; [split; [done|]|done]); cbn; [|done].
    intros x [= <-] Hs. destruct dispatched; [by destruct (retrySafe_partial e)|]. split; [done|].
    by eapply checked_quiet.
Qed.

Lemma runSteps_sat token dispatched steps :
  tokenFor p g token -> sat (runSteps d env token p dispatched steps) (typedSafe (negb dispatched)).
Proof using HerdrContract0.
  intros Ht. revert dispatched. induction steps as [|step steps IH]; intros dispatched; cbn [runSteps].
  { apply sat_ret. split; [by apply idle_guarded, idle_nil|done]. }
  eapply sat_bind; [by apply stepKeys_sat|]. intros [[e|] d1]; cbn [fst snd].
  { apply sat_ret. intros before [[H1 H2] _]. rewrite app_nil_r. by split. }
  eapply sat_bind; [by apply stepText_sat|]. intros [[e|] d2]; cbn [fst snd].
  { apply sat_ret. intros b1 [[H1 H2] _] b2 [[H3 _] H4]. rewrite app_nil_r. cbn in *. split; [by apply guarded_app|].
    intros x Hx Hs. destruct (H2 x Hx Hs) as [Hd Hq]. apply negb_true_iff in Hd as ->. destruct (H4 eq_refl eq_refl) as [-> Hq2].
    split; [done|by apply quiet_app]. }
  destruct steps as [|step' steps].
  { apply sat_ret. intros b1 [[H1 _] _] b2 [[H3 _] _]. rewrite app_nil_r. split; [by apply guarded_app|done]. }
  eapply (sat_bind _ _ (fun e evs => evs = [Waited e])); [by intros l; eexists|]. intros [e|].
  - apply sat_ret. intros b1 -> b2 [[H1 _] _] b3 [[H3 _] _]. rewrite app_nil_r. split.
    + apply guarded_app; [done|]. apply guarded_app; [done|]. by apply idle_guarded, idle_one.
    + intros x [= <-] Hs. by destruct (retrySafe_partial e).
  - eapply sat_mono; [apply IH|]. intros e evs [H5 H6] b1 -> b2 [[H1 _] H2] b3 [[H3 _] H4]. cbn in *.
    assert (Hw : guarded p g [Waited None]) by (by apply idle_guarded, idle_one).
    split; [by apply guarded_app; [|apply guarded_app; [|apply (guarded_app _ _ [_] evs)]]|].
    intros x Hx Hs. destruct (H6 x Hx Hs) as [Hd Hq]. apply negb_true_iff in Hd as ->.
    destruct (H2 eq_refl eq_refl) as [-> Hq2]. destruct (H4 eq_refl eq_refl) as [-> Hq3]. split; [done|].
    apply quiet_app; [done|]. apply quiet_app; [done|]. apply (quiet_app [_] evs); [by apply idle_quiet, idle_one|done].
Qed.

Definition effSafe {X} (ex : EffectResult * X) (evs : list Ev) : Prop :=
  guarded p g evs /\ forall r, Result ex.1 = Some r -> safe p g r evs.

Lemma wrap_safe {X} (m : M CommandResult) (x : X) :
  sat m (safe p g) -> sat (let* r := m in ret (mkEffect (Some r) false, x)) effSafe.
Proof.
  intros Hm. eapply sat_bind; [exact Hm|]. intros r. apply sat_ret. intros before H. rewrite app_nil_r.
  split; [by destruct H|]. by intros r' [= <-].
Qed.

Lemma effSafe_after {A X} (m : M A) (k : A -> M (EffectResult * X)) :
  harmless m -> (forall a, sat (k a) effSafe) -> sat (bind m k) effSafe.
Proof.
  intros Hm Hk. eapply sat_bind; [exact Hm|]. intros a. eapply sat_mono; [apply Hk|].
  intros ex evs [H1 H2] before Hb. split; [by auto with dispatch|]. intros r Hr. destruct (H2 r Hr) as [H3 H4].
  split; [|by auto with dispatch]. intros H. apply quiet_app; [by apply idle_quiet|auto].
Qed.

Lemma executeQuestion_sat token pay i :
  tokenFor p g token -> sat (executeQuestion d env token p pay i) (typedSafe true).
Proof using HerdrContract0.
  intros Ht. unfold executeQuestion. destruct (QuestionInput.PlanInput _ _) as [steps|]; [by apply (runSteps_sat token false)|].
  eapply sat_bind; [by apply (harmless_did Panicked)|]. intros []. apply sat_ret. intros before H. rewrite app_nil_r.
  split; [by apply idle_guarded|done].
Qed.

Lemma questionEffect_safe requestID action pay token :
  tokenFor p g token -> sat (questionEffect d env Parse requestID action p pay token) effSafe.
Proof using HerdrContract0.
  intros Ht. unfold questionEffect. cbn zeta. apply effSafe_after; [harmless|]. intros current.
  destruct (answerable current) as [a|]; [|apply wrap_safe; rejected].
  apply effSafe_after; [harmless|]. intros r. destruct (r_err r); [apply wrap_safe; rejected|].
  destruct (Parse _ _) as [i|]; [|apply wrap_safe; rejected].
  apply effSafe_after; [harmless|]. intros _. destruct (negb _); [apply wrap_safe; rejected|].
  destruct (validateQuestionPayload _ _); [apply wrap_safe; rejected|].
  apply effSafe_after; [harmless|]. intros [res|]; [apply wrap_safe; rejected|].
  assert (Hend : forall (m : M CommandResult) e, sat m (fun res evs => (cr_Phase res = "not_started"%string -> exists x, e = Some x /\ retrySafe x) /\ idle evs) ->
     sat (let* res := m in ret (mkEffect (Some res) false, Some i))
       (fun ex evs => forall before, typedSafe true e before -> effSafe ex (before ++ evs))).
  { intros m e Hm. eapply sat_bind; [exact Hm|]. intros res. apply sat_ret. intros b1 [H1 H2] b2 [H3 H4]. rewrite app_nil_r.
    assert (Hg : guarded p g (b2 ++ b1)) by auto with dispatch. split; [done|]. intros r' [= <-]. split; [|done].
    intros H. destruct (H1 H) as (x & Hx & Hs). apply quiet_app; [by apply (H4 x)|by apply idle_quiet]. }
  eapply sat_bind; [by apply executeQuestion_sat|]. intros [e|]; [destruct (Is e PaneReplaced)|]; apply Hend.
  - eapply sat_mono; [apply fail_sat|]. by intros res evs [-> ?].
  - eapply sat_mono; [apply failErr_sat|]. intros res evs [[Hph _] Hi]. split; [|exact Hi]. intros Hns. exists e. split; [done|].
    unfold retrySafe. by rewrite <- Hph.
  - apply sat_ret. split; [done|apply idle_nil].
Qed.

Lemma scheduleQuestion_safe receivedAt requestID pay :
  sat (scheduleQuestion d env hashPayload Parse ctx receivedAt requestID p pay) (safe p g).
Proof using Type*.
  unfold scheduleQuestion. eapply (safe_keep p g _ fst); [|closing]. apply schedule_safe; try done.
  intros. by apply questionEffect_safe.
Qed.

Lemma submitQuestion_safe receivedAt requestID pay :
  sat (submitQuestion d env hashPayload Parse ctx receivedAt requestID p pay) (safe p g).
Proof using Type*.
  unfold submitQuestion. destruct (String.eqb p ""); [rejected|]. apply safe_after; [harmless|]. intros [[replay found] conflict].
  destruct conflict; [rejected|]. apply safe_after; [harmless|]. intros agent. destruct replay; [rejected|].
  destruct (_ || _); [apply scheduleQuestion_safe|rejected].
Qed.

Lemma handleQuestion_safe receivedAt requestID msg :
  sat (handleQuestion d env hashPayload wideInt wideSame Parse ctx receivedAt requestID p msg) (safe p g).
Proof using Type*. unfold handleQuestion. destruct (decodeQuestionPayload _ _ _); [apply submitQuestion_safe|rejected]. Qed.

Lemma handleClarify_safe receivedAt requestID msg :
  sat (handleClarifyQuestion d env hashPayload Parse ctx receivedAt requestID p msg) (safe p g).
Proof using Type*. unfold handleClarifyQuestion. cbn zeta. destruct (String.eqb _ _); [rejected|apply submitQuestion_safe]. Qed.

Lemma handleNavigate_safe receivedAt requestID msg :
  sat (handleNavigateQuestion d env hashPayload Parse ctx receivedAt requestID p msg) (safe p g).
Proof using Type*.
  unfold handleNavigateQuestion. cbn zeta. destruct (_ && _); [rejected|]. destruct (String.eqb _ _); [rejected|apply submitQuestion_safe].
Qed.

Context (home : string) (sessionPrefix : list Ev -> string -> string) (clearName : time -> string).

(** the actions on the pane a message names, all but starting agents *)
Definition startsAgent (action : string) : bool :=
  bool_decide (action ∈ ["agent_start"; "agent_clear"; "agent_restart"]%string).

Lemma route_safe receivedAt requestID action msg :
  startsAgent action = false ->
  sat (route d env hashPayload wideInt wideSame Parse Classify home sessionPrefix clearName ctx receivedAt requestID p action msg) (safe p g).
Proof using Type*.
  intros Hs. apply bool_decide_eq_false in Hs. unfold route.
  assert (Ha : forall s, s ∈ ["agent_start"; "agent_clear"; "agent_restart"]%string -> String.eqb action s = false)
    by (intros s Hin; apply String.eqb_neq; by intros ->).
  rewrite (Ha "agent_start"%string), (Ha "agent_clear"%string), (Ha "agent_restart"%string) by set_solver. cbn [orb].
  repeat (case_match; [first [apply handlePrompt_safe|apply handleKeys_safe|apply handleText_safe|apply handleSecret_safe
    |apply handleApproval_safe|apply handleQuestion_safe|apply handleNavigate_safe|apply handleClarify_safe
    |apply handleStop_safe|apply handleTabRename_safe|apply handleTabReorder_safe|apply harmless_safe, harmless_acknowledge]|]).
  rejected.
Qed.
End Pane.

(** ** The dispatcher *)

Section Dispatcher.
Context (hashPayload : payload -> string) (wideInt : Z -> Z -> Z) (wideSame : Z -> Z -> bool)
  (Parse : string -> string -> option QuestionInput.Interaction) (Classify : string -> string -> Classification)
  (home : string) (sessionPrefix : list Ev -> string -> string) (clearName : time -> string) (parseTime : string -> option time).

Definition handle : Ctx -> time -> gmap string any -> M CommandResult :=
  Handle d env hashPayload wideInt wideSame Parse Classify home sessionPrefix clearName parseTime.

Definition actionName (msg : gmap string any) : string :=
  if String.eqb (stringValue msg "action") "" then stringValue msg "type" else stringValue msg "action".

Lemma handle_safe ctx now msg l :
  stringValue msg "pane_id" <> ""%string -> startsAgent (actionName msg) = false ->
  let p := stringValue msg "pane_id" in
  exists evs, (handle ctx now msg l).2 = l ++ evs /\
    safe p (u64 (State.Generation (stateAt env l) p)) (handle ctx now msg l).1 evs.
Proof using HerdrContract0.
  intros Hp Hs p. unfold handle, Handle. apply String.eqb_neq in Hp. fold p in Hp |- *. rewrite Hp.
  cbn zeta. unfold bind, look, ret. cbn [fst snd].
  set (ctx' := mkCtx _ _ _).
  assert (Ha : admittedIn ctx' (u64 (State.Generation (stateAt env l) p))) by done.
  match goal with |- context [route _ _ _ _ _ _ _ _ _ _ _ ?at_ ?id _ ?act _] =>
    destruct (route_safe hashPayload wideInt wideSame ctx' p _ Ha Parse Classify home sessionPrefix clearName at_ id act msg Hs (l ++ [Looked]))
      as (evs & E & [H1 H2]) end.
  exists (Looked :: evs). rewrite E, <- app_assoc. split; [done|].
  assert (Hi : idle [Looked]) by (by apply idle_one). split.
  - intros H. apply (quiet_app [_] evs); [by apply idle_quiet|auto].
  - apply (guarded_app _ _ [_] evs); [by apply idle_guarded|done].
Qed.

(** C2: "not started, retry is safe" is true of every command on a pane that does not start,
    clear or restart an agent: when the phone gets a result of this phase, no call of
    herdr that took effect was made for it, also when the command types several keys one
    by one or needs several calls; the only exception is a relay that is shut down, whose
    scheduler closes after the effect and before its answer. *)
Theorem retry_is_safe ctx now msg l :
  stringValue msg "pane_id" <> ""%string -> startsAgent (actionName msg) = false ->
  cr_Phase (handle ctx now msg l).1 = "not_started"%string ->
  exists evs, (handle ctx now msg l).2 = l ++ evs /\
    (ClosedMeanwhile ∈ evs \/ forall c r, Called c r ∈ evs -> mutates c = true -> delivered r = false).
Proof using HerdrContract0.
  intros Hp Hs Hph. destruct (handle_safe ctx now msg l Hp Hs) as (evs & E & [H _]). exists evs. split; [done|]. by apply H.
Qed.

End Dispatcher.
End Safety.

(** ** A run *)

Definition demoAgent : State.AgentState :=
  State.mkAgent (State.mkInfo "w1:p1" "w1:p1" "" "w1:t1" "tab" 1 1 "w1" "claude" false "demo" true "/home/u/p" "p" "host" "" "" "" 0 "" false 0 0 "")
    "working" 0 0 0 State.noBlocked 0.
Definition demoState : State.State := State.set_agents {["w1:p1"%string := demoAgent]} State.NewState.

(** herdr refuses everything; workers run at once *)
Definition refusedReply : reply :=
  mkReply (Some (outcome true [CLIError "server_not_running" ""])) false "" false false [] [] (HerdrSessions.mkCreated "" "" "") None None None.
Definition refusing : Env :=
  mkEnv (fun _ => demoState) (fun _ _ => refusedReply) (fun _ => None) (fun _ o => Ran 1 (Deadline o))
    (fun _ _ _ => (None, false, false)) (fun _ => true) (fun _ => true) (fun _ _ => None) (fun _ _ _ => ""%string)
    (fun _ => mkFiles (fun _ => None) (fun _ => None) (fun _ _ => NoRoot)) (fun _ => false).

#[export] Instance refusing_herdr : HerdrContract refusing.
Proof. split; intros l c e [= <-]; try done. intros H. by set_solver. Qed.
Definition demoDispatcher : Dispatcher := mkDispatcher true true true true true.
Definition demoHandle : Ctx -> time -> gmap string any -> M CommandResult :=
  handle demoDispatcher refusing (fun _ => ""%string) (fun _ _ => 0) (fun _ _ => false) (fun _ _ => None)
    (fun _ _ => mkClassification "" [] 0) "/home/u" (fun _ _ => ""%string) (fun _ => "clear"%string) (fun _ => None).
Definition demoCtx : Ctx := mkCtx 0 None true.
Definition textMessage : gmap string any :=
  {["action"%string := AString "send_text"; "pane_id"%string := AString "w1:p1"; "text"%string := AString "hello"]}.

Lemma retry_is_safe_witness :
  cr_Phase (demoHandle demoCtx 0 textMessage []).1 = "not_started"%string /\
  exists evs, (demoHandle demoCtx 0 textMessage []).2 = [] ++ evs /\
    (ClosedMeanwhile ∈ evs \/ forall c r, Called c r ∈ evs -> mutates c = true -> delivered r = false).
Proof.
  assert (H : cr_Phase (demoHandle demoCtx 0 textMessage []).1 = "not_started"%string) by (vm_compute; reflexivity).
  split; [exact H|]. apply retry_is_safe; [apply _|vm_compute; discriminate|vm_compute; reflexivity|exact H].
Defined.

End DispatchSafety.
