(* ===== verification/DispatchAnswers.v ===== *)
(** More of what the dispatcher guarantees: an answer is typed exactly, an answer that fits
    its question never makes the planner panic, a secret shows in one call of herdr and
    nowhere else, a message releases the ordered ingress once and before herdr is called,
    agents start below the home directory, and a screen is cut to whole lines. *)
From stdpp Require Import pretty sorting.
From S2P Require Import Prelude GoLib GoText State Scheduler QuestionInput HerdrSessions DispatchBase Handlers DispatchSafety.
#[local] Open Scope Z_scope.

Module DispatchAnswers.
Import Scheduler DispatchBase Handlers DispatchSafety.
Import (notations) DispatchBase.

(** ** Typing an answer *)

Inductive input := Key (k : string) | Typed (t : string).

(** what herdr acknowledged to have sent to the pane *)
Definition inputOf (e : Ev) : list input :=
  match e with
  | Called (SendKeys _ _ ks) r => if bool_decide (r_err r = None) then Key <$> ks else []
  | Called (SendText _ _ t) r => if bool_decide (r_err r = None) then [Typed t] else []
  | _ => []
  end.
Definition inputs (evs : list Ev) : list input := concat (inputOf <$> evs).

Definition stepInputs (s : QuestionInput.InputStep) : list input :=
  (Key <$> QuestionInput.Keys s) ++ (if String.eqb (QuestionInput.Text s) "" then [] else [Typed (QuestionInput.Text s)]).
Definition planInputs (steps : list QuestionInput.InputStep) : list input := concat (stepInputs <$> steps).

Lemma inputs_app e1 e2 : inputs (e1 ++ e2) = inputs e1 ++ inputs e2.
Proof. unfold inputs. by rewrite fmap_app, concat_app. Qed.

(** all of [want] on success, a beginning of it otherwise *)
Definition types (want : list input) (e : option (list sentinel)) (evs : list Ev) : Prop :=
  inputs evs `prefix_of` want /\ (e = None -> inputs evs = want).

Lemma types_nil e want : e <> None -> types want e [].
Proof. intros H. split; [apply prefix_nil|done]. Qed.

Lemma types_app want want' e e1 e2 :
  inputs e1 = want -> types want' e e2 -> types (want ++ want') e (e1 ++ e2).
Proof.
  intros <- [Hp He]. unfold types. rewrite inputs_app. split; [by apply prefix_app|]. intros H. by rewrite He.
Qed.

Section Typing.
Context (d : Dispatcher) (env : Env) (token : WorkerToken) (p : string).

Lemma check_sat : sat (paneSession env token) (fun ok evs => evs = [Checked token ok]).
Proof. by intros l; eexists. Qed.
Lemma delay_sat : sat (contextDelay env) (fun e evs => evs = [Waited e]).
Proof. by intros l; eexists. Qed.
Lemma reply_sat c : sat (callHerdr env c) (fun r evs => evs = [Called c r]).
Proof. by intros l; eexists. Qed.

Lemma sendKeys_types index keys :
  sat (sendKeysFrom d env token p index keys) (types (Key <$> keys)).
Proof.
  revert index. induction keys as [|key keys IH]; intros index; cbn [sendKeysFrom]; [by apply sat_ret|].
  eapply sat_bind; [apply check_sat|]. intros [|]; cbn [negb].
  2:{ apply sat_ret. intros before ->. split; [apply prefix_nil|done]. }
  eapply sat_bind; [apply reply_sat|]. intros r. destruct (r_err r) as [e|] eqn:E.
  { apply sat_ret. intros b1 -> b2 ->. unfold types, inputs. cbn. rewrite E. cbn. split; [apply prefix_nil|done]. }
  assert (Hin : inputs ([Checked token true] ++ [Called (SendKeys (herdrFor d p) (rawID p) [key]) r]) = [Key key])
    by (unfold inputs; cbn; by rewrite E).
  destruct keys as [|key' keys].
  { apply sat_ret. intros b1 -> b2 ->. rewrite app_nil_r. unfold types. by rewrite Hin. }
  eapply sat_bind; [apply delay_sat|]. intros [e|].
  - apply sat_ret. intros b1 -> b2 -> b3 ->. rewrite app_nil_r. rewrite app_assoc. split; [|done].
    rewrite inputs_app, Hin. cbn. apply prefix_cons, prefix_nil.
  - eapply sat_mono; [apply IH|]. intros e evs H b1 -> b2 -> b3 ->. rewrite app_assoc.
    change (Key <$> key :: key' :: keys) with ([Key key] ++ (Key <$> key' :: keys)). apply types_app; [done|].
    by apply (types_app [] _ _ [Waited None] evs).
Qed.

Lemma stepKeys_types dispatched keys :
  sat (stepKeys d env token p dispatched keys) (fun ed evs => types (Key <$> keys) ed.1 evs).
Proof.
  unfold stepKeys. destruct keys as [|key keys]; [by apply sat_ret|].
  eapply sat_bind; [apply sendKeys_types|]. intros [e|]; apply sat_ret; intros before [H1 H2]; rewrite app_nil_r; by split.
Qed.

Lemma stepText_types dispatched text :
  sat (stepText d env token p dispatched text)
    (fun ed evs => types (if String.eqb text "" then [] else [Typed text]) ed.1 evs).
Proof.
  unfold stepText. destruct (String.eqb text ""); [by apply sat_ret|].
  eapply sat_bind; [apply check_sat|]. intros [|]; cbn [negb].
  2:{ apply sat_ret. intros before ->. split; [apply prefix_nil|done]. }
  eapply sat_bind; [apply reply_sat|]. intros r. destruct (r_err r) as [e|] eqn:E; apply sat_ret; intros b1 -> b2 ->;
    unfold types, inputs; cbn; rewrite E; cbn; split; done || apply prefix_nil.
Qed.

Lemma prefix_of_app_l {A} (a b c : list A) : a `prefix_of` b -> a `prefix_of` b ++ c.
Proof. intros [k ->]. exists (k ++ c). by rewrite app_assoc. Qed.

Lemma runSteps_types dispatched steps : sat (runSteps d env token p dispatched steps) (types (planInputs steps)).
Proof.
  revert dispatched. induction steps as [|step steps IH]; intros dispatched; cbn [runSteps]; [by apply sat_ret|].
  change (planInputs (step :: steps)) with (stepInputs step ++ planInputs steps). unfold stepInputs. rewrite <- app_assoc.
  eapply sat_bind; [apply stepKeys_types|]. intros [[e|] d1]; cbn [fst snd].
  { apply sat_ret. intros before [H1 _]. rewrite app_nil_r. split; [by apply prefix_of_app_l|done]. }
  eapply sat_bind; [apply stepText_types|]. intros [[e|] d2]; cbn [fst snd].
  { apply sat_ret. intros b1 [H1 _] b2 [_ H2]. rewrite app_nil_r. apply types_app; [auto|]. split; [by apply prefix_of_app_l|done]. }
  destruct steps as [|step' steps].
  { apply sat_ret. intros b1 [_ H1] b2 [_ H2]. rewrite app_nil_r. apply types_app; [auto|]. cbn. rewrite app_nil_r.
    split; [by rewrite H1|auto]. }
  eapply sat_bind; [apply delay_sat|]. intros [e|].
  - apply sat_ret. intros b1 -> b2 [_ H1] b3 [_ H2]. rewrite app_nil_r. apply types_app; [auto|]. apply types_app; [auto|].
    split; [apply prefix_nil|done].
  - eapply sat_mono; [apply IH|]. intros e evs H b1 -> b2 [_ H1] b3 [_ H2]. apply types_app; [auto|]. apply types_app; [auto|].
    by apply (types_app [] _ _ [Waited None] evs).
Qed.
End Typing.

(** the events a computation added *)
Definition added {A} (m : M A) (l : list Ev) : list Ev := drop (length l) (m l).2.
Lemma sat_added {A} (m : M A) Q l : sat m Q -> Q (m l).1 (added m l).
Proof. intros H. destruct (H l) as (evs & E & HQ). unfold added. by rewrite E, drop_app_length. Qed.

Section Questions.
Context (d : Dispatcher) (env : Env) (token : WorkerToken) (p : string).


End Questions.

(** ** Plans do not panic *)

Lemma toggleLoop_focus nav store wanted index options i :
  0 <= index -> index + len options = len (QuestionInput.Options i) ->
  QuestionInput.Index (QuestionInput.focus i) <= len (QuestionInput.Options i) ->
  let r := (QuestionInput.toggleLoop nav store wanted index options i).2 in
  length (QuestionInput.Options r) = length (QuestionInput.Options i) /\
  QuestionInput.Index (QuestionInput.focus r) <= len (QuestionInput.Options i).
Proof.
  revert index i. induction options as [|o options IH]; intros index i H0 Hl Hf; cbn [QuestionInput.toggleLoop]; [done|].
  cbn [length] in Hl. destruct (Bool.eqb _ _); [apply IH; lia|]. cbn zeta.
  set (i1 := if store then _ else _).
  assert (E1 : length (QuestionInput.Options i1) = length (QuestionInput.Options i))
    by (unfold i1; destruct store; cbn; by rewrite ?length_insert).
  assert (E2 : QuestionInput.focus i1 = QuestionInput.option_ index) by (unfold i1; by destruct store).
  destruct (IH (index + 1) i1) as [H1 H2]; [lia|lia|rewrite E2; cbn; lia|].
  destruct (QuestionInput.toggleLoop nav store wanted (index + 1) options i1) as [steps r]. cbn in *.
  rewrite E1 in *. done.
Qed.

(** a single choice without a custom answer is one option *)
Lemma single_valid pay i :
  validateQuestionPayload pay i = None -> Navigation pay = ""%string -> Clarify pay = false ->
  QuestionInput.Kind i = "single_select"%string -> OtherSelected pay = false -> exists x, Selected pay = [x].
Proof.
  intros Hv Hn Hc Hs Ho. unfold validateQuestionPayload in Hv. rewrite Hn, Hc, Hs, Ho in Hv. cbn in Hv.
  rewrite andb_false_r in Hv. destruct (existsb _ _); [done|]. destruct (len (Selected pay) + 0 =? 1) eqn:E; [|done]. zb.
  destruct (Selected pay) as [|x [|y l]]; cbn in *; [lia|by exists x|lia].
Qed.

(** C34: an answer that fits its question has a plan: the planner indexes no empty
    selection and makes no list of negative length. *)
Theorem valid_answer_has_plan pay i :
  validateQuestionPayload pay i = None -> Navigation pay ∈ [""; "previous"; "next"]%string ->
  QuestionInput.Kind i = "single_select"%string \/ QuestionInput.Kind i = "multi_select"%string ->
  QuestionInput.Index (QuestionInput.focus i) <= len (QuestionInput.Options i) ->
  is_Some (QuestionInput.PlanInput i (intentOf pay)).
Proof.
  intros Hv Hnav Hk Hf. unfold QuestionInput.PlanInput. cbn [QuestionInput.Navigation QuestionInput.Clarify intentOf].
  destruct (String.eqb (Navigation pay) "previous") eqn:E1; [done|]. destruct (String.eqb (Navigation pay) "next") eqn:E2; [done|].
  assert (Hn : Navigation pay = ""%string) by (apply String.eqb_neq in E1, E2; set_solver).
  destruct (Clarify pay) eqn:Ec; [done|].
  pose proof (single_valid pay i Hv Hn Ec) as Hone.
  destruct (String.eqb (QuestionInput.Agent i) "codex"); [done|].
  destruct (String.eqb (QuestionInput.Agent i) "qoder").
  { unfold QuestionInput.planQoderInput. cbn. destruct Hk as [Hk|Hk]; rewrite Hk; cbn; [|done].
    destruct (QuestionInput.NotesActive i); [|by destruct (Selected pay)].
    destruct (OtherSelected pay); [done|]. by destruct (Hone Hk eq_refl) as [x ->]. }
  destruct (String.eqb (QuestionInput.Agent i) "opencode").
  { unfold QuestionInput.planOpenCodeInput. cbn. destruct (QuestionInput.Hidden _); [done|]. destruct Hk as [Hk|Hk]; rewrite Hk; cbn; [|done].
    destruct (QuestionInput.NotesActive i); [|by destruct (Selected pay)].
    destruct (OtherSelected pay); [done|]. by destruct (Hone Hk eq_refl) as [x ->]. }
  destruct (String.eqb (QuestionInput.Agent i) "omp"); [|done].
  unfold QuestionInput.planOMPInput. cbn. destruct (String.eqb _ "single_select"); [by destruct (Selected pay)|].
  unfold QuestionInput.toggles.
  destruct (toggleLoop_focus QuestionInput.navigationKeys false (Selected pay) 0 (QuestionInput.Options i) i) as [H1 H2]; [lia|lia|done|].
  destruct (QuestionInput.toggleLoop _ _ _ _ _ _) as [steps r]. cbn in H1, H2.
  destruct (OtherSelected pay); [done|]. destruct (_ >? _); [done|]. destruct (Selected pay); [done|].
  destruct (_ <? _) eqn:E; [|done]. zb. lia.
Qed.

(** ** Secrets *)

(** an event without the keys it sent *)
Definition eraseCall (c : call) : call := match c with SendKeys client id _ => SendKeys client id [] | c => c end.
Definition eraseEv (e : Ev) : Ev := match e with Called c r => Called (eraseCall c) r | e => e end.
Definition erase (l : list Ev) : list Ev := eraseEv <$> l.

(** nothing outside of the dispatcher and herdr's terminal sees the keys that are sent *)
Class Blind (env : Env) : Prop := {
  blind_state l l' : erase l = erase l' -> stateAt env l = stateAt env l';
  blind_herdr l l' c c' : erase l = erase l' -> eraseCall c = eraseCall c' -> herdr env l c = herdr env l' c';
  blind_executes l l' o : erase l = erase l' -> executes env l o = executes env l' o;
  blind_commits l l' : erase l = erase l' -> commits env l = commits env l'
}.

(** two computations that an observer without the keys cannot tell apart *)
Definition alike {A} (m m' : M A) : Prop :=
  forall l l', erase l = erase l' -> (m l).1 = (m' l').1 /\ erase (m l).2 = erase (m' l').2.

Lemma alike_ret {A} (a : A) : alike (ret a) (ret a).
Proof. by intros l l' E. Qed.
Lemma alike_bind {A B} (m m' : M A) (k k' : A -> M B) :
  alike m m' -> (forall a, alike (k a) (k' a)) -> alike (bind m k) (bind m' k').
Proof.
  intros Hm Hk l l' E. destruct (Hm l l' E) as [H1 H2]. unfold bind. destruct (m l) as [a l1], (m' l') as [a' l1'].
  cbn in *. subst a'. by apply Hk.
Qed.

Lemma erase_app l e : erase (l ++ [e]) = erase l ++ [eraseEv e].
Proof. unfold erase. by rewrite fmap_app. Qed.

(** one event, the same for both up to the keys *)
Lemma alike_ev {A} (f f' : list Ev -> A * Ev) :
  (forall l l', erase l = erase l' -> (f l).1 = (f' l').1 /\ eraseEv (f l).2 = eraseEv (f' l').2) ->
  alike (fun l => ((f l).1, l ++ [(f l).2])) (fun l => ((f' l).1, l ++ [(f' l).2])).
Proof. intros H l l' E. cbn. destruct (H l l' E) as [-> H2]. rewrite !erase_app, E, H2. done. Qed.

Section Secrets.
Context (d : Dispatcher) (env : Env) `{!Blind env}.

Lemma alike_did e : alike (did e) (did e).
Proof. by apply (alike_ev (fun _ => (tt, e)) (fun _ => (tt, e))). Qed.
Lemma alike_look {A} (f : State.State -> A) : alike (look env f) (look env f).
Proof.
  apply (alike_ev (fun l => (f (stateAt env l), Looked)) (fun l => (f (stateAt env l), Looked))).
  intros l l' E. cbn. by rewrite (blind_state l l' E).
Qed.
Lemma alike_session token : alike (paneSession env token) (paneSession env token).
Proof.
  set (f := fun l => (sessionCurrent (stateAt env l) token, Checked token (sessionCurrent (stateAt env l) token))).
  apply (alike_ev f f). intros l l' E. unfold f. cbn. by rewrite (blind_state l l' E).
Qed.
Lemma alike_commit a : alike (commitEntry env a) (commitEntry env a).
Proof.
  set (f := fun l => (commits env l, if commits env l then Recorded a else RecordFailed)).
  apply (alike_ev f f). intros l l' E. unfold f. cbn. by rewrite (blind_commits l l' E).
Qed.
Lemma alike_call c c' : eraseCall c = eraseCall c' -> alike (callHerdr env c) (callHerdr env c').
Proof.
  intros Hc. apply (alike_ev (fun l => (herdr env l c, Called c (herdr env l c))) (fun l => (herdr env l c', Called c' (herdr env l c')))).
  intros l l' E. cbn. by rewrite Hc, (blind_herdr l l' c c' E Hc).
Qed.
Lemma existsb_erase l : existsb isAdmitted (erase l) = existsb isAdmitted l.
Proof. induction l as [|e l IH]; cbn; [done|]. rewrite <- IH. by destruct e. Qed.
Lemma alike_signal ctx : alike (signal ctx) (signal ctx).
Proof.
  intros l l' E. unfold signal. rewrite <- (existsb_erase l), E, existsb_erase. split; [done|]. cbn.
  destruct (_ && _); [|done]. by rewrite !erase_app, E.
Qed.

#[local] Hint Resolve alike_ret alike_did alike_look alike_session alike_commit alike_signal : dispatch.

Ltac alike :=
  repeat first
    [ progress intros
    | apply alike_bind
    | solve [eauto with dispatch nocore]
    | apply alike_call; reflexivity
    | match goal with |- alike (match ?x with _ => _ end) _ => destruct x end ].

Lemma alike_activity kind status summary extract paneID requestID :
  alike (recordActivityWithExtract d env kind status summary extract paneID requestID)
        (recordActivityWithExtract d env kind status summary extract paneID requestID).
Proof. unfold recordActivityWithExtract, broadcast. alike. Qed.
Lemma alike_record kind status summary paneID requestID :
  alike (recordActivity d env kind status summary paneID requestID) (recordActivity d env kind status summary paneID requestID).
Proof. apply alike_activity. Qed.
#[local] Hint Resolve alike_activity alike_record : dispatch.
Lemma alike_fail requestID action paneID text :
  alike (fail d env requestID action paneID text) (fail d env requestID action paneID text).
Proof. unfold fail. alike. Qed.
Lemma alike_failErr requestID action paneID e :
  alike (failErr d env requestID action paneID e) (failErr d env requestID action paneID e).
Proof. unfold failErr. destruct (classify e) as [[phase public] data]. alike. Qed.
Lemma alike_wake : alike (wake d) (wake d).
Proof. unfold wake. alike. Qed.
#[local] Hint Resolve alike_fail alike_failErr alike_wake : dispatch.
Lemma alike_current token requestID action :
  alike (paneSessionCurrent d env token requestID action) (paneSessionCurrent d env token requestID action).
Proof. unfold paneSessionCurrent. alike. Qed.
#[local] Hint Resolve alike_current : dispatch.
Lemma alike_guardedCall token requestID action paneID c c' data :
  eraseCall c = eraseCall c' ->
  alike (guardedCall d env token requestID action paneID c data) (guardedCall d env token requestID action paneID c' data).
Proof. intros Hc. unfold guardedCall. apply alike_bind; [alike|]. intros [r|]; [alike|]. apply alike_bind; [by apply alike_call|]. alike. Qed.
Lemma alike_finish o r e : alike (finishSchedule d env o r e) (finishSchedule d env o r e).
Proof. unfold finishSchedule. alike. Qed.
#[local] Hint Resolve alike_finish : dispatch.

Lemma alike_execute {X} ctx o pay (run run' : WorkerToken -> M (EffectResult * X)) :
  (forall token, alike (run token) (run' token)) -> alike (execute env ctx o pay run) (execute env ctx o pay run').
Proof.
  intros Hr. unfold execute. cbn zeta. apply alike_bind; [alike|]. intros []. apply alike_bind.
  { intros l l' E. cbn. split; [by apply blind_executes|done]. }
  intros x. destruct x; (apply alike_bind; [alike|]; intros []); try (alike; fail); (apply alike_bind; [apply Hr|]); alike.
Qed.

Lemma alike_schedule {X} ctx o pay (run run' : WorkerToken -> M (EffectResult * X)) :
  (forall token, alike (run token) (run' token)) -> alike (schedule d env ctx o pay run) (schedule d env ctx o pay run').
Proof.
  intros Hr. unfold schedule. cbn zeta.
  assert (Hrun : forall o, alike
    (let* rex := execute env ctx o pay run in let '(r, e, x) := rex in let* r0 := finishSchedule d env o r e in ret (r0, x))
    (let* rex := execute env ctx o pay run' in let '(r, e, x) := rex in let* r0 := finishSchedule d env o r e in ret (r0, x))).
  { intros o'. apply alike_bind; [by apply alike_execute|]. intros [[r e] x]. alike. }
  destruct (RelayLevel o); [apply Hrun|]. apply alike_bind; [destruct (c_session ctx); alike|]. intros a.
  apply alike_bind; [alike|]. intros ga. destruct (_ || _); [alike|apply Hrun].
Qed.

Definition secretMessage (msg : gmap string any) (text : string) : gmap string any := <["text"%string := AString text]> msg.

End Secrets.

(** The keys of a secret spell it: one rune after the other, then [Enter]. *)
Theorem secret_keys_spell text :
  utf8_valid (bytes_of_string text) = true ->
  exists keys, secretKeys text = keys ++ ["Enter"%string] /\ concat (bytes_of_string <$> keys) = bytes_of_string text /\
    len keys = runeCount text.
Proof.
  intros Hv. exists (runeStrings text). unfold secretKeys, runeStrings, runeCount. split; [done|]. rewrite length_fmap. split; [|done].
  rewrite <- (runes_valid _ Hv) at 2. f_equal. rewrite <- list_fmap_compose.
  rewrite <- (list_fmap_id (runes _)) at 2. apply list_fmap_ext. intros k r Hk. cbn. apply bytes_string_bytes.
  apply Forall_forall. intros b Hb. apply (Forall_forall is_byte (bytes_of_string text)); [apply bytes_of_string_ok|].
  rewrite <- (runes_valid _ Hv). apply list_elem_of_In, in_concat. exists r. rewrite <- !list_elem_of_In.
  split; [by eapply list_elem_of_lookup_2|done].
Qed.

(** ** Approvals *)

Section Approvals.
Context (d : Dispatcher) (env : Env) (Classify : string -> string -> Classification).

(** the agent and the screen an approval is typed for *)
Definition waitsFor (paneID : string) (pay : approvalPayload) (a : State.AgentState) (screen : reply) : Prop :=
  State.Status a = "blocked"%string /\ State.BlockedEventID (State.blocked a) = EventID pay /\
  len (State.Options (State.blocked a)) = Total pay /\ r_err screen = None /\
  let shown := Classify (r_content screen) (State.Agent (State.info a)) in
  k_Kind shown = State.AttentionApproval /\ len (k_Options shown) = Total pay /\ ap_Index pay < Total pay.

Lemma approveCurrent_sat requestID paneID pay token current :
  sat (approveCurrent d env Classify requestID paneID pay token current) (fun _ evs => idle evs \/
    exists a screen, current = Some a /\ waitsFor paneID pay a screen /\
      exists rest, evs = Called (ReadPaneRecent (herdrFor d paneID) (rawID paneID) 80 "ansi") screen :: rest).
Proof.
  assert (Hh : forall m : M CommandResult, harmless m -> forall P, sat m (fun _ evs => idle evs \/ P evs)).
  { intros m Hm P. eapply sat_mono; [exact Hm|]. by left. }
  unfold approveCurrent. destruct current as [a|]; [|apply Hh, harmless_fail].
  destruct (_ && _) eqn:Eg; [|apply Hh, harmless_fail].
  apply andb_true_iff in Eg as [[Eb Ee]%andb_true_iff Eap]. apply String.eqb_eq in Eb.
  apply andb_true_iff in Ee as [_ Ee]. apply String.eqb_eq in Ee. apply andb_true_iff in Eap as [_ Eo]. zb.
  eapply sat_bind; [apply reply_sat|]. intros screen. destruct (r_err screen) as [e|] eqn:Es.
  { eapply sat_mono; [apply harmless_failErr|]. intros r evs H before ->. left. apply (idle_app [_] evs); [|done].
    apply idle_one. by intros ? ? [= <- _]. }
  cbn zeta. destruct (_ || _) eqn:Ec.
  { eapply sat_mono; [apply harmless_fail|]. intros r evs H before ->. left. apply (idle_app [_] evs); [|done].
    apply idle_one. by intros ? ? [= <- _]. }
  rewrite !orb_false_iff, !negb_false_iff in Ec. destruct Ec as [[Ek%String.eqb_eq El] Ei]. zb.
  set (tail := bind _ _). assert (Ht : sat tail (fun _ _ => True)).
  { unfold tail. eapply (sat_bind _ _ (fun _ _ => True)); [eapply sat_mono; [apply harmless_paneSessionCurrent|done]|].
    intros [r|]; [by apply sat_ret|]. eapply (sat_bind _ _ (fun _ _ => True)); [eapply sat_mono; [apply sendKeys_types|done]|].
    intros [e|]; [|by apply sat_ret]. eapply sat_mono; [apply harmless_failErr|done]. }
  eapply sat_mono; [exact Ht|]. intros r evs _ before ->. right. exists a, screen. split; [done|]. split; [|by exists evs].
  unfold waitsFor. cbn zeta. split_and!; done || lia.
Qed.

(** C40: an approval is typed only for an agent that was found to wait for this very
    approval: when its effect starts the pane is blocked on the event the phone answered,
    with as many choices, and the screen that is read for it before any key shows an
    approval with as many choices.  (Between this and the keys only the session of the
    pane is checked again.) *)
Theorem approval_is_current requestID paneID pay token l pre c r post :
  added (approvalEffect d env Classify requestID paneID pay token) l = pre ++ Called c r :: post -> mutates c = true ->
  exists a screen, State.AgentOf (stateAt env l) paneID = Some a /\ waitsFor paneID pay a screen /\
    Called (ReadPaneRecent (herdrFor d paneID) (rawID paneID) 80 "ansi") screen ∈ pre.
Proof.
  intros Hin Hm. set (current := State.AgentOf (stateAt env l) paneID).
  destruct (approveCurrent_sat requestID paneID pay token current (l ++ [Looked])) as (evs & E & H).
  assert (Ea : added (approvalEffect d env Classify requestID paneID pay token) l = Looked :: evs).
  { unfold added, approvalEffect, bind, look. fold current. by rewrite E, <- app_assoc, drop_app_length. }
  rewrite Ea in Hin. destruct pre as [|x pre]; cbn in Hin; [done|]. injection Hin as <- Hin.
  destruct H as [Hi|(a & screen & Hc & Hw & rest & ->)].
  { rewrite (Hi c r) in Hm; [done|]. rewrite Hin. apply elem_of_app. right. by left. }
  exists a, screen. split_and!; [done|done|]. destruct pre as [|y pre]; cbn in Hin; injection Hin as Hy _; [|subst y; right; by left].
  by subst c.
Qed.
End Approvals.

(** ** Admission *)

Definition admissions (l : list Ev) : nat := foldr (fun e n => if isAdmitted e then S n else n) 0%nat l.

Definition released (l : list Ev) : Prop := existsb isAdmitted l = true.

(** from the position [base] on, every call of herdr comes after the admission signal *)
Definition afterRelease (base : nat) (l : list Ev) : Prop :=
  forall pre c r post, l = pre ++ Called c r :: post -> (length pre < base)%nat \/ released pre.

(** [m] signals admission at most once and calls herdr only after it; [b] tells that
    admission was signalled before *)
Definition keeps (base : nat) (b : bool) {A} (m : M A) : Prop :=
  forall l, (admissions l <= 1)%nat -> afterRelease base l -> (b = true -> released l) ->
    (admissions (m l).2 <= 1)%nat /\ afterRelease base (m l).2 /\ (released l -> released (m l).2).

Lemma admissions_app l e : admissions (l ++ [e]) = (admissions l + (if isAdmitted e then 1 else 0))%nat.
Proof. unfold admissions. induction l as [|x l IH]; cbn; [by destruct (isAdmitted e)|]. rewrite IH. by destruct (isAdmitted x). Qed.
Lemma admissions_none l : existsb isAdmitted l = false -> admissions l = 0%nat.
Proof.
  induction l as [|e l IH]; cbn; [done|]. intros [-> H2]%orb_false_iff. by apply IH.
Qed.
Lemma released_app l k : released l -> released (l ++ k).
Proof. unfold released. rewrite existsb_app. by intros ->. Qed.

Lemma afterRelease_snoc base l e : afterRelease base l -> (forall c r, e = Called c r -> released l) -> afterRelease base (l ++ [e]).
Proof.
  intros H He pre c r post E. destruct post as [|x post _] using rev_ind.
  - apply app_inj_tail in E as [<- ->]. right. by eapply He.
  - rewrite app_comm_cons, app_assoc in E. apply app_inj_tail in E as [E _]. by eapply H.
Qed.

Lemma keeps_ret base b {A} (a : A) : keeps base b (ret a).
Proof. by intros l. Qed.
Lemma keeps_bind_if base b {A B} (P : A -> Prop) (m : M A) (k : A -> M B) :
  keeps base b m -> (forall l, P (m l).1) -> (forall a, P a -> keeps base b (k a)) -> keeps base b (bind m k).
Proof.
  intros Hm HP Hk l H1 H2 H3. unfold bind. destruct (Hm l H1 H2 H3) as (E1 & E2 & E3). specialize (HP l). destruct (m l) as [a l1].
  destruct (Hk a HP l1 E1 E2) as (F1 & F2 & F3); auto.
Qed.
Lemma keeps_bind base b {A B} (m : M A) (k : A -> M B) : keeps base b m -> (forall a, keeps base b (k a)) -> keeps base b (bind m k).
Proof. intros Hm Hk. by apply (keeps_bind_if base b (fun _ => True)). Qed.
Lemma keeps_ev base b {A} (f : list Ev -> A * Ev) :
  (forall l, isAdmitted (f l).2 = false /\ (forall c r, (f l).2 = Called c r -> b = true)) -> keeps base b (fun l => ((f l).1, l ++ [(f l).2])).
Proof.
  intros H l H1 H2 H3. destruct (H l) as [E1 E2]. cbn. rewrite admissions_app, E1. split_and!; [lia| |apply released_app].
  apply afterRelease_snoc; [done|]. intros c r E. by eapply H3, E2.
Qed.
Lemma signal_released ctx l : c_admit ctx = true \/ released l -> released (signal ctx l).2.
Proof.
  intros H. unfold signal. cbn. destruct (existsb isAdmitted l) eqn:E; [by rewrite andb_false_r|]. destruct H as [->|H]; [|by unfold released in H; rewrite E in H].
  cbn. unfold released. by rewrite existsb_app, orb_comm.
Qed.
Lemma keeps_signal base b ctx : keeps base b (signal ctx).
Proof.
  intros l H1 H2 _. split_and!; [| |by intros; apply signal_released; right];
    unfold signal; cbn; destruct (c_admit ctx && _) eqn:E; try done; apply andb_true_iff in E as [_ E]; apply negb_true_iff in E.
  - by rewrite admissions_app, admissions_none.
  - by apply afterRelease_snoc.
Qed.

Section Once.
Context (d : Dispatcher) (env : Env) (base : nat).
Lemma keeps_did b e : isAdmitted e = false -> (forall c r, e <> Called c r) -> keeps base b (did e).
Proof. intros H H'. apply (keeps_ev base b (fun _ => (tt, e))). intros _. split; [done|]. intros c r E. by destruct (H' c r). Qed.
Lemma keeps_look b {A} (f : State.State -> A) : keeps base b (look env f).
Proof. by apply (keeps_ev base b (fun l => (f (stateAt env l), Looked))). Qed.
Lemma keeps_ask b {A} (f : list Ev -> A) : keeps base b (askEnv f).
Proof. by apply (keeps_ev base b (fun l => (f l, Looked))). Qed.
Lemma keeps_delay b : keeps base b (contextDelay env).
Proof. by apply (keeps_ev base b (fun l => (waits env l, Waited (waits env l)))). Qed.
Lemma keeps_call c : keeps base true (callHerdr env c).
Proof. by apply (keeps_ev base true (fun l => (herdr env l c, Called c (herdr env l c)))). Qed.
Lemma keeps_session b token : keeps base b (paneSession env token).
Proof. by apply (keeps_ev base b (fun l => (sessionCurrent (stateAt env l) token, Checked token (sessionCurrent (stateAt env l) token)))). Qed.
Lemma keeps_commit b a : keeps base b (commitEntry env a).
Proof. apply (keeps_ev base b (fun l => (commits env l, if commits env l then Recorded a else RecordFailed))). intros l. cbn. by destruct (commits env l). Qed.
Lemma keeps_replay b key hash : keeps base b (replayLedger env key hash).
Proof. by apply (keeps_ev base b (fun l => (replays env l key hash, Asked key))). Qed.
Lemma keeps_attempt c : keeps base true (attempt env c).
Proof. apply keeps_bind; [apply keeps_call|]. intros; apply keeps_ret. Qed.

(** what runs after the signal may call herdr *)
Lemma keeps_signalled b ctx {A} (m : M A) : b = true \/ c_admit ctx = true -> keeps base true m -> keeps base b (bind (signal ctx) (fun _ => m)).
Proof.
  intros Hb Hm l H1 H2 H3. destruct (keeps_signal base b ctx l H1 H2 H3) as (E1 & E2 & E3). unfold bind.
  assert (Hr : released (signal ctx l).2) by (apply signal_released; destruct Hb; auto).
  destruct (signal ctx l) as [[] l1]. destruct (Hm l1 E1 E2) as (F1 & F2 & F3); auto.
Qed.

Lemma keeps_execute b {X} ctx o pay (run : WorkerToken -> M (EffectResult * X)) : b = true \/ c_admit ctx = true ->
  (forall token, keeps base true (run token)) -> keeps base b (execute env ctx o pay run).
Proof.
  intros Hb Hr. unfold execute. cbn zeta. apply keeps_bind; [by apply keeps_did|]. intros _. apply keeps_bind; [by intros l|]. intros x.
  destruct x; (apply keeps_signalled; [done|]); try apply keeps_ret; (apply keeps_bind; [apply Hr|]); intros ex; try apply keeps_ret.
  apply keeps_bind; [by apply keeps_did|]. intros _. apply keeps_ret.
Qed.

#[local] Hint Resolve keeps_ret keeps_look keeps_ask keeps_delay keeps_call keeps_session keeps_commit keeps_replay keeps_attempt keeps_signal
  : dispatch.

Ltac releases :=
  repeat first
    [ progress intros
    | solve [eauto with dispatch nocore]
    | apply keeps_did; [reflexivity|discriminate]
    | match goal with |- _ \/ c_admit _ = true => first [by left | assumption | right; assumption | by right] end
    | simple apply keeps_execute
    | match goal with |- keeps _ _ (bind _ _) => apply keeps_bind end
    | match goal with |- keeps _ _ (match ?x with _ => _ end) => destruct x end
    | match goal with |- keeps _ _ (let _ := ?x in _) => progress cbn zeta end ].

Lemma keeps_activity b kind status summary extract paneID requestID :
  keeps base b (recordActivityWithExtract d env kind status summary extract paneID requestID).
Proof. unfold recordActivityWithExtract, broadcast. releases. Qed.
Lemma keeps_record b kind status summary paneID requestID : keeps base b (recordActivity d env kind status summary paneID requestID).
Proof. apply keeps_activity. Qed.
Lemma keeps_wake b : keeps base b (wake d).
Proof. unfold wake. releases. Qed.
#[local] Hint Resolve keeps_activity keeps_record keeps_wake : dispatch.
Lemma keeps_fail b requestID action paneID text : keeps base b (fail d env requestID action paneID text).
Proof. unfold fail. releases. Qed.
Lemma keeps_failErr b requestID action paneID e : keeps base b (failErr d env requestID action paneID e).
Proof. unfold failErr. destruct (classify e) as [[phase public] data]. releases. Qed.
#[local] Hint Resolve keeps_fail keeps_failErr : dispatch.
Lemma keeps_current b token requestID action : keeps base b (paneSessionCurrent d env token requestID action).
Proof. unfold paneSessionCurrent. releases. Qed.
Lemma keeps_finish b o r e : keeps base b (finishSchedule d env o r e).
Proof. unfold finishSchedule. releases. Qed.
#[local] Hint Resolve keeps_current keeps_finish : dispatch.
Lemma keeps_schedule b {X} ctx o pay (run : WorkerToken -> M (EffectResult * X)) : b = true \/ c_admit ctx = true ->
  (forall token, keeps base true (run token)) -> keeps base b (schedule d env ctx o pay run).
Proof. intros Hr. unfold schedule. cbn zeta. releases; auto. Qed.
Lemma keeps_guardedCall token requestID action paneID c data : keeps base true (guardedCall d env token requestID action paneID c data).
Proof. unfold guardedCall. releases. Qed.
#[local] Hint Resolve keeps_guardedCall : dispatch.
Lemma keeps_sendKeys token paneID index keys : keeps base true (sendKeysFrom d env token paneID index keys).
Proof. revert index. induction keys as [|key keys IH]; intros index; cbn [sendKeysFrom]; releases. Qed.
#[local] Hint Resolve keeps_sendKeys : dispatch.
Lemma keeps_runSteps token paneID dispatched steps : keeps base true (runSteps d env token paneID dispatched steps).
Proof.
  revert dispatched. induction steps as [|s steps IH]; intros dispatched; cbn [runSteps]; unfold stepKeys, stepText, sendQuestionKeysForSession; releases.
Qed.
Lemma keeps_startKind fuel client kind name id : keeps base true (startKindAgent env fuel client kind name id).
Proof. induction fuel as [|fuel IH]; cbn [startKindAgent]; releases. Qed.
Lemma keeps_waitCustom fuel client name id : keeps base true (waitCustomAgent env fuel client name id).
Proof. induction fuel as [|fuel IH]; cbn [waitCustomAgent]; releases. Qed.
#[local] Hint Resolve keeps_runSteps keeps_startKind keeps_waitCustom : dispatch.

Lemma keeps_effect b m bump : keeps base b m -> keeps base b (effect m bump).
Proof. intros H. unfold effect. releases. Qed.
Lemma keeps_promptEffect requestID paneID text b token : keeps base true (promptEffect d env requestID paneID text b token).
Proof. unfold promptEffect. releases. Qed.
#[local] Hint Resolve keeps_effect keeps_promptEffect : dispatch.

Ltac handler := unfold valueOf; repeat (releases; first [simple apply keeps_schedule | simple apply keeps_effect]).

Context (hashPayload : payload -> string) (wideInt : Z -> Z -> Z) (wideSame : Z -> Z -> bool)
  (Parse : string -> string -> option QuestionInput.Interaction) (Classify : string -> string -> Classification)
  (home : string) (sessionPrefix : list Ev -> string -> string) (clearName : time -> string) (parseTime : string -> option time).

Lemma keeps_prompt b ctx receivedAt requestID paneID text : b = true \/ c_admit ctx = true -> keeps base b (handlePrompt d env ctx receivedAt requestID paneID text).
Proof. unfold handlePrompt. handler. Qed.
Lemma keeps_keys b ctx receivedAt requestID paneID msg : b = true \/ c_admit ctx = true -> keeps base b (handleKeys d env ctx receivedAt requestID paneID msg).
Proof. unfold handleKeys. handler. Qed.
Lemma keeps_text b ctx receivedAt requestID paneID msg : b = true \/ c_admit ctx = true -> keeps base b (handleText d env ctx receivedAt requestID paneID msg).
Proof. unfold handleText. handler. Qed.
Lemma keeps_secret b ctx receivedAt requestID paneID msg : b = true \/ c_admit ctx = true -> keeps base b (handleSecret d env ctx receivedAt requestID paneID msg).
Proof. unfold handleSecret. handler. Qed.
Lemma keeps_stop b ctx receivedAt requestID paneID : b = true \/ c_admit ctx = true -> keeps base b (handleStop d env hashPayload ctx receivedAt requestID paneID).
Proof. unfold handleStop. handler. Qed.
Lemma keeps_rename b ctx receivedAt requestID paneID msg : b = true \/ c_admit ctx = true -> keeps base b (handleTabRename d env ctx receivedAt requestID paneID msg).
Proof. unfold handleTabRename. handler. Qed.
Lemma keeps_reorder b ctx receivedAt requestID paneID msg : b = true \/ c_admit ctx = true ->
  keeps base b (handleTabReorder d env wideInt wideSame ctx receivedAt requestID paneID msg).
Proof. unfold handleTabReorder. destruct (tabInsertIndex _ _ _). handler. Qed.
Lemma keeps_acknowledge b requestID paneID : keeps base b (handleAcknowledge d env requestID paneID).
Proof. unfold handleAcknowledge, broadcast. handler. Qed.

Lemma keeps_approve requestID paneID pay token current : keeps base true (approveCurrent d env Classify requestID paneID pay token current).
Proof. unfold approveCurrent, sendQuestionKeysForSession. releases. Qed.
#[local] Hint Resolve keeps_approve : dispatch.
Lemma keeps_submitApproval b ctx receivedAt requestID paneID pay : b = true \/ c_admit ctx = true ->
  keeps base b (submitApproval d env hashPayload Classify ctx receivedAt requestID paneID pay).
Proof. unfold submitApproval, approvalEffect. handler. Qed.
#[local] Hint Resolve keeps_submitApproval : dispatch.
Lemma keeps_approval b ctx receivedAt requestID paneID msg : b = true \/ c_admit ctx = true ->
  keeps base b (handleApproval d env hashPayload wideInt Classify ctx receivedAt requestID paneID msg).
Proof. unfold handleApproval, replayApproval. handler. Qed.
Lemma keeps_questionEffect requestID action paneID pay token : keeps base true (questionEffect d env Parse requestID action paneID pay token).
Proof. unfold questionEffect, executeQuestion. releases. Qed.
#[local] Hint Resolve keeps_questionEffect : dispatch.
Lemma keeps_submitQuestion b ctx receivedAt requestID paneID pay : b = true \/ c_admit ctx = true ->
  keeps base b (submitQuestion d env hashPayload Parse ctx receivedAt requestID paneID pay).
Proof. unfold submitQuestion, scheduleQuestion. handler. Qed.
#[local] Hint Resolve keeps_submitQuestion : dispatch.

Lemma keeps_Start profile r : keeps base true (Start d env home sessionPrefix profile r).
Proof.
  unfold Start. releases; unfold startNew, createTarget, startInTarget; releases.
Qed.
#[local] Hint Resolve keeps_Start keeps_prompt : dispatch.
Lemma keeps_agentStart b ctx receivedAt requestID msg : b = true \/ c_admit ctx = true ->
  keeps base b (handleAgentStart d env hashPayload home sessionPrefix ctx receivedAt requestID msg).
Proof. unfold handleAgentStart, startEffect, initialPrompt. handler. Qed.
Lemma keeps_clear b ctx receivedAt requestID paneID : b = true \/ c_admit ctx = true ->
  keeps base b (handleClear d env home sessionPrefix clearName ctx receivedAt requestID paneID).
Proof. unfold handleClear, clearEffect. handler. Qed.
#[local] Hint Resolve keeps_keys keeps_text keeps_secret keeps_stop keeps_rename keeps_reorder keeps_acknowledge keeps_approval
  keeps_agentStart keeps_clear : dispatch.

Lemma keeps_route b ctx receivedAt requestID paneID action msg : b = true \/ c_admit ctx = true ->
  keeps base b (route d env hashPayload wideInt wideSame Parse Classify home sessionPrefix clearName ctx receivedAt requestID paneID action msg).
Proof. unfold route, handleQuestion, handleClarifyQuestion, handleNavigateQuestion. releases. Qed.

Lemma keeps_handle b ctx now msg : b = true \/ c_admit ctx = true ->
  keeps base b (Handle d env hashPayload wideInt wideSame Parse Classify home sessionPrefix clearName parseTime ctx now msg).
Proof.
  intros Hb. unfold Handle. cbn zeta. apply (keeps_bind_if base b (fun ctx => b = true \/ c_admit ctx = true)).
  - releases.
  - intros l. destruct (String.eqb _ _), (_ =? 0); exact Hb.
  - intros a Ha. by apply keeps_route.
Qed.
End Once.

Lemma admissions_pos l : released l -> admissions l <> 0%nat.
Proof.
  unfold released, admissions. intros E. induction l as [|e l IH]; cbn in *; [done|]. destruct (isAdmitted e); [lia|]. by apply IH.
Qed.
Lemma released_signal l : released l -> AdmittedNow ∈ l.
Proof. intros H. apply existsb_exists in H as (e & Hin & He). destruct e; try done. by apply list_elem_of_In. Qed.

Section Admission.
Context (d : Dispatcher) (env : Env) (hashPayload : payload -> string) (wideInt : Z -> Z -> Z) (wideSame : Z -> Z -> bool)
  (Parse : string -> string -> option QuestionInput.Interaction) (Classify : string -> string -> Classification)
  (home : string) (sessionPrefix : list Ev -> string -> string) (clearName : time -> string) (parseTime : string -> option time).

End Admission.

(** ** Cutting a screen *)

Definition newlines (l : bytes) : Z := len (filter (fun b => b = 10) l).
(** the number of lines: a newline at the end closes the last one *)
Definition stopOf (l : bytes) : nat := if bool_decide (last l = Some 10) then (length l - 1)%nat else length l.
Definition lineCount (l : bytes) : Z := newlines (take (stopOf l) l) + 1.

Lemma newlines_app a b : newlines (a ++ b) = newlines a + newlines b.
Proof. unfold newlines. rewrite filter_app, length_app. lia. Qed.

Lemma newlines_snoc index (content : bytes) b :
  content !! index = Some b -> newlines (take (S index) content) = newlines (take index content) + (if bool_decide (b = 10) then 1 else 0).
Proof.
  intros E. rewrite (take_S_r _ _ _ E), newlines_app. f_equal. unfold newlines. rewrite filter_cons, filter_nil.
  case_decide; [by rewrite bool_decide_true|by rewrite bool_decide_false].
Qed.

(** either nothing is cut, or the cut is after the newline before the last [remaining]
    lines *)
Lemma capFrom_cut content index remaining :
  0 < remaining -> (index <= length content)%nat ->
  (capFrom index remaining content = content /\ newlines (take index content) < remaining) \/
  (exists j, (j < index)%nat /\ content !! j = Some 10 /\ capFrom index remaining content = drop (S j) content /\
     newlines (take index content) = newlines (take (S j) content) + (remaining - 1)).
Proof.
  revert remaining. induction index as [|index IH]; intros remaining Hr Hi; cbn [capFrom]; [left; done|].
  destruct (lookup_lt_is_Some_2 content index ltac:(lia)) as [b E]. rewrite (newlines_snoc _ _ _ E), E.
  destruct (decide (b = 10)) as [->|Hb].
  - rewrite !bool_decide_true by done. destruct (remaining - 1 =? 0) eqn:E1; zb.
    + right. exists index. split_and!; [lia|done|done|]. rewrite (newlines_snoc _ _ _ E), bool_decide_true by done. lia.
    + destruct (IH (remaining - 1) ltac:(lia) ltac:(lia)) as [[-> H]|(j & Hj & E2 & -> & H)];
        [left; split; [done|lia]|right; exists j; split_and!; [lia|done|done|lia]].
  - rewrite !bool_decide_false by congruence.
    destruct (IH remaining ltac:(lia) ltac:(lia)) as [[-> H]|(j & Hj & E2 & -> & H)];
      [left; split; [done|lia]|right; exists j; split_and!; [lia|done|done|lia]].
Qed.

Lemma stopOf_suffix pre suf : suf <> [] -> stopOf (pre ++ suf) = (length pre + stopOf suf)%nat.
Proof.
  intros H. unfold stopOf. rewrite last_app, length_app. destruct (last suf) as [b|] eqn:E; [|by apply last_None in E].
  destruct suf; [done|]. case_bool_decide; cbn; lia.
Qed.

(** A screen is cut to its last lines and nothing else: what is left out is whole
    lines at the beginning, what is left has as many lines as asked for, and a screen
    that has no more is left alone. *)
Theorem cap_keeps_last_lines content limit :
  1 <= limit -> content <> [] ->
  exists cut, content = cut ++ capPaneContentLines content limit /\
    (cut = [] /\ lineCount content <= limit \/
     last cut = Some 10 /\ lineCount (capPaneContentLines content limit) = limit).
Proof.
  intros Hl Hc. unfold capPaneContentLines. rewrite (bool_decide_false (content = [])) by done.
  replace (limit <? 1) with false by (symmetry; apply Z.ltb_ge; lia). cbn [orb]. fold (stopOf content).
  assert (Hs : (stopOf content <= length content)%nat) by (unfold stopOf; case_bool_decide; lia).
  destruct (capFrom_cut content (stopOf content) limit ltac:(lia) Hs) as [[-> H]|(j & Hj & E & -> & H)].
  { exists []. split; [done|]. left. split; [done|]. unfold lineCount. lia. }
  exists (take (S j) content). split; [by rewrite take_drop|]. right.
  assert (Hd : drop (S j) content <> []).
  { intros Hd. apply (f_equal length) in Hd. rewrite length_drop in Hd. cbn in Hd.
    unfold stopOf in Hj. case_bool_decide as Hlast; [lia|]. rewrite last_lookup in Hlast.
    replace (pred (length content)) with j in Hlast by lia. done. }
  split; [by rewrite (take_S_r _ _ _ E), last_snoc|].
  pose proof (stopOf_suffix (take (S j) content) (drop (S j) content) Hd) as Hst. rewrite take_drop in Hst.
  rewrite length_take, Nat.min_l in Hst by lia. unfold lineCount.
  rewrite Hst, <- take_take_drop, newlines_app in H. lia.
Qed.

(** ** Where agents start *)

Lemma uncommon_prefix base tgt rest : uncommon base tgt = ([], rest) -> tgt = base ++ rest.
Proof.
  revert tgt rest. induction base as [|b bs IH]; intros [|t ts] rest; cbn; [by intros [= <-]|by intros [= <-]|done|].
  destruct (String.eqb b t) eqn:E; [|done]. apply String.eqb_eq in E as ->. intros H. by rewrite (IH ts rest H).
Qed.

(** A start that passes validation names a directory strictly below the home
    directory, links resolved on both sides; so no link leads an agent out of it. *)
Theorem start_below_home fs home profile r profile' valid :
  ValidateStart home profile fs r = Ok (profile', valid) ->
  exists h below, absPath fs home ≫= evalSymlinks fs = Some h /\ absPath fs (s_Cwd r) ≫= evalSymlinks fs = Some (s_Cwd valid) /\
    below <> [] /\ elements_ (s_Cwd valid) = elements_ h ++ below /\ openBelow fs h (s_Cwd valid) = Directory.
Proof.
  unfold ValidateStart. destruct profile as [pr|]; [|done]. destruct (negb (agentName _)); [done|]. destruct (_ >? _); [done|].
  unfold ResolveCwd. destruct (String.eqb _ ""); [done|]. destruct (absPath fs home) as [ah|]; [|done].
  destruct (absPath fs (s_Cwd r)) as [ar|]; [|done]. cbn. destruct (evalSymlinks fs ah) as [h|]; [|done].
  destruct (evalSymlinks fs ar) as [c|]; [|done]. destruct (uncommon (elements_ h) (elements_ c)) as [[|] [|x below]] eqn:E; try done.
  destruct (openBelow fs h c) eqn:Ed; try done. cbn. intros [= <- <-]. exists h, (x :: below).
  split_and!; try done. by apply uncommon_prefix in E.
Qed.

(** ** What the watchers report *)

Definition stillWaiting (eventID : string) (agent : option State.AgentState) : bool :=
  match agent with
  | Some a => isBlocked a && sameEvent a eventID && String.eqb (State.AttentionKind (State.blocked a)) State.AttentionApproval
  | None => false
  end.
Definition reports (evs : list Ev) : list CommandResult := omap (fun e => match e with Updated _ _ r _ => Some r | _ => None end) evs.

Section Watching.
Context (d : Dispatcher) (env : Env).

Lemma phase_reports key generation requestID action paneID phase :
  sat (commitAndBroadcastPhase d env key generation requestID action paneID phase) (fun _ evs =>
    exists r, reports evs = [r] /\ cr_OK r = String.eqb phase "confirmed").
Proof.
  intros l. unfold commitAndBroadcastPhase, commitAndBroadcastResult, broadcast, bind, did, ret.
  destruct (updates env l); [destruct (d_broadcast d)|]; eexists; (split; [cbn; rewrite <- ?app_assoc; reflexivity|]); by eexists.
Qed.

(** at most one report after [l], and one that confirms after the agent was seen to go on *)
Definition watched (paneID eventID : string) (l evs : list Ev) : Prop :=
  (length (reports evs) <= 1)%nat /\
  forall r, r ∈ reports evs -> cr_OK r = true ->
    exists seen, seen `prefix_of` evs /\ stillWaiting eventID (State.AgentOf (stateAt env (l ++ seen)) paneID) = false.

Lemma watched_after paneID eventID l more evs :
  reports more = [] -> watched paneID eventID (l ++ more) evs -> watched paneID eventID l (more ++ evs).
Proof.
  intros Hm [H1 H2]. unfold watched, reports in *. rewrite omap_app, Hm. split; [done|]. intros r Hr Hok.
  destruct (H2 r Hr Hok) as (seen & Hs & Hw). exists (more ++ seen). split; [by apply prefix_app|]. by rewrite app_assoc.
Qed.

Lemma watched_phase paneID eventID key generation requestID action phase l more :
  reports more = [] -> phase <> "confirmed"%string \/ stillWaiting eventID (State.AgentOf (stateAt env l) paneID) = false ->
  exists evs, (commitAndBroadcastPhase d env key generation requestID action paneID phase (l ++ more)).2 = l ++ evs /\
    watched paneID eventID l evs.
Proof.
  intros Hm H. destruct (phase_reports key generation requestID action paneID phase (l ++ more)) as (evs & E & r0 & Hr & Hok).
  exists (more ++ evs). rewrite E, app_assoc. split; [done|]. unfold watched, reports in *. rewrite omap_app, Hm, Hr. split; [done|].
  intros r ->%list_elem_of_singleton. rewrite Hok. intros Hph%String.eqb_eq. destruct H as [H|H]; [done|].
  exists []. rewrite app_nil_r. split; [apply prefix_nil|done].
Qed.

(** A watched approval is reported at most once, and as confirmed only when after it
    was typed the agent was seen not to wait for it any more. *)
Theorem confirmed_was_seen ticks requestID paneID eventID generation l :
  exists evs, (watchApproval d env ticks requestID paneID eventID generation l).2 = l ++ evs /\ watched paneID eventID l evs.
Proof.
  assert (Hmore : forall more l (m : list Ev), reports more = [] ->
    (exists evs, m = (l ++ more) ++ evs /\ watched paneID eventID (l ++ more) evs) ->
    exists evs, m = l ++ evs /\ watched paneID eventID l evs).
  { intros more l0 m Hm (evs & E & H). exists (more ++ evs). rewrite E, app_assoc. split; [done|]. by apply watched_after. }
  revert l. induction ticks as [|ticks IH]; intros l; cbn [watchApproval]; unfold bind at 1, contextDelay; cbn zeta.
  - destruct (waits env l); apply watched_phase; try done; by left.
  - destruct (waits env l) as [e|]; [apply watched_phase; [done|by left]|].
    apply (Hmore [Waited None]); [done|]. unfold bind, look, ret. cbn zeta.
    destruct (negb _); [exists [Looked]; split; [done|]; split; [cbn; lia|]; by intros r ?%elem_of_nil|].
    apply (Hmore [Looked]); [done|]. set (l1 := (l ++ [Waited None]) ++ [Looked]).
    destruct (State.AgentOf (stateAt env l1) paneID) as [a|] eqn:Ea; cbn zeta.
    + destruct (_ && _) eqn:Ew; [apply (Hmore [Looked]); [done|apply IH]|].
      apply watched_phase; [done|]. right. by rewrite Ea.
    + apply watched_phase; [done|]. right. by rewrite Ea.
Qed.
End Watching.

(** ** Runs *)

Definition okReply (content : string) : reply :=
  mkReply None true content false true [] [] (HerdrSessions.mkCreated "w2:p1" "w2:t1" "w2") None None None.
Definition waitingAgent : State.AgentState :=
  State.mkAgent (State.info demoAgent) "blocked" 0 0 0
    (State.mkBlocked "e1" State.AttentionApproval "" "" ["Yes"; "No"]%string None false "") 0.
Definition waitingState : State.State := State.set_agents {["w1:p1"%string := waitingAgent]} State.NewState.
Definition homeFiles : Files :=
  mkFiles (fun p => Some p) (fun p => Some p) (fun _ _ => Directory).

(** herdr does everything but what [refused] names *)
Definition serving (refused : call -> bool) : Env :=
  mkEnv (fun _ => waitingState) (fun _ c => if refused c then refusedReply else okReply "screen") (fun _ => None) (fun _ o => Ran 1 (Deadline o))
    (fun _ _ _ => (None, false, false)) (fun _ => true) (fun _ => true) (fun _ _ => Some (mkProfile "custom" "Custom" "" ["agent"]%string))
    (fun _ _ _ => ""%string) (fun _ => homeFiles) (fun _ => false).
Definition willing : Env := serving (fun _ => false).
Definition demoToken : WorkerToken := mkToken 1 "w1:p1" 0 false 0.
Definition twoChoices (_ _ : string) : Classification := mkClassification State.AttentionApproval ["Yes"; "No"]%string 0.

#[export] Instance willing_blind : Blind willing.
Proof. by split. Qed.

Definition demoQuestion : QuestionInput.Interaction :=
  QuestionInput.demo "claude" "multi_select" (QuestionInput.mkOther true "old" false false) (QuestionInput.option_ 1) 4 false.
Definition demoAnswer : questionPayload := mkQuestion "q" [0; 2] true "new" false "".


Lemma valid_answer_witness :
  validateQuestionPayload demoAnswer demoQuestion = None /\ is_Some (QuestionInput.PlanInput demoQuestion (intentOf demoAnswer)).
Proof.
  assert (H : validateQuestionPayload demoAnswer demoQuestion = None) by (vm_compute; reflexivity).
  split; [exact H|]. apply (valid_answer_has_plan demoAnswer demoQuestion H); [left|by right|cbn; lia].
Defined.


Lemma secret_keys_witness :
  exists keys, secretKeys "café" = keys ++ ["Enter"%string] /\ concat (bytes_of_string <$> keys) = bytes_of_string "café" /\
    len keys = runeCount "café".
Proof. apply (secret_keys_spell "café"). vm_compute. reflexivity. Defined.

Definition approved : list Ev := added (approvalEffect demoDispatcher willing twoChoices "r" "w1:p1" (mkApproval "e1" 1 2) demoToken) [].
Lemma approval_current_witness :
  exists a screen, State.AgentOf waitingState "w1:p1" = Some a /\ waitsFor twoChoices "w1:p1" (mkApproval "e1" 1 2) a screen /\
    Called (ReadPaneRecent "" "w1:p1" 80 "ansi") screen ∈ take 4 approved.
Proof.
  apply (approval_is_current demoDispatcher willing twoChoices "r" "w1:p1" (mkApproval "e1" 1 2) demoToken [] (take 4 approved)
    (SendKeys "" "w1:p1" ["Down"%string]) (okReply "screen") (drop 5 approved)); [vm_compute; reflexivity|reflexivity].
Defined.

Definition admitted : list Ev :=
  (HandleAdmitted demoDispatcher refusing (fun _ => ""%string) (fun _ _ => 0) (fun _ _ => false) (fun _ _ => None)
    twoChoices "/home/u" (fun _ _ => ""%string) (fun _ => "clear"%string) (fun _ => None) demoCtx 0 textMessage []).2.

Lemma cap_witness : exists cut, bytes_of_string "a
b
c" = cut ++ capPaneContentLines (bytes_of_string "a
b
c") 2 /\ (cut = [] /\ lineCount (bytes_of_string "a
b
c") <= 2 \/ last cut = Some 10 /\ lineCount (capPaneContentLines (bytes_of_string "a
b
c") 2) = 2).
Proof. apply cap_keeps_last_lines; [lia|discriminate]. Defined.

Definition demoStart : StartRequest := mkStart "custom" "" "demo" "/home/u/p" "" "".
Lemma start_witness :
  exists h below, absPath homeFiles "/home/u" ≫= evalSymlinks homeFiles = Some h /\
    absPath homeFiles "/home/u/p" ≫= evalSymlinks homeFiles = Some "/home/u/p"%string /\
    below <> [] /\ elements_ "/home/u/p" = elements_ h ++ below /\ openBelow homeFiles h "/home/u/p" = Directory.
Proof.
  apply (start_below_home homeFiles "/home/u" (Some (mkProfile "custom" "Custom" "" ["agent"]%string)) demoStart
    (mkProfile "custom" "Custom" "" ["agent"]%string) demoStart). vm_compute. reflexivity.
Defined.

(** a custom agent that was started but could not be named: the phone is told that
    nothing was sent *)
Definition unnamed : Env := serving (fun c => match c with RenameAgent _ _ _ => true | _ => false end).
Example custom_start_reported_unsent :
  let m := startEffect demoDispatcher unnamed "/home/u" (fun _ _ => ""%string) "r" (mkProfile "custom" "Custom" "" ["agent"]%string) demoStart demoToken in
  cr_Phase (m []).1 = "not_started"%string /\ cr_Error (m []).1 = "Command was not sent; retry is safe"%string /\
  Called (PaneRun "" "w2:p1" ["agent"%string]) (okReply "screen") ∈ (m []).2.
Proof. cbn zeta. split_and!; [vm_compute; reflexivity|vm_compute; reflexivity|]. apply list_elem_of_In. vm_compute. tauto. Qed.
End DispatchAnswers.
