(* ===== verification/Workspaces.v ===== *)
(** The commands on workspaces and worktrees ([internal/coordinator/workspace.go]) in the
    monad of the dispatcher, and what the phone may rely on: when it is told that nothing
    was sent nothing was changed, a block is moved within one session, labels that reach
    herdr are trimmed and bounded.  [topologyMu], which makes the commands wait for each
    other, only orders the events of different handlers and is left out. *)
From stdpp Require Import pretty.
From S2P Require Import Prelude GoLib GoText State Scheduler HerdrSessions DispatchBase Handlers DispatchSafety DispatchAnswers.
#[local] Open Scope Z_scope.

Module Workspaces.
Import Scheduler DispatchBase Handlers.
Import (notations) DispatchBase.

Definition workspaceLabelMaxRunes : Z := 128.
Definition worktreeValueMaxRunes : Z := 512.

Definition validWorkspaceLabel (label : string) : option string :=
  if String.eqb label "" then Some "Workspace label is required"%string
  else if runeCount label >? workspaceLabelMaxRunes then Some "Workspace label is too long"%string
  else None.

Definition validWorktreeValues (values : list string) : option string :=
  if existsb (fun v => runeCount v >? worktreeValueMaxRunes) values then Some "Worktree value is too long"%string else None.

Definition topologyRefusalCode (code : string) : bool :=
  bool_decide (code ∈ ["invalid_request"; "workspace_not_found"; "worktree_not_found"; "not_git_worktree";
    "linked_worktree_source"; "worktree_operation_in_progress"]%string).

(** the phase, the public text and the data of a failed command *)
Definition classifyTopology (action : string) (e : list sentinel) : string * string * string :=
  let later :=
    if String.eqb action "worktree_list" then
      match asCLIError e with
      | Some (code, message) =>
          if String.eqb (TrimSpace message) "" then ("failed", "Worktrees could not be listed", "")
          else ("failed", TrimSpace message, "code=" ++ code)
      | None => ("failed", "Worktrees could not be listed", "")
      end%string
    else if Is e ErrCreatedTargetUnknown || Is e ErrDispatchedUnknown
    then ("dispatched_unknown", "Herdr may have completed this command; refresh before retrying", "dispatched_unknown")%string
    else if Is e ErrNotStarted || Is e DeadlineExceeded then ("not_started", "Command was not sent; retry is safe", "")%string
    else ("failed", "Command failed", "")%string in
  match asCLIError e with
  | Some (code, message) =>
      if String.eqb code "dirty_worktree_requires_force"
      then ("not_started", "Worktree has uncommitted changes; force removal is required", "code=" ++ code ++ " force_available")%string
      else if topologyRefusalCode code
      then ("not_started", if String.eqb (TrimSpace message) "" then "Herdr refused the command" else TrimSpace message, "code=" ++ code)%string
      else later
  | None => later
  end.

Section Workspaces.
Context (d : Dispatcher) (env : Env) (home : string) (sessionPrefix : list Ev -> string -> string).
(** the results as the phone gets them *)
Context (showListing : HerdrSessions.WorktreeListResult -> string) (showOpened : HerdrSessions.WorktreeMutationResult -> string)
  (showRemoved : HerdrSessions.WorktreeRemoveResult -> string).

Definition failTopologyErr (requestID action paneID : string) (e : list sentinel) : M CommandResult :=
  let '(phase, public, data) := classifyTopology action e in
  do* (if String.eqb action "worktree_list" then ret tt
       else recordActivity d env action "failed" (spaced action ++ " failed: " ++ public)%string paneID requestID) in
  ret (mkResult requestID action false phase public paneID data false).

Definition workspaceTarget (requestID action workspaceID : string) : M (CommandResult + State.Workspace) :=
  let workspaceID := TrimSpace workspaceID in
  if String.eqb workspaceID "" then let* r := fail d env requestID action "" "Workspace is required" in ret (inl r)
  else
    let* w := look env (fun s => State.WorkspaceOf s workspaceID) in
    match w with
    | None => let* r := fail d env requestID action "" "Workspace is unavailable" in ret (inl r)
    | Some w => ret (inr w)
    end.

Definition topologyChanged : M unit := do* did (Mutated TopologyChanged) in wake d.

(** admission, the call and what follows its answer *)
Definition topologyCall (ctx : Ctx) (requestID action : string) (c : call) (k : reply -> M CommandResult) : M CommandResult :=
  do* signal ctx in
  let* r := callHerdr env c in
  match r_err r with
  | Some e => failTopologyErr requestID action "" e
  | None => do* topologyChanged in k r
  end.

Definition sessionPrefixOf (session : string) : M string :=
  if d_sessions d then let* prefixes := askEnv sessionPrefix in ret (prefixes session) else ret ""%string.

Definition HandleWorkspaceCreateIn (ctx : Ctx) (requestID session cwd label : string) : M CommandResult :=
  let action := "workspace_create"%string in
  let label := TrimSpace label in
  match validWorkspaceLabel label with
  | Some text => fail d env requestID action "" text
  | None =>
      if negb (d_profiles d) then fail d env requestID action "" "Agent profiles are unavailable"
      else
        let* fs := askEnv (files env) in
        match ResolveCwd fs home cwd with
        | Err text => fail d env requestID action "" text
        | Ok resolved =>
            do* signal ctx in
            let* prefix := sessionPrefixOf session in
            let* r := callHerdr env (WorkspaceCreate (herdrFor d prefix) resolved label) in
            match r_err r with
            | Some e => failTopologyErr requestID action "" e
            | None =>
                let created := default (r_created r) (HerdrSessions.QualifyCreateResult prefix (Some (r_created r))) in
                do* topologyChanged in
                do* recordActivity d env action "created" ("Created workspace " ++ label)%string "" requestID in
                ret (completed requestID action "" ("workspace_id=" ++ HerdrSessions.cre_WorkspaceID created ++ " pane_id=" ++ HerdrSessions.cre_PaneID created ++
                  " tab_id=" ++ HerdrSessions.cre_TabID created ++ " cwd=" ++ resolved ++ " label=" ++ label)%string)
            end
        end
  end.

Definition HandleWorkspaceCreate (ctx : Ctx) (requestID cwd label : string) : M CommandResult :=
  HandleWorkspaceCreateIn ctx requestID "" cwd label.

(** a command on the workspace the phone names *)
Definition onWorkspace (requestID action workspaceID : string) (k : State.Workspace -> M CommandResult) : M CommandResult :=
  let* t := workspaceTarget requestID action workspaceID in
  match t with inl r => ret r | inr w => k w end.

Definition HandleWorkspaceRename (ctx : Ctx) (requestID workspaceID label : string) : M CommandResult :=
  let action := "workspace_rename"%string in
  onWorkspace requestID action workspaceID (fun w =>
    let label := TrimSpace label in
    match validWorkspaceLabel label with
    | Some text => fail d env requestID action "" text
    | None =>
        topologyCall ctx requestID action (WorkspaceRename (herdrFor d (State.ws_ID w)) (rawID (State.ws_ID w)) label) (fun _ =>
          do* recordActivity d env action "renamed" ("Renamed workspace to " ++ label)%string "" requestID in
          ret (completed requestID action "" ("workspace_id=" ++ State.ws_ID w ++ " label=" ++ label)%string))
    end).

Definition HandleWorkspaceReorder (ctx : Ctx) (requestID workspaceID : string) (insertIndex : option Z) : M CommandResult :=
  let action := "workspace_reorder"%string in
  onWorkspace requestID action workspaceID (fun w =>
    match insertIndex with
    | Some index =>
        if (index <? 0) || (index >? maxTabInsertIndex) then fail d env requestID action "" "Workspace position is invalid"
        else topologyCall ctx requestID action (WorkspaceMove (herdrFor d (State.ws_ID w)) (rawID (State.ws_ID w)) index) (fun _ =>
               do* recordActivity d env action "reordered" "Reordered workspace" "" requestID in
               ret (completed requestID action "" ("workspace_id=" ++ State.ws_ID w ++ " insert_index=" ++ pretty index)%string))
    | None => fail d env requestID action "" "Workspace position is invalid"
    end).

(** the checks of a block, one after the other; the error, if any *)
Fixpoint checkBlock (seen ids : list string) : M (option string) :=
  match ids with
  | [] => ret None
  | id :: ids =>
      if String.eqb id "" || bool_decide (id ∈ seen) then ret (Some "Workspace selection is invalid"%string)
      else
        let* w := look env (fun s => State.WorkspaceOf s id) in
        match w with
        | None => ret (Some "Workspace is unavailable"%string)
        | Some _ => checkBlock (id :: seen) ids
        end
  end.

Definition checkBefore (ids : list string) (before : string) : M (option string) :=
  if String.eqb before "" then ret None
  else if bool_decide (before ∈ ids) then ret (Some "Workspace destination is invalid"%string)
  else
    let* w := look env (fun s => State.WorkspaceOf s before) in
    ret (match w with None => Some "Workspace destination is unavailable"%string | Some _ => None end).

Definition moveBlock (ctx : Ctx) (requestID : string) (ids : list string) (before : string) : M CommandResult :=
  let action := "workspace_reorder"%string in
  do* signal ctx in
  let prefix := prefixOf (default ""%string (head ids)) in
  if negb (forallb (fun id => String.eqb (prefixOf id) prefix) ids)
  then fail d env requestID action "" "Workspaces from different Herdr sessions cannot be reordered together"
  else if negb (String.eqb before "") && negb (String.eqb (prefixOf before) prefix)
  then fail d env requestID action "" "Workspace destination is in another Herdr session"
  else
    let* r := callHerdr env (WorkspaceMoveBlock (herdrFor d (default ""%string (head ids))) (rawID <$> ids) (rawID before)) in
    match r_err r with
    | Some e => failTopologyErr requestID action "" e
    | None =>
        do* topologyChanged in
        do* recordActivity d env action "reordered" "Reordered workspace group" "" requestID in
        ret (completed requestID action "" ("before_workspace_id=" ++ before)%string)
    end.

Definition HandleWorkspaceReorderBlock (ctx : Ctx) (requestID : string) (ids : list string) (before : string) : M CommandResult :=
  let action := "workspace_reorder"%string in
  if (len ids =? 0) || (len ids >? maxTabInsertIndex) then fail d env requestID action "" "Workspace selection is invalid"
  else
    let* bad := checkBlock [] ids in
    match bad with
    | Some text => fail d env requestID action "" text
    | None =>
        let* bad := checkBefore ids before in
        match bad with
        | Some text => fail d env requestID action "" text
        | None => moveBlock ctx requestID ids before
        end
    end.

Definition HandleWorkspaceClose (ctx : Ctx) (requestID workspaceID : string) : M CommandResult :=
  let action := "workspace_close"%string in
  onWorkspace requestID action workspaceID (fun w =>
    topologyCall ctx requestID action (WorkspaceClose (herdrFor d (State.ws_ID w)) (rawID (State.ws_ID w))) (fun _ =>
      do* recordActivity d env action "closed" ("Closed workspace " ++ State.ws_Label w)%string "" requestID in
      ret (completed requestID action "" ("workspace_id=" ++ State.ws_ID w)%string))).

(** a listing changes nothing and is not ordered with the other commands *)
Definition HandleWorktreeList (requestID workspaceID : string) : M CommandResult :=
  let action := "worktree_list"%string in
  onWorkspace requestID action workspaceID (fun w =>
    let* r := callHerdr env (WorktreeList (herdrFor d (State.ws_ID w)) (rawID (State.ws_ID w))) in
    match r_err r with
    | Some e => failTopologyErr requestID action "" e
    | None =>
        ret (completed requestID action ""
          (from_option showListing ""%string (HerdrSessions.QualifyWorktreeListing (prefixOf (State.ws_ID w)) <$> r_listing r)))
    end).

(** what a worktree command answers *)
Definition openedData (w : State.Workspace) (r : reply) : string :=
  from_option showOpened ""%string (HerdrSessions.QualifyWorktreeMutation (prefixOf (State.ws_ID w)) <$> r_opened r).

Definition HandleWorktreeCreate (ctx : Ctx) (requestID workspaceID branch base path label : string) : M CommandResult :=
  let action := "worktree_create"%string in
  onWorkspace requestID action workspaceID (fun w =>
    let branch := TrimSpace branch in let base := TrimSpace base in let path := TrimSpace path in let label := TrimSpace label in
    if String.eqb branch "" then fail d env requestID action "" "Branch is required"
    else if negb (String.eqb path "") then fail d env requestID action "" "Custom worktree paths are not available from the phone"
    else match validWorktreeValues [branch; base; path; label] with
         | Some text => fail d env requestID action "" text
         | None =>
             topologyCall ctx requestID action (WorktreeCreate (herdrFor d (State.ws_ID w)) (rawID (State.ws_ID w)) branch base label) (fun r =>
               do* recordActivity d env action "created" ("Created worktree " ++ branch)%string "" requestID in
               ret (completed requestID action "" (openedData w r)))
         end).

(** an answer without a result makes [opened.Worktree] panic; herdr's client returns one
    with every success *)
Definition HandleWorktreeOpen (ctx : Ctx) (requestID workspaceID path branch label : string) : M CommandResult :=
  let action := "worktree_open"%string in
  onWorkspace requestID action workspaceID (fun w =>
    let path := TrimSpace path in let branch := TrimSpace branch in let label := TrimSpace label in
    if Bool.eqb (String.eqb path "") (String.eqb branch "") then fail d env requestID action "" "Choose exactly one worktree path or branch"
    else match validWorktreeValues [branch; ""%string; path; label] with
         | Some text => fail d env requestID action "" text
         | None =>
             topologyCall ctx requestID action (WorktreeOpen (herdrFor d (State.ws_ID w)) (rawID (State.ws_ID w)) path branch label) (fun r =>
               let opened := from_option (fun o => HerdrSessions.wt_Label (HerdrSessions.wm_Worktree o)) ""%string (r_opened r) in
               do* recordActivity d env action "opened" ("Opened worktree " ++ opened)%string "" requestID in
               ret (completed requestID action "" (openedData w r)))
         end).

Definition qualifyRemoved (prefix : string) (r : HerdrSessions.WorktreeRemoveResult) : HerdrSessions.WorktreeRemoveResult :=
  HerdrSessions.mkRemoved (HerdrSessions.QualifyID prefix (HerdrSessions.wr_WorkspaceID r)) (HerdrSessions.wr_Path r) (HerdrSessions.wr_Forced r).

Definition HandleWorktreeRemove (ctx : Ctx) (requestID workspaceID : string) (force : bool) : M CommandResult :=
  let action := "worktree_remove"%string in
  onWorkspace requestID action workspaceID (fun w =>
    if negb (from_option State.IsLinkedWorktree false (State.ws_Worktree w))
    then fail d env requestID action "" "Workspace is not a removable linked worktree"
    else
      topologyCall ctx requestID action (WorktreeRemove (herdrFor d (State.ws_ID w)) (rawID (State.ws_ID w)) force) (fun r =>
        do* recordActivity d env action "removed" ("Removed worktree " ++ State.ws_Label w)%string "" requestID in
        ret (completed requestID action ""
          (from_option showRemoved ""%string (qualifyRemoved (prefixOf (State.ws_ID w)) <$> r_removed r))))).

(** [HandleTopologyAdmitted]: the handler signals admission before its call, or it is
    signalled when the handler is done *)
Definition HandleTopologyAdmitted (ctx : Ctx) (handle : Ctx -> M CommandResult) : M CommandResult :=
  let ctx := mkCtx (c_receipt ctx) (c_session ctx) true in
  let* r := handle ctx in
  do* signal ctx in
  ret r.

(** the commands as the server dispatches them *)
Inductive topologyCommand :=
| CreateWorkspace (session cwd label : string)
| RenameWorkspace (id label : string)
| ReorderWorkspace (id : string) (insertIndex : option Z)
| ReorderBlock (ids : list string) (before : string)
| CloseWorkspace (id : string)
| ListWorktrees (id : string)
| CreateWorktree (id branch base path label : string)
| OpenWorktree (id path branch label : string)
| RemoveWorktree (id : string) (force : bool).

Definition handleTopology (requestID : string) (c : topologyCommand) (ctx : Ctx) : M CommandResult :=
  match c with
  | CreateWorkspace session cwd label => HandleWorkspaceCreateIn ctx requestID session cwd label
  | RenameWorkspace id label => HandleWorkspaceRename ctx requestID id label
  | ReorderWorkspace id index => HandleWorkspaceReorder ctx requestID id index
  | ReorderBlock ids before => HandleWorkspaceReorderBlock ctx requestID ids before
  | CloseWorkspace id => HandleWorkspaceClose ctx requestID id
  | ListWorktrees id => HandleWorktreeList requestID id
  | CreateWorktree id branch base path label => HandleWorktreeCreate ctx requestID id branch base path label
  | OpenWorktree id path branch label => HandleWorktreeOpen ctx requestID id path branch label
  | RemoveWorktree id force => HandleWorktreeRemove ctx requestID id force
  end.
End Workspaces.

(** the codes by which herdr refuses a command on the topology say that nothing changed *)
Class TopologyContract (env : Env) : Prop := {
  tc_refused l c e code message : r_err (herdr env l c) = Some e -> asCLIError e = Some (code, message) ->
    code = "dirty_worktree_requires_force"%string \/ topologyRefusalCode code = true -> delivered (herdr env l c) = false
}.

Section Safety.
Import DispatchSafety.
Context (d : Dispatcher) (env : Env) `{!HerdrContract env} `{!TopologyContract env}.

Definition topologyHonest (r : reply) : Prop :=
  forall action e, r_err r = Some e -> (classifyTopology action e).1.1 = "not_started"%string -> delivered r = false.

Lemma reply_honest l c : topologyHonest (herdr env l c).
Proof using HerdrContract0 TopologyContract0.
  intros action e He Hph. unfold classifyTopology in Hph.
  assert (Hlater : (if String.eqb action "worktree_list" then
      match asCLIError e with
      | Some (code, message) =>
          if String.eqb (TrimSpace message) "" then ("failed", "Worktrees could not be listed", "")
          else ("failed", TrimSpace message, "code=" ++ code)
      | None => ("failed", "Worktrees could not be listed", "")
      end%string
    else if Is e ErrCreatedTargetUnknown || Is e ErrDispatchedUnknown
    then ("dispatched_unknown", "Herdr may have completed this command; refresh before retrying", "dispatched_unknown")%string
    else if Is e ErrNotStarted || Is e DeadlineExceeded then ("not_started", "Command was not sent; retry is safe", "")%string
    else ("failed", "Command failed", "")%string).1.1 = "not_started"%string -> delivered (herdr env l c) = false).
  { destruct (String.eqb action "worktree_list"); [destruct (asCLIError e) as [[code m]|]; [destruct (String.eqb (TrimSpace m) ""); done|done]|].
    unfold Is. destruct (bool_decide (ErrCreatedTargetUnknown ∈ e)); [done|]. case_bool_decide as Hd; [done|]. cbn.
    case_bool_decide as Hn; [intros _; by eapply hc_notStarted|]. case_bool_decide as Hx; [|done].
    intros _. destruct (hc_deadline l c e He Hx) as [?|?]; [done|by eapply hc_notStarted]. }
  destruct (asCLIError e) as [[code message]|] eqn:Ec; [|by apply Hlater].
  destruct (String.eqb code "dirty_worktree_requires_force") eqn:Ed.
  { apply String.eqb_eq in Ed. eapply tc_refused; [done|done|by left]. }
  destruct (topologyRefusalCode code) eqn:Er; [eapply tc_refused; [done|done|by right]|by apply Hlater].
Qed.

(** at most one call that changes something; the result tells how it ended *)
Definition told (r : CommandResult) (evs : list Ev) : Prop :=
  (idle evs /\ cr_OK r = false) \/
  exists pre c rep post, evs = pre ++ Called c rep :: post /\ idle pre /\ idle post /\
    (cr_OK r = true <-> r_err rep = None) /\ (cr_Phase r = "not_started"%string -> delivered rep = false).

Lemma fail_told requestID action paneID text : sat (fail d env requestID action paneID text) told.
Proof.
  intros l. destruct (harmless_fail d env requestID action paneID text l) as (evs & E & H). exists evs. split; [done|]. left. split; [done|].
  unfold fail, bind. by destruct (String.eqb action ""); [|destruct (recordActivity _ _ _ _ _ _ _ _)].
Qed.

Lemma told_after {A} (m : M A) (k : A -> M CommandResult) : harmless m -> (forall a, sat (k a) told) -> sat (bind m k) told.
Proof.
  intros Hm Hk. eapply sat_bind; [exact Hm|]. intros a. eapply sat_mono; [apply Hk|]. intros r evs H before Hb.
  destruct H as [[H1 H2]|(pre & c & rep & post & -> & H)].
  - left. split; [by apply idle_app|done].
  - right. exists (before ++ pre), c, rep, post. destruct H as (? & ?). split; [by rewrite app_assoc|]. split; [by apply idle_app|done].
Qed.

(** the end of a command: the call and what follows it *)
Lemma call_told requestID action c (k : reply -> M CommandResult) :
  (forall r, harmless (k r)) -> (forall r l, cr_OK (k r l).1 = true /\ cr_Phase (k r l).1 = "completed"%string) ->
  sat (let* r := callHerdr env c in
       match r_err r with Some e => failTopologyErr d env requestID action "" e | None => k r end) told.
Proof using HerdrContract0 TopologyContract0.
  intros Hk Hok l. unfold bind, callHerdr. cbn. pose proof (reply_honest l c) as Hh. set (rep := herdr env l c) in *.
  destruct (r_err rep) as [e|] eqn:Ee.
  - unfold failTopologyErr. pose proof (Hh action e Ee) as Hd. destruct (classifyTopology action e) as [[phase public] data]. cbn in Hd.
    set (act := if String.eqb action "worktree_list" then ret tt else _).
    assert (Ha : harmless act) by (unfold act; destruct (String.eqb action "worktree_list"); [apply harmless_ret|apply harmless_record]).
    destruct (Ha (l ++ [Called c rep])) as (evs & E & Hi). unfold bind. destruct (act (l ++ [Called c rep])) as [u l1]. cbn in E. subst l1.
    exists (Called c rep :: evs). cbn. split; [by rewrite <- app_assoc|]. right. exists [], c, rep, evs.
    split_and!; [done|apply idle_nil|done|by rewrite Ee|done].
  - destruct (Hk rep (l ++ [Called c rep])) as (evs & E & Hi). destruct (Hok rep (l ++ [Called c rep])) as [Ho Hp].
    exists (Called c rep :: evs). rewrite E. split; [by rewrite <- app_assoc|]. right. exists [], c, rep, evs.
    split_and!; [done|apply idle_nil|done|by rewrite Ee, Ho|by rewrite Hp].
Qed.

(** a computation that answers with success *)
Definition succeeds (m : M CommandResult) : Prop := forall l, cr_OK (m l).1 = true /\ cr_Phase (m l).1 = "completed"%string.
Lemma succeeds_ret requestID action paneID data : succeeds (ret (completed requestID action paneID data)).
Proof. by intros l. Qed.
Lemma succeeds_bind {A} (m : M A) k : (forall a, succeeds (k a)) -> succeeds (bind m k).
Proof. intros H l. unfold bind. destruct (m l) as [a l1]. apply H. Qed.

Lemma harmless_changed : harmless (topologyChanged d).
Proof. unfold topologyChanged. apply harmless_bind; [by apply harmless_did|]. intros _. apply harmless_wake. Qed.

Lemma topologyCall_told ctx requestID action c (k : reply -> M CommandResult) :
  (forall r, harmless (k r)) -> (forall r, succeeds (k r)) -> sat (topologyCall d env ctx requestID action c k) told.
Proof using HerdrContract0 TopologyContract0.
  intros Hk Ho. unfold topologyCall. apply told_after; [apply harmless_signal|]. intros _.
  apply (call_told requestID action c (fun r => bind (topologyChanged d) (fun _ => k r))).
  - intros r. apply harmless_bind; [apply harmless_changed|]. intros _. apply Hk.
  - intros r l. apply succeeds_bind. intros _. apply Ho.
Qed.

Lemma fail_targets requestID action paneID text :
  sat (fail d env requestID action paneID text) (fun r evs => idle evs /\ cr_OK r = false).
Proof.
  intros l. destruct (fail_told requestID action paneID text l) as (evs & E & H).
  destruct (harmless_fail d env requestID action paneID text l) as (evs' & E' & Hi). exists evs'. split; [done|]. split; [done|].
  unfold fail, bind. by destruct (String.eqb action ""); [|destruct (recordActivity _ _ _ _ _ _ _ _)].
Qed.

Lemma target_sat requestID action id :
  sat (workspaceTarget d env requestID action id) (fun t evs => idle evs /\ (forall r, t = inl r -> cr_OK r = false)).
Proof.
  assert (Hf : forall text, sat (let* r := fail d env requestID action "" text in ret (inl r : CommandResult + State.Workspace))
    (fun t evs => idle evs /\ (forall r, t = inl r -> cr_OK r = false))).
  { intros text. eapply sat_bind; [apply fail_targets|]. intros r. apply sat_ret. intros before [H1 H2]. rewrite app_nil_r. split; [done|].
    by intros ? [= <-]. }
  unfold workspaceTarget. cbn zeta. destruct (String.eqb _ ""); [apply Hf|].
  eapply sat_bind; [apply harmless_look|]. intros [w|].
  - apply sat_ret. intros before Hb. by rewrite app_nil_r.
  - eapply sat_mono; [apply Hf|]. intros t evs [H1 H2] before Hb. split; [by apply idle_app|done].
Qed.

Lemma onWorkspace_told requestID action id (k : State.Workspace -> M CommandResult) :
  (forall w, sat (k w) told) -> sat (onWorkspace d env requestID action id k) told.
Proof.
  intros Hk. unfold onWorkspace. eapply sat_bind; [apply target_sat|]. intros [r|w].
  - apply sat_ret. intros before [H1 H2]. left. rewrite app_nil_r. split; [done|by apply H2].
  - eapply sat_mono; [apply Hk|]. intros r evs H before [Hb _]. destruct H as [[H1 H2]|(pre & c & rep & post & -> & H1 & H2)].
    + left. split; [by apply idle_app|done].
    + right. exists (before ++ pre), c, rep, post. split; [by rewrite app_assoc|]. split; [by apply idle_app|done].
Qed.

Lemma checkBlock_harmless seen ids : harmless (checkBlock env seen ids).
Proof. revert seen. induction ids as [|id ids IH]; intros seen; cbn [checkBlock]; harmless. Qed.

Lemma moveBlock_told ctx requestID ids before : sat (moveBlock d env ctx requestID ids before) told.
Proof using HerdrContract0 TopologyContract0.
  unfold moveBlock. apply told_after; [apply harmless_signal|]. intros _. cbn zeta.
  destruct (negb _); [apply fail_told|]. destruct (negb _ && negb _); [apply fail_told|].
  apply (call_told requestID "workspace_reorder" _ (fun _ => bind (topologyChanged d) (fun _ =>
    bind (recordActivity d env "workspace_reorder" "reordered" "Reordered workspace group" "" requestID) (fun _ => ret _)))).
  - intros r. apply harmless_bind; [apply harmless_changed|]. intros _. apply harmless_bind; [apply harmless_record|]. intros _. apply harmless_ret.
  - intros r l. apply succeeds_bind. intros _. apply succeeds_bind. intros _. apply succeeds_ret.
Qed.

Context (home : string) (sessionPrefix : list Ev -> string -> string)
  (showListing : HerdrSessions.WorktreeListResult -> string) (showOpened : HerdrSessions.WorktreeMutationResult -> string)
  (showRemoved : HerdrSessions.WorktreeRemoveResult -> string).

Ltac recorded := intros; first
  [ apply harmless_bind; [apply harmless_record|intros _; apply harmless_ret] | apply succeeds_bind; intros _; apply succeeds_ret ].

Lemma create_told ctx requestID session cwd label :
  sat (HandleWorkspaceCreateIn d env home sessionPrefix ctx requestID session cwd label) told.
Proof using HerdrContract0 TopologyContract0.
  unfold HandleWorkspaceCreateIn. cbn zeta. destruct (validWorkspaceLabel _); [apply fail_told|].
  destruct (negb (d_profiles d)); [apply fail_told|]. apply told_after; [apply harmless_ask|]. intros fs.
  destruct (ResolveCwd fs home cwd) as [resolved|]; [|apply fail_told]. apply told_after; [apply harmless_signal|]. intros _.
  apply told_after; [unfold sessionPrefixOf; destruct (d_sessions d); harmless|]. intros prefix.
  apply (call_told requestID "workspace_create" _ (fun r => bind (topologyChanged d) (fun _ =>
    bind (recordActivity d env "workspace_create" "created" _ "" requestID) (fun _ => ret _)))).
  - intros r. apply harmless_bind; [apply harmless_changed|]. intros _. recorded.
  - intros r l. apply succeeds_bind. intros _. recorded.
Qed.

Lemma list_told requestID id : sat (HandleWorktreeList d env showListing requestID id) told.
Proof using HerdrContract0 TopologyContract0.
  unfold HandleWorktreeList. apply onWorkspace_told. intros w.
  apply (call_told requestID "worktree_list" _ (fun r => ret _)); [intros r; apply harmless_ret|intros r; apply succeeds_ret].
Qed.

Lemma handleTopology_told requestID c ctx :
  sat (handleTopology d env home sessionPrefix showListing showOpened showRemoved requestID c ctx) told.
Proof using HerdrContract0 TopologyContract0.
  destruct c as [session cwd label|id label|id index|ids before|id|id|id branch base path label|id path branch label|id force]; cbn [handleTopology].
  - apply create_told.
  - apply onWorkspace_told. intros w. cbn zeta. destruct (validWorkspaceLabel _); [apply fail_told|]. apply topologyCall_told; recorded.
  - apply onWorkspace_told. intros w. destruct index as [index|]; [|apply fail_told]. destruct (_ || _); [apply fail_told|].
    apply topologyCall_told; recorded.
  - unfold HandleWorkspaceReorderBlock. cbn zeta. destruct (_ || _); [apply fail_told|]. apply told_after; [apply checkBlock_harmless|].
    intros [text|]; [apply fail_told|]. apply told_after; [unfold checkBefore; harmless|]. intros [text|]; [apply fail_told|apply moveBlock_told].
  - apply onWorkspace_told. intros w. apply topologyCall_told; recorded.
  - apply list_told.
  - apply onWorkspace_told. intros w. cbn zeta. destruct (String.eqb _ ""); [apply fail_told|]. destruct (negb _); [apply fail_told|].
    destruct (validWorktreeValues _); [apply fail_told|]. apply topologyCall_told; recorded.
  - apply onWorkspace_told. intros w. cbn zeta. destruct (Bool.eqb _ _); [apply fail_told|].
    destruct (validWorktreeValues _); [apply fail_told|]. apply topologyCall_told; recorded.
  - apply onWorkspace_told. intros w. destruct (negb _); [apply fail_told|]. apply topologyCall_told; recorded.
Qed.

(** A command on workspaces or worktrees makes at most one call that changes
    something, and the phone is told how it ended: success means that herdr acknowledged
    it, "not started" that it took no effect. *)
Theorem topology_commands_told requestID c ctx l :
  let m := handleTopology d env home sessionPrefix showListing showOpened showRemoved requestID c ctx in
  exists evs, (m l).2 = l ++ evs /\ told (m l).1 evs.
Proof using HerdrContract0 TopologyContract0. apply handleTopology_told. Qed.
End Safety.

(** ** Where the commands go *)

Section Routing.
Import DispatchSafety.
Context (d : Dispatcher) (env : Env).

(** the calls that move a block *)
Definition blockCalls (P : string -> list string -> string -> Prop) (evs : list Ev) : Prop :=
  forall client raws before r, Called (WorkspaceMoveBlock client raws before) r ∈ evs -> P client raws before.

Lemma blockCalls_app P e1 e2 : blockCalls P e1 -> blockCalls P e2 -> blockCalls P (e1 ++ e2).
Proof. intros H1 H2 client raws before r [H|H]%elem_of_app; eauto. Qed.
Lemma blockCalls_idle P evs : idle evs -> blockCalls P evs.
Proof. intros H client raws before r Hin. by apply H in Hin. Qed.

Lemma harmless_blockCalls {A} (m : M A) P : harmless m -> sat m (fun _ => blockCalls P).
Proof. intros H. eapply sat_mono; [exact H|]. intros a evs. apply blockCalls_idle. Qed.
Lemma blockCalls_bind {A B} (m : M A) (k : A -> M B) P :
  sat m (fun _ => blockCalls P) -> (forall a, sat (k a) (fun _ => blockCalls P)) -> sat (bind m k) (fun _ => blockCalls P).
Proof. intros Hm Hk. eapply sat_bind; [exact Hm|]. intros a. eapply sat_mono; [apply Hk|]. intros b evs H before Hb. by apply blockCalls_app. Qed.

Lemma failTopology_harmless requestID action paneID e : harmless (failTopologyErr d env requestID action paneID e).
Proof.
  unfold failTopologyErr. destruct (classifyTopology action e) as [[phase public] data].
  apply harmless_bind; [destruct (String.eqb _ _); [apply harmless_ret|apply harmless_record]|]. intros _. apply harmless_ret.
Qed.

(** A block of workspaces is moved within one session: the client that is called owns
    every workspace of the block and the destination, and gets the ids it knows. *)
Theorem block_in_one_session ctx requestID ids before l :
  d_sessions d = true ->
  blockCalls (fun client raws to =>
      raws = rawID <$> ids /\ to = rawID before /\ Forall (fun id => prefixOf id = client) ids /\ (before = ""%string \/ prefixOf before = client))
    (DispatchAnswers.added (HandleWorkspaceReorderBlock d env ctx requestID ids before) l).
Proof.
  intros Hd. apply (DispatchAnswers.sat_added (HandleWorkspaceReorderBlock d env ctx requestID ids before)
    (fun _ => blockCalls _)). unfold HandleWorkspaceReorderBlock. cbn zeta.
  assert (Hf : forall P text, sat (fail d env requestID "workspace_reorder" "" text) (fun _ => blockCalls P))
    by (intros; apply harmless_blockCalls, harmless_fail).
  destruct (_ || _); [apply Hf|]. apply blockCalls_bind; [apply harmless_blockCalls, checkBlock_harmless|]. intros [text|]; [apply Hf|].
  apply blockCalls_bind; [apply harmless_blockCalls; unfold checkBefore; harmless|]. intros [text|]; [apply Hf|].
  unfold moveBlock. apply blockCalls_bind; [apply harmless_blockCalls, harmless_signal|]. intros _. cbn zeta.
  destruct (negb (forallb _ _)) eqn:E1; [apply Hf|]. destruct (negb _ && negb _) eqn:E2; [apply Hf|].
  apply negb_false_iff in E1. rewrite forallb_forall in E1.
  apply blockCalls_bind.
  - intros l0. eexists. split; [done|]. intros client raws to r Hin%list_elem_of_singleton. simplify_eq.
    unfold herdrFor. rewrite Hd. split_and!; [done|done| |].
    + apply Forall_forall. intros id Hid. apply String.eqb_eq, E1. by apply list_elem_of_In.
    + apply andb_false_iff in E2 as [E2|E2]; apply negb_false_iff, String.eqb_eq in E2; [by left|by right].
  - intros r. apply harmless_blockCalls. destruct (r_err r); [apply failTopology_harmless|].
    apply harmless_bind; [apply harmless_changed|]. intros _. apply harmless_bind; [apply harmless_record|]. intros _. apply harmless_ret.
Qed.

(** A prefix of a session names no id, so the client that owns it as an id is the one
    of the base session: whatever session a phone asks for, its workspace is created in
    the base session. *)
Theorem prefix_routes_to_base prefix :
  HerdrSessions.containsChar HerdrSessions.sessionSeparator prefix = false -> herdrFor d prefix = ""%string.
Proof.
  intros H. unfold herdrFor, prefixOf, HerdrSessions.SplitID. destruct (d_sessions d); [|done]. by rewrite HerdrSessions.cut_none.
Qed.
End Routing.

(** ** Runs *)

Import DispatchSafety DispatchAnswers.

Definition demoCreate : M CommandResult :=
  HandleWorkspaceCreateIn demoDispatcher willing "/home/u" (fun _ session => session) demoCtx "r" "side" "/home/u/p" "demo".

(** the phone asks for the session [side]: the base session gets the workspace, and the
    phone is told an id of [side] *)
Example workspace_created_elsewhere :
  Called (WorkspaceCreate "" "/home/u/p" "demo") (okReply "screen") ∈ (demoCreate []).2 /\
  cr_OK (demoCreate []).1 = true /\
  cr_Data (demoCreate []).1 = "workspace_id=side/w2 pane_id=side/w2:p1 tab_id=side/w2:t1 cwd=/home/u/p label=demo"%string.
Proof. split_and!; [apply list_elem_of_In; vm_compute; tauto|vm_compute; reflexivity|vm_compute; reflexivity]. Qed.

Lemma prefix_routes_witness : herdrFor demoDispatcher "side" = ""%string.
Proof. apply (prefix_routes_to_base demoDispatcher "side"). reflexivity. Defined.

#[export] Instance refusing_topology : TopologyContract refusing.
Proof. by split. Qed.

Lemma topology_witness :
  exists evs, (handleTopology demoDispatcher refusing "/home/u" (fun _ _ => ""%string) (fun _ => ""%string) (fun _ => ""%string) (fun _ => ""%string)
    "r" (CloseWorkspace "w1") demoCtx []).2 = [] ++ evs /\
    told (handleTopology demoDispatcher refusing "/home/u" (fun _ _ => ""%string) (fun _ => ""%string) (fun _ => ""%string) (fun _ => ""%string)
    "r" (CloseWorkspace "w1") demoCtx []).1 evs.
Proof.
  apply (topology_commands_told demoDispatcher refusing "/home/u" (fun _ _ => ""%string) (fun _ => ""%string) (fun _ => ""%string)
    (fun _ => ""%string) "r" (CloseWorkspace "w1") demoCtx []).
Defined.

Lemma block_witness :
  blockCalls (fun client raws to => raws = ["w1"; "w2"]%string /\ to = ""%string /\ Forall (fun id => prefixOf id = client) ["w1"; "w2"]%string /\
      (""%string = ""%string \/ prefixOf "" = client))
    (added (HandleWorkspaceReorderBlock demoDispatcher willing demoCtx "r" ["w1"; "w2"]%string "") []).
Proof. apply (block_in_one_session demoDispatcher willing demoCtx "r" ["w1"; "w2"]%string "" []). reflexivity. Defined.
End Workspaces.
