(* ===== verification/Portmap.v ===== *)
(** Port mapping at the router ([internal/portmap]: [natpmp.go], [pcp.go] and
    [portmap.go]): the NAT-PMP and PCP messages, the exchange with the router and its
    retries, the order in which the protocols are tried, and the loop that keeps a
    mapping alive.  UPnP, which speaks HTTP and XML, is a parameter. *)
From S2P Require Import Prelude GoLib Stun.
#[local] Open Scope Z_scope.

Module Portmap.
Import Stun.

(** ** NAT-PMP *)

Definition natpmpVersion : Z := 0.
Definition natpmpOpExternal : Z := 0.
Definition natpmpOpMapUDP : Z := 1.
Definition natpmpResponseBit : Z := 0x80.
Definition natpmpMapRespLen : Z := 16.
Definition natpmpExtRespLen : Z := 12.
Definition natpmpMaxRespBytes : Z := 64.

Inductive natpmpError :=
| NATPMPTruncated
| NATPMPOversized
| NATPMPVersion (v : Z)
| NATPMPOpcode (v : Z)
| NATPMPResult (code : Z).

(** the twelve bytes, two of them left zero *)
Definition encodeNATPMPMap (internalPort externalPort lifetime : Z) : bytes :=
  [natpmpVersion; natpmpOpMapUDP; 0; 0] ++ be_encode 2 internalPort ++ be_encode 2 externalPort ++ be_encode 4 lifetime.
Definition encodeNATPMPExternal : bytes := [natpmpVersion; natpmpOpExternal].

(** [binary.BigEndian] of a range of the response *)
Definition be (resp : bytes) (lo hi : Z) : option Z := let? b := slice resp lo hi in Some (be_decode b).

Definition checkNATPMPHeader (resp : bytes) (opcode want : Z) : option (result natpmpError Z) :=
  if len resp <? want then Some (Err NATPMPTruncated)
  else if len resp >? natpmpMaxRespBytes then Some (Err NATPMPOversized)
  else
    let? version := index resp 0 in
    if negb (version =? natpmpVersion) then Some (Err (NATPMPVersion version))
    else
      let? op := index resp 1 in
      if negb (op =? Z.lor opcode natpmpResponseBit) then Some (Err (NATPMPOpcode op))
      else
        let? code := be resp 2 4 in
        if negb (code =? 0) then Some (Err (NATPMPResult code)) else Some (Ok code).

Record natpmpMapResult := mkNATPMP { np_InternalPort : Z; np_ExternalPort : Z; np_Lifetime : duration }.

Definition parseNATPMPMap (resp : bytes) : option (result natpmpError natpmpMapResult) :=
  let? header := checkNATPMPHeader resp natpmpOpMapUDP natpmpMapRespLen in
  match header with
  | Err e => Some (Err e)
  | Ok _ =>
      let? internal := be resp 8 10 in
      let? external := be resp 10 12 in
      let? lifetime := be resp 12 16 in
      Some (Ok (mkNATPMP internal external (lifetime * second)))
  end.

Definition parseNATPMPExternal (resp : bytes) : option (result natpmpError Addr) :=
  let? header := checkNATPMPHeader resp natpmpOpExternal natpmpExtRespLen in
  match header with
  | Err e => Some (Err e)
  | Ok _ => let? addr := slice resp 8 12 in Some (Ok (Addr4 addr))
  end.

(** ** PCP *)

Definition pcpVersion : Z := 2.
Definition pcpOpMap : Z := 1.
Definition pcpResponseBit : Z := 0x80.
Definition pcpNonceLen : Z := 12.
Definition pcpProtoUDP : Z := 17.
Definition pcpHeaderLen : Z := 24.
Definition pcpMapDataLen : Z := 36.
Definition pcpRequestLen : Z := pcpHeaderLen + pcpMapDataLen.
Definition pcpMaxRespBytes : Z := 1100.
Definition pcpMinRespBytes : Z := pcpHeaderLen + pcpMapDataLen.
Definition pcpLengthQuantum : Z := 4.

Inductive pcpError :=
| PCPTruncated
| PCPOversized
| PCPLength
| PCPVersion (v : Z)
| PCPOpcode (v : Z)
| PCPResult (code : Z)
| PCPNonce
| PCPProtocol (v : Z)
| PCPAddress.

(** an address that is not valid is [None] *)
Definition addr16 (addr : option Addr) : bytes := match addr with Some a => As16 a | None => repeat 0 16 end.

Definition encodePCPMap (nonce : bytes) (local : option Addr) (internalPort suggestedPort : Z) (suggestedExternal : option Addr)
    (lifetime : Z) : bytes :=
  [pcpVersion; pcpOpMap; 0; 0] ++ be_encode 4 lifetime ++ addr16 local ++
  nonce ++ [pcpProtoUDP; 0; 0; 0] ++ be_encode 2 internalPort ++ be_encode 2 suggestedPort ++ addr16 suggestedExternal.

Record pcpMapResult := mkPCP { pc_InternalPort : Z; pc_External : Addr * Z; pc_Lifetime : duration }.

(** [netip.AddrFromSlice]: four or sixteen bytes *)
Definition AddrFromSlice (b : bytes) : option Addr :=
  if (length b =? 4)%nat then Some (Addr4 b) else if (length b =? 16)%nat then Some (Addr16 b) else None.

Definition parsePCPMapResponse (resp nonce : bytes) : option (result pcpError pcpMapResult) :=
  if len resp <? pcpMinRespBytes then Some (Err PCPTruncated)
  else if len resp >? pcpMaxRespBytes then Some (Err PCPOversized)
  else if negb (len resp mod pcpLengthQuantum =? 0) then Some (Err PCPLength)
  else
    let? version := index resp 0 in
    if negb (version =? pcpVersion) then Some (Err (PCPVersion version))
    else
      let? op := index resp 1 in
      if negb (op =? Z.lor pcpOpMap pcpResponseBit) then Some (Err (PCPOpcode op))
      else
        let? code := index resp 3 in
        if negb (code =? 0) then Some (Err (PCPResult code))
        else
          let? echoed := slice resp 24 36 in
          if negb (bool_decide (echoed = nonce)) then Some (Err PCPNonce)
          else
            let? protocol := index resp 36 in
            if negb (protocol =? pcpProtoUDP) then Some (Err (PCPProtocol protocol))
            else
              let? address := slice resp 44 60 in
              match AddrFromSlice address with
              | None => Some (Err PCPAddress)
              | Some external =>
                  let? internal := be resp 40 42 in
                  let? port := be resp 42 44 in
                  let? lifetime := be resp 4 8 in
                  Some (Ok (mkPCP internal (Unmap external, port) (lifetime * second)))
              end.

(** ** What the messages mean *)

(** ranges of a message with a known beginning *)
Lemma slice_mid {A} (a b c : list A) lo hi :
  lo = len a -> hi = len a + len b -> slice (a ++ b ++ c) lo hi = Some b.
Proof.
  intros -> ->. rewrite slice_in_range by (rewrite ?length_app; lia). f_equal.
  rewrite Nat2Z.id, drop_app_length. replace (Z.to_nat (len a + len b - len a)) with (length b) by lia. apply take_app_length.
Qed.

Lemma slice_total {A} (l : list A) lo hi : 0 <= lo -> lo <= hi -> hi <= len l -> is_Some (slice l lo hi).
Proof. intros. rewrite slice_in_range by done. by eexists. Qed.

(** No answer of a router makes the NAT-PMP client panic, however it is cut short. *)
Theorem natpmp_never_panics resp :
  is_Some (parseNATPMPMap resp) /\ is_Some (parseNATPMPExternal resp).
Proof.
  assert (Hh : forall opcode want, 4 <= want -> exists r, checkNATPMPHeader resp opcode want = Some r /\ (is_ok r = true -> want <= len resp)).
  { intros opcode want Hw. unfold checkNATPMPHeader, be. destruct (len resp <? want) eqn:E1; zb; [by eexists|].
    destruct (len resp >? _); [by eexists|]. destruct (index_in_range resp 0) as [v ->]; [lia|]. cbn [mbind option_bind].
    destruct (negb (v =? _)); [by eexists|]. destruct (index_in_range resp 1) as [o ->]; [lia|]. cbn [mbind option_bind].
    destruct (negb (o =? _)); [by eexists|]. destruct (slice_total resp 2 4) as [b ->]; [lia..|]. cbn [mbind option_bind].
    destruct (negb (_ =? 0)); by eexists. }
  unfold parseNATPMPMap, parseNATPMPExternal, be. split.
  - destruct (Hh natpmpOpMapUDP natpmpMapRespLen) as ([c|e] & -> & Hl); [done| |by eexists]. cbn [mbind option_bind]. specialize (Hl eq_refl). unfold natpmpMapRespLen in Hl.
    destruct (slice_total resp 8 10) as [b1 ->]; [lia..|]. destruct (slice_total resp 10 12) as [b2 ->]; [lia..|].
    destruct (slice_total resp 12 16) as [b3 ->]; [lia..|]. by eexists.
  - destruct (Hh natpmpOpExternal natpmpExtRespLen) as ([c|e] & -> & Hl); [done| |by eexists]. cbn [mbind option_bind]. specialize (Hl eq_refl). unfold natpmpExtRespLen in Hl.
    destruct (slice_total resp 8 12) as [b1 ->]; [lia..|]. by eexists.
Qed.

(** the response of RFC 6886, section 3.3, to a mapping request, and of section 3.2 to a
    request for the external address; a router may append bytes *)
Definition natpmpMapResponse (epoch : bytes) (internal external lifetime : Z) (more : bytes) : bytes :=
  [natpmpVersion; 129; 0; 0] ++ epoch ++ be_encode 2 internal ++ be_encode 2 external ++ be_encode 4 lifetime ++ more.
Definition natpmpExternalResponse (epoch addr more : bytes) : bytes := [natpmpVersion; 128; 0; 0] ++ epoch ++ addr ++ more.

(** a range of a message is the encoding of its value *)
Lemma field_encodes l m n :
  bytes_ok l -> (m + n <= length l)%nat ->
  be_encode n (be_decode (take n (drop m l))) = take n (drop m l) /\ 0 <= be_decode (take n (drop m l)) < 256 ^ Z.of_nat n.
Proof.
  intros Hb Hl. assert (Hk : bytes_ok (take n (drop m l))) by (by apply Forall_take, Forall_drop).
  assert (Hn : length (take n (drop m l)) = n) by (rewrite length_take, length_drop; lia).
  pose proof (be_encode_decode _ Hk) as H1. pose proof (be_decode_bound _ Hk) as H2. rewrite Hn in H1, H2. done.
Qed.

Lemma take_more (l : bytes) m n : drop m l = take n (drop m l) ++ drop (m + n) l.
Proof. by rewrite <- drop_drop, take_drop. Qed.

Lemma be_at l lo hi : 0 <= lo -> lo <= hi -> hi <= len l -> be l lo hi = Some (be_decode (take (Z.to_nat (hi - lo)) (drop (Z.to_nat lo) l))).
Proof. intros. unfold be. by rewrite slice_in_range. Qed.

Lemma header_ok resp opcode want c :
  4 <= want -> checkNATPMPHeader resp opcode want = Some (Ok c) ->
  want <= len resp /\ len resp <= natpmpMaxRespBytes /\ resp !! 0%nat = Some natpmpVersion /\
  resp !! 1%nat = Some (Z.lor opcode natpmpResponseBit) /\ be_decode (take 2 (drop 2 resp)) = 0.
Proof.
  intros Hw. unfold checkNATPMPHeader. destruct (len resp <? want) eqn:E1; [done|]. destruct (len resp >? natpmpMaxRespBytes) eqn:E2; [done|]. zb.
  destruct (index resp 0) as [v|] eqn:Ev; [|done]. cbn [mbind option_bind]. destruct (negb (v =? natpmpVersion)) eqn:E3; [done|].
  destruct (index resp 1) as [o|] eqn:Eo; [|done]. cbn [mbind option_bind]. destruct (negb (o =? _)) eqn:E4; [done|].
  rewrite be_at by lia. cbn [mbind option_bind]. destruct (negb (_ =? 0)) eqn:E5; [done|]. intros _. zb.
  apply index_Some in Ev as [_ Ev], Eo as [_ Eo]. subst. by split_and!; try lia.
Qed.

(** What the NAT-PMP client takes for a granted mapping is exactly a successful
    response of RFC 6886 of at most 64 bytes, and it reads the ports and the lifetime the
    router wrote. *)
Theorem natpmp_map_exact resp r :
  bytes_ok resp ->
  parseNATPMPMap resp = Some (Ok r) <->
  exists epoch internal external lifetime more,
    resp = natpmpMapResponse epoch internal external lifetime more /\ length epoch = 4%nat /\ len resp <= natpmpMaxRespBytes /\
    0 <= internal < 2 ^ 16 /\ 0 <= external < 2 ^ 16 /\ 0 <= lifetime < 2 ^ 32 /\ r = mkNATPMP internal external (lifetime * second).
Proof.
  intros Hb. split.
  - unfold parseNATPMPMap. destruct (checkNATPMPHeader _ _ _) as [[c|e]|] eqn:Eh; try done. cbn [mbind option_bind].
    apply header_ok in Eh as (Hl & Hm & H0 & H1 & Hc); [|done]. unfold natpmpMapRespLen in Hl. rewrite !be_at by lia.
    cbn [mbind option_bind]. intros [= <-].
    destruct (field_encodes resp 2 2 Hb) as [F0 _]; [lia|]. rewrite Hc in F0.
    destruct (field_encodes resp 8 2 Hb) as [F1 B1]; [lia|]. destruct (field_encodes resp 10 2 Hb) as [F2 B2]; [lia|].
    destruct (field_encodes resp 12 4 Hb) as [F3 B3]; [lia|].
    exists (take 4 (drop 4 resp)), (be_decode (take 2 (drop 8 resp))), (be_decode (take 2 (drop 10 resp))),
      (be_decode (take 4 (drop 12 resp))), (drop 16 resp).
    split_and!; try (done || lia); [|rewrite length_take, length_drop; lia].
    unfold natpmpMapResponse. rewrite F1, F2, F3. rewrite <- (take_more resp 12 4 : drop 12 resp = _ ++ drop 16 resp), <- (take_more resp 10 2 : drop 10 resp = _ ++ drop 12 resp),
      <- (take_more resp 8 2 : drop 8 resp = _ ++ drop 10 resp), <- (take_more resp 4 4 : drop 4 resp = _ ++ drop 8 resp).
    replace [natpmpVersion; 129; 0; 0] with (take 4 resp); [by rewrite take_drop|].
    destruct resp as [|b0 [|b1 resp]]; [done|done|]. cbn in H0, H1, F0. simplify_eq.
    destruct resp as [|b2 [|b3 resp]]; [done|done|]. cbn in F0 |- *. by simplify_eq.
  - intros (epoch & internal & external & lifetime & more & -> & He & Hm & B1 & B2 & B3 & ->).
    unfold natpmpMapResponse in *. set (resp := [natpmpVersion; 129; 0; 0] ++ _) in *.
    assert (Hlen : len resp = 16 + len more) by (unfold resp; rewrite !length_app, !length_be_encode, He; cbn; lia).
    assert (Hh : checkNATPMPHeader resp natpmpOpMapUDP natpmpMapRespLen = Some (Ok 0)).
    { assert (S0 : slice resp 2 4 = Some [0; 0]) by exact (slice_mid [natpmpVersion; 129] [0; 0] _ 2 4 eq_refl eq_refl).
      unfold checkNATPMPHeader, be. rewrite S0. destruct (len resp <? natpmpMapRespLen) eqn:E1; zb; [unfold natpmpMapRespLen in E1; lia|].
      destruct (len resp >? natpmpMaxRespBytes) eqn:E2; zb; [lia|]. done. }
    unfold parseNATPMPMap. rewrite Hh. cbn [mbind option_bind]. unfold be.
    assert (S1 : slice resp 8 10 = Some (be_encode 2 internal)).
    { unfold resp. rewrite (app_assoc _ epoch). apply slice_mid; rewrite ?length_app, ?length_be_encode, He; reflexivity. }
    assert (S2 : slice resp 10 12 = Some (be_encode 2 external)).
    { unfold resp. rewrite (app_assoc _ epoch), (app_assoc _ (be_encode 2 internal)). apply slice_mid; rewrite ?length_app, ?length_be_encode, He; reflexivity. }
    assert (S3 : slice resp 12 16 = Some (be_encode 4 lifetime)).
    { unfold resp. rewrite (app_assoc _ epoch), (app_assoc _ (be_encode 2 internal)), (app_assoc _ (be_encode 2 external)).
      apply slice_mid; rewrite ?length_app, ?length_be_encode, He; reflexivity. }
    rewrite S1, S2, S3. cbn [mbind option_bind]. by rewrite !be_decode_encode_small by (cbn; lia).
Qed.

(** the response of RFC 6887, section 11.1: [mid] is the epoch and reserved bytes; options
    may follow *)
Definition pcpMapResponse (reserved lifetime : Z) (mid nonce pad : bytes) (internal external : Z) (addr more : bytes) : bytes :=
  [pcpVersion; 129; reserved; 0] ++ be_encode 4 lifetime ++ mid ++ nonce ++ [pcpProtoUDP] ++ pad ++
  be_encode 2 internal ++ be_encode 2 external ++ addr ++ more.

Lemma index_total {A} (l : list A) i : 0 <= i < len l -> exists x, index l i = Some x /\ l !! Z.to_nat i = Some x.
Proof. intros H. destruct (index_in_range l i H) as [x E]. exists x. split; [done|]. by apply index_Some in E as [_ ?]. Qed.

(** No answer of a router makes the PCP client panic, and an answer it accepts carries
    the nonce of the request: a host that did not see the request cannot make up a
    mapping. *)
Theorem pcp_never_panics resp nonce :
  exists r, parsePCPMapResponse resp nonce = Some r /\
    (is_ok r = true -> pcpMinRespBytes <= len resp <= pcpMaxRespBytes /\ slice resp 24 36 = Some nonce).
Proof.
  unfold parsePCPMapResponse, be. destruct (len resp <? pcpMinRespBytes) eqn:E1; [by eexists|].
  destruct (len resp >? pcpMaxRespBytes) eqn:E2; [by eexists|]. zb. assert (Hl : 60 <= len resp) by (unfold pcpMinRespBytes, pcpHeaderLen, pcpMapDataLen in E1; lia).
  destruct (negb (len resp mod _ =? 0)); [by eexists|].
  destruct (index_total resp 0) as (v & -> & _); [lia|]. cbn [mbind option_bind]. destruct (negb (v =? _)); [by eexists|].
  destruct (index_total resp 1) as (o & -> & _); [lia|]. cbn [mbind option_bind]. destruct (negb (o =? _)); [by eexists|].
  destruct (index_total resp 3) as (c & -> & _); [lia|]. cbn [mbind option_bind]. destruct (negb (c =? _)); [by eexists|].
  destruct (slice_total resp 24 36) as [n En]; [lia..|]. rewrite En. cbn [mbind option_bind]. case_bool_decide as Hn; [|by eexists]. cbn [negb].
  destruct (index_total resp 36) as (p & -> & _); [lia|]. cbn [mbind option_bind]. destruct (negb (p =? _)); [by eexists|].
  destruct (slice_total resp 44 60) as [a ->]; [lia..|]. cbn [mbind option_bind]. destruct (AddrFromSlice a); [|by eexists].
  destruct (slice_total resp 40 42) as [b1 ->]; [lia..|]. destruct (slice_total resp 42 44) as [b2 ->]; [lia..|].
  destruct (slice_total resp 4 8) as [b3 ->]; [lia..|]. cbn [mbind option_bind]. eexists. split; [done|]. intros _. subst n. split; [lia|done].
Qed.

(** a range of [resp], which is [pre ++ x ++ post] *)
Ltac at_range resp pre x post :=
  replace resp with (pre ++ x ++ post) by (unfold resp; rewrite <- ?app_assoc; reflexivity);
  apply slice_mid; rewrite ?length_app, ?length_be_encode; cbn; lia.

(** The PCP client reads from a successful response of RFC 6887 the ports, the
    external address and the lifetime the router wrote, IPv4 addresses as such. *)
Theorem pcp_reads_answer reserved lifetime mid nonce pad internal external addr more :
  length mid = 16%nat -> length nonce = 12%nat -> length pad = 3%nat -> addr_ok addr -> len more mod 4 = 0 -> len more <= 1040 ->
  0 <= internal < 2 ^ 16 -> 0 <= external < 2 ^ 16 -> 0 <= lifetime < 2 ^ 32 ->
  parsePCPMapResponse (pcpMapResponse reserved lifetime mid nonce pad internal external (As16 addr) more) nonce =
    Some (Ok (mkPCP internal (Unmap (Addr16 (As16 addr)), external) (lifetime * second))).
Proof.
  intros Hm Hn Hp Ha H4 Hmore B1 B2 B3. assert (Hla : length (As16 addr) = 16%nat) by (destruct addr as [b|b], Ha as [Hb _]; cbn; [by rewrite Hb|done]).
  generalize dependent (As16 addr). clear addr Ha. intros addr Hla.
  unfold pcpMapResponse. set (resp := _ ++ _).
  assert (Hlen : len resp = 60 + len more) by (unfold resp; rewrite !length_app, !length_be_encode; cbn; lia).
  assert (S1 : slice resp 24 36 = Some nonce).
  { at_range resp ([pcpVersion; 129; reserved; 0] ++ be_encode 4 lifetime ++ mid) nonce
      ([pcpProtoUDP] ++ pad ++ be_encode 2 internal ++ be_encode 2 external ++ addr ++ more). }
  assert (S2 : slice resp 36 37 = Some [pcpProtoUDP]).
  { at_range resp ([pcpVersion; 129; reserved; 0] ++ be_encode 4 lifetime ++ mid ++ nonce) [pcpProtoUDP]
      (pad ++ be_encode 2 internal ++ be_encode 2 external ++ addr ++ more). }
  assert (S3 : slice resp 44 60 = Some addr).
  { at_range resp ([pcpVersion; 129; reserved; 0] ++ be_encode 4 lifetime ++ mid ++ nonce ++ [pcpProtoUDP] ++ pad ++ be_encode 2 internal ++ be_encode 2 external)
      addr more. }
  assert (S4 : slice resp 40 42 = Some (be_encode 2 internal)).
  { at_range resp ([pcpVersion; 129; reserved; 0] ++ be_encode 4 lifetime ++ mid ++ nonce ++ [pcpProtoUDP] ++ pad) (be_encode 2 internal)
      (be_encode 2 external ++ addr ++ more). }
  assert (S5 : slice resp 42 44 = Some (be_encode 2 external)).
  { at_range resp ([pcpVersion; 129; reserved; 0] ++ be_encode 4 lifetime ++ mid ++ nonce ++ [pcpProtoUDP] ++ pad ++ be_encode 2 internal) (be_encode 2 external)
      (addr ++ more). }
  assert (S6 : slice resp 4 8 = Some (be_encode 4 lifetime)).
  { at_range resp [pcpVersion; 129; reserved; 0] (be_encode 4 lifetime)
      (mid ++ nonce ++ [pcpProtoUDP] ++ pad ++ be_encode 2 internal ++ be_encode 2 external ++ addr ++ more). }
  assert (I36 : index resp 36 = Some pcpProtoUDP).
  { clear - S2 Hlen. clearbody resp. rewrite slice_in_range in S2 by lia. apply (inj Some) in S2. apply index_Some. split; [lia|].
    rewrite <- (Nat.add_0_r (Z.to_nat 36)), <- lookup_drop.
    change (Z.to_nat (37 - 36)) with 1%nat in S2. destruct (drop (Z.to_nat 36) resp) as [|x rest]; [done|]. by injection S2 as ->. }
  unfold parsePCPMapResponse, be. rewrite S1, I36, S3, S4, S5, S6.
  destruct (len resp <? pcpMinRespBytes) eqn:E1; zb; [unfold pcpMinRespBytes, pcpHeaderLen, pcpMapDataLen in E1; lia|].
  destruct (len resp >? pcpMaxRespBytes) eqn:E2; zb; [unfold pcpMaxRespBytes in E2; lia|].
  assert (E3 : (len resp mod pcpLengthQuantum =? 0) = true).
  { apply Z.eqb_eq. rewrite Hlen. unfold pcpLengthQuantum. replace 60 with (15 * 4) by lia. by rewrite Z.add_comm, Z.mod_add. }
  rewrite E3. cbn [negb mbind option_bind].
  change (index resp 0) with (Some pcpVersion). change (index resp 1) with (Some 129). change (index resp 3) with (Some 0).
  cbn [mbind option_bind]. cbn -[be_decode be_encode Unmap]. rewrite bool_decide_true by done. cbn -[be_decode be_encode Unmap].
  unfold AddrFromSlice. rewrite Hla. cbn -[be_decode be_encode Unmap]. by rewrite !be_decode_encode_small by (cbn; lia).
Qed.

(** ** The exchange with the router *)

Definition millisecond : duration := 1000000.
Definition stepTimeout : duration := 3 * second.
Definition udpInitialTimeout : duration := 250 * millisecond.
Definition udpMaxAttempts : nat := 3.

Inductive readOutcome := Received (b : bytes) | TimedOut | Broken.

(** one attempt as the network lets it go: whether the context is done before it, whether
    the write or the deadline fails, and what is read *)
Record attempt := mkAttempt { a_done : bool; a_writeFails : bool; a_deadlineFails : bool; a_read : readOutcome }.
Definition silent : attempt := mkAttempt false false false TimedOut.

(** the loop; the second part are the timeouts of the requests that were written *)
Fixpoint attempts (n : nat) (timeout : duration) (maxResponse : Z) (net : list attempt) : result string bytes * list duration :=
  match n with
  | O => (Err "no response"%string, [])
  | S n =>
      let a := default silent (head net) in
      if a_done a then (Err "context"%string, [])
      else if a_writeFails a then (Err "write request"%string, [])
      else if a_deadlineFails a then (Err "deadline"%string, [timeout])
      else
        match a_read a with
        | Received b => (if len b >? maxResponse then Err "router response oversized"%string else Ok b, [timeout])
        | TimedOut => let (r, waits) := attempts n (timeout * 2) maxResponse (tail net) in (r, timeout :: waits)
        | Broken => (Err "read response"%string, [timeout])
        end
  end.

(** what the network does in the exchanges to come, and what was asked and drawn so far *)
Record script := mkScript { dials : bool; tries : list attempt }.
Record Net := mkNet { scripts : list script; asked : list (Addr * bytes); drawn : nat }.

Definition exchange (gateway : Addr) (request : bytes) (maxResponse : Z) (n : Net) : result string bytes * Net :=
  let s := default (mkScript true []) (head (scripts n)) in
  let n := mkNet (tail (scripts n)) (asked n ++ [(gateway, request)]) (drawn n) in
  if negb (dials s) then (Err "dial router"%string, n)
  else ((attempts udpMaxAttempts udpInitialTimeout maxResponse (tries s)).1, n).

(** ** Mappings *)

Inductive method := MethodPCP | MethodNATPMP | MethodUPnP.

Record Mapping := mkMapping {
  External : Addr * Z;
  Internal : Z;
  Method : method;
  Lifetime : duration;
  ExpiresAt : time;
  m_gateway : Addr;
  m_local : option Addr;
  m_nonce : bytes
}.

Definition minLifetime : duration := 120 * second.
Definition maxLifetime : duration := 24 * 3600 * second.
Definition DefaultLifetime : duration := 3600 * second.
Definition clampLifetime (lifetime : duration) : duration :=
  if lifetime <? minLifetime then minLifetime else if lifetime >? maxLifetime then maxLifetime else lifetime.

(** [uint32(lifetime / time.Second)] *)
Definition seconds (lifetime : duration) : Z := u32 (Z.quot lifetime second).
Definition IPv4Unspecified : Addr := Addr4 [0; 0; 0; 0].

(** the first [None] is a panic *)
Definition natpmpExternalAddr (gateway : Addr) (n : Net) : option (result string Addr * Net) :=
  let (resp, n) := exchange gateway encodeNATPMPExternal natpmpMaxRespBytes n in
  match resp with
  | Err e => Some (Err e, n)
  | Ok resp =>
      let? r := parseNATPMPExternal resp in
      Some (match r with Ok a => Ok a | Err _ => Err "nat-pmp"%string end, n)
  end.

Definition mapNATPMP (gateway : Addr) (internalPort : Z) (lifetime : duration) (now : time) (n : Net)
    : option (result string Mapping * Net) :=
  let (resp, n) := exchange gateway (encodeNATPMPMap internalPort internalPort (seconds lifetime)) natpmpMaxRespBytes n in
  match resp with
  | Err e => Some (Err e, n)
  | Ok resp =>
      let? r := parseNATPMPMap resp in
      match r with
      | Err _ => Some (Err "nat-pmp"%string, n)
      | Ok r =>
          if np_ExternalPort r =? 0 then Some (Err "nat-pmp granted external port 0"%string, n)
          else
            let granted := if np_Lifetime r <=? 0 then lifetime else np_Lifetime r in
            let? en := natpmpExternalAddr gateway n in
            let external := match en.1 with Ok a => a | Err _ => IPv4Unspecified end in
            Some (Ok (mkMapping (external, np_ExternalPort r) internalPort MethodNATPMP granted (now + granted) gateway None (repeat 0 12)), en.2)
      end
  end.

Definition releaseNATPMP (m : Mapping) (n : Net) : option (bool * Net) :=
  let (resp, n) := exchange (m_gateway m) (encodeNATPMPMap (Internal m) 0 0) natpmpMaxRespBytes n in
  match resp with
  | Err _ => Some (false, n)
  | Ok resp => let? r := parseNATPMPMap resp in Some (is_ok r, n)
  end.

Section Client.
(** the address the host uses towards a gateway; random nonces; the UPnP client; whether
    the context is done *)
Context (localAddrFor : Addr -> option Addr) (draw : nat -> option bytes)
  (mapUPnP : list Addr -> Z -> duration -> Net -> option (result string Mapping * Net))
  (releaseUPnP : Mapping -> Net -> option (bool * Net)) (ctxDone : Net -> bool).

Definition mapPCP (gateway : Addr) (internalPort : Z) (lifetime : duration) (now : time) (n : Net)
    : option (result string Mapping * Net) :=
  match localAddrFor gateway with
  | None => Some (Err "route lookup"%string, n)
  | Some local =>
      let nonce := draw (drawn n) in
      let n := mkNet (scripts n) (asked n) (S (drawn n)) in
      match nonce with
      | None => Some (Err "generate pcp nonce"%string, n)
      | Some nonce =>
          let (resp, n) := exchange gateway (encodePCPMap nonce (Some local) internalPort internalPort None (seconds lifetime)) pcpMaxRespBytes n in
          match resp with
          | Err e => Some (Err e, n)
          | Ok resp =>
              let? r := parsePCPMapResponse resp nonce in
              match r with
              | Err _ => Some (Err "pcp"%string, n)
              | Ok r =>
                  if (pc_External r).2 =? 0 then Some (Err "pcp granted external port 0"%string, n)
                  else
                    let granted := if pc_Lifetime r <=? 0 then lifetime else pc_Lifetime r in
                    Some (Ok (mkMapping (pc_External r) internalPort MethodPCP granted (now + granted) gateway (Some local) nonce), n)
              end
          end
      end
  end.

Definition releasePCP (m : Mapping) (n : Net) : option (bool * Net) :=
  let (resp, n) := exchange (m_gateway m) (encodePCPMap (m_nonce m) (m_local m) (Internal m) 0 None 0) pcpMaxRespBytes n in
  match resp with
  | Err _ => Some (false, n)
  | Ok resp => let? r := parsePCPMapResponse resp (m_nonce m) in Some (is_ok r, n)
  end.

Definition Release (m : Mapping) (n : Net) : option (bool * Net) :=
  match Method m with
  | MethodPCP => releasePCP m n
  | MethodNATPMP => releaseNATPMP m n
  | MethodUPnP => releaseUPnP m n
  end.

Inductive mapError := ZeroPort | ContextDone | NoMethod (failures : list string).

Fixpoint tryGateways (gateways : list Addr) (internalPort : Z) (lifetime : duration) (now : time) (failures : list string) (n : Net)
    : option ((result mapError Mapping + list string) * Net) :=
  match gateways with
  | [] => Some (inr failures, n)
  | gw :: gateways =>
      if ctxDone n then Some (inl (Err ContextDone), n)
      else
        let? p := mapPCP gw internalPort lifetime now n in
        match p with
        | (Ok m, n) => Some (inl (Ok m), n)
        | (Err e1, n) =>
            if ctxDone n then Some (inl (Err ContextDone), n)
            else
              let? q := mapNATPMP gw internalPort lifetime now n in
              match q with
              | (Ok m, n) => Some (inl (Ok m), n)
              | (Err e2, n) => tryGateways gateways internalPort lifetime now (failures ++ [e1; e2]) n
              end
        end
  end.

(** [found] is what gateway discovery returns *)
Definition mapUDP (found : result string (list Addr)) (internalPort : Z) (lifetime : duration) (now : time) (n : Net)
    : option (result mapError Mapping * Net) :=
  if internalPort =? 0 then Some (Err ZeroPort, n)
  else
    let lifetime := clampLifetime lifetime in
    let '(gateways, failures) := match found with Ok l => (l, []) | Err e => ([], [e]) end in
    let? t := tryGateways gateways internalPort lifetime now failures n in
    match t with
    | (inl r, n) => Some (r, n)
    | (inr failures, n) =>
        if ctxDone n then Some (Err (NoMethod failures), n)
        else
          let? u := mapUPnP gateways internalPort lifetime n in
          match u with
          | (Ok m, n) => Some (Ok m, n)
          | (Err e, n) => Some (Err (NoMethod (failures ++ [e])), n)
          end
    end.

(** ** Keeping a mapping *)

Definition initialBackoff : duration := 30 * second.
Definition maxBackoff : duration := 600 * second.
Definition minRenew : duration := 30 * second.

Record Mapper := mkMapper { current : option Mapping; closed : bool; backoff : duration }.
Definition NewMapper : Mapper := mkMapper None false initialBackoff.

(** one turn of the loop of [Run] with the outcome of its attempt; the second part is how
    long it waits *)
Definition runTurn (m : Mapper) (outcome : result mapError Mapping) : Mapper * duration :=
  match outcome with
  | Err _ => (mkMapper None (closed m) (Z.min (backoff m * 2) maxBackoff), backoff m)
  | Ok mapping => (mkMapper (Some mapping) (closed m) initialBackoff, Z.max (Z.quot (Lifetime mapping) 2) minRenew)
  end.

(** [Close], once [Run] has returned: the second part is the mapping that is released *)
Definition Close (m : Mapper) : Mapper * option Mapping :=
  if closed m then (m, None) else (mkMapper None true (backoff m), current m).
Definition closeMapper (m : Mapper) (n : Net) : option (Mapper * Net) :=
  let (m, released) := Close m in
  match released with
  | None => Some (m, n)
  | Some mapping => let? r := Release mapping n in Some (m, r.2)
  end.
End Client.

(** ** What the client guarantees *)

Lemma attempts_spec n timeout maxResponse net :
  0 < timeout ->
  (length (attempts n timeout maxResponse net).2 <= n)%nat /\
  0 <= foldr Z.add 0 (attempts n timeout maxResponse net).2 <= timeout * (2 ^ Z.of_nat n - 1) /\
  forall b, (attempts n timeout maxResponse net).1 = Ok b -> len b <= maxResponse.
Proof.
  revert timeout net. induction n as [|n IH]; intros timeout net Ht; cbn [attempts]; [cbn; split_and!; [lia|lia|lia|done]|].
  assert (Hpow : 2 ^ Z.of_nat (S n) = 2 * 2 ^ Z.of_nat n) by (rewrite Nat2Z.inj_succ, Z.pow_succ_r; lia).
  pose proof (Z.pow_pos_nonneg 2 (Z.of_nat n) ltac:(lia) ltac:(lia)) as Hp. rewrite Hpow.
  set (a := default silent (head net)). cbn zeta.
  destruct (a_done a); [cbn; split_and!; [lia|lia|nia|done]|]. destruct (a_writeFails a); [cbn; split_and!; [lia|lia|nia|done]|].
  destruct (a_deadlineFails a); [cbn; split_and!; [lia|lia|nia|done]|].
  destruct (a_read a) as [b| |].
  - cbn. split_and!; [lia|lia|nia|]. intros b'. destruct (len b >? maxResponse) eqn:E; [done|]. intros [= <-]. zb. lia.
  - destruct (IH (timeout * 2) (tail net) ltac:(lia)) as (H1 & [H2 H2'] & H3). destruct (attempts n (timeout * 2) maxResponse (tail net)) as [r waits].
    cbn in *. split_and!; [lia|lia|nia|done].
  - cbn. split_and!; [lia|lia|nia|done].
Qed.

(** An exchange with the router is bounded: at most three requests, whose timeouts add
    up to less than the time a step may take, and never a longer answer than asked for. *)
Theorem exchange_bounded maxResponse net :
  let r := attempts udpMaxAttempts udpInitialTimeout maxResponse net in
  (length r.2 <= 3)%nat /\ foldr Z.add 0 r.2 < stepTimeout /\ forall b, r.1 = Ok b -> len b <= maxResponse.
Proof.
  cbn zeta. destruct (attempts_spec udpMaxAttempts udpInitialTimeout maxResponse net) as (H1 & H2 & H3); [reflexivity|].
  split_and!; [exact H1| |exact H3]. eapply Z.le_lt_trans; [apply H2|]. reflexivity.
Qed.

Lemma clampLifetime_bounds lifetime : minLifetime <= clampLifetime lifetime <= maxLifetime.
Proof. unfold clampLifetime. destruct (_ <? _) eqn:E1; zb; [done|]. destruct (_ >? _) eqn:E2; zb; [done|lia]. Qed.

(** a mapping that can be used: for this port, with an external port and time left *)
Definition usable (port : Z) (now : time) (m : Mapping) : Prop :=
  Internal m = port /\ (External m).2 <> 0 /\ 0 < Lifetime m /\ ExpiresAt m = now + Lifetime m.

Lemma mapNATPMP_total gateway port lifetime now n :
  0 < lifetime ->
  exists r n', mapNATPMP gateway port lifetime now n = Some (r, n') /\ forall m, r = Ok m -> usable port now m /\ Method m = MethodNATPMP.
Proof.
  intros Hl. unfold mapNATPMP. destruct (exchange _ _ _ n) as [[resp|e] n1]; [|by eexists _, _].
  destruct (natpmp_never_panics resp) as [[[r|e] ->] _]; cbn; [|by eexists _, _].
  destruct (np_ExternalPort r =? 0) eqn:E0; [by eexists _, _|]. zb. unfold natpmpExternalAddr.
  destruct (exchange gateway encodeNATPMPExternal _ n1) as [[resp2|e2] n2]; [destruct (natpmp_never_panics resp2) as [_ [r2 ->]]|];
    cbn; eexists _, _; (split; [reflexivity|]); intros m [= <-]; (split; [|done]); unfold usable; cbn;
    destruct (np_Lifetime r <=? 0) eqn:El; zb; (split_and!; [done|done|lia|done]).
Qed.

Section Client.
Context (localAddrFor : Addr -> option Addr) (draw : nat -> option bytes)
  (mapUPnP : list Addr -> Z -> duration -> Net -> option (result string Mapping * Net))
  (releaseUPnP : Mapping -> Net -> option (bool * Net)) (ctxDone : Net -> bool).

Lemma mapPCP_total gateway port lifetime now n :
  0 < lifetime ->
  exists r n', mapPCP localAddrFor draw gateway port lifetime now n = Some (r, n') /\ forall m, r = Ok m -> usable port now m /\ Method m = MethodPCP.
Proof.
  intros Hl. unfold mapPCP. destruct (localAddrFor gateway) as [local|]; [|by eexists _, _]. cbn zeta.
  destruct (draw (drawn n)) as [nonce|]; [|by eexists _, _].
  destruct (exchange _ _ _ _) as [[resp|e] n1]; [|by eexists _, _].
  destruct (pcp_never_panics resp nonce) as ([r|e] & -> & _); cbn; [|by eexists _, _].
  destruct ((pc_External r).2 =? 0) eqn:E0; [by eexists _, _|]. zb.
  eexists _, _. split; [reflexivity|]. intros m [= <-]. split; [|done]. unfold usable. cbn.
  destruct (pc_Lifetime r <=? 0) eqn:El; zb; (split_and!; [done|done|lia|done]).
Qed.

Lemma tryGateways_total gateways port lifetime now failures n :
  0 < lifetime ->
  exists r n', tryGateways localAddrFor draw ctxDone gateways port lifetime now failures n = Some (r, n') /\
    forall m, r = inl (Ok m) -> usable port now m /\ Method m <> MethodUPnP.
Proof.
  intros Hl. revert failures n. induction gateways as [|gw gateways IH]; intros failures n; cbn [tryGateways]; [by eexists _, _|].
  destruct (ctxDone n); [by eexists _, _|].
  destruct (mapPCP_total gw port lifetime now n Hl) as ([m|e1] & n1 & -> & H1); cbn.
  { eexists _, _. split; [reflexivity|]. intros ? [= <-]. destruct (H1 m eq_refl) as [? ->]. done. }
  destruct (ctxDone n1); [by eexists _, _|].
  destruct (mapNATPMP_total gw port lifetime now n1 Hl) as ([m|e2] & n2 & -> & H2); cbn; [|apply IH].
  eexists _, _. split; [reflexivity|]. intros ? [= <-]. destruct (H2 m eq_refl) as [? ->]. done.
Qed.

(** Whatever the router and the network answer, a request for a mapping ends without a
    panic, and what it grants is a mapping of PCP or NAT-PMP for the port that was asked
    for, with an external port and time left, or what UPnP answered to a request of at
    least two minutes and at most a day. *)
Theorem mapUDP_grants found port lifetime now n :
  (forall gws l n, is_Some (mapUPnP gws port l n)) ->
  exists r n', mapUDP localAddrFor draw mapUPnP ctxDone found port lifetime now n = Some (r, n') /\
    forall m, r = Ok m -> usable port now m \/
      exists gws l n0 n1, minLifetime <= l <= maxLifetime /\ mapUPnP gws port l n0 = Some (Ok m, n1).
Proof.
  intros Hu. unfold mapUDP. destruct (port =? 0); [by eexists _, _|]. pose proof (clampLifetime_bounds lifetime) as Hb.
  assert (Hl : 0 < clampLifetime lifetime) by (unfold minLifetime, second in Hb; lia).
  assert (Hgo : forall gws failures, exists r n', (let? t := tryGateways localAddrFor draw ctxDone gws port (clampLifetime lifetime) now failures n in
      match t with
      | (inl r, n) => Some (r, n)
      | (inr failures, n) =>
          if ctxDone n then Some (Err (NoMethod failures), n)
          else let? u := mapUPnP gws port (clampLifetime lifetime) n in
               match u with
               | (Ok m, n) => Some (Ok m, n)
               | (Err e, n) => Some (Err (NoMethod (failures ++ [e])), n)
               end
      end) = Some (r, n') /\ forall m, r = Ok m -> usable port now m \/
      exists gws l n0 n1, minLifetime <= l <= maxLifetime /\ mapUPnP gws port l n0 = Some (Ok m, n1)).
  { intros gws failures. destruct (tryGateways_total gws port (clampLifetime lifetime) now failures n Hl) as ([[m|e]|fs] & n1 & -> & H); cbn.
    - eexists _, _. split; [reflexivity|]. intros ? [= <-]. left. by destruct (H m eq_refl).
    - by eexists _, _.
    - destruct (ctxDone n1); [by eexists _, _|]. destruct (Hu gws (clampLifetime lifetime) n1) as [[[m|e] n2] Eu]; rewrite Eu; cbn; [|by eexists _, _].
      eexists _, _. split; [reflexivity|]. intros ? [= <-]. right. by exists gws, (clampLifetime lifetime), n1, n2. }
  destruct found as [gws|e]; apply Hgo.
Qed.
End Client.

(** ** Renewal *)

Definition runTurns (m : Mapper) (outcomes : list (result mapError Mapping)) : Mapper * list duration :=
  foldl (fun mw o => let (m, w) := runTurn mw.1 o in (m, mw.2 ++ [w])) (m, []) outcomes.

Lemma runTurns_snoc m os o : runTurns m (os ++ [o]) = ((runTurn (runTurns m os).1 o).1, (runTurns m os).2 ++ [(runTurn (runTurns m os).1 o).2]).
Proof. unfold runTurns. rewrite foldl_app. cbn. by destruct (runTurn _ o). Qed.

(** failures in a row at the end *)
Fixpoint failuresRev (os : list (result mapError Mapping)) : nat :=
  match os with Err _ :: os => S (failuresRev os) | _ => 0 end.

Definition waitAfter (failures : nat) : duration := Z.min (initialBackoff * 2 ^ Z.of_nat failures) maxBackoff.

Lemma waitAfter_succ k : Z.min (waitAfter k * 2) maxBackoff = waitAfter (S k).
Proof.
  unfold waitAfter. rewrite Nat2Z.inj_succ, Z.pow_succ_r by lia. pose proof (Z.pow_pos_nonneg 2 (Z.of_nat k) ltac:(lia) ltac:(lia)).
  unfold initialBackoff, maxBackoff, second. lia.
Qed.

(** Repeated failures back off: after [k] failures in a row the next try waits thirty
    seconds times two to the [k], at most ten minutes; one success starts over. *)
Theorem backoff_grows outcomes :
  backoff (runTurns NewMapper outcomes).1 = waitAfter (failuresRev (rev outcomes)) /\
  Forall (fun w => minRenew <= w) (runTurns NewMapper outcomes).2.
Proof.
  induction outcomes as [|o os [IH1 IH2]] using rev_ind; [done|]. rewrite runTurns_snoc, rev_app_distr. cbn [rev app fst snd].
  assert (Hw : forall k, minRenew <= waitAfter k).
  { intros k. unfold waitAfter, minRenew, initialBackoff, maxBackoff. pose proof (Z.pow_pos_nonneg 2 (Z.of_nat k) ltac:(lia) ltac:(lia)).
    unfold second. lia. }
  destruct o as [mapping|e]; cbn.
  - split; [done|]. apply Forall_app. split; [done|]. apply Forall_singleton. lia.
  - rewrite IH1. split; [apply waitAfter_succ|]. apply Forall_app. split; [done|]. apply Forall_singleton, Hw.
Qed.

(** A mapping that lasts a minute or longer is renewed when half of its time is over. *)
Theorem renewed_in_time m mapping :
  60 * second <= Lifetime mapping -> (runTurn m (Ok mapping)).2 * 2 <= Lifetime mapping.
Proof.
  intros H. cbn. unfold minRenew, second in *. pose proof (Z.quot_div_nonneg (Lifetime mapping) 2 ltac:(lia) ltac:(lia)) as ->.
  pose proof (Z.mul_div_le (Lifetime mapping) 2 ltac:(lia)). pose proof (Z.div_le_lower_bound (Lifetime mapping) 2 30000000000 ltac:(lia) ltac:(lia)). lia.
Qed.

(** ** Runs *)

Definition router : Addr := Addr4 [192; 168; 1; 1].
Definition grants (lifetime : Z) : script :=
  mkScript true [silent; mkAttempt false false false (Received (natpmpMapResponse [0; 0; 0; 1] 4711 4711 lifetime []))].
Definition refuses : script := mkScript true [].
Definition located : script :=
  mkScript true [mkAttempt false false false (Received (natpmpExternalResponse [0; 0; 0; 1] [203; 0; 113; 7] []))].
Definition demoNet (lifetime : Z) : Net := mkNet [grants lifetime; located] [] 0.
Definition noLocal (_ : Addr) : option Addr := None.
Definition noUPnP (_ : list Addr) (_ : Z) (_ : duration) (n : Net) : option (result string Mapping * Net) := Some (Err "upnp"%string, n).
Definition demoMap (lifetime : Z) : option (result mapError Mapping * Net) :=
  mapUDP noLocal (fun _ => None) noUPnP (fun _ => false) (Ok [router]) 4711 DefaultLifetime 0 (demoNet lifetime).

(** the second request is answered *)
Example natpmp_run :
  (fun r => r.1) <$> demoMap 3600 =
  Some (Ok (mkMapping (Addr4 [203; 0; 113; 7], 4711) 4711 MethodNATPMP (3600 * second) (3600 * second) router None (repeat 0 12))).
Proof. vm_compute. reflexivity. Qed.

Lemma mapUDP_witness :
  exists r n', demoMap 3600 = Some (r, n') /\ forall m, r = Ok m -> usable 4711 0 m \/
    exists gws l n0 n1, minLifetime <= l <= maxLifetime /\ noUPnP gws 4711 l n0 = Some (Ok m, n1).
Proof.
  apply (mapUDP_grants noLocal (fun _ => None) noUPnP (fun _ => false) (Ok [router]) 4711 DefaultLifetime 0 (demoNet 3600)).
  intros gws l n. by eexists.
Defined.

Lemma natpmp_exact_witness :
  parseNATPMPMap (natpmpMapResponse [0; 0; 0; 1] 4711 4711 3600 []) = Some (Ok (mkNATPMP 4711 4711 (3600 * second))).
Proof.
  apply (natpmp_map_exact (natpmpMapResponse [0; 0; 0; 1] 4711 4711 3600 [])); [by apply Forall_forall; vm_compute; set_solver by lia|].
  exists [0; 0; 0; 1], 4711, 4711, 3600, []. split_and!; try (reflexivity || lia); vm_compute; discriminate.
Defined.

Lemma pcp_reads_witness :
  parsePCPMapResponse (pcpMapResponse 0 3600 (repeat 0 16) (repeat 7 12) [0; 0; 0] 4711 4712 (As16 (Addr4 [203; 0; 113; 7])) []) (repeat 7 12) =
    Some (Ok (mkPCP 4711 (Unmap (Addr16 (As16 (Addr4 [203; 0; 113; 7]))), 4712) (3600 * second))).
Proof.
  apply (pcp_reads_answer 0 3600 (repeat 0 16) (repeat 7 12) [0; 0; 0] 4711 4712 (Addr4 [203; 0; 113; 7]) []); try (reflexivity || lia).
  - split; [reflexivity|]. repeat constructor; lia.
  - vm_compute. discriminate.
Defined.

Definition demoMapping : Mapping := mkMapping (IPv4Unspecified, 4711) 4711 MethodNATPMP (3600 * second) (3600 * second) router None [].
Lemma renewed_witness : (runTurn NewMapper (Ok demoMapping)).2 * 2 <= Lifetime demoMapping.
Proof. apply (renewed_in_time NewMapper demoMapping). vm_compute. discriminate. Defined.

(** a router that grants ten seconds: the mapping is over before it is renewed *)
Example short_grant_lapses :
  exists m n, demoMap 10 = Some (Ok m, n) /\ Lifetime m < (runTurn NewMapper (Ok m)).2.
Proof. eexists _, _. split; [vm_compute; reflexivity|vm_compute; reflexivity]. Qed.

(** a renewal that fails once: the mapping that still holds at the router is forgotten
    and [Close] releases nothing *)
Example failed_renewal_forgets :
  let m := (runTurns NewMapper [Ok demoMapping; Err ContextDone]).1 in
  current m = None /\ (Close m).2 = None /\
  foldr Z.add 0 (runTurns NewMapper [Ok demoMapping]).2 < ExpiresAt demoMapping.
Proof. split_and!; vm_compute; reflexivity. Qed.
End Portmap.
