(* ===== verification/Journal.v ===== *)
(** The journal of agent activity ([internal/activity/journal.go]): an append-only file
    of JSON lines, rewritten when it outgrows its limits, with a file of tombstones that
    makes a removal survive a crash.

    The operations run in a monad whose world has the journal in memory and the disk.
    Every system call takes its outcome from [answers] and records the disk in [seen], so
    that [seen] has every disk at which the program can stop.  A disk also knows what a
    loss of power may leave: contents that were not synced ([unsynced]) and names whose
    change was not synced ([before]).  [encoding/json] is a parameter. *)
From stdpp Require Import sorting pretty propset.
From S2P Require Import Prelude GoLib GoText DispatchBase.
#[local] Open Scope Z_scope.

Module Journal.

(** ** The disk *)

(** [unsynced]: the other contents a loss of power may leave *)
Record File := mkFile { contents : bytes; unsynced : list bytes }.
(** a name: the file it refers to, and those it may refer to after a loss of power *)
Record Slot := mkSlot { now : option File; before : list (option File) }.
Record Disk := mkDisk { jr : Slot; ts : Slot }.

Definition survives (f : option File) : list (option bytes) :=
  match f with
  | Some f => Some <$> contents f :: unsynced f
  | None => [None]
  end.
Definition possible (s : Slot) : list (option bytes) := (now s :: before s) ≫= survives.

(** what the two names may hold after a crash or a loss of power *)
Definition crashes (d : Disk) : list (option bytes * option bytes) :=
  c ← possible (jr d); t ← possible (ts d); [(c, t)].

Definition synced (c : option bytes) : Slot :=
  mkSlot ((fun c => mkFile c []) <$> c) [].
Definition crashed (c t : option bytes) : Disk := mkDisk (synced c) (synced t).

(** ** Calls of the operating system *)

(** [Short n]: a write of [n] bytes without an error; [Unsupported]: a sync that the
    file system does not have *)
Inductive choice := Fine | Fails (n : nat) | Short (n : nat) | Unsupported.

(** ** Entries *)

Definition maxItems : Z := 500.
Definition maxBytes : Z := 2 * 1024 * 1024.
Definition maxExtractChars : Z := 100000.

(** the order of [sort.Strings] *)
Definition stringLe (a b : string) : Prop := String.leb a b = true.
#[export] Instance stringLe_dec a b : Decision (stringLe a b) := decide (String.leb a b = true).

Section Json.
(** a [map[string]any] *)
Context {Any : Type}.

Record Entry := mkEntry {
  ID : string; Timestamp : Z; Kind : string; Status : string; Summary : string;
  Host : string; PaneID : string; Agent : string; Project : string; RequestID : string;
  Extract : string; Session : string; Details : Any }.

(** [path], [tombstonePath] and [dir] are the names of [Disk] *)
Record Journal := mkJournal { entries : list Entry; bytes_ : Z }.

Record World := mkWorld {
  mem : Journal; disk : Disk; answers : list choice; seen : list Disk }.

Definition io (A : Type) : Type := World -> result string A * World.

#[export] Instance io_ret : MRet io := fun _ a w => (Ok a, w).
#[export] Instance io_bind : MBind io := fun _ _ k m w =>
  match m w with
  | (Ok a, w) => k a w
  | (Err e, w) => (Err e, w)
  end.
Definition throw {A} (e : string) : io A := fun w => (Err e, w).
(** the error as a value *)
Definition try {A} (m : io A) : io (result string A) := fun w =>
  let '(r, w) := m w in (Ok r, w).
Definition wrap {A} (e : string) (m : io A) : io A := fun w =>
  match m w with (Err _, w) => (Err e, w) | r => r end.
Definition get : io Journal := fun w => (Ok (mem w), w).
Definition put (j : Journal) : io unit := fun w =>
  (Ok tt, mkWorld j (disk w) (answers w) (seen w)).

(** a system call: its outcome is the next of [answers] *)
Definition sys {A} (f : choice -> Disk -> result string A * Disk) : io A := fun w =>
  let '(r, d) := f (default Fine (head (answers w))) (disk w) in
  (r, mkWorld (mem w) d (tail (answers w)) (d :: seen w)).

(** a call that only succeeds or fails: [Chmod], [Close], [CreateTemp], [Stat], … *)
Definition ok (e : string) : io unit := sys (fun ch d =>
  match ch with Fine => (Ok tt, d) | _ => (Err e, d) end).

Definition openRead (slot : Disk -> Slot) : io (option bytes) := sys (fun ch d =>
  match ch with Fine => (Ok (contents <$> now (slot d)), d) | _ => (Err "open"%string, d) end).

(** [written, err := file.Write(data)]: how much is written, and the error *)
Definition writes (ch : choice) (data : bytes) : nat * bool :=
  match ch with
  | Fine => (length data, true)
  | Fails n => (n `min` length data, false)
  | Short n => (n `min` length data, true)
  | Unsupported => (0%nat, false)
  end%nat.

(** a file opened with [O_APPEND | O_CREATE]: the name appears at once, its directory
    entry is not synced *)
Definition openAppend : io unit := sys (fun ch d =>
  match ch with
  | Fine =>
      match now (jr d) with
      | Some _ => (Ok tt, d)
      | None => (Ok tt, mkDisk (mkSlot (Some (mkFile [] [])) (None :: before (jr d))) (ts d))
      end
  | _ => (Err "open activity journal"%string, d)
  end).

Definition onJournal (g : File -> File) (d : Disk) : Disk :=
  mkDisk (mkSlot (g <$> now (jr d)) (before (jr d))) (ts d).

Definition appendFile (data : bytes) : io (nat * bool) := sys (fun ch d =>
  let '(n, fine) := writes ch data in
  (Ok (n, fine),
   onJournal (fun f => mkFile (contents f ++ take n data)
                (((fun k => contents f ++ take k data) <$> seq 0 n) ++ unsynced f)) d)).

Definition syncFile : io bool := sys (fun ch d =>
  match ch with
  | Fine => (Ok true, onJournal (fun f => mkFile (contents f) []) d)
  | _ => (Ok false, d)
  end).

(** the temporary file: its contents, and whether they are synced *)
Definition Temp : Type := bytes * bool.

Definition writeTemp (t : Temp) (data : bytes) : io Temp := sys (fun ch d =>
  let '(n, fine) := writes ch data in
  if fine && bool_decide (n = length data) then (Ok (t.1 ++ data, false), d) else (Err "write"%string, d)).

Definition syncTemp (t : Temp) : io Temp := sys (fun ch d =>
  match ch with Fine => (Ok (t.1, true), d) | _ => (Err "sync"%string, d) end).

Definition moved (t : Temp) (s : Slot) : Slot :=
  mkSlot (Some (mkFile t.1 (if t.2 then [] else (fun k => take k t.1) <$> seq 0 (length t.1)))) (now s :: before s).

Definition renameJournal (t : Temp) : io unit := sys (fun ch d =>
  match ch with
  | Fine => (Ok tt, mkDisk (moved t (jr d)) (ts d))
  | _ => (Err "rename"%string, d)
  end).
Definition renameTombstones (t : Temp) : io unit := sys (fun ch d =>
  match ch with
  | Fine => (Ok tt, mkDisk (jr d) (moved t (ts d)))
  | _ => (Err "rename"%string, d)
  end).
(** [os.Remove]: a name that does not exist is no error to the caller *)
Definition removeTombstones : io unit := sys (fun ch d =>
  match ch with
  | Fine => (Ok tt, match now (ts d) with
                    | Some _ => mkDisk (jr d) (mkSlot None (now (ts d) :: before (ts d)))
                    | None => d
                    end)
  | _ => (Err "remove"%string, d)
  end).

(** [directory.Sync]: the names of both files are settled *)
Definition settle (d : Disk) : Disk :=
  mkDisk (mkSlot (now (jr d)) []) (mkSlot (now (ts d)) []).
Definition syncDir : io bool := sys (fun ch d =>
  match ch with
  | Fine => (Ok true, settle d)
  | Unsupported => (Ok true, d)
  | _ => (Ok false, d)
  end).

Definition syncDirectory : io unit :=
  ok "open directory"%string;;
  fine ← syncDir;
  (* defer directory.Close() *)
  try (ok "close"%string);;
  if (fine : bool) then mret tt else throw "sync directory"%string.

(** ** Reading *)

(** [bufio.ScanLines]: the lines without their ends; a last line without a newline counts
    when it is not empty; [None]: a line does not fit the buffer *)
Definition dropCR (l : bytes) : bytes :=
  match last l with
  | Some 13 => removelast l
  | _ => l
  end.
Definition newline : Z := 10.

Fixpoint dropEmptyLast (l : list bytes) : list bytes :=
  match l with
  | [] => []
  | [[]] => []
  | x :: l => x :: dropEmptyLast l
  end.

Definition scanLines (data : bytes) : option (list bytes) :=
  let lines := splitByte newline data in
  if forallb (fun l => len l <? maxBytes) lines then Some (dropCR <$> dropEmptyLast lines) else None.

Definition loadTombstones : io (gset string) :=
  file ← wrap "read activity tombstones" (openRead ts);
  match file with
  | None => mret ∅
  | Some data =>
      (ok "stat";;
       if maxBytes <? len data then throw "activity tombstones are corrupt or oversized" else
       ok "protect activity tombstones";;
       ok "scan activity tombstones";;
       match scanLines data with
       | Some lines =>
           mret (list_to_set (filter (fun id => id <> ""%string) ((fun l => TrimSpace (string_of_bytes l)) <$> lines)))
       | None => throw "scan activity tombstones"
       end)
  end.

(** ** Writing *)

(** a temporary file, whatever happens removed at the end: [defer os.Remove(tempPath)] *)
Definition withTemp {A} (body : Temp -> io A) : io A :=
  ok "create temporary file";;
  r ← try (ok "chmod";; body ([], false));
  try (ok "remove temporary file");;
  match r with Ok a => mret a | Err e => throw e end.

(** [temp.Close()] before the error is returned *)
Definition orClose {A} (m : io A) : io A :=
  r ← try m;
  match r with
  | Ok a => mret a
  | Err e => try (ok "close");; throw e
  end.

Fixpoint writeIDs (t : Temp) (ids : list string) : io Temp :=
  match ids with
  | [] => mret t
  | id :: ids => t ← orClose (writeTemp t (bytes_of_string id ++ [newline])); writeIDs t ids
  end.

Definition tombstoneIDs (tombstones : gset string) : list string :=
  merge_sort stringLe (filter (fun id => TrimSpace id <> ""%string) (elements tombstones)).

Definition writeTombstonesLocked (tombstones : gset string) : io unit :=
  if bool_decide (tombstones = ∅) then
    removeTombstones;;
    syncDirectory
  else
    withTemp (fun t =>
      t ← writeIDs t (tombstoneIDs tombstones);
      t ← orClose (syncTemp t);
      ok "close";;
      renameTombstones t;;
      syncDirectory).

Context (Marshal : Entry -> option bytes) (Unmarshal : bytes -> option Entry).

Definition encodeEntry (entry : Entry) : option bytes :=
  (fun data => data ++ [newline]) <$> Marshal entry.

Fixpoint writeEntries (t : Temp) (es : list Entry) : io Temp :=
  match es with
  | [] => mret t
  | entry :: es =>
      t ← orClose (match encodeEntry entry with
                   | Some data => writeTemp t data
                   | None => throw "encode"
                   end);
      writeEntries t es
  end.

Definition compactEntriesLocked (es : list Entry) : io unit :=
  withTemp (fun t =>
    t ← writeEntries t es;
    t ← orClose (syncTemp t);
    ok "close";;
    renameJournal t;;
    syncDirectory;;
    put (mkJournal es (len t.1))).

Definition compactLocked : io unit :=
  j ← get;
  compactEntriesLocked (entries j).

(** ** Limits *)

Definition setExtract (entry : Entry) (extract : string) : Entry :=
  mkEntry (ID entry) (Timestamp entry) (Kind entry) (Status entry) (Summary entry) (Host entry) (PaneID entry)
    (Agent entry) (Project entry) (RequestID entry) extract (Session entry) (Details entry).

Definition NormalizeEntry (entry : Entry) : Entry :=
  let runes := DispatchBase.runes (bytes_of_string (Extract entry)) in
  if maxExtractChars <? len runes
  then setExtract entry (string_of_bytes (concat (take (Z.to_nat maxExtractChars) runes)))
  else entry.

(** [for total > maxBytes && first < len(entries)-1] *)
Fixpoint evictLoop (l : list (Entry * Z)) (total : Z) : list Entry * Z :=
  match l with
  | (entry, size) :: (_ :: _) as rest =>
      if maxBytes <? total then evictLoop rest (total - size) else (fst <$> l, total)
  | _ => (fst <$> l, total)
  end.

Definition retainWithinLimits (es : list Entry) : option (list Entry * Z) :=
  let es := if maxItems <? len es then drop (Z.to_nat (len es - maxItems)) es else es in
  let? sizes := mapM (fun entry => (fun data : bytes => len data) <$> encodeEntry entry) es in
  let '(retained, total) := evictLoop (zip es sizes) (foldl Z.add 0 sizes) in
  if maxBytes <? total then None else Some (retained, total).

(** ** Operations *)

Definition decodeLines (tombstones : gset string) (lines : list bytes) : list Entry :=
  filter (fun entry => ID entry ∉ tombstones)
    (omap (fun line => match line with [] => None | _ => Unmarshal line end) lines).

Definition extractEqb (a b : Entry) : bool := String.eqb (Extract a) (Extract b).

Definition load : io unit :=
  tombstones ← loadTombstones;
  file ← wrap "read activity journal" (openRead jr);
  match file with
  | None =>
      if bool_decide (tombstones = ∅) then mret tt
      else wrap "clean orphaned activity tombstones" (writeTombstonesLocked ∅)
  | Some data =>
      (ok "stat";;
       if maxBytes * 4 <? len data then throw "activity journal is corrupt or oversized" else
       ok "scan activity journal";;
       match scanLines data with
       | None => throw "scan activity journal"
       | Some lines =>
           let decoded := decodeLines tombstones lines in
           let es := NormalizeEntry <$> decoded in
           match retainWithinLimits es with
           | None => throw "normalize activity journal"
           | Some (retained, retainedBytes) =>
               put (mkJournal retained retainedBytes);;
               (if bool_decide (tombstones <> ∅) || (maxBytes <? len data) ||
                  negb (forallb (fun e => extractEqb (NormalizeEntry e) e) decoded) ||
                  negb (bool_decide (length retained = length es)) || negb (retainedBytes =? len data)
                then wrap "compact activity journal" compactLocked else mret tt);;
               if bool_decide (tombstones = ∅) then mret tt
               else wrap "clean recovered activity tombstones" (writeTombstonesLocked ∅)
           end
       end)
  end.

Definition OpenJournal : io unit :=
  ok "create activity directory";;
  ok "protect activity directory";;
  put (mkJournal [] 0);;
  load.

Definition Append (entry : Entry) : io unit :=
  j ← get;
  let entry := NormalizeEntry entry in
  match encodeEntry entry with
  | None => throw "encode"
  | Some data =>
      if maxBytes <? len data then throw "activity entry exceeds the journal limit" else
      let candidate := entries j ++ [entry] in
      match retainWithinLimits candidate with
      | None => throw "activity entry exceeds the journal limit"
      | Some (retained, retainedBytes) =>
          if negb (bool_decide (length retained = length candidate)) || (maxBytes <? retainedBytes) ||
             (maxItems <? len candidate)
          then compactEntriesLocked retained
          else
            openAppend;;
            orClose (ok "protect activity journal");;
            written ← appendFile data;
            let writeErr := negb written.2 || negb (bool_decide (written.1 = length data)) in
            synced ← (if writeErr then mret false else syncFile);
            closed ← try (ok "close");
            if negb synced then throw "append activity journal" else
            match closed with
            | Err e => throw e
            | Ok _ => put (mkJournal (entries j ++ [entry]) (bytes_ j + len data))
            end
      end
  end.

(** the part [Clear] and [Discard] share: tombstones first, then the journal, then the
    tombstones as they were *)
Definition withTombstones (es : list Entry) (previous tombstones : gset string) (prepare failed : string) : io unit :=
  wrap prepare (writeTombstonesLocked tombstones);;
  r ← try (compactEntriesLocked es);
  match r with
  | Err _ => try (writeTombstonesLocked previous);; throw failed
  | Ok _ => try (writeTombstonesLocked previous);; mret tt
  end.

Definition Clear : io unit :=
  j ← get;
  previousTombstones ← loadTombstones;
  let ids := filter (fun id => id <> ""%string) (ID <$> entries j) in
  withTombstones [] previousTombstones (previousTombstones ∪ list_to_set ids)
    "prepare activity clear" "clear activity journal".

Definition Discard (id : string) : io unit :=
  if String.eqb id "" then mret tt else
  j ← get;
  let retained := filter (fun entry => ID entry <> id) (entries j) in
  if bool_decide (Exists (fun entry => ID entry = id) (entries j)) then
    previousTombstones ← loadTombstones;
    withTombstones retained previousTombstones (previousTombstones ∪ {[id]})
      "prepare stale activity discard" "discard stale activity"
  else mret tt.

Definition Recent (j : Journal) (limit : Z) : list Entry :=
  let limit := if (limit <=? 0) || (len (entries j) <? limit) then len (entries j) else limit in
  drop (Z.to_nat (len (entries j) - limit)) (entries j).

(** [activity.NewEntry] at the instant [now] (nanoseconds since 1970); [nil] are no details *)
Definition NewEntry (nil : Any) (now : Z) (kind status summary paneID agent project requestID : string) : Entry :=
  mkEntry (pretty now +:+ "-" +:+ paneID) (now / 1000000) kind status summary "" paneID agent project requestID "" "" nil.

(** the file with these entries, and the file with these tombstones *)
Definition image (es : list Entry) : option bytes := (fun l => concat l) <$> mapM encodeEntry es.
Definition tombImage (tombstones : gset string) : option bytes :=
  if bool_decide (tombstones = ∅) then None
  else Some (concat ((fun id => bytes_of_string id ++ [newline]) <$> tombstoneIDs tombstones)).

Lemma image_cons e es c :
  image (e :: es) = Some c <-> exists data c', encodeEntry e = Some data /\ image es = Some c' /\ c = data ++ c'.
Proof.
  unfold image. cbn. destruct (encodeEntry e) as [data|]; cbn; [|naive_solver].
  destruct (mapM encodeEntry es) as [l|]; cbn; naive_solver.
Qed.

(** what [loadTombstones] reads *)
Definition tombs (t : option bytes) : option (gset string) :=
  match t with
  | None => Some ∅
  | Some data =>
      if maxBytes <? len data then None else
      (fun lines => list_to_set (filter (fun id => id <> ""%string) ((fun l => TrimSpace (string_of_bytes l)) <$> lines)))
      <$> scanLines data
  end.

(** ** What a crash leaves *)

(** [m] started where [P] holds ends where [Q] holds, and on the way every crash finds
    contents of the journal and of the tombstones that are [good] *)
Section Triples.
Context (good : option bytes -> option bytes -> Prop).

Definition safe (d : Disk) : Prop :=
  forall c t, c ∈ possible (jr d) -> t ∈ possible (ts d) -> good c t.

Definition triple {A} (P : World -> Prop) (m : io A) (Q : result string A -> World -> Prop) : Prop :=
  forall w r w', P w -> m w = (r, w') -> Q r w' /\ exists new, seen w' = new ++ seen w /\ Forall safe new.

Lemma triple_ret {A} (a : A) P Q : (forall w, P w -> Q (Ok a) w) -> triple P (mret a) Q.
Proof. intros H w r w' Hp [= <- <-]. split; [auto|]. by exists []. Qed.

Lemma triple_throw {A} e P (Q : result string A -> World -> Prop) :
  (forall w, P w -> Q (Err e) w) -> triple P (throw e) Q.
Proof. intros H w r w' Hp [= <- <-]. split; [auto|]. by exists []. Qed.

Lemma triple_bind {A B} P (m : io A) (k : A -> io B) Q R :
  triple P m Q -> (forall a, triple (Q (Ok a)) (k a) R) -> (forall e w, Q (Err e) w -> R (Err e) w) ->
  triple P (m ≫= k) R.
Proof.
  intros Hm Hk He w r w' Hp. unfold mbind, io_bind. destruct (m w) as [[a|e] w1] eqn:E1.
  - destruct (Hm _ _ _ Hp E1) as [Hq [n1 [E2 H2]]]. intros E. destruct (Hk _ _ _ _ Hq E) as [Hr [n2 [E3 H3]]].
    split; [done|]. exists (n2 ++ n1). rewrite E3, E2, app_assoc. split; [done|]. by apply Forall_app.
  - intros [= <- <-]. destruct (Hm _ _ _ Hp E1) as [Hq Hn]. eauto.
Qed.

Lemma triple_try {A} P (m : io A) Q : triple P m Q -> triple P (try m) (fun r w => match r with Ok r => Q r w | Err _ => False end).
Proof.
  intros Hm w r w' Hp. unfold try. destruct (m w) as [r1 w1] eqn:E1. intros [= <- <-]. by apply (Hm _ _ _ Hp E1).
Qed.

Lemma triple_wrap {A} e P (m : io A) (Q : result string A -> World -> Prop) :
  triple P m Q -> (forall e' w, Q (Err e') w -> Q (Err e) w) -> triple P (wrap e m) Q.
Proof.
  intros Hm He w r w' Hp. unfold wrap. destruct (m w) as [[a|e'] w1] eqn:E1; intros [= <- <-];
    destruct (Hm _ _ _ Hp E1) as [Hq Hn]; eauto.
Qed.

Lemma triple_conseq {A} (P P' : World -> Prop) (m : io A) (Q Q' : result string A -> World -> Prop) :
  triple P m Q -> (forall w, P' w -> P w) -> (forall r w, Q r w -> Q' r w) -> triple P' m Q'.
Proof. intros Hm HP HQ w r w' Hp E. destruct (Hm _ _ _ (HP _ Hp) E). eauto. Qed.

(** ** Assertions *)

(** the name refers to one of [n], and may be one of [b] after a loss of power *)
Definition slotIn (n b : propset (option bytes)) (s : Slot) : Prop :=
  (forall c, c ∈ survives (now s) -> c ∈ n) /\ (forall f c, f ∈ before s -> c ∈ survives f -> c ∈ b).

Record at_ (nj bj nt bt : propset (option bytes)) (j : Journal) (w : World) : Prop := At {
  at_jr : slotIn nj bj (jr (disk w)); at_ts : slotIn nt bt (ts (disk w));
  at_mem : mem w = j; at_sup : Unsupported ∉ answers w }.

Definition fits (J T : propset (option bytes)) : Prop := forall c t, c ∈ J -> t ∈ T -> good c t.

Lemma slot_possible n b s c : slotIn n b s -> c ∈ possible s -> c ∈ n ∪ b.
Proof.
  intros [H1 H2] H. unfold possible in H. rewrite list_elem_of_bind in H. destruct H as [f [Hc Hf]].
  apply elem_of_cons in Hf as [->|Hf]; apply elem_of_union; eauto.
Qed.

Lemma slot_mono n b n' b' s : slotIn n b s -> n ⊆ n' -> b ⊆ b' -> slotIn n' b' s.
Proof. intros [H1 H2] Hn Hb. split; [intros; apply Hn; auto|]. intros. apply Hb. eauto. Qed.

Lemma at_safe nj bj nt bt j w : at_ nj bj nt bt j w -> fits (nj ∪ bj) (nt ∪ bt) -> safe (disk w).
Proof. intros [H1 H2 _ _] Hf c t Hc Ht. apply Hf; eapply slot_possible; eauto. Qed.

Lemma at_mono nj bj nt bt nj' bj' nt' bt' j w :
  at_ nj bj nt bt j w -> nj ⊆ nj' -> bj ⊆ bj' -> nt ⊆ nt' -> bt ⊆ bt' -> at_ nj' bj' nt' bt' j w.
Proof. intros [H1 H2 H3 H4] ????. constructor; eauto using slot_mono. Qed.

Lemma fits_mono J T J' T' : fits J T -> J' ⊆ J -> T' ⊆ T -> fits J' T'.
Proof. intros H HJ HT c t Hc Ht. apply H; [by apply HJ|by apply HT]. Qed.

(** one system call: by cases on its outcome *)
Lemma triple_sys {A} (P : World -> Prop) (f : choice -> Disk -> result string A * Disk) Q :
  (forall w ch, P w -> (Unsupported ∉ answers w -> ch <> Unsupported) ->
     let w' := mkWorld (mem w) (f ch (disk w)).2 (tail (answers w)) ((f ch (disk w)).2 :: seen w) in
     Q (f ch (disk w)).1 w' /\ safe (disk w')) ->
  triple P (sys f) Q.
Proof.
  intros H w r w' Hp E. unfold sys in E. specialize (H w (default Fine (head (answers w))) Hp). revert H E.
  destruct (f _ _) as [r1 d1] eqn:Ef. cbn. intros H [= <- <-]. destruct H as [H1 H2].
  { destruct (answers w) as [|ch l]; cbn; [done|]. set_solver. }
  split; [done|]. exists [d1]. split; [done|]. by repeat constructor.
Qed.

Lemma sup_tail w : Unsupported ∉ answers w -> Unsupported ∉ tail (answers w).
Proof. destruct (answers w); set_solver. Qed.

Lemma at_keep nj bj nt bt j w w' :
  at_ nj bj nt bt j w -> mem w' = mem w -> disk w' = disk w -> answers w' = tail (answers w) -> at_ nj bj nt bt j w'.
Proof. intros [H1 H2 H3 H4] E1 E2 E3. constructor; rewrite ?E1, ?E2, ?E3; auto using sup_tail. Qed.

(** ** The calls *)

Lemma ok_ok nj bj nt bt j e :
  fits (nj ∪ bj) (nt ∪ bt) -> triple (at_ nj bj nt bt j) (ok e) (fun _ => at_ nj bj nt bt j).
Proof.
  intros Hfits. apply triple_sys. intros w ch Hw _ w'. assert (E : disk w' = disk w) by (unfold w'; by destruct ch).
  split; [|rewrite E; by eapply at_safe]. by eapply at_keep.
Qed.

(** the outcome of the call does not matter *)
Lemma ok_then {A} nj bj nt bt j e (m : io A) Q :
  fits (nj ∪ bj) (nt ∪ bt) -> triple (at_ nj bj nt bt j) m Q -> triple (at_ nj bj nt bt j) (try (ok e);; m) Q.
Proof.
  intros Hf Hm. eapply (triple_bind _ _ _ (fun r w => is_ok r = true /\ at_ nj bj nt bt j w)).
  - eapply triple_conseq; [by apply triple_try, ok_ok|done|]. by intros [] ? ?.
  - intros r. eapply triple_conseq; [done| |done]. by intros w [_ ?].
  - by intros e' w [? _].
Qed.

Section Calls.
Context (nj bj nt bt : propset (option bytes)) (j : Journal).
Context (Hfits : fits (nj ∪ bj) (nt ∪ bt)).

Abbreviation here := (at_ nj bj nt bt j).

Lemma openRead_jr_ok :
  triple here (openRead jr) (fun r w => here w /\ (forall c, r = Ok c -> c ∈ nj)).
Proof.
  apply triple_sys. intros w ch Hw _ w'. assert (E : disk w' = disk w) by (unfold w'; by destruct ch).
  split; [|rewrite E; by eapply at_safe]. split; [by eapply at_keep|]. intros c Hc. destruct ch; cbn in Hc; try done.
  injection Hc as <-. destruct Hw as [[H1 _] _ _ _]. apply H1. destruct (now (jr (disk w))); cbn; set_solver.
Qed.

Lemma openRead_ts_ok :
  triple here (openRead ts) (fun r w => here w /\ (forall c, r = Ok c -> c ∈ nt)).
Proof.
  apply triple_sys. intros w ch Hw _ w'. assert (E : disk w' = disk w) by (unfold w'; by destruct ch).
  split; [|rewrite E; by eapply at_safe]. split; [by eapply at_keep|]. intros c Hc. destruct ch; cbn in Hc; try done.
  injection Hc as <-. destruct Hw as [_ [H1 _] _ _]. apply H1. destruct (now (ts (disk w))); cbn; set_solver.
Qed.

Lemma writeTemp_ok t data : triple here (writeTemp t data) (fun r w => here w /\ (forall t', r = Ok t' -> t' = (t.1 ++ data, false))).
Proof.
  apply triple_sys. intros w ch Hw _ w'.
  assert (E : disk w' = disk w) by (unfold w'; destruct (writes ch data) as [n []]; cbn; by repeat case_match).
  split; [|rewrite E; by eapply at_safe]. split; [by eapply at_keep|].
  intros t'. destruct (writes ch data) as [n fine]. case_match; cbn; congruence.
Qed.

Lemma syncTemp_ok t : triple here (syncTemp t) (fun r w => here w /\ (forall t', r = Ok t' -> t' = (t.1, true))).
Proof.
  apply triple_sys. intros w ch Hw _ w'. assert (E : disk w' = disk w) by (unfold w'; by destruct ch).
  split; [|rewrite E; by eapply at_safe]. split; [by eapply at_keep|]. intros t'. destruct ch; cbn; congruence.
Qed.

Lemma orClose_ok {A} (m : io A) (Q : A -> Prop) :
  triple here m (fun r w => here w /\ (forall a, r = Ok a -> Q a)) ->
  triple here (orClose m) (fun r w => here w /\ (forall a, r = Ok a -> Q a)).
Proof.
  intros Hm. unfold orClose. eapply triple_bind; [by apply triple_try|..]; [|by intros].
  intros [a|e]; [apply triple_ret; intros w [? ?]; naive_solver|].
  eapply triple_conseq; [apply ok_then; [done|]|by intros w [? _]|intros r w Hr; exact Hr].
  by apply triple_throw.
Qed.

Lemma syncDirectory_ok :
  triple here syncDirectory (fun r => match r with Ok _ => at_ nj ∅ nt ∅ j | Err _ => here end).
Proof.
  assert (Hf0 : fits (nj ∪ ∅) (nt ∪ ∅)) by (eapply fits_mono; [done|set_solver..]).
  eapply triple_bind; [by apply ok_ok| |by intros]. intros u. cbn beta. clear u.
  eapply (triple_bind _ _ _ (fun r => match r with Ok true => at_ nj ∅ nt ∅ j | _ => here end)).
  - apply triple_sys. intros w ch Hw Hs w'. destruct ch; cbn.
    + assert (Hw' : at_ nj ∅ nt ∅ j w').
      { destruct Hw as [[H1 _] [H2 _] H3 H4]. constructor; cbn; auto using sup_tail; (split; [done|]); set_solver. }
      split; [done|]. change (safe (disk w')). by eapply at_safe.
    + split; [by eapply at_keep|by eapply at_safe].
    + split; [by eapply at_keep|by eapply at_safe].
    + exfalso. apply Hs; [by destruct Hw|done].
  - intros []; (eapply triple_conseq; [apply ok_then; [|]|intros w Hw; exact Hw|intros r w Hr; exact Hr]).
    + done.
    + by apply triple_ret.
    + done.
    + by apply triple_throw.
  - by intros.
Qed.

End Calls.

(** ** Whole files *)

Section Files.
Context (nj bj nt bt : propset (option bytes)) (j : Journal).
Context (Hfits : fits (nj ∪ bj) (nt ∪ bt)).

Abbreviation here := (at_ nj bj nt bt j).

Lemma writeEntries_ok t es :
  triple here (writeEntries t es)
    (fun r w => here w /\ (forall t', r = Ok t' -> exists c, image es = Some c /\ t'.1 = t.1 ++ c)).
Proof.
  revert t. induction es as [|e es IH]; intros t; cbn [writeEntries].
  { apply triple_ret. intros w Hw. split; [done|]. intros t' [= <-]. exists []. by rewrite app_nil_r. }
  eapply triple_bind.
  - apply (orClose_ok _ _ _ _ _ Hfits _ (fun t' => exists data, encodeEntry e = Some data /\ t'.1 = t.1 ++ data)).
    destruct (encodeEntry e) as [data|]; [|by apply triple_throw; intros; split; [|done]].
    eapply triple_conseq; [by apply writeTemp_ok|done|]. intros r w [Hw Hr]. split; [done|].
    intros t' Ht. rewrite (Hr _ Ht). eauto.
  - intros t1 w r w' [Hw Ht1] E. destruct (Ht1 _ eq_refl) as [data [E1 E2]].
    destruct (IH t1 w r w' Hw E) as [[Hw' Hr] Hn]. split; [|done]. split; [done|].
    intros t' Ht'. destruct (Hr _ Ht') as [c [Ec Et]]. exists (data ++ c). rewrite image_cons. split; [eauto|].
    by rewrite Et, E2, app_assoc.
  - intros e' w [Hw _]. by split; [|done].
Qed.

Lemma writeIDs_ok t ids :
  triple here (writeIDs t ids)
    (fun r w => here w /\ (forall t', r = Ok t' -> t'.1 = t.1 ++ concat ((fun id => bytes_of_string id ++ [newline]) <$> ids))).
Proof.
  revert t. induction ids as [|id ids IH]; intros t; cbn [writeIDs].
  { apply triple_ret. intros w Hw. split; [done|]. intros t' [= <-]. by rewrite app_nil_r. }
  eapply triple_bind; [apply orClose_ok; [done|by apply writeTemp_ok]| |].
  - intros t1 w r w' [Hw Ht1] E. destruct (IH t1 w r w' Hw E) as [[Hw' Hr] Hn]. split; [|done]. split; [done|].
    intros t' Ht'. rewrite (Hr _ Ht'), (Ht1 _ eq_refl). cbn. by rewrite <- !app_assoc.
  - intros e' w [Hw _]. by split; [|done].
Qed.

(** a name that is moved to a synced temporary file *)
Lemma slot_moved n b s c : slotIn n b s -> slotIn {[Some c]} (n ∪ b) (moved (c, true) s).
Proof.
  intros [H1 H2]. split; cbn; [set_solver|]. intros f c' Hf Hc. apply elem_of_cons in Hf as [->|Hf]; set_solver.
Qed.

Lemma renameJournal_ok c :
  fits ({[Some c]} ∪ (nj ∪ bj)) (nt ∪ bt) ->
  triple here (renameJournal (c, true))
    (fun r => match r with Ok _ => at_ {[Some c]} (nj ∪ bj) nt bt j | Err _ => here end).
Proof.
  intros Hf. apply triple_sys. intros w ch Hw _ w'.
  destruct ch as [| | |]; cbn; [|by (split; [eapply at_keep|eapply at_safe])..].
  assert (Hw' : at_ {[Some c]} (nj ∪ bj) nt bt j w').
  { destruct Hw as [H1 H2 H3 H4]. constructor; cbn; auto using sup_tail, slot_moved. }
  split; [exact Hw'|exact (at_safe _ _ _ _ _ _ Hw' Hf)].
Qed.

Lemma renameTombstones_ok c :
  fits (nj ∪ bj) ({[Some c]} ∪ (nt ∪ bt)) ->
  triple here (renameTombstones (c, true))
    (fun r => match r with Ok _ => at_ nj bj {[Some c]} (nt ∪ bt) j | Err _ => here end).
Proof.
  intros Hf. apply triple_sys. intros w ch Hw _ w'.
  destruct ch as [| | |]; cbn; [|by (split; [eapply at_keep|eapply at_safe])..].
  assert (Hw' : at_ nj bj {[Some c]} (nt ∪ bt) j w').
  { destruct Hw as [H1 H2 H3 H4]. constructor; cbn; auto using sup_tail, slot_moved. }
  split; [exact Hw'|exact (at_safe _ _ _ _ _ _ Hw' Hf)].
Qed.

Lemma removeTombstones_ok :
  fits (nj ∪ bj) ({[None]} ∪ (nt ∪ bt)) ->
  triple here removeTombstones
    (fun r => match r with Ok _ => at_ nj bj {[None]} (nt ∪ bt) j | Err _ => here end).
Proof.
  intros Hf. apply triple_sys. intros w ch Hw _ w'.
  destruct ch as [| | |]; cbn; [|by (split; [eapply at_keep|eapply at_safe])..].
  assert (Hw' : at_ nj bj {[None]} (nt ∪ bt) j w').
  { destruct Hw as [H1 [H2 H2'] H3 H4]. constructor; unfold w'; cbn; auto using sup_tail.
    - by destruct (now (ts (disk w))).
    - destruct (now (ts (disk w))) as [f|] eqn:E; cbn.
      + split; cbn; [set_solver|]. intros g c' Hg Hc. apply elem_of_cons in Hg as [->|Hg]; set_solver.
      + split; [rewrite E; cbn; set_solver|]. intros g c' Hg Hc. set_solver. }
  split; [exact Hw'|exact (at_safe _ _ _ _ _ _ Hw' Hf)].
Qed.

End Files.

Lemma withTemp_ok {A} nj bj nt bt j nj1 bj1 nt1 bt1 j1 nj2 bj2 nt2 bt2 (body : Temp -> io A) :
  fits (nj ∪ bj) (nt ∪ bt) -> fits (nj1 ∪ bj1) (nt1 ∪ bt1) -> fits (nj2 ∪ bj2) (nt2 ∪ bt2) ->
  nj ⊆ nj2 -> bj ⊆ bj2 -> nt ⊆ nt2 -> bt ⊆ bt2 ->
  triple (at_ nj bj nt bt j) (body ([], false))
    (fun r => match r with Ok _ => at_ nj1 bj1 nt1 bt1 j1 | Err _ => at_ nj2 bj2 nt2 bt2 j end) ->
  triple (at_ nj bj nt bt j) (withTemp body)
    (fun r => match r with Ok _ => at_ nj1 bj1 nt1 bt1 j1 | Err _ => at_ nj2 bj2 nt2 bt2 j end).
Proof.
  intros Hf Hf1 Hf2 H1 H2 H3 H4 Hb. unfold withTemp.
  eapply triple_bind; [by apply ok_ok|intros _u; cbn beta|intros e w Hw; exact (at_mono _ _ _ _ _ _ _ _ _ _ Hw H1 H2 H3 H4)].
  eapply (triple_bind _ _ _ (fun r w => match r with Ok (Ok _) => at_ nj1 bj1 nt1 bt1 j1 w | Ok (Err _) => at_ nj2 bj2 nt2 bt2 j w | Err _ => False end)).
  - eapply triple_conseq; [apply triple_try|intros w Hw; exact Hw|].
    + eapply triple_bind; [by apply ok_ok|intros _u'; exact Hb|]. intros e w Hw. exact (at_mono _ _ _ _ _ _ _ _ _ _ Hw H1 H2 H3 H4).
    + by intros [[]|] w ?.
  - intros [a|e]; (eapply triple_conseq; [apply ok_then; [|]|intros w Hw; exact Hw|intros r w Hr; exact Hr]).
    + done.
    + by apply triple_ret.
    + done.
    + by apply triple_throw.
  - by intros.
Qed.

Lemma put_ok nj bj nt bt j j' :
  triple (at_ nj bj nt bt j) (put j') (fun r w => r = Ok tt /\ at_ nj bj nt bt j' w).
Proof. intros w r w' [H1 H2 H3 H4] [= <- <-]. split; [done|]. by exists []. Qed.

(** rewriting the journal: the new file at once or not at all *)
Lemma compact_ok nj bj nt bt j es c :
  image es = Some c -> fits ({[Some c]} ∪ (nj ∪ bj)) (nt ∪ bt) ->
  triple (at_ nj bj nt bt j) (compactEntriesLocked es)
    (fun r => match r with
              | Ok _ => at_ {[Some c]} ∅ nt ∅ (mkJournal es (len c))
              | Err _ => at_ ({[Some c]} ∪ nj) (nj ∪ bj) nt bt j
              end).
Proof.
  intros Ec Hf. assert (Hf0 : fits (nj ∪ bj) (nt ∪ bt)) by (eapply fits_mono; [exact Hf|set_solver..]).
  assert (Hf1 : fits ({[Some c]} ∪ ∅) (nt ∪ ∅)) by (eapply fits_mono; [exact Hf|set_solver..]).
  assert (Herr : forall w, at_ nj bj nt bt j w -> at_ ({[Some c]} ∪ nj) (nj ∪ bj) nt bt j w).
  { intros w Hw. eapply at_mono; [done|set_solver..]. }
  apply withTemp_ok; [done|done|eapply fits_mono; [exact Hf|set_solver..]|set_solver|set_solver|done|done|].
  eapply triple_bind; [by apply writeEntries_ok| |by intros e w [Hw _]; auto].
  intros t1 w r w' [Hw Ht1] E. destruct (Ht1 _ eq_refl) as [c' [Ec' Et]]. clear Ht1. simplify_eq. cbn in Et.
  revert w r w' Hw E. eapply triple_bind; [by apply orClose_ok, syncTemp_ok| |by intros e w [Hw _]; auto].
  intros t2 w r w' [Hw Ht2] E. specialize (Ht2 _ eq_refl) as ->. rewrite Et in E.
  revert w r w' Hw E. eapply triple_bind; [by apply ok_ok|intros _u; cbn beta|by auto].
  eapply triple_bind; [by apply renameJournal_ok|intros _u'; cbn beta|by auto].
  eapply triple_bind; [apply syncDirectory_ok; done|intros _u2; cbn beta|].
  - eapply triple_conseq; [apply put_ok|done|]. by intros r w [-> Hw].
  - intros e w Hw. eapply at_mono; [exact Hw|set_solver..].
Qed.

(** the tombstones: the new ones at once or not at all *)
Lemma writeTombstones_ok nj bj nt bt j tombstones :
  let t := tombImage tombstones in
  fits (nj ∪ bj) ({[t]} ∪ (nt ∪ bt)) ->
  triple (at_ nj bj nt bt j) (writeTombstonesLocked tombstones)
    (fun r => match r with
              | Ok _ => at_ nj ∅ {[t]} ∅ j
              | Err _ => at_ nj bj ({[t]} ∪ nt) (nt ∪ bt) j
              end).
Proof.
  intros t Hf. assert (Hf0 : fits (nj ∪ bj) (nt ∪ bt)) by (eapply fits_mono; [exact Hf|set_solver..]).
  assert (Hf1 : fits (nj ∪ ∅) ({[t]} ∪ ∅)) by (eapply fits_mono; [exact Hf|set_solver..]).
  assert (Herr : forall w, at_ nj bj nt bt j w -> at_ nj bj ({[t]} ∪ nt) (nt ∪ bt) j w).
  { intros w Hw. eapply at_mono; [done|set_solver..]. }
  unfold writeTombstonesLocked. subst t. unfold tombImage in *. case_bool_decide.
  { eapply triple_bind; [by apply removeTombstones_ok|intros _u; cbn beta|by auto].
    eapply triple_conseq; [exact (syncDirectory_ok nj bj _ (nt ∪ bt) j Hf)|intros w Hw; exact Hw|]. intros [[]|] w Hw; [done|]. eapply at_mono; [exact Hw|set_solver..]. }
  apply withTemp_ok; [done|done|eapply fits_mono; [exact Hf|set_solver..]|done|done|set_solver|set_solver|].
  eapply triple_bind; [by apply writeIDs_ok| |by intros e w [Hw _]; auto].
  intros t1 w r w' [Hw Ht1] E. specialize (Ht1 _ eq_refl). cbn in Ht1.
  revert w r w' Hw E. eapply triple_bind; [by apply orClose_ok, syncTemp_ok| |by intros e w [Hw _]; auto].
  intros t2 w r w' [Hw Ht2] E. specialize (Ht2 _ eq_refl) as ->. rewrite Ht1 in E.
  revert w r w' Hw E. eapply triple_bind; [by apply ok_ok|intros _u; cbn beta|by auto].
  eapply triple_bind; [by apply renameTombstones_ok|intros _u'; cbn beta|by auto].
  eapply triple_conseq; [exact (syncDirectory_ok nj bj _ (nt ∪ bt) j Hf)|intros w Hw; exact Hw|]. intros [[]|] w Hw; [done|]. eapply at_mono; [exact Hw|set_solver..].
Qed.

(** ** Tombstones *)

Lemma loadTombstones_ok nj bj nt bt j :
  fits (nj ∪ bj) (nt ∪ bt) ->
  triple (at_ nj bj nt bt j) loadTombstones
    (fun r w => at_ nj bj nt bt j w /\ (forall S, r = Ok S -> exists t, t ∈ nt /\ tombs t = Some S)).
Proof.
  intros Hf. eapply triple_bind.
  - eapply triple_wrap; [by apply openRead_ts_ok|]. by intros e w [Hw _].
  - intros t w r w' [Hw Ht] E. specialize (Ht _ eq_refl). revert w r w' Hw E.
    destruct t as [data|]; [|by apply triple_ret; intros w Hw; split; [|intros S [= <-]; exists None]].
    eapply triple_bind; [by apply ok_ok|intros _u; cbn beta|by intros].
    destruct (maxBytes <? len data) eqn:El; [by apply triple_throw|].
    eapply triple_bind; [by apply ok_ok|intros _u'; cbn beta|by intros].
    eapply triple_bind; [by apply ok_ok|intros _u2; cbn beta|by intros].
    destruct (scanLines data) as [lines|] eqn:Es; [|by apply triple_throw].
    apply triple_ret. intros w Hw. split; [done|]. intros S [= <-]. exists (Some data). split; [done|].
    unfold tombs. by rewrite El, Es.
  - intros e w [Hw _]. by split.
Qed.

(** remove with tombstones: every crash on the way finds the old journal or the new one,
    with the old tombstones or the new ones *)
Lemma withTombstones_ok nj bj nt bt j es c previous tombstones e1 e2 :
  let tp := tombImage previous in let tn := tombImage tombstones in
  image es = Some c -> fits ({[Some c]} ∪ (nj ∪ bj)) ({[tp; tn]} ∪ (nt ∪ bt)) ->
  triple (at_ nj bj nt bt j) (withTombstones es previous tombstones e1 e2)
    (fun r => match r with
              | Ok _ => at_ {[Some c]} ∅ {[tp; tn]} {[tn]} (mkJournal es (len c))
              | Err _ => at_ ({[Some c]} ∪ nj) (nj ∪ bj) ({[tp; tn]} ∪ nt) ({[tp; tn]} ∪ (nt ∪ bt)) j
              end).
Proof.
  intros tp tn Ec Hf. unfold withTombstones.
  eapply triple_bind.
  - eapply triple_wrap; [apply writeTombstones_ok; eapply fits_mono; [exact Hf|set_solver..]|]. by intros.
  - intros u. cbn beta.
    eapply (triple_bind _ _ _ (fun r w => match r with
      | Ok (Ok _) => at_ {[Some c]} ∅ {[tn]} ∅ (mkJournal es (len c)) w
      | Ok (Err _) => at_ ({[Some c]} ∪ nj) (nj ∪ ∅) {[tn]} ∅ j w
      | Err _ => False end)).
    + eapply triple_conseq; [apply triple_try, (compact_ok nj ∅ {[tn]} ∅ j es c Ec)|intros w Hw; exact Hw|].
      * eapply fits_mono; [exact Hf|set_solver..].
      * by intros [[]|] w ?.
    + intros [u1|e'].
      * eapply triple_bind; [apply triple_try, writeTombstones_ok; eapply fits_mono; [exact Hf|set_solver..]|..]; [|by intros].
        intros [u2|e']; apply triple_ret; intros w Hw; (eapply at_mono; [exact Hw|set_solver..]).
      * eapply triple_bind; [apply triple_try, writeTombstones_ok; eapply fits_mono; [exact Hf|set_solver..]|..]; [|by intros].
        intros [u2|e1']; apply triple_throw; intros w Hw; (eapply at_mono; [exact Hw|set_solver..]).
    + by intros.
  - intros e w Hw. eapply at_mono; [exact Hw|set_solver..].
Qed.

(** ** Appending in place *)

Definition torn (E data : bytes) : propset (option bytes) :=
  {[ c | exists k, c = Some (E ++ take k data) ]}.

(** the open file: [n] bytes of [data] are written *)
Record appending (E data : bytes) (n : nat) (bj nt bt : propset (option bytes)) (j : Journal) (w : World) : Prop := Appending {
  ap_jr : exists f, now (jr (disk w)) = Some f /\ contents f = E ++ take n data /\ Forall (fun c => Some c ∈ torn E data) (unsynced f);
  ap_before : forall f c, f ∈ before (jr (disk w)) -> c ∈ survives f -> c ∈ bj;
  ap_ts : slotIn nt bt (ts (disk w));
  ap_mem : mem w = j; ap_sup : Unsupported ∉ answers w }.

Lemma appending_at E data n bj nt bt j w : appending E data n bj nt bt j w -> at_ (torn E data) bj nt bt j w.
Proof.
  intros [[f [H1 [H2 H3]]] H4 H5 H6 H7]. constructor; auto. split; [|done].
  intros c. rewrite H1. cbn. rewrite elem_of_cons, list_elem_of_fmap. intros [->|[c' [-> Hc]]].
  - rewrite H2. by exists n.
  - by eapply Forall_forall in H3.
Qed.

Lemma appending_keep E data n bj nt bt j w w' :
  appending E data n bj nt bt j w -> mem w' = mem w -> disk w' = disk w -> answers w' = tail (answers w) ->
  appending E data n bj nt bt j w'.
Proof. intros [H1 H2 H3 H4 H5] E1 E2 E3. constructor; rewrite ?E1, ?E2, ?E3; auto using sup_tail. Qed.

Section Appends.
Context (E data : bytes) (bj nt bt : propset (option bytes)) (j : Journal).
Context (Hfits : fits (torn E data ∪ bj) (nt ∪ bt)).

Lemma appending_ok n e : triple (appending E data n bj nt bt j) (ok e) (fun _ => appending E data n bj nt bt j).
Proof.
  apply triple_sys. intros w ch Hw _ w'. assert (Ed : disk w' = disk w) by (unfold w'; by destruct ch).
  split; [by eapply appending_keep|]. rewrite Ed. eapply at_safe; [by apply appending_at in Hw|done].
Qed.

Lemma openAppend_ok c0 b0 :
  (c0 = Some E /\ b0 ⊆ bj) \/ (c0 = None /\ E = [] /\ {[None]} ∪ b0 ⊆ bj) ->
  triple (at_ {[c0]} b0 nt bt j) openAppend
    (fun r => match r with Ok _ => appending E data 0 bj nt bt j | Err _ => at_ ({[c0]} ∪ torn E data) bj nt bt j end).
Proof.
  intros Hc. assert (Hf0 : fits ({[c0]} ∪ b0) (nt ∪ bt)).
  { eapply fits_mono; [exact Hfits| |done]. destruct Hc as [[-> Hb]|[-> [-> Hb]]]; [|set_solver].
    apply union_mono; [|done]. intros c ->%elem_of_singleton. exists 0%nat. by rewrite app_nil_r. }
  assert (Hb : b0 ⊆ bj) by (destruct Hc as [[_ ?]|[_ [_ ?]]]; set_solver).
  apply triple_sys. intros w ch Hw _ w'.
  assert (Herr : disk w' = disk w -> at_ ({[c0]} ∪ torn E data) bj nt bt j w' /\ safe (disk w')).
  { intros Ed. split; [|rewrite Ed; by eapply at_safe]. eapply at_mono; [by eapply at_keep|set_solver..]. }
  destruct ch; [|apply (Herr eq_refl)..]. clear Herr.
  assert (Hw' : appending E data 0 bj nt bt j w').
  { destruct Hw as [[H1 H1'] H2 H3 H4]. unfold w'. constructor; cbn; auto using sup_tail.
    - destruct (now (jr (disk w))) as [f|] eqn:En; cbn.
      + rewrite En. exists f. split; [done|]. rewrite app_nil_r. cbn in H1.
        assert (Hs : forall c, c ∈ contents f :: unsynced f -> c0 = Some c) by (intros c Hin; specialize (H1 (Some c)); set_solver).
        destruct Hc as [[-> _]|[-> _]]; [|by specialize (Hs _ (list_elem_of_here _ _))].
        split; [specialize (Hs _ (list_elem_of_here _ _)); congruence|]. apply Forall_forall. intros c Hin.
        specialize (Hs c (list_elem_of_further _ _ _ Hin)) as [= <-]. exists 0%nat. by rewrite app_nil_r.
      + exists (mkFile [] []). split; [done|]. split; [|done]. cbn.
        assert (c0 = None) as -> by (specialize (H1 None); set_solver). destruct Hc as [[? _]|[_ [-> _]]]; done.
    - destruct (now (jr (disk w))) as [f|] eqn:En; cbn; [intros; apply Hb; eauto|].
      assert (c0 = None) as -> by (specialize (H1 None); set_solver). destruct Hc as [[? _]|[_ [_ Hn]]]; [done|].
      intros g c Hg Hcg. apply elem_of_cons in Hg as [->|Hg]; set_solver.
    - by destruct (now (jr (disk w))). }
  assert (Hs : safe (disk w')) by (exact (at_safe _ _ _ _ _ _ (appending_at _ _ _ _ _ _ _ _ Hw') Hfits)).
  revert Hw' Hs. unfold w'. cbn. by destruct (now (jr (disk w))).
Qed.

Lemma appendFile_ok :
  triple (appending E data 0 bj nt bt j) (appendFile data)
    (fun r w => exists n fine, r = Ok (n, fine) /\ (n <= length data)%nat /\ appending E data n bj nt bt j w).
Proof.
  apply triple_sys. intros w ch Hw _ w'. destruct (writes ch data) as [n fine] eqn:Ew. cbn.
  assert (Hw' : appending E data n bj nt bt j w').
  { destruct Hw as [[f [H1 [H2 H3]]] H4 H5 H6 H7]. constructor; cbn; auto using sup_tail.
    rewrite H1. cbn. eexists. split; [done|]. cbn in H2. rewrite app_nil_r in H2. cbn. rewrite H2. split; [done|].
    apply Forall_app. split; [|done]. apply Forall_fmap, Forall_forall. intros k _. by exists k. }
  split; [|exact (at_safe _ _ _ _ _ _ (appending_at _ _ _ _ _ _ _ _ Hw') Hfits)].
  exists n, fine. split; [done|]. split; [|done].
  destruct ch; cbn in Ew; simplify_eq; lia.
Qed.

(** the sync fixes what is written *)
Lemma syncFile_ok n :
  triple (appending E data n bj nt bt j) syncFile
    (fun r => match r with Ok true => at_ {[Some (E ++ take n data)]} bj nt bt j | _ => appending E data n bj nt bt j end).
Proof.
  apply triple_sys. intros w ch Hw _ w'.
  assert (Herr : disk w' = disk w -> appending E data n bj nt bt j w' /\ safe (disk w')).
  { intros Ed. split; [by eapply appending_keep|]. rewrite Ed. eapply at_safe; [by apply appending_at in Hw|done]. }
  destruct ch; [|apply (Herr eq_refl)..]. clear Herr.
  assert (Hw' : at_ {[Some (E ++ take n data)]} bj nt bt j w').
  { destruct Hw as [[f [H1 [H2 H3]]] H4 H5 H6 H7]. unfold w'. constructor; cbn; auto using sup_tail.
    rewrite H1. split; cbn; [|done]. rewrite H2. set_solver. }
  split; [exact Hw'|]. refine (at_safe _ _ _ _ _ _ Hw' _). eapply fits_mono; [exact Hfits| |done]. apply union_mono_r.
  intros c ->%elem_of_singleton. by exists n.
Qed.

End Appends.

End Triples.

(** ** Limits *)

Abbreviation sumZ := (foldr Z.add 0).

(** the bytes of an entry in the file *)
Definition size (e : Entry) : Z := match encodeEntry e with Some data => len data | None => 0 end.
Definition total (es : list Entry) : Z := sumZ (size <$> es).

Lemma foldl_sumZ l a : foldl Z.add a l = a + sumZ l.
Proof. revert a. induction l as [|x l IH]; intros a; cbn; [lia|]. rewrite IH. lia. Qed.

Lemma size_nonneg e : 0 <= size e.
Proof. unfold size. case_match; lia. Qed.

Lemma total_cat l k : total (l ++ k) = total l + total k.
Proof. unfold total. rewrite fmap_app. induction (size <$> l) as [|x l' IH]; cbn; [lia|]. rewrite IH. lia. Qed.

Lemma total_nonneg l : 0 <= total l.
Proof. unfold total. induction l as [|x l IH]; cbn; [lia|]. pose proof (size_nonneg x). lia. Qed.

Lemma image_total es c : image es = Some c -> total es = len c.
Proof.
  revert c. induction es as [|e es IH]; intros c H.
  { by injection H as <-. }
  apply image_cons in H as [data [c' [E1 [E2 ->]]]]. unfold total in *. cbn. rewrite (IH _ E2). unfold size. rewrite E1, length_app. lia.
Qed.

Lemma image_app l k c : image (l ++ k) = Some c <-> exists c1 c2, image l = Some c1 /\ image k = Some c2 /\ c = c1 ++ c2.
Proof.
  revert c. induction l as [|e l IH]; intros c; cbn [app].
  - split; [intros H; exists [], c; done|]. intros [c1 [c2 [[= <-] [H ->]]]]. done.
  - rewrite image_cons. setoid_rewrite IH. setoid_rewrite image_cons. split.
    + intros (data & c' & E1 & (c1 & c2 & E2 & E3 & ->) & ->). exists (data ++ c1), c2. rewrite app_assoc. eauto 10.
    + intros (c1 & c2 & (data & c' & E1 & E2 & ->) & E3 & ->). exists data, (c' ++ c2). rewrite app_assoc. eauto 10.
Qed.

Lemma image_is_Some es : (exists c, image es = Some c) <-> Forall (fun e => exists data, encodeEntry e = Some data) es.
Proof.
  induction es as [|e es IH]; [split; [done|by exists []]|]. rewrite Forall_cons, <- IH. setoid_rewrite image_cons. naive_solver.
Qed.

Lemma mapM_sizes es sizes :
  mapM (fun e => (fun data : bytes => len data) <$> encodeEntry e) es = Some sizes ->
  sizes = size <$> es /\ exists c, image es = Some c.
Proof.
  rewrite image_is_Some. revert sizes. induction es as [|e es IH]; cbn; intros sizes H; [by injection H as <-|].
  destruct (encodeEntry e) as [data|] eqn:E; cbn in H; [|done].
  destruct (mapM _ es) as [s|] eqn:Em; cbn in H; [|done]. simplify_eq.
  destruct (IH s eq_refl) as [-> H2]. split; [|by constructor; eauto]. injection H as <-. f_equal. unfold size. by rewrite E.
Qed.

(** the loop drops the oldest entries while the rest is too big *)
Lemma evictLoop_spec es ret tot :
  evictLoop (zip es (size <$> es)) (total es) = (ret, tot) ->
  exists gone, es = gone ++ ret /\ tot = total ret /\
    (tot <= maxBytes \/ (length ret <= 1)%nat) /\ (forall older x, gone = older ++ [x] -> maxBytes < total (x :: ret)).
Proof.
  revert ret tot. induction es as [|e es IH]; intros ret tot H.
  { cbn in H. simplify_eq. exists []. split; [done|]. split; [done|]. split; [by right; cbn; lia|]. by intros [] ? ?. }
  assert (Hstop : (fst <$> zip (e :: es) (size <$> e :: es), total (e :: es)) = (ret, tot) ->
    (total (e :: es) <= maxBytes \/ es = []) ->
    exists gone, e :: es = gone ++ ret /\ tot = total ret /\ (tot <= maxBytes \/ (length ret <= 1)%nat) /\
      (forall older x, gone = older ++ [x] -> maxBytes < total (x :: ret))).
  { rewrite fst_zip by (by rewrite length_fmap). intros [= <- <-] Hs. exists []. split; [done|]. split; [done|].
    split; [destruct Hs as [?| ->]; cbn [length]; auto|]. by intros [] ? ?. }
  destruct es as [|e' es]; [apply Hstop; auto|]. cbn [fmap list_fmap zip zip_with evictLoop] in H, Hstop.
  destruct (maxBytes <? total (e :: e' :: es)) eqn:E; zb; [|apply Hstop; auto]. clear Hstop.
  replace (total (e :: e' :: es) - size e) with (total (e' :: es)) in H by (unfold total; cbn; lia).
  destruct (IH _ _ H) as (gone & E1 & E2 & E4 & E3). exists (e :: gone). rewrite E1. split; [done|]. split; [done|]. split; [done|].
  intros [|y older] x; cbn; intros [= <- Hg]; [|by apply (E3 older)]. subst gone. cbn in E1. by rewrite <- E1.
Qed.

(** what [retainWithinLimits] keeps: the newest entries that fit both limits *)
Lemma retain_spec es ret tot :
  retainWithinLimits es = Some (ret, tot) ->
  exists gone, es = gone ++ ret /\ len ret <= maxItems /\ tot = total ret /\ total ret <= maxBytes /\
    (exists c, image ret = Some c) /\
    (forall older x, gone = older ++ [x] -> maxItems < len (x :: ret) \/ maxBytes < total (x :: ret)).
Proof.
  unfold retainWithinLimits. set (kept := if maxItems <? len es then drop (Z.to_nat (len es - maxItems)) es else es).
  assert (Hk : exists old, es = old ++ kept /\ len kept <= maxItems /\ (old = [] \/ len kept = maxItems)).
  { unfold kept. destruct (maxItems <? len es) eqn:E; zb.
    - exists (take (Z.to_nat (len es - maxItems)) es). rewrite take_drop, length_drop. unfold maxItems in *. split; [done|]. lia.
    - exists []. auto with lia. }
  destruct Hk as [old [Ee [Hl Ho]]]. destruct (mapM _ kept) as [sizes|] eqn:Em; cbn; [|done].
  apply mapM_sizes in Em as [-> Hi]. rewrite foldl_sumZ. change (0 + sumZ (size <$> kept)) with (total kept).
  destruct (evictLoop _ _) as [r t] eqn:Ev. destruct (maxBytes <? t) eqn:Et; [done|]. intros [= -> ->]. zb.
  apply evictLoop_spec in Ev as (gone & E1 & -> & E4 & E3). exists (old ++ gone). rewrite <- app_assoc, <- E1. split; [done|].
  assert (len kept = len gone + len ret) by (rewrite E1, length_app; lia). split; [lia|]. split; [done|]. split; [done|]. split.
  { destruct Hi as [c Hc]. rewrite E1 in Hc. apply image_app in Hc as (c1 & c2 & _ & ? & _). eauto. }
  intros older x Hx. destruct gone as [|g gone _] using rev_ind.
  - rewrite app_nil_r in Hx. subst old. left. destruct Ho as [Ho|Ho]; [by destruct older|]. cbn in *. lia.
  - rewrite app_assoc in Hx. apply app_inj_tail in Hx as [<- <-]. right. by apply (E3 gone).
Qed.

Lemma retain_all es c :
  image es = Some c -> len es <= maxItems -> total es <= maxBytes -> retainWithinLimits es = Some (es, total es).
Proof.
  intros Hi Hl Ht. unfold retainWithinLimits. replace (maxItems <? len es) with false by (symmetry; apply Z.ltb_ge; lia).
  destruct (mapM _ es) as [sizes|] eqn:Em.
  - apply mapM_sizes in Em as [-> _]. cbn. rewrite foldl_sumZ. change (0 + sumZ (size <$> es)) with (total es).
    destruct (evictLoop _ _) as [r t] eqn:Ev. apply evictLoop_spec in Ev as (gone & E1 & -> & E4 & E3).
    destruct gone as [|g gone _] using rev_ind; [cbn in E1; subst r; by rewrite (proj2 (Z.ltb_ge _ _) Ht)|].
    specialize (E3 gone g eq_refl). rewrite <- app_assoc in E1. cbn in E1. rewrite E1, total_cat in Ht. pose proof (total_nonneg gone). lia.
  - exfalso. assert (Hs : exists c, image es = Some c) by eauto. rewrite image_is_Some in Hs. clear -Em Hs.
    induction Hs as [|e es [data Hd] _ IH]; cbn in Em; [done|]. rewrite Hd in Em. cbn in Em. destruct (mapM _ es); [done|]. by apply IH.
Qed.

(** a new entry that fits is kept *)
Lemma retain_new es e c :
  image (es ++ [e]) = Some c -> size e <= maxBytes -> exists ret, retainWithinLimits (es ++ [e]) = Some (ret, total ret).
Proof.
  intros Hi He. unfold retainWithinLimits. set (all := es ++ [e]) in *.
  set (kept := if maxItems <? len all then drop (Z.to_nat (len all - maxItems)) all else all).
  assert (Hk : exists k0, all = k0 ++ kept /\ exists es', kept = es' ++ [e]).
  { unfold kept. case_if; [|exists []; eauto]. zb. exists (take (Z.to_nat (len all - maxItems)) all). rewrite take_drop. split; [done|].
    unfold all in *. rewrite length_app in *. cbn [length] in *. unfold maxItems in *. rewrite drop_app_le by lia. eauto. }
  destruct Hk as (k0 & Ek & es' & Ek'). rewrite Ek in Hi. apply image_app in Hi as (_ & c2 & _ & Hi & _).
  destruct (mapM _ kept) as [sizes|] eqn:Em; cbn.
  - apply mapM_sizes in Em as [-> _]. rewrite foldl_sumZ. change (0 + sumZ (size <$> kept)) with (total kept).
    destruct (evictLoop _ _) as [r t] eqn:Ev. apply evictLoop_spec in Ev as (gone & E1 & -> & E4 & _). exists r.
    rewrite (proj2 (Z.ltb_ge _ _)); [done|]. destruct E4 as [?|Hl]; [done|]. destruct r as [|x [|]]; cbn in Hl; [done| |lia].
    rewrite Ek' in E1. apply app_inj_tail in E1 as [_ ->]. unfold total. cbn. lia.
  - exfalso. assert (Hs : exists c, image kept = Some c) by eauto. rewrite image_is_Some in Hs. clear -Em Hs.
    induction Hs as [|x l [data Hd] _ IH]; cbn in Em; [done|]. rewrite Hd in Em. cbn in Em. destruct (mapM _ l); [done|]. by apply IH.
Qed.

(** ** The operations under crashes *)

Section Operations.
Context (good : option bytes -> option bytes -> Prop).

Lemma get_ok nj bj nt bt j :
  triple good (at_ nj bj nt bt j) get (fun r w => r = Ok j /\ at_ nj bj nt bt j w).
Proof. intros w r w' Hw [= <- <-]. split; [split; [|done]|by exists []]. by destruct Hw as [_ _ -> _]. Qed.

(** [c0] is the journal file before: it holds [E], or it does not exist and [E] is empty *)
Lemma Append_ok c0 E bj nt bt es entry data ret tot R :
  let e := NormalizeEntry entry in
  image es = Some E -> encodeEntry e = Some data -> retainWithinLimits (es ++ [e]) = Some (ret, tot) -> image ret = Some R ->
  (c0 = Some E /\ bj = ∅) \/ (c0 = None /\ E = [] /\ bj = {[None]}) ->
  fits good {[c0; Some R]} (nt ∪ bt) ->
  (ret = es ++ [e] -> fits good (torn E data ∪ {[c0; Some R]} ∪ bj) (nt ∪ bt)) ->
  triple good (at_ {[c0]} ∅ nt bt (mkJournal es (len E))) (Append entry)
    (fun r w => match r with
                | Ok _ => at_ {[Some R]} bj nt bt (mkJournal ret (len R)) w
                | Err _ => mem w = mkJournal es (len E)
                end).
Proof.
  intros e Ee Ed Er ER Hc Hf0 Hf. unfold Append.
  eapply triple_bind; [apply get_ok| |by intros e' w [? _]]. intros j w r w' [[= ->] Hw]. revert w r w' Hw. cbn [entries bytes_]. fold e. rewrite Ed.
  destruct (maxBytes <? len data); [apply triple_throw; by intros w [_ _ ? _]|]. rewrite Er.
  destruct (retain_spec _ _ _ Er) as (gone & Eg & Hl & Et & Hb & _ & _).
  destruct (_ || _) eqn:Elim.
  { eapply triple_conseq; [eapply (compact_ok _ {[c0]} ∅ nt bt _ ret R ER)|done|].
    - eapply fits_mono; [exact Hf0|set_solver..].
    - intros [[]|] w Hw; [|by destruct Hw]. eapply at_mono; [exact Hw|set_solver..]. }
  zb. assert (gone = []) as ->.
  { assert (length ret = length (es ++ [e])) as Hlen by done. rewrite Eg, length_app in Hlen. destruct gone; [done|cbn in Hlen; lia]. }
  cbn in Eg. subst ret. specialize (Hf eq_refl). apply image_app in ER as (c1 & c2 & E1 & E2 & ->). simplify_eq.
  apply image_cons in E2 as (d' & c' & E2 & E3 & ->). injection E3 as <-. simplify_eq. rewrite app_nil_r in *.
  assert (Hf1 : fits good (torn E data ∪ bj) (nt ∪ bt)) by (eapply fits_mono; [exact Hf|set_solver..]).
  assert (Hmem : forall n w, appending E data n bj nt bt (mkJournal es (len E)) w -> mem w = mkJournal es (len E)) by (by intros n w []).
  eapply triple_bind; [apply (openAppend_ok _ E data bj nt bt _ Hf1 c0 ∅)|intros _u; cbn beta|by intros e' w []].
  { destruct Hc as [[-> ->]|[-> [-> ->]]]; [by left|right; split_and!; set_solver]. }
  eapply triple_bind.
  { unfold orClose. eapply triple_bind; [apply triple_try, (appending_ok _ E data bj nt bt _ Hf1 0)| |by intros].
    instantiate (1 := fun _ => appending E data 0 bj nt bt (mkJournal es (len E))). intros [u|e']; [by apply triple_ret|].
    eapply triple_bind; [apply triple_try, (appending_ok _ E data bj nt bt _ Hf1 0)|intros r; by apply triple_throw; destruct r|by intros]. }
  2: by intros e' w []. intros _u'. cbn beta.
  eapply triple_bind; [apply (appendFile_ok _ E data bj nt bt _ Hf1)| |by intros e' w (? & ? & ? & _)].
  intros wr w r w' (n & fine & [= ->] & Hn & Hw). revert w r w' Hw. cbn.
  destruct (negb fine || negb (bool_decide (n = length data))) eqn:Ew.
  { eapply (triple_bind _ _ _ _ (fun r w => r = Ok false /\ appending E data n bj nt bt (mkJournal es (len E)) w));
      [by apply triple_ret|intros b w r w' [[= ->] Hw]; revert w r w' Hw|by intros e' w [? _]].
    eapply triple_bind; [apply triple_try, (appending_ok _ E data bj nt bt _ Hf1 n)|intros r; apply triple_throw|by intros].
    destruct r; eauto. }
  zb. subst n.
  eapply triple_bind; [apply (syncFile_ok _ E data bj nt bt _ Hf1)|intros b; cbn beta iota|intros e1 w; apply Hmem].
  destruct b.
  - rewrite firstn_all. eapply triple_bind; [apply triple_try, ok_ok; eapply fits_mono; [exact Hf|set_solver..]| |by intros].
    intros [u|e']; cbn; [|by apply triple_throw; intros w []].
    eapply triple_conseq; [apply put_ok|by intros|]. intros r w [-> Hw]. by rewrite length_app, Nat2Z.inj_add.
  - eapply triple_bind; [apply triple_try, (appending_ok _ E data bj nt bt _ Hf1)|intros r; apply triple_throw|by intros].
    destruct r; eauto.
Qed.

Lemma Discard_ok c0 (E : bytes) es id c :
  let tn := tombImage {[id]} in
  id <> ""%string -> id ∈ ID <$> es -> image (filter (fun e => ID e <> id) es) = Some c ->
  fits good {[c0; Some c]} {[None; tn]} ->
  triple good (at_ {[c0]} ∅ {[None]} ∅ (mkJournal es (len E))) (Discard id)
    (fun r w => match r with
                | Ok _ => at_ {[Some c]} ∅ {[None; tn]} {[tn]} (mkJournal (filter (fun e => ID e <> id) es) (len c)) w
                | Err _ => mem w = mkJournal es (len E)
                end).
Proof.
  intros tn Hid Hin Ec Hf. unfold Discard. rewrite (proj2 (String.eqb_neq _ _) Hid).
  eapply triple_bind; [apply get_ok| |by intros e' w [? _]]. intros j w r w' [[= ->] Hw]. revert w r w' Hw. cbn [entries bytes_].
  rewrite bool_decide_true by (apply Exists_exists; apply list_elem_of_fmap in Hin; naive_solver).
  eapply triple_bind; [apply loadTombstones_ok; eapply fits_mono; [exact Hf|set_solver..]| |by intros e' w [[] _]].
  intros S w r w' [Hw HS]. destruct (HS _ eq_refl) as (t & ->%elem_of_singleton & [= <-]). revert w r w' Hw.
  eapply triple_conseq; [apply (withTombstones_ok good {[c0]} ∅ {[None]} ∅ (mkJournal es (len E)) _ c ∅ _ _ _ Ec)|done|].
  - rewrite (left_id_L ∅ (∪)). eapply fits_mono; [exact Hf|set_solver..].
  - rewrite (left_id_L ∅ (∪)). intros [[]|] w Hw; [|by destruct Hw]. exact Hw.
Qed.

Lemma Clear_ok c0 (E : bytes) es :
  let ids : gset string := list_to_set (filter (fun id => id <> ""%string) (ID <$> es)) in
  fits good {[c0; Some []]} {[None; tombImage ids]} ->
  triple good (at_ {[c0]} ∅ {[None]} ∅ (mkJournal es (len E))) Clear
    (fun r w => match r with
                | Ok _ => at_ {[Some []]} ∅ {[None; tombImage ids]} {[tombImage ids]} (mkJournal [] 0) w
                | Err _ => mem w = mkJournal es (len E)
                end).
Proof.
  intros ids Hf. unfold Clear.
  eapply triple_bind; [apply get_ok| |by intros e' w [? _]]. intros j w r w' [[= ->] Hw]. revert w r w' Hw. cbn [entries bytes_].
  eapply triple_bind; [apply loadTombstones_ok; eapply fits_mono; [exact Hf|set_solver..]| |by intros e' w [[] _]].
  intros S w r w' [Hw HS]. destruct (HS _ eq_refl) as (t & ->%elem_of_singleton & [= <-]). revert w r w' Hw.
  eapply triple_conseq; [apply (withTombstones_ok good {[c0]} ∅ {[None]} ∅ (mkJournal es (len E)) [] [] ∅ _ _ _ eq_refl)|done|].
  - rewrite (left_id_L ∅ (∪)). eapply fits_mono; [exact Hf|set_solver..].
  - rewrite (left_id_L ∅ (∪)). intros [[]|] w Hw; [|by destruct Hw]. exact Hw.
Qed.

End Operations.

(** ** Recovery *)

Definition plainText (s : string) : bool := utf8_valid (bytes_of_string s).

(** entries that JSON carries unchanged: well-formed text, a timestamp of 64 bits, details
    that [detailsOk] accepts *)
Definition plain (detailsOk : Any -> bool) (e : Entry) : bool :=
  forallb plainText [ID e; Kind e; Status e; Summary e; Host e; PaneID e; Agent e; Project e; RequestID e; Extract e; Session e]
  && (min_int64 <=? Timestamp e) && (Timestamp e <=? max_int64) && detailsOk (Details e).

(** what [encoding/json] documents: an object is on one line, its control characters are
    escaped, it contains its strings, none of its proper prefixes is an object, and it is
    read back; what was read has well-formed text and is written again *)
Class JsonLaws (detailsOk : Any -> bool) : Prop := {
  marshal_reread e : plain detailsOk e = true -> exists d, Marshal e = Some d /\ Unmarshal d = Some e;
  unmarshal_plain d e : Unmarshal d = Some e -> plain detailsOk e = true;
  marshal_line e d : Marshal e = Some d -> (newline ∉ d) /\ (13 ∉ d);
  marshal_id e d : Marshal e = Some d -> slen (ID e) < len d;
  marshal_prefix e d k : Marshal e = Some d -> (k < length d)%nat -> Unmarshal (take k d) = None }.

(** the entries that the next start finds in these files *)
Definition recovered (c t : option bytes) : option (list Entry) :=
  let? tombstones := tombs t in
  match c with
  | None => Some []
  | Some data =>
      if maxBytes * 4 <? len data then None else
      let? lines := scanLines data in
      fst <$> retainWithinLimits (NormalizeEntry <$> decodeLines tombstones lines)
  end.

Lemma splitByte_line sep d r : sep ∉ d -> splitByte sep (d ++ sep :: r) = d :: splitByte sep r.
Proof.
  induction d as [|b d IH]; intros H; cbn.
  - by rewrite ?Z.eqb_refl.
  - apply not_elem_of_cons in H as [Hb Hd]. rewrite (proj2 (Z.eqb_neq _ _)) by congruence. by rewrite IH.
Qed.

Lemma splitByte_last sep d : sep ∉ d -> splitByte sep d = [d].
Proof.
  induction d as [|b d IH]; intros H; cbn; [done|]. apply not_elem_of_cons in H as [Hb Hd].
  rewrite (proj2 (Z.eqb_neq _ _)) by congruence. by rewrite IH.
Qed.

Lemma splitByte_lines sep ls t :
  Forall (fun d => sep ∉ d) ls -> sep ∉ t ->
  splitByte sep (concat ((fun d => d ++ [sep]) <$> ls) ++ t) = ls ++ [t].
Proof.
  intros H Ht. induction H as [|d ls Hd _ IH]; cbn; [by apply splitByte_last|].
  rewrite <- !app_assoc. cbn. by rewrite splitByte_line, IH.
Qed.

Lemma dropEmptyLast_app ls t : Forall (fun d => d <> []) ls -> dropEmptyLast (ls ++ [t]) = ls ++ (if decide (t = []) then [] else [t]).
Proof.
  intros H. induction H as [|d ls Hd _ IH]; cbn.
  - by destruct t.
  - rewrite IH. destruct d as [|b d]; [done|]. by destruct (ls ++ [t]).
Qed.

Lemma dropCR_id d : 13 ∉ d -> dropCR d = d.
Proof.
  intros H. unfold dropCR. destruct (last d) as [z|] eqn:E; [|done].
  assert (z <> 13) by (intros ->; apply H; apply last_Some in E as [l ->]; set_solver).
  by repeat (case_match; try done).
Qed.

(** lines that end, then one that does not *)
Lemma scanLines_lines ls t :
  Forall (fun d => d <> [] /\ (newline ∉ d) /\ (13 ∉ d) /\ len d < maxBytes) ls -> newline ∉ t -> 13 ∉ t -> len t < maxBytes ->
  scanLines (concat ((fun d => d ++ [newline]) <$> ls) ++ t) = Some (ls ++ (if decide (t = []) then [] else [t])).
Proof.
  intros H Hn Hr Hl. unfold scanLines. rewrite splitByte_lines; [|by eapply Forall_impl; [done|naive_solver]|done].
  replace (forallb _ _) with true.
  - rewrite dropEmptyLast_app by (by eapply Forall_impl; [done|naive_solver]). f_equal. rewrite <- (list_fmap_id (ls ++ _)) at 2.
    apply list_fmap_ext. intros i d Hd. apply dropCR_id. apply list_elem_of_lookup_2, elem_of_app in Hd as [Hd|Hd].
    + rewrite Forall_forall in H. naive_solver.
    + case_match; set_solver.
  - symmetry. apply forallb_forall. intros d Hd. apply Z.ltb_lt. apply in_app_or in Hd as [Hd|[<-|[]]]; [|done].
    rewrite <- list_elem_of_In in Hd. rewrite Forall_forall in H. naive_solver.
Qed.

(** ** Normal entries *)

Lemma normalize_cut e :
  NormalizeEntry e = e \/ exists rs, NormalizeEntry e = setExtract e (string_of_bytes (concat rs)) /\ Forall DispatchBase.goodRune rs /\
    Forall bytes_ok rs /\ len rs = maxExtractChars.
Proof.
  unfold NormalizeEntry. case_if; [right|by left]. zb. eexists. split; [done|]. split; [apply Forall_take, DispatchBase.runes_good|].
  split; [apply Forall_take, DispatchBase.runes_bytes, bytes_of_string_ok|]. assert (0 <= maxExtractChars) by done. rewrite length_take. lia.
Qed.

(** a normal entry stays as it is *)
Lemma normalize_idem e : NormalizeEntry (NormalizeEntry e) = NormalizeEntry e.
Proof.
  destruct (normalize_cut e) as [E|(rs & -> & Hg & Hb & Hl)]; [by rewrite !E|]. unfold NormalizeEntry at 1. cbn [Extract setExtract].
  rewrite bytes_string_bytes by (by apply Forall_concat). destruct (DispatchBase.runes_concat _ Hg) as [-> _].
  rewrite Hl. by rewrite Z.ltb_irrefl.
Qed.

Lemma normalize_plain ok e : plain ok e = true -> plain ok (NormalizeEntry e) = true.
Proof.
  destruct (normalize_cut e) as [->|(rs & -> & Hg & Hb & Hl)]; [done|]. unfold plain. cbn.
  rewrite !andb_true_iff. intros H. split_and!; try naive_solver.
  unfold plainText. rewrite bytes_string_bytes by (by apply Forall_concat). apply (DispatchBase.runes_concat _ Hg).
Qed.

Lemma normalize_id e : ID (NormalizeEntry e) = ID e.
Proof. unfold NormalizeEntry. by case_if. Qed.

(** ** Files of entries *)

Definition cleanID (id : string) : bool :=
  negb (String.eqb id "") && String.eqb (TrimSpace id) id &&
  bool_decide (newline ∉ bytes_of_string id) && bool_decide (13 ∉ bytes_of_string id).

Section Recovery.
Context (detailsOk : Any -> bool) `{!JsonLaws detailsOk}.

Definition normal (e : Entry) : Prop := plain detailsOk e = true /\ NormalizeEntry e = e.
(** an entry as the journal keeps it *)
Definition entryOk (e : Entry) : Prop := normal e /\ cleanID (ID e) = true.

Lemma entryOk_normal es : Forall entryOk es -> Forall normal es.
Proof. intros H. eapply Forall_impl; [exact H|]. by intros e []. Qed.

Lemma plain_encode e : plain detailsOk e = true -> exists d, Marshal e = Some d /\ encodeEntry e = Some (d ++ [newline]).
Proof. intros H. destruct (marshal_reread e H) as [d [E _]]. exists d. unfold encodeEntry. by rewrite E. Qed.

Lemma plain_image es : Forall (fun e => plain detailsOk e = true) es ->
  exists ls, Forall2 (fun e d => Marshal e = Some d /\ Unmarshal d = Some e) es ls /\
             image es = Some (concat ((fun d => d ++ [newline]) <$> ls)).
Proof.
  intros H. induction H as [|e es He _ (ls & H1 & H2)]; [by exists []|]. destruct (marshal_reread e He) as [d [E1 E2]].
  exists (d :: ls). split; [by constructor|]. apply image_cons. exists (d ++ [newline]), (concat ((fun d => d ++ [newline]) <$> ls)).
  split; [unfold encodeEntry; by rewrite E1|]. by split.
Qed.

Lemma lines_fit es ls : Forall2 (fun e d => Marshal e = Some d /\ Unmarshal d = Some e) es ls -> total es <= maxBytes ->
  Forall (fun d => d <> [] /\ (newline ∉ d) /\ (13 ∉ d) /\ len d < maxBytes) ls.
Proof.
  intros H. induction H as [|e d es ls [E1 E2] _ IH]; intros Ht; [done|]. change (size e + total es <= maxBytes) in Ht.
  pose proof (total_nonneg es). pose proof (size_nonneg e). constructor; [|apply IH; lia].
  destruct (marshal_line e d E1). pose proof (marshal_id e d E1). unfold slen in *.
  assert (size e = len d + 1) by (unfold size, encodeEntry; rewrite E1; cbn; rewrite length_app; cbn; lia).
  split; [intros ->; cbn in *; lia|]. split_and!; [done..|lia].
Qed.

Lemma decode_lines S es ls : Forall2 (fun e d => Marshal e = Some d /\ Unmarshal d = Some e) es ls ->
  decodeLines S ls = filter (fun e => ID e ∉ S) es.
Proof.
  intros H. unfold decodeLines. f_equal. induction H as [|e d es ls [E1 E2] _ IH]; [done|]. cbn.
  pose proof (marshal_id e d E1). unfold slen in *. destruct d as [|b d]; [cbn in *; lia|]. by rewrite E2, IH.
Qed.

Lemma image_filter (P : Entry -> Prop) `{!forall e, Decision (P e)} es c :
  image es = Some c -> exists c', image (filter P es) = Some c' /\ total (filter P es) <= total es /\ (length (filter P es) <= length es)%nat.
Proof.
  revert c. induction es as [|e es IH]; intros c Hc; [by exists []|]. apply image_cons in Hc as (d & c1 & E1 & E2 & ->).
  destruct (IH _ E2) as (c' & E3 & E4 & E5). change (total (e :: es)) with (size e + total es). pose proof (size_nonneg e).
  rewrite filter_cons. case_decide; cbn [length]; [|exists c'; split; [done|lia]]. change (total (e :: filter P es)) with (size e + total (filter P es)).
  exists (d ++ c'). split; [apply image_cons; eauto|]. lia.
Qed.

(** a file of entries, perhaps with a line at its end that has no newline, and the
    tombstones [S]; [x] is what that line holds *)
Lemma scan_image es E tail x S :
  Forall normal (es ++ x) -> image es = Some E -> total (es ++ x) <= maxBytes ->
  (newline ∉ tail) -> (13 ∉ tail) -> len tail < maxBytes ->
  omap (fun line => match line with [] => None | _ => Unmarshal line end) [tail] = x ->
  exists lines, len (E ++ tail) <= maxBytes * 4 /\ scanLines (E ++ tail) = Some lines /\
    NormalizeEntry <$> decodeLines S lines = filter (fun e => ID e ∉ S) (es ++ x).
Proof.
  intros Hok HE Ht Hn Hr Hlen Hx.
  assert (Hok1 : Forall normal es) by (by apply Forall_app in Hok as [? _]).
  assert (Ht1 : total es <= maxBytes) by (rewrite total_cat in Ht; pose proof (total_nonneg x); lia).
  destruct (plain_image es) as (ls & H1 & H2); [by eapply Forall_impl; [done|intros e [? _]]|].
  rewrite H2 in HE. injection HE as <-. pose proof (image_total _ _ H2) as Htot.
  exists (ls ++ (if decide (tail = []) then [] else [tail])).
  split; [rewrite length_app; unfold maxBytes in *; lia|]. split; [by rewrite scanLines_lines by (done || by eapply lines_fit)|].
  assert (Hd : decodeLines S (ls ++ (if decide (tail = []) then [] else [tail])) = filter (fun e => ID e ∉ S) (es ++ x)).
  { rewrite filter_app, <- (decode_lines S es ls H1). unfold decodeLines. rewrite omap_app, filter_app. f_equal. f_equal.
    rewrite <- Hx. by case_decide; subst. }
  rewrite Hd. rewrite <- (list_fmap_id (filter _ _)) at 2. apply list_fmap_ext. intros i e He.
  apply list_elem_of_lookup_2, list_elem_of_filter in He as [_ He]. rewrite Forall_forall in Hok. by apply Hok.
Qed.

Lemma filter_fits (P : Entry -> Prop) `{!forall e, Decision (P e)} es :
  Forall normal es -> len es <= maxItems -> total es <= maxBytes ->
  exists c, image (filter P es) = Some c /\ len (filter P es) <= maxItems /\ total (filter P es) <= maxBytes.
Proof.
  intros Hok Hl Ht. destruct (plain_image es) as (ls & _ & H2); [by eapply Forall_impl; [done|intros e [? _]]|].
  destruct (image_filter P es _ H2) as (c' & E3 & E4 & E5). exists c'. split; [done|]. lia.
Qed.

Lemma recovered_whole es E t S :
  Forall normal es -> image es = Some E -> len es <= maxItems -> total es <= maxBytes -> tombs t = Some S ->
  recovered (Some E) t = Some (filter (fun e => ID e ∉ S) es).
Proof.
  intros Hok HE Hl Ht HS. destruct (scan_image es E [] [] S) as (lines & H1 & H2 & H3);
    rewrite ?app_nil_r in *; try done; try apply not_elem_of_nil.
  unfold recovered. rewrite HS. cbn. rewrite (proj2 (Z.ltb_ge _ _)) by lia. rewrite H2. cbn. rewrite H3.
  destruct (filter_fits (fun e => ID e ∉ S) es Hok Hl Ht) as (c' & E3 & E4 & E5). by rewrite (retain_all _ _ E3).
Qed.

(** ** Files of tombstones *)

Lemma sum_submseteq {A} (f : A -> Z) l k : (forall x, 0 <= f x) -> l ⊆+ k -> sumZ (f <$> l) <= sumZ (f <$> k).
Proof.
  intros Hf H. induction H; cbn; try lia. pose proof (Hf x). lia.
Qed.

Lemma filter_keeps {A} (P : A -> Prop) `{!forall x, Decision (P x)} (l : list A) : (forall x, x ∈ l -> P x) -> filter P l = l.
Proof.
  induction l as [|x l IH]; intros Hl; [done|]. rewrite filter_cons, decide_True by (apply Hl; set_solver).
  f_equal. apply IH. set_solver.
Qed.

Definition idBytes (id : string) : Z := slen id + 1.

(** tombstones that the journal can still read back *)
Definition tombsOk (S : gset string) : Prop :=
  (forall id, id ∈ S -> cleanID id = true) /\ sumZ (idBytes <$> elements S) <= maxBytes.

Lemma cleanID_spec id : cleanID id = true ->
  id <> ""%string /\ TrimSpace id = id /\ (newline ∉ bytes_of_string id) /\ (13 ∉ bytes_of_string id).
Proof. unfold cleanID. intros H. zb. split_and!; [by apply String.eqb_neq|by apply String.eqb_eq|done..]. Qed.

Lemma tombstoneIDs_perm S : tombsOk S -> tombstoneIDs S ≡ₚ elements S.
Proof.
  intros [H _]. unfold tombstoneIDs. rewrite merge_sort_Permutation.
  replace (filter _ (elements S)) with (elements S); [done|]. symmetry. apply filter_keeps.
  intros id Hid. apply elem_of_elements, H, cleanID_spec in Hid as (Hid & -> & _). done.
Qed.

Lemma tombs_image S : tombsOk S -> tombs (tombImage S) = Some S.
Proof.
  intros HS. pose proof (tombstoneIDs_perm S HS) as Hp. destruct HS as [Hc Hs]. unfold tombImage. case_bool_decide as He; [by subst|].
  set (ids := tombstoneIDs S) in *.
  assert (Hids : forall id, id ∈ ids -> cleanID id = true) by (intros id; rewrite Hp, elem_of_elements; auto).
  assert (Hsum : sumZ (idBytes <$> ids) <= maxBytes).
  { etrans; [|exact Hs]. apply sum_submseteq; [unfold idBytes, slen; lia|]. by rewrite Hp. }
  clear Hs. unfold tombs.
  assert (Hcat : concat ((fun id => bytes_of_string id ++ [newline]) <$> ids) =
                 concat ((fun d => d ++ [newline]) <$> (bytes_of_string <$> ids)) ++ []).
  { by rewrite app_nil_r, <- list_fmap_compose. }
  assert (Hlen : len (concat ((fun id => bytes_of_string id ++ [newline]) <$> ids)) = sumZ (idBytes <$> ids)).
  { clear. induction ids as [|id ids IH]; cbn; [done|]. rewrite !length_app, length_bytes_of_string. unfold idBytes at 1, slen. cbn. lia. }
  rewrite (proj2 (Z.ltb_ge _ _)) by lia. rewrite Hcat, scanLines_lines; [| |set_solver|set_solver|done].
  - cbn. f_equal. rewrite app_nil_r, <- list_fmap_compose.
    assert (((fun l => TrimSpace (string_of_bytes l)) ∘ bytes_of_string) <$> ids = ids) as ->.
    { rewrite <- (list_fmap_id ids) at 2. apply list_fmap_ext. intros i id Hid. cbn. rewrite string_bytes_string.
      apply list_elem_of_lookup_2 in Hid. by apply cleanID_spec, (Hids id). }
    rewrite filter_keeps by (intros id Hid; by apply cleanID_spec, (Hids id)).
    apply leibniz_equiv. intros id. rewrite elem_of_list_to_set, Hp. apply elem_of_elements.
  - apply Forall_fmap, Forall_forall. intros id Hid. cbn. destruct (cleanID_spec id (Hids id Hid)) as (H1 & _ & H2 & H3).
    split; [|split_and!; [done..|]].
    + intros E. apply H1. rewrite <- (string_bytes_string id), E. done.
    + rewrite length_bytes_of_string. assert (idBytes id <= sumZ (idBytes <$> ids)); [|unfold idBytes, slen in *; lia].
      apply list_elem_of_split in Hid as (l1 & l2 & ->). rewrite fmap_app. cbn. clear.
      assert (Hn : forall l, 0 <= sumZ (idBytes <$> l)) by (induction l as [|x l IH]; cbn; [lia|unfold idBytes at 1, slen; lia]).
      induction l1 as [|x l1 IH]; cbn; [specialize (Hn l2); lia|]. assert (0 <= idBytes x) by (unfold idBytes, slen; lia). lia.
Qed.

(** the ids of a journal within its limits fit the tombstones *)
Lemma ids_fit es (S : gset string) :
  Forall entryOk es -> total es <= maxBytes -> (forall id, id ∈ S -> id ∈ ID <$> es) -> tombsOk S.
Proof.
  intros Hok Ht HS. split.
  - intros id Hid. apply HS, list_elem_of_fmap in Hid as (e & -> & He). rewrite Forall_forall in Hok. by apply Hok.
  - assert (elements S ⊆+ ID <$> es) as Hsub.
    { apply NoDup_submseteq; [apply NoDup_elements|]. intros id. rewrite elem_of_elements. apply HS. }
    etrans; [apply (sum_submseteq idBytes (elements S) (ID <$> es)); [unfold idBytes, slen; lia|exact Hsub]|]. etrans; [|exact Ht].
    clear -Hok JsonLaws0. induction Hok as [|e es [[He _] _] _ IH]; [done|]. cbn [fmap list_fmap foldr]. change (total (e :: es)) with (size e + total es).
    destruct (plain_encode e He) as (d & E1 & E2). pose proof (marshal_id e d E1).
    assert (size e = len d + 1) by (unfold size; rewrite E2, length_app; cbn; lia). unfold idBytes at 1. fold (total es) in IH. change (list_fmap _ _ idBytes (list_fmap _ _ ID es)) with (idBytes <$> (ID <$> es)). lia.
Qed.

(** ** Calls that succeed *)

(** a call that succeeds and leaves the disk as it is *)
Definition quiet {A} (m : io A) (a : A) : Prop :=
  forall w, answers w = [] -> exists s, m w = (Ok a, mkWorld (mem w) (disk w) [] s).

Lemma ok_quiet e : quiet (ok e) tt.
Proof. intros [j d a s] Ha. cbn in Ha. subst. eexists. done. Qed.

Lemma quiet_bind {A B} (m : io A) (k : A -> io B) a b : quiet m a -> quiet (k a) b -> quiet (m ≫= k) b.
Proof.
  intros Hm Hk w Ha. destruct (Hm w Ha) as [s E]. unfold mbind, io_bind. rewrite E.
  destruct (Hk (mkWorld (mem w) (disk w) [] s) eq_refl) as [s' E']. rewrite E'. eauto.
Qed.

Lemma quiet_try {A} (m : io A) a : quiet m a -> quiet (try m) (Ok a).
Proof. intros Hm w Ha. destruct (Hm w Ha) as [s E]. unfold try. rewrite E. eauto. Qed.

Lemma quiet_ret {A} (a : A) : quiet (mret a) a.
Proof. intros [j d l s] Ha. cbn in Ha. subst. by exists s. Qed.

Lemma writeTemp_quiet t data : quiet (writeTemp t data) (t.1 ++ data, false).
Proof.
  intros [j d l s] Ha. cbn in Ha. subst. unfold writeTemp, sys. cbn. rewrite bool_decide_true by done. cbn. eauto.
Qed.

Lemma syncTemp_quiet t : quiet (syncTemp t) (t.1, true).
Proof. intros [j d l s] Ha. cbn in Ha. subst. eexists. done. Qed.

Lemma orClose_quiet {A} (m : io A) a : quiet m a -> quiet (orClose m) a.
Proof. intros Hm. eapply quiet_bind; [by apply quiet_try|]. apply quiet_ret. Qed.

Lemma writeEntries_quiet es c t : image es = Some c -> exists b, quiet (writeEntries t es) (t.1 ++ c, b).
Proof.
  revert c t. induction es as [|e es IH]; intros c t H.
  { injection H as <-. exists t.2. cbn. rewrite app_nil_r, <- surjective_pairing. apply quiet_ret. }
  apply image_cons in H as (data & c' & E1 & E2 & ->). destruct (IH c' (t.1 ++ data, false) E2) as [b Hb].
  exists b. cbn. rewrite E1. eapply quiet_bind; [apply orClose_quiet, writeTemp_quiet|]. cbn in Hb. by rewrite <- app_assoc in Hb.
Qed.

(** a call that succeeds and changes the world by [g] *)
Definition does {A} (m : io A) (a : A) (g : Journal * Disk -> Journal * Disk) : Prop :=
  forall w, answers w = [] -> exists s, m w = (Ok a, mkWorld (g (mem w, disk w)).1 (g (mem w, disk w)).2 [] s).

Lemma quiet_does {A B} (m : io A) (k : A -> io B) a b g : quiet m a -> does (k a) b g -> does (m ≫= k) b g.
Proof.
  intros Hm Hk w Ha. destruct (Hm w Ha) as [s E]. unfold mbind, io_bind. rewrite E.
  destruct (Hk (mkWorld (mem w) (disk w) [] s) eq_refl) as [s' E']. rewrite E'. eauto.
Qed.

Lemma does_bind {A B} (m : io A) (k : A -> io B) a b g h : does m a g -> does (k a) b h -> does (m ≫= k) b (fun x => h (g x)).
Proof.
  intros Hm Hk w Ha. destruct (Hm w Ha) as [s E]. unfold mbind, io_bind. rewrite E.
  destruct (Hk (mkWorld (g (mem w, disk w)).1 (g (mem w, disk w)).2 [] s) eq_refl) as [s' E']. rewrite E'. cbn.
  rewrite <- surjective_pairing. eauto.
Qed.

Lemma does_quiet {A B} (m : io A) (k : A -> io B) a b g : does m a g -> quiet (k a) b -> does (m ≫= k) b g.
Proof.
  intros Hm Hk w Ha. destruct (Hm w Ha) as [s E]. unfold mbind, io_bind. rewrite E.
  destruct (Hk (mkWorld (g (mem w, disk w)).1 (g (mem w, disk w)).2 [] s) eq_refl) as [s' E']. rewrite E'. eauto.
Qed.

Lemma does_try {A} (m : io A) a g : does m a g -> does (try m) (Ok a) g.
Proof. intros Hm w Ha. destruct (Hm w Ha) as [s E]. unfold try. rewrite E. eauto. Qed.

Lemma does_wrap {A} e (m : io A) a g : does m a g -> does (wrap e m) a g.
Proof. intros Hm w Ha. destruct (Hm w Ha) as [s E]. unfold wrap. rewrite E. eauto. Qed.

Lemma withTemp_does {A} (body : Temp -> io A) a g : does (body ([], false)) a g -> does (withTemp body) a g.
Proof.
  intros Hb. unfold withTemp. eapply quiet_does; [apply ok_quiet|].
  eapply does_quiet; [apply does_try; eapply quiet_does; [apply ok_quiet|exact Hb]|].
  eapply quiet_bind; [apply quiet_try, ok_quiet|]. apply quiet_ret.
Qed.

Lemma syncDirectory_does : does syncDirectory tt (fun x => (x.1, settle x.2)).
Proof. intros [j d l s] Ha. cbn in Ha. subst. eexists. done. Qed.

Definition fresh (c : bytes) : Slot := mkSlot (Some (mkFile c [])) [].

Lemma compact_does es c : image es = Some c ->
  does (compactEntriesLocked es) tt (fun x => (mkJournal es (len c), mkDisk (fresh c) (mkSlot (now (ts x.2)) []))).
Proof.
  intros Hc. apply withTemp_does. destruct (writeEntries_quiet es c ([], false) Hc) as [b Hb]. cbn in Hb.
  eapply quiet_does; [exact Hb|]. eapply quiet_does; [apply orClose_quiet, syncTemp_quiet|]. eapply quiet_does; [apply ok_quiet|].
  intros [j d l s] Ha. cbn in Ha. subst. eexists. done.
Qed.

Lemma does_ext {A} (m : io A) a g h : (forall x, g x = h x) -> does m a g -> does m a h.
Proof. intros E H w Ha. rewrite <- E. by apply H. Qed.

Lemma removeTombstones_does :
  does removeTombstones tt (fun x => (x.1, match now (ts x.2) with
    | Some f => mkDisk (jr x.2) (mkSlot None (Some f :: before (ts x.2))) | None => x.2 end)).
Proof.
  intros [j d l s] Ha. cbn in Ha. subst. unfold removeTombstones, sys. cbn. destruct (now (ts d)); by eexists.
Qed.

Lemma removeTombs_does :
  does (writeTombstonesLocked ∅) tt (fun x => (x.1, mkDisk (mkSlot (now (jr x.2)) []) (mkSlot None []))).
Proof.
  unfold writeTombstonesLocked. rewrite bool_decide_true by done.
  eapply does_ext; [|eapply does_bind; [apply removeTombstones_does|apply syncDirectory_does]].
  intros [j d]. unfold settle. cbn. by destruct (now (ts d)) eqn:E; cbn; rewrite ?E.
Qed.

(** ** Starting again *)

Definition restart (c t : option bytes) : World := mkWorld (mkJournal [] 0) (crashed c t) [] [].

(** a journal at rest: the file holds the entries in memory, or does not exist yet; there
    are no tombstones; nothing is left to sync *)
Record steady (es : list Entry) (w : World) : Prop := Steady {
  st_ok : Forall entryOk es;
  st_items : len es <= maxItems;
  st_bytes : total es <= maxBytes;
  st_disk : exists E c0, image es = Some E /\ (c0 = Some E \/ (c0 = None /\ es = [])) /\
    at_ {[c0]} ∅ {[None]} ∅ (mkJournal es (len E)) w }.

(** the next start finds [es] in these files *)
Definition reopens (c t : option bytes) (es : list Entry) : Prop :=
  exists w, OpenJournal (restart c t) = (Ok tt, w) /\ steady es w.

Lemma bind_run {A B} (m : io A) (k : A -> io B) w a w1 : m w = (Ok a, w1) -> (m ≫= k) w = k a w1.
Proof. intros E. unfold mbind, io_bind. by rewrite E. Qed.

Lemma loadTombstones_run w t S :
  answers w = [] -> contents <$> now (ts (disk w)) = t -> tombs t = Some S ->
  exists s, loadTombstones w = (Ok S, mkWorld (mem w) (disk w) [] s).
Proof.
  destruct w as [j d l s]. cbn. intros -> Ht HS. unfold loadTombstones.
  rewrite (bind_run _ _ _ t (mkWorld j d [] (d :: s))); [|unfold wrap, openRead, sys; cbn; by rewrite Ht].
  destruct t as [data|]; [|injection HS as <-; by eexists]. unfold tombs in HS.
  destruct (maxBytes <? len data); [done|]. destruct (scanLines data) as [lines|]; [|done]. injection HS as <-. by eexists.
Qed.

Lemma at_synced c j s : at_ {[c]} ∅ {[None]} ∅ j (mkWorld j (mkDisk (synced c) (mkSlot None [])) [] s).
Proof.
  constructor; cbn; [split; [|set_solver]|split; [|set_solver]|done|set_solver]; cbn; [|set_solver].
  destruct c as [c|]; cbn; set_solver.
Qed.

(** starting on a file whose entries, without the discarded ones, are [l] *)
Lemma load_run data t S lines l :
  tombs t = Some S -> len data <= maxBytes * 4 -> scanLines data = Some lines ->
  Forall entryOk l -> len l <= maxItems -> total l <= maxBytes -> NormalizeEntry <$> decodeLines S lines = l ->
  (S = ∅ -> total l = len data -> image l = Some data) -> (S = ∅ -> t = None) ->
  reopens (Some data) t l.
Proof.
  intros HS Hlen Hscan Hok Hl Ht Hdec Hsame Hnone.
  destruct (plain_image l) as (ls & _ & Hi); [by eapply Forall_impl; [done|intros e [[? _] _]]|].
  set (E := concat _) in Hi. pose proof (image_total _ _ Hi) as HtE.
  unfold reopens, OpenJournal. rewrite (bind_run _ _ _ tt (mkWorld (mkJournal [] 0) (crashed (Some data) t) [] [crashed (Some data) t])) by done.
  rewrite (bind_run _ _ _ tt (mkWorld (mkJournal [] 0) (crashed (Some data) t) [] [crashed (Some data) t; crashed (Some data) t])) by done.
  erewrite bind_run by done. cbn [mem disk answers seen].
  match goal with |- context [load ?w0] => destruct (loadTombstones_run w0 t S eq_refl) as [s1 E1]; [by destruct t|done|set (w := w0) in *] end.
  cbn [mem disk w] in E1. unfold load. rewrite (bind_run _ _ _ _ _ E1). clear E1 w.
  erewrite (bind_run (wrap "read activity journal" _) _ _ (Some data)) by done.
  erewrite bind_run by done. rewrite (proj2 (Z.ltb_ge _ _)) by lia. erewrite bind_run by done. rewrite Hscan, Hdec.
  rewrite (retain_all _ _ Hi Hl Ht). erewrite bind_run by done. cbn [mem disk answers seen tail].
  match goal with |- context [mkWorld _ _ [] ?s] => generalize s; intros s2 end.
  destruct (_ || _) eqn:Ecmp.
  - edestruct (compact_does l E Hi (mkWorld (mkJournal l (total l)) (crashed (Some data) t) [] s2) eq_refl) as [s3 E3].
    assert (E4 : forall e, wrap e compactLocked (mkWorld (mkJournal l (total l)) (crashed (Some data) t) [] s2) =
      (Ok tt, mkWorld (mkJournal l (len E)) (mkDisk (fresh E) (mkSlot ((fun c => mkFile c []) <$> t) [])) [] s3)).
    { intros e. unfold wrap, compactLocked. erewrite bind_run by done. cbn [mem entries]. rewrite E3. by destruct t. }
    rewrite (bind_run _ _ _ _ _ (E4 _)). clear Ecmp. case_bool_decide as Hs.
    + rewrite (Hnone Hs) in *. eexists. split; [done|]. constructor; [done..|]. exists E, (Some E). split; [done|]. split; [by left|].
      apply (at_synced (Some E)).
    + edestruct (does_wrap "clean recovered activity tombstones" _ _ _ removeTombs_does
        (mkWorld (mkJournal l (len E)) (mkDisk (fresh E) (mkSlot ((fun c => mkFile c []) <$> t) [])) [] s3) eq_refl) as [s5 E5].
      rewrite E5. eexists. split; [done|]. constructor; [done..|]. exists E, (Some E). split; [done|]. split; [by left|].
      apply (at_synced (Some E)).
  - zb. destruct (decide (S = ∅)) as [->|?]; [|done]. rewrite (Hnone eq_refl) in *. erewrite bind_run by done.
    rewrite bool_decide_true by done. eexists. split; [done|]. constructor; [done..|].
    assert (image l = Some data) as Hi2 by auto. exists data, (Some data). split; [done|]. split; [by left|].
    replace (total l) with (len data) by lia. apply (at_synced (Some data)).
Qed.

(** starting without a file *)
Lemma load_nofile t S : tombs t = Some S -> (S = ∅ -> t = None) -> reopens None t [].
Proof.
  intros HS Hnone. unfold reopens, OpenJournal. erewrite bind_run by done. erewrite bind_run by done. erewrite bind_run by done.
  cbn [mem disk answers seen tail].
  match goal with |- context [load ?w0] => destruct (loadTombstones_run w0 t S eq_refl) as [s1 E1]; [by destruct t|done|set (w := w0) in *] end.
  cbn [mem disk w] in E1. unfold load. rewrite (bind_run _ _ _ _ _ E1). clear E1 w. erewrite (bind_run (wrap "read activity journal" _) _ _ None) by done.
  cbn [mem disk answers seen tail].
  assert (Hst : forall s, steady [] (mkWorld (mkJournal [] 0) (mkDisk (synced None) (mkSlot None [])) [] s)).
  { intros s. constructor; [done|by unfold maxItems; cbn; lia|by unfold maxBytes; cbn; lia|].
    exists [], None. split; [done|]. split; [by right|]. apply (at_synced None). }
  case_bool_decide as Hs.
  - rewrite (Hnone Hs). eexists. split; [done|]. apply Hst.
  - match goal with |- context [wrap _ _ ?w0] => edestruct (does_wrap "clean orphaned activity tombstones" _ _ _ removeTombs_does w0 eq_refl) as [s5 E5] end.
    rewrite E5. eexists. split; [done|]. apply Hst.
Qed.

(** ** Recovery survives crashes *)

Lemma retained_normal ls S ret tot :
  retainWithinLimits (NormalizeEntry <$> decodeLines S ls) = Some (ret, tot) ->
  Forall normal ret /\ Forall (fun e => ID e ∉ S) ret.
Proof.
  intros H. apply retain_spec in H as (gone & E & _).
  assert (Hall : Forall (fun e => normal e /\ ID e ∉ S) (NormalizeEntry <$> decodeLines S ls)).
  { apply Forall_fmap, Forall_forall. intros e He. unfold decodeLines in He. apply list_elem_of_filter in He as [Hid He].
    apply list_elem_of_omap in He as (line & _ & He). cbn. rewrite normalize_id. split; [|done].
    split; [|apply normalize_idem]. apply normalize_plain. destruct line; [done|]. by eapply unmarshal_plain. }
  rewrite E in Hall. apply Forall_app in Hall as [_ Hall]. split; (eapply Forall_impl; [exact Hall|naive_solver]).
Qed.

Lemma OpenJournal_ok c t l j0 :
  recovered c t = Some l ->
  triple (fun c t => recovered c t = Some l) (at_ {[c]} ∅ {[t]} ∅ j0) OpenJournal
    (fun r w => forall u, r = Ok u -> entries (mem w) = l).
Proof.
  intros Hrec. set (good := fun c t => recovered c t = Some l).
  assert (Hf : fits good ({[c]} ∪ ∅) ({[t]} ∪ ∅)).
  { intros c' t' Hc Ht. assert (c' = c) as -> by set_solver. assert (t' = t) as -> by set_solver. done. }
  unfold OpenJournal. do 2 (eapply triple_bind; [by apply ok_ok|intros _u; cbn beta; clear _u|by intros]).
  eapply triple_bind; [apply put_ok| |by intros e w [? _]]. intros u w r w' [_ Hw]. revert w r w' Hw.
  unfold load. eapply triple_bind; [by apply loadTombstones_ok| |by intros].
  intros S w r w' [Hw HS]. destruct (HS S eq_refl) as (t' & ->%elem_of_singleton & Ht). clear HS. revert w r w' Hw.
  eapply triple_bind; [eapply triple_wrap; [by apply openRead_jr_ok|by intros e w [? _]]| |by intros].
  intros c' w r w' [Hw Hc]. specialize (Hc _ eq_refl) as ->%elem_of_singleton. revert w r w' Hw.
  unfold recovered in Hrec. rewrite Ht in Hrec. cbn in Hrec. destruct c as [data|].
  - destruct (maxBytes * 4 <? len data); [done|]. destruct (scanLines data) as [lines|] eqn:Es; [|done]. cbn in Hrec.
    destruct (retainWithinLimits _) as [[ret tot]|] eqn:Er; [|done]. injection Hrec as ->.
    destruct (retained_normal _ _ _ _ Er) as [Hn Hids]. destruct (retain_spec _ _ _ Er) as (gone & _ & Hl & -> & Hb & [E HE] & _).
    do 2 (eapply triple_bind; [by apply ok_ok|intros _u; cbn beta; clear _u|by intros]).
    eapply triple_bind; [apply put_ok| |by intros e w [? _]]. intros u1 w r w' [_ Hw]. revert w r w' Hw.
    assert (Hgood : forall t', tombs t' = Some S \/ tombs t' = Some ∅ -> good (Some E) t').
    { intros t' [H1|H1]; unfold good; erewrite recovered_whole by done; f_equal; apply filter_keeps; [by apply Forall_forall|set_solver]. }
    assert (Hf1 : fits good ({[Some E]} ∪ ({[Some data]} ∪ ∅)) ({[t]} ∪ ∅)).
    { intros c1 t1 Hc1 Ht1. assert (t1 = t) as -> by set_solver. assert (c1 = Some E \/ c1 = Some data) as [-> | ->] by set_solver; [by auto|].
      by apply Hf; set_solver. }
    eapply (triple_bind _ _ _ _ (fun r w => match r with
       | Ok _ => if bool_decide (S = ∅) then mem w = mkJournal l (total l) else at_ {[Some E]} ∅ {[t]} ∅ (mkJournal l (len E)) w
       | Err _ => True end)).
    + destruct (_ || _) eqn:Ecmp.
      * eapply triple_wrap; [|done]. unfold compactLocked. eapply triple_bind; [apply get_ok| |done].
        intros j w r w' [[= ->] Hw]. revert w r w' Hw. cbn [entries]. eapply triple_conseq; [exact (compact_ok good {[Some data]} ∅ {[t]} ∅ (mkJournal l (total l)) _ _ HE Hf1)|intros w Hw; exact Hw|].
        intros [u2|e] w Hw; [|done]. clear Ecmp. case_bool_decide; [|done]. destruct Hw as [_ _ -> _]. by rewrite (image_total _ _ HE).
      * apply triple_ret. intros w Hw. zb. destruct (decide (S = ∅)); [|done]. rewrite bool_decide_true by done. by destruct Hw.
    + intros u2. case_bool_decide; [apply triple_ret; by intros w -> u3 _|].
      eapply triple_wrap; [|by intros]. eapply triple_conseq; [apply writeTombstones_ok|intros w Hw; exact Hw|].
      * intros c1 t1 Hc1 Ht1. assert (c1 = Some E) as -> by set_solver. apply Hgood.
        assert (t1 = None \/ t1 = t) as [-> | ->]; [|by right|by left]. unfold tombImage in Ht1. rewrite bool_decide_true in Ht1 by done. set_solver.
      * intros [u3|e] w Hw; [|done]. intros u4 _. by destruct Hw as [_ _ -> _].
    + by intros.
  - injection Hrec as <-. case_bool_decide; [apply triple_ret; by intros w [_ _ -> _] u3 _|].
    eapply triple_wrap; [|by intros]. eapply triple_conseq; [apply writeTombstones_ok|intros w Hw; exact Hw|].
    + intros c1 t1 Hc1 Ht1. assert (c1 = None) as -> by set_solver. unfold tombImage in Ht1. rewrite bool_decide_true in Ht1 by done.
      assert (t1 = None \/ t1 = t) as [-> | ->] by set_solver; [done|]. unfold good, recovered. by rewrite Ht.
    + intros [u3|e] w Hw; [|done]. intros u4 _. by destruct Hw as [_ _ -> _].
Qed.

(** ** What the operations promise *)

Inductive op := OpAppend (entry : Entry) | OpClear | OpDiscard (id : string).

Definition runOp (o : op) : io unit :=
  match o with
  | OpAppend entry => Append entry
  | OpClear => Clear
  | OpDiscard id => Discard id
  end.

(** the journal as a list: append and keep what fits, remove all, remove one *)
Definition spec (o : op) (es : list Entry) : list Entry :=
  match o with
  | OpAppend entry => default es (fst <$> retainWithinLimits (es ++ [NormalizeEntry entry]))
  | OpClear => []
  | OpDiscard id => filter (fun e => ID e <> id) es
  end.

Definition opOk (o : op) : Prop :=
  match o with
  | OpAppend entry => plain detailsOk entry = true /\ cleanID (ID entry) = true /\ size (NormalizeEntry entry) <= maxBytes
  | _ => True
  end.

Lemma reopen_image es E tail x t S :
  Forall entryOk (es ++ x) -> image es = Some E -> len (es ++ x) <= maxItems -> total (es ++ x) <= maxBytes ->
  (newline ∉ tail) -> (13 ∉ tail) -> len tail < maxBytes ->
  omap (fun line => match line with [] => None | _ => Unmarshal line end) [tail] = x ->
  (total x = len tail -> tail = []) -> tombs t = Some S -> (S = ∅ -> t = None) ->
  reopens (Some (E ++ tail)) t (filter (fun e => ID e ∉ S) (es ++ x)).
Proof.
  intros Hok HE Hl Ht Hn Hr Hlen Hx Htail HS Hnone.
  destruct (scan_image es E tail x S (entryOk_normal _ Hok) HE Ht Hn Hr Hlen Hx) as (lines & H1 & H2 & H3).
  destruct (filter_fits (fun e => ID e ∉ S) (es ++ x) (entryOk_normal _ Hok) Hl Ht) as (c' & E3 & E4 & E5).
  eapply load_run; try done.
  - apply Forall_forall. intros e He. apply list_elem_of_filter in He as [_ He]. by eapply Forall_forall in Hok.
  - intros ->. rewrite filter_keeps by set_solver. rewrite total_cat, length_app, (image_total _ _ HE). intros Heq.
    assert (tail = []) as -> by (apply Htail; lia). cbn in Hx. subst x. by rewrite !app_nil_r.
Qed.

Lemma reopen_whole es E t S :
  Forall entryOk es -> image es = Some E -> len es <= maxItems -> total es <= maxBytes -> tombs t = Some S -> (S = ∅ -> t = None) ->
  reopens (Some E) t (filter (fun e => ID e ∉ S) es).
Proof.
  intros. pose proof (reopen_image es E [] [] t S) as H5. rewrite !app_nil_r in H5. apply H5; try done; apply not_elem_of_nil.
Qed.

Lemma tombs_single id : cleanID id = true -> idBytes id <= maxBytes -> tombs (tombImage {[id]}) = Some {[id]}.
Proof.
  intros Hc Hl. apply tombs_image. split; [by intros id' ->%elem_of_singleton|]. rewrite elements_singleton. cbn. lia.
Qed.

Lemma subseteq_take {A} k (l : list A) x : x ∈ take k l -> x ∈ l.
Proof. intros H. rewrite <- (take_drop k l). set_solver. Qed.

(** a crash while an entry is appended: it is there or it is not *)
Lemma reopen_torn es E e data c :
  Forall entryOk es -> image es = Some E -> entryOk e -> encodeEntry e = Some data ->
  len (es ++ [e]) <= maxItems -> total (es ++ [e]) <= maxBytes -> c ∈ torn E data ->
  reopens c None es \/ reopens c None (es ++ [e]).
Proof.
  intros Hok HE He Hd Hl Ht [k ->]. unfold encodeEntry in Hd. destruct (Marshal e) as [d|] eqn:Ed; [|done]. injection Hd as <-.
  destruct (marshal_line e d Ed) as [Hn Hr]. rewrite length_app, total_cat in *.
  assert (Hse : total [e] = len d + 1) by (unfold total, size, encodeEntry; cbn; rewrite Ed; cbn; rewrite length_app; cbn; lia).
  pose proof (total_nonneg es). pose proof (marshal_id e d Ed). unfold slen in *.
  assert (Hrd : Unmarshal d = Some e).
  { destruct (marshal_reread e) as (d' & E1 & E2); [apply He|]. rewrite Ed in E1. by injection E1 as <-. }
  destruct (decide (k < length d)%nat).
  - left. rewrite take_app_le by lia. pose proof (reopen_image es E (take k d) [] None ∅) as HR.
    rewrite app_nil_r, filter_keeps in HR by set_solver. apply HR; try done.
    + lia. + lia. + intros Hin. apply Hn. by eapply (subseteq_take k).
    + intros Hin. apply Hr. by eapply (subseteq_take k). + rewrite length_take. lia.
    + cbn. destruct (take k d) eqn:Etk; [done|]. rewrite <- Etk. by rewrite (marshal_prefix e d k).
    + intros Hz. change (total []) with 0 in Hz. by destruct (take k d).
  - right. destruct (decide (k = length d)) as [->|].
    + rewrite take_app_le, firstn_all by lia. pose proof (reopen_image es E d [e] None ∅) as HR. rewrite filter_keeps in HR by set_solver. apply HR; try done.
      * apply Forall_app. split; [done|]. by constructor.
      * rewrite length_app. lia.
      * rewrite total_cat. lia.
      * lia.
      * cbn. destruct d; [cbn in *; lia|]. by rewrite Hrd.
      * lia.
    + rewrite take_ge by (rewrite length_app; cbn; lia). pose proof (reopen_whole (es ++ [e]) (E ++ d ++ [newline]) None ∅) as HR. rewrite filter_keeps in HR by set_solver. apply HR; try done.
      * apply Forall_app. split; [done|]. by constructor.
      * apply image_app. exists E, (d ++ [newline]). split; [done|]. split; [|done]. apply image_cons. exists (d ++ [newline]), [].
        unfold encodeEntry. rewrite Ed, app_nil_r. done.
      * rewrite length_app. lia.
      * rewrite total_cat. lia.
Qed.

Lemma opOk_append entry : opOk (OpAppend entry) -> entryOk (NormalizeEntry entry).
Proof.
  intros (H1 & H2 & _). split; [split; [by apply normalize_plain|apply normalize_idem]|]. by rewrite normalize_id.
Qed.

Lemma filter_drops {A} (P : A -> Prop) `{!forall x, Decision (P x)} (l : list A) : (forall x, x ∈ l -> ~ P x) -> filter P l = [].
Proof.
  induction l as [|x l IH]; intros Hl; [done|]. rewrite filter_cons, decide_False by (apply Hl; set_solver). apply IH. set_solver.
Qed.

Section OneOperation.
Context (es : list Entry) (E : bytes) (c0 : option bytes).
Context (Hok : Forall entryOk es) (Hl : len es <= maxItems) (Ht : total es <= maxBytes) (HE : image es = Some E).
Context (Hc0 : c0 = Some E \/ (c0 = None /\ es = [])).

(** every crash during the operation finds the entries from before or those from after;
    when it is done and the file was there, those from after *)
Definition atomic (o : op) : Prop :=
  triple (fun c t => reopens c t es \/ reopens c t (spec o es)) (at_ {[c0]} ∅ {[None]} ∅ (mkJournal es (len E))) (runOp o)
    (fun r w => match r with
                | Ok _ => entries (mem w) = spec o es /\
                    (c0 = Some E -> forall c t, c ∈ possible (jr (disk w)) -> t ∈ possible (ts (disk w)) -> reopens c t (spec o es))
                | Err _ => entries (mem w) = es
                end).

Lemma reopens_start : reopens c0 None es.
Proof.
  destruct Hc0 as [->|[-> ->]]; [|by apply (load_nofile None ∅)].
  pose proof (reopen_whole es E None ∅) as HR. rewrite filter_keeps in HR by set_solver. by apply HR.
Qed.

Lemma append_atomic entry : opOk (OpAppend entry) -> atomic (OpAppend entry).
Proof.
  intros Ho. pose proof reopens_start as Hbase. unfold atomic. cbn [runOp]. set (good := fun c t => reopens c t es \/ _).
  pose proof (opOk_append entry Ho) as He. destruct Ho as (_ & _ & Hsz). set (e := NormalizeEntry entry) in *.
  destruct (plain_encode e) as (d & Ed & Eenc); [apply He|].
  assert (Hi : image (es ++ [e]) = Some (E ++ d ++ [newline])).
  { apply image_app. exists E, (d ++ [newline]). split; [done|]. split; [|done]. apply image_cons. exists (d ++ [newline]), [].
    by rewrite app_nil_r. }
  destruct (retain_new es e _ Hi Hsz) as [ret Er]. assert (Espec : spec (OpAppend entry) es = ret) by (cbn; fold e; by rewrite Er).
  destruct (retain_spec _ _ _ Er) as (gone & Eg & Hlr & _ & Htr & [R HR] & _).
  assert (Hokr : Forall entryOk ret).
  { assert (Hall : Forall entryOk (es ++ [e])) by (apply Forall_app; split; [done|by constructor]). rewrite Eg in Hall. by apply Forall_app in Hall as [_ ?]. }
  assert (Hreo : reopens (Some R) None ret).
  { pose proof (reopen_whole ret R None ∅) as HR'. rewrite filter_keeps in HR' by set_solver. by apply HR'. }
  set (bj := if decide (c0 = Some E) then (∅ : propset (option bytes)) else {[None]}).
  assert (Hgb : forall c t, c ∈ bj -> t ∈ ({[None]} ∪ ∅ : propset (option bytes)) -> good c t).
  { unfold bj. intros c t Hc Htn. assert (t = None) as -> by set_solver. case_decide; [set_solver|].
    assert (c = None) as -> by set_solver. left. destruct Hc0 as [?|[-> ->]]; done. }
  eapply triple_conseq; [eapply (Append_ok good c0 E bj {[None]} ∅ es entry (d ++ [newline]) ret (total ret) R)|intros w Hw; exact Hw|]; try done.
  - unfold bj. case_decide; [by left|]. right. destruct Hc0 as [?|[-> ->]]; [done|]. injection HE as <-. done.
  - intros c t Hc Htn. assert (t = None) as -> by set_solver. assert (c = c0 \/ c = Some R) as [-> | ->] by set_solver; [by left|].
    right. by rewrite Espec.
  - intros ->. intros c t Hc Htn. rewrite elem_of_union, elem_of_union in Hc. destruct Hc as [[Hc|Hc]|Hc]; [| |by apply Hgb].
    + assert (t = None) as -> by set_solver. unfold good. rewrite Espec. eapply (reopen_torn es E e (d ++ [newline])); try done.
    + assert (t = None) as -> by set_solver. assert (c = c0 \/ c = Some R) as [-> | ->] by set_solver; [by left|]. right. by rewrite Espec.
  - rewrite Espec. intros [u|e'] w Hw; [|by rewrite Hw]. split; [by destruct Hw as [_ _ -> _]|]. intros -> c t Hc Htn.
    unfold bj in Hw. rewrite decide_True in Hw by done. destruct Hw as [H1 H2 _ _].
    apply (slot_possible _ _ _ _ H1) in Hc. apply (slot_possible _ _ _ _ H2) in Htn.
    assert (t = None) as -> by set_solver. assert (c = Some R) as -> by set_solver. done.
Qed.

Lemma clear_atomic : atomic OpClear.
Proof.
  pose proof reopens_start as Hbase. unfold atomic. cbn [runOp]. set (good := fun c t => reopens c t es \/ _).
  set (ids := list_to_set (filter (fun id => id <> ""%string) (ID <$> es)) : gset string).
  assert (Htomb : tombs (tombImage ids) = Some ids).
  { apply tombs_image, (ids_fit es); [done..|]. intros id Hid. unfold ids in Hid. apply elem_of_list_to_set in Hid.
    by apply list_elem_of_filter in Hid as [_ ?]. }
  assert (Hnone : ids = ∅ -> tombImage ids = None) by (intros Hz; unfold tombImage; by rewrite bool_decide_true).
  assert (Hempty : forall t S, tombs t = Some S -> (S = ∅ -> t = None) -> reopens (Some []) t []).
  { intros t S HS Hn. apply (reopen_whole [] [] t S); try done. }
  assert (Hgone : forall t, t = None \/ t = tombImage ids -> reopens (Some []) t []).
  { intros t [-> | ->]; [by apply (Hempty _ ∅)|by apply (Hempty _ ids)]. }
  eapply triple_conseq; [eapply (Clear_ok good c0 E es)|intros w Hw; exact Hw|].
  - fold ids. intros c t Hc Htn. assert (t = None \/ t = tombImage ids) as Htn' by set_solver.
    assert (c = c0 \/ c = Some []) as [-> | ->] by set_solver; [|right; by apply Hgone].
    destruct Htn' as [-> | ->]; [by left|]. right. destruct Hc0 as [-> |[-> ->]]; [|by eapply load_nofile].
    pose proof (reopen_whole es E (tombImage ids) ids Hok HE Hl Ht Htomb Hnone) as HR.
    replace (filter (fun e => ID e ∉ ids) es) with ([] : list Entry) in HR; [done|]. symmetry. apply filter_drops. intros e He Hid. apply Hid, elem_of_list_to_set.
    apply list_elem_of_filter. split; [|by apply list_elem_of_fmap_2]. rewrite Forall_forall in Hok. by apply cleanID_spec, Hok.
  - fold ids. cbn [spec]. intros [u|e'] w Hw; [|by rewrite Hw]. split; [by destruct Hw as [_ _ -> _]|]. intros _ c t Hc Htn.
    destruct Hw as [H1 H2 _ _]. apply (slot_possible _ _ _ _ H1) in Hc. apply (slot_possible _ _ _ _ H2) in Htn.
    assert (c = Some []) as -> by set_solver. apply Hgone. set_solver.
Qed.

Lemma discard_atomic id : atomic (OpDiscard id).
Proof.
  pose proof reopens_start as Hbase. unfold atomic. cbn [runOp]. set (good := fun c t => reopens c t es \/ _).
  destruct (decide (id ∈ ID <$> es)) as [Hin|Hout].
  - assert (Hclean : cleanID id = true /\ idBytes id <= maxBytes).
    { assert (tombsOk {[id]}) as [H1 H2] by (eapply (ids_fit es); [done..|]; by intros id' ->%elem_of_singleton).
      rewrite elements_singleton in H2. cbn in H2. split; [apply H1; set_solver|lia]. }
    destruct Hclean as [Hclean Hsize]. pose proof (tombs_single id Hclean Hsize) as Htomb.
    assert (Hne : tombImage {[id]} = None -> ({[id]} : gset string) = ∅) by (unfold tombImage; by case_bool_decide).
    assert (Hnone : ({[id]} : gset string) = ∅ -> tombImage {[id]} = None) by set_solver.
    set (es' := filter (fun e => ID e <> id) es).
    destruct (filter_fits (fun e => ID e <> id) es (entryOk_normal _ Hok) Hl Ht) as (c & Ec & Hl' & Ht').
    assert (Hok' : Forall entryOk es').
    { apply Forall_forall. intros e He. apply list_elem_of_filter in He as [_ He]. by eapply Forall_forall in Hok. }
    assert (Hgone : forall t, t = None \/ t = tombImage {[id]} -> reopens (Some c) t es').
    { intros t [-> | ->]; [pose proof (reopen_whole es' c None ∅) as HR|pose proof (reopen_whole es' c _ _ Hok' Ec Hl' Ht' Htomb Hnone) as HR];
        (rewrite filter_keeps in HR; [by apply HR|]); [set_solver|]. intros e He. apply list_elem_of_filter in He as [? _]. set_solver. }
    eapply triple_conseq; [eapply (Discard_ok good c0 E es id c)|intros w Hw; exact Hw|]; try done.
    + by apply cleanID_spec.
    + intros c1 t Hc Htn. assert (t = None \/ t = tombImage {[id]}) as Htn' by set_solver.
      assert (c1 = c0 \/ c1 = Some c) as [-> | ->] by set_solver; [|right; by apply Hgone].
      destruct Htn' as [-> | ->]; [by left|]. right. destruct Hc0 as [-> |[-> ->]]; [|by eapply load_nofile].
      pose proof (reopen_whole es E _ _ Hok HE Hl Ht Htomb Hnone) as HR. cbn [spec].
      erewrite list_filter_iff; [exact HR|]. set_solver.
    + cbn [spec]. intros [u|e'] w Hw; [|by rewrite Hw]. split; [by destruct Hw as [_ _ -> _]|]. intros _ c1 t Hc Htn.
      destruct Hw as [H1 H2 _ _]. apply (slot_possible _ _ _ _ H1) in Hc. apply (slot_possible _ _ _ _ H2) in Htn.
      assert (c1 = Some c) as -> by set_solver. apply Hgone. set_solver.
  - assert (Hsame : spec (OpDiscard id) es = es).
    { cbn. apply filter_keeps. intros e He <-. by apply Hout, list_elem_of_fmap_2. }
    assert (Hdone : triple good (at_ {[c0]} ∅ {[None]} ∅ (mkJournal es (len E))) (Discard id)
      (fun r w => exists u, r = Ok u /\ at_ {[c0]} ∅ {[None]} ∅ (mkJournal es (len E)) w)).
    { unfold Discard. case_if; [apply triple_ret; eauto|]. eapply triple_bind; [apply get_ok| |by intros e w [? _]].
      intros j w r w' [[= ->] Hw]. revert w r w' Hw. cbn [entries]. rewrite bool_decide_false; [apply triple_ret; eauto|].
      intros (e & He & <-)%Exists_exists. by apply Hout, list_elem_of_fmap_2. }
    eapply triple_conseq; [exact Hdone|done|]. intros r w (u & -> & Hw). rewrite Hsame. split; [by destruct Hw as [_ _ -> _]|].
    intros -> c t Hc Htn. destruct Hw as [H1 H2 _ _]. apply (slot_possible _ _ _ _ H1) in Hc. apply (slot_possible _ _ _ _ H2) in Htn.
    assert (c = Some E) as -> by set_solver. assert (t = None) as -> by set_solver. done.
Qed.

Lemma op_atomic o : opOk o -> atomic o.
Proof. destruct o; auto using append_atomic, clear_atomic, discard_atomic. Qed.

End OneOperation.

(** ** The theorems *)

Lemma crashes_possible d c t : (c, t) ∈ crashes d -> c ∈ possible (jr d) /\ t ∈ possible (ts d).
Proof.
  unfold crashes. rewrite list_elem_of_bind. intros (c' & Hct & Hc). apply list_elem_of_bind in Hct as (t' & Hct & Ht). set_solver.
Qed.

Lemma at_crashed c t j ans s : Unsupported ∉ ans -> at_ {[c]} ∅ {[t]} ∅ j (mkWorld j (crashed c t) ans s).
Proof.
  intros Hs. constructor; cbn; [split; [|set_solver]|split; [|set_solver]|done|done]; cbn.
  - destruct c as [c|]; cbn; set_solver.
  - destruct t as [t|]; cbn; set_solver.
Qed.

(** C25: an operation on the journal is atomic under crashes.  From a journal at rest (the
    file holds exactly the entries in memory, or is not there yet when there are none; no
    tombstones and nothing unsynced, so no torn line of an earlier append that failed),
    on a file system that can sync directories, whatever the system calls answer
    otherwise: at every point where the program can stop or the power can fail the next
    start succeeds and finds the entries from before the operation or those from after
    it: a torn line is dropped, an entry that is being discarded does not come back
    alone, a cleared journal is never half cleared. *)
Theorem journal_crash_atomic es w o r w' :
  steady es w -> opOk o -> runOp o w = (r, w') ->
  exists new, seen w' = new ++ seen w /\
    forall d c t, d ∈ disk w :: new -> (c, t) ∈ crashes d -> reopens c t es \/ reopens c t (spec o es).
Proof.
  intros [Hok Hl Ht (E & c0 & HE & Hc0 & Hw)] Ho Hr.
  destruct (op_atomic es E c0 Hok Hl Ht HE Hc0 o Ho w r w' Hw Hr) as [_ (new & E1 & H1)]. exists new. split; [done|].
  intros d c t Hd Hct. apply crashes_possible in Hct as [Hc Htn]. apply elem_of_cons in Hd as [->|Hd].
  - left. destruct Hw as [H2 H3 _ _]. apply (slot_possible _ _ _ _ H2) in Hc. apply (slot_possible _ _ _ _ H3) in Htn.
    assert (c = c0) as -> by set_solver. assert (t = None) as -> by set_solver. by apply (reopens_start es E c0).
  - rewrite Forall_forall in H1. by apply (H1 d Hd).
Qed.

(** An operation that reports success is durable: memory has the entries from after it,
    and any later crash or loss of power leaves files from which the next start finds
    exactly those.  The file has to exist already.  An operation that reports an error
    leaves the entries in memory as they were. *)
Theorem journal_done_durable es w o r w' :
  steady es w -> is_Some (now (jr (disk w))) -> opOk o -> runOp o w = (r, w') ->
  match r with
  | Ok _ => entries (mem w') = spec o es /\ forall c t, (c, t) ∈ crashes (disk w') -> reopens c t (spec o es)
  | Err _ => entries (mem w') = es
  end.
Proof.
  intros [Hok Hl Ht (E & c0 & HE & Hc0 & Hw)] [f Hf] Ho Hr. assert (c0 = Some E) as ->.
  { destruct Hc0 as [?|[-> ->]]; [done|]. destruct Hw as [[H2 _] _ _ _]. specialize (H2 (Some (contents f))). rewrite Hf in H2. set_solver. }
  destruct (op_atomic es E _ Hok Hl Ht HE Hc0 o Ho w r w' Hw Hr) as [H1 _]. destruct r as [u|e]; [|done].
  destruct H1 as [H1 H2]. split; [done|]. intros c t [Hc Htn]%crashes_possible. by apply H2.
Qed.

(** Recovery can be interrupted.  If the next start would find certain entries in the
    files, then a start that fails or stops anywhere, on a disk that may lose power,
    leaves files in which the following start finds the same entries; a start that
    succeeds has them in memory. *)
Theorem recovery_stable c t l ans r w' :
  recovered c t = Some l -> Unsupported ∉ ans ->
  OpenJournal (mkWorld (mkJournal [] 0) (crashed c t) ans []) = (r, w') ->
  (forall d c' t', d ∈ seen w' -> (c', t') ∈ crashes d -> recovered c' t' = Some l) /\
  (r = Ok tt -> entries (mem w') = l).
Proof.
  intros Hrec Hs Hr. destruct (OpenJournal_ok c t l (mkJournal [] 0) Hrec _ r w' (at_crashed c t _ ans [] Hs) Hr) as [H1 (new & E1 & H2)].
  rewrite app_nil_r in E1. cbn in E1. split; [|intros ->; by apply (H1 tt)]. intros d c' t' Hd [Hc Htn]%crashes_possible.
  rewrite E1 in Hd. rewrite Forall_forall in H2. by apply (H2 d Hd).
Qed.

(** What the journal keeps is the longest run of its newest entries that has at most
    500 entries and 2 MiB, and the size it reports is theirs; it fails only when an entry
    cannot be encoded or the newest alone is too big. *)
Theorem retained_longest es :
  match retainWithinLimits es with
  | Some (ret, tot) =>
      (exists gone, es = gone ++ ret) /\ len ret <= maxItems /\ tot = total ret /\ total ret <= maxBytes /\
      forall gone' ret', es = gone' ++ ret' -> len ret' <= maxItems -> total ret' <= maxBytes -> (length ret' <= length ret)%nat
  | None => (exists e, e ∈ es /\ encodeEntry e = None) \/ (exists e, last es = Some e /\ maxBytes < size e)
  end.
Proof.
  destruct (retainWithinLimits es) as [[ret tot]|] eqn:Er.
  - destruct (retain_spec _ _ _ Er) as (gone & Eg & Hl & Htot & Hb & _ & Hmax). split_and!; eauto.
    intros gone' ret' Eg' Hl' Hb'. destruct (decide (length ret' <= length ret)%nat); [done|exfalso].
    destruct gone as [|x gone _] using rev_ind; [rewrite Eg' in Eg; cbn in Eg; subst ret; rewrite length_app in *; lia|].
    assert (Hsuf : exists y, ret' = y ++ x :: ret).
    { rewrite <- app_assoc in Eg. cbn in Eg. rewrite Eg' in Eg. apply app_eq_app in Eg as (y & [[-> Ey]|[-> Ey]]); [|by exists y].
      assert (y = []) as -> by (apply (f_equal length) in Ey; rewrite length_app in Ey; cbn in Ey; destruct y; [done|cbn in Ey; lia]).
      by exists []. }
    destruct Hsuf as [y ->]. rewrite length_app, total_cat in *. pose proof (total_nonneg y). destruct (Hmax gone x eq_refl); lia.
  - destruct (decide (Exists (fun e => encodeEntry e = None) es)) as [Hx|Hx]; [left; apply Exists_exists in Hx; naive_solver|right].
    assert (Hi : exists c, image es = Some c).
    { apply image_is_Some, Forall_forall. intros e He. destruct (encodeEntry e) eqn:Ee; [eauto|]. exfalso. apply Hx, Exists_exists. eauto. }
    destruct es as [|e es _] using rev_ind; [done|]. destruct Hi as [c Hi]. exists e. split; [by rewrite last_snoc|].
    apply Z.lt_nge. intros Hsz. destruct (retain_new es e c Hi Hsz) as [ret E]. congruence.
Qed.

End Recovery.
End Json.

(** ** A JSON that satisfies the laws *)

(** every byte as two letters, every field ended by a quotation mark, a brace at the end *)
Module ToyJson.

Abbreviation E := (@Entry unit).

Fixpoint nibbles (l : bytes) : bytes :=
  match l with
  | [] => []
  | b :: l => 65 + b / 16 :: 65 + b mod 16 :: nibbles l
  end.
Fixpoint unnibbles (l : bytes) : bytes :=
  match l with
  | a :: b :: l => ((a - 65) * 16 + (b - 65)) :: unnibbles l
  | _ => []
  end.

Definition fields (e : E) : list bytes :=
  nibbles <$> (be_encode 8 (u64 (Timestamp e)) :: (bytes_of_string <$>
    [ID e; Kind e; Status e; Summary e; Host e; PaneID e; Agent e; Project e; RequestID e; Extract e; Session e])).

Definition body (e : E) : bytes := concat ((fun f => f ++ [34]) <$> fields e).
Definition Marshal (e : E) : option bytes := Some (body e ++ [125]).

Definition strings (l : list bytes) : list string := (fun f => string_of_bytes (unnibbles f)) <$> l.

Definition Unmarshal (d : bytes) : option E :=
  match last d with
  | Some 125 =>
      match splitByte 34 (removelast d) with
      | [ts; f1; f2; f3; f4; f5; f6; f7; f8; f9; f10; f11; []] =>
          let s f := string_of_bytes (unnibbles f) in
          let e := mkEntry (s f1) (i64 (be_decode (unnibbles ts))) (s f2) (s f3) (s f4) (s f5) (s f6) (s f7) (s f8) (s f9) (s f10) (s f11) tt in
          if plain (fun _ => true) e && bool_decide (Marshal e = Some d) then Some e else None
      | _ => None
      end
  | _ => None
  end.

Lemma unnibbles_nibbles l : bytes_ok l -> unnibbles (nibbles l) = l.
Proof.
  intros H. induction H as [|b l Hb _ IH]; [done|]. cbn. rewrite IH. f_equal. pose proof (Z.div_mod b 16). lia.
Qed.

Lemma nibbles_range l : bytes_ok l -> Forall (fun b => 65 <= b < 81) (nibbles l).
Proof.
  intros H. induction H as [|b l Hb _ IH]; [done|]. cbn. unfold is_byte in Hb.
  assert (0 <= b / 16 < 16) by (split; [apply Z.div_pos; lia|apply Z.div_lt_upper_bound; lia]).
  pose proof (Z.mod_pos_bound b 16). constructor; [lia|]. constructor; [lia|done].
Qed.

Lemma fields_range e : Forall (Forall (fun b => 65 <= b < 81)) (fields e).
Proof.
  apply Forall_fmap, Forall_forall. intros f Hf. apply nibbles_range. apply elem_of_cons in Hf as [->|Hf]; [apply be_encode_bytes_ok|].
  apply list_elem_of_fmap in Hf as (s & -> & _). apply bytes_of_string_ok.
Qed.

Lemma body_range e : Forall (fun b => b = 34 \/ 65 <= b < 81) (body e).
Proof.
  apply Forall_concat, Forall_fmap. eapply Forall_impl; [apply fields_range|]. intros f Hf. cbn.
  apply Forall_app. split; [eapply Forall_impl; [exact Hf|]; auto|]. repeat constructor.
Qed.

Lemma i64_u64 z : min_int64 <= z <= max_int64 -> i64 (u64 z) = z.
Proof. unfold i64, u64, min_int64, max_int64. intros. rewrite Zplus_mod_idemp_l. rewrite Z.mod_small; lia. Qed.

Lemma reread e : plain (fun _ => true) e = true -> exists d, Marshal e = Some d /\ Unmarshal d = Some e.
Proof.
  intros Hp. eexists. split; [done|]. unfold Unmarshal. rewrite last_snoc, removelast_last, <- (app_nil_r (body e)).
  unfold body.
  rewrite splitByte_lines; [|eapply Forall_impl; [apply fields_range|]; intros f Hf Hin; rewrite Forall_forall in Hf; specialize (Hf _ Hin); lia|apply not_elem_of_nil].
  unfold fields. cbn [fmap list_fmap app]. rewrite !unnibbles_nibbles by (apply be_encode_bytes_ok || apply bytes_of_string_ok).
  rewrite !string_bytes_string, be_decode_encode_small.
  - destruct e as [i ts k st su h pa ag pr re ex se []]. cbn [ID Timestamp Kind Status Summary Host PaneID Agent Project RequestID Extract Session] in *.
    rewrite i64_u64; [rewrite Hp, bool_decide_true; [done|]; unfold Marshal, body; by rewrite ?app_nil_r|]. unfold plain in Hp. cbn -[plainText min_int64 max_int64] in Hp. zb. lia.
  - unfold u64. split; [apply Z.mod_pos_bound; lia|]. apply Z.mod_pos_bound. lia.
Qed.

Lemma Marshal_body e d : Marshal e = Some d -> d = body e ++ [125].
Proof. unfold Marshal. congruence. Qed.

#[export] Instance toy_laws : JsonLaws Marshal Unmarshal (fun _ => true).
Proof.
  split.
  - apply reread.
  - intros d e. unfold Unmarshal. repeat (case_match; try done). intros [= <-]. zb. done.
  - intros e d ->%Marshal_body. pose proof (body_range e) as H. rewrite Forall_forall in H.
    split; (intros [Hin|Hin]%elem_of_app; [specialize (H _ Hin); unfold newline in *; lia|apply list_elem_of_singleton in Hin; unfold newline in *; lia]).
  - intros e d ->%Marshal_body. unfold body, fields. cbn [fmap list_fmap concat]. unfold slen. rewrite !length_app, <- length_bytes_of_string.
    assert (H : forall l, (length l <= length (nibbles l))%nat) by (induction l as [|b l IH]; cbn; lia).
    specialize (H (bytes_of_string (ID e))). change (length [34]) with 1%nat. lia.
  - intros e d k ->%Marshal_body Hk. rewrite length_app in Hk. change (length [125]) with 1%nat in Hk. rewrite take_app_le by lia. unfold Unmarshal.
    destruct (last (take k _)) as [z|] eqn:El; [|done]. assert (z <> 125).
    { intros ->. apply last_Some in El as [l El]. pose proof (body_range e) as H. rewrite <- (take_drop k) in H. rewrite El in H.
      apply Forall_app in H as [H _]. apply Forall_app in H as [_ H]. apply Forall_cons in H as [H _]. lia. }
    by repeat (case_match; try done).
Qed.

End ToyJson.

(** ** Witnesses and runs *)

Section Runs.
Import ToyJson.

Let a : E := NewEntry tt 1000000 "finished" "done" "Finished" "p" "codex" "app" "".
Let b : E := NewEntry tt 2000000 "working" "working" "Working" "p" "codex" "app" "".

Let file (es : list E) : bytes := default [] (image Marshal es).
(** an opened journal with these entries; [ans] are the outcomes of its next system calls *)
Let opened (es : list E) (ans : list choice) : @World unit :=
  mkWorld (mkJournal es (len (file es))) (crashed (Some (file es)) None) ans [].

Lemma opened_steady ans : Unsupported ∉ ans -> steady Marshal (fun _ => true) [a] (opened [a] ans).
Proof.
  intros Ha. constructor.
  - constructor; [|done]. split; [split|]; vm_compute; reflexivity.
  - vm_compute. discriminate.
  - vm_compute. discriminate.
  - exists (file [a]), (Some (file [a])). split; [vm_compute; reflexivity|]. split; [by left|]. by apply (at_crashed Marshal Unmarshal (fun _ => true)).
Qed.

(** a discard whose rewrite of the journal fails *)
Let faults : list choice := repeat Fine 11 ++ [Fails 0].

Lemma journal_crash_witness :
  exists new, seen (runOp Marshal (OpDiscard "1000000-p") (opened [a] faults)).2 = new ++ [] /\
    forall d c t, d ∈ disk (opened [a] faults) :: new -> (c, t) ∈ crashes d ->
      reopens Marshal Unmarshal (fun _ => true) c t [a] \/ reopens Marshal Unmarshal (fun _ => true) c t [].
Proof.
  refine (journal_crash_atomic Marshal Unmarshal (fun _ => true) [a] (opened [a] faults) (OpDiscard "1000000-p")
    (runOp Marshal (OpDiscard "1000000-p") (opened [a] faults)).1 _ (opened_steady faults _) I _).
  - vm_compute. set_solver.
  - apply surjective_pairing.
Defined.

Lemma journal_done_witness :
  (runOp Marshal (OpAppend b) (opened [a] [])).1 = Ok tt /\
  entries (mem (runOp Marshal (OpAppend b) (opened [a] [])).2) = [a; b] /\
  forall c t, (c, t) ∈ crashes (disk (runOp Marshal (OpAppend b) (opened [a] [])).2) ->
    reopens Marshal Unmarshal (fun _ => true) c t [a; b].
Proof.
  split; [vm_compute; reflexivity|].
  refine (journal_done_durable Marshal Unmarshal (fun _ => true) [a] (opened [a] []) (OpAppend b) (Ok tt) _ (opened_steady [] _) _ _ _).
  - set_solver.
  - by eexists.
  - split_and!; vm_compute; done.
  - vm_compute. reflexivity.
Defined.

Let starting : @World unit :=
  mkWorld (mkJournal [] 0) (crashed (Some (file [a; b])) (tombImage {["1000000-p"%string]})) (repeat Fine 15 ++ [Fails 0]) [].

Lemma recovery_witness :
  recovered Marshal Unmarshal (Some (file [a; b])) (tombImage {["1000000-p"%string]}) = Some [b] /\
  (forall d c t, d ∈ seen (OpenJournal Marshal Unmarshal starting).2 -> (c, t) ∈ crashes d -> recovered Marshal Unmarshal c t = Some [b]).
Proof.
  split; [vm_compute; reflexivity|].
  refine (proj1 (recovery_stable Marshal Unmarshal (fun _ => true) (Some (file [a; b])) (tombImage {["1000000-p"%string]}) [b]
    (repeat Fine 15 ++ [Fails 0]) _ _ _ _ _)).
  - vm_compute. reflexivity.
  - vm_compute. set_solver.
  - apply surjective_pairing.
Defined.

(** A write that fails after some bytes leaves a torn line in the file; the next entry is
    written behind it on the same line.  Its append succeeds, and the next start has
    lost it. *)
Example torn_line_swallows_next :
  let r1 := Append Marshal b (opened [a] [Fine; Fine; Fails 3]) in
  let r2 := Append Marshal b r1.2 in
  r1.1 = Err "append activity journal"%string /\ r2.1 = Ok tt /\ entries (mem r2.2) = [a; b] /\
  recovered Marshal Unmarshal (contents <$> now (jr (disk r2.2))) None = Some [a].
Proof. vm_compute. split_and!; reflexivity. Qed.

(** The first append creates the file and syncs it, but not the directory: a loss of power
    may leave no file, and the entry whose append succeeded is gone. *)
Example first_append_unsynced :
  let r0 := OpenJournal Marshal Unmarshal (restart None None) in
  let r1 := Append Marshal a r0.2 in
  r1.1 = Ok tt /\ (None, None) ∈ crashes (disk r1.2) /\ recovered Marshal Unmarshal None None = Some [].
Proof. split_and!; [vm_compute; reflexivity| |vm_compute; reflexivity]. vm_compute. right. left. Qed.

End Runs.
End Journal.
