(* ===== verification/Gate.v ===== *)
(** The gate of the relay: the messages of a phone ([internal/protocol/protocol.go]), the
    handler that sends each to the component that serves it ([SetHandler] in
    [internal/app/server.go]), and the audit of remote writes ([server.go],
    [internal/audit/logger.go]).

    The handler is a function from a message to what it does, in order: replies, audit
    records, the signal that lets the next message in, and calls of the components.  What a
    component answers is not known here; a reply or an audit record that carries the answer
    follows the call.  [encoding/json] and SHA-256 are parameters. *)
From stdpp Require Import pretty.
From S2P Require Import Prelude GoLib GoText State Scheduler QuestionInput HerdrSessions DispatchBase Handlers.
#[local] Open Scope Z_scope.

Module Gate.
Import DispatchBase.

(** ** Protocol *)

Definition Version : Z := 2.
Definition EncryptedWebSocketSubprotocol : string := "herdr-e2ee-v1".
Definition HybridTransportCapability : string := "herdr-hybrid-v1".

Definition mutatingTypes : list string :=
  ["answer_question"; "clear_activities"; "navigate_question"; "respond"; "clarify_question"; "push_subscribe";
   "push_unsubscribe"; "push_agent_prefs"; "submit_prompt"; "prompt"; "send_keys"; "keys"; "send_text"; "text"; "send_secret";
   "agent_start"; "agent_rename"; "tab_reorder"; "agent_stop"; "agent_clear"; "agent_restart"; "workspace_create";
   "workspace_rename"; "workspace_reorder"; "workspace_close"; "worktree_create"; "worktree_open"; "worktree_remove";
   "acknowledge_pane"; "upload_image"; "register_app_origin"; "deploy_app_update"; "install_update"; "lease_pane_size";
   "board_rpc"; "release_pane_size"; "board_template_save"; "board_template_delete"; "board_template_apply";
   "board_template_brief"]%string.

(** the fields of a message besides its type and its protocol; a [json.RawMessage] is its
    bytes *)
Record Fields := mkFields {
  RequestID : string; PaneID : string; Text : string; Name : string; ProfileID : string; HerdrSession : string;
  Label : string; WorkspaceID : string; WorkspaceIDs : list string; BeforeWorkspaceID : string; Branch : string;
  Base : string; Force : bool; Cwd : string; Prompt : string; EventID : string; InteractionID : string;
  InsertIndex : option Z; Index : option Z; Total : option Z; Keys : list string; SelectedIndices : list Z;
  OtherSelected : bool; OtherText : string; Direction : string; Lines : Z; Before : string; Limit : Z; Columns : Z;
  Rows : Z; Format : string; Path : string; Filename : string; MIME : string; Data : string; ClientID : string;
  ReplaceEndpoints : list string; NotifyFinished : bool; PushAgentState : string; PushAgentMode : string;
  Endpoints : list string; Origin : string; ExpectedOrigin : string; ExpectedVersion : string;
  ExpectedRevision : string; Subscription : bytes; Method : string; Params : bytes; Template : bytes; BoardID : Z;
  Mode : string; Kind : string; Intent : string; Description : string; Save : bool }.

Record Inbound := mkInbound { Type_ : string; Protocol : Z; fields : Fields }.

Definition RequiresProtocol (messageType : string) : bool :=
  bool_decide (messageType ∈ mutatingTypes) && negb (String.eqb messageType "install_update").

Definition Compatible (m : Inbound) : bool := negb (RequiresProtocol (Type_ m)) || (Protocol m =? Version).

Definition obj (l : list (string * any)) : message := list_to_map l.

Definition IncompatibleResponse (m : Inbound) : message :=
  let version := if Protocol m =? 0 then "invalid"%string else pretty (Protocol m) in
  let publicError := ("Incompatible app protocol v" +:+ version +:+ "; relay requires v" +:+ pretty Version) in
  let f := fields m in
  if String.eqb (Type_ m) "upload_image" then
    obj [("type", AString "upload_result"); ("ok", ABool false); ("error", AString publicError); ("path", AString "");
         ("pane_id", AString (PaneID f)); ("request_id", AString (RequestID f))]
  else if String.eqb (Type_ m) "push_subscribe" then
    obj [("type", AString "push_subscribed"); ("ok", ABool false); ("error", AString publicError)]
  else if String.eqb (Type_ m) "push_unsubscribe" then
    obj [("type", AString "push_unsubscribed"); ("ok", ABool false); ("error", AString publicError)]
  else if String.eqb (Type_ m) "push_agent_prefs" then
    obj [("type", AString "push_agent_prefs_result"); ("ok", ABool false); ("error", AString publicError)]
  else
    obj [("type", AString "command_result"); ("request_id", AString (RequestID f)); ("action", AString (Type_ m));
         ("ok", ABool false); ("phase", AString "failed"); ("error", AString publicError)].

(** the type of a message, for a reply to one that does not decode *)
Definition failedType (raw : message) : string :=
  let messageType := stringValue raw "type" in
  let action := stringValue raw "action" in
  if negb (String.eqb action "") && (String.eqb messageType "" || String.eqb messageType "command") then action else messageType.

Definition DecodeFailureResponse (raw : message) : message :=
  let messageType := failedType raw in
  let requestID := stringValue raw "request_id" in
  let paneID := stringValue raw "pane_id" in
  let publicError := AString "Invalid request" in
  if String.eqb messageType "upload_image" then
    obj [("type", AString "upload_result"); ("ok", ABool false); ("error", publicError); ("path", AString "");
         ("pane_id", AString paneID); ("request_id", AString requestID)]
  else if String.eqb messageType "push_subscribe" then
    obj [("type", AString "push_subscribed"); ("ok", ABool false); ("error", publicError)]
  else if String.eqb messageType "push_unsubscribe" then
    obj [("type", AString "push_unsubscribed"); ("ok", ABool false); ("error", publicError)]
  else
    obj [("type", AString "command_result"); ("request_id", AString requestID); ("action", AString messageType);
         ("ok", ABool false); ("phase", AString "failed"); ("error", publicError)].

(** ** Classes of messages *)

Definition isAuditedWrite (action : string) : bool := bool_decide (action ∈
  ["submit_prompt"; "prompt"; "send_keys"; "keys"; "send_text"; "text"; "respond"; "answer_question"; "navigate_question";
   "clarify_question"; "agent_stop"; "agent_rename"; "tab_reorder"; "agent_start"; "agent_clear"; "agent_restart";
   "workspace_create"; "workspace_rename"; "workspace_reorder"; "workspace_close"; "worktree_create"; "worktree_open";
   "worktree_remove"; "upload_image"; "send_secret"]%string).

Definition isCoordinatorMutation (action : string) : bool := bool_decide (action ∈
  ["submit_prompt"; "prompt"; "send_keys"; "keys"; "send_text"; "text"; "respond"; "answer_question"; "navigate_question";
   "clarify_question"; "agent_stop"; "agent_rename"; "tab_reorder"; "acknowledge_pane"; "agent_start"; "agent_clear";
   "agent_restart"; "workspace_create"; "workspace_rename"; "workspace_reorder"; "workspace_close"; "worktree_create";
   "worktree_open"; "worktree_remove"; "lease_pane_size"; "release_pane_size"; "send_secret"]%string).

Definition auditAction (msg : message) : string :=
  let action := stringValue msg "type" in
  if String.eqb action "" || String.eqb action "command" then stringValue msg "action" else action.

Definition messageInt (wideInt : Z -> Z -> Z) (wideSame : Z -> Z -> bool) (value : any) (fallback : Z) : Z :=
  match value with
  | AInt z => z
  | AFloat m e => if isInt wideSame m e then intOfFloat wideInt m e else fallback
  | _ => fallback
  end.

(** ** What the handler does *)

(** the parts of the dispatcher that are called directly *)
Inductive topology :=
| WorkspaceCreate (session cwd label : string) | WorkspaceRename (id label : string)
| WorkspaceReorderBlock (ids : list string) (before : string) | WorkspaceReorder (id : string) (index : option Z)
| WorkspaceClose (id : string) | WorktreeList (id : string)
| WorktreeCreate (id branch base path label : string) | WorktreeOpen (id path branch label : string)
| WorktreeRemove (id : string) (force : bool).

(** a call of a component, with the arguments the handler gives it *)
Inductive call :=
| CheckUpdate
| InstallUpdate (version revision origin : string)
| DeployApp (version revision origin : string)
| Acquire (paneID : string) (columns rows : Z)
| Release (paneID : string)
| ReadPane (msg : message)
| WatchPane (msg : message)
| UnwatchPane (paneID : string)
| PaneApplied (msg : message)
| ConversationHistory (paneID before : string) (limit : Z)
| RecentActivities (limit : Z)
| ClearActivities (requestID : string)
| Upload (filename mime data : string)
| Topology (t : topology)
| ListDirectories (path : string)
| SlashCommands (requestID paneID : string)
| Inspect (kind paneID path : string)
| CopyResponse (requestID paneID : string)
| PushSubscribe (clientID : string) (replace : list string)
| PushPreferences (clientID mode paneID state : string)
| PushUnsubscribe (endpoints : list string) (clientID : string)
| RegisterOrigin (origin : string)
| BoardRPC (method : string) (params : bytes)
| BoardSubscribe | BoardUnsubscribe
| BoardTemplate (type_ : string)
| Refresh
| WebRTC (action : string)
(** [HandleAdmitted] when [admits], else [Handle] *)
| Dispatch (admits : bool) (msg : message).

Inductive act :=
(** [admitted()]: the hub takes the next message *)
| Admit
(** a reply that is known here *)
| Reply (r : message)
(** a record that a write was attempted, or its result *)
| AuditAttempt (msg : message) | AuditResult (msg : message)
| Call (c : call)
(** the reply with the answer of the call *)
| Answer.

Section Handler.
(** [encoding/json], from a decoded object to the struct *)
Context (Decode : message -> option (string * Z * Fields)).
(** is the method of the board a write *)
Context (boardMutating : string -> bool).
(** [float64] to [int], and whether deploying the app comes first *)
Context (wideInt : Z -> Z -> Z) (wideSame : Z -> Z -> bool) (deployAppFirst : bool).

Definition DecodeMap (raw : message) : option Inbound :=
  let? d := Decode raw in
  let '(typ, protocol, f) := d in
  let action := stringValue raw "action" in
  let typ := if negb (String.eqb action "") && (String.eqb typ "" || String.eqb typ "command") then action else typ in
  if String.eqb typ "" then None else Some (mkInbound typ protocol f).

Abbreviation one_of a l := (bool_decide (a ∈ (l : list string))).

Definition topologyOf (action : string) (f : Fields) : topology :=
  if String.eqb action "workspace_create" then WorkspaceCreate (HerdrSession f) (Cwd f) (Label f)
  else if String.eqb action "workspace_rename" then WorkspaceRename (WorkspaceID f) (Label f)
  else if String.eqb action "workspace_reorder" then
    (match WorkspaceIDs f with
     | _ :: _ => WorkspaceReorderBlock (WorkspaceIDs f) (BeforeWorkspaceID f)
     | [] => WorkspaceReorder (WorkspaceID f) (InsertIndex f)
     end)
  else if String.eqb action "workspace_close" then WorkspaceClose (WorkspaceID f)
  else if String.eqb action "worktree_list" then WorktreeList (WorkspaceID f)
  else if String.eqb action "worktree_create" then WorktreeCreate (WorkspaceID f) (Branch f) (Base f) (Path f) (Label f)
  else if String.eqb action "worktree_open" then WorktreeOpen (WorkspaceID f) (Path f) (Branch f) (Label f)
  else WorktreeRemove (WorkspaceID f) (Force f).

(** the [switch] of the handler *)
Definition serve (action : string) (f : Fields) (msg : message) : list act :=
  let auditResult := if isAuditedWrite action then [AuditResult msg] else [] in
  if String.eqb action "check_update" then [Call CheckUpdate; Answer]
  else if String.eqb action "install_update" then
    [Call (InstallUpdate (ExpectedVersion f) (ExpectedRevision f) (if deployAppFirst then ExpectedOrigin f else "")); Answer]
  else if String.eqb action "deploy_app_update" then
    [Call (DeployApp (ExpectedVersion f) (ExpectedRevision f) (ExpectedOrigin f)); Answer]
  else if String.eqb action "lease_pane_size" then [Call (Acquire (PaneID f) (Columns f) (Rows f)); Answer]
  else if String.eqb action "release_pane_size" then [Call (Release (PaneID f)); Answer]
  else if String.eqb action "read_pane" then [Call (ReadPane msg); Answer]
  else if String.eqb action "watch_pane" then [Call (WatchPane msg)]
  else if String.eqb action "unwatch_pane" then [Call (UnwatchPane (PaneID f))]
  else if String.eqb action "pane_applied" then [Call (PaneApplied msg)]
  else if String.eqb action "get_conversation_history" then
    [Call (ConversationHistory (PaneID f) (Before f) (Limit f)); Answer]
  else if String.eqb action "get_activity" then
    (let limit := messageInt wideInt wideSame (valueOf msg "limit") 500 in
     let limit := if (limit <? 1) || (500 <? limit) then 500 else limit in
     [Call (RecentActivities limit); Answer])
  else if String.eqb action "clear_activities" then [Call (ClearActivities (stringValue msg "request_id")); Answer]
  else if String.eqb action "upload_image" then
    [Call (Upload (stringValue msg "filename") (stringValue msg "mime") (stringValue msg "data")); Answer] ++ auditResult
  else if one_of action ["workspace_create"; "workspace_rename"; "workspace_reorder"; "workspace_close"; "worktree_list";
                         "worktree_create"; "worktree_open"; "worktree_remove"]%string then
    [Call (Topology (topologyOf action f))] ++ auditResult ++ [Answer]
  else if String.eqb action "list_directories" then [Call (ListDirectories (stringValue msg "path")); Answer]
  else if String.eqb action "list_slash_commands" then
    [Call (SlashCommands (stringValue msg "request_id") (stringValue msg "pane_id")); Answer]
  else if one_of action ["workspace_tree"; "workspace_file"; "workspace_git_status"; "workspace_git_diff"]%string then
    [Call (Inspect action (PaneID f) (Path f)); Answer]
  else if String.eqb action "copy_agent_response" then
    [Call (CopyResponse (stringValue msg "request_id") (stringValue msg "pane_id")); Answer]
  else if String.eqb action "push_subscribe" then [Call (PushSubscribe (ClientID f) (ReplaceEndpoints f)); Answer]
  else if String.eqb action "push_agent_prefs" then
    [Call (PushPreferences (ClientID f) (PushAgentMode f) (PaneID f) (PushAgentState f)); Answer]
  else if String.eqb action "push_unsubscribe" then [Call (PushUnsubscribe (Endpoints f) (ClientID f)); Answer]
  else if String.eqb action "register_app_origin" then [Call (RegisterOrigin (Origin f))]
  else if String.eqb action "board_rpc" then
    (if boardMutating (Method f) then [AuditAttempt msg] else []) ++ [Call (BoardRPC (Method f) (Params f)); Answer]
  else if String.eqb action "board_subscribe" then [Call BoardSubscribe]
  else if String.eqb action "board_unsubscribe" then [Call BoardUnsubscribe]
  else if one_of action ["board_template_list"; "board_template_get"; "board_template_save"; "board_template_delete";
                         "board_template_export"; "board_template_apply"; "board_template_brief"]%string then
    (if RequiresProtocol action then [AuditAttempt msg] else []) ++ [Call (BoardTemplate action); Answer]
  else if String.eqb action "refresh_agents" then [Answer; Call Refresh]
  else if one_of action ["webrtc_offer"; "webrtc_ice"; "webrtc_close"]%string then [Call (WebRTC action)]
  else [Call (Dispatch (isCoordinatorMutation action) msg)] ++ auditResult ++ [Answer].

(** the handler of [SetHandler]; the last [Admit] is [defer admitted()] *)
Definition handle (msg : message) : list act :=
  match DecodeMap msg with
  | None => [Admit; Reply (DecodeFailureResponse msg); Admit]
  | Some inbound =>
      if negb (Compatible inbound) then [Admit; Reply (IncompatibleResponse inbound); Admit]
      else
        let action := Type_ inbound in
        (if isAuditedWrite action then [AuditAttempt msg] else []) ++
        (if isCoordinatorMutation action then [] else [Admit]) ++
        serve action (fields inbound) msg ++ [Admit]
  end.

End Handler.

(** ** Audit records *)

(** [string(runes[:limit])] of the trimmed value *)
Definition boundedAuditString (value : string) (limit : Z) : string :=
  let value := TrimSpace value in
  let rs := runes (bytes_of_string value) in
  if len rs <=? limit then value else string_of_bytes (concat (take (Z.to_nat limit) rs)).

Definition auditInteger (v : any) : option Z :=
  match v with
  | AInt z => if 0 <=? z then Some z else None
  | AUint z => if z <=? max_int64 then Some z else None
  | AFloat m e =>
      if floatNonNeg m && floatAtMost m e (2 ^ 53) && ((0 <=? e) || (Z.rem m (2 ^ (- e)) =? 0))
      then Some (truncFloat m e) else None
  | _ => None
  end.

(** a loop that appends what [f] accepts and breaks when [limit] are collected *)
Fixpoint collect {A B} (limit : Z) (f : A -> option B) (acc : list B) (l : list A) : list B :=
  match l with
  | [] => acc
  | x :: l =>
      let acc := match f x with Some y => acc ++ [y] | None => acc end in
      if len acc =? limit then acc else collect limit f acc l
  end.

Definition stringLimits : list (string * Z) :=
  [("name", 256); ("label", 256); ("profile_id", 160); ("workspace_id", 160); ("before_workspace_id", 160);
   ("cwd", 1024); ("path", 1024); ("branch", 512); ("base", 512); ("filename", 512); ("mime", 128);
   ("activity_label", 256)]%string.

Definition nonEmptyText (v : any) (limit : Z) : option string :=
  match v with AString s => if String.eqb s "" then None else Some (boundedAuditString s limit) | _ => None end.
Definition anyText (v : any) (limit : Z) : option string :=
  match v with AString s => Some (boundedAuditString s limit) | _ => None end.

Definition set_if {A} (key : string) (f : A -> any) (v : option A) (d : message) : message :=
  match v with Some a => <[key := f a]> d | None => d end.
Definition set_list {A} (key : string) (f : list A -> any) (l : list A) (d : message) : message :=
  match l with [] => d | _ => <[key := f l]> d end.

Section Audit.
(** [json.Marshal] of a message, and the hexadecimal SHA-256 of bytes *)
Context (marshal : message -> option bytes) (sha256hex : bytes -> string).

Definition listOf (v : any) : list any :=
  match v with AList l => l | AStrings l => AString <$> l | _ => [] end.

Definition auditWriteDetails (msg : message) : message :=
  if String.eqb (auditAction msg) "send_secret" then
    set_if "text_bytes" AInt (match valueOf msg "text" with AString t => Some (slen t) | _ => None end) ∅
  else
    let d : message := ∅ in
    let d := match valueOf msg "method" with
             | AString method =>
                 if negb (String.eqb method "") && String.eqb (auditAction msg) "board_rpc"
                 then <["board_method" := AString (boundedAuditString method 80)]> d else d
             | _ => d
             end in
    let d := match marshal msg with
             | Some encoded => <["payload_bytes" := AInt (len encoded)]> (<["payload_sha256" := AString (sha256hex encoded)]> d)
             | None => d
             end in
    let d := foldl (fun d kl => set_if kl.1 AString (nonEmptyText (valueOf msg kl.1) kl.2) d) d stringLimits in
    let d := foldl (fun d key => set_if (key +:+ "_bytes") AInt
                      (match valueOf msg key with AString t => if String.eqb t "" then None else Some (slen t) | _ => None end) d)
                   d ["text"; "prompt"; "choice"; "data"]%string in
    let d := foldl (fun d key => set_if key AInt (auditInteger (valueOf msg key)) d) d
                   ["index"; "insert_index"; "total"; "_server_sequence"]%string in
    let d := set_if "force" ABool (match valueOf msg "force" with ABool b => Some b | _ => None end) d in
    let d := set_list "workspace_ids" AStrings
               (collect 32 (fun v => nonEmptyText v 160) [] (listOf (valueOf msg "workspace_ids"))) d in
    let d := set_list "keys" AStrings (collect 32 (fun v => anyText v 64) [] (listOf (valueOf msg "keys"))) d in
    set_list "selected_indices" AInts
      (match valueOf msg "selected_indices" with
       | AList l => collect 128 auditInteger [] l
       | AInts l => collect 128 (fun z => if 0 <=? z then Some z else None) [] l
       | _ => []
       end) d.

(** ** The record *)

Record Record_ := mkRecord {
  Stage : string; Action : string; r_RequestID : string; r_ClientID : string; ConnectionID : string; r_PaneID : string;
  Agent : string; Project : string; Session : string; Host : string; OK_ : option bool; Phase : string; Error_ : string;
  Details : message }.

(** [recordWriteAudit], before the record is written: [agent] is the agent of the pane *)
Definition writeRecord (connection : string) (agent : option State.AgentState) (msg : message) (result : option Scheduler.CommandResult) : Record_ :=
  let clientID := stringValue msg "client_id" in
  let clientID := if String.eqb clientID "" then "connection:" +:+ connection else clientID in
  let paneID := stringValue msg "pane_id" in
  let of_agent f := from_option (fun a => f (State.info a)) ""%string agent in
  let base stage ok phase error paneID details :=
    mkRecord stage (auditAction msg) (stringValue msg "request_id") clientID connection paneID
      (of_agent State.Agent) (of_agent State.Project) (of_agent State.Session) (of_agent State.Host) ok phase error details in
  match result with
  | None => base "attempt"%string None ""%string ""%string paneID (auditWriteDetails msg)
  | Some r => base "result"%string (Some (Scheduler.cr_OK r)) (Scheduler.cr_Phase r) (Scheduler.cr_Error r) (if String.eqb (Scheduler.cr_PaneID r) "" then paneID else Scheduler.cr_PaneID r) ∅
  end.

End Audit.

(** ** The log *)

Definition maxAuditBytes : Z := 5 * 1024 * 1024.
Definition maxRecordBytes : Z := 128 * 1024.
Definition maxRotations : nat := 3.

Definition clamp := boundedAuditString.

(** [record.Timestamp] is left to the encoder *)
Definition clampRecord (r : Record_) : Record_ :=
  mkRecord (clamp (Stage r) 32) (clamp (Action r) 80) (clamp (r_RequestID r) 160) (clamp (r_ClientID r) 160)
    (clamp (ConnectionID r) 160) (clamp (r_PaneID r) 160) (clamp (Agent r) 160) (clamp (Project r) 512) (clamp (Session r) 512)
    (clamp (Host r) 255) (OK_ r) (clamp (Phase r) 80) (clamp (Error_ r) 1000) (Details r).

(** what a name refers to; [Other] is a symbolic link, a directory, … *)
Inductive node := Missing | Regular (c : bytes) | Other.
(** the log and its rotations [.1], [.2], [.3] *)
Record Log := mkLog { current : node; rotated : list node }.

(** the outcome of a system call *)
Inductive outcome := Works | Breaks.

Definition move (from to : node) : node * node :=
  match from with Missing => (Missing, to) | _ => (Missing, from) end.

(** the names from the newest to the oldest, renamed from the oldest on; [works] are the
    outcomes of the renames, that of the log first; the result says whether all worked *)
Fixpoint renameAll (names : list node) (works : list bool) : list node * bool :=
  match names with
  | a :: ((b :: _) as rest) =>
      let '(rest, fine) := renameAll rest (tail works) in
      if negb fine then (a :: rest, false)
      else if default true (head works) then
        match rest with
        | b :: rest => let '(a, b) := move a b in (a :: b :: rest, true)
        | [] => (a :: rest, true)
        end
      else (a :: rest, false)
  | _ => (names, true)
  end.

(** [rotateIfNeeded]: [removed] and [works] are the outcomes of the removal and the renames *)
Definition rotateIfNeeded (l : Log) (nextBytes : Z) (removed : bool) (works : list bool) (synced : bool) : Log * bool :=
  match current l with
  | Missing => (l, true)
  | Other => (l, false)
  | Regular c =>
      if len c + nextBytes <=? maxAuditBytes then (l, true)
      else if negb removed then (l, false)
      else
        let kept := take (maxRotations - 1) (rotated l) ++ [Missing] in
        let '(names, fine) := renameAll (current l :: kept) works in
        match names with
        | c :: r => (mkLog c r, fine && synced)
        | [] => (l, false)
        end
  end.

(** [Append] of an encoded record: [opens] is whether the file could be opened, [written]
    how many bytes were written, [closes] whether sync and close worked *)
Definition appendLine (l : Log) (line : bytes) (removed : bool) (works : list bool) (synced opens : bool) (written : option nat) (closes : bool)
  : Log * bool :=
  if maxRecordBytes <? len line then (l, false) else
  let '(l, fine) := rotateIfNeeded l (len line) removed works synced in
  if negb fine then (l, false) else
  if negb opens then (l, false) else
  let add n := match current l with
               | Missing => Some (take n line)
               | Regular c => Some (c ++ take n line)
               | Other => None
               end in
  match add (default (length line) written) with
  | Some c => (mkLog (Regular c) (rotated l), bool_decide (written = None) && closes)
  | None => (l, false)
  end.

(** ** What the gate promises *)

(** [encoding/json]: a key that is a field is decoded into it *)
Class InboundLaws (Decode : message -> option (string * Z * Fields)) : Prop :=
  decode_type raw typ protocol f s :
    Decode raw = Some (typ, protocol, f) -> raw !! "type"%string = Some (AString s) -> typ = s.

(** the command the dispatcher reads in a message *)
Definition dispatched (msg : message) : string :=
  let action := stringValue msg "action" in
  if String.eqb action "" then stringValue msg "type" else action.

(** the type and the action do not name two commands *)
Definition agrees (msg : message) : Prop :=
  exists s, msg !! "type"%string = Some (AString s) /\
    (stringValue msg "action" = ""%string \/ stringValue msg "action" = s \/ s = "command"%string \/ s = ""%string).

Definition knownActions : list string :=
  ["submit_prompt"; "prompt"; "send_keys"; "keys"; "send_text"; "text"; "send_secret"; "respond"; "answer_question";
   "navigate_question"; "clarify_question"; "agent_stop"; "agent_rename"; "tab_reorder"; "acknowledge_pane"; "agent_start";
   "agent_clear"; "agent_restart"]%string.

(** a call that changes something on the computer *)
Definition changes (c : call) : bool :=
  match c with
  | DeployApp _ _ _ | Acquire _ _ _ | Release _ | ClearActivities _ | Upload _ _ _ | PushSubscribe _ _
  | PushPreferences _ _ _ _ | PushUnsubscribe _ _ | RegisterOrigin _ | BoardRPC _ _ => true
  | Topology (WorktreeList _) => false
  | Topology _ => true
  | BoardTemplate t => negb (bool_decide (t ∈ ["board_template_list"; "board_template_get"; "board_template_export"]%string))
  | _ => false
  end.

(** a literal member of a literal list *)
Ltac listed := apply list_elem_of_In; cbn; solve [repeat first [left; reflexivity | right]].

Section Promises.
Context (Decode : message -> option (string * Z * Fields)) `{!InboundLaws Decode} (boardMutating : string -> bool).
Context (wideInt : Z -> Z -> Z) (wideSame : Z -> Z -> bool) (deployAppFirst : bool).

Abbreviation handle_ := (handle Decode boardMutating wideInt wideSame deployAppFirst).
Abbreviation DecodeMap_ := (DecodeMap Decode).
Abbreviation serve_ := (serve boardMutating wideInt wideSame deployAppFirst).

Lemma agrees_dispatched msg m : agrees msg -> DecodeMap_ msg = Some m -> dispatched msg = Type_ m.
Proof.
  intros (s & Hs & Hag). unfold DecodeMap, dispatched. destruct (Decode msg) as [[[typ protocol] f]|] eqn:E; [|done].
  cbn. rewrite (decode_type _ _ _ _ _ E Hs). assert (stringValue msg "type" = s) as -> by (unfold stringValue, valueOf; by rewrite Hs).
  destruct (String.eqb_spec (stringValue msg "action") ""); cbn.
  - destruct (String.eqb s ""); [done|]. by intros [= <-].
  - destruct Hag as [?|[<- |[-> | ->]]]; [done| | |]; cbn; repeat case_match; intros; simplify_eq; done.
Qed.

Lemma agrees_audited msg m : agrees msg -> DecodeMap_ msg = Some m -> auditAction msg = Type_ m \/ Type_ m = "command"%string.
Proof.
  intros (s & Hs & Hag). unfold DecodeMap, auditAction. destruct (Decode msg) as [[[typ protocol] f]|] eqn:E; [|done].
  cbn. rewrite (decode_type _ _ _ _ _ E Hs). assert (stringValue msg "type" = s) as -> by (unfold stringValue, valueOf; by rewrite Hs).
  destruct (String.eqb_spec (stringValue msg "action") ""); cbn; destruct (String.eqb_spec s ""); cbn; try (by destruct (String.eqb s "")).
  all: destruct (String.eqb_spec s "command"); cbn; repeat case_match; intros; simplify_eq; auto.
Qed.

Definition templateTypes : list string :=
  ["board_template_list"; "board_template_get"; "board_template_save"; "board_template_delete"; "board_template_export";
   "board_template_apply"; "board_template_brief"]%string.

(** the types of the messages that lead to a call *)
Definition typesOf (c : call) : list string :=
  match c with
  | CheckUpdate => ["check_update"] | InstallUpdate _ _ _ => ["install_update"] | DeployApp _ _ _ => ["deploy_app_update"]
  | Acquire _ _ _ => ["lease_pane_size"] | Release _ => ["release_pane_size"] | ReadPane _ => ["read_pane"]
  | WatchPane _ => ["watch_pane"] | UnwatchPane _ => ["unwatch_pane"] | PaneApplied _ => ["pane_applied"]
  | ConversationHistory _ _ _ => ["get_conversation_history"] | RecentActivities _ => ["get_activity"]
  | ClearActivities _ => ["clear_activities"] | Upload _ _ _ => ["upload_image"]
  | Topology (WorktreeList _) => ["worktree_list"]
  | Topology _ => ["workspace_create"; "workspace_rename"; "workspace_reorder"; "workspace_close"; "worktree_create"; "worktree_open"; "worktree_remove"]
  | ListDirectories _ => ["list_directories"] | SlashCommands _ _ => ["list_slash_commands"]
  | Inspect _ _ _ => ["workspace_tree"; "workspace_file"; "workspace_git_status"; "workspace_git_diff"]
  | CopyResponse _ _ => ["copy_agent_response"] | PushSubscribe _ _ => ["push_subscribe"]
  | PushPreferences _ _ _ _ => ["push_agent_prefs"] | PushUnsubscribe _ _ => ["push_unsubscribe"]
  | RegisterOrigin _ => ["register_app_origin"] | BoardRPC _ _ => ["board_rpc"] | BoardSubscribe => ["board_subscribe"]
  | BoardUnsubscribe => ["board_unsubscribe"] | BoardTemplate t => if bool_decide (t ∈ templateTypes) then [t] else [] | Refresh => ["refresh_agents"]
  | WebRTC a => [a] | Dispatch _ _ => []
  end%string.

Ltac in_branch H :=
  apply list_elem_of_In in H; cbn [app In] in H;
  repeat match type of H with
  | context [In _ ((if ?b then _ else _) ++ _)] => destruct b; cbn [app In] in H
  | context [In _ (if ?b then _ else _)] => destruct b; cbn [app In] in H
  | _ \/ _ => destruct H as [H|H]
  | False => destruct H
  | Call _ = Call _ => injection H as <-
  | _ = _ => discriminate H
  end.

Lemma topologyOf_type action f :
  action ∈ ["workspace_create"; "workspace_rename"; "workspace_reorder"; "workspace_close"; "worktree_list";
            "worktree_create"; "worktree_open"; "worktree_remove"]%string ->
  action ∈ typesOf (Topology (topologyOf action f)).
Proof.
  rewrite list_elem_of_In. cbn [In]. intros H.
  repeat destruct H as [<-|H]; [..|done]; unfold topologyOf; cbn; try listed.
  destruct (WorkspaceIDs f); listed.
Qed.

(** where the handler makes a call, and what surrounds the one of the dispatcher *)
Lemma serve_calls action f msg c :
  Call c ∈ serve_ action f msg ->
  match c with
  | Dispatch a msg' => msg' = msg /\ a = isCoordinatorMutation action /\
      serve_ action f msg = [Call (Dispatch a msg)] ++ (if isAuditedWrite action then [AuditResult msg] else []) ++ [Answer]
  | _ => action ∈ typesOf c
  end.
Proof.
  unfold serve. cbv zeta.
  repeat (case_if; [intros H;
    first [match goal with E : String.eqb action _ = true |- _ => apply String.eqb_eq in E; subst action end; in_branch H; by apply list_elem_of_singleton
          |match goal with E : bool_decide _ = true |- _ => apply bool_decide_eq_true in E end; in_branch H;
           first [by apply topologyOf_type | assumption | by apply list_elem_of_singleton
                 | cbn; rewrite bool_decide_true by assumption; by apply list_elem_of_singleton]]|]).
  intros H. in_branch H; done.
Qed.

Lemma handle_inv msg c :
  Call c ∈ handle_ msg ->
  exists m, DecodeMap_ msg = Some m /\ Compatible m = true /\ Call c ∈ serve_ (Type_ m) (fields m) msg /\
    handle_ msg = (if isAuditedWrite (Type_ m) then [AuditAttempt msg] else []) ++
                  (if isCoordinatorMutation (Type_ m) then [] else [Admit]) ++ serve_ (Type_ m) (fields m) msg ++ [Admit].
Proof.
  unfold handle. destruct (DecodeMap_ msg) as [m|]; [|set_solver]. destruct (Compatible m) eqn:Ec; cbn; [|set_solver].
  intros H. exists m. split_and!; try done. rewrite !elem_of_app in H. destruct H as [H|[H|[H|H]]]; [| |done|set_solver].
  - case_match; set_solver.
  - case_match; set_solver.
Qed.

(** every action the dispatcher knows is gated, ordered and, but for acknowledgements,
    audited *)
Lemma known_classes : forallb (fun a =>
    RequiresProtocol a && isCoordinatorMutation a && (isAuditedWrite a || String.eqb a "acknowledge_pane")) knownActions = true.
Proof. vm_compute. reflexivity. Qed.

Lemma known_class a : a ∈ knownActions ->
  RequiresProtocol a = true /\ isCoordinatorMutation a = true /\ (isAuditedWrite a = true \/ a = "acknowledge_pane"%string).
Proof.
  intros H. pose proof known_classes as K. rewrite forallb_forall in K. apply list_elem_of_In, K in H. zb; split_and!; auto.
  right. by apply String.eqb_eq.
Qed.

(** an action the dispatcher does not know does nothing *)
Lemma unknown_route d env render wide same parse classify home name stamp ctx at_ requestID paneID action msg :
  action ∉ knownActions ->
  Handlers.route d env render wide same parse classify home name stamp ctx at_ requestID paneID action msg =
  ret (Scheduler.mkResult requestID action false "failed" "Unknown command" "" "" false).
Proof.
  intros H. unfold Handlers.route.
  assert (E : forall a, a ∈ knownActions -> String.eqb action a = false) by (intros a Ha; apply String.eqb_neq; intros ->; done).
  rewrite !E by (listed). done.
Qed.

Lemma dispatched_known env (d : Dispatcher) render parse classify home name stamp parseTime ctx now msg :
  dispatched msg ∉ knownActions ->
  sat (Handlers.Handle d env render wideInt wideSame parse classify home name stamp parseTime ctx now msg)
    (fun r evs => Scheduler.cr_OK r = false /\ Scheduler.cr_Error r = "Unknown command"%string /\ Forall (eq Looked) evs).
Proof.
  intros H. unfold Handlers.Handle. fold (dispatched msg).
  eapply (sat_bind _ _ (fun _ evs => Forall (eq Looked) evs)).
  - case_if; [by apply sat_ret|]. eapply (sat_bind _ _ (fun _ evs => Forall (eq Looked) evs)).
    + intros l. exists [Looked]. split; [done|]. by repeat constructor.
    + intros a. apply sat_ret. intros before Hb. by rewrite app_nil_r.
  - intros a. rewrite unknown_route by done. apply sat_ret. intros before Hb. by rewrite app_nil_r.
Qed.

(** C5: The gate guards the dispatcher.  For a message whose type is a text and whose
    action, if it has one, is the same command (or the type is [command] or empty): when
    it reaches the dispatcher it either carries the protocol version of the relay, is
    admitted in order, and, acknowledgements aside, is recorded in the audit before and
    after; or names no command, and the dispatcher answers that and does nothing. *)
Theorem gate_guards_dispatcher msg a msg' :
  agrees msg -> Call (Dispatch a msg') ∈ handle_ msg ->
  msg' = msg /\
  ((dispatched msg ∈ knownActions /\ a = true /\
    (exists m, DecodeMap_ msg = Some m /\ Protocol m = Version) /\
    (dispatched msg <> "acknowledge_pane"%string ->
     handle_ msg = [AuditAttempt msg; Call (Dispatch true msg); AuditResult msg; Answer; Admit])) \/
   (forall env d render parse classify home name stamp parseTime ctx now,
      sat (Handlers.Handle d env render wideInt wideSame parse classify home name stamp parseTime ctx now msg)
        (fun r evs => Scheduler.cr_OK r = false /\ Scheduler.cr_Error r = "Unknown command"%string /\ Forall (eq Looked) evs))).
Proof.
  intros Hag H. destruct (handle_inv _ _ H) as (m & Em & Ec & Hs & Eh). destruct (serve_calls _ _ _ _ Hs) as (-> & -> & Es).
  split; [done|]. pose proof (agrees_dispatched msg m Hag Em) as Ed.
  destruct (decide (dispatched msg ∈ knownActions)) as [Hk|Hk]; [left|right; intros; by apply dispatched_known].
  rewrite Ed in *. destruct (known_class _ Hk) as (K1 & K2 & K3). split; [done|]. split; [done|]. split.
  - exists m. split; [done|]. unfold Compatible in Ec. rewrite K1 in Ec. cbn in Ec. by zb.
  - intros Hack. destruct K3 as [K3|?]; [|done]. rewrite Eh, Es, K2, K3. done.
Qed.

(** Nothing on the computer changes for an app of another protocol version: whatever
    the message, every call of the handler that changes something follows a message that
    carries the version of the relay. *)
Theorem changes_need_protocol msg c :
  Call c ∈ handle_ msg -> changes c = true -> exists m, DecodeMap_ msg = Some m /\ Protocol m = Version.
Proof.
  intros H Hc. destruct (handle_inv _ _ H) as (m & Em & Ec & Hs & _). exists m. split; [done|].
  assert (Hr : RequiresProtocol (Type_ m) = true); [|unfold Compatible in Ec; rewrite Hr in Ec; cbn in Ec; by zb].
  apply serve_calls in Hs. clear -Hs Hc. set (action := Type_ m) in *. clearbody action.
  destruct c as [| | | | | | | | | | | | |[]| | | | | | | | | | | |t| | |]; try discriminate Hc; apply list_elem_of_In in Hs; cbn in Hs.
  all: repeat (destruct Hs as [<-|Hs]; [vm_compute; reflexivity|]); try done.
  case_bool_decide as Ht; [|done]. destruct Hs as [<-|[]]. apply list_elem_of_In in Ht. cbn in Ht.
  repeat (destruct Ht as [<-|Ht]; [first [discriminate Hc | vm_compute; reflexivity]|]). done.
Qed.

(** types that get no reply of their own: they start or stop something that sends later *)
Definition silentTypes : list string :=
  ["watch_pane"; "unwatch_pane"; "pane_applied"; "register_app_origin"; "board_subscribe"; "board_unsubscribe";
   "webrtc_offer"; "webrtc_ice"; "webrtc_close"]%string.

Definition answers_ (a : act) : bool := match a with Reply _ | Answer => true | _ => false end.

Lemma serve_answers action f msg : action ∉ silentTypes -> existsb answers_ (serve_ action f msg) = true.
Proof.
  intros H. assert (E : forall a, a ∈ silentTypes -> String.eqb action a = false) by (intros a Ha; apply String.eqb_neq; intros ->; done).
  unfold serve. cbv zeta. rewrite (bool_decide_false (action ∈ ["webrtc_offer"; "webrtc_ice"; "webrtc_close"]%string)).
  2: { intros Hin. apply H. revert Hin. rewrite !elem_of_cons. unfold silentTypes. rewrite !elem_of_cons. naive_solver. }
  rewrite (E "watch_pane"%string), (E "unwatch_pane"%string), (E "pane_applied"%string), (E "register_app_origin"%string),
    (E "board_subscribe"%string), (E "board_unsubscribe"%string) by listed.
  repeat case_if; rewrite ?existsb_app; cbn; rewrite ?orb_true_r; reflexivity.
Qed.

(** Every message lets the next one in, at the end at the latest and before any call of
    a component unless it is one of the coordinator's, and every message is answered,
    except those of the types that have no reply. *)
Theorem every_message_admitted msg :
  last (handle_ msg) = Some Admit /\
  (forall m, DecodeMap_ msg = Some m -> isCoordinatorMutation (Type_ m) = false ->
     exists before after, handle_ msg = before ++ Admit :: after /\ forall c, Call c ∉ before) /\
  (existsb answers_ (handle_ msg) = true \/ exists m, DecodeMap_ msg = Some m /\ Type_ m ∈ silentTypes).
Proof.
  unfold handle. destruct (DecodeMap_ msg) as [m|] eqn:Em; [|split_and!; [done|done|by left]].
  destruct (Compatible m); cbn [negb].
  - split_and!.
    + rewrite !app_assoc. apply last_snoc.
    + intros m' [= <-] ->. exists (if isAuditedWrite (Type_ m) then [AuditAttempt msg] else []), (serve_ (Type_ m) (fields m) msg ++ [Admit]).
      split; [done|]. intros c. case_match; set_solver.
    + destruct (decide (Type_ m ∈ silentTypes)); [eauto|left]. rewrite !existsb_app, serve_answers by done.
      by rewrite orb_true_l, !orb_true_r.
  - split_and!; [done| |by left]. intros m' [= <-] _. exists [], [Reply (IncompatibleResponse m); Admit]. split; [done|]. set_solver.
Qed.

End Promises.

(** ** Secrets and sizes of the audit *)

(** The audit does not know a secret: for a message whose command is [send_secret], and
    whose type and action do not name two commands, the details of the audit record are
    the length of the text and nothing else, whatever digest and encoding are used. *)
Theorem audit_keeps_secret Decode `{!InboundLaws Decode} m msg marshal sha :
  agrees msg -> DecodeMap Decode msg = Some m -> dispatched msg = "send_secret"%string ->
  auditWriteDetails marshal sha msg =
    match valueOf msg "text" with AString t => {["text_bytes"%string := AInt (slen t)]} | _ => ∅ end.
Proof.
  intros Hag Hm Hd. pose proof (agrees_dispatched Decode msg m Hag Hm) as E1. rewrite Hd in E1.
  assert (auditAction msg = "send_secret"%string) as E2.
  { destruct (agrees_audited Decode msg m Hag Hm) as [->|E2]; [done|]. by rewrite E2 in E1. }
  unfold auditWriteDetails. rewrite E2. cbn. by destruct (valueOf msg "text").
Qed.

Lemma collect_bound {A B} limit (f : A -> option B) acc l :
  len acc < limit -> len (collect limit f acc l) <= limit.
Proof.
  revert acc. induction l as [|x l IH]; intros acc H; cbn; [lia|]. destruct (f x); [rewrite length_app; cbn [length]|]; case_if; zb.
  - rewrite length_app in *. cbn in *. lia.
  - apply IH. rewrite length_app. cbn. lia.
  - lia.
  - apply IH. lia.
Qed.

Lemma collect_take {A B} limit (f : A -> option B) acc l :
  len acc < limit -> collect limit f acc l = take (Z.to_nat limit) (acc ++ omap f l).
Proof.
  revert acc. induction l as [|x l IH]; intros acc H; cbn; [rewrite app_nil_r, take_ge by lia; done|].
  destruct (f x) as [y|]; cbn [app]; [|rewrite (proj2 (Z.eqb_neq _ _)) by lia; by apply IH].
  rewrite length_app in *. cbn [length]. case_if; zb.
  - change (acc ++ y :: omap f l) with (acc ++ [y] ++ omap f l). rewrite (app_assoc acc [y] (omap f l)). symmetry. apply take_app_length'. rewrite length_app. cbn. lia.
  - rewrite IH by (rewrite length_app; cbn; lia). by rewrite <- app_assoc.
Qed.

(** the runes of text that was cut at a limit *)
Lemma bounded_runes s limit : 0 <= limit -> runeCount (boundedAuditString s limit) <= limit.
Proof.
  intros Hl. unfold boundedAuditString, runeCount. case_if; zb; [done|].
  rewrite bytes_string_bytes.
  - rewrite (proj1 (runes_concat _ (Forall_take _ _ _ (runes_good _)))). rewrite length_take. lia.
  - apply Forall_concat, Forall_take, runes_bytes, bytes_of_string_ok.
Qed.

Section AuditSize.
Context (marshal : message -> option bytes) (sha256hex : bytes -> string).
Context (Hsha : forall b, runeCount (sha256hex b) = 64).

Definition small (v : any) : Prop :=
  match v with
  | AString s => runeCount s <= 1024
  | AStrings l => len l <= 32 /\ Forall (fun s => runeCount s <= 160) l
  | AInts l => len l <= 128
  | AInt _ | ABool _ => True
  | _ => False
  end.

Lemma set_if_small {A} key (f : A -> any) v d :
  map_Forall (fun _ => small) d -> (forall a, v = Some a -> small (f a)) -> map_Forall (fun _ => small) (set_if key f v d).
Proof. intros Hd Hv. destruct v as [a|]; [|done]. apply map_Forall_insert_2; auto. Qed.

Lemma set_list_small {A} key (f : list A -> any) l d :
  map_Forall (fun _ => small) d -> small (f l) -> map_Forall (fun _ => small) (set_list key f l d).
Proof. intros Hd Hv. destruct l; [done|]. by apply map_Forall_insert_2. Qed.

Lemma foldl_small {A} (step : message -> A -> message) l d :
  map_Forall (fun _ => small) d -> (forall d x, x ∈ l -> map_Forall (fun _ => small) d -> map_Forall (fun _ => small) (step d x)) ->
  map_Forall (fun _ => small) (foldl step d l).
Proof. revert d. induction l as [|x l IH]; intros d Hd Hs; [done|]. cbn. apply IH; [apply Hs; [set_solver|done]|]. intros. apply Hs; [set_solver|done]. Qed.

Lemma texts_small (f : any -> option string) l limit : (forall v s, f v = Some s -> runeCount s <= 160) -> limit = 32 -> small (AStrings (collect limit f [] l)).
Proof.
  intros Hf ->. split; [by apply collect_bound|]. rewrite collect_take by done. cbn [app]. apply Forall_take, Forall_forall.
  intros s Hs. apply list_elem_of_omap in Hs as (v & _ & Hs). eauto.
Qed.

(** An audit record is small, whatever the phone sent: every text in its details has at
    most 1024 characters, lists of texts have at most 32 of at most 160, lists of numbers
    at most 128. *)
Theorem audit_details_bounded msg : map_Forall (fun _ => small) (auditWriteDetails marshal sha256hex msg).
Proof.
  unfold auditWriteDetails. case_if; [by apply set_if_small; [apply map_Forall_empty|]|]. cbv zeta.
  assert (Hb : forall s l, 0 <= l <= 1024 -> runeCount (boundedAuditString s l) <= 1024).
  { intros s l Hl. pose proof (bounded_runes s l ltac:(lia)). lia. }
  apply set_list_small; [|case_match; cbn; try lia; by apply collect_bound].
  apply set_list_small; [|apply texts_small; [|done]; intros v s; unfold anyText; case_match; try done; intros [= <-]; pose proof (bounded_runes s0 64); lia].
  apply set_list_small; [|apply texts_small; [|done]; intros v s; unfold nonEmptyText; repeat case_match; try done; intros [= <-]; apply bounded_runes; lia].
  apply set_if_small; [|by intros]. apply foldl_small; [|intros d k _ Hd; apply set_if_small; by intros].
  apply foldl_small; [|intros d k _ Hd; apply set_if_small; by intros].
  apply foldl_small.
  - repeat case_match; repeat apply map_Forall_insert_2; try apply map_Forall_empty; cbn; try done; try (rewrite Hsha; lia); apply Hb; lia.
  - intros d k Hk Hd. apply set_if_small; [done|]. intros s. unfold nonEmptyText. repeat case_match; try done. intros [= <-].
    cbn. apply Hb. assert (Forall (fun kl : string * Z => 0 <= kl.2 <= 1024) stringLimits) as Hall by (repeat constructor; cbn; lia).
    rewrite Forall_forall in Hall. by apply Hall.
Qed.

End AuditSize.

(** ** Rotation *)

Lemma renameAll_cons a b names works :
  renameAll (a :: b :: names) works =
    let '(rest, fine) := renameAll (b :: names) (tail works) in
    if negb fine then (a :: rest, false)
    else if default true (head works) then
      match rest with b :: rest => let '(a, b) := move a b in (a :: b :: rest, true) | [] => (a :: rest, true) end
    else (a :: rest, false).
Proof. done. Qed.

Lemma renameAll_perm names works names' fine :
  renameAll names works = (names', fine) -> last names = Some Missing ->
  names' ≡ₚ names /\ length names' = length names /\ (fine = true -> exists l, names = l ++ [Missing] /\ names' = Missing :: l).
Proof.
  revert works names' fine. induction names as [|a names IH]; intros works names' fine E Hl; [done|].
  destruct names as [|b names]; [cbn in Hl, E; simplify_eq; split; [done|]; split; [done|]; intros _; by exists []|].
  rewrite renameAll_cons in E. destruct (renameAll (b :: names) (tail works)) as [rest f1] eqn:E1.
  assert (Hl' : last (b :: names) = Some Missing) by done. destruct (IH _ _ _ E1 Hl') as (P1 & L1 & F1).
  destruct f1; cbn [negb] in E; [|injection E as <- <-; split; [by rewrite P1|]; split; [cbn; by rewrite L1|done]].
  destruct (F1 eq_refl) as (l & El & ->). destruct (default true (head works)).
  - assert (E2 : (Missing :: a :: l, true) = (names', fine)) by (by destruct a). injection E2 as <- <-.
    split; [rewrite El; solve_Permutation|]. split; [rewrite El; cbn; rewrite length_app; cbn; lia|]. intros _. exists (a :: l). by rewrite El.
  - injection E as <- <-. split; [rewrite El; solve_Permutation|]. split; [rewrite El; cbn; rewrite length_app; cbn; lia|done].
Qed.

Definition sized (n : node) : Prop := match n with Regular c => len c <= maxAuditBytes | _ => True end.
Definition logOk (l : Log) : Prop := length (rotated l) = maxRotations /\ sized (current l) /\ Forall sized (rotated l).

Lemma rotate_kept l next removed works synced l' fine :
  logOk l -> 0 <= next -> rotateIfNeeded l next removed works synced = (l', fine) ->
  logOk l' /\ (forall c, current l = Regular c -> Regular c ∈ current l' :: rotated l') /\
  (fine = true -> (l' = l /\ forall c, current l = Regular c -> len c + next <= maxAuditBytes) \/
                  (current l' = Missing /\ rotated l' = current l :: take (maxRotations - 1) (rotated l))).
Proof.
  intros (Hn & Hc & Hr) Hnext. unfold rotateIfNeeded. destruct (current l) as [|c|] eqn:Ec.
  - intros [= <- <-]. split; [by split; [|rewrite Ec]|]. split; [done|]. intros _. left. by split.
  - case_if; zb.
    { intros [= <- <-]. split; [by split; [|rewrite Ec]|]. split; [intros ? [= <-]; rewrite Ec; set_solver|]. intros _. left. split; [done|]. by intros ? [= <-]. }
    destruct removed; cbn [negb]; [|intros [= <- <-]; split; [by split; [|rewrite Ec]|]; split; [intros ? [= <-]; rewrite Ec; set_solver|done]].
    destruct (renameAll _ works) as [names f] eqn:Er. apply renameAll_perm in Er as (P & L & F); [|by rewrite app_comm_cons, last_snoc].
    assert (Hs : Forall sized names).
    { rewrite P. constructor; [done|]. apply Forall_app. split; [by apply Forall_take|by repeat constructor]. }
    cbn [length] in L. rewrite length_app, length_take, Hn in L. cbn in L. destruct names as [|n names]; [done|]. intros [= <- <-].
    apply Forall_cons in Hs as [Hs1 Hs2]. split; [split; [cbn in *; unfold maxRotations; lia|done]|]. split.
    + intros ? [= <-]. cbn. rewrite P. set_solver.
    + intros Hf. zb. right. destruct (F H) as (k & Ek & [= -> ->]). cbn. split; [done|].
      rewrite <- Ec. rewrite app_comm_cons in Ek. rewrite <- Ec in Ek. apply app_inj_tail in Ek as [<- _]. done.
  - intros [= <- <-]. split; [by split; [|rewrite Ec]|]. done.
Qed.

(** The audit log keeps what it has.  Whatever the system calls answer, every file stays
    below 5 MiB and the bytes of the current file are still at the beginning of one of the
    files; a record whose append succeeds is the end of the current file, behind what was
    there or alone after a rotation that moved every file by one. *)
Theorem audit_log_kept l line removed works synced opens written closes l' fine :
  logOk l -> appendLine l line removed works synced opens written closes = (l', fine) ->
  logOk l' /\
  (forall c, current l = Regular c -> exists c' more, Regular c' ∈ current l' :: rotated l' /\ c' = c ++ more) /\
  (fine = true ->
     (exists c, current l' = Regular (c ++ line) /\ rotated l' = rotated l /\
        (current l = Regular c \/ (current l = Missing /\ c = []))) \/
     (current l' = Regular line /\ rotated l' = current l :: take (maxRotations - 1) (rotated l))).
Proof.
  intros Hok. unfold appendLine.
  assert (Hsame : forall c, current l = Regular c -> exists c' more, Regular c' ∈ current l :: rotated l /\ c' = c ++ more).
  { intros c Hc. exists c, []. rewrite app_nil_r, Hc. set_solver. }
  case_if; zb; [intros [= <- <-]; done|]. destruct (rotateIfNeeded _ _ _ _ _) as [l1 f1] eqn:Er.
  apply rotate_kept in Er as (Hok1 & Hk1 & Hf1); [|done|lia].
  assert (Hkeep : forall c, current l = Regular c -> exists c' more, Regular c' ∈ current l1 :: rotated l1 /\ c' = c ++ more).
  { intros c Hc. exists c, []. rewrite app_nil_r. auto. }
  destruct f1; cbn [negb]; [|intros [= <- <-]; done]. destruct opens; cbn [negb]; [|intros [= <- <-]; done].
  set (n := default (length line) written). specialize (Hf1 eq_refl).
  assert (Hn : len (take n line) <= maxRecordBytes) by (rewrite length_take; lia).
  assert (Hw : bool_decide (written = None) = true -> take n line = line) by (intros Hw; zb; subst written; apply take_ge; cbn; lia).
  destruct Hok1 as (K1 & K2 & K3). destruct (current l1) as [|c|] eqn:Ec1.
  - intros [= <- <-]. split; [split_and!; try done; cbn; unfold maxRecordBytes, maxAuditBytes in *; lia|]. split.
    + intros c Hc. destruct (Hkeep c Hc) as (c' & more & Hin & ->). exists (c ++ more), more. split; [|done]. cbn.
      apply elem_of_cons in Hin as [?|Hin]; [done|set_solver].
    + intros Hf. zb. rewrite Hw by (by rewrite bool_decide_true). cbn. destruct Hf1 as [[-> _]|[_ ->]]; [left; exists []; auto|by right].
  - intros [= <- <-]. destruct Hf1 as [[-> Hb]|[? _]]; [|congruence]. specialize (Hb c Ec1).
    split; [split_and!; try done; cbn; rewrite length_app, length_take; lia|]. split.
    + intros c' Hc'. rewrite Hc' in Ec1. injection Ec1 as ->. exists (c ++ take n line), (take n line). cbn. set_solver.
    + intros Hf. zb. rewrite Hw by (by rewrite bool_decide_true). left. exists c. auto.
  - intros [= <- <-]. split; [split_and!; try done; by rewrite Ec1|]. rewrite Ec1. split; [|done]. intros c Hc. destruct (Hkeep c Hc) as (c' & more & Hin & E2). eauto.
Qed.

(** ** Witnesses and runs *)

Section Runs.

Let noFields : Fields := mkFields "" "" "" "" "" "" "" "" [] "" "" "" false "" "" "" "" None None None [] [] false "" "" 0 "" 0 0 0
  "" "" "" "" "" "" [] false "" "" [] "" "" "" "" [] "" [] [] 0 "" "" "" "" false.

(** a decoder that reads the type and the protocol *)
Definition toyDecode (msg : message) : option (string * Z * Fields) :=
  let protocol := match valueOf msg "protocol" with AInt z => z | _ => 0 end in
  match valueOf msg "type" with
  | AString s => Some (s, protocol, noFields)
  | ANil => Some (""%string, protocol, noFields)
  | _ => None
  end.

#[export] Instance toy_decode_laws : InboundLaws toyDecode.
Proof. intros raw typ protocol f s H Hs. unfold toyDecode, valueOf in H. rewrite Hs in H. cbn in H. congruence. Qed.

Let run := handle toyDecode (fun _ => false) (fun _ _ => 0) (fun _ _ => false) false.

Let keys : message := obj [("type", AString "send_keys"); ("protocol", AInt 2); ("pane_id", AString "w1:p1"); ("keys", AStrings ["Enter"%string])].
Let secret : message := obj [("type", AString "command"); ("action", AString "send_secret"); ("protocol", AInt 2); ("text", AString "hunter2")].

Lemma agrees_type msg s :
  msg !! "type"%string = Some (AString s) -> stringValue msg "action" = ""%string \/ s = "command"%string -> agrees msg.
Proof. intros H Ha. exists s. split; [done|]. naive_solver. Qed.

Lemma gate_witness :
  run keys = [AuditAttempt keys; Call (Dispatch true keys); AuditResult keys; Answer; Admit] /\
  exists m, DecodeMap toyDecode keys = Some m /\ Protocol m = Version.
Proof.
  destruct (gate_guards_dispatcher toyDecode (fun _ => false) (fun _ _ => 0) (fun _ _ => false) false keys true keys) as [_ [(_ & _ & H1 & H2)|H]].
  - apply (agrees_type keys "send_keys"); [vm_compute; reflexivity|left; vm_compute; reflexivity].
  - apply list_elem_of_In. vm_compute. right. left. reflexivity.
  - split; [apply H2, String.eqb_neq; vm_compute; reflexivity|exact H1].
  - split; [vm_compute; reflexivity|]. exists (mkInbound "send_keys" 2 noFields). split; vm_compute; reflexivity.
Defined.

Let lease : message := obj [("type", AString "lease_pane_size"); ("protocol", AInt 2)].
Lemma changes_witness : exists m, DecodeMap toyDecode lease = Some m /\ Protocol m = Version.
Proof.
  refine (changes_need_protocol toyDecode (fun _ => false) (fun _ _ => 0) (fun _ _ => false) false lease (Acquire "" 0 0) _ _).
  - apply list_elem_of_In. vm_compute. left. reflexivity.
  - reflexivity.
Defined.

Lemma audit_secret_witness :
  auditWriteDetails (fun _ => Some []) (fun _ => ""%string) secret = {["text_bytes"%string := AInt 7]}.
Proof.
  refine (audit_keeps_secret toyDecode (mkInbound "send_secret" 2 noFields) secret (fun _ => Some []) (fun _ => ""%string) _ _ _).
  - apply (agrees_type secret "command"); [vm_compute; reflexivity|by right].
  - vm_compute. reflexivity.
  - vm_compute. reflexivity.
Defined.

Lemma audit_bounded_witness :
  map_Forall (fun _ => small) (auditWriteDetails (fun _ => Some []) (fun _ => string_of_bytes (repeat 48 64)) keys).
Proof. apply audit_details_bounded. intros b. vm_compute. reflexivity. Defined.

Lemma audit_log_witness :
  logOk (appendLine (mkLog (Regular [1]) [Missing; Missing; Missing]) [2; 10] true [] true true None true).1.
Proof.
  refine (proj1 (audit_log_kept (mkLog (Regular [1]) [Missing; Missing; Missing]) [2; 10] true [] true true None true _ _ _ (surjective_pairing _))).
  split; [reflexivity|]. split; [vm_compute; discriminate|]. by repeat constructor.
Defined.

(** The gate reads the type of a message, the dispatcher its action: a message that names a
    harmless type and an action is not asked for its protocol version, not recorded in the
    audit and not kept in order, and its action is executed. *)
Let smuggled : message := obj [("type", AString "status"); ("action", AString "send_keys"); ("pane_id", AString "w1:p1"); ("keys", AStrings ["Enter"%string])].
Example action_slips_past_gate :
  run smuggled = [Admit; Call (Dispatch false smuggled); Answer; Admit] /\ dispatched smuggled = "send_keys"%string /\
  "send_keys"%string ∈ knownActions.
Proof. split_and!; [vm_compute; reflexivity|vm_compute; reflexivity|listed]. Qed.

(** A message about push preferences that does not decode is answered with a type the app
    does not wait for. *)
Example prefs_failure_unheard :
  DecodeFailureResponse (obj [("type", AString "push_agent_prefs")]) !! "type"%string = Some (AString "command_result") /\
  IncompatibleResponse (mkInbound "push_agent_prefs" 1 noFields) !! "type"%string = Some (AString "push_agent_prefs_result").
Proof. split; vm_compute; reflexivity. Qed.

End Runs.
End Gate.
