(* ===== verification/PaneWatch.v ===== *)
(** Live panes ([internal/app/pane_watch.go], the pane responses of
    [internal/app/server.go] and the pane messages of the phone's
    [frontend/src/lib/store.ts]).  A watch sends the phone the frames of one
    pane, as full text or as a delta against the frame the phone acknowledged;
    both sides name a text by a fingerprint.  The phone's strings are UTF-16. *)
From S2P Require Import Prelude GoLib GoText PaneDelta DispatchBase Handlers Gate History PaneSize State.
#[local] Open Scope Z_scope.

(** ** Text on the wire *)

Module PaneText.
Import PaneDelta DispatchBase.

(** the code point of a rune *)
Definition codePoint (r : bytes) : Z :=
  match r with
  | [b0] => b0
  | [b0; b1] => (b0 - 0xC0) * 2 ^ 6 + (b1 - 0x80)
  | [b0; b1; b2] => (b0 - 0xE0) * 2 ^ 12 + (b1 - 0x80) * 2 ^ 6 + (b2 - 0x80)
  | [b0; b1; b2; b3] => (b0 - 0xF0) * 2 ^ 18 + (b1 - 0x80) * 2 ^ 12 + (b2 - 0x80) * 2 ^ 6 + (b3 - 0x80)
  | _ => 0xFFFD
  end.

Definition units (r : bytes) : list Z :=
  let c := codePoint r in
  if c <? 0x10000 then [c]
  else [0xD800 + (c - 0x10000) / 2 ^ 10; 0xDC00 + (c - 0x10000) mod 2 ^ 10].

(** a Go string as the phone reads it from JSON: its runes in UTF-16 *)
Definition jsString (s : bytes) : list Z := concat (units <$> runes s).

(** a segment as the phone reads it: [omitempty] drops a zero and an empty text *)
Record WireSegment := mkWireSegment {
  copy_start : option Z; copy_lines : option Z; text : option (list Z) }.

Definition wireSegment (s : Segment) : WireSegment :=
  mkWireSegment (if CopyStart s =? 0 then None else Some (CopyStart s))
    (if CopyLines s =? 0 then None else Some (CopyLines s))
    (match Text s with [] => None | t => Some (jsString t) end).

(** the phone's [applyPaneDelta] *)

Fixpoint lineEnds (index : Z) (s : list Z) : list Z :=
  match s with
  | [] => []
  | c :: s => (if c =? 10 then [index + 1] else []) ++ lineEnds (index + 1) s
  end.

Definition boundaries (previous : list Z) : list Z := 0 :: lineEnds 0 previous ++ [len previous].

(** [text.slice(start, stop)] between two boundaries *)
Definition sliceText (s : list Z) (start stop : Z) : list Z :=
  take (Z.to_nat (stop - start)) (drop (Z.to_nat start) s).

(** one segment; both indexes are in range once the checks have passed *)
Definition chunk (previous : list Z) (s : WireSegment) : option (list Z) :=
  match copy_lines s with
  | Some copyLines =>
      if copyLines <=? 0 then None else
      let copyStart := default 0 (copy_start s) in
      if copyStart <? 0 then None else
      let copyEnd := copyStart + copyLines in
      if len (boundaries previous) - 1 <? copyEnd then None else
      let? start := index (boundaries previous) copyStart in
      let? stop := index (boundaries previous) copyEnd in
      Some (sliceText previous start stop)
  | None => text s
  end.

Fixpoint chunksOf (previous : list Z) (segments : list WireSegment) : option (list (list Z)) :=
  match segments with
  | [] => Some []
  | s :: segments =>
      let? c := chunk previous s in
      let? cs := chunksOf previous segments in
      Some (c :: cs)
  end.

(** [None] is [null], as a value that is not an array *)
Definition applyPaneDelta (previous : list Z) (value : option (list WireSegment)) : option (list Z) :=
  let? segments := value in
  let? chunks := chunksOf previous segments in
  Some (concat chunks).

(** a literal segment without text, which the wire does not carry *)
Definition lost (s : Segment) : bool :=
  (CopyLines s =? 0) && (match Text s with [] => true | _ => false end).

(** *** UTF-16 *)

(** a newline is its own rune and its own unit, and no other rune has one *)
Definition plainRune (r : bytes) : Prop := r = [10] \/ ((10 ∉ r) /\ (10 ∉ units r)).

Lemma plain_of r : 10 ∉ r -> 0x80 <= codePoint r -> plainRune r.
Proof.
  intros Hr Hc. right. split; [done|]. unfold units.
  destruct (codePoint r <? 0x10000) eqn:E; zb; rewrite ?elem_of_cons; intros Hin;
    [destruct Hin as [?|[]%elem_of_nil]; lia|].
  assert (0 <= (codePoint r - 0x10000) / 2 ^ 10) by (apply Z.div_pos; lia).
  pose proof (Z.mod_pos_bound (codePoint r - 0x10000) (2 ^ 10) ltac:(lia)).
  destruct Hin as [?|[?|[]%elem_of_nil]]; lia.
Qed.

Lemma runes_plain l : Forall plainRune (runes l).
Proof.
  remember (length l) as n eqn:En. assert (Hn : (length l <= n)%nat) by lia. clear En. revert l Hn.
  induction n as [|n IH]; intros [|b0 l] Hn; try done; cbn in Hn; [lia|]. cbn [runes].
  assert (Hrep : plainRune replacement).
  { apply plain_of; [|by vm_compute]. unfold replacement. rewrite !elem_of_cons, elem_of_nil. lia. }
  destruct (b0 <? 0x80) eqn:E0.
  { constructor; [|apply IH; lia]. zb. destruct (decide (b0 = 10)) as [->|Hb]; [by left|]. right.
    unfold units. cbn. rewrite (proj2 (Z.ltb_lt b0 0x10000)) by lia. by rewrite !elem_of_cons, elem_of_nil; split; intros [?|?]. }
  unfold cont_byte. repeat case_match; subst; cbn in Hn; zb;
    (constructor; [try done|apply IH; cbn; lia]);
    (apply plain_of; [rewrite !elem_of_cons, elem_of_nil; lia|cbn; lia]).
Qed.

Fixpoint splitRunes (rs : list bytes) : list (list bytes) :=
  match rs with
  | [] => [[]]
  | r :: rs =>
      if bool_decide (r = [10]) then [r] :: splitRunes rs
      else match splitRunes rs with g :: gs => (r :: g) :: gs | [] => [[r]] end
  end.

Lemma splitAfter_app sep a b : sep ∉ a ->
  splitAfter sep (a ++ b) = match splitAfter sep b with l :: ls => (a ++ l) :: ls | [] => [a] end.
Proof.
  induction a as [|c a IH]; cbn; intros Ha.
  { destruct (splitAfter sep b) eqn:E; [|done]. destruct b as [|c b]; cbn in E; [done|]. by repeat case_match. }
  apply not_elem_of_cons in Ha as [Hc Ha]. rewrite (proj2 (Z.eqb_neq c sep)), IH by done.
  by destruct (splitAfter sep b).
Qed.

Lemma splitRunes_split {f : bytes -> list Z} rs :
  Forall (fun r => (r = [10] /\ f r = [10]) \/ (r <> [10] /\ 10 ∉ (f r))) rs ->
  splitAfter 10 (concat (f <$> rs)) = (fun g => concat (f <$> g)) <$> splitRunes rs.
Proof.
  induction 1 as [|r rs Hr _ IH]; [done|]. cbn [fmap list_fmap concat splitRunes].
  destruct Hr as [[-> Ef]|[Hr Hf]].
  - rewrite bool_decide_eq_true_2 by done. cbn. rewrite Ef. cbn. by rewrite IH.
  - rewrite bool_decide_eq_false_2, splitAfter_app, IH by done.
    destruct (splitRunes rs); cbn; by rewrite ?app_nil_r.
Qed.

Lemma splitRunes_Forall (P : bytes -> Prop) rs : Forall P rs -> Forall (Forall P) (splitRunes rs).
Proof.
  induction 1 as [|r rs Hr Hrs IH]; cbn; [by repeat constructor|]. case_bool_decide; [by repeat constructor|].
  destruct (splitRunes rs); [by repeat constructor|]. apply Forall_cons in IH as [? ?]. by repeat constructor.
Qed.

Lemma jsString_app a b : utf8_valid a = true -> jsString (a ++ b) = jsString a ++ jsString b.
Proof.
  intros Ha. unfold jsString. rewrite <- (runes_valid a Ha) at 1.
  assert (E : forall rs, Forall goodRune rs -> runes (concat rs ++ b) = rs ++ runes b).
  { induction 1 as [|r rs Hr _ IH]; cbn; [done|]. rewrite <- app_assoc. destruct (Hr (concat rs ++ b)) as [-> _]. by rewrite IH. }
  by rewrite E, fmap_app, concat_app by apply runes_good.
Qed.

Lemma valid_app a b : utf8_valid a = true -> utf8_valid (a ++ b) = utf8_valid b.
Proof.
  intros Ha. rewrite <- (runes_valid a Ha) at 1. generalize (runes_good a).
  induction 1 as [|r rs Hr _ IH]; cbn; [done|]. rewrite <- app_assoc. destruct (Hr (concat rs ++ b)) as [_ ->]. done.
Qed.

Definition wellFormed (s : bytes) : Prop := utf8_valid s = true.

Lemma wellFormed_concat ls : Forall wellFormed ls -> wellFormed (concat ls).
Proof. induction 1 as [|l ls Hl _ IH]; [done|]. unfold wellFormed. cbn. by rewrite valid_app. Qed.

Lemma jsString_concat ls : Forall wellFormed ls -> jsString (concat ls) = concat (jsString <$> ls).
Proof. induction 1 as [|l ls Hl _ IH]; [done|]. change (concat (l :: ls)) with (l ++ concat ls).
  rewrite jsString_app, IH by done. done. Qed.

(** the lines of a text on the phone are the lines of the text *)
Lemma jsString_lines s : wellFormed s ->
  splitAfter 10 (jsString s) = jsString <$> splitAfter 10 s /\ Forall wellFormed (splitAfter 10 s).
Proof.
  intros Hs. pose proof (runes_plain s) as Hp. pose proof (runes_good s) as Hg.
  assert (E : splitAfter 10 s = (fun g => concat g) <$> splitRunes (runes s)).
  { rewrite <- (runes_valid s Hs) at 1. pose proof (@splitRunes_split id (runes s)) as H.
    rewrite list_fmap_id in H. rewrite H; [apply list_fmap_ext; intros; by rewrite list_fmap_id|].
    eapply Forall_impl; [exact Hp|]. intros r [->|[? ?]]; [by left|right; split; [|done]]. intros ->. set_solver. }
  assert (HG : Forall (Forall goodRune) (splitRunes (runes s))) by by apply splitRunes_Forall.
  split.
  - unfold jsString at 1. rewrite splitRunes_split, E, <- list_fmap_compose.
    + apply Forall_fmap_ext_1. eapply Forall_impl; [exact HG|]. cbn. intros g Hgg. unfold jsString.
      by rewrite (proj1 (runes_concat g Hgg)).
    + eapply Forall_impl; [exact Hp|]. intros r [->|[? ?]]; [by left|right; split; [|done]]. intros ->. set_solver.
  - rewrite E. apply Forall_fmap. eapply Forall_impl; [exact HG|]. cbn. intros g Hgg.
    apply (runes_concat g Hgg).
Qed.

(** *** Boundaries *)

Fixpoint sums {A} (n : Z) (ls : list (list A)) : list Z :=
  match ls with [] => [] | l :: ls => (n + len l) :: sums (n + len l) ls end.

Lemma lineEnds_sums s i : lineEnds i s ++ [i + len s] = sums i (splitAfter 10 s).
Proof.
  revert i. induction s as [|c s IH]; intros i; [done|]. cbn [lineEnds splitAfter].
  specialize (IH (i + 1)). rewrite <- app_assoc. replace (i + len (c :: s)) with (i + 1 + len s) by (cbn; lia).
  rewrite IH. destruct (c =? 10); cbn; [done|].
  destruct (splitAfter 10 s) as [|l ls] eqn:E; cbn in IH |- *; [by destruct (lineEnds (i + 1) s)|].
  by replace (i + Z.of_nat (S (length l))) with (i + 1 + len l) by lia.
Qed.

Lemma sums_length {A} (ls : list (list A)) n : length (sums n ls) = length ls.
Proof. revert n. induction ls; cbn; auto. Qed.

Lemma sums_lookup {A} (ls : list (list A)) n k : (k <= length ls)%nat ->
  (n :: sums n ls) !! k = Some (n + len (concat (take k ls))).
Proof.
  revert n k. induction ls as [|l ls IH]; intros n k Hk; cbn in Hk.
  - replace k with 0%nat by lia. cbn. f_equal. lia.
  - destruct k as [|k]; [cbn; f_equal; lia|]. change ((n :: sums n (l :: ls)) !! S k) with ((n + len l :: sums (n + len l) ls) !! k).
    rewrite IH by lia. cbn. rewrite length_app. f_equal. lia.
Qed.

Lemma boundaries_sums s : boundaries s = 0 :: sums 0 (splitAfter 10 s).
Proof. unfold boundaries. by rewrite <- lineEnds_sums, Z.add_0_l. Qed.

Lemma boundaries_index s k : 0 <= k <= len (splitAfter 10 s) ->
  index (boundaries s) k = Some (len (concat (take (Z.to_nat k) (splitAfter 10 s)))).
Proof.
  intros Hk. unfold index. rewrite (proj2 (Z.leb_le 0 k)), boundaries_sums, sums_lookup by lia. done.
Qed.

Lemma sliceText_lines (ls : list (list Z)) a b :
  sliceText (concat ls) (len (concat (take a ls))) (len (concat (take (a + b) ls))) = concat (take b (drop a ls)).
Proof.
  unfold sliceText. assert (E : concat ls = concat (take a ls) ++ concat (take b (drop a ls)) ++ concat (drop b (drop a ls)))
    by by rewrite <- !concat_app, !take_drop.
  assert (E' : concat (take (a + b) ls) = concat (take a ls) ++ concat (take b (drop a ls)))
    by (rewrite <- concat_app; f_equal; by rewrite take_take_drop).
  rewrite E, Nat2Z.id, drop_app_length, E', length_app.
  replace (Z.to_nat _) with (length (concat (take b (drop a ls)))) by lia. apply take_app_length.
Qed.

(** *** Equivalence with [Apply] *)

(** a segment whose numbers [Build] can produce *)
Definition inRange (s : Segment) : Prop :=
  - 2 ^ 63 <= CopyStart s < 2 ^ 62 /\ 0 <= CopyLines s < 2 ^ 62 /\ wellFormed (Text s).

Lemma chunk_apply previous s : wellFormed previous -> inRange s ->
  chunk (jsString previous) (wireSegment s) =
  if lost s then None else jsString <$> mjoin (applySegment (splitAfter newline previous) s).
Proof.
  intros Hp (Hs & Hl & _). destruct (jsString_lines previous Hp) as [El Hw].
  unfold chunk, lost, applySegment. cbn [wireSegment copy_lines copy_start text]. rewrite Z.gtb_ltb.
  destruct (CopyLines s =? 0) eqn:E0; zb.
  { rewrite E0. cbn. by destruct (Text s). }
  rewrite (proj2 (Z.ltb_lt 0 (CopyLines s))), (proj2 (Z.leb_gt (CopyLines s) 0)) by lia. cbn [andb].
  replace (default 0 (if CopyStart s =? 0 then None else Some (CopyStart s))) with (CopyStart s)
    by (destruct (CopyStart s =? 0) eqn:E; zb; cbn; lia).
  destruct (CopyStart s <? 0) eqn:Es; [done|]. zb. cbn [orb].
  replace (i64 (CopyStart s + CopyLines s)) with (CopyStart s + CopyLines s)
    by (unfold i64; rewrite Z.mod_small by lia; lia).
  rewrite (proj2 (Z.ltb_ge (CopyStart s + CopyLines s) (CopyStart s))) by lia. cbn [orb].
  assert (Hb : len (boundaries (jsString previous)) - 1 = len (splitAfter newline previous)).
  { rewrite boundaries_sums. cbn. rewrite sums_length, El, length_fmap. unfold newline. lia. }
  rewrite Hb, Z.gtb_ltb. destruct (len (splitAfter newline previous) <? CopyStart s + CopyLines s) eqn:Ee; [done|]. zb.
  rewrite slice_in_range by lia. cbn.
  rewrite !boundaries_index by (rewrite El, length_fmap; unfold newline in *; lia). cbn. f_equal.
  rewrite <- (concat_splitAfter 10 (jsString previous)) at 1.
  replace (Z.to_nat (CopyStart s + CopyLines s)) with (Z.to_nat (CopyStart s) + Z.to_nat (CopyLines s))%nat by lia.
  rewrite sliceText_lines, El, <- fmap_drop, <- fmap_take.
  replace (CopyStart s + CopyLines s - CopyStart s) with (CopyLines s) by lia.
  rewrite jsString_concat; [done|]. by apply Forall_take, Forall_drop.
Qed.

Lemma applyLoop_out lines segments out : applyLoop lines out segments =
  option_map (option_map (app out)) (applyLoop lines [] segments).
Proof.
  revert out. induction segments as [|s segments IH]; intros out; cbn; [by rewrite app_nil_r|].
  destruct (applySegment lines s) as [[t|]|]; cbn; [|done|done]. rewrite (IH (out ++ t)), (IH t).
  destruct (applyLoop lines [] segments) as [[?|]|]; cbn; [|done|done]. by rewrite app_assoc.
Qed.

Lemma applySegment_wellFormed lines s t : Forall wellFormed lines -> wellFormed (Text s) ->
  applySegment lines s = Some (Some t) -> wellFormed t.
Proof.
  intros Hl Ht. unfold applySegment, slice. repeat case_match; cbn; intros; simplify_eq; [|done].
  by apply wellFormed_concat, Forall_take, Forall_drop.
Qed.

Lemma applyLoop_wellFormed lines segments t : Forall wellFormed lines ->
  Forall (fun s => wellFormed (Text s)) segments ->
  applyLoop lines [] segments = Some (Some t) -> wellFormed t.
Proof.
  intros Hl Hs. revert t. induction Hs as [|s segments Hs _ IH]; cbn; [by intros ? [= <-]|].
  intros t. destruct (applySegment lines s) as [[u|]|] eqn:E; cbn; [|done|done]. rewrite applyLoop_out.
  destruct (applyLoop lines [] segments) as [[v|]|]; cbn; [|done|done]. intros [= <-].
  unfold wellFormed. rewrite valid_app; [by apply IH|]. by eapply applySegment_wellFormed.
Qed.

(** C37: The phone rebuilds what the relay would: on the texts and segments in
    UTF-16 the phone's [applyPaneDelta] accepts and answers what [Apply] does,
    but for a delta with an empty literal segment, which it refuses. *)
Theorem phone_applies previous segments :
  wellFormed previous -> Forall inRange segments ->
  applyPaneDelta (jsString previous) (Some (wireSegment <$> segments)) =
  if existsb lost segments then None else jsString <$> mjoin (Apply previous segments).
Proof.
  intros Hp Hs. unfold applyPaneDelta, Apply. cbn. destruct (jsString_lines previous Hp) as [_ Hw].
  induction Hs as [|s segments Hr Hs IH]; [done|]. cbn [fmap list_fmap chunksOf existsb applyLoop].
  rewrite chunk_apply by done. destruct (lost s); cbn; [done|].
  destruct (applySegment _ s) as [[t|]|] eqn:Ea; cbn.
  2,3: by destruct (existsb lost segments).
  rewrite applyLoop_out. destruct (chunksOf _ _) as [cs|]; cbn in IH |- *.
  - destruct (existsb lost segments); [done|]. destruct (applyLoop _ [] segments) as [[u|]|]; cbn in IH |- *; [|done|done].
    injection IH as ->. rewrite jsString_app; [done|]. eapply applySegment_wellFormed; [done| |done]. by destruct Hr as (_ & _ & ?).
  - destruct (existsb lost segments); [done|]. by destruct (applyLoop _ [] segments) as [[u|]|].
Qed.

(** *** The segments of [Build] *)

(** a copy of lines of the previous text, or text *)
Definition built (n : Z) (s : Segment) : Prop :=
  0 <= CopyStart s /\ 0 <= CopyLines s /\ CopyStart s + CopyLines s <= n /\ wellFormed (Text s).

Lemma flush_built n lines lit segments stop out : 0 <= n -> Forall wellFormed lines -> Forall (built n) segments ->
  flushLiteral lines lit segments stop = Some out -> Forall (built n) out.
Proof.
  intros Hn Hl Hs. unfold flushLiteral, slice. repeat case_match; cbn; intros; simplify_eq; [done|].
  apply Forall_app. split; [done|]. repeat constructor; cbn; try lia.
  by apply wellFormed_concat, Forall_take, Forall_drop.
Qed.

Lemma buildLoop_built fuel p c m j lit segments r : index_ok p m -> 0 <= j -> Forall wellFormed c ->
  Forall (built (len p)) segments -> buildLoop fuel p c m j lit segments = Some r -> Forall (built (len p)) r.1.
Proof.
  intros Hm Hj Hc. revert j lit segments Hj. induction fuel as [|fuel IH]; intros j lit segments Hj Hs; cbn [buildLoop];
    repeat case_match; try done; try (intros [= <-]; done).
  destruct (keyAt c j) as [key|]; cbn; [|done].
  destruct (bestMatch_ok p c j (default [] (m !! key))) as (best & -> & Hb1 & Hb2 & Ha); [lia| |].
  { destruct (m !! key) eqn:E; cbn; [|constructor]. eapply Forall_impl; [by eapply Hm|]. by intros ? [? _]. }
  cbn. destruct (best.2 <? minimumCopyLines) eqn:Eb; [apply IH; [lia|done]|].
  zb. unfold minimumCopyLines in Eb. destruct (flushLiteral c lit segments j) as [out|] eqn:Ef; cbn; [|done]. apply IH; [lia|].
  apply Forall_app. split; [eapply flush_built; [lia|..]; done|]. repeat constructor; cbn; try lia.
  destruct (agree_slices p c best.1 j best.2) as [_ Hle]; [lia..|done|]. lia.
Qed.

Lemma build_built previous current segments : wellFormed current -> Build previous current = Some segments ->
  Forall (built (len (splitAfter newline previous))) segments.
Proof.
  intros Hc. destruct (jsString_lines current Hc) as [_ Hw]. unfold Build.
  destruct (indexLines_ok (splitAfter newline previous)) as (m & -> & Hm). cbn.
  destruct (buildLoop _ _ _ _ _ _ _) as [r|] eqn:Eb; cbn; [|done]. intros Hf.
  eapply flush_built; [lia|exact Hw| |exact Hf]. by eapply buildLoop_built.
Qed.

(** the delta [Build] makes, as the phone applies it: exact or refused *)
Lemma phone_build previous current segments : len (splitAfter newline previous) < 2 ^ 62 ->
  wellFormed previous -> wellFormed current -> Build previous current = Some segments ->
  applyPaneDelta (jsString previous) (Some (wireSegment <$> segments)) =
  if existsb lost segments then None else Some (jsString current).
Proof.
  intros Hn Hp Hc Hb. rewrite phone_applies; [|done|].
  - destruct (existsb lost segments); [done|].
    destruct (build_apply previous current) as (segs & Hb' & Ha); [lia|]. simplify_eq. by rewrite Ha.
  - eapply Forall_impl; [by eapply build_built|]. intros s (? & ? & ? & ?). unfold inRange. split_and!; (done || lia).
Qed.

(** the copy of every line *)
Definition copyAll (content : bytes) : list Segment :=
  [mkSegment 0 (Z.of_nat (count_occ Z.eq_dec content 10) + 1) []].

Lemma splitAfter_count s : length (splitAfter 10 s) = S (count_occ Z.eq_dec s 10).
Proof.
  induction s as [|c s IH]; [done|]. cbn. destruct (c =? 10) eqn:E; zb.
  - subst. destruct (Z.eq_dec 10 10); [|done]. cbn. by rewrite IH.
  - destruct (Z.eq_dec c 10); [done|]. by destruct (splitAfter 10 s).
Qed.

Lemma phone_copyAll content : len (splitAfter newline content) < 2 ^ 62 -> wellFormed content ->
  applyPaneDelta (jsString content) (Some (wireSegment <$> copyAll content)) = Some (jsString content).
Proof.
  intros Hn Hc. unfold copyAll. rewrite phone_applies; [|done|].
  - cbn [existsb]. unfold lost. cbn [CopyLines Text]. rewrite (proj2 (Z.eqb_neq _ 0)) by lia. cbn.
    unfold Apply. cbn. unfold applySegment. cbn. rewrite Z.gtb_ltb, (proj2 (Z.ltb_lt 0 _)) by lia.
    unfold newline in *. pose proof (splitAfter_count content) as Hk.
    replace (i64 _) with (len (splitAfter 10 content)) by (unfold i64; rewrite Z.mod_small; lia).
    rewrite (proj2 (Z.ltb_ge _ 0)), Z.gtb_ltb, (proj2 (Z.ltb_ge (len (splitAfter 10 content)) (len (splitAfter 10 content)))) by lia.
    cbn. rewrite slice_in_range by lia. cbn. rewrite Z.sub_0_r, Nat2Z.id, firstn_all. cbn.
    by rewrite drop_0, concat_splitAfter.
  - repeat constructor; cbn; unfold newline in *; rewrite splitAfter_count in Hn; lia.
Qed.

(** a line that loses its text: the delta has an empty literal, the wire drops
    it, and the phone asks for the whole text *)
Example empty_literal_refused :
  let previous := bytes_of_string "one
two
three
four" in
  let current := bytes_of_string "one
two
three
" in
  Build previous current = Some [mkSegment 0 3 []; mkSegment 0 0 []] /\
  Apply previous [mkSegment 0 3 []; mkSegment 0 0 []] = Some (Some current) /\
  applyPaneDelta (jsString previous) (Some (wireSegment <$> [mkSegment 0 3 []; mkSegment 0 0 []])) = None.
Proof. vm_compute. done. Qed.

End PaneText.

(** ** The relay *)

Module PaneWatch.
Import PaneDelta DispatchBase Handlers PaneText.

Definition defaultPaneWatchInterval : duration := 250 * (second / 1000).
Definition paneResizeSettleWindow : duration := 3 * second.

Record paneWatchFrame := mkFrame {
  content : bytes; contentFingerprint : string; frameFingerprint : string;
  classificationAgent : string; resizeSettling : bool }.

(** [cancelled]: the context is done *)
Record paneWatch := mkWatch {
  client : string; paneID : string; lines : Z; format : string; interval : duration; cancelled : bool;
  acknowledged : option paneWatchFrame; pending : option paneWatchFrame; probeFingerprint : string }.

Definition set_cancelled (w : paneWatch) : paneWatch :=
  mkWatch (client w) (paneID w) (lines w) (format w) (interval w) true (acknowledged w) (pending w) (probeFingerprint w).
Definition set_frames (a p : option paneWatchFrame) (w : paneWatch) : paneWatch :=
  mkWatch (client w) (paneID w) (lines w) (format w) (interval w) (cancelled w) a p (probeFingerprint w).
Definition set_probe (f : string) (w : paneWatch) : paneWatch :=
  mkWatch (client w) (paneID w) (lines w) (format w) (interval w) (cancelled w) (acknowledged w) (pending w) f.

Definition hexDigit (d : Z) : Z := if d <? 10 then 48 + d else 87 + d.
(** [%x] *)
Definition hex (l : bytes) : string :=
  string_of_bytes (concat ((fun b => [hexDigit (b / 16); hexDigit (b mod 16)]) <$> l)).

(** the numbers of a message *)
Definition clampLines (n : Z) : Z := if n <? 1 then 1 else if History.MaxLines <? n then History.MaxLines else n.

Section Watch.
(** [Class] is what [question.Classify] makes of a screen: [Interaction] is the
    question and the text typed into its free answer.  [sum256] is SHA-256 and
    [marshal] the JSON of a frame's state. *)
Context {Class : Type} (Classify : bytes -> string -> Class)
  (Interaction : Class -> option (string * string))
  (FillCustomAnswers : Class -> gmap string string -> Class) (SummaryKey : string -> string)
  (Match : bytes -> string * bool) (sum256 : bytes -> bytes).
Context (wideInt : Z -> Z -> Z) (wideSame : Z -> Z -> bool).

(** an answer to a read: [class] are the fields [attention_kind] to
    [question_layout], [no_echo] the flag with its prompt; a field that is not
    in the map is [None] or [false] *)
Record Response := mkResponse {
  pane : PaneContent; class : option Class; settling : bool; no_echo : option (option string);
  fingerprint : option string; ack_required : bool }.

Definition responseOf (c : PaneContent) : Response := mkResponse c None false None None false.

Definition set_pane (c : PaneContent) (r : Response) : Response :=
  mkResponse c (class r) (settling r) (no_echo r) (fingerprint r) (ack_required r).
Definition set_class (c : Class) (r : Response) : Response :=
  mkResponse (pane r) (Some c) (settling r) (no_echo r) (fingerprint r) (ack_required r).
Definition set_settling (r : Response) : Response :=
  mkResponse (pane r) (class r) true (no_echo r) (fingerprint r) (ack_required r).
Definition set_no_echo (p : option string) (r : Response) : Response :=
  mkResponse (pane r) (class r) (settling r) (Some p) (fingerprint r) (ack_required r).
Definition set_fingerprint (f : string) (r : Response) : Response :=
  mkResponse (pane r) (class r) (settling r) (no_echo r) (Some f) (ack_required r).
Definition set_ack (r : Response) : Response :=
  mkResponse (pane r) (class r) (settling r) (no_echo r) (fingerprint r) true.
Definition set_text (text : bytes) (truncated : bool) (c : PaneContent) : PaneContent :=
  mkContent (pc_PaneID c) text (pc_Format c) truncated (pc_ViewportOnly c) (pc_ViewportRows c) (pc_Error c).

Definition successfulPaneContent (r : Response) : option bytes :=
  if String.eqb (pc_Error (pane r)) "" then Some (pc_Content (pane r)) else None.

Definition paneFingerprint (content : bytes) : string := hex (take 8 (sum256 content)).

Context (marshal : bytes * string * bool * bool * option Z * bool * option Class -> bytes).

Definition paneFrameFingerprint (r : Response) : string :=
  let c := pane r in
  paneFingerprint (marshal (pc_Content c, pc_Format c, pc_Truncated c, pc_ViewportOnly c, pc_ViewportRows c,
                            settling r, class r)).

(** *** Responses *)

(** the components a response is prepared with *)
Record Parts := mkParts { state : State.State; history : History.Manager; paneSizeM : option PaneSize.World }.

Definition agentInfo (s : State.State) (id : string) : string * string :=
  match find (fun a => String.eqb (State.PaneID (State.info a)) id) (State.Snapshot s) with
  | Some a => (State.Agent (State.info a), State.Cwd (State.info a))
  | None => (""%string, ""%string)
  end.

(** the free answer that is on the screen is recorded, and those recorded are
    filled in *)
Definition recordAnswers (id : string) (c : Class) (s : State.State) : State.State * Class :=
  match Interaction c with
  | None => (s, c)
  | Some (question, other) =>
      let text := GoText.TrimSpace other in
      let s := if String.eqb text "" then s else State.RecordCustomAnswer s id (SummaryKey question) text in
      (s, FillCustomAnswers c (State.CustomAnswers s id))
  end.

Definition settles (now : time) (p : Parts) (id : string) : bool :=
  match paneSizeM p with
  | None => false
  | Some w => PaneSize.ResizedWithin now w id paneResizeSettleWindow
  end.

Definition keepsHistory (agent : string) : bool :=
  let agentLower := ToLower agent in Contains agentLower "claude" || Contains agentLower "qoder".

Context (reread : History.PaneState -> History.PaneState).

Definition classifyPaneResponse (now : time) (ok : bool) (msg : message) (p : Parts) (r : Response)
    : option (Parts * Response) :=
  match successfulPaneContent r with
  | None => Some (p, r)
  | Some text =>
      let id := stringValue msg "pane_id" in
      let agent := (agentInfo (state p) id).1 in
      let c := Classify text agent in
      let sc := recordAnswers id c (state p) in
      let p := mkParts sc.1 (history p) (paneSizeM p) in
      let r := set_class sc.2 r in
      let r := if pc_ViewportOnly (pane r) && settles now p id then set_settling r else r in
      if bool_decide (is_Some (Interaction c)) || negb (keepsHistory agent) then Some (p, r)
      else if pc_ViewportOnly (pane r) then Some (p, r)
      else
        let limit := clampLines (Gate.messageInt wideInt wideSame (valueOf msg "lines") 30) in
        let? m := History.MergeLimited reread now ok (history p) id text limit in
        Some (mkParts (state p) m.1 (paneSizeM p),
              set_pane (set_text m.2.1 (pc_Truncated (pane r) || m.2.2) (pane r)) r)
  end.

Definition preparePaneResponse (now : time) (ok : bool) (msg : message) (p : Parts) (r : Response)
    : option (Parts * Response) :=
  let? out := classifyPaneResponse now ok msg p r in
  match successfulPaneContent out.2 with
  | None => Some out
  | Some text =>
      let (prompt, secret) := Match text in
      Some (out.1, set_no_echo (if secret then Some prompt else None) out.2)
  end.

(** the size of the lease replaces what the message says *)
Definition applyPaneReadLease (now : time) (sizes : option PaneSize.World) (msg : message) : message :=
  let msg := delete "terminal_rows"%string (delete "terminal_columns"%string msg) in
  match sizes with
  | None => msg
  | Some w =>
      let id := stringValue msg "pane_id" in
      let (columns, ok) := PaneSize.ActiveColumns now w id in
      if ok then
        let msg := <["terminal_columns"%string := AInt columns]> msg in
        let (rows, rowsOK) := PaneSize.ActiveRows now w id in
        if rowsOK then <["terminal_rows"%string := AInt rows]> msg else msg
      else msg
  end.

(** *** Messages to the phone *)

Inductive Msg :=
| Content (r : Response)
| Delta (r : Response) (base : string) (segments : list Segment)
| Unchanged (id fp : string)
| Resync (id : string).

Definition unchangedPaneResponse (msg : message) (r : Response) : Response * option Msg :=
  match successfulPaneContent r with
  | None => (r, None)
  | Some text =>
      let fp := paneFingerprint text in
      let r := set_fingerprint fp r in
      let known := stringValue msg "content_fingerprint" in
      if String.eqb known "" || negb (String.eqb known fp) then (r, None)
      else (r, Some (Unchanged (pc_PaneID (pane r)) fp))
  end.

(** every field but the content *)
Definition paneDeltaResponse (r : Response) (base : string) (segments : list Segment) : Msg :=
  Delta (set_pane (set_text [] (pc_Truncated (pane r)) (pane r)) r) base segments.

(** [Some None] is the message [nil]; [None] a panic *)
Definition paneWatchUpdate (r : Response) (acked : option paneWatchFrame) (current : paneWatchFrame)
    : option (option Msg) :=
  match acked with
  | None => Some (Some (Content (set_ack r)))
  | Some a =>
      if negb (String.eqb (frameFingerprint a) "") && String.eqb (frameFingerprint a) (frameFingerprint current)
      then Some None
      else if String.eqb (contentFingerprint a) (contentFingerprint current)
      then Some (Some (paneDeltaResponse r (contentFingerprint a) (copyAll (content current))))
      else
        let? segments := Build (content a) (content current) in
        if Efficient segments (content current)
        then Some (Some (paneDeltaResponse r (contentFingerprint a) segments))
        else Some (Some (Content (set_ack r)))
  end.

Definition paneWatchNeedsFrameRead (previousProbe probe : string) (acked : option paneWatchFrame) (agent : string) : bool :=
  if String.eqb previousProbe "" || negb (String.eqb probe previousProbe) then true
  else match acked with
       | None => false
       | Some a => resizeSettling a || negb (String.eqb (classificationAgent a) agent)
       end.

(** the frame of a response and the response with its fingerprint *)
Definition frameOf (agent : string) (r : Response) : option (Response * paneWatchFrame) :=
  let? text := successfulPaneContent r in
  let fp := paneFingerprint text in
  Some (set_fingerprint fp r, mkFrame text fp (paneFrameFingerprint r) agent (settling r)).

Definition watchMessage (w : paneWatch) : message :=
  <["pane_id"%string := AString (paneID w)]>
    (<["lines"%string := AInt (lines w)]> (<["format"%string := AString (format w)]> ∅)).

Definition requestedPaneWatchInterval (value : any) : duration :=
  let ms := Gate.messageInt wideInt wideSame value (defaultPaneWatchInterval / (second / 1000)) in
  if bool_decide (ms ∈ [100; 250; 500; 1000]) then ms * (second / 1000) else defaultPaneWatchInterval.

(** *** Watches *)

(** where the goroutine of a watch is.  Every use of a lock is one step, and so
    are a probe, a read of the pane and a send. *)
Inductive Run :=
| Opening (known : string)
| OpeningRead (known : string)
| OpeningWait (known : string)
| Waiting
| Probing (previousProbe : string) (acked : option paneWatchFrame)
| Reading (probe : string)
| Committing (probe : string) (r : Response) (frame : paneWatchFrame)
| Sending (m : Msg)
| Ended.

(** the watches by number, as pointers are compared; [current] are the watches
    of the clients and [sent] what was sent, latest last *)
Record Relay := mkRelay {
  current : gmap string Z; watches : gmap Z paneWatch; runs : gmap Z Run; next : Z; sent : list (string * Msg) }.

Definition set_current (v : gmap string Z) (s : Relay) : Relay := mkRelay v (watches s) (runs s) (next s) (sent s).
Definition set_watch (k : Z) (w : paneWatch) (s : Relay) : Relay :=
  mkRelay (current s) (<[k := w]> (watches s)) (runs s) (next s) (sent s).
Definition set_run (k : Z) (r : Run) (s : Relay) : Relay := mkRelay (current s) (watches s) (<[k := r]> (runs s)) (next s) (sent s).
Definition send (c : string) (m : Msg) (s : Relay) : Relay :=
  mkRelay (current s) (watches s) (runs s) (next s) (sent s ++ [(c, m)]).

Definition cancel (k : Z) (s : Relay) : Relay :=
  match watches s !! k with None => s | Some w => set_watch k (set_cancelled w) s end.

Definition startPaneWatch (c : string) (msg : message) (s : Relay) : Relay :=
  let id := stringValue msg "pane_id" in
  if String.eqb id "" then s else
  let lines := clampLines (Gate.messageInt wideInt wideSame (valueOf msg "lines") 30) in
  let format := if String.eqb (stringValue msg "format") "ansi" then "ansi"%string else "text"%string in
  let interval := requestedPaneWatchInterval (valueOf msg "interval_ms") in
  let w := mkWatch c id lines format interval false None None "" in
  let s := match current s !! c with None => s | Some previous => cancel previous s end in
  mkRelay (<[c := next s]> (current s)) (<[next s := w]> (watches s))
    (<[next s := Opening (stringValue msg "content_fingerprint")]> (runs s)) (next s + 1) (sent s).

Definition stopPaneWatch (c id : string) (s : Relay) : Relay :=
  match current s !! c with
  | None => s
  | Some k =>
      match watches s !! k with
      | Some w => if String.eqb id "" || String.eqb (paneID w) id
                  then cancel k (set_current (delete c (current s)) s) else s
      | None => s
      end
  end.

Definition paneWatchCurrent (k : Z) (w : paneWatch) (s : Relay) : bool := bool_decide (current s !! client w = Some k).

Definition handlePaneApplied (c : string) (msg : message) (s : Relay) : Relay :=
  let id := stringValue msg "pane_id" in
  let fp := stringValue msg "content_fingerprint" in
  match current s !! c with
  | None => s
  | Some k =>
      match watches s !! k with
      | None => s
      | Some w =>
          if negb (String.eqb (paneID w) id) || String.eqb fp "" then s
          else if from_option (fun p => String.eqb (contentFingerprint p) fp) false (pending w)
          then set_watch k (set_frames (pending w) None w) s
          else if from_option (fun a => String.eqb (contentFingerprint a) fp) false (acknowledged w) then s
          else send c (Resync id) s
      end
  end.

(** the message [read_pane], [r] being the prepared response *)
Definition handleReadPane (c : string) (msg : message) (r : Response) (s : Relay) : Relay :=
  let s := stopPaneWatch c (stringValue msg "pane_id") s in
  match unchangedPaneResponse msg r with
  | (_, Some m) => send c m s
  | (r, None) => send c (Content r) s
  end.

(** *** The goroutine of a watch *)

(** the deferred function *)
Definition finish (k : Z) (w : paneWatch) (s : Relay) : Relay :=
  set_run k Ended (if paneWatchCurrent k w s then set_current (delete (client w) (current s)) s else s).

(** the locked part that files a frame; [m] is its message *)
Definition file (k : Z) (w : paneWatch) (frame : paneWatchFrame) (m : option Msg) (s : Relay) : Relay :=
  match m with
  | None => set_run k Waiting (set_watch k (set_frames (Some frame) (pending w) w) s)
  | Some m => set_run k (Sending m) (set_watch k (set_frames (acknowledged w) (Some frame) w) s)
  end.

(** what the environment answers *)
Inductive Answer :=
| Tick
| Done
| Probed (agent : string) (r : Response)
| Read (agent : string) (r : Response).

Definition runPaneWatch (k : Z) (a : Answer) (s : Relay) : option Relay :=
  let? w := watches s !! k in
  let? at_ := runs s !! k in
  match at_, a with
  | Opening known, Tick => Some (if paneWatchCurrent k w s then set_run k (OpeningRead known) s else finish k w s)
  | OpeningRead known, Read agent r =>
      match frameOf agent r with
      | None => Some (set_run k (OpeningWait known) s)
      | Some (r, frame) =>
          let acked := if String.eqb known (contentFingerprint frame)
                       then Some (mkFrame (content frame) known "" "" false) else None in
          let? m := paneWatchUpdate r acked frame in
          Some (file k w frame m s)
      end
  | OpeningWait known, Tick => Some (set_run k (Opening known) s)
  | OpeningWait _, Done | Waiting, Done => Some (if cancelled w then finish k w s else s)
  | Waiting, Tick =>
      Some (if negb (paneWatchCurrent k w s) then s
            else match pending w with
                 | Some _ => s
                 | None => set_run k (Probing (probeFingerprint w) (acknowledged w)) s
                 end)
  | Probing previousProbe acked, Probed agent r =>
      match successfulPaneContent r with
      | None => Some (set_run k Waiting s)
      | Some text =>
          let probe := paneFingerprint text in
          Some (set_run k (if paneWatchNeedsFrameRead previousProbe probe acked agent then Reading probe else Waiting) s)
      end
  | Reading probe, Read agent r =>
      match frameOf agent r with
      | Some (r, frame) => Some (set_run k (if paneWatchCurrent k w s then Committing probe r frame else Waiting) s)
      | None => Some (set_run k Waiting s)
      end
  | Committing probe r frame, Tick =>
      match pending w with
      | Some _ => Some (set_run k Waiting s)
      | None =>
          let? m := paneWatchUpdate r (acknowledged w) frame in
          Some (file k (set_probe probe w) frame m s)
      end
  | Sending m, Tick => Some (set_run k Waiting (send (client w) m s))
  | _, _ => Some s
  end.

(** ** The phone *)

(** [TerminalFrame]; a field that is not set is [None] *)
Record TerminalFrame := mkTerminal {
  t_content : list Z; t_format : string; t_truncated : option bool; t_viewportOnly : option bool;
  t_viewportRows : option Z; t_noEcho : option bool; t_noEchoPrompt : option string; t_resizeSettling : option bool }.

(** the panes of one relay *)
Record Phone := mkPhone {
  terminalFrames : gmap string TerminalFrame; paneContentFingerprints : gmap string string;
  watchedPanes : gset string; paneWatchesStarted : gset string; pendingPaneReads : gmap string time }.

(** what the phone sends *)
Inductive Req :=
| ReadPane (id known : string)
| WatchPane (id known : string)
| Applied (id fp : string)
| Unwatch (id : string).

(** [online]: the socket takes messages; [realtime]: the relay has the
    capability [pane_realtime_delta] *)
Record Link := mkLink { at_ : time; online : bool; realtime : bool }.

Definition PANE_READ_RETRY_MS : Z := 35000.

Definition set_started (v : gset string) (p : Phone) : Phone :=
  mkPhone (terminalFrames p) (paneContentFingerprints p) (watchedPanes p) v (pendingPaneReads p).
Definition set_reads (v : gmap string time) (p : Phone) : Phone :=
  mkPhone (terminalFrames p) (paneContentFingerprints p) (watchedPanes p) (paneWatchesStarted p) v.
Definition set_watched (v : gset string) (p : Phone) : Phone :=
  mkPhone (terminalFrames p) (paneContentFingerprints p) v (paneWatchesStarted p) (pendingPaneReads p).
Definition label (id f : string) (p : Phone) : Phone :=
  mkPhone (terminalFrames p) (<[id := f]> (paneContentFingerprints p)) (watchedPanes p) (paneWatchesStarted p) (pendingPaneReads p).
Definition show (id : string) (t : TerminalFrame) (p : Phone) : Phone :=
  mkPhone (<[id := t]> (terminalFrames p)) (paneContentFingerprints p) (watchedPanes p) (paneWatchesStarted p) (pendingPaneReads p).

(** [sendRaw] *)
Definition sendRaw (l : Link) (r : Req) : list Req := if online l then [r] else [].

Definition readPane (l : Link) (force : bool) (id : string) (p : Phone) : Phone * list Req :=
  if negb force && from_option (fun requestedAt => negb (requestedAt =? 0) && (at_ l - requestedAt <? PANE_READ_RETRY_MS))
                     false (pendingPaneReads p !! id)
  then (p, [])
  else
    let p := set_started (paneWatchesStarted p ∖ {[id]}) p in
    let known := if force then ""%string else default ""%string (paneContentFingerprints p !! id) in
    (if online l then set_reads (<[id := at_ l]> (pendingPaneReads p)) p else p, sendRaw l (ReadPane id known)).

Definition startWatch (l : Link) (id : string) (p : Phone) : Phone * list Req :=
  if negb (bool_decide (id ∈ watchedPanes p)) || bool_decide (id ∈ paneWatchesStarted p)
     || bool_decide (is_Some (pendingPaneReads p !! id)) || negb (realtime l)
  then (p, [])
  else match paneContentFingerprints p !! id with
       | None => (p, [])
       | Some f =>
           if String.eqb f "" then (p, [])
           else (if online l then set_started ({[id]} ∪ paneWatchesStarted p) p else p, sendRaw l (WatchPane id f))
       end.

Definition watchPane (l : Link) (id : string) (p : Phone) : Phone * list Req :=
  startWatch l id (set_watched ({[id]} ∪ watchedPanes p) p).

Definition unwatchPane (l : Link) (id : string) (p : Phone) : Phone * list Req :=
  (set_started (paneWatchesStarted p ∖ {[id]}) (set_watched (watchedPanes p ∖ {[id]}) p),
   if realtime l then sendRaw l (Unwatch id) else []).

(** the format of a frame, never empty *)
Definition orElse (a b : string) : string := if String.eqb a "" then b else a.

Definition fullFrame (r : Response) : TerminalFrame :=
  let c := pane r in
  let secret := from_option (fun p => bool_decide (is_Some p)) false (no_echo r) in
  mkTerminal (jsString (pc_Content c)) (orElse (pc_Format c) "plain")
    (if pc_Truncated c then Some true else None) (if pc_ViewportOnly c then Some true else None) (pc_ViewportRows c)
    (if secret then Some true else None) (if secret then mjoin (no_echo r) else None)
    (if settling r then Some true else None).

(** [noEcho] and its prompt of a delta *)
Definition deltaNoEcho (r : Response) (old : TerminalFrame) : option bool * option string :=
  let on := match no_echo r with Some p => Some (bool_decide (is_Some p)) | None => t_noEcho old end in
  (on, if default false on
       then match mjoin (no_echo r) with Some p => Some p | None => t_noEchoPrompt old end
       else None).

Definition deltaFrame (r : Response) (text : list Z) (old : TerminalFrame) : TerminalFrame :=
  let c := pane r in
  mkTerminal text (orElse (pc_Format c) (orElse (t_format old) "plain")) (Some (pc_Truncated c)) (Some (pc_ViewportOnly c))
    (match pc_ViewportRows c with Some n => Some n | None => t_viewportRows old end)
    (deltaNoEcho r old).1 (deltaNoEcho r old).2 (Some (settling r)).

(** the text after a delta: [None] when the phone cannot apply it *)
Definition nextContent (p : Phone) (id base : string) (f : option string) (segments : list Segment) : option (list Z) :=
  let? frame := terminalFrames p !! id in
  let? known := paneContentFingerprints p !! id in
  if String.eqb known base then
    if bool_decide (f = Some base) && (match segments with [] => true | _ => false end) then Some (t_content frame)
    else applyPaneDelta (t_content frame) (Some (wireSegment <$> segments))
  else None.

Definition receive (l : Link) (m : Msg) (p : Phone) : Phone * list Req :=
  match m with
  | Unchanged id f =>
      let p := set_reads (delete id (pendingPaneReads p)) p in
      startWatch l id (if String.eqb f "" then p else label id f p)
  | Resync id => if bool_decide (id ∈ watchedPanes p) then readPane l true id p else (p, [])
  | Delta r base segments =>
      let id := pc_PaneID (pane r) in
      match nextContent p id base (fingerprint r) segments, fingerprint r, terminalFrames p !! id with
      | Some text, Some f, Some old =>
          (show id (deltaFrame r text old) (label id f p),
           if bool_decide (id ∈ watchedPanes p) then sendRaw l (Applied id f) else [])
      | _, _, _ => if bool_decide (id ∈ watchedPanes p) then readPane l true id p else (p, [])
      end
  | Content r =>
      let id := pc_PaneID (pane r) in
      let p := set_reads (delete id (pendingPaneReads p)) p in
      let f := default ""%string (fingerprint r) in
      let p := if String.eqb f "" then p else label id f p in
      let p := show id (fullFrame r) p in
      let acks := if bool_decide (id ∈ watchedPanes p) && ack_required r && negb (String.eqb f "")
                  then sendRaw l (Applied id f) else [] in
      let (p, reqs) := startWatch l id p in (p, acks ++ reqs)
  end.

(** ** The relay and a phone together *)

Record World := mkWorld { relay : Relay; phone : Phone }.

Definition noPhone : Phone := mkPhone ∅ ∅ ∅ ∅ ∅.
Definition start : World := mkWorld (mkRelay ∅ ∅ ∅ 0 []) noPhone.

(** [r] was prepared from an answer of the dispatcher about the pane [id] *)
Definition prepared (id : string) (r : Response) : Prop :=
  exists now ok msg p p' c, pc_PaneID c = id /\ pc_Format c <> ""%string /\
    preparePaneResponse now ok msg p (responseOf c) = Some (p', r).

(** text as the JSON decoder of the herdr client returns it, with an [int] of lines *)
Definition readable (r : Response) : Prop :=
  forall t, successfulPaneContent r = Some t -> wellFormed t /\ len (splitAfter newline t) < 2 ^ 62.

(** different texts have different fingerprints, and none is empty *)
Definition collisionFree (R : Response -> Prop) : Prop :=
  forall r r' t t', R r -> R r' -> successfulPaneContent r = Some t -> successfulPaneContent r' = Some t' ->
    paneFingerprint t = paneFingerprint t' -> t = t'.

(** a message that tells the phone nothing wrong about the text it shows: not
    the answer to a failed read, and no fingerprint other than the one it has *)
Definition plain (m : Msg) (p : Phone) : Prop :=
  match m with
  | Content r => is_Some (fingerprint r)
  | Unchanged id f => terminalFrames p !! id = None \/ paneContentFingerprints p !! id = Some f
  | _ => True
  end.

(** every order of the requests of all clients, the steps of the watches and
    what the phone does; a message may be lost, late or repeated.  [R] holds the
    responses of the run. *)
Inductive step (R : Response -> Prop) : World -> World -> Prop :=
| StepWatch c msg s p : step R (mkWorld s p) (mkWorld (startPaneWatch c msg s) p)
| StepUnwatch c id s p : step R (mkWorld s p) (mkWorld (stopPaneWatch c id s) p)
| StepApplied c msg s p : step R (mkWorld s p) (mkWorld (handlePaneApplied c msg s) p)
| StepRead c msg r s p : R r -> prepared (stringValue msg "pane_id") r ->
    step R (mkWorld s p) (mkWorld (handleReadPane c msg r s) p)
| StepGone k s p : step R (mkWorld s p) (mkWorld (cancel k s) p)
| StepRun k a w s s' p : watches s !! k = Some w ->
    (forall agent r, a = Read agent r -> R r /\ prepared (paneID w) r) ->
    runPaneWatch k a s = Some s' -> step R (mkWorld s p) (mkWorld s' p)
| StepReceive l c m s p : (c, m) ∈ sent s -> plain m p -> step R (mkWorld s p) (mkWorld s (receive l m p).1)
| StepReadPane l force id s p : step R (mkWorld s p) (mkWorld s (readPane l force id p).1)
| StepWatchPane l id s p : step R (mkWorld s p) (mkWorld s (watchPane l id p).1)
| StepUnwatchPane l id s p : step R (mkWorld s p) (mkWorld s (unwatchPane l id p).1).

(** *** What a frame on the phone is *)

(** the frame shows the response *)
Definition shows (t : TerminalFrame) (r : Response) : Prop :=
  t_content t = jsString (pc_Content (pane r)) /\ t_format t = pc_Format (pane r) /\
  default false (t_truncated t) = pc_Truncated (pane r) /\ default false (t_viewportOnly t) = pc_ViewportOnly (pane r) /\
  default false (t_resizeSettling t) = settling r /\
  default false (t_noEcho t) = bool_decide (is_Some (mjoin (no_echo r))) /\ t_noEchoPrompt t = mjoin (no_echo r).

Definition faithful (R : Response -> Prop) (p : Phone) : Prop :=
  forall id t f, terminalFrames p !! id = Some t -> paneContentFingerprints p !! id = Some f ->
  exists r x, R r /\ pc_PaneID (pane r) = id /\ successfulPaneContent r = Some x /\ f = paneFingerprint x /\ shows t r.

(** *** Responses *)

Definition fresh (r : Response) : Prop :=
  fingerprint r = None /\ ack_required r = false /\ pc_Format (pane r) <> ""%string /\
  (is_Some (successfulPaneContent r) -> is_Some (no_echo r)).

Lemma classify_keeps now ok msg p r p' r' : classifyPaneResponse now ok msg p r = Some (p', r') ->
  fingerprint r' = fingerprint r /\ ack_required r' = ack_required r /\ no_echo r' = no_echo r /\
  pc_Format (pane r') = pc_Format (pane r) /\ pc_PaneID (pane r') = pc_PaneID (pane r) /\
  pc_Error (pane r') = pc_Error (pane r) /\ pc_ViewportOnly (pane r') = pc_ViewportOnly (pane r).
Proof.
  unfold classifyPaneResponse. intros H. repeat (case_match; try done); simplify_eq/=; try done;
    destruct (History.MergeLimited _ _ _ _ _ _ _) as [m|]; cbn in H; simplify_eq/=; done.
Qed.

Lemma prepared_fresh id r : prepared id r -> fresh r /\ pc_PaneID (pane r) = id.
Proof.
  intros (now & ok & msg & p & p' & c & Hid & Hf & H). unfold preparePaneResponse in H.
  destruct (classifyPaneResponse now ok msg p (responseOf c)) as [[q r1]|] eqn:E; cbn in H; [|done].
  apply classify_keeps in E as (E1 & E2 & E3 & E4 & E5 & E6 & _). cbn in *.
  unfold successfulPaneContent in H.
  destruct (String.eqb (pc_Error (pane r1)) "") eqn:Ee.
  - destruct (Match _) as [prompt secret]. simplify_eq. unfold fresh. cbn. rewrite E4, E5. split; [|done].
    split_and!; try done.
  - simplify_eq. unfold fresh, successfulPaneContent. rewrite E1, E2, E4, E5, Ee. split; [|done]. split_and!; done.
Qed.

(** *** The messages of the relay *)

Section Faithful.
Context (R : Response -> Prop) (Hread : forall r, R r -> readable r).

Definition textOf (x : bytes) : Prop := exists r, R r /\ successfulPaneContent r = Some x.

Definition goodFrame (f : paneWatchFrame) : Prop :=
  textOf (content f) /\ contentFingerprint f = paneFingerprint (content f).

(** a response that was read, with its fingerprint *)
Definition labelled (r0 r : Response) (x : bytes) : Prop :=
  R r0 /\ fresh r0 /\ successfulPaneContent r0 = Some x /\ r = set_fingerprint (paneFingerprint x) r0.

Definition goodMsg (m : Msg) : Prop :=
  match m with
  | Content r => is_Some (fingerprint r) -> exists r0 x r1, labelled r0 r1 x /\ (r = r1 \/ r = set_ack r1)
  | Delta r base segments =>
      exists r0 y r1 x, labelled r0 r1 y /\ r = set_pane (set_text [] (pc_Truncated (pane r1)) (pane r1)) r1 /\
        textOf x /\ base = paneFingerprint x /\
        (Build x y = Some segments \/ (paneFingerprint x = paneFingerprint y /\ segments = copyAll y))
  | _ => True
  end.

Definition goodRun (r : Run) : Prop :=
  match r with
  | Committing _ r frame => exists r0, labelled r0 r (content frame) /\ contentFingerprint frame = paneFingerprint (content frame)
  | Sending m => goodMsg m
  | _ => True
  end.

Definition goodWatch (w : paneWatch) : Prop :=
  from_option goodFrame True (acknowledged w) /\ from_option goodFrame True (pending w).

Record good (s : Relay) : Prop := mkGood {
  g_watches : map_Forall (fun _ => goodWatch) (watches s);
  g_runs : map_Forall (fun _ => goodRun) (runs s);
  g_sent : Forall (fun cm => goodMsg cm.2) (sent s) }.

Lemma labelled_text r0 r x : labelled r0 r x -> textOf x.
Proof. intros (? & ? & ? & ->). by exists r0. Qed.

Lemma frameOf_labelled agent r0 r frame : R r0 -> fresh r0 -> frameOf agent r0 = Some (r, frame) ->
  labelled r0 r (content frame) /\ contentFingerprint frame = paneFingerprint (content frame).
Proof.
  unfold frameOf. intros HR Hf H. destruct (successfulPaneContent r0) as [x|] eqn:E; cbn in H; simplify_eq/=.
  by split; [split_and!|].
Qed.

Lemma update_good r0 r acked frame m : labelled r0 r (content frame) ->
  contentFingerprint frame = paneFingerprint (content frame) -> from_option goodFrame True acked ->
  paneWatchUpdate r acked frame = Some (Some m) -> goodMsg m.
Proof.
  intros Hl Hf Ha. unfold paneWatchUpdate.
  assert (Hc : goodMsg (Content (set_ack r))) by (intros _; exists r0, (content frame), r; auto).
  destruct acked as [a|]; [|by intros [= <-]]. destruct Ha as [Ht Hfa]. case_match; [done|].
  destruct (String.eqb_spec (contentFingerprint a) (contentFingerprint frame)) as [E|E].
  { intros [= <-]. exists r0, (content frame), r, (content a). split_and!; try done. right. split; [|done]. congruence. }
  destruct (Build (content a) (content frame)) as [segments|] eqn:Eb; cbn; [|done]. case_match; intros [= <-]; [|done].
  exists r0, (content frame), r, (content a). split_and!; try done. by left.
Qed.

(** updates of one part *)
Lemma good_watch k w s : goodWatch w -> good s -> good (set_watch k w s).
Proof. intros Hw [H1 H2 H3]. constructor; cbn; [|done..]. by apply map_Forall_insert_2. Qed.
Lemma good_run k r s : goodRun r -> good s -> good (set_run k r s).
Proof. intros Hr [H1 H2 H3]. constructor; cbn; [done| |done]. by apply map_Forall_insert_2. Qed.
Lemma good_current v s : good s -> good (set_current v s).
Proof. intros [H1 H2 H3]. by constructor. Qed.
Lemma good_send c m s : goodMsg m -> good s -> good (send c m s).
Proof. intros Hm [H1 H2 H3]. constructor; cbn; [done..|]. apply Forall_app. by repeat constructor. Qed.
Lemma good_cancel k s : good s -> good (cancel k s).
Proof.
  intros H. unfold cancel. destruct (watches s !! k) as [w|] eqn:E; [|done]. apply good_watch; [|done].
  exact (g_watches _ H _ _ E).
Qed.
Lemma good_stop c id s : good s -> good (stopPaneWatch c id s).
Proof. intros H. unfold stopPaneWatch. repeat case_match; try done. by apply good_cancel, good_current. Qed.
Lemma good_start c msg s : good s -> good (startPaneWatch c msg s).
Proof.
  intros H. unfold startPaneWatch. case_match; [done|].
  set (s' := match current s !! c with None => s | Some previous => cancel previous s end).
  assert (good s') as [H1 H2 H3] by (subst s'; case_match; [by apply good_cancel|done]).
  constructor; cbn; [apply map_Forall_insert_2..|]; done.
Qed.
Lemma good_finish k w s : good s -> good (finish k w s).
Proof. intros H. unfold finish. apply good_run; [done|]. case_match; [by apply good_current|done]. Qed.
Lemma good_file k w frame m s : goodWatch w -> goodFrame frame -> from_option goodMsg True m -> good s ->
  good (file k w frame m s).
Proof. intros [Ha Hp] Hf Hm H. unfold file. destruct m as [m|]; apply good_run, good_watch; done. Qed.

#[local] Hint Resolve good_run good_watch good_send good_stop good_start good_finish good_cancel good_current : core.

Lemma good_applied c msg s : good s -> good (handlePaneApplied c msg s).
Proof.
  intros H. unfold handlePaneApplied. destruct (current s !! c) as [k|]; [|done].
  destruct (watches s !! k) as [w|] eqn:E; [|done]. destruct (g_watches _ H _ _ E) as [Ha Hp].
  repeat (case_match; try done); [by apply good_watch|by apply good_send].
Qed.

Lemma good_read c msg r id s : R r -> prepared id r -> good s -> good (handleReadPane c msg r s).
Proof.
  intros HR [Hf _]%prepared_fresh H. unfold handleReadPane, unchangedPaneResponse.
  destruct (successfulPaneContent r) as [x|] eqn:E.
  - destruct (_ || _); apply good_send; auto; [|done]. intros _. exists r, x, (set_fingerprint (paneFingerprint x) r). split; [by split_and!|by left].
  - apply good_send; auto. cbn. destruct Hf as [-> _]. by intros [? ?].
Qed.

Lemma good_step_run k a w s s' : watches s !! k = Some w ->
  (forall agent r, a = Read agent r -> R r /\ prepared (paneID w) r) ->
  good s -> runPaneWatch k a s = Some s' -> good s'.
Proof.
  intros Ew Ha H. pose proof (g_watches _ H _ _ Ew) as Hw. unfold runPaneWatch. rewrite Ew. cbn.
  destruct (runs s !! k) as [at_|] eqn:Er; cbn; [|done]. pose proof (g_runs _ H _ _ Er) as Hrun.
  destruct at_ as [known|known|known| |pp ak|pr|pr rr fr|m|], a as [| |agent r|agent r];
    try (intros [= <-]; repeat (case_match; try done); auto; done).
  - destruct (Ha agent r eq_refl) as (HR & [Hf _]%prepared_fresh).
    destruct (frameOf agent r) as [[r' frame]|] eqn:Ef; [|intros [= <-]; by apply good_run].
    apply frameOf_labelled in Ef as [Hl Hfp]; [|done..].
    set (acked := if String.eqb known _ then _ else _).
    destruct (paneWatchUpdate r' acked frame) as [m|] eqn:Eu; cbn; [|done]. intros [= <-].
    pose proof (labelled_text _ _ _ Hl) as Ht.
    apply good_file; try done. destruct m as [m|]; [|done]. eapply update_good; [done|done| |exact Eu].
    subst acked. destruct (String.eqb_spec known (contentFingerprint frame)) as [->|]; [|done]. by split.
  - destruct (successfulPaneContent r); intros [= <-]; apply good_run; try done. by case_match.
  - destruct (Ha agent r eq_refl) as (HR & [Hf _]%prepared_fresh).
    destruct (frameOf agent r) as [[r' frame]|] eqn:Ef; intros [= <-]; apply good_run; try done.
    apply frameOf_labelled in Ef as [Hl Hfp]; [|done..]. case_match; [by exists r|done].
  - destruct (pending w) eqn:Ep; [intros [= <-]; by apply good_run|].
    destruct Hrun as (r0 & Hl & Hfp). destruct (paneWatchUpdate rr (acknowledged w) fr) as [m|] eqn:Eu; cbn; [|done].
    intros [= <-]. pose proof (labelled_text _ _ _ Hl) as Ht. destruct Hw as [Hwa Hwp].
    apply good_file; [by split|by split| |done]. destruct m as [m|]; [|done].
    exact (update_good _ _ _ _ _ Hl Hfp Hwa Eu).
  - intros [= <-]. by apply good_run, good_send.
Qed.

(** *** The phone *)

Context (HR : collisionFree R) (Hsum : forall b, length (sum256 b) = 32%nat).

Lemma fingerprint_injective x y : textOf x -> textOf y -> paneFingerprint x = paneFingerprint y -> x = y.
Proof. intros (r & ? & ?) (r' & ? & ?). by apply (HR r r'). Qed.

Lemma fingerprint_nonempty x : paneFingerprint x <> ""%string.
Proof. unfold paneFingerprint. pose proof (Hsum x). by destruct (sum256 x). Qed.

Lemma faithful_frames p p' : terminalFrames p' = terminalFrames p -> paneContentFingerprints p' = paneContentFingerprints p ->
  faithful R p -> faithful R p'.
Proof. intros E1 E2 H. unfold faithful. by rewrite E1, E2. Qed.

Lemma readPane_keeps l force id p : terminalFrames (readPane l force id p).1 = terminalFrames p /\
  paneContentFingerprints (readPane l force id p).1 = paneContentFingerprints p.
Proof. unfold readPane. by repeat case_match. Qed.

Lemma startWatch_keeps l id p : terminalFrames (startWatch l id p).1 = terminalFrames p /\
  paneContentFingerprints (startWatch l id p).1 = paneContentFingerprints p.
Proof. unfold startWatch. by repeat case_match. Qed.

Lemma faithful_read l force id p : faithful R p -> faithful R (readPane l force id p).1.
Proof. apply faithful_frames; apply readPane_keeps. Qed.

Lemma faithful_start l id p : faithful R p -> faithful R (startWatch l id p).1.
Proof. apply faithful_frames; apply startWatch_keeps. Qed.

(** a frame with its label replaces what was shown of the pane *)
Lemma faithful_show id t f p r x : R r -> pc_PaneID (pane r) = id -> successfulPaneContent r = Some x ->
  f = paneFingerprint x -> shows t r -> faithful R p -> faithful R (show id t (label id f p)).
Proof.
  intros Hr Hid Hx Hf Hs H id' t' f'. cbn. destruct (decide (id = id')) as [<-|Hne].
  - rewrite !lookup_insert_eq. intros [= <-] [= <-]. by exists r, x.
  - rewrite !lookup_insert_ne by done. apply H.
Qed.

Lemma shows_full r0 r x : labelled r0 r x -> shows (fullFrame r) r0 /\ shows (fullFrame (set_ack r)) r0.
Proof.
  intros (_ & Hf & Hx & ->). destruct Hf as (_ & _ & Hfmt & He). destruct (He (mk_is_Some _ _ Hx)) as [q Eq].
  assert (Ht : orElse (pc_Format (pane r0)) "plain" = pc_Format (pane r0)).
  { unfold orElse. by destruct (String.eqb_spec (pc_Format (pane r0)) ""). }
  unfold shows, fullFrame. cbn. rewrite Eq, Ht. cbn.
  destruct (pc_Truncated _), (pc_ViewportOnly _), (settling r0), q; done.
Qed.

Lemma shows_delta r0 r y old : labelled r0 r y ->
  shows (deltaFrame (set_pane (set_text [] (pc_Truncated (pane r)) (pane r)) r) (jsString y) old) r0.
Proof.
  intros (_ & Hf & Hx & ->). destruct Hf as (_ & _ & Hfmt & He). destruct (He (mk_is_Some _ _ Hx)) as [q Eq].
  assert (Hy : y = pc_Content (pane r0)) by (unfold successfulPaneContent in Hx; case_match; by simplify_eq).
  assert (Ht : forall d, orElse (pc_Format (pane r0)) d = pc_Format (pane r0)).
  { intros d. unfold orElse. by destruct (String.eqb_spec (pc_Format (pane r0)) ""). }
  unfold shows, deltaFrame, deltaNoEcho. cbn. rewrite Eq, Ht, Hy. cbn. by destruct q.
Qed.

(** the delta is applied to the text it was built from *)
Lemma delta_exact x y segments text : textOf x -> textOf y ->
  (Build x y = Some segments \/ (paneFingerprint x = paneFingerprint y /\ segments = copyAll y)) ->
  applyPaneDelta (jsString x) (Some (wireSegment <$> segments)) = Some text -> text = jsString y.
Proof.
  intros Hx Hy [Hb|[Hf ->]] Ha.
  - destruct Hx as (rx & Hrx & Ex), Hy as (ry & Hry & Ey).
    destruct (Hread rx Hrx x Ex) as [? ?], (Hread ry Hry y Ey) as [? ?]. rewrite (phone_build x y segments) in Ha by done.
    by destruct (existsb lost segments); simplify_eq.
  - rewrite (fingerprint_injective x y Hx Hy Hf) in *. destruct Hy as (ry & Hry & Ey). destruct (Hread ry Hry y Ey) as [? ?].
    rewrite phone_copyAll in Ha by done. by simplify_eq.
Qed.

Lemma faithful_receive l m p : goodMsg m -> plain m p -> faithful R p -> faithful R (receive l m p).1.
Proof.
  intros Hm Hp H. destruct m as [r|r base segments|id f|id]; cbn [receive].
  - destruct (Hm Hp) as (r0 & x & r1 & Hl & Hr). pose proof (shows_full _ _ _ Hl) as [Hs1 Hs2].
    pose proof Hl as (HR0 & _ & Hx & E1).
    assert (Ef : fingerprint r = Some (paneFingerprint x)) by (destruct Hr as [-> | ->]; by rewrite E1).
    assert (Hs : shows (fullFrame r) r0) by by destruct Hr as [-> | ->].
    assert (Ei : pc_PaneID (pane r) = pc_PaneID (pane r0)) by (destruct Hr as [-> | ->]; by rewrite E1).
    rewrite Ef. cbn. set (id := pc_PaneID (pane r)) in *. destruct (startWatch l id _) as [p' reqs] eqn:E. cbn.
    replace p' with (startWatch l id (show id (fullFrame r) (if String.eqb (paneFingerprint x) "" then set_reads (delete id (pendingPaneReads p)) p
      else label id (paneFingerprint x) (set_reads (delete id (pendingPaneReads p)) p)))).1 by by rewrite E.
    apply faithful_start. destruct (String.eqb_spec (paneFingerprint x) "") as [En|_]; [by apply fingerprint_nonempty in En|].
    by eapply faithful_show.
  - destruct Hm as (r0 & y & r1 & x & Hl & -> & Hx & -> & Hseg). cbn.
    pose proof Hl as (HR0 & _ & Hy & E1). pose proof (labelled_text _ _ _ Hl) as Hty.
    assert (Ei : pc_PaneID (pane r1) = pc_PaneID (pane r0)) by by rewrite E1.
    assert (Ef : fingerprint r1 = Some (paneFingerprint y)) by by rewrite E1. rewrite Ef. cbn.
    assert (Hkeep : faithful R (if bool_decide (pc_PaneID (pane r1) ∈ watchedPanes p) then readPane l true (pc_PaneID (pane r1)) p else (p, [])).1)
      by (case_bool_decide; [by apply faithful_read|done]).
    destruct (nextContent _ _ _ _ _) as [text|] eqn:En; [|done].
    destruct (terminalFrames p !! pc_PaneID (pane r1)) as [old|] eqn:Eo; [|done]. cbn.
    assert (text = jsString y) as ->; [|eapply faithful_show; [exact HR0|done|exact Hy|done|by apply shows_delta|done]].
    unfold nextContent in En. rewrite Eo in En. cbn in En.
    destruct (paneContentFingerprints p !! _) as [known|] eqn:Ek; cbn in En; [|done].
    destruct (String.eqb_spec known (paneFingerprint x)) as [->|]; [|done].
    destruct (H _ _ _ Eo Ek) as (r' & x' & HR' & _ & Hx' & Hfp & Hsh).
    assert (x' = x) as ->. { symmetry. apply fingerprint_injective; [done|by exists r'|done]. }
    assert (Ec : t_content old = jsString x).
    { destruct Hsh as [-> _]. unfold successfulPaneContent in Hx'. case_match; by simplify_eq. }
    rewrite Ec in En. case_match eqn:Eb; [|exact (delta_exact _ _ _ _ Hx Hty Hseg En)].
    simplify_eq. apply andb_true_iff in Eb as [Eb _]. apply bool_decide_eq_true in Eb as [= Eb'].
    f_equal. by apply fingerprint_injective.
  - apply faithful_start. case_match; [done|]. intros id' t f'. cbn. intros Et. destruct (decide (id = id')) as [<-|Hne].
    + rewrite lookup_insert_eq. intros [= <-]. destruct Hp as [Hp|Hp]; [congruence|by apply H].
    + rewrite lookup_insert_ne by done. by apply H.
  - case_bool_decide; [by apply faithful_read|done].
Qed.

Lemma good_start_world : good (relay start).
Proof. by constructor. Qed.

Lemma world_good w : rtc (step R) start w -> good (relay w) /\ faithful R (phone w).
Proof.
  apply (rtc_ind_r (fun w => good (relay w) /\ faithful R (phone w)) start); [split; [apply good_start_world|by intros ? ? ?]|].
  intros w1 w2 _ Hs [Hg Hf]. destruct Hs; cbn in *; (split; [auto|try done]); try (by apply good_applied).
  - by eapply good_read.
  - by eapply good_step_run.
  - apply faithful_receive; try done. pose proof (g_sent _ Hg) as Hs. rewrite Forall_forall in Hs. exact (Hs _ H).
  - by apply faithful_read.
  - by apply faithful_start.
Qed.

End Faithful.

(** C12: the phone never shows a text under the name of another: in every order of
    requests, watches, sends, losses and repetitions, the frame the phone shows
    of a pane is one the relay read of that pane, with its text, format, flags
    and secret prompt, and its label is the fingerprint of that text — as long
    as different texts have different fingerprints and the phone is not told
    about a failed read or an older text ([plain]). *)
Theorem phone_shows_frame (Hsum : forall b, length (sum256 b) = 32%nat) (R : Response -> Prop) w :
  (forall r, R r -> readable r) -> collisionFree R -> rtc (step R) start w -> faithful R (phone w).
Proof. intros Hread HR Hw. by apply (world_good R Hread HR Hsum w Hw). Qed.

(** ** Flow control *)

(** one step of the relay *)
Inductive Event :=
| OnWatch (c : string) (msg : message)
| OnUnwatch (c id : string)
| OnApplied (c : string) (msg : message)
| OnRead (c : string) (msg : message) (r : Response)
| OnGone (k : Z)
| OnRun (k : Z) (a : Answer).

Definition exec (s : Relay) (e : Event) : option Relay :=
  match e with
  | OnWatch c msg => Some (startPaneWatch c msg s)
  | OnUnwatch c id => Some (stopPaneWatch c id s)
  | OnApplied c msg => Some (handlePaneApplied c msg s)
  | OnRead c msg r => Some (handleReadPane c msg r s)
  | OnGone k => Some (cancel k s)
  | OnRun k a => runPaneWatch k a s
  end.

Definition unacknowledged (k : Z) (s : Relay) : bool := from_option (fun w => bool_decide (is_Some (pending w))) false (watches s !! k).
Definition sending (k : Z) (s : Relay) : bool := match runs s !! k with Some (Sending _) => true | _ => false end.

(** the watch [k] sends a frame; a frame of it is acknowledged *)
Definition sends (k : Z) (s : Relay) (e : Event) : bool :=
  match e with OnRun k' Tick => bool_decide (k' = k) && sending k s | _ => false end.
Definition acks (k : Z) (s : Relay) (e : Event) : bool :=
  match e with OnApplied c msg => unacknowledged k s && negb (unacknowledged k (handlePaneApplied c msg s)) | _ => false end.

(** the frames the watch sent and the acknowledgements it took *)
Fixpoint tally (k : Z) (s : Relay) (es : list Event) : Z * Z :=
  match es with
  | [] => (0, 0)
  | e :: es =>
      let t := match exec s e with Some s' => tally k s' es | None => (0, 0) end in
      (Z.b2z (sends k s e) + t.1, Z.b2z (acks k s e) + t.2)
  end.

Definition opening (r : Run) : bool :=
  match r with Opening _ | OpeningRead _ | OpeningWait _ => true | _ => false end.

Record numbered (s : Relay) : Prop := mkNumbered {
  n_new : forall k, next s <= k -> watches s !! k = None /\ runs s !! k = None;
  n_opening : forall k r, runs s !! k = Some r -> opening r = true -> unacknowledged k s = false }.

Lemma numbered_keeps s s' : watches s' = watches s -> runs s' = runs s -> next s' = next s -> numbered s -> numbered s'.
Proof. intros E1 E2 E3 [H1 H2]. constructor; unfold unacknowledged in *; by rewrite ?E1, ?E2, ?E3. Qed.

(** a new version of a watch whose pending frame is no other *)
Lemma cancel_keeps k k' s : unacknowledged k (cancel k' s) = unacknowledged k s /\ sending k (cancel k' s) = sending k s /\
  (numbered s -> numbered (cancel k' s)).
Proof.
  unfold cancel. destruct (watches s !! k') as [w|] eqn:E; [|done]. unfold unacknowledged. cbn.
  assert (Hp : forall k0, from_option (fun w => bool_decide (is_Some (pending w))) false (<[k':=set_cancelled w]> (watches s) !! k0) =
                   from_option (fun w => bool_decide (is_Some (pending w))) false (watches s !! k0)).
  { intros k0. destruct (decide (k' = k0)) as [<-|]; [by rewrite lookup_insert_eq, E|by rewrite lookup_insert_ne]. }
  split_and!; [apply Hp|done|]. intros [H1 H2]. constructor; unfold unacknowledged; cbn.
  - intros k0 Hk. destruct (H1 k0 Hk) as [Hw Hr]. rewrite lookup_insert_ne by congruence. done.
  - intros k0 r Hr Ho. rewrite Hp. by eapply H2.
Qed.

Lemma stop_keeps k c id s : unacknowledged k (stopPaneWatch c id s) = unacknowledged k s /\ sending k (stopPaneWatch c id s) = sending k s /\
  (numbered s -> numbered (stopPaneWatch c id s)).
Proof.
  unfold stopPaneWatch. repeat (case_match; try done).
  destruct (cancel_keeps k z (set_current (delete c (current s)) s)) as (-> & -> & Hn). split_and!; try done.
  intros Hs. apply Hn. by apply (numbered_keeps s).
Qed.

Lemma send_keeps k c m s : unacknowledged k (send c m s) = unacknowledged k s /\ sending k (send c m s) = sending k s /\
  (numbered s -> numbered (send c m s)).
Proof. split_and!; try done. by apply numbered_keeps. Qed.

(** what one step does to the counts of the watch *)
Definition balanced (k : Z) (s : Relay) (e : Event) (s' : Relay) : Prop :=
  Z.b2z (sends k s e) + Z.b2z (sending k s') + Z.b2z (unacknowledged k s) =
  Z.b2z (acks k s e) + Z.b2z (unacknowledged k s') + Z.b2z (sending k s).

Lemma balanced_start k c msg s : numbered s ->
  balanced k s (OnWatch c msg) (startPaneWatch c msg s) /\ numbered (startPaneWatch c msg s).
Proof.
  intros Hn. unfold startPaneWatch, balanced. cbn [sends acks Z.b2z]. case_match; [split; [lia|done]|].
  set (s1 := match current s !! c with None => s | Some previous => cancel previous s end).
  assert (unacknowledged k s1 = unacknowledged k s /\ sending k s1 = sending k s /\ numbered s1) as (<- & <- & H1).
  { subst s1. case_match; [|done]. destruct (cancel_keeps k z s) as (-> & -> & ?). auto. }
  assert (next s1 = next s) as _ by (subst s1; unfold cancel; by repeat case_match).
  clearbody s1. destruct (n_new _ H1 (next s1) ltac:(lia)) as [Hw Hr]. split.
  - unfold unacknowledged, sending. cbn. destruct (decide (next s1 = k)) as [<-|Hne].
    + rewrite !lookup_insert_eq, Hw, Hr. done.
    + rewrite !lookup_insert_ne by done. lia.
  - constructor; unfold unacknowledged; cbn.
    + intros k' Hk. rewrite !lookup_insert_ne by lia. apply (n_new _ H1). lia.
    + intros k' r. destruct (decide (next s1 = k')) as [<-|Hne].
      * rewrite !lookup_insert_eq. done.
      * rewrite !lookup_insert_ne by done. apply (n_opening _ H1).
Qed.

(** replacing the watch and the place of one goroutine *)
Lemma numbered_set k w r s : numbered s -> is_Some (watches s !! k) -> is_Some (runs s !! k) ->
  (opening r = true -> pending w = None) -> numbered (set_run k r (set_watch k w s)).
Proof.
  intros [H1 H2] [w0 Hw] [r0 Hr] Ho. constructor; unfold unacknowledged; cbn.
  - intros k' Hk. destruct (H1 k' Hk). rewrite !lookup_insert_ne by congruence. done.
  - intros k' r'. destruct (decide (k = k')) as [<-|Hne].
    + rewrite !lookup_insert_eq. intros [= <-] Hop. cbn. by rewrite Ho.
    + rewrite !lookup_insert_ne by done. apply H2.
Qed.

Lemma set_same k w s : watches s !! k = Some w -> set_watch k w s = s.
Proof. intros H. unfold set_watch. rewrite insert_id by done. by destruct s. Qed.

Lemma balanced_applied k c msg s : numbered s ->
  balanced k s (OnApplied c msg) (handlePaneApplied c msg s) /\ numbered (handlePaneApplied c msg s).
Proof.
  intros Hn. assert (H : (sending k (handlePaneApplied c msg s) = sending k s) /\
    (unacknowledged k (handlePaneApplied c msg s) = true -> unacknowledged k s = true) /\ numbered (handlePaneApplied c msg s)).
  { unfold handlePaneApplied. destruct (current s !! c) as [k'|]; [|done]. destruct (watches s !! k') as [w|] eqn:E; [|done].
    case_match; [done|]. case_match; [|case_match; [done|]; destruct (send_keeps k c (Resync (stringValue msg "pane_id")) s) as (-> & -> & ?); auto].
    split_and!; [done| |].
    - unfold unacknowledged. cbn. destruct (decide (k' = k)) as [<-|]; [by rewrite lookup_insert_eq|by rewrite lookup_insert_ne].
    - destruct Hn as [H1 H2]. constructor; unfold unacknowledged; cbn.
      + intros k0 Hk. destruct (H1 k0 Hk). rewrite lookup_insert_ne by congruence. done.
      + intros k0 r Hr Ho. destruct (decide (k' = k0)) as [<-|]; [by rewrite lookup_insert_eq|]. rewrite lookup_insert_ne by done. by eapply H2. }
  destruct H as (Hs & Hu & Hn'). split; [|done]. unfold balanced. cbn [sends acks]. rewrite Hs.
  destruct (unacknowledged k s), (unacknowledged k (handlePaneApplied c msg s)); cbn in *; try lia; by specialize (Hu eq_refl).
Qed.

Definition isSending (r : Run) : bool := match r with Sending _ => true | _ => false end.

Lemma sending_run k k' r s : sending k (set_run k' r s) = if decide (k' = k) then isSending r else sending k s.
Proof.
  unfold sending. cbn. destruct (decide (k' = k)) as [<-|]; [rewrite lookup_insert_eq; by destruct r|by rewrite lookup_insert_ne].
Qed.
Lemma unack_watch k k' w s : unacknowledged k (set_watch k' w s) =
  if decide (k' = k) then bool_decide (is_Some (pending w)) else unacknowledged k s.
Proof.
  unfold unacknowledged. cbn. destruct (decide (k' = k)) as [<-|]; [by rewrite lookup_insert_eq|by rewrite lookup_insert_ne].
Qed.

Lemma unack_run k k' r s : unacknowledged k (set_run k' r s) = unacknowledged k s.
Proof. done. Qed.
Lemma sending_watch k k' w s : sending k (set_watch k' w s) = sending k s.
Proof. done. Qed.

(** a goroutine that is not at its send *)
Lemma not_sending k k' a r s : runs s !! k' = Some r -> isSending r = false ->
  sends k s (OnRun k' a) = false /\ (k' = k -> sending k s = false).
Proof.
  intros Er H. assert (Hk : k' = k -> sending k s = false) by (intros <-; unfold sending; rewrite Er; by destruct r).
  split; [|done]. cbn. destruct a; try done. destruct (decide (k' = k)) as [E|]; [by rewrite Hk, andb_false_r|by rewrite bool_decide_eq_false_2].
Qed.

(** a move of the goroutine that neither sends nor files a frame *)
Lemma balanced_move k k' a r r' s : runs s !! k' = Some r -> isSending r = false -> isSending r' = false ->
  balanced k s (OnRun k' a) (set_run k' r' s).
Proof.
  intros Er H H'. destruct (not_sending k k' a r s Er H) as [Hs Hk]. unfold balanced. rewrite Hs, sending_run, unack_run, H'. cbn [acks].
  destruct (decide (k' = k)) as [E|]; [rewrite (Hk E)|]; lia.
Qed.

Lemma balanced_file k k' a w0 r w frame m s : watches s !! k' = Some w0 -> runs s !! k' = Some r -> isSending r = false ->
  pending w0 = None -> pending w = None -> balanced k s (OnRun k' a) (file k' w frame m s).
Proof.
  intros Ew Er H Hp0 Hp. destruct (not_sending k k' a r s Er H) as [Hs Hk].
  assert (Hu : k' = k -> unacknowledged k s = false) by (intros <-; unfold unacknowledged; rewrite Ew; cbn; by rewrite Hp0).
  unfold balanced. rewrite Hs. cbn [acks]. destruct m as [m|]; cbn [file]; rewrite sending_run, unack_run, unack_watch, sending_watch;
    (destruct (decide (k' = k)) as [E|]; [rewrite (Hk E), (Hu E); cbn [set_frames pending]; rewrite ?Hp; done|lia]).
Qed.

Lemma balanced_run k k' a s s' : numbered s -> runPaneWatch k' a s = Some s' -> balanced k s (OnRun k' a) s' /\ numbered s'.
Proof.
  intros Hn. unfold runPaneWatch. destruct (watches s !! k') as [w|] eqn:Ew; cbn; [|done].
  destruct (runs s !! k') as [r|] eqn:Er; cbn; [|done].
  assert (Hstay : isSending r = false -> balanced k s (OnRun k' a) s /\ numbered s).
  { intros H. split; [|done]. destruct (not_sending k k' a r s Er H) as [Hs _]. unfold balanced. rewrite Hs. cbn. lia. }
  assert (Hmove : forall r', isSending r = false -> isSending r' = false -> (opening r' = true -> opening r = true) ->
    balanced k s (OnRun k' a) (set_run k' r' s) /\ numbered (set_run k' r' s)).
  { intros r' H H' Ho. split; [by eapply balanced_move|]. rewrite <- (set_same k' w s) by done. apply numbered_set; try done.
    intros Ho'. pose proof (n_opening _ Hn k' r Er (Ho Ho')) as Hu. unfold unacknowledged in Hu. rewrite Ew in Hu. cbn in Hu.
    by destruct (pending w). }
  assert (Hend : isSending r = false -> balanced k s (OnRun k' a) (finish k' w s) /\ numbered (finish k' w s)).
  { intros H. unfold finish. case_match; [|by apply Hmove]. destruct (Hmove Ended H eq_refl) as [Hb Hm]; [done|].
    split; [exact Hb|]. by apply (numbered_keeps (set_run k' Ended s)). }
  assert (Hfile : forall w1 frame m, isSending r = false -> pending w = None -> pending w1 = None ->
    balanced k s (OnRun k' a) (file k' w1 frame m s) /\ numbered (file k' w1 frame m s)).
  { intros w1 frame m H Hp Hp1. split; [by eapply balanced_file|]. destruct m; apply numbered_set; done. }
  destruct r as [known|known|known| |pp ak|pr|pr rr fr|m|], a as [| |agent r|agent r];
    try (intros [= <-]; repeat (case_match; try (by apply Hmove); try (by apply Hstay); try (by apply Hend)); by auto).
  - destruct (frameOf agent r) as [[r' frame]|]; [|intros [= <-]; by apply Hmove].
    destruct (paneWatchUpdate _ _ _) as [m|]; cbn; [|done]. intros [= <-].
    pose proof (n_opening _ Hn k' _ Er eq_refl) as Hu. unfold unacknowledged in Hu. rewrite Ew in Hu. cbn in Hu.
    destruct (pending w) eqn:Ep; [done|]. by apply Hfile.
  - destruct (successfulPaneContent r); intros [= <-]; apply Hmove; try done; by case_match.
  - destruct (frameOf agent r) as [[r' frame]|]; intros [= <-]; apply Hmove; try done; by case_match.
  - destruct (pending w) eqn:Ep; [intros [= <-]; by apply Hmove|].
    destruct (paneWatchUpdate _ _ _) as [m|]; cbn; [|done]. intros [= <-]. by apply Hfile.
  - intros [= <-]. split.
    + unfold balanced. rewrite sending_run, unack_run. cbn [sends acks]. change (sending k (send (client w) m s)) with (sending k s).
      change (unacknowledged k (send (client w) m s)) with (unacknowledged k s). unfold sending.
      destruct (decide (k' = k)) as [<-|Hne]; [rewrite Er, bool_decide_eq_true_2 by done; cbn; lia|].
      rewrite bool_decide_eq_false_2 by done. cbn. lia.
    + apply (numbered_keeps (set_run k' Waiting (set_watch k' w s))); [by rewrite set_same|by rewrite set_same|by rewrite set_same|].
      by apply numbered_set.
  - intros [= <-]. split; [unfold balanced; cbn; lia|done].
  - intros [= <-]. split; [unfold balanced; cbn; lia|done].
  - intros [= <-]. split; [unfold balanced; cbn; lia|done].
Qed.

Lemma balanced_exec k e s s' : numbered s -> exec s e = Some s' -> balanced k s e s' /\ numbered s'.
Proof.
  intros Hn. destruct e as [c msg|c id|c msg|c msg r|k'|k' a]; cbn [exec]; [intros [= <-]..|].
  - by apply balanced_start.
  - destruct (stop_keeps k c id s) as (Hu & Hs & H). unfold balanced. rewrite Hu, Hs. cbn [sends acks]. split; [lia|auto].
  - by apply balanced_applied.
  - unfold handleReadPane. destruct (stop_keeps k c (stringValue msg "pane_id") s) as (Hu & Hs & H).
    destruct (unchangedPaneResponse msg r) as [r' [m|]]; unfold balanced;
      (match goal with |- context [send ?c ?m ?s] => destruct (send_keeps k c m s) as (-> & -> & H') end; rewrite Hu, Hs; cbn [sends acks]; split; [lia|auto]).
  - destruct (cancel_keeps k k' s) as (Hu & Hs & H). unfold balanced. rewrite Hu, Hs. cbn [sends acks]. split; [lia|auto].
  - by apply balanced_run.
Qed.

Lemma tally_balance k es s : numbered s -> exists b1 b2 : bool,
  (tally k s es).1 + Z.b2z b1 + Z.b2z (unacknowledged k s) = (tally k s es).2 + Z.b2z b2 + Z.b2z (sending k s).
Proof.
  revert s. induction es as [|e es IH]; intros s Hn; cbn [tally].
  { exists (sending k s), (unacknowledged k s). cbn [fst snd]. lia. }
  destruct (exec s e) as [s'|] eqn:E.
  - destruct (balanced_exec k e s s' Hn E) as [Hb Hn']. destruct (IH s' Hn') as (b1 & b2 & Ht). exists b1, b2. cbn [fst snd].
    unfold balanced in Hb. lia.
  - exists (sending k s && negb (sends k s e)), (unacknowledged k s). destruct e as [| | | | |k' a]; try done.
    cbn [fst snd acks Z.b2z]. destruct a; cbn [sends]; rewrite ?andb_true_r; cbn; try lia.
    destruct (bool_decide (k' = k)), (sending k s); cbn; lia.
Qed.

(** Flow control: however requests, acknowledgements and the goroutines
    interleave, and whatever herdr answers, a watch has sent at most one frame
    more than the phone has acknowledged. *)
Theorem one_frame_in_flight k es : (tally k (relay start) es).1 <= (tally k (relay start) es).2 + 1.
Proof.
  destruct (tally_balance k es (relay start)) as (b1 & b2 & H); [by constructor|].
  change (unacknowledged k (relay start)) with false in H. change (sending k (relay start)) with false in H.
  destruct b1, b2; cbn [Z.b2z] in H; lia.
Qed.

(** ** Prepared responses *)

(** A frame that shows only the viewport, whose width a lease changed, leaves the
    history of its pane alone and keeps its own text; a failed read changes nothing
    and stays a failed read; and the secret prompt is looked for in the very text
    the phone will show. *)
Theorem prepared_response now ok msg p r p' r' :
  preparePaneResponse now ok msg p r = Some (p', r') ->
  (successfulPaneContent r = None -> p' = p /\ r' = r) /\
  (pc_ViewportOnly (pane r) = true -> history p' = history p /\ pc_Content (pane r') = pc_Content (pane r)) /\
  (forall t, successfulPaneContent r' = Some t -> no_echo r' = Some (if (Match t).2 then Some (Match t).1 else None)) /\
  (is_Some (successfulPaneContent r) <-> is_Some (successfulPaneContent r')).
Proof.
  unfold preparePaneResponse. destruct (classifyPaneResponse now ok msg p r) as [[q r1]|] eqn:E; cbn; [|done].
  pose proof (classify_keeps _ _ _ _ _ _ _ E) as (_ & _ & _ & _ & _ & Ee & _).
  assert (Hc : (successfulPaneContent r = None -> q = p /\ r1 = r) /\
    (pc_ViewportOnly (pane r) = true -> history q = history p /\ pc_Content (pane r1) = pc_Content (pane r))).
  { clear Ee. unfold classifyPaneResponse in E. split; intros H; rewrite ?H in E; [by simplify_eq|].
    destruct (successfulPaneContent r) as [t|]; [|by simplify_eq].
    match type of E with context [if ?b && settles ?n ?q ?i then ?x else ?y] =>
      set (r2 := if b && settles n q i then x else y) in E;
      assert (Hx : pane r2 = pane r) by (subst r2; by destruct (b && _)) end.
    clearbody r2. cbv zeta in E. rewrite Hx, H in E. destruct (_ || _) in E; injection E as <- <-; (split; [done|by rewrite Hx]). }
  destruct Hc as [H1 H2]. unfold successfulPaneContent in *. rewrite Ee.
  destruct (String.eqb (pc_Error (pane r)) "") eqn:Er.
  - destruct (Match (pc_Content (pane r1))) as [prompt secret] eqn:Em. intros [= <- <-].
    split_and!; [done|done| |cbn; rewrite Ee, Er; done]. cbn. rewrite Ee, Er. intros t [= <-]. rewrite Em. by destruct secret.
  - intros [= <- <-]. rewrite Ee, Er. split_and!; try done; by intros [? ?].
Qed.

(** The numbers of a watch are bounded whatever the phone asks for: 1 to 10000
    lines, and one of the four intervals. *)
Theorem watch_bounded c msg s k w : watches s !! k = None -> k = next s -> watches (startPaneWatch c msg s) !! k = Some w ->
  1 <= lines w <= History.MaxLines /\ (exists ms, ms ∈ [100; 250; 500; 1000] /\ interval w = ms * (second / 1000)) /\
  (format w = "ansi" \/ format w = "text")%string /\ pending w = None /\ acknowledged w = None /\ current (startPaneWatch c msg s) !! c = Some k.
Proof.
  intros Hnew -> Hw. unfold startPaneWatch in Hw |- *. destruct (String.eqb (stringValue msg "pane_id") "") eqn:Ei; [congruence|].
  set (s1 := match current s !! c with None => s | Some previous => cancel previous s end) in *.
  assert (En : next s1 = next s) by (subst s1; unfold cancel; by repeat case_match).
  cbn in Hw |- *. rewrite En in *. rewrite lookup_insert_eq in Hw. simplify_eq/=. rewrite lookup_insert_eq. split_and!; try done.
  - unfold clampLines, History.MaxLines. repeat case_match; zb; lia.
  - unfold clampLines, History.MaxLines. repeat case_match; zb; lia.
  - unfold requestedPaneWatchInterval. case_bool_decide as Hb; [by eexists|]. exists 250. split; [by right; left|done].
  - case_match; auto.
Qed.

(** ** The base of a delta *)

(** the client names a text: it starts a watch with it or acknowledges it *)
Definition names (e : Event) (c f : string) : Prop :=
  match e with
  | OnWatch c' msg | OnApplied c' msg => c' = c /\ stringValue msg "content_fingerprint" = f
  | _ => False
  end.

(** the frame fingerprints of the responses tell their texts apart *)
Definition framesApart (es : list Event) : Prop :=
  forall k k' a a' r r' t t', OnRun k (Read a r) ∈ es -> OnRun k' (Read a' r') ∈ es ->
    successfulPaneContent r = Some t -> successfulPaneContent r' = Some t' ->
    paneFrameFingerprint r = paneFrameFingerprint r' -> t = t'.

Section Base.
Context (es : list Event) (Hapart : framesApart es).

Definition claimed (c f : string) : Prop := exists e, e ∈ es /\ names e c f.

Definition readFrame (f : paneWatchFrame) : Prop :=
  exists k a r, OnRun k (Read a r) ∈ es /\ successfulPaneContent r = Some (content f) /\
    frameFingerprint f = paneFrameFingerprint r /\ contentFingerprint f = paneFingerprint (content f).

Definition basedOn (c : string) (m : Msg) : Prop := match m with Delta _ base _ => claimed c base | _ => True end.

Definition claimedRun (c : string) (r : Run) : Prop :=
  match r with
  | Opening known | OpeningRead known | OpeningWait known => claimed c known
  | Committing _ _ frame => readFrame frame
  | Sending m => basedOn c m
  | _ => True
  end.

Definition claimedWatch (w : paneWatch) : Prop :=
  from_option (fun a => readFrame a /\ claimed (client w) (contentFingerprint a)) True (acknowledged w) /\
  from_option readFrame True (pending w).

Record based (s : Relay) : Prop := mkBased {
  b_watches : map_Forall (fun _ => claimedWatch) (watches s);
  b_runs : forall k w r, watches s !! k = Some w -> runs s !! k = Some r -> claimedRun (client w) r;
  b_new : forall k, next s <= k -> watches s !! k = None;
  b_client : forall c k w, current s !! c = Some k -> watches s !! k = Some w -> client w = c;
  b_current : forall c k, current s !! c = Some k -> k < next s;
  b_sent : Forall (fun cm => basedOn cm.1 cm.2) (sent s) }.

Lemma update_based c r a frame m : readFrame frame ->
  from_option (fun a => contentFingerprint a = paneFingerprint (content a) /\ claimed c (contentFingerprint a) /\
                        (frameFingerprint a = ""%string \/ readFrame a)) True a ->
  paneWatchUpdate r a frame = Some m ->
  match m with Some m => basedOn c m | None => claimed c (contentFingerprint frame) end.
Proof.
  intros Hf Ha. unfold paneWatchUpdate. destruct a as [a|]; [|by intros [= <-]]. destruct Ha as (Hfp & Hc & Hr).
  case_match eqn:E; [|case_match; [by intros [= <-]|]; destruct (Build _ _); cbn; [|done]; case_match; by intros [= <-]].
  intros [= <-]. apply andb_true_iff in E as [En E]. apply String.eqb_eq in E.
  destruct Hr as [Hr|(k & x & r1 & Hin & Hs & Hff & _)]; [by rewrite Hr in En|].
  destruct Hf as (k' & x' & r2 & Hin' & Hs' & Hff' & Hfp'). rewrite Hfp'.
  rewrite (Hapart k' k x' x r2 r1 (content frame) (content a)) by (done || congruence). by rewrite <- Hfp.
Qed.

Lemma frameOf_read k agent r r' frame : OnRun k (Read agent r) ∈ es -> frameOf agent r = Some (r', frame) -> readFrame frame.
Proof.
  unfold frameOf. intros Hin H. destruct (successfulPaneContent r) eqn:E; cbn in H; simplify_eq/=. by exists k, agent, r.
Qed.

(** changes of one watch and of the place of its goroutine *)
Lemma based_set k w w' r s : based s -> watches s !! k = Some w -> client w' = client w -> claimedWatch w' -> claimedRun (client w) r ->
  based (set_run k r (set_watch k w' s)).
Proof.
  intros [H1 H2 H3 H4 H5 H6] Ew Ec Hw Hr. constructor; cbn.
  - by apply map_Forall_insert_2.
  - intros k' w0 r0. destruct (decide (k = k')) as [<-|]; [rewrite !lookup_insert_eq; intros [= <-] [= <-]; by rewrite Ec|].
    rewrite !lookup_insert_ne by done. apply H2.
  - intros k' Hk. specialize (H3 k' Hk). rewrite lookup_insert_ne; [done|congruence].
  - intros c k' w0 Hc. destruct (decide (k = k')) as [<-|]; [rewrite lookup_insert_eq; intros [= <-]; rewrite Ec; by eapply H4|].
    rewrite lookup_insert_ne by done. by apply H4.
  - done.
  - done.
Qed.

Lemma based_run k w r s : based s -> watches s !! k = Some w -> claimedRun (client w) r -> based (set_run k r s).
Proof.
  intros H Ew Hr. rewrite <- (set_same k w s) by done. eapply based_set; try done. exact (b_watches _ H _ _ Ew).
Qed.

Lemma based_watch k w w' s : based s -> watches s !! k = Some w -> client w' = client w -> claimedWatch w' -> based (set_watch k w' s).
Proof.
  intros H Ew Ec Hw. destruct (runs s !! k) as [r|] eqn:Er.
  - replace (set_watch k w' s) with (set_run k r (set_watch k w' s)) by (unfold set_run; cbn; by rewrite (insert_id (runs s))).
    eapply based_set; try done. exact (b_runs _ H _ _ _ Ew Er).
  - destruct H as [H1 H2 H3 H4 H5 H6]. constructor; cbn; try done.
    + by apply map_Forall_insert_2.
    + intros k' w0 r0. destruct (decide (k = k')) as [<-|]; [congruence|]. rewrite lookup_insert_ne by done. apply H2.
    + intros k' Hk. specialize (H3 k' Hk). rewrite lookup_insert_ne; [done|congruence].
    + intros c k' w0 Hc. destruct (decide (k = k')) as [<-|]; [rewrite lookup_insert_eq; intros [= <-]; rewrite Ec; by eapply H4|].
      rewrite lookup_insert_ne by done. by apply H4.
Qed.

Lemma based_cancel k s : based s -> based (cancel k s).
Proof.
  intros H. unfold cancel. destruct (watches s !! k) as [w|] eqn:E; [|done]. eapply based_watch; try done. exact (b_watches _ H _ _ E).
Qed.

Lemma based_forget c s : based s -> based (set_current (delete c (current s)) s).
Proof.
  intros [H1 H2 H3 H4 H5 H6]. constructor; cbn; try done.
  - intros c' k w [_ Hc]%lookup_delete_Some. by apply H4.
  - intros c' k [_ Hc]%lookup_delete_Some. by eapply H5.
Qed.

Lemma based_send c m s : based s -> basedOn c m -> based (send c m s).
Proof. intros [H1 H2 H3 H4 H5 H6] Hm. constructor; cbn; try done. apply Forall_app. by repeat constructor. Qed.

Lemma based_stop c id s : based s -> based (stopPaneWatch c id s).
Proof. intros H. unfold stopPaneWatch. repeat (case_match; try done). by apply based_cancel, based_forget. Qed.

Lemma based_start c msg s : OnWatch c msg ∈ es -> based s -> based (startPaneWatch c msg s).
Proof.
  intros Hin H. unfold startPaneWatch. case_match; [done|].
  set (s1 := match current s !! c with None => s | Some previous => cancel previous s end).
  assert (based s1) as [H1 H2 H3 H4 H5 H6] by (subst s1; case_match; [by apply based_cancel|done]).
  clearbody s1. pose proof (H3 (next s1) ltac:(lia)) as Hnew. constructor; cbn; [..|done].
  - by apply map_Forall_insert_2.
  - intros k w r. destruct (decide (next s1 = k)) as [<-|].
    + rewrite !lookup_insert_eq. intros [= <-] [= <-]. cbn. by exists (OnWatch c msg).
    + rewrite !lookup_insert_ne by done. apply H2.
  - intros k Hk. rewrite lookup_insert_ne by lia. apply H3. lia.
  - intros c' k w. destruct (decide (c = c')) as [<-|].
    + rewrite lookup_insert_eq. intros [= <-]. rewrite lookup_insert_eq. by intros [= <-].
    + rewrite lookup_insert_ne by done. intros Hc. pose proof (H5 _ _ Hc). rewrite lookup_insert_ne by lia. by apply H4.
  - intros c' k. destruct (decide (c = c')) as [<-|]; [rewrite lookup_insert_eq; intros [= <-]; lia|].
    rewrite lookup_insert_ne by done. intros Hc%H5. lia.
Qed.

Lemma based_applied c msg s : OnApplied c msg ∈ es -> based s -> based (handlePaneApplied c msg s).
Proof.
  intros Hin H. unfold handlePaneApplied. destruct (current s !! c) as [k|] eqn:Ec; [|done].
  destruct (watches s !! k) as [w|] eqn:Ew; [|done]. destruct (b_watches _ H _ _ Ew) as [Ha Hp].
  case_match; [done|]. case_match eqn:Ep; [|case_match; [done|by apply based_send]].
  eapply based_watch; try done. split; [|done]. cbn. destruct (pending w) as [f|]; [|done]. cbn in *. split; [done|].
  apply String.eqb_eq in Ep. exists (OnApplied c msg). split; [done|]. cbn. rewrite (b_client _ H _ _ _ Ec Ew). by rewrite Ep.
Qed.

Lemma based_finish k w s : based s -> watches s !! k = Some w -> based (finish k w s).
Proof.
  intros H Ew. unfold finish. case_match; [|by eapply based_run].
  eapply (based_run k w); [by apply based_forget|done|done].
Qed.

Lemma based_file k w0 w frame m s : based s -> watches s !! k = Some w0 -> client w = client w0 -> claimedWatch w -> readFrame frame ->
  match m with Some m => basedOn (client w0) m | None => claimed (client w0) (contentFingerprint frame) end ->
  based (file k w frame m s).
Proof.
  intros H Ew Ec [Ha Hp] Hf Hm. destruct m as [m|]; cbn [file]; eapply based_set; try done; split; cbn; rewrite ?Ec; done.
Qed.

Lemma based_step k a s s' : OnRun k a ∈ es -> based s -> runPaneWatch k a s = Some s' -> based s'.
Proof.
  intros Hin H. unfold runPaneWatch. destruct (watches s !! k) as [w|] eqn:Ew; cbn; [|done].
  destruct (runs s !! k) as [r|] eqn:Er; cbn; [|done].
  pose proof (b_runs _ H _ _ _ Ew Er) as Hr. pose proof (b_watches _ H _ _ Ew) as Hw. cbn beta in Hw.
  pose proof (based_finish k w s H Ew) as Hfin.
  assert (Hrun : forall r', claimedRun (client w) r' -> based (set_run k r' s)) by (intros r'; by eapply based_run).
  destruct r as [known|known|known| |pp ak|pr|pr rr fr|m|], a as [| |agent r|agent r];
    try (intros [= <-]; repeat (case_match; try done); by auto).
  - destruct (frameOf agent r) as [[r' frame]|] eqn:Ef; [|intros [= <-]; by apply Hrun].
    pose proof (frameOf_read _ _ _ _ _ Hin Ef) as Hf.
    destruct (paneWatchUpdate _ _ _) as [m|] eqn:Eu; cbn; [|done]. intros [= <-].
    eapply based_file; try done. eapply update_based; [exact Hf| |exact Eu].
    destruct (String.eqb_spec known (contentFingerprint frame)) as [->|]; cbn; [|done].
    split_and!; [|done|by left]. by destruct Hf as (? & ? & ? & ? & ? & ? & ?).
  - destruct (successfulPaneContent r); intros [= <-]; apply Hrun; try done. by case_match.
  - destruct (frameOf agent r) as [[r' frame]|] eqn:Ef; intros [= <-]; apply Hrun; try done.
    case_match; [|done]. exact (frameOf_read _ _ _ _ _ Hin Ef).
  - destruct (pending w) eqn:Ep; [intros [= <-]; by apply Hrun|].
    destruct (paneWatchUpdate _ _ _) as [m|] eqn:Eu; cbn; [|done]. intros [= <-].
    eapply based_file; try done. eapply update_based; [exact Hr| |exact Eu].
    destruct Hw as [Ha _]. destruct (acknowledged w) as [f|]; cbn in *; [|done]. destruct Ha as [Hf Hc].
    split_and!; [|done|by right]. by destruct Hf as (? & ? & ? & ? & ? & ? & ?).
  - intros [= <-]. eapply (based_run k w); [by apply based_send|done|done].
Qed.

Lemma based_exec e s s' : e ∈ es -> based s -> exec s e = Some s' -> based s'.
Proof.
  intros Hin H. destruct e as [c msg|c id|c msg|c msg r|k'|k' a]; cbn [exec]; [intros [= <-]..|].
  - by apply based_start.
  - by apply based_stop.
  - by apply based_applied.
  - unfold handleReadPane. destruct (unchangedPaneResponse msg r) as [r' [m|]] eqn:Eu; (apply based_send; [by apply based_stop|]); [|done].
    unfold unchangedPaneResponse in Eu. repeat case_match; simplify_eq. done.
  - by apply based_cancel.
  - by apply based_step.
Qed.
End Base.

Lemma based_nothing es : based es (relay start).
Proof. constructor; cbn; [apply map_Forall_empty|..|done]; intros *; by rewrite lookup_empty. Qed.

Lemma based_run_all es es' s s' : framesApart es -> (forall e, e ∈ es' -> e ∈ es) -> based es s ->
  foldM exec s es' = Some s' -> based es s'.
Proof.
  intros Ha. revert s. induction es' as [|e es' IH]; cbn; intros s Hin H; [by intros [= <-]|].
  destruct (exec s e) as [s1|] eqn:E; cbn; [|done]. apply IH; [set_solver|]. eapply based_exec; [done| |done|done]. set_solver.
Qed.

(** A delta is sent only against a text that this client named itself, when it
    started the watch or by acknowledging it, in every run of the relay whose
    frame fingerprints tell its texts apart. *)
Theorem delta_base_named es s c r base segments :
  framesApart es -> foldM exec (relay start) es = Some s -> (c, Delta r base segments) ∈ sent s ->
  exists e, e ∈ es /\ names e c base.
Proof.
  intros Ha H Hin. assert (Hb : based es s).
  { eapply based_run_all; [done|by intros|apply based_nothing|exact H]. }
  pose proof (b_sent _ _ Hb) as Hs. rewrite Forall_forall in Hs. exact (Hs _ Hin).
Qed.
End Watch.

(** ** Witnesses *)

(** screens without questions and a fingerprint that keeps the first bytes *)
Module ToyWatch.

Definition sum256 (b : bytes) : bytes := take 32 (b ++ replicate 32 0).
Definition marshal (x : bytes * string * bool * bool * option Z * bool * option unit) : bytes := x.1.1.1.1.1.1.
Definition noMatch (b : bytes) : string * bool := (""%string, false).

Abbreviation execT := (exec sum256 (fun _ _ => 0) (fun _ _ => true) marshal).
Abbreviation paneFingerprintT := (paneFingerprint sum256).

Definition parts : Parts := mkParts State.NewState (History.mkManager ∅ ∅ ∅) None.
Definition screen (text error : string) : PaneContent := mkContent "p" (bytes_of_string text) "ansi" false false None error.

Definition response (text error : string) : Response (Class := unit) :=
  from_option snd (responseOf (screen text error))
    (preparePaneResponse (fun _ _ => tt) (fun _ => None) (fun c _ => c) id noMatch (fun _ _ => 0) (fun _ _ => true) id
       0 true ∅ parts (responseOf (screen text error))).

Definition rA := response "ready" "".
Definition rB := response "busy" "".
Definition rFail := response "" "Unable to read the agent pane".

Definition request (fp : string) : message :=
  <["pane_id"%string := AString "p"]> (<["content_fingerprint"%string := AString fp]> ∅).
Definition fpA : string := paneFingerprintT (bytes_of_string "ready").

Definition link : Link := mkLink 1 true true.
Definition watching : Phone := (watchPane link "p" noPhone).1.

(** a read, a watch of the text that was read, and its first frame *)
Definition opened : list (Event (Class := unit)) :=
  [OnRead "c" (request "") rA; OnWatch "c" (request fpA); OnRun 0 Tick; OnRun 0 (Read "" rA); OnRun 0 Tick;
   OnApplied "c" (request fpA)].

Definition after (es : list Event) : Relay := default (relay start) (foldM execT (relay start) es).
Definition received (es : list Event) : Phone := foldl (fun p cm => (receive link cm.2 p).1) watching (sent (after es)).

(** The pane shows one text, then another, then the first again; a read that
    named the first text was under way.  The phone shows the second text under the
    name of the first, and the deltas that follow are made for the first. *)
Example text_comes_back :
  let es := opened ++ [OnRun 0 Tick; OnRun 0 (Probed "" rB); OnRun 0 (Read "" rB); OnRun 0 Tick; OnRun 0 Tick;
                       OnRead "c" (request fpA) rA] in
  t_content <$> (terminalFrames (received es) !! "p"%string) = Some (jsString (bytes_of_string "busy")) /\
  paneContentFingerprints (received es) !! "p"%string = Some fpA.
Proof. vm_compute. done. Qed.

(** a failed read empties the frame and leaves its name, so that the next read
    finds nothing to send *)
Example failed_read_blanks :
  let es := [OnRead "c" (request "") rA; OnRead "c" (request fpA) rFail; OnRead "c" (request fpA) rA] in
  t_content <$> (terminalFrames (received es) !! "p"%string) = Some [] /\
  paneContentFingerprints (received es) !! "p"%string = Some fpA.
Proof. vm_compute. done. Qed.

Lemma phone_applies_witness :
  wellFormed demoPrevious /\
  applyPaneDelta (jsString demoPrevious) (Some (wireSegment <$> [mkSegment 0 0 (bytes_of_string "x"); mkSegment 1 4 []])) =
  jsString <$> mjoin (Apply demoPrevious [mkSegment 0 0 (bytes_of_string "x"); mkSegment 1 4 []]).
Proof.
  split; [by vm_compute|]. rewrite phone_applies; [by vm_compute|by vm_compute|].
  repeat constructor; cbn; lia.
Defined.

Lemma sum256_length b : length (sum256 b) = 32%nat.
Proof. unfold sum256. rewrite length_take, length_app, length_replicate. lia. Qed.

Definition readAs (r : Response (Class := unit)) : Prop := r = rA.

Lemma rA_prepared : prepared (fun _ _ => tt) (fun _ => None) (fun c _ => c) id noMatch (fun _ _ => 0) (fun _ _ => true) id "p" rA.
Proof. exists 0, true, ∅, parts, parts, (screen "ready" ""). split_and!; [done|done|]. by vm_compute. Qed.

Abbreviation stepT := (step (fun _ _ => tt) (fun _ => None) (fun c _ => c) id noMatch sum256 (fun _ _ => 0) (fun _ _ => true) marshal id readAs).

Definition world (relaySteps phoneSteps : nat) : World :=
  mkWorld (after (take relaySteps opened)) (received (take phoneSteps opened)).

Lemma watch_steps : rtc stepT start (world 5 5).
Proof.
  eapply rtc_l; [apply StepWatchPane with (l := link) (id := "p"%string)|].
  eapply rtc_l; [apply StepRead with (c := "c"%string) (msg := request "") (r := rA); [done|apply rA_prepared]|].
  eapply rtc_l; [eapply StepReceive with (l := link) (c := "c"%string); [by left|by eexists]|].
  eapply rtc_l; [apply StepWatch with (c := "c"%string) (msg := request fpA)|].
  eapply rtc_l; [eapply StepRun with (k := 0) (a := Tick); [by vm_compute|done|by vm_compute]|].
  eapply rtc_l; [eapply StepRun with (k := 0) (a := Read ""%string rA); [by vm_compute| |by vm_compute]|].
  { intros agent r [= <- <-]. split; [done|apply rA_prepared]. }
  eapply rtc_l; [eapply StepRun with (k := 0) (a := Tick); [by vm_compute|done|by vm_compute]|].
  eapply rtc_l; [eapply StepReceive with (l := link) (c := "c"%string); [right; left|done]|].
  vm_compute. apply rtc_refl.
Qed.

Lemma readAs_readable r : readAs r -> readable r.
Proof. intros ->. intros t [= <-]. split; by vm_compute. Qed.

Lemma readAs_apart : collisionFree sum256 readAs.
Proof. intros r r' t t' -> ->. congruence. Qed.

Lemma phone_shows_frame_witness : is_Some (terminalFrames (phone (world 5 5)) !! "p"%string) /\
  paneContentFingerprints (phone (world 5 5)) !! "p"%string = Some fpA /\ faithful sum256 readAs (phone (world 5 5)).
Proof.
  split; [by eexists; vm_compute|]. split; [by vm_compute|].
  exact (phone_shows_frame _ _ _ _ _ sum256 _ _ _ _ sum256_length readAs (world 5 5) readAs_readable readAs_apart watch_steps).
Defined.

Lemma prepared_response_witness : exists p, successfulPaneContent rA = Some (bytes_of_string "ready") /\ no_echo rA = Some None /\
  preparePaneResponse (fun _ _ => tt) (fun _ => None) (fun c _ => c) id noMatch (fun _ _ => 0) (fun _ _ => true) id
    0 true ∅ parts (responseOf (screen "ready" "")) = Some (p, rA).
Proof.
  assert (E : preparePaneResponse (fun _ _ => tt) (fun _ => None) (fun c _ => c) id noMatch (fun _ _ => 0) (fun _ _ => true) id
    0 true ∅ parts (responseOf (screen "ready" "")) = Some (parts, rA)) by by vm_compute.
  exists parts. split; [done|]. split; [|exact E].
  destruct (prepared_response _ _ _ _ _ _ _ _ _ _ _ _ _ _ _ E) as (_ & _ & H & _). exact (H (bytes_of_string "ready") eq_refl).
Defined.

Lemma watch_bounded_witness : exists w, watches (startPaneWatch (Class := unit) (fun _ _ => 0) (fun _ _ => true) "c" (request fpA) (relay start)) !! 0 = Some w /\
  1 <= lines w <= History.MaxLines.
Proof.
  eexists. split; [by vm_compute|].
  refine (proj1 (watch_bounded (Class := unit) (fun _ _ => 0) (fun _ _ => true) "c" (request fpA) (relay start) 0 _ eq_refl eq_refl _)).
  by vm_compute.
Defined.

Lemma opened_apart : framesApart sum256 marshal opened.
Proof.
  intros k k' a a' r r' t t' H H' Hr Hr' _.
  assert (r = rA) as -> by set_solver. assert (r' = rA) as -> by set_solver. congruence.
Qed.

Lemma delta_base_witness : exists r base segments e,
  ("c"%string, Delta r base segments) ∈ sent (after opened) /\ e ∈ opened /\ names e "c" base.
Proof.
  assert (Hin : exists r segments, ("c"%string, Delta r fpA segments) ∈ sent (after opened)).
  { eexists _, _. by right; left. }
  destruct Hin as (r & segments & Hin). exists r, fpA, segments.
  destruct (delta_base_named sum256 (fun _ _ => 0) (fun _ _ => true) marshal opened (after opened) "c" r fpA segments) as (e & He);
    [exact opened_apart|by vm_compute|exact Hin|]. by exists e.
Defined.
End ToyWatch.
End PaneWatch.
