(* ===== verification/View.v ===== *)
(** What the phones have been told ([internal/app/server.go]): the view of the
    agents, the inventory and the activities that every broadcast updates under
    the registration barrier of the hub, and that a phone receives when it
    connects or asks for a refresh.

    A broadcast is a Go map: its values keep their dynamic types here, because
    the code looks at them. *)
From S2P Require Import Prelude GoLib GoText DispatchBase State StateInv StateSafety Journal.
#[local] Open Scope Z_scope.

Module View.
Import State.

(** ** Broadcasts *)

(** a value of a broadcast with its dynamic type; [VList] is a [[]any], whose
    members that are no strings are [None], and [VInteraction None] is a nil
    pointer, which is not [nil] *)
Inductive value :=
| VNil
| VString (s : string)
| VInt (z : Z)
| VInt64 (z : Z)
| VFloat (m e : Z)
| VBool (b : bool)
| VKind (k : string)
| VStrings (l : list string)
| VList (l : list (option string))
| VInteraction (i : option Interaction).

Abbreviation envelope := (gmap string value) (only parsing).

Definition stringOf (v : option value) : option string := match v with Some (VString s) => Some s | _ => None end.

(** ** Agents *)

Definition set_info (i : PaneInfo) (a : AgentState) : AgentState :=
  mkAgent i (Status a) (UpdatedAt a) (LastActiveAt a) (LastSeenAt a) (blocked a) (StateRevision a).

(** the fields that JSON leaves out *)
Definition publicInfo (i : PaneInfo) : PaneInfo :=
  mkInfo (PaneID i) (RawPaneID i) (TerminalID i) (TabID i) (TabLabel i) (TabNumber i) (TabOrder i) (WorkspaceID i) (Agent i)
    (Shell i) (Name i) (Focused i) (Cwd i) (Project i) (Host i) (HerdrSession i) (Session i) (SessionName i) (ActivitySeq i)
    "" (ConversationHistoryAvailable i) 0 0 "".
Definition publicBlocked (b : BlockedDetails) : BlockedDetails :=
  mkBlocked (BlockedEventID b) (AttentionKind b) (Prompt b) (Command b) (Options b) (interaction b) (QuestionLayout b) "".

(** an agent after [json.Marshal] and [json.Unmarshal] *)
Definition public (a : AgentState) : AgentState :=
  mkAgent (publicInfo (info a)) (Status a) (UpdatedAt a) (LastActiveAt a) (LastSeenAt a) (publicBlocked (blocked a)) (StateRevision a).

(** copies; a nil pointer is left out *)
Definition cloneAgents (agents : list (option AgentState)) : list AgentState := omap id agents.

Definition paneOf (a : AgentState) : string := PaneID (info a).

(** the last agent of a pane *)
Definition byPane (agents : list AgentState) : gmap string AgentState :=
  foldl (fun m a => <[paneOf a := a]> m) ∅ agents.

Definition newer (current : gmap string AgentState) (a : AgentState) : AgentState :=
  match current !! paneOf a with
  | Some existing => if StateRevision a <? StateRevision existing then existing else a
  | None => a
  end.

Definition mergeAgentSnapshot (current : list AgentState) (incoming : list (option AgentState)) : list AgentState :=
  newer (byPane current) <$> cloneAgents incoming.

Section View.
Context {Any : Type}.
(** a float outside [int64], [fmt.Sprint] of a value that is not text, the JSON of
    a value as an interaction, and the readers of timestamps *)
Context (wideInt : Z -> Z -> Z) (wideSame : Z -> Z -> bool) (sprint : value -> string)
  (decodeInteraction : value -> option Interaction) (ParseInt parseRFC3339 : string -> option Z) (now : Z).

Definition messageInt (v : value) (fallback : Z) : Z :=
  match v with
  | VInt z => z
  | VFloat m e => if DispatchBase.isInt wideSame m e then DispatchBase.intOfFloat wideInt m e else fallback
  | _ => fallback
  end.

Definition deltaRevision (d : envelope) : Z :=
  match d !! "pane_revision"%string with
  | Some (VInt z) | Some (VInt64 z) => z
  | Some (VFloat m e) => DispatchBase.intOfFloat wideInt m e
  | _ => max_int64
  end.

Definition parseTimestamp (s : string) : Z :=
  match ParseInt s with
  | Some n => n
  | None => match parseRFC3339 s with Some t => t | None => now end
  end.

(** [setString] *)
Definition setString (d : envelope) (key old : string) : string := default old (stringOf (d !! key)).

Definition deltaInfo (d : envelope) (i : PaneInfo) : PaneInfo :=
  mkInfo (PaneID i) (setString d "raw_pane_id" (RawPaneID i)) (TerminalID i) (setString d "tab_id" (TabID i))
    (setString d "tab_label" (TabLabel i))
    (match d !! "tab_number"%string with Some v => messageInt v (TabNumber i) | None => TabNumber i end) (TabOrder i)
    (setString d "workspace_id" (WorkspaceID i)) (setString d "agent" (Agent i)) (Shell i) (Name i) (Focused i)
    (setString d "cwd" (Cwd i)) (setString d "project" (Project i)) (setString d "host" (Host i)) (HerdrSession i)
    (setString d "session" (Session i)) (setString d "session_name" (SessionName i)) (ActivitySeq i) (SessionID i)
    (ConversationHistoryAvailable i) (PaneRevision i) (ScrollMaxOffset i) (ForegroundCwd i).

Definition deltaUpdatedAt (d : envelope) (old : Z) : Z :=
  match d !! "updated_at"%string with
  | Some (VFloat m e) => DispatchBase.intOfFloat wideInt m e
  | Some (VString s) => parseTimestamp s
  | _ => old
  end.

Definition kindOf (v : value) : string :=
  match v with VString s | VKind s => s | v => sprint v end.

Definition optionsOf (v : value) : list string :=
  match v with VStrings l => l | VList l => omap id l | _ => [] end.

(** a nil pointer is [null] in JSON and an interaction without text when it is read back *)
Definition interactionOf (v : value) : option Interaction :=
  match v with
  | VNil => None
  | VInteraction (Some i) => Some i
  | VInteraction None => Some (mkInteraction "" "" "")
  | v => decodeInteraction v
  end.

Definition deltaBlocked (d : envelope) (b : BlockedDetails) : BlockedDetails :=
  mkBlocked (setString d "event_id" (BlockedEventID b))
    (match d !! "attention_kind"%string with Some v => kindOf v | None => AttentionKind b end)
    (setString d "prompt" (Prompt b)) (setString d "command" (Command b))
    (match d !! "options"%string with Some v => optionsOf v | None => Options b end)
    (match d !! "interaction"%string with Some v => interactionOf v | None => interaction b end)
    (match d !! "question_layout"%string with Some (VBool l) => l | Some _ => false | None => QuestionLayout b end)
    (InteractionID b).

(** what does not belong to the status and the kind is cleared *)
Definition tidy (status : string) (b : BlockedDetails) : BlockedDetails :=
  if negb (String.eqb status "blocked")
  then mkBlocked (BlockedEventID b) "" "" "" [] None false (InteractionID b)
  else
    let options := if String.eqb (AttentionKind b) AttentionApproval then Options b else [] in
    if String.eqb (AttentionKind b) AttentionQuestion
    then mkBlocked (BlockedEventID b) (AttentionKind b) (Prompt b) (Command b) options (interaction b) (QuestionLayout b) (InteractionID b)
    else mkBlocked (BlockedEventID b) (AttentionKind b) (Prompt b) (Command b) options None false (InteractionID b).

Definition applyAgentDelta (a : AgentState) (d : envelope) : AgentState :=
  let status := setString d "status" (Status a) in
  mkAgent (deltaInfo d (info a)) status (deltaUpdatedAt d (UpdatedAt a)) (LastActiveAt a) (LastSeenAt a)
    (tidy status (deltaBlocked d (blocked a)))
    (match d !! "pane_revision"%string with
     | Some (VInt64 z) => z
     | Some (VFloat m e) => DispatchBase.intOfFloat wideInt m e
     | _ => StateRevision a
     end).

(** the first agent of the pane takes the delta unless it is newer *)
Fixpoint updateFirst (pane : string) (d : envelope) (agents : list AgentState) : option (list AgentState) :=
  match agents with
  | [] => None
  | a :: agents =>
      if String.eqb (paneOf a) pane
      then Some ((if StateRevision a <=? deltaRevision d then applyAgentDelta a d else a) :: agents)
      else cons a <$> updateFirst pane d agents
  end.

(** ** The view *)

Record Views := mkViews {
  agentView : list AgentState; inventoryView : envelope; activityView : list (Journal.Entry (Any := Any)); errors : list string }.

(** a broadcast; what JSON cannot read back is [None] *)
Inductive broadcast :=
| Agents (agents : option (list (option AgentState)))
| AgentUpdate (d : envelope)
| InventoryStatus (d : envelope)
| Activity (entry : option (Journal.Entry (Any := Any)))
| ActivityHistory (entries : option (list (Journal.Entry (Any := Any))))
| Other.

Definition maxActivities : nat := 500.
Definition maxErrors : nat := 20.
Definition lastN {A} (n : nat) (l : list A) : list A := drop (length l - n) l.

(** the parts of a text as [strings.Fields] joins them are an argument of the error *)
Definition recordSafeError (stamp component detail : string) (v : Views) : Views :=
  let detail := String.concat "" (take 300 (DispatchBase.runeStrings detail)) in
  let message := if String.eqb detail "" then component else (component ++ ": " ++ detail)%string in
  mkViews (agentView v) (inventoryView v) (activityView v) (lastN maxErrors (errors v ++ [(stamp ++ " " ++ message)%string])).

Definition set_agents (l : list AgentState) (v : Views) : Views := mkViews l (inventoryView v) (activityView v) (errors v).
Definition set_activities (l : list (Journal.Entry (Any := Any))) (v : Views) : Views := mkViews (agentView v) (inventoryView v) l (errors v).

(** the new views and whether the message is broadcast; [state] is the state of the panes *)
Definition broadcastCommitted (stamp detail : string) (state : State) (m : broadcast) (v : Views) : Views * bool :=
  let malformed component := (recordSafeError stamp component detail v, false) in
  match m with
  | Agents None => malformed "agent snapshot broadcast was malformed"%string
  | Agents (Some incoming) =>
      (set_agents (mergeAgentSnapshot (agentView v) ((fun a => public <$> (a : option AgentState)) <$> incoming)) v, true)
  | AgentUpdate d =>
      match stringOf (d !! "pane_id"%string) with
      | None | Some EmptyString => malformed "agent update broadcast was malformed"%string
      | Some pane =>
          (set_agents
             (match updateFirst pane d (agentView v) with
              | Some l => l
              | None => match AgentOf state pane with
                        | Some current => agentView v ++ [applyAgentDelta current d]
                        | None => agentView v
                        end
              end) v, true)
      end
  | InventoryStatus d => (mkViews (agentView v) (delete "type"%string d) (activityView v) (errors v), true)
  | Activity None => malformed "activity broadcast was malformed"%string
  | Activity (Some entry) =>
      if String.eqb (Journal.ID (entry : Journal.Entry (Any := Any))) "" then malformed "activity broadcast was malformed"%string
      else (set_activities (lastN maxActivities (activityView v ++ [entry])) v, true)
  | ActivityHistory None => malformed "activity history broadcast was malformed"%string
  | ActivityHistory (Some entries) => (set_activities entries v, true)
  | Other => (v, true)
  end.

(** ** Revisions *)

Definition idsOf (l : list AgentState) : list string := paneOf <$> l.

Lemma applyDelta_pane a d : paneOf (applyAgentDelta a d) = paneOf a.
Proof. done. Qed.

Lemma applyDelta_revision a d : StateRevision a <= deltaRevision d -> StateRevision a <= StateRevision (applyAgentDelta a d).
Proof. unfold deltaRevision. cbn. destruct (d !! _) as [[]|]; lia. Qed.

Lemma updateFirst_ids pane d l l' : updateFirst pane d l = Some l' -> idsOf l' = idsOf l.
Proof.
  revert l'. induction l as [|a l IH]; cbn; [done|]. intros l'. destruct (String.eqb _ pane).
  - intros [= <-]. cbn. by case_match.
  - destruct (updateFirst pane d l) as [l1|]; cbn; [|done]. intros [= <-]. cbn. by rewrite IH.
Qed.

Lemma updateFirst_None pane d l : updateFirst pane d l = None -> pane ∉ idsOf l.
Proof.
  induction l as [|a l IH]; cbn; [set_solver|]. destruct (String.eqb_spec (paneOf a) pane); [done|].
  destruct (updateFirst pane d l); cbn; [done|]. intros _. rewrite not_elem_of_cons. auto.
Qed.

(** the agents of a view that has one agent for each pane *)
Lemma byPane_lookup l a : NoDup (idsOf l) -> a ∈ l -> byPane l !! paneOf a = Some a.
Proof.
  unfold byPane. intros Hn Ha.
  assert (H : forall l (m : gmap string AgentState), NoDup (idsOf l) -> (forall b, b ∈ l -> foldl (fun m a => <[paneOf a := a]> m) m l !! paneOf b = Some b) /\
    (forall p, p ∉ idsOf l -> foldl (fun m a => <[paneOf a := a]> m) m l !! p = m !! p)).
  { clear. induction l as [|c l IH]; intros m Hn; cbn in *; [split; set_solver|].
    apply NoDup_cons in Hn as [Hc Hn]. destruct (IH (<[paneOf c := c]> m) Hn) as [H1 H2]. split.
    - intros b [->|Hb]%elem_of_cons; [|by apply H1]. rewrite H2 by done. by rewrite lookup_insert_eq.
    - intros p [Hp Hp']%not_elem_of_cons. rewrite H2 by done. by rewrite lookup_insert_ne. }
  by apply (H l ∅ Hn).
Qed.

Lemma byPane_pane l p a : byPane l !! p = Some a -> paneOf a = p /\ a ∈ l.
Proof.
  unfold byPane. assert (H : forall l (m : gmap string AgentState), (forall p a, m !! p = Some a -> paneOf a = p) ->
    forall p a, foldl (fun m a => <[paneOf a := a]> m) m l !! p = Some a -> paneOf a = p /\ (a ∈ l \/ m !! p = Some a)).
  { clear. induction l as [|c l IH]; intros m Hm p a; cbn; [intros H; split; [by apply Hm|by right]|].
    intros H. destruct (IH (<[paneOf c := c]> m)) with (p := p) (a := a) as [Hp [Ha|Ha]]; try done.
    - intros p' a'. rewrite lookup_insert_Some. intros [[<- <-]|[_ ?]]; [done|by apply Hm].
    - split; [done|]. left. by right.
    - split; [done|]. apply lookup_insert_Some in Ha as [[_ <-]|[_ ?]]; [left; by left|by right]. }
  intros Ha. destruct (H l ∅ ltac:(intros ? ?; by rewrite lookup_empty) p a Ha) as [? [?|Hx]]; [done|]. by rewrite lookup_empty in Hx.
Qed.

Lemma newer_pane l a : paneOf (newer (byPane l) a) = paneOf a.
Proof.
  unfold newer. destruct (byPane l !! paneOf a) as [b|] eqn:E; [|done]. case_match; [|done]. by apply byPane_pane in E as [? _].
Qed.

Lemma merge_ids l incoming : idsOf (mergeAgentSnapshot l incoming) = idsOf (cloneAgents incoming).
Proof.
  unfold mergeAgentSnapshot, idsOf. rewrite <- list_fmap_compose. apply list_fmap_ext. intros i a _. apply newer_pane.
Qed.

(** a snapshot has one agent for each pane *)
Definition distinct (m : broadcast) : Prop :=
  match m with Agents (Some l) => NoDup (idsOf (cloneAgents l)) | _ => True end.

Lemma public_ids l : idsOf (cloneAgents ((fun a => public <$> (a : option AgentState)) <$> l)) = idsOf (cloneAgents l).
Proof. induction l as [|[a|] l IH]; cbn; [done|by f_equal|done]. Qed.

(** one broadcast, with the state of the panes at that time *)
Definition tells (v v' : Views) : Prop :=
  exists stamp detail state m, StateInv.wf state /\ distinct m /\ v' = (broadcastCommitted stamp detail state m v).1.

Definition nothing : Views := mkViews [] ∅ [] [].

Lemma agentOf_pane state pane a : StateInv.wf state -> AgentOf state pane = Some a -> paneOf a = pane.
Proof.
  intros Hw. unfold AgentOf. destruct (agents state !! pane) as [b|] eqn:E; cbn; [|done]. intros [= <-].
  by destruct (StateInv.vo_agent _ _ _ (StateInv.wf_panes _ Hw pane) b E).
Qed.

(** what a broadcast does to the agents *)
Lemma committed_agents stamp detail state m v :
  agentView (broadcastCommitted stamp detail state m v).1 =
  match m with
  | Agents (Some incoming) => mergeAgentSnapshot (agentView v) ((fun a => public <$> (a : option AgentState)) <$> incoming)
  | AgentUpdate d =>
      match stringOf (d !! "pane_id"%string) with
      | None | Some EmptyString => agentView v
      | Some pane => match updateFirst pane d (agentView v) with
                     | Some l => l
                     | None => from_option (fun c => agentView v ++ [applyAgentDelta c d]) (agentView v) (AgentOf state pane)
                     end
      end
  | _ => agentView v
  end.
Proof.
  unfold broadcastCommitted. destruct m as [[|]|d| |[e|]|[|]|]; try done; try (cbn; by destruct (String.eqb (Journal.ID e) "")).
  by destruct (stringOf _) as [[|]|].
Qed.

Lemma tells_distinct v v' : NoDup (idsOf (agentView v)) -> tells v v' -> NoDup (idsOf (agentView v')).
Proof.
  intros Hn (stamp & detail & state & m & Hw & Hd & ->). rewrite committed_agents.
  destruct m as [[l|]|d| | | |]; try done; [by rewrite merge_ids, public_ids|].
  destruct (stringOf _) as [[|b p]|]; try done. destruct (updateFirst _ _ _) as [l|] eqn:E.
  - by rewrite (updateFirst_ids _ _ _ _ E).
  - destruct (AgentOf state (String b p)) as [c|] eqn:Ec; cbn; [|done]. unfold idsOf. rewrite fmap_app. apply NoDup_app.
    split_and!; [done| |apply NoDup_singleton]. intros x Hx Hx'. change (x ∈ [paneOf c]) in Hx'. apply list_elem_of_singleton in Hx' as ->.
    rewrite (agentOf_pane _ _ _ Hw Ec) in Hx. by apply (updateFirst_None _ _ _ E).
Qed.

Lemma reached_distinct v : rtc tells nothing v -> NoDup (idsOf (agentView v)).
Proof.
  apply (rtc_ind_r (fun v => NoDup (idsOf (agentView v))) nothing); [constructor|].
  intros v1 v2 _ Hs Hn. by eapply tells_distinct.
Qed.

Lemma NoDup_pane l a b : NoDup (idsOf l) -> a ∈ l -> b ∈ l -> paneOf a = paneOf b -> a = b.
Proof. intros Hn Ha Hb E. pose proof (byPane_lookup l a Hn Ha) as H1. rewrite E, (byPane_lookup l b Hn Hb) in H1. congruence. Qed.

Lemma updateFirst_spec pane d l l' : NoDup (idsOf l) -> updateFirst pane d l = Some l' ->
  exists l1 a l2, l = l1 ++ a :: l2 /\ paneOf a = pane /\
    l' = l1 ++ (if StateRevision a <=? deltaRevision d then applyAgentDelta a d else a) :: l2.
Proof.
  intros Hn. revert l'. induction l as [|a l IH]; cbn; [done|]. intros l'.
  destruct (String.eqb_spec (paneOf a) pane) as [E|E].
  - intros [= <-]. by exists [], a, l.
  - destruct (updateFirst pane d l) as [l1|]; cbn; [|done]. intros [= <-]. apply NoDup_cons in Hn as [_ Hn].
    destruct (IH Hn l1 eq_refl) as (m1 & b & m2 & -> & Hb & ->). by exists (a :: m1), b, m2.
Qed.

(** the agent of the pane after a broadcast that keeps it *)
Lemma tells_agent stamp detail state m v a a' : StateInv.wf state -> distinct m -> NoDup (idsOf (agentView v)) ->
  a ∈ agentView v -> a' ∈ agentView (broadcastCommitted stamp detail state m v).1 -> paneOf a' = paneOf a ->
  a' = a \/
  (exists incoming b, m = Agents (Some incoming) /\ Some b ∈ incoming /\ a' = public b /\ StateRevision a <= StateRevision b) \/
  (exists d, m = AgentUpdate d /\ stringOf (d !! "pane_id"%string) = Some (paneOf a) /\ a' = applyAgentDelta a d /\
     StateRevision a <= deltaRevision d).
Proof.
  intros Hw Hd Hn Ha Ha' E. pose proof Ha' as Ha0. rewrite committed_agents in Ha'.
  destruct m as [[l|]|d| | | |]; try (left; symmetry; by eapply NoDup_pane).
  - apply list_elem_of_fmap in Ha' as (b & -> & Hb). unfold cloneAgents in Hb.
    apply list_elem_of_omap in Hb as (ob & Hob & Hb). apply list_elem_of_fmap in Hob as (o & -> & Ho).
    destruct o as [c|]; cbn in Hb; [|done]. simplify_eq. rewrite newer_pane in E.
    unfold newer. rewrite E, (byPane_lookup _ _ Hn Ha). case_match eqn:Er; [by left|]. zb.
    right; left. exists l, c. split_and!; try done.
  - destruct (stringOf _) as [[|x p]|] eqn:Ep; try (left; symmetry; by eapply NoDup_pane).
    destruct (updateFirst _ _ _) as [l'|] eqn:Eu.
    + destruct (updateFirst_spec _ _ _ _ Hn Eu) as (l1 & c & l2 & El & Hc & ->).
      destruct (decide (paneOf a = String x p)) as [Hp|Hp].
      * assert (c = a) as ->.
        { eapply NoDup_pane; [exact Hn|rewrite El; set_solver|done|congruence]. }
        assert (a' = (if StateRevision a <=? deltaRevision d then applyAgentDelta a d else a)) as ->.
        { assert (Hn' : NoDup (idsOf (agentView (broadcastCommitted stamp detail state (AgentUpdate d) v).1))).
          { eapply tells_distinct; [exact Hn|]. by exists stamp, detail, state, (AgentUpdate d). }
          eapply NoDup_pane; [exact Hn'|done| |by rewrite E; case_match].
          rewrite committed_agents, Ep, Eu. set_solver. }
        case_match eqn:Er; [|by left]. zb. right; right. exists d. split_and!; try done. congruence.
      * left. apply elem_of_app in Ha' as [Ha'|[->|Ha']%elem_of_cons].
        -- symmetry. eapply NoDup_pane; [exact Hn|done|rewrite El; set_solver|done].
        -- exfalso. apply Hp. rewrite <- E, <- Hc. by case_match.
        -- symmetry. eapply NoDup_pane; [exact Hn|done|rewrite El; set_solver|done].
    + left. destruct (AgentOf state (String x p)) as [c|] eqn:Ec; cbn in Ha'; [|symmetry; by eapply NoDup_pane].
      apply elem_of_app in Ha' as [Ha'|Ha'%list_elem_of_singleton]; [symmetry; by eapply NoDup_pane|].
      exfalso. subst a'. rewrite applyDelta_pane, (agentOf_pane _ _ _ Hw Ec) in E. apply (updateFirst_None _ _ _ Eu).
      rewrite E. by apply list_elem_of_fmap_2.
Qed.

(** C22: the view never goes back: it has one agent for each pane, and a broadcast
    leaves the agent of a pane as it is or replaces it by one whose revision is at
    least as high, so that a snapshot or an update that was overtaken changes
    nothing. *)
Theorem view_never_goes_back v v' : rtc tells nothing v -> tells v v' ->
  NoDup (idsOf (agentView v')) /\
  forall a a', a ∈ agentView v -> a' ∈ agentView v' -> paneOf a' = paneOf a -> a' = a \/ StateRevision a <= StateRevision a'.
Proof.
  intros Hv%reached_distinct Ht. split; [by eapply tells_distinct|]. intros a a' Ha Ha' E.
  destruct Ht as (stamp & detail & state & m & Hw & Hd & ->).
  destruct (tells_agent stamp detail state m v a a' Hw Hd) as [->|[(l & b & _ & _ & -> & Hr)|(d & _ & _ & -> & Hr)]]; auto.
  right. by apply applyDelta_revision.
Qed.

(** ** The newest revision wins *)

(** the revision a broadcast gives the pane *)
Definition version (p : string) (m : broadcast) : option Z :=
  match m with
  | Agents (Some l) => StateRevision <$> find (fun a => String.eqb (paneOf a) p) (cloneAgents l)
  | AgentUpdate d =>
      if bool_decide (stringOf (d !! "pane_id"%string) = Some p)
      then match d !! "pane_revision"%string with Some (VInt64 r) => Some r | _ => None end
      else None
  | _ => None
  end.

(** a snapshot that has the pane; an update with a revision, as the relay sends them *)
Definition covers (p : string) (m : broadcast) : Prop :=
  match m with
  | Agents (Some l) => p ∈ idsOf (cloneAgents l) /\ NoDup (idsOf (cloneAgents l))
  | AgentUpdate d => exists r, d !! "pane_revision"%string = Some (VInt64 r)
  | _ => True
  end.

Definition tell (v : Views) (sm : State * broadcast) : Views := (broadcastCommitted "" "" sm.1 sm.2 v).1.

Lemma covers_distinct p m : covers p m -> distinct m.
Proof. destruct m as [[|]| | | | |]; cbn; try done. by intros [_ ?]. Qed.

Lemma find_pane l b : NoDup (idsOf l) -> b ∈ l -> find (fun a => String.eqb (paneOf a) (paneOf b)) l = Some b.
Proof.
  intros Hn Hb. destruct (find _ l) as [c|] eqn:E.
  - apply find_some in E as [Hc Ep%String.eqb_eq]. f_equal. eapply NoDup_pane; [exact Hn|by apply list_elem_of_In|done|done].
  - exfalso. apply list_elem_of_In in Hb. pose proof (find_none _ _ E b Hb) as H. cbn in H. by rewrite String.eqb_refl in H.
Qed.

Lemma tell_version sm v a : paneOf a <> ""%string -> StateInv.wf sm.1 -> covers (paneOf a) sm.2 -> NoDup (idsOf (agentView v)) -> a ∈ agentView v ->
  exists a', a' ∈ agentView (tell v sm) /\ paneOf a' = paneOf a /\
    StateRevision a' = from_option (Z.max (StateRevision a)) (StateRevision a) (version (paneOf a) sm.2).
Proof.
  destruct sm as [state m]. cbn [fst snd]. intros Hne Hw Hc Hn Ha. unfold tell. cbn [fst snd]. rewrite committed_agents.
  destruct m as [[l|]|d| | | |]; try (by exists a).
  - destruct Hc as [Hp Hd]. apply list_elem_of_fmap in Hp as (b & Eb & Hb).
    exists (newer (byPane (agentView v)) (public b)). split_and!.
    + apply list_elem_of_fmap_2. unfold cloneAgents in *. apply list_elem_of_omap in Hb as (ob & Hob & Ho). cbn in Ho. subst ob.
      apply list_elem_of_omap. exists (Some (public b)). split; [|done]. apply list_elem_of_fmap. by exists (Some b).
    + rewrite newer_pane. done.
    + cbn [version]. rewrite Eb, (find_pane _ b Hd Hb). cbn. unfold newer.
      change (paneOf (public b)) with (paneOf b). rewrite <- Eb, (byPane_lookup _ _ Hn Ha). cbn. case_match; zb; cbn; lia.
  - destruct Hc as [r Hr]. cbn [version]. rewrite Hr.
    assert (Hdr : deltaRevision d = r) by (unfold deltaRevision; by rewrite Hr).
    destruct (stringOf (d !! "pane_id"%string)) as [[|x p]|] eqn:Es.
    1,3: exists a; rewrite bool_decide_eq_false_2 by congruence; done.
    destruct (updateFirst (String x p) d (agentView v)) as [l'|] eqn:Eu.
    + destruct (updateFirst_spec _ _ _ _ Hn Eu) as (l1 & c & l2 & El & Hc & ->).
      case_bool_decide as Ep.
      * assert (c = a) as -> by (eapply NoDup_pane; [exact Hn|rewrite El; set_solver|done|congruence]).
        eexists. split; [apply elem_of_app; right; left|]. rewrite Hdr. cbn [from_option].
        destruct (StateRevision a <=? r) eqn:Er; zb; (split; [done|]); [|lia]. cbn. rewrite Hr. lia.
      * exists a. split_and!; [|done|done]. rewrite El in Ha. assert (a <> c) by congruence. set_solver.
    + destruct (decide (String x p = paneOf a)) as [Ep|Ep].
      * exfalso. apply (updateFirst_None _ _ _ Eu). rewrite Ep. by apply list_elem_of_fmap_2.
      * rewrite bool_decide_eq_false_2 by congruence. exists a. split_and!; [|done|done].
        destruct (AgentOf _ _); cbn; set_solver.
Qed.

Lemma tell_tells p sm v : StateInv.wf sm.1 -> covers p sm.2 -> tells v (tell v sm).
Proof. intros Hw Hc. exists ""%string, ""%string, sm.1, sm.2. split_and!; [done|by eapply covers_distinct|done]. Qed.

(** C36: the order of broadcasts does not matter: for a pane of the view, after any
    sequence of snapshots that all list the pane (and no pane twice) and of updates that
    carry a revision, the view has the pane with the highest revision that was broadcast
    for it, or the one it had. *)
Theorem newest_revision_wins v a sms : rtc tells nothing v -> a ∈ agentView v -> paneOf a <> ""%string ->
  Forall (fun sm => StateInv.wf sm.1 /\ covers (paneOf a) sm.2) sms ->
  exists a', a' ∈ agentView (foldl tell v sms) /\ paneOf a' = paneOf a /\
    StateRevision a' = foldl Z.max (StateRevision a) (omap (fun sm => version (paneOf a) sm.2) sms).
Proof.
  intros Hv Ha Hne Hs. revert v a Hv Ha Hne Hs. induction sms as [|sm sms IH]; intros v a Hv Ha Hne Hs; [by exists a|].
  apply Forall_cons in Hs as [[Hw Hc] Hs].
  destruct (tell_version sm v a Hne Hw Hc (reached_distinct _ Hv) Ha) as (b & Hb & Eb & Hr).
  destruct (IH (tell v sm) b) as (a' & Ha' & Ea & Hr'); [|done|congruence|by rewrite Eb|].
  { eapply rtc_r; [exact Hv|]. by eapply tell_tells. }
  exists a'. split_and!; [done|congruence|]. rewrite Hr', Hr, Eb. cbn. by destruct (version (paneOf a) sm.2).
Qed.

(** ** Messages about one agent *)

Definition deltaOf (l : list (string * value)) : envelope := list_to_map l.

(** [broadcastBlockedAttention] *)
Definition blockedAttention (a : AgentState) : envelope :=
  let i := info a in let b := blocked a in
  deltaOf [("type", VString "blocked"); ("pane_id", VString (PaneID i)); ("raw_pane_id", VString (RawPaneID i));
    ("terminal_id", VString (TerminalID i)); ("tab_id", VString (TabID i)); ("tab_label", VString (TabLabel i));
    ("tab_number", VInt (TabNumber i)); ("workspace_id", VString (WorkspaceID i)); ("agent", VString (Agent i));
    ("name", VString (Name i)); ("status", VString "blocked"); ("cwd", VString (Cwd i)); ("project", VString (Project i));
    ("host", VString (Host i)); ("session", VString (Session i)); ("session_name", VString (SessionName i));
    ("updated_at", VInt64 (UpdatedAt a)); ("event_id", VString (BlockedEventID b)); ("attention_kind", VKind (AttentionKind b));
    ("prompt", VString (Prompt b)); ("command", VString (Command b)); ("options", VStrings (Options b));
    ("interaction", VInteraction (interaction b)); ("interaction_id", VString (InteractionID b));
    ("question_layout", VBool (QuestionLayout b)); ("pane_revision", VInt64 (StateRevision a))]%string.

(** the message of an event ([SetOnChange] of the listener) *)
Definition agentChanged (a : AgentState) : envelope :=
  let i := info a in
  deltaOf [("type", VString "agent_update"); ("pane_id", VString (PaneID i)); ("raw_pane_id", VString (RawPaneID i));
    ("status", VString (Status a)); ("agent", VString (Agent i)); ("tab_id", VString (TabID i)); ("tab_label", VString (TabLabel i));
    ("tab_number", VInt (TabNumber i)); ("workspace_id", VString (WorkspaceID i)); ("cwd", VString (Cwd i));
    ("project", VString (Project i)); ("host", VString (Host i)); ("session", VString (Session i));
    ("session_name", VString (SessionName i)); ("updated_at", VInt64 (UpdatedAt a));
    ("event_id", VString (BlockedEventID (blocked a))); ("attention_kind", VKind (AttentionKind (blocked a)));
    ("pane_revision", VInt64 (StateRevision a))]%string.

(** the message of an acknowledgement ([handleAcknowledge]) *)
Definition acknowledgedUpdate (pane status : string) (revision : Z) : envelope :=
  deltaOf [("type", VString "agent_update"); ("pane_id", VString pane); ("raw_pane_id", VString pane);
    ("status", VString status); ("pane_revision", VInt64 revision)]%string.

(** the agent a delta of a pane leaves in the view, when the view is not ahead of it *)
Lemma delta_in_view stamp detail state d v pane r :
  stringOf (d !! "pane_id"%string) = Some pane -> pane <> ""%string -> d !! "pane_revision"%string = Some (VInt64 r) ->
  NoDup (idsOf (agentView v)) -> (forall b, b ∈ agentView v -> paneOf b = pane -> StateRevision b <= r) ->
  pane ∈ idsOf (agentView v) \/ is_Some (AgentOf state pane) ->
  exists b, (b ∈ agentView v /\ paneOf b = pane \/ AgentOf state pane = Some b) /\
    applyAgentDelta b d ∈ agentView (broadcastCommitted stamp detail state (AgentUpdate d) v).1.
Proof.
  intros Hp Hne Hr Hn Hle Hin. rewrite committed_agents, Hp. destruct pane as [|x p]; [done|].
  assert (Hdr : deltaRevision d = r) by (unfold deltaRevision; by rewrite Hr).
  destruct (updateFirst (String x p) d (agentView v)) as [l'|] eqn:Eu.
  - destruct (updateFirst_spec _ _ _ _ Hn Eu) as (l1 & c & l2 & El & Hc & ->). exists c. rewrite Hdr.
    assert (Hcl : c ∈ agentView v) by (rewrite El; set_solver). specialize (Hle c Hcl Hc).
    split; [by left|]. rewrite (proj2 (Z.leb_le _ _) Hle). apply elem_of_app. right. left.
  - destruct Hin as [Hin|[c Hc]]; [by apply updateFirst_None in Eu|]. exists c. rewrite Hc. cbn. split; [by right|].
    apply elem_of_app. right. left.
Qed.

(** A blocked agent reaches the phones that connect later: once its attention is
    broadcast, the view has its pane as blocked with the kind, the prompt, the
    command, the options of an approval, the question, the event and the revision
    of the agent, unless the view was ahead of it. *)
Theorem blocked_reaches_view stamp detail state a v :
  rtc tells nothing v -> paneOf a <> ""%string ->
  (forall b, b ∈ agentView v -> paneOf b = paneOf a -> StateRevision b <= StateRevision a) ->
  paneOf a ∈ idsOf (agentView v) \/ is_Some (AgentOf state (paneOf a)) -> StateInv.wf state ->
  (AttentionKind (blocked a) = AttentionQuestion -> is_Some (interaction (blocked a))) ->
  exists b, b ∈ agentView (broadcastCommitted stamp detail state (AgentUpdate (blockedAttention a)) v).1 /\
    paneOf b = paneOf a /\ Status b = "blocked"%string /\ StateRevision b = StateRevision a /\
    publicBlocked (blocked b) = publicBlocked (tidy "blocked" (blocked a)) /\
    Agent (info b) = Agent (info a) /\ TabLabel (info b) = TabLabel (info a) /\ SessionName (info b) = SessionName (info a).
Proof.
  intros Hv%reached_distinct Hne Hle Hin Hw Hq.
  destruct (delta_in_view stamp detail state (blockedAttention a) v (paneOf a) (StateRevision a)) as (b & Hb & Hin'); try done.
  exists (applyAgentDelta b (blockedAttention a)). split; [exact Hin'|]. split.
  { rewrite applyDelta_pane. destruct Hb as [[_ ?]|Hb]; [done|by eapply agentOf_pane]. }
  split; [done|]. split; [done|]. split; [|done].
  set (x := blocked a) in *. assert (Eb : blocked (applyAgentDelta b (blockedAttention a)) = tidy "blocked"
    (mkBlocked (BlockedEventID x) (AttentionKind x) (Prompt x) (Command x) (Options x) (interactionOf (VInteraction (interaction x)))
       (QuestionLayout x) (InteractionID (blocked b)))) by reflexivity.
  rewrite Eb. unfold tidy. cbn [String.eqb negb AttentionKind]. change (negb ("blocked" =? "blocked")%string) with false. cbv iota.
  destruct (String.eqb_spec (AttentionKind x) AttentionQuestion) as [Ek|Ek]; [|done].
  destruct (Hq Ek) as [i Ei]. by rewrite Ei.
Qed.

(** ** Events over UDP *)

Record UDPEvent := mkUDP {
  u_Type : string; u_SocketPath : string; u_PaneID : string; u_TabID : string; u_WorkspaceID : string;
  u_Status : string; u_UpdatedAt : string }.

(** the counters of the listener *)
Record UDPMetrics := mkMetrics { Received : Z; Invalid : Z; Resyncs : Z }.

(** [parseUpdatedAt] *)
Definition parseUpdatedAt (s : string) : Z := if String.eqb s "" then now else parseTimestamp s.

Context (sha256hex : string -> string) (draw : Z -> option bytes).

(** one datagram, [None] when it is not JSON: the state, the counters, the agent
    that is broadcast and whether the poller is woken *)
Definition receiveUDP (socketPath : string) (event : option UDPEvent) (clock : time) (order : list (string * pendingEvent))
    (s : State) (m : UDPMetrics) : State * list effect * UDPMetrics * option AgentState * bool :=
  match event with
  | None => (s, [], mkMetrics (Received m) (Invalid m + 1) (Resyncs m), None, false)
  | Some e =>
      if negb (String.eqb (u_Type e) "agent_event") then (s, [], m, None, false)
      else if negb (String.eqb socketPath "") && negb (String.eqb (u_SocketPath e) socketPath) then (s, [], m, None, false)
      else if String.eqb (u_PaneID e) "" || String.eqb (u_Status e) "" then
        (s, [], mkMetrics (Received m) (Invalid m + 1) (Resyncs m), None, false)
      else
        let m := mkMetrics (Received m + 1) (Invalid m) (Resyncs m) in
        let '(s, eff, committed) := CommitEventForSession sha256hex draw s (u_PaneID e) (u_TabID e) (u_WorkspaceID e)
                                      (u_Status e) (parseUpdatedAt (u_UpdatedAt e)) clock order in
        if committed then (s, eff, m, AgentOf s (u_PaneID e), false)
        else (s, eff, mkMetrics (Received m) (Invalid m) (Resyncs m + 1), None, true)
  end.

Context (draw_size : forall n b, draw n = Some b -> len b = 12).

(** the relay on one datagram: the event changes the state, its agent is broadcast *)
Definition udpStep (socketPath : string) (event : option UDPEvent) (clock : time) (order : list (string * pendingEvent))
    (stamp detail : string) (s : State) (m : UDPMetrics) (v : Views) : State * Views * bool :=
  let '(s, _, _, changed, woken) := receiveUDP socketPath event clock order s m in
  match changed with
  | Some a => (s, (broadcastCommitted stamp detail s (AgentUpdate (agentChanged a)) v).1, true)
  | None => (s, v, woken)
  end.

(** a datagram for this relay: an event of an agent, of the herdr it listens to, with a
    pane and a status *)
Definition relevant (socketPath : string) (e : UDPEvent) : Prop :=
  u_Type e = "agent_event"%string /\ (socketPath = ""%string \/ u_SocketPath e = socketPath) /\
  u_PaneID e <> ""%string /\ u_Status e <> ""%string.
#[export] Instance relevant_dec socketPath e : Decision (relevant socketPath e).
Proof. unfold relevant. apply _. Defined.

Lemma receive_relevant socketPath e clock order s m : relevant socketPath e ->
  receiveUDP socketPath (Some e) clock order s m =
    (let '(s, eff, committed) := CommitEventForSession sha256hex draw s (u_PaneID e) (u_TabID e) (u_WorkspaceID e)
                                   (u_Status e) (parseUpdatedAt (u_UpdatedAt e)) clock order in
     if committed then (s, eff, mkMetrics (Received m + 1) (Invalid m) (Resyncs m), AgentOf s (u_PaneID e), false)
     else (s, eff, mkMetrics (Received m + 1) (Invalid m) (Resyncs m + 1), None, true)).
Proof.
  intros (H1 & H2 & H3 & H4). unfold receiveUDP. rewrite H1. cbn [String.eqb]. change (negb ("agent_event" =? "agent_event")%string) with false. cbv iota.
  rewrite (proj2 (String.eqb_neq _ _) H3), (proj2 (String.eqb_neq _ _) H4). destruct H2 as [->| ->]; [done|]. by rewrite String.eqb_refl, andb_false_r.
Qed.

Lemma receive_other socketPath event clock order s m : (forall e, event = Some e -> ~ relevant socketPath e) ->
  exists m', receiveUDP socketPath event clock order s m = (s, [], m', None, false).
Proof.
  intros H. unfold receiveUDP. destruct event as [e|]; [|eauto]. specialize (H e eq_refl).
  destruct (String.eqb_spec (u_Type e) "agent_event") as [E1|]; cbn [negb]; [|eauto].
  destruct (String.eqb_spec socketPath "") as [E2|E2], (String.eqb_spec (u_SocketPath e) socketPath) as [E3|E3]; cbn [negb andb]; try (by eauto);
    (destruct (String.eqb_spec (u_PaneID e) "") as [E4|E4]; cbn [orb]; [by eauto|]);
    (destruct (String.eqb_spec (u_Status e) "") as [E5|E5]; cbn [orb]; [by eauto|]); destruct H; split_and!; auto.
Qed.

(** C26: an event of herdr reaches the phones.  Of a datagram that is not an event of an
    agent, comes from another herdr or has no pane or no status nothing changes and
    nobody is woken.  Any other wakes the poller, and if its pane is known with the tab
    and workspace it names, the view that connecting phones receive has the pane with the
    status of the event and the next revision of the state; if the tab or the workspace
    is another, nothing changes; and if the pane is not known yet, the view stays and the
    event is kept for the pane.  (The view is not ahead of the state before.) *)
Theorem event_reaches_view socketPath event clock order stamp detail s m v s' v' woken :
  StateInv.wf s -> rtc tells nothing v -> (forall b, b ∈ agentView v -> StateRevision b <= revCounter s) ->
  udpStep socketPath event clock order stamp detail s m v = (s', v', woken) ->
  ((forall e, event = Some e -> ~ relevant socketPath e) -> s' = s /\ v' = v /\ woken = false) /\
  (forall e, event = Some e -> relevant socketPath e -> woken = true /\
     match agents s !! u_PaneID e with
     | Some before =>
         if eventIdentityMatches before (u_TabID e) (u_WorkspaceID e)
         then revCounter s' = revCounter s + 1 /\
              exists b, b ∈ agentView v' /\ paneOf b = u_PaneID e /\ Status b = u_Status e /\ StateRevision b = revCounter s'
         else s' = s /\ v' = v
     | None =>
         agents s' = agents s /\ v' = v /\
         exists p, pendingEvents s' !! u_PaneID e = Some p /\ pe_status p = u_Status e /\ pe_tabID p = u_TabID e /\ pe_workspaceID p = u_WorkspaceID e
     end).
Proof.
  intros Hw Hv%reached_distinct Hle Hstep. unfold udpStep in Hstep. split.
  { intros Ho. destruct (receive_other socketPath event clock order s m Ho) as [m' E]. rewrite E in Hstep. by simplify_eq. }
  intros e -> He. rewrite receive_relevant in Hstep by done.
  destruct (CommitEventForSession sha256hex draw s _ _ _ _ _ clock order) as [[s1 eff] committed] eqn:Ec. pose proof Ec as Ec'.
  unfold CommitEventForSession in Ec'. destruct (agents s !! u_PaneID e) as [before|] eqn:Eb.
  2: { simplify_eq. cbn. split_and!; try done. eexists. split; [apply lookup_insert_eq|done]. }
  destruct (eventIdentityMatches before (u_TabID e) (u_WorkspaceID e)) eqn:Em; cbn [negb] in Ec'; [|by simplify_eq].
  assert (committed = true) as -> by (repeat case_match; by simplify_eq). clear Ec'.
  destruct (StateSafety.event_applied sha256hex draw draw_size _ _ _ _ _ _ _ _ _ _ _ Eb Ec) as ((a & Ea & Hst & Hi) & Hrev & Hcnt & _).
  assert (Eof : AgentOf s1 (u_PaneID e) = Some (set_StateRevision (Revision s1 (u_PaneID e)) a)) by (unfold AgentOf; by rewrite Ea).
  rewrite Eof in Hstep. apply pair_eq in Hstep as [Heq <-]. apply pair_eq in Heq as [<- <-]. split; [done|]. split; [done|].
  set (a' := set_StateRevision (Revision s1 (u_PaneID e)) a) in *.
  assert (Hpane : paneOf a' = u_PaneID e).
  { unfold paneOf, a'. cbn. rewrite Hi. by destruct (StateInv.vo_agent _ _ _ (StateInv.wf_panes _ Hw (u_PaneID e)) before Eb). }
  destruct He as (_ & _ & Hne & _).
  destruct (delta_in_view stamp detail s1 (agentChanged a') v (u_PaneID e) (StateRevision a')) as (b & Hb & Hin); try done.
  - unfold agentChanged. rewrite <- Hpane. reflexivity.
  - intros b Hb _. specialize (Hle b Hb). cbn. rewrite Hrev. lia.
  - right. by rewrite Eof.
  - exists (applyAgentDelta b (agentChanged a')). split_and!; [exact Hin| |exact Hst|].
    + rewrite applyDelta_pane. destruct Hb as [[_ ?]|Hb]; [done|]. rewrite Eof in Hb. by simplify_eq.
    + change (Revision s1 (u_PaneID e) = revCounter s1). by rewrite Hrev, Hcnt.
Qed.

(** ** Activities *)

Definition recentActivities (limit : Z) (v : Views) : list (Journal.Entry (Any := Any)) :=
  let n := len (activityView v) in
  let limit := if (limit <=? 0) || (n <? limit) then n else limit in
  drop (Z.to_nat (n - limit)) (activityView v).

(** a turn of a conversation *)
Record Turn := mkTurn { Role : string; TurnText : string; TurnTimestamp : string }.

Context (parseNano : string -> option Z).

(** the last answer that is not younger than the activity *)
Fixpoint answerBefore (timestamp : Z) (turns : list Turn) : string :=
  match turns with
  | [] => ""%string
  | t :: turns =>
      if negb (String.eqb (Role t) "assistant") || String.eqb (TrimSpace (TurnText t)) "" then answerBefore timestamp turns
      else if timestamp <=? 0 then TurnText t
      else match parseNano (TurnTimestamp t) with
           | None => answerBefore timestamp turns
           | Some at_ => if timestamp <? at_ then answerBefore timestamp turns else TurnText t
           end
  end.
Definition conversationResponseAt (turns : list Turn) (timestamp : Z) : string := answerBefore timestamp (rev turns).

(** the journal of the view is bounded *)
Lemma lastN_length {A} n (l : list A) : (length (lastN n l) <= n)%nat.
Proof. unfold lastN. rewrite length_drop. lia. Qed.

(** The answer shown with a finished turn is one the agent gave before it: a text
    of the agent, not blank, not younger than the activity, and every answer after
    it in the conversation is blank, unreadable or younger. *)
Theorem response_is_latest turns timestamp answer : answer <> ""%string -> 0 < timestamp ->
  conversationResponseAt turns timestamp = answer ->
  exists before t after at_, turns = before ++ t :: after /\ Role t = "assistant"%string /\ TurnText t = answer /\
    TrimSpace answer <> ""%string /\ parseNano (TurnTimestamp t) = Some at_ /\ at_ <= timestamp /\
    Forall (fun u => Role u <> "assistant"%string \/ TrimSpace (TurnText u) = ""%string \/
                     forall at', parseNano (TurnTimestamp u) = Some at' -> timestamp < at') after.
Proof.
  intros Hne Ht. unfold conversationResponseAt.
  assert (H : forall l, answerBefore timestamp l = answer -> exists younger t older at_, l = younger ++ t :: older /\
    Role t = "assistant"%string /\ TurnText t = answer /\ TrimSpace answer <> ""%string /\ parseNano (TurnTimestamp t) = Some at_ /\
    at_ <= timestamp /\ Forall (fun u => Role u <> "assistant"%string \/ TrimSpace (TurnText u) = ""%string \/
      forall at', parseNano (TurnTimestamp u) = Some at' -> timestamp < at') younger).
  { intros l. induction l as [|t l IH]; cbn [answerBefore]; [done|].
    assert (Hskip : (Role t <> "assistant"%string \/ TrimSpace (TurnText t) = ""%string \/
      forall at', parseNano (TurnTimestamp t) = Some at' -> timestamp < at') -> answerBefore timestamp l = answer ->
      exists younger t0 older at_, t :: l = younger ++ t0 :: older /\ Role t0 = "assistant"%string /\ TurnText t0 = answer /\
      TrimSpace answer <> ""%string /\ parseNano (TurnTimestamp t0) = Some at_ /\ at_ <= timestamp /\
      Forall (fun u => Role u <> "assistant"%string \/ TrimSpace (TurnText u) = ""%string \/
        forall at', parseNano (TurnTimestamp u) = Some at' -> timestamp < at') younger).
    { intros Hs Hl. destruct (IH Hl) as (y & t0 & o & at_ & -> & ? & ? & ? & ? & ? & HF). exists (t :: y), t0, o, at_.
      split_and!; try done. by constructor. }
    destruct (String.eqb_spec (Role t) "assistant") as [Er|Er]; cbn [negb orb]; [|apply Hskip; by left].
    destruct (String.eqb_spec (TrimSpace (TurnText t)) "") as [Ex|Ex]; [apply Hskip; auto|].
    rewrite (proj2 (Z.leb_gt _ _) Ht). destruct (parseNano (TurnTimestamp t)) as [at_|] eqn:Ep; [|apply Hskip; right; right; congruence].
    destruct (timestamp <? at_) eqn:El; zb; [apply Hskip; right; right; congruence|].
    intros <-. exists [], t, l, at_. split_and!; try done. }
  intros Ha. destruct (H _ Ha) as (y & t & o & at_ & El & ? & ? & ? & ? & ? & HF).
  exists (rev o), t, (rev y), at_. split_and!; try done; [|by apply Forall_rev].
  rewrite <- (rev_involutive turns), El, rev_app_distr. cbn. by rewrite <- app_assoc.
Qed.
End View.

(** ** Witnesses *)

Module ToyView.
Import StateSafety.

Definition noFloat (m e : Z) : Z := 0.
Definition noNumber (s : string) : option Z := None.
Abbreviation tellT := (tell (Any := unit) noFloat (fun _ _ => true) (fun _ => ""%string) (fun _ => None) noNumber noNumber 0).
Abbreviation tellsT := (tells (Any := unit) noFloat (fun _ _ => true) (fun _ => ""%string) (fun _ => None) noNumber noNumber 0).

Definition snapshot : State * broadcast (Any := unit) := (demoS1, Agents (Some (Some <$> Snapshot demoS1))).
Definition update (status : string) (revision : Z) : State * broadcast (Any := unit) :=
  (demoS1, AgentUpdate (acknowledgedUpdate "p" status revision)).

Definition v1 : Views (Any := unit) := tellT nothing snapshot.
Definition agent1 : AgentState := default (demoPane "p" "" "") (head (agentView v1)).

Lemma demo_wf : StateInv.wf demoS1.
Proof. by destruct (steps_ok demoSha demoDraw demoDraw_size _ _ NewState_wf demo_run1). Qed.

Lemma snapshot_covers : covers "p" snapshot.2.
Proof. split; [vm_compute; by left|]. vm_compute. apply NoDup_singleton. Qed.

Lemma v1_told : rtc tellsT nothing v1.
Proof. apply rtc_once. apply (tell_tells _ _ _ _ _ _ _ "p"); [exact demo_wf|exact snapshot_covers]. Qed.

Lemma agent1_there : agent1 ∈ agentView v1.
Proof. vm_compute. by left. Qed.

(** an event of herdr that was accepted leaves the time of the last change as it
    was: the message has an [int64], and the delta reads floats and texts *)
Example updated_at_stays :
  let changed := set_UpdatedAt 2000 (set_StateRevision 5 agent1) in
  UpdatedAt <$> agentView (tellT v1 (demoS1, AgentUpdate (agentChanged changed))) = [UpdatedAt agent1] /\
  StateRevision <$> agentView (tellT v1 (demoS1, AgentUpdate (agentChanged changed))) = [5] /\ UpdatedAt agent1 <> 2000.
Proof. vm_compute. done. Qed.

Lemma view_back_witness : exists a', a' ∈ agentView (tellT v1 (update "idle" 0)) /\ (a' = agent1 \/ StateRevision agent1 <= StateRevision a').
Proof.
  assert (Ht : tellsT v1 (tellT v1 (update "idle" 0))).
  { apply (tell_tells _ _ _ _ _ _ _ "p"); [exact demo_wf|]. by eexists. }
  destruct (view_never_goes_back _ _ _ _ _ _ _ v1 (tellT v1 (update "idle" 0)) v1_told Ht) as [_ H].
  exists agent1. split; [vm_compute; by left|]. apply (H agent1 agent1); [exact agent1_there|vm_compute; by left|done].
Defined.

Lemma newest_witness : exists a', a' ∈ agentView (foldl tellT v1 [update "idle" 5; snapshot]) /\ StateRevision a' = 5.
Proof.
  destruct (newest_revision_wins noFloat (fun _ _ => true) (fun _ => ""%string) (fun _ => None) noNumber noNumber 0
    v1 agent1 [update "idle" 5; snapshot] v1_told agent1_there) as (a' & Ha & _ & Hr).
  - by vm_compute.
  - apply Forall_cons. split; [split; [exact demo_wf|by eexists]|]. apply Forall_cons. split; [split; [exact demo_wf|exact snapshot_covers]|done].
  - exists a'. split; [exact Ha|]. rewrite Hr. by vm_compute.
Defined.

Definition asking : AgentState :=
  set_StateRevision 7 (set_Status "blocked" (set_blocked (mkBlocked "e1" AttentionApproval "Run tests?" "make test" ["yes"; "no"]%string None false "") agent1)).

Lemma blocked_witness : exists b, b ∈ agentView (tellT v1 (demoS1, AgentUpdate (blockedAttention asking))) /\
  Status b = "blocked"%string /\ Options (blocked b) = ["yes"; "no"]%string.
Proof.
  destruct (blocked_reaches_view noFloat (fun _ _ => true) (fun _ => ""%string) (fun _ => None) noNumber noNumber 0
    "" "" demoS1 asking v1 v1_told) as (b & Hb & _ & Hs & _ & Hd & _).
  - by vm_compute.
  - intros b Hb _. vm_compute in Hb. apply list_elem_of_singleton in Hb as ->. by vm_compute.
  - left. vm_compute. by left.
  - exact demo_wf.
  - by vm_compute.
  - exists b. split; [exact Hb|]. split; [exact Hs|]. exact (f_equal Options Hd).
Defined.

Definition datagram : UDPEvent := mkUDP "agent_event" "" "p" "t1" "w1" "idle" "".

Definition stepT := udpStep noFloat (fun _ _ => true) (fun _ => ""%string) (fun _ => None) noNumber noNumber 0
    demoSha demoDraw "" (Some datagram) demoNow [] "" "" demoS1 (mkMetrics 0 0 0) v1.
Lemma event_witness : exists b, b ∈ agentView stepT.1.2 /\ paneOf b = "p"%string /\ Status b = u_Status datagram /\ stepT.2 = true.
Proof.
  destruct stepT as [[s' v'] woken] eqn:E. cbn [fst snd].
  destruct (event_reaches_view noFloat (fun _ _ => true) (fun _ => ""%string) (fun _ => None) noNumber noNumber 0
    demoSha demoDraw demoDraw_size "" (Some datagram) demoNow [] "" "" demoS1 (mkMetrics 0 0 0) v1 s' v' woken demo_wf v1_told)
    as [_ H]; [|exact E|].
  - intros b Hb. vm_compute in Hb. apply list_elem_of_singleton in Hb as ->. by vm_compute.
  - destruct (H datagram eq_refl ltac:(by apply (bool_decide_unpack _); vm_compute)) as [Hwk Hm].
    assert (Ha : match agents demoS1 !! u_PaneID datagram with
                 | Some before => eventIdentityMatches before (u_TabID datagram) (u_WorkspaceID datagram) | None => false end = true) by (vm_compute; reflexivity).
    destruct (agents demoS1 !! u_PaneID datagram) as [before|]; [|done]. rewrite Ha in Hm. destruct Hm as (_ & b & Hb & Hp & Hs & _).
    exists b. exact (conj Hb (conj Hp (conj Hs Hwk))).
Defined.

Definition talk : list Turn := [mkTurn "user" "hi" "1"; mkTurn "assistant" "done" "2"; mkTurn "assistant" "later" "9"]%string.
Definition digit (s : string) : option Z := if String.eqb s "2" then Some 2 else Some 9.

Lemma response_witness : conversationResponseAt digit talk 5 = "done"%string /\ exists t, t ∈ talk /\ TurnText t = "done"%string.
Proof.
  split; [by vm_compute|].
  destruct (response_is_latest digit talk 5 "done") as (before & t & after & at_ & E & _ & Ht & _); [done|lia|by vm_compute|].
  exists t. split; [rewrite E; set_solver|exact Ht].
Defined.
End ToyView.
End View.
