(* ===== verification/SessionCache.v ===== *)
(** The topology of a herdr session as its event stream tells it
    ([internal/herdr/events.go]): the queue between the reader of the socket and
    the poller, and the cache that a snapshot starts and events keep up to date.

    JSON is a parameter: [decode] is [json.Unmarshal] of the data of an event into
    the struct its case declares. *)
From Stdlib Require Import Ascii.
From stdpp Require Import sorting.
From S2P Require Import Prelude GoLib State HerdrSessions.
#[local] Open Scope Z_scope.

Module SessionCache.
Import State HerdrSessions.

(** ** Data *)

Record SnapshotPane := mkSnapshotPane {
  sp_ID : string; sp_TerminalID : string; sp_WorkspaceID : string; sp_TabID : string; sp_Focused : bool; sp_Cwd : string;
  sp_ForegroundCwd : string; sp_Label : string; sp_Agent : string; sp_Status : string; sp_Revision : Z; sp_MaxOffset : Z }.

Record SnapshotAgent := mkSnapshotAgent {
  sa_PaneID : string; sa_TerminalID : string; sa_WorkspaceID : string; sa_TabID : string; sa_Focused : bool; sa_Name : string;
  sa_Agent : string; sa_Status : string; sa_Cwd : string; sa_ForegroundCwd : string; sa_Revision : Z; sa_StateChangeSeq : Z;
  sa_SessionValue : string; sa_SessionKind : string }.

(** the fields of a snapshot the relay uses *)
Record SessionSnapshot := mkSnapshot {
  sn_Workspaces : list Workspace; sn_Tabs : list Tab; sn_Panes : list SnapshotPane; sn_Agents : list SnapshotAgent }.

(** a [Pane] with its [SessionRaw] *)
Record CachedPane := mkCached { pane : Pane; rawValue : string; rawKind : string }.

Record Cache := mkCache {
  workspaces : gmap string Workspace; workspaceOrder : list string; panes : gmap string CachedPane;
  tabs : gmap string Tab; tabOrder : list string }.

Definition set_workspaces (v : gmap string Workspace) (c : Cache) : Cache :=
  mkCache v (workspaceOrder c) (panes c) (tabs c) (tabOrder c).
Definition set_workspaceOrder (v : list string) (c : Cache) : Cache :=
  mkCache (workspaces c) v (panes c) (tabs c) (tabOrder c).
Definition set_panes (v : gmap string CachedPane) (c : Cache) : Cache :=
  mkCache (workspaces c) (workspaceOrder c) v (tabs c) (tabOrder c).
Definition set_tabs (v : gmap string Tab) (c : Cache) : Cache :=
  mkCache (workspaces c) (workspaceOrder c) (panes c) v (tabOrder c).
Definition set_tabOrder (v : list string) (c : Cache) : Cache :=
  mkCache (workspaces c) (workspaceOrder c) (panes c) (tabs c) v.

Definition firstNonEmpty (a b : string) : string := if String.eqb a "" then b else a.
Definition firstNonZero (a b : Z) : Z := if a =? 0 then b else a.

(** ** Workspaces and tabs *)

Definition workspaceEqual (l r : Workspace) : bool :=
  String.eqb (ws_ID l) (ws_ID r) && (ws_Number l =? ws_Number r) && String.eqb (ws_Label l) (ws_Label r) &&
  Bool.eqb (ws_Focused l) (ws_Focused r) && (ws_PaneCount l =? ws_PaneCount r) && (ws_TabCount l =? ws_TabCount r) &&
  String.eqb (ws_ActiveTabID l) (ws_ActiveTabID r) && String.eqb (ws_AgentStatus l) (ws_AgentStatus r) &&
  String.eqb (ws_Cwd l) (ws_Cwd r) && bool_decide (ws_Worktree l = ws_Worktree r).

(** what an update of a workspace leaves out is kept *)
Definition mergeWorkspace (previous w : Workspace) : Workspace :=
  mkWorkspace (ws_ID w) (firstNonZero (ws_Number w) (ws_Number previous)) (firstNonEmpty (ws_Label w) (ws_Label previous))
    (ws_Focused w) (ws_PaneCount w) (ws_TabCount w) (firstNonEmpty (ws_ActiveTabID w) (ws_ActiveTabID previous))
    (firstNonEmpty (ws_AgentStatus w) (ws_AgentStatus previous)) (firstNonEmpty (ws_Cwd w) (ws_Cwd previous))
    (match ws_Worktree w with Some t => Some t | None => ws_Worktree previous end) (ws_Session w).

Definition setWorkspace (w : Workspace) (c : Cache) : Cache * bool :=
  if String.eqb (ws_ID w) "" then (c, false) else
  match workspaces c !! ws_ID w with
  | Some previous =>
      let w := mergeWorkspace previous w in
      (set_workspaces (<[ws_ID w := w]> (workspaces c)) c, negb (workspaceEqual previous w))
  | None => (set_workspaceOrder (workspaceOrder c ++ [ws_ID w]) (set_workspaces (<[ws_ID w := w]> (workspaces c)) c), true)
  end.

Definition mergeTab (previous t : Tab) : Tab :=
  mkTab (tab_ID t) (firstNonEmpty (tab_WorkspaceID t) (tab_WorkspaceID previous)) (firstNonEmpty (tab_Label t) (tab_Label previous))
    (firstNonZero (tab_Number t) (tab_Number previous)) (firstNonEmpty (tab_Cwd t) (tab_Cwd previous)).

Definition setTab (t : Tab) (c : Cache) : Cache :=
  if String.eqb (tab_ID t) "" then c else
  match tabs c !! tab_ID t with
  | Some previous => set_tabs (<[tab_ID t := mergeTab previous t]> (tabs c)) c
  | None => set_tabOrder (tabOrder c ++ [tab_ID t]) (set_tabs (<[tab_ID t := t]> (tabs c)) c)
  end.

Definition pruneWorkspaceOrder (c : Cache) : Cache :=
  set_workspaceOrder (filter (fun id => is_Some (workspaces c !! id)) (workspaceOrder c)) c.
Definition pruneTabOrder (c : Cache) : Cache :=
  set_tabOrder (filter (fun id => is_Some (tabs c !! id)) (tabOrder c)) c.

Definition known (ids : list string) : list string := filter (fun id => id <> ""%string) ids.

Definition reorderWorkspaces (ordered : list Workspace) (c : Cache) : Cache :=
  let ids := known (ws_ID <$> ordered) in
  set_workspaceOrder (ids ++ filter (fun id => id ∉ ids) (workspaceOrder c)) c.

Definition reorderTabs (ordered : list Tab) (c : Cache) : Cache :=
  let ids := known (tab_ID <$> ordered) in
  set_tabOrder (filter (fun id => id ∉ ids) (tabOrder c) ++ ids) c.

Definition removeTab (id : string) (c : Cache) : Cache :=
  if String.eqb id "" then c else
  let c := pruneTabOrder (set_tabs (delete id (tabs c)) c) in
  set_panes (filter (fun kp => pane_TabID (pane kp.2) <> id) (panes c)) c.

Definition removeWorkspace (id : string) (c : Cache) : Cache * bool :=
  if String.eqb id "" then (c, false) else
  let changed := bool_decide (is_Some (workspaces c !! id)) in
  let c := pruneWorkspaceOrder (set_workspaces (delete id (workspaces c)) c) in
  let changed := changed || negb (bool_decide (filter (fun kt => tab_WorkspaceID kt.2 = id) (tabs c) = ∅)) in
  let c := pruneTabOrder (set_tabs (filter (fun kt => tab_WorkspaceID kt.2 <> id) (tabs c)) c) in
  let changed := changed || negb (bool_decide (filter (fun kp => pane_WorkspaceID (pane kp.2) = id) (panes c) = ∅)) in
  (set_panes (filter (fun kp => pane_WorkspaceID (pane kp.2) <> id) (panes c)) c, changed).

(** ** Panes *)

Definition paneToInventoryPane (s : SnapshotPane) : CachedPane :=
  mkCached (mkPane (sp_ID s) (sp_TerminalID s) (sp_TabID s) "" 0 (sp_WorkspaceID s) "" (sp_Label s) (sp_Status s) (sp_Focused s)
              (sp_Cwd s) (sp_Revision s) 0 (sp_MaxOffset s) (sp_ForegroundCwd s) "") "" "".

Definition paneTopologyChanged (p q : Pane) : bool :=
  negb (String.eqb (pane_ID p) (pane_ID q)) || negb (String.eqb (pane_TerminalID p) (pane_TerminalID q)) ||
  negb (String.eqb (pane_WorkspaceID p) (pane_WorkspaceID q)) || negb (String.eqb (pane_TabID p) (pane_TabID q)) ||
  negb (Bool.eqb (pane_Focused p) (pane_Focused q)) || negb (String.eqb (pane_Cwd p) (pane_Cwd q)) ||
  negb (String.eqb (pane_ForegroundCwd p) (pane_ForegroundCwd q)) || negb (String.eqb (pane_Agent p) (pane_Agent q)).

(** the pane keeps the agent it had *)
Definition mergePane (previous p : CachedPane) : CachedPane :=
  let q := pane p in let o := pane previous in
  mkCached (mkPane (pane_ID q) (pane_TerminalID q) (pane_TabID q) (pane_TabLabel q) (pane_TabNumber q) (pane_WorkspaceID q)
              (pane_Agent o) (firstNonEmpty (pane_Name q) (pane_Name o)) (pane_Status q) (pane_Focused q) (pane_Cwd q)
              (pane_Revision q) (firstNonZero (pane_StateChangeSeq q) (pane_StateChangeSeq o)) (pane_MaxOffsetFromBottom q)
              (pane_ForegroundCwd q) (firstNonEmpty (pane_Session q) (pane_Session o)))
    (rawValue previous) (rawKind previous).

(** an older revision than the cached one *)
Definition stale (s : SnapshotPane) (previous : CachedPane) : bool :=
  (0 <? pane_Revision (pane previous)) && (0 <? sp_Revision s) && (sp_Revision s <? pane_Revision (pane previous)).

Definition setPane (s : SnapshotPane) (c : Cache) : Cache * bool :=
  match panes c !! sp_ID s with
  | Some previous =>
      if stale s previous then (c, false) else
      let p := mergePane previous (paneToInventoryPane s) in
      (set_panes (<[sp_ID s := p]> (panes c)) c, paneTopologyChanged (pane previous) (pane p))
  | None => (set_panes (<[sp_ID s := paneToInventoryPane s]> (panes c)) c, true)
  end.

Definition noPane : CachedPane := mkCached (mkPane "" "" "" "" 0 "" "" "" "" false "" 0 0 0 "" "") "" "".

Definition applyAgent (a : SnapshotAgent) (c : Cache) : Cache :=
  let p := pane (default noPane (panes c !! sa_PaneID a)) in
  let p := mkCached (mkPane (firstNonEmpty (sa_PaneID a) (pane_ID p)) (firstNonEmpty (sa_TerminalID a) (pane_TerminalID p))
             (firstNonEmpty (sa_TabID a) (pane_TabID p)) (pane_TabLabel p) (pane_TabNumber p)
             (firstNonEmpty (sa_WorkspaceID a) (pane_WorkspaceID p)) (sa_Agent a) (sa_Name a) (sa_Status a) (sa_Focused a)
             (firstNonEmpty (sa_Cwd a) (pane_Cwd p)) (sa_Revision a) (sa_StateChangeSeq a) (pane_MaxOffsetFromBottom p)
             (firstNonEmpty (sa_ForegroundCwd a) (pane_ForegroundCwd p)) (sa_SessionValue a)) (sa_SessionValue a) (sa_SessionKind a) in
  set_panes (<[pane_ID (pane p) := p]> (panes c)) c.

(** the agent of a pane comes or goes *)
Definition detect (agent : option string) (released : bool) (final : string) (p : CachedPane) : CachedPane * bool :=
  let q := pane p in
  let gone := released || negb (bool_decide (is_Some agent)) in
  let name := default ""%string agent in
  let changed :=
    if gone then negb (String.eqb (pane_Agent q) "" && String.eqb (pane_Name q) "" && String.eqb (pane_Session q) "" &&
                       String.eqb (rawValue p) "" && String.eqb (rawKind p) "")
    else negb (String.eqb (pane_Agent q) name) in
  let moved := negb (String.eqb final "") && negb (String.eqb (pane_Status q) final) in
  (mkCached (mkPane (pane_ID q) (pane_TerminalID q) (pane_TabID q) (pane_TabLabel q) (pane_TabNumber q) (pane_WorkspaceID q)
               (if gone then ""%string else name) (if gone then ""%string else pane_Name q)
               (if moved then final else pane_Status q) (pane_Focused q) (pane_Cwd q) (pane_Revision q) (pane_StateChangeSeq q)
               (pane_MaxOffsetFromBottom q) (pane_ForegroundCwd q) (if gone then ""%string else pane_Session q))
     (if gone then ""%string else rawValue p) (if gone then ""%string else rawKind p), changed || moved).

Definition agentDetected (id : string) (agent : option string) (released : bool) (final : string) (c : Cache) : Cache * bool :=
  match panes c !! id with
  | None => (c, false)
  | Some p => let (p, changed) := detect agent released final p in
              if changed then (set_panes (<[id := p]> (panes c)) c, true) else (c, false)
  end.

(** ** Events *)

(** the fields that the cases of [Apply] read; a field that is missing has the zero value *)
Record Data := mkData {
  d_Pane : SnapshotPane; d_PreviousPaneID : string; d_ClosedWorkspaceID : string; d_ClosedTabID : string;
  d_PaneID : string; d_Agent : option string; d_Released : bool; d_FinalStatus : string;
  d_Tab : Tab; d_TabID : string; d_Tabs : list Tab; d_WorkspaceID : string; d_Label : string; d_Number : Z; d_Cwd : string;
  d_Workspace : Workspace; d_Workspaces : list Workspace }.

(** the names of older herdr builds *)
Definition aliased (name : string) : bool :=
  bool_decide (name ∈ ["workspace_created"; "workspace_updated"; "workspace_metadata_updated"; "workspace_closed"; "workspace_renamed";
    "workspace_moved"; "workspace_reordered"; "workspace_focused"; "worktree_created"; "worktree_opened"; "worktree_removed";
    "tab_created"; "tab_closed"; "tab_renamed"; "tab_moved"; "tab_focused"; "pane_created"; "pane_closed"; "pane_updated";
    "pane_focused"; "pane_moved"; "pane_output_changed"; "pane_exited"; "pane_agent_detected"; "pane_agent_status_changed";
    "layout_updated"]%string).

(** the first underscore is a dot *)
Fixpoint dotted (s : string) : string :=
  match s with
  | EmptyString => EmptyString
  | String a s => if Ascii.eqb a "_"%char then String "."%char s else String a (dotted s)
  end.
Definition canonical (name : string) : string := if aliased name then dotted name else name.

Section Events.
Context {Raw : Type} (decode : string -> Raw -> option Data).

Record Event := mkEvent { e_Name : string; e_Data : Raw }.

Definition set_focused (b : bool) (w : Workspace) : Workspace :=
  mkWorkspace (ws_ID w) (ws_Number w) (ws_Label w) b (ws_PaneCount w) (ws_TabCount w) (ws_ActiveTabID w) (ws_AgentStatus w)
    (ws_Cwd w) (ws_Worktree w) (ws_Session w).

(** only the workspace [id] has the focus *)
Definition focus (id : string) (c : Cache) : Cache * bool :=
  (set_workspaces (map_imap (fun k w => Some (set_focused (String.eqb k id) w)) (workspaces c)) c,
   negb (bool_decide (map_Forall (fun k w => ws_Focused w = String.eqb k id) (workspaces c)))).

Definition isOne (name : string) (names : list string) : bool := bool_decide (name ∈ names).

Definition upsertTab (d : Data) (c : Cache) : Cache * bool :=
  if negb (String.eqb (tab_ID (d_Tab d)) "") then (setTab (d_Tab d) c, true)
  else if String.eqb (d_TabID d) "" then (c, false)
  else (setTab (mkTab (d_TabID d) (d_WorkspaceID d) (d_Label d) (d_Number d) (d_Cwd d)) c, true).

Definition moveTab (d : Data) (c : Cache) : Cache * bool :=
  let named := negb (String.eqb (tab_ID (d_Tab d)) "") in
  let c := if named then setTab (d_Tab d) c else c in
  let c := foldl (fun c t => setTab t c) c (d_Tabs d) in
  let listed := negb (bool_decide (d_Tabs d = [])) in
  let c := if listed then reorderTabs (d_Tabs d) c else c in
  let given := negb (String.eqb (d_TabID d) "") in
  let c := if given then setTab (mkTab (d_TabID d) (d_WorkspaceID d) "" (d_Number d) "") c else c in
  (c, named || listed || given).

Definition movePane (d : Data) (c : Cache) : Cache :=
  let s := d_Pane d in
  let c := if negb (String.eqb (d_PreviousPaneID d) "") && negb (String.eqb (d_PreviousPaneID d) (sp_ID s))
           then set_panes (delete (d_PreviousPaneID d) (panes c)) c else c in
  let c := if negb (String.eqb (sp_ID s) "") then (setPane s c).1 else c in
  (removeWorkspace (d_ClosedWorkspaceID d) (removeTab (d_ClosedTabID d) c)).1.

Definition renameWorkspace (d : Data) (c : Cache) : Cache * bool :=
  if negb (String.eqb (ws_ID (d_Workspace d)) "") then setWorkspace (d_Workspace d) c
  else
    let w := default (mkWorkspace "" 0 "" false 0 0 "" "" "" None "") (workspaces c !! d_WorkspaceID d) in
    setWorkspace (mkWorkspace (d_WorkspaceID d) (ws_Number w) (d_Label d) (ws_Focused w) (ws_PaneCount w) (ws_TabCount w)
                    (ws_ActiveTabID w) (ws_AgentStatus w) (ws_Cwd w) (ws_Worktree w) (ws_Session w)) c.

Definition reorder (d : Data) (c : Cache) : Cache * bool :=
  let c := foldl (fun c w => (setWorkspace w c).1) c (d_Workspaces d) in
  if bool_decide (d_Workspaces d = []) then (c, false) else (reorderWorkspaces (d_Workspaces d) c, true).

(** the case of an event whose data could be read *)
Definition applyData (name : string) (d : Data) (c : Cache) : Cache * bool :=
  if isOne name ["pane.created"; "pane.updated"]%string then
    (if String.eqb (sp_ID (d_Pane d)) "" then (c, false) else setPane (d_Pane d) c)
  else if String.eqb name "pane.moved" then (movePane d c, true)
  else if String.eqb name "pane.closed" then
    (if String.eqb (d_PaneID d) "" then (c, false) else (set_panes (delete (d_PaneID d) (panes c)) c, true))
  else if String.eqb name "pane.exited" then
    (set_panes (delete (d_PaneID d) (panes c)) c, negb (String.eqb (d_PaneID d) ""))
  else if String.eqb name "pane.agent_detected" then agentDetected (d_PaneID d) (d_Agent d) (d_Released d) (d_FinalStatus d) c
  else if isOne name ["tab.created"; "tab.renamed"]%string then upsertTab d c
  else if String.eqb name "tab.moved" then moveTab d c
  else if String.eqb name "tab.closed" then (removeTab (d_TabID d) c, negb (String.eqb (d_TabID d) ""))
  else if isOne name ["workspace.closed"; "worktree.removed"]%string then removeWorkspace (d_WorkspaceID d) c
  else if isOne name ["workspace.created"; "workspace.updated"; "workspace.metadata_updated"; "worktree.created"; "worktree.opened"]%string
  then setWorkspace (d_Workspace d) c
  else if String.eqb name "workspace.renamed" then renameWorkspace d c
  else if String.eqb name "workspace.focused" then focus (d_WorkspaceID d) c
  else if isOne name ["workspace.moved"; "workspace.reordered"]%string then reorder d c
  else (c, false).

(** the names whose data is read *)
Definition handled (name : string) : bool :=
  isOne name ["pane.created"; "pane.updated"; "pane.moved"; "pane.closed"; "pane.exited"; "pane.agent_detected"; "tab.created";
    "tab.renamed"; "tab.moved"; "tab.closed"; "workspace.closed"; "worktree.removed"; "workspace.created"; "workspace.updated";
    "workspace.metadata_updated"; "worktree.created"; "worktree.opened"; "workspace.renamed"; "workspace.focused"; "workspace.moved";
    "workspace.reordered"]%string.

(** the new cache and whether the topology changed; [None] when the data cannot be read *)
Definition Apply (e : Event) (c : Cache) : option (Cache * bool) :=
  if handled (e_Name e) then (let? d := decode (e_Name e) (e_Data e) in Some (applyData (e_Name e) d c))
  else Some (c, false).

(** ** Snapshots *)

Definition emptyCache : Cache := mkCache ∅ [] ∅ ∅ [].

Definition NewSessionCache (s : SessionSnapshot) : Cache :=
  let c := foldl (fun c w => (setWorkspace w c).1) emptyCache (sn_Workspaces s) in
  let c := foldl (fun c t => setTab t c) c (sn_Tabs s) in
  let c := foldl (fun c p => if String.eqb (sp_ID p) "" then c
                             else set_panes (<[sp_ID p := paneToInventoryPane p]> (panes c)) c) c (sn_Panes s) in
  foldl (fun c a => applyAgent a c) c (sn_Agents s).

Record TopologySnapshot := mkTopology { t_Workspaces : list Workspace; t_Panes : list Pane; t_Tabs : list Tab }.

Definition paneLe (p q : Pane) : Prop := String.leb (pane_ID p) (pane_ID q) = true.
#[export] Instance paneLe_dec : RelDecision paneLe.
Proof. intros p q. unfold paneLe. apply _. Defined.

Definition tabCount (c : Cache) (id : string) : Z := Z.of_nat (size (filter (fun kt => tab_WorkspaceID kt.2 = id) (tabs c))).
Definition paneCount (c : Cache) (id : string) : Z := Z.of_nat (size (filter (fun kp => pane_WorkspaceID (pane kp.2) = id) (panes c))).

(** the shorter of two directories that are not empty *)
Definition shorter (cwd other : string) : string :=
  if String.eqb other "" then cwd
  else if String.eqb cwd "" || (String.length other <? String.length cwd)%nat then other else cwd.

(** [order] and [porder] are the orders in which the maps are walked *)
Definition workspaceCwd (order : list Tab) (porder : list Pane) (id : string) (w : Workspace) : string :=
  match ws_Worktree w with
  | Some t => if negb (String.eqb (CheckoutPath t) "") then CheckoutPath t
              else foldl shorter (foldl shorter ""%string (tab_Cwd <$> filter (fun t => tab_WorkspaceID t = id) order))
                     (pane_Cwd <$> filter (fun p => pane_WorkspaceID p = id) porder)
  | None => foldl shorter (foldl shorter ""%string (tab_Cwd <$> filter (fun t => tab_WorkspaceID t = id) order))
              (pane_Cwd <$> filter (fun p => pane_WorkspaceID p = id) porder)
  end.

(** a workspace as a snapshot reports it *)
Definition reported (order : list Tab) (porder : list Pane) (c : Cache) (id : string) (w : Workspace) : Workspace :=
  mkWorkspace (ws_ID w) (ws_Number w) (ws_Label w) (ws_Focused w) (paneCount c id) (tabCount c id)
    (if bool_decide (is_Some (tabs c !! ws_ActiveTabID w)) then ws_ActiveTabID w else ""%string) (ws_AgentStatus w)
    (if String.eqb (ws_Cwd w) "" then workspaceCwd order porder id w else ws_Cwd w) (ws_Worktree w) (ws_Session w).

Definition Snapshot (order : list Tab) (porder : list Pane) (c : Cache) : TopologySnapshot :=
  mkTopology (omap (fun id => reported order porder c id <$> workspaces c !! id) (workspaceOrder c))
    (merge_sort paneLe ((fun kp => pane kp.2) <$> map_to_list (panes c)))
    (omap (fun id => tabs c !! id) (tabOrder c)).
End Events.

(** ** Consistency *)

(** the records are filed under their ids, and the orders list exactly them, once *)
Record wf (c : Cache) : Prop := mkWf {
  wf_workspaces : map_Forall (fun id w => ws_ID w = id /\ id <> ""%string) (workspaces c);
  wf_tabs : map_Forall (fun id t => tab_ID t = id /\ id <> ""%string) (tabs c);
  wf_panes : map_Forall (fun id p => pane_ID (pane p) = id /\ id <> ""%string) (panes c);
  wf_workspaceOrder : NoDup (workspaceOrder c) /\ forall id, id ∈ workspaceOrder c <-> is_Some (workspaces c !! id);
  wf_tabOrder : NoDup (tabOrder c) /\ forall id, id ∈ tabOrder c <-> is_Some (tabs c !! id) }.

(** a list of herdr has each of its members once *)
Definition listsOnce (d : Data) : Prop := NoDup (known (ws_ID <$> d_Workspaces d)) /\ NoDup (known (tab_ID <$> d_Tabs d)).

Lemma insert_order {A} (m : gmap string A) order id (x : A) :
  (NoDup order /\ forall i, i ∈ order <-> is_Some (m !! i)) -> is_Some (m !! id) ->
  NoDup order /\ forall i, i ∈ order <-> is_Some (<[id := x]> m !! i).
Proof.
  intros [Hn Ho] Hid. split; [done|]. intros i. rewrite Ho. destruct (decide (id = i)) as [<-|]; [by rewrite lookup_insert_eq|by rewrite lookup_insert_ne].
Qed.

Lemma append_order {A} (m : gmap string A) order id (x : A) :
  (NoDup order /\ forall i, i ∈ order <-> is_Some (m !! i)) -> m !! id = None ->
  NoDup (order ++ [id]) /\ forall i, i ∈ order ++ [id] <-> is_Some (<[id := x]> m !! i).
Proof.
  intros [Hn Ho] Hid. split.
  - apply NoDup_app. split_and!; [done| |apply NoDup_singleton]. intros i Hi Hi'%list_elem_of_singleton. subst.
    apply Ho in Hi. rewrite Hid in Hi. by destruct Hi.
  - intros i. rewrite elem_of_app, list_elem_of_singleton, Ho. destruct (decide (id = i)) as [<-|].
    + rewrite lookup_insert_eq. split; [by eexists|by right].
    + rewrite lookup_insert_ne by done. naive_solver.
Qed.

Lemma prune_order {A} (m m' : gmap string A) order :
  (NoDup order /\ forall i, i ∈ order <-> is_Some (m !! i)) -> m' ⊆ m ->
  NoDup (filter (fun id => is_Some (m' !! id)) order) /\ forall i, i ∈ filter (fun id => is_Some (m' !! id)) order <-> is_Some (m' !! i).
Proof.
  intros [Hn Ho] Hs. split; [by apply NoDup_filter|]. intros i. rewrite list_elem_of_filter, Ho. split; [by intros [? _]|].
  intros [x Hx]. split; [by eexists|]. eexists. by eapply lookup_weaken.
Qed.

Lemma reordered {A} (m : gmap string A) order ids :
  (NoDup order /\ forall i, i ∈ order <-> is_Some (m !! i)) -> NoDup ids -> (forall i, i ∈ ids -> is_Some (m !! i)) ->
  (NoDup (ids ++ filter (fun id => id ∉ ids) order) /\ forall i, i ∈ ids ++ filter (fun id => id ∉ ids) order <-> is_Some (m !! i)) /\
  (NoDup (filter (fun id => id ∉ ids) order ++ ids) /\ forall i, i ∈ filter (fun id => id ∉ ids) order ++ ids <-> is_Some (m !! i)).
Proof.
  intros [Hn Ho] Hi Hk.
  assert (Hm : forall i, (i ∈ ids) \/ ((i ∉ ids) /\ (i ∈ order)) <-> is_Some (m !! i)).
  { intros i. rewrite Ho. split; [intros [H|[_ H]]; auto|]. destruct (decide (i ∈ ids)); auto. }
  split; (split; [apply NoDup_app; split_and!; [try by apply NoDup_filter|intros i|try by apply NoDup_filter]; try done|
    intros i; rewrite elem_of_app, list_elem_of_filter, <- Hm; naive_solver]); try done;
    rewrite ?list_elem_of_filter; naive_solver.
Qed.

Lemma filtered_Forall {A} (P : string -> A -> Prop) (Q : string * A -> Prop) `{forall x, Decision (Q x)} (m : gmap string A) :
  map_Forall P m -> map_Forall P (filter Q m).
Proof. intros HP i x [Hx _]%map_lookup_filter_Some. by apply HP. Qed.

Lemma setWorkspace_wf w c : wf c -> wf (setWorkspace w c).1.
Proof.
  intros [H1 H2 H3 H4 H5]. unfold setWorkspace. destruct (String.eqb_spec (ws_ID w) "") as [|Hne]; [by constructor|].
  destruct (workspaces c !! ws_ID w) as [p|] eqn:E; cbn; constructor; cbn; try done.
  - by apply map_Forall_insert_2.
  - by apply insert_order.
  - by apply map_Forall_insert_2.
  - by apply append_order.
Qed.

Lemma setWorkspace_knows w c : ws_ID w <> ""%string -> is_Some (workspaces (setWorkspace w c).1 !! ws_ID w).
Proof.
  intros Hne. unfold setWorkspace. rewrite (proj2 (String.eqb_neq _ _) Hne).
  destruct (workspaces c !! ws_ID w); cbn; rewrite lookup_insert_eq; by eexists.
Qed.

Lemma setWorkspace_keeps w c id : is_Some (workspaces c !! id) -> is_Some (workspaces (setWorkspace w c).1 !! id).
Proof.
  intros H. unfold setWorkspace. case_match; [done|]. case_match; cbn; apply lookup_insert_is_Some; destruct (decide (ws_ID w = id)); auto.
Qed.

Lemma setTab_wf t c : wf c -> wf (setTab t c).
Proof.
  intros [H1 H2 H3 H4 H5]. unfold setTab. destruct (String.eqb_spec (tab_ID t) "") as [|Hne]; [by constructor|].
  destruct (tabs c !! tab_ID t) as [p|] eqn:E; constructor; cbn; try done.
  - by apply map_Forall_insert_2.
  - by apply insert_order.
  - by apply map_Forall_insert_2.
  - by apply append_order.
Qed.

Lemma setTab_knows t c : tab_ID t <> ""%string -> is_Some (tabs (setTab t c) !! tab_ID t).
Proof.
  intros Hne. unfold setTab. rewrite (proj2 (String.eqb_neq _ _) Hne).
  destruct (tabs c !! tab_ID t); cbn; rewrite lookup_insert_eq; by eexists.
Qed.

Lemma setTab_keeps t c id : is_Some (tabs c !! id) -> is_Some (tabs (setTab t c) !! id).
Proof.
  intros H. unfold setTab. case_match; [done|]. case_match; cbn; apply lookup_insert_is_Some; destruct (decide (tab_ID t = id)); auto.
Qed.

Lemma wf_set_panes m c : wf c -> map_Forall (fun id p => pane_ID (pane p) = id /\ id <> ""%string) m -> wf (set_panes m c).
Proof. intros [H1 H2 H3 H4 H5] Hm. by constructor. Qed.

Lemma setPane_wf s c : sp_ID s <> ""%string -> wf c -> wf (setPane s c).1.
Proof.
  intros Hne H. unfold setPane. repeat case_match; cbn; try done; (apply wf_set_panes; [done|]);
    (apply map_Forall_insert_2; [done|]; apply (wf_panes _ H)).
Qed.

(** every agent of a snapshot names its pane *)
Definition named (s : SessionSnapshot) : Prop := Forall (fun a => sa_PaneID a <> ""%string) (sn_Agents s).

Lemma applyAgent_wf a c : sa_PaneID a <> ""%string -> wf c -> wf (applyAgent a c).
Proof.
  intros Hne H. unfold applyAgent. apply wf_set_panes; [done|]. apply map_Forall_insert_2; [|apply (wf_panes _ H)].
  split; [done|]. cbn. unfold firstNonEmpty. by rewrite (proj2 (String.eqb_neq _ _) Hne).
Qed.

Lemma removeTab_wf id c : wf c -> wf (removeTab id c).
Proof.
  intros [H1 H2 H3 H4 H5]. unfold removeTab. case_match; [by constructor|]. constructor; cbn; try done.
  - by apply map_Forall_delete.
  - by apply filtered_Forall.
  - apply (prune_order (tabs c)); [done|]. apply delete_subseteq.
Qed.

Lemma removeWorkspace_wf id c : wf c -> wf (removeWorkspace id c).1.
Proof.
  intros [H1 H2 H3 H4 H5]. unfold removeWorkspace. case_match; [by constructor|]. constructor; cbn; try done.
  - by apply map_Forall_delete.
  - by apply filtered_Forall.
  - by apply filtered_Forall.
  - apply (prune_order (workspaces c)); [done|]. apply delete_subseteq.
  - apply (prune_order (tabs c)); [done|]. apply map_filter_subseteq.
Qed.

Lemma foldl_wf {A} (f : Cache -> A -> Cache) l c : (forall c a, wf c -> wf (f c a)) -> wf c -> wf (foldl f c l).
Proof. intros Hf. revert c. induction l as [|a l IH]; intros c Hc; cbn; [done|]. by apply IH, Hf. Qed.

Lemma known_elem l i : i ∈ known l <-> i <> ""%string /\ i ∈ l.
Proof. unfold known. by rewrite list_elem_of_filter. Qed.

Lemma setTabs_know l c : forall i, i ∈ known (tab_ID <$> l) -> is_Some (tabs (foldl (fun c t => setTab t c) c l) !! i).
Proof.
  assert (Hk : forall l c i, is_Some (tabs c !! i) -> is_Some (tabs (foldl (fun c t => setTab t c) c l) !! i)).
  { clear. induction l as [|t l IH]; intros c i Hi; cbn; [done|]. by apply IH, setTab_keeps. }
  revert c. induction l as [|t l IH]; intros c i; rewrite known_elem; cbn; [set_solver|].
  intros [Hne [->|Hi]%elem_of_cons]; [by apply Hk, setTab_knows|]. apply IH. by apply known_elem.
Qed.

Lemma setWorkspaces_know l c :
  forall i, i ∈ known (ws_ID <$> l) -> is_Some (workspaces (foldl (fun c w => (setWorkspace w c).1) c l) !! i).
Proof.
  assert (Hk : forall l c i, is_Some (workspaces c !! i) -> is_Some (workspaces (foldl (fun c w => (setWorkspace w c).1) c l) !! i)).
  { clear. induction l as [|t l IH]; intros c i Hi; cbn; [done|]. by apply IH, setWorkspace_keeps. }
  revert c. induction l as [|t l IH]; intros c i; rewrite known_elem; cbn; [set_solver|].
  intros [Hne [->|Hi]%elem_of_cons]; [by apply Hk, setWorkspace_knows|]. apply IH. by apply known_elem.
Qed.

Lemma reorderTabs_wf l c : wf c -> NoDup (known (tab_ID <$> l)) -> (forall i, i ∈ known (tab_ID <$> l) -> is_Some (tabs c !! i)) ->
  wf (reorderTabs l c).
Proof. intros [H1 H2 H3 H4 H5] Hn Hk. constructor; cbn; try done. by apply (reordered (tabs c)). Qed.

Lemma reorderWorkspaces_wf l c : wf c -> NoDup (known (ws_ID <$> l)) ->
  (forall i, i ∈ known (ws_ID <$> l) -> is_Some (workspaces c !! i)) -> wf (reorderWorkspaces l c).
Proof. intros [H1 H2 H3 H4 H5] Hn Hk. constructor; cbn; try done. by apply (reordered (workspaces c)). Qed.

Lemma setTabs_wf l c : wf c -> wf (foldl (fun c t => setTab t c) c l).
Proof. intros H. apply foldl_wf; [|done]. intros. by apply setTab_wf. Qed.

Lemma setWorkspaces_wf l c : wf c -> wf (foldl (fun c w => (setWorkspace w c).1) c l).
Proof. intros H. apply foldl_wf; [|done]. intros. by apply setWorkspace_wf. Qed.

Lemma moveTab_wf d c : listsOnce d -> wf c -> wf (moveTab d c).1.
Proof.
  intros [_ Hn] H. unfold moveTab. cbn [fst]. set (c1 := if negb _ then setTab (d_Tab d) c else c).
  assert (H1 : wf c1) by (subst c1; case_match; [by apply setTab_wf|done]).
  set (c2 := foldl _ c1 (d_Tabs d)). assert (H2 : wf c2) by by apply setTabs_wf.
  set (c3 := if negb (bool_decide _) then reorderTabs (d_Tabs d) c2 else c2).
  assert (H3 : wf c3) by (subst c3; case_match; [apply reorderTabs_wf; [done|done|apply setTabs_know]|done]).
  case_match; [by apply setTab_wf|done].
Qed.

Lemma focus_wf id c : wf c -> wf (focus id c).1.
Proof.
  intros [H1 H2 H3 [H4 H4'] H5]. constructor; cbn; try done.
  - intros i w. rewrite map_lookup_imap. destruct (workspaces c !! i) as [w0|] eqn:E; cbn; [|done]. intros [= <-]. cbn. by apply (H1 i).
  - split; [done|]. intros i. rewrite map_lookup_imap, H4'. by destruct (workspaces c !! i).
Qed.

Lemma agentDetected_wf id agent released final c : wf c -> wf (agentDetected id agent released final c).1.
Proof.
  intros H. unfold agentDetected. destruct (panes c !! id) as [p|] eqn:E; [|done]. destruct (detect _ _ _ p) as [q changed] eqn:Ed.
  case_match; [|done]. apply wf_set_panes; [done|]. apply map_Forall_insert_2; [|apply (wf_panes _ H)].
  unfold detect in Ed. simplify_eq/=. by apply (wf_panes _ H id p).
Qed.

Lemma applyData_wf name d c : listsOnce d -> wf c -> wf (applyData name d c).1.
Proof.
  intros Hd H. assert (Hdel : forall id, wf (set_panes (delete id (panes c)) c)).
  { intros id. apply wf_set_panes; [done|]. apply map_Forall_delete, (wf_panes _ H). }
  unfold applyData. repeat (case_match; try done); cbn [fst]; auto using setWorkspace_wf, removeTab_wf, removeWorkspace_wf,
    focus_wf, agentDetected_wf, moveTab_wf.
  - apply setPane_wf; [|done]. by apply String.eqb_neq.
  - unfold movePane. apply removeWorkspace_wf, removeTab_wf. set (c1 := if negb _ && _ then _ else c).
    assert (wf c1) by (subst c1; case_match; auto).
    destruct (String.eqb_spec (sp_ID (d_Pane d)) ""); [done|by apply setPane_wf].
  - unfold upsertTab. repeat case_match; try done; by apply setTab_wf.
  - unfold renameWorkspace. case_match; by apply setWorkspace_wf.
  - unfold reorder. case_match; [by apply setWorkspaces_wf|]. apply reorderWorkspaces_wf; [by apply setWorkspaces_wf|by destruct Hd|apply setWorkspaces_know].
Qed.

Lemma new_wf s : named s -> wf (NewSessionCache s).
Proof.
  intros Hs. unfold NewSessionCache. unfold named in Hs.
  match goal with |- wf (foldl _ ?c _) => assert (Hc : wf c); [|generalize dependent c] end.
  2: { induction Hs as [|a l Ha _ IH]; intros c Hc; cbn; [done|]. by apply IH, applyAgent_wf. }
  apply foldl_wf.
  - intros c p H. destruct (String.eqb_spec (sp_ID p) ""); [done|]. apply wf_set_panes; [done|]. apply map_Forall_insert_2; [done|]. apply (wf_panes _ H).
  - apply setTabs_wf, setWorkspaces_wf. constructor; cbn; try apply map_Forall_empty; split; try apply NoDup_nil_2; intros i;
      rewrite lookup_empty; set_solver.
Qed.

Section Runs.
Context {Raw : Type} (decode : string -> Raw -> option Data).

(** the cache after a snapshot and events; the stream is given up at one that cannot be read *)
Definition follow (s : SessionSnapshot) (es : list Event) : option Cache :=
  foldM (fun c e => let? r := Apply decode e c in Some r.1) (NewSessionCache s) es.

(** the lists of an event that is applied *)
Definition once (e : Event (Raw := Raw)) : Prop := forall d, decode (e_Name e) (e_Data e) = Some d -> listsOnce d.

Lemma Apply_wf e c r : once e -> wf c -> Apply decode e c = Some r -> wf r.1.
Proof.
  intros He H. unfold Apply. case_match; [|by intros [= <-]]. destruct (decode _ _) as [d|] eqn:E; cbn; [|done].
  intros [= <-]. apply applyData_wf; [by apply He|done].
Qed.

Lemma follow_wf s es c : named s -> Forall once es -> follow s es = Some c -> wf c.
Proof.
  intros Hs He. unfold follow. generalize (new_wf s Hs). generalize (NewSessionCache s). revert c. induction He as [|e es He Hes IH]; intros c c0 Hc; cbn.
  { by intros [= <-]. }
  destruct (Apply decode e c0) as [r|] eqn:E; cbn; [|done]. apply IH. by eapply Apply_wf.
Qed.
End Runs.

(** ** What herdr told *)

(** The workspaces and the tabs as the snapshot and the events tell them: plain
    lists in the order of herdr, without the maps and orders of the cache. *)
Section Told.
Context {A : Type} (idOf : A -> string) (merge : A -> A -> A).

(** a record that is told: merged into the one with its id, or the last of the list *)
Definition upsert (x : A) (l : list A) : list A :=
  if String.eqb (idOf x) "" then l
  else if bool_decide (idOf x ∈ idOf <$> l) then (fun y => if String.eqb (idOf y) (idOf x) then merge y x else y) <$> l
  else l ++ [x].

(** the records with these ids, in the order of the ids *)
Definition pick (ids : list string) (l : list A) : list A := omap (fun id => head (filter (fun y => idOf y = id) l)) ids.
Definition others (ids : list string) (l : list A) : list A := filter (fun y => idOf y ∉ ids) l.

Lemma others_nil l : others [] l = l.
Proof. unfold others. induction l as [|x l IH]; [done|]. rewrite filter_cons, decide_True, IH by apply not_elem_of_nil. done. Qed.

Definition fits (m : gmap string A) (order : list string) : Prop :=
  map_Forall (fun id x => idOf x = id /\ id <> ""%string) m /\ NoDup order /\ forall i, i ∈ order <-> is_Some (m !! i).
Definition listOf (m : gmap string A) (order : list string) : list A := omap (fun id => m !! id) order.

Lemma listOf_elem m order x : fits m order -> x ∈ listOf m order <-> m !! idOf x = Some x.
Proof.
  intros (Hm & _ & Ho). unfold listOf. rewrite list_elem_of_omap. split.
  - intros (i & _ & Hi). by destruct (Hm i x Hi) as [<- _].
  - intros Hx. exists (idOf x). split; [|done]. apply Ho. by eexists.
Qed.

Lemma listOf_ids m order : fits m order -> idOf <$> listOf m order = order.
Proof.
  intros (Hm & _ & Ho). assert (Hs : forall i, i ∈ order -> is_Some (m !! i)) by (intros i; apply Ho). clear Ho. unfold listOf.
  induction order as [|i order IH]; [done|]. cbn. destruct (Hs i ltac:(by left)) as [x Ex]. rewrite Ex. cbn.
  rewrite (proj1 (Hm i x Ex)), IH; [done|]. intros j Hj. apply Hs. by right.
Qed.

Lemma listOf_update m order i (f : A -> A) x : fits m order -> m !! i = Some x ->
  listOf (<[i := f x]> m) order = (fun y => if String.eqb (idOf y) i then f y else y) <$> listOf m order.
Proof.
  intros (Hm & _ & _) Hi. unfold listOf. induction order as [|j order IH]; [done|]. cbn.
  destruct (decide (i = j)) as [<-|Hne].
  - rewrite lookup_insert_eq, Hi. cbn. rewrite (proj1 (Hm i x Hi)), String.eqb_refl, IH. done.
  - rewrite lookup_insert_ne by done. destruct (m !! j) as [y|] eqn:Ej; [|done]. cbn. rewrite (proj1 (Hm j y Ej)), IH.
    by rewrite (proj2 (String.eqb_neq j i)).
Qed.

Lemma listOf_append m order i x : fits m order -> m !! i = None -> listOf (<[i := x]> m) (order ++ [i]) = listOf m order ++ [x].
Proof.
  intros (_ & _ & Ho) Hi. unfold listOf. rewrite omap_app. cbn. rewrite lookup_insert_eq. f_equal.
  assert (Hn : i ∉ order) by (rewrite Ho, Hi; by intros []). clear Ho. induction order as [|j order IH]; [done|].
  apply not_elem_of_cons in Hn as [Hne Hn]. cbn. rewrite lookup_insert_ne, (IH Hn) by done. done.
Qed.

Lemma listOf_prune m order (P : A -> Prop) `{forall x, Decision (P x)} m' :
  (forall i, m' !! i = (let? x := m !! i in if decide (P x) then Some x else None)) ->
  listOf m' (filter (fun id => is_Some (m' !! id)) order) = filter P (listOf m order).
Proof.
  intros Hm'. unfold listOf. induction order as [|i order IH]; [done|]. cbn. pose proof (Hm' i) as Hi.
  destruct (m !! i) as [x|]; cbn in Hi; rewrite ?filter_cons; [|by rewrite Hi, decide_False by (by intros [])].
  destruct (decide (P x)); [|by rewrite Hi, decide_False by (by intros [])].
  rewrite decide_True by (rewrite Hi; by eexists). cbn. rewrite Hi. f_equal. exact IH.
Qed.

Lemma listOf_head m order i : fits m order -> head (filter (fun y => idOf y = i) (listOf m order)) = m !! i.
Proof.
  intros H. pose proof H as (Hm & _ & Ho). destruct (m !! i) as [x|] eqn:Ei.
  - destruct (filter (fun y => idOf y = i) (listOf m order)) as [|y l] eqn:E.
    + assert (Hx : x ∈ filter (fun y => idOf y = i) (listOf m order)); [|rewrite E in Hx; by apply not_elem_of_nil in Hx].
      destruct (Hm i x Ei) as [Ex _]. apply list_elem_of_filter. split; [done|]. apply listOf_elem; [done|]. by rewrite Ex.
    + assert (Hy : y ∈ y :: l) by by left. rewrite <- E in Hy. apply list_elem_of_filter in Hy as [<- Hy].
      apply listOf_elem in Hy; [|done]. cbn. congruence.
  - destruct (filter (fun y => idOf y = i) (listOf m order)) as [|y l] eqn:E; [done|].
    assert (Hy : y ∈ y :: l) by by left. rewrite <- E in Hy. apply list_elem_of_filter in Hy as [<- Hy].
    apply listOf_elem in Hy; [|done]. congruence.
Qed.

Lemma listOf_pick m order ids : fits m order -> listOf m ids = pick ids (listOf m order).
Proof. intros H. unfold listOf at 1, pick. apply list_omap_ext. apply Forall2_same_length_lookup_2; [done|]. intros j i i' E E'. simplify_eq. by rewrite listOf_head. Qed.

Lemma listOf_others m order ids : fits m order -> listOf m (filter (fun id => id ∉ ids) order) = others ids (listOf m order).
Proof.
  intros (Hm & _ & _). unfold listOf, others. induction order as [|i order IH]; [done|]. rewrite filter_cons. cbn.
  destruct (m !! i) as [x|] eqn:E; cycle 1.
  { case_decide; [|done]. cbn. by rewrite E. }
  rewrite filter_cons. rewrite (proj1 (Hm i x E)). case_decide; [|done]. cbn. rewrite E. f_equal. exact IH.
Qed.

(** an upsert of the cache is an upsert of the list *)
Lemma listOf_upsert m order x (H : fits m order) : idOf x <> ""%string -> (forall y, idOf (merge y x) = idOf x) ->
  (forall y, m !! idOf x = Some y -> listOf (<[idOf x := merge y x]> m) order = upsert x (listOf m order)) /\
  (m !! idOf x = None -> listOf (<[idOf x := x]> m) (order ++ [idOf x]) = upsert x (listOf m order)).
Proof.
  intros Hne Hm. unfold upsert. rewrite (proj2 (String.eqb_neq _ _) Hne), (listOf_ids m order H). pose proof H as (_ & _ & Ho). split.
  - intros y Hy. rewrite bool_decide_eq_true_2 by (apply Ho; by eexists). by apply (listOf_update m order (idOf x) (fun y => merge y x)).
  - intros Hn. rewrite bool_decide_eq_false_2 by (rewrite Ho, Hn; by intros []). by apply listOf_append.
Qed.
End Told.

Definition workspacesOf (c : Cache) : list Workspace := listOf (workspaces c) (workspaceOrder c).
Definition tabsOf (c : Cache) : list Tab := listOf (tabs c) (tabOrder c).

Definition tell : Workspace -> list Workspace -> list Workspace := upsert ws_ID mergeWorkspace.
Definition tellTab : Tab -> list Tab -> list Tab := upsert tab_ID mergeTab.
Definition without (id : string) (l : list Workspace) : list Workspace :=
  if String.eqb id "" then l else filter (fun w => ws_ID w <> id) l.
Definition withoutTab (id : string) (l : list Tab) : list Tab :=
  if String.eqb id "" then l else filter (fun t => tab_ID t <> id) l.
Definition withoutTabsOf (id : string) (l : list Tab) : list Tab :=
  if String.eqb id "" then l else filter (fun t => tab_WorkspaceID t <> id) l.

(** what an event says of the workspaces: opened ones come last, closed ones go, a
    list of herdr comes first and in its order *)
Definition toldWorkspaces (name : string) (d : Data) (l : list Workspace) : list Workspace :=
  if String.eqb name "pane.moved" then without (d_ClosedWorkspaceID d) l
  else if isOne name ["workspace.closed"; "worktree.removed"]%string then without (d_WorkspaceID d) l
  else if isOne name ["workspace.created"; "workspace.updated"; "workspace.metadata_updated"; "worktree.created"; "worktree.opened"]%string
  then tell (d_Workspace d) l
  else if String.eqb name "workspace.renamed" then
    (if String.eqb (ws_ID (d_Workspace d)) "" then
       let w := default (mkWorkspace "" 0 "" false 0 0 "" "" "" None "") (head (filter (fun w => ws_ID w = d_WorkspaceID d) l)) in
       tell (mkWorkspace (d_WorkspaceID d) (ws_Number w) (d_Label d) (ws_Focused w) (ws_PaneCount w) (ws_TabCount w)
               (ws_ActiveTabID w) (ws_AgentStatus w) (ws_Cwd w) (ws_Worktree w) (ws_Session w)) l
     else tell (d_Workspace d) l)
  else if String.eqb name "workspace.focused" then (fun w => set_focused (String.eqb (ws_ID w) (d_WorkspaceID d)) w) <$> l
  else if isOne name ["workspace.moved"; "workspace.reordered"]%string then
    let l := foldl (fun l w => tell w l) l (d_Workspaces d) in let ids := known (ws_ID <$> d_Workspaces d) in
    pick ws_ID ids l ++ others ws_ID ids l
  else l.

(** what an event says of the tabs: a list of herdr comes last and in its order *)
Definition toldTabs (name : string) (d : Data) (l : list Tab) : list Tab :=
  if String.eqb name "pane.moved" then withoutTabsOf (d_ClosedWorkspaceID d) (withoutTab (d_ClosedTabID d) l)
  else if isOne name ["tab.created"; "tab.renamed"]%string then
    tellTab (if String.eqb (tab_ID (d_Tab d)) "" then mkTab (d_TabID d) (d_WorkspaceID d) (d_Label d) (d_Number d) (d_Cwd d) else d_Tab d) l
  else if String.eqb name "tab.moved" then
    let l := foldl (fun l t => tellTab t l) (tellTab (d_Tab d) l) (d_Tabs d) in let ids := known (tab_ID <$> d_Tabs d) in
    tellTab (mkTab (d_TabID d) (d_WorkspaceID d) "" (d_Number d) "") (others tab_ID ids l ++ pick tab_ID ids l)
  else if String.eqb name "tab.closed" then withoutTab (d_TabID d) l
  else if isOne name ["workspace.closed"; "worktree.removed"]%string then withoutTabsOf (d_WorkspaceID d) l
  else l.

Lemma wf_fits c : wf c -> fits ws_ID (workspaces c) (workspaceOrder c) /\ fits tab_ID (tabs c) (tabOrder c).
Proof. intros [H1 H2 _ H4 H5]. done. Qed.

Lemma setWorkspace_told w c : wf c -> workspacesOf (setWorkspace w c).1 = tell w (workspacesOf c) /\ tabsOf (setWorkspace w c).1 = tabsOf c.
Proof.
  intros [H _]%wf_fits. unfold setWorkspace, tell. destruct (String.eqb_spec (ws_ID w) "") as [E|Hne].
  { unfold upsert. by rewrite E. }
  destruct (listOf_upsert ws_ID mergeWorkspace _ _ w H Hne ltac:(done)) as [H1 H2].
  destruct (workspaces c !! ws_ID w) as [p|] eqn:E; (split; [|done]); [exact (H1 p eq_refl)|exact (H2 eq_refl)].
Qed.

Lemma setTab_told t c : wf c -> tabsOf (setTab t c) = tellTab t (tabsOf c) /\ workspacesOf (setTab t c) = workspacesOf c.
Proof.
  intros [_ H]%wf_fits. unfold setTab, tellTab. destruct (String.eqb_spec (tab_ID t) "") as [E|Hne].
  { unfold upsert. by rewrite E. }
  destruct (listOf_upsert tab_ID mergeTab _ _ t H Hne ltac:(done)) as [H1 H2].
  destruct (tabs c !! tab_ID t) as [p|] eqn:E; (split; [|done]); [exact (H1 p eq_refl)|exact (H2 eq_refl)].
Qed.

Lemma setWorkspaces_told l c : wf c ->
  workspacesOf (foldl (fun c w => (setWorkspace w c).1) c l) = foldl (fun l w => tell w l) (workspacesOf c) l /\
  tabsOf (foldl (fun c w => (setWorkspace w c).1) c l) = tabsOf c.
Proof.
  revert c. induction l as [|w l IH]; intros c H; cbn; [done|]. destruct (setWorkspace_told w c H) as [E1 E2].
  rewrite <- E1, <- E2. apply IH. by apply setWorkspace_wf.
Qed.

Lemma setTabs_told l c : wf c -> tabsOf (foldl (fun c t => setTab t c) c l) = foldl (fun l t => tellTab t l) (tabsOf c) l /\
  workspacesOf (foldl (fun c t => setTab t c) c l) = workspacesOf c.
Proof.
  revert c. induction l as [|t l IH]; intros c H; cbn; [done|]. destruct (setTab_told t c H) as [E1 E2].
  rewrite <- E1, <- E2. apply IH. by apply setTab_wf.
Qed.

Lemma lookup_delete_if {A} (idOf : A -> string) (m : gmap string A) id i : map_Forall (fun id x => idOf x = id /\ id <> ""%string) m ->
  delete id m !! i = (let? x := m !! i in if decide (idOf x <> id) then Some x else None).
Proof.
  intros Hm. destruct (m !! i) as [x|] eqn:E; cbn.
  - destruct (Hm i x E) as [-> _]. case_decide as Hd; [by rewrite lookup_delete_ne|]. subst id. by rewrite lookup_delete_eq.
  - destruct (decide (id = i)) as [->|]; [by rewrite lookup_delete_eq|by rewrite lookup_delete_ne].
Qed.

Lemma lookup_filter_if {A} (P : A -> Prop) `{forall x, Decision (P x)} `{forall kx : string * A, Decision (P kx.2)} (m : gmap string A) i :
  filter (fun kx => P kx.2) m !! i = (let? x := m !! i in if decide (P x) then Some x else None).
Proof.
  destruct (m !! i) as [x|] eqn:E; cbn; [case_decide|].
  - by apply map_lookup_filter_Some.
  - apply map_lookup_filter_None. right. intros y Hy. by simplify_eq.
  - apply map_lookup_filter_None. by left.
Qed.

Lemma removeTab_told id c : wf c -> tabsOf (removeTab id c) = withoutTab id (tabsOf c) /\ workspacesOf (removeTab id c) = workspacesOf c.
Proof.
  intros H. unfold removeTab, withoutTab. case_match; [done|]. split; [|done]. unfold tabsOf. cbn.
  apply (listOf_prune (tabs c)). intros i. by apply (lookup_delete_if tab_ID), (wf_tabs _ H).
Qed.

Lemma removeWorkspace_told id c : wf c ->
  workspacesOf (removeWorkspace id c).1 = without id (workspacesOf c) /\ tabsOf (removeWorkspace id c).1 = withoutTabsOf id (tabsOf c).
Proof.
  intros H. unfold removeWorkspace, without, withoutTabsOf. case_match; [done|]. unfold workspacesOf, tabsOf. cbn. split.
  - apply (listOf_prune (workspaces c)). intros i. by apply (lookup_delete_if ws_ID), (wf_workspaces _ H).
  - apply (listOf_prune (tabs c)). intros i. apply (lookup_filter_if (fun t => tab_WorkspaceID t <> id)).
Qed.

Lemma focus_told id c : wf c ->
  workspacesOf (focus id c).1 = (fun w => set_focused (String.eqb (ws_ID w) id) w) <$> workspacesOf c /\ tabsOf (focus id c).1 = tabsOf c.
Proof.
  intros H. split; [|done]. unfold workspacesOf, listOf. cbn. pose proof (wf_workspaces _ H) as Hm.
  induction (workspaceOrder c) as [|i l IH]; [done|]. cbn. rewrite map_lookup_imap.
  destruct (workspaces c !! i) as [w|] eqn:E; cbn; [|exact IH]. rewrite (proj1 (Hm i w E)). f_equal. exact IH.
Qed.

Lemma reorder_told d c : wf c ->
  workspacesOf (reorder d c).1 = (let l := foldl (fun l w => tell w l) (workspacesOf c) (d_Workspaces d) in
    let ids := known (ws_ID <$> d_Workspaces d) in pick ws_ID ids l ++ others ws_ID ids l) /\ tabsOf (reorder d c).1 = tabsOf c.
Proof.
  intros H. unfold reorder. destruct (setWorkspaces_told (d_Workspaces d) c H) as [<- Et].
  pose proof (setWorkspaces_wf (d_Workspaces d) c H) as [Hf _]%wf_fits. revert Hf Et. generalize (foldl (fun c w => (setWorkspace w c).1) c (d_Workspaces d)).
  intros c' Hf Et. case_bool_decide as E; cbn [fst]; (split; [|exact Et]).
  - rewrite E. cbn. by rewrite others_nil.
  - unfold workspacesOf at 1, listOf. cbn. rewrite omap_app. f_equal; [by apply listOf_pick|by apply listOf_others].
Qed.

Lemma moveTab_told d c : wf c -> NoDup (known (tab_ID <$> d_Tabs d)) ->
  tabsOf (moveTab d c).1 = (let l := foldl (fun l t => tellTab t l) (tellTab (d_Tab d) (tabsOf c)) (d_Tabs d) in
    let ids := known (tab_ID <$> d_Tabs d) in
    tellTab (mkTab (d_TabID d) (d_WorkspaceID d) "" (d_Number d) "") (others tab_ID ids l ++ pick tab_ID ids l)) /\
  workspacesOf (moveTab d c).1 = workspacesOf c.
Proof.
  intros H Hn. unfold moveTab. cbn [fst].
  assert (Hnone : forall t l, tab_ID t = ""%string -> tellTab t l = l) by (intros t l E; unfold tellTab, upsert; by rewrite E).
  set (c1 := if negb _ then setTab (d_Tab d) c else c).
  assert (H1 : wf c1 /\ tabsOf c1 = tellTab (d_Tab d) (tabsOf c) /\ workspacesOf c1 = workspacesOf c).
  { subst c1. destruct (String.eqb_spec (tab_ID (d_Tab d)) "") as [E|]; cbn; [by rewrite Hnone|]. split; [by apply setTab_wf|by apply setTab_told]. }
  destruct H1 as (H1 & <- & <-). destruct (setTabs_told (d_Tabs d) c1 H1) as [<- <-].
  pose proof (setTabs_wf (d_Tabs d) c1 H1) as H2. pose proof (setTabs_know (d_Tabs d) c1) as Hk. revert H2 Hk.
  generalize (foldl (fun c t => setTab t c) c1 (d_Tabs d)). clear c1 H1. intros c2 H2 Hk.
  set (c3 := if negb (bool_decide _) then reorderTabs (d_Tabs d) c2 else c2).
  assert (H3 : wf c3 /\ tabsOf c3 = others tab_ID (known (tab_ID <$> d_Tabs d)) (tabsOf c2) ++ pick tab_ID (known (tab_ID <$> d_Tabs d)) (tabsOf c2) /\
    workspacesOf c3 = workspacesOf c2).
  { subst c3. case_bool_decide as E; cbn [negb]; [rewrite E; cbn; by rewrite app_nil_r, others_nil|].
    split_and!; [by apply reorderTabs_wf| |done]. destruct (wf_fits _ H2) as [_ Hf]. unfold tabsOf at 1, listOf. cbn. rewrite omap_app.
    f_equal; [by apply listOf_others|by apply listOf_pick]. }
  destruct H3 as (H3 & <- & <-). destruct (String.eqb_spec (d_TabID d) "") as [E|]; cbn; [by rewrite Hnone|by apply setTab_told].
Qed.

Lemma movePane_told d c : wf c ->
  workspacesOf (movePane d c) = without (d_ClosedWorkspaceID d) (workspacesOf c) /\
  tabsOf (movePane d c) = withoutTabsOf (d_ClosedWorkspaceID d) (withoutTab (d_ClosedTabID d) (tabsOf c)).
Proof.
  intros H. unfold movePane.
  match goal with |- context [removeTab _ ?x] => set (c1 := x) end.
  assert (H1 : wf c1 /\ tabsOf c1 = tabsOf c /\ workspacesOf c1 = workspacesOf c).
  { subst c1. match goal with |- context [setPane _ ?x] => set (c0 := x) end.
    assert (H0 : wf c0 /\ tabsOf c0 = tabsOf c /\ workspacesOf c0 = workspacesOf c).
    { subst c0. case_match; [|done]. split; [|done]. apply wf_set_panes; [done|]. apply map_Forall_delete, (wf_panes _ H). }
    destruct H0 as (H0 & <- & <-). destruct (String.eqb_spec (sp_ID (d_Pane d)) ""); [done|]. split; [by apply setPane_wf|].
    cbn. unfold setPane. by repeat case_match. }
  destruct H1 as (H1 & <- & <-). destruct (removeTab_told (d_ClosedTabID d) c1 H1) as [<- <-].
  by apply removeWorkspace_told, removeTab_wf.
Qed.

Lemma upsertTab_told d c : wf c ->
  workspacesOf (upsertTab d c).1 = workspacesOf c /\
  tabsOf (upsertTab d c).1 = tellTab (if String.eqb (tab_ID (d_Tab d)) "" then mkTab (d_TabID d) (d_WorkspaceID d) (d_Label d) (d_Number d) (d_Cwd d)
                                      else d_Tab d) (tabsOf c).
Proof.
  intros H. apply and_comm. unfold upsertTab. destruct (String.eqb (tab_ID (d_Tab d)) ""); cbn [negb]; [|by apply setTab_told].
  destruct (String.eqb_spec (d_TabID d) "") as [E|]; [|by apply setTab_told]. split; [|done]. unfold tellTab, upsert. cbn. by rewrite E.
Qed.

Lemma renameWorkspace_told d c : wf c ->
  workspacesOf (renameWorkspace d c).1 = toldWorkspaces "workspace.renamed" d (workspacesOf c) /\ tabsOf (renameWorkspace d c).1 = tabsOf c.
Proof.
  intros H. unfold renameWorkspace. change (toldWorkspaces "workspace.renamed" d (workspacesOf c)) with
    (if String.eqb (ws_ID (d_Workspace d)) "" then
       let w := default (mkWorkspace "" 0 "" false 0 0 "" "" "" None "") (head (filter (fun w => ws_ID w = d_WorkspaceID d) (workspacesOf c))) in
       tell (mkWorkspace (d_WorkspaceID d) (ws_Number w) (d_Label d) (ws_Focused w) (ws_PaneCount w) (ws_TabCount w)
               (ws_ActiveTabID w) (ws_AgentStatus w) (ws_Cwd w) (ws_Worktree w) (ws_Session w)) (workspacesOf c)
     else tell (d_Workspace d) (workspacesOf c)).
  destruct (String.eqb (ws_ID (d_Workspace d)) ""); cbn [negb]; [|by apply setWorkspace_told].
  pose proof (listOf_head ws_ID _ _ (d_WorkspaceID d) (proj1 (wf_fits c H))) as E. fold (workspacesOf c) in E. rewrite E. by apply setWorkspace_told.
Qed.

(** the cache refines what herdr told *)
Lemma applyData_told name d c : handled name = true -> listsOnce d -> wf c ->
  workspacesOf (applyData name d c).1 = toldWorkspaces name d (workspacesOf c) /\ tabsOf (applyData name d c).1 = toldTabs name d (tabsOf c).
Proof.
  intros Hh%bool_decide_eq_true [Hw Ht] H. unfold applyData, toldWorkspaces, toldTabs.
  pose proof (setWorkspace_told (d_Workspace d) c H) as Hset. pose proof (removeWorkspace_told (d_WorkspaceID d) c H) as Hrm.
  repeat (apply elem_of_cons in Hh as [->|Hh]); [..|by apply not_elem_of_nil in Hh];
    repeat match goal with |- context [isOne ?a ?b] => let v := eval vm_compute in (isOne a b) in change (isOne a b) with v end;
    cbn [String.eqb Ascii.eqb Bool.eqb fst];
    try exact Hset; try exact Hrm;
    try (by case_match; [|unfold setPane; by repeat case_match]); try by (split; [done|by apply removeTab_told]).
  - by apply movePane_told.
  - done.
  - unfold agentDetected. repeat case_match; done.
  - by apply upsertTab_told.
  - by apply upsertTab_told.
  - apply and_comm. by apply moveTab_told.
  - apply and_comm. by apply removeTab_told.
  - by apply renameWorkspace_told.
  - by apply focus_told.
  - by apply reorder_told.
  - by apply reorder_told.
Qed.

Section Follow.
Context {Raw : Type} (decode : string -> Raw -> option Data).

(** the lists after a snapshot and events *)
Definition told (s : SessionSnapshot) (es : list (Event (Raw := Raw))) : list Workspace * list Tab :=
  foldl (fun l e => match decode (e_Name e) (e_Data e) with
                    | Some d => if handled (e_Name e) then (toldWorkspaces (e_Name e) d l.1, toldTabs (e_Name e) d l.2) else l
                    | None => l
                    end)
    (foldl (fun l w => tell w l) [] (sn_Workspaces s), foldl (fun l t => tellTab t l) [] (sn_Tabs s)) es.

Lemma new_told s : (workspacesOf (NewSessionCache s), tabsOf (NewSessionCache s)) = told s [].
Proof.
  unfold NewSessionCache, told. cbn [foldl].
  assert (H0 : wf emptyCache).
  { constructor; cbn; try apply map_Forall_empty; split; try apply NoDup_nil_2; intros i; rewrite lookup_empty; set_solver. }
  destruct (setWorkspaces_told (sn_Workspaces s) _ H0) as [E1 E2]. pose proof (setWorkspaces_wf (sn_Workspaces s) _ H0) as H1.
  revert E1 E2 H1. generalize (foldl (fun c w => (setWorkspace w c).1) emptyCache (sn_Workspaces s)). intros c1 E1 E2 H1.
  destruct (setTabs_told (sn_Tabs s) _ H1) as [E3 E4]. rewrite E2 in E3. rewrite E1 in E4.
  change (workspacesOf emptyCache) with (@nil Workspace) in E4. change (tabsOf emptyCache) with (@nil Tab) in E3. rewrite <- E3, <- E4. generalize (foldl (fun c t => setTab t c) c1 (sn_Tabs s)). clear. intros c.
  assert (Ha : forall l c, workspacesOf (foldl (fun c a => applyAgent a c) c l) = workspacesOf c /\ tabsOf (foldl (fun c a => applyAgent a c) c l) = tabsOf c).
  { induction l as [|a l IH]; intros c'; cbn; [done|]. by destruct (IH (applyAgent a c')) as [-> ->]. }
  destruct (Ha (sn_Agents s) (foldl (fun c p => if String.eqb (sp_ID p) "" then c else set_panes (<[sp_ID p := paneToInventoryPane p]> (panes c)) c) c (sn_Panes s))) as [-> ->].
  revert c. induction (sn_Panes s) as [|p l IH]; intros c; cbn; [done|]. rewrite IH. by case_match.
Qed.

Lemma follow_told s es c : named s -> Forall (once decode) es -> follow decode s es = Some c -> (workspacesOf c, tabsOf c) = told s es.
Proof.
  intros Hs He. unfold follow, told. pose proof (new_told s) as E0. unfold told in E0. cbn [foldl] in E0. rewrite <- E0. clear E0.
  generalize (new_wf s Hs). generalize (NewSessionCache s). revert c. induction He as [|e es He Hes IH]; intros c c0 Hc; cbn.
  { by intros [= <-]. }
  destruct (Apply decode e c0) as [r|] eqn:E; cbn; [|done]. intros Hf. rewrite (IH _ _ (Apply_wf _ _ _ _ He Hc E) Hf). f_equal.
  unfold Apply in E. destruct (handled (e_Name e)) eqn:Eh; [|destruct (decode _ _); by simplify_eq].
  destruct (decode (e_Name e) (e_Data e)) as [d|] eqn:Ed; cbn in E; [|done]. simplify_eq.
  destruct (applyData_told (e_Name e) d c0 Eh (He d Ed) Hc) as [-> ->]. done.
Qed.
End Follow.

(** ** What a snapshot reports *)

Lemma filtered_size {A} (P : A -> Prop) `{forall x, Decision (P x)} (m : gmap string A) :
  size (filter (fun kv => P kv.2) m) = length (filter P (map_to_list m).*2).
Proof.
  rewrite <- length_map_to_list.
  assert (E : map_to_list (filter (fun kv : string * A => P kv.2) m) ≡ₚ filter (fun kv => P kv.2) (map_to_list m)).
  { apply NoDup_Permutation; [apply NoDup_map_to_list|apply NoDup_filter, NoDup_map_to_list|]. intros [i x].
    rewrite list_elem_of_filter, !elem_of_map_to_list, map_lookup_filter_Some. cbn. tauto. }
  rewrite E. clear E. induction (map_to_list m) as [|[i x] l IH]; [done|]. rewrite !fmap_cons, !filter_cons. cbn.
  destruct (decide (P x)); cbn; by rewrite IH.
Qed.

(** the records in the order of their ids are the records of the map *)
Lemma in_order {A} (idOf : A -> string) (m : gmap string A) order : map_Forall (fun id x => idOf x = id) m ->
  (NoDup order /\ forall i, i ∈ order <-> is_Some (m !! i)) ->
  idOf <$> omap (fun id => m !! id) order = order /\ omap (fun id => m !! id) order ≡ₚ (map_to_list m).*2.
Proof.
  intros Hm [Hn Ho].
  assert (E : idOf <$> omap (fun id => m !! id) order = order).
  { assert (Hs : forall i, i ∈ order -> is_Some (m !! i)) by (intros i; apply Ho). clear Ho Hn.
    induction order as [|i order IH]; [done|]. cbn. destruct (Hs i ltac:(by left)) as [x Ex]. rewrite Ex. cbn.
    rewrite (Hm i x Ex), IH; [done|]. intros j Hj. apply Hs. by right. }
  split; [done|]. apply NoDup_Permutation.
  - apply (NoDup_fmap_1 idOf). by rewrite E.
  - apply (NoDup_fmap_1 idOf).
    assert (E2 : idOf <$> (map_to_list m).*2 = (map_to_list m).*1); [|rewrite E2; apply NoDup_fst_map_to_list].
    rewrite <- list_fmap_compose. apply Forall_fmap_ext_1, Forall_forall. intros [i x] Hi%elem_of_map_to_list. by apply Hm.
  - intros x. rewrite list_elem_of_omap, list_elem_of_fmap. split.
    + intros (i & _ & Hi). exists (i, x). split; [done|]. by apply elem_of_map_to_list.
    + intros ([i y] & -> & Hi%elem_of_map_to_list). exists i. split; [|done]. apply Ho. by eexists.
Qed.

Lemma panes_listed order porder c p : wf c ->
  p ∈ t_Panes (Snapshot order porder c) <-> exists cp, panes c !! pane_ID p = Some cp /\ pane cp = p.
Proof.
  intros H. cbn. rewrite merge_sort_Permutation, list_elem_of_fmap. split.
  - intros ([i cp] & -> & Hi%elem_of_map_to_list). exists cp. cbn. by rewrite (proj1 (wf_panes _ H i cp Hi)).
  - intros (cp & Hi & <-). exists (pane_ID (pane cp), cp). split; [done|]. by apply elem_of_map_to_list.
Qed.

Lemma reported_counts order porder c w : wf c -> w ∈ t_Workspaces (Snapshot order porder c) ->
  ws_TabCount w = len (filter (fun t => tab_WorkspaceID t = ws_ID w) (t_Tabs (Snapshot order porder c))) /\
  ws_PaneCount w = len (filter (fun p => pane_WorkspaceID p = ws_ID w) (t_Panes (Snapshot order porder c))) /\
  (ws_ActiveTabID w = ""%string \/ ws_ActiveTabID w ∈ tab_ID <$> t_Tabs (Snapshot order porder c)).
Proof.
  intros H. cbn [Snapshot t_Workspaces t_Tabs t_Panes].
  destruct (in_order tab_ID (tabs c) (tabOrder c)) as [Et Pt]; [|apply (wf_tabOrder _ H)|].
  { intros i t Ht. by apply (wf_tabs _ H i t). }
  intros Hw. apply list_elem_of_omap in Hw as (id & Hid & Hw). destruct (workspaces c !! id) as [w0|] eqn:E; [|done].
  cbn in Hw. simplify_eq. destruct (wf_workspaces _ H id w0 E) as [Ei _].
  assert (Htc : tabCount c id = len (filter (fun t => tab_WorkspaceID t = id) (omap (fun id => tabs c !! id) (tabOrder c)))).
  { etransitivity; [exact (f_equal Z.of_nat (filtered_size (fun t => tab_WorkspaceID t = id) (tabs c)))|]. by rewrite Pt. }
  assert (Hpc : paneCount c id = len (filter (fun p => pane_WorkspaceID p = id) (merge_sort paneLe ((fun kp => pane kp.2) <$> map_to_list (panes c))))).
  { etransitivity; [exact (f_equal Z.of_nat (filtered_size (fun p => pane_WorkspaceID (pane p) = id) (panes c)))|].
    rewrite (filter_Permutation _ _ _ (merge_sort_Permutation paneLe _)). f_equal.
    induction (map_to_list (panes c)) as [|[i p] l IH]; [done|]. rewrite !fmap_cons, !filter_cons. cbn. case_decide; cbn; by rewrite IH. }
  cbn [reported ws_TabCount ws_PaneCount ws_ActiveTabID ws_ID]. rewrite Ei. split_and!; [done|done|].
  case_bool_decide as Ha; [|by left]. right. rewrite Et. by apply (wf_tabOrder _ H).
Qed.

Lemma wf_paneIds c : wf c -> NoDup (pane_ID <$> ((fun kp => pane kp.2) <$> map_to_list (panes c))).
Proof.
  intros H. rewrite <- list_fmap_compose.
  replace (_ <$> map_to_list (panes c)) with ((map_to_list (panes c)).*1); [apply NoDup_fst_map_to_list|].
  apply Forall_fmap_ext_1, Forall_forall. intros [i p] Hi%elem_of_map_to_list. cbn. symmetry. by apply (wf_panes _ H i p).
Qed.

Lemma cachedLe_total : Total paneLe.
Proof. intros p q. unfold paneLe. destruct (String.leb_total (pane_ID p) (pane_ID q)); auto. Qed.

(** a workspace without what a snapshot derives: its counts, its active tab and its directory *)
Definition plain (w : Workspace) : Workspace :=
  mkWorkspace (ws_ID w) (ws_Number w) (ws_Label w) (ws_Focused w) 0 0 "" (ws_AgentStatus w) "" (ws_Worktree w) (ws_Session w).

Lemma reported_plain order porder c : plain <$> t_Workspaces (Snapshot order porder c) = plain <$> workspacesOf c.
Proof.
  unfold workspacesOf, listOf. cbn [Snapshot t_Workspaces]. induction (workspaceOrder c) as [|i l IH]; [done|]. cbn.
  destruct (workspaces c !! i); cbn; [f_equal|]; exact IH.
Qed.

(** C30: after any events a snapshot of the cache is what herdr told: the workspaces and
    the tabs are those of the plain lists that the snapshot of herdr starts and the
    events update (an opened one comes last, a closed one goes with its tabs, a list of
    workspaces comes first and a list of tabs last, in the order of the event), each
    once; the panes are those the cache holds, each once, sorted; the counts of a
    workspace are those of the tabs and panes listed with it, and its active tab is
    one of the tabs listed. The agents of the snapshot name their panes, and no event
    lists a workspace or a tab twice: [listed_twice] and [agent_without_pane] show
    what happens otherwise. *)
Theorem snapshot_consistent {Raw} (decode : string -> Raw -> option Data) s es c order porder :
  named s -> Forall (once decode) es -> follow decode s es = Some c ->
  let S := Snapshot order porder c in
  (plain <$> t_Workspaces S = plain <$> (told decode s es).1 /\ NoDup (ws_ID <$> t_Workspaces S)) /\
  (t_Tabs S = (told decode s es).2 /\ NoDup (tab_ID <$> t_Tabs S)) /\
  ((forall p, p ∈ t_Panes S <-> exists cp, panes c !! pane_ID p = Some cp /\ pane cp = p) /\
   NoDup (pane_ID <$> t_Panes S) /\ Sorted paneLe (t_Panes S)) /\
  forall w, w ∈ t_Workspaces S ->
    ws_TabCount w = len (filter (fun t => tab_WorkspaceID t = ws_ID w) (t_Tabs S)) /\
    ws_PaneCount w = len (filter (fun p => pane_WorkspaceID p = ws_ID w) (t_Panes S)) /\
    (ws_ActiveTabID w = ""%string \/ ws_ActiveTabID w ∈ tab_ID <$> t_Tabs S).
Proof.
  intros Hs He Hf S. pose proof (follow_wf _ _ _ _ Hs He Hf) as H. pose proof (follow_told _ _ _ _ Hs He Hf) as Ht.
  destruct (wf_fits _ H) as [Fw Ft]. subst S. rewrite <- Ht. cbn [fst snd]. split_and!.
  - apply reported_plain.
  - assert (E : ws_ID <$> t_Workspaces (Snapshot order porder c) = workspaceOrder c); [|rewrite E; apply (wf_workspaceOrder _ H)].
    transitivity (ws_ID <$> workspacesOf c); [|exact (listOf_ids ws_ID _ _ Fw)]. pose proof (f_equal (fmap ws_ID) (reported_plain order porder c)) as E.
    by rewrite <- !list_fmap_compose in E.
  - done.
  - change (t_Tabs (Snapshot order porder c)) with (listOf (tabs c) (tabOrder c)). rewrite (listOf_ids tab_ID _ _ Ft). apply (wf_tabOrder _ H).
  - intros p. by apply panes_listed.
  - cbn. rewrite (fmap_Permutation pane_ID _ _ (merge_sort_Permutation _ _)). by apply wf_paneIds.
  - cbn. pose proof cachedLe_total. apply Sorted_merge_sort. apply _.
  - intros w. by apply reported_counts.
Qed.

(** ** What events do *)

(** the part of a pane that a commit of the topology depends on *)
Definition placeOf (p : CachedPane) : string * string * string * string * bool * string * string * string :=
  let q := pane p in
  (pane_ID q, pane_TerminalID q, pane_WorkspaceID q, pane_TabID q, pane_Focused q, pane_Cwd q, pane_ForegroundCwd q, pane_Agent q).

(** a workspace without the name of its session, which events do not carry *)
Definition sessionless (w : Workspace) : Workspace :=
  mkWorkspace (ws_ID w) (ws_Number w) (ws_Label w) (ws_Focused w) (ws_PaneCount w) (ws_TabCount w) (ws_ActiveTabID w)
    (ws_AgentStatus w) (ws_Cwd w) (ws_Worktree w) "".

(** the topology of a cache, without terminal-local churn *)
Definition topology (c : Cache) :
    gmap string Workspace * list string * gmap string (string * string * string * string * bool * string * string * string) *
    gmap string Tab * list string :=
  (sessionless <$> workspaces c, workspaceOrder c, placeOf <$> panes c, tabs c, tabOrder c).

Lemma workspaceEqual_spec l r : workspaceEqual l r = true -> sessionless l = sessionless r.
Proof.
  unfold workspaceEqual. rewrite !andb_true_iff, !String.eqb_eq, !Z.eqb_eq, eqb_true_iff, bool_decide_eq_true.
  intros H. destruct_and!. unfold sessionless. congruence.
Qed.

Lemma paneTopologyChanged_spec p q : paneTopologyChanged (pane p) (pane q) = false -> placeOf p = placeOf q.
Proof.
  unfold paneTopologyChanged. rewrite !orb_false_iff, !negb_false_iff, !String.eqb_eq, !eqb_true_iff.
  intros H. destruct_and!. unfold placeOf. congruence.
Qed.

Lemma fmap_insert_same {A B} (f : A -> B) (m : gmap string A) i x y : m !! i = Some x -> f x = f y -> f <$> <[i := y]> m = f <$> m.
Proof. intros Hx E. rewrite fmap_insert, <- E. apply insert_id. by rewrite lookup_fmap, Hx. Qed.

Lemma setWorkspace_unchanged w c : (setWorkspace w c).2 = false -> topology (setWorkspace w c).1 = topology c.
Proof.
  unfold setWorkspace. case_match; [done|]. destruct (workspaces c !! ws_ID w) as [p|] eqn:E; cbn [fst snd]; [|done].
  intros Hc%negb_false_iff%workspaceEqual_spec. unfold topology. cbn. do 4 f_equal.
  apply (fmap_insert_same sessionless _ _ p); [exact E|exact Hc].
Qed.

Lemma setPane_unchanged s c : (setPane s c).2 = false -> topology (setPane s c).1 = topology c.
Proof.
  unfold setPane. destruct (panes c !! sp_ID s) as [p|] eqn:E; [|done]. case_match; [done|]. cbn [fst snd].
  intros Hc%(paneTopologyChanged_spec p). unfold topology. cbn. do 2 f_equal. f_equal. by apply (fmap_insert_same placeOf _ _ p).
Qed.

Lemma order_same {A} (m : gmap string A) (order : list string) : (forall i, i ∈ order <-> is_Some (m !! i)) ->
  filter (fun id => is_Some (m !! id)) order = order.
Proof.
  intros Ho. assert (Hs : Forall (fun i => is_Some (m !! i)) order) by (apply Forall_forall; intros i; apply Ho).
  clear Ho. induction Hs as [|i l Hi _ IH]; [done|]. rewrite filter_cons. case_decide; [by rewrite IH|done].
Qed.

Lemma filter_none {A} (P : A -> Prop) `{forall x, Decision (P x)} (m : gmap string A) :
  filter (fun kv => P kv.2) m = ∅ -> filter (fun kv => ~ P kv.2) m = m.
Proof.
  intros E. apply map_eq. intros i. destruct (m !! i) as [x|] eqn:Ei.
  - apply map_lookup_filter_Some. split; [done|]. cbn. intros HP.
    assert (Hl : filter (fun kv => P kv.2) m !! i = Some x) by by apply map_lookup_filter_Some. by rewrite E, lookup_empty in Hl.
  - apply map_lookup_filter_None. by left.
Qed.

Lemma removeWorkspace_unchanged id c : wf c -> (removeWorkspace id c).2 = false -> (removeWorkspace id c).1 = c.
Proof.
  intros H. unfold removeWorkspace. case_match; [done|]. cbn [fst snd].
  intros [[Hw%bool_decide_eq_false Ht%negb_false_iff]%orb_false_iff Hp%negb_false_iff]%orb_false_iff.
  apply bool_decide_eq_true in Ht, Hp. cbn in Ht, Hp.
  assert (Ew : workspaces c !! id = None) by (destruct (workspaces c !! id); [by destruct Hw|done]).
  destruct c as [ws wo ps ts to]. cbn in *.
  unfold pruneWorkspaceOrder, pruneTabOrder, set_workspaces, set_workspaceOrder, set_tabs, set_tabOrder, set_panes. cbn.
  rewrite (delete_id ws id) by done.
  assert (Et : filter (fun kt => tab_WorkspaceID kt.2 <> id) ts = ts) by exact (filter_none (fun t => tab_WorkspaceID t = id) ts Ht).
  assert (Ep : filter (fun kp => pane_WorkspaceID (pane kp.2) <> id) ps = ps)
    by exact (filter_none (fun p => pane_WorkspaceID (pane p) = id) ps Hp).
  rewrite Et, Ep,  (order_same ws wo), (order_same ts to); [done|apply (wf_tabOrder _ H)|apply (wf_workspaceOrder _ H)].
Qed.

Lemma focus_unchanged id c : (focus id c).2 = false -> (focus id c).1 = c.
Proof.
  intros Hf%negb_false_iff%bool_decide_eq_true. destruct c as [ws wo ps ts to]. unfold focus, set_workspaces. cbn in *. f_equal.
  apply map_eq. intros i. rewrite map_lookup_imap. destruct (ws !! i) as [w|] eqn:E; cbn; [|done].
  rewrite <- (Hf i w E). by destruct w.
Qed.

(** When an event says that nothing changed, nothing did: the workspaces, the tabs,
    their orders and the place, focus, directories and agent of every pane are as
    they were, so that the poller loses nothing by not committing. *)
Theorem unchanged_is_unchanged {Raw} (decode : string -> Raw -> option Data) s es c e c' :
  named s -> Forall (once decode) es -> follow decode s es = Some c -> Apply decode e c = Some (c', false) -> topology c' = topology c.
Proof.
  intros Hs He Hf. pose proof (follow_wf _ _ _ _ Hs He Hf) as H. unfold Apply. case_match; [|by intros [= <-]].
  destruct (decode _ _) as [d|]; cbn; [|done]. intros [= Ha].
  assert (E1 : c' = (applyData (e_Name e) d c).1) by by rewrite Ha. assert (E2 : (applyData (e_Name e) d c).2 = false) by by rewrite Ha.
  rewrite E1. clear Ha E1. revert E2. unfold applyData.
  repeat (case_match; try done); cbn [fst snd]; try done; auto using setPane_unchanged, setWorkspace_unchanged.
  - intros Hn%negb_false_iff%String.eqb_eq.
    rewrite Hn, delete_id; [by destruct c|]. destruct (panes c !! ""%string) eqn:E; [|done]. by destruct (wf_panes _ H _ _ E).
  - unfold agentDetected. destruct (panes c !! d_PaneID d) as [p|]; [|done]. destruct (detect _ _ _ p) as [q []]; done.
  - unfold upsertTab. by repeat case_match.
  - unfold moveTab. cbn [fst snd]. intros [[Hn Hl]%orb_false_iff Hg]%orb_false_iff. rewrite Hn, Hl, Hg.
    apply negb_false_iff, bool_decide_eq_true in Hl. by rewrite Hl.
  - intros Hn%negb_false_iff%String.eqb_eq. rewrite Hn. done.
  - intros Hn. by rewrite removeWorkspace_unchanged.
  - unfold renameWorkspace. case_match; apply setWorkspace_unchanged.
  - intros Hn. by rewrite focus_unchanged.
  - unfold reorder. case_bool_decide as Hl; [|done]. by rewrite Hl.
Qed.

(** What is closed is gone, with what it held: after a workspace is closed the cache
    has neither it nor a tab or pane of it, after a tab is closed neither it nor a
    pane of it, and every other record is as it was. *)
Theorem closed_is_gone {Raw} (decode : string -> Raw -> option Data) e d c c' changed :
  decode (e_Name e) (e_Data e) = Some d -> Apply decode e c = Some (c', changed) ->
  (e_Name e ∈ ["workspace.closed"; "worktree.removed"]%string -> d_WorkspaceID d <> ""%string ->
     let id := d_WorkspaceID d in
     workspaces c' = delete id (workspaces c) /\
     (forall i t, tabs c' !! i = Some t <-> tabs c !! i = Some t /\ tab_WorkspaceID t <> id) /\
     (forall i p, panes c' !! i = Some p <-> panes c !! i = Some p /\ pane_WorkspaceID (pane p) <> id)) /\
  (e_Name e = "tab.closed"%string -> d_TabID d <> ""%string ->
     let id := d_TabID d in
     workspaces c' = workspaces c /\ tabs c' = delete id (tabs c) /\
     (forall i p, panes c' !! i = Some p <-> panes c !! i = Some p /\ pane_TabID (pane p) <> id)).
Proof.
  intros Hd H. unfold Apply in H. split.
  - intros Hn Hne. cbv zeta.
    assert (Hh : handled (e_Name e) = true /\ applyData (e_Name e) d c = removeWorkspace (d_WorkspaceID d) c)
      by (rewrite !elem_of_cons in Hn; destruct Hn as [->|[->|[]%elem_of_nil]]; done).
    destruct Hh as [Hh Ha]. rewrite Hh, Hd in H. cbn in H. rewrite Ha in H. unfold removeWorkspace in H.
    rewrite (proj2 (String.eqb_neq _ _) Hne) in H. simplify_eq. cbn. split_and!; [done|..]; intros; by rewrite map_lookup_filter_Some.
  - intros Hn Hne. cbv zeta.
    assert (Hh : handled (e_Name e) = true /\ applyData (e_Name e) d c = (removeTab (d_TabID d) c, negb (String.eqb (d_TabID d) "")))
      by (by rewrite Hn).
    destruct Hh as [Hh Ha]. rewrite Hh, Hd in H. cbn in H. rewrite Ha in H. unfold removeTab in H.
    rewrite (proj2 (String.eqb_neq _ _) Hne) in H. simplify_eq. cbn. split_and!; [done|done|]. intros; by rewrite map_lookup_filter_Some.
Qed.

(** A report of a pane never takes its agent away and never takes it back in time:
    one that is older than the cached pane changes nothing, another replaces the
    pane and keeps its agent and its session, and no other pane changes. *)
Theorem pane_report {Raw} (decode : string -> Raw -> option Data) e d c c' changed p :
  decode (e_Name e) (e_Data e) = Some d -> e_Name e ∈ ["pane.created"; "pane.updated"]%string -> sp_ID (d_Pane d) <> ""%string ->
  panes c !! sp_ID (d_Pane d) = Some p -> Apply decode e c = Some (c', changed) ->
  (stale (d_Pane d) p = true -> c' = c /\ changed = false) /\
  exists q, panes c' !! sp_ID (d_Pane d) = Some q /\
    pane_Agent (pane q) = pane_Agent (pane p) /\ rawValue q = rawValue p /\ rawKind q = rawKind p /\
    (0 < sp_Revision (d_Pane d) -> pane_Revision (pane p) <= pane_Revision (pane q)) /\
    delete (sp_ID (d_Pane d)) (panes c') = delete (sp_ID (d_Pane d)) (panes c).
Proof.
  intros Hd Hn Hne Hp. unfold Apply.
  assert (Hh : handled (e_Name e) = true /\ applyData (e_Name e) d c = setPane (d_Pane d) c).
  { rewrite !elem_of_cons in Hn. unfold applyData.
    destruct Hn as [->|[->|[]%elem_of_nil]]; (split; [done|]); cbn; by rewrite (proj2 (String.eqb_neq _ _) Hne). }
  destruct Hh as [-> Ha]. rewrite Hd. cbn. rewrite Ha. unfold setPane. rewrite Hp.
  destruct (stale (d_Pane d) p) eqn:Es; intros [= <- <-]; (split; [done|]).
  - exists p. split_and!; try done.
  - eexists. split; [apply lookup_insert_eq|]. assert (Hrev : 0 < sp_Revision (d_Pane d) -> pane_Revision (pane p) <= sp_Revision (d_Pane d)).
    { intros Hr. unfold stale in Es. rewrite !andb_false_iff, !Z.ltb_ge in Es. lia. }
    repeat (split; [done|]). cbn. apply delete_insert_eq.
Qed.

(** ** The queue of events *)

Section Queue.
Context {Event : Type}.

Record eventQueue := mkQueue { items : list Event; closed : bool; err : option string }.

Definition newEventQueue : eventQueue := mkQueue [] false None.
Definition push (e : Event) (q : eventQueue) : eventQueue :=
  if closed q then q else mkQueue (items q ++ [e]) (closed q) (err q).
Definition close (why : option string) (q : eventQueue) : eventQueue :=
  if closed q then q else mkQueue (items q) true why.

(** what [next] returns: an event, an error, or it waits *)
Inductive taken := Took (e : Event) | Failed (why : string) | Waits.
Definition next (q : eventQueue) : taken * eventQueue :=
  match items q with
  | e :: rest => (Took e, mkQueue rest (closed q) (err q))
  | [] => if closed q then (Failed (default "EOF"%string (err q)), q) else (Waits, q)
  end.
Definition drain (q : eventQueue) : list Event * eventQueue := (items q, mkQueue [] (closed q) (err q)).

(** the reader of the socket pushes and closes, the poller takes and drains *)
Inductive op := Push (e : Event) | Close (why : option string) | Next | Drain.

(** the queue, what the poller got and what was pushed before the end *)
Record trace := mkTrace { queue : eventQueue; got : list Event; accepted : list Event }.
Definition act (t : trace) (o : op) : trace :=
  let q := queue t in
  match o with
  | Push e => mkTrace (push e q) (got t) (if closed q then accepted t else accepted t ++ [e])
  | Close why => mkTrace (close why q) (got t) (accepted t)
  | Next => let (r, q') := next q in mkTrace q' (match r with Took e => got t ++ [e] | _ => got t end) (accepted t)
  | Drain => let (l, q') := drain q in mkTrace q' (got t ++ l) (accepted t)
  end.

(** No event is lost, repeated or reordered between the socket and the poller:
    whatever the interleaving, what was taken and what waits are exactly what was
    pushed before the stream ended; and the end is only reported when nothing waits. *)
Theorem queue_exact ops :
  let t := foldl act (mkTrace newEventQueue [] []) ops in
  got t ++ items (queue t) = accepted t /\ (forall why, (next (queue t)).1 = Failed why -> got t = accepted t).
Proof.
  cbv zeta. assert (H : forall ops t, got t ++ items (queue t) = accepted t ->
    got (foldl act t ops) ++ items (queue (foldl act t ops)) = accepted (foldl act t ops)).
  { clear. induction ops as [|o ops IH]; intros t Ht; cbn; [done|]. apply IH. destruct t as [[l b er] g a]. cbn in *. subst a.
    destruct o as [e|why| |]; cbn.
    - unfold push. destruct b; cbn; [done|]. by rewrite app_assoc.
    - unfold close. by destruct b.
    - unfold next. destruct l as [|e l]; cbn; [by destruct b|]. by rewrite <- app_assoc.
    - by rewrite app_nil_r. }
  specialize (H ops (mkTrace newEventQueue [] []) eq_refl). split; [done|]. intros why. revert H.
  generalize (foldl act (mkTrace newEventQueue [] []) ops). intros t Ht. unfold next. destruct (items (queue t)) as [|e l]; [|done].
  by rewrite app_nil_r in Ht.
Qed.
End Queue.

(** ** The stream *)

Section Stream.
Context {Raw : Type}.

(** the envelope of a line: the name and the data *)
Definition UnmarshalJSON (envelope : string * Raw) : Event (Raw := Raw) := mkEvent (canonical envelope.1) envelope.2.

(** a line of the socket: a read that failed, a line that is no event, or an envelope *)
Inductive line := ReadFailed (why : string) | Undecodable (why : string) | Envelope (e : string * Raw).

(** the reader runs until the first error *)
Fixpoint readLoop (lines : list line) (q : eventQueue (Event := Event (Raw := Raw))) : eventQueue :=
  match lines with
  | [] => q
  | ReadFailed why :: _ => close (Some why) q
  | Undecodable why :: _ => close (Some ("decode Herdr event: " ++ why)%string) q
  | Envelope e :: rest =>
      let event := UnmarshalJSON e in
      if String.eqb (e_Name event) "" then close (Some "Herdr event has no event kind"%string) q else readLoop rest (push event q)
  end.

(** the lines before the first that ends the stream *)
Fixpoint readable (lines : list line) : list (Event (Raw := Raw)) :=
  match lines with
  | Envelope e :: rest => if String.eqb (e_Name (UnmarshalJSON e)) "" then [] else UnmarshalJSON e :: readable rest
  | _ => []
  end.

(** every event before the first bad line is queued, in order, and the stream ends at it *)
Lemma readLoop_queues lines : forall q, closed q = false ->
  items (readLoop lines q) = items q ++ readable lines /\ (closed (readLoop lines q) = negb (length (readable lines) =? length lines)%nat).
Proof.
  induction lines as [|l lines IH]; intros q Hq; cbn; [by rewrite app_nil_r|].
  destruct l as [why|why|e]; cbn; unfold close; rewrite ?Hq; cbn; rewrite ?app_nil_r; try done.
  case_match; cbn; rewrite ?Hq; cbn; rewrite ?app_nil_r; [done|].
  destruct (IH (push (UnmarshalJSON e) q)) as [-> ->]; [unfold push; by rewrite Hq|].
  split; [unfold push; rewrite Hq; cbn; by rewrite <- app_assoc|done].
Qed.
End Stream.

(** the answer to a subscription *)
Record Subscribed := mkSubscribed { sub_ID : string; sub_Type : string; sub_Error : option (string * string) }.
Definition eventSubscriptionRequestID : string := "mobile-relay-events".
Inductive subscriptionError := IDMismatch | Refused (code message : string) | Returned (type : string).
Definition subscribed (r : Subscribed) : subscriptionError + unit :=
  if negb (String.eqb (sub_ID r) eventSubscriptionRequestID) then inl IDMismatch
  else match sub_Error r with
       | Some (code, message) => inl (Refused code message)
       | None => if negb (String.eqb (sub_Type r) "subscription_started") then inl (Returned (sub_Type r)) else inr tt
       end.

Definition topologySubscriptions (includeWorkspaceReordered : bool) : list string :=
  ["pane.created"; "pane.closed"; "pane.updated"; "pane.moved"; "pane.exited"; "pane.agent_detected"; "tab.created"; "tab.closed";
   "tab.renamed"; "tab.moved"; "workspace.created"; "workspace.updated"; "workspace.metadata_updated"; "workspace.closed";
   "workspace.renamed"; "workspace.moved"; "workspace.focused"; "worktree.created"; "worktree.opened"; "worktree.removed"]%string ++
  (if includeWorkspaceReordered then ["workspace.reordered"%string] else []).

(** the relay subscribes to exactly the events its cache understands *)
Lemma subscribed_is_handled name : handled name = true <-> name ∈ topologySubscriptions true.
Proof.
  unfold handled, isOne. rewrite bool_decide_eq_true. unfold topologySubscriptions. cbn [app].
  rewrite !elem_of_cons, !elem_of_nil. tauto.
Qed.

(** ** Instances *)

Module ToyCache.
(** the data of an event as it is decoded *)
Definition toyDecode (name : string) (d : Data) : option Data := Some d.

Definition toyWorkspace (id : string) : Workspace := mkWorkspace id 1 "w" false 0 0 "t1" "" "" None "".
Definition toyTab (id ws : string) : Tab := mkTab id ws "tab" 1 "/repo".
Definition toyPane (id ws tab : string) (rev : Z) : SnapshotPane :=
  mkSnapshotPane id "term" ws tab false "/repo" "/repo" "" "" "idle" rev 0.
Definition toyAgent (id : string) : SnapshotAgent :=
  mkSnapshotAgent id "term" "w1" "t1" false "claude" "claude" "working" "/repo" "/repo" 5 1 "sess" "id".
Definition toySnapshot : SessionSnapshot :=
  mkSnapshot [toyWorkspace "w1"; toyWorkspace "w2"] [toyTab "t1" "w1"; toyTab "t2" "w2"]
    [toyPane "p1" "w1" "t1" 5; toyPane "p2" "w2" "t2" 5] [toyAgent "p1"].
Definition noData : Data :=
  mkData (toyPane "" "" "" 0) "" "" "" "" None false "" (mkTab "" "" "" 0 "") "" [] "" "" 0 "" (toyWorkspace "") [].
Definition paneData (s : SnapshotPane) (previous : string) : Data :=
  mkData s previous "" "" "" None false "" (mkTab "" "" "" 0 "") "" [] "" "" 0 "" (toyWorkspace "") [].
Definition closing (ws tab : string) : Data :=
  mkData (toyPane "" "" "" 0) "" "" "" "" None false "" (mkTab "" "" "" 0 "") tab [] ws "" 0 "" (toyWorkspace "") [].
Definition listing (l : list Workspace) : Data :=
  mkData (toyPane "" "" "" 0) "" "" "" "" None false "" (mkTab "" "" "" 0 "") "" [] "" "" 0 "" (toyWorkspace "") l.
Definition toyEvents : list (Event (Raw := Data)) :=
  [mkEvent "workspace.reordered" (listing [toyWorkspace "w2"; toyWorkspace "w3"]); mkEvent "workspace.closed" (closing "w2" "");
   mkEvent "pane.updated" (paneData (toyPane "p1" "w1" "t1" 6) "")].
Definition toyCache : Cache := default emptyCache (follow toyDecode toySnapshot toyEvents).

Example toy_snapshot :
  let s := Snapshot [] [] toyCache in
  ws_ID <$> t_Workspaces s = ["w3"; "w1"]%string /\ tab_ID <$> t_Tabs s = ["t1"]%string /\ pane_ID <$> t_Panes s = ["p1"]%string /\
  ws_PaneCount <$> t_Workspaces s = [0; 1] /\ pane_Agent <$> t_Panes s = ["claude"]%string.
Proof. vm_compute. split_and!; reflexivity. Qed.

Example toy_told :
  ws_ID <$> (told toyDecode toySnapshot toyEvents).1 = ["w3"; "w1"]%string /\ tab_ID <$> (told toyDecode toySnapshot toyEvents).2 = ["t1"]%string.
Proof. vm_compute. split; reflexivity. Qed.

(** a pane that moves under a new id loses its agent: the event carries the pane, and only the old id had the agent *)
Example moved_loses_agent :
  exists c, Apply toyDecode (mkEvent "pane.moved" (paneData (toyPane "p9" "w1" "t1" 6) "p1")) toyCache = Some (c, true) /\
    pane_Agent <$> t_Panes (Snapshot [] [] c) = [""]%string.
Proof. eexists. split; [reflexivity|]. vm_compute. reflexivity. Qed.

(** a list with a workspace twice lists it twice *)
Example listed_twice :
  exists c, Apply toyDecode (mkEvent "workspace.moved" (listing [toyWorkspace "w1"; toyWorkspace "w1"])) toyCache = Some (c, true) /\
    ws_ID <$> t_Workspaces (Snapshot [] [] c) = ["w1"; "w1"; "w3"]%string.
Proof. eexists. split; [reflexivity|]. vm_compute. reflexivity. Qed.

(** an agent without a pane is a pane without an id *)
Example agent_without_pane :
  pane_ID <$> t_Panes (Snapshot [] [] (NewSessionCache (mkSnapshot [] [] [] [toyAgent ""]))) = [""]%string.
Proof. vm_compute. reflexivity. Qed.

Lemma toy_named : named toySnapshot.
Proof. repeat constructor; done. Defined.

Lemma toy_once : Forall (once toyDecode) toyEvents.
Proof.
  apply Forall_cons; split; [|apply Forall_cons; split; [|apply Forall_cons; split; [|apply Forall_nil; exact I]]];
    intros d [= <-]; apply (bool_decide_unpack _); vm_compute; exact I.
Defined.

Lemma snapshot_consistent_witness :
  follow toyDecode toySnapshot toyEvents = Some toyCache /\
  t_Tabs (Snapshot [] [] toyCache) = (told toyDecode toySnapshot toyEvents).2.
Proof.
  split; [reflexivity|].
  pose proof (snapshot_consistent toyDecode toySnapshot toyEvents toyCache [] [] toy_named toy_once eq_refl) as H.
  exact (proj1 (proj1 (proj2 H))).
Defined.

Lemma unchanged_is_unchanged_witness :
  exists c, Apply toyDecode (mkEvent "pane.updated" (paneData (toyPane "p1" "w1" "t1" 7) "")) toyCache = Some (c, false) /\
    c <> toyCache /\ topology c = topology toyCache.
Proof.
  eexists. split; [reflexivity|]. split; [intros E; apply (f_equal (fun c => (pane_Revision ∘ pane) <$> panes c !! "p1"%string)) in E; vm_compute in E; congruence|].
  apply (unchanged_is_unchanged toyDecode toySnapshot toyEvents toyCache (mkEvent "pane.updated" (paneData (toyPane "p1" "w1" "t1" 7) ""))); [apply toy_named|apply toy_once|reflexivity|reflexivity].
Defined.

Lemma closed_is_gone_witness :
  exists c, Apply toyDecode (mkEvent "workspace.closed" (closing "w1" "")) toyCache = Some (c, true) /\
    workspaces c = delete "w1"%string (workspaces toyCache).
Proof.
  eexists. split; [reflexivity|].
  pose proof (closed_is_gone toyDecode (mkEvent "workspace.closed" (closing "w1" "")) (closing "w1" "") toyCache _ _ eq_refl eq_refl) as [H _].
  apply H; [by left|done].
Defined.

Lemma pane_report_witness :
  exists c, Apply toyDecode (mkEvent "pane.updated" (paneData (toyPane "p1" "w1" "t1" 4) "")) toyCache = Some (c, false) /\ c = toyCache.
Proof.
  eexists. split; [reflexivity|].
  eapply (pane_report toyDecode (mkEvent "pane.updated" (paneData (toyPane "p1" "w1" "t1" 4) "")) (paneData (toyPane "p1" "w1" "t1" 4) "") toyCache);
    [reflexivity|by right; left|done|reflexivity|reflexivity|reflexivity].
Defined.
End ToyCache.
End SessionCache.
