(* ===== verification/Push.v ===== *)
(** The Web Push subscriptions of the phones ([internal/push/manager.go]): who is
    told about which agent, how that is kept on disk, the key pair of the relay and
    the messages.

    A map of Go is shared by its copies, so [Agents] is a reference into [maps]: the
    list [Send] works on shares the preferences with the manager.  Parameters are
    JSON (how the file of subscriptions is written and read), the push service (what
    it answers) and the encodings of keys. *)
From S2P Require Import Prelude GoLib.
#[local] Open Scope Z_scope.

Module Push.

(** ** Data *)

Abbreviation Prefs := (gmap string string).

(** [M] is a map or a reference to one; [None] is a nil map *)
Record Subscription (M : Type) := mkSub {
  Endpoint : string; P256dh : string; Auth : string; UserAgent : string; NotifyFinished : bool; ClientID : string;
  AgentMode : string; Agents : option M }.
Arguments mkSub {M}.
Arguments Endpoint {M}.
Arguments P256dh {M}.
Arguments Auth {M}.
Arguments UserAgent {M}.
Arguments NotifyFinished {M}.
Arguments ClientID {M}.
Arguments AgentMode {M}.
Arguments Agents {M}.

Definition set_AgentMode {M} (v : string) (s : Subscription M) : Subscription M :=
  mkSub (Endpoint s) (P256dh s) (Auth s) (UserAgent s) (NotifyFinished s) (ClientID s) v (Agents s).
Definition set_Agents {M N} (v : option N) (s : Subscription M) : Subscription N :=
  mkSub (Endpoint s) (P256dh s) (Auth s) (UserAgent s) (NotifyFinished s) (ClientID s) (AgentMode s) v.

(** an entry of the file has the same fields, the endpoint and keys in an object of their own *)
Definition pythonSubscription := Subscription Prefs.

(** how a write of a file ends: the last is an error after the new file is in place *)
Inductive written := Written | NotWritten | Unsynced.
#[export] Instance written_eq_dec : EqDecision written.
Proof. solve_decision. Defined.

(** ** Messages *)

Record Action := mkAction { act_name : string; act_title : string }.

(** the target of a notification: what the link in it carries *)
Record Target := mkTarget {
  t_Host : string; t_PaneID : string; t_NotificationID : string; t_Action : string; t_Index : option Z; t_Total : option Z }.

(** the fields of a message; [dataType] is [data.type], which the relay leaves out *)
Record Payload := mkPayload {
  title : string; body : string; tag : string; pane_id : string; dataType : string; url : string;
  actions : list Action; action_urls : gmap string string }.

(** [net/url.QueryEscape] *)
Definition unreserved (b : Z) : bool :=
  ((65 <=? b) && (b <=? 90)) || ((97 <=? b) && (b <=? 122)) || ((48 <=? b) && (b <=? 57)) ||
  (b =? 45) || (b =? 95) || (b =? 46) || (b =? 126).
Definition hexDigit (v : Z) : Z := if v <? 10 then 48 + v else 55 + v.
Definition escapeByte (b : Z) : bytes :=
  if unreserved b then [b] else if b =? 32 then [43] else [37; hexDigit (b / 16); hexDigit (b mod 16)].
Definition QueryEscape (l : bytes) : bytes := l ≫= escapeByte.

Section Links.
(** [json.Marshal] of a target *)
Context (marshal : Target -> bytes).

Definition targetOf (host paneID eventID action : string) (index total : Z) : Target :=
  let extra := negb (String.eqb action "") in
  mkTarget host paneID eventID action (if extra then Some index else None) (if extra then Some total else None).
Definition notificationURL (host paneID eventID action : string) (index total : Z) : string :=
  ("./#notify=" ++ string_of_bytes (QueryEscape (marshal (targetOf host paneID eventID action index total))))%string.

Definition orElse (a b : string) : string := if String.eqb a "" then b else a.

Definition BuildAttentionPayload (agent project command eventID paneID host kind : string) (approvalTotal : Z) : Payload :=
  let project := orElse (orElse project agent) "agent" in
  let command := orElse command "Agent needs inspection" in
  let approve := String.eqb kind "approval" && (2 <=? approvalTotal) in
  let title := if approve then (project ++ " blocked")%string
               else if String.eqb kind "question" then (project ++ " needs answers")%string
               else (project ++ " needs inspection")%string in
  mkPayload title (command ++ " · " ++ host) ("herdr-" ++ host ++ "-" ++ paneID) paneID ""
    (notificationURL host paneID eventID "" 0 0)
    (if approve then [mkAction "approve" "Approve once"] else [])
    (if approve then {["approve"%string := notificationURL host paneID eventID "approve" 0 approvalTotal]} else ∅).

Definition BuildBlockedPayload (agent project command eventID paneID host : string) (hasApproval : bool) (approvalTotal : Z) : Payload :=
  BuildAttentionPayload agent project command eventID paneID host (if hasApproval then "approval" else "question") approvalTotal.

Definition BuildFinishedPayload (agent project paneID host eventID : string) : Payload :=
  let project := orElse (orElse project agent) "Agent" in
  let agent := orElse agent "Agent" in
  mkPayload (project ++ " finished") (agent ++ " completed · " ++ host) ("herdr-finished-" ++ host ++ "-" ++ paneID) paneID ""
    (notificationURL host paneID eventID "" 0 0) [] ∅.

End Links.

Definition payloadPane (p : Payload) : string := pane_id p.
Definition payloadType (p : Payload) : string :=
  if String.eqb (dataType p) "" && String.prefix "herdr-finished-" (tag p) then "finished"%string else dataType p.

Section Manager.
Context {Raw : Type} (encode : list pythonSubscription -> Raw).
(** [None] is an error; a file without the key [subscriptions] has [Some None] *)
Context (decode : Raw -> option (option (list pythonSubscription))) (decodeList : Raw -> option (list (Subscription Prefs))).

(** the manager, the maps it refers to and its file *)
Record World := mkWorld { subscriptions : list (Subscription nat); maps : gmap nat Prefs; fresh : nat; disk : option Raw }.

Definition set_subscriptions (v : list (Subscription nat)) (w : World) : World := mkWorld v (maps w) (fresh w) (disk w).
Definition set_disk (v : option Raw) (w : World) : World := mkWorld (subscriptions w) (maps w) (fresh w) v.
Definition new_map (m : Prefs) (w : World) : World := mkWorld (subscriptions w) (<[fresh w := m]> (maps w)) (S (fresh w)) (disk w).
Definition set_map (r : nat) (m : Prefs) (w : World) : World := mkWorld (subscriptions w) (<[r := m]> (maps w)) (fresh w) (disk w).

Definition mapAt (w : World) (r : nat) : Prefs := default ∅ (maps w !! r).
(** a subscription with the map it refers to *)
Definition deref (w : World) (s : Subscription nat) : Subscription Prefs := set_Agents (mapAt w <$> Agents s) s.
(** a subscription that was read from JSON has a map of its own *)
Definition bring (s : Subscription Prefs) (w : World) : Subscription nat * World :=
  match Agents s with
  | None => (set_Agents None s, w)
  | Some m => (set_Agents (Some (fresh w)) s, new_map m w)
  end.

(** ** The file *)

Definition persist (out : written) (l : list (Subscription nat)) (w : World) : World * bool :=
  match out with
  | Written => (set_disk (Some (encode (deref w <$> l))) w, true)
  | NotWritten => (w, false)
  | Unsynced => (set_disk (Some (encode (deref w <$> l))) w, false)
  end.

Definition bringAll (l : list (Subscription Prefs)) (w : World) : World :=
  foldl (fun w s => let (s, w) := bring s w in set_subscriptions (subscriptions w ++ [s]) w) w l.

(** a start of the relay: [None] when the file cannot be read *)
Definition load (d : option Raw) : option World :=
  let empty := mkWorld [] ∅ 0 d in
  match d with
  | None => Some empty
  | Some raw => match decode raw with
                | Some (Some l) => Some (bringAll l empty)
                | _ => let? l := decodeList raw in Some (bringAll l empty)
                end
  end.

(** ** Subscriptions *)

Fixpoint upsert {M} (s : Subscription M) (l : list (Subscription M)) : list (Subscription M) :=
  match l with
  | [] => [s]
  | e :: l => if String.eqb (Endpoint e) (Endpoint s) then s :: l else e :: upsert s l
  end.

Definition complete (s : Subscription Prefs) : bool :=
  negb (String.eqb (Endpoint s) "" || String.eqb (P256dh s) "" || String.eqb (Auth s) "").

Definition replaced {M} (replace : list string) (endpoint : string) (e : Subscription M) : bool :=
  bool_decide (Endpoint e ∈ replace) && negb (String.eqb (Endpoint e) "") && negb (String.eqb (Endpoint e) endpoint).

(** the new list, and whether the phone is told that it worked *)
Definition Subscribe (out : written) (sub : Subscription Prefs) (replace : list string) (w : World) : World * bool :=
  if negb (complete sub) then (w, false) else
  let (s, w) := bring sub w in
  let filtered := upsert s (filter (fun e => replaced replace (Endpoint s) e = false) (subscriptions w)) in
  let (w, ok) := persist out filtered w in
  if ok then (set_subscriptions filtered w, true) else (w, false).

Definition kept {M} (endpoints : list string) (clientID : string) (s : Subscription M) : bool :=
  negb (bool_decide (Endpoint s ∈ endpoints)) && negb (negb (String.eqb clientID "") && String.eqb (ClientID s) clientID).

Definition Unsubscribe (out : written) (endpoints : list string) (clientID : string) (w : World) : World * bool :=
  let filtered := filter (fun s => kept endpoints clientID s = true) (subscriptions w) in
  let (w, ok) := persist out filtered w in
  if ok then (set_subscriptions filtered w, true) else (w, false).

(** ** Preferences *)

(** [apply] may write to the map of a subscription and to the subscription; each is
    written back before the next is read *)
Fixpoint applyEach (clientID : string) (apply : Subscription nat -> World -> Subscription nat * World)
    (l : list (Subscription nat)) (w : World) : list (Subscription nat) * option (Subscription nat) * World :=
  match l with
  | [] => ([], None, w)
  | s :: l =>
      if negb (String.eqb (ClientID s) clientID)
      then let '(l', updated, w) := applyEach clientID apply l w in (s :: l', updated, w)
      else let (s, w) := apply s w in
           let '(l', updated, w) := applyEach clientID apply l w in (s :: l', Some (default s updated), w)
  end.

Definition updateClient (out : written) (clientID : string) (apply : Subscription nat -> World -> Subscription nat * World)
    (w : World) : World * option (Subscription nat) :=
  let '(l, updated, w) := applyEach clientID apply (subscriptions w) w in
  let w := set_subscriptions l w in
  match updated with
  | None => (w, None)
  | Some s => let (w, ok) := persist out l w in (w, if ok then Some s else None)
  end.

Definition prefer (pane state : string) (s : Subscription nat) (w : World) : Subscription nat * World :=
  if String.eqb state "" then
    match Agents s with
    | None => (s, w)
    | Some r => (s, set_map r (delete pane (mapAt w r)) w)
    end
  else
    match Agents s with
    | None => (set_Agents (Some (fresh w)) s, new_map (<[pane := state]> ∅) w)
    | Some r => (s, set_map r (<[pane := state]> (mapAt w r)) w)
    end.

Definition SetAgentPreference (out : written) (clientID pane state : string) (w : World) : World * option (Subscription nat) :=
  if String.eqb clientID "" || String.eqb pane "" then (w, None)
  else if negb (bool_decide (state ∈ [""; "follow"; "mute"]%string)) then (w, None)
  else updateClient out clientID (prefer pane state) w.

Definition SetAgentMode (out : written) (clientID mode : string) (w : World) : World * option (Subscription nat) :=
  if String.eqb clientID "" then (w, None)
  else if bool_decide (mode ∈ [""; "all"]%string) then updateClient out clientID (fun s w => (set_AgentMode "" s, w)) w
  else if String.eqb mode "followed" then updateClient out clientID (fun s w => (set_AgentMode mode s, w)) w
  else (w, None).

(** ** Delivery *)

(** what the push service answers *)
Inductive answer := Delivered | Status (code : Z) | Unreachable.

Definition sentOK (code : Z) : bool := (200 <=? code) && (code <? 300).
Definition sendOne (a : answer) : answer :=
  match a with Status code => if sentOK code then Delivered else a | _ => a end.
(** the endpoint is gone for good *)
Definition isTerminalError (a : answer) : bool :=
  match a with Status code => (code =? 404) || (code =? 410) | _ => false end.

Definition wants (prefs : option Prefs) (mode pane : string) : bool :=
  if String.eqb pane "" then true
  else match (default ∅ prefs : Prefs) !! pane with
       | Some v => if String.eqb v "mute" then false else if String.eqb v "follow" then true else negb (String.eqb mode "followed")
       | None => negb (String.eqb mode "followed")
       end.
Definition wantsIn (w : World) (s : Subscription nat) (pane : string) : bool := wants (Agents (deref w s)) (AgentMode s) pane.

(** what other goroutines do, one critical section each *)
Inductive op :=
  | OpSubscribe (out : written) (sub : Subscription Prefs) (replace : list string)
  | OpUnsubscribe (out : written) (endpoints : list string) (clientID : string)
  | OpPreference (out : written) (clientID pane state : string)
  | OpMode (out : written) (clientID mode : string).

Definition perform (w : World) (o : op) : World :=
  match o with
  | OpSubscribe out sub replace => (Subscribe out sub replace w).1
  | OpUnsubscribe out endpoints clientID => (Unsubscribe out endpoints clientID w).1
  | OpPreference out clientID pane state => (SetAgentPreference out clientID pane state w).1
  | OpMode out clientID mode => (SetAgentMode out clientID mode w).1
  end.
Definition performs (w : World) (ops : list op) : World := foldl perform w ops.

(** a turn of the loop: what happened since the last one and what the service will say *)
Record turn := mkTurn { before : list op; reply : answer }.

(** the copies that are left, one turn each: what was pushed in which world, and the dead endpoints *)
Fixpoint sendLoop (p : Payload) (copies : list (Subscription nat)) (turns : list turn) (w : World) :
    list (Subscription nat * World) * list string * World :=
  match copies with
  | [] => ([], [], w)
  | s :: copies =>
      let t := default (mkTurn [] Delivered) (head turns) in
      let w := performs w (before t) in
      let '(pushed, dead, w') := sendLoop p copies (tail turns) w in
      if String.eqb (payloadType p) "finished" && negb (NotifyFinished s) then (pushed, dead, w')
      else if negb (wantsIn w s (payloadPane p)) then (pushed, dead, w')
      else ((s, w) :: pushed, if isTerminalError (sendOne (reply t)) then Endpoint s :: dead else dead, w')
  end.

(** [after] runs before the dead endpoints are removed *)
Definition Send (out : written) (p : Payload) (turns : list turn) (after : list op) (w : World) : list (Subscription nat * World) * World :=
  let '(pushed, dead, w) := sendLoop p (subscriptions w) turns w in
  let w := performs w after in
  (pushed, if bool_decide (dead = []) then w else (Unsubscribe out dead "" w).1).

(** ** Sharing *)

(** no two subscriptions share a map, the next map is new, and an endpoint has one subscription *)
Definition refs (l : list (Subscription nat)) : list nat := omap Agents l.
Definition below (n : nat) (l : list (Subscription nat)) : Prop := Forall (fun s => forall r, Agents s = Some r -> (r < n)%nat) l.
Definition apart (n : nat) (l : list (Subscription nat)) : Prop := NoDup (refs l) /\ below n l.
Record wf (w : World) : Prop := mkWf { wf_apart : apart (fresh w) (subscriptions w); wf_endpoints : NoDup (Endpoint <$> subscriptions w) }.

(** the maps below the next one are as they were, those of [own] apart *)
Record framed (own : list nat) (w w' : World) : Prop := mkFramed {
  fr_fresh : (fresh w <= fresh w')%nat; fr_disk : disk w' = disk w; fr_subs : subscriptions w' = subscriptions w;
  fr_maps : forall r, (r < fresh w)%nat -> r ∉ own -> mapAt w' r = mapAt w r }.

Lemma framed_trans own1 own2 w1 w2 w3 : framed own1 w1 w2 -> framed own2 w2 w3 -> framed (own1 ++ own2) w1 w3.
Proof.
  intros [H1 H2 H3 H4] [G1 G2 G3 G4]. constructor; [lia|congruence|congruence|]. intros r Hr Hn. rewrite elem_of_app in Hn.
  rewrite G4; [apply H4; tauto|lia|tauto].
Qed.

Lemma framed_deref own w w' s : framed own w w' -> (forall r, Agents s = Some r -> (r < fresh w)%nat /\ r ∉ own) -> deref w' s = deref w s.
Proof.
  intros F Hs. unfold deref. f_equal. destruct (Agents s) as [r|] eqn:E; cbn; [|done]. f_equal. destruct (Hs r eq_refl). by apply (fr_maps _ _ _ F).
Qed.

Lemma elem_agents l r : r ∈ refs l <-> exists s, s ∈ l /\ Agents s = Some r.
Proof. apply list_elem_of_omap. Qed.

Lemma framed_derefs own w w' l : framed own w w' -> below (fresh w) l -> (forall r, r ∈ own -> r ∉ refs l) ->
  deref w' <$> l = deref w <$> l.
Proof.
  intros F Hb Hd. apply Forall_fmap_ext_1, Forall_forall. intros s Hs. apply (framed_deref own); [done|].
  intros r Hr. split; [by eapply (proj1 (Forall_forall _ _) Hb)|]. intros Ho. apply (Hd r Ho), elem_agents. eauto.
Qed.

Lemma bring_spec sub w : let (s, w') := bring sub w in
  framed [] w w' /\ deref w' s = sub /\ (forall r, Agents s = Some r -> r = fresh w /\ fresh w' = S (fresh w)) /\
  Endpoint s = Endpoint sub /\ ClientID s = ClientID sub.
Proof.
  unfold bring. destruct sub as [e k a u n c m ag]; cbn. destruct ag as [p|]; cbn.
  - split_and!; try done.
    + constructor; cbn; [lia|done|done|]. intros r Hr _. unfold mapAt. cbn. rewrite lookup_insert_ne by lia. done.
    + unfold deref, mapAt. cbn. by rewrite lookup_insert_eq.
    + by intros r [= <-].
  - split_and!; try done; constructor; cbn; auto.
Qed.

(** ** Updates of a client *)

(** what [apply] does to a subscription with its map is [f] *)
Record applies (apply : Subscription nat -> World -> Subscription nat * World) (f : Subscription Prefs -> Subscription Prefs) : Prop := mkApplies {
  ap_deref : forall s w, (forall r, Agents s = Some r -> (r < fresh w)%nat) -> deref (apply s w).2 (apply s w).1 = f (deref w s);
  ap_framed : forall s w, (forall r, Agents s = Some r -> (r < fresh w)%nat) -> framed (option_list (Agents s)) w (apply s w).2;
  ap_agents : forall s w r, Agents (apply s w).1 = Some r -> Agents s = Some r \/ (r = fresh w /\ fresh (apply s w).2 = S (fresh w)) }.

Definition ifClient (c : string) (f : Subscription Prefs -> Subscription Prefs) (s : Subscription Prefs) : Subscription Prefs :=
  if String.eqb (ClientID s) c then f s else s.

Lemma below_mono n m l : below n l -> (n <= m)%nat -> below m l.
Proof. intros H Hm. eapply Forall_impl; [exact H|]. cbn. intros s Hs r Hr. specialize (Hs r Hr). lia. Qed.

Lemma omap_agents_cons s l : refs (s :: l) = option_list (Agents s) ++ refs l.
Proof. unfold refs. cbn. by destruct (Agents s). Qed.

Lemma applyEach_spec c apply f l : applies apply f -> forall w, apart (fresh w) l ->
  let '(l', u, w') := applyEach c apply l w in
  deref w' <$> l' = ifClient c f <$> (deref w <$> l) /\ framed (refs l) w w' /\ apart (fresh w') l' /\
  (forall r, r ∈ refs l' -> r ∈ refs l \/ (fresh w <= r)%nat) /\
  (u = None <-> Forall (fun s => ClientID s <> c) l).
Proof.
  intros A. induction l as [|s l IH]; intros w [Hn Hb]; cbn [applyEach].
  { split; [done|]. split; [by constructor|]. split; [split; [apply NoDup_nil_2|constructor]|]. split; [by left|].
    split; [constructor|done]. }
  rewrite omap_agents_cons in Hn. apply NoDup_app in Hn as (Hn1 & Hd & Hn2). apply Forall_cons in Hb as [Hs Hb].
  destruct (String.eqb_spec (ClientID s) c) as [Hc|Hc]; cbn [negb].
  - destruct (apply s w) as [s1 w1] eqn:Ea. pose proof (ap_deref _ _ A s w Hs) as D1. pose proof (ap_framed _ _ A s w Hs) as F1.
    pose proof (ap_agents _ _ A s w) as G1. rewrite Ea in D1, F1, G1. cbn in D1, F1, G1.
    pose proof (fr_fresh _ _ _ F1) as Hf1. specialize (IH w1 (conj Hn2 (below_mono _ _ _ Hb Hf1))).
    destruct (applyEach c apply l w1) as [[l2 u] w2]. destruct IH as (D2 & F2 & [N2 B2] & R2 & U2).
    pose proof (fr_fresh _ _ _ F2) as Hf2.
    assert (Hs1 : forall r, Agents s1 = Some r -> (r < fresh w1)%nat /\ r ∉ refs l).
    { intros r Hr. destruct (G1 r Hr) as [Hr'|[-> Hw]].
      - split; [specialize (Hs r Hr'); lia|]. apply Hd. by rewrite Hr'; left.
      - split; [lia|]. intros (t & Ht & Er)%elem_agents. pose proof (proj1 (Forall_forall _ _) Hb t Ht _ Er). lia. }
    split_and!.
    + cbn. rewrite D2. f_equal.
      * rewrite (framed_deref _ _ _ _ F2 Hs1), D1. unfold ifClient. cbn. by rewrite Hc, String.eqb_refl.
      * f_equal. apply (framed_derefs (option_list (Agents s))); [done|done|]. intros r Hr. by apply Hd.
    + rewrite omap_agents_cons. by eapply framed_trans.
    + split.
      * rewrite omap_agents_cons. apply NoDup_app. split_and!; [destruct (Agents s1); [apply NoDup_singleton|apply NoDup_nil_2]| |done].
        intros r Hr Hr2. destruct (Agents s1) as [r1|] eqn:E1; [|set_solver]. apply list_elem_of_singleton in Hr as ->.
        destruct (Hs1 r1 eq_refl) as [? Hn']. destruct (R2 _ Hr2); [done|lia].
      * constructor; [|done]. intros r Hr. destruct (Hs1 r Hr). lia.
    + intros r. rewrite !omap_agents_cons, !elem_of_app. intros [Hr|Hr].
      * destruct (Agents s1) as [r1|] eqn:E1; [|set_solver]. apply list_elem_of_singleton in Hr as ->.
        destruct (G1 r1 eq_refl) as [->|[-> _]]; [left; left; by left|right; lia].
      * destruct (R2 r Hr); [tauto|right; lia].
    + rewrite Forall_cons. naive_solver.
  - specialize (IH w (conj Hn2 Hb)). destruct (applyEach c apply l w) as [[l2 u] w2]. destruct IH as (D2 & F2 & [N2 B2] & R2 & U2).
    pose proof (fr_fresh _ _ _ F2) as Hf2.
    split_and!.
    + cbn. rewrite D2. f_equal. unfold ifClient. cbn. rewrite (proj2 (String.eqb_neq _ _) Hc).
      apply (framed_deref _ _ _ _ F2). intros r Hr. split; [by apply Hs|]. apply Hd. by rewrite Hr; left.
    + rewrite omap_agents_cons. constructor; try apply F2. intros r Hr Hn. apply (fr_maps _ _ _ F2); [done|]. set_solver.
    + split.
      * rewrite omap_agents_cons. apply NoDup_app. split_and!; [done| |done]. intros r Hr Hr2.
        destruct (R2 r Hr2); [by eapply Hd|]. destruct (Agents s) as [r1|] eqn:E; [|set_solver]. apply list_elem_of_singleton in Hr as ->.
        specialize (Hs r1 eq_refl). lia.
      * constructor; [|done]. intros r Hr. specialize (Hs r Hr). lia.
    + intros r. rewrite !omap_agents_cons, !elem_of_app. intros [Hr|Hr]; [tauto|]. destruct (R2 r Hr); tauto.
    + rewrite Forall_cons. naive_solver.
Qed.

Definition preferred (pane state : string) (s : Subscription Prefs) : Subscription Prefs :=
  if String.eqb state "" then set_Agents (delete pane <$> Agents s) s
  else set_Agents (Some (<[pane := state]> (default ∅ (Agents s)))) s.

Lemma prefer_applies pane state : applies (prefer pane state) (preferred pane state).
Proof.
  constructor.
  - intros s w Hs. unfold prefer, preferred, deref. destruct (String.eqb state ""); destruct (Agents s) as [r|] eqn:E; cbn; rewrite ?E; cbn;
      unfold mapAt; cbn; rewrite ?lookup_insert_eq; done.
  - intros s w Hs. unfold prefer.
    destruct (String.eqb state ""); destruct (Agents s) as [r|] eqn:E; cbn; constructor; cbn; try done; try lia;
      intros r' Hr Hn; unfold mapAt; cbn; (rewrite lookup_insert_ne; [done|first [lia|set_solver]]).
  - intros s w r. unfold prefer. destruct (String.eqb state ""); destruct (Agents s) as [r'|] eqn:E; cbn; rewrite ?E; auto.
    intros [= <-]. auto.
Qed.

Lemma mode_applies mode : applies (fun s w => (set_AgentMode mode s, w)) (set_AgentMode mode).
Proof. constructor; cbn; [done|by constructor|auto]. Qed.

(** the subscriptions as the file has them *)
Definition values (w : World) : list (Subscription Prefs) := deref w <$> subscriptions w.

Lemma values_endpoints w : Endpoint <$> values w = Endpoint <$> subscriptions w.
Proof. unfold values. rewrite <- list_fmap_compose. done. Qed.

Lemma persist_frame out l w : subscriptions (persist out l w).1 = subscriptions w /\ maps (persist out l w).1 = maps w /\
  fresh (persist out l w).1 = fresh w.
Proof. by destruct out. Qed.

(** what an update of a client changes, whether or not it reached the disk *)
Lemma updateClient_spec out c apply f w : applies apply f -> (forall s, Endpoint (f s) = Endpoint s) -> wf w ->
  values (updateClient out c apply w).1 = ifClient c f <$> values w /\ wf (updateClient out c apply w).1 /\
  (out <> NotWritten -> Forall (fun s => ClientID s <> c) (subscriptions w) \/
     disk (updateClient out c apply w).1 = Some (encode (values (updateClient out c apply w).1))) /\
  (Forall (fun s => ClientID s <> c) (subscriptions w) \/ out = NotWritten -> disk (updateClient out c apply w).1 = disk w).
Proof.
  intros A Hf [Ha He]. unfold updateClient. pose proof (applyEach_spec c apply f (subscriptions w) A w Ha) as H.
  destruct (applyEach c apply (subscriptions w) w) as [[l u] w1]. destruct H as (D & F & P & _ & U).
  assert (Ev : forall w2 : World, subscriptions w2 = l -> maps w2 = maps w1 -> values w2 = ifClient c f <$> values w).
  { intros w2 Es Em. unfold values. rewrite Es, <- D. apply Forall_fmap_ext_1, Forall_forall. intros s _. unfold deref, mapAt. by rewrite Em. }
  assert (Ee : Endpoint <$> l = Endpoint <$> subscriptions w).
  { rewrite <- (values_endpoints w). specialize (Ev (set_subscriptions l w1) eq_refl eq_refl). 
    change l with (subscriptions (set_subscriptions l w1)). rewrite <- values_endpoints, Ev, <- list_fmap_compose. apply Forall_fmap_ext_1, Forall_forall.
    intros s _. unfold ifClient. cbn. case_match; [apply Hf|done]. }
  assert (Hw : forall w2 : World, subscriptions w2 = l -> maps w2 = maps w1 -> fresh w2 = fresh w1 -> wf w2).
  { intros w2 E1 E2 E3. constructor; [by rewrite E1, E3|by rewrite E1, Ee]. }
  destruct u as [s|]; cbn [fst].
  - destruct (persist_frame out l (set_subscriptions l w1)) as (E1 & E2 & E3). destruct (persist out l (set_subscriptions l w1)) as [w2 ok] eqn:Ep.
    cbn in *. split_and!; [by apply Ev|by apply Hw| |].
    + intros Ho. right. by destruct out; cbn in Ep; injection Ep as <- <-.
    + intros [Hn| ->]; [by apply U in Hn|]. cbn in Ep. injection Ep as <- <-. apply (fr_disk _ _ _ F).
  - split_and!; [by apply Ev|by apply Hw| |].
    + intros _. left. by apply U.
    + intros _. cbn. apply (fr_disk _ _ _ F).
Qed.

Lemma sublist_refs l l' : l' `sublist_of` l -> refs l' `sublist_of` refs l.
Proof.
  induction 1 as [|s l1 l2 H IH|s l1 l2 H IH]; [done| |]; rewrite !omap_agents_cons in *.
  - by apply sublist_app.
  - by apply sublist_inserts_l.
Qed.

Lemma apart_sublist n l l' : l' `sublist_of` l -> apart n l -> apart n l'.
Proof.
  intros Hs [Hn Hb]. split; [by eapply sublist_NoDup, sublist_refs|].
  apply Forall_forall. intros s Hin. eapply (proj1 (Forall_forall _ _) Hb). by eapply elem_of_sublist.
Qed.

(** ** Subscribing *)

Lemma upsert_refs s l r : r ∈ refs (upsert s l) -> r ∈ refs l \/ Agents s = Some r.
Proof.
  rewrite !elem_agents. intros (t & Ht & Hr). assert (H : t ∈ l \/ t = s); [|naive_solver].
  clear Hr. induction l as [|e l IH]; cbn in Ht; [set_solver|]. case_match; set_solver.
Qed.

Lemma upsert_apart n m s l : (n <= m)%nat -> (forall r, Agents s = Some r -> r = n /\ (n < m)%nat) -> apart n l -> apart m (upsert s l).
Proof.
  intros Hm Hs [Hn Hb].
  assert (Hf : forall r, r ∈ refs l -> (r < n)%nat).
  { intros r (t & Ht & Hr)%elem_agents. by eapply (proj1 (Forall_forall _ _) Hb). }
  split.
  - clear Hb. induction l as [|e l IH]; cbn [upsert].
    + unfold refs. cbn. destruct (Agents s); [apply NoDup_singleton|apply NoDup_nil_2].
    + rewrite omap_agents_cons in Hn, Hf. apply NoDup_app in Hn as (Hn1 & Hd & Hn2). case_match; rewrite omap_agents_cons; apply NoDup_app.
      * split_and!; [destruct (Agents s); [apply NoDup_singleton|apply NoDup_nil_2]| |done]. intros r Hr Hl.
        destruct (Agents s) as [r'|] eqn:E; [|set_solver]. apply list_elem_of_singleton in Hr as ->. destruct (Hs r' eq_refl) as [-> _].
        assert (n < n)%nat; [|lia]. apply Hf. set_solver.
      * split_and!; [done| |apply IH; [done|set_solver]]. intros r Hr [Hl|Hl]%upsert_refs; [by apply (Hd r)|].
        destruct (Hs r Hl) as [-> _]. assert (n < n)%nat; [|lia]. apply Hf. set_solver.
  - apply Forall_forall. intros t Ht r Hr. destruct (upsert_refs s l r) as [Hl|Hl]; [apply elem_agents; eauto|specialize (Hf r Hl); lia|destruct (Hs r Hl); lia].
Qed.

Lemma upsert_endpoints {M} (s : Subscription M) l :
  Endpoint <$> upsert s l = if decide (Endpoint s ∈ Endpoint <$> l) then Endpoint <$> l else (Endpoint <$> l) ++ [Endpoint s].
Proof.
  induction l as [|e l IH]; cbn [upsert]; [rewrite decide_False by set_solver; done|].
  destruct (String.eqb_spec (Endpoint e) (Endpoint s)) as [E|E]; rewrite !fmap_cons.
  - rewrite decide_True by (rewrite E; by left). by rewrite E.
  - rewrite IH. destruct (decide (Endpoint s ∈ Endpoint <$> l)); [rewrite decide_True by set_solver; done|rewrite decide_False by set_solver; done].
Qed.

Lemma NoDup_upsert {M} (s : Subscription M) l : NoDup (Endpoint <$> l) -> NoDup (Endpoint <$> upsert s l).
Proof.
  intros H. rewrite upsert_endpoints. case_decide; [done|]. apply NoDup_app. split_and!; [done|set_solver|apply NoDup_singleton].
Qed.

Lemma upsert_deref w s l : deref w <$> upsert s l = upsert (deref w s) (deref w <$> l).
Proof. induction l as [|e l IH]; cbn; [done|]. case_match; cbn; [done|]. by rewrite IH. Qed.

Lemma filter_deref (P : Subscription Prefs -> Prop) (Q : Subscription nat -> Prop) `{forall x, Decision (P x)} `{forall x, Decision (Q x)} w (l : list (Subscription nat)) :
  (forall s, Q s <-> P (deref w s)) -> deref w <$> filter Q l = filter P (deref w <$> l).
Proof.
  intros E. induction l as [|s l IH]; [done|]. rewrite fmap_cons, !filter_cons. destruct (decide (Q s)) as [Hq|Hq]; destruct (decide (P (deref w s))) as [Hp|Hp];
    rewrite ?fmap_cons, ?IH; try done; exfalso; naive_solver.
Qed.

Lemma NoDup_endpoints_filter {M} (P : Subscription M -> Prop) `{forall x, Decision (P x)} (l : list (Subscription M)) : NoDup (Endpoint <$> l) -> NoDup (Endpoint <$> filter P l).
Proof. intros H1. eapply sublist_NoDup; [exact H1|]. apply fmap_sublist, sublist_filter. Qed.

(** the list that a subscription is put into *)
Definition subscribedTo (sub : Subscription Prefs) (replace : list string) (l : list (Subscription Prefs)) : list (Subscription Prefs) :=
  upsert sub (filter (fun e => replaced replace (Endpoint sub) e = false) l).

Lemma Subscribe_spec out sub replace w : wf w ->
  wf (Subscribe out sub replace w).1 /\
  (complete sub = true -> out = Written -> values (Subscribe out sub replace w).1 = subscribedTo sub replace (values w) /\
     disk (Subscribe out sub replace w).1 = Some (encode (values (Subscribe out sub replace w).1)) /\ (Subscribe out sub replace w).2 = true) /\
  (complete sub = false \/ out <> Written -> values (Subscribe out sub replace w).1 = values w /\ (Subscribe out sub replace w).2 = false) /\
  (complete sub = false \/ out = NotWritten -> disk (Subscribe out sub replace w).1 = disk w) /\
  (complete sub = true -> out <> NotWritten -> disk (Subscribe out sub replace w).1 = Some (encode (subscribedTo sub replace (values w)))).
Proof.
  intros [Ha He]. unfold Subscribe. destruct (complete sub) eqn:Ec; cbn [negb].
  2: { split_and!; [done|done|done|done|done]. }
  pose proof (bring_spec sub w) as Hb. destruct (bring sub w) as [s w1]. destruct Hb as (F & D & R & Ee & _).
  assert (Hr : forall w2 : World, maps w2 = maps w1 -> subscriptions w2 = subscriptions w1 -> fresh w2 = fresh w1 -> wf w2 /\ values w2 = values w).
  { intros w2 E1 E2 E3. rewrite (fr_subs _ _ _ F) in E2. split.
    - constructor; rewrite ?E2, ?E3; [|done]. destruct Ha as [Hn Hb]. split; [done|]. by apply (below_mono (fresh w)), (fr_fresh _ _ _ F).
    - unfold values. rewrite E2. transitivity (deref w1 <$> subscriptions w); [|by apply (framed_derefs [] _ _ _ F (proj2 Ha)); set_solver].
      apply Forall_fmap_ext_1, Forall_forall. intros t _. unfold deref, mapAt. by rewrite E1. }
  assert (Hv : values w1 = values w) by by apply Hr.
  set (l := upsert s (filter _ (subscriptions w1))).
  assert (Hl : deref w1 <$> l = subscribedTo sub replace (values w)).
  { unfold l, subscribedTo. rewrite upsert_deref, D, <- Hv. f_equal. apply filter_deref. intros t. cbn. by rewrite Ee. }
  assert (Hw : wf (set_subscriptions l w1)).
  { constructor; cbn.
    - apply (upsert_apart (fresh w)); [apply (fr_fresh _ _ _ F)|intros r Hs; destruct (R r Hs) as [-> ->]; lia|].
      rewrite (fr_subs _ _ _ F). eapply apart_sublist; [apply sublist_filter|done].
    - apply NoDup_upsert, NoDup_endpoints_filter. by rewrite (fr_subs _ _ _ F). }
  destruct out; cbn [persist fst snd].
  - split_and!; [|intros _ _; split_and!|intros [|]|intros [|]|intros _ _; cbn; by rewrite <- Hl]; try done. destruct Hw. by constructor.
  - split_and!; [by apply Hr|done|intros _; split; [by apply Hr|done]|intros _; apply (fr_disk _ _ _ F)|done].
  - split_and!; [by apply Hr|done|intros _; split; [by apply Hr|done]|by intros [|]|intros _ _; cbn; by rewrite <- Hl].
Qed.

Lemma Unsubscribe_spec out endpoints c w : wf w ->
  wf (Unsubscribe out endpoints c w).1 /\
  (out = Written -> values (Unsubscribe out endpoints c w).1 = filter (fun s => kept endpoints c s = true) (values w) /\
     subscriptions (Unsubscribe out endpoints c w).1 = filter (fun s => kept endpoints c s = true) (subscriptions w) /\
     disk (Unsubscribe out endpoints c w).1 = Some (encode (values (Unsubscribe out endpoints c w).1))) /\
  (out <> Written -> values (Unsubscribe out endpoints c w).1 = values w) /\
  (out = NotWritten -> disk (Unsubscribe out endpoints c w).1 = disk w) /\
  (out <> NotWritten -> disk (Unsubscribe out endpoints c w).1 = Some (encode (filter (fun s => kept endpoints c s = true) (values w)))).
Proof.
  intros [Ha He]. unfold Unsubscribe. set (l := filter _ (subscriptions w)).
  assert (Hw : apart (fresh w) l /\ NoDup (Endpoint <$> l)).
  { split; [eapply apart_sublist; [apply sublist_filter|done]|by apply NoDup_endpoints_filter]. }
  destruct Hw as [Hw1 Hw2]. destruct out; cbn; (split_and!; [by constructor| | | |]); try done.
  - intros _. split_and!; [|done|done]. by apply filter_deref.
  - intros _. do 2 f_equal. by apply filter_deref.
  - intros _. do 2 f_equal. by apply filter_deref.
Qed.

(** ** Runs *)

(** an operation on the list as the file has it *)
Definition listed (o : op) (l : list (Subscription Prefs)) : list (Subscription Prefs) :=
  match o with
  | OpSubscribe _ sub replace => subscribedTo sub replace l
  | OpUnsubscribe _ endpoints c => filter (fun s => kept endpoints c s = true) l
  | OpPreference _ c pane state => ifClient c (preferred pane state) <$> l
  | OpMode _ c mode => ifClient c (set_AgentMode (if String.eqb mode "followed" then mode else ""%string)) <$> l
  end.

(** the write of the operation is complete or did not happen; a preference is only kept in memory after its write *)
Definition keeps (o : op) : Prop :=
  match o with
  | OpSubscribe out _ _ | OpUnsubscribe out _ _ => out <> Unsynced
  | OpPreference out _ _ _ | OpMode out _ _ => out = Written
  end.

Lemma preferred_Endpoint pane state s : Endpoint (preferred pane state s) = Endpoint s.
Proof. unfold preferred. by case_match. Qed.

Lemma ifClient_none c f w : Forall (fun s => ClientID s <> c) (subscriptions w) -> ifClient c f <$> values w = values w.
Proof.
  intros H. unfold values. rewrite <- list_fmap_compose. apply Forall_fmap_ext_1. eapply Forall_impl; [exact H|]. intros s Hs.
  unfold compose, ifClient. cbn. by rewrite (proj2 (String.eqb_neq _ _) Hs).
Qed.

Definition saidNothing (w : World) (o : op) : Prop := values (perform w o) = values w /\ (keeps o -> disk (perform w o) = disk w).
Definition saidAll (w : World) (o : op) : Prop :=
  values (perform w o) = listed o (values w) /\ (keeps o -> disk (perform w o) = Some (encode (values (perform w o)))).

Lemma update_said out c apply f w (o : op) : applies apply f -> (forall s, Endpoint (f s) = Endpoint s) -> wf w ->
  perform w o = (updateClient out c apply w).1 -> listed o (values w) = ifClient c f <$> values w -> (keeps o -> out = Written) ->
  wf (perform w o) /\ (saidNothing w o \/ saidAll w o).
Proof.
  intros A Hf Hw Ep El Hk. destruct (updateClient_spec out c apply f w A Hf Hw) as (V & W & D & N). unfold saidNothing, saidAll. rewrite Ep, El.
  split; [done|]. destruct (decide (Forall (fun s => ClientID s <> c) (subscriptions w))) as [Hn|Hn].
  - left. rewrite V, (N (or_introl Hn)). split; [by apply ifClient_none|done].
  - right. split; [done|]. intros Ho. destruct D as [?|?]; [by rewrite (Hk Ho)|done|done].
Qed.

(** an operation does all of it or nothing *)
Lemma perform_said w o : wf w -> wf (perform w o) /\ (saidNothing w o \/ saidAll w o).
Proof.
  intros Hw. assert (Hno : forall w', w' = w -> wf w' /\ values w' = values w /\ disk w' = disk w) by by intros w' ->.
  destruct o as [out sub replace|out endpoints c|out c pane state|out c mode].
  - unfold saidNothing, saidAll; cbn. destruct (Subscribe_spec out sub replace w Hw) as (W & Y & N & D & _). split; [done|].
    destruct (complete sub); [|left; destruct N; auto]. destruct (decide (out = Written)) as [->|Ho]; [right; destruct Y as (? & ? & _); auto|].
    left. destruct N; [auto|]. split; [done|]. intros Hk. apply D. right. by destruct out.
  - unfold saidNothing, saidAll; cbn. destruct (Unsubscribe_spec out endpoints c w Hw) as (W & Y & N & D & _). split; [done|].
    destruct (decide (out = Written)) as [->|Ho]; [right; destruct Y as (? & _ & ?); auto|]. left. split; [auto|]. intros Hk. apply D. by destruct out.
  - destruct (String.eqb c "" || String.eqb pane "") eqn:E1; [|destruct (bool_decide (state ∈ [""; "follow"; "mute"]%string)) eqn:E2].
    + unfold saidNothing; cbn. unfold SetAgentPreference. rewrite E1. auto.
    + apply (update_said out c (prefer pane state) (preferred pane state)); [apply prefer_applies|apply preferred_Endpoint|done| |done|done].
      cbn. unfold SetAgentPreference. by rewrite E1, E2.
    + unfold saidNothing; cbn. unfold SetAgentPreference. rewrite E1, E2. auto.
  - destruct (String.eqb c "") eqn:E1; [unfold saidNothing; cbn; unfold SetAgentMode; rewrite E1; auto|].
    destruct (bool_decide (mode ∈ [""; "all"]%string)) eqn:E2; [|destruct (String.eqb mode "followed") eqn:E3].
    + apply (update_said out c (fun s w => (set_AgentMode "" s, w)) (set_AgentMode "")); [apply mode_applies|done|done| | |done].
      * cbn. unfold SetAgentMode. by rewrite E1, E2.
      * apply bool_decide_eq_true in E2. cbn. rewrite !elem_of_cons in E2. by destruct E2 as [->|[->|[]%elem_of_nil]].
    + apply (update_said out c (fun s w => (set_AgentMode mode s, w)) (set_AgentMode mode)); [apply mode_applies|done|done| | |done].
      * cbn. unfold SetAgentMode. by rewrite E1, E2, E3.
      * cbn. by rewrite E3.
    + unfold saidNothing; cbn. unfold SetAgentMode. rewrite E1, E2, E3. auto.
Qed.

(** the file is as it was, or has the list of the operation *)
Definition filedBy (w : World) (o : op) : Prop := disk (perform w o) = disk w \/ disk (perform w o) = Some (encode (listed o (values w))).

Lemma update_filed out c apply f w (o : op) : applies apply f -> (forall s, Endpoint (f s) = Endpoint s) -> wf w ->
  perform w o = (updateClient out c apply w).1 -> listed o (values w) = ifClient c f <$> values w -> filedBy w o.
Proof.
  intros A Hf Hw Ep El. destruct (updateClient_spec out c apply f w A Hf Hw) as (V & _ & D & N). unfold filedBy. rewrite Ep, El, <- V.
  destruct (decide (out = NotWritten)); [left; auto|]. destruct (D ltac:(done)); auto.
Qed.

Lemma perform_filed w o : wf w -> filedBy w o.
Proof.
  intros Hw. destruct o as [out sub replace|out endpoints c|out c pane state|out c mode].
  - destruct (Subscribe_spec out sub replace w Hw) as (_ & _ & _ & D & E). unfold filedBy. cbn.
    destruct (complete sub); [|auto]. destruct (decide (out = NotWritten)); auto.
  - destruct (Unsubscribe_spec out endpoints c w Hw) as (_ & _ & _ & D & E). unfold filedBy. cbn.
    destruct (decide (out = NotWritten)); auto.
  - destruct (String.eqb c "" || String.eqb pane "") eqn:E1; [|destruct (bool_decide (state ∈ [""; "follow"; "mute"]%string)) eqn:E2].
    + left. cbn. unfold SetAgentPreference. by rewrite E1.
    + apply (update_filed out c (prefer pane state) (preferred pane state)); [apply prefer_applies|apply preferred_Endpoint|done| |done].
      cbn. unfold SetAgentPreference. by rewrite E1, E2.
    + left. cbn. unfold SetAgentPreference. by rewrite E1, E2.
  - destruct (String.eqb c "") eqn:E1; [left; cbn; unfold SetAgentMode; by rewrite E1|].
    destruct (bool_decide (mode ∈ [""; "all"]%string)) eqn:E2; [|destruct (String.eqb mode "followed") eqn:E3].
    + apply (update_filed out c (fun s w => (set_AgentMode "" s, w)) (set_AgentMode "")); [apply mode_applies|done|done| |].
      * cbn. unfold SetAgentMode. by rewrite E1, E2.
      * apply bool_decide_eq_true in E2. cbn. rewrite !elem_of_cons in E2. by destruct E2 as [->|[->|[]%elem_of_nil]].
    + apply (update_filed out c (fun s w => (set_AgentMode mode s, w)) (set_AgentMode mode)); [apply mode_applies|done|done| |].
      * cbn. unfold SetAgentMode. by rewrite E1, E2, E3.
      * cbn. by rewrite E3.
    + left. cbn. unfold SetAgentMode. by rewrite E1, E2, E3.
Qed.

Lemma performs_wf w ops : wf w -> wf (performs w ops).
Proof. revert w. induction ops as [|o ops IH]; intros w Hw; [done|]. by apply IH, perform_said. Qed.

Definition start : World := mkWorld [] ∅ 0 None.

Lemma start_wf : wf start.
Proof. constructor; cbn; [split; [apply NoDup_nil_2|constructor]|apply NoDup_nil_2]. Qed.

Lemma preferred_wants pane state s q : state ∈ [""; "follow"; "mute"]%string -> pane <> ""%string ->
  wants (Agents (preferred pane state s)) (AgentMode (preferred pane state s)) q =
    if String.eqb q pane then (if String.eqb state "" then negb (String.eqb (AgentMode s) "followed") else String.eqb state "follow")
    else wants (Agents s) (AgentMode s) q.
Proof.
  intros Hs Hp. unfold preferred, wants. destruct (String.eqb_spec q pane) as [->|Hq].
  - rewrite (proj2 (String.eqb_neq _ _) Hp). destruct (String.eqb_spec state "") as [->|Hne]; cbn [Agents AgentMode set_Agents].
    + destruct (Agents s) as [m|]; cbn [fmap option_fmap option_map default from_option]; unfold id; [by rewrite lookup_delete_eq|by rewrite lookup_empty].
    + cbn [default from_option]; unfold id. rewrite lookup_insert_eq. rewrite !elem_of_cons in Hs. by destruct Hs as [->|[->|[->|[]%elem_of_nil]]].
  - destruct (String.eqb q ""); [done|]. destruct (String.eqb state ""); cbn [Agents AgentMode set_Agents].
    + destruct (Agents s) as [m|]; cbn [fmap option_fmap option_map default from_option]; unfold id; [by rewrite lookup_delete_ne|done].
    + cbn [default from_option]; unfold id. by rewrite lookup_insert_ne.
Qed.

(** A preference is exactly what was asked for: every subscription of the client
    follows or mutes the pane, or falls back to its mode; what it hears of every
    other pane and what every other client hears is as it was.  This holds in the
    running relay even when the write to disk fails. *)
Theorem preference_exact ops out c pane state :
  c <> ""%string -> pane <> ""%string -> state ∈ [""; "follow"; "mute"]%string ->
  length (subscriptions (SetAgentPreference out c pane state (performs start ops)).1) = length (subscriptions (performs start ops)) /\
  forall i s s', subscriptions (performs start ops) !! i = Some s ->
    subscriptions (SetAgentPreference out c pane state (performs start ops)).1 !! i = Some s' ->
    (Endpoint s', ClientID s', AgentMode s', NotifyFinished s') = (Endpoint s, ClientID s, AgentMode s, NotifyFinished s) /\
    forall q, wantsIn (SetAgentPreference out c pane state (performs start ops)).1 s' q =
      if String.eqb (ClientID s) c && String.eqb q pane
      then (if String.eqb state "" then negb (String.eqb (AgentMode s) "followed") else String.eqb state "follow")
      else wantsIn (performs start ops) s q.
Proof.
  intros Hc Hp Hs. pose proof (performs_wf start ops start_wf) as Hw. unfold SetAgentPreference.
  rewrite (proj2 (String.eqb_neq _ _) Hc), (proj2 (String.eqb_neq _ _) Hp), (bool_decide_eq_true_2 _ Hs). cbn [orb negb].
  destruct (updateClient_spec out c _ _ _ (prefer_applies pane state) (preferred_Endpoint pane state) Hw) as (V & _).
  revert V. generalize (updateClient out c (prefer pane state) (performs start ops)).1. generalize (performs start ops). clear Hw ops out.
  intros w w' V. split.
  - apply (f_equal length) in V. unfold values in V. by rewrite !length_fmap in V.
  - intros i s s' Hi Hi'. assert (E : deref w' s' = ifClient c (preferred pane state) (deref w s)).
    { apply (f_equal (fun l => l !! i)) in V. unfold values in V. rewrite !list_lookup_fmap, Hi, Hi' in V. cbn in V. congruence. }
    unfold wantsIn. split.
    + apply (f_equal (fun s => (Endpoint s, ClientID s, AgentMode s, NotifyFinished s))) in E. cbn in E. rewrite E. unfold ifClient, preferred.
      by repeat case_match.
    + intros q. change (AgentMode s') with (AgentMode (deref w' s')). rewrite E. unfold ifClient. cbn [deref set_Agents ClientID].
      destruct (String.eqb (ClientID s) c); [|done]. cbn [andb]. rewrite preferred_wants by done. done.
Qed.

(** ** Delivery *)

(** who is told about a message *)
Definition told (w : World) (p : Payload) (s : Subscription nat) : bool :=
  (negb (String.eqb (payloadType p) "finished") || NotifyFinished s) && wantsIn w s (payloadPane p).
(** the world in which the copy [i] is sent, and what the push service says of it *)
Definition atTurn (w : World) (turns : list turn) (i : nat) : World := performs w (concat (before <$> take (S i) turns)).
Definition gone (turns : list turn) (i : nat) : bool := isTerminalError (sendOne (reply (default (mkTurn [] Delivered) (turns !! i)))).
(** the copies that are pushed to, each with the world in which it is *)
Definition pushes (p : Payload) (w : World) (turns : list turn) (copies : list (Subscription nat)) : list (Subscription nat * World) :=
  omap id (imap (fun i s => if told (atTurn w turns i) p s then Some (s, atTurn w turns i) else None) copies).
(** the endpoint belongs to a copy that was pushed to and is gone *)
Definition deadIn (p : Payload) (w : World) (turns : list turn) (copies : list (Subscription nat)) (e : string) : Prop :=
  exists i s, copies !! i = Some s /\ Endpoint s = e /\ told (atTurn w turns i) p s = true /\ gone turns i = true.

Lemma performs_app w ops ops' : performs w (ops ++ ops') = performs (performs w ops) ops'.
Proof. apply foldl_app. Qed.

Lemma atTurn_S w turns i : atTurn w turns (S i) = atTurn (performs w (before (default (mkTurn [] Delivered) (head turns)))) (tail turns) i.
Proof. unfold atTurn. destruct turns as [|t turns]; [done|]. cbn [take fmap list_fmap concat tail head default from_option]. unfold id. by rewrite <- performs_app. Qed.

Lemma told_spec w p s : told w p s = negb (String.eqb (payloadType p) "finished" && negb (NotifyFinished s)) && wantsIn w s (payloadPane p).
Proof. unfold told. by destruct (String.eqb _ _), (NotifyFinished s). Qed.

Lemma sendLoop_spec p copies : forall turns w, let '(pushed, dead, w') := sendLoop p copies turns w in
  w' = performs w (concat (before <$> take (length copies) turns)) /\ pushed = pushes p w turns copies /\
  forall e, e ∈ dead <-> deadIn p w turns copies e.
Proof.
  induction copies as [|s copies IH]; intros turns w; cbn [sendLoop].
  { split_and!; try done. intros e. split; [set_solver|]. by intros (i & s & Hi & _). }
  set (t := default (mkTurn [] Delivered) (head turns)). specialize (IH (tail turns) (performs w (before t))).
  destruct (sendLoop p copies (tail turns) (performs w (before t))) as [[pushed dead] w']. destruct IH as (Ew & Ep & Ed).
  assert (E0 : atTurn w turns 0 = performs w (before t)).
  { unfold atTurn, t. destruct turns; cbn; [done|]. by rewrite app_nil_r. }
  assert (Hw : w' = performs w (concat (before <$> take (length (s :: copies)) turns))).
  { rewrite Ew. unfold t. destruct turns as [|t0 turns]; cbn; [by rewrite take_nil|]. by rewrite performs_app. }
  assert (Hp : pushes p w turns (s :: copies) = if told (performs w (before t)) p s then (s, performs w (before t)) :: pushed else pushed).
  { unfold pushes. rewrite imap_cons, E0.
    assert (El : omap id (imap ((fun i s => if told (atTurn w turns i) p s then Some (s, atTurn w turns i) else None) ∘ S) copies) =
                 pushes p (performs w (before t)) (tail turns) copies).
    { unfold pushes. f_equal. apply imap_ext. intros i x _. unfold compose. by rewrite atTurn_S. }
    rewrite Ep, <- El. by destruct (told (performs w (before t)) p s). }
  assert (Hg : forall i, gone (tail turns) i = gone turns (S i)) by (intros i; unfold gone; by destruct turns).
  assert (Hd : forall hit : bool, (hit = true <-> told (performs w (before t)) p s = true /\ isTerminalError (sendOne (reply t)) = true) ->
    forall e, e ∈ (if hit then Endpoint s :: dead else dead) <-> deadIn p w turns (s :: copies) e).
  { intros hit Hh e. transitivity ((hit = true /\ e = Endpoint s) \/ e ∈ dead); [destruct hit; set_solver|]. rewrite Ed. unfold deadIn. split.
    - intros [[Hhit ->]|(i & s' & Hi & He & Ht & Hgo)].
      + exists 0%nat, s. rewrite E0. apply Hh in Hhit as [H1 H2]. split_and!; [done|done|done|]. unfold gone. unfold t in H2. by destruct turns.
      + exists (S i), s'. rewrite atTurn_S, <- Hg. done.
    - intros ([|i] & s' & Hi & He & Ht & Hgo); cbn in Hi.
      + left. simplify_eq. split; [|done]. apply Hh. rewrite <- E0. split; [done|]. unfold gone in Hgo. unfold t. by destruct turns.
      + right. exists i, s'. rewrite Hg. rewrite atTurn_S in Ht. done. }
  rewrite Hp. pose proof (told_spec (performs w (before t)) p s) as Et.
  destruct (String.eqb (payloadType p) "finished" && negb (NotifyFinished s)); [|destruct (wantsIn (performs w (before t)) s (payloadPane p))];
    cbn [negb andb] in *; rewrite Et; (split_and!; [exact Hw|done|]).
  - apply (Hd false). rewrite Et. naive_solver.
  - apply Hd. rewrite Et. naive_solver.
  - apply (Hd false). rewrite Et. naive_solver.
Qed.

(** C31: a notification goes exactly to the subscriptions of the moment it is sent that
    want it when their turn comes, once each and in their order, whatever other
    operations run between the turns.  Of the subscriptions that are there at the end
    exactly those are removed whose endpoint was pushed to and reported as gone (404
    or 410), provided that the shorter list is written to disk; after a failed write,
    and after every other failure of a push, all of them stay. *)
Theorem delivered_exactly out p turns after w :
  let w' := performs w (concat (before <$> take (length (subscriptions w)) turns) ++ after) in
  (Send out p turns after w).1 = pushes p w turns (subscriptions w) /\
  subscriptions (Send out p turns after w).2 `sublist_of` subscriptions w' /\
  (forall s, s ∈ subscriptions w' ->
     s ∈ subscriptions (Send out p turns after w).2 <-> ~ (out = Written /\ deadIn p w turns (subscriptions w) (Endpoint s))).
Proof.
  cbn zeta. unfold Send. pose proof (sendLoop_spec p (subscriptions w) turns w) as H. destruct (sendLoop _ _ _ w) as [[pushed dead] w1].
  destruct H as (-> & Ep & Ed). cbn [fst snd]. rewrite performs_app. set (w2 := performs _ after). split; [done|].
  assert (Es : subscriptions (if bool_decide (dead = []) then w2 else (Unsubscribe out dead "" w2).1) =
               if decide (out = Written) then filter (fun s => kept dead "" s = true) (subscriptions w2) else subscriptions w2).
  { case_bool_decide as E; [|by destruct out]. subst dead. case_decide; [|done]. clear. induction (subscriptions w2) as [|s l IH]; [done|].
    rewrite filter_cons, decide_True by done. by rewrite <- IH. }
  rewrite Es. case_decide as Ho.
  - split; [apply sublist_filter|]. intros s Hs. rewrite list_elem_of_filter. unfold kept. cbn [String.eqb negb andb].
    rewrite andb_true_r, negb_true_iff, bool_decide_eq_false, Ed. tauto.
  - split; [done|]. intros s Hs. tauto.
Qed.

(** ** Silence *)

(** [r] is a map of the client that mutes the pane, and nobody else's *)
Record muted (c pane : string) (r : nat) (w : World) : Prop := mkMuted {
  mu_fresh : (r < fresh w)%nat; mu_mute : mapAt w r !! pane = Some "mute"%string;
  mu_owner : forall s, s ∈ subscriptions w -> Agents s = Some r -> ClientID s = c }.

(** the operation does not change what the client said about the pane *)
Definition leaves (c pane : string) (o : op) : Prop :=
  match o with OpPreference _ c' pane' _ => ~ (c' = c /\ pane' = pane) | _ => True end.

Lemma applyEach_subs d apply l r : (forall s w, ClientID (apply s w).1 = ClientID s) ->
  (forall s w, Agents (apply s w).1 = Some r -> Agents s = Some r \/ r = fresh w) -> (forall s w, (fresh w <= fresh (apply s w).2)%nat) ->
  forall w, (r < fresh w)%nat -> let '(l', _, _) := applyEach d apply l w in
  forall s', s' ∈ l' -> Agents s' = Some r -> exists s, s ∈ l /\ Agents s = Some r /\ ClientID s' = ClientID s.
Proof.
  intros Hc Ha Hf. induction l as [|s l IH]; intros w Hr; cbn [applyEach]; [set_solver|].
  destruct (negb _).
  - specialize (IH w Hr). destruct (applyEach d apply l w) as [[l' u] w']. intros s' [->|Hs']%elem_of_cons Es; [set_solver|].
    destruct (IH s' Hs' Es) as (t & ? & ? & ?). exists t. set_solver.
  - specialize (Hc s w). specialize (Ha s w). specialize (Hf s w). destruct (apply s w) as [s1 w1]. cbn in *.
    specialize (IH w1 ltac:(lia)). destruct (applyEach d apply l w1) as [[l' u] w']. intros s' [->|Hs']%elem_of_cons Es.
    + destruct (Ha Es) as [?|]; [|lia]. exists s. set_solver.
    + destruct (IH s' Hs' Es) as (t & ? & ? & ?). exists t. set_solver.
Qed.

Lemma applyEach_map d apply l r (P : Prefs -> Prop) :
  (forall s w, s ∈ l -> ClientID s = d -> (r < fresh w)%nat -> P (mapAt w r) -> P (mapAt (apply s w).2 r) /\ (fresh w <= fresh (apply s w).2)%nat) ->
  forall w, (r < fresh w)%nat -> P (mapAt w r) -> let '(_, _, w') := applyEach d apply l w in P (mapAt w' r) /\ (r < fresh w')%nat.
Proof.
  induction l as [|s l IH]; intros Hp w Hr Hw; cbn [applyEach]; [done|].
  assert (IH' := IH (fun s w Hs => Hp s w (list_elem_of_further _ _ _ Hs))). clear IH.
  destruct (String.eqb_spec (ClientID s) d) as [Hd|Hd]; cbn [negb].
  - destruct (Hp s w ltac:(by left) Hd Hr Hw) as [Hw1 Hr1]. destruct (apply s w) as [s1 w1]. cbn in *.
    specialize (IH' w1 ltac:(lia) Hw1). by destruct (applyEach d apply l w1) as [[l' u] w'].
  - specialize (IH' w Hr Hw). by destruct (applyEach d apply l w) as [[l' u] w'].
Qed.

Lemma prefer_simple pane state s w : ClientID (prefer pane state s w).1 = ClientID s /\ (fresh w <= fresh (prefer pane state s w).2)%nat.
Proof. unfold prefer. repeat case_match; cbn; auto. Qed.

Lemma updateClient_muted out d apply c pane r w : (forall s w, ClientID (apply s w).1 = ClientID s) ->
  (forall s w r', Agents (apply s w).1 = Some r' -> Agents s = Some r' \/ r' = fresh w) -> (forall s w, (fresh w <= fresh (apply s w).2)%nat) ->
  (forall s w', s ∈ subscriptions w -> ClientID s = d -> (r < fresh w')%nat -> mapAt w' r !! pane = Some "mute"%string ->
     mapAt (apply s w').2 r !! pane = Some "mute"%string) ->
  muted c pane r w -> muted c pane r (updateClient out d apply w).1.
Proof.
  intros Hc Ha Hf Hm [M1 M2 M3]. unfold updateClient.
  pose proof (applyEach_subs d apply (subscriptions w) r Hc (fun s w => Ha s w r) Hf w M1) as Hs.
  pose proof (applyEach_map d apply (subscriptions w) r (fun m => m !! pane = Some "mute"%string)
                (fun s w' H1 H2 H3 H4 => conj (Hm s w' H1 H2 H3 H4) (Hf s w')) w M1 M2) as Hp.
  destruct (applyEach d apply (subscriptions w) w) as [[l u] w1]. destruct Hp as [Hp1 Hp2].
  assert (Ho : forall s, s ∈ l -> Agents s = Some r -> ClientID s = c).
  { intros s Hin Er. destruct (Hs s Hin Er) as (t & Ht & Et & ->). by apply M3. }
  destruct u as [s|]; [|by constructor]. destruct out; cbn; by constructor.
Qed.

Lemma prefer_muted pane' state c d pane r w s w' : muted c pane r w -> ~ (d = c /\ pane' = pane) -> s ∈ subscriptions w -> ClientID s = d ->
  (r < fresh w')%nat -> mapAt w' r !! pane = Some "mute"%string -> mapAt (prefer pane' state s w').2 r !! pane = Some "mute"%string.
Proof.
  intros M Hn Hs Hd Hr Hm.
  assert (Hk : forall r' m, Agents s = Some r' -> (pane' <> pane -> m !! pane = mapAt w' r' !! pane) -> mapAt (set_map r' m w') r !! pane = Some "mute"%string).
  { intros r' m Ea Hl. unfold mapAt. cbn. destruct (decide (r' = r)) as [->|Hne]; [|by rewrite lookup_insert_ne].
    rewrite lookup_insert_eq. cbn. unfold id. rewrite Hl; [done|]. intros ->. apply Hn. split; [|done]. rewrite <- Hd. by apply (mu_owner _ _ _ _ M). }
  unfold prefer. destruct (String.eqb state ""); destruct (Agents s) as [r'|] eqn:E; cbn; try done.
  - apply Hk; [done|]. intros Hp. by rewrite lookup_delete_ne.
  - apply Hk; [done|]. intros Hp. by rewrite lookup_insert_ne.
  - unfold mapAt. cbn. rewrite lookup_insert_ne by lia. done.
Qed.

Lemma perform_muted c pane r w o : leaves c pane o -> muted c pane r w -> muted c pane r (perform w o).
Proof.
  intros Hl M. destruct o as [out sub replace|out endpoints d|out d pane' state|out d mode]; cbn.
  - unfold Subscribe. destruct (negb (complete sub)); [done|]. pose proof (bring_spec sub w) as Hb. destruct (bring sub w) as [s w1].
    destruct Hb as (F & _ & R & _). destruct M as [M1 M2 M3]. pose proof (fr_fresh _ _ _ F). rewrite (fr_subs _ _ _ F).
    assert (M1' : muted c pane r w1).
    { constructor; [lia|rewrite (fr_maps _ _ _ F); [done|lia|set_solver]|by rewrite (fr_subs _ _ _ F)]. }
    set (l := upsert s _). assert (Ho : forall t, t ∈ l -> Agents t = Some r -> ClientID t = c).
    { intros t Ht Er. assert (Hts : t = s \/ t ∈ subscriptions w).
      { subst l. revert Ht. generalize (list_elem_of_filter (fun e => replaced replace (Endpoint s) e = false) (subscriptions w)).
        intros Hf. assert (forall k, t ∈ upsert s k -> t = s \/ t ∈ k).
        { clear. induction k as [|e k IH]; cbn; [set_solver|]. case_match; set_solver. }
        intros [->|Hk]%H0; [by left|]. apply Hf in Hk. tauto. }
      destruct Hts as [->|Ht']; [|by apply M3]. destruct (R r Er) as [-> _]. lia. }
    destruct M1'. destruct out; cbn; by constructor.
  - unfold Unsubscribe. destruct M as [M1 M2 M3]. destruct out; cbn; constructor; cbn; try done.
    intros s [_ Hs]%list_elem_of_filter. by apply M3.
  - unfold SetAgentPreference. repeat case_match; try done. apply updateClient_muted; try done.
    + intros. apply prefer_simple.
    + intros s w0 r' H3. by destruct (ap_agents _ _ (prefer_applies pane' state) s w0 r' H3) as [|[? _]]; auto.
    + intros. apply prefer_simple.
    + intros s w' Hs Hd. by apply (prefer_muted pane' state c d pane r w).
  - unfold SetAgentMode. repeat case_match; try done; apply updateClient_muted; cbn; auto.
Qed.

Lemma performs_muted c pane r ops : Forall (leaves c pane) ops -> forall w, muted c pane r w -> muted c pane r (performs w ops).
Proof. induction 1 as [|o ops Ho _ IH]; intros w M; [done|]. cbn. by apply IH, perform_muted. Qed.

Lemma sendLoop_muted c pane p copies : payloadPane p = pane -> pane <> ""%string -> forall turns w,
  Forall (fun t => Forall (leaves c pane) (before t)) turns ->
  Forall (fun s => ClientID s = c -> exists r, Agents s = Some r /\ muted c pane r w) copies ->
  Forall (fun sw => ClientID sw.1 <> c) (sendLoop p copies turns w).1.1.
Proof.
  intros Hp Hne. induction copies as [|s copies IH]; intros turns w Ht Hc; cbn [sendLoop]; [constructor|].
  apply Forall_cons in Hc as [Hs Hc]. set (t := default _ (head turns)).
  assert (Hb : Forall (leaves c pane) (before t)) by (subst t; destruct Ht; [constructor|done]).
  assert (Hm : forall r, muted c pane r w -> muted c pane r (performs w (before t))).
  { intros r. by apply performs_muted. }
  specialize (IH (tail turns) (performs w (before t)) ltac:(by destruct Ht)
    ltac:(eapply Forall_impl; [exact Hc|]; intros x Hx Ex; destruct (Hx Ex) as (r & ? & ?); eauto)).
  destruct (sendLoop p copies (tail turns) (performs w (before t))) as [[pushed dead] w'].
  destruct (String.eqb (payloadType p) "finished" && negb (NotifyFinished s)); [done|].
  destruct (negb (wantsIn (performs w (before t)) s (payloadPane p))) eqn:Ew; [done|]. constructor; [|done]. cbn. intros Ec.
  destruct (Hs Ec) as (r & Er & M). apply Hm in M. apply negb_false_iff in Ew. unfold wantsIn, wants, deref in Ew. rewrite Hp in Ew.
  rewrite (proj2 (String.eqb_neq _ _) Hne) in Ew. cbn [Agents set_Agents] in Ew. rewrite Er in Ew.
  cbn [fmap option_fmap option_map default from_option] in Ew. unfold id in Ew. by rewrite (mu_mute _ _ _ _ M) in Ew.
Qed.

(** C17: a muted agent stays silent for the client while a notification is being sent,
    whatever else happens: other phones may subscribe, leave or change their
    preferences, the client may change its mode, what it said about other agents and
    its subscription, and writes may fail; no message about the pane reaches a
    subscription of the client unless it changes its preference for this pane. *)
Theorem muted_is_silent ops out c pane p turns after out' :
  c <> ""%string -> pane <> ""%string -> payloadPane p = pane -> Forall (fun t => Forall (leaves c pane) (before t)) turns ->
  Forall (fun sw => ClientID sw.1 <> c) (Send out' p turns after (SetAgentPreference out c pane "mute" (performs start ops)).1).1.
Proof.
  intros Hc Hne Hp Ht. unfold Send. destruct (sendLoop _ _ _ _) as [[pushed dead] w2] eqn:E. cbn [fst].
  change pushed with (pushed, dead, w2).1.1. rewrite <- E. apply (sendLoop_muted c pane); [done|done|done|].
  clear E Ht. pose proof (performs_wf start ops start_wf) as Hw. generalize dependent (performs start ops). intros w Hw.
  unfold SetAgentPreference. rewrite (proj2 (String.eqb_neq _ _) Hc), (proj2 (String.eqb_neq _ _) Hne). cbn [orb negb].
  change (bool_decide ("mute"%string ∈ [""; "follow"; "mute"]%string)) with true. cbn [negb].
  destruct (updateClient_spec out c _ _ w (prefer_applies pane "mute") (preferred_Endpoint pane "mute") Hw) as (V & [[Hn Hb] _] & _).
  generalize dependent (updateClient out c (prefer pane "mute") w).1. intros w' V Hn Hb.
  assert (Hm : forall s, s ∈ subscriptions w' -> ClientID s = c -> exists r, Agents s = Some r /\ mapAt w' r !! pane = Some "mute"%string).
  { intros s [i Hi]%list_elem_of_lookup_1 Es. apply (f_equal (fun l => l !! i)) in V. unfold values in V. rewrite !list_lookup_fmap, Hi in V. cbn in V.
    destruct (subscriptions w !! i) as [t|]; [|done]. cbn in V. apply (inj Some) in V.
    assert (Et : ClientID t = c).
    { apply (f_equal ClientID) in V. cbn in V. rewrite Es in V. revert V. unfold ifClient, preferred. case_match eqn:Ei; [by apply String.eqb_eq in Ei|done]. }
    apply (f_equal Agents) in V. unfold ifClient in V. cbn in V. rewrite Et, String.eqb_refl in V. cbn in V.
    destruct (Agents s) as [r|]; [|done]. exists r. split; [done|]. cbn in V. apply (inj Some) in V. rewrite V. by rewrite lookup_insert_eq. }
  apply Forall_forall. intros s Hs Es. destruct (Hm s Hs Es) as (r & Er & Mr). exists r. split; [done|]. constructor; [by eapply (proj1 (Forall_forall _ _) Hb)|done|].
  intros t Ht Et. assert (t = s) as ->; [|done].
  destruct (list_elem_of_split _ _ Hs) as (l1 & l2 & El). rewrite El in Hn, Ht. unfold refs in Hn. rewrite omap_app in Hn. cbn in Hn. rewrite Er in Hn.
  apply NoDup_app in Hn as (_ & Hd & [Hd' _]%NoDup_cons). rewrite elem_of_app, elem_of_cons in Ht. destruct Ht as [Ht|[->|Ht]]; [|done|].
  - exfalso. apply (Hd r); [apply elem_agents; eauto|by left].
  - exfalso. apply Hd', elem_agents. eauto.
Qed.

(** ** Restarts *)

Definition text (s : string) : Prop := utf8_valid (bytes_of_string s) = true.
(** what arrives in JSON is text *)
Definition clean (s : Subscription Prefs) : Prop :=
  Forall text [Endpoint s; P256dh s; Auth s; UserAgent s; ClientID s; AgentMode s] /\ map_Forall (fun k v => text k /\ text v) (default ∅ (Agents s)).
Definition cleanOp (o : op) : Prop :=
  match o with
  | OpSubscribe _ sub _ => clean sub
  | OpPreference _ _ pane state => text pane /\ text state
  | OpUnsubscribe _ _ _ | OpMode _ _ _ => True
  end.

(** an empty map is left out of the file *)
Definition norm (s : Subscription Prefs) : Subscription Prefs :=
  set_Agents (if decide (default ∅ (Agents s) = ∅) then None else Agents s) s.

Lemma norm_agents s : default ∅ (Agents (norm s)) = default ∅ (Agents s).
Proof. unfold norm. cbn. by case_decide as E. Qed.

Lemma norm_norm s : norm (norm s) = norm s.
Proof. unfold norm at 1. rewrite norm_agents. unfold norm, set_Agents. cbn. by case_decide. Qed.

Lemma norm_wants s pane : wants (Agents (norm s)) (AgentMode (norm s)) pane = wants (Agents s) (AgentMode s) pane.
Proof. unfold wants. by rewrite norm_agents. Qed.

Lemma norm_clean s : clean (norm s) <-> clean s.
Proof. unfold clean. by rewrite norm_agents. Qed.

Lemma upsert_Forall {M} (P : Subscription M -> Prop) s l : P s -> Forall P l -> Forall P (upsert s l).
Proof. intros Hs. induction 1 as [|e l He Hl IH]; cbn; [by constructor|]. case_match; by constructor. Qed.

Lemma filter_Forall {M} (P Q : Subscription M -> Prop) `{forall x, Decision (Q x)} l : Forall P l -> Forall P (filter Q l).
Proof. rewrite !Forall_forall. intros Hl s [_ Hs]%list_elem_of_filter. by apply Hl. Qed.

Lemma listed_clean o l : cleanOp o -> Forall clean l -> Forall clean (listed o l).
Proof.
  intros Ho Hl. destruct o as [out sub replace|out endpoints c|out c pane state|out c mode]; cbn.
  - apply upsert_Forall; [done|]. by apply filter_Forall.
  - by apply filter_Forall.
  - apply Forall_fmap. eapply Forall_impl; [exact Hl|]. intros s [H1 H2]. unfold compose, ifClient, preferred. repeat case_match; try done.
    + split; [done|]. cbn. destruct (Agents s) as [m|]; cbn in *; [by apply map_Forall_delete|done].
    + split; [done|]. cbn. by apply map_Forall_insert_2.
  - apply Forall_fmap. eapply Forall_impl; [exact Hl|]. intros s [H1 H2]. unfold compose, ifClient. case_match; [|done]. split; [|done].
    rewrite !Forall_cons in *. cbn. destruct_and!. split_and!; try done. destruct (String.eqb_spec mode "followed") as [->|]; done.
Qed.

Lemma bringAll_spec l w : wf w -> NoDup ((Endpoint <$> subscriptions w) ++ (Endpoint <$> l)) ->
  values (bringAll l w) = values w ++ l /\ wf (bringAll l w) /\ disk (bringAll l w) = disk w.
Proof.
  revert w. induction l as [|sub l IH]; intros w Hw Hn; cbn; [by rewrite app_nil_r|].
  pose proof (bring_spec sub w) as Hb. destruct (bring sub w) as [s w1]. destruct Hb as (F & D & R & Ee & _). destruct Hw as [Ha He].
  set (w2 := set_subscriptions (subscriptions w1 ++ [s]) w1).
  assert (Ea : subscriptions w1 ++ [s] = upsert s (subscriptions w)).
  { rewrite (fr_subs _ _ _ F). rewrite fmap_cons in Hn. apply NoDup_app in Hn as (_ & Hd & _). clear -Hd Ee.
    induction (subscriptions w) as [|e k IH]; [done|]. cbn. destruct (String.eqb_spec (Endpoint e) (Endpoint s)) as [E|E].
    - exfalso. apply (Hd (Endpoint e)); [by left|]. rewrite E, Ee. by left.
    - f_equal. apply IH. intros x Hx. apply Hd. by right. }
  assert (Hw2 : wf w2).
  { constructor; cbn; rewrite Ea; [|by apply NoDup_upsert]. apply (upsert_apart (fresh w)); [apply (fr_fresh _ _ _ F)| |done].
    intros r Hs. destruct (R r Hs) as [-> ->]. lia. }
  assert (Hv : values w2 = values w ++ [sub]).
  { unfold values. cbn [w2 set_subscriptions subscriptions]. rewrite fmap_app, (fr_subs _ _ _ F). f_equal.
    - transitivity (deref w1 <$> subscriptions w); [done|]. apply (framed_derefs [] _ _ _ F (proj2 Ha)). set_solver.
    - cbn. f_equal. done. }
  destruct (IH w2 Hw2) as (V & W & Dk).
  { cbn. rewrite fmap_app, (fr_subs _ _ _ F). cbn. rewrite Ee, <- app_assoc. done. }
  change (values (bringAll l w2) = values w ++ sub :: l /\ wf (bringAll l w2) /\ disk (bringAll l w2) = disk w).
  split_and!; [|done|rewrite Dk; apply (fr_disk _ _ _ F)]. rewrite V, Hv, <- app_assoc. done.
Qed.

(** the file has the subscriptions *)
Definition saved (w : World) : Prop :=
  Forall clean (values w) /\
  ((disk w = None /\ subscriptions w = []) \/ exists l, disk w = Some (encode l) /\ Forall clean l /\ norm <$> l = norm <$> values w).

Lemma perform_saved w o : wf w -> saved w -> keeps o -> cleanOp o -> saved (perform w o).
Proof.
  intros Hw [Hc Hs] Hk Ho. destruct (perform_said w o Hw) as [_ [[V D]|[V D]]]; specialize (D Hk).
  - split; [by rewrite V|]. rewrite D, V. destruct Hs as [[Hd He]|Hs]; [left|by right]. split; [done|].
    apply fmap_nil_inv with (f := deref (perform w o)). fold (values (perform w o)). rewrite V. unfold values. by rewrite He.
  - assert (Hc' : Forall clean (values (perform w o))) by (rewrite V; by apply listed_clean). split; [done|]. right. eexists. split; [exact D|]. done.
Qed.

(** the file can be read *)
Definition filed (w : World) : Prop :=
  Forall clean (values w) /\ (disk w = None \/ exists l, disk w = Some (encode l) /\ Forall clean l /\ NoDup (Endpoint <$> l)).

Lemma listed_once o l : NoDup (Endpoint <$> l) -> NoDup (Endpoint <$> listed o l).
Proof.
  intros H. destruct o as [out sub replace|out endpoints c|out c pane state|out c mode]; cbn.
  - by apply NoDup_upsert, NoDup_endpoints_filter.
  - by apply NoDup_endpoints_filter.
  - rewrite <- list_fmap_compose. erewrite Forall_fmap_ext_1; [exact H|]. apply Forall_forall. intros s _. unfold compose, ifClient.
    case_match; [apply preferred_Endpoint|done].
  - rewrite <- list_fmap_compose. erewrite Forall_fmap_ext_1; [exact H|]. apply Forall_forall. intros s _. unfold compose, ifClient. by case_match.
Qed.

Lemma performed_filed w o : wf w -> filed w -> cleanOp o -> filed (perform w o).
Proof.
  intros Hw [Hc Hf] Ho. split.
  - destruct (perform_said w o Hw) as [_ [[-> _]|[-> _]]]; [done|by apply listed_clean].
  - destruct (perform_filed w o Hw) as [-> | ->]; [done|]. right. eexists. split_and!; [done|by apply listed_clean|].
    apply listed_once. rewrite values_endpoints. apply Hw.
Qed.

(** what happens to a relay *)
Inductive event := Do (o : op) | Restart.
Definition experience (w : World) (e : event) : World :=
  match e with Do o => perform w o | Restart => default w (load (disk w)) end.
Definition live (es : list event) : World := foldl experience (mkWorld [] ∅ 0 None) es.
Definition cleanEvent (e : event) : Prop := match e with Do o => cleanOp o | Restart => True end.
Definition careful (e : event) : Prop := match e with Do o => keeps o | Restart => True end.

(** JSON: the file that was written is read, an empty map as none *)
Context (decode_encode : forall l, Forall clean l -> decode (encode l) = Some (Some (norm <$> l))).

Lemma load_saved w : wf w -> saved w -> exists w', load (disk w) = Some w' /\ wf w' /\ saved w' /\ norm <$> values w' = norm <$> values w.
Proof.
  intros Hw [Hc [[Hd He]|(l & Hd & Hl & En)]].
  - rewrite Hd. cbn. eexists. split; [done|]. unfold values. rewrite He. split_and!; try done.
    + constructor; cbn; [split; [apply NoDup_nil_2|constructor]|apply NoDup_nil_2].
    + split; [constructor|by left].
  - rewrite Hd. cbn. rewrite decode_encode by done. cbn.
    destruct (bringAll_spec (norm <$> l) (mkWorld [] ∅ 0 (Some (encode l)))) as (V & W & D).
    + constructor; cbn; [split; [apply NoDup_nil_2|constructor]|apply NoDup_nil_2].
    + cbn. rewrite En, <- list_fmap_compose. change (NoDup (Endpoint <$> values w)). rewrite values_endpoints. apply Hw.
    + eexists. split; [done|]. cbn in V. split; [done|].
      assert (Hnn : norm <$> (norm <$> l) = norm <$> l) by (rewrite <- list_fmap_compose; apply Forall_fmap_ext_1, Forall_forall; intros; apply norm_norm).
      split; [|by rewrite V, Hnn]. split; [rewrite V; apply Forall_fmap; eapply Forall_impl; [exact Hl|]; intros s; apply norm_clean|].
      right. exists l. rewrite V, Hnn. done.
Qed.

Lemma load_filed w : filed w -> exists w', load (disk w) = Some w' /\ wf w' /\ saved w' /\ filed w'.
Proof.
  intros [_ Hd]. assert (H0 : forall d, wf (mkWorld [] ∅ 0 d)) by (intros d; constructor; cbn; [split; [apply NoDup_nil_2|constructor]|apply NoDup_nil_2]).
  destruct Hd as [Hd|(l & Hd & Hl & Hn)]; rewrite Hd; cbn.
  - eexists. split_and!; [done|done|split; [constructor|by left]|split; [constructor|by left]].
  - rewrite decode_encode by done. cbn. destruct (bringAll_spec (norm <$> l) (mkWorld [] ∅ 0 (Some (encode l)))) as (V & W & D); [done| |].
    { cbn. by rewrite <- list_fmap_compose. }
    assert (Hnn : norm <$> (norm <$> l) = norm <$> l) by (rewrite <- list_fmap_compose; apply Forall_fmap_ext_1, Forall_forall; intros; apply norm_norm).
    assert (Hc : Forall clean (norm <$> l)) by (apply Forall_fmap; eapply Forall_impl; [exact Hl|]; intros s; apply norm_clean).
    cbn in V, D. eexists. split_and!; [done|done| |]; (split; [by rewrite V|]); right; exists l; rewrite ?V, ?Hnn; done.
Qed.

Lemma live_filed es w : Forall cleanEvent es -> wf w -> filed w -> wf (foldl experience w es) /\ filed (foldl experience w es).
Proof.
  intros H. revert w. induction H as [|e es He _ IH]; intros w Hw Hf; cbn; [done|]. destruct e as [o|]; cbn.
  - apply IH; [by apply perform_said|by apply performed_filed].
  - destruct (load_filed w Hf) as (w' & -> & ? & ? & ?). by apply IH.
Qed.

Lemma live_saved es w : Forall cleanEvent es -> Forall careful es -> wf w -> saved w -> wf (foldl experience w es) /\ saved (foldl experience w es).
Proof.
  intros H Hc. revert w Hc. induction H as [|e es He _ IH]; intros w Hc Hw Hs; cbn; [done|]. apply Forall_cons in Hc as [Hc Hcs]. destruct e as [o|]; cbn.
  - apply IH; [done|by apply perform_said|by apply perform_saved].
  - destruct (load_saved w Hw Hs) as (w' & -> & ? & ? & _). by apply IH.
Qed.

Lemma start_filed : filed (mkWorld [] ∅ 0 None).
Proof. split; [constructor|by left]. Qed.

Lemma reload_same v : wf v -> saved v ->
  exists w, load (disk v) = Some w /\ Endpoint <$> subscriptions w = Endpoint <$> subscriptions v /\
    forall i s s', subscriptions v !! i = Some s -> subscriptions w !! i = Some s' ->
      (P256dh s', Auth s', ClientID s', NotifyFinished s') = (P256dh s, Auth s, ClientID s, NotifyFinished s) /\
      forall pane, wantsIn w s' pane = wantsIn v s pane.
Proof.
  intros Hw Hs. destruct (load_saved _ Hw Hs) as (w & El & _ & _ & En).
  exists w. split; [done|]. split.
  - rewrite <- !values_endpoints. apply (f_equal (fmap Endpoint)) in En. by rewrite <- !list_fmap_compose in En.
  - intros i s s' Hi Hi'. assert (E : norm (deref w s') = norm (deref v s)).
    { apply (f_equal (fun l => l !! i)) in En. unfold values in En. rewrite !list_lookup_fmap, Hi, Hi' in En. cbn in En. congruence. }
    split.
    + apply (f_equal (fun s => (P256dh s, Auth s, ClientID s, NotifyFinished s))) in E. done.
    + intros pane. unfold wantsIn. change (AgentMode s') with (AgentMode (deref w s')). change (AgentMode s) with (AgentMode (deref v s)).
      rewrite <- norm_wants, E, norm_wants. done.
Qed.

(** C32: the relay always starts again: after any subscriptions, removals, preferences
    and restarts, however their writes ended (not written, or written and reported as
    failed), the file can be read, and no endpoint is listed twice, before and after.
    And it starts with what it had: when since its last start no write was reported
    as failed after the file was in place and every preference and mode was written,
    the subscriptions are the same, in the same order, and each hears about the same
    agents.  ([refused_but_held]: a preference whose write failed holds in memory
    only.)  What the phones send is text. *)
Theorem restart_keeps es es' : Forall cleanEvent es -> Forall cleanEvent es' ->
  (NoDup (Endpoint <$> subscriptions (live es)) /\ exists w, load (disk (live es)) = Some w /\ NoDup (Endpoint <$> subscriptions w)) /\
  (Forall careful es' ->
   exists w, load (disk (live (es ++ Restart :: es'))) = Some w /\
    Endpoint <$> subscriptions w = Endpoint <$> subscriptions (live (es ++ Restart :: es')) /\
    forall i s s', subscriptions (live (es ++ Restart :: es')) !! i = Some s -> subscriptions w !! i = Some s' ->
      (P256dh s', Auth s', ClientID s', NotifyFinished s') = (P256dh s, Auth s, ClientID s, NotifyFinished s) /\
      forall pane, wantsIn w s' pane = wantsIn (live (es ++ Restart :: es')) s pane).
Proof.
  intros H H'. destruct (live_filed es (mkWorld [] ∅ 0 None) H start_wf start_filed) as [Hw Hf]. fold (live es) in Hw, Hf.
  destruct (load_filed _ Hf) as (w0 & El & Hw0 & Hs0 & _). split; [split; [apply Hw|]; exists w0; split; [done|apply Hw0]|]. intros Hc.
  assert (E0 : live (es ++ Restart :: es') = foldl experience w0 es').
  { unfold live. rewrite foldl_app. cbn. change (foldl experience (mkWorld [] ∅ 0 None) es) with (live es). by rewrite El. }
  rewrite E0. destruct (live_saved es' w0 H' Hc Hw0 Hs0) as [Hw1 Hs1]. by apply reload_same.
Qed.
End Manager.

(** ** The link of a notification on the phone *)

Definition hexValue (c : Z) : option Z :=
  if (48 <=? c) && (c <=? 57) then Some (c - 48) else if (65 <=? c) && (c <=? 70) then Some (c - 55)
  else if (97 <=? c) && (c <=? 102) then Some (c - 87) else None.

Fixpoint percentDecode (l : bytes) : option bytes :=
  match l with
  | [] => Some []
  | c :: rest =>
      if c =? 37 then
        match rest with
        | a :: b :: rest => let? hi := hexValue a in let? lo := hexValue b in let? r := percentDecode rest in Some (hi * 16 + lo :: r)
        | _ => None
        end
      else let? r := percentDecode rest in Some (c :: r)
  end.

(** [decodeURIComponent] of a text in ASCII: a plus is a plus *)
Definition decodeURIComponent (l : bytes) : option bytes :=
  let? r := percentDecode l in if utf8_valid r then Some r else None.

Fixpoint after (p s : string) : option string :=
  match p, s with
  | EmptyString, _ => Some s
  | String a p, String b s => if Ascii.eqb a b then after p s else None
  | _, _ => None
  end.

Section Phone.
(** [JSON.parse] and [trim] of JavaScript; a field that is missing is empty *)
Context (parse : bytes -> option Target) (trim : string -> string).

Definition parseNotificationTarget (value : string) : option Target :=
  let? text := decodeURIComponent (bytes_of_string value) in
  let? parsed := parse text in
  let paneId := trim (t_PaneID parsed) in
  let host := trim (t_Host parsed) in
  let action := if bool_decide (t_Action parsed ∈ ["approve"; "deny"]%string) then t_Action parsed else ""%string in
  let notificationId := String.substring 0 120 (trim (t_NotificationID parsed)) in
  if String.eqb paneId "" then None
  else if negb (String.eqb action "") &&
          (match t_Index parsed, t_Total parsed with
           | Some index, Some total => (index <? 0) || (total <=? index) || (total <? 2) || (20 <? total)
           | _, _ => true
           end)
  then None
  else Some (mkTarget host paneId notificationId action (t_Index parsed) (t_Total parsed)).

(** the view that a link opens; [None] is the list of agents *)
Definition openLink (link : string) : option Target := let? v := after "./#notify=" link in parseNotificationTarget v.

Context (marshal : Target -> bytes).

(** what a host, a pane and an event look like: text without blanks around and spaces *)
Definition plain (s : string) : Prop := text s /\ trim s = s /\ 32 ∉ bytes_of_string s.
Definition plainTarget (t : Target) : Prop := plain (t_Host t) /\ plain (t_PaneID t) /\ plain (t_NotificationID t) /\ plain (t_Action t).

(** JSON is text, has no spaces of its own, and is read as it was written *)
Record MarshalLaws : Prop := mkMarshalLaws {
  ml_bytes : forall t, Forall is_byte (marshal t);
  ml_text : forall t, plainTarget t -> utf8_valid (marshal t) = true;
  ml_spaces : forall t, plainTarget t -> 32 ∉ marshal t;
  ml_parse : forall t, plainTarget t -> parse (marshal t) = Some t }.

Lemma after_app p s : after p (p ++ s)%string = Some s.
Proof. induction p as [|a p IH]; [done|]. change (String a p ++ s)%string with (String a (p ++ s)). cbn. by rewrite Ascii.eqb_refl. Qed.

Lemma hexValue_digit v : 0 <= v < 16 -> hexValue (hexDigit v) = Some v.
Proof. intros H. assert (Hv : v = 0 \/ v = 1 \/ v = 2 \/ v = 3 \/ v = 4 \/ v = 5 \/ v = 6 \/ v = 7 \/ v = 8 \/ v = 9 \/ v = 10 \/ v = 11 \/ v = 12 \/ v = 13 \/ v = 14 \/ v = 15) by lia.
  naive_solver. Qed.

Lemma percentDecode_escape l : Forall is_byte l -> 32 ∉ l -> percentDecode (QueryEscape l) = Some l.
Proof.
  induction 1 as [|b l Hb _ IH]; intros Hn; [done|]. rewrite not_elem_of_cons in Hn. destruct Hn as [H32 Hn]. specialize (IH Hn).
  change (QueryEscape (b :: l)) with (escapeByte b ++ QueryEscape l). unfold escapeByte. destruct (unreserved b) eqn:Eu; cbn [app].
  - cbn [percentDecode]. rewrite (proj2 (Z.eqb_neq b 37)), IH; [done|]. intros ->. done.
  - rewrite (proj2 (Z.eqb_neq b 32)) by done. cbn [app percentDecode]. rewrite Z.eqb_refl. unfold is_byte in Hb.
    rewrite !hexValue_digit by (split; [apply Z.div_pos || apply Z.mod_pos_bound|apply Z.div_lt_upper_bound || apply Z.mod_pos_bound]; lia).
    cbn. rewrite IH. cbn. repeat f_equal. pose proof (Z.div_mod b 16). lia.
Qed.

Lemma escaped_bytes l : Forall is_byte l -> Forall is_byte (QueryEscape l).
Proof.
  induction 1 as [|b l Hb _ IH]; [constructor|]. change (QueryEscape (b :: l)) with (escapeByte b ++ QueryEscape l). apply Forall_app. split; [|done].
  unfold escapeByte. unfold is_byte in *. pose proof (Z.mod_pos_bound b 16). pose proof (Z.div_lt_upper_bound b 16 16). pose proof (Z.div_pos b 16).
  repeat case_match; repeat constructor; unfold hexDigit; repeat case_match; zb; lia.
Qed.

Lemma openLink_spec host paneID eventID action index total : MarshalLaws -> plain host -> plain paneID -> plain eventID -> plain action ->
  paneID <> ""%string -> (String.length eventID <= 120)%nat -> action ∈ [""; "approve"]%string ->
  openLink (notificationURL marshal host paneID eventID action index total) =
    if negb (String.eqb action "") && ((index <? 0) || (total <=? index) || (total <? 2) || (20 <? total)) then None
    else Some (targetOf host paneID eventID action index total).
Proof.
  intros L Hh Hp He Ha Hne Hlen Hin. unfold openLink, notificationURL. rewrite after_app. cbn [mbind option_bind].
  set (t := targetOf host paneID eventID action index total). assert (Ht : plainTarget t) by done.
  unfold parseNotificationTarget, decodeURIComponent. rewrite bytes_string_bytes by (apply escaped_bytes, L).
  rewrite percentDecode_escape by (apply L; done). cbn [mbind option_bind]. rewrite (ml_text L t Ht). cbn [mbind option_bind].
  rewrite (ml_parse L t Ht). cbn [mbind option_bind]. subst t. unfold targetOf.
  cbn [t_PaneID t_Host t_NotificationID t_Action t_Index t_Total]. destruct Hh as (_ & -> & _), Hp as (_ & -> & _), He as (_ & -> & _).
  rewrite (proj2 (String.eqb_neq _ _) Hne).
  assert (Hs : String.substring 0 120 eventID = eventID).
  { clear -Hlen. revert Hlen. generalize 120%nat. intros n. revert n. induction eventID as [|a s IH]; intros [|n] H; cbn in *; try lia; try done. f_equal. apply IH. lia. }
  rewrite Hs. rewrite !elem_of_cons in Hin. destruct Hin as [->|[->|[]%elem_of_nil]]; cbn; [done|].
  destruct (_ || (20 <? total)); done.
Qed.

(** A tap on a notification opens the agent it is about: the link of every message
    of the relay is read on the phone as the host, the pane and the event it was made
    with, and the button "Approve once" of a prompt with 2 to 20 choices as the
    approval of its first choice.  A prompt with more choices has a button whose link
    the phone refuses.  (The names contain no spaces.) *)
Theorem link_opens_agent agent project command eventID paneID host kind total : MarshalLaws ->
  plain host -> plain paneID -> plain eventID -> plain "approve"%string -> plain ""%string -> paneID <> ""%string -> (String.length eventID <= 120)%nat ->
  openLink (url (BuildAttentionPayload marshal agent project command eventID paneID host kind total)) = Some (targetOf host paneID eventID "" 0 0) /\
  openLink (url (BuildFinishedPayload marshal agent project paneID host eventID)) = Some (targetOf host paneID eventID "" 0 0) /\
  (forall link, action_urls (BuildAttentionPayload marshal agent project command eventID paneID host kind total) !! "approve"%string = Some link ->
     kind = "approval"%string /\ 2 <= total /\
     openLink link = if total <=? 20 then Some (targetOf host paneID eventID "approve" 0 total) else None).
Proof.
  intros L Hh Hp He Ha Hn Hne Hlen.
  split_and!; [cbn [url BuildAttentionPayload BuildFinishedPayload]; rewrite openLink_spec by (done || by left); done..|].
  intros link. cbn [action_urls BuildAttentionPayload]. destruct (String.eqb_spec kind "approval") as [->|]; cbn [andb]; [|done].
  destruct (Z.leb_spec 2 total) as [H2|]; [|done]. rewrite lookup_singleton_eq. intros [= <-]. split_and!; [done|done|].
  rewrite openLink_spec by (done || by right; left). cbn [negb]. rewrite (proj2 (String.eqb_neq "approve" "")) by done. cbn [negb andb].
  rewrite (proj2 (Z.ltb_ge 0 0)), (proj2 (Z.leb_gt total 0)), (proj2 (Z.ltb_ge total 2)) by lia. cbn [orb].
  destruct (Z.leb_spec total 20) as [Ht|Ht]; [by rewrite (proj2 (Z.ltb_ge 20 total))|by rewrite (proj2 (Z.ltb_lt 20 total))].
Qed.
End Phone.

(** The relay tells the two kinds of messages apart: what it builds for a finished
    agent only goes to those who want to hear of it, and what it builds for an agent
    that waits goes to everyone who wants the agent, unless the name of the host
    itself begins with "finished-". *)
Theorem kinds_told_apart marshal agent project command eventID paneID host kind total :
  payloadType (BuildFinishedPayload marshal agent project paneID host eventID) = "finished"%string /\
  (payloadType (BuildAttentionPayload marshal agent project command eventID paneID host kind total) = "finished"%string <->
   String.prefix "finished-" (host ++ "-" ++ paneID) = true) /\
  payloadPane (BuildAttentionPayload marshal agent project command eventID paneID host kind total) = paneID.
Proof.
  unfold payloadType. cbn [dataType tag BuildFinishedPayload BuildAttentionPayload String.eqb andb].
  change ("herdr-finished-" ++ host ++ "-" ++ paneID)%string with ("herdr-" ++ ("finished-" ++ host ++ "-" ++ paneID))%string.
  assert (Hp : forall s, String.prefix "herdr-finished-" ("herdr-" ++ s) = String.prefix "finished-" s) by done.
  assert (Hr : forall p s, String.prefix p (p ++ s) = true).
  { induction p as [|a p IH]; intros s; [by destruct s|]. change (String a p ++ s)%string with (String a (p ++ s)). cbn.
    destruct (Ascii.ascii_dec a a); [apply IH|done]. }
  rewrite !Hp, (Hr "finished-"%string). split_and!; [done| |done]. destruct (String.prefix _ (host ++ _)); done.
Qed.

(** ** The key pair of the relay *)

Section Keys.
(** the encodings of keys: PEM, or base64 of older files, and the public key of a private one *)
Context {Private Public : Type} `{EqDecision Public}.
Context (parseVAPIDPrivateKey : bytes -> option Private) (parseVAPIDPublicKey : bytes -> option Public).
Context (deriveVAPIDPublic : Private -> Public) (privatePEM : Private -> bytes) (publicPEM : Public -> bytes).

Record Files := mkFiles { privFile : option bytes; pubFile : option bytes }.
(** whether the files can be read (one that is missing can), how the writes end, whether the mode can be set, and the new key *)
Record Start := mkStart { readPriv : bool; readPub : bool; writePriv : written; writePub : written; chmod : bool; generated : option Private }.

Inductive keyError :=
  | PrivateUnreadable | PublicUnreadable | PrivateMissing | PrivateInvalid | DerivedNotWritten | PublicInvalid | Mismatch
  | NotProtected | NotGenerated | PrivateNotWritten | PublicNotWritten.

Definition write (out : written) (data : bytes) (old : option bytes) : option bytes * bool :=
  match out with Written => (Some data, true) | NotWritten => (old, false) | Unsynced => (Some data, false) end.

Definition loadOrGenerateVAPIDKeys (s : Start) (fs : Files) : Files * (keyError + Private * Public) :=
  if negb (readPriv s) then (fs, inl PrivateUnreadable)
  else if negb (readPub s) then (fs, inl PublicUnreadable)
  else match privFile fs, pubFile fs with
  | None, Some _ => (fs, inl PrivateMissing)
  | Some privData, pub =>
      match parseVAPIDPrivateKey privData with
      | None => (fs, inl PrivateInvalid)
      | Some key =>
          let derived := deriveVAPIDPublic key in
          match pub with
          | None =>
              let (f, ok) := write (writePub s) (publicPEM derived) None in
              let fs := mkFiles (privFile fs) f in
              if negb ok then (fs, inl DerivedNotWritten)
              else if negb (chmod s) then (fs, inl NotProtected) else (fs, inr (key, derived))
          | Some pubData =>
              match parseVAPIDPublicKey pubData with
              | None => (fs, inl PublicInvalid)
              | Some public =>
                  if negb (bool_decide (public = derived)) then (fs, inl Mismatch)
                  else if negb (chmod s) then (fs, inl NotProtected) else (fs, inr (key, derived))
              end
          end
      end
  | None, None =>
      match generated s with
      | None => (fs, inl NotGenerated)
      | Some key =>
          let (f, ok) := write (writePriv s) (privatePEM key) None in
          let fs := mkFiles f None in
          if negb ok then (fs, inl PrivateNotWritten)
          else let (g, ok) := write (writePub s) (publicPEM (deriveVAPIDPublic key)) None in
               let fs := mkFiles f g in
               if negb ok then (fs, inl PublicNotWritten) else (fs, inr (key, deriveVAPIDPublic key))
      end
  end.

(** the files after some starts, and the key pairs the relay ran with *)
Fixpoint starts (l : list Start) (fs : Files) : Files * list (Private * Public) :=
  match l with
  | [] => (fs, [])
  | s :: l => let (fs, r) := loadOrGenerateVAPIDKeys s fs in
              let (fs, keys) := starts l fs in
              (fs, match r with inr k => k :: keys | inl _ => keys end)
  end.

Context (parse_private : forall k, parseVAPIDPrivateKey (privatePEM k) = Some k) (parse_public : forall p, parseVAPIDPublicKey (publicPEM p) = Some p).

(** the files have the key, or its private half *)
Definition holds (key : Private) (fs : Files) : Prop :=
  privFile fs = Some (privatePEM key) /\ (pubFile fs = None \/ pubFile fs = Some (publicPEM (deriveVAPIDPublic key))).
Definition working (s : Start) : Prop :=
  readPriv s = true /\ readPub s = true /\ writePriv s = Written /\ writePub s = Written /\ chmod s = true /\ is_Some (generated s).

Lemma start_holds key s fs : holds key fs ->
  holds key (loadOrGenerateVAPIDKeys s fs).1 /\
  (forall k, (loadOrGenerateVAPIDKeys s fs).2 = inr k -> k = (key, deriveVAPIDPublic key)) /\
  (working s -> (loadOrGenerateVAPIDKeys s fs).2 = inr (key, deriveVAPIDPublic key)).
Proof.
  destruct fs as [pr pu]. intros [Hpr Hpu]. cbn in Hpr, Hpu. subst pr. unfold loadOrGenerateVAPIDKeys, working, holds. cbn [privFile pubFile].
  destruct (readPriv s); cbn [negb]; [|split_and!; naive_solver]. destruct (readPub s); cbn [negb]; [|split_and!; naive_solver].
  rewrite parse_private. destruct Hpu as [->| ->].
  - destruct (writePub s), (chmod s); cbn; split_and!; naive_solver.
  - rewrite parse_public. rewrite (bool_decide_eq_true_2 (deriveVAPIDPublic key = _)) by done. cbn [negb].
    destruct (chmod s); cbn; split_and!; naive_solver.
Qed.

Lemma start_fresh s : (loadOrGenerateVAPIDKeys s (mkFiles None None)).1 = mkFiles None None /\
    (forall k, (loadOrGenerateVAPIDKeys s (mkFiles None None)).2 <> inr k) /\ ~ working s \/
  exists key, holds key (loadOrGenerateVAPIDKeys s (mkFiles None None)).1 /\
    (forall k, (loadOrGenerateVAPIDKeys s (mkFiles None None)).2 = inr k -> k = (key, deriveVAPIDPublic key)) /\
    (working s -> (loadOrGenerateVAPIDKeys s (mkFiles None None)).2 = inr (key, deriveVAPIDPublic key)).
Proof.
  unfold loadOrGenerateVAPIDKeys, working, holds. cbn.
  destruct (readPriv s); cbn [negb]; [|left; split_and!; try done; naive_solver]. destruct (readPub s); cbn [negb]; [|left; split_and!; try done; naive_solver].
  destruct (generated s) as [key|]; cbn; [|left; split_and!; try done; naive_solver].
  destruct (writePriv s); cbn.
  - right. exists key. destruct (writePub s); cbn; split_and!; naive_solver.
  - left. split_and!; try done. naive_solver.
  - right. exists key. split_and!; naive_solver.
Qed.

Lemma starts_hold key l : forall fs, holds key fs ->
  holds key (starts l fs).1 /\ Forall (fun k => k = (key, deriveVAPIDPublic key)) (starts l fs).2.
Proof.
  induction l as [|s l IH]; intros fs H; cbn; [done|]. destruct (start_holds key s fs H) as (H1 & H2 & _).
  destruct (loadOrGenerateVAPIDKeys s fs) as [fs1 r]. cbn in *. destruct (IH fs1 H1) as [H3 H4]. destruct (starts l fs1) as [fs2 ks]. cbn in *.
  split; [done|]. destruct r as [e|k]; [done|]. constructor; [by apply H2|done].
Qed.

(** The relay keeps one identity towards the push services: however its starts end
    (unreadable files, writes that fail or are not synced, a crash between the two
    files), it never runs with two different key pairs, the pair always fits
    together, and once the disk works a start succeeds with the same pair. *)
Theorem one_identity l s : working s ->
  exists key, Forall (fun k => k = (key, deriveVAPIDPublic key)) (starts l (mkFiles None None)).2 /\
    (loadOrGenerateVAPIDKeys s (starts l (mkFiles None None)).1).2 = inr (key, deriveVAPIDPublic key).
Proof.
  intros Hs. induction l as [|t l IH]; cbn.
  - destruct (start_fresh s) as [(_ & _ & Hn)|(key & _ & _ & Hk)]; [done|]. exists key. split; [constructor|by apply Hk].
  - destruct (start_fresh t) as [(E & Hn & _)|(key & Hh & Hk & _)]; destruct (loadOrGenerateVAPIDKeys t (mkFiles None None)) as [fs r]; cbn in *.
    + subst fs. destruct (starts l (mkFiles None None)) as [fs2 ks]. destruct IH as (key & ? & ?). exists key. destruct r as [e|k]; [done|]. by destruct (Hn k).
    + destruct (starts_hold key l fs Hh) as [H1 H2]. destruct (starts l fs) as [fs2 ks]. cbn in *. exists key. split.
      * destruct r as [e|k]; [done|]. constructor; [by apply Hk|done].
      * by apply start_holds.
Qed.
End Keys.

(** ** Instances *)

Module ToyPush.
Definition toySub (endpoint client : string) : Subscription Prefs := mkSub endpoint "key" "auth" "phone" false client "" None.
(** JSON with the value itself for text; an empty map is left out *)
Definition toyEncode (l : list pythonSubscription) : list pythonSubscription := norm <$> l.
Definition toyDecode (l : list pythonSubscription) : option (option (list pythonSubscription)) := Some (Some l).
Definition toyDecodeList (l : list pythonSubscription) : option (list (Subscription Prefs)) := None.
Definition toyOps : list op :=
  [OpSubscribe Written (toySub "e1" "c1") []; OpSubscribe Written (toySub "e2" "c2") []; OpPreference Written "c1" "p1" "mute"].
Definition toyWorld : World := performs toyEncode start toyOps.

(** subscribing again, as the phone does whenever it connects, forgets what was said about the agents *)
Example subscribing_forgets :
  wantsIn toyWorld (nth 0 (subscriptions toyWorld) (mkSub "" "" "" "" false "" "" None)) "p1" = false /\
  (exists w s, Subscribe toyEncode Written (toySub "e1" "c1") [] toyWorld = (w, true) /\ subscriptions w !! 0%nat = Some s /\
     ClientID s = "c1"%string /\ wantsIn w s "p1" = true).
Proof. split; [vm_compute; reflexivity|]. do 2 eexists. split_and!; [reflexivity|reflexivity|reflexivity|vm_compute; reflexivity]. Qed.

(** a preference that could not be written is refused, and holds until the relay restarts *)
Example refused_but_held :
  exists w, SetAgentPreference toyEncode NotWritten "c2" "p1" "mute" toyWorld = (w, None) /\ disk w = disk toyWorld /\
    (exists s, subscriptions w !! 1%nat = Some s /\ wantsIn w s "p1" = false) /\
    (exists w' s, load toyDecode toyDecodeList (disk w) = Some w' /\ subscriptions w' !! 1%nat = Some s /\ wantsIn w' s "p1" = true).
Proof.
  eexists. split; [reflexivity|]. split; [reflexivity|]. split; [eexists; split; [reflexivity|vm_compute; reflexivity]|].
  do 2 eexists. split_and!; [reflexivity|reflexivity|vm_compute; reflexivity].
Qed.

(** on such a host nobody who did not ask for finished agents hears of one that waits *)
Example host_named_finished :
  payloadType (BuildAttentionPayload (fun _ => []) "claude" "repo" "rm" "ev" "p1" "finished-box" "approval" 2) = "finished"%string.
Proof. vm_compute. reflexivity. Qed.

Definition toyMarshal (t : Target) : bytes := bytes_of_string (t_Host t ++ "/" ++ t_PaneID t).
Definition toyRead (l : bytes) : option Target := Some (mkTarget (string_of_bytes l) "p1" "" "" None None).

(** a space is a plus in the link, and stays one on the phone *)
Example space_becomes_plus :
  t_Host <$> openLink toyRead (fun s => s) (notificationURL toyMarshal "my host" "p1" "ev" "" 0 0) = Some "my+host/p1"%string.
Proof. vm_compute. reflexivity. Qed.

(** more than twenty choices: the relay offers a button that the phone does not understand *)
Example too_many_choices :
  openLink (fun _ => Some (targetOf "h" "p1" "ev" "approve" 0 21)) (fun s => s) (notificationURL toyMarshal "h" "p1" "ev" "approve" 0 21) = None.
Proof. vm_compute. reflexivity. Qed.

Lemma toy_clean : Forall cleanEvent (Do <$> toyOps).
Proof. apply Forall_cons_2; [|apply Forall_cons_2; [|apply Forall_cons_2; [|apply Forall_nil_2]]]; (split; [|try apply map_Forall_empty]); repeat constructor. Defined.

Lemma toy_careful : Forall careful (Do <$> toyOps).
Proof. repeat constructor; discriminate. Defined.

Lemma restart_keeps_witness :
  exists w, load toyDecode toyDecodeList (disk (live toyEncode toyDecode toyDecodeList (Do (OpMode Unsynced "c1" "all") :: Restart :: (Do <$> toyOps)))) = Some w /\
    Endpoint <$> subscriptions w = ["e1"; "e2"]%string.
Proof.
  destruct (restart_keeps toyEncode toyDecode toyDecodeList (fun l _ => eq_refl) [Do (OpMode Unsynced "c1" "all")] (Do <$> toyOps)
    (proj2 (Forall_singleton cleanEvent (Do (OpMode Unsynced "c1" "all"))) I) toy_clean) as [_ H].
  destruct (H toy_careful) as (w & H1 & H2 & _). exists w. split; [exact H1|]. rewrite H2. vm_compute. reflexivity.
Defined.

Lemma preference_exact_witness :
  exists s', subscriptions (SetAgentPreference toyEncode Written "c1" "p2" "mute" toyWorld).1 !! 0%nat = Some s' /\
    wantsIn (SetAgentPreference toyEncode Written "c1" "p2" "mute" toyWorld).1 s' "p2" = false.
Proof.
  eexists. split; [reflexivity|].
  destruct (preference_exact toyEncode toyOps Written "c1" "p2" "mute" ltac:(done) ltac:(done) ltac:(by do 2 right; left)) as [_ H].
  specialize (H 0%nat _ _ eq_refl eq_refl). exact (proj2 H "p2"%string).
Defined.

Lemma muted_is_silent_witness :
  Forall (fun t => Forall (leaves "c2" "p1") (before t)) [mkTurn [OpMode Written "c2" "all"] Delivered] /\
  Forall (fun sw => ClientID sw.1 <> "c2"%string)
    (Send toyEncode Written (BuildAttentionPayload toyMarshal "claude" "repo" "rm" "ev" "p1" "h" "approval" 2)
       [mkTurn [OpMode Written "c2" "all"] Delivered] [] (SetAgentPreference toyEncode Written "c2" "p1" "mute" toyWorld).1).1.
Proof.
  split; [repeat constructor|].
  apply (muted_is_silent toyEncode toyOps Written "c2" "p1"); [done|done|reflexivity|repeat constructor].
Defined.

(** a target as the bits of its number *)
Fixpoint bits (p : positive) : bytes := match p with xH => [] | xO p => 48 :: bits p | xI p => 49 :: bits p end.
Fixpoint unbits (l : bytes) : positive := match l with [] => xH | b :: l => if b =? 48 then xO (unbits l) else xI (unbits l) end.
Definition tuple (t : Target) := (t_Host t, t_PaneID t, t_NotificationID t, t_Action t, t_Index t, t_Total t).
Definition untuple (x : string * string * string * string * option Z * option Z) : Target :=
  let '(a, b, c, d, e, f) := x in mkTarget a b c d e f.
Definition bitMarshal (t : Target) : bytes := bits (encode (tuple t)).
Definition bitParse (l : bytes) : option Target := untuple <$> decode (unbits l).

Lemma bits_digits p : Forall (fun b => b = 48 \/ b = 49) (bits p).
Proof. induction p as [p IH|p IH|]; [constructor; [by right|done]|constructor; [by left|done]|constructor]. Defined.

Lemma unbits_bits p : unbits (bits p) = p.
Proof. induction p as [p IH|p IH|]; cbn; rewrite ?IH; done. Defined.

Lemma toy_laws : MarshalLaws bitParse (fun s => s) bitMarshal.
Proof.
  assert (Hd : forall t, Forall (fun b => b = 48 \/ b = 49) (bitMarshal t)) by (intros t; apply bits_digits).
  constructor.
  - intros t. eapply Forall_impl; [apply Hd|]. intros b Hb. unfold is_byte. cbn in Hb. lia.
  - intros t _. specialize (Hd t). induction Hd as [|b l [->| ->] _ IH]; [done|exact IH|exact IH].
  - intros t _ Hin. pose proof (proj1 (Forall_forall _ _) (Hd t) 32 Hin) as Hb. cbn in Hb. lia.
  - intros t _. unfold bitParse, bitMarshal. rewrite unbits_bits, decode_encode. by destruct t.
Defined.

Lemma link_opens_agent_witness :
  openLink bitParse (fun s => s) (url (BuildFinishedPayload bitMarshal "claude" "repo" "p1" "box" "ev")) = Some (targetOf "box" "p1" "ev" "" 0 0) /\ 2 <= 3.
Proof.
  split; [|lia].
  assert (H : forall s, s ∈ ["box"; "p1"; "ev"; "approve"; ""]%string -> plain (fun s => s) s).
  { intros s Hs. rewrite !elem_of_cons in Hs. destruct Hs as [->|[->|[->|[->|[->|[]%elem_of_nil]]]]];
      (split; [reflexivity|split; [reflexivity|]]); apply (bool_decide_unpack _); vm_compute; exact I. }
  apply (link_opens_agent bitParse (fun s => s) bitMarshal "claude" "repo" "rm" "ev" "p1" "box" "approval" 3 toy_laws);
    [apply H; set_solver..|done|cbn; lia].
Defined.

Lemma one_identity_witness :
  exists key, (loadOrGenerateVAPIDKeys (fun l => head l) (fun l => head l) (fun k => k + 1) (fun k => [k]) (fun k => [k])
    (mkStart true true Written Written true (Some 7))
    (starts (fun l => head l) (fun l => head l) (fun k => k + 1) (fun k => [k]) (fun k => [k]) [mkStart true true Unsynced Written true (Some 5)] (mkFiles None None)).1).2
    = inr (key, key + 1) /\ key = 5.
Proof.
  destruct (one_identity (fun l => head l) (fun l => head l) (fun k => k + 1) (fun k => [k]) (fun k => [k]) (fun _ => eq_refl) (fun _ => eq_refl)
    [mkStart true true Unsynced Written true (Some 5)] (mkStart true true Written Written true (Some 7)) ltac:(by repeat split; eexists)) as (key & _ & H).
  exists key. split; [exact H|]. vm_compute in H. congruence.
Defined.
End ToyPush.
End Push.
