(* ===== verification/Release.v ===== *)
(** Releases of the relay ([internal/release/manifest.go], [compatibility.go]) and how
    an update stages one ([internal/update/stage.go]): paths that stay below their
    root, the extraction of an archive, manifests that describe a tree exactly, and
    the transports that keep apps and relays connected.

    Parameters are SHA-256, JSON and what the operating system answers about a path;
    gzip and HTTP only deliver the bytes that are named here. *)
From Stdlib Require Import Ascii.
From stdpp Require Import sorting.
From S2P Require Import Prelude GoLib GoText Gate Push.
#[local] Open Scope Z_scope.

Module Release.

(** ** Paths *)

Definition dot : bytes := [46].
Definition dotdot : bytes := [46; 46].

(** [strings.Join] with a slash *)
Fixpoint join (l : list bytes) : bytes :=
  match l with
  | [] => []
  | [c] => c
  | c :: l => c ++ slash :: join l
  end.

(** one element of [path.Clean]; the stack has the last element first *)
Definition push (rooted : bool) (stack : list bytes) (c : bytes) : list bytes :=
  if bool_decide (c = []) || bool_decide (c = dot) then stack
  else if bool_decide (c = dotdot) then
    match stack with
    | top :: rest => if bool_decide (top = dotdot) then c :: stack else rest
    | [] => if rooted then [] else [c]
    end
  else c :: stack.

Definition IsAbs (p : bytes) : bool := match p with b :: _ => b =? slash | [] => false end.
Definition cleanParts (p : bytes) : list bytes := rev (foldl (push (IsAbs p)) [] (splitByte slash p)).
(** [path.Clean] *)
Definition Clean (p : bytes) : bytes :=
  let body := join (cleanParts p) in
  if IsAbs p then slash :: body else if bool_decide (body = []) then dot else body.

(** [strings.HasPrefix(p, "../")] *)
Definition climbs (p : bytes) : bool := bool_decide (take 3 p = [46; 46; 47]).

(** a path of a manifest *)
Definition cleanRelative (name : bytes) : option bytes :=
  if bool_decide (name = []) || bool_decide (92 ∈ name) || IsAbs name then None
  else let clean := Clean name in
       if bool_decide (clean = dot) || bool_decide (clean = dotdot) || climbs clean then None else Some clean.

(** a path of an archive: [Some []] is the root itself *)
Definition cleanArchivePath (name : bytes) : option bytes :=
  let clean := Clean name in
  if bool_decide (clean = dot) then Some []
  else if IsAbs clean || bool_decide (clean = dotdot) || climbs clean then None
  else Some (if bool_decide (take 2 clean = [46; 47]) then drop 2 clean else clean).

(** ** Paths that stay below *)

(** an element names a file or directory of the directory it is used in *)
Definition element (c : bytes) : Prop := c <> [] /\ c <> dot /\ c <> dotdot /\ slash ∉ c.
Definition inside (l : list bytes) : Prop := l <> [] /\ Forall element l.

Lemma split_no_slash p : Forall (fun c => slash ∉ c) (splitByte slash p).
Proof.
  induction p as [|b p IH]; cbn; [repeat constructor; set_solver|]. destruct (Z.eqb_spec b slash) as [->|Hb]; [constructor; [set_solver|done]|].
  destruct (splitByte slash p) as [|c l]; [repeat constructor; set_solver|]. inversion IH; subst. constructor; [set_solver|done].
Qed.

Lemma split_cons_no_slash c p : slash ∉ c -> splitByte slash (c ++ slash :: p) = c :: splitByte slash p.
Proof.
  induction c as [|b c IH]; intros Hn; cbn; [done|]. rewrite not_elem_of_cons in Hn. destruct Hn as [H1 H2].
  rewrite (proj2 (Z.eqb_neq b slash)) by done. by rewrite IH.
Qed.

Lemma split_one c : slash ∉ c -> splitByte slash c = [c].
Proof.
  induction c as [|b c IH]; intros Hn; cbn; [done|]. rewrite not_elem_of_cons in Hn. destruct Hn as [H1 H2].
  rewrite (proj2 (Z.eqb_neq b slash)) by done. by rewrite IH.
Qed.

Lemma path_split_join l : l <> [] -> Forall (fun c => slash ∉ c) l -> splitByte slash (join l) = l.
Proof.
  intros Hne Hl. induction Hl as [|c l Hc Hl IH]; [done|]. destruct l as [|d l]; [by apply split_one|].
  change (join (c :: d :: l)) with (c ++ slash :: join (d :: l)). rewrite split_cons_no_slash by done. by rewrite IH.
Qed.

Lemma join_nil l : Forall (fun c => c <> []) l -> join l = [] -> l = [].
Proof. intros H. destruct H as [|c l Hc _]; [done|]. destruct l; cbn; [done|]. by destruct c. Qed.

(** the stack: names above parents of the start *)
Definition stacked (rooted : bool) (stack : list bytes) : Prop :=
  exists names n, stack = names ++ repeat dotdot n /\ Forall element names /\ (rooted = true -> n = 0%nat).

Lemma push_stacked rooted stack c : slash ∉ c -> stacked rooted stack -> stacked rooted (push rooted stack c).
Proof.
  intros Hc (names & n & -> & Hn & Hr). unfold push. repeat case_bool_decide; subst; cbn [orb]; try (by exists names, n).
  - destruct names as [|t names]; cbn.
    + destruct n as [|n]; cbn; [destruct rooted; [by exists [], 0%nat|by exists [], 1%nat]|].
      rewrite bool_decide_eq_true_2 by done. exists [], (S (S n)). split_and!; try done. intros Hx. by specialize (Hr Hx).
    + apply Forall_cons in Hn as [Ht Hn]. rewrite bool_decide_eq_false_2 by apply Ht. by exists names, n.
  - exists (c :: names), n. split_and!; try done. by constructor.
Qed.

Lemma cleanParts_shape p : exists n names, cleanParts p = repeat dotdot n ++ names /\ Forall element names /\ (IsAbs p = true -> n = 0%nat).
Proof.
  unfold cleanParts. assert (H : forall l stack, Forall (fun c => slash ∉ c) l -> stacked (IsAbs p) stack -> stacked (IsAbs p) (foldl (push (IsAbs p)) stack l)).
  { induction l as [|c l IH]; intros stack Hl Hs; cbn; [done|]. apply Forall_cons in Hl as [Hc Hl]. by apply IH, push_stacked. }
  destruct (H (splitByte slash p) [] (split_no_slash p)) as (names & n & E & Hn & Hr); [by exists [], 0%nat|].
  exists n, (rev names). rewrite E, rev_app_distr. split_and!; [|by apply Forall_rev|done].
  f_equal. clear. induction n as [|n IH]; cbn; [done|]. rewrite IH. clear. induction n as [|n IH]; cbn; [done|]. by rewrite <- IH at 1.
Qed.

(** a cleaned path that does not climb stays below the directory it is used in *)
Lemma Clean_inside p : IsAbs p = false -> Clean p <> dot -> Clean p <> dotdot -> climbs (Clean p) = false ->
  inside (cleanParts p) /\ Clean p = join (cleanParts p) /\ splitByte slash (Clean p) = cleanParts p.
Proof.
  intros Ha H1 H2 H3. unfold Clean in *. rewrite Ha in *. destruct (cleanParts_shape p) as (n & names & E & Hn & _). rewrite E in *.
  destruct n as [|n]; cbn [repeat app] in *.
  - case_bool_decide as Ej; [done|]. assert (Hne : names <> []) by by intros ->.
    split_and!; [done|done|]. apply path_split_join; [done|]. eapply Forall_impl; [exact Hn|]. by intros c (_ & _ & _ & ?).
  - exfalso. destruct (repeat dotdot n ++ names) as [|c l] eqn:El.
    + by apply H2.
    + change (join (dotdot :: c :: l)) with (dotdot ++ slash :: join (c :: l)) in H3. rewrite bool_decide_eq_false_2 in H3 by done. done.
Qed.

Lemma cleanRelative_inside name clean : cleanRelative name = Some clean ->
  inside (splitByte slash clean) /\ join (splitByte slash clean) = clean.
Proof.
  unfold cleanRelative. destruct (bool_decide (name = []) || bool_decide (92 ∈ name) || IsAbs name) eqn:E1; [done|].
  destruct (bool_decide (Clean name = dot) || bool_decide (Clean name = dotdot) || climbs (Clean name)) eqn:E2; [done|]. intros [= <-]. zb.
  destruct (Clean_inside name) as (K1 & K2 & K3); try done. rewrite K3. split; [done|]. by rewrite <- K2.
Qed.

Lemma cleanArchivePath_inside name path : cleanArchivePath name = Some path -> path = [] \/
  inside (splitByte slash path) /\ join (splitByte slash path) = path.
Proof.
  unfold cleanArchivePath. case_bool_decide as E1; [intros [= <-]; by left|].
  destruct (IsAbs (Clean name) || bool_decide (Clean name = dotdot) || climbs (Clean name)) eqn:E2; [done|]. intros [= <-]. zb. right.
  assert (Ha : IsAbs name = false).
  { destruct (IsAbs name) eqn:Ea; [|done]. match goal with H : IsAbs (Clean name) = false |- _ => unfold Clean in H; by rewrite Ea in H end. }
  destruct (Clean_inside name) as (K1 & K2 & K3); try done.
  assert (Ht : take 2 (Clean name) <> [46; 47]).
  { intros Ht. assert (Hd : exists rest, Clean name = dot ++ slash :: rest).
    { destruct (Clean name) as [|x [|y rest]]; try done. injection Ht as -> ->. by exists rest. }
    destruct Hd as [rest Ed]. rewrite Ed, split_cons_no_slash in K3 by (unfold dot, slash; set_solver). destruct K1 as [_ K1]. rewrite <- K3 in K1.
    apply Forall_cons in K1 as [(_ & Hx & _) _]. done. }
  rewrite bool_decide_eq_false_2 by done. rewrite K3. split; [done|]. by rewrite <- K2.
Qed.

(** ** Trees *)

Inductive Node := Dir | File (content : bytes) (exec : bool) | Symlink | Special.
#[export] Instance Node_eq_dec : EqDecision Node.
Proof. solve_decision. Defined.

(** what is below a directory, by the elements of its path *)
Abbreviation Tree := (gmap (list bytes) Node).

(** [os.MkdirAll] of [l] below [above]: at most [k] directories can be created; whether all
    of them are there, and the tree, with those that were created also when not *)
Fixpoint mkdirAll (k : nat) (above l : list bytes) (t : Tree) : bool * Tree :=
  match l with
  | [] => (true, t)
  | c :: l =>
      let p := above ++ [c] in
      match t !! p with
      | None => match k with O => (false, t) | S k => mkdirAll k p l (<[p := Dir]> t) end
      | Some Dir => mkdirAll k p l t
      | Some _ => (false, t)
      end
  end.

(** ** The archive *)

Inductive flag := TypeDir | TypeReg | Unsupported.

(** what the system does for an entry: how many directories it can create, whether the
    file can be opened, the number of bytes after which a write fails, and whether the
    mode is set and the file closed *)
Record system := mkSystem { made : nat; opened : bool; writeFails : option nat; finished : bool }.

(** [stored] is what the archive still has for the entry *)
Record entry := mkEntry { Name : bytes; Size : Z; Typeflag : flag; Exec : bool; stored : bytes; sys : system }.
(** [None] is an archive that cannot be read *)
Abbreviation archive := (list (option entry)).

Inductive archiveError := Corrupt | TooMany | TooLarge | Escapes | EmptyPath | BadEntry | NotCreated | NotWritten | Truncated.

Definition maxExtractedBytes : Z := 256 * 1024 * 1024.
Definition maxArchiveEntries : Z := 4096.

(** the data of an entry, as far as the archive has it *)
Definition dataOf (e : entry) : bytes := take (Z.to_nat (Size e)) (stored e).

(** the tree that is left, and the error *)
Definition extractRegularFile (e : entry) (p : list bytes) (t : Tree) : Tree * option archiveError :=
  let (ok, t) := mkdirAll (made (sys e)) [] (removelast p) t in
  if negb ok || negb (opened (sys e)) then (t, Some NotCreated)
  else match t !! p with
       | Some _ => (t, Some NotCreated)
       | None =>
           let create content := <[p := File content (Exec e)]> t in
           match writeFails (sys e) with
           | Some n => (create (take n (dataOf e)), Some NotWritten)
           | None =>
               (create (dataOf e),
                if len (stored e) <? Size e then Some Truncated
                else if negb (finished (sys e)) then Some NotWritten else None)
           end
       end.

(** the body of the loop: an entry, its number and the bytes of the entries before it *)
Definition extractEntry (e : entry) (entries extracted : Z) (t : Tree) : Tree * option archiveError :=
  if maxArchiveEntries <? entries then (t, Some TooMany)
  else if (Size e <? 0) || (maxExtractedBytes - extracted <? Size e) then (t, Some TooLarge)
  else match cleanArchivePath (Name e) with
  | None => (t, Some Escapes)
  | Some [] => (t, match Typeflag e with TypeDir => None | _ => Some EmptyPath end)
  | Some name =>
      let p := splitByte slash name in
      match Typeflag e with
      | TypeDir => let (ok, t) := mkdirAll (made (sys e)) [] p t in (t, if ok then None else Some NotCreated)
      | TypeReg => extractRegularFile e p t
      | Unsupported => (t, Some BadEntry)
      end
  end.

Fixpoint extractReleaseArchive (a : archive) (entries extracted : Z) (t : Tree) : Tree * option archiveError :=
  match a with
  | [] => (t, None)
  | None :: _ => (t, Some Corrupt)
  | Some e :: a =>
      let entries := entries + 1 in
      let (t, err) := extractEntry e entries extracted t in
      match err with
      | None => extractReleaseArchive a entries (extracted + Size e) t
      | Some err => (t, Some err)
      end
  end.

(** the files of an archive *)
Definition fileOf (o : option entry) : option (list bytes * (bytes * bool)) :=
  let? e := o in
  match Typeflag e with
  | TypeReg => let? name := cleanArchivePath (Name e) in Some (splitByte slash name, (dataOf e, Exec e))
  | _ => None
  end.
Definition filesOf (a : archive) : list (list bytes * (bytes * bool)) := omap fileOf a.

(** every path stays below, in directories that exist; nothing but files and directories *)
Record wellPlaced (t : Tree) : Prop := mkPlaced {
  pl_inside : forall p n, t !! p = Some n -> inside p /\ (n = Dir \/ exists c x, n = File c x);
  pl_parent : forall p c n, t !! (p ++ [c]) = Some n -> p = [] \/ t !! p = Some Dir }.

Lemma placed_insert q c n t : wellPlaced t -> Forall element (q ++ [c]) -> (q = [] \/ t !! q = Some Dir) -> t !! (q ++ [c]) = None ->
  (n = Dir \/ exists d x, n = File d x) -> wellPlaced (<[q ++ [c] := n]> t).
Proof.
  intros W Hp Hd Hn Hk. constructor.
  - intros p m [[<- <-]|[_ H]]%lookup_insert_Some; [|by apply (pl_inside _ W p)]. split; [split; [by destruct q|done]|done].
  - intros p d m [[Ep <-]|[_ H]]%lookup_insert_Some.
    + apply app_inj_tail in Ep as [<- <-]. destruct Hd as [->|Hd]; [by left|]. right. rewrite lookup_insert_ne; [done|]. intros E. by rewrite E, Hd in Hn.
    + destruct (pl_parent _ W p d m H) as [->|H']; [by left|]. right. rewrite lookup_insert_ne; [done|]. intros E. by rewrite E, H' in Hn.
Qed.

(** the sum of a measure over the nodes of a tree *)
Definition weigh (f : Node -> Z) (t : Tree) : Z := map_fold (fun _ n s => f n + s) 0 t.
Definition nodeBytes (n : Node) : Z := match n with File c _ => len c | _ => 0 end.
Definition nodeFiles (n : Node) : Z := match n with File _ _ => 1 | _ => 0 end.

Lemma weigh_insert f p n t : t !! p = None -> weigh f (<[p := n]> t) = f n + weigh f t.
Proof. intros H. unfold weigh. rewrite map_fold_insert_L; [done| |done]. intros. lia. Qed.

(** one tree grew into another by directories only *)
Record dirsAdded (t t' : Tree) : Prop := mkDirs {
  da_kept : t ⊆ t'; da_new : forall p n, t' !! p = Some n -> t !! p = Some n \/ n = Dir;
  da_weigh : forall f, f Dir = 0 -> weigh f t' = weigh f t }.

Lemma dirsAdded_files t t' p c x : dirsAdded t t' -> t' !! p = Some (File c x) <-> t !! p = Some (File c x).
Proof. intros D. split; [intros H; by destruct (da_new _ _ D _ _ H)|intros H; eapply lookup_weaken; [exact H|apply D]]. Qed.

Lemma mkdirAll_spec l : forall k above t, Forall element l -> Forall element above -> (above = [] \/ t !! above = Some Dir) -> wellPlaced t ->
  let r := mkdirAll k above l t in
  wellPlaced r.2 /\ dirsAdded t r.2 /\ (r.1 = true -> above ++ l = [] \/ r.2 !! (above ++ l) = Some Dir).
Proof.
  induction l as [|c l IH]; intros k above t Hl Ha Hd Hw; cbn.
  { rewrite app_nil_r. split_and!; [done|by constructor; auto|done]. }
  apply Forall_cons in Hl as [Hc Hl]. assert (Hac : Forall element (above ++ [c])) by (apply Forall_app; split; [done|by constructor]).
  assert (Hsame : wellPlaced t /\ dirsAdded t t /\ (false = true -> above ++ c :: l = [] \/ t !! (above ++ c :: l) = Some Dir))
    by (split_and!; [done|by constructor; auto|done]).
  replace (above ++ c :: l) with ((above ++ [c]) ++ l) in Hsame |- * by by rewrite <- app_assoc. destruct (t !! (above ++ [c])) as [[| | |]|] eqn:E; try done.
  - exact (IH k (above ++ [c]) t Hl Hac (or_intror E) Hw).
  - destruct k as [|k]; [done|].
    destruct (IH k (above ++ [c]) (<[above ++ [c] := Dir]> t)) as (W & [D1 D2 D3] & T); [done|done| |by apply placed_insert; auto|].
    { right. apply lookup_insert_eq. }
    split_and!; [done| |done]. constructor.
    + etrans; [|exact D1]. by apply insert_subseteq.
    + intros p n Hp. destruct (D2 p n Hp) as [[[_ <-]|[_ ?]]%lookup_insert_Some| ->]; auto.
    + intros f Hf. rewrite D3, weigh_insert by done. lia.
Qed.

Lemma removelast_app (p : list bytes) : p <> [] -> exists q c, p = q ++ [c] /\ removelast p = q.
Proof. intros H. destruct (exists_last H) as (q & c & ->). exists q, c. by rewrite removelast_last. Qed.

(** what one entry did to the tree, whether it succeeded or not *)
Record fileAdded (e : entry) (p : list bytes) (t t' : Tree) : Prop := mkAdded {
  fi_placed : wellPlaced t'; fi_kept : t ⊆ t';
  fi_new : forall q c x, t' !! q = Some (File c x) -> t !! q = Some (File c x) \/ q = p /\ c `prefix_of` dataOf e;
  fi_bytes : weigh nodeBytes t' <= weigh nodeBytes t + Size e; fi_files : weigh nodeFiles t' <= weigh nodeFiles t + 1 }.

Lemma fileAdded_dirs e p t t' : 0 <= Size e -> wellPlaced t' -> dirsAdded t t' -> fileAdded e p t t'.
Proof.
  intros Hs W D. constructor; [done|apply D| | |].
  - intros q c x H. left. by apply (dirsAdded_files _ _ _ _ _ D).
  - rewrite (da_weigh _ _ D) by done. lia.
  - rewrite (da_weigh _ _ D) by done. lia.
Qed.

Lemma fileAdded_insert e p q c t t1 content : p = q ++ [c] -> 0 <= Size e -> Forall element p -> wellPlaced t1 -> dirsAdded t t1 ->
  (q = [] \/ t1 !! q = Some Dir) -> t1 !! p = None -> content `prefix_of` dataOf e -> fileAdded e p t (<[p := File content (Exec e)]> t1).
Proof.
  intros -> Hs Hp W D Hd Hn Hc. constructor.
  - apply placed_insert; eauto.
  - etrans; [apply D|by apply insert_subseteq].
  - intros r d x [[<- [= <- <-]]|[_ H]]%lookup_insert_Some; [by right|left; by apply (dirsAdded_files _ _ _ _ _ D)].
  - rewrite weigh_insert, (da_weigh _ _ D) by done. cbn. pose proof (prefix_length _ _ Hc) as Hl. unfold dataOf in Hl. rewrite length_take in Hl. lia.
  - rewrite weigh_insert, (da_weigh _ _ D) by done. cbn. lia.
Qed.

Lemma extractRegularFile_spec e p t : inside p -> 0 <= Size e -> wellPlaced t ->
  let r := extractRegularFile e p t in
  fileAdded e p t r.1 /\
  (r.2 = None -> len (dataOf e) = Size e /\ (forall c x, t !! p <> Some (File c x)) /\
     forall q c x, r.1 !! q = Some (File c x) <-> t !! q = Some (File c x) \/ (q = p /\ c = dataOf e /\ x = Exec e)).
Proof.
  intros [Hne Hp] Hsz Hw. unfold extractRegularFile. destruct (removelast_app p Hne) as (q & c & Ep & Er). rewrite Er.
  assert (Hq : Forall element q) by (rewrite Ep in Hp; by apply Forall_app in Hp as [? _]).
  destruct (mkdirAll_spec q (made (sys e)) [] t Hq (Forall_nil_2 _) (or_introl eq_refl) Hw) as (W & D & T).
  destruct (mkdirAll (made (sys e)) [] q t) as [ok t1]. cbn [fst snd app] in W, D, T.
  assert (Hdirs : fileAdded e p t t1) by by apply fileAdded_dirs.
  destruct ok; cbn [negb orb]; [|by cbn]. specialize (T eq_refl). destruct (negb (opened (sys e))); [by cbn|].
  destruct (t1 !! p) as [n|] eqn:En; [by cbn|].
  assert (Hadd : forall content, content `prefix_of` dataOf e -> fileAdded e p t (<[p := File content (Exec e)]> t1))
    by (intros; by eapply fileAdded_insert).
  destruct (writeFails (sys e)) as [k|]; cbn [fst snd].
  { split; [|done]. apply Hadd. exists (drop k (dataOf e)). by rewrite take_drop. }
  split; [by apply Hadd|]. destruct (Z.ltb_spec (len (stored e)) (Size e)); [done|]. intros _. split_and!.
  - unfold dataOf. rewrite length_take. lia.
  - intros d x Hx. apply (dirsAdded_files _ _ _ _ _ D) in Hx. by rewrite En in Hx.
  - intros r d x. rewrite lookup_insert_Some, (dirsAdded_files _ _ _ _ _ D). split.
    + intros [[<- [= <- <-]]|[_ ?]]; auto.
    + intros [Hr|(-> & -> & ->)]; [|auto]. right. split; [|done]. intros <-. apply (dirsAdded_files _ _ _ _ _ D) in Hr. by rewrite En in Hr.
Qed.

Definition total (l : list (list bytes * (bytes * bool))) : Z := foldr (fun f n => len f.2.1 + n) 0 l.

(** what the rest of an archive adds to a tree *)
Record extracts (a : archive) (n extracted : Z) (t t' : Tree) : Prop := mkExtracts {
  ex_placed : wellPlaced t'; ex_once : NoDup (filesOf a).*1;
  ex_new : forall p, p ∈ (filesOf a).*1 -> forall c x, t !! p <> Some (File c x);
  ex_files : forall p c x, t' !! p = Some (File c x) <-> t !! p = Some (File c x) \/ (p, (c, x)) ∈ filesOf a;
  ex_bytes : extracted + total (filesOf a) <= maxExtractedBytes; ex_entries : a = [] \/ n + len a <= maxArchiveEntries }.

Lemma filesOf_cons o a : filesOf (o :: a) = match fileOf o with Some f => f :: filesOf a | None => filesOf a end.
Proof. done. Qed.

Lemma extracts_skip e a n extracted t t1 t' : fileOf (Some e) = None -> 0 <= Size e -> n + 1 <= maxArchiveEntries ->
  (forall p c x, t1 !! p = Some (File c x) <-> t !! p = Some (File c x)) ->
  extracts a (n + 1) (extracted + Size e) t1 t' -> extracts (Some e :: a) n extracted t t'.
Proof.
  intros Ef Hs Hn F [X1 X2 X3 X4 X5 X6]. assert (E : filesOf (Some e :: a) = filesOf a)  by (rewrite filesOf_cons; by rewrite Ef).
  constructor; rewrite ?E; [done|done| | |lia|].
  - intros p Hp c x. rewrite <- F. by apply X3.
  - intros p c x. by rewrite X4, F.
  - right. rewrite length_cons. destruct X6 as [->|]; cbn; lia.
Qed.

Lemma extracts_file e a n extracted t t1 t' p f : fileOf (Some e) = Some (p, f) -> len f.1 = Size e -> n + 1 <= maxArchiveEntries ->
  (forall c x, t !! p <> Some (File c x)) ->
  (forall q c x, t1 !! q = Some (File c x) <-> t !! q = Some (File c x) \/ (q = p /\ c = f.1 /\ x = f.2)) ->
  extracts a (n + 1) (extracted + Size e) t1 t' -> extracts (Some e :: a) n extracted t t'.
Proof.
  intros Ef Hs Hn Hnew F [X1 X2 X3 X4 X5 X6]. destruct f as [fc fx]. cbn [fst snd] in *.
  assert (E : filesOf (Some e :: a) = (p, (fc, fx)) :: filesOf a) by (rewrite filesOf_cons; by rewrite Ef).
  constructor; rewrite ?E; cbn [fmap list_fmap fst total foldr snd]; [done| | | | |].
  - apply NoDup_cons. split; [|done]. intros Hp. apply (X3 p Hp fc fx). apply F. auto.
  - intros q [->|Hq]%elem_of_cons c x; [apply Hnew|]. intros Ht. apply (X3 q Hq c x), F. by left.
  - intros q c x. rewrite X4, F, elem_of_cons. split; [intros [[?|(-> & -> & ->)]|?]; auto|]. intros [?|[[= -> -> ->]|?]]; auto.
  - unfold total in X5. lia.
  - right. rewrite length_cons. destruct X6 as [->|]; cbn; lia.
Qed.

(** what the rest of an archive does to a tree, also when it fails *)
Record written (a : archive) (n extracted : Z) (t t' : Tree) : Prop := mkWritten {
  wr_placed : wellPlaced t'; wr_kept : t ⊆ t';
  wr_new : forall p c x, t' !! p = Some (File c x) -> t !! p = Some (File c x) \/ exists d y, (p, (d, y)) ∈ filesOf a /\ c `prefix_of` d;
  wr_bytes : weigh nodeBytes t' <= weigh nodeBytes t + (maxExtractedBytes - extracted);
  wr_files : weigh nodeFiles t' <= weigh nodeFiles t + (maxArchiveEntries - n) }.

(** one entry, in the limits that are left *)
Record entryDone (e : entry) (n extracted : Z) (t t' : Tree) (ok : bool) : Prop := mkDone {
  ed_within : t' = t /\ ok = false \/ n <= maxArchiveEntries /\ 0 <= Size e <= maxExtractedBytes - extracted /\
    weigh nodeBytes t' <= weigh nodeBytes t + Size e /\ weigh nodeFiles t' <= weigh nodeFiles t + 1;
  ed_placed : wellPlaced t'; ed_kept : t ⊆ t';
  ed_new : forall p c x, t' !! p = Some (File c x) -> t !! p = Some (File c x) \/ exists d y, fileOf (Some e) = Some (p, (d, y)) /\ c `prefix_of` d;
  ed_ok : ok = true ->
    fileOf (Some e) = None /\ (forall p c x, t' !! p = Some (File c x) <-> t !! p = Some (File c x)) \/
    exists p f, fileOf (Some e) = Some (p, f) /\ len f.1 = Size e /\ (forall c x, t !! p <> Some (File c x)) /\
      forall q c x, t' !! q = Some (File c x) <-> t !! q = Some (File c x) \/ (q = p /\ c = f.1 /\ x = f.2) }.

Lemma entryDone_refused e n extracted t : wellPlaced t -> entryDone e n extracted t t false.
Proof. intros W. constructor; [by left|done|done|auto|done]. Qed.

Lemma entryDone_dirs e n extracted t t' ok : n <= maxArchiveEntries -> 0 <= Size e <= maxExtractedBytes - extracted -> fileOf (Some e) = None ->
  wellPlaced t' -> dirsAdded t t' -> entryDone e n extracted t t' ok.
Proof.
  intros Hn Hs Hf W D. pose proof (dirsAdded_files t t') as F. constructor; [|done|apply D| |].
  - right. rewrite !(da_weigh _ _ D) by done. lia.
  - intros p c x H. left. by apply F.
  - intros _. left. split; [done|]. intros. by apply F.
Qed.

Lemma extractEntry_spec e n extracted t : wellPlaced t ->
  entryDone e n extracted t (extractEntry e n extracted t).1 (bool_decide ((extractEntry e n extracted t).2 = None)).
Proof.
  intros W. unfold extractEntry. destruct (Z.ltb_spec maxArchiveEntries n) as [|Hn]; [by apply entryDone_refused|].
  destruct ((Size e <? 0) || (maxExtractedBytes - extracted <? Size e)) eqn:E2; [by apply entryDone_refused|].
  assert (Hs : 0 <= Size e <= maxExtractedBytes - extracted) by (zb; lia).
  destruct (cleanArchivePath (Name e)) as [name|] eqn:Ec; [|by apply entryDone_refused].
  assert (Hsame : dirsAdded t t) by by constructor; auto.
  destruct (cleanArchivePath_inside _ _ Ec) as [->|[Hi _]].
  { cbn [fst snd]. destruct (Typeflag e) eqn:Et; try by apply entryDone_refused.
    apply entryDone_dirs; [done|done| |done|done]. cbn. by rewrite Et. }
  destruct name as [|b name]; [by destruct Hi as [_ [(? & _) _]%Forall_cons]|]. generalize dependent (b :: name). clear b name. intros name Ec Hi.
  destruct (Typeflag e) eqn:Et; [| |by apply entryDone_refused].
  - destruct (mkdirAll_spec _ (made (sys e)) [] t (proj2 Hi) (Forall_nil_2 _) (or_introl eq_refl) W) as (W' & D & _).
    destruct (mkdirAll _ [] _ t) as [ok t1]. apply entryDone_dirs; [done|done| |done|done]. cbn. by rewrite Et.
  - destruct (extractRegularFile_spec e _ t Hi (proj1 Hs) W) as [[F1 F2 F3 F4 F5] R].
    assert (Ef : fileOf (Some e) = Some (splitByte slash name, (dataOf e, Exec e))) by (cbn; by rewrite Et, Ec).
    constructor; [by right|done|done| |].
    + intros p c x H. destruct (F3 p c x H) as [|[-> ?]]; [by left|right; eauto].
    + intros H%bool_decide_eq_true. destruct (R H) as (R1 & R2 & R3). right. by exists (splitByte slash name), (dataOf e, Exec e).
Qed.

Lemma extract_spec a : forall n extracted t, wellPlaced t -> 0 <= extracted <= maxExtractedBytes -> n <= maxArchiveEntries ->
  let r := extractReleaseArchive a n extracted t in
  written a n extracted t r.1 /\ (r.2 = None -> extracts a n extracted t r.1).
Proof.
  induction a as [|[e|] a IH]; intros n extracted t Hw Hx Hn; cbn [extractReleaseArchive fst snd];
    assert (Hsame : forall a, written a n extracted t t) by (intros; constructor; [done|done|auto|lia|lia]).
  { split; [done|]. intros _.
    constructor; [done|apply NoDup_nil_2|cbn; set_solver|cbn; set_solver|change (extracted + 0 <= maxExtractedBytes); lia|by left]. }
  2: { by split. }
  destruct (extractEntry_spec e (n + 1) extracted t Hw) as [D1 D2 D3 D4 D5].
  destruct (extractEntry e (n + 1) extracted t) as [t1 [err|]]; cbn [fst snd] in *.
  - split; [|done]. constructor; [done|done| | |].
    + intros p c x H. destruct (D4 p c x H) as [|(d & y & Ef & ?)]; [by left|]. right. exists d, y. rewrite filesOf_cons, Ef. split; [by left|done].
    + destruct D1 as [[-> _]|?]; lia.
    + destruct D1 as [[-> _]|?]; lia.
  - destruct D1 as [[_ ?]|(B1 & B2 & B3 & B4)]; [done|]. destruct (IH (n + 1) (extracted + Size e) t1 D2) as [[W1 W2 W3 W4 W5] X]; [lia|lia|]. split.
    + constructor; [done|by etrans| |lia|lia]. intros p c x H. rewrite filesOf_cons.
      destruct (W3 p c x H) as [H'|(d & y & ? & ?)].
      * destruct (D4 p c x H') as [|(d & y & -> & ?)]; [by left|]. right. exists d, y. split; [by left|done].
      * right. exists d, y. split; [|done]. destruct (fileOf (Some e)); [by right|done].
    + intros H. specialize (X H). destruct (D5 eq_refl) as [[Ef F]|(p & f & Ef & Hl & N & F)].
      * by eapply extracts_skip; [exact Ef|lia|lia|exact F|].
      * by eapply extracts_file; [exact Ef|exact Hl|lia|exact N|exact F|].
Qed.

(** what is written stays as it is *)
Lemma extract_monotone a b : forall n extracted t, wellPlaced t -> 0 <= extracted <= maxExtractedBytes -> n <= maxArchiveEntries ->
  (extractReleaseArchive a n extracted t).1 ⊆ (extractReleaseArchive (a ++ b) n extracted t).1.
Proof.
  induction a as [|[e|] a IH]; intros n extracted t Hw Hx Hn; cbn [extractReleaseArchive app]; [|  |done].
  { by destruct (extract_spec b n extracted t Hw Hx Hn) as [[_ ? _ _ _] _]. }
  destruct (extractEntry_spec e (n + 1) extracted t Hw) as [D1 D2 _ _ _].
  destruct (extractEntry e (n + 1) extracted t) as [t1 [err|]]; cbn [fst snd] in *; [done|].
  destruct D1 as [[_ ?]|(B1 & B2 & _)]; [done|]. apply IH; [done|lia|lia].
Qed.

Lemma empty_placed : wellPlaced ∅.
Proof. constructor; intros *; by rewrite lookup_empty. Qed.

Lemma extract_fresh a : let r := extractReleaseArchive a 0 0 ∅ in
  written a 0 0 ∅ r.1 /\ (r.2 = None -> extracts a 0 0 ∅ r.1).
Proof. apply extract_spec; [exact empty_placed|unfold maxExtractedBytes; lia|unfold maxArchiveEntries; lia]. Qed.

(** C18: an archive cannot write outside of the stage, overwrite a file or fill the disk.
    Whatever its entries are, whatever the system calls answer and whether extraction
    succeeds or stops with an error, every path it leaves is made of proper names below
    the stage, in directories it created; there are only directories and regular
    files, each with bytes of an entry of that path, at most 256 MiB in at most 4096
    files; and no later entry changes or removes what was written.  When it succeeds
    the files are exactly those of the archive, complete and each once. *)
Theorem extraction_contained a t err : extractReleaseArchive a 0 0 ∅ = (t, err) ->
  (forall p n, t !! p = Some n -> inside p /\ (n = Dir \/ exists c x, n = File c x)) /\
  (forall p c n, t !! (p ++ [c]) = Some n -> p = [] \/ t !! p = Some Dir) /\
  (forall p c x, t !! p = Some (File c x) -> exists d y, (p, (d, y)) ∈ filesOf a /\ c `prefix_of` d) /\
  weigh nodeBytes t <= maxExtractedBytes /\ weigh nodeFiles t <= maxArchiveEntries /\
  (forall b, t ⊆ (extractReleaseArchive (a ++ b) 0 0 ∅).1) /\
  (err = None ->
     (forall p c x, t !! p = Some (File c x) <-> (p, (c, x)) ∈ filesOf a) /\ NoDup (filesOf a).*1 /\
     total (filesOf a) <= maxExtractedBytes /\ len a <= maxArchiveEntries).
Proof.
  intros H. destruct (extract_fresh a) as [[W1 W2 W3 W4 W5] X]. rewrite H in *. cbn [fst snd] in *.
  split_and!; [apply (pl_inside _ W1)|apply (pl_parent _ W1)| |change (weigh nodeBytes ∅) with 0 in W4; lia|change (weigh nodeFiles ∅) with 0 in W5; lia| |].
  - intros p c x Hp. destruct (W3 p c x Hp) as [Hp'|?]; [by rewrite lookup_empty in Hp'|done].
  - intros b. replace t with (extractReleaseArchive a 0 0 ∅).1 by by rewrite H.
    apply extract_monotone; [exact empty_placed|unfold maxExtractedBytes; lia|unfold maxArchiveEntries; lia].
  - intros He. destruct (X He) as [_ X2 _ X4 X5 X6]. split_and!; [|done|lia|unfold maxArchiveEntries in *; destruct X6 as [->|]; cbn; lia].
    intros p c x. rewrite X4, lookup_empty. split; [by intros [|]|by right].
Qed.

(** ** Manifests *)

Definition ManifestName : string := "release-manifest.json".
Definition ManifestSchema : Z := 1.

Record Manifest := mkManifest {
  Schema : Z; Version : string; Revision : string; Target : string; WebHash : string; AppTransports : list string;
  RelayTransports : list string; Files : gmap string string }.

Definition pathOf (name : string) : list bytes := splitByte slash (bytes_of_string name).
Definition nameOf (p : list bytes) : string := string_of_bytes (join p).

Inductive releaseError :=
  | Unreadable | Unparsable | BadSchema | NoVersion | NoTarget | WrongTarget | BadPath | NotCanonical | BadHash | NotVerified
  | HashMismatch | BadWebHash | HasSymlink | NotRegular | NotListed | NotWalked | Missing (name : string) | NotExecutable | NotGiven.

(** [encoding/hex], lower case *)
Definition hexChar (v : Z) : Z := if v <? 10 then 48 + v else 87 + v.
Definition hexString (l : bytes) : string := string_of_bytes (l ≫= (fun b => [hexChar (b / 16); hexChar (b mod 16)])).
Definition isHex (c : Z) : bool := ((48 <=? c) && (c <=? 57)) || ((97 <=? c) && (c <=? 102)) || ((65 <=? c) && (c <=? 70)).
(** [strings.ToLower] of ASCII *)
Definition lower (c : Z) : Z := if (65 <=? c) && (c <=? 90) then c + 32 else c.
Definition ToLower (s : string) : string := string_of_bytes (lower <$> bytes_of_string s).

Definition validSHA256 (value : string) : bool :=
  (slen value =? 64) && forallb isHex (bytes_of_string value) && String.eqb value (ToLower value).

Section Hashes.
Context (sha256 : bytes -> bytes).

Definition fileHash (content : bytes) : string := hexString (sha256 content).

Definition nameLe (a b : string) : Prop := String.leb a b = true.
#[export] Instance nameLe_dec : RelDecision nameLe.
Proof. intros a b. unfold nameLe. apply _. Defined.

(** the lines that are hashed *)
Definition mapText (files : gmap string string) (prefix : string) : list (string * string) :=
  omap (fun name => pair name <$> files !! name) (merge_sort nameLe (filter (fun name => String.prefix prefix name = true) (map_to_list files).*1)).
Definition render (l : list (string * string)) : bytes := l ≫= (fun kv => bytes_of_string kv.1 ++ 0 :: bytes_of_string kv.2 ++ [10]).
Definition hashFileMap (files : gmap string string) (prefix : string) : string :=
  match mapText files prefix with [] => ""%string | l => hexString (sha256 (render l)) end.

(** ** What the system answers *)

Context (decodeManifest : bytes -> option Manifest).
(** a root: whether it is itself a symbolic link, the tree below it, the same in the order
    it is walked and whether the walk breaks off with an error, and what [Lstat] and
    [ReadFile] give for a path below the root *)
Record Root := mkRoot {
  linked : bool; tree : Tree; walk : list (list bytes * Node); broken : bool;
  lstat : list bytes -> option Node; readFile : list bytes -> option bytes }.

(** [filepath.WalkDir] below the root: it does not follow a link, not even the root *)
Definition WalkDir (r : Root) : list (list bytes * Node) * bool := if linked r then ([], false) else (walk r, broken r).

Definition Load (r : Root) : result releaseError Manifest :=
  match readFile r (pathOf ManifestName) with
  | None => Err Unreadable
  | Some data =>
      match decodeManifest data with
      | None => Err Unparsable
      | Some m =>
          if negb (Schema m =? ManifestSchema) then Err BadSchema
          else if String.eqb (TrimSpace (Version m)) "" || String.eqb (TrimSpace (Revision m)) "" then Err NoVersion
          else if String.eqb (Target m) "" || bool_decide (Files m = ∅) then Err NoTarget
          else Ok m
      end
  end.

Definition hashRegularFile (r : Root) (name : bytes) : option string :=
  match lstat r (splitByte slash name) with
  | Some (File _ _) => fileHash <$> readFile r (splitByte slash name)
  | _ => None
  end.

(** one line of the manifest: the error *)
Definition checkFile (r : Root) (kv : string * string) : option releaseError :=
  let name := bytes_of_string kv.1 in
  match cleanRelative name with
  | None => Some BadPath
  | Some clean =>
      if negb (bool_decide (clean = name)) then Some NotCanonical
      else if negb (validSHA256 kv.2) then Some BadHash
      else match hashRegularFile r clean with
           | None => Some NotVerified
           | Some actual => if negb (String.eqb actual (ToLower kv.2)) then Some HashMismatch else None
           end
  end.

(** one entry of the tree *)
Definition checkEntry (listed : string -> bool) (pn : list bytes * Node) : option releaseError :=
  match pn.2 with
  | Symlink => Some HasSymlink
  | Dir => None
  | n => if String.eqb (nameOf pn.1) ManifestName then None
         else match n with
              | File _ _ => if listed (nameOf pn.1) then None else Some NotListed
              | _ => Some NotRegular
              end
  end.

Fixpoint firstError {A E} (f : A -> option E) (l : list A) : option E :=
  match l with [] => None | a :: l => match f a with Some e => Some e | None => firstError f l end end.

Definition required : list string :=
  ["herdr-mobile-relay"; "web/index.html"; "LICENSE"; "README.md"; "relay/common.sh"; "relay/herdr-mobile-relay-service.sh";
   "relay/plugin-on-event.sh"; "relay/setup-link.sh"; "relay/stable-setup.sh"; "relay/stable-teardown.sh"; "relay/start.sh"]%string.

(** [order] is the order in which the map of files is walked *)
Definition Verify (order : Manifest -> list (string * string)) (r : Root) (expectedTarget : string) : result releaseError Manifest :=
  let! m := Load r in
  if negb (String.eqb expectedTarget "") && negb (String.eqb (Target m) expectedTarget) then Err WrongTarget
  else match firstError (checkFile r) (order m) with
  | Some e => Err e
  | None =>
      let listed := fun name => bool_decide (is_Some (Files m !! name)) in
      let computed := hashFileMap (Files m) "web/" in
      if String.eqb computed "" || negb (String.eqb (WebHash m) computed) then Err BadWebHash
      else let (entries, stopped) := WalkDir r in
      match firstError (checkEntry listed) entries with
      | Some e => Err e
      | None =>
          if stopped then Err NotWalked
          else match firstError (fun name => if listed name then None else Some (Missing name)) required with
          | Some e => Err e
          | None => match lstat r (pathOf "herdr-mobile-relay") with
                    | Some (File _ true) => Ok m
                    | _ => Err NotExecutable
                    end
          end
      end
  end.

(** the files of a tree with their hashes, or why there is no manifest for it *)
Definition buildEntry (pn : list bytes * Node) : result releaseError (option (string * string)) :=
  match pn.2 with
  | Symlink => Err HasSymlink
  | Dir => Ok None
  | n => if String.eqb (nameOf pn.1) ManifestName then Ok None
         else match n with File c _ => Ok (Some (nameOf pn.1, fileHash c)) | _ => Err NotRegular end
  end.
Fixpoint buildFiles (l : list (list bytes * Node)) : result releaseError (gmap string string) :=
  match l with
  | [] => Ok ∅
  | pn :: l => let! kv := buildEntry pn in
               let! files := buildFiles l in
               Ok (match kv with Some (k, v) => <[k := v]> files | None => files end)
  end.

Definition transports : list string := [Gate.EncryptedWebSocketSubprotocol; Gate.HybridTransportCapability].

Definition Build (r : Root) (version revision target : string) : result releaseError Manifest :=
  if String.eqb (TrimSpace version) "" || String.eqb (TrimSpace revision) "" || String.eqb (TrimSpace target) "" then Err NotGiven
  else let (entries, stopped) := WalkDir r in
       let! files := buildFiles entries in
       if stopped then Err NotWalked
       else Ok (mkManifest ManifestSchema version revision target (hashFileMap files "web/") transports transports files).

(** ** What a verified release is *)

(** the root as the system shows it: paths of proper names, walked once each when the
    walk does not break off, and read through nothing but directories when there is no symbolic link *)
Record faithful (r : Root) : Prop := mkFaithful {
  fa_walk : broken r = false -> walk r ≡ₚ map_to_list (tree r);
  fa_paths : forall p n, tree r !! p = Some n -> inside p /\ Forall (Forall is_byte) p;
  fa_lstat : (forall p, tree r !! p <> Some Symlink) -> forall p, lstat r p = tree r !! p;
  fa_read : (forall p, tree r !! p <> Some Symlink) ->
    forall p, readFile r p = match tree r !! p with Some (File c _) => Some c | _ => None end }.

Lemma firstError_None {A E} (f : A -> option E) l : firstError f l = None <-> Forall (fun a => f a = None) l.
Proof.
  induction l as [|a l IH]; cbn; [done|]. rewrite Forall_cons. destruct (f a); [naive_solver|]. rewrite IH. naive_solver.
Qed.

Lemma join_bytes p : Forall (Forall is_byte) p -> Forall is_byte (join p).
Proof.
  induction 1 as [|c p Hc Hp IH]; [constructor|]. destruct p as [|d p]; [done|].
  change (join (c :: d :: p)) with (c ++ slash :: join (d :: p)). apply Forall_app. split; [done|]. constructor; [unfold is_byte, slash; lia|done].
Qed.

Lemma pathOf_nameOf p : inside p -> Forall (Forall is_byte) p -> pathOf (nameOf p) = p.
Proof.
  intros [Hne Hp] Hb. unfold pathOf, nameOf. rewrite bytes_string_bytes by by apply join_bytes. apply path_split_join; [done|].
  eapply Forall_impl; [exact Hp|]. by intros c (_ & _ & _ & ?).
Qed.

Lemma checkFile_spec r name h : checkFile r (name, h) = None ->
  inside (pathOf name) /\ (exists c x, lstat r (pathOf name) = Some (File c x)) /\ exists c, readFile r (pathOf name) = Some c /\ h = fileHash c.
Proof.
  unfold checkFile. cbn [fst snd]. destruct (cleanRelative (bytes_of_string name)) as [clean|] eqn:Ec; [|done].
  case_bool_decide as En; cbn [negb]; [|done]. subst clean. destruct (validSHA256 h) eqn:Eh; cbn [negb]; [|done].
  unfold hashRegularFile. fold (pathOf name). destruct (lstat r (pathOf name)) as [[| | |]|] eqn:El; try done.
  destruct (readFile r (pathOf name)) as [d|] eqn:Er; cbn; [|done]. destruct (String.eqb_spec (fileHash d) (ToLower h)) as [E|E]; [|done]. intros _.
  split_and!; [by apply (cleanRelative_inside _ _ Ec)|eauto|]. exists d. split; [done|].
  unfold validSHA256 in Eh. apply andb_true_iff in Eh as [_ Eh]. apply String.eqb_eq in Eh. congruence.
Qed.

Lemma checkEntry_spec listed p n : checkEntry listed (p, n) = None ->
  n <> Symlink /\ (n = Dir \/ nameOf p = ManifestName \/ (exists c x, n = File c x) /\ listed (nameOf p) = true).
Proof.
  unfold checkEntry. cbn [fst snd]. destruct n; try done; try (split; [done|]; by left);
    (destruct (String.eqb_spec (nameOf p) ManifestName) as [E|E]; [auto|]).
  - destruct (listed (nameOf p)); [|done]. intros _. split; [done|]. right. right. eauto.
  - done.
Qed.

Lemma Load_spec r m : Load r = Ok m -> exists data, readFile r (pathOf ManifestName) = Some data /\ decodeManifest data = Some m.
Proof.
  unfold Load. destruct (readFile r (pathOf ManifestName)) as [data|]; [|done]. destruct (decodeManifest data) as [m'|] eqn:E; [|done].
  repeat (case_if; [done|]). intros [= ->]. eauto.
Qed.

Lemma verified_all order r expected m : faithful r -> linked r = false -> (forall m, order m ≡ₚ map_to_list (Files m)) -> Verify order r expected = Ok m ->
  (expected = ""%string \/ Target m = expected) /\
  (forall p n, tree r !! p = Some n -> n = Dir \/
     exists c x, n = File c x /\ (p = pathOf ManifestName \/ Files m !! nameOf p = Some (fileHash c))) /\
  (forall name h, Files m !! name = Some h -> inside (pathOf name) /\
     exists c x, tree r !! pathOf name = Some (File c x) /\ h = fileHash c) /\
  Forall (fun name => exists c x, tree r !! pathOf name = Some (File c x)) required /\
  (exists c, tree r !! pathOf "herdr-mobile-relay" = Some (File c true)) /\
  WebHash m = hashFileMap (Files m) "web/" /\ WebHash m <> ""%string.
Proof.
  intros F Hlk Ho. unfold Verify, WalkDir. rewrite Hlk. destruct (Load r) as [m'|] eqn:El; cbn [rbind]; [|done].
  destruct (negb (String.eqb expected "") && negb (String.eqb (Target m') expected)) eqn:Et; [done|].
  destruct (firstError (checkFile r) (order m')) eqn:E1; [done|].
  destruct (String.eqb_spec (hashFileMap (Files m') "web/") "") as [|Hw1]; [done|]. cbn [orb].
  destruct (String.eqb_spec (WebHash m') (hashFileMap (Files m') "web/")) as [Hw2|]; cbn [negb]; [|done].
  destruct (firstError (checkEntry _) (walk r)) eqn:E2; [done|]. destruct (broken r) eqn:Ebk; [done|]. destruct (firstError _ required) eqn:E3; [done|].
  destruct (lstat r (pathOf "herdr-mobile-relay")) as [[|bc [|]| |]|] eqn:Eb; try done. intros [= ->].
  apply firstError_None in E1, E2, E3. rewrite Ho in E1. rewrite (fa_walk _ F Ebk) in E2.
  assert (Hn : forall p n, tree r !! p = Some n -> n <> Symlink /\ (n = Dir \/ nameOf p = ManifestName \/ (exists c x, n = File c x) /\ is_Some (Files m !! nameOf p))).
  { intros p n Hp. destruct (checkEntry_spec _ p n (proj1 (Forall_forall _ _) E2 (p, n) ltac:(by apply elem_of_map_to_list))) as [H1 H2]. split; [done|].
    destruct H2 as [H2|[H2|[H2 H3%bool_decide_eq_true]]]; auto. }
  assert (Hs : forall p, tree r !! p <> Some Symlink) by (intros p Hp; by destruct (Hn p _ Hp)).
  pose proof (fa_lstat _ F Hs) as Hl. pose proof (fa_read _ F Hs) as Hr.
  assert (Hf : forall name h, Files m !! name = Some h -> inside (pathOf name) /\ exists c x, tree r !! pathOf name = Some (File c x) /\ h = fileHash c).
  { intros name h Hh. destruct (checkFile_spec r name h (proj1 (Forall_forall _ _) E1 (name, h) ltac:(by apply elem_of_map_to_list))) as (H1 & (c & x & H2) & d & H3 & H4).
    split; [done|]. rewrite Hl in H2. rewrite Hr, H2 in H3. exists c, x. split; [done|]. congruence. }
  assert (Hm : exists data x, tree r !! pathOf ManifestName = Some (File data x)).
  { destruct (Load_spec r m El) as (data & Hd & _). rewrite Hr in Hd. destruct (tree r !! pathOf ManifestName) as [[| | |]|]; naive_solver. }
  split_and!.
  - destruct (String.eqb_spec expected ""); [by left|]. destruct (String.eqb_spec (Target m) expected); [by right|done].
  - intros p n Hp. destruct (fa_paths _ F p n Hp) as [Hi Hb]. destruct (Hn p n Hp) as [_ [->|[E|[(c & x & ->) [h Hh]]]]]; [by left| |].
    + right. destruct Hm as (data & x & Hm). assert (p = pathOf ManifestName) as -> by (rewrite <- E; by rewrite pathOf_nameOf). rewrite Hm in Hp. simplify_eq. eauto.
    + right. exists c, x. split; [done|]. right. destruct (Hf _ _ Hh) as (_ & c' & x' & H1 & ->). rewrite pathOf_nameOf in H1 by done. rewrite Hp in H1. by simplify_eq.
  - done.
  - eapply Forall_impl; [exact E3|]. cbn. intros name. case_bool_decide as Hb; [|done]. intros _. destruct Hb as [h Hh]. destruct (Hf _ _ Hh) as (_ & c & x & ? & _). eauto.
  - exists bc. by rewrite <- Hl.
  - done.
  - by rewrite Hw2.
Qed.

Lemma verified_parts order r expected m : faithful r -> linked r = false -> (forall m, order m ≡ₚ map_to_list (Files m)) -> Verify order r expected = Ok m ->
  (expected = ""%string \/ Target m = expected) /\
  (forall p n, tree r !! p = Some n -> n = Dir \/
     exists c x, n = File c x /\ (p = pathOf ManifestName \/ Files m !! nameOf p = Some (fileHash c))) /\
  (forall name h, Files m !! name = Some h -> exists c x, tree r !! pathOf name = Some (File c x) /\ h = fileHash c).
Proof.
  intros F Hlk Ho H. destruct (verified_all order r expected m F Hlk Ho H) as (V1 & V2 & V3 & _). split_and!; [done|done|]. intros name h Hh. by apply V3.
Qed.

(** C35: a release directory that verifies is exactly what its manifest says: for the
    expected platform, with every listed file present below the root with the listed hash, no
    other file, no symbolic link and nothing special anywhere in the tree, the files
    the relay needs, a relay that can be executed and the web app it names.  The root
    has to be the directory itself: see [linked_root_unchecked] for a link to it. *)
Theorem verified_exact order r expected m : faithful r -> linked r = false -> (forall m, order m ≡ₚ map_to_list (Files m)) -> Verify order r expected = Ok m ->
  (expected = ""%string \/ Target m = expected) /\
  (forall p n, tree r !! p = Some n -> n = Dir \/
     exists c x, n = File c x /\ (p = pathOf ManifestName \/ Files m !! nameOf p = Some (fileHash c))) /\
  (forall name h, Files m !! name = Some h -> inside (pathOf name) /\
     exists c x, tree r !! pathOf name = Some (File c x) /\ h = fileHash c) /\
  Forall (fun name => exists c x, tree r !! pathOf name = Some (File c x)) required /\
  (exists c, tree r !! pathOf "herdr-mobile-relay" = Some (File c true)) /\
  WebHash m = hashFileMap (Files m) "web/" /\ WebHash m <> ""%string.
Proof. apply verified_all. Qed.

(** ** What is built verifies *)

Context (encodeManifest : Manifest -> bytes).
Definition utf8 (s : string) : Prop := utf8_valid (bytes_of_string s) = true.
Definition textual (m : Manifest) : Prop :=
  Forall utf8 ([Version m; Revision m; Target m; WebHash m] ++ AppTransports m ++ RelayTransports m) /\ map_Forall (fun k v => utf8 k /\ utf8 v) (Files m).
(** SHA-256 has 32 bytes, and JSON of text is read as it was written *)
Record BuildLaws : Prop := mkBuildLaws {
  bl_hash : forall c, length (sha256 c) = 32%nat /\ Forall is_byte (sha256 c);
  bl_json : forall m, textual m -> decodeManifest (encodeManifest m) = Some m }.

Lemma hexChar_hex v : 0 <= v < 16 -> isHex (hexChar v) = true /\ lower (hexChar v) = hexChar v /\ is_byte (hexChar v).
Proof.
  intros H. assert (Hv : v = 0 \/ v = 1 \/ v = 2 \/ v = 3 \/ v = 4 \/ v = 5 \/ v = 6 \/ v = 7 \/ v = 8 \/ v = 9 \/ v = 10 \/ v = 11 \/ v = 12 \/ v = 13 \/ v = 14 \/ v = 15) by lia.
  unfold is_byte. destruct_or!; subst; vm_compute; split_and!; done.
Qed.

Lemma hexString_hex l : Forall is_byte l ->
  Forall (fun c => isHex c = true /\ lower c = c /\ is_byte c) (l ≫= (fun b => [hexChar (b / 16); hexChar (b mod 16)])) /\
  length (l ≫= (fun b => [hexChar (b / 16); hexChar (b mod 16)])) = (2 * length l)%nat.
Proof.
  induction 1 as [|b l Hb _ [IH1 IH2]]; [done|]. cbn. unfold is_byte in Hb.
  pose proof (Z.mod_pos_bound b 16). pose proof (Z.div_lt_upper_bound b 16 16). pose proof (Z.div_pos b 16).
  split; [|rewrite IH2; lia]. repeat (constructor; [apply hexChar_hex; lia|]). done.
Qed.

Lemma fileHash_valid c : BuildLaws -> validSHA256 (fileHash c) = true /\ ToLower (fileHash c) = fileHash c.
Proof.
  intros L. destruct (bl_hash L c) as [Hl Hb]. destruct (hexString_hex _ Hb) as [H1 H2].
  unfold validSHA256, ToLower, fileHash, hexString, slen. set (h := sha256 c ≫= _) in *.
  assert (Hh : Forall is_byte h) by (eapply Forall_impl; [exact H1|]; naive_solver).
  rewrite bytes_string_bytes by done.
  assert (El : lower <$> h = h).
  { clear -H1. induction H1 as [|x l (_ & E & _) _ IH]; [done|]. cbn. by rewrite E, IH. }
  rewrite El, String.eqb_refl, andb_true_r. split; [|done]. apply andb_true_iff. split.
  - apply Z.eqb_eq. rewrite <- length_bytes_of_string, bytes_string_bytes by done. rewrite H2, Hl. done.
  - apply forallb_forall. intros x Hx. apply list_elem_of_In in Hx. by apply (proj1 (Forall_forall _ _) H1).
Qed.

Lemma cleanParts_inside p : inside p -> cleanParts (join p) = p /\ IsAbs (join p) = false /\ join p <> [].
Proof.
  intros [Hne Hp]. assert (Hs : Forall (fun c => slash ∉ c) p) by (eapply Forall_impl; [exact Hp|]; by intros c (_ & _ & _ & ?)).
  assert (Ha : IsAbs (join p) = false /\ join p <> []).
  { destruct Hp as [|c p (Hc & _ & _ & Hsl) _]; [done|]. destruct c as [|b c]; [done|]. rewrite not_elem_of_cons in Hsl. destruct Hsl as [Hsl _].
    destruct p; cbn; (split; [apply Z.eqb_neq; congruence|done]). }
  destruct Ha as [Ha Hj]. split_and!; [|done|done]. unfold cleanParts. rewrite Ha, path_split_join by done.
  assert (Hf : forall l stack, Forall element l -> foldl (push false) stack l = rev l ++ stack).
  { induction l as [|c l IH]; intros stack Hl; cbn; [done|]. apply Forall_cons in Hl as [(H1 & H2 & H3 & _) Hl]. rewrite IH by done.
    unfold push. rewrite !bool_decide_eq_false_2 by done. cbn. by rewrite <- app_assoc. }
  rewrite Hf by done. rewrite app_nil_r. apply rev_involutive.
Qed.

Lemma cleanRelative_join p : inside p -> Forall (fun c => 92 ∉ c) p -> cleanRelative (join p) = Some (join p).
Proof.
  intros Hi Hb. destruct (cleanParts_inside p Hi) as (E & Ha & Hj). assert (Ec : Clean (join p) = join p).
  { unfold Clean. rewrite Ha, E. by rewrite bool_decide_eq_false_2. }
  assert (Hbs : 92 ∉ join p).
  { clear -Hb. induction Hb as [|c l Hc Hl IH]; [set_solver|]. destruct l as [|d l]; [done|]. change (join (c :: d :: l)) with (c ++ slash :: join (d :: l)).
    rewrite elem_of_app, elem_of_cons. unfold slash. intros [?|[?|?]]; done. }
  destruct Hi as [Hne Hp]. assert (Hs : splitByte slash (join p) = p).
  { apply path_split_join; [done|]. eapply Forall_impl; [exact Hp|]. by intros c (_ & _ & _ & ?). }
  assert (Hd : join p <> dot /\ join p <> dotdot /\ climbs (join p) = false).
  { split_and!.
    - intros Ej. rewrite Ej in Hs. cbn in Hs. subst p. by apply Forall_cons in Hp as [(_ & ? & _) _].
    - intros Ej. rewrite Ej in Hs. cbn in Hs. subst p. by apply Forall_cons in Hp as [(_ & _ & ? & _) _].
    - apply bool_decide_eq_false. intros Ht. assert (Hr : exists rest, join p = dotdot ++ slash :: rest).
      { destruct (join p) as [|x [|y [|z rest]]]; try done. injection Ht as -> -> ->. by exists rest. }
      destruct Hr as [rest Er]. rewrite Er, split_cons_no_slash in Hs by (unfold dotdot, slash; set_solver). subst p.
      by apply Forall_cons in Hp as [(_ & _ & ? & _) _]. }
  destruct Hd as (H1 & H2 & H3). unfold cleanRelative. rewrite Ec, Ha, H3, !bool_decide_eq_false_2 by done. done.
Qed.

(** the files of a manifest are those of the entries *)
Record built (l : list (list bytes * Node)) (files : gmap string string) : Prop := mkBuilt {
  bu_nodes : Forall (fun pn => pn.2 <> Symlink /\ (pn.2 = Dir \/ nameOf pn.1 = ManifestName \/ exists c x, pn.2 = File c x)) l;
  bu_from : forall k v, files !! k = Some v -> exists p c x, (p, File c x) ∈ l /\ nameOf p = k /\ k <> ManifestName /\ v = fileHash c;
  bu_all : forall p c x, (p, File c x) ∈ l -> nameOf p <> ManifestName -> is_Some (files !! nameOf p) }.

Lemma built_skip p n l files : n <> Symlink -> (n = Dir \/ nameOf p = ManifestName) -> built l files -> built ((p, n) :: l) files.
Proof.
  intros Hn Hp [B1 B2 B3]. constructor.
  - constructor; [cbn; naive_solver|done].
  - intros k v Hk. destruct (B2 k v Hk) as (q & c & x & ? & ?). exists q, c, x. split; [by right|done].
  - intros q c x [[= -> <-]|Hq]%elem_of_cons Hm; [naive_solver|eauto].
Qed.

Lemma built_add p c x l files : nameOf p <> ManifestName -> built l files -> built ((p, File c x) :: l) (<[nameOf p := fileHash c]> files).
Proof.
  intros Hn [B1 B2 B3]. constructor.
  - constructor; [cbn; naive_solver|done].
  - intros k v [[<- <-]|[_ Hk]]%lookup_insert_Some; [exists p, c, x; split_and!; [by left|done..]|].
    destruct (B2 k v Hk) as (q & d & y & ? & ?). exists q, d, y. split; [by right|done].
  - intros q d y [[= -> -> ->]|Hq]%elem_of_cons Hm; [rewrite lookup_insert_eq; eauto|]. apply lookup_insert_is_Some. destruct (decide (nameOf p = nameOf q)); [by left|]. right. eauto.
Qed.

Lemma buildFiles_spec l : forall files, buildFiles l = Ok files -> built l files.
Proof.
  induction l as [|[p n] l IH]; intros files; cbn [buildFiles].
  { intros [= <-]. constructor; [constructor|intros k v; by rewrite lookup_empty|set_solver]. }
  destruct (buildEntry (p, n)) as [kv|] eqn:Eb; cbn [rbind]; [|done]. destruct (buildFiles l) as [fs|]; cbn [rbind]; [|done].
  specialize (IH fs eq_refl). intros [= <-]. unfold buildEntry in Eb. cbn [fst snd] in Eb.
  destruct n as [|c x| |]; [|destruct (String.eqb_spec (nameOf p) ManifestName) as [E|E]|done|destruct (String.eqb_spec (nameOf p) ManifestName) as [E|E]; [|done]];
    simplify_eq; first [by apply built_add|apply built_skip; auto].
Qed.

Lemma hashFileMap_some files prefix name : BuildLaws -> is_Some (files !! name) -> String.prefix prefix name = true -> hashFileMap files prefix <> ""%string.
Proof.
  intros L [h Hh] Hp. unfold hashFileMap. assert (Hin : (name, h) ∈ mapText files prefix).
  { unfold mapText. apply list_elem_of_omap. exists name. rewrite merge_sort_Permutation, list_elem_of_filter. split; [|by rewrite Hh]. split; [done|].
    apply list_elem_of_fmap. exists (name, h). split; [done|]. by apply elem_of_map_to_list. }
  destruct (mapText files prefix) as [|kv l]; [set_solver|]. intros E. apply (f_equal (fun s => length (bytes_of_string s))) in E.
  destruct (bl_hash L (render (kv :: l))) as [Hl Hb]. destruct (hexString_hex _ Hb) as [H1 H2]. unfold hexString in E.
  rewrite bytes_string_bytes in E by (eapply Forall_impl; [exact H1|]; naive_solver). rewrite H2, Hl in E. done.
Qed.

Lemma build_verified order r r' version revision target m : BuildLaws -> textual m -> faithful r -> faithful r' -> linked r = false -> linked r' = false -> broken r' = false ->
  (forall m, order m ≡ₚ map_to_list (Files m)) -> tree r' = <[pathOf ManifestName := File (encodeManifest m) false]> (tree r) ->
  (forall p n, tree r !! p = Some n -> Forall (fun c => 92 ∉ c) p) ->
  Forall (fun name => exists c x, tree r !! pathOf name = Some (File c x)) required ->
  (exists c, tree r !! pathOf "herdr-mobile-relay" = Some (File c true)) ->
  Build r version revision target = Ok m -> Verify order r' target = Ok m /\ Verify order r' "" = Ok m.
Proof.
  intros L Hm F F' Hlk Hlk' Hbk' Ho Et Hbs Hreq [bc Hbin]. unfold Build, WalkDir. rewrite Hlk.
  destruct (String.eqb (TrimSpace version) "" || String.eqb (TrimSpace revision) "" || String.eqb (TrimSpace target) "") eqn:Eg; [done|].
  destruct (buildFiles (walk r)) as [files|] eqn:Eb; cbn [rbind]; [|done]. destruct (broken r) eqn:Ebk; [done|]. intros [= Em].
  destruct (buildFiles_spec _ _ Eb) as [B1 B2 B3]. rewrite (fa_walk _ F Ebk) in B1.
  assert (B2' : forall k v, files !! k = Some v -> exists p c x, tree r !! p = Some (File c x) /\ nameOf p = k /\ k <> ManifestName /\ v = fileHash c).
  { intros k v Hk. destruct (B2 k v Hk) as (p & c & x & Hp & ?). rewrite (fa_walk _ F Ebk) in Hp. apply elem_of_map_to_list in Hp. eauto. }
  assert (B3' : forall p c x, tree r !! p = Some (File c x) -> nameOf p <> ManifestName -> is_Some (files !! nameOf p)).
  { intros p c x Hp. apply (B3 p c x). rewrite (fa_walk _ F Ebk). by apply elem_of_map_to_list. }
  assert (B1' : forall p n, tree r !! p = Some n -> n <> Symlink /\ (n = Dir \/ nameOf p = ManifestName \/ exists c x, n = File c x)).
  { intros p n Hp. apply (proj1 (Forall_forall _ _) B1 (p, n)). by apply elem_of_map_to_list. }
  assert (Hs : forall p, tree r' !! p <> Some Symlink).
  { intros p. rewrite Et, lookup_insert_Some. intros [[_ ?]|[_ Hp]]; [done|]. by destruct (B1' _ _ Hp). }
  pose proof (fa_lstat _ F' Hs) as Hl. pose proof (fa_read _ F' Hs) as Hr.
  assert (Hold : forall p, nameOf p <> ManifestName -> tree r' !! p = tree r !! p).
  { intros p Hp. rewrite Et, lookup_insert_ne; [done|]. intros <-. by apply Hp. }
  assert (Hlisted : Forall (fun name => is_Some (files !! name)) required).
  { assert (Hn : Forall (fun name => nameOf (pathOf name) = name /\ name <> ManifestName) required) by (repeat constructor; try reflexivity; by vm_compute).
    apply Forall_forall. intros name Hin. destruct (proj1 (Forall_forall _ _) Hreq name Hin) as (c & x & Hc).
    destruct (proj1 (Forall_forall _ _) Hn name Hin) as [En Hnm].
    rewrite <- En. eapply B3'; [exact Hc|by rewrite En]. }
  assert (Hindex : is_Some (files !! "web/index.html"%string)) by (apply (proj1 (Forall_forall _ _) Hlisted); by right; left).
  assert (Hload : Load r' = Ok m).
  { unfold Load. rewrite Hr, Et, lookup_insert_eq, (bl_json L m Hm). subst m. cbn [Schema Version Revision Target Files].
    apply orb_false_iff in Eg as [Eg1 Eg]. rewrite Eg1. cbn [orb negb Z.eqb ManifestSchema].
    assert (Ht : target <> ""%string) by by intros ->. rewrite (proj2 (String.eqb_neq _ _) Ht). cbn [orb]. rewrite bool_decide_eq_false_2; [done|].
    intros Ef. rewrite Ef, lookup_empty in Hindex. by destruct Hindex. }
  assert (Hfiles : firstError (checkFile r') (order m) = None).
  { apply firstError_None. rewrite Ho. apply Forall_forall. intros [k v] Hk%elem_of_map_to_list. subst m. cbn in Hk.
    destruct (B2' k v Hk) as (p & c & x & Hp & Ek & Hmn & ->). destruct (fa_paths _ F p _ Hp) as [Hi Hb].
    assert (En : bytes_of_string k = join p) by (rewrite <- Ek; unfold nameOf; by rewrite bytes_string_bytes by by apply join_bytes).
    unfold checkFile. cbn [fst snd]. rewrite En.
    rewrite cleanRelative_join by eauto. rewrite bool_decide_eq_true_2 by done. destruct (fileHash_valid c L) as [-> Hlow]. cbn [negb].
    assert (Hsp : splitByte slash (join p) = p) by (apply path_split_join; [apply Hi|]; eapply Forall_impl; [apply Hi|]; by intros d (_ & _ & _ & ?)).
    unfold hashRegularFile. rewrite Hsp, Hl, Hr, Hold by (by rewrite Ek). rewrite Hp. cbn. by rewrite Hlow, String.eqb_refl. }
  assert (Hweb : hashFileMap files "web/" <> ""%string).
  { eapply (hashFileMap_some _ _ "web/index.html"); [done|exact Hindex|reflexivity]. }
  assert (Hwalk : firstError (checkEntry (fun name => bool_decide (is_Some (Files m !! name)))) (walk r') = None).
  { apply firstError_None. rewrite (fa_walk _ F' Hbk'). apply Forall_forall. intros [p n] Hp%elem_of_map_to_list. rewrite Et in Hp.
    apply lookup_insert_Some in Hp as [[<- <-]|[_ Hp]]; [done|]. destruct (B1' p n Hp) as [H1 H2]. unfold checkEntry. cbn [fst snd].
    destruct (String.eqb_spec (nameOf p) ManifestName) as [E|E]; [by destruct n|]. destruct n as [|c x| |]; try done; [|naive_solver].
    subst m. cbn [Files]. rewrite bool_decide_eq_true_2; [done|]. by eapply B3'. }
  assert (Hreq' : firstError (fun name => if bool_decide (is_Some (Files m !! name)) then None else Some (Missing name)) required = None).
  { apply firstError_None. eapply Forall_impl; [exact Hlisted|]. cbn. intros name Hn. subst m. cbn [Files]. by rewrite bool_decide_eq_true_2. }
  assert (Hgo : forall expected, expected = ""%string \/ expected = target -> Verify order r' expected = Ok m).
  { intros expected He. unfold Verify, WalkDir. rewrite Hload, Hlk', Hbk'. cbn [rbind].
    replace (negb (String.eqb expected "") && negb (String.eqb (Target m) expected)) with false
      by (subst m; cbn; destruct He as [->| ->]; [done|]; by rewrite String.eqb_refl, andb_false_r).
    rewrite Hfiles. replace (WebHash m) with (hashFileMap (Files m) "web/") by by subst m.
    replace (hashFileMap (Files m) "web/") with (hashFileMap files "web/") by by subst m.
    rewrite (proj2 (String.eqb_neq _ _) Hweb), String.eqb_refl. cbn [orb negb]. rewrite Hwalk, Hreq', Hl, Hold by done. by rewrite Hbin. }
  split; apply Hgo; auto.
Qed.

(** What is built verifies: the manifest that [Build] writes for a tree with the files
    a release needs is accepted by [Verify], for its platform and for any, and is read
    back as it was made.  (Both are directories and not links to one, the second walk
    does not break off, and names are UTF-8 without backslashes.) *)
Theorem build_verifies order r r' version revision target m : BuildLaws -> textual m -> faithful r -> faithful r' -> linked r = false -> linked r' = false -> broken r' = false ->
  (forall m, order m ≡ₚ map_to_list (Files m)) -> tree r' = <[pathOf ManifestName := File (encodeManifest m) false]> (tree r) ->
  (forall p n, tree r !! p = Some n -> Forall (fun c => 92 ∉ c) p) ->
  Forall (fun name => exists c x, tree r !! pathOf name = Some (File c x)) required ->
  (exists c, tree r !! pathOf "herdr-mobile-relay" = Some (File c true)) ->
  Build r version revision target = Ok m -> Verify order r' target = Ok m /\ Verify order r' "" = Ok m.
Proof. apply build_verified. Qed.

(** ** Transports *)

Definition maxTransportCapabilities : Z := 8.

Definition TransportCapabilities (m : Manifest) : list string * list string :=
  (if bool_decide (AppTransports m = []) then [Gate.EncryptedWebSocketSubprotocol] else AppTransports m,
   if bool_decide (RelayTransports m = []) then [Gate.EncryptedWebSocketSubprotocol] else RelayTransports m).

Inductive owner := TargetApp | TargetRelay | CurrentApp | CurrentRelay.
Inductive compatError :=
  | Undeclared | TooManyTransports (o : owner) | InvalidTransport (o : owner) (t : string) | DuplicateTransport (o : owner) (t : string)
  | TargetAppCut | CurrentAppCut.

Fixpoint validateEach (o : owner) (seen l : list string) : option compatError :=
  match l with
  | [] => None
  | t :: l =>
      if String.eqb t "" || negb (String.eqb (TrimSpace t) t) || (64 <? slen t) then Some (InvalidTransport o t)
      else if bool_decide (t ∈ seen) then Some (DuplicateTransport o t) else validateEach o (t :: seen) l
  end.
Definition validateTransportCapabilities (o : owner) (l : list string) : option compatError :=
  if maxTransportCapabilities <? len l then Some (TooManyTransports o) else validateEach o [] l.

Definition transportsIntersect (l r : list string) : bool := existsb (fun c => existsb (String.eqb c) r) l.

(** the first error *)
Definition first (l : list (option compatError)) : option compatError := firstError (fun e => e) l.

Definition ValidateUpgradeCompatibility (current target : Manifest) : option compatError :=
  if bool_decide (AppTransports target = []) || bool_decide (RelayTransports target = []) then Some Undeclared
  else
    let (currentApp, currentRelay) := TransportCapabilities current in
    first [validateTransportCapabilities TargetApp (AppTransports target); validateTransportCapabilities TargetRelay (RelayTransports target);
           validateTransportCapabilities CurrentApp currentApp; validateTransportCapabilities CurrentRelay currentRelay;
           if transportsIntersect (AppTransports target) currentRelay then None else Some TargetAppCut;
           if transportsIntersect currentApp (RelayTransports target) then None else Some CurrentAppCut].

(** a list that a release may declare *)
Definition declared (l : list string) : Prop :=
  len l <= 8 /\ NoDup l /\ Forall (fun t => t <> ""%string /\ TrimSpace t = t /\ slen t <= 64) l.

Lemma validateEach_spec o l : forall seen, validateEach o seen l = None <->
  NoDup l /\ (forall t, t ∈ l -> t ∉ seen) /\ Forall (fun t => t <> ""%string /\ TrimSpace t = t /\ slen t <= 64) l.
Proof.
  induction l as [|t l IH]; intros seen; cbn [validateEach].
  { split; [|done]. intros _. split_and!; [apply NoDup_nil_2|set_solver|constructor]. }
  rewrite NoDup_cons, Forall_cons. destruct (String.eqb t "" || negb (String.eqb (TrimSpace t) t) || (64 <? slen t)) eqn:E1.
  - split; [done|]. intros (_ & _ & (H1 & H2 & H3) & _). rewrite (proj2 (String.eqb_neq _ _) H1), (proj2 (String.eqb_eq _ _) H2) in E1. cbn in E1. zb. lia.
  - apply orb_false_iff in E1 as [[E1%String.eqb_neq E2%negb_false_iff%String.eqb_eq]%orb_false_iff E3%Z.ltb_ge].
    case_bool_decide as E4.
    + split; [done|]. intros (_ & Hs & _). exfalso. apply (Hs t); [by left|done].
    + rewrite IH. setoid_rewrite elem_of_cons. naive_solver.
Qed.

Lemma validate_spec o l : validateTransportCapabilities o l = None <-> declared l.
Proof.
  unfold validateTransportCapabilities, declared, maxTransportCapabilities. destruct (Z.ltb_spec 8 (len l)); [split; [done|lia]|].
  rewrite validateEach_spec. split; [naive_solver|]. intros (_ & ? & ?). split_and!; [done|set_solver|done].
Qed.

Lemma intersect_spec l r : transportsIntersect l r = true <-> exists t, t ∈ l /\ t ∈ r.
Proof.
  unfold transportsIntersect. rewrite existsb_exists. setoid_rewrite existsb_exists. setoid_rewrite String.eqb_eq. setoid_rewrite list_elem_of_In. naive_solver.
Qed.

Lemma compatible_spec current target :
  ValidateUpgradeCompatibility current target = None <->
  AppTransports target <> [] /\ RelayTransports target <> [] /\ declared (AppTransports target) /\ declared (RelayTransports target) /\
  declared (TransportCapabilities current).1 /\ declared (TransportCapabilities current).2 /\
  (exists t, t ∈ AppTransports target /\ t ∈ (TransportCapabilities current).2) /\
  (exists t, t ∈ (TransportCapabilities current).1 /\ t ∈ RelayTransports target).
Proof.
  clear sha256 decodeManifest encodeManifest.
  unfold ValidateUpgradeCompatibility. case_bool_decide as E1; [naive_solver|]. case_bool_decide as E2; [naive_solver|]. cbn [orb].
  destruct (TransportCapabilities current) as [ca cr]. cbn [fst snd]. unfold first. rewrite firstError_None, !Forall_cons, Forall_nil, !validate_spec, <- !intersect_spec.
  destruct (transportsIntersect (AppTransports target) cr), (transportsIntersect ca (RelayTransports target)); naive_solver.
Qed.

(** An upgrade is accepted exactly when phones and relays stay connected while it is
    rolled out: the new release and the installed one declare proper lists of
    transports, the new app shares one with the installed relay, and the installed app
    shares one with the new relay; a release without lists speaks the encrypted
    WebSocket. *)
Theorem rollout_connected current target :
  ValidateUpgradeCompatibility current target = None <->
  AppTransports target <> [] /\ RelayTransports target <> [] /\ declared (AppTransports target) /\ declared (RelayTransports target) /\
  declared (TransportCapabilities current).1 /\ declared (TransportCapabilities current).2 /\
  (exists t, t ∈ AppTransports target /\ t ∈ (TransportCapabilities current).2) /\
  (exists t, t ∈ (TransportCapabilities current).1 /\ t ∈ RelayTransports target).
Proof. apply compatible_spec. Qed.

(** ** Staging *)

(** [strings.EqualFold] of texts in ASCII *)
Definition EqualFold (a b : string) : bool := String.eqb (ToLower a) (ToLower b).

(** [strings.Fields] *)
Fixpoint fieldsFrom (cur l : bytes) : list bytes :=
  let flush := if bool_decide (cur = []) then [] else [rev cur] in
  match l with
  | [] => flush
  | b0 :: l1 =>
      if space1 b0 then flush ++ fieldsFrom [] l1 else
      match l1 with
      | b1 :: l2 =>
          if space2 b0 b1 then flush ++ fieldsFrom [] l2 else
          match l2 with
          | b2 :: l3 => if space3 b0 b1 b2 then flush ++ fieldsFrom [] l3 else fieldsFrom (b0 :: cur) l1
          | [] => fieldsFrom (b0 :: cur) l1
          end
      | [] => fieldsFrom (b0 :: cur) l1
      end
  end.

Inductive stageError :=
  | NoCurrent (e : releaseError) | NoChecksums | BadChecksum | NotListedArchive | NoStage | NoArchive | ChecksumMismatch | NoReleaseDir
  | Extract (e : archiveError) | NotRemoved | Verification (e : releaseError) | WrongIdentity | Incompatible (e : compatError).

Definition unstar (l : bytes) : bytes := match l with 42 :: l => l | _ => l end.

Fixpoint checksumIn (archiveName : bytes) (lines : list bytes) : result stageError string :=
  match lines with
  | [] => Err NotListedArchive
  | l :: lines =>
      match fieldsFrom [] l with
      | sum :: name :: _ =>
          if negb (bool_decide (unstar name = archiveName)) then checksumIn archiveName lines
          else if negb ((len sum =? 64) && forallb isHex sum) then Err BadChecksum
          else Ok (ToLower (string_of_bytes sum))
      | _ => checksumIn archiveName lines
      end
  end.
Definition checksumForArchive (data archiveName : bytes) : result stageError string := checksumIn archiveName (splitByte 10 data).

Definition maxChecksumBytes : Z := 1 * 1024 * 1024.
Definition maxArchiveBytes : Z := 128 * 1024 * 1024.

(** the answer to a request: the declared length (-1 when it is not), what was received,
    and whether that is all of it *)
Record Response := mkResponse { ContentLength : Z; received : bytes; complete : bool }.

Fixpoint limitTo (n : Z) (l : bytes) : bytes :=
  match l with [] => [] | b :: l => if n <=? 0 then [] else b :: limitTo (n - 1) l end.

Lemma limitTo_take n l : limitTo n l = take (Z.to_nat n) l.
Proof.
  revert n. induction l as [|b l IH]; intros n; cbn; [by rewrite take_nil|]. destruct (Z.leb_spec n 0); [by replace (Z.to_nat n) with 0%nat by lia|].
  rewrite IH. replace (Z.to_nat n) with (S (Z.to_nat (n - 1))) by lia. done.
Qed.

(** [io.LimitReader(response.Body, maximum+1)] read to its end: the bytes, and whether
    they came without an error *)
Definition readLimited (r : Response) (maximum : Z) : bytes * bool :=
  let data := limitTo (maximum + 1) (received r) in (data, complete r || (maximum <? len data)).

(** [None] is a request that failed *)
Definition downloadBytes (r : option Response) (maximum : Z) : option bytes :=
  let? r := r in
  let (data, whole) := readLimited r maximum in
  if negb whole || (maximum <? len data) then None else Some data.

(** the file that is left, and the checksum; [created] and [closed] are what the system answers *)
Definition downloadFile (r : option Response) (maximum : Z) (created closed : bool) : option bytes * option string :=
  match r with
  | None => (None, None)
  | Some r =>
      if (maximum <? ContentLength r) || negb created then (None, None)
      else let (data, whole) := readLimited r maximum in
           (Some data, if negb whole || negb closed || (maximum <? len data) then None else Some (fileHash data))
  end.

Record Job := mkJob { TargetVersion : string; TargetRevision : string }.

(** the directory of an update: the archive and the release in it *)
Record Stage := mkStage { archiveFile : option bytes; releaseDir : option Tree }.

(** what the system answers, and what [os.RemoveAll] leaves of a stage: its error is ignored *)
Record Outcome := mkOutcome {
  madeStage : bool; created : bool; closed : bool; madeRelease : bool; removed : bool; RemoveAll : Stage -> option Stage }.

Section Stage.
(** gzip and tar; the system on a tree it has just written; the platform *)
Context (unpack : bytes -> archive) (observe : Tree -> Root) (order : Manifest -> list (string * string)) (CurrentTarget : string).

(** from the moment the stage is there: the stage, and the release in it; the caller
    removes the stage when there is an error *)
Definition fillStage (current : Manifest) (expected : string) (body : option Response) (job : Job) (os : Outcome) :
    Stage * result stageError Manifest :=
  let (file, checksum) := downloadFile body maxArchiveBytes (created os) (closed os) in
  match checksum, file with
  | Some actual, Some data =>
      if negb (EqualFold actual expected) then (mkStage file None, Err ChecksumMismatch)
      else if negb (madeRelease os) then (mkStage file None, Err NoReleaseDir)
      else let (t, err) := extractReleaseArchive (unpack data) 0 0 ∅ in
      match err with
      | Some e => (mkStage file (Some t), Err (Extract e))
      | None =>
          if negb (removed os) then (mkStage file (Some t), Err NotRemoved)
          else (mkStage None (Some t),
            match Verify order (observe t) CurrentTarget with
            | Err e => Err (Verification e)
            | Ok m =>
                if negb (String.eqb (Version m) (TargetVersion job)) || negb (EqualFold (Revision m) (TargetRevision job))
                then Err WrongIdentity
                else match ValidateUpgradeCompatibility current m with
                | Some e => Err (Incompatible e)
                | None => Ok m
                end
            end)
      end
  | _, _ => (mkStage file None, Err NoArchive)
  end.

(** the stage that is left on disk, and the release in it *)
Definition prepareTargetRelease (current : result releaseError Manifest) (checksums body : option Response) (archiveName : bytes) (job : Job)
    (os : Outcome) : option Stage * result stageError Manifest :=
  match current with
  | Err e => (None, Err (NoCurrent e))
  | Ok current =>
      match downloadBytes checksums maxChecksumBytes with
      | None => (None, Err NoChecksums)
      | Some text =>
          match checksumForArchive text archiveName with
          | Err e => (None, Err e)
          | Ok expected =>
              if negb (madeStage os) then (None, Err NoStage)
              else let (stage, r) := fillStage current expected body job os in
                   (match r with Ok _ => Some stage | Err _ => RemoveAll os stage end, r)
          end
      end
  end.

(** ** Bytes in paths *)

Definition byteTree (t : Tree) : Prop := forall p n, t !! p = Some n -> Forall (Forall is_byte) p.

Lemma split_bytes p : Forall is_byte p -> Forall (Forall is_byte) (splitByte slash p).
Proof.
  induction 1 as [|b p Hb _ IH]; cbn; [by repeat constructor|]. case_match; [by constructor|].
  destruct (splitByte slash p) as [|c l]; [constructor; [constructor; [done|constructor]|constructor]|]. apply Forall_cons in IH as [? ?].
  constructor; [by constructor|done].
Qed.

Lemma cleanParts_bytes p : Forall is_byte p -> Forall (Forall is_byte) (cleanParts p).
Proof.
  intros Hp. unfold cleanParts. apply Forall_rev. generalize (split_bytes p Hp). generalize (splitByte slash p).
  assert (H : forall l stack, Forall (Forall is_byte) l -> Forall (Forall is_byte) stack -> Forall (Forall is_byte) (foldl (push (IsAbs p)) stack l)).
  { induction l as [|c l IH]; intros stack Hl Hs; cbn; [done|]. apply Forall_cons in Hl as [Hc Hl]. apply IH; [done|]. unfold push.
    repeat case_match; try done; try (by constructor). by apply Forall_cons in Hs as [_ ?]. }
  intros l Hl. by apply H.
Qed.

Lemma cleanArchivePath_bytes name p : Forall is_byte name -> cleanArchivePath name = Some p -> Forall (Forall is_byte) (splitByte slash p).
Proof.
  intros Hn. unfold cleanArchivePath.
  assert (Hc : Forall is_byte (Clean name)).
  { unfold Clean. pose proof (join_bytes _ (cleanParts_bytes _ Hn)). assert (Hs : is_byte slash /\ is_byte 46) by (unfold is_byte, slash; lia). destruct Hs.
    repeat case_match; try done; (constructor; [done|]); [done|constructor]. }
  case_bool_decide; [intros [= <-]; apply split_bytes; constructor|]. destruct (IsAbs (Clean name) || _ || _); [done|].
  intros [= <-]. apply split_bytes. case_bool_decide; [by apply Forall_drop|done].
Qed.

Lemma mkdirAll_bytes l : forall k above t, Forall (Forall is_byte) (above ++ l) -> byteTree t -> byteTree (mkdirAll k above l t).2.
Proof.
  induction l as [|c l IH]; intros k above t Hb Ht; cbn; [done|]. rewrite cons_middle, app_assoc in Hb.
  destruct (t !! (above ++ [c])) as [[| | |]|]; try done; [by apply IH|]. destruct k as [|k]; [done|]. apply IH; [done|].
  intros p n [[<- _]|[_ Hp]]%lookup_insert_Some; [by apply Forall_app in Hb as [? _]|by eapply Ht].
Qed.

Lemma insert_bytes p n t : Forall (Forall is_byte) p -> byteTree t -> byteTree (<[p := n]> t).
Proof. intros Hp Ht q m [[<- _]|[_ Hq]]%lookup_insert_Some; [done|by eapply Ht]. Qed.

Lemma removelast_bytes (p : list bytes) : Forall (Forall is_byte) p -> Forall (Forall is_byte) (removelast p).
Proof. intros H. destruct (decide (p = [])) as [->|Hn]; [done|]. destruct (removelast_app p Hn) as (q & c & -> & ->). by apply Forall_app in H as [? _]. Qed.

Lemma extractRegularFile_bytes e p t : Forall (Forall is_byte) p -> byteTree t -> byteTree (extractRegularFile e p t).1.
Proof.
  intros Hp Ht. unfold extractRegularFile. pose proof (mkdirAll_bytes (removelast p) (made (sys e)) [] t (removelast_bytes p Hp) Ht) as Hm.
  destruct (mkdirAll _ _ _ t) as [ok t1]. cbn [snd] in Hm. repeat case_match; cbn [fst]; try done; by apply insert_bytes.
Qed.

Lemma extractEntry_bytes e n extracted t : Forall is_byte (Name e) -> byteTree t -> byteTree (extractEntry e n extracted t).1.
Proof.
  intros He Ht. unfold extractEntry. case_if; [done|]. case_if; [done|]. destruct (cleanArchivePath (Name e)) as [name|] eqn:Ec; [|done].
  pose proof (cleanArchivePath_bytes _ _ He Ec) as Hb. destruct name as [|b name]; [done|]. destruct (Typeflag e); [| |done].
  - pose proof (mkdirAll_bytes _ (made (sys e)) [] t Hb Ht) as Hm. by destruct (mkdirAll _ _ _ t).
  - by apply extractRegularFile_bytes.
Qed.

Lemma extract_bytes a : forall n extracted t, Forall (fun o => match o with Some e => Forall is_byte (Name e) | None => True end) a ->
  byteTree t -> byteTree (extractReleaseArchive a n extracted t).1.
Proof.
  induction a as [|[e|] a IH]; intros n extracted t Ha Ht; cbn [extractReleaseArchive]; [done| |done].
  apply Forall_cons in Ha as [He Ha]. pose proof (extractEntry_bytes e (n + 1) extracted t He Ht) as H1.
  destruct (extractEntry e (n + 1) extracted t) as [t1 [err|]]; [done|by apply IH].
Qed.

(** the names of an archive are bytes, and the system shows a tree of directories and
    files in a directory that was made for it as it was written *)
Record StageLaws : Prop := mkStageLaws {
  st_names : forall data, Forall (fun o => match o with Some e => Forall is_byte (Name e) | None => True end) (unpack data);
  st_observe : forall t, wellPlaced t -> byteTree t -> faithful (observe t) /\ linked (observe t) = false /\ tree (observe t) = t;
  st_order : forall m, order m ≡ₚ map_to_list (Files m) }.

Lemma checksumIn_spec name lines sum : checksumIn name lines = Ok sum ->
  exists line s rest, line ∈ lines /\ fieldsFrom [] line = s :: rest /\ (exists n rest', rest = n :: rest' /\ unstar n = name) /\ sum = ToLower (string_of_bytes s).
Proof.
  induction lines as [|l lines IH]; cbn; [done|]. assert (Hskip : checksumIn name lines = Ok sum -> exists line s rest, line ∈ l :: lines /\
    fieldsFrom [] line = s :: rest /\ (exists n rest', rest = n :: rest' /\ unstar n = name) /\ sum = ToLower (string_of_bytes s)).
  { intros H. destruct (IH H) as (line & s & rest & ? & ?). exists line, s, rest. split; [by right|done]. }
  destruct (fieldsFrom [] l) as [|s [|n rest]] eqn:Ef; try done. case_bool_decide as En; cbn [negb]; [|done]. case_if; [done|].
  intros [= <-]. exists l, s, (n :: rest). split_and!; [by left|done|eauto|done].
Qed.

Lemma downloadFile_spec r maximum isCreated isClosed file checksum : 0 <= maximum -> downloadFile r maximum isCreated isClosed = (file, Some checksum) ->
  exists b, r = Some b /\ file = Some (received b) /\ complete b = true /\ len (received b) <= maximum /\ checksum = fileHash (received b).
Proof.
  intros Hm. unfold downloadFile. destruct r as [b|]; [|done]. unfold readLimited. rewrite limitTo_take. destruct ((maximum <? ContentLength b) || negb isCreated); [done|].
  destruct (Z.ltb_spec maximum (len (take (Z.to_nat (maximum + 1)) (received b)))) as [|Hl]; [by rewrite !orb_true_r|].
  rewrite !orb_false_r. intros [= <- H]. destruct (complete b) eqn:Ec; [|done]. destruct isClosed; [|done]. cbn in H. injection H as <-.
  rewrite length_take in Hl. assert (Hr : take (Z.to_nat (maximum + 1)) (received b) = received b) by (apply take_ge; lia).
  rewrite Hr. exists b. split_and!; try done. lia.
Qed.

Lemma downloadBytes_spec r maximum text : 0 <= maximum -> downloadBytes r maximum = Some text ->
  exists b, r = Some b /\ complete b = true /\ text = received b /\ len text <= maximum.
Proof.
  intros Hm. unfold downloadBytes. destruct r as [b|]; [|done]. cbn [mbind option_bind]. unfold readLimited. rewrite limitTo_take.
  destruct (Z.ltb_spec maximum (len (take (Z.to_nat (maximum + 1)) (received b)))) as [|Hl]; [by rewrite !orb_true_r|].
  rewrite !orb_false_r. destruct (complete b) eqn:Ec; [|done]. intros [= <-]. rewrite length_take in Hl. exists b. rewrite take_ge by lia. split_and!; try done. lia.
Qed.

Lemma downloadFile_left r maximum isCreated isClosed data : 0 <= maximum -> (downloadFile r maximum isCreated isClosed).1 = Some data -> len data <= maximum + 1.
Proof.
  intros Hm. unfold downloadFile. destruct r as [b|]; [|done]. unfold readLimited. rewrite limitTo_take. destruct (_ || _); [done|]. cbn. intros [= <-]. rewrite length_take. lia.
Qed.

(** a stage, finished or not: the archive within its limit, and a release that stays inside *)
Definition contained (s : Stage) : Prop :=
  (forall data, archiveFile s = Some data -> len data <= maxArchiveBytes + 1) /\
  forall t, releaseDir s = Some t -> (forall p n, t !! p = Some n -> inside p /\ (n = Dir \/ exists c x, n = File c x)) /\
    weigh nodeBytes t <= maxExtractedBytes.

Lemma written_contained a : let t := (extractReleaseArchive a 0 0 ∅).1 in
  (forall p n, t !! p = Some n -> inside p /\ (n = Dir \/ exists c x, n = File c x)) /\ weigh nodeBytes t <= maxExtractedBytes.
Proof.
  destruct (extract_fresh a) as [[W1 _ _ W4 _] _]. split; [apply (pl_inside _ W1)|]. change (weigh nodeBytes ∅) with 0 in W4. lia.
Qed.

Lemma fillStage_contained current expected body job os : contained (fillStage current expected body job os).1.
Proof.
  unfold fillStage. pose proof (downloadFile_left body maxArchiveBytes (created os) (closed os)) as Hd.
  destruct (downloadFile body maxArchiveBytes (created os) (closed os)) as [file checksum]. cbn [fst] in Hd.
  assert (Hf : forall data, file = Some data -> len data <= maxArchiveBytes + 1) by (intros; apply Hd; [unfold maxArchiveBytes; lia|done]).
  assert (H0 : contained (mkStage file None)) by by split.
  destruct checksum as [actual|]; [|done]. destruct file as [data|]; [|done]. case_if; [done|]. case_if; [done|].
  pose proof (written_contained (unpack data)) as Hw. destruct (extractReleaseArchive (unpack data) 0 0 ∅) as [t err]. cbn [fst] in Hw.
  assert (H1 : forall f, (f = Some data \/ f = None) -> contained (mkStage f (Some t))).
  { intros f Hx. split; [|by intros t' [= <-]]. intros d Ed. cbn in Ed. destruct Hx as [->| ->]; [by apply Hf|done]. }
  destruct err; [by apply H1; left|]. case_if; [by apply H1; left|]. by apply H1; right.
Qed.

(** a stage that is filled *)
Lemma fillStage_ok current expected body job os stage m : StageLaws -> fillStage current expected body job os = (stage, Ok m) ->
  exists b t, body = Some b /\ complete b = true /\ len (received b) <= maxArchiveBytes /\ EqualFold (fileHash (received b)) expected = true /\
    stage = mkStage None (Some t) /\ extractReleaseArchive (unpack (received b)) 0 0 ∅ = (t, None) /\
    Verify order (observe t) CurrentTarget = Ok m /\ Version m = TargetVersion job /\ EqualFold (Revision m) (TargetRevision job) = true /\
    ValidateUpgradeCompatibility current m = None.
Proof.
  intros L. unfold fillStage. destruct (downloadFile body maxArchiveBytes (created os) (closed os)) as [file [actual|]] eqn:Ed; [|done].
  apply downloadFile_spec in Ed as (b & -> & -> & Hc & Hl & ->); [|unfold maxArchiveBytes; lia].
  destruct (EqualFold (fileHash (received b)) expected) eqn:Ef; cbn [negb]; [|done]. destruct (madeRelease os); cbn [negb]; [|done].
  destruct (extractReleaseArchive (unpack (received b)) 0 0 ∅) as [t [err|]] eqn:Ex; [done|]. destruct (removed os); cbn [negb]; [|done].
  destruct (Verify order (observe t) CurrentTarget) as [m'|] eqn:Ev; [|done].
  destruct (negb (String.eqb (Version m') (TargetVersion job)) || negb (EqualFold (Revision m') (TargetRevision job))) eqn:Ei; [done|].
  destruct (ValidateUpgradeCompatibility current m') eqn:Eu; [done|]. intros [= <- ->].
  apply orb_false_iff in Ei as [Ei1%negb_false_iff%String.eqb_eq Ei2%negb_false_iff]. by exists b, t.
Qed.

(** C16: what an update stages is the release it was asked for: the archive was received
    completely and has the checksum that the release lists for it, every file of the
    stage is below it, is one of the archive and is listed in the manifest with its
    hash, and every listed file is there; the manifest is for this platform, this version
    and this commit; and in both mixed windows of the rollout (new app with old relay,
    old app with new relay) the two share a transport.  When anything is wrong there is
    no stage but what [os.RemoveAll] could not remove of one that stays inside and in
    its limits. *)
Theorem staged_is_release current checksums body archiveName job os stage res : StageLaws ->
  prepareTargetRelease current checksums body archiveName job os = (stage, res) ->
  match res with
  | Err _ => stage = None \/ exists s, contained s /\ stage = RemoveAll os s
  | Ok m =>
      exists b text t cm, body = Some b /\ complete b = true /\ len (received b) <= maxArchiveBytes /\
        checksums = Some text /\ complete text = true /\ current = Ok cm /\ stage = Some (mkStage None (Some t)) /\
        (exists line s n rest, line ∈ splitByte 10 (received text) /\ fieldsFrom [] line = s :: n :: rest /\ unstar n = archiveName /\
           EqualFold (fileHash (received b)) (ToLower (string_of_bytes s)) = true) /\
        (forall p n, t !! p = Some n -> inside p) /\
        (forall p c x, t !! p = Some (File c x) -> (p, (c, x)) ∈ filesOf (unpack (received b)) /\
           (p = pathOf ManifestName \/ Files m !! nameOf p = Some (fileHash c))) /\
        (forall name h, Files m !! name = Some h -> exists c x, t !! pathOf name = Some (File c x) /\ h = fileHash c) /\
        (CurrentTarget = ""%string \/ Target m = CurrentTarget) /\ Version m = TargetVersion job /\ EqualFold (Revision m) (TargetRevision job) = true /\
        (exists tr, tr ∈ AppTransports m /\ tr ∈ (TransportCapabilities cm).2) /\ (exists tr, tr ∈ (TransportCapabilities cm).1 /\ tr ∈ RelayTransports m)
  end.
Proof.
  intros L. unfold prepareTargetRelease. destruct current as [cm|]; [|intros [= <- <-]; by left].
  destruct (downloadBytes checksums maxChecksumBytes) as [text|] eqn:Et; [|intros [= <- <-]; by left].
  destruct (checksumForArchive text archiveName) as [expected|] eqn:Ec; [|intros [= <- <-]; by left].
  destruct (madeStage os); cbn [negb]; [|intros [= <- <-]; by left].
  pose proof (fillStage_contained cm expected body job os) as Hc. destruct (fillStage cm expected body job os) as [s [m|]] eqn:Es; intros [= <- <-]; [|right; eauto].
  destruct (fillStage_ok _ _ _ _ _ _ _ L Es) as (b & t & -> & Hb & Hl & Ef & -> & Ex & Ev & Hv & Hr & Eu).
  apply downloadBytes_spec in Et as (tx & -> & Htx & -> & _); [|unfold maxChecksumBytes; lia].
  destruct (extract_fresh (unpack (received b))) as [W X]. rewrite Ex in W, X. specialize (X eq_refl). cbn [fst] in W, X.
  assert (Hbt : byteTree t).
  { replace t with (extractReleaseArchive (unpack (received b)) 0 0 ∅).1 by by rewrite Ex. apply extract_bytes; [apply L|intros ?; by rewrite lookup_empty]. }
  destruct (st_observe L t (wr_placed _ _ _ _ _ W) Hbt) as (F & Hlk & Eo).
  destruct (verified_parts order (observe t) CurrentTarget m F Hlk (st_order L) Ev) as (V1 & V2 & V3). rewrite Eo in V2, V3.
  destruct (checksumIn_spec _ _ _ Ec) as (line & s & rest & H1 & H2 & (n & rest' & -> & H3) & ->).
  apply compatible_spec in Eu as (_ & _ & _ & _ & _ & _ & U1 & U2).
  exists b, tx, t, cm. split_and!; try done.
  - exists line, s, n, rest'. done.
  - intros p k Hp. by destruct (pl_inside _ (wr_placed _ _ _ _ _ W) p k Hp).
  - intros p c x Hp. split.
    + apply (ex_files _ _ _ _ _ X) in Hp as [Hp|]; [by rewrite lookup_empty in Hp|done].
    + destruct (V2 p _ Hp) as [?|(c' & x' & [= <- <-] & ?)]; done.
Qed.
End Stage.
End Hashes.

(** ** Instances *)

Module ToyRelease.
#[export] Instance element_dec c : Decision (element c).
Proof. unfold element. apply _. Defined.
#[export] Instance inside_dec p : Decision (inside p).
Proof. unfold inside. apply _. Defined.
#[export] Instance is_byte_dec b : Decision (is_byte b).
Proof. unfold is_byte. apply _. Defined.

(** a file system without surprises *)
Definition toyRoot (t : Tree) : Root :=
  mkRoot false t (map_to_list t) false (fun p => t !! p) (fun p => match t !! p with Some (File c _) => Some c | _ => None end).
Definition toyOrder (m : Manifest) : list (string * string) := map_to_list (Files m).
Definition toySha (c : bytes) : bytes := repeat (len c mod 256) 32.

Lemma toyRoot_faithful t : map_Forall (fun p _ => inside p /\ Forall (Forall is_byte) p) t -> faithful (toyRoot t).
Proof. intros H. constructor; [done|exact H|done|done]. Qed.

(** a manifest as the bits of its number *)
Definition manifestTuple (m : Manifest) := (Schema m, Version m, Revision m, Target m, WebHash m, AppTransports m, RelayTransports m, map_to_list (Files m)).
Definition toyEncode (m : Manifest) : bytes := Push.ToyPush.bits (encode (manifestTuple m)).
Definition toyDecode (l : bytes) : option Manifest :=
  (fun '(a, b, c, d, e, f, g, h) => mkManifest a b c d e f g (list_to_map h)) <$> decode (Push.ToyPush.unbits l).

Lemma toy_build_laws : BuildLaws toySha toyDecode toyEncode.
Proof.
  constructor.
  - intros c. unfold toySha. split; [by rewrite repeat_length|]. pose proof (Z.mod_pos_bound (len c) 256 ltac:(lia)).
    generalize 32%nat. intros k. induction k as [|k IH]; cbn; constructor; [unfold is_byte; lia|done].
  - intros m _. unfold toyDecode, toyEncode. rewrite Push.ToyPush.unbits_bits, decode_encode. cbn. rewrite list_to_map_to_list. by destruct m.
Qed.

Definition toyTree : Tree :=
  <[[bytes_of_string "web"] := Dir]> (<[[bytes_of_string "relay"] := Dir]>
    (list_to_map ((fun name => (pathOf name, File [1] (String.eqb name "herdr-mobile-relay"))) <$> required))).

Lemma toyTree_faithful : faithful (toyRoot toyTree).
Proof. apply toyRoot_faithful. apply (bool_decide_unpack _). vm_compute. exact I. Qed.

Definition toyManifest : Manifest :=
  match Build toySha (toyRoot toyTree) "1.0.0" "abc" "linux/amd64" with Ok m => m | Err _ => mkManifest 0 "" "" "" "" [] [] ∅ end.
Definition toyBuilt : Tree := <[pathOf ManifestName := File (toyEncode toyManifest) false]> toyTree.

Lemma toyBuilt_faithful : faithful (toyRoot toyBuilt).
Proof.
  apply toyRoot_faithful. unfold toyBuilt. apply map_Forall_insert_2; [|exact (fa_paths _ toyTree_faithful)].
  apply (bool_decide_unpack _). vm_compute. exact I.
Qed.

Lemma toy_textual : textual toyManifest.
Proof. split; [|intros k v H]; [repeat constructor|]. revert k v H. change (map_Forall (fun k v => utf8 k /\ utf8 v) (Files toyManifest)). unfold utf8. apply (bool_decide_unpack _). vm_compute. exact I. Qed.

Lemma toy_built : Build toySha (toyRoot toyTree) "1.0.0" "abc" "linux/amd64" = Ok toyManifest.
Proof. vm_compute. reflexivity. Qed.

Lemma toy_plain : map_Forall (fun p _ => Forall (fun c => 92 ∉ c) p) toyTree.
Proof. apply (bool_decide_unpack _). vm_compute. exact I. Qed.

Lemma toy_required : Forall (fun name => exists c x, tree (toyRoot toyTree) !! pathOf name = Some (File c x)) required.
Proof. repeat (constructor; [do 2 eexists; vm_compute; reflexivity|]). constructor. Qed.

Lemma toy_relay : exists c, tree (toyRoot toyTree) !! pathOf "herdr-mobile-relay" = Some (File c true).
Proof. eexists. vm_compute. reflexivity. Qed.

Lemma build_verifies_witness :
  Build toySha (toyRoot toyTree) "1.0.0" "abc" "linux/amd64" = Ok toyManifest /\
  Verify toySha toyDecode toyOrder (toyRoot toyBuilt) "linux/amd64" = Ok toyManifest.
Proof.
  split; [exact toy_built|].
  exact (proj1 (build_verifies toySha toyDecode toyEncode toyOrder (toyRoot toyTree) (toyRoot toyBuilt) "1.0.0" "abc" "linux/amd64" toyManifest
           toy_build_laws toy_textual toyTree_faithful toyBuilt_faithful eq_refl eq_refl eq_refl (fun m => reflexivity _) eq_refl toy_plain toy_required toy_relay toy_built)).
Defined.

Lemma toy_verified : Verify toySha toyDecode toyOrder (toyRoot toyBuilt) "" = Ok toyManifest.
Proof.
  exact (proj2 (build_verified toySha toyDecode toyEncode toyOrder (toyRoot toyTree) (toyRoot toyBuilt) "1.0.0" "abc" "linux/amd64" toyManifest
           toy_build_laws toy_textual toyTree_faithful toyBuilt_faithful eq_refl eq_refl eq_refl (fun m => reflexivity _) eq_refl toy_plain toy_required toy_relay toy_built)).
Qed.

Lemma verified_exact_witness :
  Verify toySha toyDecode toyOrder (toyRoot toyBuilt) "" = Ok toyManifest /\ WebHash toyManifest <> ""%string.
Proof.
  split; [exact toy_verified|].
  exact (proj2 (proj2 (proj2 (proj2 (proj2 (proj2 (verified_exact toySha toyDecode toyOrder (toyRoot toyBuilt) "" toyManifest toyBuilt_faithful eq_refl (fun m => reflexivity _) toy_verified))))))).
Defined.

(** the same release behind a link, with a file that is not listed and a link out of it:
    it verifies, since the walk stops at the root; through the directory it does not *)
Definition toyExtra : Tree := <[[[120]] := File [6] true]> (<[[[121]] := Symlink]> toyBuilt).
Definition behind (link : bool) (t : Tree) : Root :=
  mkRoot link t (map_to_list t) false (fun p => t !! p) (fun p => match t !! p with Some (File c _) => Some c | _ => None end).

Example linked_root_unchecked :
  is_ok (Verify toySha toyDecode toyOrder (behind true toyExtra) "linux/amd64") = true /\
  is_ok (Verify toySha toyDecode toyOrder (behind false toyExtra) "linux/amd64") = false /\
  is_ok (Verify toySha toyDecode toyOrder (behind false toyBuilt) "linux/amd64") = true.
Proof. vm_compute. split_and!; reflexivity. Qed.

(** two releases that pass both windows and cannot talk once both have been installed *)
Example last_step_unchecked :
  let release app relay := mkManifest 1 "1.0.0" "abc" "t" "" app relay ∅ in
  ValidateUpgradeCompatibility (release ["a"] ["b"])%string (release ["b"] ["a"])%string = None /\
  transportsIntersect ["b"]%string ["a"]%string = false.
Proof. vm_compute. split; reflexivity. Qed.

Definition fine : system := mkSystem 100 true None true.
Definition file (name : string) (content : bytes) (exec : bool) : option entry :=
  Some (mkEntry (bytes_of_string name) (len content) TypeReg exec content fine).
Definition toyArchive : archive :=
  Some (mkEntry (bytes_of_string "./") 0 TypeDir false [] fine) :: file "./release-manifest.json" [7] false ::
  ((fun name => file ("./" ++ name) [1] (String.eqb name "herdr-mobile-relay")) <$> required).

Definition toyStage : Tree := (extractReleaseArchive toyArchive 0 0 ∅).1.
Lemma toy_extracted : extractReleaseArchive toyArchive 0 0 ∅ = (toyStage, None).
Proof.
  assert (H : (extractReleaseArchive toyArchive 0 0 ∅).2 = None) by (vm_compute; reflexivity). unfold toyStage.
  destruct (extractReleaseArchive toyArchive 0 0 ∅) as [t err]. cbn in *. by rewrite H.
Qed.

Lemma extraction_contained_witness :
  extractReleaseArchive toyArchive 0 0 ∅ = (toyStage, None) /\ total (filesOf toyArchive) <= maxExtractedBytes.
Proof.
  split; [exact toy_extracted|].
  destruct (extraction_contained toyArchive toyStage None toy_extracted) as (_ & _ & _ & _ & _ & _ & H). apply (H eq_refl).
Defined.

(** what is left and the error *)
Definition outcome (a : archive) : list (list bytes * Node) * option archiveError :=
  let (t, err) := extractReleaseArchive a 0 0 ∅ in (map_to_list t, err).

(** entries that would leave the stage, or replace a file, are refused, and what was written before them is there *)
Example hostile_archives :
  outcome [file "../x" [1] false] = ([], Some Escapes) /\ outcome [file "a/../../x" [1] false] = ([], Some Escapes) /\
  outcome [file "/etc/x" [1] false] = ([], Some Escapes) /\
  outcome [file "a" [1] false; file "a/b" [1] false] = ([([[97]], File [1] false)], Some NotCreated) /\
  outcome [file "a" [1] false; file "b/../a" [2] false] = ([([[97]], File [1] false)], Some NotCreated).
Proof. vm_compute. split_and!; reflexivity. Qed.

(** an entry that ends early, and a disk that is full, leave a part of the file *)
Example partial_files :
  outcome [Some (mkEntry [97] 3 TypeReg false [1; 2] fine)] = ([([[97]], File [1; 2] false)], Some Truncated) /\
  outcome [Some (mkEntry [97] 3 TypeReg false [1; 2; 3] (mkSystem 0 true (Some 1%nat) true))] =
    ([([[97]], File [1] false)], Some NotWritten) /\
  outcome [Some (mkEntry (bytes_of_string "a/b/c") 0 TypeDir false [] (mkSystem 1 true None true))] = ([([[97]], Dir)], Some NotCreated).
Proof. vm_compute. split_and!; reflexivity. Qed.

Lemma toy_stage_laws : StageLaws (fun _ => toyArchive) toyRoot toyOrder.
Proof.
  constructor.
  - intros _. apply Forall_cons. split; [apply bytes_of_string_ok|]. apply Forall_cons. split; [apply bytes_of_string_ok|].
    apply Forall_fmap, Forall_forall. intros name _. apply bytes_of_string_ok.
  - intros t W B. split_and!; [|done|done]. apply toyRoot_faithful. intros p n Hp. split; [by destruct (pl_inside _ W p n Hp)|by eapply B].
  - intros m. reflexivity.
Qed.

Definition toySums : option Response :=
  Some (mkResponse (-1) (bytes_of_string ("0101010101010101010101010101010101010101010101010101010101010101  *relay.tar.gz")) true).
Definition prepareWith (body : option Response) (os : Outcome) :=
  prepareTargetRelease toySha (fun _ => Some toyManifest) (fun _ => toyArchive) toyRoot toyOrder "linux/amd64"
    (Ok toyManifest) toySums body (bytes_of_string "relay.tar.gz") (mkJob "1.0.0" "ABC") os.
Definition toyBody : option Response := Some (mkResponse 1 [9] true).
Definition toyPrepare := prepareWith toyBody (mkOutcome true true true true true (fun _ => None)).

Lemma toy_prepared : is_ok toyPrepare.2 = true.
Proof. vm_compute. reflexivity. Qed.

Lemma staged_is_release_witness : exists stage m, toyPrepare = (stage, Ok m) /\ Version m = "1.0.0"%string.
Proof.
  pose proof toy_prepared as Hok. destruct toyPrepare as [stage [m|e]] eqn:E; [|done]. exists stage, m. split; [done|].
  destruct (staged_is_release toySha (fun _ => Some toyManifest) (fun _ => toyArchive) toyRoot toyOrder "linux/amd64" (Ok toyManifest)
    toySums toyBody (bytes_of_string "relay.tar.gz") (mkJob "1.0.0" "ABC") (mkOutcome true true true true true (fun _ => None)) stage (Ok m) toy_stage_laws E)
    as (b & text & t & cm & _ & _ & _ & _ & _ & _ & _ & _ & _ & _ & _ & _ & H & _). exact H.
Defined.

(** a download that breaks off leaves its part of the archive when the stage cannot be removed *)
Example stage_left_behind :
  fst (prepareWith (Some (mkResponse 5 [9; 9] false)) (mkOutcome true true true true true Some)) = Some (mkStage (Some [9; 9]) None).
Proof. vm_compute. reflexivity. Qed.
End ToyRelease.
End Release.
